(* ===== verification/_CoqProject ===== *)
-Q . S2P
Prelude.v
Aes.v
Ctr.v
Mem.v
CString.v
Umalloc.v
UmallocProps.v
Spinlock.v
Kernel.v
Entropy.v
Kalloc.v
Hash.v
Prng.v
Grep.v
Sh.v
File.v
ShRun.v
Pipe.v
Bio.v
Log.v
Fs.v
Dir.v
Namei.v
Mkfs.v
MkfsProps.v
MkfsImage.v
Ide.v
IdeProps.v
PipeNet.v
FsFree.v
FileIO.v
Path.v
Print.v
Printfmt.v
ConsoleOut.v
Console.v
Kbd.v
Mp.v
Trap.v
Proc.v
ProcInv.v
ProcSteps.v
ProcRun.v
Syscall.v
PageMem.v
Vm.v
VmFacts.v
VmUser.v
VmOps.v
VmCopy.v
VmProps.v
Exec.v
ExecProps.v
ProcVm.v
ProcOps.v
