(* ===== verification/Prelude.v ===== *)
(** A verification development for an xv6 kernel with a random number generator, AES and select.

    The program is a small Unix for x86 multiprocessors (xv6) to which a generator of random numbers
    in the style of Fortuna, the AES cipher in counter mode, a SHA-256 style hash and the [select] call were
    added.  The files of this library model its parts as Rocq functions and prove what they
    promise to each other.

    * How the code is represented

    Machine integers are [Z] with their wrap-around written out ([u8], [u32], [s32], ...).
    Code that changes state is a function in the monad [K S A], from a state to a
    result, and can return, [Panic], [Fault] (leave the defined behaviour of C, for example by an access
    outside an array) or [Spin] (wait for ever).  [wp m Q s] is total correctness: [m] started in
    [s] returns and the result satisfies [Q], so a theorem stated with [wp] also says that no
    panic, no fault and no endless loop happens.  Where a part calls code that may stop for reasons of its own, [Stops.wp]
    also allows the stops that are named.  Loops over arrays are [forM], [foldM] and [for_n];
    loops that search have a fuel which is the length of what is searched, so that it
    suffices.  A section under a lock is one atomic step; where the interleaving itself is
    the point (spin locks, pipes, processes, the log) the steps of several CPUs or processes are
    sequences of operations in any order, or a step relation.

    * The parts

    - Prelude: integers, byte lists, the monad, its rules and tactics.
    - Aes (aes.c): key schedule, cipher and inverse; equal to FIPS-197 written over the field GF(2^8).
    - Ctr (ctr.c): counter mode; a round trip for messages that fit, and the overrun for longer ones.
    - Mem: the interface of byte-addressed memory and paged memory, which implements it.
    - CString (string.c, and stosb and stosl of x86.h).
    - Spinlock (spinlock.c): [acquire] and [release] as sequences of memory accesses, run as a whole and interleaved on
      several CPUs; nesting of interrupts, and mutual exclusion.
    - Kernel: the state that the generator and what it calls share.  Entropy (entropyacc.c), Kalloc
      (kalloc.c), Hash (hash.c) and Prng (prng.c) work on it.
    - Grep (grep.c, wc.c) and Print (printf.c, ulib.c): user programs and the user library.
    - Sh and ShRun (sh.c): the parser, and running a parsed command.
    - File (file.c, the descriptor calls of sysfile.c, the descriptor loops of proc.c): reference counts.
    - Pipe (pipe.c, select.c, sys_select of sysfile.c).
    - Bio (bio.c, memide.c): the buffer cache, and the class [BufferCache] of what it promises.
    - Log (log.c): the log, proved against [BufferCache], with crashes at every disk write.
    - Fs, Dir, FsFree (fs.c): blocks, inodes, files, directories, paths; the blocks are a memory as the log
      provides it.
    - Namei: the inode cache, and [namei] (fs.c) on a tree of directories.
    - FileIO (file.c, sys_read, sys_write and sys_fstat of sysfile.c): reading and writing of open files,
      over the file table, the pipes, the file system, the entropy pools and the brackets of the log; the functions
      that [select] uses.
    - Path (sysfile.c): open, link, unlink, mkdir, mknod and chdir.
    - Mkfs, MkfsProps, MkfsImage (mkfs.c): the builder of the first disk image; MkfsProps has what its functions do
      to the image, MkfsImage that the kernel's file system (Fs, Namei) reads the result.
    - Ide, IdeProps (ide.c): the disk driver, over a class [Ports] of port operations.  IdeProps has the laws of a
      controller as a class [Controller], a controller that keeps them, and the refinement to memide.c.
    - PipeNet (pipenet.c): three processes that pass encrypted messages between the console and a shell.
    - Printfmt (printfmt.c): formatted printing, with the overflows of its [int]s, compared with printf.c.
    - ConsoleOut (the output of console.c, uartputc of uart.c): cprintf and the screen, over a class [Display] of the
      screen's cursor registers.
    - Console (console.c): the line discipline of console input.
    - Kbd (kbd.c, kbd.h, the receiver of uart.c): scan codes to characters, delivered to the console.
    - Mp (mp.c, mp.h): the search for the processors of the machine.
    - Trap (trap.c, the clock calls of sysproc.c): the dispatch of traps, over a class [Handlers] of what it calls and that may
      end the process or stop.
    - Proc, ProcInv, ProcSteps, ProcRun, ProcVm, ProcOps (proc.c): processes and the scheduler.  Proc has the
      functions, over a class [Services] of what the rest of the kernel does for them;
      ProcInv the invariant and how exit, wait and fork change it; ProcSteps, ProcRun and ProcOps
      the operations and the properties, proved against the contracts of the class [ServicesSpec] for the calls that
      return; ProcVm shows the contracts for the code of kalloc.c, vm.c, file.c and fs.c.
    - Syscall (syscall.c): fetching and checking of arguments, dispatch; the arguments of sys_exec.
    - PageMem, Vm, VmFacts, VmUser, VmOps, VmCopy, VmProps (vm.c): page tables.  PageMem has the class
      [PageMemory] of what the code needs of memory and of the page allocator; Vm the functions
      over it; VmFacts what a directory maps; VmUser and VmOps growing, shrinking, freeing and copying an
      address space; VmCopy copying bytes into one; VmProps the properties.
    - Exec, ExecProps (exec.c, elf.h): loading a program, over the page tables and the file system.  ExecProps
      has the image a file describes, the stack of [main] over it, and the theorem that [exec] builds
      them.
    - Umalloc, UmallocProps (umalloc.c): [malloc] and [free] on user memory, over a class [Program] with
      [sbrk]; the store of blocks they implement.

    * What the theorems show

    - Storage: reads and writes through the cache are those of the disk; the log makes groups of calls
      atomic with respect to crashes; [writei] and [readi] implement a byte array per file without touching
      other files; [itrunc] frees exactly the blocks of a file; a directory is a map from
      names to inodes, and a path is resolved in the tree of directories without a reference being
      lost; a write through a descriptor commits prefixes of its bytes, reads return the bytes in order;
      [open] and [chdir] give back what they take.  The image that mkfs writes is a file system in which the kernel
      finds every file with its bytes, and mkfs appends to a file as the kernel would; the IDE driver serves
      its queue as the memory disk does.
    - Memory: [setupkvm] maps the kernel as its comment says; an address space stays well formed under
      any sequence of calls, [freevm] returns all of it, [copyuvm] isolates parent and child; [exec] replaces
      an address space by the image of a file with its stack, or fails and changes nothing.  In user
      memory, [malloc] and [free] keep the blocks of a program apart and unchanged.
    - Processes: the table is consistent on all CPUs and holds exactly the resources of its processes, and an
      operation stops only in a call to another part;
      exits are collected once; the scheduler is fair; [kill(0)] is a bug.  Descriptors count
      files exactly, pipes are first-in first-out and lose no wakeup.  A trap returns to user space only in a
      process that is not killed.
    - Randomness: pools hold the last bytes of their streams, a reseed and a request do what they
      should on the kernel memory, the page allocator is a stack of pages; and several errors of
      the code are theorems about inputs where it panics or overruns.
    - Text: shell parsing is inverse to printing and always ends, running a command connects the
      right descriptors, grep decides its patterns, the console implements its line discipline, numbers
      print and read back.  Keys pressed reach a reader of the console as the characters printed on them; what the kernel
      prints appears on the screen and the serial line; the printing routines agree with each other.
    - Errors of the code as theorems: a failed disk read counts as valid, [mpinit] hangs on an unknown entry, the
      encrypted link mixes up messages that are read together and repeats its key stream.

    * Bounds

    The constants are those of the headers (64 processes, 30 buffers, 512-byte blocks, 4096-byte pages, ...).
    Theorems that need it assume that counters do not reach 2^31, for example fewer than
    2^31 - 1 processes in a run.  Fuel: [kill_line] of the console runs at most as often as there are
    characters in the line; the parser of the shell is structural on the length of the line;
    [skipelem] and [namex] on the length of the path; the count of free pages on the number of pages;
    the loops of vm.c on the number of pages up to the size; [malloc] and [free] go round the ring of free
    blocks at most twice, and a run of [n] calls has at most [n] free blocks; [iappend] on the bytes to append; [printnum] on
    the digits of a 64-bit number and [vprintfmt] on the length of the format; [idewait] on the patience of the
    controller, which its laws bound; the keyboard and the serial port on the bytes they hold; [mpinit] on the number of
    entries, with a theorem that no amount is enough for an unknown one.  [exec] is proved for
    arguments shorter than a page and [malloc] for requests up to 2^30 bytes, beyond which the code
    goes wrong.

    * Parameters

    Left shifts by undefined distances (the class [OverShift]), what [read] delivers to a user program
    ([Reader]), the end of the kernel image ([Platform]), [sbrk] for a user program ([Program]), operations of devices
    behind [devsw], the ports of the disk controller ([Ports], [Controller]) and the registers of the screen ([Display]),
    the handlers that [trap] calls ([Handlers], [HandlerLaws]), the error texts of printfmt.c, the bytes [random] puts
    in the counter of pipenet.c, what the stack holds where [exec] puts an ELF header it fails to read,
    and for processes the operations of [Services], which ProcVm takes from the models of the other parts; the log is
    left open there.

    * Not modelled

    The parts of vm.c that only load registers (seginit, kvmalloc, switchkvm); boot code, the trap vectors and
    the context switch, which are assembly; the interrupt controllers, the timer and the initialisation of devices, which
    only write registers; test programs and those that only sequence system calls; the debugging output of
    procdump and getcallerpcs. *)

From stdpp Require Export base option list list_numbers gmap strings.
From Stdlib Require Export ZArith Lia.

Global Open Scope Z_scope.

(** * Machine integers *)

(** A C integer of width [w] is a [Z]; the unsigned and signed conversions
    reduce modulo [2^w]. *)
Definition u8 (x : Z) : Z := x mod 256.
Definition u16 (x : Z) : Z := x mod 65536.
Definition u32 (x : Z) : Z := x mod 4294967296.
Definition s8 (x : Z) : Z := let y := u8 x in if y <? 128 then y else y - 256.
Definition s16 (x : Z) : Z := let y := u16 x in if y <? 32768 then y else y - 65536.
Definition s32 (x : Z) : Z :=
  let y := u32 x in if y <? 2147483648 then y else y - 4294967296.

Definition is_byte (x : Z) : Prop := 0 <= x < 256.
Definition is_u32 (x : Z) : Prop := 0 <= x < 4294967296.
Definition is_s32 (x : Z) : Prop := -2147483648 <= x < 2147483648.

Create HintDb machint.

Lemma u8_byte x : is_byte (u8 x).
Proof. apply Z.mod_pos_bound. lia. Qed.

Lemma u32_is_u32 x : is_u32 (u32 x).
Proof. apply Z.mod_pos_bound. lia. Qed.

Lemma u8_id x : is_byte x -> u8 x = x.
Proof. apply Z.mod_small. Qed.

Lemma u32_id x : is_u32 x -> u32 x = x.
Proof. apply Z.mod_small. Qed.

Lemma u8_s8 x : u8 (s8 x) = u8 x.
Proof.
  unfold s8. destruct (u8 x <? 128) eqn:E; unfold u8 in *.
  - apply Z.mod_mod. lia.
  - rewrite Zminus_mod, Z.mod_same, Z.sub_0_r, !Z.mod_mod; lia.
Qed.

Lemma s32_id x : is_s32 x -> s32 x = x.
Proof.
  unfold is_s32, s32, u32. intros H.
  destruct (decide (0 <= x)).
  - rewrite Z.mod_small by lia. destruct (x <? 2147483648) eqn:E; lia.
  - replace (x mod 4294967296) with (x + 4294967296).
    + destruct (x + 4294967296 <? 2147483648) eqn:E; lia.
    + apply (Z.mod_unique_pos _ _ (-1)); lia.
Qed.

Lemma s32_is_s32 x : is_s32 (s32 x).
Proof. pose proof (u32_is_u32 x). unfold is_s32, is_u32, s32 in *. destruct (u32 x <? 2147483648) eqn:E; lia. Qed.

Lemma u32_s32 x : u32 (s32 x) = u32 x.
Proof.
  unfold s32. destruct (u32 x <? 2147483648) eqn:E; unfold u32 in *.
  - apply Z.mod_mod. lia.
  - rewrite Zminus_mod, Z.mod_same, Z.sub_0_r, !Z.mod_mod; lia.
Qed.

#[export] Hint Resolve u8_byte u32_is_u32 : machint.

(** Bitwise facts: each width is closed under the bit operations, and the
    narrowing conversions distribute over exclusive or. *)
Lemma mod_pow2_testbit a n i :
  0 <= n -> 0 <= i -> Z.testbit (a mod 2 ^ n) i = (i <? n) && Z.testbit a i.
Proof.
  intros Hn Hi. destruct (i <? n) eqn:E; simpl.
  - apply Z.mod_pow2_bits_low. lia.
  - apply Z.mod_pow2_bits_high. lia.
Qed.

Lemma bounded_mod a n : 0 <= a < 2 ^ n -> a mod 2 ^ n = a.
Proof. apply Z.mod_small. Qed.

Lemma lxor_bounded n a b :
  0 <= n -> 0 <= a < 2 ^ n -> 0 <= b < 2 ^ n -> 0 <= Z.lxor a b < 2 ^ n.
Proof.
  intros Hn Ha Hb.
  replace (Z.lxor a b) with (Z.lxor a b mod 2 ^ n).
  - apply Z.mod_pos_bound. lia.
  - apply Z.bits_inj'. intros i Hi.
    rewrite mod_pow2_testbit, Z.lxor_spec by lia.
    rewrite <- (bounded_mod a n Ha), <- (bounded_mod b n Hb).
    rewrite !mod_pow2_testbit by lia.
    destruct (i <? n); reflexivity.
Qed.

Lemma lor_bounded n a b :
  0 <= n -> 0 <= a < 2 ^ n -> 0 <= b < 2 ^ n -> 0 <= Z.lor a b < 2 ^ n.
Proof.
  intros Hn Ha Hb.
  replace (Z.lor a b) with (Z.lor a b mod 2 ^ n).
  - apply Z.mod_pos_bound. lia.
  - apply Z.bits_inj'. intros i Hi.
    rewrite mod_pow2_testbit, Z.lor_spec by lia.
    rewrite <- (bounded_mod a n Ha), <- (bounded_mod b n Hb).
    rewrite !mod_pow2_testbit by lia.
    destruct (i <? n); reflexivity.
Qed.

Lemma land_bounded n a b :
  0 <= n -> 0 <= b < 2 ^ n -> 0 <= Z.land a b < 2 ^ n.
Proof.
  intros Hn Hb.
  replace (Z.land a b) with (Z.land a b mod 2 ^ n).
  - apply Z.mod_pos_bound. lia.
  - apply Z.bits_inj'. intros i Hi.
    rewrite mod_pow2_testbit, Z.land_spec by lia.
    rewrite <- (bounded_mod b n Hb).
    rewrite !mod_pow2_testbit by lia.
    destruct (i <? n); simpl; rewrite ?andb_false_r; reflexivity.
Qed.

Lemma lxor_byte a b : is_byte a -> is_byte b -> is_byte (Z.lxor a b).
Proof. apply (lxor_bounded 8); lia. Qed.

Lemma lxor_u32 a b : is_u32 a -> is_u32 b -> is_u32 (Z.lxor a b).
Proof. apply (lxor_bounded 32); lia. Qed.

Lemma lor_u32 a b : is_u32 a -> is_u32 b -> is_u32 (Z.lor a b).
Proof. apply (lor_bounded 32); lia. Qed.

#[export] Hint Resolve lxor_byte lxor_u32 lor_u32 : machint.

Lemma mod_lxor n a b :
  0 <= n -> Z.lxor a b mod 2 ^ n = Z.lxor (a mod 2 ^ n) (b mod 2 ^ n).
Proof.
  intros Hn. apply Z.bits_inj'. intros i Hi.
  rewrite mod_pow2_testbit, !Z.lxor_spec, !mod_pow2_testbit by lia.
  destruct (i <? n); simpl; reflexivity.
Qed.

Lemma u8_lxor a b : u8 (Z.lxor a b) = Z.lxor (u8 a) (u8 b).
Proof. apply (mod_lxor 8). lia. Qed.

Lemma lxor_cancel_r a b : Z.lxor (Z.lxor a b) b = a.
Proof. rewrite Z.lxor_assoc, Z.lxor_nilpotent. apply Z.lxor_0_r. Qed.

(** * Bytes of words *)

(** The [n] low bytes of a word, least significant first, and back. *)
Fixpoint le_bytes (n : nat) (w : Z) : list Z :=
  match n with
  | O => []
  | S n' => u8 w :: le_bytes n' (w / 256)
  end.

Fixpoint le_word (bs : list Z) : Z :=
  match bs with
  | [] => 0
  | b :: bs' => b + 256 * le_word bs'
  end.

Lemma length_le_bytes n w : length (le_bytes n w) = n.
Proof. revert w. induction n; intros; simpl; auto. Qed.

Lemma le_word_bytes n w : le_word (le_bytes n w) = w mod 256 ^ Z.of_nat n.
Proof.
  revert w. induction n as [|n IH]; intros w.
  - simpl. rewrite Z.mod_1_r. reflexivity.
  - cbn [le_bytes le_word]. rewrite IH, Nat2Z.inj_succ, Z.pow_succ_r by lia.
    unfold u8. rewrite Z.rem_mul_r by lia. reflexivity.
Qed.

Lemma le_bytes_word bs :
  Forall is_byte bs -> le_bytes (length bs) (le_word bs) = bs.
Proof.
  induction 1 as [|b bs Hb _ IH]; [reflexivity|].
  cbn [le_word le_bytes length]. unfold is_byte, u8 in *. f_equal.
  - rewrite Z.mul_comm, Z.mod_add, Z.mod_small by lia. reflexivity.
  - rewrite Z.mul_comm, Z.div_add, Z.div_small, Z.add_0_l by lia. exact IH.
Qed.

Lemma le_bytes_byte n w : Forall is_byte (le_bytes n w).
Proof. revert w. induction n; intros; simpl; constructor; auto using u8_byte. Qed.

Lemma le_word_u32 w : is_u32 w -> le_word (le_bytes 4 w) = w.
Proof. intros H. rewrite le_word_bytes. apply Z.mod_small, H. Qed.

(** [memmove] of [bs] to offset [off] of a buffer, and the [n] bytes at [off]. *)
Definition splice (off : nat) (bs d : list Z) : list Z := take off d ++ bs ++ drop (off + length bs) d.
Definition window (off n : nat) (d : list Z) : list Z := take n (drop off d).

Lemma length_splice off bs d : (off + length bs <= length d)%nat -> length (splice off bs d) = length d.
Proof. intros H. unfold splice. rewrite !length_app, length_take, length_drop. lia. Qed.

Lemma length_window off n d : (off + n <= length d)%nat -> length (window off n d) = n.
Proof. intros H. unfold window. rewrite length_take, length_drop. lia. Qed.

Lemma window_same off n bs d : length bs = n -> (off + n <= length d)%nat -> window off n (splice off bs d) = bs.
Proof.
  intros <- H. unfold window, splice. rewrite drop_app_length' by (rewrite length_take; lia).
  apply take_app_length.
Qed.

Lemma lookup_splice off bs d i : (off + length bs <= length d)%nat ->
  splice off bs d !! i = if decide (off <= i < off + length bs)%nat then bs !! (i - off)%nat else d !! i.
Proof.
  intros H. unfold splice. assert (E : length (take off d) = off) by (rewrite length_take; lia).
  destruct (decide (i < off)%nat) as [Hi|Hi].
  - rewrite decide_False by lia. rewrite lookup_app_l by lia. apply lookup_take_lt. exact Hi.
  - rewrite lookup_app_r by lia. rewrite E. destruct (decide _) as [Hj|Hj].
    + apply lookup_app_l. lia.
    + rewrite lookup_app_r, lookup_drop by lia. f_equal. lia.
Qed.

Lemma lookup_window off n d i : (i < n)%nat -> window off n d !! i = d !! (off + i)%nat.
Proof. intros H. unfold window. rewrite lookup_take_lt by exact H. apply lookup_drop. Qed.

Lemma window_other off off' n bs d : (off + length bs <= length d)%nat ->
  (off' + n <= off \/ off + length bs <= off')%nat -> window off' n (splice off bs d) = window off' n d.
Proof.
  intros H Hd. apply list_eq. intros i. destruct (decide (i < n)%nat) as [Hi|Hi].
  - rewrite !lookup_window by exact Hi. rewrite lookup_splice by exact H. rewrite decide_False by lia. reflexivity.
  - unfold window. rewrite !lookup_take_ge by lia. reflexivity.
Qed.

Lemma Forall_splice (P : Z -> Prop) off bs d : Forall P bs -> Forall P d -> Forall P (splice off bs d).
Proof. intros Hb Hd. unfold splice. rewrite !Forall_app. split; [apply Forall_take, Hd|]. split; [exact Hb|apply Forall_drop, Hd]. Qed.

(** * Outcomes *)

(** What running C code can do: return, call [panic], leave the defined
    behaviour of C (an access outside an object or to an unmapped address),
    or loop for ever on this CPU. *)
Inductive res (A : Type) : Type :=
  | Ok (a : A)
  | Panic (msg : string)
  | Fault (why : string)
  | Spin.
Arguments Ok {A} a.
Arguments Panic {A} msg.
Arguments Fault {A} why.
Arguments Spin {A}.

#[export] Instance res_ret : MRet res := fun A a => Ok a.
#[export] Instance res_bind : MBind res := fun A B f m =>
  match m with
  | Ok a => f a
  | Panic msg => Panic msg
  | Fault why => Fault why
  | Spin => Spin
  end.

(** Code that works on a state [S]. *)
Definition K (S A : Type) : Type := S -> res (A * S).

#[export] Instance K_ret S : MRet (K S) := fun A a s => Ok (a, s).
#[export] Instance K_bind S : MBind (K S) := fun A B f m s =>
  match m s with
  | Ok (a, s') => f a s'
  | Panic msg => Panic msg
  | Fault why => Fault why
  | Spin => Spin
  end.

Definition get {S} : K S S := fun s => Ok (s, s).
Definition gets {S A} (f : S -> A) : K S A := fun s => Ok (f s, s).
Definition modify {S} (f : S -> S) : K S unit := fun s => Ok (tt, f s).
Definition panic {S A} (msg : string) : K S A := fun _ => Panic msg.
Definition fault {S A} (why : string) : K S A := fun _ => Fault why.
Definition lift_res {S A} (r : res A) : K S A := fun s =>
  match r with
  | Ok a => Ok (a, s)
  | Panic msg => Panic msg
  | Fault why => Fault why
  | Spin => Spin
  end.
Definition lift_opt {S A} (why : string) (o : option A) : K S A := fun s =>
  match o with Some a => Ok (a, s) | None => Fault why end.
Definition skip {S} : K S unit := mret tt.

(** [for (x in l) f(x)], in order, stopping at the first abnormal outcome. *)
Fixpoint forM {S X} (l : list X) (f : X -> K S unit) : K S unit :=
  match l with
  | [] => skip
  | x :: l' => f x ;; forM l' f
  end.

(** The same with a local variable that the rounds update. *)
Fixpoint foldM {S X A} (l : list X) (f : A -> X -> K S A) (a : A) : K S A :=
  match l with
  | [] => mret a
  | x :: l' => a' ← f a x; foldM l' f a'
  end.

(** Total correctness: [m] started in [s] returns, in a state and with a
    result that satisfy [Q]. *)
Definition wp {S A} (m : K S A) (Q : A -> S -> Prop) (s : S) : Prop :=
  exists a s', m s = Ok (a, s') /\ Q a s'.

Create HintDb wp.

Section wp_rules.
Context {S : Type}.

Lemma wp_ret {A} (a : A) (Q : A -> S -> Prop) s : Q a s -> wp (mret a) Q s.
Proof. intros H. exists a, s. split; auto. Qed.

Lemma wp_bind {A B} (m : K S A) (f : A -> K S B) Q s :
  wp m (fun a => wp (f a) Q) s -> wp (m ≫= f) Q s.
Proof.
  intros (a & s1 & E1 & b & s2 & E2 & HQ).
  exists b, s2. unfold mbind, K_bind. rewrite E1. auto.
Qed.

Lemma wp_mono {A} (m : K S A) (Q R : A -> S -> Prop) s :
  wp m Q s -> (forall a s', Q a s' -> R a s') -> wp m R s.
Proof. intros (a & s1 & E & H) HR. exists a, s1. auto. Qed.

(** A panic after a part that returns. *)
Lemma bind_panic {A B} (m : K S A) (f : A -> K S B) msg s :
  wp m (fun a s' => f a s' = Panic msg) s -> (m ≫= f) s = Panic msg.
Proof. intros (a & s1 & E & H). unfold mbind, K_bind. rewrite E. exact H. Qed.

Lemma bind_panic_l {A B} (m : K S A) (f : A -> K S B) msg s :
  m s = Panic msg -> (m ≫= f) s = Panic msg.
Proof. intros E. unfold mbind, K_bind. rewrite E. reflexivity. Qed.

Lemma wp_gets {A} (f : S -> A) Q s : Q (f s) s -> wp (gets f) Q s.
Proof. intros H. exists (f s), s. auto. Qed.

Lemma wp_get (Q : S -> S -> Prop) s : Q s s -> wp get Q s.
Proof. intros H. exists s, s. auto. Qed.

Lemma wp_modify (f : S -> S) Q s : Q tt (f s) -> wp (modify f) Q s.
Proof. intros H. exists tt, (f s). auto. Qed.

Lemma wp_lift_res {A} (r : res A) a (Q : A -> S -> Prop) s :
  r = Ok a -> Q a s -> wp (lift_res r) Q s.
Proof. intros -> H. exists a, s. auto. Qed.

Lemma wp_lift_opt {A} why (o : option A) a (Q : A -> S -> Prop) s :
  o = Some a -> Q a s -> wp (lift_opt why o) Q s.
Proof. intros -> H. exists a, s. auto. Qed.

Lemma wp_skip (Q : unit -> S -> Prop) s : Q tt s -> wp skip Q s.
Proof. apply wp_ret. Qed.

(** The loop rule: an invariant indexed by the number of rounds done. *)
Lemma wp_forM {X} (l : list X) (f : X -> K S unit) (I : nat -> S -> Prop) s :
  I O s ->
  (forall i x s', l !! i = Some x -> I i s' -> wp (f x) (fun _ => I (Datatypes.S i)) s') ->
  wp (forM l f) (fun _ => I (length l)) s.
Proof.
  revert I s. induction l as [|x l IH]; intros I s H0 Hstep; simpl.
  - apply wp_skip, H0.
  - apply wp_bind. eapply wp_mono; [apply (Hstep O x s); [reflexivity|exact H0]|].
    intros [] s1 H1. apply (IH (fun i => I (Datatypes.S i))); [exact H1|].
    intros i y s2 Hy. apply (Hstep (Datatypes.S i)). exact Hy.
Qed.

Lemma wp_foldM {X A} (l : list X) (f : A -> X -> K S A) (I : nat -> A -> S -> Prop) a s :
  I O a s ->
  (forall i x a s', l !! i = Some x -> I i a s' -> wp (f a x) (fun a' => I (Datatypes.S i) a') s') ->
  wp (foldM l f a) (fun a' => I (length l) a') s.
Proof.
  revert I a s. induction l as [|x l IH]; intros I a s H0 Hstep; simpl.
  - apply wp_ret, H0.
  - apply wp_bind. eapply wp_mono; [apply (Hstep O x a s); [reflexivity|exact H0]|].
    intros a1 s1 H1. apply (IH (fun i => I (Datatypes.S i))); [exact H1|].
    intros i y a2 s2 Hy. apply (Hstep (Datatypes.S i)). exact Hy.
Qed.

Lemma wp_forM_app {X} (l1 l2 : list X) (f : X -> K S unit) Q s :
  wp (forM l1 f) (fun _ => wp (forM l2 f) Q) s -> wp (forM (l1 ++ l2) f) Q s.
Proof.
  revert s. induction l1 as [|x l1 IH]; intros s; simpl.
  - intros (a & s' & E & H). injection E as <- <-. exact H.
  - intros H. destruct H as (a & s' & E & H). revert E.
    unfold mbind, K_bind. destruct (f x s) as [[b s1]|?|?|] eqn:Ef; try discriminate.
    intros E. assert (H' : wp (forM (l1 ++ l2) f) Q s1).
    { apply IH. exists a, s'. auto. }
    destruct H' as (c & s2 & E2 & HQ). exists c, s2. unfold mbind, K_bind.
    rewrite Ef. auto.
Qed.
End wp_rules.

#[export] Hint Resolve wp_ret wp_gets wp_get wp_modify wp_skip : wp.

(** One step through a monadic program whose next command is a primitive. *)
Ltac wp_step :=
  lazymatch goal with
  | |- wp (_ ≫= _) _ _ => apply wp_bind
  | |- wp (mret _) _ _ => apply wp_ret
  | |- wp (gets _) _ _ => apply wp_gets
  | |- wp get _ _ => apply wp_get
  | |- wp (modify _) _ _ => apply wp_modify
  | |- wp skip _ _ => apply wp_skip
  end; cbv beta.
Ltac wp_steps := repeat wp_step.

(** Hand a call to the lemma that specifies it and continue. *)
Tactic Notation "wp_call" uconstr(H) :=
  eapply wp_mono; [eapply H|cbv beta].

(** Code that calls what may stop: [m] started in [s] returns with a result and a state that satisfy [Q], or it stops in
    one of the ways in [B].  The module has the rules of [wp] under the same names. *)
Inductive stop := Panics (msg : string) | Faults (why : string) | Spins.
Definition stop_of {A} (r : res A) : option stop :=
  match r with
  | Ok _ => None
  | Panic msg => Some (Panics msg)
  | Fault why => Some (Faults why)
  | Spin => Some Spins
  end.

Module Stops.
Definition wp {S A} (B : stop -> Prop) (m : K S A) (Q : A -> S -> Prop) (s : S) : Prop :=
  match m s with
  | Ok (a, s') => Q a s'
  | Panic msg => B (Panics msg)
  | Fault why => B (Faults why)
  | Spin => B Spins
  end.

Section wp_rules.
Context {S : Type} {B : stop -> Prop}.
#[local] Abbreviation wp := (wp B).

Lemma wp_total {A} (m : K S A) (Q : A -> S -> Prop) s : Prelude.wp m Q s -> wp m Q s.
Proof. intros (a & s' & E & H). unfold wp. rewrite E. exact H. Qed.

(** A part that has a specification of its own. *)
Lemma wp_part {A} (m : K S A) (Q : A -> S -> Prop) s :
  (forall a s', m s = Ok (a, s') -> Q a s') -> (forall w, stop_of (m s) = Some w -> B w) -> wp m Q s.
Proof. intros HQ HB. unfold wp. destruct (m s) as [[a s']|?|?|]; cbn in HB; auto. Qed.

Lemma stops_ret {A} (a : A) (Q : A -> S -> Prop) s : Q a s -> wp (mret a) Q s.
Proof. auto. Qed.

Lemma stops_bind {A C} (m : K S A) (f : A -> K S C) Q s : wp m (fun a => wp (f a) Q) s -> wp (m ≫= f) Q s.
Proof. unfold wp, mbind, K_bind. destruct (m s) as [[a s']|?|?|]; auto. Qed.

Lemma stops_mono {A} (m : K S A) (Q R : A -> S -> Prop) s : wp m Q s -> (forall a s', Q a s' -> R a s') -> wp m R s.
Proof. unfold wp. destruct (m s) as [[a s']|?|?|]; auto. Qed.

Lemma stops_gets {A} (f : S -> A) Q s : Q (f s) s -> wp (gets f) Q s.
Proof. auto. Qed.

Lemma stops_get (Q : S -> S -> Prop) s : Q s s -> wp get Q s.
Proof. auto. Qed.

Lemma stops_modify (f : S -> S) Q s : Q tt (f s) -> wp (modify f) Q s.
Proof. auto. Qed.

Lemma stops_lift_res {A} (r : res A) a (Q : A -> S -> Prop) s : r = Ok a -> Q a s -> wp (lift_res r) Q s.
Proof. intros -> H. exact H. Qed.

Lemma stops_lift_opt {A} why (o : option A) a (Q : A -> S -> Prop) s : o = Some a -> Q a s -> wp (lift_opt why o) Q s.
Proof. intros -> H. exact H. Qed.

Lemma stops_skip (Q : unit -> S -> Prop) s : Q tt s -> wp skip Q s.
Proof. auto. Qed.

Lemma stops_forM {X} (l : list X) (f : X -> K S unit) (I : nat -> S -> Prop) s :
  I O s ->
  (forall i x s', l !! i = Some x -> I i s' -> wp (f x) (fun _ => I (Datatypes.S i)) s') ->
  wp (forM l f) (fun _ => I (length l)) s.
Proof.
  revert I s. induction l as [|x l IH]; intros I s H0 Hstep; simpl.
  - apply stops_skip, H0.
  - apply stops_bind. eapply stops_mono; [apply (Hstep O x s); [reflexivity|exact H0]|].
    intros [] s1 H1. apply (IH (fun i => I (Datatypes.S i))); [exact H1|].
    intros i y s2 Hy. apply (Hstep (Datatypes.S i)). exact Hy.
Qed.

Lemma wp_and {A} (m : K S A) (P Q : A -> S -> Prop) s : wp m P s -> wp m Q s -> wp m (fun a s' => P a s' /\ Q a s') s.
Proof. unfold wp. destruct (m s) as [[a s']|?|?|]; auto. Qed.

Lemma wp_returns {A} (m : K S A) (Q : A -> S -> Prop) s a s' : wp m Q s -> m s = Ok (a, s') -> Q a s'.
Proof. unfold wp. intros H E. rewrite E in H. exact H. Qed.

(** The two outcomes. *)
Lemma wp_cases {A} (m : K S A) (Q : A -> S -> Prop) s :
  wp m Q s <-> (exists a s', m s = Ok (a, s') /\ Q a s') \/ exists w, stop_of (m s) = Some w /\ B w.
Proof.
  unfold wp. destruct (m s) as [[a s']|?|?|]; cbn; (split; [eauto|]).
  1: intros [(? & ? & [= -> ->] & H)|(? & [=] & _)]; exact H.
  all: intros [(? & ? & [=] & _)|(? & [= <-] & H)]; exact H.
Qed.
End wp_rules.

(** The names of the rules for [wp]. *)
Abbreviation wp_ret := stops_ret.
Abbreviation wp_bind := stops_bind.
Abbreviation wp_mono := stops_mono.
Abbreviation wp_gets := stops_gets.
Abbreviation wp_get := stops_get.
Abbreviation wp_modify := stops_modify.
Abbreviation wp_lift_res := stops_lift_res.
Abbreviation wp_lift_opt := stops_lift_opt.
Abbreviation wp_skip := stops_skip.
Abbreviation wp_forM := stops_forM.

Ltac wp_step :=
  lazymatch goal with
  | |- wp _ (_ ≫= _) _ _ => apply stops_bind
  | |- wp _ (mret _) _ _ => apply stops_ret
  | |- wp _ (gets _) _ _ => apply stops_gets
  | |- wp _ get _ _ => apply stops_get
  | |- wp _ (modify _) _ _ => apply stops_modify
  | |- wp _ skip _ _ => apply stops_skip
  end; cbv beta.
End Stops.

(** * Loops over arrays *)

(** [for (i = 0; i < n; i++) s = f(i, s)]. *)
Definition for_n {S} (n : nat) (f : nat -> S -> S) (s : S) : S :=
  foldl (fun s i => f i s) s (seq 0 n).

Lemma for_n_succ {S} n (f : nat -> S -> S) s : for_n (Datatypes.S n) f s = f n (for_n n f s).
Proof. unfold for_n. rewrite seq_S, foldl_app. reflexivity. Qed.

(** Loop invariant rule for [for_n]. *)
Lemma for_n_inv {S} n (f : nat -> S -> S) (I : nat -> S -> Prop) s :
  I O s -> (forall i s', (i < n)%nat -> I i s' -> I (Datatypes.S i) (f i s')) ->
  I n (for_n n f s).
Proof.
  induction n as [|n IH]; intros H0 Hs; [exact H0|].
  rewrite for_n_succ. apply Hs; [lia|]. apply IH; auto.
Qed.

(** A property of all bytes can be checked byte by byte. *)
Lemma byte_forall (P : Z -> bool) :
  forallb P (seqZ 0 256) = true -> forall x, is_byte x -> P x = true.
Proof.
  intros H x Hx. rewrite forallb_forall in H. apply H.
  apply list_elem_of_In, elem_of_seqZ. unfold is_byte in Hx. lia.
Qed.

Lemma byte_eq_forall (f g : Z -> Z) :
  forallb (fun x => f x =? g x) (seqZ 0 256) = true -> forall x, is_byte x -> f x = g x.
Proof.
  intros H x Hx. apply Z.eqb_eq.
  exact (byte_forall (fun x => f x =? g x) H x Hx).
Qed.

(** Total lookup inside an array whose elements all satisfy [P]. *)
Lemma Forall_lookup_total {A} `{Inhabited A} (P : A -> Prop) (l : list A) i :
  Forall P l -> (i < length l)%nat -> P (l !!! i).
Proof.
  intros HP Hi. destruct (lookup_lt_is_Some_2 l i Hi) as [x Hx].
  rewrite (list_lookup_total_correct _ _ _ Hx). exact (Forall_lookup_1 _ _ _ _ HP Hx).
Qed.

Lemma list_alter_lookup {A} (f : A -> A) (l : list A) i x :
  l !! i = Some x -> alter f i l = <[i := f x]> l.
Proof.
  revert i. induction l as [|y l IH]; intros [|i]; simpl; try discriminate.
  - intros [= ->]. reflexivity.
  - intros H. f_equal. apply IH, H.
Qed.

(** The values of [for (i = 0; i < n; i += step)]. *)
Definition steps (n step : Z) : list Z := (fun k => step * k) <$> seqZ 0 ((n + step - 1) / step).

Lemma lookup_steps n step k x : 0 < step ->
  steps n step !! k = Some x -> x = step * Z.of_nat k /\ x < n.
Proof.
  intros Hs H. unfold steps in H. rewrite list_lookup_fmap in H.
  destruct (seqZ 0 ((n + step - 1) / step) !! k) as [y|] eqn:E; [|discriminate].
  injection H as <-. apply lookup_seqZ in E as [-> Hk]. split; [lia|].
  pose proof (Z.mul_div_le (n + step - 1) step Hs). nia.
Qed.

Lemma length_steps n step : length (steps n step) = Z.to_nat ((n + step - 1) / step).
Proof. unfold steps. rewrite length_fmap, length_seqZ. reflexivity. Qed.
