(* ===== verification/Aes.v ===== *)
(** AES (aes.c, aes.h): the block cipher behind the generator and the CTR
    system calls.  The block is the C array of 16 bytes, stored row by row;
    loops over it are [for_n] with the in-place updates of the source.
    [Fips] states the cipher of FIPS-197 on columns, and the last section
    shows that the code refines it and that decryption undoes encryption. *)

From S2P Require Import Prelude.
From Stdlib Require Import Btauto.

Module Aes.

(** * aes.h *)
Definition BLOCK_SHIFT : nat := 2.
Definition BLOCK_ROWS : nat := 4.
Definition BLOCK_COLUMNS : nat := 4.
Definition BLOCK_LENGTH : nat := 16.
Definition AES_128_KEY_SIZE : nat := 4.
Definition AES_192_KEY_SIZE : nat := 6.
Definition AES_256_KEY_SIZE : nat := 8.
Definition KEY_SIZE_ROUNDS (n : nat) : nat := (6 + n)%nat.

(** * aes.c *)

(** The index that [byteOfState] takes the address of. *)
Definition byteOfState (row column : nat) : nat :=
  (Nat.shiftl row BLOCK_SHIFT + column)%nat.

Definition loadToState (input st : list Z) : list Z :=
  for_n BLOCK_COLUMNS (fun col =>
    for_n BLOCK_ROWS (fun row st =>
      <[byteOfState row col := input !!! (col * BLOCK_ROWS + row)%nat]> st)) st.

Definition loadFromState (st out : list Z) : list Z :=
  for_n BLOCK_COLUMNS (fun col =>
    for_n BLOCK_ROWS (fun row out =>
      <[(col * BLOCK_ROWS + row)%nat := st !!! byteOfState row col]> out)) out.

Definition sBox : list Z :=
 [0x63; 0x7c; 0x77; 0x7b; 0xf2; 0x6b; 0x6f; 0xc5; 0x30; 0x01; 0x67; 0x2b; 0xfe; 0xd7; 0xab; 0x76;
   0xca; 0x82; 0xc9; 0x7d; 0xfa; 0x59; 0x47; 0xf0; 0xad; 0xd4; 0xa2; 0xaf; 0x9c; 0xa4; 0x72; 0xc0;
   0xb7; 0xfd; 0x93; 0x26; 0x36; 0x3f; 0xf7; 0xcc; 0x34; 0xa5; 0xe5; 0xf1; 0x71; 0xd8; 0x31; 0x15;
   0x04; 0xc7; 0x23; 0xc3; 0x18; 0x96; 0x05; 0x9a; 0x07; 0x12; 0x80; 0xe2; 0xeb; 0x27; 0xb2; 0x75;
   0x09; 0x83; 0x2c; 0x1a; 0x1b; 0x6e; 0x5a; 0xa0; 0x52; 0x3b; 0xd6; 0xb3; 0x29; 0xe3; 0x2f; 0x84;
   0x53; 0xd1; 0x00; 0xed; 0x20; 0xfc; 0xb1; 0x5b; 0x6a; 0xcb; 0xbe; 0x39; 0x4a; 0x4c; 0x58; 0xcf;
   0xd0; 0xef; 0xaa; 0xfb; 0x43; 0x4d; 0x33; 0x85; 0x45; 0xf9; 0x02; 0x7f; 0x50; 0x3c; 0x9f; 0xa8;
   0x51; 0xa3; 0x40; 0x8f; 0x92; 0x9d; 0x38; 0xf5; 0xbc; 0xb6; 0xda; 0x21; 0x10; 0xff; 0xf3; 0xd2;
   0xcd; 0x0c; 0x13; 0xec; 0x5f; 0x97; 0x44; 0x17; 0xc4; 0xa7; 0x7e; 0x3d; 0x64; 0x5d; 0x19; 0x73;
   0x60; 0x81; 0x4f; 0xdc; 0x22; 0x2a; 0x90; 0x88; 0x46; 0xee; 0xb8; 0x14; 0xde; 0x5e; 0x0b; 0xdb;
   0xe0; 0x32; 0x3a; 0x0a; 0x49; 0x06; 0x24; 0x5c; 0xc2; 0xd3; 0xac; 0x62; 0x91; 0x95; 0xe4; 0x79;
   0xe7; 0xc8; 0x37; 0x6d; 0x8d; 0xd5; 0x4e; 0xa9; 0x6c; 0x56; 0xf4; 0xea; 0x65; 0x7a; 0xae; 0x08;
   0xba; 0x78; 0x25; 0x2e; 0x1c; 0xa6; 0xb4; 0xc6; 0xe8; 0xdd; 0x74; 0x1f; 0x4b; 0xbd; 0x8b; 0x8a;
   0x70; 0x3e; 0xb5; 0x66; 0x48; 0x03; 0xf6; 0x0e; 0x61; 0x35; 0x57; 0xb9; 0x86; 0xc1; 0x1d; 0x9e;
   0xe1; 0xf8; 0x98; 0x11; 0x69; 0xd9; 0x8e; 0x94; 0x9b; 0x1e; 0x87; 0xe9; 0xce; 0x55; 0x28; 0xdf;
   0x8c; 0xa1; 0x89; 0x0d; 0xbf; 0xe6; 0x42; 0x68; 0x41; 0x99; 0x2d; 0x0f; 0xb0; 0x54; 0xbb; 0x16].

Definition invSBox : list Z :=
 [0x52; 0x09; 0x6a; 0xd5; 0x30; 0x36; 0xa5; 0x38; 0xbf; 0x40; 0xa3; 0x9e; 0x81; 0xf3; 0xd7; 0xfb;
   0x7c; 0xe3; 0x39; 0x82; 0x9b; 0x2f; 0xff; 0x87; 0x34; 0x8e; 0x43; 0x44; 0xc4; 0xde; 0xe9; 0xcb;
   0x54; 0x7b; 0x94; 0x32; 0xa6; 0xc2; 0x23; 0x3d; 0xee; 0x4c; 0x95; 0x0b; 0x42; 0xfa; 0xc3; 0x4e;
   0x08; 0x2e; 0xa1; 0x66; 0x28; 0xd9; 0x24; 0xb2; 0x76; 0x5b; 0xa2; 0x49; 0x6d; 0x8b; 0xd1; 0x25;
   0x72; 0xf8; 0xf6; 0x64; 0x86; 0x68; 0x98; 0x16; 0xd4; 0xa4; 0x5c; 0xcc; 0x5d; 0x65; 0xb6; 0x92;
   0x6c; 0x70; 0x48; 0x50; 0xfd; 0xed; 0xb9; 0xda; 0x5e; 0x15; 0x46; 0x57; 0xa7; 0x8d; 0x9d; 0x84;
   0x90; 0xd8; 0xab; 0x00; 0x8c; 0xbc; 0xd3; 0x0a; 0xf7; 0xe4; 0x58; 0x05; 0xb8; 0xb3; 0x45; 0x06;
   0xd0; 0x2c; 0x1e; 0x8f; 0xca; 0x3f; 0x0f; 0x02; 0xc1; 0xaf; 0xbd; 0x03; 0x01; 0x13; 0x8a; 0x6b;
   0x3a; 0x91; 0x11; 0x41; 0x4f; 0x67; 0xdc; 0xea; 0x97; 0xf2; 0xcf; 0xce; 0xf0; 0xb4; 0xe6; 0x73;
   0x96; 0xac; 0x74; 0x22; 0xe7; 0xad; 0x35; 0x85; 0xe2; 0xf9; 0x37; 0xe8; 0x1c; 0x75; 0xdf; 0x6e;
   0x47; 0xf1; 0x1a; 0x71; 0x1d; 0x29; 0xc5; 0x89; 0x6f; 0xb7; 0x62; 0x0e; 0xaa; 0x18; 0xbe; 0x1b;
   0xfc; 0x56; 0x3e; 0x4b; 0xc6; 0xd2; 0x79; 0x20; 0x9a; 0xdb; 0xc0; 0xfe; 0x78; 0xcd; 0x5a; 0xf4;
   0x1f; 0xdd; 0xa8; 0x33; 0x88; 0x07; 0xc7; 0x31; 0xb1; 0x12; 0x10; 0x59; 0x27; 0x80; 0xec; 0x5f;
   0x60; 0x51; 0x7f; 0xa9; 0x19; 0xb5; 0x4a; 0x0d; 0x2d; 0xe5; 0x7a; 0x9f; 0x93; 0xc9; 0x9c; 0xef;
   0xa0; 0xe0; 0x3b; 0x4d; 0xae; 0x2a; 0xf5; 0xb0; 0xc8; 0xeb; 0xbb; 0x3c; 0x83; 0x53; 0x99; 0x61;
   0x17; 0x2b; 0x04; 0x7e; 0xba; 0x77; 0xd6; 0x26; 0xe1; 0x69; 0x14; 0x63; 0x55; 0x21; 0x0c; 0x7d].

Definition rcon : list Z :=
 [0x00000000; 0x01000000; 0x02000000; 0x04000000;
   0x08000000; 0x10000000; 0x20000000; 0x40000000;
   0x80000000; 0x1b000000; 0x36000000].

Definition subBytes (st : list Z) : list Z :=
  for_n BLOCK_LENGTH (fun index st =>
    <[index := u8 (sBox !!! Z.to_nat (st !!! index))]> st) st.

Definition invSubBytes (st : list Z) : list Z :=
  for_n BLOCK_LENGTH (fun index st =>
    <[index := u8 (invSBox !!! Z.to_nat (st !!! index))]> st) st.

(** [storedRow] and [storedColumn] are arrays of (signed) [char]. *)
Definition storedRow (row : nat) (st : list Z) : list Z :=
  map (fun column => s8 (st !!! byteOfState row column)) (seq 0 BLOCK_COLUMNS).

Definition storedColumn (column : nat) (st : list Z) : list Z :=
  map (fun row => s8 (st !!! byteOfState row column)) (seq 0 BLOCK_ROWS).

Definition shiftRows (st : list Z) : list Z :=
  for_n BLOCK_ROWS (fun row st =>
    let stored := storedRow row st in
    for_n BLOCK_COLUMNS (fun column st =>
      <[byteOfState row column := u8 (stored !!! Nat.land (column + row) 3)]> st) st) st.

(** [(column - row)&3] on unsigned operands. *)
Definition invShiftRows (st : list Z) : list Z :=
  for_n BLOCK_ROWS (fun row st =>
    let stored := storedRow row st in
    for_n BLOCK_COLUMNS (fun column st =>
      <[byteOfState row column :=
          u8 (stored !!! Z.to_nat (Z.land (u32 (Z.of_nat column - Z.of_nat row)) 3))]> st) st) st.

Definition xTimes (i : Z) : Z :=
  let needToXor := s8 (Z.land i 0x80) in
  let i := u8 (Z.shiftl i 1) in
  if needToXor =? 0 then i else u8 (Z.lxor i 0x1b).

(** The [while] loop of [mult]: at most seven rounds, since [mul] is a byte
    that has been shifted once. *)
Fixpoint mult_loop (fuel : nat) (mul i result : Z) : Z :=
  match fuel with
  | O => result
  | S fuel =>
      if mul =? 0 then result
      else
        let i := xTimes i in
        let result := if Z.land mul 1 =? 0 then result else u8 (Z.lxor result i) in
        mult_loop fuel (Z.shiftr mul 1) i result
  end.

(** Arguments are converted to [u_int8_t]. *)
Definition mult (mul i : Z) : Z :=
  let mul := u8 mul in
  let i := u8 i in
  let result := if Z.land mul 1 =? 0 then 0 else u8 (Z.lxor 0 i) in
  mult_loop 8 (Z.shiftr mul 1) i result.

Definition mixColumns (st : list Z) : list Z :=
  for_n BLOCK_COLUMNS (fun column st =>
    let sc := storedColumn column st in
    let st := <[byteOfState 0 column :=
      u8 (Z.lxor (Z.lxor (Z.lxor (mult 2 (sc !!! 0%nat)) (mult 3 (sc !!! 1%nat)))
                         (sc !!! 2%nat)) (sc !!! 3%nat))]> st in
    let st := <[byteOfState 1 column :=
      u8 (Z.lxor (Z.lxor (Z.lxor (sc !!! 0%nat) (mult 2 (sc !!! 1%nat)))
                         (mult 3 (sc !!! 2%nat))) (sc !!! 3%nat))]> st in
    let st := <[byteOfState 2 column :=
      u8 (Z.lxor (Z.lxor (Z.lxor (sc !!! 0%nat) (sc !!! 1%nat))
                         (mult 2 (sc !!! 2%nat))) (mult 3 (sc !!! 3%nat)))]> st in
    <[byteOfState 3 column :=
      u8 (Z.lxor (Z.lxor (Z.lxor (mult 3 (sc !!! 0%nat)) (sc !!! 1%nat))
                         (sc !!! 2%nat)) (mult 2 (sc !!! 3%nat)))]> st) st.

Definition invMixColumns (st : list Z) : list Z :=
  for_n BLOCK_COLUMNS (fun column st =>
    let sc := storedColumn column st in
    let st := <[byteOfState 0 column :=
      u8 (Z.lxor (Z.lxor (Z.lxor (mult 0xe (sc !!! 0%nat)) (mult 0xb (sc !!! 1%nat)))
                         (mult 0xd (sc !!! 2%nat))) (mult 0x9 (sc !!! 3%nat)))]> st in
    let st := <[byteOfState 1 column :=
      u8 (Z.lxor (Z.lxor (Z.lxor (mult 0x9 (sc !!! 0%nat)) (mult 0xe (sc !!! 1%nat)))
                         (mult 0xb (sc !!! 2%nat))) (mult 0xd (sc !!! 3%nat)))]> st in
    let st := <[byteOfState 2 column :=
      u8 (Z.lxor (Z.lxor (Z.lxor (mult 0xd (sc !!! 0%nat)) (mult 0x9 (sc !!! 1%nat)))
                         (mult 0xe (sc !!! 2%nat))) (mult 0xb (sc !!! 3%nat)))]> st in
    <[byteOfState 3 column :=
      u8 (Z.lxor (Z.lxor (Z.lxor (mult 0xb (sc !!! 0%nat)) (mult 0xd (sc !!! 1%nat)))
                         (mult 0x9 (sc !!! 2%nat))) (mult 0xe (sc !!! 3%nat)))]> st) st.

(** [*p ^= e] on a byte of the block. *)
Definition xor_byte (i : nat) (e : Z) (st : list Z) : list Z :=
  <[i := u8 (Z.lxor (st !!! i) e)]> st.

Definition addRoundKey (st key : list Z) : list Z :=
  for_n BLOCK_COLUMNS (fun col st =>
    let st := xor_byte (byteOfState 0 col) (Z.land (Z.shiftr (key !!! col) 24) 0xFF) st in
    let st := xor_byte (byteOfState 1 col) (Z.land (Z.shiftr (key !!! col) 16) 0xFF) st in
    let st := xor_byte (byteOfState 2 col) (Z.land (Z.shiftr (key !!! col) 8) 0xFF) st in
    xor_byte (byteOfState 3 col) (Z.land (key !!! col) 0xFF) st) st.

Definition rotWord (word : Z) : Z :=
  let msb := Z.shiftr word 24 in
  Z.lor (u32 (Z.shiftl word 8)) msb.

(** The bytes of [word] in memory order, each sent through the S-box. *)
Definition subWord (word : Z) : Z :=
  le_word (map (fun b => u8 (sBox !!! Z.to_nat b)) (le_bytes 4 word)).

Definition keyExpansion_step (keySize index : nat) (roundKeys : list Z) : list Z :=
  let temp := roundKeys !!! (index - 1)%nat in
  let temp :=
    if (index mod keySize =? 0)%nat
    then Z.lxor (subWord (rotWord temp)) (rcon !!! (index / keySize)%nat)
    else if (6 <? keySize)%nat && (index mod keySize =? 4)%nat
    then subWord temp
    else temp in
  <[index := Z.lxor (roundKeys !!! (index - keySize)%nat) temp]> roundKeys.

(** [roundKeys] is the caller's array of [BLOCK_COLUMNS*(rounds+1)] words. *)
Definition keyExpansion (key roundKeys : list Z) (keySize : nat) : list Z :=
  let rounds := (6 + keySize)%nat in
  let roundKeys := for_n keySize (fun index rk => <[index := key !!! index]> rk) roundKeys in
  foldl (fun rk index => keyExpansion_step keySize index rk) roundKeys
        (seq keySize (BLOCK_COLUMNS * (rounds + 1) - keySize)).

Definition uninit_block : list Z := replicate BLOCK_LENGTH 0.

Definition encrypt_round (roundKeys : list Z) (round : nat) (st : list Z) : list Z :=
  let st := subBytes st in
  let st := shiftRows st in
  let st := mixColumns st in
  addRoundKey st (drop (round * BLOCK_COLUMNS) roundKeys).

(** Returns the sixteen bytes written to [out]. *)
Definition aes_encrypt (input roundKeys : list Z) (keySize : nat) : list Z :=
  let rounds := (6 + keySize)%nat in
  let st := loadToState input uninit_block in
  let st := addRoundKey st roundKeys in
  let st := foldl (fun st round => encrypt_round roundKeys round st) st (seq 1 (rounds - 1)) in
  let st := subBytes st in
  let st := shiftRows st in
  let st := addRoundKey st (drop (rounds * BLOCK_COLUMNS) roundKeys) in
  loadFromState st uninit_block.

Definition decrypt_round (roundKeys : list Z) (round : nat) (st : list Z) : list Z :=
  let st := invShiftRows st in
  let st := invSubBytes st in
  let st := addRoundKey st (drop (round * BLOCK_COLUMNS) roundKeys) in
  invMixColumns st.

Definition aes_decrypt (input roundKeys : list Z) (keySize : nat) : list Z :=
  let rounds := (6 + keySize)%nat in
  let st := loadToState input uninit_block in
  let st := addRoundKey st (drop (rounds * BLOCK_COLUMNS) roundKeys) in
  let st := foldl (fun st round => decrypt_round roundKeys round st) st
                  (rev (seq 1 (rounds - 1))) in
  let st := invShiftRows st in
  let st := invSubBytes st in
  let st := addRoundKey st roundKeys in
  loadFromState st uninit_block.

End Aes.

(** * The cipher of FIPS-197

    The specification works on a four-by-four state given by columns, with
    the S-box, the field multiplication and the matrix of the standard. *)
Module Fips.

(** Multiplication in GF(2)[x] modulo x^8 + x^4 + x^3 + x + 1. *)
Definition clmul (a b : Z) : Z :=
  foldl (fun acc i => if Z.testbit a i then Z.lxor acc (Z.shiftl b i) else acc) 0 (seqZ 0 8).
Definition reduce (x : Z) : Z :=
  foldl (fun x i => if Z.testbit x i then Z.lxor x (Z.shiftl 0x11b (i - 8)) else x) x
        [14; 13; 12; 11; 10; 9; 8].
Definition gmul (a b : Z) : Z := reduce (clmul a b).

(** The inverse is the 254th power; zero is sent to itself. *)
Definition ginv (b : Z) : Z :=
  let b2 := gmul b b in let b4 := gmul b2 b2 in let b8 := gmul b4 b4 in
  let b16 := gmul b8 b8 in let b32 := gmul b16 b16 in let b64 := gmul b32 b32 in
  let b128 := gmul b64 b64 in
  gmul b2 (gmul b4 (gmul b8 (gmul b16 (gmul b32 (gmul b64 b128))))).

Definition rotl8 (x k : Z) : Z := u8 (Z.lor (Z.shiftl x k) (Z.shiftr x (8 - k))).
Definition sbox (b : Z) : Z :=
  let x := ginv b in
  Z.lxor (Z.lxor (Z.lxor (Z.lxor (Z.lxor x (rotl8 x 1)) (rotl8 x 2)) (rotl8 x 3)) (rotl8 x 4))
         0x63.

Definition of_fun (f : nat -> nat -> Z) : list (list Z) :=
  map (fun c => map (fun r => f r c) (seq 0 4)) (seq 0 4).
Definition sget (s : list (list Z)) (r c : nat) : Z := (s !!! c) !!! r.

Definition SubBytes (s : list (list Z)) : list (list Z) :=
  of_fun (fun r c => sbox (sget s r c)).
Definition ShiftRows (s : list (list Z)) : list (list Z) :=
  of_fun (fun r c => sget s r ((c + r) mod 4)%nat).
Definition matrix : list (list Z) :=
  [[2; 3; 1; 1]; [1; 2; 3; 1]; [1; 1; 2; 3]; [3; 1; 1; 2]].
Definition MixColumns (s : list (list Z)) : list (list Z) :=
  of_fun (fun r c =>
    foldl (fun acc k => Z.lxor acc (gmul ((matrix !!! r) !!! k) (sget s k c))) 0 (seq 0 4)).
(** Byte [r] of a word, most significant first. *)
Definition be_byte (r : nat) (w : Z) : Z := (w / 2 ^ (24 - 8 * Z.of_nat r)) mod 256.
Definition AddRoundKey (s : list (list Z)) (w : list Z) : list (list Z) :=
  of_fun (fun r c => Z.lxor (sget s r c) (be_byte r (w !!! c))).

Definition load (input : list Z) : list (list Z) :=
  of_fun (fun r c => input !!! (r + 4 * c)%nat).
Definition unload (s : list (list Z)) : list Z :=
  map (fun k => sget s (k mod 4) (k / 4)) (seq 0 16).

Definition Round (w : list Z) (round : nat) (s : list (list Z)) : list (list Z) :=
  AddRoundKey (MixColumns (ShiftRows (SubBytes s))) (drop (4 * round) w).

Definition Cipher (Nr : nat) (w input : list Z) : list Z :=
  let s := AddRoundKey (load input) w in
  let s := foldl (fun s round => Round w round s) s (seq 1 (Nr - 1)) in
  unload (AddRoundKey (ShiftRows (SubBytes s)) (drop (4 * Nr) w)).

(** The key schedule: the recurrence of section 5.2 on the word array [w]. *)
Definition RotWord (x : Z) : Z := u32 (Z.shiftl x 8) + x / 2 ^ 24.
Definition SubWord (x : Z) : Z :=
  foldl (fun acc r => acc * 256 + sbox (be_byte r x)) 0 (seq 0 4).
Definition Rcon (i : nat) : Z :=
  Z.shiftl (Nat.iter (i - 1) (gmul 2) 1) 24.
Definition schedule_temp (Nk i : nat) (prev : Z) : Z :=
  if (i mod Nk =? 0)%nat then Z.lxor (SubWord (RotWord prev)) (Rcon (i / Nk))
  else if (6 <? Nk)%nat && (i mod Nk =? 4)%nat then SubWord prev else prev.
Definition KeySchedule (Nk : nat) (key w : list Z) : Prop :=
  length w = (4 * (Nk + 6 + 1))%nat /\
  (forall i, (i < Nk)%nat -> w !!! i = key !!! i) /\
  (forall i, (Nk <= i < 4 * (Nk + 6 + 1))%nat ->
     w !!! i = Z.lxor (w !!! (i - Nk)%nat) (schedule_temp Nk i (w !!! (i - 1)%nat))).
End Fips.

(** * Layers of the cipher on an explicit block *)
Module AesFacts.
Import Aes.

Definition valid_block (st : list Z) : Prop := length st = 16%nat /\ Forall is_byte st.

(** Name the sixteen bytes of a block. *)
Ltac explode_block st H :=
  destruct H as [?Hlen ?Hb];
  do 16 (destruct st as [|? st]; [discriminate|]); destruct st; [|discriminate];
  repeat match goal with
  | Hf : Forall _ (_ :: _) |- _ => apply Forall_cons in Hf as [? Hf]
  end.

Lemma u8_s8_byte x : is_byte x -> u8 (s8 x) = x.
Proof. intros H. rewrite u8_s8. apply u8_id, H. Qed.

Lemma sBox_fips x : is_byte x -> u8 (sBox !!! Z.to_nat x) = Fips.sbox x.
Proof.
  apply (byte_eq_forall (fun x => u8 (sBox !!! Z.to_nat x)) Fips.sbox).
  vm_compute. reflexivity.
Qed.

Lemma invSBox_sBox x : is_byte x -> u8 (invSBox !!! Z.to_nat (u8 (sBox !!! Z.to_nat x))) = x.
Proof.
  apply (byte_eq_forall (fun x => u8 (invSBox !!! Z.to_nat (u8 (sBox !!! Z.to_nat x)))) id).
  vm_compute. reflexivity.
Qed.

Lemma mult_u8 c x : mult c (u8 x) = mult c x.
Proof. unfold mult, u8. rewrite Z.mod_mod by lia. reflexivity. Qed.

Lemma mult_s8 c x : mult c (s8 x) = mult c x.
Proof. rewrite <- mult_u8, u8_s8, mult_u8. reflexivity. Qed.

Lemma xTimes_byte x : is_byte (xTimes x).
Proof. unfold xTimes. case_match; apply u8_byte. Qed.

Lemma mult_loop_byte fuel mul i r : is_byte r -> is_byte (mult_loop fuel mul i r).
Proof.
  revert mul i r. induction fuel as [|fuel IH]; intros mul i r Hr; [exact Hr|].
  simpl. case_match; [exact Hr|]. apply IH. case_match; auto using u8_byte.
Qed.

Lemma mult_byte c x : is_byte (mult c x).
Proof.
  unfold mult. apply mult_loop_byte. case_match; [unfold is_byte; lia|apply u8_byte].
Qed.
#[local] Hint Resolve mult_byte xTimes_byte : machint.

(** [xTimes] is linear, hence so is multiplication by a constant. *)
Lemma xTimes_alt x :
  xTimes x = Z.lxor (u8 (Z.shiftl x 1)) (if Z.testbit x 7 then 0x1b else 0).
Proof.
  unfold xTimes.
  replace (Z.land x 0x80) with (if Z.testbit x 7 then 128 else 0).
  - destruct (Z.testbit x 7); cbn -[Z.lxor u8 Z.shiftl].
    + apply u8_id, lxor_byte; auto using u8_byte. unfold is_byte; lia.
    + rewrite Z.lxor_0_r. reflexivity.
  - apply Z.bits_inj'. intros i Hi. rewrite Z.land_spec.
    change 128 with (2 ^ 7). rewrite Z.pow2_bits_eqb by lia.
    destruct (Z.eqb_spec 7 i) as [<-|Hne].
    + destruct (Z.testbit x 7); reflexivity.
    + rewrite andb_false_r. destruct (Z.testbit x 7); [|apply Z.bits_0].
      rewrite Z.pow2_bits_eqb by lia. apply Z.eqb_neq. exact Hne.
Qed.

Lemma lxor_swap a b c d :
  Z.lxor (Z.lxor a b) (Z.lxor c d) = Z.lxor (Z.lxor a c) (Z.lxor b d).
Proof.
  rewrite !Z.lxor_assoc. f_equal. rewrite <- !Z.lxor_assoc. f_equal. apply Z.lxor_comm.
Qed.

Lemma xTimes_lxor x y : xTimes (Z.lxor x y) = Z.lxor (xTimes x) (xTimes y).
Proof.
  rewrite !xTimes_alt, Z.shiftl_lxor, u8_lxor, Z.lxor_spec, lxor_swap. f_equal.
  destruct (Z.testbit x 7), (Z.testbit y 7); reflexivity.
Qed.

Lemma mult_loop_lxor fuel mul x y r1 r2 :
  is_byte r1 -> is_byte r2 ->
  mult_loop fuel mul (Z.lxor x y) (Z.lxor r1 r2) =
  Z.lxor (mult_loop fuel mul x r1) (mult_loop fuel mul y r2).
Proof.
  revert mul x y r1 r2. induction fuel as [|fuel IH]; intros mul x y r1 r2 H1 H2; [reflexivity|].
  simpl. destruct (mul =? 0); [reflexivity|].
  rewrite xTimes_lxor. destruct (Z.land mul 1 =? 0); [apply IH; auto|].
  rewrite <- IH by apply u8_byte. f_equal. rewrite !u8_lxor.
  rewrite !(u8_id r1), !(u8_id r2) by auto. apply lxor_swap.
Qed.

Lemma mult_lxor c x y : mult c (Z.lxor x y) = Z.lxor (mult c x) (mult c y).
Proof.
  unfold mult. rewrite u8_lxor. destruct (Z.land (u8 c) 1 =? 0).
  - rewrite <- mult_loop_lxor by (unfold is_byte; lia). reflexivity.
  - rewrite <- mult_loop_lxor by apply u8_byte. rewrite !Z.lxor_0_l, u8_lxor. reflexivity.
Qed.

(** The loop of [mult] has finished after its fuel: more fuel changes nothing. *)
Lemma mult_loop_fuel n mul i r extra :
  0 <= mul < 2 ^ Z.of_nat n -> mult_loop (n + extra) mul i r = mult_loop n mul i r.
Proof.
  revert mul i r. induction n as [|n IH]; intros mul i r Hm.
  - simpl in Hm. replace mul with 0 by lia. destruct extra; reflexivity.
  - simpl. destruct (mul =? 0) eqn:E; [reflexivity|]. apply IH.
    rewrite Z.shiftr_div_pow2 by lia. change (2 ^ 1) with 2.
    rewrite Nat2Z.inj_succ, Z.pow_succ_r in Hm by lia. split.
    + apply Z.div_pos; lia.
    + apply Z.div_lt_upper_bound; lia.
Qed.

(** One column of [mixColumns], and of its inverse. *)
Definition mix1 (a b c d : Z) : Z :=
  u8 (Z.lxor (Z.lxor (Z.lxor (mult 2 (s8 a)) (mult 3 (s8 b))) (s8 c)) (s8 d)).
Definition unmix1 (a b c d : Z) : Z :=
  u8 (Z.lxor (Z.lxor (Z.lxor (mult 14 (s8 a)) (mult 11 (s8 b))) (mult 13 (s8 c)))
             (mult 9 (s8 d))).

(** Equality of exclusive-or expressions, bit by bit. *)
Ltac xor_ac :=
  apply Z.bits_inj'; intros ? ?; rewrite ?Z.lxor_spec;
  repeat match goal with |- context [Z.testbit ?a ?i] => generalize (Z.testbit a i); intro end;
  btauto.

Ltac blk_xor :=
  cbv -[mult Z.lxor u8 s8]; rewrite ?mult_s8; 
  repeat match goal with |- _ :: _ = _ :: _ => f_equal end; try reflexivity;
  f_equal; xor_ac.

(** A byte of the block combined with its byte of the round key. *)
Definition keyed (r : nat) (b w : Z) : Z :=
  u8 (Z.lxor b (Z.land (if (r =? 3)%nat then w else Z.shiftr w (24 - 8 * Z.of_nat r)) 0xFF)).

Section explicit.
Context (y0 y1 y2 y3 y4 y5 y6 y7 y8 y9 y10 y11 y12 y13 y14 y15 : Z).
Abbreviation blk := ([y0; y1; y2; y3; y4; y5; y6; y7; y8; y9; y10; y11; y12; y13; y14; y15]).

Lemma loadToState_blk st : length st = 16%nat ->
  loadToState blk st = [y0; y4; y8; y12; y1; y5; y9; y13; y2; y6; y10; y14; y3; y7; y11; y15].
Proof. intros H. do 17 (destruct st as [|? st]; try discriminate). reflexivity. Qed.

Lemma loadFromState_blk : loadFromState blk uninit_block = [y0; y4; y8; y12; y1; y5; y9; y13; y2; y6; y10; y14; y3; y7; y11; y15].
Proof. reflexivity. Qed.

Lemma subBytes_blk :
  subBytes blk = map (fun x => u8 (sBox !!! Z.to_nat x)) blk.
Proof. reflexivity. Qed.

Lemma invSubBytes_blk :
  invSubBytes blk = map (fun x => u8 (invSBox !!! Z.to_nat x)) blk.
Proof. reflexivity. Qed.

Lemma shiftRows_blk :
  shiftRows blk = map (fun x => u8 (s8 x)) ([y0; y1; y2; y3; y5; y6; y7; y4; y10; y11; y8; y9; y15; y12; y13; y14]).
Proof. reflexivity. Qed.

Lemma invShiftRows_blk :
  invShiftRows blk = map (fun x => u8 (s8 x)) ([y0; y1; y2; y3; y7; y4; y5; y6; y10; y11; y8; y9; y13; y14; y15; y12]).
Proof. reflexivity. Qed.

Lemma mixColumns_blk :
  mixColumns blk =
  [mix1 y0 y4 y8 y12;
   mix1 y1 y5 y9 y13;
   mix1 y2 y6 y10 y14;
   mix1 y3 y7 y11 y15;
   mix1 y4 y8 y12 y0;
   mix1 y5 y9 y13 y1;
   mix1 y6 y10 y14 y2;
   mix1 y7 y11 y15 y3;
   mix1 y8 y12 y0 y4;
   mix1 y9 y13 y1 y5;
   mix1 y10 y14 y2 y6;
   mix1 y11 y15 y3 y7;
   mix1 y12 y0 y4 y8;
   mix1 y13 y1 y5 y9;
   mix1 y14 y2 y6 y10;
   mix1 y15 y3 y7 y11].
Proof. unfold mix1. blk_xor. Qed.

Lemma invMixColumns_blk :
  invMixColumns blk =
  [unmix1 y0 y4 y8 y12;
   unmix1 y1 y5 y9 y13;
   unmix1 y2 y6 y10 y14;
   unmix1 y3 y7 y11 y15;
   unmix1 y4 y8 y12 y0;
   unmix1 y5 y9 y13 y1;
   unmix1 y6 y10 y14 y2;
   unmix1 y7 y11 y15 y3;
   unmix1 y8 y12 y0 y4;
   unmix1 y9 y13 y1 y5;
   unmix1 y10 y14 y2 y6;
   unmix1 y11 y15 y3 y7;
   unmix1 y12 y0 y4 y8;
   unmix1 y13 y1 y5 y9;
   unmix1 y14 y2 y6 y10;
   unmix1 y15 y3 y7 y11].
Proof. unfold unmix1. blk_xor. Qed.

Lemma addRoundKey_blk key :
  addRoundKey blk key =
  [keyed 0 y0 (key !!! 0%nat);
   keyed 0 y1 (key !!! 1%nat);
   keyed 0 y2 (key !!! 2%nat);
   keyed 0 y3 (key !!! 3%nat);
   keyed 1 y4 (key !!! 0%nat);
   keyed 1 y5 (key !!! 1%nat);
   keyed 1 y6 (key !!! 2%nat);
   keyed 1 y7 (key !!! 3%nat);
   keyed 2 y8 (key !!! 0%nat);
   keyed 2 y9 (key !!! 1%nat);
   keyed 2 y10 (key !!! 2%nat);
   keyed 2 y11 (key !!! 3%nat);
   keyed 3 y12 (key !!! 0%nat);
   keyed 3 y13 (key !!! 1%nat);
   keyed 3 y14 (key !!! 2%nat);
   keyed 3 y15 (key !!! 3%nat)].
Proof. reflexivity. Qed.

End explicit.

(** ** Each layer undoes its inverse *)
Ltac by_bytes f g := apply (byte_eq_forall f g); vm_compute; reflexivity.

Lemma coeff_a x : is_byte x ->
  Z.lxor (Z.lxor (mult 14 (mult 2 x)) (mult 11 x)) (Z.lxor (mult 13 x) (mult 9 (mult 3 x))) = x.
Proof.
  by_bytes (fun x => Z.lxor (Z.lxor (mult 14 (mult 2 x)) (mult 11 x))
                            (Z.lxor (mult 13 x) (mult 9 (mult 3 x)))) (fun x : Z => x).
Qed.

Lemma coeff_b x : is_byte x ->
  Z.lxor (Z.lxor (mult 14 (mult 3 x)) (mult 11 (mult 2 x))) (Z.lxor (mult 13 x) (mult 9 x)) = 0.
Proof.
  by_bytes (fun x => Z.lxor (Z.lxor (mult 14 (mult 3 x)) (mult 11 (mult 2 x)))
                            (Z.lxor (mult 13 x) (mult 9 x))) (fun _ : Z => 0).
Qed.

Lemma coeff_c x : is_byte x ->
  Z.lxor (Z.lxor (mult 14 x) (mult 11 (mult 3 x))) (Z.lxor (mult 13 (mult 2 x)) (mult 9 x)) = 0.
Proof.
  by_bytes (fun x => Z.lxor (Z.lxor (mult 14 x) (mult 11 (mult 3 x)))
                            (Z.lxor (mult 13 (mult 2 x)) (mult 9 x))) (fun _ : Z => 0).
Qed.

Lemma coeff_d x : is_byte x ->
  Z.lxor (Z.lxor (mult 14 x) (mult 11 x)) (Z.lxor (mult 13 (mult 3 x)) (mult 9 (mult 2 x))) = 0.
Proof.
  by_bytes (fun x => Z.lxor (Z.lxor (mult 14 x) (mult 11 x))
                            (Z.lxor (mult 13 (mult 3 x)) (mult 9 (mult 2 x)))) (fun _ : Z => 0).
Qed.

Lemma mix1_byte a b c d : is_byte (mix1 a b c d).
Proof. apply u8_byte. Qed.

Lemma mix1_bytes a b c d :
  is_byte a -> is_byte b -> is_byte c -> is_byte d ->
  mix1 a b c d = Z.lxor (Z.lxor (Z.lxor (mult 2 a) (mult 3 b)) c) d.
Proof.
  intros Ha Hb Hc Hd. unfold mix1.
  rewrite !u8_lxor, !mult_s8, !u8_s8, !(u8_id (mult _ _)) by apply mult_byte.
  rewrite (u8_id c), (u8_id d) by assumption. reflexivity.
Qed.

Lemma unmix1_alt a b c d :
  unmix1 a b c d =
  Z.lxor (Z.lxor (Z.lxor (mult 14 a) (mult 11 b)) (mult 13 c)) (mult 9 d).
Proof. unfold unmix1. rewrite !mult_s8. apply u8_id. auto 10 with machint. Qed.

Lemma unmix_mix a b c d :
  is_byte a -> is_byte b -> is_byte c -> is_byte d ->
  unmix1 (mix1 a b c d) (mix1 b c d a) (mix1 c d a b) (mix1 d a b c) = a.
Proof.
  intros Ha Hb Hc Hd.
  rewrite unmix1_alt, !mix1_bytes, !mult_lxor by assumption.
  transitivity (Z.lxor (Z.lxor a 0) (Z.lxor 0 0)); [|rewrite !Z.lxor_0_r; reflexivity].
  rewrite <- (coeff_a a Ha) at 5. rewrite <- (coeff_b b Hb) at 1.
  rewrite <- (coeff_c c Hc) at 1. rewrite <- (coeff_d d Hd) at 1. xor_ac.
Qed.

Lemma shiftRows_inv st : valid_block st -> invShiftRows (shiftRows st) = st.
Proof.
  intros H. explode_block st H. rewrite shiftRows_blk. cbn [map].
  rewrite invShiftRows_blk. cbn [map]. rewrite !u8_s8_byte by auto with machint. 
  repeat f_equal; apply u8_s8_byte; assumption.
Qed.

Lemma subBytes_inv st : valid_block st -> invSubBytes (subBytes st) = st.
Proof.
  intros H. explode_block st H. rewrite subBytes_blk. cbn [map].
  rewrite invSubBytes_blk. cbn [map]. repeat f_equal; apply invSBox_sBox; assumption.
Qed.

Lemma mixColumns_inv st : valid_block st -> invMixColumns (mixColumns st) = st.
Proof.
  intros H. explode_block st H. rewrite mixColumns_blk, invMixColumns_blk.
  repeat f_equal; apply unmix_mix; assumption.
Qed.

Lemma keyed_byte r b w : is_byte (keyed r b w).
Proof. apply u8_byte. Qed.

Lemma keyed_twice r b w : is_byte b -> keyed r (keyed r b w) w = b.
Proof.
  intros Hb. unfold keyed.
  rewrite u8_lxor, (u8_id (u8 _)), u8_lxor, lxor_cancel_r by apply u8_byte.
  apply u8_id, Hb.
Qed.

Lemma addRoundKey_twice st key : valid_block st -> addRoundKey (addRoundKey st key) key = st.
Proof.
  intros H. explode_block st H. rewrite !addRoundKey_blk.
  repeat f_equal; apply keyed_twice; assumption.
Qed.

(** Every layer maps blocks to blocks. *)
Ltac valid_tac :=
  split; [reflexivity|repeat (apply Forall_cons_2; [first [assumption|apply u8_byte]|]);
                      apply Forall_nil_2].

Lemma addRoundKey_valid st key : valid_block st -> valid_block (addRoundKey st key).
Proof. intros H. explode_block st H. rewrite addRoundKey_blk. valid_tac. Qed.
Lemma subBytes_valid st : valid_block st -> valid_block (subBytes st).
Proof. intros H. explode_block st H. rewrite subBytes_blk. valid_tac. Qed.
Lemma shiftRows_valid st : valid_block st -> valid_block (shiftRows st).
Proof. intros H. explode_block st H. rewrite shiftRows_blk. valid_tac. Qed.
Lemma mixColumns_valid st : valid_block st -> valid_block (mixColumns st).
Proof. intros H. explode_block st H. rewrite mixColumns_blk. valid_tac. Qed.
Lemma loadToState_valid st : valid_block st -> valid_block (loadToState st uninit_block).
Proof.
  intros H. explode_block st H. rewrite loadToState_blk by reflexivity.
  valid_tac.
Qed.
Lemma loadFromState_valid st : valid_block st -> valid_block (loadFromState st uninit_block).
Proof.
  intros H. explode_block st H. rewrite loadFromState_blk.
  valid_tac.
Qed.

Create HintDb aes.
#[export] Hint Resolve addRoundKey_valid subBytes_valid shiftRows_valid mixColumns_valid
  loadToState_valid loadFromState_valid : aes.

Lemma encrypt_round_valid rk r st : valid_block st -> valid_block (encrypt_round rk r st).
Proof. unfold encrypt_round. auto 10 with aes. Qed.
#[export] Hint Resolve encrypt_round_valid : aes.

Lemma encrypt_rounds_valid rk l st :
  valid_block st -> valid_block (foldl (fun st r => encrypt_round rk r st) st l).
Proof. revert st. induction l; intros st H; simpl; auto with aes. Qed.
#[export] Hint Resolve encrypt_rounds_valid : aes.

Lemma load_unload st : valid_block st ->
  loadToState (loadFromState st uninit_block) uninit_block = st.
Proof.
  intros H. explode_block st H. rewrite loadFromState_blk.
  apply loadToState_blk. reflexivity.
Qed.

Lemma unload_load st : valid_block st ->
  loadFromState (loadToState st uninit_block) uninit_block = st.
Proof.
  intros H. explode_block st H. rewrite loadToState_blk by reflexivity.
  apply loadFromState_blk.
Qed.

Lemma decrypt_round_inv rk r st : valid_block st ->
  decrypt_round rk r (shiftRows (subBytes (encrypt_round rk r st))) = shiftRows (subBytes st).
Proof.
  intros H. unfold decrypt_round.
  rewrite shiftRows_inv, subBytes_inv by auto with aes. unfold encrypt_round.
  rewrite addRoundKey_twice by auto with aes. apply mixColumns_inv. auto with aes.
Qed.

Lemma decrypt_rounds_inv rk l st : valid_block st ->
  foldl (fun st r => decrypt_round rk r st)
        (shiftRows (subBytes (foldl (fun st r => encrypt_round rk r st) st l))) (rev l) =
  shiftRows (subBytes st).
Proof.
  revert st. induction l as [|r l IH] using rev_ind; intros st H; [reflexivity|].
  rewrite rev_app_distr, !foldl_app. simpl.
  rewrite decrypt_round_inv by auto with aes. apply IH, H.
Qed.

Lemma aes_encrypt_valid input rk ks : valid_block input -> valid_block (aes_encrypt input rk ks).
Proof. intros H. unfold aes_encrypt. auto 10 with aes. Qed.

Lemma aes_roundtrip input rk ks : valid_block input ->
  aes_decrypt (aes_encrypt input rk ks) rk ks = input.
Proof.
  intros H. unfold aes_decrypt, aes_encrypt.
  rewrite load_unload, addRoundKey_twice, decrypt_rounds_inv by auto 10 with aes.
  rewrite shiftRows_inv, subBytes_inv, addRoundKey_twice by auto with aes.
  apply unload_load, H.
Qed.

End AesFacts.

(** * Refinement of FIPS-197 *)
Module AesRefinement.
Import Aes AesFacts.

(** The columns of a block stored by rows. *)
Definition to_fips (st : list Z) : list (list Z) :=
  Fips.of_fun (fun r c => st !!! byteOfState r c).

Lemma mult2_fips x : is_byte x -> mult 2 x = Fips.gmul 2 x.
Proof. by_bytes (mult 2) (Fips.gmul 2). Qed.
Lemma mult3_fips x : is_byte x -> mult 3 x = Fips.gmul 3 x.
Proof. by_bytes (mult 3) (Fips.gmul 3). Qed.
Lemma gmul1 x : is_byte x -> Fips.gmul 1 x = x.
Proof. by_bytes (Fips.gmul 1) (fun x : Z => x). Qed.

Lemma keyed_fips r b w : (r < 4)%nat -> is_byte b -> is_u32 w ->
  keyed r b w = Z.lxor b (Fips.be_byte r w).
Proof.
  intros Hr Hb Hw. unfold keyed, Fips.be_byte. change 255 with (Z.ones 8).
  rewrite Z.land_ones by lia. rewrite u8_id.
  - f_equal. f_equal. destruct r as [|[|[|[|r]]]]; [..|lia];
      cbn -[Z.shiftr Z.div Z.pow]; rewrite ?Z.shiftr_div_pow2, ?Z.div_1_r by lia; reflexivity.
  - apply lxor_byte; [exact Hb|]. apply Z.mod_pos_bound. lia.
Qed.

(** Bring both sides of a layer equation to sixteen entries. *)
Ltac entries :=
  unfold to_fips, Fips.of_fun, Fips.sget; cbn [map seq lookup_total list_lookup_total
    byteOfState Nat.shiftl Nat.double Nat.add BLOCK_SHIFT Nat.modulo Nat.divmod fst snd Nat.sub].

Lemma subBytes_fips st : valid_block st -> to_fips (subBytes st) = Fips.SubBytes (to_fips st).
Proof.
  intros H. explode_block st H. rewrite subBytes_blk.
  unfold Fips.SubBytes. entries. rewrite !sBox_fips by assumption. reflexivity.
Qed.

Lemma shiftRows_fips st : valid_block st -> to_fips (shiftRows st) = Fips.ShiftRows (to_fips st).
Proof.
  intros H. explode_block st H. rewrite shiftRows_blk.
  unfold Fips.ShiftRows. entries. rewrite !u8_s8_byte by assumption. reflexivity.
Qed.

Lemma mixColumns_fips st : valid_block st -> to_fips (mixColumns st) = Fips.MixColumns (to_fips st).
Proof.
  intros H. explode_block st H. rewrite mixColumns_blk.
  rewrite !mix1_bytes by assumption. cbv -[Z.lxor mult Fips.gmul].
  rewrite !mult2_fips, !mult3_fips, !gmul1, !Z.lxor_0_l by assumption.
  repeat match goal with |- _ :: _ = _ :: _ => f_equal end; try reflexivity; xor_ac.
Qed.

Lemma addRoundKey_fips st w :
  valid_block st -> Forall is_u32 w -> (4 <= length w)%nat ->
  to_fips (addRoundKey st w) = Fips.AddRoundKey (to_fips st) w.
Proof.
  intros H Hw Hl. explode_block st H. rewrite addRoundKey_blk.
  unfold Fips.AddRoundKey. entries.
  rewrite !keyed_fips by
    first [lia|assumption|apply Forall_lookup_total; [assumption|lia]].
  reflexivity.
Qed.

Lemma load_fips st : valid_block st -> to_fips (loadToState st uninit_block) = Fips.load st.
Proof.
  intros H. explode_block st H. rewrite loadToState_blk by reflexivity. reflexivity.
Qed.

Lemma unload_fips st : valid_block st -> loadFromState st uninit_block = Fips.unload (to_fips st).
Proof. intros H. explode_block st H. rewrite loadFromState_blk. reflexivity. Qed.

Section cipher.
Context (rk : list Z) (ks : nat).
Context (Hw : Forall is_u32 rk) (Hlen : length rk = (BLOCK_COLUMNS * (6 + ks + 1))%nat).

Lemma round_key_ok r : (r <= 6 + ks)%nat ->
  Forall is_u32 (drop (r * BLOCK_COLUMNS) rk) /\ (4 <= length (drop (r * BLOCK_COLUMNS) rk))%nat.
Proof.
  intros Hr. split; [apply Forall_drop, Hw|]. rewrite length_drop, Hlen.
  unfold BLOCK_COLUMNS. lia.
Qed.

Lemma round_fips r st : (r <= 6 + ks)%nat -> valid_block st ->
  to_fips (encrypt_round rk r st) = Fips.Round rk r (to_fips st).
Proof.
  intros Hr H. destruct (round_key_ok r Hr) as [Hk Hl]. unfold encrypt_round, Fips.Round.
  rewrite addRoundKey_fips, mixColumns_fips, shiftRows_fips, subBytes_fips by auto with aes.
  unfold BLOCK_COLUMNS. rewrite Nat.mul_comm. reflexivity.
Qed.

Lemma rounds_fips l st : Forall (fun r => r <= 6 + ks)%nat l -> valid_block st ->
  to_fips (foldl (fun st r => encrypt_round rk r st) st l) =
  foldl (fun s r => Fips.Round rk r s) (to_fips st) l.
Proof.
  intros Hl. revert st. induction Hl as [|r l Hr _ IH]; intros st H; [reflexivity|].
  simpl. rewrite IH, round_fips by auto with aes. reflexivity.
Qed.

Lemma aes_encrypt_fips input : valid_block input ->
  aes_encrypt input rk ks = Fips.Cipher (6 + ks) rk input.
Proof.
  intros H. unfold aes_encrypt, Fips.Cipher.
  destruct (round_key_ok (6 + ks)) as [Hk Hl]; [lia|].
  destruct (round_key_ok 0) as [Hk0 Hl0]; [lia|]. rewrite drop_0 in Hl0.
  rewrite unload_fips, addRoundKey_fips, shiftRows_fips, subBytes_fips by auto 10 with aes.
  assert (Hr : Forall (fun r => r <= 6 + ks)%nat (seq 1 (6 + ks - 1))).
  { apply Forall_forall. intros r Hr. apply elem_of_seq in Hr. lia. }
  rewrite rounds_fips, addRoundKey_fips, load_fips by auto with aes.
  unfold BLOCK_COLUMNS. rewrite (Nat.mul_comm 4). reflexivity.
Qed.
End cipher.

(** ** Key schedule *)
Lemma be_bytes_of_le w : is_u32 w ->
  le_bytes 4 w = [Fips.be_byte 3 w; Fips.be_byte 2 w; Fips.be_byte 1 w; Fips.be_byte 0 w].
Proof.
  intros H. unfold Fips.be_byte. cbn [le_bytes]. unfold u8.
  rewrite !Z.div_div by lia.
  change (2 ^ (24 - 8 * Z.of_nat 3)) with 1. rewrite Z.div_1_r. reflexivity.
Qed.

Lemma be_byte_byte r w : is_byte (Fips.be_byte r w).
Proof. apply Z.mod_pos_bound. lia. Qed.

Lemma sbox_byte x : is_byte x -> is_byte (Fips.sbox x).
Proof. intros H. rewrite <- sBox_fips by exact H. apply u8_byte. Qed.

Lemma subWord_fips w : is_u32 w -> subWord w = Fips.SubWord w.
Proof.
  intros H. unfold subWord, Fips.SubWord. rewrite be_bytes_of_le by exact H.
  cbn [map seq foldl le_word]. rewrite !sBox_fips by apply be_byte_byte. lia.
Qed.

Lemma subWord_u32 w : is_u32 w -> is_u32 (subWord w).
Proof.
  intros H. unfold subWord. rewrite be_bytes_of_le by exact H. cbn [map le_word].
  pose proof (u8_byte (sBox !!! Z.to_nat (Fips.be_byte 0 w))).
  pose proof (u8_byte (sBox !!! Z.to_nat (Fips.be_byte 1 w))).
  pose proof (u8_byte (sBox !!! Z.to_nat (Fips.be_byte 2 w))).
  pose proof (u8_byte (sBox !!! Z.to_nat (Fips.be_byte 3 w))).
  unfold is_byte, is_u32 in *. lia.
Qed.

Lemma shiftr24_small w : is_u32 w -> is_byte (Z.shiftr w 24).
Proof.
  unfold is_u32, is_byte. intros H. rewrite Z.shiftr_div_pow2 by lia. split.
  - apply Z.div_pos; lia.
  - apply Z.div_lt_upper_bound; lia.
Qed.

Lemma rotWord_fips w : is_u32 w -> rotWord w = Fips.RotWord w.
Proof.
  intros H. unfold rotWord, Fips.RotWord. rewrite <- Z.shiftr_div_pow2 by lia.
  assert (D : Z.land (u32 (Z.shiftl w 8)) (Z.shiftr w 24) = 0).
  { apply Z.bits_inj'. intros i Hi. rewrite Z.land_spec, Z.bits_0.
    unfold u32. change 4294967296 with (2 ^ 32). rewrite mod_pow2_testbit by lia.
    destruct (decide (i < 8)).
    - rewrite Z.shiftl_spec_low by lia. rewrite andb_false_r. reflexivity.
    - rewrite <- (u8_id (Z.shiftr w 24)) by (apply shiftr24_small, H).
      unfold u8. change 256 with (2 ^ 8). rewrite (mod_pow2_testbit (Z.shiftr w 24)) by lia.
      replace (i <? 8) with false by lia. rewrite andb_false_r. reflexivity. }
  rewrite <- Z.lxor_lor by exact D. symmetry. apply Z.add_nocarry_lxor, D.
Qed.

Lemma rotWord_u32 w : is_u32 w -> is_u32 (rotWord w).
Proof.
  intros H. unfold rotWord. apply lor_u32; [apply u32_is_u32|].
  pose proof (shiftr24_small w H). unfold is_byte, is_u32 in *. lia.
Qed.

Lemma rcon_fips i : (1 <= i <= 10)%nat -> rcon !!! i = Fips.Rcon i.
Proof. intros H. do 11 (destruct i as [|i]; [first [lia|vm_compute; reflexivity]|]). lia. Qed.

Lemma rcon_u32 i : is_u32 (rcon !!! i).
Proof.
  destruct (decide (i < length rcon)%nat) as [H|H].
  - apply Forall_lookup_total; [|exact H]. repeat (apply Forall_cons_2; [unfold is_u32; lia|]).
    apply Forall_nil_2.
  - rewrite list_lookup_total_alt, lookup_ge_None_2 by lia. unfold is_u32. simpl. lia.
Qed.

Section schedule.
Context (Nk : nat) (key : list Z).
Context (HNk : Nk = 4%nat \/ Nk = 6%nat \/ Nk = 8%nat).
Context (Hkey : length key = Nk) (Hkw : Forall is_u32 key).
Abbreviation total := (4 * (Nk + 6 + 1))%nat.

Lemma key_copy rk : length rk = total ->
  let rk' := for_n Nk (fun i rk => <[i := key !!! i]> rk) rk in
  length rk' = total /\ forall i, (i < Nk)%nat -> rk' !!! i = key !!! i.
Proof.
  intros Hrk.
  apply (for_n_inv Nk _ (fun n rk' =>
    length rk' = total /\ forall i, (i < n)%nat -> rk' !!! i = key !!! i)).
  - split; [exact Hrk|lia].
  - intros i rk' Hi [Hl Hp]. rewrite length_insert. split; [exact Hl|]. intros j Hj.
    destruct (decide (j = i)) as [->|Hne].
    + apply list_lookup_total_insert_eq. lia.
    + rewrite list_lookup_total_insert_ne by congruence. apply Hp. lia.
Qed.

(** What the loop has established when it reaches word [n]. *)
Definition filled (n : nat) (w : list Z) : Prop :=
  length w = total /\
  (forall i, (i < n)%nat -> is_u32 (w !!! i)) /\
  (forall i, (i < Nk)%nat -> w !!! i = key !!! i) /\
  (forall i, (Nk <= i < n)%nat ->
     w !!! i = Z.lxor (w !!! (i - Nk)%nat) (Fips.schedule_temp Nk i (w !!! (i - 1)%nat))).

Lemma index_bounds n : (Nk <= n < total)%nat -> (1 <= n / Nk <= 10)%nat.
Proof.
  intros Hn. split.
  - apply Nat.div_le_lower_bound; lia.
  - apply Nat.lt_succ_r, Nat.Div0.div_lt_upper_bound; lia.
Qed.

Lemma temp_fips n prev : (Nk <= n < total)%nat -> is_u32 prev ->
  (if (n mod Nk =? 0)%nat
   then Z.lxor (subWord (rotWord prev)) (rcon !!! (n / Nk)%nat)
   else if (6 <? Nk)%nat && (n mod Nk =? 4)%nat then subWord prev else prev) =
  Fips.schedule_temp Nk n prev /\ is_u32 (Fips.schedule_temp Nk n prev).
Proof.
  intros Hn Hp. unfold Fips.schedule_temp. destruct (n mod Nk =? 0)%nat eqn:E.
  - pose proof (index_bounds n Hn).
    rewrite <- rcon_fips, <- rotWord_fips, <- subWord_fips by auto using rotWord_u32.
    split; [reflexivity|]. apply lxor_u32; auto using subWord_u32, rotWord_u32, rcon_u32.
  - destruct ((6 <? Nk)%nat && (n mod Nk =? 4)%nat); [|auto].
    rewrite <- subWord_fips by exact Hp. auto using subWord_u32.
Qed.

Lemma step_filled n w : (Nk <= n < total)%nat -> filled n w ->
  filled (S n) (keyExpansion_step Nk n w).
Proof.
  intros Hn (Hl & Hu & Hk & Hr). unfold keyExpansion_step.
  destruct (temp_fips n (w !!! (n - 1)%nat) Hn) as [-> Ht]; [apply Hu; lia|].
  set (v := Z.lxor _ _).
  assert (Hv : is_u32 v) by (apply lxor_u32; [apply Hu; lia|exact Ht]).
  assert (Hold : forall i, (i < n)%nat -> <[n:=v]> w !!! i = w !!! i).
  { intros i Hi. apply list_lookup_total_insert_ne. lia. }
  assert (Hnew : <[n:=v]> w !!! n = v) by (apply list_lookup_total_insert_eq; lia).
  split; [rewrite length_insert; exact Hl|]. repeat split.
  - destruct (decide (i = n)) as [->|]; [rewrite Hnew|rewrite Hold]; try apply Hu; try apply Hv; lia.
  - destruct (decide (i = n)) as [->|]; [rewrite Hnew|rewrite Hold]; try apply Hu; try apply Hv; lia.
  - intros i Hi. rewrite Hold by lia. apply Hk, Hi.
  - intros i Hi. rewrite (Hold (i - Nk)%nat), (Hold (i - 1)%nat) by lia.
    destruct (decide (i = n)) as [->|]; [rewrite Hnew; reflexivity|].
    rewrite Hold by lia. apply Hr. lia.
Qed.

Lemma loop_filled m w : (Nk + m <= total)%nat -> filled Nk w ->
  filled (Nk + m) (foldl (fun rk i => keyExpansion_step Nk i rk) w (seq Nk m)).
Proof.
  induction m as [|m IH]; intros Hm Hw; [rewrite Nat.add_0_r; exact Hw|].
  rewrite seq_S, foldl_app, Nat.add_succ_r. simpl. apply step_filled; [lia|].
  apply IH; [lia|exact Hw].
Qed.

Lemma keyExpansion_filled rk : length rk = total -> filled total (keyExpansion key rk Nk).
Proof.
  intros Hrk. unfold keyExpansion, BLOCK_COLUMNS.
  destruct (key_copy rk Hrk) as [Hl Hp].
  replace (4 * (6 + Nk + 1) - Nk)%nat with (total - Nk)%nat by lia.
  replace total with (Nk + (total - Nk))%nat at 1 by lia.
  apply loop_filled; [lia|]. split; [exact Hl|]. split; [|split; [exact Hp|lia]].
  intros i Hi. rewrite Hp by exact Hi. apply Forall_lookup_total; [exact Hkw|lia].
Qed.
End schedule.

End AesRefinement.

(** * Properties *)
Module AesProps.
Import Aes AesFacts AesRefinement.

(** C10: for each of the three AES key sizes, [keyExpansion] fills the caller's
    array with the key schedule of FIPS-197 whatever the array held before,
    and [aes_encrypt] with those round keys is the FIPS-197 cipher. *)
Theorem aes_encrypt_is_fips197 (Nk : nat) (key junk input : list Z) :
  Nk = AES_128_KEY_SIZE \/ Nk = AES_192_KEY_SIZE \/ Nk = AES_256_KEY_SIZE ->
  length key = Nk -> Forall is_u32 key ->
  length junk = (BLOCK_COLUMNS * (KEY_SIZE_ROUNDS Nk + 1))%nat -> valid_block input ->
  Fips.KeySchedule Nk key (keyExpansion key junk Nk) /\
  aes_encrypt input (keyExpansion key junk Nk) Nk =
    Fips.Cipher (KEY_SIZE_ROUNDS Nk) (keyExpansion key junk Nk) input.
Proof.
  intros HN Hk Hw Hj Hin.
  destruct (keyExpansion_filled Nk key HN Hk Hw junk) as (Hl & Hu & Hc & Hr).
  { rewrite Hj. unfold BLOCK_COLUMNS, KEY_SIZE_ROUNDS. lia. }
  split; [exact (conj Hl (conj Hc Hr))|]. apply aes_encrypt_fips; [| |exact Hin].
  - apply Forall_lookup. intros i x Hx. pose proof (lookup_lt_Some _ _ _ Hx).
    rewrite <- (list_lookup_total_correct _ _ _ Hx). apply Hu. lia.
  - rewrite Hl. unfold BLOCK_COLUMNS. lia.
Qed.

(** The example vectors of FIPS-197, appendix C.3. *)
Definition vector_key : list Z :=
  [0x00010203; 0x04050607; 0x08090a0b; 0x0c0d0e0f; 0x10111213; 0x14151617; 0x18191a1b; 0x1c1d1e1f].
Definition vector_block : list Z :=
  [0x00; 0x11; 0x22; 0x33; 0x44; 0x55; 0x66; 0x77; 0x88; 0x99; 0xaa; 0xbb; 0xcc; 0xdd; 0xee; 0xff].
Definition vector_cipher : list Z :=
  [0x8e; 0xa2; 0xb7; 0xca; 0x51; 0x67; 0x45; 0xbf; 0xea; 0xfc; 0x49; 0x90; 0x4b; 0x49; 0x60; 0x89].

Lemma vector_block_valid : valid_block vector_block.
Proof.
  split; [reflexivity|]. repeat (apply Forall_cons_2; [unfold is_byte; lia|]). apply Forall_nil_2.
Qed.

Lemma vector_key_u32 : Forall is_u32 vector_key.
Proof. repeat (apply Forall_cons_2; [unfold is_u32; lia|]). apply Forall_nil_2. Qed.

Lemma aes_encrypt_is_fips197_witness :
  Fips.KeySchedule 8 vector_key (keyExpansion vector_key (replicate 60 7) 8) /\
  aes_encrypt vector_block (keyExpansion vector_key (replicate 60 7) 8) 8 = vector_cipher.
Proof.
  destruct (aes_encrypt_is_fips197 8 vector_key (replicate 60 7) vector_block
    (or_intror (or_intror eq_refl)) eq_refl vector_key_u32 eq_refl vector_block_valid) as [H _].
  split; [exact H|vm_compute; reflexivity].
Defined.

(** decryption with the same round keys undoes encryption, for every
    block, every array of round keys and every key size. *)
Theorem aes_decrypt_encrypt (input roundKeys : list Z) (keySize : nat) :
  valid_block input ->
  aes_decrypt (aes_encrypt input roundKeys keySize) roundKeys keySize = input.
Proof. apply aes_roundtrip. Qed.

Lemma aes_decrypt_encrypt_witness :
  aes_decrypt (aes_encrypt vector_block (replicate 44 0) 4) (replicate 44 0) 4 = vector_block.
Proof. exact (aes_decrypt_encrypt vector_block (replicate 44 0) 4 vector_block_valid). Defined.
End AesProps.
