(* ===== verification/Ctr.v ===== *)
(** CTR mode (ctr.c): the message is combined with the encrypted sequence.
    Arrays are lists and an access outside one is a [Fault]; the theorems say
    what the code computes when [size] fits the local buffer and that it
    writes past that buffer when it does not. *)

From S2P Require Import Prelude Aes.

Module Ctr.
Import Aes.

(** Copy [bs] over [a] from index [i]; C does not check that it fits. *)
Definition write_at (a : list Z) (i : nat) (bs : list Z) : res (list Z) :=
  if decide (i + length bs <= length a)%nat
  then Ok (take i a ++ bs ++ drop (i + length bs) a)
  else Fault "write outside an array".

(** Read [n] elements of [a] from index [i]. *)
Definition read_at (a : list Z) (i n : nat) : res (list Z) :=
  if decide (i + n <= length a)%nat
  then Ok (take n (drop i a))
  else Fault "read outside an array".

Definition arr_get (a : list Z) (i : nat) : res Z :=
  match a !! i with Some x => Ok x | None => Fault "read outside an array" end.

Definition arr_set (a : list Z) (i : nat) (x : Z) : res (list Z) :=
  if decide (i < length a)%nat then Ok (<[i := x]> a) else Fault "write outside an array".

(** One round of the loop of [ctr]; the state is [encrypted_sequence] and [out]. *)
Definition ctr_step (E : list Z -> list Z) (input sequence : list Z)
    (index : nat) (st : list Z * list Z) : res (list Z * list Z) :=
  let '(encrypted_sequence, out) := st in
  encrypted_sequence ←
    (if (index mod BLOCK_LENGTH =? 0)%nat
     then block ← read_at sequence index BLOCK_LENGTH;
          write_at encrypted_sequence index (E block)
     else Ok encrypted_sequence);
  e ← arr_get encrypted_sequence index;
  m ← arr_get input index;
  out ← arr_set out index (u8 (Z.lxor e m));
  Ok (encrypted_sequence, out).

Fixpoint ctr_loop (E : list Z -> list Z) (input sequence : list Z)
    (indices : list nat) (st : list Z * list Z) : res (list Z * list Z) :=
  match indices with
  | [] => Ok st
  | index :: rest => st ← ctr_step E input sequence index st; ctr_loop E input sequence rest st
  end.

(** Returns the contents of [out]. *)
Definition ctr (input out sequence : list Z) (size : nat) (key : list Z) (keySize : nat)
    : res (list Z) :=
  let rounds := (keySize + 6)%nat in
  let roundKeys := keyExpansion key (replicate (BLOCK_COLUMNS * (rounds + 1)) 0) keySize in
  let encrypted_sequence := replicate BLOCK_LENGTH 0 in
  st ← ctr_loop (fun b => aes_encrypt b roundKeys keySize) input sequence (seq 0 size)
                (encrypted_sequence, out);
  Ok (snd st).

Definition ctr_encrypt (message ciphertext : list Z) (size : nat) (sequence key : list Z)
    (keySize : nat) : res (list Z) :=
  ctr message ciphertext sequence size key keySize.

Definition ctr_decrypt (ciphertext message : list Z) (size : nat) (sequence key : list Z)
    (keySize : nat) : res (list Z) :=
  ctr ciphertext message sequence size key keySize.
End Ctr.

Module CtrFacts.
Import Aes AesFacts Ctr.

(** The bytes the code is meant to write: the pad combined with the message. *)
Definition pad (k : nat) (stream message : list Z) : list Z :=
  zip_with (fun e m => u8 (Z.lxor e m)) (take k stream) (take k message).

Lemma length_pad k stream message :
  (k <= length stream)%nat -> (k <= length message)%nat -> length (pad k stream message) = k.
Proof. intros. unfold pad. rewrite length_zip_with, !length_take. lia. Qed.

Lemma pad_succ k stream message e m :
  stream !! k = Some e -> message !! k = Some m ->
  pad (S k) stream message = pad k stream message ++ [u8 (Z.lxor e m)].
Proof.
  intros He Hm. unfold pad.
  rewrite (take_S_r _ _ _ He), (take_S_r _ _ _ Hm).
  apply lookup_lt_Some in He, Hm.
  rewrite zip_with_app by (rewrite !length_take; lia). reflexivity.
Qed.

Lemma pad_twice k stream message :
  Forall is_byte stream -> Forall is_byte message ->
  (k <= length stream)%nat -> (k <= length message)%nat ->
  forall rest, pad k stream (pad k stream message ++ rest) = take k message.
Proof.
  intros Hs Hm. induction k as [|k IH]; intros Hk Hk' rest; [reflexivity|].
  destruct (lookup_lt_is_Some_2 stream k) as [e He]; [lia|].
  destruct (lookup_lt_is_Some_2 message k) as [m Hm']; [lia|].
  rewrite (pad_succ k _ message _ _ He Hm'), <- app_assoc.
  rewrite (pad_succ k _ _ e (u8 (Z.lxor e m)) He).
  - rewrite IH, (take_S_r _ _ _ Hm') by lia. f_equal. f_equal.
    pose proof (Forall_lookup_1 _ _ _ _ Hs He). pose proof (Forall_lookup_1 _ _ _ _ Hm Hm').
    rewrite (u8_id (Z.lxor e m)) by auto using lxor_byte.
    rewrite <- Z.lxor_assoc, Z.lxor_nilpotent, Z.lxor_0_l. apply u8_id. assumption.
  - rewrite lookup_app_r by (rewrite length_pad; lia).
    rewrite length_pad by lia. rewrite Nat.sub_diag. reflexivity.
Qed.

Lemma ctr_loop_app E input sequence l1 l2 st :
  ctr_loop E input sequence (l1 ++ l2) st =
  (ctr_loop E input sequence l1 st ≫= ctr_loop E input sequence l2).
Proof.
  revert st. induction l1 as [|i l1 IH]; intros st; [reflexivity|].
  simpl. unfold mbind, res_bind. destruct (ctr_step E input sequence i st); auto.
Qed.

Section loop.
Context (E : list Z -> list Z) (HE : forall b, valid_block b -> valid_block (E b)).
Context (input sequence : list Z) (Hseq : Forall is_byte sequence) (Hlen : (16 <= length sequence)%nat).
Abbreviation stream := (E (take 16 sequence)).

Lemma first_block_valid : valid_block (take 16 sequence).
Proof. split; [rewrite length_take; lia|apply Forall_take, Hseq]. Qed.

Lemma stream_valid : valid_block stream.
Proof. apply HE, first_block_valid. Qed.

Lemma write_first es : length es = 16%nat -> write_at es 0 stream = Ok stream.
Proof.
  intros Hes. destruct stream_valid as [Hl _]. unfold write_at. rewrite Hl.
  rewrite decide_True by lia. rewrite take_0, drop_ge by lia. simpl.
  rewrite app_nil_r. reflexivity.
Qed.

Lemma ctr_step_at k es out m :
  (k < 16)%nat -> es = (if decide (k = 0%nat) then replicate 16 0 else stream) ->
  input !! k = Some m -> (k < length out)%nat ->
  ctr_step E input sequence k (es, out) =
  Ok (stream, <[k := u8 (Z.lxor (stream !!! k) m)]> out).
Proof.
  intros Hk Hes Hm Hout. destruct stream_valid as [Hl _]. unfold ctr_step.
  assert (Hget : arr_get stream k = Ok (stream !!! k)).
  { unfold arr_get. rewrite list_lookup_lookup_total_lt by lia. reflexivity. }
  destruct (decide (k = 0%nat)) as [->|Hk0].
  - simpl. unfold read_at. rewrite decide_True by (unfold BLOCK_LENGTH; lia).
    rewrite drop_0. unfold mbind, res_bind. change (take BLOCK_LENGTH sequence) with (take 16 sequence).
    rewrite write_first by (rewrite Hes, length_replicate; reflexivity).
    rewrite Hget. unfold arr_get. rewrite Hm. unfold arr_set. rewrite decide_True by lia. reflexivity.
  - replace (k mod BLOCK_LENGTH =? 0)%nat with false.
    + subst es. unfold mbind, res_bind. rewrite Hget. unfold arr_get. rewrite Hm.
      unfold arr_set. rewrite decide_True by lia. reflexivity.
    + symmetry. apply Nat.eqb_neq. unfold BLOCK_LENGTH. rewrite Nat.mod_small; lia.
Qed.

Lemma ctr_loop_short k out :
  (k <= 16)%nat -> (k <= length input)%nat -> (k <= length out)%nat ->
  ctr_loop E input sequence (seq 0 k) (replicate 16 0, out) =
  Ok (if decide (k = 0%nat) then replicate 16 0 else stream,
      pad k stream input ++ drop k out).
Proof.
  destruct stream_valid as [Hl _].
  induction k as [|k IH]; intros Hk Hi Ho; [reflexivity|].
  rewrite seq_S, ctr_loop_app, IH by lia. change (0 + k)%nat with k.
  unfold mbind at 1, res_bind at 1. cbn [ctr_loop].
  destruct (lookup_lt_is_Some_2 input k) as [m Hm]; [lia|].
  rewrite (ctr_step_at k _ _ m); [|lia|reflexivity|exact Hm|].
  - simpl. f_equal. f_equal.
    assert (He : stream !! k = Some (stream !!! k)) by (apply list_lookup_lookup_total_lt; lia).
    rewrite (pad_succ k _ _ _ _ He Hm), <- app_assoc.
    assert (Hp : length (pad k stream input) = k) by (apply length_pad; lia).
    rewrite insert_app_r_alt, Hp, Nat.sub_diag by lia. f_equal.
    destruct (lookup_lt_is_Some_2 out k) as [x Hx]; [lia|].
    rewrite (drop_S _ _ _ Hx). reflexivity.
  - rewrite length_app, length_drop, length_pad; lia.
Qed.

(** At index 16 the second block is written past [encrypted_sequence]. *)
Lemma ctr_step_overflow es out :
  length es = 16%nat -> (32 <= length sequence)%nat ->
  ctr_step E input sequence 16 (es, out) = Fault "write outside an array".
Proof.
  intros Hes Hs. unfold ctr_step. change ((16 mod BLOCK_LENGTH =? 0)%nat) with true. simpl.
  unfold read_at. rewrite decide_True by (unfold BLOCK_LENGTH; lia).
  unfold mbind, res_bind, write_at. rewrite Hes.
  rewrite decide_False; [reflexivity|]. intros Hle.
  assert (Hv : valid_block (E (take BLOCK_LENGTH (drop 16 sequence)))).
  { apply HE. split; [rewrite length_take, length_drop; unfold BLOCK_LENGTH; lia|].
    apply Forall_take, Forall_drop, Hseq. }
  destruct Hv as [Hv _]. lia.
Qed.
End loop.
End CtrFacts.

Module CtrProps.
Import Aes AesFacts Ctr CtrFacts.

(** for messages of at most one block, [ctr_decrypt] with the same key and
    sequence recovers what [ctr_encrypt] encrypted, leaving the rest of the
    destination buffer alone. *)
Theorem ctr_decrypt_encrypt (message cbuf mbuf sequence key : list Z) (size keySize : nat) :
  (size <= BLOCK_LENGTH)%nat ->
  (size <= length message)%nat -> (size <= length cbuf)%nat -> (size <= length mbuf)%nat ->
  (BLOCK_LENGTH <= length sequence)%nat -> Forall is_byte sequence -> Forall is_byte message ->
  exists c, ctr_encrypt message cbuf size sequence key keySize = Ok c /\
            ctr_decrypt c mbuf size sequence key keySize = Ok (take size message ++ drop size mbuf).
Proof.
  intros Hs Hm Hc Hb Hq Hqb Hmb. unfold ctr_encrypt, ctr_decrypt, ctr.
  set (rk := keyExpansion _ _ _).
  set (E := fun b => aes_encrypt b rk keySize).
  assert (HE : forall b, valid_block b -> valid_block (E b)) 
    by (intros b Hv; exact (aes_encrypt_valid b rk keySize Hv)).
  destruct (stream_valid E HE sequence Hqb Hq) as [Hl HB].
  change (replicate BLOCK_LENGTH 0) with (replicate 16 0).
  rewrite (ctr_loop_short E HE message sequence Hqb Hq) by assumption.
  eexists. split; [reflexivity|]. cbn [snd].
  rewrite (ctr_loop_short E HE _ sequence Hqb Hq); [|assumption| |assumption].
  - cbn [mbind res_bind snd]. rewrite pad_twice by (assumption || lia). reflexivity.
  - rewrite length_app, length_pad by (assumption || lia). lia.
Qed.

Lemma ctr_decrypt_encrypt_witness :
  exists c, ctr_encrypt [1; 2; 3] [0; 0; 0] 3 (replicate 16 5) (replicate 8 9) 8 = Ok c /\
            ctr_decrypt c [7; 7; 7; 7] 3 (replicate 16 5) (replicate 8 9) 8 = Ok [1; 2; 3; 7].
Proof.
  apply (ctr_decrypt_encrypt [1; 2; 3] [0; 0; 0] [7; 7; 7; 7] (replicate 16 5) (replicate 8 9) 3 8).
  all: try (cbn; unfold BLOCK_LENGTH; lia).
  - apply Forall_replicate. unfold is_byte. lia.
  - repeat (apply Forall_cons_2; [unfold is_byte; lia|]). apply Forall_nil_2.
Defined.

(** a message longer than one block makes [ctr] write outside its local
    [encrypted_sequence], whatever the key, even though every buffer the
    caller passes is large enough. *)
Theorem ctr_overflows_local_buffer (message out sequence key : list Z) (size keySize : nat) :
  (BLOCK_LENGTH < size)%nat ->
  (size <= length message)%nat -> (size <= length out)%nat ->
  (2 * BLOCK_LENGTH <= length sequence)%nat -> Forall is_byte sequence ->
  ctr_encrypt message out size sequence key keySize = Fault "write outside an array".
Proof.
  intros Hs Hm Ho Hq Hqb. unfold ctr_encrypt, ctr, BLOCK_LENGTH in *.
  set (rk := keyExpansion _ _ _).
  set (E := fun b => aes_encrypt b rk keySize).
  assert (HE : forall b, valid_block b -> valid_block (E b)) 
    by (intros b Hv; exact (aes_encrypt_valid b rk keySize Hv)).
  assert (Hq16 : (16 <= length sequence)%nat) by lia.
  replace size with (16 + (1 + (size - 17)))%nat by lia.
  rewrite !seq_app, ctr_loop_app, (ctr_loop_short E HE message sequence Hqb Hq16) by lia.
  unfold mbind, res_bind. cbn [seq app ctr_loop Nat.add].
  destruct (stream_valid E HE sequence Hqb Hq16) as [Hl _].
  rewrite (ctr_step_overflow E HE message sequence Hqb) by first [exact Hl|lia]. reflexivity.
Qed.

Lemma ctr_overflows_local_buffer_witness :
  ctr_encrypt (replicate 100 0) (replicate 100 0) 100 (replicate 112 0) (replicate 8 0) 8 =
  Fault "write outside an array".
Proof.
  apply (ctr_overflows_local_buffer (replicate 100 0) (replicate 100 0) (replicate 112 0)).
  all: try (rewrite ?length_replicate; unfold BLOCK_LENGTH; lia).
  apply Forall_replicate. unfold is_byte. lia.
Defined.
End CtrProps.
