(* ===== verification/Mem.v ===== *)
(** Byte-addressed memory: the interface the C routines rely on, and the
    paged memory of the kernel that implements it.  A frame is 4096 bytes
    and an address without a frame is not mapped. *)

From S2P Require Import Prelude.

(** What a load after a store returns. *)
Class Memory (M : Type) := {
  load8 : M -> Z -> option Z;
  store8 : M -> Z -> Z -> option M;
  load_store_eq : forall m m' a v, store8 m a v = Some m' -> load8 m' a = Some v;
  load_store_ne : forall m m' a b v,
    store8 m a v = Some m' -> a <> b -> load8 m' b = load8 m b;
  store_mapped : forall m a v, is_Some (load8 m a) -> is_Some (store8 m a v);
}.

Section accesses.
Context {M : Type} `{Memory M}.

Definition load (a : Z) : K M Z := fun m => lift_opt "load from an unmapped address" (load8 m a) m.
Definition store (a v : Z) : K M unit := fun m =>
  match store8 m a v with
  | Some m' => Ok (tt, m')
  | None => Fault "store to an unmapped address"
  end.

(** A 32-bit access is four byte accesses in little-endian order. *)
Definition load32 (a : Z) : K M Z :=
  b0 ← load a; b1 ← load (a + 1); b2 ← load (a + 2); b3 ← load (a + 3);
  mret (le_word [b0; b1; b2; b3]).
Fixpoint store_bytes (a : Z) (bs : list Z) : K M unit :=
  match bs with
  | [] => skip
  | b :: bs' => store a b ;; store_bytes (a + 1) bs'
  end.
Definition store32 (a w : Z) : K M unit := store_bytes a (le_bytes 4 w).

Definition mapped (m : M) (lo n : Z) : Prop :=
  forall i, 0 <= i < n -> is_Some (load8 m (lo + i)).
(** The bytes [bs] are at [lo]. *)
Definition holds (m : M) (lo : Z) (bs : list Z) : Prop :=
  forall i x, bs !! i = Some x -> load8 m (lo + Z.of_nat i) = Some x.
(** [m'] differs from [m] at most in the [n] bytes at [lo]. *)
Definition same_outside (m m' : M) (lo n : Z) : Prop :=
  forall a, ~ (lo <= a < lo + n) -> load8 m' a = load8 m a.

Lemma wp_load a v (Q : Z -> M -> Prop) m : load8 m a = Some v -> Q v m -> wp (load a) Q m.
Proof. intros E HQ. unfold wp, load, lift_opt. rewrite E. eauto. Qed.

Lemma wp_store a v (Q : unit -> M -> Prop) m :
  is_Some (load8 m a) ->
  (forall m', load8 m' a = Some v -> (forall b, b <> a -> load8 m' b = load8 m b) -> Q tt m') ->
  wp (store a v) Q m.
Proof.
  intros Hm HQ. destruct (store_mapped m a v Hm) as [m' E].
  exists tt, m'. unfold store. rewrite E. split; [reflexivity|]. apply HQ.
  - exact (load_store_eq _ _ _ _ E).
  - intros b Hb. apply (load_store_ne _ _ _ _ _ E). congruence.
Qed.

Lemma same_outside_refl m lo n : same_outside m m lo n.
Proof. intros a _. reflexivity. Qed.

Lemma same_outside_trans m1 m2 m3 lo n :
  same_outside m1 m2 lo n -> same_outside m2 m3 lo n -> same_outside m1 m3 lo n.
Proof. intros H1 H2 a Ha. rewrite (H2 a Ha). exact (H1 a Ha). Qed.

Lemma same_outside_weaken m m' lo n lo' n' :
  same_outside m m' lo n -> lo' <= lo -> lo + n <= lo' + n' -> same_outside m m' lo' n'.
Proof. intros H1 H2 H3 a Ha. apply H1. lia. Qed.

Lemma holds_mapped m lo bs : holds m lo bs -> mapped m lo (Z.of_nat (length bs)).
Proof.
  intros H1 i Hi. destruct (lookup_lt_is_Some_2 bs (Z.to_nat i)) as [x Hx]; [lia|].
  exists x. rewrite <- (H1 _ _ Hx). f_equal. lia.
Qed.

Lemma holds_same_outside m m' lo bs a n :
  holds m lo bs -> same_outside m m' a n ->
  (lo + Z.of_nat (length bs) <= a \/ a + n <= lo) -> holds m' lo bs.
Proof.
  intros H1 H2 Hd i x Hx. pose proof (lookup_lt_Some _ _ _ Hx).
  rewrite H2 by lia. apply H1, Hx.
Qed.

(** Bytes can be stored wherever they are mapped. *)
Lemma wp_store_bytes a bs (Q : unit -> M -> Prop) m :
  mapped m a (Z.of_nat (length bs)) ->
  (forall m', holds m' a bs -> same_outside m m' a (Z.of_nat (length bs)) -> Q tt m') ->
  wp (store_bytes a bs) Q m.
Proof.
  revert a Q m. induction bs as [|b bs IH]; intros a Q m Hm HQ; simpl.
  - apply wp_skip, HQ; [intros i x Hx; discriminate|apply same_outside_refl].
  - apply wp_bind, wp_store.
    { replace a with (a + 0) by lia. apply Hm. simpl. lia. }
    intros m1 H1 H2. apply IH.
    + intros i Hi. destruct (decide (a + 1 + i = a)); [lia|]. rewrite H2 by lia.
      replace (a + 1 + i) with (a + (1 + i)) by lia. apply Hm. simpl. lia.
    + intros m2 H3 H4. apply HQ.
      * intros [|i] x Hx; simpl in Hx.
        -- injection Hx as <-. rewrite H4 by lia. replace (a + Z.of_nat 0) with a by lia. exact H1.
        -- rewrite <- (H3 i x Hx). f_equal. lia.
      * intros c Hc. simpl in Hc. rewrite H4 by lia. apply H2. lia.
Qed.

Lemma wp_load32 a bs (Q : Z -> M -> Prop) m :
  length bs = 4%nat -> holds m a bs -> Q (le_word bs) m -> wp (load32 a) Q m.
Proof.
  intros Hl Hh HQ. do 4 (destruct bs as [|? bs]; [discriminate|]). destruct bs; [|discriminate].
  unfold load32. 
  repeat (apply wp_bind; eapply wp_load; [first
    [ replace a with (a + Z.of_nat 0) by lia; apply Hh; reflexivity
    | apply (Hh 1%nat); reflexivity | apply (Hh 2%nat); reflexivity | apply (Hh 3%nat); reflexivity ]|]).
  apply wp_ret, HQ.
Qed.

(** ** Changes in several ranges *)

(** [x] is in none of the ranges [(lo, n)]. *)
Definition outside (x : Z) (rs : list (Z * Z)) : Prop :=
  Forall (fun r => ~ (r.1 <= x < r.1 + r.2)) rs.
Definition frame_mem (m m' : M) (rs : list (Z * Z)) : Prop :=
  forall x, outside x rs -> load8 m' x = load8 m x.

Lemma frame_refl m rs : frame_mem m m rs.
Proof. intros x _. reflexivity. Qed.

Lemma frame_trans m1 m2 m3 rs : frame_mem m1 m2 rs -> frame_mem m2 m3 rs -> frame_mem m1 m3 rs.
Proof. intros H1 H2 x Hx. rewrite (H2 x Hx). exact (H1 x Hx). Qed.

Lemma frame_mono m m' rs rs' : frame_mem m m' rs -> rs ⊆ rs' -> frame_mem m m' rs'.
Proof.
  intros H1 H2 x Hx. apply H1. apply Forall_forall. intros r Hr.
  exact (proj1 (Forall_forall _ _) Hx r (H2 r Hr)).
Qed.

(** A change inside one of the ranges. *)
Lemma frame_in m m' lo n rs lo' n' :
  same_outside m m' lo n -> (lo', n') ∈ rs -> lo' <= lo -> lo + n <= lo' + n' -> frame_mem m m' rs.
Proof.
  intros H1 Hin H2 H3 x Hx. apply H1. pose proof (proj1 (Forall_forall _ _) Hx _ Hin) as Hr.
  simpl in Hr. lia.
Qed.

Definition apart (lo n : Z) (rs : list (Z * Z)) : Prop :=
  Forall (fun r => lo + n <= r.1 \/ r.1 + r.2 <= lo) rs.

Lemma frame_holds m m' lo bs rs :
  holds m lo bs -> frame_mem m m' rs -> apart lo (Z.of_nat (length bs)) rs -> holds m' lo bs.
Proof.
  intros Hh Hf Ha i x Hx. pose proof (lookup_lt_Some _ _ _ Hx). rewrite Hf; [apply Hh, Hx|].
  eapply Forall_impl; [exact Ha|]. cbv beta. lia.
Qed.

Lemma frame_mapped m m' lo n rs : mapped m lo n -> frame_mem m m' rs -> apart lo n rs -> mapped m' lo n.
Proof.
  intros Hh Hf Ha i Hi. rewrite Hf; [apply Hh, Hi|]. eapply Forall_impl; [exact Ha|]. cbv beta. lia.
Qed.

Lemma holds_app m lo xs ys :
  holds m lo (xs ++ ys) <-> holds m lo xs /\ holds m (lo + Z.of_nat (length xs)) ys.
Proof.
  split.
  - intros Hh. split; intros i x Hx.
    + apply Hh, lookup_app_l_Some, Hx.
    + rewrite <- Z.add_assoc, <- Nat2Z.inj_add. apply Hh. rewrite lookup_app_r by lia.
      rewrite <- Hx. f_equal. lia.
  - intros [H1 H2] i x Hx. apply lookup_app_Some in Hx as [Hx|[Hi Hx]]; [apply H1, Hx|].
    rewrite <- (H2 _ _ Hx). f_equal. lia.
Qed.
End accesses.
Arguments load : simpl never.
Arguments store : simpl never.
Arguments load32 : simpl never.
Arguments store32 : simpl never.

(** Solve a frame goal from frames over ranges that are contained in those
    of the goal. *)
Ltac outside_lia :=
  unfold outside, apart in *; rewrite ?Forall_cons, ?Forall_nil in *; cbn [fst snd] in *; lia.

(** * Paged memory *)
Module Paged.
Definition PGSIZE : Z := 4096.

Abbreviation pages := (gmap Z (list Z)).

Definition page_load (m : pages) (a : Z) : option Z :=
  pg ← m !! (a / PGSIZE); pg !! Z.to_nat (a mod PGSIZE).
Definition page_store (m : pages) (a v : Z) : option pages :=
  pg ← m !! (a / PGSIZE);
  if decide (Z.to_nat (a mod PGSIZE) < length pg)%nat
  then Some (<[a / PGSIZE := <[Z.to_nat (a mod PGSIZE) := v]> pg]> m)
  else None.

Lemma page_load_store_eq m m' a v : page_store m a v = Some m' -> page_load m' a = Some v.
Proof.
  unfold page_store, page_load. destruct (m !! (a / PGSIZE)) as [pg|] eqn:E; [|discriminate].
  simpl. case_decide as Hd; [|discriminate]. intros [= <-].
  rewrite lookup_insert_eq. simpl. apply list_lookup_insert_eq, Hd.
Qed.

Lemma page_load_store_ne m m' a b v :
  page_store m a v = Some m' -> a <> b -> page_load m' b = page_load m b.
Proof.
  unfold page_store, page_load. destruct (m !! (a / PGSIZE)) as [pg|] eqn:E; [|discriminate].
  simpl. case_decide as Hd; [|discriminate]. intros [= <-] Hab.
  destruct (decide (a / PGSIZE = b / PGSIZE)) as [He|He].
  - rewrite He, lookup_insert_eq. rewrite He in E. rewrite E. simpl.
    apply list_lookup_insert_ne. intros Hn. apply Hab.
    unfold PGSIZE in *. pose proof (Z.mod_pos_bound a 4096). pose proof (Z.mod_pos_bound b 4096).
    pose proof (Z.div_mod a 4096). pose proof (Z.div_mod b 4096). lia.
  - rewrite lookup_insert_ne by exact He. reflexivity.
Qed.

Lemma page_store_mapped m a v : is_Some (page_load m a) -> is_Some (page_store m a v).
Proof.
  unfold page_store, page_load. destruct (m !! (a / PGSIZE)) as [pg|]; simpl.
  - intros [x Hx]. rewrite decide_True by (apply lookup_lt_Some in Hx; exact Hx). eauto.
  - intros [x Hx]. discriminate.
Qed.

#[export] Instance paged_memory : Memory pages := {
  load8 := page_load;
  store8 := page_store;
  load_store_eq := page_load_store_eq;
  load_store_ne := page_load_store_ne;
  store_mapped := page_store_mapped;
}.

Lemma mapped_page (m : pages) p pg :
  m !! (p / PGSIZE) = Some pg -> Z.of_nat (length pg) = PGSIZE -> p mod PGSIZE = 0 -> mapped m p PGSIZE.
Proof.
  intros Hm Hl Hp i Hi. simpl. unfold page_load, PGSIZE in *.
  pose proof (Z.div_mod p 4096 ltac:(lia)).
  replace ((p + i) / 4096) with (p / 4096) by (apply (Z.div_unique _ _ _ i); lia).
  rewrite Hm. simpl. replace ((p + i) mod 4096) with i by (apply (Z.mod_unique _ _ (p / 4096)); lia).
  apply lookup_lt_is_Some. lia.
Qed.
End Paged.
