(* ===== verification/CString.v ===== *)
(** Memory and string routines of the kernel (string.c, with the [rep stos]
    wrappers of x86.h), over any [Memory].  Each routine returns what the C
    function returns and leaves the memory it leaves. *)

From S2P Require Import Prelude Mem.

Module CString.
Section routines.
Context {M : Type} `{Memory M}.

(** x86.h *)
Definition stosb (addr data cnt : Z) : K M unit :=
  forM (seqZ 0 cnt) (fun i => store (addr + i) (u8 data)).
Definition stosl (addr data cnt : Z) : K M unit :=
  forM (seqZ 0 cnt) (fun i => store32 (addr + 4 * i) data).

Definition memset (dst c n : Z) : K M Z :=
  (if (Z.rem (s32 dst) 4 =? 0) && (n mod 4 =? 0)
   then
     let c := Z.land c 0xFF in
     let w := Z.lor (Z.lor (Z.lor (Z.shiftl c 24) (Z.shiftl c 16)) (Z.shiftl c 8)) c in
     stosl dst w (n / 4)
   else stosb dst c n) ;;
  mret dst.

Fixpoint memcmp_loop (n : nat) (s1 s2 : Z) : K M Z :=
  match n with
  | O => mret 0
  | S n =>
      a ← load s1; b ← load s2;
      if a =? b then memcmp_loop n (s1 + 1) (s2 + 1) else mret (a - b)
  end.
Definition memcmp (v1 v2 n : Z) : K M Z := memcmp_loop (Z.to_nat n) v1 v2.

(** The two copy loops of [memmove]. *)
Fixpoint copy_down (n : nat) (d s : Z) : K M unit :=
  match n with
  | O => skip
  | S n => c ← load (s - 1); store (d - 1) c ;; copy_down n (d - 1) (s - 1)
  end.
Fixpoint copy_up (n : nat) (d s : Z) : K M unit :=
  match n with
  | O => skip
  | S n => c ← load s; store d c ;; copy_up n (d + 1) (s + 1)
  end.
Definition memmove (dst src n : Z) : K M Z :=
  (if (src <? dst) && (dst <? src + n)
   then copy_down (Z.to_nat n) (dst + n) (src + n)
   else copy_up (Z.to_nat n) dst src) ;;
  mret dst.

Definition memcpy (dst src n : Z) : K M Z := memmove dst src n.

Fixpoint strncmp_loop (n : nat) (p q : Z) : K M Z :=
  match n with
  | O => mret 0
  | S n =>
      a ← load p;
      if a =? 0 then b ← load q; mret (a - b)
      else b ← load q; if a =? b then strncmp_loop n (p + 1) (q + 1) else mret (a - b)
  end.
Definition strncmp (p q n : Z) : K M Z := strncmp_loop (Z.to_nat n) p q.

(** The loops of [strncpy]: copy up to and including a NUL, then fill. *)
Fixpoint zero_fill (n : nat) (s : Z) : K M unit :=
  match n with
  | O => skip
  | S n => store s 0 ;; zero_fill n (s + 1)
  end.
Fixpoint strncpy_loop (n : nat) (s t : Z) : K M unit :=
  match n with
  | O => skip
  | S n =>
      c ← load t; store s c ;;
      if c =? 0 then zero_fill n (s + 1) else strncpy_loop n (s + 1) (t + 1)
  end.
Definition strncpy (s t n : Z) : K M Z := strncpy_loop (Z.to_nat n) s t ;; mret s.

(** [n] is what is left after the predecrement: when a NUL has been copied,
    [s] has moved past it and the final store zeroes the next byte. *)
Fixpoint safestrcpy_loop (n : nat) (s t : Z) : K M unit :=
  match n with
  | O => store s 0
  | S n =>
      c ← load t; store s c ;;
      if c =? 0 then store (s + 1) 0 else safestrcpy_loop n (s + 1) (t + 1)
  end.
Definition safestrcpy (s t n : Z) : K M Z :=
  if n <=? 0 then mret s
  else safestrcpy_loop (Z.to_nat (n - 1)) s t ;; mret s.

(** [strlen] has no bound of its own: with too little fuel it has not stopped. *)
Fixpoint strlen_loop (fuel : nat) (s n : Z) : K M Z :=
  match fuel with
  | O => fun _ => Spin
  | S fuel => c ← load (s + n); if c =? 0 then mret n else strlen_loop fuel s (n + 1)
  end.
Definition strlen (fuel : nat) (s : Z) : K M Z := strlen_loop fuel s 0.
End routines.
End CString.

Module CStringFacts.
Import CString.
Section facts.
Context {M : Type} `{Memory M}.

(** ** Copies *)

Lemma wp_copy_up n d s bs (Q : unit -> M -> Prop) m :
  length bs = n -> holds m s bs -> mapped m d (Z.of_nat n) ->
  (d <= s \/ s + Z.of_nat n <= d) ->
  (forall m', holds m' d bs -> same_outside m m' d (Z.of_nat n) -> Q tt m') ->
  wp (copy_up n d s) Q m.
Proof.
  revert d s bs Q m. induction n as [|n IH]; intros d s bs Q m Hl Hh Hm Hd HQ; simpl.
  - destruct bs; [|discriminate]. apply wp_skip, HQ; [|apply same_outside_refl].
    intros i x Hx. discriminate.
  - destruct bs as [|b bs]; [discriminate|]. injection Hl as Hl.
    apply wp_bind, (wp_load _ b).
    { replace s with (s + Z.of_nat 0) by lia. apply Hh. reflexivity. }
    apply wp_bind, wp_store.
    { replace d with (d + 0) by lia. apply Hm. lia. }
    intros m1 H1 H2. apply (IH _ _ bs).
    + exact Hl.
    + intros i x Hx. pose proof (lookup_lt_Some _ _ _ Hx).
      rewrite H2 by lia. rewrite <- (Hh (S i) x Hx). f_equal. lia.
    + intros i Hi. rewrite H2 by lia.
      replace (d + 1 + i) with (d + (1 + i)) by lia. apply Hm. lia.
    + lia.
    + intros m2 H3 H4. apply HQ.
      * intros [|i] x Hx; simpl in Hx.
        -- injection Hx as <-. rewrite H4 by lia. replace (d + Z.of_nat 0) with d by lia. exact H1.
        -- rewrite <- (H3 i x Hx). f_equal. lia.
      * intros a Ha. rewrite H4 by lia. apply H2. lia.
Qed.

Lemma wp_copy_down n d s bs (Q : unit -> M -> Prop) m :
  length bs = n -> holds m (s - Z.of_nat n) bs -> mapped m (d - Z.of_nat n) (Z.of_nat n) ->
  s <= d ->
  (forall m', holds m' (d - Z.of_nat n) bs ->
     same_outside m m' (d - Z.of_nat n) (Z.of_nat n) -> Q tt m') ->
  wp (copy_down n d s) Q m.
Proof.
  revert d s bs Q m. induction n as [|n IH]; intros d s bs Q m Hl Hh Hm Hd HQ; simpl.
  - destruct bs; [|discriminate]. apply wp_skip, HQ; [|apply same_outside_refl].
    intros i x Hx. discriminate.
  - destruct bs as [|b bs _] using rev_ind; [discriminate|].
    rewrite length_app in Hl. simpl in Hl.
    apply wp_bind, (wp_load _ b).
    { replace (s - 1) with (s - Z.of_nat (S n) + Z.of_nat (length bs)) by lia.
      apply Hh. rewrite lookup_app_r, Nat.sub_diag by lia. reflexivity. }
    apply wp_bind, wp_store.
    { replace (d - 1) with (d - Z.of_nat (S n) + Z.of_nat n) by lia. apply Hm. lia. }
    intros m1 H1 H2. apply (IH _ _ bs).
    + lia.
    + intros i x Hx. pose proof (lookup_lt_Some _ _ _ Hx). rewrite H2 by lia.
      replace (s - 1 - Z.of_nat n) with (s - Z.of_nat (S n)) by lia.
      apply Hh. rewrite lookup_app_l by lia. exact Hx.
    + intros i Hi. rewrite H2 by lia.
      replace (d - 1 - Z.of_nat n) with (d - Z.of_nat (S n)) by lia. apply Hm. lia.
    + lia.
    + intros m2 H3 H4. apply HQ.
      * intros i x Hx. replace (d - Z.of_nat (S n)) with (d - 1 - Z.of_nat n) by lia.
        destruct (decide (i < length bs)%nat).
        -- rewrite lookup_app_l in Hx by lia. apply H3, Hx.
        -- rewrite lookup_app_r in Hx by lia. destruct (i - length bs)%nat eqn:E; [|discriminate].
           injection Hx as <-. rewrite H4 by lia. rewrite <- H1. f_equal. lia.
      * intros a Ha. rewrite H4 by lia. apply H2. lia.
Qed.

Lemma wp_memmove dst src n bs (Q : Z -> M -> Prop) m :
  Z.of_nat (length bs) = n -> holds m src bs -> mapped m dst n ->
  (forall m', holds m' dst bs -> same_outside m m' dst n -> Q dst m') ->
  wp (memmove dst src n) Q m.
Proof.
  intros <- Hh Hm HQ. unfold memmove. rewrite Nat2Z.id. apply wp_bind.
  destruct ((src <? dst) && (dst <? src + Z.of_nat (length bs))) eqn:E.
  - apply (wp_copy_down _ _ _ bs); rewrite ?Z.add_simpl_r; auto; [lia|].
    intros m' H1 H2. apply wp_ret, HQ; assumption.
  - apply (wp_copy_up _ _ _ bs); auto; [lia|].
    intros m' H1 H2. apply wp_ret, HQ; assumption.
Qed.

(** ** Fills *)

Lemma wp_stosb dst c n (Q : unit -> M -> Prop) m :
  0 <= n -> mapped m dst n ->
  (forall m', holds m' dst (replicate (Z.to_nat n) (u8 c)) -> same_outside m m' dst n -> Q tt m') ->
  wp (stosb dst c n) Q m.
Proof.
  intros Hn Hm HQ.
  apply (wp_mono _ (fun _ m' => holds m' dst (replicate (Z.to_nat n) (u8 c)) /\
                               same_outside m m' dst n)); [|intros [] m' [H1 H2]; auto].
  unfold stosb.
  eapply wp_mono; [apply (wp_forM _ _ (fun k m' =>
    holds m' dst (replicate k (u8 c)) /\ same_outside m m' dst (Z.of_nat k)))|].
  - split; [intros i x Hx; discriminate|apply same_outside_refl].
  - intros i x m1 Hx [H1 H2]. apply lookup_seqZ in Hx as [-> Hi].
    apply wp_store.
    { rewrite H2 by lia. apply Hm. lia. }
    intros m2 H3 H4. split.
    + intros j y Hy. apply lookup_replicate in Hy as [-> Hj].
      destruct (decide (j = i)) as [->|Hne]; [exact H3|].
      rewrite H4 by lia. apply H1. apply lookup_replicate. split; [reflexivity|lia].
    + intros a Ha. rewrite H4 by lia. apply H2. lia.
  - intros [] m' [H1 H2]. rewrite length_seqZ in H1, H2. rewrite Z2Nat.id in H2 by exact Hn. auto.
Qed.

Lemma fill_word_bytes c : is_byte c ->
  le_bytes 4 (Z.lor (Z.lor (Z.lor (Z.shiftl c 24) (Z.shiftl c 16)) (Z.shiftl c 8)) c) = [c; c; c; c].
Proof.
  intros Hc.
  pose (P c := bool_decide (le_bytes 4
    (Z.lor (Z.lor (Z.lor (Z.shiftl c 24) (Z.shiftl c 16)) (Z.shiftl c 8)) c) = [c; c; c; c])).
  assert (HP : forallb P (seqZ 0 256) = true) by (vm_compute; reflexivity).
  exact (bool_decide_eq_true_1 _ (byte_forall P HP c Hc)).
Qed.

Lemma wp_stosl dst w c n (Q : unit -> M -> Prop) m :
  le_bytes 4 w = [c; c; c; c] -> 0 <= n -> mapped m dst (4 * n) ->
  (forall m', holds m' dst (replicate (Z.to_nat (4 * n)) c) -> same_outside m m' dst (4 * n) -> Q tt m') ->
  wp (stosl dst w n) Q m.
Proof.
  intros Hw Hn Hm HQ.
  apply (wp_mono _ (fun _ m' => holds m' dst (replicate (Z.to_nat (4 * n)) c) /\
                               same_outside m m' dst (4 * n))); [|intros [] m' [H1 H2]; auto].
  unfold stosl.
  eapply wp_mono; [apply (wp_forM _ _ (fun k m' =>
    holds m' dst (replicate (4 * k) c) /\ same_outside m m' dst (4 * Z.of_nat k)))|].
  - split; [intros i x Hx; discriminate|apply same_outside_refl].
  - intros i x m1 Hx [H1 H2]. apply lookup_seqZ in Hx as [-> Hi].
    unfold store32. rewrite Hw. apply wp_store_bytes.
    { intros j Hj. simpl in Hj. rewrite H2 by lia.
      replace (dst + 4 * (0 + Z.of_nat i) + j) with (dst + (4 * Z.of_nat i + j)) by lia.
      apply Hm. lia. }
    intros m2 H3 H4. simpl in H4. split.
    + intros j y Hy. apply lookup_replicate in Hy as [-> Hj].
      destruct (decide (j < 4 * i)%nat).
      * rewrite H4 by lia. apply H1. apply lookup_replicate. split; [reflexivity|lia].
      * replace (dst + Z.of_nat j) with (dst + 4 * (0 + Z.of_nat i) + Z.of_nat (j - 4 * i)) by lia.
        apply H3. change [c; c; c; c] with (replicate 4 c). apply lookup_replicate.
        split; [reflexivity|lia].
    + intros a Ha. rewrite H4 by lia. apply H2. lia.
  - intros [] m' [H1 H2]. rewrite length_seqZ in H1, H2. rewrite Z2Nat.id in H2 by exact Hn.
    replace (Z.to_nat (4 * n)) with (4 * Z.to_nat n)%nat by lia. auto.
Qed.

Lemma land_255 c : Z.land c 255 = u8 c.
Proof. change 255 with (Z.ones 8). rewrite Z.land_ones by lia. reflexivity. Qed.

Lemma wp_memset dst c n (Q : Z -> M -> Prop) m :
  0 <= n -> mapped m dst n ->
  (forall m', holds m' dst (replicate (Z.to_nat n) (u8 c)) -> same_outside m m' dst n -> Q dst m') ->
  wp (memset dst c n) Q m.
Proof.
  intros Hn Hm HQ. unfold memset. apply wp_bind.
  destruct ((Z.rem (s32 dst) 4 =? 0) && (n mod 4 =? 0)) eqn:E.
  - assert (H4 : 4 * (n / 4) = n) by (pose proof (Z.div_mod n 4); lia).
    rewrite land_255. apply (wp_stosl _ _ (u8 c)); rewrite ?H4.
    + apply fill_word_bytes, u8_byte.
    + apply Z.div_pos; lia.
    + exact Hm.
    + intros m' H1 H2. apply wp_ret, HQ; assumption.
  - apply wp_stosb; [exact Hn|exact Hm|].
    intros m' H1 H2. apply wp_ret, HQ; assumption.
Qed.

(** ** Strings *)

(** The characters before the first NUL. *)
Fixpoint cstr (l : list Z) : list Z :=
  match l with
  | [] => []
  | c :: l' => if c =? 0 then [] else c :: cstr l'
  end.

Lemma strncmp_spec n p q a b m :
  length a = n -> length b = n -> holds m p a -> holds m q b ->
  exists r, strncmp_loop n p q m = Ok (r, m) /\ (r = 0 <-> cstr a = cstr b).
Proof.
  revert p q a b. induction n as [|n IH]; intros p q a b Ha Hb Hp Hq.
  - destruct a, b; try discriminate. exists 0. split; [reflexivity|tauto].
  - destruct a as [|x a], b as [|y b]; try discriminate.
    injection Ha as Ha. injection Hb as Hb.
    assert (Hx : load8 m p = Some x)
      by (replace p with (p + Z.of_nat 0) by lia; apply Hp; reflexivity).
    assert (Hy : load8 m q = Some y)
      by (replace q with (q + Z.of_nat 0) by lia; apply Hq; reflexivity).
    cbn [strncmp_loop]. unfold mbind, K_bind, load, lift_opt. rewrite Hx.
    destruct (x =? 0) eqn:E0; rewrite Hy; [|destruct (x =? y) eqn:E1].
    + exists (x - y). split; [reflexivity|]. simpl. rewrite E0.
      destruct (y =? 0) eqn:E2; split; intros; try discriminate; try reflexivity; lia.
    + destruct (IH (p + 1) (q + 1) a b Ha Hb) as (r & Hr & Heq).
      * intros i z Hz. rewrite <- (Hp (S i) z Hz). f_equal. lia.
      * intros i z Hz. rewrite <- (Hq (S i) z Hz). f_equal. lia.
      * exists r. split; [exact Hr|]. rewrite Heq. simpl. apply Z.eqb_eq in E1 as ->.
        rewrite E0. split; [congruence|]. intros [= ?]. assumption.
    + exists (x - y). split; [reflexivity|]. simpl. rewrite E0.
      split; [lia|]. destruct (y =? 0); [discriminate|]. intros [= ? ?]. lia.
Qed.

Lemma wp_zero_fill n s (Q : unit -> M -> Prop) m :
  mapped m s (Z.of_nat n) ->
  (forall m', holds m' s (replicate n 0) -> same_outside m m' s (Z.of_nat n) -> Q tt m') ->
  wp (zero_fill n s) Q m.
Proof.
  intros Hm HQ. replace (zero_fill n s) with (store_bytes s (replicate n 0)).
  - apply wp_store_bytes; rewrite length_replicate; assumption.
  - clear. revert s. induction n as [|n IH]; intros s; simpl; [reflexivity|]. rewrite IH. reflexivity.
Qed.

Lemma wp_strncpy n s t src (Q : unit -> M -> Prop) m :
  ((n <= length src)%nat \/ 0 ∈ src) -> holds m t src -> mapped m s (Z.of_nat n) ->
  (s + Z.of_nat n <= t \/ t + Z.of_nat (length src) <= s) ->
  (forall m', holds m' s (take n (cstr src ++ replicate n 0)) ->
     same_outside m m' s (Z.of_nat n) -> Q tt m') ->
  wp (strncpy_loop n s t) Q m.
Proof.
  revert s t src Q m. induction n as [|n IH]; intros s t src Q m Hsrc Hh Hm Hd HQ.
  - apply wp_skip, HQ; [intros i x Hx; discriminate|apply same_outside_refl].
  - destruct src as [|c src].
    { exfalso. destruct Hsrc as [Hs|Hs]; [simpl in Hs; lia|inversion Hs]. }
    cbn [strncpy_loop]. apply wp_bind, (wp_load _ c).
    { replace t with (t + Z.of_nat 0) by lia. apply Hh. reflexivity. }
    apply wp_bind, wp_store.
    { replace s with (s + 0) by lia. apply Hm. lia. }
    intros m1 H1 H2. simpl in Hd.
    assert (Hm1 : mapped m1 (s + 1) (Z.of_nat n)).
    { intros i Hi. rewrite H2 by lia. replace (s + 1 + i) with (s + (1 + i)) by lia. apply Hm. lia. }
    assert (Hcont : forall rest m2, holds m2 (s + 1) rest ->
      same_outside m1 m2 (s + 1) (Z.of_nat n) -> take n (cstr src ++ replicate n 0) = rest \/ c = 0 ->
      (c = 0 -> rest = replicate n 0) -> Q tt m2).
    { intros rest m2 H3 H4 Hr Hr0. apply HQ.
      - replace (take (S n) (cstr (c :: src) ++ replicate (S n) 0)) with (c :: rest).
        + intros [|i] x Hx; simpl in Hx.
          * injection Hx as <-. rewrite H4 by lia. replace (s + Z.of_nat 0) with s by lia. exact H1.
          * rewrite <- (H3 i x Hx). f_equal. lia.
        + simpl. destruct (c =? 0) eqn:E.
          * apply Z.eqb_eq in E. subst c. simpl. rewrite Hr0 by reflexivity.
            rewrite take_ge by (rewrite length_replicate; lia). reflexivity.
          * destruct Hr as [<-|Hr]; [|lia]. simpl. f_equal.
            change (0 :: replicate n 0) with (replicate (S n) 0).
            rewrite replicate_S_end, app_assoc. symmetry. apply take_app_le.
            rewrite length_app, length_replicate. lia.
      - intros a Ha. rewrite H4 by lia. apply H2. lia. }
    destruct (c =? 0) eqn:E.
    + apply Z.eqb_eq in E. apply wp_zero_fill; [exact Hm1|]. intros m2 H3 H4.
      eapply Hcont; eauto.
    + apply (IH _ _ src); auto.
      * destruct Hsrc as [Hs|Hs]; [left; simpl in Hs; lia|right].
        apply elem_of_cons in Hs as [Hs|Hs]; [lia|exact Hs].
      * intros i x Hx. pose proof (lookup_lt_Some _ _ _ Hx). rewrite H2 by lia.
        rewrite <- (Hh (S i) x Hx). f_equal. lia.
      * lia.
      * intros m2 H3 H4. eapply Hcont; eauto. lia.
Qed.

Lemma wp_safestrcpy n s t src (Q : unit -> M -> Prop) m :
  ((n <= length src)%nat \/ 0 ∈ src) -> holds m t src -> mapped m s (Z.of_nat n + 1) ->
  (s + Z.of_nat n + 1 <= t \/ t + Z.of_nat (length src) <= s) ->
  (forall m', holds m' s (take n (cstr src) ++ [0]) ->
     same_outside m m' s (Z.of_nat n + 1) -> Q tt m') ->
  wp (safestrcpy_loop n s t) Q m.
Proof.
  revert s t src Q m. induction n as [|n IH]; intros s t src Q m Hsrc Hh Hm Hd HQ.
  - apply wp_store.
    { replace s with (s + 0) by lia. apply Hm. lia. }
    intros m' H1 H2. apply HQ.
    + intros [|i] x Hx; [|discriminate]. injection Hx as <-.
      replace (s + Z.of_nat 0) with s by lia. exact H1.
    + intros a Ha. apply H2. lia.
  - destruct src as [|c src].
    { exfalso. destruct Hsrc as [Hs|Hs]; [simpl in Hs; lia|inversion Hs]. }
    cbn [safestrcpy_loop]. apply wp_bind, (wp_load _ c).
    { replace t with (t + Z.of_nat 0) by lia. apply Hh. reflexivity. }
    apply wp_bind, wp_store.
    { replace s with (s + 0) by lia. apply Hm. lia. }
    intros m1 H1 H2. simpl in Hd. destruct (c =? 0) eqn:E.
    + apply wp_store.
      { rewrite H2 by lia. apply Hm. lia. }
      intros m2 H3 H4. apply HQ.
      * simpl. rewrite E. intros [|i] x Hx; [|discriminate]. injection Hx as <-.
        rewrite H4 by lia. replace (s + Z.of_nat 0) with s by lia.
        apply Z.eqb_eq in E as ->. exact H1.
      * intros a Ha. rewrite H4 by lia. apply H2. lia.
    + apply (IH _ _ src).
      * destruct Hsrc as [Hs|Hs]; [left; simpl in Hs; lia|right].
        apply elem_of_cons in Hs as [Hs|Hs]; [lia|exact Hs].
      * intros i x Hx. pose proof (lookup_lt_Some _ _ _ Hx). rewrite H2 by lia.
        rewrite <- (Hh (S i) x Hx). f_equal. lia.
      * intros i Hi. rewrite H2 by lia.
        replace (s + 1 + i) with (s + (1 + i)) by lia. apply Hm. lia.
      * lia.
      * intros m2 H3 H4. apply HQ.
        -- simpl. rewrite E. intros [|i] x Hx; simpl in Hx.
           ++ injection Hx as <-. rewrite H4 by lia. replace (s + Z.of_nat 0) with s by lia. exact H1.
           ++ rewrite <- (H3 i x Hx). f_equal. lia.
        -- intros a Ha. rewrite H4 by lia. apply H2. lia.
Qed.

Lemma strlen_loop_spec fuel s k cs m :
  Forall (fun c => c <> 0) cs -> holds m (s + k) (cs ++ [0]) -> (length cs < fuel)%nat ->
  strlen_loop fuel s k m = Ok (k + Z.of_nat (length cs), m).
Proof.
  revert k cs. induction fuel as [|fuel IH]; intros k cs Hc Hh Hf; [lia|].
  cbn [strlen_loop]. unfold mbind, K_bind, load, lift_opt.
  destruct cs as [|c cs]; simpl in Hh.
  - rewrite <- (Z.add_0_r (s + k)). change 0 with (Z.of_nat 0) at 1.
    rewrite (Hh 0%nat 0) by reflexivity. simpl. rewrite Z.add_0_r. reflexivity.
  - apply Forall_cons in Hc as [Hc0 Hc].
    rewrite <- (Z.add_0_r (s + k)). change 0 with (Z.of_nat 0) at 1.
    rewrite (Hh 0%nat c) by reflexivity. replace (c =? 0) with false by lia.
    rewrite (IH (k + 1) cs); auto.
    + f_equal. f_equal. simpl. lia.
    + intros i x Hx. rewrite <- (Hh (S i) x Hx). f_equal. lia.
    + simpl in Hf. lia.
Qed.
End facts.
End CStringFacts.

Module CStringProps.
Import CString CStringFacts Paged.

(** [memmove] copies the [n] bytes that were at the source, in either
    direction and for overlapping ranges, and changes nothing else. *)
Theorem memmove_copies {M : Type} `{Memory M} (m : M) (dst src : Z) (bs : list Z) :
  holds m src bs -> mapped m dst (Z.of_nat (length bs)) ->
  exists m', memmove dst src (Z.of_nat (length bs)) m = Ok (dst, m') /\
             holds m' dst bs /\ same_outside m m' dst (Z.of_nat (length bs)).
Proof.
  intros Hh Hm.
  destruct (wp_memmove dst src _ bs (fun r m' => r = dst /\ holds m' dst bs /\
    same_outside m m' dst (Z.of_nat (length bs))) m eq_refl Hh Hm) as (r & m' & E & -> & H1 & H2).
  - auto.
  - eauto.
Qed.

Lemma memmove_copies_witness :
  exists m', memmove 2 0 3 ({[0 := [1; 2; 3; 4; 5; 6]]} : gmap Z (list Z)) = Ok (2, m') /\
             holds m' 2 [1; 2; 3] /\ same_outside ({[0 := [1; 2; 3; 4; 5; 6]]}) m' 2 3.
Proof.
  apply (memmove_copies ({[0 := [1; 2; 3; 4; 5; 6]]} : gmap Z (list Z)) 2 0 [1; 2; 3]).
  - intros [|[|[|i]]] x Hx; inversion Hx; reflexivity.
  - intros i Hi. simpl in Hi.
    assert (i = 0 \/ i = 1 \/ i = 2) as [->|[->| ->]] by lia; eexists; reflexivity.
Defined.

(** [safestrcpy] copies at most [n-1] characters of the C string [src],
    always terminates the copy with a NUL, and writes only to the [n] bytes
    of the destination. *)
Theorem safestrcpy_terminates {M : Type} `{Memory M} (m : M) (s t n : Z) (src : list Z) :
  0 < n -> (n - 1 <= Z.of_nat (length src) \/ 0 ∈ src) ->
  holds m t src -> mapped m s n ->
  (s + n <= t \/ t + Z.of_nat (length src) <= s) ->
  exists m', safestrcpy s t n m = Ok (s, m') /\
             holds m' s (take (Z.to_nat (n - 1)) (cstr src) ++ [0]) /\ same_outside m m' s n.
Proof.
  intros Hn Hsrc Hh Hm Hd. unfold safestrcpy. replace (n <=? 0) with false by lia.
  assert (Hw : wp (safestrcpy_loop (Z.to_nat (n - 1)) s t ;; mret s) (fun r m' => r = s /\
    holds m' s (take (Z.to_nat (n - 1)) (cstr src) ++ [0]) /\ same_outside m m' s n) m).
  { apply wp_bind, (wp_safestrcpy _ _ _ src); auto.
    - destruct Hsrc; [left; lia|auto].
    - replace (Z.of_nat (Z.to_nat (n - 1)) + 1) with n by lia. exact Hm.
    - lia.
    - intros m' H1 H2. apply wp_ret. repeat split; auto.
      intros a Ha. apply H2. lia. }
  destruct Hw as (r & m' & E & -> & H1 & H2). eauto.
Qed.

Lemma safestrcpy_terminates_witness :
  exists m', safestrcpy 4 0 3 ({[0 := [104; 105; 33; 0; 9; 9; 9; 9]]} : gmap Z (list Z)) = Ok (4, m') /\
             holds m' 4 [104; 105; 0] /\
             same_outside ({[0 := [104; 105; 33; 0; 9; 9; 9; 9]]}) m' 4 3.
Proof.
  apply (safestrcpy_terminates ({[0 := [104; 105; 33; 0; 9; 9; 9; 9]]} : gmap Z (list Z))
           4 0 3 [104; 105; 33; 0]).
  - lia.
  - simpl. lia.
  - intros [|[|[|[|i]]]] x Hx; inversion Hx; reflexivity.
  - intros i Hi. assert (i = 0 \/ i = 1 \/ i = 2) as [->|[->| ->]] by lia; eexists; reflexivity.
  - simpl. lia.
Defined.
End CStringProps.
