(* ===== verification/Umalloc.v ===== *)
(** The memory allocator of user programs (umalloc.c): [malloc] and [free] with the circular list of
    free blocks in user memory.

    A header is two words, the pointer to the next free block and the size in headers, of 8 bytes
    each.  The memory is any implementation of the interface of Mem.v; [sbrk] is the system call, of
    which the class [Program] states what it does: it adds memory at the end.  [base] is the address
    of the static header. *)

From S2P Require Import Prelude Mem.

(** The end of the memory of a program, and moving it. *)
Class Program (M : Type) `{Memory M} := {
  sbrk : Z -> K M (option Z);
  law_sbrk : forall n m, 0 <= n < 2 ^ 31 -> wp (sbrk n) (fun r m' =>
    match r with
    | None => m' = m
    | Some p => 0 < p /\ p + n < 2 ^ 31 /\ (forall a, is_Some (load8 m a) -> a < p) /\ same_outside m m' p n /\ mapped m' p n
    end) m;
}.

Module Umalloc.

(** [sizeof(Header)] *)
Definition UNIT : Z := 8.

Section umalloc.
Context {M : Type} `{Program M} (base : Z).

Record state := State { mem : M; freep : Z }.
Definition on_mem {A} (f : K M A) : K state A := fun s =>
  '(a, m) ← f (mem s);
  Ok (a, State m (freep s)).
Definition set_freep (p : Z) : K state unit := modify (fun s => State (mem s) p).

(** [p->s.ptr] and [p->s.size] *)
Definition ptr (p : Z) : K state Z := on_mem (load32 p).
Definition size (p : Z) : K state Z := on_mem (load32 (p + 4)).
Definition set_ptr (p q : Z) : K state unit := on_mem (store32 p q).
Definition set_size (p n : Z) : K state unit := on_mem (store32 (p + 4) n).
(** [p + n] for a pointer to a header *)
Definition plus (p n : Z) : Z := u32 (p + UNIT * n).

(** The free block after which [bp] belongs. *)
Fixpoint free_loop (fuel : nat) (bp p : Z) : K state Z :=
  match fuel with
  | O => fun _ => Spin
  | S fuel =>
      q ← ptr p;
      if (p <? bp) && (bp <? q) then mret p
      else if (q <=? p) && ((p <? bp) || (bp <? q)) then mret p
      else free_loop fuel bp q
  end.

(** Link the block [p] to the free block [q] after it, as one block if they touch. *)
Definition join (p q : Z) : K state unit :=
  n ← size p;
  if plus p n =? q then
    nq ← size q;
    set_size p (u32 (n + nq)) ;;
    qq ← ptr q;
    set_ptr p qq
  else set_ptr p q.

Definition free (fuel : nat) (ap : Z) : K state unit :=
  let bp := u32 (ap - UNIT) in
  f ← gets freep;
  p ← free_loop fuel bp f;
  q ← ptr p;
  join bp q ;;
  join p bp ;;
  set_freep p.

(** The new [freep], or 0. *)
Definition morecore (fuel : nat) (nu : Z) : K state Z :=
  let nu := if nu <? 4096 then 4096 else nu in
  p ← on_mem (sbrk (s32 (nu * UNIT)));
  match p with
  | None => mret 0
  | Some hp =>
      set_size hp nu ;;
      free fuel (plus hp 1) ;;
      gets freep
  end.

Fixpoint malloc_loop (fuel : nat) (nunits prevp p : Z) : K state Z :=
  match fuel with
  | O => fun _ => Spin
  | S fuel =>
      n ← size p;
      if nunits <=? n then
        if n =? nunits then
          q ← ptr p;
          set_ptr prevp q ;;
          set_freep prevp ;;
          mret (plus p 1)
        else
          set_size p (u32 (n - nunits)) ;;
          n ← size p;
          let p := plus p n in
          set_size p nunits ;;
          set_freep prevp ;;
          mret (plus p 1)
      else
        f ← gets freep;
        if p =? f then
          p ← morecore fuel nunits;
          if p =? 0 then mret 0
          else q ← ptr p; malloc_loop fuel nunits p q
        else q ← ptr p; malloc_loop fuel nunits p q
  end.

Definition malloc (fuel : nat) (nbytes : Z) : K state Z :=
  let nunits := u32 (nbytes + UNIT - 1) / UNIT + 1 in
  f ← gets freep;
  (if f =? 0 then set_ptr base base ;; set_freep base ;; set_size base 0 else skip) ;;
  prevp ← gets freep;
  p ← ptr prevp;
  malloc_loop fuel nunits prevp p.
End umalloc.
End Umalloc.

Module UmallocFacts.
Import Umalloc.

Section facts.
Context {M : Type} `{Program M} (base : Z).

(** ** Headers *)

Definition word_at (m : M) (a w : Z) : Prop := holds m a (le_bytes 4 w).
Definition hdr (m : M) (a q n : Z) : Prop := word_at m a q /\ word_at m (a + 4) n.

(** The bytes from [a] to [b] are the same. *)
Definition keeps (m m' : M) (a b : Z) : Prop := forall x, a <= x < b -> load8 m' x = load8 m x.

Lemma word_keeps m m' a w : word_at m a w -> keeps m m' a (a + 4) -> word_at m' a w.
Proof. intros Hw Hk i x Hx. pose proof (lookup_lt_Some _ _ _ Hx) as Hl. rewrite length_le_bytes in Hl. rewrite Hk by lia. exact (Hw i x Hx). Qed.

Lemma hdr_keeps m m' a q n : hdr m a q n -> keeps m m' a (a + 8) -> hdr m' a q n.
Proof. intros [H1 H2] Hk. split; (eapply word_keeps; [eassumption|]); intros x Hx; apply Hk; lia. Qed.

Lemma keeps_outside m m' lo n a b : same_outside m m' lo n -> b <= lo \/ lo + n <= a -> keeps m m' a b.
Proof. intros Hs Hd x Hx. apply Hs. lia. Qed.

Lemma word_mapped m a w : word_at m a w -> mapped m a 4.
Proof. intros Hw. change 4 with (Z.of_nat (length (le_bytes 4 w))). apply holds_mapped, Hw. Qed.

Lemma wp_read_word a w (Q : Z -> @state M -> Prop) s : word_at (mem s) a w -> is_u32 w -> Q w s -> wp (on_mem (load32 a)) Q s.
Proof.
  intros Hw Hu HQ. destruct (wp_load32 a (le_bytes 4 w) (fun x m' => x = w /\ m' = mem s) (mem s)) as (x & m' & E & -> & ->); [reflexivity|exact Hw|split; [apply le_word_u32, Hu|reflexivity]|].
  exists w, s. unfold on_mem. rewrite E. destruct s. auto.
Qed.

Lemma wp_write_word a w (Q : unit -> @state M -> Prop) s : mapped (mem s) a 4 ->
  (forall m', word_at m' a w -> same_outside (mem s) m' a 4 -> Q tt (State m' (freep s))) -> wp (on_mem (store32 a w)) Q s.
Proof.
  intros Hm HQ. destruct (wp_store_bytes a (le_bytes 4 w) (fun _ m' => word_at m' a w /\ same_outside (mem s) m' a 4) (mem s)) as ([] & m' & E & H1 & H2).
  - rewrite length_le_bytes. exact Hm.
  - intros m' H1 H2. rewrite length_le_bytes in H2. auto.
  - exists tt, (State m' (freep s)). unfold on_mem, store32. rewrite E. auto.
Qed.

(** ** The ring of free blocks *)

Definition first (L : list (Z * Z)) (next : Z) : Z := match L with [] => next | (a, _) :: _ => a end.
Fixpoint links (m : M) (L : list (Z * Z)) (next : Z) : Prop :=
  match L with
  | [] => True
  | (a, n) :: L' => hdr m a (first L' next) n /\ links m L' next
  end.

Lemma first_app L1 L2 next : first (L1 ++ L2) next = first L1 (first L2 next).
Proof. destruct L1 as [|[a n] L1]; reflexivity. Qed.

Lemma links_app m L1 L2 next : links m (L1 ++ L2) next <-> links m L1 (first L2 next) /\ links m L2 next.
Proof.
  induction L1 as [|[a n] L1 IH]; cbn [links app]; [tauto|]. rewrite first_app, IH. tauto.
Qed.

Lemma links_keeps m m' L next : links m L next -> (forall a n, (a, n) ∈ L -> keeps m m' a (a + 8)) -> links m' L next.
Proof.
  induction L as [|[a n] L IH]; cbn [links]; [auto|]. intros [Hh Hl] Hk. split; [eapply hdr_keeps; [exact Hh|apply (Hk a n); left]|].
  apply IH; [exact Hl|]. intros b k Hb. apply (Hk b k). right. exact Hb.
Qed.

(** Blocks in increasing order with something between them, below [hi]; the
    first may be the static header, which has no units. *)
Fixpoint sorted (L : list (Z * Z)) (hi : Z) : Prop :=
  match L with
  | [] => True
  | (a, n) :: L' => 0 <= n /\ a + UNIT * n <= hi /\ a + UNIT <= hi /\ (forall b k, (b, k) ∈ L' -> a + UNIT * n < b /\ a + UNIT <= b) /\ sorted L' hi
  end.

Lemma sorted_app L1 L2 hi : sorted (L1 ++ L2) hi <-> sorted L1 hi /\ sorted L2 hi /\ forall a n b k, (a, n) ∈ L1 -> (b, k) ∈ L2 -> a + UNIT * n < b /\ a + UNIT <= b.
Proof.
  induction L1 as [|[a n] L1 IH]; cbn [sorted app].
  - split; [intros Hs; split; [exact I|]; split; [exact Hs|]; intros a n b k Ha; inversion Ha|tauto].
  - rewrite IH. split.
    + intros (H1 & H2 & H2' & H3 & H4 & H5 & H6). split; [|split; [exact H5|]].
      * repeat (split; [assumption|]). split; [|exact H4]. intros b k Hb. apply (H3 b k), elem_of_app. auto.
      * intros b k c j Hb Hc. apply elem_of_cons in Hb as [[= -> ->]|Hb]; [apply (H3 c j), elem_of_app; auto|exact (H6 b k c j Hb Hc)].
    + intros [(H1 & H2 & H2' & H3 & H4) (H5 & H6)]. repeat (split; [assumption|]). split; [|split; [exact H4|split; [exact H5|]]].
      * intros b k Hb. apply elem_of_app in Hb as [Hb|Hb]; [exact (H3 b k Hb)|apply (H6 a n b k); [left|exact Hb]].
      * intros b k c j Hb Hc. apply (H6 b k c j); [right; exact Hb|exact Hc].
Qed.

Lemma sorted_in L hi a n : sorted L hi -> (a, n) ∈ L -> 0 <= n /\ a + UNIT * n <= hi /\ a + UNIT <= hi.
Proof.
  induction L as [|[b k] L IH]; cbn [sorted]; intros Hs Ha; [inversion Ha|]. apply elem_of_cons in Ha as [[= -> ->]|Ha]; [tauto|apply IH; [tauto|exact Ha]].
Qed.

(** ** Walking along the ring *)

Lemma read_word s a w : word_at (mem s) a w -> is_u32 w -> on_mem (load32 a) s = Ok (w, s).
Proof. intros Hw Hu. destruct (wp_read_word a w (fun x s' => x = w /\ s' = s) s Hw Hu (conj eq_refl eq_refl)) as (x & s' & E & -> & ->). exact E. Qed.

Lemma bind_word {A} s a w (k : Z -> K (@state M) A) : word_at (mem s) a w -> is_u32 w -> (x ← on_mem (load32 a); k x) s = k w s.
Proof. intros Hw Hu. unfold mbind, K_bind. rewrite (read_word s a w Hw Hu). reflexivity. Qed.

Fixpoint incr (L : list (Z * Z)) : Prop := match L with [] => True | (a, _) :: L' => (forall b k, (b, k) ∈ L' -> a < b) /\ incr L' end.

Definition small (L : list (Z * Z)) : Prop := forall a n, (a, n) ∈ L -> 0 <= a <= 2 ^ 31 /\ 0 <= n <= 2 ^ 28.

Lemma first_small L next : small L -> 0 <= next <= 2 ^ 31 -> is_u32 (first L next).
Proof. intros Hs Hn. destruct L as [|[a n] L]; cbn [first]; unfold is_u32; [lia|]. destruct (Hs a n); [left|lia]. Qed.

Lemma sorted_small L : sorted L (2 ^ 31) -> (forall a n, (a, n) ∈ L -> 0 <= a) -> small L.
Proof. intros Hs Hp a n Ha. pose proof (sorted_in L _ a n Hs Ha). specialize (Hp a n Ha). unfold UNIT in *. lia. Qed.

Lemma sorted_incr L hi : sorted L hi -> incr L.
Proof.
  induction L as [|[a n] L IH]; cbn [sorted incr]; [auto|]. intros (H1 & H2 & H3 & H4 & H5). split; [|apply IH, H5]. intros b k Hb. specialize (H4 b k Hb). unfold UNIT in *. lia.
Qed.

Lemma free_walk s bp next seg : links (mem s) seg next -> incr seg -> small seg -> 0 <= next <= 2 ^ 31 ->
  ((forall a n, (a, n) ∈ seg -> a < bp /\ a < next) /\ next < bp) \/ ((forall a n, (a, n) ∈ seg -> bp < a) /\ ((forall a n, (a, n) ∈ seg -> a < next) \/ next < bp)) ->
  forall fuel, free_loop (length seg + fuel) bp (first seg next) s = free_loop fuel bp next s.
Proof.
  intros Hl Hi Hs Hn Hc fuel. induction seg as [|[a n] seg IH]; [reflexivity|]. cbn [length Nat.add first free_loop]. destruct Hl as [[Hp _] Hl]. destruct Hi as [Ha Hi].
  assert (Hs' : small seg) by (intros b k Hb; apply (Hs b k); right; exact Hb). unfold ptr. rewrite (bind_word s a _ _ Hp (first_small _ _ Hs' Hn)).
  assert (Hstop : (a <? bp) && (bp <? first seg next) = false /\ (first seg next <=? a) && ((a <? bp) || (bp <? first seg next)) = false).
  { destruct Hc as [[Hc Hnb]|[Hc Hnb]].
    - destruct (Hc a n ltac:(left)) as [Hab Han]. destruct seg as [|[b k] seg]; cbn [first]; [|destruct (Hc b k ltac:(right; left)); pose proof (Ha b k ltac:(left))]; lia.
    - pose proof (Hc a n ltac:(left)). destruct seg as [|[b k] seg]; cbn [first]; [destruct Hnb as [Hnb|Hnb]; [pose proof (Hnb a n ltac:(left))|]|pose proof (Hc b k ltac:(right; left)); pose proof (Ha b k ltac:(left))]; lia. }
  destruct Hstop as [-> ->]. apply IH; try assumption.
  destruct Hc as [[Hc Hnb]|[Hc Hnb]]; [left|right].
  - split; [|exact Hnb]. intros b k Hb. apply (Hc b k). right. exact Hb.
  - split; [intros b k Hb; apply (Hc b k); right; exact Hb|]. destruct Hnb as [Hnb|Hnb]; [left; intros b k Hb; apply (Hnb b k); right; exact Hb|right; exact Hnb].
Qed.

(** The place where [free] stops. *)
Lemma free_stops s bp k nk B fuel : links (mem s) ((k, nk) :: B) base -> small ((k, nk) :: B) -> 0 <= base <= k -> base < bp -> k < bp -> (forall a n, (a, n) ∈ B -> bp < a) ->
  free_loop (S fuel) bp k s = Ok (k, s).
Proof.
  intros [[Hp _] _] Hs Hbk Hbb Hk HB. cbn [free_loop]. assert (Hs' : small B) by (intros a n Ha; apply (Hs a n); right; exact Ha). destruct (Hs k nk ltac:(left)) as [Hk31 _].
  assert (Hb31 : 0 <= base <= 2 ^ 31) by lia. unfold ptr. rewrite (bind_word s k _ _ Hp (first_small _ _ Hs' Hb31)). destruct B as [|[b j] B]; cbn [first].
  - rewrite (proj2 (Z.ltb_lt k bp) Hk), (proj2 (Z.ltb_ge bp base)), (proj2 (Z.leb_le base k)) by lia. reflexivity.
  - pose proof (HB b j ltac:(left)). rewrite (proj2 (Z.ltb_lt k bp) Hk), (proj2 (Z.ltb_lt bp b)) by lia. reflexivity.
Qed.

Lemma incr_app L1 L2 : incr (L1 ++ L2) <-> incr L1 /\ incr L2 /\ forall a n b k, (a, n) ∈ L1 -> (b, k) ∈ L2 -> a < b.
Proof.
  induction L1 as [|[a n] L1 IH]; cbn [incr app].
  - split; [intros Hs; split; [exact I|]; split; [exact Hs|]; intros a n b k Ha; inversion Ha|tauto].
  - rewrite IH. split.
    + intros (H3 & H4 & H5 & H6). split; [split; [|exact H4]|split; [exact H5|]].
      * intros b k Hb. apply (H3 b k), elem_of_app. auto.
      * intros b k c j Hb Hc. apply elem_of_cons in Hb as [[= -> ->]|Hb]; [apply (H3 c j), elem_of_app; auto|exact (H6 b k c j Hb Hc)].
    + intros [(H3 & H4) (H5 & H6)]. split; [|split; [exact H4|split; [exact H5|]]].
      * intros b k Hb. apply elem_of_app in Hb as [Hb|Hb]; [exact (H3 b k Hb)|apply (H6 a n b k); [left|exact Hb]].
      * intros b k c j Hb Hc. apply (H6 b k c j); [right; exact Hb|exact Hc].
Qed.

(** From any free block the walk of [free] finds the one before [bp]. *)
Lemma free_finds s bp A k nk B p np fuel : let L := A ++ (k, nk) :: B in links (mem s) L base -> incr L -> small L -> first L base = base ->
  base < bp -> (forall a n, (a, n) ∈ A ++ [(k, nk)] -> a < bp) -> (forall a n, (a, n) ∈ B -> bp < a) -> (p, np) ∈ L -> (length L + length L <= fuel)%nat ->
  free_loop fuel bp p s = Ok (k, s).
Proof.
  intros L Hl Hi Hs Hf Hb HA HB Hp Hfuel. unfold L in *. assert (Hbase : 0 <= base) by (destruct A as [|[a n] A]; cbn in Hf; subst base; [destruct (Hs k nk ltac:(left))|destruct (Hs a n ltac:(left))]; lia).
  apply links_app in Hl as [HlA HlB]. apply incr_app in Hi as (HiA & HiB & HiAB). rewrite first_app in Hf. change (first ((k, nk) :: B) base) with k in Hf.
  assert (HsA : small A) by (intros a n Ha; apply (Hs a n), elem_of_app; auto). assert (HsB : small ((k, nk) :: B)) by (intros a n Ha; apply (Hs a n), elem_of_app; auto).
  destruct (HsB k nk ltac:(left)) as [Hks _]. assert (Hkb : k < bp) by (apply (HA k nk), elem_of_app; right; left).
  assert (Hbk : base <= k) by (destruct A as [|[a n] A]; cbn [first] in Hf; [lia|subst a; pose proof (HiAB base n k nk ltac:(left) ltac:(left)); lia]).
  (* from the nodes before the place *)
  assert (Hfrom : forall seg pre f, A = pre ++ seg -> free_loop (length seg + S f) bp (first seg k) s = Ok (k, s)).
  { intros seg pre f ->. rewrite (free_walk s bp k seg).
    - apply (free_stops s bp k nk B f HlB HsB); try assumption; lia.
    - apply links_app in HlA. apply HlA.
    - apply incr_app in HiA. apply HiA.
    - intros a n Ha. apply (HsA a n), elem_of_app. auto.
    - lia.
    - left. split; [|lia]. intros a n Ha. split; [apply (HA a n); rewrite !elem_of_app; auto|apply (HiAB a n k nk); [apply elem_of_app; auto|left]]. }
  rewrite length_app in Hfuel. cbn [length] in Hfuel. apply elem_of_app in Hp as [Hp|Hp]; [|apply elem_of_cons in Hp as [[= -> ->]|Hp]].
  - apply list_elem_of_split in Hp as (A1 & A2 & EA). specialize (Hfrom ((p, np) :: A2) A1 (fuel - length ((p, np) :: A2) - 1)%nat EA). cbn [first] in Hfrom. rewrite <- Hfrom. f_equal.
    rewrite EA in Hfuel. rewrite length_app in Hfuel. cbn [length] in *. lia.
  - specialize (Hfrom [] A (fuel - 1)%nat ltac:(rewrite app_nil_r; reflexivity)). cbn [first length Nat.add] in Hfrom. rewrite <- Hfrom. f_equal. lia.
  - apply list_elem_of_split in Hp as (B1 & B2 & EB). pose proof HlB as HlB'. destruct HlB' as [_ HlB']. rewrite EB in HlB'. apply links_app in HlB' as [_ HlB2].
    destruct HiB as [_ HiB]. rewrite EB in HiB. apply incr_app in HiB as (_ & HiB2 & _).
    assert (Hin : forall a n, (a, n) ∈ (p, np) :: B2 -> (a, n) ∈ B) by (intros a n Ha; rewrite EB; apply elem_of_app; auto).
    pose proof (free_walk s bp base ((p, np) :: B2) HlB2 HiB2) as Hw. cbn [first] in Hw.
    specialize (Hfrom A [] (fuel - length ((p, np) :: B2) - length A - 1)%nat eq_refl). rewrite Hf in Hfrom. rewrite <- Hfrom, <- Hw.
    + f_equal. rewrite EB in Hfuel. rewrite length_app in Hfuel. cbn [length] in *. lia.
    + intros a n Ha. apply (HsB a n). right. apply Hin, Ha.
    + lia.
    + right. split; [intros a n Ha; apply (HB a n), Hin, Ha|right; lia].
Qed.

(** ** Joining blocks *)

(** The addresses of the blocks of a list. *)
Definition covers (L : list (Z * Z)) (x : Z) : Prop := exists a n, (a, n) ∈ L /\ a <= x < a + UNIT * n.

Lemma covers_cons a n L x : covers ((a, n) :: L) x <-> a <= x < a + UNIT * n \/ covers L x.
Proof.
  unfold covers. split.
  - intros (b & k & Hb & Hx). apply elem_of_cons in Hb as [[= -> ->]|Hb]; [auto|right; exists b, k; auto].
  - intros [Hx|(b & k & Hb & Hx)]; [exists a, n; split; [left|exact Hx]|exists b, k; split; [right; exact Hb|exact Hx]].
Qed.

Lemma covers_app L1 L2 x : covers (L1 ++ L2) x <-> covers L1 x \/ covers L2 x.
Proof.
  unfold covers. setoid_rewrite elem_of_app. split.
  - intros (a & n & [Ha|Ha] & Hx); [left|right]; eauto.
  - intros [(a & n & Ha & Hx)|(a & n & Ha & Hx)]; eauto 6.
Qed.

Lemma mapped_put m m' b w a n : mapped m a n -> word_at m' b w -> same_outside m m' b 4 -> mapped m' a n.
Proof.
  intros Hm Hw Hs i Hi. destruct (decide (b <= a + i < b + 4)) as [Hb|Hb]; [|rewrite Hs by lia; apply Hm, Hi].
  replace (a + i) with (b + (a + i - b)) by lia. apply (word_mapped m' b w Hw). lia.
Qed.

Lemma mapped_part (m : M) a n b k : mapped m a n -> a <= b -> b + k <= a + n -> mapped m b k.
Proof. intros Hm H1 H2 i Hi. replace (b + i) with (a + (b + i - a)) by lia. apply Hm. lia. Qed.

Definition joined (p n : Z) (B : list (Z * Z)) : list (Z * Z) :=
  match B with
  | [] => [(p, n)]
  | (b, k) :: B' => if p + UNIT * n =? b then (p, n + k) :: B' else (p, n) :: B
  end.

Section join.
Context (p n : Z) (B : list (Z * Z)).
Hypothesis Hn : 0 <= n.
Hypothesis Hend : p + UNIT * n <= 2 ^ 31 /\ p + UNIT <= 2 ^ 31.
Hypothesis Hnext : forall b k, (b, k) ∈ B -> p + UNIT * n <= b /\ p + UNIT <= b.
Hypothesis Hsorted : sorted B (2 ^ 31).

Lemma joined_sorted : sorted (joined p n B) (2 ^ 31).
Proof.
  destruct B as [|[b k] B']; cbn [joined]; [cbn [sorted]; repeat split; try lia; exfalso; eapply not_elem_of_nil; eassumption|].
  destruct Hsorted as (H1 & H2 & H3 & H4 & H5). destruct (Hnext b k ltac:(left)). destruct (Z.eqb_spec (p + UNIT * n) b) as [E|E]; cbn [sorted]; unfold UNIT in *.
  - repeat (split; [lia|]). split; [|exact H5]. intros c j Hc. specialize (H4 c j Hc). lia.
  - repeat (split; [lia|]). split; [|auto]. intros c j Hc. apply elem_of_cons in Hc as [[= -> ->]|Hc]; [lia|]. specialize (H4 c j Hc). lia.
Qed.

Lemma joined_covers x : covers (joined p n B) x <-> p <= x < p + UNIT * n \/ covers B x.
Proof.
  clear Hend Hnext. destruct B as [|[b k] B']; cbn [joined]; [apply covers_cons|]. destruct Hsorted as (H1 & _). destruct (Z.eqb_spec (p + UNIT * n) b) as [E|E]; rewrite !covers_cons; [|tauto].
  assert (p <= x < p + UNIT * (n + k) <-> p <= x < p + UNIT * n \/ b <= x < b + UNIT * k) by (unfold UNIT in *; lia). tauto.
Qed.

Lemma joined_in a k : (a, k) ∈ joined p n B -> (a = p /\ n <= k) \/ (a, k) ∈ B.
Proof.
  clear Hn Hend Hnext. destruct B as [|[b j] B']; cbn [joined]; [intros [= -> ->]%list_elem_of_singleton; left; lia|]. destruct Hsorted as (H1 & _).
  destruct (p + UNIT * n =? b); intros [[= -> ->]|Ha]%elem_of_cons; [left; lia|right; right; exact Ha|left; lia|right; exact Ha].
Qed.

Lemma joined_first : exists k B', joined p n B = (p, k) :: B' /\ n <= k.
Proof. clear Hn Hend Hnext. destruct B as [|[b j] B']; cbn [joined]; [exists n, []; split; [reflexivity|lia]|]. destruct Hsorted as (H1 & _). destruct (p + UNIT * n =? b); eexists _, _; (split; [reflexivity|lia]). Qed.

Lemma joined_length : (length (joined p n B) <= S (length B))%nat.
Proof. clear Hn Hend Hnext Hsorted. destruct B as [|[b j] B']; cbn [joined]; [cbn; lia|]. destruct (p + UNIT * n =? b); cbn [length]; lia. Qed.

Lemma wp_join (Q : unit -> @state M -> Prop) s : links (mem s) B base -> word_at (mem s) (p + 4) n -> mapped (mem s) p 8 -> 0 < base <= p -> B <> [] \/ base < p ->
  (forall m', links m' (joined p n B) base -> same_outside (mem s) m' p 8 -> (forall a k, mapped (mem s) a k -> mapped m' a k) -> Q tt (State m' (freep s))) ->
  wp (join p (first B base)) Q s.
Proof.
  intros Hl Hw Hm Hb Hne HQ. unfold join, size, set_size, ptr, set_ptr, plus, UNIT in *. assert (Hp31 : 0 <= p + 8 * n <= 2 ^ 31) by lia.
  apply wp_bind, (wp_read_word _ n); [exact Hw|unfold is_u32; lia|]. rewrite (u32_id (p + 8 * n)) by (unfold is_u32; lia).
  assert (Hplain : (p + 8 * n =? first B base) = false -> wp (on_mem (store32 p (first B base))) Q s).
  { intros E. apply wp_write_word; [apply (mapped_part _ p 8 _ _ Hm); lia|]. intros m' Hw' Hs'. apply HQ.
    - replace (joined p n B) with ((p, n) :: B) by (destruct B as [|[b k] B']; [reflexivity|cbn [joined first] in *; unfold UNIT; rewrite E; reflexivity]). split; [split; [exact Hw'|]|].
      + apply (word_keeps (mem s)); [exact Hw|]. apply (keeps_outside _ _ p 4); [exact Hs'|lia].
      + apply (links_keeps (mem s)); [exact Hl|]. intros b k Hk. destruct (Hnext b k Hk). apply (keeps_outside _ _ p 4); [exact Hs'|lia].
    - apply (same_outside_weaken _ _ _ _ p 8) in Hs'; [exact Hs'|lia..].
    - intros a k Ha. eapply mapped_put; eassumption. }
  destruct (p + 8 * n =? first B base) eqn:E; [clear Hplain|exact (Hplain eq_refl)]. apply Z.eqb_eq in E.
  destruct B as [|[b k] B']; cbn [first joined] in *; [destruct Hne; [congruence|lia]|]. destruct Hl as [[Hq Hk] Hl]. destruct Hsorted as (H1 & H2 & H3 & H4 & H5). destruct (Hnext b k ltac:(left)). unfold UNIT in *.
  apply wp_bind, (wp_read_word _ k); [exact Hk|unfold is_u32; lia|]. rewrite (u32_id (n + k)) by (unfold is_u32; lia).
  apply wp_bind, wp_write_word; [apply (mapped_part _ p 8 _ _ Hm); lia|]. intros m1 Hw1 Hs1.
  assert (Hsmall : small B') by (apply sorted_small; [exact H5|]; intros a j Ha; specialize (H4 a j Ha); lia).
  apply wp_bind, (wp_read_word _ (first B' base)); [|apply first_small; [exact Hsmall|lia]|].
  { apply (word_keeps (mem s)); [exact Hq|]. apply (keeps_outside _ _ (p + 4) 4); [exact Hs1|lia]. }
  cbn [mem freep] in *. apply wp_write_word; [eapply mapped_put; [|exact Hw1|exact Hs1]; apply (mapped_part _ p 8 _ _ Hm); lia|]. intros m2 Hw2 Hs2. cbn [mem freep] in *. rewrite (proj2 (Z.eqb_eq _ _) E) in HQ.
  assert (Hs : same_outside (mem s) m2 p 8) by (intros x Hx; rewrite Hs2, Hs1 by lia; reflexivity). apply HQ.
  - split; [split; [exact Hw2|]|].
    + apply (word_keeps m1); [exact Hw1|]. apply (keeps_outside _ _ p 4); [exact Hs2|lia].
    + apply (links_keeps (mem s)); [exact Hl|]. intros c j Hc. specialize (H4 c j Hc). apply (keeps_outside _ _ p 8); [exact Hs|lia].
  - exact Hs.
  - intros c j Hc. eapply mapped_put; [eapply mapped_put; [exact Hc|exact Hw1|exact Hs1]|exact Hw2|exact Hs2].
Qed.
End join.

(** ** The free list *)

(** The static header and the free blocks [fr] form a ring, in order and never touching. *)
Record ring (fr : list (Z * Z)) (s : @state M) : Prop := {
  rg_links : links (mem s) ((base, 0) :: fr) base;
  rg_sorted : sorted ((base, 0) :: fr) (2 ^ 31);
  rg_base : 0 < base;
  rg_blocks : forall a n, (a, n) ∈ fr -> 0 < n /\ mapped (mem s) a (UNIT * n);
  rg_freep : exists n, (freep s, n) ∈ (base, 0) :: fr;
}.

Lemma ring_above fr s a n : ring fr s -> (a, n) ∈ fr -> base + UNIT <= a.
Proof. intros Hr Ha. destruct (rg_sorted _ _ Hr) as (_ & _ & _ & Hs & _). apply (Hs a n Ha). Qed.

Lemma ring_small fr s : ring fr s -> small ((base, 0) :: fr).
Proof.
  intros Hr. apply sorted_small; [apply (rg_sorted _ _ Hr)|]. intros a n [[= -> ->]|Ha]%elem_of_cons; pose proof (rg_base _ _ Hr); [lia|]. pose proof (ring_above _ _ _ _ Hr Ha). unfold UNIT in *. lia.
Qed.

Lemma incr_split bp L : incr L -> (forall a n, (a, n) ∈ L -> a <> bp) -> exists A B, L = A ++ B /\ (forall a n, (a, n) ∈ A -> a < bp) /\ (forall a n, (a, n) ∈ B -> bp < a).
Proof.
  induction L as [|[a n] L IH]; intros Hi Hd; [exists [], []; split; [reflexivity|]; split; intros a n Ha; inversion Ha|]. destruct Hi as [Ha Hi].
  destruct (decide (a < bp)) as [Hlt|Hge].
  - destruct IH as (A & B & -> & HA & HB); [exact Hi|intros b k Hb; apply (Hd b k); right; exact Hb|]. exists ((a, n) :: A), B. split; [reflexivity|]. split; [|exact HB].
    intros b k [[= -> ->]|Hb]%elem_of_cons; [exact Hlt|exact (HA b k Hb)].
  - exists [], ((a, n) :: L). split; [reflexivity|]. pose proof (Hd a n ltac:(left)). split; [intros b k Hb; inversion Hb|]. intros b k [[= -> ->]|Hb]%elem_of_cons; [lia|specialize (Ha b k Hb); lia].
Qed.

(** A block of [n] units at [bp] which does not meet the free blocks. *)
Definition clear_of (fr : list (Z * Z)) (bp n : Z) : Prop := forall x, bp <= x < bp + UNIT * n -> ~ covers fr x.

(** Its place in the ring. *)
Lemma ring_place fr s bp n : ring fr s -> 0 < n -> base + UNIT <= bp -> clear_of fr bp n -> exists A k nk B, (base, 0) :: fr = A ++ (k, nk) :: B /\
  (forall a j, (a, j) ∈ A ++ [(k, nk)] -> a + UNIT * j <= bp /\ a + UNIT <= bp) /\ (forall b j, (b, j) ∈ B -> bp + UNIT * n <= b /\ bp + UNIT <= b).
Proof.
  intros Hr Hn Hb Ho. destruct (incr_split bp ((base, 0) :: fr)) as (A & B & E & HA & HB).
  - eapply sorted_incr, rg_sorted, Hr.
  - intros a k [[= -> ->]|Ha]%elem_of_cons; [unfold UNIT in *; lia|]. intros ->. apply (Ho bp); [unfold UNIT; lia|]. exists bp, k. destruct (rg_blocks _ _ Hr bp k Ha). split; [exact Ha|unfold UNIT; lia].
  - assert (Hin : forall a j, (a, j) ∈ A ++ B -> (a = base /\ j = 0) \/ ((a, j) ∈ fr /\ 0 < j)).
    { intros a j Ha. rewrite <- E in Ha. apply elem_of_cons in Ha as [[= -> ->]|Ha]; [auto|]. right. split; [exact Ha|]. apply (rg_blocks _ _ Hr a j Ha). }
    assert (HA' : forall a j, (a, j) ∈ A -> a + UNIT * j <= bp /\ a + UNIT <= bp).
    { intros a j Ha. pose proof (HA a j Ha). destruct (Hin a j) as [[-> ->]|[Hf Hj]]; [apply elem_of_app; auto|unfold UNIT in *; lia|]. assert (a + UNIT * j <= bp); [|unfold UNIT in *; lia].
      destruct (decide (a + UNIT * j <= bp)) as [Hle|Hgt]; [exact Hle|]. exfalso. apply (Ho bp); [unfold UNIT; lia|]. exists a, j. split; [exact Hf|lia]. }
    assert (HB' : forall b j, (b, j) ∈ B -> bp + UNIT * n <= b /\ bp + UNIT <= b).
    { intros b j Hb'. pose proof (HB b j Hb'). destruct (Hin b j) as [[-> ->]|[Hf Hj]]; [apply elem_of_app; auto|unfold UNIT in *; lia|]. assert (bp + UNIT * n <= b); [|unfold UNIT in *; lia].
      destruct (decide (bp + UNIT * n <= b)) as [Hle|Hgt]; [exact Hle|]. exfalso. apply (Ho b); [lia|]. exists b, j. split; [exact Hf|unfold UNIT in *; lia]. }
    destruct A as [|e A _] using rev_ind.
    + exfalso. destruct B as [|[b j] B]; [discriminate|]. injection E as <- <- <-. specialize (HB' base 0 ltac:(left)). unfold UNIT in *. lia.
    + destruct e as [k nk]. exists A, k, nk, B. split; [rewrite E, <- app_assoc; reflexivity|]. auto.
Qed.

Lemma hdr_mapped m a q n : hdr m a q n -> mapped m a 8.
Proof.
  intros [H1 H2] i Hi. destruct (decide (i < 4)); [apply (word_mapped _ _ _ H1); lia|]. replace (a + i) with (a + 4 + (i - 4)) by lia. apply (word_mapped _ _ _ H2). lia.
Qed.

(** The list of blocks with a new one, in the place found for it. *)
Section insert.
Context (fr : list (Z * Z)) (s : @state M) (bp n : Z) (A : list (Z * Z)) (k nk : Z) (B : list (Z * Z)).
Hypothesis Hr : ring fr s.
Hypothesis Hn : 0 < n.
Hypothesis Hb : base + UNIT <= bp.
Hypothesis He : bp + UNIT * n <= 2 ^ 31.
Hypothesis E : (base, 0) :: fr = A ++ (k, nk) :: B.
Hypothesis HA : forall a j, (a, j) ∈ A ++ [(k, nk)] -> a + UNIT * j <= bp /\ a + UNIT <= bp.
Hypothesis HB : forall b j, (b, j) ∈ B -> bp + UNIT * n <= b /\ bp + UNIT <= b.

Let C := joined bp n B.
Let D := joined k nk C.

Lemma insert_sorts : sorted A (2 ^ 31) /\ sorted ((k, nk) :: B) (2 ^ 31) /\ forall a j b i, (a, j) ∈ A -> (b, i) ∈ (k, nk) :: B -> a + UNIT * j < b /\ a + UNIT <= b.
Proof using All. apply sorted_app. rewrite <- E. apply (rg_sorted _ _ Hr). Qed.

Lemma insert_k : k + UNIT * nk <= bp /\ k + UNIT <= bp /\ 0 <= nk /\ base <= k.
Proof using All.
  destruct (HA k nk) as [H1 H2]; [apply elem_of_app; right; left|]. destruct insert_sorts as (_ & (H3 & _) & H4). repeat split; try assumption.
  destruct A as [|[a j] A']; [injection E as <- _ _; lia|]. injection E as <- _ _. specialize (H4 base j k nk ltac:(left) ltac:(left)). unfold UNIT in *. lia.
Qed.

Lemma insert_known a j : (a, j) ∈ A ++ (k, nk) :: B -> a = base \/ 0 < j.
Proof using All. rewrite <- E. intros [[= -> ->]|Ha]%elem_of_cons; [auto|]. right. apply (rg_blocks _ _ Hr a j Ha). Qed.

Lemma insert_C : sorted C (2 ^ 31) /\ (forall b j, (b, j) ∈ C -> bp <= b) /\ (forall b j, (b, j) ∈ C -> k + UNIT * nk <= b /\ k + UNIT <= b) /\ (forall b j, (b, j) ∈ C -> 0 < j).
Proof using All.
  pose proof insert_k as (H1 & H2 & _ & _). destruct insert_sorts as (_ & HsB & _). destruct HsB as (_ & _ & _ & _ & HsB).
  assert (HC : forall b j, (b, j) ∈ C -> (b = bp /\ n <= j) \/ (b, j) ∈ B) by (intros b j; apply joined_in; (assumption || lia)).
  split; [apply joined_sorted; [lia|unfold UNIT in *; lia|exact HB|exact HsB]|]. repeat split.
  - intros b j [[-> _]|Hj]%HC; [lia|]. specialize (HB b j Hj). unfold UNIT in *. lia.
  - destruct (HC b j ltac:(assumption)) as [[-> _]|Hj]; [lia|]. specialize (HB b j Hj). unfold UNIT in *. lia.
  - destruct (HC b j ltac:(assumption)) as [[-> _]|Hj]; [lia|]. specialize (HB b j Hj). unfold UNIT in *. lia.
  - intros b j Hc. destruct (HC b j Hc) as [[_ Hj]|Hj]; [lia|]. destruct (insert_known b j) as [->|Hp]; [apply elem_of_app; right; right; exact Hj| |exact Hp]. specialize (HB base j Hj). unfold UNIT in *. lia.
Qed.

Lemma insert_sorted : sorted (A ++ D) (2 ^ 31).
Proof using All.
  destruct insert_sorts as (HsA & HsB & HsAB). destruct insert_C as (HsC & HC1 & HC2 & _). pose proof insert_k as (H1 & H2 & H3 & _). apply sorted_app. split; [exact HsA|]. split.
  - apply joined_sorted; try assumption. unfold UNIT in *. lia.
  - intros a j b i Ha Hd. destruct (HsAB a j k nk Ha ltac:(left)) as [H4 H5]. apply joined_in in Hd; [|assumption..]. destruct Hd as [[-> _]|Hd]; [lia|]. specialize (HC2 b i Hd). unfold UNIT in *. lia.
Qed.

Lemma insert_covers x : covers (A ++ D) x <-> covers fr x \/ bp <= x < bp + UNIT * n.
Proof using All.
  destruct insert_sorts as (_ & (_ & _ & _ & _ & HsB) & _). destruct insert_C as (HsC & _). pose proof insert_k as (_ & _ & H3 & _). unfold D, C in *. rewrite covers_app, (joined_covers k nk), (joined_covers bp n) by (assumption || lia).
  assert (Hfr : covers fr x <-> covers A x \/ k <= x < k + UNIT * nk \/ covers B x); [|tauto]. rewrite <- covers_cons, <- covers_app, <- E, covers_cons. split; [auto|]. intros [Hx|Hx]; [lia|exact Hx].
Qed.

Lemma insert_length : (length (A ++ D) <= S (S (length fr)))%nat.
Proof using All.
  assert (length ((base, 0) :: fr) = (length A + S (length B))%nat) as El by (rewrite E, length_app; reflexivity). cbn [length] in El.
  rewrite length_app. unfold D, C. pose proof (joined_length k nk (joined bp n B)). pose proof (joined_length bp n B). lia.
Qed.

Lemma insert_big : exists a j, (a, j) ∈ A ++ D /\ n <= j.
Proof using All.
  destruct insert_sorts as (_ & (_ & _ & _ & _ & HsB) & _). pose proof insert_k as (_ & _ & H3 & _). destruct (joined_first bp n B) as (j & C' & EC & Hj); try (assumption || lia). unfold D, C. rewrite EC. cbn [joined].
  destruct (k + UNIT * nk =? bp); [exists k, (nk + j)|exists bp, j]; (split; [|lia]); apply elem_of_app; right; [left|right; left].
Qed.

Lemma insert_base : exists fr', A ++ D = (base, 0) :: fr'.
Proof using All.
  destruct insert_sorts as (_ & (_ & _ & _ & _ & HsB) & _). unfold D, C. destruct (joined_first bp n B HsB) as (i & C' & -> & _). destruct A as [|[a j] A']; injection E as <- <- E'; [|eexists; reflexivity].
  cbn [joined app]. destruct (Z.eqb_spec (base + UNIT * 0) bp) as [E1|E1]; [unfold UNIT in *; lia|]. eexists. reflexivity.
Qed.
End insert.

Lemma ring_covered fr s x : ring fr s -> covers fr x -> is_Some (load8 (mem s) x).
Proof. intros Hr (a & n & Ha & Hx). destruct (rg_blocks _ _ Hr a n Ha) as [_ Hm]. replace x with (a + (x - a)) by lia. apply Hm. lia. Qed.

(** What the caller of [free] is told. *)
Definition freed (fr : list (Z * Z)) (bp n : Z) (s s' : @state M) (fr' : list (Z * Z)) : Prop :=
  ring fr' s' /\ (forall x, covers fr' x <-> covers fr x \/ bp <= x < bp + UNIT * n) /\ (exists a k, (a, k) ∈ fr' /\ n <= k) /\ (length fr' <= S (length fr))%nat /\
  (forall x, ~ covers fr' x -> ~ (base <= x < base + UNIT) -> load8 (mem s') x = load8 (mem s) x) /\ (forall a k, mapped (mem s) a k -> mapped (mem s') a k).

Lemma ring_freed fr s bp n A k nk B m1 m2 : ring fr s -> 0 < n -> base + UNIT <= bp -> bp + UNIT * n <= 2 ^ 31 -> (base, 0) :: fr = A ++ (k, nk) :: B ->
  (forall a j, (a, j) ∈ A ++ [(k, nk)] -> a + UNIT * j <= bp /\ a + UNIT <= bp) -> (forall b j, (b, j) ∈ B -> bp + UNIT * n <= b /\ bp + UNIT <= b) -> mapped (mem s) bp (UNIT * n) ->
  same_outside (mem s) m1 bp 8 -> same_outside m1 m2 k 8 -> (forall a j, mapped (mem s) a j -> mapped m2 a j) -> links m2 (joined k nk (joined bp n B)) base ->
  exists fr', freed fr bp n s (State m2 k) fr'.
Proof.
  intros Hr Hn Hb He E HA HB Hm Hs1 Hs2 Hmap Hl. pose proof (insert_sorts fr s bp n A k nk B Hr Hn Hb He E HA HB) as (HsA & HsB & HsAB). pose proof (insert_k fr s bp n A k nk B Hr Hn Hb He E HA HB) as (Hk1 & Hk2 & Hk3 & Hk4).
  pose proof (insert_C fr s bp n A k nk B Hr Hn Hb He E HA HB) as (HsC & HC1 & HC2 & HC3). pose proof (insert_sorted fr s bp n A k nk B Hr Hn Hb He E HA HB) as HsN.
  pose proof (insert_covers fr s bp n A k nk B Hr Hn Hb He E HA HB) as Hcov. pose proof (insert_length fr s bp n A k nk B Hr Hn Hb He E HA HB) as Hlen. pose proof (insert_big fr s bp n A k nk B Hr Hn Hb He E HA HB) as (ab & kb & Hbig & Hbk).
  destruct (insert_base fr s bp n A k nk B Hr Hn Hb He E HA HB) as [fr' EN]. exists fr'.
  assert (Hpos : forall a j, (a, j) ∈ fr' -> 0 < j).
  { intros a j Ha. assert (HaN : (a, j) ∈ A ++ joined k nk (joined bp n B)) by (rewrite EN; right; exact Ha). rewrite EN in HsN. destruct HsN as (_ & _ & _ & Hab & _). destruct (Hab a j Ha) as [_ Hab'].
    pose proof (insert_known fr s bp n A k nk B Hr Hn Hb He E HA HB) as Hkn. apply elem_of_app in HaN as [HaN|HaN].
    - specialize (Hkn a j (proj2 (elem_of_app _ _ _) (or_introl HaN))). unfold UNIT in *. lia.
    - apply joined_in in HaN as [[-> Hj]|HaN]; [|exact (HC3 a j HaN)|exact HsC]. assert (HkN : (k, nk) ∈ A ++ (k, nk) :: B) by (apply elem_of_app; right; left). specialize (Hkn k nk HkN). unfold UNIT in *. lia. }
  rewrite EN in HsN, Hcov, Hlen, Hbig. assert (Hcov' : forall x, covers fr' x <-> covers fr x \/ bp <= x < bp + UNIT * n).
  { intros x. rewrite <- Hcov, covers_cons. split; [auto|]. intros [Hx|Hx]; [lia|exact Hx]. }
  split; [split|split; [exact Hcov'|split; [|split; [|split]]]]; cbn [mem freep].
  - rewrite <- EN. apply links_app. split; [|exact Hl]. destruct (joined_first k nk _ HsC) as (kk & CC & EC & _). rewrite EC. cbn [first].
    pose proof (rg_links _ _ Hr) as Hl0. rewrite E in Hl0. apply links_app in Hl0 as [HlA _]. apply (links_keeps (mem s)); [exact HlA|]. intros a j Ha x Hx.
    destruct (HsAB a j k nk Ha ltac:(left)). rewrite Hs2, Hs1 by (unfold UNIT in *; lia). reflexivity.
  - exact HsN.
  - apply (rg_base _ _ Hr).
  - intros a j Ha. split; [exact (Hpos a j Ha)|]. intros i Hi. replace (a + i) with (a + i + 0) by lia. apply (Hmap (a + i) 1); [|lia]. intros z Hz. replace (a + i + z) with (a + i) by lia.
    assert (Hx : covers fr' (a + i)) by (exists a, j; split; [exact Ha|lia]). apply Hcov' in Hx as [Hx|Hx]; [exact (ring_covered fr s _ Hr Hx)|]. replace (a + i) with (bp + (a + i - bp)) by lia. apply Hm. lia.
  - destruct (joined_first k nk _ HsC) as (kk & CC & EC & _). exists kk. rewrite <- EN, EC. apply elem_of_app. right. left.
  - exists ab, kb. split; [|exact Hbk]. apply elem_of_cons in Hbig as [[= -> ->]|Hbig]; [lia|exact Hbig].
  - cbn [length] in Hlen. lia.
  - intros x Hx Hxb. assert (Hxbp : ~ (bp <= x < bp + UNIT * n)) by (intros Hc; apply Hx, Hcov'; auto).
    rewrite Hs2, Hs1; [reflexivity|unfold UNIT in *; lia|]. intros Hxk. destruct (insert_known fr s bp n A k nk B Hr Hn Hb He E HA HB k nk) as [->|Hnk]; [apply elem_of_app; right; left|unfold UNIT in *; lia|].
    apply Hx, Hcov'. left. assert (Hkf : (k, nk) ∈ (base, 0) :: fr) by (rewrite E; apply elem_of_app; right; left). apply elem_of_cons in Hkf as [[= -> ->]|Hkf]; [lia|]. exists k, nk. split; [exact Hkf|unfold UNIT in *; lia].
  - exact Hmap.
Qed.

(** [free] puts a block into the ring: the free blocks are those of before and the new one, joined where they touch. *)
Lemma wp_free fr bp n fuel (Q : unit -> @state M -> Prop) s : ring fr s -> word_at (mem s) (bp + 4) n -> 0 < n -> base + UNIT <= bp -> bp + UNIT * n <= 2 ^ 31 ->
  mapped (mem s) bp (UNIT * n) -> clear_of fr bp n -> (2 * S (length fr) <= fuel)%nat -> (forall fr' s', freed fr bp n s s' fr' -> Q tt s') -> wp (free fuel (bp + UNIT)) Q s.
Proof.
  intros Hr Hw Hn Hb He Hm Ho Hfuel HQ. destruct (ring_place fr s bp n Hr Hn Hb Ho) as (A & k & nk & B & E & HA & HB). destruct (rg_freep _ _ Hr) as [nf Hf].
  pose proof (rg_links _ _ Hr) as Hl. pose proof (rg_sorted _ _ Hr) as Hs. pose proof (ring_small _ _ Hr) as Hsm. pose proof (rg_base _ _ Hr) as Hb0.
  assert (Hlen : length ((base, 0) :: fr) = (length A + S (length B))%nat) by (rewrite E, length_app; reflexivity). cbn [length] in Hlen.
  assert (Hfirst : first (A ++ (k, nk) :: B) base = base) by (rewrite <- E; reflexivity). rewrite E in Hl, Hs, Hsm, Hf.
  unfold free. replace (u32 (bp + UNIT - UNIT)) with bp by (rewrite Z.add_simpl_r; symmetry; apply u32_id; unfold is_u32, UNIT in *; lia).
  apply wp_bind, wp_gets, wp_bind. exists k, s. split.
  { apply (free_finds s bp A k nk B _ nf); try assumption; [exact (sorted_incr _ _ Hs)|unfold UNIT in *; lia|..|rewrite length_app; cbn [length]; lia].
    - intros a j Ha. specialize (HA a j Ha). unfold UNIT in *. lia.
    - intros b j Hbj. specialize (HB b j Hbj). unfold UNIT in *. lia. }
  pose proof (insert_k fr s bp n A k nk B Hr Hn Hb He E HA HB) as (Hk1 & Hk2 & Hk3 & Hk4). pose proof (insert_C fr s bp n A k nk B Hr Hn Hb He E HA HB) as (HsC & HC1 & HC2 & HC3).
  pose proof (insert_sorts fr s bp n A k nk B Hr Hn Hb He E HA HB) as (_ & (_ & _ & _ & _ & HsB) & _). pose proof Hl as [_ [Hk HlB]]%links_app.
  apply wp_bind, (wp_read_word _ (first B base)); [apply Hk|apply first_small; [|unfold UNIT in *; lia]|].
  { intros a j Ha. apply (Hsm a j), elem_of_app. right. right. exact Ha. }
  apply wp_bind, (wp_join bp n B); try assumption; [lia|unfold UNIT in *; lia|apply (mapped_part _ _ _ _ _ Hm); unfold UNIT in *; lia|unfold UNIT in *; lia|right; unfold UNIT in *; lia|].
  intros m1 Hl1 Hs1 Hm1. destruct (joined_first bp n B HsB) as (n1 & C' & EC & Hn1). apply wp_bind. change bp with (first ((bp, n1) :: C') base) at 1. rewrite <- EC. cbn [freep].
  apply (wp_join k nk (joined bp n B)); try assumption; cbn [mem freep].
  - unfold UNIT in *. lia.
  - apply (word_keeps (mem s)); [apply Hk|]. apply (keeps_outside _ _ bp 8); [exact Hs1|unfold UNIT in *; lia].
  - apply Hm1, (hdr_mapped _ _ _ _ Hk).
  - lia.
  - left. rewrite EC. discriminate.
  - intros m2 Hl2 Hs2 Hm2. apply wp_modify. cbn [mem]. destruct (ring_freed fr s bp n A k nk B m1 m2) as [fr' Hfr]; try assumption; [auto|]. exact (HQ fr' _ Hfr).
Qed.

(** ** Looking for a block *)

Fixpoint last_addr (prev : Z) (L : list (Z * Z)) : Z := match L with [] => prev | (a, _) :: L' => last_addr a L' end.

Lemma last_addr_app prev L1 L2 : last_addr prev (L1 ++ L2) = last_addr (last_addr prev L1) L2.
Proof. revert prev. induction L1 as [|[a n] L1 IH]; intros prev; [reflexivity|apply IH]. Qed.

Lemma last_addr_snoc prev L : L = [] \/ exists L' n, L = L' ++ [(last_addr prev L, n)].
Proof. destruct L as [|[a n] L _] using rev_ind; [auto|]. right. exists L, n. rewrite last_addr_app. reflexivity. Qed.

(** The loop goes past the blocks which are too small, up to [freep]. *)
Lemma malloc_walk s nunits next seg : links (mem s) seg next -> small seg -> 0 <= next <= 2 ^ 31 -> (forall a n, (a, n) ∈ seg -> n < nunits /\ a <> freep s) ->
  forall prev fuel, malloc_loop (length seg + fuel) nunits prev (first seg next) s = malloc_loop fuel nunits (last_addr prev seg) next s.
Proof.
  intros Hl Hs Hn Hseg. induction seg as [|[a n] seg IH]; intros prev fuel; [reflexivity|]. destruct Hl as [[Hp Hsz] Hl]. destruct (Hseg a n ltac:(left)) as [Hlt Hf]. destruct (Hs a n ltac:(left)) as [Ha Hn'].
  assert (Hs' : small seg) by (intros b k Hb; apply (Hs b k); right; exact Hb). cbn [length Nat.add first last_addr malloc_loop]. unfold size, ptr.
  rewrite (bind_word s (a + 4) n _ Hsz) by (unfold is_u32; lia). rewrite (proj2 (Z.leb_gt nunits n)) by lia. unfold mbind at 1, K_bind at 1, gets. rewrite (proj2 (Z.eqb_neq a (freep s)) Hf).
  rewrite (bind_word s a _ _ Hp (first_small _ _ Hs' Hn)). apply IH; try assumption. intros b k Hb. apply (Hseg b k). right. exact Hb.
Qed.

Lemma first_fit nunits (L : list (Z * Z)) : (forall a n, (a, n) ∈ L -> n < nunits) \/ exists L1 p n L2, L = L1 ++ (p, n) :: L2 /\ nunits <= n /\ forall a k, (a, k) ∈ L1 -> k < nunits.
Proof.
  induction L as [|[a n] L IH]; [left; intros a n Ha; inversion Ha|]. destruct (decide (nunits <= n)) as [Hle|Hgt].
  - right. exists [], a, n, L. split; [reflexivity|]. split; [exact Hle|]. intros b k Hb. inversion Hb.
  - destruct IH as [IH|(L1 & p & k & L2 & -> & Hk & H1)].
    + left. intros b k [[= -> ->]|Hb]%elem_of_cons; [lia|exact (IH b k Hb)].
    + right. exists ((a, n) :: L1), p, k, L2. split; [reflexivity|]. split; [exact Hk|]. intros b j [[= -> ->]|Hb]%elem_of_cons; [lia|exact (H1 b j Hb)].
Qed.

(** The ring seen from [freep]. *)
Lemma ring_rotate fr s : ring fr s -> exists A nf B, (base, 0) :: fr = A ++ (freep s, nf) :: B /\ links (mem s) (B ++ A) (freep s) /\ hdr (mem s) (freep s) (first (B ++ A) (freep s)) nf /\
  (forall a n, (a, n) ∈ B ++ A -> a <> freep s) /\ small (B ++ A) /\ 0 <= freep s <= 2 ^ 31 /\ first A (freep s) = base.
Proof.
  intros Hr. destruct (rg_freep _ _ Hr) as [nf Hf]. apply list_elem_of_split in Hf as (A & B & E). exists A, nf, B. split; [exact E|].
  pose proof (rg_links _ _ Hr) as Hl. pose proof (ring_small _ _ Hr) as Hs. pose proof (sorted_incr _ _ (rg_sorted _ _ Hr)) as Hi. rewrite E in Hl, Hs, Hi.
  apply links_app in Hl as [HlA [Hh HlB]]. apply incr_app in Hi as (HiA & [Hf HiB] & HAB).
  assert (Hfirst : first A (freep s) = base) by (destruct A as [|[a n] A]; injection E as <- _ _; reflexivity).
  split; [apply links_app; rewrite Hfirst; auto|]. split; [rewrite first_app, Hfirst; exact Hh|]. split; [|split; [|split; [|exact Hfirst]]].
  - intros a n [Ha|Ha]%elem_of_app; [specialize (Hf a n Ha); lia|specialize (HAB a n (freep s) nf Ha ltac:(left)); lia].
  - intros a n [Ha|Ha]%elem_of_app; apply (Hs a n), elem_of_app; [right; right; exact Ha|auto].
  - apply (Hs (freep s) nf), elem_of_app. right. left.
Qed.

(** The block before [p] in the order of the search is the one before it in the ring. *)
Lemma before prev L (e : Z * Z) Y : L <> [] -> exists X np, L ++ e :: Y = X ++ (last_addr prev L, np) :: e :: Y.
Proof.
  intros HL. destruct (last_addr_snoc prev L) as [->|(L' & np & EL)]; [congruence|]. exists L', np. rewrite EL at 1. rewrite <- app_assoc. reflexivity.
Qed.

(** One round of the search ends at a block that is large enough, or at [freep]. *)
Lemma scan fr s nunits fuel : ring fr s -> 0 < nunits -> (S (length fr) <= fuel)%nat -> let run := (q ← ptr (freep s); malloc_loop fuel nunits (freep s) q) s in
  (exists X prevp np p n Y g, (base, 0) :: fr = X ++ (prevp, np) :: (p, n) :: Y /\ nunits <= n /\ run = malloc_loop (S g) nunits prevp p s) \/
  ((forall a n, (a, n) ∈ (base, 0) :: fr -> n < nunits) /\ exists prevp, run = malloc_loop (fuel - length fr) nunits prevp (freep s) s).
Proof.
  intros Hr Hn Hfuel run. destruct (ring_rotate fr s Hr) as (A & nf & B & E & Hl & [Hp _] & Hne & Hs & Hf & HA).
  assert (Hlen : length ((base, 0) :: fr) = (length A + S (length B))%nat) by (rewrite E, length_app; reflexivity). cbn [length] in Hlen.
  assert (Erun : run = malloc_loop fuel nunits (freep s) (first (B ++ A) (freep s)) s) by (apply (bind_word s _ _ (malloc_loop fuel nunits (freep s)) Hp), first_small; assumption). clearbody run. subst run.
  assert (Hpart : forall L1 L2 g, B ++ A = L1 ++ L2 -> (forall a n, (a, n) ∈ L1 -> n < nunits) -> fuel = (length L1 + g)%nat ->
    malloc_loop fuel nunits (freep s) (first (B ++ A) (freep s)) s = malloc_loop g nunits (last_addr (freep s) L1) (first L2 (freep s)) s).
  { intros L1 L2 g EL H1 ->. rewrite EL in *. apply links_app in Hl as [Hl1 Hl2]. rewrite first_app. apply malloc_walk; [exact Hl1|intros a n Ha; apply (Hs a n), elem_of_app; auto| |].
    - destruct L2 as [|[b k] L2]; cbn [first]; [exact Hf|]. apply (Hs b k), elem_of_app. right. left.
    - intros a n Ha. split; [exact (H1 a n Ha)|]. apply (Hne a n), elem_of_app. auto. }
  destruct (first_fit nunits B) as [HB|(L1 & p & n & L2 & -> & Hfit & HB)].
  - destruct (first_fit nunits A) as [HAs|(L1 & p & n & L2 & -> & Hfit & HAs)].
    + assert (HBA : forall a n, (a, n) ∈ B ++ A -> n < nunits) by (intros a n [Ha|Ha]%elem_of_app; eauto). rewrite (Hpart (B ++ A) [] (fuel - length fr)%nat) by (rewrite ?app_nil_r, ?length_app; auto; lia). cbn [first].
      destruct (decide (nunits <= nf)) as [Hfit|Hlt].
      * left. assert (HAne : A <> []) by (intros ->; cbn [app] in E; injection E as E1 E2 E3; lia). destruct (before (last_addr (freep s) B) A (freep s, nf) B HAne) as (X & np & EX).
        exists X, (last_addr (freep s) (B ++ A)), np, (freep s), nf, B, (fuel - length fr - 1)%nat. rewrite E, last_addr_app, EX. split; [reflexivity|]. split; [exact Hfit|]. f_equal. lia.
      * right. split; [|eexists; reflexivity]. rewrite E. intros a n [Ha|[[= -> ->]|Ha]%elem_of_cons]%elem_of_app; [eauto|lia|eauto].
    + left. assert (HL1 : L1 <> []) by (intros ->; cbn [app] in E; injection E as E1 E2 E3; lia). destruct (before (last_addr (freep s) B) L1 (p, n) (L2 ++ (freep s, nf) :: B) HL1) as (X & np & EX).
      rewrite length_app in Hlen. cbn [length] in Hlen. exists X, (last_addr (freep s) (B ++ L1)), np, p, n, (L2 ++ (freep s, nf) :: B), (fuel - length (B ++ L1) - 1)%nat. split; [|split; [exact Hfit|]].
      * rewrite E, last_addr_app, <- EX, <- app_assoc. reflexivity.
      * rewrite (Hpart (B ++ L1) ((p, n) :: L2) (S (fuel - length (B ++ L1) - 1))); [reflexivity|rewrite <- app_assoc; reflexivity| |rewrite !length_app; lia]. intros a k [Ha|Ha]%elem_of_app; eauto.
  - left. rewrite length_app in Hlen. cbn [length] in Hlen. assert (exists X np, (base, 0) :: fr = X ++ (last_addr (freep s) L1, np) :: (p, n) :: L2) as (X & np & EX).
    { destruct (decide (L1 = [])) as [->|HL1]; [exists A, nf; exact E|]. destruct (before (freep s) L1 (p, n) L2 HL1) as (X & np & EX). exists (A ++ (freep s, nf) :: X), np. rewrite E, EX, <- app_assoc. reflexivity. }
    exists X, (last_addr (freep s) L1), np, p, n, L2, (fuel - length L1 - 1)%nat. split; [exact EX|]. split; [exact Hfit|].
    rewrite (Hpart L1 ((p, n) :: L2 ++ A) (S (fuel - length L1 - 1))); [reflexivity|rewrite <- app_assoc; reflexivity|exact HB|lia].
Qed.

(** ** Taking a block *)

(** [nu] units at [pa] have left the ring. *)
Definition taken (fr : list (Z * Z)) (nu : Z) (s s' : @state M) (fr' : list (Z * Z)) (pa : Z) : Prop :=
  ring fr' s' /\ word_at (mem s') (pa + 4) nu /\ (forall x, covers fr x <-> covers fr' x \/ pa <= x < pa + UNIT * nu) /\ clear_of fr' pa nu /\ (length fr' <= length fr)%nat /\
  (forall x, ~ covers fr x -> ~ (base <= x < base + UNIT) -> load8 (mem s') x = load8 (mem s) x) /\ (forall a k, mapped (mem s) a k -> mapped (mem s') a k).

Section take.
Context (fr : list (Z * Z)) (s : @state M) (nu : Z) (X : list (Z * Z)) (prevp np p n : Z) (Y : list (Z * Z)).
Hypothesis Hr : ring fr s.
Hypothesis Hnu : 0 < nu <= n.
Hypothesis E : (base, 0) :: fr = X ++ (prevp, np) :: (p, n) :: Y.

Lemma take_parts : exists P, (base, 0) :: P = X ++ [(prevp, np)] /\ fr = P ++ (p, n) :: Y.
Proof using All.
  destruct X as [|[a j] X']; injection E as <- <- ->; [exists []; auto|]. exists (X' ++ [(prevp, np)]). split; [reflexivity|]. rewrite <- app_assoc. reflexivity.
Qed.

Lemma take_sorts P : (base, 0) :: P = X ++ [(prevp, np)] -> fr = P ++ (p, n) :: Y ->
  sorted ((base, 0) :: P) (2 ^ 31) /\ sorted ((p, n) :: Y) (2 ^ 31) /\ forall a j b i, (a, j) ∈ (base, 0) :: P -> (b, i) ∈ (p, n) :: Y -> a + UNIT * j < b /\ a + UNIT <= b.
Proof using All. intros _ EP. apply sorted_app. cbn [app]. rewrite <- EP. apply (rg_sorted _ _ Hr). Qed.

Lemma take_at : base + UNIT <= p /\ p + UNIT * n <= 2 ^ 31 /\ n <= 2 ^ 28 /\ mapped (mem s) p (UNIT * n) /\ 0 < base /\ prevp + UNIT <= p /\ base <= prevp.
Proof using All.
  assert (Hp : (p, n) ∈ fr) by (destruct take_parts as (P & _ & ->); apply elem_of_app; right; left). pose proof (ring_above _ _ _ _ Hr Hp). pose proof (ring_small _ _ Hr p n ltac:(right; exact Hp)).
  pose proof (sorted_in _ _ p n (rg_sorted _ _ Hr) ltac:(right; exact Hp)). destruct (rg_blocks _ _ Hr p n Hp) as [_ Hm]. pose proof (rg_base _ _ Hr). repeat split; try lia; try assumption.
  - destruct take_parts as (P & E1 & E2). destruct (take_sorts P E1 E2) as (_ & _ & Hd). apply (Hd prevp np p n); [rewrite E1; apply elem_of_app; right; left|left].
  - assert (Hq : (prevp, np) ∈ (base, 0) :: fr) by (rewrite E; apply elem_of_app; right; left). apply elem_of_cons in Hq as [[= -> ->]|Hq]; [lia|]. pose proof (ring_above _ _ _ _ Hr Hq). unfold UNIT in *. lia.
Qed.

(** The headers before and after [p]. *)
Lemma take_links : links (mem s) X prevp /\ hdr (mem s) prevp p np /\ hdr (mem s) p (first Y base) n /\ links (mem s) Y base.
Proof using All. pose proof (rg_links _ _ Hr) as Hl. rewrite E in Hl. apply links_app in Hl as (H1 & H2 & H3 & H4). auto. Qed.

Lemma take_header x : prevp <= x < prevp + UNIT -> ~ (base <= x < base + UNIT) -> covers fr x.
Proof using All.
  intros Hx Hb. assert (Hq : (prevp, np) ∈ (base, 0) :: fr) by (rewrite E; apply elem_of_app; right; left). apply elem_of_cons in Hq as [[= -> ->]|Hq]; [lia|].
  destruct (rg_blocks _ _ Hr _ _ Hq) as [Hj _]. exists prevp, np. split; [exact Hq|unfold UNIT in *; lia].
Qed.

(** An exact fit leaves the ring. *)
Lemma take_all m : n = nu -> word_at m prevp (first Y base) -> same_outside (mem s) m prevp 4 -> (forall a k, mapped (mem s) a k -> mapped m a k) -> exists fr', taken fr nu s (State m prevp) fr' p.
Proof using All.
  intros En Hw Hs Hm. destruct take_parts as (P & EP & Efr). destruct (take_sorts P EP Efr) as (HsP & (HsY1 & HsY2 & HsY3 & HsY4 & HsY) & Hd). destruct take_links as (H1 & H2 & H3 & H4).
  pose proof take_at as (Ha1 & Ha2 & Ha3 & Ha4 & Ha5 & Ha6 & Ha7). exists (P ++ Y). split; [split|]; cbn [mem freep].
  - change ((base, 0) :: P ++ Y) with (((base, 0) :: P) ++ Y). rewrite EP, <- app_assoc. apply links_app. cbn [app first links]. split; [|split; [split; [exact Hw|]|]].
    + apply (links_keeps (mem s)); [exact H1|]. intros a k Ha. apply (keeps_outside _ _ prevp 4); [exact Hs|]. left. rewrite EP in HsP. apply sorted_app in HsP as (_ & _ & HX). apply (HX a k prevp np Ha). left.
    + apply (word_keeps (mem s)); [apply H2|]. apply (keeps_outside _ _ prevp 4); [exact Hs|lia].
    + apply (links_keeps (mem s)); [exact H4|]. intros a k Ha. specialize (HsY4 a k Ha). apply (keeps_outside _ _ prevp 4); [exact Hs|unfold UNIT in *; lia].
  - change ((base, 0) :: P ++ Y) with (((base, 0) :: P) ++ Y). apply sorted_app. split; [exact HsP|]. split; [exact HsY|]. intros a j b i Ha Hb. apply (Hd a j b i Ha). right. exact Hb.
  - exact Ha5.
  - intros a k Ha. destruct (rg_blocks _ _ Hr a k) as [Hk Hmk]; [rewrite Efr; apply elem_of_app in Ha as [Ha|Ha]; apply elem_of_app; [auto|right; right; exact Ha]|]. auto.
  - exists np. change ((base, 0) :: P ++ Y) with (((base, 0) :: P) ++ Y). rewrite EP, <- app_assoc. apply elem_of_app. right. left.
  - split; [|split; [|split; [|split; [|split]]]].
    + apply (word_keeps (mem s)); [rewrite <- En; apply H3|]. apply (keeps_outside _ _ prevp 4); [exact Hs|unfold UNIT in *; lia].
    + intros x. rewrite Efr, !covers_app, covers_cons, En. tauto.
    + intros x Hx [Hc|Hc]%covers_app.
      * destruct Hc as (a & j & Ha & Hxa). destruct (Hd a j p n); [right; exact Ha|left|]. lia.
      * destruct Hc as (a & j & Ha & Hxa). specialize (HsY4 a j Ha). rewrite En in HsY4. lia.
    + rewrite Efr, !length_app. cbn [length]. lia.
    + intros x Hx Hb. rewrite Hs; [reflexivity|]. intros Hc. apply Hx, take_header; [unfold UNIT; lia|exact Hb].
    + exact Hm.
Qed.

(** Of a larger block the end leaves the ring. *)
Lemma take_end m1 m2 : let pa := p + UNIT * (n - nu) in nu < n -> word_at m1 (p + 4) (n - nu) -> same_outside (mem s) m1 (p + 4) 4 -> word_at m2 (pa + 4) nu -> same_outside m1 m2 (pa + 4) 4 ->
  (forall a k, mapped (mem s) a k -> mapped m2 a k) -> exists fr', taken fr nu s (State m2 prevp) fr' pa.
Proof using All.
  intros pa En Hw1 Hs1 Hw2 Hs2 Hm. destruct take_parts as (P & EP & Efr). destruct (take_sorts P EP Efr) as (HsP & (HsY1 & HsY2 & HsY3 & HsY4 & HsY) & Hd). destruct take_links as (H1 & H2 & H3 & H4).
  pose proof take_at as (Ha1 & Ha2 & Ha3 & Ha4 & Ha5 & Ha6 & Ha7). assert (Hpa : p + 8 <= pa /\ pa + 8 * nu = p + 8 * n) by (unfold pa, UNIT; lia).
  assert (Hs : forall x, x < p + 4 \/ p + 8 <= x < pa + 4 \/ pa + 8 <= x -> load8 m2 x = load8 (mem s) x) by (intros x Hx; rewrite Hs2, Hs1 by lia; reflexivity).
  exists (P ++ (p, n - nu) :: Y). split; [split|]; cbn [mem freep].
  - change ((base, 0) :: P ++ (p, n - nu) :: Y) with (((base, 0) :: P) ++ (p, n - nu) :: Y). rewrite EP, <- app_assoc. apply links_app. cbn [app first links]. split; [|split; [|split; [split|]]].
    + apply (links_keeps (mem s)); [exact H1|]. intros a k Ha x Hx. apply Hs. left. rewrite EP in HsP. apply sorted_app in HsP as (_ & _ & HX). destruct (HX a k prevp np Ha ltac:(left)). unfold UNIT in *. lia.
    + apply (hdr_keeps (mem s)); [exact H2|]. intros x Hx. apply Hs. unfold UNIT in *. lia.
    + apply (word_keeps (mem s)); [apply H3|]. intros x Hx. apply Hs. lia.
    + apply (word_keeps m1); [exact Hw1|]. apply (keeps_outside _ _ (pa + 4) 4); [exact Hs2|lia].
    + apply (links_keeps (mem s)); [exact H4|]. intros a k Ha x Hx. specialize (HsY4 a k Ha). apply Hs. unfold UNIT in *. lia.
  - change ((base, 0) :: P ++ (p, n - nu) :: Y) with (((base, 0) :: P) ++ (p, n - nu) :: Y). apply sorted_app. split; [exact HsP|]. split.
    + cbn [sorted]. split; [lia|]. split; [unfold UNIT in *; lia|]. split; [exact HsY3|]. split; [|exact HsY]. intros b k Hb. specialize (HsY4 b k Hb). unfold UNIT in *. lia.
    + intros a j b i Ha [[= -> ->]|Hb]%elem_of_cons; [apply (Hd a j p n Ha); left|apply (Hd a j b i Ha); right; exact Hb].
  - exact Ha5.
  - intros a k [Ha|[[= -> ->]|Ha]%elem_of_cons]%elem_of_app; [|split; [lia|]; apply Hm, (mapped_part _ _ _ _ _ Ha4); unfold UNIT in *; lia|].
    + destruct (rg_blocks _ _ Hr a k) as [Hk Hmk]; [rewrite Efr; apply elem_of_app; auto|]. auto.
    + destruct (rg_blocks _ _ Hr a k) as [Hk Hmk]; [rewrite Efr; apply elem_of_app; right; right; exact Ha|]. auto.
  - exists np. change ((base, 0) :: P ++ (p, n - nu) :: Y) with (((base, 0) :: P) ++ (p, n - nu) :: Y). rewrite EP, <- app_assoc. apply elem_of_app. right. left.
  - split; [exact Hw2|]. split; [|split; [|split; [|split]]].
    + intros x. rewrite Efr, !covers_app, !covers_cons. assert (p <= x < p + UNIT * n <-> p <= x < p + UNIT * (n - nu) \/ pa <= x < pa + UNIT * nu) by (unfold pa, UNIT in *; lia). tauto.
    + intros x Hx [Hc|[Hc|Hc]%covers_cons]%covers_app; [|unfold pa in Hx; lia|]; destruct Hc as (a & j & Ha & Hxa).
      * destruct (Hd a j p n); [right; exact Ha|left|]. unfold UNIT in *. lia.
      * specialize (HsY4 a j Ha). unfold UNIT in *. lia.
    + rewrite Efr, !length_app. cbn [length]. lia.
    + intros x Hx Hb. apply Hs. destruct (decide (p <= x < p + UNIT * n)) as [Hin|Hout]; [|unfold UNIT in *; lia]. exfalso. apply Hx. rewrite Efr. apply covers_app. right. apply covers_cons. auto.
    + exact Hm.
Qed.

Lemma wp_take g (Q : Z -> @state M -> Prop) : (forall fr' s' pa, taken fr nu s s' fr' pa -> base + UNIT <= pa -> pa + UNIT * nu <= 2 ^ 31 -> Q (pa + UNIT) s') -> wp (malloc_loop (S g) nu prevp p) Q s.
Proof using All.
  intros HQ. pose proof take_at as (Ha1 & Ha2 & Ha3 & Ha4 & Ha5 & Ha6 & Ha7). destruct take_links as (H1 & H2 & H3 & H4). assert (HsY : small Y).
  { intros a k Ha. apply (ring_small _ _ Hr a k). rewrite E. apply elem_of_app. right. right. right. exact Ha. }
  assert (H31 : prevp + UNIT <= 2 ^ 31) by (unfold UNIT in *; lia). cbn [malloc_loop]. unfold size, set_size, ptr, set_ptr, plus, UNIT in *. apply wp_bind, (wp_read_word _ n); [apply H3|unfold is_u32; lia|]. rewrite (proj2 (Z.leb_le nu n)) by lia.
  destruct (Z.eqb_spec n nu) as [En|En].
  - apply wp_bind, (wp_read_word _ (first Y base)); [apply H3|apply first_small; [exact HsY|lia]|]. apply wp_bind, wp_write_word; [apply (mapped_part _ _ _ _ _ (hdr_mapped _ _ _ _ H2)); lia|]. intros m Hw Hs.
    apply wp_bind, wp_modify, wp_ret. cbn [mem freep]. rewrite u32_id by (unfold is_u32; lia). destruct (take_all m En Hw Hs) as [fr' Ht]; [intros a k Ha; eapply mapped_put; eassumption|].
    apply (HQ fr' _ p Ht); unfold UNIT in *; lia.
  - rewrite (u32_id (n - nu)) by (unfold is_u32; lia). apply wp_bind, wp_write_word; [apply (mapped_part _ _ _ _ _ Ha4); lia|]. intros m1 Hw1 Hs1.
    apply wp_bind, (wp_read_word _ (n - nu)); [exact Hw1|unfold is_u32; lia|]. rewrite (u32_id (p + 8 * (n - nu))) by (unfold is_u32; lia). cbn [mem freep].
    apply wp_bind, wp_write_word; [eapply mapped_put; [|exact Hw1|exact Hs1]; apply (mapped_part _ _ _ _ _ Ha4); lia|]. intros m2 Hw2 Hs2. cbn [mem freep] in *.
    apply wp_bind, wp_modify, wp_ret. cbn [mem freep]. rewrite u32_id by (unfold is_u32; lia). destruct (take_end m1 m2) as [fr' Ht]; try assumption; [lia| |].
    + intros a k Ha. eapply mapped_put; [eapply mapped_put; [exact Ha|exact Hw1|exact Hs1]|exact Hw2|exact Hs2].
    + apply (HQ fr' _ _ Ht); unfold UNIT in *; lia.
Qed.
End take.

(** ** Getting more memory *)

(** Free memory may only grow by memory which was not there. *)
Definition grown (fr : list (Z * Z)) (s : @state M) (fr' : list (Z * Z)) (s' : @state M) : Prop :=
  ring fr' s' /\ (forall x, covers fr x -> covers fr' x) /\ (forall x, covers fr' x -> covers fr x \/ load8 (mem s) x = None) /\
  (forall x, is_Some (load8 (mem s) x) -> ~ covers fr' x -> ~ (base <= x < base + UNIT) -> load8 (mem s') x = load8 (mem s) x) /\ (forall a k, mapped (mem s) a k -> mapped (mem s') a k).

Lemma ring_frame fr s m : ring fr s -> (forall x, covers fr x \/ base <= x < base + UNIT -> load8 m x = load8 (mem s) x) -> ring fr (State m (freep s)).
Proof.
  intros Hr Hs. split; cbn [mem freep]; try apply Hr.
  - apply (links_keeps (mem s)); [apply Hr|]. intros a n Ha x Hx. apply Hs. apply elem_of_cons in Ha as [[= -> ->]|Ha]; [auto|].
    left. exists a, n. destruct (rg_blocks _ _ Hr a n Ha) as [Hn _]. split; [exact Ha|unfold UNIT; lia].
  - intros a n Ha. destruct (rg_blocks _ _ Hr a n Ha) as [Hn Hm]. split; [exact Hn|]. intros i Hi. rewrite Hs; [apply Hm, Hi|]. left. exists a, n. split; [exact Ha|lia].
Qed.

Lemma ring_base_mapped fr s x : ring fr s -> base <= x < base + UNIT -> is_Some (load8 (mem s) x).
Proof. intros Hr Hx. destruct (rg_links _ _ Hr) as [Hh _]. replace x with (base + (x - base)) by lia. apply (hdr_mapped _ _ _ _ Hh). unfold UNIT in *. lia. Qed.

Lemma ring_freep fr s : ring fr s -> 0 < freep s < 2 ^ 31.
Proof.
  intros Hr. destruct (rg_freep _ _ Hr) as [n Hf]. pose proof (sorted_in _ _ _ _ (rg_sorted _ _ Hr) Hf). pose proof (rg_base _ _ Hr). apply elem_of_cons in Hf as [[= E1 E2]|Hf]; [unfold UNIT in *; lia|].
  pose proof (ring_above _ _ _ _ Hr Hf). unfold UNIT in *. lia.
Qed.

Lemma wp_morecore fr nu fuel (Q : Z -> @state M -> Prop) s : ring fr s -> 0 < nu < 2 ^ 28 -> (2 * S (length fr) <= fuel)%nat -> Q 0 s ->
  (forall fr' s', grown fr s fr' s' -> (exists a k, (a, k) ∈ fr' /\ nu <= k) -> (length fr' <= S (length fr))%nat -> Q (freep s') s') -> wp (morecore fuel nu) Q s.
Proof.
  intros Hr Hnu Hfuel Hz HQ. unfold morecore. set (nu' := if nu <? 4096 then 4096 else nu). assert (Hnu' : nu <= nu' /\ 0 < nu' < 2 ^ 28) by (unfold nu'; destruct (Z.ltb_spec nu 4096); lia).
  rewrite s32_id by (unfold is_s32, UNIT; lia). destruct (law_sbrk (nu' * UNIT) (mem s) ltac:(unfold UNIT; lia)) as (r & m & Es & Hsb). apply wp_bind. exists r, (State m (freep s)). split; [unfold on_mem; rewrite Es; reflexivity|].
  destruct r as [hp|]; [|subst m; apply wp_ret; destruct s; exact Hz]. destruct Hsb as (Hp0 & Hp1 & Hp2 & Hp3 & Hp4). unfold set_size.
  assert (Hold : forall x, is_Some (load8 (mem s) x) -> load8 m x = load8 (mem s) x) by (intros x Hx; apply Hp3; specialize (Hp2 x Hx); lia).
  apply wp_bind, wp_write_word; [cbn [mem]; apply (mapped_part _ _ _ _ _ Hp4); unfold UNIT; lia|]. intros m1 Hw1 Hs1. cbn [mem freep] in *.
  assert (Hold1 : forall x, is_Some (load8 (mem s) x) -> load8 m1 x = load8 (mem s) x) by (intros x Hx; specialize (Hp2 x Hx) as Hlt; rewrite Hs1 by lia; exact (Hold x Hx)).
  assert (Hr1 : ring fr (State m1 (freep s))) by (apply ring_frame; [exact Hr|]; intros x [Hx|Hx]; apply Hold1; [exact (ring_covered fr s x Hr Hx)|exact (ring_base_mapped fr s x Hr Hx)]).
  assert (Hbase : base + UNIT <= hp). { pose proof (ring_base_mapped fr s (base + 7) Hr ltac:(unfold UNIT; lia)) as Hx. apply Hp2 in Hx. unfold UNIT. lia. }
  assert (Hnew : forall x, hp <= x -> load8 (mem s) x = None) by (intros x Hx; destruct (load8 (mem s) x) eqn:El; [|reflexivity]; specialize (Hp2 x ltac:(eauto)); lia).
  assert (Hout : clear_of fr hp nu') by (intros x Hx Hc; pose proof (ring_covered fr s x Hr Hc) as Hm; apply Hp2 in Hm; lia).
  unfold plus. rewrite Z.mul_1_r, (u32_id (hp + UNIT)) by (unfold is_u32, UNIT in *; lia). apply wp_bind, (wp_free fr hp nu' fuel); cbn [mem freep]; try assumption; [lia|unfold UNIT in *; lia| |].
  { eapply mapped_put; [|exact Hw1|exact Hs1]. apply (mapped_part _ _ _ _ _ Hp4); lia. }
  intros fr' s' (Hr' & Hc & (a & k & Hk & Hkn) & Hlen & Hf & Hm). cbn [mem] in *. apply wp_gets, (HQ fr'); [|exists a, k; split; [exact Hk|lia]|exact Hlen]. split; [exact Hr'|]. split; [|split; [|split]].
  - intros x Hx. apply Hc. auto.
  - intros x Hx. apply Hc in Hx as [Hx|Hx]; [auto|]. right. apply Hnew. lia.
  - intros x Hx Hx1 Hx2. rewrite Hf by assumption. exact (Hold1 x Hx).
  - intros b j Hb. apply Hm. intros i Hi. rewrite Hold1 by (apply Hb, Hi). apply Hb, Hi.
Qed.

(** ** malloc *)

(** A new block of [nu] units at [pa], out of free or new memory. *)
Definition allocated (fr : list (Z * Z)) (nu : Z) (s s' : @state M) (fr' : list (Z * Z)) (pa : Z) : Prop :=
  ring fr' s' /\ word_at (mem s') (pa + 4) nu /\ clear_of fr' pa nu /\ base + UNIT <= pa /\ pa + UNIT * nu <= 2 ^ 31 /\ mapped (mem s') pa (UNIT * nu) /\
  (forall x, pa <= x < pa + UNIT * nu -> covers fr x \/ load8 (mem s) x = None) /\ (forall x, covers fr' x -> covers fr x \/ load8 (mem s) x = None) /\
  (forall x, is_Some (load8 (mem s) x) -> ~ covers fr x -> ~ (base <= x < base + UNIT) -> load8 (mem s') x = load8 (mem s) x) /\ (forall a k, mapped (mem s) a k -> mapped (mem s') a k).

Lemma grown_none fr s : ring fr s -> grown fr s fr s.
Proof. intros Hr. split; [exact Hr|]. auto. Qed.

Lemma taken_allocated fr s fr1 s1 nu s' fr' pa : grown fr s fr1 s1 -> taken fr1 nu s1 s' fr' pa -> base + UNIT <= pa -> pa + UNIT * nu <= 2 ^ 31 -> allocated fr nu s s' fr' pa.
Proof.
  intros (Hr1 & Hg1 & Hg2 & Hg3 & Hg4) (Hr & Hw & Hc & Ho & Hl & Hf & Hm) Hb He. split; [exact Hr|]. split; [exact Hw|]. split; [exact Ho|]. split; [exact Hb|]. split; [exact He|]. split; [|split; [|split; [|split]]].
  - apply Hm. intros i Hi. apply (ring_covered fr1 s1 _ Hr1), Hc. right. lia.
  - intros x Hx. apply Hg2, Hc. auto.
  - intros x Hx. apply Hg2, Hc. auto.
  - intros x Hx Hx1 Hx2. assert (Hn1 : ~ covers fr1 x) by (intros Hc1; apply Hg2 in Hc1 as [Hc1|Hc1]; [auto|rewrite Hc1 in Hx; destruct Hx; discriminate]). rewrite Hf, Hg3 by assumption. reflexivity.
  - intros a k Ha. apply Hm, Hg4, Ha.
Qed.

(** The search gives a block if one is free, and otherwise one from new memory or 0. *)
Lemma wp_search fr nu fuel (Q : Z -> @state M -> Prop) s : ring fr s -> 0 < nu < 2 ^ 28 -> (3 * length fr + 4 <= fuel)%nat ->
  ((forall a n, (a, n) ∈ fr -> n < nu) -> Q 0 s) -> (forall fr' s' pa, allocated fr nu s s' fr' pa -> (length fr' <= S (length fr))%nat -> Q (pa + UNIT) s') ->
  wp (q ← ptr (freep s); malloc_loop fuel nu (freep s) q) Q s.
Proof.
  intros Hr Hnu Hfuel Hz HQ. destruct (scan fr s nu fuel Hr ltac:(lia) ltac:(lia)) as [(X & prevp & np & p & n & Y & g & E & Hfit & Erun)|(Hall & prevp & Erun)]; unfold wp; rewrite Erun.
  - apply (wp_take fr s nu X prevp np p n Y Hr ltac:(lia) E). intros fr' s' pa Ht Hb He. apply (HQ fr'); [exact (taken_allocated fr s fr s nu s' fr' pa (grown_none fr s Hr) Ht Hb He)|]. destruct Ht as (_ & _ & _ & _ & Hl & _). lia.
  - destruct (fuel - length fr)%nat as [|g] eqn:Eg; [lia|]. destruct (ring_rotate fr s Hr) as (A & nf & B & E & _ & [_ Hsz] & _). assert (Hf : (freep s, nf) ∈ (base, 0) :: fr) by (rewrite E; apply elem_of_app; right; left).
    pose proof (Hall _ _ Hf) as Hnf. pose proof (ring_small _ _ Hr _ _ Hf) as Hsm. change (wp (malloc_loop (S g) nu prevp (freep s)) Q s). cbn [malloc_loop]. unfold size.
    apply wp_bind, (wp_read_word _ nf); [exact Hsz|unfold is_u32; lia|]. rewrite (proj2 (Z.leb_gt nu nf)) by lia. apply wp_bind, wp_gets. rewrite Z.eqb_refl. apply wp_bind, (wp_morecore fr); try assumption; [lia| |].
    + apply wp_ret, Hz. intros a n Ha. apply (Hall a n). right. exact Ha.
    + intros fr1 s1 Hg (a & k & Hk & Hnk) Hlen. pose proof Hg as (Hr1 & _). pose proof (ring_freep _ _ Hr1). rewrite (proj2 (Z.eqb_neq (freep s1) 0)) by lia.
      destruct (scan fr1 s1 nu g Hr1 ltac:(lia) ltac:(lia)) as [(X & prevp1 & np & p & n & Y & g1 & E1 & Hfit & Erun1)|(Hall1 & _)]; [|specialize (Hall1 a k ltac:(right; exact Hk)); lia].
      unfold wp. rewrite Erun1. apply (wp_take fr1 s1 nu X prevp1 np p n Y Hr1 ltac:(lia) E1). intros fr' s' pa Ht Hb He. apply (HQ fr'); [exact (taken_allocated fr s fr1 s1 nu s' fr' pa Hg Ht Hb He)|]. destruct Ht as (_ & _ & _ & _ & Hl & _). lia.
Qed.

(** Before the first call there is no ring. *)
Definition fresh (s : @state M) : Prop := freep s = 0 /\ 0 < base /\ base + UNIT <= 2 ^ 31 /\ mapped (mem s) base UNIT.

Lemma ring_init m : 0 < base -> base + UNIT <= 2 ^ 31 -> word_at m base base -> word_at m (base + 4) 0 -> ring [] (State m base).
Proof.
  intros H1 H2 H3 H4. split; cbn [mem freep links sorted first].
  - split; [split; assumption|exact I].
  - repeat split; try (unfold UNIT in *; lia); exfalso; eapply not_elem_of_nil; eassumption.
  - exact H1.
  - intros a n Ha. inversion Ha.
  - exists 0. left.
Qed.

Lemma wp_malloc fr nbytes fuel (Q : Z -> @state M -> Prop) s : ring fr s \/ fr = [] /\ fresh s -> 0 <= nbytes <= 2 ^ 30 -> (3 * length fr + 4 <= fuel)%nat -> let nu := (nbytes + 7) / 8 + 1 in
  (forall s', (forall a n, (a, n) ∈ fr -> n < nu) -> ring fr s' -> same_outside (mem s) (mem s') base UNIT -> Q 0 s') ->
  (forall fr' s' pa, allocated fr nu s s' fr' pa -> (length fr' <= S (length fr))%nat -> Q (pa + UNIT) s') -> wp (malloc base fuel nbytes) Q s.
Proof.
  intros Ha Hnb Hfuel nu Hz HQ. unfold malloc. replace (u32 (nbytes + UNIT - 1) / UNIT + 1) with nu.
  2:{ unfold nu, UNIT. rewrite u32_id by (unfold is_u32; lia). f_equal. f_equal. lia. }
  assert (Hnu : 0 < nu < 2 ^ 28) by (unfold nu; pose proof (Z.div_pos (nbytes + 7) 8); pose proof (Z.div_le_upper_bound (nbytes + 7) 8 (2 ^ 27 + 1)); lia). apply wp_bind, wp_gets.
  destruct Ha as [Hr|(-> & Hf & Hb & Hb1 & Hm)].
  - pose proof (ring_freep _ _ Hr). rewrite (proj2 (Z.eqb_neq _ _)) by lia. apply wp_bind, wp_skip, wp_bind, wp_gets, (wp_search fr); try assumption. intros Hall. apply (Hz s); [exact Hall|exact Hr|]. intros x Hx. reflexivity.
  - rewrite Hf, Z.eqb_refl. unfold set_ptr, set_size, UNIT in *. apply wp_bind, wp_bind, wp_write_word; [apply (mapped_part _ _ _ _ _ Hm); lia|]. intros m1 Hw1 Hs1. apply wp_bind, wp_modify. cbn [mem freep].
    apply wp_write_word; [eapply mapped_put; [|exact Hw1|exact Hs1]; apply (mapped_part _ _ _ _ _ Hm); lia|]. intros m2 Hw2 Hs2. cbn [mem freep] in *. apply wp_bind, wp_gets. cbn [freep].
    assert (Hw1' : word_at m2 base base) by (apply (word_keeps m1); [exact Hw1|]; apply (keeps_outside _ _ (base + 4) 4); [exact Hs2|lia]). pose proof (ring_init m2 Hb Hb1 Hw1' Hw2) as Hr.
    assert (Hs : same_outside (mem s) m2 base 8) by (intros x Hx; rewrite Hs2, Hs1 by lia; reflexivity). assert (Hmm : forall a k, mapped (mem s) a k -> mapped m2 a k).
    { intros a k Hak. eapply mapped_put; [eapply mapped_put; [exact Hak|exact Hw1|exact Hs1]|exact Hw2|exact Hs2]. }
    apply (wp_search [] nu fuel Q (State m2 base) Hr Hnu Hfuel); [intros Hall; apply Hz; assumption|]. intros fr' s' pa (A1 & A2 & A3 & A4 & A5 & A6 & A7 & A8 & A9 & A10) Hlen. cbn [mem] in *.
    assert (Hno : forall x, load8 m2 x = None -> load8 (mem s) x = None).
    { intros x Hx. destruct (decide (base <= x < base + 8)) as [Hin|Hout]; [|rewrite <- Hs by exact Hout; exact Hx]. destruct (ring_base_mapped _ _ x Hr Hin) as [v Hv]. cbn [mem] in Hv. congruence. }
    apply (HQ fr'); [|exact Hlen]. do 6 (split; [assumption|]). split; [|split; [|split]].
    + intros x Hx. destruct (A7 x Hx); auto.
    + intros x Hx. destruct (A8 x Hx); auto.
    + intros x Hx Hx1 Hx2. rewrite A9; [apply Hs, Hx2|rewrite Hs by exact Hx2; exact Hx|exact Hx1|exact Hx2].
    + intros a k Hak. apply A10, Hmm, Hak.
Qed.
End facts.
End UmallocFacts.
