(* ===== verification/UmallocProps.v ===== *)
(** What [malloc] and [free] promise a program (umalloc.c): an abstract store of separate blocks,
    each with its bytes, and the theorem that the allocator implements it, for a program that frees
    and uses only what it was given. *)

From S2P Require Import Prelude Mem Umalloc.

Module UmallocSpec.

(** What a program does with the allocator. *)
Inductive op :=
  | Malloc (nbytes : Z)
  | Free (p : Z)
  | Write (p : Z) (i : nat) (b : Z)
  | Read (p : Z) (i : nat).

(** The blocks a program has, by their address. *)
Abbreviation blocks := (gmap Z (list Z)).

Definition legal (live : blocks) (o : op) : Prop :=
  match o with
  | Malloc nbytes => 0 <= nbytes <= 2 ^ 30
  | Free p => is_Some (live !! p)
  | Write p i _ | Read p i => exists bs, live !! p = Some bs /\ (i < length bs)%nat
  end.

(** The block at [p] does not meet the block at [q], and there is a header between them. *)
Definition separate (p : Z) (bs : list Z) (q : Z) (cs : list Z) : Prop := p + Z.of_nat (length bs) + 8 <= q \/ q + Z.of_nat (length cs) + 8 <= p.

Inductive step (live : blocks) : op -> Z -> blocks -> Prop :=
  | step_malloc nbytes p bs : 0 < p -> p + Z.of_nat (length bs) <= 2 ^ 31 -> nbytes <= Z.of_nat (length bs) -> (forall q cs, live !! q = Some cs -> separate p bs q cs) ->
      step live (Malloc nbytes) p (<[p := bs]> live)
  | step_no_memory nbytes : step live (Malloc nbytes) 0 live
  | step_free p : is_Some (live !! p) -> step live (Free p) 0 (delete p live)
  | step_write p i b bs : live !! p = Some bs -> (i < length bs)%nat -> step live (Write p i b) 0 (<[p := <[i := b]> bs]> live)
  | step_read p i bs v : live !! p = Some bs -> bs !! i = Some v -> step live (Read p i) v live.

(** A program chooses its next operation from the answers it got. *)
Definition client : Type := list Z -> op.
Inductive trace (c : client) : nat -> list Z -> blocks -> Prop :=
  | trace_start : trace c 0 [] ∅
  | trace_step n rs live r live' : trace c n rs live -> step live (c rs) r live' -> trace c (S n) (rs ++ [r]) live'.
(** It frees and uses only what it has, whatever the answers are. *)
Definition well_behaved (c : client) (n : nat) : Prop := forall k rs live, (k < n)%nat -> trace c k rs live -> legal live (c rs).
End UmallocSpec.

Module UmallocRefines.
Import Umalloc UmallocFacts UmallocSpec.

Section refines.
Context {M : Type} `{Program M} (base : Z).

(** An operation, and a run of them, on the memory of the program. *)
Definition perform (fuel : nat) (o : op) : K (@state M) Z :=
  match o with
  | Malloc nbytes => malloc base fuel nbytes
  | Free p => free fuel p ;; mret 0
  | Write p i b => on_mem (store (p + Z.of_nat i) b) ;; mret 0
  | Read p i => on_mem (load (p + Z.of_nat i))
  end.
Fixpoint run (fuel n : nat) (c : client) (rs : list Z) : K (@state M) (list Z) :=
  match n with
  | O => mret rs
  | S n => r ← perform fuel (c rs); run fuel n c (rs ++ [r])
  end.

(** The block of [n] units whose contents are at [p]. *)
Record block (fr : list (Z * Z)) (s : @state M) (p n : Z) (bs : list Z) : Prop := {
  bl_length : Z.of_nat (length bs) = UNIT * (n - 1);
  bl_size : word_at (mem s) (p - 4) n;
  bl_bytes : holds (mem s) p bs;
  bl_mapped : mapped (mem s) (p - 8) (UNIT * n);
  bl_above : base + 16 <= p;
  bl_below : p + Z.of_nat (length bs) <= 2 ^ 31;
  bl_clear : clear_of fr (p - 8) n;
}.

Definition arena (fr : list (Z * Z)) (live : blocks) (s : @state M) : Prop := ring base fr s \/ (fr = [] /\ fresh base s) /\ live = ∅.

(** The blocks of the program are in memory, apart from each other and from the at most [k] free ones. *)
Definition heap_at (k : nat) (fr : list (Z * Z)) (live : blocks) (s : @state M) : Prop := arena fr live s /\ (length fr <= k)%nat /\
  (forall p bs, live !! p = Some bs -> exists n, block fr s p n bs) /\ (forall p bs q cs, live !! p = Some bs -> live !! q = Some cs -> p <> q -> separate p bs q cs).
Definition heap (k : nat) (live : blocks) (s : @state M) : Prop := exists fr, heap_at k fr live s.

Lemma bl_units fr s p n bs : block fr s p n bs -> 1 <= n.
Proof. intros Hb. pose proof (bl_length _ _ _ _ _ Hb). unfold UNIT in *. lia. Qed.

Lemma block_same fr s fr' s' p n bs : block fr s p n bs -> clear_of fr' (p - 8) n -> (forall x, p - 8 <= x < p + Z.of_nat (length bs) -> load8 (mem s') x = load8 (mem s) x) -> block fr' s' p n bs.
Proof.
  intros Hb Hc Hs. pose proof (bl_length _ _ _ _ _ Hb). split; try apply Hb; try exact Hc.
  - apply (word_keeps (mem s)); [apply Hb|]. intros x Hx. apply Hs. lia.
  - intros i x Hx. pose proof (lookup_lt_Some _ _ _ Hx). rewrite Hs by lia. exact (bl_bytes _ _ _ _ _ Hb i x Hx).
  - intros i Hi. rewrite Hs by (unfold UNIT in *; lia). apply (bl_mapped _ _ _ _ _ Hb i Hi).
Qed.

(** An address of a block is in memory, not free and not of the static header. *)
Lemma block_inside fr s p n bs x : block fr s p n bs -> p - 8 <= x < p + Z.of_nat (length bs) -> is_Some (load8 (mem s) x) /\ ~ covers fr x /\ ~ (base <= x < base + UNIT).
Proof.
  intros Hb Hx. pose proof (bl_length _ _ _ _ _ Hb). pose proof (bl_above _ _ _ _ _ Hb). split; [|split].
  - replace x with (p - 8 + (x - (p - 8))) by lia. apply (bl_mapped _ _ _ _ _ Hb). unfold UNIT in *. lia.
  - apply (bl_clear _ _ _ _ _ Hb). unfold UNIT in *. lia.
  - unfold UNIT. lia.
Qed.

Lemma mapped_holds (m : M) n : forall a, mapped m a (Z.of_nat n) -> exists bs, length bs = n /\ holds m a bs.
Proof.
  induction n as [|n IH]; intros a Hm; [exists []; split; [reflexivity|intros i x Hx; discriminate]|]. destruct (Hm 0 ltac:(lia)) as [b Hb]. rewrite Z.add_0_r in Hb.
  destruct (IH (a + 1)) as (bs & Hl & Hbs); [intros i Hi; replace (a + 1 + i) with (a + (i + 1)) by lia; apply Hm; lia|]. exists (b :: bs). split; [cbn; lia|].
  intros [|i] x Hx; cbn in Hx; [injection Hx as <-; replace (a + Z.of_nat 0) with a by lia; exact Hb|]. replace (a + Z.of_nat (S i)) with (a + 1 + Z.of_nat i) by lia. exact (Hbs i x Hx).
Qed.

Lemma arena_ring fr live s p bs : arena fr live s -> live !! p = Some bs -> ring base fr s.
Proof. intros [Hr|[_ ->]] Hp; [exact Hr|]. rewrite lookup_empty in Hp. discriminate. Qed.

(** Ranges without a common address. *)
Lemma no_common a n b k : 0 < n -> 0 < k -> (forall x, a <= x < a + n -> ~ (b <= x < b + k)) -> a + n <= b \/ b + k <= a.
Proof. intros Hn Hk Hx. specialize (Hx (Z.max a b)). lia. Qed.

Lemma separate_sym p bs q cs : separate p bs q cs -> separate q cs p bs.
Proof. unfold separate. tauto. Qed.

Lemma heap_allocated k fr live s nu s' fr' pa bs : (length fr' <= k)%nat -> 0 < nu -> (forall p bs, live !! p = Some bs -> exists n, block fr s p n bs) ->
  (forall p bs q cs, live !! p = Some bs -> live !! q = Some cs -> p <> q -> separate p bs q cs) -> allocated base fr nu s s' fr' pa ->
  Z.of_nat (length bs) = UNIT * (nu - 1) -> holds (mem s') (pa + UNIT) bs -> heap k (<[pa + UNIT := bs]> live) s' /\ forall q cs, live !! q = Some cs -> separate (pa + UNIT) bs q cs.
Proof.
  intros Hlen Hnu Hbl Hsep (A1 & A2 & A3 & A4 & A5 & A6 & A7 & A8 & A9 & A10) Hl Hbs.
  assert (Hnew : forall q cs, live !! q = Some cs -> separate (pa + UNIT) bs q cs).
  { intros q cs Hq. destruct (Hbl q cs Hq) as [n Hb]. pose proof (bl_units _ _ _ _ _ Hb). pose proof (bl_length _ _ _ _ _ Hb).
    destruct (no_common pa (UNIT * nu) (q - 8) (UNIT * n)) as [Hd|Hd]; [unfold UNIT; lia|unfold UNIT; lia| |left; unfold UNIT in *; lia|right; unfold UNIT in *; lia].
    intros x Hx Hq'. destruct (block_inside _ _ _ _ _ x Hb) as (I1 & I2 & _); [unfold UNIT in *; lia|]. destruct (A7 x Hx) as [Hc|Hc]; [auto|]. rewrite Hc in I1. destruct I1; discriminate. }
  split; [|exact Hnew]. exists fr'. split; [left; exact A1|]. split; [exact Hlen|]. split.
  - intros p cs [[<- <-]|[Hne Hp]]%lookup_insert_Some.
    + exists nu. unfold UNIT in *. split; try lia; try assumption; [replace (pa + 8 - 4) with (pa + 4) by lia; exact A2|replace (pa + 8 - 8) with pa by lia; exact A6|replace (pa + 8 - 8) with pa by lia; exact A3].
    + destruct (Hbl p cs Hp) as [n Hb]. exists n. pose proof (bl_length _ _ _ _ _ Hb). apply (block_same fr s); [exact Hb| |].
      * intros x Hx Hc. destruct (block_inside _ _ _ _ _ x Hb) as (I1 & I2 & _); [unfold UNIT in *; lia|]. destruct (A8 x Hc) as [Hc'|Hc']; [auto|]. rewrite Hc' in I1. destruct I1; discriminate.
      * intros x Hx. destruct (block_inside _ _ _ _ _ x Hb Hx) as (I1 & I2 & I3). apply A9; assumption.
  - intros p cs q ds [[<- <-]|[Hnp Hp]]%lookup_insert_Some [[<- <-]|[Hnq Hq]]%lookup_insert_Some Hpq; [congruence|exact (Hnew q ds Hq)|apply separate_sym, (Hnew p cs Hp)|exact (Hsep p cs q ds Hp Hq Hpq)].
Qed.

Lemma wp_heap_malloc k fr live nbytes fuel (Q : Z -> @state M -> Prop) s : heap_at k fr live s -> 0 <= nbytes <= 2 ^ 30 -> (3 * k + 4 <= fuel)%nat ->
  ((forall a n, (a, n) ∈ fr -> UNIT * (n - 1) < nbytes) -> forall s', heap k live s' -> Q 0 s') ->
  (forall p bs s', step live (Malloc nbytes) p (<[p := bs]> live) -> 0 < p -> nbytes <= Z.of_nat (length bs) -> heap (S k) (<[p := bs]> live) s' -> Q p s') -> wp (malloc base fuel nbytes) Q s.
Proof.
  intros (Ha & Hk & Hbl & Hsep) Hn Hf Hz HQ. apply (wp_malloc base fr nbytes fuel); [destruct Ha as [Hr|[Hr _]]; auto|exact Hn|lia|..]; set (nu := (nbytes + 7) / 8 + 1) in *;
    (assert (Hnu : 0 < nu /\ nbytes <= UNIT * (nu - 1) < nbytes + UNIT) by (unfold nu, UNIT; pose proof (Z.div_mod (nbytes + 7) 8 ltac:(lia)); pose proof (Z.mod_pos_bound (nbytes + 7) 8 ltac:(lia)); lia)).
  - intros s' Hall Hr Hs. apply Hz; [intros a n Han; specialize (Hall a n Han); unfold UNIT in *; lia|]. exists fr. split; [left; exact Hr|]. split; [lia|]. split; [|exact Hsep].
    intros p bs Hp. destruct (Hbl p bs Hp) as [n Hb]. exists n. apply (block_same fr s); [exact Hb|apply Hb|]. intros x Hx. apply Hs, (block_inside _ _ _ _ _ x Hb Hx).
  - intros fr' s' pa Hal Hlen. pose proof Hal as (_ & _ & _ & A4 & A5 & A6 & _). destruct (mapped_holds (mem s') (Z.to_nat (UNIT * (nu - 1))) (pa + UNIT)) as (bs & Hl & Hbs).
    { apply (mapped_part _ _ _ _ _ A6); unfold UNIT in *; lia. }
    destruct (heap_allocated (S k) fr live s nu s' fr' pa bs) as [Hh Hd]; try assumption; [lia|lia|unfold UNIT in *; lia|].
    assert (Hpos : 0 < pa + UNIT) by (destruct Ha as [Hr|[[_ (_ & Hb0 & _)] _]]; [pose proof (rg_base _ _ _ Hr)|]; unfold UNIT in *; lia).
    apply (HQ (pa + UNIT) bs); [apply step_malloc; [exact Hpos|unfold UNIT in *; lia|lia|exact Hd]|exact Hpos|lia|exact Hh].
Qed.

Lemma wp_heap_free k live p bs fuel (Q : unit -> @state M -> Prop) s : heap k live s -> live !! p = Some bs -> (2 * k + 4 <= fuel)%nat ->
  (forall fr' s', heap_at (S k) fr' (delete p live) s' -> (exists a n, (a, n) ∈ fr' /\ Z.of_nat (length bs) <= UNIT * (n - 1)) -> Q tt s') -> wp (free fuel p) Q s.
Proof.
  intros (fr & Ha & Hk & Hbl & Hsep) Hp Hf HQ. pose proof (arena_ring _ _ _ _ _ Ha Hp) as Hr. destruct (Hbl p bs Hp) as [n Hb]. pose proof (bl_units _ _ _ _ _ Hb). pose proof (bl_length _ _ _ _ _ Hb). pose proof (bl_above _ _ _ _ _ Hb). pose proof (bl_below _ _ _ _ _ Hb).
  replace p with (p - 8 + UNIT) at 1 by (unfold UNIT; lia). apply (wp_free base fr (p - 8) n); try assumption; try (unfold UNIT in *; lia).
  - replace (p - 8 + 4) with (p - 4) by lia. apply Hb.
  - apply Hb.
  - apply Hb.
  - intros fr' s' (Hr' & Hc & (a & j & Haj & Hnj) & Hlen & Hfr & Hm). apply (HQ fr'); [|exists a, j; split; [exact Haj|unfold UNIT in *; lia]]. split; [left; exact Hr'|]. split; [lia|]. split.
    + intros q cs [Hne Hq]%lookup_delete_Some. destruct (Hbl q cs Hq) as [i Hi]. exists i. pose proof (bl_units _ _ _ _ _ Hi). pose proof (bl_length _ _ _ _ _ Hi).
      assert (Hout : forall x, q - 8 <= x < q + Z.of_nat (length cs) -> ~ covers fr' x).
      { intros x Hx Hcx. destruct (block_inside _ _ _ _ _ x Hi Hx) as (_ & Hn & _). apply Hc in Hcx as [Hcx|Hcx]; [auto|]. destruct (Hsep p bs q cs Hp Hq Hne) as [Hd|Hd]; unfold UNIT in *; lia. }
      apply (block_same fr s); [exact Hi|intros x Hx; apply Hout; unfold UNIT in *; lia|]. intros x Hx. destruct (block_inside _ _ _ _ _ x Hi Hx) as (_ & _ & Hn). apply Hfr; [apply Hout, Hx|exact Hn].
    + intros q cs r ds [_ Hq]%lookup_delete_Some [_ Hrr]%lookup_delete_Some. apply Hsep; assumption.
Qed.

Lemma perform_write k live p i b bs s : heap k live s -> live !! p = Some bs -> (i < length bs)%nat ->
  wp (on_mem (store (p + Z.of_nat i) b)) (fun _ s' => heap (S k) (<[p := <[i := b]> bs]> live) s') s.
Proof.
  intros (fr & Ha & Hk & Hbl & Hsep) Hp Hi. destruct (Hbl p bs Hp) as [n Hb]. pose proof (bl_length _ _ _ _ _ Hb). set (x := p + Z.of_nat i). destruct (block_inside _ _ _ _ _ x Hb) as (I1 & I2 & I3); [unfold x; lia|].
  destruct (wp_store x b (fun _ m' => load8 m' x = Some b /\ forall y, y <> x -> load8 m' y = load8 (mem s) y) (mem s) I1) as ([] & m & E & Hx & Hs); [auto|].
  exists tt, (State m (freep s)). split; [unfold on_mem; rewrite E; reflexivity|]. exists fr. split; [|split; [lia|split]].
  - left. apply ring_frame; [exact (arena_ring _ _ _ _ _ Ha Hp)|]. intros y [Hy|Hy]; apply Hs; congruence.
  - intros q cs [[<- <-]|[Hne Hq]]%lookup_insert_Some.
    + exists n. split; cbn [mem]; rewrite ?length_insert; try apply Hb.
      * apply (word_keeps (mem s)); [apply Hb|]. intros y Hy. apply Hs. unfold x. lia.
      * intros j v Hv. apply list_lookup_insert_Some in Hv as [(<- & <- & _)|(Hne & Hv)]; [exact Hx|]. rewrite Hs by (unfold x; lia). exact (bl_bytes _ _ _ _ _ Hb j v Hv).
      * intros j Hj. destruct (decide (p - 8 + j = x)) as [->|Hne]; [rewrite Hx; eauto|]. rewrite Hs by exact Hne. apply (bl_mapped _ _ _ _ _ Hb j Hj).
    + destruct (Hbl q cs Hq) as [j Hj]. exists j. apply (block_same fr s); [exact Hj|apply Hj|]. intros y Hy. apply Hs. destruct (Hsep p bs q cs Hp Hq Hne); unfold x; lia.
  - intros q cs r ds [[<- <-]|[Hnq Hq]]%lookup_insert_Some [[<- <-]|[Hnr Hr]]%lookup_insert_Some Hqr; [congruence|..]; unfold separate; rewrite ?length_insert; apply Hsep; assumption.
Qed.

Lemma perform_read k live p i bs v s : heap k live s -> live !! p = Some bs -> bs !! i = Some v -> on_mem (load (p + Z.of_nat i)) s = Ok (v, s).
Proof.
  intros (fr & _ & _ & Hbl & _) Hp Hv. destruct (Hbl p bs Hp) as [n Hb]. pose proof (bl_bytes _ _ _ _ _ Hb i v Hv) as Hl. unfold on_mem, load, lift_opt. rewrite Hl. destruct s. reflexivity.
Qed.

Lemma heap_mono k k' live s : heap k live s -> (k <= k')%nat -> heap k' live s.
Proof. intros (fr & Ha & Hk & Hrest) Hle. exists fr. split; [exact Ha|]. split; [lia|exact Hrest]. Qed.

(** Every legal operation returns, with an answer of the specification. *)
Lemma wp_perform k live o fuel s : heap k live s -> legal live o -> (3 * k + 4 <= fuel)%nat -> wp (perform fuel o) (fun r s' => exists live', step live o r live' /\ heap (S k) live' s') s.
Proof.
  intros Hh Hl Hf. destruct o as [nbytes|p|p i b|p i]; cbn [perform legal] in *.
  - destruct Hh as [fr Hh]. apply (wp_heap_malloc k fr live nbytes fuel _ s Hh Hl Hf).
    + intros _ s' Hh'. exists live. split; [apply step_no_memory|apply (heap_mono k); [exact Hh'|lia]].
    + intros p bs s' Hstep _ _ Hh'. eauto.
  - destruct Hl as [bs Hp]. apply wp_bind, (wp_heap_free k live p bs fuel _ s Hh Hp); [lia|]. intros fr' s' Hh' _. apply wp_ret. exists (delete p live). split; [apply step_free; eauto|exists fr'; exact Hh'].
  - destruct Hl as (bs & Hp & Hi). apply wp_bind. eapply wp_mono; [exact (perform_write k live p i b bs s Hh Hp Hi)|]. intros [] s' Hh'. apply wp_ret. eexists. split; [apply step_write; eassumption|exact Hh'].
  - destruct Hl as (bs & Hp & Hi). apply lookup_lt_is_Some in Hi as [v Hv]. exists v, s. split; [exact (perform_read k live p i bs v s Hh Hp Hv)|]. exists live. split; [eapply step_read; eassumption|]. apply (heap_mono k); [exact Hh|lia].
Qed.

Lemma wp_run c n fuel : forall j k rs live s, well_behaved c (k + j) -> trace c k rs live -> heap k live s -> (3 * (k + j) + 4 <= fuel)%nat -> n = (k + j)%nat ->
  wp (run fuel j c rs) (fun rs' s' => exists live', trace c n rs' live' /\ heap n live' s') s.
Proof.
  induction j as [|j IH]; intros k rs live s Hw Ht Hh Hf ->.
  - apply wp_ret. exists live. rewrite Nat.add_0_r. auto.
  - cbn [run]. apply wp_bind. eapply wp_mono; [apply (wp_perform k live (c rs) fuel s Hh); [apply (Hw k rs live); [lia|exact Ht]|lia]|].
    intros r s' (live' & Hstep & Hh'). apply (IH (S k) (rs ++ [r]) live' s'); [replace (S k + j)%nat with (k + S j)%nat by lia; exact Hw|eapply trace_step; eassumption|exact Hh'|lia|lia].
Qed.

Lemma heap_fresh s : fresh base s -> heap 0 ∅ s.
Proof.
  intros Hf. exists []. split; [right; auto|]. split; [reflexivity|]. split; [intros p bs Hp|intros p bs q cs Hp]; rewrite lookup_empty in Hp; discriminate.
Qed.

(** C12: The allocator implements the store of separate blocks.  From the first call on, a program of any number of operations which frees and uses only blocks it was given runs to its end: no call
    of [malloc] or [free] faults or loops, a block from [malloc] has at least the bytes asked for and meets no other block of the program, and a byte read from a block is the one last written to it,
    whatever was allocated and freed in between. *)
Theorem allocator_refines c n fuel s : fresh base s -> well_behaved c n -> (3 * n + 4 <= fuel)%nat ->
  wp (run fuel n c []) (fun rs s' => exists live, trace c n rs live /\ forall p bs, live !! p = Some bs -> holds (mem s') p bs) s.
Proof.
  intros Hs Hw Hf. eapply wp_mono; [apply (wp_run c n fuel n 0 [] ∅ s); [exact Hw|apply trace_start|apply heap_fresh, Hs|exact Hf|reflexivity]|].
  intros rs s' (live & Ht & fr & _ & _ & Hbl & _). exists live. split; [exact Ht|]. intros p bs Hp. destruct (Hbl p bs Hp) as [m Hb]. apply Hb.
Qed.

(** Memory given back can be had again.  After [free] of a block, a request for at most as many bytes gets a block, whether or not [sbrk] has more memory. *)
Theorem malloc_after_free k live p bs nbytes fuel s : heap k live s -> live !! p = Some bs -> 0 <= nbytes <= Z.of_nat (length bs) -> nbytes <= 2 ^ 30 -> (3 * k + 7 <= fuel)%nat ->
  wp (free fuel p ;; malloc base fuel nbytes) (fun r s' => 0 < r /\ exists cs, nbytes <= Z.of_nat (length cs) /\ heap (S (S k)) (<[r := cs]> (delete p live)) s') s.
Proof.
  intros Hh Hp Hn Hn30 Hf. apply wp_bind, (wp_heap_free k live p bs fuel _ s Hh Hp); [lia|]. intros fr' s' Hh' (a & n & Ha & Hlen). apply (wp_heap_malloc (S k) fr' (delete p live) nbytes fuel _ s' Hh'); [lia|lia|..].
  - intros Hall. specialize (Hall a n Ha). lia.
  - intros r cs s2 _ Hr Hcs Hh2. eauto.
Qed.
End refines.
End UmallocRefines.

(** * A program whose memory is one array, which [sbrk] makes longer *)
Module UmallocDemo.
Import Umalloc UmallocFacts UmallocSpec UmallocRefines.

Record flat := Flat { bytes : list Z }.
Definition flat_load (m : flat) (a : Z) : option Z := if 0 <=? a then bytes m !! Z.to_nat a else None.
Definition flat_store (m : flat) (a v : Z) : option flat :=
  if (0 <=? a) && (a <? Z.of_nat (length (bytes m))) then Some (Flat (<[Z.to_nat a := v]> (bytes m))) else None.

#[export] Instance flat_memory : Memory flat.
Proof.
  refine {| load8 := flat_load; store8 := flat_store |}.
  - intros [m] m' a v. unfold flat_store, flat_load. cbn [bytes]. destruct (Z.leb_spec 0 a), (Z.ltb_spec a (Z.of_nat (length m))); cbn [andb]; try discriminate. intros [= <-]. cbn [bytes]. apply list_lookup_insert_eq. lia.
  - intros [m] m' a b v. unfold flat_store, flat_load. cbn [bytes]. destruct (Z.leb_spec 0 a), (Z.ltb_spec a (Z.of_nat (length m))); cbn [andb]; try discriminate. intros [= <-] Hne. cbn [bytes].
    destruct (Z.leb_spec 0 b); [|reflexivity]. apply list_lookup_insert_ne. lia.
  - intros [m] a v [x Hx]. unfold flat_store, flat_load in *. cbn [bytes] in *. destruct (Z.leb_spec 0 a); [|discriminate]. apply lookup_lt_Some in Hx. rewrite (proj2 (Z.ltb_lt _ _)) by lia. cbn [andb]. eauto.
Defined.

Definition flat_sbrk (n : Z) : K flat (option Z) := fun m =>
  let sz := Z.of_nat (length (bytes m)) in
  if (0 <? sz) && (sz + n <? 2 ^ 31) then Ok (Some sz, Flat (bytes m ++ replicate (Z.to_nat n) 0)) else Ok (None, m).

Lemma flat_sbrk_law n m : 0 <= n < 2 ^ 31 -> wp (flat_sbrk n) (fun r m' =>
    match r with
    | None => m' = m
    | Some p => 0 < p /\ p + n < 2 ^ 31 /\ (forall a, is_Some (load8 m a) -> a < p) /\ same_outside m m' p n /\ mapped m' p n
    end) m.
Proof.
  intros Hn. unfold wp, flat_sbrk. destruct m as [m]. cbn [bytes]. destruct (Z.ltb_spec 0 (Z.of_nat (length m))), (Z.ltb_spec (Z.of_nat (length m) + n) (2 ^ 31)); cbn [andb]; try (eexists _, _; split; [reflexivity|reflexivity]).
  eexists _, _. split; [reflexivity|]. cbn beta iota. split; [lia|]. split; [lia|]. split; [|split].
  - intros a [x Hx]. cbn in Hx. unfold flat_load in Hx. cbn [bytes] in Hx. destruct (Z.leb_spec 0 a); [|discriminate]. apply lookup_lt_Some in Hx. lia.
  - intros a Ha. cbn. unfold flat_load. cbn [bytes]. destruct (Z.leb_spec 0 a); [|reflexivity]. destruct (decide (a < Z.of_nat (length m))); [apply lookup_app_l; lia|]. rewrite !lookup_ge_None_2; [reflexivity|lia|rewrite length_app, length_replicate; lia].
  - intros i Hi. cbn. unfold flat_load. cbn [bytes]. rewrite (proj2 (Z.leb_le _ _)) by lia. apply lookup_lt_is_Some. rewrite length_app, length_replicate. lia.
Qed.
#[export] Instance flat_program : Program flat := { sbrk := flat_sbrk; law_sbrk := flat_sbrk_law }.

Lemma holds_flat m a bs : 0 <= a -> take (length bs) (drop (Z.to_nat a) m) = bs -> holds (Flat m) a bs.
Proof.
  intros Ha E i x Hx. cbn. unfold flat_load. cbn [bytes]. rewrite (proj2 (Z.leb_le _ _)) by lia. rewrite <- E in Hx. apply lookup_take_Some in Hx as [Hx _]. rewrite lookup_drop in Hx. rewrite <- Hx. f_equal. lia.
Qed.

Lemma mapped_flat m a n : 0 <= a -> a + n <= Z.of_nat (length m) -> mapped (Flat m) a n.
Proof. intros Ha Hn i Hi. cbn. unfold flat_load. cbn [bytes]. rewrite (proj2 (Z.leb_le _ _)) by lia. apply lookup_lt_is_Some. lia. Qed.

(** A program that gets a block, writes a byte, reads it and frees the block. *)
Definition program (rs : list Z) : op :=
  match rs with
  | [] => Malloc 24
  | r :: rs' => if r =? 0 then Malloc 1 else match rs' with [] => Write r 3 7 | [_] => Read r 3 | _ => Free r end
  end.

Lemma program_well_behaved : well_behaved program 4.
Proof.
  intros k rs live Hk Ht.
  assert (Hinv : rs = [] \/ exists r rs', rs = r :: rs' /\ (r = 0 \/ ((length rs' < 3)%nat -> exists bs, live !! r = Some bs /\ (3 < length bs)%nat)) /\ S (length rs') = k).
  { clear Hk. induction Ht as [|n rs live r live' Ht IH Hs]; [auto|]. right. destruct IH as [->|(r0 & rs' & -> & Hr & Hl)].
    - exists r, []. split; [reflexivity|]. inversion Ht as [E1 E2 E3|? rs0 ? r0 ? ? ? E1 E2]; [|apply app_eq_nil in E2 as [_ E2]; discriminate]. split; [|reflexivity]. cbn [program] in Hs. inversion Hs as [? ? bs ? ? Hb Hd E|? E| | |]; subst; [|left; reflexivity].
      right. intros _. exists bs. rewrite lookup_insert_eq. split; [reflexivity|lia].
    - exists r0, (rs' ++ [r]). split; [reflexivity|]. rewrite length_app. cbn [length]. split; [|lia]. destruct Hr as [->|Hr]; [left; reflexivity|]. cbn [program] in Hs. destruct (Z.eqb_spec r0 0) as [->|Hne]; [left; reflexivity|]. right. intros Hlen.
      destruct rs' as [|r1 [|r2 rs']]; cbn [length] in Hlen; [| |lia]; destruct Hr as (bs & Hbs & H3); [cbn; lia| |cbn; lia|].
      + inversion Hs as [| | |? ? ? cs Hcs Hi|]; subst. exists (<[3%nat := 7]> cs). rewrite lookup_insert_eq, length_insert. split; [reflexivity|exact Hi].
      + inversion Hs; subst. eauto. }
  destruct Hinv as [->|(r & rs' & -> & Hr & Hl)]; [cbn; lia|]. cbn [program]. destruct (Z.eqb_spec r 0) as [->|Hne]; [cbn; lia|]. destruct Hr as [->|Hr]; [lia|]. destruct Hr as (bs & Hbs & H3); [lia|].
  destruct rs' as [|r1 [|r2 rs']]; cbn [legal]; eauto.
Qed.

Definition start : @state flat := State (Flat (replicate 64 0)) 0.

Lemma allocator_refines_witness : wp (run 16 16 4 program []) (fun rs s' => exists live, trace program 4 rs live /\ forall p bs, live !! p = Some bs -> holds (mem s') p bs) start.
Proof.
  apply (allocator_refines 16 program 4 16 start); [|exact program_well_behaved|lia]. split; [reflexivity|]. split; [lia|]. split; [unfold UNIT; lia|]. apply mapped_flat; [lia|unfold UNIT; cbn; lia].
Defined.

(** One block of 16 bytes, at 32, and no free block. *)
Definition one_block : @state flat := State (Flat (replicate 16 0 ++ le_bytes 4 16 ++ le_bytes 4 0 ++ le_bytes 4 0 ++ le_bytes 4 3 ++ replicate 32 5)) 16.

Lemma one_block_heap : heap 16 0 {[32 := replicate 16 5]} one_block.
Proof.
  exists []. split; [left; apply ring_init; try (unfold UNIT; lia); apply holds_flat; [lia|reflexivity|lia|reflexivity]|]. split; [reflexivity|]. split.
  - intros p bs [<- <-]%lookup_singleton_Some. exists 3. split; try (cbn; unfold UNIT; lia).
    + apply holds_flat; [lia|reflexivity].
    + apply holds_flat; [lia|reflexivity].
    + apply mapped_flat; [lia|cbn; unfold UNIT; lia].
    + intros x Hx (a & n & Ha & _). inversion Ha.
  - intros p bs q cs [<- <-]%lookup_singleton_Some [<- <-]%lookup_singleton_Some Hpq. congruence.
Qed.

Lemma malloc_after_free_witness : wp (free 16 32 ;; malloc 16 16 16) (fun r s' => 0 < r /\ exists cs, 16 <= Z.of_nat (length cs) /\ heap 16 2 (<[r := cs]> (delete 32 {[32 := replicate 16 5]})) s') one_block.
Proof.
  apply (malloc_after_free 16 0 {[32 := replicate 16 5]} 32 (replicate 16 5) 16 16 one_block); [exact one_block_heap|apply lookup_singleton_eq|cbn; lia|lia|lia].
Defined.
End UmallocDemo.
