(* ===== verification/Spinlock.v ===== *)
(** Spin locks and interrupt nesting (spinlock.c).

    [acquire] and [release] are lists of steps, each with one access to the lock.  The first part runs
    such a list on one CPU; the second part interleaves the same steps of several CPUs and shows
    mutual exclusion and that [holding] is accurate. *)

From S2P Require Import Prelude.

Module Spinlock.

(** The fields of [struct cpu] these routines use, and the interrupt flag of
    the processor. *)
Record cpu := Cpu { ncli : Z; intena : bool; fl_if : bool }.

(** [struct spinlock] without the call stack kept for debugging; [lk_cpu] is
    the CPU recorded as the holder. *)
Record spinlock := Lock { name : string; locked : Z; lk_cpu : option Z }.

Definition initlock (nm : string) : spinlock := Lock nm 0 None.

Definition holding (me : Z) (lk : spinlock) : bool :=
  negb (locked lk =? 0) && bool_decide (lk_cpu lk = Some me).

Definition pushcli (c : cpu) : cpu :=
  let eflags := fl_if c in
  Cpu (ncli c + 1) (if ncli c =? 0 then eflags else intena c) false.

Definition popcli (c : cpu) : res cpu :=
  if fl_if c then Panic "popcli - interruptible"
  else
    let n := ncli c - 1 in
    if n <? 0 then Panic "popcli"
    else Ok (Cpu n (intena c) (if (n =? 0) && intena c then true else fl_if c)).

(** The steps of the two routines.  [lock->locked] and [lock->cpu] of [holding] are read one after the other; the
    call stack kept for debugging is left out. *)
Inductive instr :=
  | APush      (** [pushcli()] *)
  | ALocked    (** [holding(lk)] of [acquire]: read [lk->locked] *)
  | ACpu       (** the same: read [lk->cpu], and [panic("acquire")] *)
  | AXchg      (** one round of [while (xchg(&lk->locked, 1) != 0)] *)
  | ARecord    (** [lk->cpu = cpu] *)
  | RLocked    (** [!holding(lk)] of [release]: read [lk->locked] *)
  | RCpu       (** the same: read [lk->cpu] *)
  | RForget    (** [lk->cpu = 0] *)
  | RUnlock    (** [lk->locked = 0] *)
  | RPop.      (** [popcli()] *)
#[export] Instance instr_eq_dec : EqDecision instr.
Proof. solve_decision. Defined.

Definition acquire_code : list instr := [APush; ALocked; ACpu; AXchg; ARecord].
Definition release_code : list instr := [RLocked; RCpu; RForget; RUnlock; RPop].

(** [xchg(&lk->locked, new)]: the old value, and the lock with the new one. *)
Definition xchg (new : Z) (lk : spinlock) : Z * spinlock := (locked lk, Lock (name lk) new (lk_cpu lk)).

Inductive effect :=
  | Next (lk : spinlock) (c : cpu)     (** go on *)
  | Skip (lk : spinlock) (c : cpu)     (** go on after the next step *)
  | Again (lk : spinlock) (c : cpu)    (** repeat this step *)
  | Stop (msg : string).

Definition perform (me : Z) (x : instr) (lk : spinlock) (c : cpu) : effect :=
  match x with
  | APush => Next lk (pushcli c)
  | ALocked => if locked lk =? 0 then Skip lk c else Next lk c
  | ACpu => if bool_decide (lk_cpu lk = Some me) then Stop "acquire" else Next lk c
  | AXchg => let '(old, lk) := xchg 1 lk in if negb (old =? 0) then Again lk c else Next lk c
  | ARecord => Next (Lock (name lk) (locked lk) (Some me)) c
  | RLocked => if locked lk =? 0 then Stop "release" else Next lk c
  | RCpu => if bool_decide (lk_cpu lk = Some me) then Next lk c else Stop "release"
  | RForget => Next (Lock (name lk) (locked lk) None) c
  | RUnlock => Next (Lock (name lk) 0 (lk_cpu lk)) c
  | RPop => match popcli c with Ok c => Next lk c | Panic msg => Stop msg | _ => Stop "popcli" end
  end.

(** A CPU alone.  A step it would repeat finds the lock as before: the CPU spins. *)
Fixpoint run_code (me : Z) (code : list instr) (lk : spinlock) (c : cpu) : res (spinlock * cpu) :=
  match code with
  | [] => Ok (lk, c)
  | x :: code =>
      match perform me x lk c with
      | Next lk c => run_code me code lk c
      | Skip lk c => match code with [] => Ok (lk, c) | _ :: code => run_code me code lk c end
      | Again _ _ => Spin
      | Stop msg => Panic msg
      end
  end.
Definition acquire (me : Z) (lk : spinlock) (c : cpu) : res (spinlock * cpu) := run_code me acquire_code lk c.
Definition release (me : Z) (lk : spinlock) (c : cpu) : res (spinlock * cpu) := run_code me release_code lk c.

(** What they do when no other CPU comes between their steps. *)
Lemma acquire_eq me lk c : acquire me lk c =
  if holding me lk then Panic "acquire" else if locked lk =? 0 then Ok (Lock (name lk) 1 (Some me), pushcli c) else Spin.
Proof.
  unfold acquire, acquire_code, holding. cbn [run_code perform xchg]. destruct (locked lk =? 0) eqn:E; cbn [negb andb].
  - rewrite E. reflexivity.
  - destruct (bool_decide _); rewrite ?E; reflexivity.
Qed.
Lemma release_eq me lk c : release me lk c =
  if negb (holding me lk) then Panic "release" else c ← popcli c; Ok (Lock (name lk) 0 None, c).
Proof.
  unfold release, release_code, holding. cbn [run_code perform]. destruct (locked lk =? 0); cbn [negb andb]; [reflexivity|].
  destruct (bool_decide _); cbn [negb]; [|reflexivity]. unfold popcli. destruct (fl_if c); [reflexivity|]. cbn [locked name lk_cpu].
  destruct (_ <? 0); reflexivity.
Qed.

(** * Facts for one CPU *)

(** Interrupts are off whenever some [pushcli] is outstanding. *)
Definition cpu_ok (c : cpu) : Prop := 0 <= ncli c /\ (0 < ncli c -> fl_if c = false).

(** Equal up to [intena], which is dead when no [pushcli] is outstanding. *)
Definition cpu_same (c c' : cpu) : Prop :=
  ncli c' = ncli c /\ fl_if c' = fl_if c /\ (0 < ncli c -> intena c' = intena c).

Lemma cpu_same_refl c : cpu_same c c.
Proof. repeat split. Qed.

Lemma cpu_same_trans c1 c2 c3 : cpu_same c1 c2 -> cpu_same c2 c3 -> cpu_same c1 c3.
Proof.
  intros (A1 & A2 & A3) (B1 & B2 & B3). repeat split; [congruence..|].
  intros H. rewrite B3 by (rewrite A1; exact H). auto.
Qed.

Lemma cpu_same_ok c c' : cpu_same c c' -> cpu_ok c -> cpu_ok c'.
Proof. intros (A1 & A2 & A3) [B1 B2]. split; rewrite A1, ?A2; auto. Qed.

Lemma pushcli_same c c' : cpu_same c c' -> cpu_same (pushcli c) (pushcli c').
Proof.
  intros (A1 & A2 & A3). unfold cpu_same, pushcli; cbn. rewrite A1, A2. repeat split. destruct (ncli c =? 0) eqn:E; [reflexivity|].
  intros H. apply A3. lia.
Qed.

Lemma pushcli_ok c : cpu_ok c -> cpu_ok (pushcli c) /\ 0 < ncli (pushcli c).
Proof. intros [H1 H2]. unfold pushcli, cpu_ok; simpl. repeat split; auto; lia. Qed.

Lemma popcli_pushcli c c1 : cpu_ok c -> cpu_same (pushcli c) c1 ->
  exists c', popcli c1 = Ok c' /\ cpu_same c c'.
Proof.
  intros [H1 H2] (A1 & A2 & A3). simpl in A1, A2, A3. specialize (A3 ltac:(lia)).
  unfold popcli. rewrite A2, A1. replace (ncli c + 1 - 1) with (ncli c) by lia.
  replace (ncli c <? 0) with false by lia. eexists. split; [reflexivity|].
  unfold cpu_same; simpl. rewrite A3. destruct (ncli c =? 0) eqn:E; simpl.
  - repeat split; [|lia]. destruct (fl_if c); reflexivity.
  - repeat split. symmetry. apply H2. lia.
Qed.

Lemma acquire_free me lk c : locked lk = 0 ->
  acquire me lk c = Ok (Lock (name lk) 1 (Some me), pushcli c).
Proof. intros H. rewrite acquire_eq. unfold holding. rewrite H. reflexivity. Qed.

Lemma release_held me nm c c1 : cpu_ok c -> cpu_same (pushcli c) c1 ->
  exists c', release me (Lock nm 1 (Some me)) c1 = Ok (Lock nm 0 None, c') /\ cpu_same c c'.
Proof.
  intros H H1. destruct (popcli_pushcli c c1 H H1) as (c' & E & Hs).
  exists c'. rewrite release_eq. unfold holding; simpl. rewrite bool_decide_eq_true_2 by reflexivity.
  simpl. rewrite E. auto.
Qed.

(** [n] nested calls. *)
Definition pushcli_n (n : nat) (c : cpu) : cpu := Nat.iter n pushcli c.
Fixpoint popcli_n (n : nat) (c : cpu) : res cpu :=
  match n with
  | O => Ok c
  | S n => c ← popcli c; popcli_n n c
  end.

Lemma pushcli_n_ok n c : cpu_ok c -> cpu_ok (pushcli_n n c).
Proof. intros H. induction n; simpl; [exact H|apply pushcli_ok, IHn]. Qed.

Lemma popcli_n_pushcli_n n c c1 : cpu_ok c -> cpu_same (pushcli_n n c) c1 ->
  exists c', popcli_n n c1 = Ok c' /\ cpu_same c c'.
Proof.
  intros H. revert c1. induction n as [|n IH]; intros c1 H1; simpl in *.
  - eauto.
  - destruct (popcli_pushcli (pushcli_n n c) c1 (pushcli_n_ok n c H) H1) as (c2 & E & Hs).
    rewrite E. apply IH, Hs.
Qed.

End Spinlock.

(** * Several CPUs *)

Module Smp.
Import Spinlock.

(** A CPU that uses the lock: the steps left of the routine it is in, whether that is [acquire], whether it has the
    lock by the last routine it finished, the panic that stopped it, and its interrupt state. *)
Record thread := Thread { todo : list instr; entering : bool; inside : bool; stopped : option string; tcpu : cpu }.
Definition call (code : list instr) (acq : bool) (t : thread) : thread := Thread code acq (inside t) (stopped t) (tcpu t).
(** After some steps, with [code] left. *)
Definition goes_on (code : list instr) (c : cpu) (t : thread) : thread :=
  Thread code (entering t) (if bool_decide (code = []) then entering t else inside t) (stopped t) c.
Definition stop (msg : string) (t : thread) : thread := Thread (todo t) (entering t) (inside t) (Some msg) (tcpu t).

Record sys := Sys { lk : spinlock; threads : Z -> thread }.
Definition put (l : spinlock) (i : Z) (t : thread) (s : sys) : sys := Sys l (fun j => if decide (j = i) then t else threads s j).

(** One step of CPU [i]: it calls one of the routines, whether that is right or not, or takes the next step of the
    one it is in. *)
Inductive step : sys -> sys -> Prop :=
  | step_acquire s i : stopped (threads s i) = None -> todo (threads s i) = [] ->
      step s (put (lk s) i (call acquire_code true (threads s i)) s)
  | step_release s i : stopped (threads s i) = None -> todo (threads s i) = [] ->
      step s (put (lk s) i (call release_code false (threads s i)) s)
  | step_next s i x code : stopped (threads s i) = None -> todo (threads s i) = x :: code ->
      step s (match perform i x (lk s) (tcpu (threads s i)) with
              | Next l c => put l i (goes_on code c (threads s i)) s
              | Skip l c => put l i (goes_on (tail code) c (threads s i)) s
              | Again l c => put l i (goes_on (x :: code) c (threads s i)) s
              | Stop msg => put (lk s) i (stop msg (threads s i)) s
              end).

Definition idle (c : cpu) : thread := Thread [] false false None c.
Inductive reachable (nm : string) (cs : Z -> cpu) : sys -> Prop :=
  | reach_init : reachable nm cs (Sys (initlock nm) (fun i => idle (cs i)))
  | reach_step s s' : reachable nm cs s -> step s s' -> reachable nm cs s'.

(** The CPU has the lock: from the [xchg] that finds 0 to [lk->locked = 0]. *)
Definition owns (t : thread) : bool :=
  if inside t then entering t || bool_decide (RUnlock ∈ todo t) else bool_decide (todo t = [ARecord]).
(** It is in the critical section. *)
Definition critical (t : thread) : bool := inside t && bool_decide (todo t = []).
(** It is recorded in the lock. *)
Definition records (t : thread) : bool := inside t && (entering t || bool_decide (RForget ∈ todo t)).
(** The calls of [pushcli] it has made and not yet matched. *)
Definition depth (t : thread) : nat :=
  (if inside t then 1 else 0) + if entering t && negb (bool_decide (todo t ∈ [acquire_code; []])) then 1 else 0.

(** Where a CPU can be. *)
Definition places (ins ent : bool) : list (list instr) :=
  match ins, ent with
  | false, true => [acquire_code; drop 1 acquire_code; drop 2 acquire_code; drop 3 acquire_code; drop 4 acquire_code]
  | false, false => [[]; release_code; drop 1 release_code]
  | true, true => [[]; acquire_code; drop 1 acquire_code; drop 2 acquire_code]
  | true, false => [release_code; drop 1 release_code; drop 2 release_code; drop 3 release_code; drop 4 release_code]
  end.

(** A CPU by itself; [c0] is its interrupt state at the start. *)
Record thread_ok (c0 : cpu) (t : thread) : Prop := {
  th_place : bool_decide (todo t ∈ places (inside t) (entering t)) = true;
  th_cpu : cpu_same (pushcli_n (depth t) c0) (tcpu t);
  th_stopped : forall m, stopped t = Some m -> m = "acquire" /\ inside t = true \/ m = "release" /\ inside t = false;
}.

(** The inductive invariant. *)
Record lock_inv (cs : Z -> cpu) (s : sys) : Prop := {
  inv_thread : forall i, thread_ok (cs i) (threads s i);
  inv_unique : forall i j, owns (threads s i) = true -> owns (threads s j) = true -> i = j;
  inv_locked : forall i, owns (threads s i) = true -> locked (lk s) = 1;
  inv_word : locked (lk s) = 0 \/ locked (lk s) = 1;
  inv_free : locked (lk s) = 1 -> exists i, owns (threads s i) = true;
  inv_holder : forall i, lk_cpu (lk s) = Some i <-> records (threads s i) = true;
}.

Lemma init_inv nm cs : lock_inv cs (Sys (initlock nm) (fun i => idle (cs i))).
Proof.
  split; cbn; try discriminate; auto; [|split; discriminate].
  intros i. split; cbn; [reflexivity|apply cpu_same_refl|discriminate].
Qed.

(** The machine from here on; interrupts are off on a CPU while it has calls of [pushcli] to match. *)
Section Smp.
Context (cs : Z -> cpu) (Hcs : forall i, cpu_ok (cs i)).

Lemma records_owns c0 t : thread_ok c0 t -> records t = true -> owns t = true.
Proof.
  intros [H _ _]. apply bool_decide_eq_true in H. unfold records, owns.
  destruct t as [td [] [] stp c]; cbn [inside entering todo andb orb places] in *; try done.
  repeat (apply elem_of_cons in H as [->|H]; [vm_compute; auto|]). inversion H.
Qed.

(** A move of CPU [i] keeps the invariant when the lock word and the holder
    change with the CPU's ownership. *)
Lemma move_inv s i t l :
  lock_inv cs s -> thread_ok (cs i) t ->
  (owns t = true -> owns (threads s i) = true \/ locked (lk s) = 0) ->
  (locked l = 0 \/ locked l = 1) ->
  (owns t = true -> locked l = 1) ->
  (owns t = false -> owns (threads s i) = false -> locked (lk s) = 1 -> locked l = 1) ->
  (locked l = 1 -> owns t = false -> owns (threads s i) = false /\ locked (lk s) = 1) ->
  (records t = true -> lk_cpu l = Some i) ->
  (records t = false -> lk_cpu l <> Some i) ->
  (lk_cpu l = lk_cpu (lk s) \/ owns (threads s i) = true /\ (lk_cpu l = None \/ lk_cpu l = Some i)) ->
  lock_inv cs (put l i t s).
Proof.
  intros [Ht Hu Hl Hw Hf Hh] Hok H1 H3 H4 H5 H9 H6 H7 H8.
  assert (Hother : forall j, j <> i -> owns (threads s j) = true -> owns t = false /\ owns (threads s i) = false).
  { intros j Hj Hoj. split; apply not_true_iff_false; intros Ho.
    - destruct (H1 Ho) as [Hi|H0]; [apply Hj, Hu; assumption|]. pose proof (Hl j Hoj). lia.
    - apply Hj, Hu; assumption. }
  split; cbn [put lk threads].
  - intros j. case_decide; subst; auto.
  - intros j1 j2. case_decide as E1; case_decide as E2; intros Ho1 Ho2; subst; auto.
    + destruct (Hother j2 E2 Ho2). congruence.
    + destruct (Hother j1 E1 Ho1). congruence.
  - intros j. case_decide as E; [auto|]. intros Ho.
    destruct (Hother j E Ho). eauto.
  - exact H3.
  - intros Hone. destruct (owns t) eqn:Eo; [exists i; rewrite decide_True by reflexivity; exact Eo|].
    destruct (H9 Hone eq_refl) as [Hi H0]. destruct (Hf H0) as [j Hj]. exists j. rewrite decide_False; [exact Hj|congruence].
  - intros j. case_decide as E.
    + subst j. destruct (records t) eqn:Er; [split; auto|]. split; [|discriminate].
      intros Hc. destruct (H7 eq_refl Hc).
    + destruct H8 as [->|[Hi [Hc|Hc]]]; [apply Hh| |]; rewrite Hc.
      * split; [discriminate|]. intros Hr. exfalso. apply E, Hu; eauto using records_owns.
      * split; [congruence|]. intros Hr. exfalso. apply E, Hu; eauto using records_owns.
Qed.

(** The lock is not touched, and the CPU keeps what it has of it. *)
Lemma still_inv s i t : lock_inv cs s -> thread_ok (cs i) t -> owns t = owns (threads s i) -> records t = records (threads s i) ->
  lock_inv cs (put (lk s) i t s).
Proof.
  intros I Hok Ho Hr. pose proof I as [Ht Hu Hl Hw Hf Hh]. apply move_inv; auto; rewrite ?Ho, ?Hr; auto.
  - apply Hl.
  - apply Hh.
  - intros Hn Hc. apply Hh in Hc. congruence.
Qed.

(** The cases of a CPU's place. *)
Ltac place H :=
  first [apply elem_of_cons in H as [H|H]; [try (discriminate H || (vm_compute in H; injection H as -> ->))|place H] | inversion H].
(** A CPU by itself after a step: its place by computation. *)
Ltac thread :=
  split; cbn [goes_on call stop todo entering inside stopped tcpu];
  [reflexivity|try assumption|try discriminate; try (intros ? [= <-]; first [left; split; reflexivity|right; split; reflexivity])].

Lemma next_inv s i x code : lock_inv cs s -> stopped (threads s i) = None -> todo (threads s i) = x :: code ->
  lock_inv cs (match perform i x (lk s) (tcpu (threads s i)) with
            | Next l c => put l i (goes_on code c (threads s i)) s
            | Skip l c => put l i (goes_on (tail code) c (threads s i)) s
            | Again l c => put l i (goes_on (x :: code) c (threads s i)) s
            | Stop msg => put (lk s) i (stop msg (threads s i)) s
            end).
Proof.
  intros I Hs Hx. pose proof I as [Ht Hu Hl Hw Hf Hh]. specialize (Ht i). specialize (Hl i). specialize (Hh i).
  pose proof (move_inv s i) as M. pose proof (still_inv s i) as Q.
  destruct (threads s i) as [td ent ins stp c]. cbn [stopped todo inside entering tcpu] in *. subst stp td.
  destruct Ht as [Hp Hc _]. cbn [stopped todo inside entering tcpu] in *.
  pose proof (pushcli_same _ _ Hc) as Hc'. apply bool_decide_eq_true in Hp.
  destruct ins, ent; cbn [places] in Hp; place Hp;
    cbn [perform tail xchg];
    first [assert (Hr : lk_cpu (lk s) = Some i) by (apply Hh; reflexivity)
          |assert (Hr : lk_cpu (lk s) <> Some i) by (rewrite Hh; vm_compute; discriminate)];
    try (specialize (Hl eq_refl); rewrite Hl); rewrite ?(bool_decide_eq_true_2 _ Hr), ?(bool_decide_eq_false_2 _ Hr); cbn [Z.eqb];
    try match goal with |- context [locked (lk s) =? 0] => destruct (locked (lk s) =? 0) eqn:E; cbn [negb] end;
    try (apply Q; [exact I|thread; fail|reflexivity|reflexivity]).
  - apply M; auto; cbn [locked lk_cpu]; done.
  - apply M; auto; cbn [locked lk_cpu]; try done; thread.
  - destruct (popcli_pushcli _ c (Hcs i) Hc) as (c1 & -> & Hc1). apply Q; [exact I|thread|reflexivity|reflexivity].
  - apply M; auto; cbn [locked lk_cpu negb]; try done. lia.
  - apply M; auto; cbn [locked lk_cpu negb]; try done. split; [reflexivity|lia].
  - apply M; auto; cbn [locked lk_cpu]; try done; tauto.
Qed.

(** A call changes nothing of the lock. *)
Lemma call_ok c0 code acq t : thread_ok c0 t -> stopped t = None -> todo t = [] -> (code, acq) ∈ [(acquire_code, true); (release_code, false)] ->
  thread_ok c0 (call code acq t) /\ owns (call code acq t) = owns t /\ records (call code acq t) = records t.
Proof.
  intros [Hp Hc _] Hs Ht Hin. destruct t as [td ent ins stp c]. cbn in Hs, Ht, Hc. subst.
  repeat (apply elem_of_cons in Hin as [[= -> ->]|Hin]); try (destruct ins, ent; try discriminate Hp); try inversion Hin;
    (split; [thread|split; reflexivity]).
Qed.

Lemma step_inv s s' : lock_inv cs s -> step s s' -> lock_inv cs s'.
Proof.
  intros I Hst. revert I. destruct Hst as [s i Hs Ht|s i Hs Ht|s i x code Hs Hx]; intros I; [..|apply next_inv; assumption];
    [destruct (call_ok _ acquire_code true _ (inv_thread _ _ I i) Hs Ht ltac:(repeat constructor)) as (H1 & H2 & H3)
    |destruct (call_ok _ release_code false _ (inv_thread _ _ I i) Hs Ht ltac:(repeat constructor)) as (H1 & H2 & H3)];
    apply still_inv; assumption.
Qed.

Lemma reachable_inv nm s : reachable nm cs s -> lock_inv cs s.
Proof. induction 1; eauto using init_inv, step_inv. Qed.

Lemma holding_spec s i : lock_inv cs s -> holding i (lk s) = records (threads s i).
Proof.
  intros [Ht Hu Hl Hw Hf Hh]. unfold holding. apply eq_iff_eq_true.
  rewrite andb_true_iff, negb_true_iff, bool_decide_eq_true, Hh.
  split; [tauto|]. intros H. split; [|exact H]. rewrite (Hl i (records_owns _ _ (Ht i) H)). reflexivity.
Qed.

(** A CPU between two calls. *)
Lemma between_calls s i : lock_inv cs s -> todo (threads s i) = [] ->
  holding i (lk s) = inside (threads s i) /\ owns (threads s i) = inside (threads s i) /\
  cpu_same (if inside (threads s i) then pushcli (cs i) else cs i) (tcpu (threads s i)).
Proof.
  intros I Ht. rewrite (holding_spec s i I). destruct (inv_thread _ _ I i) as [Hp Hc _].
  destruct (threads s i) as [td ent ins stp c]. cbn in Ht. subst td. destruct ins, ent; try discriminate Hp; repeat split; apply Hc.
Qed.
End Smp.

(** A run by a list of moves. *)
Inductive action := CallAcquire | CallRelease | Move.
Definition act (i : Z) (a : action) (s : sys) : option sys :=
  let t := threads s i in
  match stopped t, a, todo t with
  | None, CallAcquire, [] => Some (put (lk s) i (call acquire_code true t) s)
  | None, CallRelease, [] => Some (put (lk s) i (call release_code false t) s)
  | None, Move, x :: code =>
      Some (match perform i x (lk s) (tcpu t) with
            | Next l c => put l i (goes_on code c t) s
            | Skip l c => put l i (goes_on (tail code) c t) s
            | Again l c => put l i (goes_on (x :: code) c t) s
            | Stop msg => put (lk s) i (stop msg t) s
            end)
  | _, _, _ => None
  end.
Fixpoint acts (l : list (Z * action)) (s : sys) : option sys :=
  match l with [] => Some s | (i, a) :: l => match act i a s with Some s => acts l s | None => None end end.

Lemma acts_reachable nm cs l s s' : reachable nm cs s -> acts l s = Some s' -> reachable nm cs s'.
Proof.
  revert s. induction l as [|[i a] l IH]; intros s H; cbn; [intros [= <-]; exact H|].
  destruct (act i a s) as [s1|] eqn:E; [|discriminate]. apply IH. apply (reach_step nm cs s); [exact H|].
  revert E. unfold act. destruct (stopped (threads s i)) eqn:Es; [discriminate|].
  destruct a, (todo (threads s i)) eqn:Et; try discriminate; intros [= <-]; constructor; assumption.
Qed.
End Smp.

Module SpinlockProps.
Import Spinlock Smp.

(** C33: however the steps of [acquire] and [release] of several CPUs interleave, at most one CPU is between its
    successful [xchg] and its [lk->locked = 0], and the lock word is 1 exactly while there is one.  Between two calls,
    [holding] is true exactly on the CPU whose last call was an [acquire]; there interrupts are off and one [pushcli] is
    outstanding, and after [release] the nesting and the interrupt flag are those from before.  A panic stops only a CPU that calls
    [acquire] with the lock already held by itself, or [release] without holding it. *)
Theorem spinlock_mutual_exclusion (nm : string) (cs : Z -> cpu) (s : sys) :
  (forall i, cpu_ok (cs i)) -> reachable nm cs s ->
  (forall i j, owns (threads s i) = true -> owns (threads s j) = true -> i = j) /\
  (locked (lk s) = 0 \/ locked (lk s) = 1) /\ (locked (lk s) = 1 <-> exists i, owns (threads s i) = true) /\
  (forall i, todo (threads s i) = [] ->
     holding i (lk s) = inside (threads s i) /\ owns (threads s i) = inside (threads s i) /\
     cpu_same (if inside (threads s i) then pushcli (cs i) else cs i) (tcpu (threads s i))) /\
  (forall i m, stopped (threads s i) = Some m ->
     m = "acquire" /\ inside (threads s i) = true \/ m = "release" /\ inside (threads s i) = false).
Proof.
  intros Hcs H. apply reachable_inv in H; [|exact Hcs]. split; [apply (inv_unique _ _ H)|]. split; [apply (inv_word _ _ H)|].
  split; [split; [apply (inv_free _ _ H)|intros [i Hi]; apply (inv_locked _ _ H i Hi)]|].
  split; [intros i; apply between_calls, H|]. intros i. apply (th_stopped _ _ (inv_thread _ _ H i)).
Qed.

(** CPU 0 takes the lock, CPU 1 runs into the loop; CPU 0 releases the lock, CPU 1 gets it, and CPU 2 is stopped for a
    [release] of a lock it does not hold. *)
Definition demo_start : sys := Sys (initlock "l") (fun _ => idle (Cpu 0 false true)).
Definition demo_moves : list (Z * action) :=
  [(0, CallAcquire); (0, Move); (0, Move); (1, CallAcquire); (1, Move); (0, Move); (1, Move); (0, Move); (1, Move); (1, Move);
   (0, CallRelease); (0, Move); (0, Move); (0, Move); (0, Move); (1, Move); (0, Move); (1, Move);
   (2, CallRelease); (2, Move); (2, Move)].
Definition demo (n : nat) : sys := default demo_start (acts (take n demo_moves) demo_start).
Lemma demo_reachable n : match acts (take n demo_moves) demo_start with Some _ => True | None => False end ->
  reachable "l" (fun _ => Cpu 0 false true) (demo n).
Proof.
  intros H. apply (acts_reachable _ _ (take n demo_moves) demo_start); [constructor|]. unfold demo.
  destruct (acts (take n demo_moves) demo_start); [reflexivity|destruct H].
Qed.

Lemma spinlock_mutual_exclusion_witness :
  holding 0 (lk (demo 10)) = true /\ todo (threads (demo 10) 1) = [AXchg; ARecord] /\ fl_if (tcpu (threads (demo 10) 0)) = false /\
  holding 1 (lk (demo 21)) = true /\ holding 0 (lk (demo 21)) = false /\ fl_if (tcpu (threads (demo 21) 0)) = true /\
  stopped (threads (demo 21) 2) = Some "release".
Proof.
  assert (C : forall i : Z, cpu_ok (Cpu 0 false true)) by (intros _; split; cbn; lia).
  destruct (spinlock_mutual_exclusion "l" _ (demo 10) C (demo_reachable 10 ltac:(lazy; exact I))) as (_ & _ & _ & B & _).
  destruct (spinlock_mutual_exclusion "l" _ (demo 21) C (demo_reachable 21 ltac:(lazy; exact I))) as (_ & _ & _ & B' & _).
  split; [rewrite (proj1 (B 0 ltac:(lazy; reflexivity))); lazy; reflexivity|]. split; [lazy; reflexivity|]. split; [lazy; reflexivity|].
  split; [rewrite (proj1 (B' 1 ltac:(lazy; reflexivity))); lazy; reflexivity|].
  split; [rewrite (proj1 (B' 0 ltac:(lazy; reflexivity))); lazy; reflexivity|].
  split; lazy; reflexivity.
Defined.

(** [pushcli] and [popcli] are matched: after [n] of each, the nesting
    depth and the interrupt flag are what they were, interrupts having been
    off in between. *)
Theorem pushcli_popcli_matched (n : nat) (c : cpu) :
  cpu_ok c ->
  (0 < n)%nat -> fl_if (pushcli_n n c) = false /\
  exists c', popcli_n n (pushcli_n n c) = Ok c' /\ ncli c' = ncli c /\ fl_if c' = fl_if c.
Proof.
  intros H Hn. split; [destruct n; [lia|reflexivity]|].
  destruct (popcli_n_pushcli_n n c (pushcli_n n c) H (cpu_same_refl _)) as (c' & E & A & B & _).
  eauto.
Qed.

Lemma pushcli_popcli_matched_witness :
  fl_if (pushcli_n 2 (Cpu 0 false true)) = false /\
  exists c', popcli_n 2 (pushcli_n 2 (Cpu 0 false true)) = Ok c' /\ ncli c' = 0 /\ fl_if c' = true.
Proof.
  apply (pushcli_popcli_matched 2 (Cpu 0 false true)); [split; simpl; lia|lia].
Defined.
End SpinlockProps.
