(* ===== verification/Kernel.v ===== *)
(** The kernel state that the random number generator and what it calls work
    on: the interrupt state of the CPU, memory, the page allocator, the
    entropy pools, the tick counter, the static arrays of the hash and the
    generator itself.  A run is that of one CPU without interference: a lock
    held by another CPU makes [acquire] spin. *)

From S2P Require Import Prelude Mem CString Spinlock.

Module Kernel.
Export Paged Spinlock.

(** entropyacc.h *)
Definition MAX_POOLS : Z := 32.
Definition MAX_SOURCES : Z := 255.
Definition MAX_EDATA_SIZE : Z := 32.
Definition MIN_SIZE_POOL : Z := 64.
Definition POOL_SIZE : Z := 4096.
Definition FREE_MEMORY_SIZE : Z := 4.

(** memlayout.h *)
Definition PHYSTOP : Z := 0xE000000.
Definition KERNBASE : Z := 0x80000000.
Definition V2P (a : Z) : Z := u32 (a - KERNBASE).
(** mmu.h *)
Definition PGROUNDUP (sz : Z) : Z := Z.land (u32 (sz + PGSIZE - 1)) (Z.lnot (PGSIZE - 1)).

Record entropy_pool := Pool { size : Z; entropy : list Z; pool_lock : spinlock }.

(** [kmem] and the counters of kalloc.c; the two functions have each a static
    [free_memory_pool]. *)
Record allocator := Allocator {
  km_lock : spinlock;
  use_lock : Z;
  freelist : Z;
  kinit2_called : Z;
  memory_operations : Z;
  kfree_pool : Z;
  kalloc_pool : Z;
}.

Record timer := Timer { ticks : Z; tickslock : spinlock }.

(** The static arrays [h] and [w] of hash.c. *)
Record hasher := Hasher { hash_h : list Z; hash_w : list Z }.

(** prng.c; [counter] is kept as four unsigned words. *)
Record generator := Generator {
  counter : list Z;
  key : list Z;
  reseed_ctr : Z;
  last_reseed_ticks : Z;
}.

Record kstate := KState {
  me : Z;
  k_cpu : cpu;
  mem : pages;
  alloc : allocator;
  pools : list entropy_pool;
  clock : timer;
  sha : hasher;
  prng : generator;
  out : list (string * list Z);   (** calls to [cprintf], oldest first *)
}.

Definition set_cpu (c : cpu) (s : kstate) : kstate :=
  KState (me s) c (mem s) (alloc s) (pools s) (clock s) (sha s) (prng s) (out s).
Definition set_mem (m : pages) (s : kstate) : kstate :=
  KState (me s) (k_cpu s) m (alloc s) (pools s) (clock s) (sha s) (prng s) (out s).
Definition set_alloc (a : allocator) (s : kstate) : kstate :=
  KState (me s) (k_cpu s) (mem s) a (pools s) (clock s) (sha s) (prng s) (out s).
Definition set_pools (p : list entropy_pool) (s : kstate) : kstate :=
  KState (me s) (k_cpu s) (mem s) (alloc s) p (clock s) (sha s) (prng s) (out s).
Definition set_clock (t : timer) (s : kstate) : kstate :=
  KState (me s) (k_cpu s) (mem s) (alloc s) (pools s) t (sha s) (prng s) (out s).
Definition set_sha (h : hasher) (s : kstate) : kstate :=
  KState (me s) (k_cpu s) (mem s) (alloc s) (pools s) (clock s) h (prng s) (out s).
Definition set_prng (g : generator) (s : kstate) : kstate :=
  KState (me s) (k_cpu s) (mem s) (alloc s) (pools s) (clock s) (sha s) g (out s).
Definition set_out (o : list (string * list Z)) (s : kstate) : kstate :=
  KState (me s) (k_cpu s) (mem s) (alloc s) (pools s) (clock s) (sha s) (prng s) o.

Definition set_freelist (r : Z) : K kstate unit := modify (fun s =>
  let a := alloc s in
  set_alloc (Allocator (km_lock a) (use_lock a) r (kinit2_called a)
                       (memory_operations a) (kfree_pool a) (kalloc_pool a)) s).
Definition set_memory_operations (n : Z) : K kstate unit := modify (fun s =>
  let a := alloc s in
  set_alloc (Allocator (km_lock a) (use_lock a) (freelist a) (kinit2_called a)
                       n (kfree_pool a) (kalloc_pool a)) s).

(** Code on memory, run inside the kernel state. *)
Definition on_mem {A} (f : K pages A) : K kstate A := fun s =>
  '(a, m) ← f (mem s);
  Ok (a, set_mem m s).

Definition cprintf (fmt : string) (args : list Z) : K kstate unit :=
  modify (fun s => set_out (out s ++ [(fmt, args)]) s).

(** * Locks of the state *)

Inductive lockid := Lkmem | Ltick | Lpool (i : Z).

Definition get_lock (l : lockid) (s : kstate) : option spinlock :=
  match l with
  | Lkmem => Some (km_lock (alloc s))
  | Ltick => Some (tickslock (clock s))
  | Lpool i => if i <? 0 then None else pool_lock <$> pools s !! Z.to_nat i
  end.

Definition put_lock (l : lockid) (k : spinlock) (s : kstate) : kstate :=
  match l with
  | Lkmem =>
      let a := alloc s in
      set_alloc (Allocator k (use_lock a) (freelist a) (kinit2_called a)
                           (memory_operations a) (kfree_pool a) (kalloc_pool a)) s
  | Ltick => set_clock (Timer (ticks (clock s)) k) s
  | Lpool i =>
      set_pools (alter (fun p => Pool (size p) (entropy p) k) (Z.to_nat i) (pools s)) s
  end.

Definition lock_op (f : Z -> spinlock -> cpu -> res (spinlock * cpu)) (l : lockid) : K kstate unit :=
  s ← get;
  k ← lift_opt "lock outside its array" (get_lock l s);
  '(k', c') ← lift_res (f (me s) k (k_cpu s));
  modify (fun s => put_lock l k' (set_cpu c' s)).

Definition acquire_ (l : lockid) : K kstate unit := lock_op acquire l.
Definition release_ (l : lockid) : K kstate unit := lock_op release l.

(** * Pointers *)

(** A [char*] argument: an address, the array of a pool, or the key of the
    generator.  An access beyond such an array is outside the object. *)
Inductive cptr := Addr (a : Z) | PoolArr (i : Z) | KeyArr.

Definition arr_load (l : list Z) (i : Z) : K kstate Z :=
  if i <? 0 then fault "index below an array" else lift_opt "index beyond an array" (l !! Z.to_nat i).

Definition arr_store (l : list Z) (i v : Z) : res (list Z) :=
  if (i <? 0) || (Z.of_nat (length l) <=? i) then Fault "index outside an array"
  else Ok (<[Z.to_nat i := v]> l).

(** [memset] of the first [n] bytes of an array; [n] is converted to
    unsigned by the call. *)
Definition arr_memset (l : list Z) (c n : Z) : res (list Z) :=
  let n := u32 n in
  if Z.of_nat (length l) <? n then Fault "memset beyond an array"
  else Ok (replicate (Z.to_nat n) (u8 c) ++ drop (Z.to_nat n) l).

Definition get_pool (i : Z) : K kstate entropy_pool :=
  s ← get;
  if i <? 0 then fault "pool index" else lift_opt "pool index" (pools s !! Z.to_nat i).
Definition put_pool (i : Z) (p : entropy_pool) : K kstate unit :=
  modify (fun s => set_pools (<[Z.to_nat i := p]> (pools s)) s).
Definition set_key (k : list Z) : K kstate unit := modify (fun s =>
  let g := prng s in
  set_prng (Generator (counter g) k (reseed_ctr g) (last_reseed_ticks g)) s).

Definition cload (p : cptr) (i : Z) : K kstate Z :=
  match p with
  | Addr a => on_mem (load (a + i))
  | PoolArr n => q ← get_pool n; arr_load (entropy q) i
  | KeyArr => k ← gets (fun s => key (prng s)); arr_load k i
  end.

Definition cstore (p : cptr) (i v : Z) : K kstate unit :=
  match p with
  | Addr a => on_mem (store (a + i) v)
  | PoolArr n =>
      q ← get_pool n;
      e ← lift_res (arr_store (entropy q) i v);
      put_pool n (Pool (size q) e (pool_lock q))
  | KeyArr =>
      k ← gets (fun s => key (prng s));
      k' ← lift_res (arr_store k i v);
      set_key k'
  end.
End Kernel.

Module KernelFacts.
Import Kernel.

Definition free_lock (k : spinlock) : Prop := locked k = 0 /\ lk_cpu k = None.

Lemma free_lock_eta k : free_lock k -> k = Lock (name k) 0 None.
Proof. destruct k; intros [H1 H2]; simpl in *; congruence. Qed.

Lemma set_mem_same s m : mem s = m -> set_mem m s = s.
Proof. intros <-. destruct s; reflexivity. Qed.

Lemma wp_on_mem {A} (f : K pages A) (Q : A -> kstate -> Prop) s :
  wp f (fun a m => Q a (set_mem m s)) (mem s) -> wp (on_mem f) Q s.
Proof.
  intros (a & m & E & H). exists a, (set_mem m s). unfold on_mem. rewrite E. auto.
Qed.

Lemma wp_acquire_ l k (Q : unit -> kstate -> Prop) s :
  get_lock l s = Some k -> free_lock k ->
  Q tt (put_lock l (Lock (name k) 1 (Some (me s))) (set_cpu (pushcli (k_cpu s)) s)) ->
  wp (acquire_ l) Q s.
Proof.
  intros Hk [H0 _] HQ. unfold acquire_, lock_op. wp_steps.
  eapply wp_lift_opt; [exact Hk|]. wp_steps.
  eapply wp_lift_res; [apply acquire_free, H0|]. apply wp_modify, HQ.
Qed.

(** [release] of a lock taken when the CPU was in state [c]. *)
Lemma wp_release_ l nm c (Q : unit -> kstate -> Prop) s :
  get_lock l s = Some (Lock nm 1 (Some (me s))) ->
  cpu_ok c -> cpu_same (pushcli c) (k_cpu s) ->
  (forall c', cpu_same c c' -> Q tt (put_lock l (Lock nm 0 None) (set_cpu c' s))) ->
  wp (release_ l) Q s.
Proof.
  intros Hk Hc H1 HQ. unfold release_, lock_op. wp_steps.
  eapply wp_lift_opt; [exact Hk|]. wp_steps.
  destruct (release_held (me s) nm c (k_cpu s) Hc H1) as (c' & E & Hs).
  eapply wp_lift_res; [exact E|]. apply wp_modify, HQ, Hs.
Qed.

Lemma wp_get_pool i p (Q : entropy_pool -> kstate -> Prop) s :
  0 <= i -> pools s !! Z.to_nat i = Some p -> Q p s -> wp (get_pool i) Q s.
Proof.
  intros Hi Hp HQ. unfold get_pool. wp_steps. replace (i <? 0) with false by lia.
  eapply wp_lift_opt; eauto.
Qed.

Lemma wp_arr_load l i v (Q : Z -> kstate -> Prop) s :
  0 <= i -> l !! Z.to_nat i = Some v -> Q v s -> wp (arr_load l i) Q s.
Proof.
  intros Hi Hp HQ. unfold arr_load. replace (i <? 0) with false by lia.
  eapply wp_lift_opt; eauto.
Qed.

Lemma arr_store_ok l i v : 0 <= i < Z.of_nat (length l) ->
  arr_store l i v = Ok (<[Z.to_nat i := v]> l).
Proof. intros H. unfold arr_store. replace (_ || _) with false by lia. reflexivity. Qed.

Lemma arr_memset_ok l c n : 0 <= n <= Z.of_nat (length l) -> n < 2 ^ 32 ->
  arr_memset l c n = Ok (replicate (Z.to_nat n) (u8 c) ++ drop (Z.to_nat n) l).
Proof.
  intros H Hn. unfold arr_memset. rewrite u32_id by (unfold is_u32; lia).
  replace (_ <? _) with false by lia. reflexivity.
Qed.
End KernelFacts.
