(* ===== verification/Entropy.v ===== *)
(** The entropy accumulator (entropyacc.c): 32 pools, each a ring of 4096
    bytes that keeps the end of the stream of events added to it. *)

From S2P Require Import Prelude Kernel.

Module Entropy.
Import Kernel.

Definition initEntropyAccumulator : K kstate unit :=
  forM (seqZ 0 MAX_POOLS) (fun i =>
    q ← get_pool i;
    e ← lift_res (arr_memset (entropy q) 0 POOL_SIZE);
    put_pool i (Pool 0 e (initlock "pools"))).

(** [selected_pool->entropy[(selected_pool->size + off) % POOL_SIZE] = b]. *)
Definition pool_put (pnum off b : Z) : K kstate unit :=
  q ← get_pool pnum;
  e ← lift_res (arr_store (entropy q) (Z.rem (s32 (size q + off)) POOL_SIZE) b);
  put_pool pnum (Pool (size q) e (pool_lock q)).

(** [selected_pool->size += n]. *)
Definition pool_advance (pnum n : Z) : K kstate unit :=
  q ← get_pool pnum;
  put_pool pnum (Pool (s32 (size q + n)) (entropy q) (pool_lock q)).

(** [edata] is [None] for a null pointer and otherwise the object the
    pointer points into. *)
Definition addRandomEvent (snum pnum : Z) (edata : option (list Z)) (data_len : Z) : K kstate unit :=
  if (snum <? 0) || (MAX_SOURCES <? snum) then skip
  else if (pnum <? 0) || (MAX_POOLS <=? pnum) then skip
  else match edata with
  | None => skip
  | Some d =>
      if (data_len <? 0) || (MAX_EDATA_SIZE <? data_len) then skip
      else
        acquire_ (Lpool pnum) ;;
        pool_put pnum 0 (u8 snum) ;;
        pool_advance pnum 1 ;;
        pool_put pnum 0 (u8 data_len) ;;
        pool_advance pnum 1 ;;
        forM (seqZ 0 data_len) (fun i => b ← arr_load d i; pool_put pnum i b) ;;
        pool_advance pnum data_len ;;
        release_ (Lpool pnum)
  end.

(** The sum of [char]s, which are signed. *)
Fixpoint sum_entropy (n : nat) (i j sum : Z) : K kstate Z :=
  match n with
  | O => mret sum
  | S n =>
      q ← get_pool i;
      b ← arr_load (entropy q) j;
      sum_entropy n i (j + 1) (s32 (sum + s8 b))
  end.

Definition printPoolsData : K kstate unit :=
  forM (seqZ 0 MAX_POOLS) (fun i =>
    q ← get_pool i;
    sum ← sum_entropy (Z.to_nat (size q)) i 0 0;
    cprintf "POOL %d SIZE: %d DATA: %d" [i; size q; sum]).
End Entropy.

Module EntropyFacts.
Import Kernel KernelFacts Entropy.

(** Writing [bs] from position [pos] of the stream on. *)
Fixpoint ring_write (e : list Z) (pos : Z) (bs : list Z) : list Z :=
  match bs with
  | [] => e
  | b :: bs' => ring_write (<[Z.to_nat (pos mod POOL_SIZE) := b]> e) (pos + 1) bs'
  end.

Lemma length_ring_write e pos bs : length (ring_write e pos bs) = length e.
Proof.
  revert e pos. induction bs as [|b bs IH]; intros e pos; simpl; [reflexivity|].
  rewrite IH. apply length_insert.
Qed.

Lemma ring_write_app e pos bs cs :
  ring_write e pos (bs ++ cs) = ring_write (ring_write e pos bs) (pos + Z.of_nat (length bs)) cs.
Proof.
  revert e pos. induction bs as [|c bs IH]; intros e pos; cbn [app ring_write length].
  - f_equal. lia.
  - rewrite IH. f_equal. lia.
Qed.

(** The pool holds the last 4096 bytes of the stream [st]. *)
Record pool_repr (p : entropy_pool) (st : list Z) : Prop := {
  repr_size : size p = Z.of_nat (length st);
  repr_length : Z.of_nat (length (entropy p)) = POOL_SIZE;
  repr_bytes : forall k b, st !! k = Some b -> Z.of_nat (length st) <= Z.of_nat k + POOL_SIZE ->
    entropy p !! Z.to_nat (Z.of_nat k mod POOL_SIZE) = Some b;
}.

Lemma mod_ne k n : k < n -> n < k + POOL_SIZE -> k mod POOL_SIZE <> n mod POOL_SIZE.
Proof.
  unfold POOL_SIZE. intros H1 H2 E. pose proof (Z.div_mod k 4096 ltac:(lia)).
  pose proof (Z.div_mod n 4096 ltac:(lia)). lia.
Qed.

Lemma repr_write p st bs sz k :
  pool_repr p st -> sz = size p + Z.of_nat (length bs) ->
  pool_repr (Pool sz (ring_write (entropy p) (Z.of_nat (length st)) bs) k) (st ++ bs).
Proof.
  intros [H1 H2 H3] ->. split; simpl.
  - rewrite length_app. lia.
  - rewrite length_ring_write. exact H2.
  - induction bs as [|b bs IH] using rev_ind; intros i x Hx Hi; simpl in *.
    + rewrite app_nil_r in *. apply H3; assumption.
    + rewrite ring_write_app. cbn [ring_write]. rewrite !length_app in Hi. simpl in Hi.
      rewrite app_assoc in Hx. apply lookup_app_Some in Hx as [Hx|[Hle Hx]].
      * pose proof (lookup_lt_Some _ _ _ Hx) as Hlt. rewrite length_app in Hlt.
        pose proof (mod_ne (Z.of_nat i) (Z.of_nat (length st) + Z.of_nat (length bs)) ltac:(lia) ltac:(lia)).
        pose proof (Z.mod_pos_bound (Z.of_nat i) POOL_SIZE eq_refl).
        pose proof (Z.mod_pos_bound (Z.of_nat (length st) + Z.of_nat (length bs)) POOL_SIZE eq_refl).
        rewrite list_lookup_insert_ne by lia.
        apply IH; [exact Hx|]. rewrite length_app. lia.
      * rewrite length_app in *. apply list_lookup_singleton_Some in Hx as [Hz <-].
        replace (Z.of_nat i) with (Z.of_nat (length st) + Z.of_nat (length bs)) by lia.
        apply list_lookup_insert_eq. rewrite length_ring_write.
        pose proof (Z.mod_pos_bound (Z.of_nat (length st) + Z.of_nat (length bs)) POOL_SIZE eq_refl). lia.
Qed.

(** The state with pool [i] and the CPU replaced. *)
Definition upd (s : kstate) (i : Z) (p : entropy_pool) (c : cpu) : kstate :=
  set_pools (<[Z.to_nat i := p]> (pools s)) (set_cpu c s).

Section event.
Context (s : kstate) (i : Z) (q : entropy_pool).
Hypothesis Hi : 0 <= i.
Hypothesis Hq : pools s !! Z.to_nat i = Some q.

Lemma upd_pool p c : pools (upd s i p c) !! Z.to_nat i = Some p.
Proof. apply list_lookup_insert_eq, lookup_lt_is_Some. eauto. Qed.

Lemma upd_upd p p' c : set_pools (<[Z.to_nat i := p']> (pools (upd s i p c))) (upd s i p c) = upd s i p' c.
Proof. unfold upd, set_pools; simpl. rewrite list_insert_insert_eq. reflexivity. Qed.

Lemma wp_pool_put p c off b (Q : unit -> kstate -> Prop) :
  Z.of_nat (length (entropy p)) = POOL_SIZE -> 0 <= size p + off < 2 ^ 31 ->
  Q tt (upd s i (Pool (size p) (ring_write (entropy p) (size p + off) [b]) (pool_lock p)) c) ->
  wp (pool_put i off b) Q (upd s i p c).
Proof.
  intros Hl Hs HQ. unfold pool_put. wp_steps.
  eapply wp_get_pool; [exact Hi|apply upd_pool|]. wp_steps.
  rewrite s32_id by (unfold is_s32; lia). rewrite Z.rem_mod_nonneg by (unfold POOL_SIZE; lia).
  pose proof (Z.mod_pos_bound (size p + off) POOL_SIZE eq_refl).
  eapply wp_lift_res; [apply arr_store_ok; lia|].
  apply wp_modify. rewrite upd_upd. exact HQ.
Qed.

Lemma wp_pool_advance p c n (Q : unit -> kstate -> Prop) :
  0 <= size p + n < 2 ^ 31 ->
  Q tt (upd s i (Pool (size p + n) (entropy p) (pool_lock p)) c) ->
  wp (pool_advance i n) Q (upd s i p c).
Proof.
  intros Hs HQ. unfold pool_advance. wp_steps.
  eapply wp_get_pool; [exact Hi|apply upd_pool|].
  apply wp_modify. rewrite upd_upd. rewrite s32_id by (unfold is_s32; lia). exact HQ.
Qed.

Lemma wp_event_data d n p c :
  (n <= length d)%nat -> Z.of_nat (length (entropy p)) = POOL_SIZE ->
  0 <= size p -> size p + Z.of_nat n < 2 ^ 31 ->
  wp (forM (seqZ 0 (Z.of_nat n)) (fun j => b ← arr_load d j; pool_put i j b))
     (fun _ s' => s' = upd s i (Pool (size p) (ring_write (entropy p) (size p) (take n d)) (pool_lock p)) c)
     (upd s i p c).
Proof.
  intros Hn Hl H0 H1.
  eapply wp_mono; [eapply (wp_forM _ _ (fun k s' =>
    s' = upd s i (Pool (size p) (ring_write (entropy p) (size p) (take k d)) (pool_lock p)) c))|].
  - destruct p; reflexivity.
  - intros j x s' Hx ->. apply lookup_seqZ in Hx as [-> Hj].
    destruct (lookup_lt_is_Some_2 d j) as [b Hb]; [lia|].
    wp_steps. apply (wp_arr_load _ _ b); [lia|rewrite <- Hb; f_equal; lia|].
    apply wp_pool_put; simpl; rewrite ?length_ring_write; auto; [lia|].
    f_equal. f_equal. rewrite (take_S_r _ _ _ Hb), ring_write_app, length_take, Nat.min_l by lia. reflexivity.
  - intros [] s' ->. rewrite length_seqZ, Nat2Z.id. reflexivity.
Qed.

(** What a valid call appends to the stream of its pool. *)
Definition event_bytes (snum : Z) (d : list Z) (len : Z) : list Z :=
  [u8 snum; u8 len] ++ take (Z.to_nat len) d.

Lemma wp_addRandomEvent snum d len (Q : unit -> kstate -> Prop) :
  0 <= snum <= MAX_SOURCES -> i < MAX_POOLS -> 0 <= len <= MAX_EDATA_SIZE ->
  len <= Z.of_nat (length d) ->
  free_lock (pool_lock q) -> cpu_ok (k_cpu s) ->
  Z.of_nat (length (entropy q)) = POOL_SIZE ->
  0 <= size q -> size q + 2 + len < 2 ^ 31 ->
  (forall c', cpu_same (k_cpu s) c' ->
     Q tt (upd s i (Pool (size q + 2 + len)
                         (ring_write (entropy q) (size q) (event_bytes snum d len))
                         (pool_lock q)) c')) ->
  wp (addRandomEvent snum i (Some d) len) Q s.
Proof.
  unfold MAX_SOURCES, MAX_POOLS, MAX_EDATA_SIZE.
  intros Hs Hp Hlen Hd Hfree Hcpu Hl H0 H1 HQ. unfold addRandomEvent.
  replace ((snum <? 0) || (MAX_SOURCES <? snum)) with false by (unfold MAX_SOURCES; lia).
  replace ((i <? 0) || (MAX_POOLS <=? i)) with false by (unfold MAX_POOLS; lia).
  replace ((len <? 0) || (MAX_EDATA_SIZE <? len)) with false by (unfold MAX_EDATA_SIZE; lia).
  pose proof (free_lock_eta _ Hfree) as Hk.
  revert Hk HQ. generalize (name (pool_lock q)) as nm. intros nm Hk HQ. rewrite Hk in HQ.
  set (sz := size q) in *. set (e := entropy q) in *.
  apply wp_bind, (wp_acquire_ _ (Lock nm 0 None)); [|split; reflexivity|].
  { simpl. replace (i <? 0) with false by lia. rewrite Hq. simpl. rewrite Hk. reflexivity. }
  set (p0 := Pool sz e (Lock nm 1 (Some (me s)))).
  replace (put_lock _ _ _) with (upd s i p0 (pushcli (k_cpu s))).
  2: { unfold upd, put_lock; simpl. rewrite (list_alter_lookup _ _ _ _ Hq). reflexivity. }
  apply wp_bind, wp_pool_put; simpl; [exact Hl|lia|].
  apply wp_bind, wp_pool_advance; simpl; [lia|].
  apply wp_bind, wp_pool_put; simpl; [rewrite length_insert; exact Hl|lia|].
  apply wp_bind, wp_pool_advance; simpl; [lia|].
  apply wp_bind. replace (seqZ 0 len) with (seqZ 0 (Z.of_nat (Z.to_nat len))) by (f_equal; lia).
  eapply wp_mono; [apply wp_event_data; simpl; rewrite ?length_insert; lia|].
  intros [] s1 ->. simpl.
  apply wp_bind, wp_pool_advance; simpl; [lia|].
  apply (wp_release_ _ nm (k_cpu s)); [| exact Hcpu | apply cpu_same_refl |].
  { simpl. replace (i <? 0) with false by lia.
    rewrite list_lookup_insert_eq by (apply lookup_lt_is_Some; eauto). reflexivity. }
  intros c' Hc'.
  replace (put_lock _ _ _) with (upd s i (Pool (sz + 2 + len)
    (ring_write e sz (event_bytes snum d len)) (Lock nm 0 None)) c'); [apply HQ, Hc'|].
  unfold upd, put_lock, set_pools; simpl.
  erewrite list_alter_lookup by (apply list_lookup_insert_eq, lookup_lt_is_Some; eauto).
  rewrite list_insert_insert_eq. simpl. unfold event_bytes. rewrite !Z.add_0_r.
  replace (sz + 1 + 1 + len) with (sz + 2 + len) by lia. reflexivity.
Qed.
End event.

(** All pools hold the ends of the streams [sts] and no pool is locked. *)
Record pools_ok (s : kstate) (sts : list (list Z)) : Prop := {
  ok_pools : Forall2 pool_repr (pools s) sts;
  ok_count : Z.of_nat (length sts) = MAX_POOLS;
  ok_locks : Forall (fun p => free_lock (pool_lock p)) (pools s);
}.

(** The abstract event: a valid one extends the stream of its pool. *)
Definition event (snum pnum : Z) (edata : option (list Z)) (len : Z) (sts : list (list Z)) : list (list Z) :=
  match edata with
  | Some d =>
      if (0 <=? snum) && (snum <=? MAX_SOURCES) && (0 <=? pnum) && (pnum <? MAX_POOLS) &&
         (0 <=? len) && (len <=? MAX_EDATA_SIZE)
      then alter (fun st => st ++ event_bytes snum d len) (Z.to_nat pnum) sts
      else sts
  | None => sts
  end.

(** Only the CPU (up to dead [intena]) and the contents of pools differ. *)
Record only_pools (s s' : kstate) : Prop := {
  op_cpu : cpu_same (k_cpu s) (k_cpu s');
  op_rest : exists c ps, s' = set_pools ps (set_cpu c s);
}.

Lemma pools_ok_upd s i q p c st sts :
  pools_ok s sts -> 0 <= i -> sts !! Z.to_nat i = Some q ->
  pool_repr p st -> free_lock (pool_lock p) ->
  pools_ok (upd s i p c) (<[Z.to_nat i := st]> sts).
Proof.
  intros [H1 H2 H3] Hi Hq Hp Hf. split; simpl.
  - apply Forall2_insert; assumption.
  - rewrite length_insert. exact H2.
  - apply Forall_insert; assumption.
Qed.

(** The call as a whole, on every branch. *)
Lemma wp_addRandomEvent_ok snum pnum edata len s sts (Q : unit -> kstate -> Prop) :
  pools_ok s sts -> cpu_ok (k_cpu s) ->
  (forall d, edata = Some d -> len <= Z.of_nat (length d)) ->
  Forall (fun st => Z.of_nat (length st) + 34 < 2 ^ 31) sts ->
  (forall s', pools_ok s' (event snum pnum edata len sts) -> only_pools s s' -> Q tt s') ->
  wp (addRandomEvent snum pnum edata len) Q s.
Proof.
  intros Hok Hcpu Hd Hsz HQ.
  assert (Hnop : event snum pnum edata len sts = sts -> wp skip Q s).
  { intros E. apply wp_skip, HQ; [rewrite E; exact Hok|]. split; [apply cpu_same_refl|].
    exists (k_cpu s), (pools s). destruct s; reflexivity. }
  destruct edata as [d|].
  2: { unfold addRandomEvent. repeat case_match; apply Hnop; reflexivity. }
  unfold event in *.
  destruct ((0 <=? snum) && _ && _ && _ && _ && _) eqn:E.
  2: { unfold addRandomEvent. repeat case_match; try (apply Hnop; reflexivity).
       unfold MAX_SOURCES, MAX_POOLS, MAX_EDATA_SIZE in *. lia. }
  unfold MAX_SOURCES, MAX_POOLS, MAX_EDATA_SIZE in *.
  destruct Hok as [H1 H2 H3] eqn:EH. clear EH.
  destruct (lookup_lt_is_Some_2 sts (Z.to_nat pnum)) as [st Hst]; [unfold MAX_POOLS in H2; lia|].
  destruct (Forall2_lookup_r _ _ _ _ _ H1 Hst) as (q & Hq & Hr).
  pose proof (Forall_lookup_1 _ _ _ _ H3 Hq) as Hf.
  pose proof (Forall_lookup_1 _ _ _ _ Hsz Hst) as Hlen. simpl in Hlen.
  pose proof (repr_size _ _ Hr). pose proof (repr_length _ _ Hr).
  specialize (Hd d eq_refl).
  apply (wp_addRandomEvent s pnum q); unfold MAX_SOURCES, MAX_POOLS, MAX_EDATA_SIZE;
    auto; try lia.
  intros c' Hc'. apply HQ.
  - rewrite (list_alter_lookup _ _ _ _ Hst).
    eapply pools_ok_upd; [split; eassumption|lia|exact Hst| |exact Hf].
    rewrite H. apply repr_write; [exact Hr|]. rewrite H. unfold event_bytes.
    rewrite length_app, length_take. simpl. lia.
  - split; [exact Hc'|]. do 2 eexists. reflexivity.
Qed.

(** The static array: 32 pools with 4096 bytes each. *)
Definition static_pools (s : kstate) : Prop :=
  Z.of_nat (length (pools s)) = MAX_POOLS /\
  Forall (fun p => Z.of_nat (length (entropy p)) = POOL_SIZE) (pools s).

Definition empty_pool : entropy_pool :=
  Pool 0 (replicate (Z.to_nat POOL_SIZE) 0) (initlock "pools").

Lemma empty_pool_repr : pool_repr empty_pool [].
Proof.
  split; unfold empty_pool; cbn [size entropy]; [reflexivity| |].
  - rewrite length_replicate. unfold POOL_SIZE. lia.
  - intros k b Hk. discriminate.
Qed.

Lemma wp_initEntropyAccumulator s :
  static_pools s ->
  wp initEntropyAccumulator
     (fun _ s' => s' = set_pools (replicate (Z.to_nat MAX_POOLS) empty_pool) s) s.
Proof.
  intros [Hn Hl].
  eapply wp_mono; [apply (wp_forM _ _ (fun k s' =>
    s' = set_pools (replicate k empty_pool ++ drop k (pools s)) s))|].
  - destruct s; reflexivity.
  - intros j x s' Hx ->. apply lookup_seqZ in Hx as [-> Hj].
    destruct (lookup_lt_is_Some_2 (pools s) j) as [q Hq]; [unfold MAX_POOLS in *; lia|].
    pose proof (Forall_lookup_1 _ _ _ _ Hl Hq) as Hlen. simpl in Hlen.
    rewrite Z.add_0_l. wp_steps. apply (wp_get_pool _ q); [lia| |].
    { simpl. rewrite Nat2Z.id, lookup_app_r; rewrite length_replicate; [|lia].
      rewrite lookup_drop, <- Hq. f_equal. lia. }
    wp_steps. eapply wp_lift_res; [apply arr_memset_ok; unfold POOL_SIZE in *; lia|].
    apply wp_modify. unfold set_pools. cbn [me k_cpu mem alloc pools clock sha prng out]. f_equal.
    rewrite Nat2Z.id, (drop_S _ _ _ Hq), insert_app_r_alt, length_replicate, Nat.sub_diag;
      [|rewrite length_replicate; lia].
    cbn [list_insert insert]. rewrite replicate_S_end, <- app_assoc. f_equal. cbn [app]. f_equal.
    unfold empty_pool. f_equal. rewrite drop_ge by (unfold POOL_SIZE in *; lia).
    apply app_nil_r.
  - intros [] s' ->. f_equal. rewrite length_seqZ, drop_ge by lia. apply app_nil_r.
Qed.

Lemma init_pools_ok s : pools_ok (set_pools (replicate (Z.to_nat MAX_POOLS) empty_pool) s)
                                 (replicate (Z.to_nat MAX_POOLS) []).
Proof.
  split; unfold set_pools; cbn [pools].
  - apply Forall2_replicate, empty_pool_repr.
  - reflexivity.
  - apply Forall_replicate. split; reflexivity.
Qed.

(** Arguments of a call. *)
Record call := Call { c_snum : Z; c_pnum : Z; c_edata : option (list Z); c_len : Z }.
Definition call_ok (e : call) : Prop :=
  forall d, c_edata e = Some d -> c_len e <= Z.of_nat (length d).
Definition add (e : call) : K kstate unit :=
  addRandomEvent (c_snum e) (c_pnum e) (c_edata e) (c_len e).
Definition streams (es : list call) : list (list Z) :=
  foldl (fun sts e => event (c_snum e) (c_pnum e) (c_edata e) (c_len e) sts)
        (replicate (Z.to_nat MAX_POOLS) []) es.

Lemma event_length snum pnum edata len sts n :
  Forall (fun st => Z.of_nat (length st) <= n) sts ->
  Forall (fun st => Z.of_nat (length st) <= n + 34) (event snum pnum edata len sts).
Proof.
  intros H. assert (H' : Forall (fun st : list Z => Z.of_nat (length st) <= n + 34) sts).
  { eapply Forall_impl; [exact H|]. simpl. lia. }
  unfold event. destruct edata as [d|]; [|exact H'].
  destruct (_ && _) eqn:E; [|exact H'].
  apply Forall_alter; [exact H'|]. intros st Hst _.
  pose proof (Forall_lookup_1 _ _ _ _ H Hst) as Hl. simpl in Hl.
  unfold event_bytes, MAX_EDATA_SIZE in *. rewrite !length_app, length_take. simpl. lia.
Qed.

Lemma only_pools_trans s1 s2 s3 : only_pools s1 s2 -> only_pools s2 s3 -> only_pools s1 s3.
Proof.
  intros [A1 (c1 & p1 & A2)] [B1 (c2 & p2 & B2)]. split; [eapply cpu_same_trans; eauto|].
  exists c2, p2. rewrite B2, A2. reflexivity.
Qed.

Lemma wp_events es n s sts :
  pools_ok s sts -> cpu_ok (k_cpu s) -> Forall call_ok es ->
  Forall (fun st => Z.of_nat (length st) <= n) sts ->
  n + 34 * Z.of_nat (length es) < 2 ^ 31 ->
  wp (forM es add) (fun _ s' =>
    pools_ok s' (foldl (fun sts e => event (c_snum e) (c_pnum e) (c_edata e) (c_len e) sts) sts es) /\
    only_pools s s') s.
Proof.
  revert n s sts. induction es as [|e es IH]; intros n s sts Hok Hc Hes Hn Hb; simpl.
  - apply wp_skip. split; [exact Hok|]. split; [apply cpu_same_refl|].
    exists (k_cpu s), (pools s). destruct s; reflexivity.
  - inversion_clear Hes. apply wp_bind. apply (wp_addRandomEvent_ok _ _ _ _ _ sts); auto.
    { eapply Forall_impl; [exact Hn|]. simpl in *. lia. }
    intros s1 H1 H2. eapply wp_mono; [eapply (IH (n + 34)); [exact H1|..]|]; auto.
    + eapply cpu_same_ok; [apply H2|exact Hc].
    + apply event_length, Hn.
    + simpl length in Hb. lia.
    + intros [] s2 [H3 H4]. split; [exact H3|]. eapply only_pools_trans; eauto.
Qed.

Lemma wp_sum_entropy n i j sum q s :
  0 <= i -> pools s !! Z.to_nat i = Some q -> 0 <= j -> j + Z.of_nat n <= Z.of_nat (length (entropy q)) ->
  wp (sum_entropy n i j sum) (fun _ s' => s' = s) s.
Proof.
  intros Hi Hq. revert j sum. induction n as [|n IH]; intros j sum Hj Hn; simpl.
  - apply wp_ret. reflexivity.
  - wp_steps. eapply wp_get_pool; [exact Hi|exact Hq|]. wp_steps.
    destruct (lookup_lt_is_Some_2 (entropy q) (Z.to_nat j)) as [b Hb]; [lia|].
    eapply wp_arr_load; [exact Hj|exact Hb|]. apply IH; lia.
Qed.

Lemma sum_entropy_overrun n i j sum q s :
  0 <= i -> pools s !! Z.to_nat i = Some q -> 0 <= j <= Z.of_nat (length (entropy q)) ->
  Z.of_nat (length (entropy q)) < j + Z.of_nat n ->
  sum_entropy n i j sum s = Fault "index beyond an array".
Proof.
  intros Hi Hq. revert j sum. induction n as [|n IH]; intros j sum Hj Hn; [lia|].
  simpl. unfold mbind at 1, K_bind at 1, get_pool, get, mbind at 1, K_bind at 1.
  replace (i <? 0) with false by lia. rewrite Hq. simpl.
  unfold mbind, K_bind, arr_load. replace (j <? 0) with false by lia.
  destruct (entropy q !! Z.to_nat j) as [b|] eqn:Eb; simpl; [|reflexivity].
  apply lookup_lt_Some in Eb. apply IH; lia.
Qed.

Definition print_pool (i : Z) : K kstate unit :=
  q ← get_pool i;
  sum ← sum_entropy (Z.to_nat (size q)) i 0 0;
  cprintf "POOL %d SIZE: %d DATA: %d" [i; size q; sum].

(** Printing pool [i] stays inside its array exactly when its size does. *)
Lemma print_pool_small i q s :
  0 <= i -> pools s !! Z.to_nat i = Some q -> Z.of_nat (length (entropy q)) = POOL_SIZE ->
  size q <= POOL_SIZE -> wp (print_pool i) (fun _ s' => pools s' = pools s) s.
Proof.
  intros Hi Hq Hl Hs. unfold print_pool. wp_steps. eapply wp_get_pool; eauto. wp_steps.
  eapply wp_mono.
  { eapply wp_sum_entropy; [exact Hi|exact Hq|lia|]. rewrite Hl. unfold POOL_SIZE in *. lia. }
  intros sum s' ->. apply wp_modify. reflexivity.
Qed.

Lemma print_pool_large i q s :
  0 <= i -> pools s !! Z.to_nat i = Some q -> Z.of_nat (length (entropy q)) = POOL_SIZE ->
  POOL_SIZE < size q -> print_pool i s = Fault "index beyond an array".
Proof.
  intros Hi Hq Hl Hs. unfold print_pool, mbind, K_bind.
  assert (E : get_pool i s = Ok (q, s)).
  { unfold get_pool, mbind, K_bind, get. replace (i <? 0) with false by lia. rewrite Hq. reflexivity. }
  rewrite E, (sum_entropy_overrun _ _ _ _ q); auto; rewrite Hl; unfold POOL_SIZE in *; lia.
Qed.

Lemma print_pools_small s l :
  Forall (fun p => Z.of_nat (length (entropy p)) = POOL_SIZE) (pools s) ->
  Forall (fun p => size p <= POOL_SIZE) (pools s) ->
  Forall (fun i => 0 <= i < Z.of_nat (length (pools s))) l ->
  wp (forM l print_pool) (fun _ s' => pools s' = pools s) s.
Proof.
  intros Hl Hs Hi. apply (wp_forM l _ (fun _ s' => pools s' = pools s)); [reflexivity|].
  intros k i s1 Hk E. pose proof (Forall_lookup_1 _ _ _ _ Hi Hk) as Hr. simpl in Hr.
  destruct (lookup_lt_is_Some_2 (pools s) (Z.to_nat i)) as [q Hq]; [lia|].
  rewrite <- E. apply (print_pool_small _ q); [lia|rewrite E; exact Hq|..].
  - exact (Forall_lookup_1 _ _ _ _ Hl Hq).
  - exact (Forall_lookup_1 _ _ _ _ Hs Hq).
Qed.

Lemma print_pools_large s l r i q :
  Forall (fun p => Z.of_nat (length (entropy p)) = POOL_SIZE) (pools s) ->
  Forall (fun i => 0 <= i < Z.of_nat (length (pools s))) l ->
  i ∈ l -> pools s !! Z.to_nat i = Some q -> POOL_SIZE < size q ->
  forM l print_pool s <> Ok r.
Proof.
  intros Hl Hi Hin Hq Hs. revert s Hl Hi Hq. induction l as [|j l IH]; intros s Hl Hi Hq; simpl.
  { apply not_elem_of_nil in Hin. contradiction. }
  inversion_clear Hi as [|? ? Hj Hi'].
  destruct (lookup_lt_is_Some_2 (pools s) (Z.to_nat j)) as [p Hp]; [lia|].
  pose proof (Forall_lookup_1 _ _ _ _ Hl Hp) as Hlp. unfold mbind, K_bind.
  destruct (Z.lt_ge_cases POOL_SIZE (size p)).
  { rewrite (print_pool_large _ p) by first [assumption|lia]. discriminate. }
  destruct (print_pool_small j p s) as ([] & s1 & E & Hs1); [lia|assumption..|]. rewrite E.
  apply elem_of_cons in Hin as [->|Hin].
  - rewrite Hp in Hq. injection Hq as ->. lia.
  - apply IH; rewrite ?Hs1; auto.
Qed.
End EntropyFacts.

Module EntropyProps.
Import Kernel KernelFacts Entropy EntropyFacts.

(** after [initEntropyAccumulator] and any sequence of calls of
    [addRandomEvent], each pool holds the last 4096 bytes of the stream that
    the valid calls for it make up (source, length, data, in call order);
    invalid calls change nothing, every call returns, no lock stays held and
    nothing but the pools changes. *)
Theorem pools_hold_event_streams (s : kstate) (es : list call) :
  static_pools s -> cpu_ok (k_cpu s) -> Forall call_ok es ->
  34 * Z.of_nat (length es) < 2 ^ 31 ->
  exists s', (initEntropyAccumulator ;; forM es add) s = Ok (tt, s') /\
    pools_ok s' (streams es) /\ only_pools s s'.
Proof.
  intros Hs Hc Hes Hn.
  cut (wp (initEntropyAccumulator ;; forM es add)
          (fun _ s' => pools_ok s' (streams es) /\ only_pools s s') s).
  { intros ([] & s' & E & H). exists s'. auto. }
  apply wp_bind. eapply wp_mono; [apply wp_initEntropyAccumulator, Hs|].
  intros [] s1 ->. eapply wp_mono.
  { apply (wp_events es 0); [apply init_pools_ok|exact Hc|exact Hes| |lia].
    apply Forall_replicate. simpl. lia. }
  intros [] s2 [H1 [H2 (c & ps & H3)]]. split; [exact H1|]. split; [exact H2|].
  exists c, ps. exact H3.
Qed.

(** A state with cleared arrays, interrupts on. *)
Definition boot_state : kstate :=
  KState 0 (Cpu 0 false true) ∅
    (Allocator (initlock "kmem") 1 0 1 0 0 0)
    (replicate (Z.to_nat MAX_POOLS) (Pool 7 (replicate (Z.to_nat POOL_SIZE) 1) (initlock "old")))
    (Timer 0 (initlock "time")) (Hasher [] []) (Generator [] [] 0 0) [].

Lemma pools_hold_event_streams_witness :
  exists s', (initEntropyAccumulator ;; forM [Call 2 5 (Some [1; 2; 3]) 3; Call 2 40 (Some [9]) 1] add)
               boot_state = Ok (tt, s') /\
    pools_ok s' (<[5%nat := [2; 3; 1; 2; 3]]> (replicate 32 [])) /\ only_pools boot_state s'.
Proof.
  refine (pools_hold_event_streams boot_state
    [Call 2 5 (Some [1; 2; 3]) 3; Call 2 40 (Some [9]) 1] _ _ _ _).
  - split; [reflexivity|]. apply Forall_replicate. reflexivity.
  - split; simpl; lia.
  - repeat apply Forall_cons_2; try apply Forall_nil_2; intros d [= <-]; simpl; lia.
  - simpl. lia.
Defined.

(** [printPoolsData] (called by every [sys_random]) returns exactly when
    no pool has received more than 4096 bytes; otherwise it reads beyond the
    array of a pool. *)
Theorem printPoolsData_defined (s : kstate) :
  static_pools s ->
  (exists s', printPoolsData s = Ok (tt, s')) <-> Forall (fun p => size p <= POOL_SIZE) (pools s).
Proof.
  intros [Hn Hl].
  assert (Hi : Forall (fun i => 0 <= i < Z.of_nat (length (pools s))) (seqZ 0 MAX_POOLS)).
  { apply Forall_forall. intros i Hi. apply elem_of_seqZ in Hi. rewrite Hn. lia. }
  split.
  - intros [s' E]. apply Forall_lookup. intros i q Hq.
    destruct (Z.le_gt_cases (size q) POOL_SIZE) as [|Hgt]; [assumption|].
    destruct (print_pools_large s (seqZ 0 MAX_POOLS) (tt, s') (Z.of_nat i) q Hl Hi); auto.
    + apply elem_of_seqZ. apply lookup_lt_Some in Hq. lia.
    + rewrite Nat2Z.id. exact Hq.
  - intros Hs. destruct (print_pools_small s (seqZ 0 MAX_POOLS) Hl Hs Hi) as ([] & s' & E & _).
    exists s'. exact E.
Qed.

Lemma printPoolsData_defined_witness :
  (exists s', printPoolsData boot_state = Ok (tt, s')) <->
  Forall (fun p => size p <= POOL_SIZE) (pools boot_state).
Proof.
  apply printPoolsData_defined. split; [reflexivity|]. apply Forall_replicate. reflexivity.
Defined.
End EntropyProps.
