(* ===== verification/Kalloc.v ===== *)
(** The physical page allocator (kalloc.c).  Free pages form a list through
    their first four bytes; every 500 operations the number of free bytes is
    added to an entropy pool. *)

From S2P Require Import Prelude Mem CString Kernel Entropy.

(** The first address after the kernel image, set by the linker; the kernel
    is linked in the high half. *)
Class Platform := { kend : Z; kend_high : Kernel.KERNBASE <= kend }.

Module Kalloc.
Import Kernel Entropy.

(** The number of frames there are. *)
Definition NPAGES : Z := PHYSTOP / PGSIZE.

(** [while (pg != 0) { free_pages++; pg = pg->next; }]: a list without a
    cycle has at most [NPAGES] pages. *)
Fixpoint count_free (fuel : nat) (pg free_pages : Z) : K kstate Z :=
  match fuel with
  | O => fun _ => Spin
  | S fuel =>
      if pg =? 0 then mret free_pages
      else next ← on_mem (load32 pg); count_free fuel next (u32 (free_pages + 1))
  end.

(** The event of both functions; [free_memory_pool] is the static of the
    caller. *)
Definition memory_event (free_memory_pool : Z) : K kstate unit :=
  pg ← gets (fun s => freelist (alloc s));
  free_pages ← count_free (S (Z.to_nat NPAGES)) pg 0;
  let free_memory := u32 (free_pages * PGSIZE) in
  addRandomEvent FREE_MEMORY_SIZE (free_memory_pool mod MAX_POOLS)
                 (Some (le_bytes 4 free_memory)) 4.

Definition incr_memory_operations : K kstate unit :=
  n ← gets (fun s => memory_operations (alloc s)); set_memory_operations (s32 (n + 1)).

Definition event_due (s : kstate) : bool :=
  (kinit2_called (alloc s) =? 1) && (500 <? memory_operations (alloc s)).

Section platform.
Context `{Platform}.

Definition kfree (v : Z) : K kstate unit :=
  incr_memory_operations ;;
  if negb (v mod PGSIZE =? 0) || (v <? kend) || (PHYSTOP <=? V2P v) then panic "kfree"
  else
    on_mem (CString.memset v 1 PGSIZE) ;;
    use ← gets (fun s => use_lock (alloc s));
    (if use =? 0 then skip else acquire_ Lkmem) ;;
    next ← gets (fun s => freelist (alloc s));
    on_mem (store32 v next) ;;
    set_freelist v ;;
    due ← gets event_due;
    (if due : bool then
       fmp ← gets (fun s => kfree_pool (alloc s));
       memory_event fmp ;;
       modify (fun s => let a := alloc s in
         set_alloc (Allocator (km_lock a) (use_lock a) (freelist a) (kinit2_called a)
                              0 (u32 (fmp + 1)) (kalloc_pool a)) s)
     else skip) ;;
    use ← gets (fun s => use_lock (alloc s));
    if use =? 0 then skip else release_ Lkmem.

Definition kalloc : K kstate Z :=
  incr_memory_operations ;;
  use ← gets (fun s => use_lock (alloc s));
  (if use =? 0 then skip else acquire_ Lkmem) ;;
  r ← gets (fun s => freelist (alloc s));
  (if r =? 0 then skip else next ← on_mem (load32 r); set_freelist next) ;;
  due ← gets event_due;
  (if due : bool then
     fmp ← gets (fun s => kalloc_pool (alloc s));
     memory_event fmp ;;
     modify (fun s => let a := alloc s in
       set_alloc (Allocator (km_lock a) (use_lock a) (freelist a) (kinit2_called a)
                            0 (kfree_pool a) (u32 (fmp + 1))) s)
   else skip) ;;
  use ← gets (fun s => use_lock (alloc s));
  (if use =? 0 then skip else release_ Lkmem) ;;
  mret r.

(** [for (; p + PGSIZE <= vend; p += PGSIZE) kfree(p)] makes at most
    [vend / PGSIZE] rounds. *)
Fixpoint freerange_loop (fuel : nat) (p vend : Z) : K kstate unit :=
  match fuel with
  | O => fun _ => Spin
  | S fuel =>
      if p + PGSIZE <=? vend then kfree p ;; freerange_loop fuel (p + PGSIZE) vend
      else skip
  end.
Definition freerange (vstart vend : Z) : K kstate unit :=
  freerange_loop (S (Z.to_nat (vend / PGSIZE))) (PGROUNDUP vstart) vend.

Definition kinit1 (vstart vend : Z) : K kstate unit :=
  modify (fun s => let a := alloc s in
    set_alloc (Allocator (initlock "kmem") 0 (freelist a) (kinit2_called a)
                         (memory_operations a) (kfree_pool a) (kalloc_pool a)) s) ;;
  freerange vstart vend.

Definition kinit2 (vstart vend : Z) : K kstate unit :=
  freerange vstart vend ;;
  modify (fun s => let a := alloc s in
    set_alloc (Allocator (km_lock a) 1 (freelist a) 1
                         (memory_operations a) (kfree_pool a) (kalloc_pool a)) s).
End platform.
End Kalloc.

Module KallocFacts.
Import Kernel KernelFacts Entropy EntropyFacts Kalloc CStringFacts.

Section platform.
Context `{Platform}.

(** A page [kfree] accepts. *)
Definition page_ok (p : Z) : Prop :=
  p mod PGSIZE = 0 /\ kend <= p /\ p < KERNBASE + PHYSTOP.

Lemma page_ok_range p : page_ok p -> KERNBASE <= p < KERNBASE + PHYSTOP.
Proof. intros (_ & H1 & H2). pose proof kend_high. lia. Qed.

Lemma page_ok_u32 p : page_ok p -> is_u32 p.
Proof. intros Hp%page_ok_range. unfold is_u32, KERNBASE, PHYSTOP in *. lia. Qed.

(** [kfree]'s test. *)
Lemma page_ok_test p : page_ok p ->
  negb (p mod PGSIZE =? 0) || (p <? kend) || (PHYSTOP <=? V2P p) = false.
Proof.
  intros Hp. pose proof (page_ok_range p Hp). destruct Hp as (-> & H1 & H2).
  replace (p <? kend) with false by lia. simpl. apply Z.leb_gt. unfold V2P.
  rewrite u32_id by (unfold is_u32, KERNBASE, PHYSTOP in *; lia). lia.
Qed.

(** Distinct pages are disjoint. *)
Lemma pages_apart p q : page_ok p -> page_ok q -> p <> q -> p + PGSIZE <= q \/ q + PGSIZE <= p.
Proof.
  intros (H1 & _) (H2 & _) Hne. unfold PGSIZE in *.
  pose proof (Z.div_mod p 4096). pose proof (Z.div_mod q 4096). lia.
Qed.

(** The free list from [r] goes through the pages [l]. *)
Fixpoint flist (m : pages) (r : Z) (l : list Z) : Prop :=
  match l with
  | [] => r = 0
  | p :: l' =>
      r = p /\ page_ok p /\ mapped m p PGSIZE /\
      exists next, is_u32 next /\ holds m p (le_bytes 4 next) /\ flist m next l'
  end.

Lemma flist_same m m' r l a :
  flist m r l -> same_outside m m' a PGSIZE -> page_ok a -> a ∉ l -> flist m' r l.
Proof.
  revert r. induction l as [|p l IH]; intros r Hl Hs Ha Hn; [exact Hl|].
  destruct Hl as (-> & Hp & Hm & next & Hu & Hh & Hl).
  apply not_elem_of_cons in Hn as [Hne Hn].
  pose proof (pages_apart a p Ha Hp Hne) as Hd.
  split; [reflexivity|]. split; [exact Hp|]. split.
  - intros i Hi. rewrite Hs by lia. apply Hm, Hi.
  - exists next. split; [exact Hu|]. split; [|apply IH; auto].
    eapply holds_same_outside; [exact Hh|exact Hs|]. rewrite length_le_bytes.
    unfold PGSIZE in *. lia.
Qed.

Lemma flist_pages m r l : flist m r l -> Forall page_ok l.
Proof.
  revert r. induction l as [|p l IH]; intros r Hl; [constructor|].
  destruct Hl as (_ & Hp & _ & next & _ & _ & Hl). constructor; eauto.
Qed.

Lemma flist_bound l : NoDup l -> Forall page_ok l -> Z.of_nat (length l) <= NPAGES.
Proof.
  intros Hn Hp.
  assert (Hsub : l ⊆+ ((fun k => KERNBASE + k * PGSIZE) <$> seqZ 0 NPAGES)).
  { apply NoDup_submseteq; [exact Hn|]. intros p Hin.
    pose proof (proj1 (Forall_forall _ _) Hp p Hin) as Hok.
    pose proof (page_ok_range p Hok) as Hr. destruct Hok as (Hm & _ & _).
    apply list_elem_of_fmap. exists ((p - KERNBASE) / PGSIZE).
    assert (E : (p - KERNBASE) mod PGSIZE = 0).
    { rewrite Zminus_mod, Hm. reflexivity. }
    pose proof (Z.div_mod (p - KERNBASE) PGSIZE ltac:(discriminate)) as Hdm.
    split; [unfold PGSIZE in *; lia|]. apply elem_of_seqZ.
    unfold NPAGES, PHYSTOP, PGSIZE in *. change (0xE000000 / 4096) with 57344. lia. }
  apply submseteq_length in Hsub. rewrite length_fmap, length_seqZ in Hsub.
  unfold NPAGES, PHYSTOP, PGSIZE in *. change (0xE000000 / 4096) with 57344 in *. lia.
Qed.

Lemma wp_count_free fuel l r n (Q : Z -> kstate -> Prop) s :
  flist (mem s) r l -> (length l < fuel)%nat -> 0 <= n -> n + Z.of_nat (length l) < 2 ^ 32 ->
  Q (n + Z.of_nat (length l)) s -> wp (count_free fuel r n) Q s.
Proof.
  revert r n fuel. induction l as [|p l IH]; intros r n [|fuel] Hl Hf Hn Hb HQ; simpl in Hf; try lia.
  - simpl in *. subst r. simpl. apply wp_ret. rewrite Z.add_0_r in HQ. exact HQ.
  - destruct Hl as (-> & Hp & Hm & next & Hu & Hh & Hl).
    pose proof (page_ok_range p Hp). simpl length in *.
    cbn [count_free]. replace (p =? 0) with false by (unfold KERNBASE in *; lia).
    apply wp_bind, wp_on_mem. eapply wp_load32; [apply length_le_bytes|exact Hh|].
    rewrite le_word_u32 by exact Hu. rewrite set_mem_same by reflexivity.
    rewrite u32_id by (unfold is_u32; lia). apply IH; try lia; [exact Hl|].
    replace (n + 1 + Z.of_nat (length l)) with (n + Z.of_nat (S (length l))) by lia. exact HQ.
Qed.

(** ** Locking and the event *)

Definition kmem_locked (s : kstate) : kstate :=
  if use_lock (alloc s) =? 0 then s
  else put_lock Lkmem (Lock (name (km_lock (alloc s))) 1 (Some (me s))) (set_cpu (pushcli (k_cpu s)) s).

Lemma wp_lock_kmem (Q : unit -> kstate -> Prop) s :
  free_lock (km_lock (alloc s)) -> Q tt (kmem_locked s) ->
  wp (if use_lock (alloc s) =? 0 then skip else acquire_ Lkmem) Q s.
Proof.
  intros Hf HQ. unfold kmem_locked in HQ. destruct (use_lock (alloc s) =? 0).
  - apply wp_skip, HQ.
  - eapply wp_acquire_; [reflexivity|exact Hf|exact HQ].
Qed.

(** [s2] has the locks that [s1] has, and the interrupt state. *)
Record same_locks (s1 s2 : kstate) : Prop := {
  sl_me : me s2 = me s1;
  sl_cpu : cpu_same (k_cpu s1) (k_cpu s2);
  sl_lock : km_lock (alloc s2) = km_lock (alloc s1);
  sl_use : use_lock (alloc s2) = use_lock (alloc s1);
}.

Lemma wp_unlock_kmem (Q : unit -> kstate -> Prop) s s2 :
  free_lock (km_lock (alloc s)) -> cpu_ok (k_cpu s) -> same_locks (kmem_locked s) s2 ->
  (forall c', cpu_same (k_cpu s) c' -> Q tt (put_lock Lkmem (km_lock (alloc s)) (set_cpu c' s2))) ->
  wp (if use_lock (alloc s2) =? 0 then skip else release_ Lkmem) Q s2.
Proof.
  intros Hf Hc [H1 H2 H3 H4] HQ. unfold kmem_locked in *.
  destruct (use_lock (alloc s) =? 0) eqn:E; rewrite H4; simpl; rewrite E.
  - apply wp_skip. replace s2 with (put_lock Lkmem (km_lock (alloc s)) (set_cpu (k_cpu s2) s2)).
    { apply HQ, H2. }
    rewrite <- H3. destruct s2 as [? ? ? []]; reflexivity.
  - simpl in *. eapply (wp_release_ _ (name (km_lock (alloc s))) (k_cpu s)); [|exact Hc|exact H2|].
    + simpl. rewrite H3, H1. reflexivity.
    + intros c' Hc'. rewrite <- (free_lock_eta _ Hf). apply HQ, Hc'.
Qed.

(** Pools ready for [n] more events. *)
Definition pools_ready (n : nat) (s : kstate) : Prop :=
  exists sts, pools_ok s sts /\
    Forall (fun st => Z.of_nat (length st) + 34 * (Z.of_nat n + 1) < 2 ^ 31) sts.

Lemma pools_ready_pools n s s' : pools s' = pools s -> pools_ready n s -> pools_ready n s'.
Proof.
  intros E (sts & [H1 H2 H3] & H4). exists sts. split; [|exact H4]. split; rewrite ?E; assumption.
Qed.

Lemma pools_ready_weaken n s : pools_ready (S n) s -> pools_ready n s.
Proof.
  intros (sts & H1 & H2). exists sts. split; [exact H1|].
  eapply Forall_impl; [exact H2|]. cbv beta. lia.
Qed.

(** What the event leaves alone. *)
Record event_frame (s s' : kstate) : Prop := {
  ef_locks : same_locks s s';
  ef_freelist : freelist (alloc s') = freelist (alloc s);
  ef_kinit2 : kinit2_called (alloc s') = kinit2_called (alloc s);
  ef_mem : mem s' = mem s;
  ef_clock : clock s' = clock s;
  ef_sha : sha s' = sha s;
  ef_prng : prng s' = prng s;
  ef_out : out s' = out s;
}.

Lemma wp_memory_event n fmp l s (Q : unit -> kstate -> Prop) :
  flist (mem s) (freelist (alloc s)) l -> NoDup l -> cpu_ok (k_cpu s) -> pools_ready (S n) s ->
  (forall s', event_frame s s' -> pools_ready n s' -> Q tt s') ->
  wp (memory_event fmp) Q s.
Proof.
  intros Hl Hn Hc (sts & Hok & Hsz) HQ. unfold memory_event. wp_steps.
  pose proof (flist_bound l Hn (flist_pages _ _ _ Hl)) as Hb.
  assert (HN : NPAGES < 2 ^ 31) by reflexivity.
  apply (wp_count_free _ l); [exact Hl| |lia|lia|].
  { apply Nat2Z.inj_lt. rewrite Nat2Z.inj_succ, Z2Nat.id by (vm_compute; discriminate). lia. }
  apply (wp_addRandomEvent_ok _ _ _ _ _ sts); [exact Hok|exact Hc| | |].
  - intros d [= <-]. simpl. lia.
  - eapply Forall_impl; [exact Hsz|]. simpl. lia.
  - intros s' Hok' [Hcpu (c & ps & ->)]. apply HQ; [repeat split; try exact Hcpu; try apply Hcpu|].
    eexists. split; [exact Hok'|].
    eapply Forall_impl; [apply (event_length _ _ _ _ _ (2 ^ 31 - 34 * (Z.of_nat n + 2) - 1))|].
    + eapply Forall_impl; [exact Hsz|]. cbv beta. lia.
    + cbv beta. lia.
Qed.

Lemma event_frame_refl s : event_frame s s.
Proof. repeat split. Qed.

(** Either the pools can take [n] events, or none is due in the next [n]
    calls; the second is what holds while a pool is locked. *)
Inductive mode := Busy | Quiet.
Definition quiet (n : nat) (s : kstate) : Prop :=
  0 <= memory_operations (alloc s) /\ memory_operations (alloc s) + Z.of_nat n <= 500.
Definition ready (md : mode) (n : nat) (s : kstate) : Prop :=
  match md with Busy => pools_ready n s | Quiet => quiet n s end.
(** The same once the call has been counted. *)
Definition counted (md : mode) (n : nat) (s : kstate) : Prop :=
  match md with Busy => pools_ready (S n) s | Quiet => quiet n s end.

Lemma ready_same md n s s' :
  pools s' = pools s -> memory_operations (alloc s') = memory_operations (alloc s) ->
  ready md n s -> ready md n s'.
Proof.
  intros E1 E2. destruct md; simpl; [apply pools_ready_pools, E1|]. unfold quiet. rewrite E2. auto.
Qed.

Lemma counted_same md n s s' :
  pools s' = pools s -> memory_operations (alloc s') = memory_operations (alloc s) ->
  counted md n s -> counted md n s'.
Proof.
  intros E1 E2. destruct md; simpl; [apply pools_ready_pools, E1|]. unfold quiet. rewrite E2. auto.
Qed.

(** The conditional event of [kfree] and [kalloc]; [f] records it. *)
Lemma wp_maybe_event md n (get_fmp : kstate -> Z) (f : Z -> kstate -> allocator) l s (Q : unit -> kstate -> Prop) :
  (forall x s, km_lock (f x s) = km_lock (alloc s) /\ use_lock (f x s) = use_lock (alloc s) /\
     freelist (f x s) = freelist (alloc s) /\ kinit2_called (f x s) = kinit2_called (alloc s)) ->
  flist (mem s) (freelist (alloc s)) l -> NoDup l -> cpu_ok (k_cpu s) -> counted md n s ->
  (forall s', event_frame s s' -> (md = Quiet -> pools s' = pools s) -> ready md n s' -> Q tt s') ->
  wp (if event_due s
      then fmp ← gets get_fmp; memory_event fmp ;; modify (fun s => set_alloc (f fmp s) s)
      else skip) Q s.
Proof.
  intros Hf Hl Hn Hc Hp HQ. destruct (event_due s) eqn:Hdue.
  - destruct md; simpl in Hp; [|unfold event_due, quiet in *; lia].
    wp_steps. apply (wp_memory_event n _ l); auto. intros s1 [[? ? ? ?] ? ? ? ? ? ? ?] Hp1.
    apply wp_modify. destruct (Hf (get_fmp s) s1) as (F1 & F2 & F3 & F4).
    apply HQ; [|discriminate|eapply pools_ready_pools; [|exact Hp1]; reflexivity].
    repeat split; simpl; try congruence; apply sl_cpu0.
  - apply wp_skip, HQ; [apply event_frame_refl|auto|].
    destruct md; [apply pools_ready_weaken, Hp|exact Hp].
Qed.

(** ** The allocator's state and contract *)

(** The free pages are [l], newest first, and [n] more calls can be made. *)
Record alloc_state (md : mode) (n : nat) (s : kstate) (l : list Z) : Prop := {
  as_list : flist (mem s) (freelist (alloc s)) l;
  as_nodup : NoDup l;
  as_lock : free_lock (km_lock (alloc s));
  as_cpu : cpu_ok (k_cpu s);
  as_pools : ready md n s;
}.

(** Code that writes only to a page that is not free, or does not touch
    memory, keeps the allocator's state. *)
Lemma alloc_state_write md n s s' l q :
  alloc_state md n s l -> alloc s' = alloc s -> k_cpu s' = k_cpu s -> pools s' = pools s ->
  page_ok q -> q ∉ l -> same_outside (mem s) (mem s') q PGSIZE -> alloc_state md n s' l.
Proof.
  intros [] E1 E2 E3 Hq Hn Hs. split; rewrite ?E1, ?E2; auto; [eapply flist_same; eauto|].
  eapply ready_same; [exact E3|rewrite E1; reflexivity|assumption].
Qed.

Lemma alloc_state_same md n s s' l :
  alloc_state md n s l -> alloc s' = alloc s -> k_cpu s' = k_cpu s -> pools s' = pools s ->
  mem s' = mem s -> alloc_state md n s' l.
Proof.
  intros [] E1 E2 E3 E4. split; rewrite ?E1, ?E2, ?E4; auto.
  eapply ready_same; [exact E3|rewrite E1; reflexivity|assumption].
Qed.

Lemma flist_low m m' r l lo n :
  flist m r l -> same_outside m m' lo n -> lo + n <= KERNBASE -> flist m' r l.
Proof.
  revert r. induction l as [|p l IH]; intros r Hl Hs Hlo; [exact Hl|].
  destruct Hl as (-> & Hp & Hm & next & Hu & Hh & Hl). pose proof (page_ok_range p Hp).
  split; [reflexivity|]. split; [exact Hp|]. split.
  - intros i Hi. rewrite Hs by lia. apply Hm, Hi.
  - exists next. split; [exact Hu|]. split; [|eauto].
    eapply holds_same_outside; [exact Hh|exact Hs|]. lia.
Qed.

(** So does code that writes to user memory. *)
Lemma alloc_state_user md n s m' l lo k :
  alloc_state md n s l -> same_outside (mem s) m' lo k -> lo + k <= KERNBASE ->
  alloc_state md n (set_mem m' s) l.
Proof.
  intros [] Hs Hlo. split; auto; [eapply flist_low; eauto|].
  eapply ready_same; [| |eassumption]; reflexivity.
Qed.

Lemma alloc_state_cpu md n s l c :
  alloc_state md n s l -> cpu_same (k_cpu s) c -> alloc_state md n (set_cpu c s) l.
Proof.
  intros [] Hc. split; auto; [eapply cpu_same_ok; eauto|].
  eapply ready_same; [| |eassumption]; reflexivity.
Qed.

(** What the allocator leaves alone, memory apart. *)
Record same_rest (md : mode) (s s' : kstate) : Prop := {
  sr_me : me s' = me s;
  sr_cpu : cpu_same (k_cpu s) (k_cpu s');
  sr_use : use_lock (alloc s') = use_lock (alloc s);
  sr_kinit2 : kinit2_called (alloc s') = kinit2_called (alloc s);
  sr_clock : clock s' = clock s;
  sr_sha : sha s' = sha s;
  sr_prng : prng s' = prng s;
  sr_out : out s' = out s;
  sr_pools : md = Quiet -> pools s' = pools s;
}.

Lemma same_rest_refl md s : same_rest md s s.
Proof. repeat split. Qed.

Lemma same_rest_trans md s1 s2 s3 : same_rest md s1 s2 -> same_rest md s2 s3 -> same_rest md s1 s3.
Proof.
  intros [] []. split; try congruence; [eapply cpu_same_trans; eauto|].
  intros E. rewrite sr_pools1, sr_pools0 by exact E. reflexivity.
Qed.

Lemma kmem_locked_ok s : cpu_ok (k_cpu s) -> cpu_ok (k_cpu (kmem_locked s)).
Proof. intros Hc. unfold kmem_locked. case_match; [exact Hc|]. apply (pushcli_ok _ Hc). Qed.

Lemma kmem_locked_frame s :
  mem (kmem_locked s) = mem s /\ freelist (alloc (kmem_locked s)) = freelist (alloc s) /\
  use_lock (alloc (kmem_locked s)) = use_lock (alloc s) /\
  kinit2_called (alloc (kmem_locked s)) = kinit2_called (alloc s) /\
  pools (kmem_locked s) = pools s /\ me (kmem_locked s) = me s /\ clock (kmem_locked s) = clock s /\
  sha (kmem_locked s) = sha s /\ prng (kmem_locked s) = prng s /\ out (kmem_locked s) = out s.
Proof. unfold kmem_locked. case_match; repeat split. Qed.

Lemma kmem_locked_ops s : memory_operations (alloc (kmem_locked s)) = memory_operations (alloc s).
Proof. unfold kmem_locked. case_match; reflexivity. Qed.

(** The end of both functions: unlock and return to a caller in state [s]. *)
Lemma unlock_state md n s s1 s2 l c' :
  s1 = kmem_locked s -> event_frame (set_alloc (alloc s2) (set_mem (mem s2) s1)) s2 ->
  free_lock (km_lock (alloc s)) -> cpu_ok (k_cpu s) -> cpu_same (k_cpu s) c' ->
  use_lock (alloc s2) = use_lock (alloc s) -> kinit2_called (alloc s2) = kinit2_called (alloc s) ->
  flist (mem s2) (freelist (alloc s2)) l -> NoDup l -> (md = Quiet -> pools s2 = pools s) -> ready md n s2 ->
  alloc_state md n (put_lock Lkmem (km_lock (alloc s)) (set_cpu c' s2)) l /\
  same_rest md s (put_lock Lkmem (km_lock (alloc s)) (set_cpu c' s2)).
Proof.
  intros -> [[] ? ? ? ? ? ? ?] Hf Hc Hc' Hu Hk Hl Hn Hpp Hp.
  destruct (kmem_locked_frame s) as (_ & _ & _ & _ & _ & E6 & E7 & E8 & E9 & E10). simpl in *.
  split; split; simpl; auto; try congruence; [eapply cpu_same_ok; eauto|].
  eapply ready_same; [| |exact Hp]; reflexivity.
Qed.

(** The state after [memory_operations++]. *)
Record counted_state (md : mode) (n : nat) (s : kstate) (l : list Z) : Prop := {
  cs_list : flist (mem s) (freelist (alloc s)) l;
  cs_nodup : NoDup l;
  cs_lock : free_lock (km_lock (alloc s));
  cs_cpu : cpu_ok (k_cpu s);
  cs_pools : counted md n s;
}.

Lemma wp_incr md n l s (Q : unit -> kstate -> Prop) :
  alloc_state md (S n) s l ->
  (forall s0, counted_state md n s0 l -> same_rest md s s0 -> mem s0 = mem s -> Q tt s0) ->
  wp incr_memory_operations Q s.
Proof.
  intros [Hl Hn Hf Hc Hp] HQ. unfold incr_memory_operations, set_memory_operations. wp_steps.
  apply HQ; [split; auto|split; auto; apply cpu_same_refl|reflexivity].
  destruct md; simpl in *.
  - eapply pools_ready_pools; [|exact Hp]. reflexivity.
  - unfold quiet in *. simpl. rewrite s32_id by (unfold is_s32; lia). lia.
Qed.

Lemma wp_kalloc md n s l (Q : Z -> kstate -> Prop) :
  alloc_state md (S n) s l ->
  (forall s', alloc_state md n s' (tail l) -> mem s' = mem s -> same_rest md s s' ->
     Q (default 0 (head l)) s') ->
  wp kalloc Q s.
Proof.
  intros Has HQ. unfold kalloc. apply wp_bind, (wp_incr _ _ l _ _ Has).
  intros s0 [Hl0 Hn Hf0 Hc0 Hp0] R0 M0. wp_steps. apply wp_lock_kmem; [exact Hf0|]. wp_steps.
  pose proof (kmem_locked_ok s0 Hc0) as Hck.
  destruct (kmem_locked_frame s0) as (E1 & E2 & E3 & E4 & E5 & E6). rewrite E2.
  eapply (wp_mono _ (fun _ s1 => exists a, s1 = set_alloc a (kmem_locked s0) /\
    flist (mem s0) (freelist a) (tail l) /\ km_lock a = km_lock (alloc (kmem_locked s0)) /\
    use_lock a = use_lock (alloc s0) /\ kinit2_called a = kinit2_called (alloc s0) /\
    memory_operations a = memory_operations (alloc s0))).
  { destruct l as [|p l]; simpl in Hl0.
    - rewrite Hl0. simpl. apply wp_skip. exists (alloc (kmem_locked s0)). rewrite E2, Hl0, E3, E4, kmem_locked_ops.
      repeat split. destruct (kmem_locked s0); reflexivity.
    - destruct Hl0 as (-> & Hpo & Hm & next & Hu & Hh & Hl0).
      pose proof (page_ok_range p Hpo). replace (p =? 0) with false by (unfold KERNBASE in *; lia).
      apply wp_bind, wp_on_mem. rewrite E1. eapply wp_load32; [apply length_le_bytes|exact Hh|].
      rewrite le_word_u32, set_mem_same by assumption. apply wp_modify.
      eexists. split; [reflexivity|]. simpl. rewrite E3, E4, kmem_locked_ops. auto. }
  intros [] s1 (a & -> & Ha1 & Ha2 & Ha3 & Ha4 & Ha5). wp_steps.
  apply (wp_maybe_event md n (fun s => kalloc_pool (alloc s)) (fun x s => Allocator _ _ _ _ 0 _ (u32 (x + 1))) (tail l)).
  - intros x s1. simpl. auto.
  - simpl. rewrite E1. exact Ha1.
  - destruct l; [constructor|]. inversion_clear Hn. assumption.
  - exact Hck.
  - eapply counted_same; [| |exact Hp0]; [exact E5|exact Ha5].
  - intros s2 [[] ? ? ? ? ? ? ?] Hpp2 Hp2. simpl in *. wp_steps.
    eapply wp_unlock_kmem; [exact Hf0|exact Hc0|split; simpl; congruence|].
    intros c' Hc'. apply wp_ret.
    assert (Hr : freelist (alloc s0) = default 0 (head l)).
    { destruct l; simpl in *; [assumption|apply Hl0]. }
    rewrite Hr.
    assert (Hpp : md = Quiet -> pools s2 = pools s0) by (intros Em; rewrite (Hpp2 Em); exact E5).
    destruct (unlock_state md n s0 (kmem_locked s0) s2 (tail l) c' eq_refl) as [G1 G2];
      try assumption; try congruence.
    + repeat split; simpl; try congruence; apply sl_cpu0.
    + destruct l; [constructor|]. inversion_clear Hn. assumption.
    + apply HQ; [exact G1|simpl; congruence|eapply same_rest_trans; eauto].
Qed.

(** The junk [kfree] leaves in a page, after the link. *)
Definition junk : list Z := replicate (Z.to_nat (PGSIZE - 4)) 1.

Lemma wp_link v next (Q : unit -> pages -> Prop) m :
  mapped m v PGSIZE -> holds m v (replicate (Z.to_nat PGSIZE) 1) ->
  (forall m', holds m' v (le_bytes 4 next) -> holds m' (v + 4) junk ->
     same_outside m m' v PGSIZE -> Q tt m') ->
  wp (store32 v next) Q m.
Proof.
  intros Hm Hh HQ. apply wp_store_bytes; rewrite length_le_bytes.
  - intros i Hi. apply Hm. unfold PGSIZE. lia.
  - intros m' H1 H2. apply HQ; [exact H1| |].
    + intros i x Hx. unfold junk in Hx. apply lookup_replicate in Hx as [-> Hi].
      rewrite H2 by lia.
      replace (v + 4 + Z.of_nat i) with (v + Z.of_nat (4 + i)) by lia. apply Hh.
      apply lookup_replicate. split; [reflexivity|]. unfold PGSIZE in *. lia.
    + eapply same_outside_weaken; [exact H2|lia|]. unfold PGSIZE. lia.
Qed.

Lemma flist_cons m m' r l p :
  flist m r l -> is_u32 r -> page_ok p -> p ∉ l -> mapped m' p PGSIZE ->
  same_outside m m' p PGSIZE -> holds m' p (le_bytes 4 r) -> flist m' p (p :: l).
Proof.
  intros Hl Hr Hp Hn Hm Hs Hh. split; [reflexivity|]. split; [exact Hp|]. split; [exact Hm|].
  exists r. split; [exact Hr|]. split; [exact Hh|]. eapply flist_same; eauto.
Qed.

Lemma flist_u32 m r l : flist m r l -> is_u32 r.
Proof.
  destruct l; [intros ->; unfold is_u32; lia|]. intros (-> & Hp & _). apply page_ok_u32, Hp.
Qed.

Lemma mapped_same m m' lo n : mapped m lo n -> holds m' lo (replicate (Z.to_nat n) 1) -> mapped m' lo n.
Proof.
  intros H1 H2 i Hi. exists 1. replace (lo + i) with (lo + Z.of_nat (Z.to_nat i)) by lia.
  apply H2, lookup_replicate. lia.
Qed.

Lemma wp_kfree md n s l p (Q : unit -> kstate -> Prop) :
  alloc_state md (S n) s l -> page_ok p -> p ∉ l -> mapped (mem s) p PGSIZE ->
  (forall s', alloc_state md n s' (p :: l) -> same_outside (mem s) (mem s') p PGSIZE ->
     holds (mem s') (p + 4) junk -> same_rest md s s' -> Q tt s') ->
  wp (kfree p) Q s.
Proof.
  intros Has Hp Hnin Hm HQ. unfold kfree. apply wp_bind, (wp_incr _ _ l _ _ Has).
  intros s0 [Hl0 Hn Hf0 Hc0 Hp0] R0 M0. rewrite page_ok_test by exact Hp.
  apply wp_bind, wp_on_mem, wp_memset; [discriminate|rewrite M0; exact Hm|].
  intros m1 Hm1 Hs1. rewrite M0 in Hs1. rewrite <- M0 in Hm.
  set (s1 := set_mem m1 s0). wp_steps.
  apply wp_lock_kmem; [exact Hf0|]. wp_steps.
  pose proof (kmem_locked_ok s1 Hc0) as Hck.
  destruct (kmem_locked_frame s1) as (E1 & E2 & E3 & E4 & E5 & E6 & E7 & E8 & E9 & E10).
  apply wp_on_mem. rewrite E1, E2. simpl mem.
  apply wp_link; [eapply mapped_same; [exact Hm|exact Hm1]|exact Hm1|].
  intros m2 Hh2 Hj2 Hs2. unfold set_freelist. wp_steps. simpl in Hs2.
  assert (Hs : same_outside (mem s) m2 p PGSIZE) by (eapply same_outside_trans; eauto).
  assert (Hmap2 : mapped m2 p PGSIZE).
  { intros i Hi. destruct (Z.lt_ge_cases i 4).
    - apply (holds_mapped _ _ _ Hh2). rewrite length_le_bytes. lia.
    - replace (p + i) with (p + 4 + (i - 4)) by lia. apply (holds_mapped _ _ _ Hj2).
      unfold junk. rewrite length_replicate. unfold PGSIZE in *. lia. }
  eapply (wp_maybe_event md n (fun s => kfree_pool (alloc s))
    (fun x s => Allocator _ _ _ _ 0 (u32 (x + 1)) _) (p :: l)).
  - intros x s2. simpl. auto.
  - simpl. eapply flist_cons; [exact Hl0|eapply flist_u32, Hl0| | | | |]; try assumption.
    rewrite M0. exact Hs.
  - constructor; assumption.
  - exact Hck.
  - eapply counted_same; [| |exact Hp0]; [exact E5|exact (kmem_locked_ops s1)].
  - intros s2 [[] ? ? ? ? ? ? ?] Hpp2 Hp2. simpl in *. wp_steps.
    eapply wp_unlock_kmem with (s := s1); [exact Hf0|exact Hc0|split; simpl; congruence|].
    intros c' Hc'.
    assert (Hpp : md = Quiet -> pools s2 = pools s1) by (intros Em; rewrite (Hpp2 Em); exact E5).
    destruct (unlock_state md n s1 (kmem_locked s1) s2 (p :: l) c' eq_refl) as [G1 G2];
      try assumption; try congruence.
    + repeat split; simpl; try congruence; apply sl_cpu0.
    + simpl. congruence.
    + simpl. congruence.
    + rewrite ef_mem0, ef_freelist0.
      eapply flist_cons; [exact Hl0|eapply flist_u32, Hl0| | | | |]; try assumption.
      rewrite M0. exact Hs.
    + constructor; assumption.
    + apply HQ; [exact G1|simpl; rewrite ef_mem0; exact Hs|simpl; rewrite ef_mem0; exact Hj2|].
      eapply same_rest_trans; [exact R0|]. destruct G2; split; assumption.
Qed.

Lemma kfree_bad v s :
  v mod PGSIZE <> 0 \/ v < kend \/ PHYSTOP <= V2P v -> kfree v s = Panic "kfree".
Proof.
  intros Hv. unfold kfree, incr_memory_operations, mbind, K_bind; simpl.
  replace (_ || _) with true; [reflexivity|]. symmetry.
  rewrite !orb_true_iff, negb_true_iff, Z.eqb_neq, Z.ltb_lt, Z.leb_le. tauto.
Qed.

(** Memory that was mapped stays mapped. *)
Lemma mapped_after_kfree md n s s' l p q :
  alloc_state md n s' (p :: l) -> same_outside (mem s) (mem s') p PGSIZE ->
  mapped (mem s) q PGSIZE -> mapped (mem s') q PGSIZE.
Proof.
  intros [(_ & Hp & Hm & _) _ _ _ _] Hs Hq i Hi.
  destruct (decide (p <= q + i < p + PGSIZE)) as [Hin|Hout].
  - replace (q + i) with (p + (q + i - p)) by lia. apply Hm. lia.
  - rewrite Hs by exact Hout. apply Hq, Hi.
Qed.

(** ** Ranges *)

(** The pages of [p, p + k * PGSIZE). *)
Definition page_range (p : Z) (k : nat) : list Z := (fun i => p + PGSIZE * i) <$> seqZ 0 (Z.of_nat k).

Lemma page_range_succ p k : page_range p (S k) = p :: page_range (p + PGSIZE) k.
Proof.
  unfold page_range. rewrite seqZ_cons by lia. rewrite fmap_cons. f_equal; [lia|].
  change (Z.succ 0) with (1 + 0). replace (Z.pred (Z.of_nat (S k))) with (Z.of_nat k) by lia.
  rewrite <- (fmap_add_seqZ 1 0 (Z.of_nat k)), <- list_fmap_compose.
  apply list_fmap_ext. intros i x Hx. unfold compose. lia.
Qed.

Lemma wp_freerange_loop md k fuel n p vend s l (Q : unit -> kstate -> Prop) :
  (k < fuel)%nat -> p + PGSIZE * Z.of_nat k <= vend < p + PGSIZE * Z.of_nat (S k) ->
  alloc_state md (k + n) s l ->
  Forall page_ok (page_range p k) -> Forall (fun q => q ∉ l) (page_range p k) ->
  Forall (fun q => mapped (mem s) q PGSIZE) (page_range p k) ->
  (forall s', alloc_state md n s' (rev (page_range p k) ++ l) -> same_rest md s s' ->
     (forall q, mapped (mem s) q PGSIZE -> mapped (mem s') q PGSIZE) -> Q tt s') ->
  wp (freerange_loop fuel p vend) Q s.
Proof.
  revert fuel p s l. induction k as [|k IH]; intros [|fuel] p s l Hf Hv Has Hok Hnin Hmap HQ; try lia.
  - simpl. replace (p + PGSIZE <=? vend) with false by (unfold PGSIZE in *; lia).
    apply wp_skip, HQ; [exact Has|apply same_rest_refl|auto].
  - rewrite page_range_succ in *. inversion_clear Hok. inversion_clear Hnin. inversion_clear Hmap.
    cbn [freerange_loop].
    replace (p + PGSIZE <=? vend) with true by (unfold PGSIZE in *; lia).
    apply wp_bind, (wp_kfree md (k + n) s l); auto. intros s1 Has1 Hs1 _ Hr1.
    assert (Hmm : forall q, mapped (mem s) q PGSIZE -> mapped (mem s1) q PGSIZE)
      by (intros q; eapply mapped_after_kfree; eauto).
    apply (IH fuel (p + PGSIZE) s1 (p :: l)); auto; try lia.
    + apply Forall_forall. intros q Hq.
      apply not_elem_of_cons. split; [|exact (proj1 (Forall_forall _ _) H3 q Hq)]. intros ->.
      apply list_elem_of_fmap in Hq as (i & Hi & Hin). apply elem_of_seqZ in Hin.
      unfold PGSIZE in *. lia.
    + eapply Forall_impl; [eassumption|]. cbv beta. auto.
    + intros s2 Has2 Hr2 Hm2. apply HQ.
      * cbn [rev]. rewrite <- app_assoc. exact Has2.
      * eapply same_rest_trans; eauto.
      * auto.
Qed.

Lemma PGROUNDUP_spec a : 0 <= a -> a + PGSIZE <= 2 ^ 32 ->
  PGROUNDUP a = (a + (PGSIZE - 1)) / PGSIZE * PGSIZE.
Proof.
  intros H1 H2. unfold PGROUNDUP. rewrite u32_id by (unfold is_u32, PGSIZE in *; lia).
  change (PGSIZE - 1) with (Z.ones 12). rewrite <- Z.ldiff_land, Z.ldiff_ones_r by lia.
  rewrite Z.shiftl_mul_pow2, Z.shiftr_div_pow2 by lia.
  change (Z.ones 12) with 4095. unfold PGSIZE. change (2 ^ 12) with 4096. do 2 f_equal. lia.
Qed.

(** ** Sequences of calls *)

Inductive op := OpAlloc | OpFree (p : Z).

Definition run_op (o : op) : K kstate Z :=
  match o with
  | OpAlloc => kalloc
  | OpFree p => kfree p ;; mret p
  end.
Fixpoint run_ops (os : list op) : K kstate (list Z) :=
  match os with
  | [] => mret []
  | o :: os => r ← run_op o; rs ← run_ops os; mret (r :: rs)
  end.

(** The specification: a stack of free pages. *)
Definition spec_op (o : op) (l : list Z) : Z * list Z :=
  match o with
  | OpAlloc => (default 0 (head l), tail l)
  | OpFree p => (p, p :: l)
  end.
Fixpoint spec_ops (os : list op) (l : list Z) : list Z * list Z :=
  match os with
  | [] => ([], l)
  | o :: os => let '(r, l') := spec_op o l in let '(rs, l'') := spec_ops os l' in (r :: rs, l'')
  end.

(** Every page freed is a page that was mapped in [m] and is not free. *)
Fixpoint legal (m : pages) (os : list op) (l : list Z) : Prop :=
  match os with
  | [] => True
  | o :: os =>
      (match o with OpAlloc => True | OpFree p => page_ok p /\ (p ∉ l) /\ mapped m p PGSIZE end) /\
      legal m os (snd (spec_op o l))
  end.

Lemma legal_mono m m' os l :
  (forall q, mapped m q PGSIZE -> mapped m' q PGSIZE) -> legal m os l -> legal m' os l.
Proof.
  intros Hm. revert l. induction os as [|o os IH]; intros l; simpl; [auto|].
  destruct o; intuition auto.
Qed.

Lemma wp_run_ops md os n s l :
  alloc_state md (length os + n) s l -> legal (mem s) os l ->
  wp (run_ops os) (fun rs s' => (rs, snd (spec_ops os l)) = spec_ops os l /\
    alloc_state md n s' (snd (spec_ops os l)) /\ same_rest md s s') s.
Proof.
  revert s l. induction os as [|o os IH]; intros s l Has Hleg; simpl.
  - apply wp_ret. split; [reflexivity|]. split; [exact Has|apply same_rest_refl].
  - destruct Hleg as [Ho Hleg]. wp_steps.
    eapply (wp_mono _ (fun r s1 => r = fst (spec_op o l) /\ same_rest md s s1 /\
      alloc_state md (length os + n) s1 (snd (spec_op o l)) /\
      forall q, mapped (mem s) q PGSIZE -> mapped (mem s1) q PGSIZE)).
    { destruct o as [|p]; simpl in *.
      - eapply wp_kalloc; [exact Has|]. intros s1 H1 H2 H3. rewrite H2. auto.
      - destruct Ho as (Hp & Hn & Hm). wp_steps. eapply wp_kfree; eauto.
        intros s1 H1 H2 _ H3. apply wp_ret. split; [reflexivity|]. split; [exact H3|].
        split; [exact H1|]. intros q. eapply mapped_after_kfree; eauto. }
    intros r s1 (-> & Hr & H1 & Hm). wp_steps.
    eapply wp_mono; [apply (IH s1 _ H1); eapply legal_mono; eauto|].
    intros rs s2 (E & H2 & Hr2). apply wp_ret.
    destruct (spec_op o l) as [r l'] eqn:Eo. simpl in *.
    destruct (spec_ops os l') as [rs' l''] eqn:Es. simpl in *. injection E as ->.
    split; [reflexivity|]. split; [exact H2|]. eapply same_rest_trans; eauto.
Qed.

Lemma wp_freerange md k n p vend s l (Q : unit -> kstate -> Prop) :
  0 <= p -> p + PGSIZE <= 2 ^ 32 -> PGROUNDUP p + PGSIZE * Z.of_nat k <= vend ->
  vend < PGROUNDUP p + PGSIZE * Z.of_nat (S k) ->
  alloc_state md (k + n) s l ->
  Forall page_ok (page_range (PGROUNDUP p) k) -> Forall (fun q => q ∉ l) (page_range (PGROUNDUP p) k) ->
  Forall (fun q => mapped (mem s) q PGSIZE) (page_range (PGROUNDUP p) k) ->
  (forall s', alloc_state md n s' (rev (page_range (PGROUNDUP p) k) ++ l) -> same_rest md s s' ->
     (forall q, mapped (mem s) q PGSIZE -> mapped (mem s') q PGSIZE) -> Q tt s') ->
  wp (freerange p vend) Q s.
Proof.
  intros Hp Hp2 Hv1 Hv2 Has Hok Hn Hm HQ. unfold freerange.
  eapply wp_freerange_loop; [| |exact Has|..]; eauto.
  rewrite PGROUNDUP_spec in Hv1 by assumption. unfold PGSIZE in *.
  pose proof (Z.div_pos (p + (4096 - 1)) 4096 ltac:(lia) ltac:(lia)).
  pose proof (Z.div_le_lower_bound vend 4096 (Z.of_nat k) ltac:(lia) ltac:(lia)). lia.
Qed.

Lemma page_range_app p a b :
  page_range p (a + b) = page_range p a ++ page_range (p + PGSIZE * Z.of_nat a) b.
Proof.
  revert p. induction a as [|a IH]; intros p; simpl.
  - f_equal. lia.
  - rewrite !page_range_succ, IH. simpl. do 3 f_equal. lia.
Qed.

Lemma elem_of_page_range p k q :
  q ∈ page_range p k -> p <= q /\ q + PGSIZE <= p + PGSIZE * Z.of_nat k /\ q mod PGSIZE = p mod PGSIZE.
Proof.
  intros (i & -> & Hi)%list_elem_of_fmap. apply elem_of_seqZ in Hi.
  rewrite (Z.mul_comm PGSIZE i), Z.mod_add by discriminate. unfold PGSIZE. lia.
Qed.

Lemma page_range_ok p k : p mod PGSIZE = 0 -> kend <= p ->
  p + PGSIZE * Z.of_nat k <= KERNBASE + PHYSTOP -> Forall page_ok (page_range p k).
Proof.
  intros H1 H2 H3. apply Forall_forall. intros q (A & B & C)%elem_of_page_range.
  split; [congruence|]. unfold PGSIZE in *. lia.
Qed.

Lemma PGROUNDUP_aligned a : 0 <= a -> a + PGSIZE <= 2 ^ 32 -> a mod PGSIZE = 0 -> PGROUNDUP a = a.
Proof.
  intros H1 H2 H3. rewrite PGROUNDUP_spec by assumption. unfold PGSIZE in *.
  pose proof (Z.div_mod a 4096 ltac:(lia)).
  replace ((a + (4096 - 1)) / 4096) with (a / 4096); [lia|]. apply (Z.div_unique _ _ _ 4095); lia.
Qed.

Lemma PGROUNDUP_up a : 0 <= a -> a + PGSIZE <= 2 ^ 32 ->
  a <= PGROUNDUP a /\ PGROUNDUP a mod PGSIZE = 0.
Proof.
  intros H1 H2. rewrite PGROUNDUP_spec by assumption. rewrite Z.mod_mul by discriminate.
  pose proof (Z.div_mod (a + (PGSIZE - 1)) PGSIZE ltac:(discriminate)).
  pose proof (Z.mod_pos_bound (a + (PGSIZE - 1)) PGSIZE eq_refl). lia.
Qed.

(** ** A memory with a given free list *)

Fixpoint chain (l : list Z) : pages :=
  match l with
  | [] => ∅
  | p :: l' => <[p / PGSIZE := le_bytes 4 (default 0 (head l')) ++ replicate (Z.to_nat (PGSIZE - 4)) 0]> (chain l')
  end.

Lemma insert_page_same (m : pages) p pg : p mod PGSIZE = 0 -> same_outside m (<[p / PGSIZE := pg]> m) p PGSIZE.
Proof.
  intros Hp a Ha. simpl. unfold page_load. destruct (decide (p / PGSIZE = a / PGSIZE)) as [E|E].
  - exfalso. apply Ha. unfold PGSIZE in *. pose proof (Z.div_mod p 4096 ltac:(lia)).
    pose proof (Z.div_mod a 4096 ltac:(lia)). pose proof (Z.mod_pos_bound a 4096 ltac:(lia)). lia.
  - rewrite lookup_insert_ne by exact E. reflexivity.
Qed.

Lemma insert_page_holds (m : pages) p pg : p mod PGSIZE = 0 -> Z.of_nat (length pg) = PGSIZE ->
  holds (<[p / PGSIZE := pg]> m) p pg.
Proof.
  intros Hp Hl i x Hx. pose proof (lookup_lt_Some _ _ _ Hx). simpl. unfold page_load, PGSIZE in *.
  pose proof (Z.div_mod p 4096 ltac:(lia)).
  replace ((p + Z.of_nat i) / 4096) with (p / 4096) by (apply (Z.div_unique _ _ _ (Z.of_nat i)); lia).
  rewrite lookup_insert_eq. simpl.
  replace ((p + Z.of_nat i) mod 4096) with (Z.of_nat i) by (apply (Z.mod_unique _ _ (p / 4096)); lia).
  rewrite Nat2Z.id. exact Hx.
Qed.

Lemma chain_flist l : Forall page_ok l -> NoDup l -> flist (chain l) (default 0 (head l)) l.
Proof.
  induction l as [|p l IH]; intros Hok Hnd; [reflexivity|].
  inversion_clear Hok as [|? ? Hp Hok']. apply NoDup_cons in Hnd as [Hn Hnd].
  set (next := default 0 (head l)).
  assert (Hu : is_u32 next).
  { unfold next. destruct l as [|q l]; simpl; [unfold is_u32; lia|]. inversion_clear Hok'. apply page_ok_u32. assumption. }
  assert (Hh : holds (chain (p :: l)) p (le_bytes 4 next ++ replicate (Z.to_nat (PGSIZE - 4)) 0)).
  { apply insert_page_holds; [apply Hp|]. rewrite length_app, length_le_bytes, length_replicate. unfold PGSIZE. lia. }
  split; [reflexivity|]. split; [exact Hp|]. split.
  - replace PGSIZE with (Z.of_nat (length (le_bytes 4 next ++ replicate (Z.to_nat (PGSIZE - 4)) 0)));
      [apply (holds_mapped _ _ _ Hh)|].
    rewrite length_app, length_le_bytes, length_replicate. unfold PGSIZE. lia.
  - exists next. split; [exact Hu|]. apply holds_app in Hh as [Hh _]. split; [exact Hh|].
    apply (flist_same (chain l) _ _ _ p); auto. apply insert_page_same, Hp.
Qed.
End platform.
End KallocFacts.

Module KallocProps.
Import Kernel KernelFacts Entropy EntropyFacts EntropyProps Kalloc KallocFacts.

(** C26: any sequence of [kalloc] and legal [kfree] calls returns and behaves
    as a stack of free pages: [kalloc] returns the page freed last, or 0 when
    none is left, a page is never handed out twice, and only the allocator,
    the pools and the freed pages change - also when the calls record entropy
    events. *)
Theorem allocator_refines_page_stack `{Platform} (os : list op) (s : kstate) (l : list Z) :
  alloc_state Busy (length os) s l -> legal (mem s) os l ->
  exists rs l' s', run_ops os s = Ok (rs, s') /\ spec_ops os l = (rs, l') /\
    alloc_state Busy 0 s' l' /\ NoDup l' /\ same_rest Busy s s'.
Proof.
  intros Has Hl. rewrite <- (Nat.add_0_r (length os)) in Has.
  destruct (wp_run_ops Busy os 0 s l Has Hl) as (rs & s' & E & E2 & H1 & H2).
  exists rs, (snd (spec_ops os l)), s'. pose proof (as_nodup _ _ _ _ H1). auto 6.
Qed.

(** A machine with two frames above the kernel image. *)
Definition test_platform : Platform := {| kend := 0x80111a00; kend_high := ltac:(discriminate) |}.
Definition test_pages : pages :=
  {[ 0x80112 := replicate (Z.to_nat PGSIZE) 0; 0x80113 := replicate (Z.to_nat PGSIZE) 0 ]}.
Definition test_state : kstate :=
  KState 0 (Cpu 0 false true) test_pages
    (Allocator (initlock "kmem") 1 0 1 500 3 9)
    (replicate (Z.to_nat MAX_POOLS) empty_pool)
    (Timer 0 (initlock "time")) (Hasher [] []) (Generator [] [] 0 0) [].

Lemma test_pools_ready n : (n < 1000)%nat -> pools_ready n test_state.
Proof.
  intros Hn. exists (replicate (Z.to_nat MAX_POOLS) []). split; [apply (init_pools_ok test_state)|].
  apply Forall_replicate. simpl. lia.
Qed.

Lemma test_alloc_state n : (n < 1000)%nat -> @alloc_state test_platform Busy n test_state [].
Proof.
  intros Hn. split; [reflexivity|constructor|split; reflexivity|split; simpl; lia|].
  apply test_pools_ready, Hn.
Qed.

Lemma test_mapped p : p = 0x80112000 \/ p = 0x80113000 -> mapped test_pages p PGSIZE.
Proof. intros [-> | ->]; eapply mapped_page; reflexivity. Qed.

(** The third call records an event: it is the 501st operation. *)
Lemma allocator_refines_page_stack_witness :
  let os := [OpFree 0x80112000; OpFree 0x80113000; OpAlloc; OpAlloc; OpAlloc] in
  exists rs l' s', @run_ops test_platform os test_state = Ok (rs, s') /\
    spec_ops os [] = (rs, l') /\ @alloc_state test_platform Busy 0 s' l' /\ NoDup l' /\
    same_rest Busy test_state s'.
Proof.
  apply (@allocator_refines_page_stack test_platform); [apply test_alloc_state; simpl; lia|].
  split; [|split; [|simpl; auto]].
  - split; [split; [reflexivity|split; [discriminate|reflexivity]]|].
    split; [apply not_elem_of_nil|apply test_mapped; auto].
  - split; [split; [reflexivity|split; [discriminate|reflexivity]]|].
    split; [|apply test_mapped; auto].
    apply not_elem_of_cons. split; [discriminate|apply not_elem_of_nil].
Defined.

(** [kfree] of a mapped address outside the free list panics exactly when
    the address is not page aligned, lies in the kernel image or is beyond the
    end of physical memory; otherwise it returns. *)
Theorem kfree_panics_exactly `{Platform} (s : kstate) (l : list Z) (v : Z) :
  alloc_state Busy 1 s l -> is_u32 v -> mapped (mem s) v PGSIZE -> v ∉ l ->
  (v mod PGSIZE = 0 /\ kend <= v < KERNBASE + PHYSTOP /\ exists s', kfree v s = Ok (tt, s')) \/
  (~ (v mod PGSIZE = 0 /\ kend <= v < KERNBASE + PHYSTOP) /\ kfree v s = Panic "kfree").
Proof.
  intros Has Hu Hm Hn.
  destruct (decide (v mod PGSIZE = 0 /\ kend <= v < KERNBASE + PHYSTOP)) as [(A & B & C)|Hbad].
  - left. split; [exact A|]. split; [lia|].
    destruct (wp_kfree Busy 0 s l v (fun _ _ => True) Has) as ([] & s' & E & _); auto; [|eauto].
    split; [exact A|lia].
  - right. split; [exact Hbad|]. apply kfree_bad. pose proof kend_high.
    destruct (decide (v mod PGSIZE = 0)); [|auto]. destruct (decide (v < kend)); [auto|].
    right; right. unfold V2P. rewrite u32_id by (unfold is_u32, KERNBASE in *; lia). lia.
Qed.

Lemma kfree_panics_exactly_witness :
  (0x80113000 mod PGSIZE = 0 /\ 0x80111a00 <= 0x80113000 < KERNBASE + PHYSTOP /\
   exists s', @kfree test_platform 0x80113000 test_state = Ok (tt, s')) \/
  (~ (0x80113000 mod PGSIZE = 0 /\ 0x80111a00 <= 0x80113000 < KERNBASE + PHYSTOP) /\
   @kfree test_platform 0x80113000 test_state = Panic "kfree").
Proof.
  apply (@kfree_panics_exactly test_platform test_state [] 0x80113000).
  - apply test_alloc_state. lia.
  - split; [discriminate|reflexivity].
  - apply test_mapped. auto.
  - apply not_elem_of_nil.
Defined.

(** booting the allocator ([kinit1] then [kinit2], as [main] does, with
    the boundary between the ranges page aligned) puts every page from the
    end of the kernel to the top of memory on the free list exactly once,
    highest address first, and switches the lock on. *)
Theorem kinit_frees_every_page `{Platform} (v0 v1 v2 : Z) (k1 k2 : nat) (s : kstate) :
  freelist (alloc s) = 0 -> cpu_ok (k_cpu s) -> pools_ready (k1 + k2) s ->
  kend <= v0 <= v1 -> v1 mod PGSIZE = 0 -> PGROUNDUP v0 + PGSIZE * Z.of_nat k1 = v1 ->
  v1 + PGSIZE * Z.of_nat k2 = v2 -> v2 <= KERNBASE + PHYSTOP ->
  Forall (fun q => mapped (mem s) q PGSIZE) (page_range (PGROUNDUP v0) (k1 + k2)) ->
  exists s', (kinit1 v0 v1 ;; kinit2 v1 v2) s = Ok (tt, s') /\
    alloc_state Busy 0 s' (rev (page_range (PGROUNDUP v0) (k1 + k2))) /\
    use_lock (alloc s') = 1 /\ kinit2_called (alloc s') = 1.
Proof.
  intros Hf Hc Hp Hv0 Hv1 E1 E2 Hv2 Hm.
  cut (wp (kinit1 v0 v1 ;; kinit2 v1 v2) (fun _ s' =>
    alloc_state Busy 0 s' (rev (page_range (PGROUNDUP v0) (k1 + k2))) /\
    use_lock (alloc s') = 1 /\ kinit2_called (alloc s') = 1) s).
  { intros ([] & s' & E & Hs). eauto. }
  pose proof kend_high as Hk. unfold KERNBASE, PHYSTOP in *.
  assert (Hr : 0 <= v0 /\ v0 + PGSIZE <= 2 ^ 32 /\ 0 <= v1 /\ v1 + PGSIZE <= 2 ^ 32)
    by (unfold PGSIZE in *; lia).
  destruct Hr as (R1 & R2 & R3 & R4).
  pose proof (PGROUNDUP_aligned v1 R3 R4 Hv1) as Hup.
  destruct (PGROUNDUP_up v0 R1 R2) as [Hlow1 Hlow2].
  rewrite page_range_app, E1 in *. apply Forall_app in Hm as [Hm1 Hm2].
  unfold kinit1, kinit2. wp_steps. apply (wp_freerange Busy k1 k2 _ _ _ []); auto.
  - lia.
  - unfold PGSIZE in *. lia.
  - split; simpl; auto; [constructor|split; reflexivity|].
    eapply pools_ready_pools; [|exact Hp]. reflexivity.
  - apply page_range_ok; unfold KERNBASE, PHYSTOP, PGSIZE in *; first [assumption|lia].
  - apply Forall_forall. intros q _. apply not_elem_of_nil.
  - intros s1 Has1 _ Hmm. rewrite app_nil_r in Has1.
    replace (k2 : nat) with (k2 + 0)%nat in Has1 by lia. wp_steps.
    eapply (wp_freerange Busy k2 0); rewrite ?Hup; [assumption|assumption|lia| |exact Has1|..].
    + unfold PGSIZE in *. lia.
    + apply page_range_ok; unfold KERNBASE, PHYSTOP, PGSIZE in *; first [assumption|lia].
    + apply Forall_forall. intros q Hq Hin. apply elem_of_page_range in Hq.
      rewrite list_elem_of_In, <- in_rev, <- list_elem_of_In in Hin.
      apply elem_of_page_range in Hin. unfold PGSIZE in *. lia.
    + eapply Forall_impl; [exact Hm2|]. cbv beta. exact Hmm.
    + intros s2 Has2 _ _. apply wp_modify. split; [|split; reflexivity].
      rewrite rev_app_distr. destruct Has2. split; auto.
      eapply pools_ready_pools; [|eassumption]. reflexivity.
Qed.

Lemma kinit_frees_every_page_witness :
  exists s', (@kinit1 test_platform 0x80111a00 0x80113000 ;;
              @kinit2 test_platform 0x80113000 0x80114000) test_state = Ok (tt, s') /\
    @alloc_state test_platform Busy 0 s' [0x80113000; 0x80112000] /\
    use_lock (alloc s') = 1 /\ kinit2_called (alloc s') = 1.
Proof.
  apply (@kinit_frees_every_page test_platform 0x80111a00 0x80113000 0x80114000 1 1 test_state);
    try reflexivity; try discriminate.
  - split; simpl; lia.
  - apply test_pools_ready. lia.
  - split; discriminate.
  - repeat apply Forall_cons_2; try apply Forall_nil_2; apply test_mapped; auto.
Defined.
End KallocProps.
