(* ===== verification/Hash.v ===== *)
(** The hash of the generator (hash.c).  The code follows the compression
    function of FIPS 180-4 with its own [rotright]; most of its rotations
    shift by an amount C leaves undefined, and what the machine does there is
    a parameter. *)

From S2P Require Import Prelude Mem CString Kernel Entropy Kalloc.

(** The result of shifting a 32-bit word by 32 or more. *)
Class OverShift := { over_shl : Z -> Z -> Z }.

Module Hash.
Import Kernel Kalloc.

(** The table in the rows the source writes it in. *)
Definition k : list Z := concat [
  [0x428a2f98; 0x71374491; 0xb5c0fbcf; 0xe9b5dba5; 0x3956c25b; 0x59f111f1; 0x923f82a4; 0xab1c5ed5];
  [0xd807aa98; 0x12835b01; 0x243185be; 0x550c7dc3; 0x72be5d74; 0x80deb1fe; 0x9bdc06a7; 0xc19bf174];
  [0xe49b69c1; 0xefbe4786; 0x0fc19dc6; 0x240ca1cc; 0x2de92c6f; 0x4a7484aa; 0x5cb0a9dc; 0x76f988da];
  [0x983e5152; 0xa831c66d; 0xb00327c8; 0xbf597fc7; 0xc6e00bf3; 0xd5a79147; 0x06ca6351; 0x14292967];
  [0x27b70a85; 0x2e1b2138; 0x4d2c6dfc; 0x53380d13; 0x650a7354; 0x766a0abb; 0x81c2c92e; 0x92722c85];
  [0xa2bfe8a1; 0xa81a664b; 0xc24b8b70; 0xc76c51a3; 0xd192e819; 0xd6990624; 0xf40e3585; 0x106aa070];
  [0x19a4c116; 0x1e376c08; 0x2748774c; 0x34b0bcb5; 0x391c0cb3; 0x4ed8aa4a; 0x5b9cca4f; 0x682e6ff3];
  [0x748f82ee; 0x78a5636f; 0x84c87814; 0x8cc70208; 0x90befffa; 0xa4506ceb; 0xbef9a3f7; 0xc67178f2] ].

Definition h_init : list Z :=
  [ 0x6a09e667; 0xbb67ae85; 0x3c6ef372; 0xa54ff53a; 0x510e527f; 0x9b05688c; 0x1f83d9ab; 0x5be0cd19 ].

Definition set_h (h : list Z) : K kstate unit :=
  modify (fun s => set_sha (Hasher h (hash_w (sha s))) s).
Definition set_w (w : list Z) : K kstate unit :=
  modify (fun s => set_sha (Hasher (hash_h (sha s)) w) s).

Section shift.
Context `{OverShift}.

(** [sizeof(unsigned int) - n] is an unsigned subtraction from 4. *)
Definition rotright (a n : Z) : Z :=
  let y := Z.shiftr a n in
  let c := u32 (4 - n) in
  let z := if c <? 32 then u32 (Z.shiftl a c) else over_shl a c in
  Z.lor y z.

(** The word made of four signed [char]s. *)
Definition pack (d0 d1 d2 d3 : Z) : Z :=
  u32 (Z.lor (Z.lor (Z.lor (s8 d3) (Z.shiftl (s8 d2) 8)) (Z.shiftl (s8 d1) 16)) (Z.shiftl (s8 d0) 24)).

Definition init (data : cptr) (size buffer : Z) : K kstate Z :=
  set_h h_init ;;
  let l := size in
  let subbufsize := Z.rem l 512 in
  let bufsize := s32 (l + (512 - subbufsize)) in
  if (size <? 0) || (bufsize <? size) || (PGSIZE <=? u32 bufsize)
  then panic "invalid sha256 message size"
  else
    on_mem (CString.memset buffer bufsize 0) ;;
    forM (steps size 4) (fun i =>
      d3 ← cload data (i + 3);
      d2 ← cload data (i + 2);
      d1 ← cload data (i + 1);
      d0 ← cload data i;
      on_mem (store32 (buffer + 4 * (i / 4)) (pack d0 d1 d2 d3))) ;;
    mret (bufsize / 4).

(** One round of the message schedule loop. *)
Definition schedule_step (i : nat) (w : list Z) : list Z :=
  let s0 := Z.lxor (Z.lxor (rotright (w !!! (i - 15)%nat) 7) (rotright (w !!! (i - 15)%nat) 18))
                   (Z.shiftr (w !!! (i - 15)%nat) 3) in
  let s1 := Z.lxor (Z.lxor (rotright (w !!! (i - 2)%nat) 17) (rotright (w !!! (i - 2)%nat) 19))
                   (Z.shiftr (w !!! (i - 2)%nat) 10) in
  <[i := u32 (w !!! (i - 16)%nat + s0 + w !!! (i - 7)%nat + s1)]> w.

(** The working variables. *)
Record vars := Vars { va : Z; vb : Z; vc : Z; vd : Z; ve : Z; vf : Z; vg : Z; vz : Z }.

Definition compress_step (w : list Z) (i : nat) (v : vars) : vars :=
  let '(Vars a b c d e f g z) := v in
  let S1 := Z.lxor (Z.lxor (rotright e 6) (rotright e 11)) (rotright e 25) in
  let ch := Z.lxor (Z.land e f) (Z.land (u32 (Z.lnot e)) g) in
  let temp1 := u32 (z + S1 + ch + k !!! i + w !!! i) in
  let S0 := Z.lxor (Z.lxor (rotright a 2) (rotright a 13)) (rotright a 22) in
  let maj := Z.lxor (Z.lxor (Z.land a b) (Z.land a c)) (Z.land b c) in
  let temp2 := u32 (S0 + maj) in
  Vars (u32 (temp1 + temp2)) a b c (u32 (d + temp1)) e f g.

Definition vars_of (h : list Z) : vars :=
  Vars (h !!! 0%nat) (h !!! 1%nat) (h !!! 2%nat) (h !!! 3%nat)
       (h !!! 4%nat) (h !!! 5%nat) (h !!! 6%nat) (h !!! 7%nat).
Definition add_vars (h : list Z) (v : vars) : list Z :=
  [u32 (h !!! 0%nat + va v); u32 (h !!! 1%nat + vb v); u32 (h !!! 2%nat + vc v);
   u32 (h !!! 3%nat + vd v); u32 (h !!! 4%nat + ve v); u32 (h !!! 5%nat + vf v);
   u32 (h !!! 6%nat + vg v); u32 (h !!! 7%nat + vz v)].

(** The body of the chunk loop. *)
Definition sha256chunk (buffer chunkind : Z) : K kstate unit :=
  forM (seqZ 0 16) (fun i =>
    x ← on_mem (load32 (buffer + 4 * (chunkind + i)));
    w ← gets (fun s => hash_w (sha s));
    set_w (<[Z.to_nat i := x]> w)) ;;
  w ← gets (fun s => hash_w (sha s));
  set_w (for_n 48 (fun j => schedule_step (16 + j)) w) ;;
  w ← gets (fun s => hash_w (sha s));
  h ← gets (fun s => hash_h (sha s));
  set_h (add_vars h (for_n 64 (compress_step w) (vars_of h))).

Definition sha256internal (buffer bufsize : Z) : K kstate unit :=
  forM (steps bufsize 16) (sha256chunk buffer).

Definition sha256final : K kstate (list Z) := gets (fun s => take 8 (hash_h (sha s))).

(** [hash[i], ..., hash[i + 3]] for the word [x]. *)
Definition put_word (hash : cptr) (i x : Z) : K kstate unit :=
  cstore hash i (u8 (Z.shiftr x 24)) ;;
  cstore hash (i + 1) (u8 (Z.shiftr x 16)) ;;
  cstore hash (i + 2) (u8 (Z.shiftr x 8)) ;;
  cstore hash (i + 3) (u8 x).


Definition sha256 (data : cptr) (size : Z) (hash : cptr) : K kstate unit :=
  buffer ← kalloc;
  bufsize ← init data size buffer;
  sha256internal buffer bufsize ;;
  hashinternal ← sha256final;
  forM (steps 32 4) (fun i => put_word hash i (hashinternal !!! Z.to_nat (i / 4))) ;;
  cprintf "hash: %x, %x, %x, %x, %x, %x, %x, %x" (rev hashinternal).
End shift.
End Hash.

(** * FIPS 180-4, section 6.2, over a rotation [ROTR n x]. *)
Module Fips180.
Section fips.
Context (ROTR : Z -> Z -> Z).
Definition SHR (n x : Z) : Z := x / 2 ^ n.
Definition xor3 (a b c : Z) : Z := Z.lxor (Z.lxor a b) c.
Definition Ch (x y z : Z) : Z := Z.lxor (Z.land x y) (Z.land (u32 (Z.lnot x)) z).
Definition Maj (x y z : Z) : Z := xor3 (Z.land x y) (Z.land x z) (Z.land y z).
Definition Sigma0 (x : Z) : Z := xor3 (ROTR 2 x) (ROTR 13 x) (ROTR 22 x).
Definition Sigma1 (x : Z) : Z := xor3 (ROTR 6 x) (ROTR 11 x) (ROTR 25 x).
Definition sigma0 (x : Z) : Z := xor3 (ROTR 7 x) (ROTR 18 x) (SHR 3 x).
Definition sigma1 (x : Z) : Z := xor3 (ROTR 17 x) (ROTR 19 x) (SHR 10 x).

(** The schedule grows by one word at a time from the 16 words of a block. *)
Fixpoint schedule (n : nat) (W : list Z) : list Z :=
  match n with
  | O => W
  | S n =>
      let W' := schedule n W in
      let t := length W' in
      W' ++ [u32 (sigma1 (W' !!! (t - 2)%nat) + W' !!! (t - 7)%nat
                  + sigma0 (W' !!! (t - 15)%nat) + W' !!! (t - 16)%nat)]
  end.

(** The eight words after a round with constant [Kt] and schedule word [Wt]. *)
Definition round (Kt Wt : Z) (st : list Z) : list Z :=
  match st with
  | [a; b; c; d; e; f; g; h] =>
      let T1 := u32 (h + Sigma1 e + Ch e f g + Kt + Wt) in
      let T2 := u32 (Sigma0 a + Maj a b c) in
      [u32 (T1 + T2); a; b; c; u32 (d + T1); e; f; g]
  | _ => st
  end.

Definition compress (K : list Z) (H M : list Z) : list Z :=
  let W := schedule 48 M in
  zip_with (fun x y => u32 (x + y)) H (foldl (fun st '(Kt, Wt) => round Kt Wt st) H (zip K W)).

(** The chaining value after the blocks of the message. *)
Definition digest (K H0 : list Z) (blocks : list (list Z)) : list Z := foldl (compress K) H0 blocks.
End fips.

(** The rotation of the standard. *)
Definition ROTR (n x : Z) : Z := Z.lor (Z.shiftr x n) (u32 (Z.shiftl x (32 - n))).

(** The constants of the standard: the first 32 bits of the fractional parts of
    the cube roots (for the rounds) and of the square roots (for the initial
    value) of the first primes. *)
Definition prime (n : Z) : bool := forallb (fun d => negb (n mod d =? 0)) (seqZ 2 (Z.sqrt n - 1)).
Definition primes (bound : Z) : list Z := List.filter prime (seqZ 2 (bound - 1)).

(** The largest [x] below [2 ^ bits] with [x * x * x <= n], bit by bit. *)
Fixpoint cbrt (bits : nat) (x n : Z) : Z :=
  match bits with
  | O => x
  | S b => let y := x + 2 ^ Z.of_nat b in cbrt b (if y * y * y <=? n then y else x) n
  end.
Definition K : list Z := (fun p => u32 (cbrt 36 0 (p * 2 ^ 96))) <$> primes 311.
Definition H0 : list Z := (fun p => u32 (Z.sqrt (p * 2 ^ 64))) <$> primes 19.
End Fips180.

Module HashFacts.
Import Kernel KernelFacts Kalloc KallocFacts CStringFacts Hash.

(** ** The compression function *)
Section compression.
Context `{OverShift}.

Definition rot (n x : Z) : Z := rotright x n.

Definition list_of (v : vars) : list Z := [va v; vb v; vc v; vd v; ve v; vf v; vg v; vz v].

Lemma list_of_vars h : length h = 8%nat -> list_of (vars_of h) = h.
Proof.
  intros Hh. do 8 (destruct h as [|? h]; [discriminate|]). destruct h; [reflexivity|discriminate].
Qed.

Lemma add_vars_zip h v : length h = 8%nat ->
  add_vars h v = zip_with (fun x y => u32 (x + y)) h (list_of v).
Proof.
  intros Hh. do 8 (destruct h as [|? h]; [discriminate|]). destruct h; [reflexivity|discriminate].
Qed.

Lemma schedule_length n W : length (Fips180.schedule rot n W) = (length W + n)%nat.
Proof. induction n as [|n IH]; simpl; [lia|]. rewrite length_app, IH. simpl. lia. Qed.

Lemma schedule_loop m w : (m <= 48)%nat -> length w = 64%nat ->
  let w' := for_n m (fun j => schedule_step (16 + j)) w in
  length w' = 64%nat /\ take (16 + m) w' = Fips180.schedule rot m (take 16 w).
Proof.
  intros Hm Hw. cbv zeta. induction m as [|m IH]; [split; [exact Hw|reflexivity]|].
  destruct IH as [IH1 IH2]; [lia|]. rewrite for_n_succ.
  set (w' := for_n m (fun j => schedule_step (16 + j)) w) in *.
  split; [unfold schedule_step; rewrite length_insert; exact IH1|].
  cbn [Fips180.schedule]. rewrite <- IH2.
  replace (16 + S m)%nat with (S (16 + m)) by lia.
  assert (Hlen : length (take (16 + m) w') = (16 + m)%nat) by (rewrite length_take; lia).
  rewrite Hlen. unfold schedule_step.
  erewrite take_S_r by (apply list_lookup_insert_eq; lia).
  rewrite take_insert_ge by lia. f_equal. f_equal.
  rewrite !lookup_total_take_lt by lia. unfold Fips180.sigma0, Fips180.sigma1, Fips180.xor3, Fips180.SHR, rot.
  rewrite !Z.shiftr_div_pow2 by lia. f_equal. lia.
Qed.

Lemma round_step w i v : (i < 64)%nat ->
  list_of (compress_step w i v) = Fips180.round rot (k !!! i) (w !!! i) (list_of v).
Proof. intros Hi. destruct v. reflexivity. Qed.

Lemma compress_loop m w v : (m <= 64)%nat -> length w = 64%nat ->
  list_of (for_n m (compress_step w) v) =
  foldl (fun st '(Kt, Wt) => Fips180.round rot Kt Wt st) (list_of v) (take m (zip k w)).
Proof.
  intros Hm Hw. induction m as [|m IH]; [reflexivity|].
  destruct (lookup_lt_is_Some_2 k m) as [x Hx]; [simpl; lia|].
  destruct (lookup_lt_is_Some_2 w m) as [y Hy]; [lia|].
  assert (Hz : zip k w !! m = Some (x, y)) by (rewrite lookup_zip_with, Hx, Hy; reflexivity).
  rewrite for_n_succ, round_step, IH by lia. rewrite (take_S_r _ _ _ Hz), foldl_app. simpl.
  rewrite (list_lookup_total_correct _ _ _ Hx), (list_lookup_total_correct _ _ _ Hy). reflexivity.
Qed.

Lemma chunk_compress w h : length w = 64%nat -> length h = 8%nat ->
  add_vars h (for_n 64 (compress_step (for_n 48 (fun j => schedule_step (16 + j)) w)) (vars_of h)) =
  Fips180.compress rot k h (take 16 w).
Proof.
  intros Hw Hh. destruct (schedule_loop 48 w) as [H1 H2]; [lia|exact Hw|]. change (16 + 48)%nat with 64%nat in H2.
  unfold Fips180.compress. rewrite <- H2. rewrite (take_ge _ 64) by lia.
  set (w' := for_n 48 _ w) in *.
  pose proof (compress_loop 64 w' (vars_of h) ltac:(lia) H1) as Hc.
  rewrite take_ge in Hc by (rewrite length_zip_with; change (length k) with 64%nat; lia).
  rewrite list_of_vars in Hc by exact Hh. rewrite <- Hc.
  generalize (for_n 64 (compress_step w') (vars_of h)). intros v. apply add_vars_zip, Hh.
Qed.
End compression.

(** ** Words in memory *)

Definition word_at (m : pages) (a x : Z) : Prop :=
  exists bs, length bs = 4%nat /\ holds m a bs /\ le_word bs = x.
Definition words_at (m : pages) (a : Z) (ws : list Z) : Prop :=
  forall j x, ws !! j = Some x -> word_at m (a + 4 * Z.of_nat j) x.

(** The words memory holds, whatever they are. *)
Definition word_of (m : pages) (a : Z) : Z :=
  le_word ((fun i => default 0 (load8 m (a + i))) <$> [0; 1; 2; 3]).
Definition words_of (m : pages) (a : Z) (n : nat) : list Z :=
  (fun j => word_of m (a + 4 * Z.of_nat j)) <$> seq 0 n.

Lemma byte_at (m : pages) a : is_Some (load8 m a) -> load8 m a = Some (default 0 (load8 m a)).
Proof. intros [v ->]. reflexivity. Qed.

Lemma words_of_at m a n : mapped m a (4 * Z.of_nat n) -> words_at m a (words_of m a n).
Proof.
  intros Hm j x Hx. unfold words_of in Hx. rewrite list_lookup_fmap in Hx.
  destruct (seq 0 n !! j) as [y|] eqn:E; [|discriminate]. injection Hx as <-.
  apply lookup_seq in E as [-> Hj]. simpl. eexists. split; [|split; [|reflexivity]]; [reflexivity|].
  intros i b Hb. do 4 (destruct i as [|i]; [injection Hb as <-; apply byte_at;
    rewrite <- Z.add_assoc; apply Hm; lia|]). discriminate.
Qed.

Lemma wp_word m a x (Q : Z -> pages -> Prop) : word_at m a x -> Q x m -> wp (load32 a) Q m.
Proof. intros (bs & Hl & Hh & <-) HQ. eapply wp_load32; eauto. Qed.

Lemma word_at_outside m m' a x lo n :
  word_at m a x -> same_outside m m' lo n -> a + 4 <= lo \/ lo + n <= a -> word_at m' a x.
Proof.
  intros (bs & Hl & Hh & E) Hs Hd. exists bs. split; [exact Hl|]. split; [|exact E].
  eapply holds_same_outside; eauto. rewrite Hl. simpl. lia.
Qed.

Lemma word_at_store m' a x : holds m' a (le_bytes 4 x) -> word_at m' a (u32 x).
Proof.
  intros Hh. exists (le_bytes 4 x). rewrite length_le_bytes, le_word_bytes. auto.
Qed.

(** ** The bytes behind a pointer *)

Definition data_at (s : kstate) (d : cptr) (bs : list Z) : Prop :=
  match d with
  | Addr a => holds (mem s) a bs
  | PoolArr i => 0 <= i /\ exists q rest, pools s !! Z.to_nat i = Some q /\ entropy q = bs ++ rest
  | KeyArr => exists rest, key (prng s) = bs ++ rest
  end.

Definition data_apart (d : cptr) (len lo n : Z) : Prop :=
  match d with Addr a => a + len <= lo \/ lo + n <= a | _ => True end.

Lemma wp_cload s d bs i v (Q : Z -> kstate -> Prop) :
  data_at s d bs -> 0 <= i -> bs !! Z.to_nat i = Some v -> Q v s -> wp (cload d i) Q s.
Proof.
  intros Hd Hi Hv HQ. destruct d as [a|n|]; simpl in *.
  - apply wp_on_mem, (wp_load _ v); [|rewrite set_mem_same by reflexivity; exact HQ].
    rewrite <- (Hd _ _ Hv). f_equal. lia.
  - destruct Hd as (Hn & q & rest & Hq & E). wp_steps. eapply wp_get_pool; eauto.
    eapply wp_arr_load; [exact Hi| |exact HQ]. rewrite E. apply lookup_app_l_Some, Hv.
  - destruct Hd as (rest & E). wp_steps.
    eapply wp_arr_load; [exact Hi| |exact HQ]. rewrite E. apply lookup_app_l_Some, Hv.
Qed.

Lemma data_at_frame s s' d bs lo n :
  data_at s d bs -> data_apart d (Z.of_nat (length bs)) lo n -> same_outside (mem s) (mem s') lo n ->
  pools s' = pools s -> prng s' = prng s -> data_at s' d bs.
Proof.
  intros Hd Ha Hs Hp Hg. destruct d; simpl in *; rewrite ?Hp, ?Hg; auto.
  eapply holds_same_outside; eauto.
Qed.

(** ** The message *)

(** Word [j] of the data. *)
Definition packed (bs : list Z) (j : nat) : Z :=
  pack (bs !!! (4 * j)%nat) (bs !!! (4 * j + 1)%nat) (bs !!! (4 * j + 2)%nat) (bs !!! (4 * j + 3)%nat).
(** What is hashed: the data, then whatever the page held ([ws]). *)
Definition message (ws bs : list Z) (nw : nat) : list Z := (packed bs <$> seq 0 nw) ++ drop nw ws.

Lemma message_succ ws bs n x : ws !! n = Some x ->
  message ws bs (S n) = <[n := packed bs n]> (message ws bs n).
Proof.
  intros Hx. unfold message. rewrite seq_S, fmap_app, (drop_S _ _ _ Hx), <- app_assoc.
  rewrite insert_app_r_alt by (rewrite length_fmap, length_seq; lia).
  rewrite length_fmap, length_seq, Nat.sub_diag. reflexivity.
Qed.

Lemma length_message ws bs n : (n <= length ws)%nat -> length (message ws bs n) = length ws.
Proof. intros Hn. unfold message. rewrite length_app, length_fmap, length_seq, length_drop. lia. Qed.

(** The number of bytes hashed for [size] bytes of data. *)
Definition padded (size : Z) : Z := 512 * (size / 512 + 1).
Definition data_words (size : Z) : nat := Z.to_nat ((size + 3) / 4).

Lemma padded_rem size : 0 <= size -> size + (512 - Z.rem size 512) = padded size.
Proof.
  intros Hs. unfold padded. rewrite Z.rem_mod_nonneg by lia.
  pose proof (Z.div_mod size 512 ltac:(lia)). lia.
Qed.

Lemma pack_u32 d0 d1 d2 d3 : u32 (pack d0 d1 d2 d3) = pack d0 d1 d2 d3.
Proof. apply u32_id, u32_is_u32. Qed.

Lemma words_at_insert m m' p ws j x :
  words_at m p ws -> holds m' (p + 4 * Z.of_nat j) (le_bytes 4 x) -> u32 x = x ->
  same_outside m m' (p + 4 * Z.of_nat j) 4 -> words_at m' p (<[j := x]> ws).
Proof.
  intros Hw Hh Hx Hs i y Hy. apply list_lookup_insert_Some in Hy as [(<- & -> & _)|[Hne Hy]].
  - rewrite <- Hx. apply word_at_store, Hh.
  - eapply word_at_outside; [apply Hw, Hy|exact Hs|lia].
Qed.

(** The loop that packs the data into the page [p]. *)
Lemma wp_populate s p d bs ws size :
  0 <= size -> (data_words size <= length ws)%nat -> 4 * Z.of_nat (length ws) <= PGSIZE ->
  4 * Z.of_nat (data_words size) <= Z.of_nat (length bs) ->
  data_at s d bs -> data_apart d (Z.of_nat (length bs)) p PGSIZE ->
  mapped (mem s) p PGSIZE -> words_at (mem s) p ws ->
  wp (forM (steps size 4) (fun i =>
        d3 ← cload d (i + 3); d2 ← cload d (i + 2); d1 ← cload d (i + 1); d0 ← cload d i;
        on_mem (store32 (p + 4 * (i / 4)) (pack d0 d1 d2 d3))))
     (fun _ s' => exists m', s' = set_mem m' s /\ same_outside (mem s) m' p PGSIZE /\
        mapped m' p PGSIZE /\ words_at m' p (message ws bs (data_words size))) s.
Proof.
  intros H0 Hws Hws2 Hbs Hd Ha Hm Hw.
  assert (Hn : length (steps size 4) = data_words size)
    by (rewrite length_steps; unfold data_words; do 2 f_equal; lia).
  rewrite <- Hn. apply (wp_forM _ _ (fun n s' => exists m', s' = set_mem m' s /\
    same_outside (mem s) m' p PGSIZE /\ mapped m' p PGSIZE /\ words_at m' p (message ws bs n))).
  { exists (mem s). rewrite set_mem_same by reflexivity. split; [reflexivity|].
    split; [apply same_outside_refl|]. auto. }
  intros j x s' Hx (m & -> & Hs & Hm1 & Hw1).
  pose proof (lookup_lt_Some _ _ _ Hx) as Hj. rewrite Hn in Hj.
  apply lookup_steps in Hx as [-> Hlt]; [|lia].
  assert (Hd1 : data_at (set_mem m s) d bs) by (eapply data_at_frame; eauto).
  assert (Hb : forall c, (c < 4)%nat -> bs !! Z.to_nat (4 * Z.of_nat j + Z.of_nat c) =
                                       Some (bs !!! (4 * j + c)%nat)).
  { intros c Hc. replace (Z.to_nat _) with (4 * j + c)%nat by lia.
    apply list_lookup_lookup_total_lt. lia. }
  wp_steps. eapply wp_cload; [exact Hd1|lia|apply (Hb 3%nat); lia|].
  wp_steps. eapply wp_cload; [exact Hd1|lia|apply (Hb 2%nat); lia|].
  wp_steps. eapply wp_cload; [exact Hd1|lia|apply (Hb 1%nat); lia|].
  wp_steps. eapply wp_cload; [exact Hd1|lia|specialize (Hb 0%nat ltac:(lia)); rewrite Z.add_0_r in Hb; exact Hb|].
  rewrite Nat.add_0_r. fold (packed bs j).
  apply wp_on_mem. replace (4 * Z.of_nat j / 4) with (Z.of_nat j) by (rewrite Z.mul_comm, Z.div_mul; lia).
  apply wp_store_bytes; rewrite length_le_bytes; simpl mem.
  - intros i Hi. rewrite <- Z.add_assoc. apply Hm1. lia.
  - intros m' Hh Hs'. exists m'. split; [reflexivity|].
    assert (Hs2 : same_outside m m' p PGSIZE)
      by (eapply same_outside_weaken; [exact Hs'|lia|lia]).
    split; [eapply same_outside_trans; eauto|]. split.
    + intros i Hi. destruct (decide (p + 4 * Z.of_nat j <= p + i < p + 4 * Z.of_nat j + 4)).
      * replace (p + i) with (p + 4 * Z.of_nat j + (i - 4 * Z.of_nat j)) by lia.
        apply (holds_mapped _ _ _ Hh). rewrite length_le_bytes. lia.
      * rewrite Hs' by exact n. apply Hm1, Hi.
    + destruct (lookup_lt_is_Some_2 ws j) as [y Hy]; [lia|].
      erewrite message_succ by exact Hy. eapply words_at_insert; eauto. apply pack_u32.
Qed.

Lemma div_512_bound size : 0 <= size < 3584 -> 512 <= padded size <= 3584 /\ size < padded size.
Proof.
  intros Hs. unfold padded. pose proof (Z.div_mod size 512 ltac:(lia)).
  pose proof (Z.mod_pos_bound size 512 ltac:(lia)). lia.
Qed.

Lemma wp_init_ s p d bs size (Q : Z -> kstate -> Prop) :
  0 <= size < 3584 -> 4 * Z.of_nat (data_words size) <= Z.of_nat (length bs) ->
  data_at s d bs -> data_apart d (Z.of_nat (length bs)) p PGSIZE -> mapped (mem s) p PGSIZE ->
  (forall m', same_outside (mem s) m' p PGSIZE -> mapped m' p PGSIZE ->
     words_at m' p (message (words_of (mem s) p (Z.to_nat (padded size / 4))) bs (data_words size)) ->
     Q (padded size / 4) (set_mem m' (set_sha (Hasher h_init (hash_w (sha s))) s))) ->
  wp (init d size p) Q s.
Proof.
  intros Hsz Hbs Hd Ha Hm HQ. pose proof (div_512_bound size Hsz) as [Hb1 Hb2].
  unfold init, set_h. wp_steps. rewrite padded_rem by lia.
  rewrite s32_id by (unfold is_s32; lia). rewrite u32_id by (unfold is_u32; lia).
  replace ((size <? 0) || (padded size <? size) || (PGSIZE <=? padded size)) with false
    by (unfold PGSIZE; lia).
  apply wp_bind, wp_on_mem, wp_memset; [lia|intros i Hi; lia|].
  intros m1 _ Hs1. set (s1 := set_mem m1 _).
  assert (Em : forall x, load8 m1 x = load8 (mem s) x) by (intros x; apply Hs1; lia).
  assert (Hs1' : same_outside (mem s) m1 p PGSIZE) by (intros x _; apply Em).
  assert (Hm1 : mapped m1 p PGSIZE) by (intros i Hi; rewrite Em; apply Hm, Hi).
  assert (Ew : words_of m1 p (Z.to_nat (padded size / 4)) = words_of (mem s) p (Z.to_nat (padded size / 4))).
  { unfold words_of. apply list_fmap_ext. intros j x _. unfold word_of. simpl. rewrite !Em. reflexivity. }
  assert (Hq : 4 * (padded size / 4) = padded size).
  { unfold padded. replace (512 * (size / 512 + 1)) with (128 * (size / 512 + 1) * 4) by lia.
    rewrite Z.div_mul by lia. lia. }
  wp_steps. eapply wp_mono; [apply (wp_populate s1 p d bs (words_of m1 p (Z.to_nat (padded size / 4))))|].
  - lia.
  - unfold words_of, data_words. rewrite length_fmap, length_seq.
    apply Z2Nat.inj_le; [apply Z.div_pos; lia|lia|].
    apply Z.lt_succ_r, Z.div_lt_upper_bound; lia.
  - unfold words_of. rewrite length_fmap, length_seq. unfold PGSIZE. lia.
  - exact Hbs.
  - eapply data_at_frame; [exact Hd|exact Ha|exact Hs1'|reflexivity..].
  - exact Ha.
  - exact Hm1.
  - apply words_of_at. intros i Hi. apply Hm1. unfold PGSIZE. lia.
  - intros [] s2 (m2 & -> & Hs2 & Hm2 & Hw2). apply wp_ret.
    rewrite Ew in Hw2. apply HQ; [eapply same_outside_trans; eauto|exact Hm2|exact Hw2].
Qed.

(** ** Hashing the page *)

(** Block [j] of the message. *)
Definition block (ws : list Z) (j : nat) : list Z := take 16 (drop (16 * j) ws).
Definition blocks (ws : list Z) (n : nat) : list (list Z) := block ws <$> seq 0 n.

Section hash.
Context `{OverShift}.

Lemma wp_load_chunk s p ws j :
  words_at (mem s) p ws -> (16 * j + 16 <= length ws)%nat -> length (hash_w (sha s)) = 64%nat ->
  wp (forM (seqZ 0 16) (fun i =>
        x ← on_mem (load32 (p + 4 * (16 * Z.of_nat j + i)));
        w ← gets (fun s => hash_w (sha s));
        set_w (<[Z.to_nat i := x]> w)))
     (fun _ s' => exists w, s' = set_sha (Hasher (hash_h (sha s)) w) s /\
        length w = 64%nat /\ take 16 w = block ws j) s.
Proof.
  intros Hw Hj Hl.
  eapply wp_mono; [apply (wp_forM (seqZ 0 16) _ (fun n s' => exists w,
    s' = set_sha (Hasher (hash_h (sha s)) w) s /\
    length w = 64%nat /\ take n w = take n (drop (16 * j) ws)))|intros [] s' Hs'; exact Hs'].
  { exists (hash_w (sha s)). split; [destruct s as [? ? ? ? ? ? []]; reflexivity|]. split; auto. }
  intros i x s' Hx (w & -> & Hlw & Ht). apply lookup_seqZ in Hx as [-> Hi].
  destruct (lookup_lt_is_Some_2 ws (16 * j + i)) as [y Hy]; [lia|].
  wp_steps. apply wp_on_mem. simpl mem. eapply wp_word.
  { replace (p + 4 * (16 * Z.of_nat j + (0 + Z.of_nat i))) with (p + 4 * Z.of_nat (16 * j + i)) by lia.
    apply Hw, Hy. }
  wp_steps. unfold set_w. apply wp_modify. rewrite Z.add_0_l, Nat2Z.id.
  eexists. split; [reflexivity|]. split; [rewrite length_insert; exact Hlw|].
  cbn [hash_w sha set_sha set_mem] in *. erewrite take_S_r by (apply list_lookup_insert_eq; lia).
  rewrite take_insert_ge, Ht by lia.
  erewrite (take_S_r (drop _ _)); [reflexivity|]. rewrite lookup_drop. exact Hy.
Qed.

Lemma wp_sha256chunk s p ws j :
  words_at (mem s) p ws -> (16 * j + 16 <= length ws)%nat ->
  length (hash_w (sha s)) = 64%nat -> length (hash_h (sha s)) = 8%nat ->
  wp (sha256chunk p (16 * Z.of_nat j))
     (fun _ s' => exists w, length w = 64%nat /\
        s' = set_sha (Hasher (Fips180.compress rot k (hash_h (sha s)) (block ws j)) w) s) s.
Proof.
  intros Hw Hj Hl Hh. unfold sha256chunk. apply wp_bind.
  eapply wp_mono; [apply wp_load_chunk; eassumption|].
  intros [] s1 (w & -> & Hlw & Hb). unfold set_w, set_h. wp_steps. simpl.
  destruct (schedule_loop 48 w) as [Hl' _]; [lia|exact Hlw|].
  rewrite chunk_compress, Hb by assumption. eexists. split; [exact Hl'|reflexivity].
Qed.

Lemma compress_length H0 M : length H0 = 8%nat -> length (Fips180.compress rot k H0 M) = 8%nat.
Proof.
  intros Hh. unfold Fips180.compress. rewrite length_zip_with.
  assert (Hf : forall l st, length st = 8%nat ->
    length (foldl (fun st '(Kt, Wt) => Fips180.round rot Kt Wt st) st l) = 8%nat).
  { induction l as [|[Kt Wt] l IH]; intros st Hst; [exact Hst|]. simpl. apply IH.
    do 8 (destruct st as [|? st]; [discriminate|]). destruct st; [reflexivity|discriminate]. }
  rewrite Hf by exact Hh. lia.
Qed.

Lemma digest_succ H0 ws n :
  Fips180.digest rot k H0 (blocks ws (S n)) =
  Fips180.compress rot k (Fips180.digest rot k H0 (blocks ws n)) (block ws n).
Proof. unfold blocks, Fips180.digest. rewrite seq_S, fmap_app, foldl_app. reflexivity. Qed.

Lemma wp_sha256internal s p ws nb :
  words_at (mem s) p ws -> length ws = (16 * nb)%nat ->
  length (hash_w (sha s)) = 64%nat -> length (hash_h (sha s)) = 8%nat ->
  wp (sha256internal p (Z.of_nat (length ws)))
     (fun _ s' => exists w, length w = 64%nat /\
        s' = set_sha (Hasher (Fips180.digest rot k (hash_h (sha s)) (blocks ws nb)) w) s /\
        length (hash_h (sha s')) = 8%nat) s.
Proof.
  intros Hw Hl Hlw Hlh. unfold sha256internal.
  assert (Hn : length (steps (Z.of_nat (length ws)) 16) = nb).
  { rewrite length_steps, Hl.
    replace ((Z.of_nat (16 * nb) + 16 - 1) / 16) with (Z.of_nat nb); [lia|].
    apply (Z.div_unique _ _ _ 15); lia. }
  eapply wp_mono; [apply (wp_forM _ _ (fun n s' => exists w, length w = 64%nat /\
    s' = set_sha (Hasher (Fips180.digest rot k (hash_h (sha s)) (blocks ws n)) w) s /\
    length (hash_h (sha s')) = 8%nat))|intros [] s' Hs'; rewrite Hn in Hs'; exact Hs'].
  { exists (hash_w (sha s)). split; [exact Hlw|]. split; [|exact Hlh].
    destruct s as [? ? ? ? ? ? []]; reflexivity. }
  intros j x s' Hx (w & Hw1 & -> & Hh1). pose proof (lookup_lt_Some _ _ _ Hx) as Hj. rewrite Hn in Hj.
  apply lookup_steps in Hx as [-> _]; [|lia].
  eapply wp_mono; [apply (wp_sha256chunk _ p ws j); simpl in *; auto; lia|].
  intros [] s2 (w2 & Hw2 & ->). exists w2. split; [exact Hw2|]. rewrite digest_succ.
  split; [reflexivity|]. apply compress_length, Hh1.
Qed.
End hash.

(** ** Writing the digest *)

Definition be4 (x : Z) : list Z := [u8 (Z.shiftr x 24); u8 (Z.shiftr x 16); u8 (Z.shiftr x 8); u8 x].
Definition digest_bytes (hs : list Z) : list Z := mjoin (be4 <$> hs).

Definition with_key (kk : list Z) (g : generator) : generator :=
  Generator (counter g) kk (reseed_ctr g) (last_reseed_ticks g).

(** [s'] is [s] with at most the [len] bytes behind [d] changed; only memory
    and the key are written this way. *)
Definition written (d : cptr) (len : Z) (s s' : kstate) : Prop :=
  match d with
  | Addr a => exists m', s' = set_mem m' s /\ same_outside (mem s) m' a len
  | KeyArr => exists kk, s' = set_prng (with_key kk (prng s)) s /\ length kk = length (key (prng s))
  | PoolArr _ => False
  end.

Lemma written_refl d len s : (forall i, d <> PoolArr i) -> written d len s s.
Proof.
  destruct d as [a|i|]; intros Hd; simpl.
  - exists (mem s). rewrite set_mem_same by reflexivity. auto using same_outside_refl.
  - exact (Hd i eq_refl).
  - exists (key (prng s)). split; [destruct s as [? ? ? ? ? ? ? []]; reflexivity|reflexivity].
Qed.

Lemma written_trans d len s1 s2 s3 : written d len s1 s2 -> written d len s2 s3 -> written d len s1 s3.
Proof.
  destruct d; simpl; [|auto|].
  - intros (m1 & -> & H1) (m2 & -> & H2). exists m2. split; [reflexivity|].
    eapply same_outside_trans; eauto.
  - intros (k1 & -> & L1) (k2 & -> & L2). exists k2. split; [reflexivity|]. simpl in L2. congruence.
Qed.

Lemma wp_cstore s d bs i v (Q : unit -> kstate -> Prop) :
  data_at s d bs -> (forall i, d <> PoolArr i) -> 0 <= i < Z.of_nat (length bs) ->
  (forall s', data_at s' d (<[Z.to_nat i := v]> bs) -> written d (Z.of_nat (length bs)) s s' -> Q tt s') ->
  wp (cstore d i v) Q s.
Proof.
  intros Hd Hne Hi HQ. destruct d as [a|n|]; simpl in *.
  - apply wp_on_mem, wp_store; [apply (holds_mapped _ _ _ Hd), Hi|].
    intros m' H1 H2. apply HQ; [|exists m'; split; [reflexivity|]; intros b Hb; apply H2; lia].
    intros j x Hx. simpl. apply list_lookup_insert_Some in Hx as [(<- & -> & _)|[Hj Hx]].
    + rewrite <- H1. f_equal. lia.
    + rewrite H2 by lia. apply Hd, Hx.
  - destruct (Hne n eq_refl).
  - destruct Hd as (rest & E). wp_steps. rewrite E.
    eapply wp_lift_res; [apply arr_store_ok; rewrite length_app; lia|].
    apply wp_modify. apply HQ; [|eexists; split; [reflexivity|rewrite E; apply length_insert]].
    exists rest. simpl. apply insert_app_l. lia.
Qed.

Lemma insert4 {A} (bs : list A) i a b c d : (i + 4 <= length bs)%nat ->
  <[(i + 3)%nat := d]> (<[(i + 2)%nat := c]> (<[(i + 1)%nat := b]> (<[i := a]> bs))) =
  take i bs ++ [a; b; c; d] ++ drop (i + 4) bs.
Proof.
  revert i. induction bs as [|x bs IH]; intros i Hi; simpl in Hi; [lia|]. destruct i as [|i].
  - destruct bs as [|? [|? [|? r]]]; simpl in Hi; try lia. reflexivity.
  - simpl. f_equal. apply IH. lia.
Qed.

Lemma wp_put_word s d bs i x (Q : unit -> kstate -> Prop) :
  data_at s d bs -> (forall i, d <> PoolArr i) -> (i + 4 <= length bs)%nat ->
  (forall s', data_at s' d (take i bs ++ be4 x ++ drop (i + 4) bs) ->
     written d (Z.of_nat (length bs)) s s' -> Q tt s') ->
  wp (put_word d (Z.of_nat i) x) Q s.
Proof.
  intros Hd Hne Hi HQ. unfold put_word.
  apply wp_bind. eapply wp_cstore; [exact Hd|exact Hne|lia|]. intros s1 H1 W1.
  apply wp_bind. eapply wp_cstore; [exact H1|exact Hne|rewrite !length_insert; lia|]. intros s2 H2 W2.
  apply wp_bind. eapply wp_cstore; [exact H2|exact Hne|rewrite !length_insert; lia|]. intros s3 H3 W3.
  eapply wp_cstore; [exact H3|exact Hne|rewrite !length_insert; lia|]. intros s4 H4 W4.
  rewrite !length_insert in *. apply HQ; [|eauto using written_trans].
  replace (take i bs ++ be4 x ++ drop (i + 4) bs) with
    (<[Z.to_nat (Z.of_nat i + 3) := u8 x]> (<[Z.to_nat (Z.of_nat i + 2) := u8 (Z.shiftr x 8)]>
      (<[Z.to_nat (Z.of_nat i + 1) := u8 (Z.shiftr x 16)]>
        (<[Z.to_nat (Z.of_nat i) := u8 (Z.shiftr x 24)]> bs)))); [exact H4|].
  replace (Z.to_nat (Z.of_nat i + 3)) with (i + 3)%nat by lia.
  replace (Z.to_nat (Z.of_nat i + 2)) with (i + 2)%nat by lia.
  replace (Z.to_nat (Z.of_nat i + 1)) with (i + 1)%nat by lia. rewrite Nat2Z.id.
  apply insert4. lia.
Qed.

Lemma length_digest_bytes hs : length (digest_bytes hs) = (4 * length hs)%nat.
Proof.
  induction hs as [|x hs IH]; [reflexivity|].
  change (digest_bytes (x :: hs)) with (be4 x ++ digest_bytes hs). rewrite length_app, IH. simpl. lia.
Qed.

Lemma digest_bytes_snoc hs x : digest_bytes (hs ++ [x]) = digest_bytes hs ++ be4 x.
Proof. unfold digest_bytes. rewrite fmap_app, join_app. reflexivity. Qed.

Lemma wp_put_digest s d bs hs :
  data_at s d bs -> (forall i, d <> PoolArr i) -> length bs = 32%nat -> length hs = 8%nat ->
  wp (forM (steps 32 4) (fun i => put_word d i (hs !!! Z.to_nat (i / 4))))
     (fun _ s' => data_at s' d (digest_bytes hs) /\ written d 32 s s') s.
Proof.
  intros Hd Hne Hl Hh.
  eapply wp_mono; [apply (wp_forM _ _ (fun n s' =>
    data_at s' d (digest_bytes (take n hs) ++ drop (4 * n) bs) /\ written d 32 s s'))|].
  - split; [exact Hd|apply written_refl, Hne].
  - intros j x s' Hx [Hd1 W1]. pose proof (lookup_lt_Some _ _ _ Hx) as Hj. change (length (steps 32 4)) with 8%nat in Hj.
    apply lookup_steps in Hx as [-> _]; [|lia].
    destruct (lookup_lt_is_Some_2 hs j) as [y Hy]; [lia|].
    rewrite (Z.mul_comm 4), Z.div_mul, Nat2Z.id, (list_lookup_total_correct _ _ _ Hy) by lia.
    assert (Hlen : length (digest_bytes (take j hs)) = (4 * j)%nat)
      by (rewrite length_digest_bytes, length_take; lia).
    replace (Z.of_nat j * 4) with (Z.of_nat (4 * j)) by lia.
    eapply wp_put_word; [exact Hd1|exact Hne|rewrite length_app, length_drop; lia|].
    intros s2 Hd2 W2. rewrite length_app, Hlen, length_drop in W2.
    replace (Z.of_nat (4 * j + (length bs - 4 * j))) with 32 in W2 by lia.
    split; [|eapply written_trans; eauto].
    rewrite (take_S_r _ _ _ Hy), digest_bytes_snoc, <- app_assoc.
    rewrite take_app_le, take_ge, drop_app_ge, drop_drop, Hlen in Hd2 by lia.
    replace (4 * S j)%nat with (4 * j + (4 * j + 4 - 4 * j))%nat by lia. exact Hd2.
  - intros [] s' [Hd1 W1]. change (length (steps 32 4)) with 8%nat in *.
    rewrite take_ge, drop_ge, app_nil_r in Hd1 by lia. auto.
Qed.

(** ** The hash function *)

Section sha256.
Context `{OverShift} `{Platform}.

(** The digest words for data [bs] when the page taken as the buffer holds
    the words [ws]. *)
Definition sha_words (ws bs : list Z) (size : Z) : list Z :=
  Fips180.digest rot k h_init
    (blocks (message ws bs (data_words size)) (Z.to_nat (padded size / 64))).

Definition stale (s : kstate) (p size : Z) : list Z := words_of (mem s) p (Z.to_nat (padded size / 4)).

(** Where the digest may go: the key, or inside a page in use. *)
Definition dest_ok (d : cptr) (free : list Z) : Prop :=
  match d with
  | Addr a => exists q, page_ok q /\ (q ∉ free) /\ q <= a /\ a + 32 <= q + PGSIZE
  | KeyArr => True
  | PoolArr _ => False
  end.

(** What [sha256] leaves alone outside memory and the allocator. *)
Record sha_frame (md : mode) (d : cptr) (s s' : kstate) : Prop := {
  sf_me : me s' = me s;
  sf_cpu : cpu_same (k_cpu s) (k_cpu s');
  sf_clock : clock s' = clock s;
  sf_prng : exists kk, prng s' = with_key kk (prng s) /\ (d <> KeyArr -> kk = key (prng s)) /\
    length kk = length (key (prng s));
  sf_pools : md = Quiet -> pools s' = pools s;
  sf_w : length (hash_w (sha s')) = 64%nat;
}.

(** Memory changes at most in the buffer page and at the destination. *)
Definition sha_mem (d : cptr) (p : Z) (m m' : pages) : Prop :=
  forall x, ~ (p <= x < p + PGSIZE) ->
    (match d with Addr a => ~ (a <= x < a + 32) | _ => True end) -> load8 m' x = load8 m x.

Lemma padded_words size : 0 <= size ->
  Z.to_nat (padded size / 4) = (16 * Z.to_nat (padded size / 64))%nat /\
  Z.of_nat (Z.to_nat (padded size / 4)) = padded size / 4.
Proof.
  intros Hs. unfold padded. pose proof (Z.div_pos size 512 Hs ltac:(lia)).
  replace (512 * (size / 512 + 1) / 4) with (128 * (size / 512 + 1))
    by (apply (Z.div_unique _ _ _ 0); lia).
  replace (512 * (size / 512 + 1) / 64) with (8 * (size / 512 + 1))
    by (apply (Z.div_unique _ _ _ 0); lia). lia.
Qed.

Lemma dest_apart d p l a :
  dest_ok d (p :: l) -> page_ok p -> d = Addr a -> a + 32 <= p \/ p + PGSIZE <= a.
Proof.
  intros Hd Hp ->. destruct Hd as (q & Hq & Hn & H1 & H2).
  apply not_elem_of_cons in Hn as [Hn _]. destruct (pages_apart q p Hq Hp Hn); lia.
Qed.

(** The end of [sha256]: [s1] is the state after [kalloc], [m2] the memory
    with the packed data, [s4] the state with the digest written. *)
Lemma sha_finish md n s s1 s4 p l m2 hd hs args :
  alloc_state md n s1 l -> same_rest md s s1 -> mem s1 = mem s ->
  page_ok p -> p ∉ l -> same_outside (mem s) m2 p PGSIZE -> dest_ok hd (p :: l) ->
  length (hash_w hs) = 64%nat -> written hd 32 (set_sha hs (set_mem m2 (set_sha (Hasher h_init (hash_w (sha s1))) s1))) s4 ->
  let s5 := set_out (out s4 ++ [("hash: %x, %x, %x, %x, %x, %x, %x, %x", args)]) s4 in
  alloc_state md n s5 l /\ sha_frame md hd s s5 /\ sha_mem hd p (mem s) (mem s5) /\
  out s5 = out s ++ [("hash: %x, %x, %x, %x, %x, %x, %x, %x", args)].
Proof.
  intros Has [R1 R2 R3 R4 R5 R6 R7 R8 R9] M1 Hp Hpl Hs2 Hdest Hw W s5. rewrite <- M1 in Hs2.
  assert (Has2 : alloc_state md n (set_mem m2 s1) l) by (eapply alloc_state_write; eauto).
  destruct hd as [a|i|]; simpl in W; [|contradiction|].
  - destruct W as (m4 & -> & Hs4). simpl in Hs4. destruct Hdest as (q & Hq & Hnq & Ha1 & Ha2).
    apply not_elem_of_cons in Hnq as [Hqp Hql]. subst s5. split; [|split; [|split]]; simpl.
    + eapply (alloc_state_write _ _ _ _ _ q Has2); auto.
      simpl. eapply same_outside_weaken; [exact Hs4|lia|lia].
    + split; simpl; auto. exists (key (prng s)).
      split; [rewrite R7; destruct (prng s); reflexivity|auto].
    + intros x Hx1 Hx2. rewrite Hs4, Hs2, M1 by assumption. reflexivity.
    + rewrite R8. reflexivity.
  - destruct W as (kk & -> & Hkk). simpl in Hkk. subst s5. split; [|split; [|split]]; simpl.
    + eapply alloc_state_same; [exact Has2|reflexivity..].
    + split; simpl; auto. exists kk. rewrite R7 in *. split; [reflexivity|]. split; congruence.
    + intros x Hx1 _. simpl. rewrite Hs2, M1 by assumption. reflexivity.
    + rewrite R8. reflexivity.
Qed.

Lemma wp_sha256 md n s p l d bs size hd obs (Q : unit -> kstate -> Prop) :
  alloc_state md (S n) s (p :: l) ->
  0 <= size < 3584 -> 4 * Z.of_nat (data_words size) <= Z.of_nat (length bs) ->
  data_at s d bs -> data_apart d (Z.of_nat (length bs)) p PGSIZE ->
  (forall i, d = PoolArr i -> md = Quiet) ->
  length (hash_w (sha s)) = 64%nat ->
  data_at s hd obs -> length obs = 32%nat -> dest_ok hd (p :: l) ->
  (forall s', alloc_state md n s' l -> sha_frame md hd s s' -> sha_mem hd p (mem s) (mem s') ->
     data_at s' hd (digest_bytes (sha_words (stale s p size) bs size)) ->
     out s' = out s ++ [("hash: %x, %x, %x, %x, %x, %x, %x, %x", rev (sha_words (stale s p size) bs size))] ->
     Q tt s') ->
  wp (sha256 d size hd) Q s.
Proof.
  intros Has Hsz Hbs Hd Ha Hmd Hw Hh Hol Hdest HQ.
  pose proof (as_list _ _ _ _ Has) as (_ & Hp & Hmap & _).
  pose proof (as_nodup _ _ _ _ Has) as Hnd. apply NoDup_cons in Hnd as [Hpl _].
  unfold sha256. apply wp_bind. eapply wp_kalloc; [exact Has|].
  intros s1 Has1 M1 Hsr. pose proof Hsr as [R1 R2 R3 R4 R5 R6 R7 R8 R9]. simpl default. simpl tail in Has1.
  assert (Hd1 : data_at s1 d bs).
  { destruct d as [a|i|]; simpl in *; rewrite ?M1, ?R7; auto. rewrite R9 by eauto. exact Hd. }
  assert (Hhd : forall i, hd <> PoolArr i) by (intros i ->; exact Hdest).
  assert (Hh1 : data_at s1 hd obs).
  { destruct hd as [a|i|]; simpl in *; rewrite ?M1, ?R7; auto. destruct (Hhd i eq_refl). }
  destruct (padded_words size ltac:(lia)) as [Hpw1 Hpw2].
  apply wp_bind, (wp_init_ s1 p d bs size); auto; [rewrite M1; exact Hmap|].
  intros m2 Hs2 Hm2 Hw2. rewrite M1 in Hs2, Hw2. fold (stale s p size) in Hw2.
  set (ws := message (stale s p size) bs (data_words size)) in *.
  assert (Hlws : length ws = Z.to_nat (padded size / 4)).
  { unfold ws. rewrite length_message; unfold stale, words_of; rewrite length_fmap, length_seq; [reflexivity|].
    pose proof (div_512_bound size Hsz). unfold data_words.
    apply Z2Nat.inj_le; [apply Z.div_pos; lia|apply Z.div_pos; lia|].
    unfold padded in *. apply Z.lt_succ_r, Z.div_lt_upper_bound; [lia|].
    replace (512 * (size / 512 + 1) / 4) with (128 * (size / 512 + 1)) by (apply (Z.div_unique _ _ _ 0); lia).
    lia. }
  apply wp_bind. rewrite <- Hpw2, <- Hlws.
  eapply wp_mono; [apply (wp_sha256internal _ p ws (Z.to_nat (padded size / 64))); simpl|].
  - exact Hw2.
  - rewrite Hlws. exact Hpw1.
  - rewrite R6. exact Hw.
  - reflexivity.
  - intros [] s3 (w & Hlw & -> & Hh3). unfold sha256final. wp_steps. simpl in Hh3. simpl hash_h.
    change (Fips180.digest rot k h_init (blocks ws (Z.to_nat (padded size / 64))))
      with (sha_words (stale s p size) bs size) in *.
    rewrite take_ge by lia.
    eapply wp_mono; [eapply wp_put_digest; [|exact Hhd|exact Hol|exact Hh3]|].
    + destruct hd as [a|i|]; simpl in *; auto.
      eapply holds_same_outside; [exact Hh|exact Hs2|]. rewrite Hol.
      destruct (dest_apart (Addr a) p l a Hdest Hp eq_refl); lia.
    + intros [] s4 [Hd4 W4]. apply wp_modify.
      destruct (sha_finish md n s s1 s4 p l m2 hd (Hasher (sha_words (stale s p size) bs size) w)
        (rev (sha_words (stale s p size) bs size))) as (F1 & F2 & F3 & F4); try assumption.
      apply HQ; assumption.
Qed.

Lemma init_rejects d size p s : is_s32 size -> size < 0 \/ 3584 <= size ->
  init d size p s = Panic "invalid sha256 message size".
Proof.
  intros Hs Hb. unfold init, mbind, K_bind, set_h, modify.
  replace ((size <? 0) || _ || _) with true; [reflexivity|]. symmetry.
  destruct (Z.lt_ge_cases size 0) as [Hn|Hn]; [replace (size <? 0) with true by lia; reflexivity|].
  rewrite padded_rem by exact Hn. unfold is_s32 in Hs.
  assert (Hp : size < padded size <= size + 512).
  { unfold padded. pose proof (Z.div_mod size 512 ltac:(lia)).
    pose proof (Z.mod_pos_bound size 512 ltac:(lia)). lia. }
  assert (Hp2 : 4096 <= padded size).
  { unfold padded. pose proof (Z.div_le_lower_bound size 512 7 ltac:(lia) ltac:(lia)). lia. }
  destruct (Z.lt_ge_cases (padded size) (2 ^ 31)) as [Hlt|Hge].
  - rewrite s32_id by (unfold is_s32; lia). rewrite u32_id by (unfold is_u32; lia).
    unfold PGSIZE. lia.
  - replace (s32 (padded size) <? size) with true; [rewrite orb_true_r; reflexivity|].
    unfold s32. symmetry. apply Z.ltb_lt. unfold u32.
    rewrite (Z.mod_small (padded size)) by lia. case_match; lia.
Qed.

End sha256.
End HashFacts.

Module HashProps.
Import Kernel KernelFacts Kalloc KallocFacts KallocProps Hash HashFacts.

(** with a free page and less than 3584 bytes of data, [sha256] returns
    and writes the chaining value of the FIPS 180-4 compression (with the
    code's [rotright] for ROTR) over blocks that hold the data, packed from
    signed chars, followed by whatever the page taken as a buffer held - no
    padding is added.  The buffer page is not given back: the free list has
    lost it. *)
Theorem sha256_digest `{OverShift} `{Platform} n s p l d bs size hd obs :
  alloc_state Busy (S n) s (p :: l) ->
  0 <= size < 3584 -> 4 * Z.of_nat (data_words size) <= Z.of_nat (length bs) ->
  data_at s d bs -> data_apart d (Z.of_nat (length bs)) p PGSIZE -> (forall i, d <> PoolArr i) ->
  length (hash_w (sha s)) = 64%nat ->
  data_at s hd obs -> length obs = 32%nat -> dest_ok hd (p :: l) ->
  exists s', sha256 d size hd s = Ok (tt, s') /\
    data_at s' hd (digest_bytes (sha_words (stale s p size) bs size)) /\
    sha_mem hd p (mem s) (mem s') /\ alloc_state Busy n s' l.
Proof.
  intros Has Hsz Hbs Hd Ha Hne Hw Hh Hol Hdest.
  cut (wp (sha256 d size hd) (fun _ s' =>
    data_at s' hd (digest_bytes (sha_words (stale s p size) bs size)) /\
    sha_mem hd p (mem s) (mem s') /\ alloc_state Busy n s' l) s).
  { intros ([] & s' & E & R). eauto. }
  eapply wp_sha256; eauto. intros i ->. destruct (Hne i eq_refl).
Qed.

(** What the x86 shift instruction does: the count is taken modulo 32. *)
Definition x86_shift : OverShift := {| over_shl := fun a c => u32 (Z.shiftl a (c mod 32)) |}.

(** Two free pages, the second in use for data and digest. *)
Definition hash_state : kstate :=
  KState 0 (Cpu 0 false true) test_pages
    (Allocator (initlock "kmem") 1 0x80112000 1 0 0 0)
    (replicate (Z.to_nat MAX_POOLS) EntropyFacts.empty_pool)
    (Timer 0 (initlock "time")) (Hasher (replicate 8 0) (replicate 64 0))
    (Generator (replicate 4 0) (replicate 32 0) 0 0) [].

Lemma hash_alloc_state : @alloc_state test_platform Busy 1 hash_state [0x80112000].
Proof.
  split; [|apply NoDup_singleton|split; reflexivity|split; simpl; lia|].
  2: { apply (pools_ready_pools _ test_state); [reflexivity|apply test_pools_ready; lia]. }
  split; [reflexivity|]. split; [split; [reflexivity|split; [discriminate|reflexivity]]|].
  split; [apply test_mapped; auto|]. exists 0. split; [split; [discriminate|reflexivity]|].
  split; [|reflexivity]. intros i x Hx. do 4 (destruct i as [|i]; [injection Hx as <-; reflexivity|]).
  discriminate.
Qed.

Lemma sha256_digest_witness :
  exists s', @sha256 x86_shift (Addr 0x80113000) 3 KeyArr hash_state = Ok (tt, s') /\
    data_at s' KeyArr (digest_bytes (@sha_words x86_shift (stale hash_state 0x80112000 3) [0; 0; 0; 0] 3)) /\
    sha_mem KeyArr 0x80112000 (mem hash_state) (mem s') /\ @alloc_state test_platform Busy 0 s' [].
Proof.
  apply (@sha256_digest x86_shift test_platform 0 hash_state 0x80112000 []) with (obs := replicate 32 0);
    try reflexivity; try discriminate.
  - exact hash_alloc_state.
  - split; [discriminate|reflexivity].
  - intros i x Hx. do 4 (destruct i as [|i]; [injection Hx as <-; reflexivity|]). discriminate.
  - right. discriminate.
  - exists []. reflexivity.
Defined.

(** outside that range [sha256] panics - so a pool that has been filled
    (4096 bytes) cannot be hashed. *)
Theorem sha256_rejects `{OverShift} `{Platform} n s l d size hd :
  alloc_state Busy (S n) s l -> is_s32 size -> size < 0 \/ 3584 <= size ->
  sha256 d size hd s = Panic "invalid sha256 message size".
Proof.
  intros Has Hs Hb. unfold sha256, mbind at 1, K_bind at 1.
  destruct (wp_kalloc _ n s l (fun _ _ => True) Has) as (r & s1 & E & _); [auto|].
  rewrite E. unfold mbind, K_bind. rewrite init_rejects by assumption. reflexivity.
Qed.

Lemma sha256_rejects_witness :
  @sha256 x86_shift (PoolArr 0) 4096 KeyArr hash_state =
  Panic "invalid sha256 message size".
Proof.
  apply (@sha256_rejects x86_shift test_platform 0 hash_state [0x80112000] (PoolArr 0) 4096 KeyArr).
  - exact hash_alloc_state.
  - split; [discriminate|reflexivity].
  - right. discriminate.
Defined.

(** [rotright] is not the rotation of the standard: for the one distance
    in use whose shift is defined (2) it moves the low bits to position 2
    instead of 30. *)
Theorem rotright_not_rotation `{OverShift} (a : Z) :
  is_u32 a -> rotright a 2 = Z.lor (Z.shiftr a 2) (u32 (Z.shiftl a 2)) /\
  (rotright a 2 = Fips180.ROTR 2 a -> Z.testbit a 0 = Z.testbit a 28).
Proof.
  intros Ha. split; [reflexivity|]. intros E.
  apply (f_equal (fun x => Z.testbit x 30)) in E. revert E.
  change (rotright a 2) with (Z.lor (Z.shiftr a 2) (u32 (Z.shiftl a 2))). unfold Fips180.ROTR, u32.
  change 4294967296 with (2 ^ 32).
  rewrite !Z.lor_spec, !Z.shiftr_spec, !Z.mod_pow2_bits_low by lia.
  rewrite !Z.shiftl_spec by lia.
  change (30 + 2) with 32. change (30 - 2) with 28. change (30 - (32 - 2)) with 0.
  assert (H32 : Z.testbit a 32 = false).
  { destruct (decide (a = 0)) as [->|]; [reflexivity|]. unfold is_u32 in Ha.
    apply Z.bits_above_log2; [lia|]. apply Z.log2_lt_pow2; lia. }
  rewrite H32, !orb_false_l. auto.
Qed.

Lemma rotright_not_rotation_witness :
  @rotright x86_shift 1 2 = Z.lor (Z.shiftr 1 2) (u32 (Z.shiftl 1 2)) /\
  (@rotright x86_shift 1 2 = Fips180.ROTR 2 1 -> Z.testbit 1 0 = Z.testbit 1 28).
Proof. apply (@rotright_not_rotation x86_shift 1). split; [discriminate|reflexivity]. Defined.

(** the round constants [k] and the initial value [init] loads are those of
    FIPS 180-4: the leading 32 bits of the fractional parts of the cube roots of
    the first 64 primes, and of the square roots of the first eight. *)
Theorem sha256_constants : k = Fips180.K /\ h_init = Fips180.H0 /\ length k = 64%nat.
Proof. repeat split; vm_compute; reflexivity. Qed.
End HashProps.
