(* ===== verification/Prng.v ===== *)
(** The pseudo-random number generator (prng.c): Fortuna with AES-256 in
    counter mode, reseeded from hashes of the entropy pools. *)

From S2P Require Import Prelude Mem CString Kernel Entropy Kalloc Hash.
From S2P Require Import Aes.

Module Prng.
Import Kernel Entropy Kalloc Hash.

Definition incrctr_words (c : list Z) : list Z :=
  if negb (c !!! 0%nat =? 0xFFFFFFFF) then <[0%nat := u32 (c !!! 0%nat + 1)]> c
  else if negb (c !!! 1%nat =? 0xFFFFFFFF) then <[1%nat := u32 (c !!! 1%nat + 1)]> c
  else if negb (c !!! 2%nat =? 0xFFFFFFFF) then <[2%nat := u32 (c !!! 2%nat + 1)]> c
  else if negb (c !!! 3%nat =? 0xFFFFFFFF) then <[3%nat := u32 (c !!! 3%nat + 1)]> c
  else <[3%nat := 0]> (<[2%nat := 0]> (<[1%nat := 0]> (<[0%nat := 0]> c))).

Definition set_counter (c : list Z) : K kstate unit := modify (fun s =>
  let g := prng s in set_prng (Generator c (key g) (reseed_ctr g) (last_reseed_ticks g)) s).
Definition set_reseed_ctr (n : Z) : K kstate unit := modify (fun s =>
  let g := prng s in set_prng (Generator (counter g) (key g) n (last_reseed_ticks g)) s).
Definition set_last_reseed_ticks (n : Z) : K kstate unit := modify (fun s =>
  let g := prng s in set_prng (Generator (counter g) (key g) (reseed_ctr g) n) s).

Definition incrctr : K kstate unit :=
  c ← gets (fun s => counter (prng s)); set_counter (incrctr_words c).

Definition prnginit_internal : K kstate unit :=
  set_counter (replicate 4 0) ;;
  set_key (replicate 32 0).

Definition prnginit : K kstate unit :=
  initEntropyAccumulator ;;
  set_reseed_ctr 0 ;;
  set_last_reseed_ticks 0 ;;
  prnginit_internal.

(** The objects [prng.counter] and [prng.key] as [aes_encrypt] and
    [keyExpansion] read them: bytes and little-endian words. *)
Definition counter_bytes (c : list Z) : list Z := mjoin (le_bytes 4 <$> c).
Fixpoint key_words (n : nat) (bs : list Z) : list Z :=
  match n with
  | O => []
  | S n => le_word (take 4 bs) :: key_words n (drop 4 bs)
  end.

(** One block: the key schedule is expanded anew for every block;
    [roundKeys] is a local array that [keyExpansion] fills. *)
Definition cipher (kk c : list Z) : list Z :=
  let roundKeys := Aes.keyExpansion (key_words 8 kk) (replicate 60 0) Aes.AES_256_KEY_SIZE in
  Aes.aes_encrypt (counter_bytes c) roundKeys Aes.AES_256_KEY_SIZE.

Definition read_bytes (a : Z) (n : nat) : K kstate (list Z) :=
  foldM (seqZ 0 (Z.of_nat n)) (fun bs i => b ← on_mem (load (a + i)); mret (bs ++ [b])) [].

(** [p = kalloc(); if (!p) panic(msg); memset(p, 0, 4096);] *)
Definition kalloc_zeroed (msg : string) : K kstate Z :=
  p ← kalloc;
  if p =? 0 then panic msg
  else on_mem (CString.memset p 0 4096) ;; mret p.

Definition prnggenblocks (blocks memaddr_arr : Z) : K kstate unit :=
  c ← gets (fun s => counter (prng s));
  if c !!! 0%nat =? 0 then panic "prnggenblocks: called with non-seeded generator."
  else if memaddr_arr =? 0 then panic "prnggenblocks: called with null memory location for output."
  else
    foldM (steps (16 * blocks) 16) (fun pgwrittento i =>
      pgwrittento ←
        (if i mod 4096 =? 0 then
           kalloc_pg ← kalloc_zeroed "prnggenblocks: unable to allocate memory for block generation.";
           on_mem (store32 (memaddr_arr + 4 * (i / 4096)) kalloc_pg) ;;
           mret kalloc_pg
         else mret pgwrittento);
      g ← gets prng;
      on_mem (store_bytes (pgwrittento + i mod 4096) (cipher (key g) (counter g))) ;;
      incrctr ;;
      mret pgwrittento) 0 ;;
    skip.

Section platform.
Context `{Platform}.

(** [for (i = 0; i < 1024; i++) if (!iter_bpp[i]) break; else kfree(iter_bpp[i]);] *)
Fixpoint free_blocks (n : nat) (iter_bpp : Z) : K kstate unit :=
  match n with
  | O => skip
  | S n =>
      p ← on_mem (load32 iter_bpp);
      if p =? 0 then skip else kfree p ;; free_blocks n (iter_bpp + 4)
  end.

(** The body of the loop that copies the blocks; [pgwrittento] and
    [pgreadfrom] are indexed with [j], also after the first page. *)
Definition copy_byte (output blocks_ptr_page : Z) : Z * Z -> Z -> K kstate (Z * Z) :=
  fun '(pgwrittento, pgreadfrom) j =>
    '(pgwrittento, pgreadfrom) ←
      (if j mod 4096 =? 0 then
         pgwrittento ← kalloc_zeroed "prngranddata: unable to allocate memory.";
         on_mem (store32 (output + 4 * (j / 4096)) pgwrittento) ;;
         pgreadfrom ← on_mem (load32 (blocks_ptr_page + 4 * (j / 4096)));
         mret (pgwrittento, pgreadfrom)
       else mret (pgwrittento, pgreadfrom));
    b ← on_mem (load (pgreadfrom + j));
    on_mem (store (pgwrittento + j) b) ;;
    mret (pgwrittento, pgreadfrom).

Definition prngranddata (size output : Z) : K kstate unit :=
  if (size <? 0) || (2 ^ 20 <? size) then panic "prngranddata: requested negative or too much data."
  else if output =? 0 then panic "prnggranddata: provided null memory location for output."
  else
    blocks_ptr_page ← kalloc_zeroed "prngranddata: unable to allocate memory.";
    let numblocks := if size mod 16 =? 0 then size / 16 else size / 16 + 1 in
    prnggenblocks numblocks blocks_ptr_page ;;
    foldM (seqZ 0 size) (copy_byte output blocks_ptr_page) (0, 0) ;;
    free_blocks 1024 blocks_ptr_page ;;
    kfree blocks_ptr_page ;;
    blocks_ptr_page ← kalloc_zeroed "prngranddata: unable to allocate memory.";
    prnggenblocks 2 blocks_ptr_page ;;
    p0 ← on_mem (load32 blocks_ptr_page);
    bs ← read_bytes p0 32;
    set_key bs ;;
    p0 ← on_mem (load32 blocks_ptr_page);
    kfree p0 ;;
    kfree blocks_ptr_page.

Context `{OverShift}.

Definition prngreseed (seed length : Z) : K kstate unit :=
  sha256 (Addr seed) length KeyArr ;;
  incrctr ;;
  kfree seed ;;
  acquire_ Ltick ;;
  t ← gets (fun s => ticks (clock s));
  set_last_reseed_ticks t ;;
  release_ Ltick.

(** [(pools[i].size > POOL_SIZE) ? POOL_SIZE : pools[i].size] *)
Definition pool_bytes (q : entropy_pool) : Z := if POOL_SIZE <? size q then POOL_SIZE else size q.

(** The body of the loop over the pools; the test is that of the code. *)
Definition gather_pool (seed_data offset i : Z) : K kstate Z :=
  rc ← gets (fun s => reseed_ctr (prng s));
  if negb (Z.lor rc (s32 (Z.shiftl 1 i)) =? 0) then
    acquire_ (Lpool i) ;;
    q ← get_pool i;
    sha256 (PoolArr i) (pool_bytes q) (Addr (seed_data + offset)) ;;
    q ← get_pool i;
    e ← lift_res (arr_memset (entropy q) 0 (pool_bytes q));
    put_pool i (Pool 0 e (pool_lock q)) ;;
    release_ (Lpool i) ;;
    mret (offset + 32)
  else mret offset.

Definition reseed : K kstate unit :=
  seed_data ← kalloc_zeroed "prngrand: unable to allocate memory.";
  offset ← foldM (seqZ 0 MAX_POOLS) (gather_pool seed_data) 0;
  prngreseed seed_data offset.

(** The copy to the caller: [n] entries of the page of pointers are left. *)
Fixpoint copy_out (n : nat) (output data_ptr_page i left : Z) : K kstate unit :=
  match n with
  | O => skip
  | S n =>
      data_page ← on_mem (load32 (data_ptr_page + 4 * i));
      if left <? 4096 then
        on_mem (CString.memmove (output + i * 4096) data_page left) ;;
        kfree data_page
      else
        on_mem (CString.memmove (output + i * 4096) data_page 4096) ;;
        kfree data_page ;;
        copy_out n output data_ptr_page (i + 1) (left - 4096)
  end.

(** The part of [prngrand] after the reseed. *)
Definition serve (output numbytes : Z) : K kstate unit :=
  rc ← gets (fun s => reseed_ctr (prng s));
  if rc =? 0 then panic "prngrand: attempted to get random data without seeding."
  else
    data_ptr_page ← kalloc_zeroed "prngrand: unable to allocate memory.";
    prngranddata numbytes data_ptr_page ;;
    copy_out 1024 output data_ptr_page 0 numbytes ;;
    kfree data_ptr_page.

(** The part of [prngrand] up to the end of the reseed. *)
Definition maybe_reseed : K kstate unit :=
  acquire_ Ltick ;;
  xticks ← gets (fun s => ticks (clock s));
  release_ Ltick ;;
  acquire_ (Lpool 0) ;;
  q ← get_pool 0;
  last ← gets (fun s => last_reseed_ticks (prng s));
  if (MIN_SIZE_POOL <? size q) && (10 <? u32 (xticks - last)) then
    rc ← gets (fun s => reseed_ctr (prng s));
    set_reseed_ctr (s32 (rc + 1)) ;;
    release_ (Lpool 0) ;;
    reseed
  else release_ (Lpool 0).

Definition prngrand (output numbytes : Z) : K kstate unit :=
  maybe_reseed ;;
  serve output numbytes.

(** [argint] and [argptr] leave the variable as it was when they fail, and
    their results are not looked at: [junk_n] and [junk_p] are what the
    uninitialised locals hold. *)
Definition sys_random (junk_n junk_p : Z) (arg1 : option Z) (arg0 : Z -> option Z) : K kstate Z :=
  let numbytes := default junk_n arg1 in
  if numbytes <? 0 then mret (-1)
  else
    let bytesout := default junk_p (arg0 numbytes) in
    if bytesout =? 0 then mret (-1)
    else
      printPoolsData ;;
      prngrand bytesout numbytes ;;
      mret 0.
End platform.
End Prng.

Module PrngFacts.
Import Kernel KernelFacts Entropy EntropyFacts Kalloc KallocFacts CStringFacts Hash HashFacts Prng.

(** ** The counter *)

(** The counter after [n] increments. *)
Definition ctr_iter (n : nat) (c : list Z) : list Z := Nat.iter n incrctr_words c.

Lemma ctr_iter_succ n c : ctr_iter (S n) c = incrctr_words (ctr_iter n c).
Proof. reflexivity. Qed.

(** Each word in turn runs up to all ones and stays there: the state of the
    counter is the sum of its words. *)
Definition ctr_of (t : Z) : list Z :=
  let M := 0xFFFFFFFF in
  if t <? M then [t; 0; 0; 0]
  else if t <? 2 * M then [M; t - M; 0; 0]
  else if t <? 3 * M then [M; M; t - 2 * M; 0]
  else [M; M; M; t - 3 * M].

Definition ctr_max : Z := 4 * 0xFFFFFFFF.

Lemma incrctr_of t : 0 <= t < ctr_max -> incrctr_words (ctr_of t) = ctr_of (t + 1).
Proof.
  unfold ctr_max, ctr_of. intros Ht. cbv zeta.
  repeat match goal with |- context [?a <? ?b] => destruct (Z.ltb_spec a b); try lia end;
    unfold incrctr_words; simpl;
    repeat match goal with |- context [negb (?a =? ?b)] => destruct (Z.eqb_spec a b); try lia; simpl end;
    repeat match goal with |- context [u32 ?x] => rewrite (u32_id x) by (unfold is_u32; lia) end;
    repeat f_equal; lia.
Qed.

Lemma incrctr_wraps : incrctr_words (ctr_of ctr_max) = ctr_of 0.
Proof. reflexivity. Qed.

Lemma ctr_iter_of n : Z.of_nat n <= ctr_max -> ctr_iter n (replicate 4 0) = ctr_of (Z.of_nat n).
Proof.
  induction n as [|n IH]; intros Hn; [reflexivity|].
  rewrite ctr_iter_succ, IH, incrctr_of by lia. f_equal. lia.
Qed.

Lemma ctr_of_inj a b : 0 <= a <= ctr_max -> 0 <= b <= ctr_max -> ctr_of a = ctr_of b -> a = b.
Proof.
  unfold ctr_max, ctr_of. intros Ha Hb. cbv zeta.
  repeat match goal with |- context [?a <? ?b] => destruct (Z.ltb_spec a b); try lia end;
    intros E; injection E; lia.
Qed.

(** ** The key stream *)

Definition ctr_ok (c : list Z) : Prop := length c = 4%nat.

Lemma incrctr_length c : ctr_ok c -> ctr_ok (incrctr_words c).
Proof. unfold ctr_ok, incrctr_words. intros H. repeat case_match; rewrite ?length_insert; exact H. Qed.

Lemma ctr_iter_length n c : ctr_ok c -> ctr_ok (ctr_iter n c).
Proof. intros H. induction n; [exact H|]. apply incrctr_length, IHn. Qed.

Lemma counter_bytes_valid c : ctr_ok c -> AesFacts.valid_block (counter_bytes c).
Proof.
  unfold ctr_ok. intros H. do 4 (destruct c as [|? c]; [discriminate|]). destruct c; [|discriminate].
  split; [reflexivity|]. unfold counter_bytes.
  repeat apply Forall_app_2; try apply le_bytes_byte. constructor.
Qed.

Lemma cipher_length kk c : ctr_ok c -> length (cipher kk c) = 16%nat.
Proof.
  intros H. unfold cipher.
  exact (proj1 (AesFacts.aes_encrypt_valid _ _ _ (counter_bytes_valid c H))).
Qed.

Opaque cipher.
Arguments cipher : simpl never.

(** The first [n] blocks of output from counter [c] under key [kk]. *)
Definition keystream (kk c : list Z) (n : nat) : list Z :=
  mjoin ((fun i => cipher kk (ctr_iter i c)) <$> seq 0 n).

Lemma keystream_succ kk c n : keystream kk c (S n) = keystream kk c n ++ cipher kk (ctr_iter n c).
Proof. unfold keystream. rewrite seq_S, fmap_app, join_app. simpl. rewrite app_nil_r. reflexivity. Qed.

Lemma keystream_length kk c n : ctr_ok c -> length (keystream kk c n) = (16 * n)%nat.
Proof.
  intros H. induction n as [|n IH]; [reflexivity|].
  rewrite keystream_succ, length_app, IH, cipher_length by (apply ctr_iter_length, H). lia.
Qed.

(** ** Allocation of a cleared page *)

Definition zeros (n : Z) : list Z := replicate (Z.to_nat n) 0.

Section platform.
Context `{Platform}.

Lemma wp_kalloc_zeroed md n s p l msg (Q : Z -> kstate -> Prop) :
  alloc_state md (S n) s (p :: l) ->
  (forall s', alloc_state md n s' l -> holds (mem s') p (zeros PGSIZE) ->
     same_outside (mem s) (mem s') p PGSIZE -> same_rest md s s' -> Q p s') ->
  wp (kalloc_zeroed msg) Q s.
Proof.
  intros Has HQ. pose proof (as_list _ _ _ _ Has) as (_ & Hp & Hm & _).
  pose proof (as_nodup _ _ _ _ Has) as Hnd. apply NoDup_cons in Hnd as [Hpl _].
  unfold kalloc_zeroed. wp_steps. eapply wp_kalloc; [exact Has|].
  intros s1 Has1 M1 R1. simpl default. simpl tail in Has1.
  pose proof (page_ok_range p Hp). replace (p =? 0) with false by (unfold KERNBASE in *; lia).
  wp_steps. apply wp_on_mem, wp_memset; [lia|rewrite M1; exact Hm|].
  intros m2 Hh2 Hs2. apply wp_ret. rewrite M1 in Hs2. apply HQ.
  - eapply (alloc_state_write _ _ _ _ _ p Has1); auto. rewrite M1. exact Hs2.
  - exact Hh2.
  - exact Hs2.
  - destruct R1; split; auto.
Qed.

Lemma same_rest_prng md s s' g : same_rest md s s' -> same_rest md (set_prng g s) (set_prng g s').
Proof. intros []. split; auto. Qed.

Lemma same_rest_set_prng md s s' g : same_rest md (set_prng g s) s' -> prng s' = g.
Proof. intros []. assumption. Qed.

(** ** Block generation *)

Definition with_ctr (c : list Z) (g : generator) : generator :=
  Generator c (key g) (reseed_ctr g) (last_reseed_ticks g).

(** What the page of blocks holds after [i] of them. *)
Definition block_page (kk c : list Z) (i : nat) : list Z :=
  keystream kk c i ++ zeros (PGSIZE - 16 * Z.of_nat i).

Lemma block_page_split kk c i : (i < 256)%nat ->
  block_page kk c i = keystream kk c i ++ zeros 16 ++ zeros (PGSIZE - 16 * Z.of_nat (S i)).
Proof.
  intros Hi. unfold block_page, zeros. rewrite <- replicate_add. do 2 f_equal. unfold PGSIZE. lia.
Qed.

Lemma block_page_length kk c i : ctr_ok c -> (i <= 256)%nat ->
  Z.of_nat (length (block_page kk c i)) = PGSIZE.
Proof.
  intros Hc Hi. unfold block_page, zeros.
  rewrite length_app, keystream_length, length_replicate by exact Hc. unfold PGSIZE. lia.
Qed.

Lemma wp_gen_block md n s p l kk c i (Q : Z -> kstate -> Prop) :
  alloc_state md n s l -> page_ok p -> p ∉ l -> (i < 256)%nat -> ctr_ok c ->
  holds (mem s) p (block_page kk c i) -> key (prng s) = kk -> counter (prng s) = ctr_iter i c ->
  (forall s', alloc_state md n s' l -> holds (mem s') p (block_page kk c (S i)) ->
     same_outside (mem s) (mem s') p PGSIZE ->
     same_rest md (set_prng (with_ctr (ctr_iter (S i) c) (prng s)) s) s' -> Q p s') ->
  wp (g ← gets prng;
      on_mem (store_bytes (p + 16 * Z.of_nat i) (cipher (key g) (counter g))) ;;
      incrctr ;; mret p) Q s.
Proof.
  intros Has Hp Hpl Hi Hc Hh Hk Hctr HQ. wp_steps. rewrite Hk, Hctr.
  pose proof (cipher_length kk (ctr_iter i c) (ctr_iter_length i c Hc)) as Hcl.
  rewrite block_page_split in Hh by exact Hi. apply holds_app in Hh as [H1 Hh].
  rewrite keystream_length in Hh by exact Hc. apply holds_app in Hh as [H2 H3].
  replace (p + Z.of_nat (16 * i)) with (p + 16 * Z.of_nat i) in * by lia.
  apply wp_on_mem, wp_store_bytes.
  { rewrite Hcl. apply (holds_mapped _ _ _ H2). }
  intros m' Hh' Hs'. rewrite Hcl in Hs'. unfold incrctr, set_counter. wp_steps. simpl counter. rewrite Hctr.
  assert (Hs : same_outside (mem s) m' p PGSIZE)
    by (eapply same_outside_weaken; [exact Hs'|lia|unfold PGSIZE; lia]).
  apply HQ.
  - eapply (alloc_state_write _ _ _ _ _ p Has); auto.
  - simpl. unfold block_page. rewrite keystream_succ, <- app_assoc. apply holds_app. split.
    + eapply holds_same_outside; [exact H1|exact Hs'|]. rewrite keystream_length by exact Hc. lia.
    + rewrite keystream_length by exact Hc.
      replace (p + Z.of_nat (16 * i)) with (p + 16 * Z.of_nat i) by lia.
      apply holds_app. split; [exact Hh'|]. rewrite Hcl.
      eapply holds_same_outside; [exact H3|exact Hs'|]. simpl. lia.
  - exact Hs.
  - split; auto. apply cpu_same_refl.
Qed.

(** The generator's state after a call of [prnggenblocks]; [p] is the page it
    took, [arr] the entry it was stored in. *)
Record blocks_done (md : mode) (n : nat) (l : list Z) (arr p : Z) (i : nat) (s s' : kstate) : Prop := {
  bd_alloc : alloc_state md n s' l;
  bd_entry : holds (mem s') arr (le_bytes 4 p);
  bd_page : holds (mem s') p (block_page (key (prng s)) (counter (prng s)) i);
  bd_frame : frame_mem (mem s) (mem s') [(arr, 4); (p, PGSIZE)];
  bd_rest : same_rest md (set_prng (with_ctr (ctr_iter i (counter (prng s))) (prng s)) s) s';
}.

(** A cleared page is taken and its address stored in the entry [arr]. *)
Record page_taken (md : mode) (n : nat) (l : list Z) (arr p : Z) (s s' : kstate) : Prop := {
  pt_alloc : alloc_state md n s' l;
  pt_entry : holds (mem s') arr (le_bytes 4 p);
  pt_page : holds (mem s') p (zeros PGSIZE);
  pt_frame : frame_mem (mem s) (mem s') [(arr, 4); (p, PGSIZE)];
  pt_rest : same_rest md s s';
}.

Lemma wp_take_page {A} md n s p l arr q (k : Z -> K kstate A) (Q : A -> kstate -> Prop) msg :
  alloc_state md (S n) s (p :: l) ->
  page_ok q -> q ∉ p :: l -> q <= arr -> arr + 4 <= q + PGSIZE -> mapped (mem s) arr 4 ->
  (forall s', page_taken md n l arr p s s' -> wp (k p) Q s') ->
  wp (pg ← kalloc_zeroed msg; on_mem (store32 arr pg) ;; k pg) Q s.
Proof.
  intros Has Hq Hn Ha1 Ha2 Hm HQ. pose proof (as_list _ _ _ _ Has) as (_ & Hp & _).
  pose proof (as_nodup _ _ _ _ Has) as Hnd. apply NoDup_cons in Hnd as [Hpl _].
  apply not_elem_of_cons in Hn as [Hqp Hql]. pose proof (pages_apart q p Hq Hp Hqp) as Hap.
  wp_steps. eapply wp_kalloc_zeroed; [exact Has|]. intros s1 Has1 Hh1 Hs1 R1. wp_steps.
  apply wp_on_mem, wp_store_bytes; rewrite length_le_bytes.
  { intros i Hi. rewrite Hs1 by (change (Z.of_nat 4) with 4 in Hi; lia). apply Hm, Hi. }
  intros m2 Hh2 Hs2. change (Z.of_nat 4) with 4 in Hs2. apply HQ. split.
  - eapply (alloc_state_write _ _ _ _ _ q Has1); auto.
    eapply same_outside_weaken; [exact Hs2|lia|lia].
  - exact Hh2.
  - eapply holds_same_outside; [exact Hh1|exact Hs2|]. unfold zeros. rewrite length_replicate.
    unfold PGSIZE in *. lia.
  - intros x Hx. simpl. inversion_clear Hx as [|? ? H1 Hx']. inversion_clear Hx' as [|? ? H2 _].
    simpl in H1, H2. rewrite Hs2, Hs1 by assumption. reflexivity.
  - destruct R1. split; auto.
Qed.

Lemma blocks_done_0 md n l arr p s s' : page_taken md n l arr p s s' -> blocks_done md n l arr p 0 s s'.
Proof.
  intros [B1 B2 B3 B4 B5]. split; auto.
  - destruct B5. split; auto. rewrite sr_prng0. simpl. destruct (prng s); reflexivity.
Qed.

Lemma wp_prnggenblocks md n s p l arr q blocks (Q : unit -> kstate -> Prop) :
  alloc_state md (S n) s (p :: l) ->
  page_ok q -> q ∉ p :: l -> q <= arr -> arr + 4 <= q + PGSIZE -> mapped (mem s) arr 4 ->
  (1 <= blocks <= 256)%nat -> ctr_ok (counter (prng s)) -> counter (prng s) !!! 0%nat <> 0 ->
  (forall s', blocks_done md n l arr p blocks s s' -> Q tt s') ->
  wp (prnggenblocks (Z.of_nat blocks) arr) Q s.
Proof.
  intros Has Hq Hn Ha1 Ha2 Hm Hb Hc Hc0 HQ.
  pose proof (as_list _ _ _ _ Has) as (_ & Hp & _).
  pose proof (as_nodup _ _ _ _ Has) as Hnd. apply NoDup_cons in Hnd as [Hpl _].
  unfold prnggenblocks. wp_steps. rewrite (proj2 (Z.eqb_neq _ _) Hc0).
  pose proof (page_ok_range q Hq). replace (arr =? 0) with false by (unfold KERNBASE in *; lia).
  assert (Hlen : length (steps (16 * Z.of_nat blocks) 16) = blocks).
  { rewrite length_steps. replace ((16 * Z.of_nat blocks + 16 - 1) / 16) with (Z.of_nat blocks); [lia|].
    apply (Z.div_unique _ _ _ 15); lia. }
  wp_steps. eapply wp_mono; [apply (wp_foldM _ _ (fun i pg s' =>
    match i with O => s' = s | _ => pg = p /\ blocks_done md n l arr p i s s' end)); [reflexivity|]|].
  - intros i x pg s' Hx HI. pose proof (lookup_lt_Some _ _ _ Hx) as Hi. rewrite Hlen in Hi.
    apply lookup_steps in Hx as [-> _]; [|lia].
    rewrite (Z.mod_small (16 * Z.of_nat i) 4096), Z.div_small by lia. apply wp_bind.
    eapply (wp_mono _ (fun pg' s1 => pg' = p /\ blocks_done md n l arr p i s s1)).
    { destruct i as [|i].
      - subst s'. change (16 * Z.of_nat 0 =? 0) with true. cbv iota. rewrite Z.mul_0_r, Z.add_0_r.
        apply (wp_take_page md n s p l arr q); auto.
        intros s1 HT. apply wp_ret. auto using blocks_done_0.
      - rewrite (proj2 (Z.eqb_neq (16 * Z.of_nat (S i)) 0)) by (clear; lia). apply wp_ret, HI. }
    intros pg' s1 [-> [B1 B2 B3 B4 B5]]. pose proof (same_rest_set_prng _ _ _ _ B5) as Hg.
    eapply (wp_gen_block md n s1 p l _ _ i); [exact B1|exact Hp|exact Hpl|lia|exact Hc|exact B3|..].
    + rewrite Hg. reflexivity.
    + rewrite Hg. reflexivity.
    + intros s2 C1 C2 C3 C4. split; [reflexivity|].
      assert (Hap : arr + 4 <= p \/ p + PGSIZE <= arr).
      { apply not_elem_of_cons in Hn as [Hqp _]. pose proof (pages_apart q p Hq Hp Hqp). lia. }
      split; [exact C1| |exact C2| |].
      * eapply holds_same_outside; [exact B2|exact C3|]. rewrite length_le_bytes. exact Hap.
      * eapply frame_trans; [exact B4|]. eapply frame_in; [exact C3| |apply Z.le_refl|apply Z.le_refl].
        right. left.
      * rewrite Hg in C4. eapply same_rest_trans; [|exact C4].
        apply (same_rest_prng _ _ _ (with_ctr (ctr_iter (S i) (counter (prng s))) (prng s))) in B5. exact B5.
  - intros pg s' HI. apply wp_skip. rewrite Hlen in HI. destruct blocks; [lia|]. apply HQ, HI.
Qed.

(** ** Copying the blocks *)

(** Page [c] after [j] bytes of [bs] have been copied to it. *)
Definition copied (bs : list Z) (j : nat) : list Z := take j bs ++ zeros (PGSIZE - Z.of_nat j).

Lemma copied_succ bs j b m p : (Z.of_nat j < PGSIZE) -> bs !! j = Some b ->
  holds m p (copied bs j) -> forall m', load8 m' (p + Z.of_nat j) = Some b ->
  (forall x, x <> p + Z.of_nat j -> load8 m' x = load8 m x) -> holds m' p (copied bs (S j)).
Proof.
  intros Hj Hb Hh m' H1 H2. pose proof (lookup_lt_Some _ _ _ Hb) as Hlt.
  assert (Hl : length (take j bs) = j) by (rewrite length_take; lia).
  unfold copied, zeros in *. apply holds_app in Hh as [Hh1 Hh2]. rewrite Hl in Hh2.
  rewrite (take_S_r _ _ _ Hb), <- app_assoc. apply holds_app. rewrite Hl. split.
  - intros i x Hx. pose proof (lookup_lt_Some _ _ _ Hx). rewrite H2 by lia. apply Hh1, Hx.
  - intros [|i] x Hx; simpl in Hx.
    + injection Hx as <-. rewrite Z.add_0_r. exact H1.
    + apply lookup_replicate in Hx as [-> Hi]. rewrite H2 by lia. apply Hh2, lookup_replicate. lia.
Qed.

(** The state after [j] bytes. *)
Record copy_done (md : mode) (n : nat) (l : list Z) (output c : Z) (bs : list Z) (j : nat) (s s' : kstate) : Prop := {
  cd_alloc : alloc_state md n s' l;
  cd_entry : holds (mem s') output (le_bytes 4 c);
  cd_page : holds (mem s') c (copied bs j);
  cd_frame : frame_mem (mem s) (mem s') [(output, 4); (c, PGSIZE)];
  cd_rest : same_rest md s s';
}.

Section copy.
Context (md : mode) (n : nat) (s : kstate) (b c q output bpp : Z) (l bs : list Z).
Hypothesis Has : alloc_state md (S n) s (c :: l).
Hypothesis Hq : page_ok q.
Hypothesis Hql : q ∉ c :: l.
Hypothesis Hout : q <= output /\ output + 4 <= q + PGSIZE.
Hypothesis Hmap : mapped (mem s) output 4.
Hypothesis Hb : page_ok b.
Hypothesis Hbl : b <> c /\ b <> q.
Hypothesis Hbs : holds (mem s) b bs.
Hypothesis Hlen : Z.of_nat (length bs) = PGSIZE.
Hypothesis Hbpp : holds (mem s) bpp (le_bytes 4 b).
Hypothesis Hbpp_apart : apart bpp 4 [(output, 4); (c, PGSIZE)].

Lemma copy_c : page_ok c /\ (c ∉ l) /\ (output + 4 <= c \/ c + PGSIZE <= output) /\
  apart b PGSIZE [(output, 4); (c, PGSIZE)].
Proof.
  pose proof (as_list _ _ _ _ Has) as (_ & Hc & _).
  pose proof (as_nodup _ _ _ _ Has) as Hnd. apply NoDup_cons in Hnd as [Hcl _].
  apply not_elem_of_cons in Hql as [Hqc _]. destruct Hbl as [Hbc Hbq].
  pose proof (pages_apart q c Hq Hc Hqc). pose proof (pages_apart b c Hb Hc Hbc).
  pose proof (pages_apart b q Hb Hq Hbq).
  split; [exact Hc|]. split; [exact Hcl|]. split; [lia|].
  repeat apply Forall_cons_2; try apply Forall_nil_2; simpl; lia.
Qed.

Lemma copy_round j pw pr s' (Q : Z * Z -> kstate -> Prop) : Z.of_nat j < PGSIZE ->
  (match j with O => s' = s | _ => pw = c /\ pr = b /\ copy_done md n l output c bs j s s' end) ->
  (forall s2, copy_done md n l output c bs (S j) s s2 -> Q (c, b) s2) ->
  wp (copy_byte output bpp (pw, pr) (Z.of_nat j)) Q s'.
Proof.
  intros Hj HI HQ. destruct copy_c as (Hc & Hcl & Hoc & Hba). unfold copy_byte.
  assert (Hb32 : is_u32 b) by (apply page_ok_u32, Hb). unfold PGSIZE in Hj.
  rewrite Z.mod_small, Z.div_small by lia. apply wp_bind.
  eapply (wp_mono _ (fun r s1 => r = (c, b) /\ copy_done md n l output c bs j s s1)).
  { destruct j as [|j].
    - subst s'. change (Z.of_nat 0 =? 0) with true. cbv iota. rewrite Z.mul_0_r, !Z.add_0_r.
      apply (wp_take_page md n s c l output q); auto; try apply Hout.
      intros s1 [D1 D2 D3 D4 D5]. wp_steps. apply wp_on_mem.
      eapply wp_load32; [apply length_le_bytes|eapply frame_holds; [exact Hbpp|exact D4|exact Hbpp_apart]|].
      rewrite le_word_u32, set_mem_same by auto. apply wp_ret. split; [reflexivity|].
      split; auto.
    - rewrite (proj2 (Z.eqb_neq (Z.of_nat (S j)) 0)) by (clear; lia). apply wp_ret.
      destruct HI as (-> & -> & HI). auto. }
  intros r s1 [-> [D1 D2 D3 D4 D5]].
  destruct (lookup_lt_is_Some_2 bs j) as [v Hv]; [unfold PGSIZE in *; lia|].
  wp_steps. apply wp_on_mem, (wp_load _ v).
  { apply (frame_holds _ _ _ _ _ Hbs D4); [|exact Hv]. rewrite Hlen. exact Hba. }
  rewrite set_mem_same by reflexivity. wp_steps. apply wp_on_mem, wp_store.
  { apply (holds_mapped _ _ _ D3). unfold copied, zeros. rewrite length_app, length_take, length_replicate.
    unfold PGSIZE in *. lia. }
  intros m2 E1 E2. apply wp_ret, HQ.
  assert (Hs2 : same_outside (mem s1) m2 c PGSIZE) by (intros x Hx; apply E2; unfold PGSIZE in *; lia).
  split.
  - eapply (alloc_state_write _ _ _ _ _ c D1); auto.
  - eapply holds_same_outside; [exact D2|exact Hs2|]. rewrite length_le_bytes. lia.
  - eapply copied_succ; [unfold PGSIZE; lia|exact Hv|exact D3|exact E1|exact E2].
  - eapply frame_trans; [exact D4|]. eapply frame_in; [exact Hs2| |apply Z.le_refl|apply Z.le_refl].
    right. left.
  - destruct D5. split; auto.
Qed.

Lemma wp_copy_blocks size (Q : Z * Z -> kstate -> Prop) :
  1 <= size <= PGSIZE ->
  (forall s', copy_done md n l output c bs (Z.to_nat size) s s' -> Q (c, b) s') ->
  wp (foldM (seqZ 0 size) (copy_byte output bpp) (0, 0)) Q s.
Proof.
  intros Hs HQ. eapply wp_mono; [apply (wp_foldM _ _ (fun j r s' =>
    match j with O => s' = s | _ => r = (c, b) /\ copy_done md n l output c bs j s s' end)); [reflexivity|]|].
  - intros j x [pw pr] s' Hx HI. apply lookup_seqZ in Hx as [-> Hj]. rewrite Z.add_0_l.
    apply copy_round; [lia| |auto]. destruct j; [exact HI|].
    destruct HI as [[= -> ->] HI]. auto.
  - intros r s' HI. rewrite length_seqZ in HI. destruct (Z.to_nat size) eqn:E; [lia|].
    destruct HI as [-> HI]. apply HQ, HI.
Qed.
End copy.

(** ** Giving pages back *)

Lemma wp_read_bytes a bs s (Q : list Z -> kstate -> Prop) :
  holds (mem s) a bs -> Q bs s -> wp (read_bytes a (length bs)) Q s.
Proof.
  intros Hh HQ. unfold read_bytes.
  eapply wp_mono; [apply (wp_foldM _ _ (fun j r s' => r = take j bs /\ s' = s)); [split; reflexivity|]|].
  - intros j x r s' Hx [-> ->]. apply lookup_seqZ in Hx as [-> Hj].
    destruct (lookup_lt_is_Some_2 bs j) as [v Hv]; [lia|].
    wp_steps. apply wp_on_mem, (wp_load _ v); [rewrite Z.add_0_l; apply Hh, Hv|].
    apply wp_ret. rewrite set_mem_same by reflexivity. rewrite (take_S_r _ _ _ Hv). auto.
  - intros r s' [-> ->]. rewrite length_seqZ, Nat2Z.id, take_ge by lia. exact HQ.
Qed.

Lemma same_outside_frame {M} `{Memory M} (m m' : M) lo n : same_outside m m' lo n -> frame_mem m m' [(lo, n)].
Proof. intros Hs. eapply frame_in; [exact Hs|left|lia|lia]. Qed.

(** The page [b] of the first entry is freed; the second entry is null. *)
Lemma wp_free_blocks md n s a b l k (Q : unit -> kstate -> Prop) :
  alloc_state md (S n) s l -> page_ok b -> b ∉ l -> mapped (mem s) b PGSIZE ->
  holds (mem s) a (le_bytes 4 b ++ le_bytes 4 0) -> (a + 8 <= b \/ b + PGSIZE <= a) ->
  (forall s', alloc_state md n s' (b :: l) -> frame_mem (mem s) (mem s') [(b, PGSIZE)] ->
     same_rest md s s' -> Q tt s') ->
  wp (free_blocks (S (S k)) a) Q s.
Proof.
  intros Has Hb Hbl Hm Hh Hap HQ. apply holds_app in Hh as [H1 H2]. rewrite length_le_bytes in H2.
  pose proof (page_ok_u32 b Hb) as Hu. pose proof (page_ok_range b Hb).
  cbn [free_blocks]. wp_steps. apply wp_on_mem. eapply wp_load32; [apply length_le_bytes|exact H1|].
  rewrite le_word_u32, set_mem_same by auto. replace (b =? 0) with false by (unfold KERNBASE in *; lia).
  wp_steps. eapply wp_kfree; eauto. intros s1 Has1 Hs1 _ R1. wp_steps. apply wp_on_mem.
  eapply wp_load32; [apply length_le_bytes| |].
  { eapply holds_same_outside; [exact H2|exact Hs1|]. rewrite length_le_bytes.
    change (Z.of_nat 4) with 4. unfold PGSIZE in *. lia. }
  rewrite le_word_u32, set_mem_same by (auto; unfold is_u32; lia). apply wp_skip.
  apply HQ; auto using same_outside_frame.
Qed.

(** A page stays mapped when its first entry and another page are written. *)
Lemma mapped_entry (m m' : pages) a b x :
  mapped m a PGSIZE -> holds m' a (le_bytes 4 x) -> frame_mem m m' [(a, 4); (b, PGSIZE)] ->
  a + PGSIZE <= b \/ b + PGSIZE <= a -> mapped m' a PGSIZE.
Proof.
  intros Hm Hh Hf Hap i Hi. destruct (Z.lt_ge_cases i 4).
  - apply (holds_mapped _ _ _ Hh). rewrite length_le_bytes. lia.
  - rewrite Hf by outside_lia. apply Hm, Hi.
Qed.

(** The new key: two more blocks. *)
Lemma wp_rekey md n s a b rest (Q : unit -> kstate -> Prop) msg :
  alloc_state md (4 + n) s (a :: b :: rest) ->
  ctr_ok (counter (prng s)) -> counter (prng s) !!! 0%nat <> 0 ->
  (forall s', alloc_state md n s' (a :: b :: rest) ->
     frame_mem (mem s) (mem s') [(a, PGSIZE); (b, PGSIZE)] ->
     same_rest md (set_prng (Generator (ctr_iter 2 (counter (prng s)))
       (keystream (key (prng s)) (counter (prng s)) 2) (reseed_ctr (prng s)) (last_reseed_ticks (prng s))) s) s' ->
     Q tt s') ->
  wp (blocks_ptr_page ← kalloc_zeroed msg;
      prnggenblocks 2 blocks_ptr_page ;;
      p0 ← on_mem (load32 blocks_ptr_page);
      bs ← read_bytes p0 32;
      set_key bs ;;
      p0 ← on_mem (load32 blocks_ptr_page);
      kfree p0 ;;
      kfree blocks_ptr_page) Q s.
Proof.
  intros Has Hc Hc0 HQ. pose proof (as_list _ _ _ _ Has) as (_ & Ha & _ & x & _ & _ & _ & Hb & _).
  pose proof (as_nodup _ _ _ _ Has) as Hnd. apply NoDup_cons in Hnd as [Hal Hnd].
  apply NoDup_cons in Hnd as [Hbl _]. pose proof (page_ok_u32 b Hb) as Hbu.
  assert (Hab : a <> b) by (intros ->; apply Hal; left).
  pose proof (pages_apart a b Ha Hb Hab) as Hap.
  wp_steps. eapply wp_kalloc_zeroed; [exact Has|]. intros s1 Has1 Z1 S1 R1.
  pose proof (sr_prng _ _ _ R1) as G1. wp_steps.
  apply (wp_prnggenblocks md (2 + n) s1 b rest a a 2); auto; try (unfold PGSIZE; lia); rewrite ?G1; auto.
  { intros i Hi. apply (holds_mapped _ _ _ Z1). unfold zeros, PGSIZE. rewrite length_replicate. lia. }
  intros s2 [B1 B2 B3 B4 B5]. rewrite G1 in *. pose proof (same_rest_set_prng _ _ _ _ B5) as G2.
  set (ks := keystream (key (prng s)) (counter (prng s)) 2) in *.
  assert (Hks : holds (mem s2) b ks) by (apply holds_app in B3 as [B3 _]; exact B3).
  assert (Hlk : length ks = 32%nat) by (apply keystream_length, Hc).
  wp_steps. apply wp_on_mem. eapply wp_load32; [apply length_le_bytes|exact B2|].
  rewrite le_word_u32, set_mem_same by auto. apply wp_bind. rewrite <- Hlk. apply wp_read_bytes; [exact Hks|].
  unfold set_key. wp_steps. apply wp_on_mem. eapply wp_load32; [apply length_le_bytes|exact B2|].
  rewrite le_word_u32 by auto. set (s3 := set_mem _ _).
  assert (Has3 : alloc_state md (2 + n) s3 rest) by (eapply alloc_state_same; [exact B1|reflexivity..]).
  wp_steps. eapply wp_kfree; [exact Has3|exact Hb|exact Hbl| |].
  { intros i Hi. apply (holds_mapped _ _ _ B3). rewrite block_page_length by (auto; lia). exact Hi. }
  intros s4 Has4 S4 _ R4. eapply wp_kfree; [exact Has4|exact Ha|exact Hal| |].
  { eapply mapped_after_kfree; [exact Has4|exact S4|]. simpl mem.
    apply (mapped_entry (mem s1) _ a b b); auto.
    intros i Hi. apply (holds_mapped _ _ _ Z1). unfold zeros. rewrite length_replicate.
    unfold PGSIZE in *. lia. }
  intros s5 Has5 S5 _ R5. apply HQ; [exact Has5| |].
  - intros y Hy. rewrite S5 by outside_lia. rewrite S4 by outside_lia. simpl mem.
    rewrite B4, S1 by (unfold PGSIZE in *; outside_lia). reflexivity.
  - eapply same_rest_trans; [|eapply same_rest_trans; [exact R4|exact R5]]. unfold s3. rewrite G2.
    set (g := Generator _ _ _ _). apply (same_rest_prng _ _ _ g) in R1, B5.
    eapply same_rest_trans; [exact R1|]. destruct B5. split; auto.
Qed.

(** ** Random data *)

Definition nblocks (size : Z) : nat := Z.to_nat ((size + 15) / 16).

Lemma nblocks_code size : 0 <= size ->
  (if size mod 16 =? 0 then size / 16 else size / 16 + 1) = Z.of_nat (nblocks size).
Proof.
  intros Hs. unfold nblocks. pose proof (Z.div_mod size 16 ltac:(lia)).
  pose proof (Z.mod_pos_bound size 16 ltac:(lia)). pose proof (Z.div_pos size 16 Hs ltac:(lia)).
  destruct (Z.eqb_spec (size mod 16) 0) as [E|E].
  - replace ((size + 15) / 16) with (size / 16); [lia|]. apply (Z.div_unique _ _ _ 15); lia.
  - replace ((size + 15) / 16) with (size / 16 + 1); [lia|].
    apply (Z.div_unique _ _ _ (size mod 16 - 1)); lia.
Qed.

Lemma nblocks_range size : 1 <= size <= 4096 -> (1 <= nblocks size <= 256)%nat /\
  size <= 16 * Z.of_nat (nblocks size).
Proof.
  intros Hs. unfold nblocks. pose proof (Z.div_mod (size + 15) 16 ltac:(lia)).
  pose proof (Z.mod_pos_bound (size + 15) 16 ltac:(lia)). lia.
Qed.

Lemma ctr_iter_add m n c : ctr_iter m (ctr_iter n c) = ctr_iter (m + n) c.
Proof. unfold ctr_iter. rewrite Nat.iter_add. reflexivity. Qed.

(** The generator after a request of [size] bytes. *)
Definition after_request (size : Z) (g : generator) : generator :=
  Generator (ctr_iter (2 + nblocks size) (counter g))
            (keystream (key g) (ctr_iter (nblocks size) (counter g)) 2)
            (reseed_ctr g) (last_reseed_ticks g).

(** The page of data for the request. *)
Definition data_page (size : Z) (g : generator) : list Z :=
  copied (block_page (key g) (counter g) (nblocks size)) (Z.to_nat size).

Lemma data_page_length size g : ctr_ok (counter g) -> 1 <= size <= 4096 ->
  Z.of_nat (length (data_page size g)) = PGSIZE.
Proof.
  intros Hc Hs. destruct (nblocks_range size Hs). unfold data_page, copied, zeros.
  rewrite length_app, length_take, length_replicate.
  pose proof (block_page_length (key g) (counter g) (nblocks size) Hc ltac:(lia)). unfold PGSIZE in *. lia.
Qed.

Definition seeded (size : Z) (g : generator) : Prop :=
  ctr_ok (counter g) /\ counter g !!! 0%nat <> 0 /\ ctr_iter (nblocks size) (counter g) !!! 0%nat <> 0.

Lemma zeros_entry (m : pages) a : holds m a (zeros PGSIZE) -> holds m (a + Z.of_nat 4) (le_bytes 4 0).
Proof.
  intros Hh i x Hx. rewrite <- Z.add_assoc, <- Nat2Z.inj_add. apply Hh. apply lookup_replicate.
  change (le_bytes 4 0) with (replicate 4 0) in Hx. apply lookup_replicate in Hx as [-> Hi].
  unfold PGSIZE. lia.
Qed.

Section randdata.
Context (md : mode) (n : nat) (s : kstate) (a b c q output size : Z) (rest : list Z).
Hypothesis Has : alloc_state md (9 + n) s (a :: b :: c :: rest).
Hypothesis Hq : page_ok q.
Hypothesis Hql : q ∉ a :: b :: c :: rest.
Hypothesis Hout : q <= output /\ output + 4 <= q + PGSIZE.
Hypothesis Hmap : mapped (mem s) output 4.
Hypothesis Hsize : 1 <= size <= 4096.
Hypothesis Hseed : seeded size (prng s).

(** The three pages and the one with [output] are pairwise apart. *)
Lemma pages_abc :
  page_ok a /\ page_ok b /\ page_ok c /\
  (a + PGSIZE <= b \/ b + PGSIZE <= a) /\ (a + PGSIZE <= c \/ c + PGSIZE <= a) /\
  (b + PGSIZE <= c \/ c + PGSIZE <= b) /\ (a + PGSIZE <= q \/ q + PGSIZE <= a) /\
  (b + PGSIZE <= q \/ q + PGSIZE <= b) /\ (c + PGSIZE <= q \/ q + PGSIZE <= c).
Proof.
  pose proof (flist_pages _ _ _ (as_list _ _ _ _ Has)) as Hp.
  inversion_clear Hp as [|? ? Ha Hp']. inversion_clear Hp' as [|? ? Hb Hp'']. inversion_clear Hp'' as [|? ? Hc _].
  pose proof (as_nodup _ _ _ _ Has) as Hnd.
  rewrite !NoDup_cons, !not_elem_of_cons in Hnd. rewrite !not_elem_of_cons in Hql.
  destruct Hnd as ((N1 & N2 & _) & (N3 & _) & _). destruct Hql as (Q1 & Q2 & Q3 & _).
  pose proof (pages_apart a b Ha Hb N1). pose proof (pages_apart a c Ha Hc N2).
  pose proof (pages_apart b c Hb Hc N3). pose proof (pages_apart q a Hq Ha Q1).
  pose proof (pages_apart q b Hq Hb Q2). pose proof (pages_apart q c Hq Hc Q3).
  do 8 (split; [first [assumption|lia]|]). lia.
Qed.

(** The state after the data have been copied: pages [a], [b] and [c] taken. *)
Record data_ready (s' : kstate) : Prop := {
  dr_alloc : alloc_state md (6 + n) s' rest;
  dr_output : holds (mem s') output (le_bytes 4 c);
  dr_entries : holds (mem s') a (le_bytes 4 b ++ le_bytes 4 0);
  dr_mapped : mapped (mem s') a PGSIZE /\ mapped (mem s') b PGSIZE;
  dr_page : holds (mem s') c (data_page size (prng s));
  dr_frame : frame_mem (mem s) (mem s') [(a, PGSIZE); (b, PGSIZE); (c, PGSIZE); (output, 4)];
  dr_rest : same_rest md (set_prng (with_ctr (ctr_iter (nblocks size) (counter (prng s))) (prng s)) s) s';
}.

Lemma wp_data (Q : unit -> kstate -> Prop) (k : Z -> K kstate unit) msg :
  (forall s', data_ready s' -> wp (k a) Q s') ->
  wp (blocks_ptr_page ← kalloc_zeroed msg;
      prnggenblocks (Z.of_nat (nblocks size)) blocks_ptr_page ;;
      foldM (seqZ 0 size) (copy_byte output blocks_ptr_page) (0, 0) ;;
      k blocks_ptr_page) Q s.
Proof.
  intros HQ. destruct Hseed as (Hc & Hc0 & _). destruct (nblocks_range size Hsize) as [Hnb Hnb2].
  destruct pages_abc as (Ha & Hb & Hpc & A1 & A2 & A3 & A4 & A5 & A6). clear Hseed.
  pose proof (as_nodup _ _ _ _ Has) as Hnd. rewrite !NoDup_cons in Hnd.
  destruct Hnd as (Na & Nb & Nc & _). rewrite !not_elem_of_cons in Hql.
  wp_steps. eapply wp_kalloc_zeroed; [exact Has|]. intros s1 Has1 Z1 S1 R1.
  pose proof (sr_prng _ _ _ R1) as G1. wp_steps.
  assert (Hma : mapped (mem s1) a PGSIZE).
  { intros i Hi. apply (holds_mapped _ _ _ Z1). unfold zeros. rewrite length_replicate. unfold PGSIZE in *. lia. }
  apply (wp_prnggenblocks md (7 + n) s1 b (c :: rest) a a); rewrite ?G1; auto; try (unfold PGSIZE; lia).
  { intros i Hi. apply Hma. unfold PGSIZE. lia. }
  intros s2 [B1 B2 B3 B4 B5]. rewrite G1 in *.
  assert (Hlen := block_page_length (key (prng s)) (counter (prng s)) (nblocks size) Hc ltac:(lia)).
  wp_steps. apply (wp_copy_blocks md (6 + n) s2 b c q output a rest (block_page (key (prng s)) (counter (prng s)) (nblocks size)));
    try assumption.
  - apply not_elem_of_cons. destruct Hql as (_ & _ & ? & ?). auto.
  - intros i Hi. rewrite B4, S1 by (unfold PGSIZE in *; outside_lia). apply Hmap, Hi.
  - split; intros ->; unfold PGSIZE in *; lia.
  - unfold PGSIZE in *; outside_lia.
  - intros s3 [D1 D2 D3 D4 D5]. wp_steps. apply HQ.
    assert (Hb2 : mapped (mem s2) b PGSIZE) by (rewrite <- Hlen; apply (holds_mapped _ _ _ B3)).
    split; auto.
    + apply holds_app. rewrite length_le_bytes. split.
      * eapply frame_holds; [exact B2|exact D4|]. rewrite length_le_bytes. unfold PGSIZE in *; outside_lia.
      * apply (frame_holds (mem s2)) with (rs := [(output, 4); (c, PGSIZE)]); [|exact D4|].
        -- eapply frame_holds; [|exact B4|]; [exact (zeros_entry _ _ Z1)|].
           rewrite length_le_bytes. unfold PGSIZE in *; outside_lia.
        -- rewrite length_le_bytes. unfold PGSIZE in *; outside_lia.
    + split; [|eapply frame_mapped; [exact Hb2|exact D4|]; unfold PGSIZE in *; outside_lia].
      eapply frame_mapped; [eapply mapped_entry; [exact Hma|exact B2|exact B4|exact A1]|exact D4|].
      unfold PGSIZE in *; outside_lia.
    + intros x Hx. rewrite D4, B4, S1 by (unfold PGSIZE in *; outside_lia). reflexivity.
    + eapply same_rest_trans; [|exact D5]. eapply same_rest_trans; [|exact B5].
      apply same_rest_prng, R1.
Qed.

Lemma wp_prngranddata (Q : unit -> kstate -> Prop) :
  (forall s', alloc_state md n s' (a :: b :: rest) -> holds (mem s') output (le_bytes 4 c) ->
     holds (mem s') c (data_page size (prng s)) ->
     frame_mem (mem s) (mem s') [(a, PGSIZE); (b, PGSIZE); (c, PGSIZE); (output, 4)] ->
     same_rest md (set_prng (after_request size (prng s)) s) s' -> Q tt s') ->
  wp (prngranddata size output) Q s.
Proof.
  intros HQ. unfold prngranddata. rewrite nblocks_code by lia.
  replace ((size <? 0) || (2 ^ 20 <? size)) with false by lia.
  pose proof (page_ok_range q Hq). replace (output =? 0) with false by (unfold KERNBASE in *; lia).
  destruct pages_abc as (Ha & Hb & Hpc & A1 & A2 & A3 & A4 & A5 & A6).
  pose proof (as_nodup _ _ _ _ Has) as Hnd. rewrite !NoDup_cons, !not_elem_of_cons in Hnd.
  destruct Hnd as ((Nab & _ & Nar) & (_ & Nbr) & _).
  apply wp_data. intros s1 [D1 D2 D3 [D4 D5] D6 D7 D8]. apply wp_bind.
  change (free_blocks 1024 a) with (free_blocks (S (S 1022)) a).
  eapply (wp_free_blocks md (5 + n) s1 a b rest); auto; [unfold PGSIZE in *; lia|].
  intros s2 Has2 F2 R2. wp_steps. eapply (wp_kfree md (4 + n) s2 (b :: rest) a); auto.
  { rewrite not_elem_of_cons. auto. }
  { eapply frame_mapped; [exact D4|exact F2|outside_lia]. }
  intros s3 Has3 F3 _ R3. eapply (wp_rekey md n s3 a b rest); [exact Has3|..].
  - rewrite (sr_prng _ _ _ R3), (sr_prng _ _ _ R2), (sr_prng _ _ _ D8).
    apply ctr_iter_length, (proj1 Hseed).
  - rewrite (sr_prng _ _ _ R3), (sr_prng _ _ _ R2), (sr_prng _ _ _ D8).
    apply (proj2 (proj2 Hseed)).
  - intros s4 Has4 F4 R4. rewrite (sr_prng _ _ _ R3), (sr_prng _ _ _ R2), (sr_prng _ _ _ D8) in R4.
    assert (Hf : frame_mem (mem s1) (mem s4) [(a, PGSIZE); (b, PGSIZE)]).
    { intros x Hx. rewrite F4, F3, F2 by outside_lia. reflexivity. }
    apply HQ; [exact Has4| | | |].
    + eapply frame_holds; [exact D2|exact Hf|]. rewrite length_le_bytes. unfold PGSIZE in *; outside_lia.
    + eapply frame_holds; [exact D6|exact Hf|]. rewrite data_page_length by (auto; apply (proj1 Hseed)).
      outside_lia.
    + intros x Hx. rewrite Hf, D7 by outside_lia. reflexivity.
    + cbn [counter key reseed_ctr last_reseed_ticks with_ctr prng set_prng] in R4.
      rewrite ctr_iter_add in R4. fold (after_request size (prng s)) in R4.
      set (g := after_request size (prng s)) in *. eapply same_rest_trans; [|exact R4].
      eapply same_rest_trans; [|exact (same_rest_prng _ _ _ g R3)].
      eapply same_rest_trans; [|exact (same_rest_prng _ _ _ g R2)].
      exact (same_rest_prng _ _ _ g D8).
Qed.
End randdata.

(** ** Requests *)

(** Taking and releasing a free lock around a read changes at most [intena]. *)
Lemma wp_tick_read {A} (k : Z -> K kstate A) (Q : A -> kstate -> Prop) s :
  free_lock (tickslock (clock s)) -> cpu_ok (k_cpu s) ->
  (forall c, cpu_same (k_cpu s) c -> wp (k (ticks (clock s))) Q (set_cpu c s)) ->
  wp (acquire_ Ltick ;; t ← gets (fun s => ticks (clock s)); release_ Ltick ;; k t) Q s.
Proof.
  intros Hf Hc HQ. wp_steps. eapply wp_acquire_; [reflexivity|exact Hf|]. wp_steps.
  eapply (wp_release_ _ (name (tickslock (clock s))) (k_cpu s)); [reflexivity|exact Hc|apply cpu_same_refl|].
  intros c Hs. rewrite <- (free_lock_eta _ Hf).
  match goal with |- wp _ _ ?x => replace x with (set_cpu c s) end; [apply HQ, Hs|].
  destruct s as [? ? ? ? ? []]; reflexivity.
Qed.

Lemma get_lock_pool s i q : 0 <= i -> pools s !! Z.to_nat i = Some q ->
  get_lock (Lpool i) s = Some (pool_lock q).
Proof. intros Hi Hq. simpl. replace (i <? 0) with false by lia. rewrite Hq. reflexivity. Qed.

(** Pool [q] as its holder sees it. *)
Definition held_pool (s : kstate) (q : entropy_pool) : entropy_pool :=
  Pool (size q) (entropy q) (Lock (name (pool_lock q)) 1 (Some (me s))).

Lemma wp_pool_lock {A} (k : entropy_pool -> K kstate A) (Q : A -> kstate -> Prop) s i q :
  0 <= i -> pools s !! Z.to_nat i = Some q -> free_lock (pool_lock q) ->
  wp (k (held_pool s q)) Q (upd s i (held_pool s q) (pushcli (k_cpu s))) ->
  wp (acquire_ (Lpool i) ;; q ← get_pool i; k q) Q s.
Proof.
  intros Hi Hq Hf HQ. wp_steps. eapply wp_acquire_; [apply get_lock_pool; eassumption|exact Hf|].
  wp_steps. unfold put_lock. simpl pools. rewrite (list_alter_lookup _ _ _ _ Hq).
  eapply wp_get_pool; [exact Hi| |exact HQ]. apply list_lookup_insert_eq, lookup_lt_is_Some. eauto.
Qed.

(** Releasing a pool that was locked when the CPU was in state [c0]. *)
Lemma wp_pool_unlock (Q : unit -> kstate -> Prop) s i q nm c0 :
  0 <= i -> pools s !! Z.to_nat i = Some q -> pool_lock q = Lock nm 1 (Some (me s)) ->
  cpu_ok c0 -> cpu_same (pushcli c0) (k_cpu s) ->
  (forall c, cpu_same c0 c -> Q tt (upd s i (Pool (size q) (entropy q) (Lock nm 0 None)) c)) ->
  wp (release_ (Lpool i)) Q s.
Proof.
  intros Hi Hq Hk Hc Hs HQ. eapply (wp_release_ _ nm c0); [|exact Hc|exact Hs|].
  { rewrite (get_lock_pool _ _ _ Hi Hq), Hk. reflexivity. }
  intros c Hc'. unfold put_lock. simpl pools. rewrite (list_alter_lookup _ _ _ _ Hq). apply HQ, Hc'.
Qed.

Lemma upd_same s i q c : pools s !! Z.to_nat i = Some q -> upd s i q c = set_cpu c s.
Proof. intros Hq. unfold upd. rewrite list_insert_id by exact Hq. destruct s; reflexivity. Qed.

Lemma pool_free_eta q : free_lock (pool_lock q) ->
  Pool (size q) (entropy q) (Lock (name (pool_lock q)) 0 None) = q.
Proof. intros Hf. rewrite <- (free_lock_eta _ Hf). destruct q; reflexivity. Qed.

(** Less than 65 bytes in pool 0, or the last reseed is recent. *)
Definition no_reseed_due (s : kstate) (q0 : entropy_pool) : Prop :=
  size q0 <= MIN_SIZE_POOL \/ u32 (ticks (clock s) - last_reseed_ticks (prng s)) <= 10.

Lemma wp_no_reseed `{OverShift} s q0 (Q : unit -> kstate -> Prop) :
  free_lock (tickslock (clock s)) -> cpu_ok (k_cpu s) -> pools s !! 0%nat = Some q0 ->
  free_lock (pool_lock q0) -> no_reseed_due s q0 ->
  (forall c, cpu_same (k_cpu s) c -> Q tt (set_cpu c s)) ->
  wp maybe_reseed Q s.
Proof.
  intros Ht Hc Hq Hf Hno HQ. unfold maybe_reseed.
  apply wp_tick_read; auto. intros c1 H1. apply (wp_pool_lock _ _ _ 0 q0); auto; [lia|]. wp_steps.
  simpl size. simpl prng.
  replace ((MIN_SIZE_POOL <? size q0) && (10 <? u32 (ticks (clock s) - last_reseed_ticks (prng s))))
    with false by (destruct Hno; lia).
  apply (wp_pool_unlock _ _ 0 (held_pool s q0) (name (pool_lock q0)) c1); auto; try lia.
  - apply list_lookup_insert_eq. apply lookup_lt_Some in Hq. exact Hq.
  - eapply cpu_same_ok; eauto.
  - apply cpu_same_refl.
  - intros c2 H2. simpl size. simpl entropy.
    replace (upd _ _ _ _) with (set_cpu c2 s); [apply HQ; eapply cpu_same_trans; eauto|].
    rewrite pool_free_eta by exact Hf. unfold upd. simpl.
    rewrite list_insert_insert_eq, list_insert_id by exact Hq. destruct s; reflexivity.
Qed.

Section serve.
Context (md : mode) (n : nat) (s : kstate) (d a b c output : Z) (rest : list Z).
Hypothesis Has : alloc_state md (12 + n) s (d :: a :: b :: c :: rest).
Hypothesis Hrc : reseed_ctr (prng s) <> 0.

Lemma serve_pages : page_ok d /\ page_ok c /\ (d ∉ c :: a :: b :: rest) /\ (c ∉ a :: b :: rest) /\
  (d + PGSIZE <= c \/ c + PGSIZE <= d).
Proof.
  pose proof (flist_pages _ _ _ (as_list _ _ _ _ Has)) as Hp.
  inversion_clear Hp as [|? ? Hd Hp']. inversion_clear Hp' as [|? ? _ Hp'']. inversion_clear Hp'' as [|? ? _ Hp].
  inversion_clear Hp as [|? ? Hc _]. pose proof (as_nodup _ _ _ _ Has) as Hnd.
  rewrite !NoDup_cons, !not_elem_of_cons in *. destruct Hnd as ((N1 & N2 & N3 & N4) & (N5 & N6 & N7) & (N8 & N9) & N10 & _).
  pose proof (pages_apart d c Hd Hc N3). repeat split; auto; apply Hd || apply Hc.
Qed.

(** The state when [prngranddata] has returned. *)
Record served (size : Z) (s' : kstate) : Prop := {
  sv_alloc : alloc_state md (2 + n) s' (a :: b :: rest);
  sv_entries : holds (mem s') d (le_bytes 4 c ++ le_bytes 4 0);
  sv_mapped : mapped (mem s') d PGSIZE;
  sv_page : holds (mem s') c (data_page size (prng s));
  sv_frame : frame_mem (mem s) (mem s') [(d, PGSIZE); (a, PGSIZE); (b, PGSIZE); (c, PGSIZE)];
  sv_rest : same_rest md (set_prng (after_request size (prng s)) s) s';
}.

Lemma wp_served {A} size (Q : A -> kstate -> Prop) (k : Z -> K kstate A) msg :
  1 <= size <= 4096 -> seeded size (prng s) ->
  (forall s', served size s' -> wp (k d) Q s') ->
  wp (data_ptr_page ← kalloc_zeroed msg; prngranddata size data_ptr_page ;; k data_ptr_page) Q s.
Proof.
  intros Hs Hseed HQ. destruct serve_pages as (Hd & Hc & Hdn & Hcn & Hdc).
  wp_steps. eapply wp_kalloc_zeroed; [exact Has|]. intros s1 Has1 Z1 S1 R1.
  pose proof (sr_prng _ _ _ R1) as G1. wp_steps.
  assert (Hmd : mapped (mem s1) d PGSIZE).
  { intros i Hi. apply (holds_mapped _ _ _ Z1). unfold zeros. rewrite length_replicate. unfold PGSIZE in *. lia. }
  assert (Hd4 : d ∉ a :: b :: c :: rest).
  { rewrite !not_elem_of_cons in *. intuition. }
  pose proof (flist_pages _ _ _ (as_list _ _ _ _ Has)) as Hp.
  inversion_clear Hp as [|? ? _ Hp']. inversion_clear Hp' as [|? ? Ha Hp'']. inversion_clear Hp'' as [|? ? Hb _].
  rewrite !not_elem_of_cons in Hd4. destruct Hd4 as (Nda & Ndb & Ndc & Ndr).
  pose proof (pages_apart d a Hd Ha Nda). pose proof (pages_apart d b Hd Hb Ndb).
  apply (wp_prngranddata md (2 + n) s1 a b c d d size rest); rewrite ?G1; auto; try (unfold PGSIZE; lia).
  { rewrite !not_elem_of_cons. auto. }
  { intros i Hi. apply Hmd. unfold PGSIZE. lia. }
  intros s2 C1 C2 C3 C4 C5. apply HQ. split; auto.
  - apply holds_app. split; [exact C2|]. rewrite length_le_bytes.
    eapply frame_holds; [exact (zeros_entry _ _ Z1)|exact C4|]. rewrite length_le_bytes.
    unfold PGSIZE in *; outside_lia.
  - intros i Hi. destruct (Z.lt_ge_cases i 4).
    + apply (holds_mapped _ _ _ C2). rewrite length_le_bytes. lia.
    + rewrite C4 by (unfold PGSIZE in *; outside_lia). apply Hmd, Hi.
  - intros x Hx. rewrite C4, S1 by (unfold PGSIZE in *; outside_lia). reflexivity.
  - eapply same_rest_trans; [|exact C5]. apply same_rest_prng, R1.
Qed.

Lemma served_run size msg : 1 <= size <= 4096 -> seeded size (prng s) ->
  exists s1, served size s1 /\ forall A (k : Z -> K kstate A),
    (data_ptr_page ← kalloc_zeroed msg; prngranddata size data_ptr_page ;; k data_ptr_page) s = k d s1.
Proof.
  intros Hs Hseed.
  destruct (wp_served size (fun r s1 => r = d /\ served size s1) mret msg Hs Hseed) as (r & s1 & E & -> & HV).
  { intros s1 HV. apply wp_ret. auto. }
  exists s1. split; [exact HV|]. intros A k. revert E. unfold mbind, K_bind.
  destruct (kalloc_zeroed msg s) as [[r1 s2]|?|?|]; try discriminate.
  destruct (prngranddata size r1 s2) as [[[] s3]|?|?|]; try discriminate.
  intros [= -> ->]. reflexivity.
Qed.

(** The bytes a request of [size] bytes delivers. *)
Definition random_bytes (size : Z) (g : generator) : list Z :=
  take (Z.to_nat size) (keystream (key g) (counter g) (nblocks size)).

Lemma random_bytes_length size g : 1 <= size <= 4096 -> ctr_ok (counter g) ->
  Z.of_nat (length (random_bytes size g)) = size.
Proof.
  intros Hs Hc. destruct (nblocks_range size Hs). unfold random_bytes.
  rewrite length_take, keystream_length by exact Hc. lia.
Qed.

Lemma data_page_bytes m p size g : 1 <= size <= 4096 -> ctr_ok (counter g) ->
  holds m p (data_page size g) -> holds m p (random_bytes size g).
Proof.
  intros Hs Hc Hh. destruct (nblocks_range size Hs). unfold data_page, copied, block_page in Hh.
  rewrite take_app_le in Hh by (rewrite keystream_length by exact Hc; lia).
  apply holds_app in Hh as [Hh _]. exact Hh.
Qed.

Lemma wp_serve size (Q : unit -> kstate -> Prop) :
  1 <= size < 4096 -> seeded size (prng s) ->
  output + size <= KERNBASE -> mapped (mem s) output size ->
  (forall s', alloc_state md n s' (d :: c :: a :: b :: rest) ->
     holds (mem s') output (random_bytes size (prng s)) ->
     frame_mem (mem s) (mem s') [(d, PGSIZE); (a, PGSIZE); (b, PGSIZE); (c, PGSIZE); (output, size)] ->
     same_rest md (set_prng (after_request size (prng s)) s) s' -> Q tt s') ->
  wp (serve output size) Q s.
Proof.
  intros Hs Hseed Hlow Hmap HQ. destruct serve_pages as (Hd & Hc & Hdn & Hcn & Hdc).
  pose proof (flist_pages _ _ _ (as_list _ _ _ _ Has)) as Hp. rewrite !Forall_cons in Hp.
  destruct Hp as (Rd & Ra & Rb & Rc & _). apply page_ok_range in Rd, Ra, Rb, Rc.
  pose proof (random_bytes_length size (prng s) ltac:(lia) (proj1 Hseed)) as Hlen.
  unfold serve. wp_steps. rewrite (proj2 (Z.eqb_neq _ _) Hrc).
  apply wp_served; [lia|exact Hseed|]. intros s1 [V1 V2 V3 V4 V5 V6].
  change (copy_out 1024) with (copy_out (S 1023)). generalize 1023%nat. intros fuel. cbn [copy_out].
  pose proof V2 as V2'. apply holds_app in V2' as [V2' _].
  wp_steps. rewrite Z.mul_0_r, Z.add_0_r. apply wp_on_mem. eapply wp_load32; [apply length_le_bytes|exact V2'|].
  rewrite le_word_u32 by (apply page_ok_u32, Hc). rewrite set_mem_same by reflexivity.
  replace (size <? 4096) with true by lia. wp_steps. rewrite Z.mul_0_l, Z.add_0_r.
  apply wp_on_mem, (wp_memmove _ _ _ (random_bytes size (prng s))); [exact Hlen| | |].
  { apply data_page_bytes; [lia|apply Hseed|exact V4]. }
  { intros i Hi. rewrite V5 by (unfold PGSIZE in *; outside_lia). apply Hmap, Hi. }
  intros m2 M1 M2. pose proof (alloc_state_user _ _ _ _ _ _ _ V1 M2 Hlow) as Has2.
  wp_steps. eapply (wp_kfree md (1 + n)); [exact Has2|exact Hc|exact Hcn| |].
  { intros i Hi. simpl mem. rewrite M2 by lia. apply (holds_mapped _ _ _ V4).
    rewrite data_page_length by (apply Hseed || lia). exact Hi. }
  intros s3 Has3 F3 _ R3. eapply (wp_kfree md n); [exact Has3|exact Hd|exact Hdn| |].
  { eapply mapped_after_kfree; [exact Has3|exact F3|]. intros i Hi. simpl mem. rewrite M2 by lia. apply V3, Hi. }
  intros s4 Has4 F4 _ R4. simpl mem in F3. apply HQ; [exact Has4| | |].
  - eapply holds_same_outside; [|exact F4|rewrite Hlen; lia].
    eapply holds_same_outside; [exact M1|exact F3|rewrite Hlen; lia].
  - intros x Hx. rewrite F4, F3, M2, V5 by outside_lia. reflexivity.
  - eapply same_rest_trans; [exact V6|]. eapply same_rest_trans; [|exact R4].
    destruct R3; split; auto.
Qed.

(** A page of 4096 bytes: the loop goes on to the null second entry. *)
Lemma serve_page_panics :
  seeded 4096 (prng s) -> output + 4096 <= KERNBASE -> mapped (mem s) output 4096 ->
  serve output 4096 s = Panic "kfree".
Proof.
  intros Hseed Hlow Hmap. destruct serve_pages as (Hd & Hc & Hdn & Hcn & Hdc).
  pose proof (flist_pages _ _ _ (as_list _ _ _ _ Has)) as Hp. rewrite !Forall_cons in Hp.
  destruct Hp as (Rd & Ra & Rb & Rc & _). apply page_ok_range in Rd, Ra, Rb, Rc.
  pose proof (data_page_length 4096 (prng s) (proj1 Hseed) ltac:(lia)) as Hlen. unfold PGSIZE in Hlen.
  unfold serve. apply bind_panic, wp_gets. rewrite (proj2 (Z.eqb_neq _ _) Hrc).
  destruct (served_run 4096 "prngrand: unable to allocate memory.") as (s1 & [V1 V2 V3 V4 V5 V6] & E); [lia|exact Hseed|].
  rewrite (E unit (fun data_ptr_page => copy_out 1024 output data_ptr_page 0 4096 ;; kfree data_ptr_page)).
  clear E. apply bind_panic_l. change (copy_out 1024) with (copy_out (S (S 1022))).
  generalize 1022%nat. intros fuel. cbn [copy_out]. pose proof V2 as V2'. apply holds_app in V2' as [V2a V2b].
  rewrite length_le_bytes in V2b. replace (d + 4 * 0) with d by lia.
  apply bind_panic, wp_on_mem. eapply wp_load32; [apply length_le_bytes|exact V2a|].
  rewrite le_word_u32 by (apply page_ok_u32, Hc). rewrite set_mem_same by reflexivity.
  change (4096 <? 4096) with false. cbv iota. replace (output + 0 * 4096) with output by lia.
  apply bind_panic, wp_on_mem, (wp_memmove _ _ _ (data_page 4096 (prng s))); [exact Hlen|exact V4| |].
  { intros i Hi. rewrite V5 by (unfold PGSIZE in *; outside_lia). apply Hmap, Hi. }
  intros m2 M1 M2. pose proof (alloc_state_user _ _ _ _ _ _ _ V1 M2 Hlow) as Has2.
  apply bind_panic. eapply (wp_kfree md (1 + n)); [exact Has2|exact Hc|exact Hcn| |].
  { intros i Hi. simpl mem. rewrite M2 by lia. apply (holds_mapped _ _ _ V4). rewrite Hlen. exact Hi. }
  intros s3 Has3 F3 _ R3. simpl mem in F3. apply bind_panic, wp_on_mem.
  eapply wp_load32; [apply length_le_bytes| |].
  { eapply holds_same_outside; [|exact F3|rewrite length_le_bytes; unfold PGSIZE in *; lia].
    eapply holds_same_outside; [exact V2b|exact M2|lia]. }
  rewrite le_word_u32 by (unfold is_u32; lia).
  apply bind_panic, wp_on_mem, (wp_memmove _ _ _ []); [reflexivity| |intros i Hi; lia|].
  { intros i x Hx. discriminate. }
  intros m4 _ _. apply kfree_bad. right. left. pose proof kend_high. unfold KERNBASE in *. lia.
Qed.
End serve.

(** ** Reseeding *)

Section reseed.
Context `{OverShift}.

Lemma alloc_state_quiet_upd n s l i p c :
  alloc_state Quiet n s l -> cpu_ok c -> alloc_state Quiet n (upd s i p c) l.
Proof. intros [] Hc. split; auto. Qed.

(** A pool that can be hashed: not locked, not too full. *)
Definition hashable (q : entropy_pool) : Prop :=
  free_lock (pool_lock q) /\ Z.of_nat (length (entropy q)) = POOL_SIZE /\ 0 <= size q < 3584.

(** The pool after its data have been used. *)
Definition emptied (q : entropy_pool) : entropy_pool :=
  Pool 0 (replicate (Z.to_nat (size q)) 0 ++ drop (Z.to_nat (size q)) (entropy q)) (pool_lock q).

(** The 32 bytes pool [q] contributes when page [p] is the buffer. *)
Definition pool_digest (s : kstate) (p : Z) (q : entropy_pool) : list Z :=
  digest_bytes (sha_words (stale s p (size q)) (entropy q) (size q)).

Lemma pool_digest_length s p q : length (pool_digest s p q) = 32%nat.
Proof.
  unfold pool_digest, sha_words. rewrite length_digest_bytes. unfold Fips180.digest.
  generalize (blocks (message (stale s p (size q)) (entropy q) (data_words (size q)))
                     (Z.to_nat (padded (size q) / 64))). intros bl.
  assert (Hl : length h_init = 8%nat) by reflexivity. revert Hl. generalize h_init.
  induction bl as [|x bl IH]; intros h0 Hl; simpl; [rewrite Hl; reflexivity|].
  apply IH, compress_length, Hl.
Qed.

(** What one round of the gathering loop leaves alone. *)
Record gather_frame (s s' : kstate) : Prop := {
  gf_me : me s' = me s;
  gf_cpu : cpu_same (k_cpu s) (k_cpu s');
  gf_clock : clock s' = clock s;
  gf_prng : prng s' = prng s;
  gf_w : length (hash_w (sha s')) = 64%nat;
}.

Lemma wp_gather_pool n s p l sd off i q obs (Q : Z -> kstate -> Prop) :
  alloc_state Quiet (S n) s (p :: l) -> 0 <= i < 32 -> pools s !! Z.to_nat i = Some q -> hashable q ->
  page_ok sd -> sd ∉ p :: l -> 0 <= off -> off + 32 <= PGSIZE ->
  holds (mem s) (sd + off) obs -> length obs = 32%nat -> length (hash_w (sha s)) = 64%nat ->
  (forall s', alloc_state Quiet n s' l -> pools s' = <[Z.to_nat i := emptied q]> (pools s) ->
     holds (mem s') (sd + off) (pool_digest s p q) ->
     frame_mem (mem s) (mem s') [(sd + off, 32); (p, PGSIZE)] -> gather_frame s s' -> Q (off + 32) s') ->
  wp (gather_pool sd off i) Q s.
Proof.
  intros Has Hi Hq (Hf & Hlen & Hsz) Hsd Hsn Ho1 Ho2 Hobs Hol Hw HQ.
  assert (Hgt : (Z.to_nat i < length (pools s))%nat) by (apply lookup_lt_Some in Hq; exact Hq).
  pose proof (as_cpu _ _ _ _ Has) as Hcpu. pose proof (as_list _ _ _ _ Has) as (_ & Hp & _).
  unfold gather_pool. wp_steps.
  replace (Z.lor _ _ =? 0) with false.
  2: { symmetry. apply Z.eqb_neq. intros E. apply Z.lor_eq_0_iff in E as [_ E].
       revert E. clear -Hi. assert (Hin : In i (seqZ 0 32)) by (apply list_elem_of_In, elem_of_seqZ; lia).
       simpl in Hin. repeat (destruct Hin as [<-|Hin]; [discriminate|]). destruct Hin. }
  simpl negb. cbv iota. apply (wp_pool_lock _ _ _ i q); auto; [lia|].
  set (s1 := upd s i (held_pool s q) (pushcli (k_cpu s))). unfold pool_bytes. simpl size.
  replace (POOL_SIZE <? size q) with false by (unfold POOL_SIZE; lia).
  assert (Has1 : alloc_state Quiet (S n) s1 (p :: l)) by (apply alloc_state_quiet_upd; [exact Has|apply pushcli_ok, Hcpu]).
  apply wp_bind. eapply (wp_sha256 Quiet n s1 p l (PoolArr i) (entropy q) (size q) _ obs);
    [exact Has1|exact Hsz| | |exact I|reflexivity|exact Hw|exact Hobs|exact Hol| |].
  { rewrite Hlen. unfold data_words, POOL_SIZE.
    pose proof (Z.div_mod (size q + 3) 4 ltac:(lia)). pose proof (Z.mod_pos_bound (size q + 3) 4 ltac:(lia)). lia. }
  { split; [lia|]. exists (held_pool s q), []. rewrite app_nil_r. split; [|reflexivity].
    apply list_lookup_insert_eq, Hgt. }
  { exists sd. split; [exact Hsd|]. split; [exact Hsn|]. lia. }
  intros s2 Has2 [F1 F2 F3 (kk & F4 & F5 & _) F6 F7] Hmem Hdig _. specialize (F6 eq_refl).
  assert (Hg : prng s2 = prng s).
  { rewrite F4, F5 by discriminate. simpl. destruct (prng s); reflexivity. }
  wp_steps. apply (wp_get_pool _ (held_pool s q)); [lia|rewrite F6; apply list_lookup_insert_eq, Hgt|].
  simpl size. simpl entropy. simpl pool_lock.
  replace (POOL_SIZE <? size q) with false by (unfold POOL_SIZE; lia).
  wp_steps. eapply wp_lift_res; [apply arr_memset_ok; unfold POOL_SIZE in *; lia|].
  unfold put_pool. wp_steps. rewrite F6. simpl pools. rewrite list_insert_insert_eq.
  eapply (wp_pool_unlock _ _ i _ (name (pool_lock q)) (k_cpu s)); [lia| | |exact Hcpu|exact F2|].
  { apply list_lookup_insert_eq, Hgt. }
  { simpl. rewrite F1. reflexivity. }
  intros c Hc. apply wp_ret. apply HQ.
  - apply alloc_state_quiet_upd; [destruct Has2; split; auto|eapply cpu_same_ok; eauto].
  - simpl. rewrite list_insert_insert_eq. f_equal. unfold emptied. simpl.
    rewrite <- (free_lock_eta _ Hf). reflexivity.
  - exact Hdig.
  - intros x Hx. apply Hmem; outside_lia.
  - split; auto.
Qed.

Lemma stale_frame s s' p sz rs : 0 <= sz < 3584 ->
  frame_mem (mem s) (mem s') rs -> apart p PGSIZE rs -> stale s' p sz = stale s p sz.
Proof.
  intros Hsz Hf Ha. unfold stale, words_of. apply list_fmap_ext. intros j x Hx.
  apply lookup_seq in Hx as [-> Hj]. pose proof (div_512_bound sz Hsz) as [Hb _].
  destruct (padded_words sz ltac:(lia)) as [_ Hpw].
  assert (H4 : 4 * (padded sz / 4) <= padded sz) by (apply Z.mul_div_le; lia).
  assert (He : forall k, 0 <= k < 4 -> load8 (mem s') (p + 4 * Z.of_nat (0 + j) + k) =
                                        load8 (mem s) (p + 4 * Z.of_nat (0 + j) + k)).
  { intros k Hk. apply Hf. eapply Forall_impl; [exact Ha|]. unfold PGSIZE. cbv beta. simpl. lia. }
  unfold word_of. f_equal. apply list_fmap_ext. intros k y Hy. rewrite He; [reflexivity|].
  do 4 (destruct k as [|k]; [injection Hy as <-; lia|]). discriminate.
Qed.

Section gather.
Context (n : nat) (s : kstate) (sd pf : Z) (ps l : list Z).
Hypothesis Has : alloc_state Quiet (34 + n) s (ps ++ pf :: l).
Hypothesis Hps : length ps = 32%nat.
Hypothesis Hpools : length (pools s) = 32%nat.
Hypothesis Hhash : Forall hashable (pools s).
Hypothesis Hsd : page_ok sd.
Hypothesis Hsdn : sd ∉ ps ++ pf :: l.
Hypothesis Hzero : holds (mem s) sd (zeros PGSIZE).
Hypothesis Hw : length (hash_w (sha s)) = 64%nat.

(** The digests of the first [i] pools. *)
Definition digests (i : nat) : list Z := mjoin (zip_with (pool_digest s) (take i ps) (take i (pools s))).

Lemma digests_succ i p q : ps !! i = Some p -> pools s !! i = Some q ->
  digests (S i) = digests i ++ pool_digest s p q.
Proof.
  intros Hp Hq. unfold digests. rewrite (take_S_r _ _ _ Hp), (take_S_r _ _ _ Hq).
  apply lookup_lt_Some in Hp, Hq.
  rewrite zip_with_app by (rewrite !length_take; lia). rewrite join_app. simpl. rewrite app_nil_r. reflexivity.
Qed.

Lemma digests_length i : (i <= 32)%nat -> length (digests i) = (32 * i)%nat.
Proof.
  induction i as [|i IH]; intros Hi; [reflexivity|].
  destruct (lookup_lt_is_Some_2 ps i) as [p Hp]; [lia|].
  destruct (lookup_lt_is_Some_2 (pools s) i) as [q Hq]; [lia|].
  rewrite (digests_succ i p q Hp Hq), length_app, IH, pool_digest_length by lia. lia.
Qed.

Definition seed (i : nat) : list Z := digests i ++ zeros (PGSIZE - 32 * Z.of_nat i).

(** The ranges written so far. *)
Definition used (i : nat) : list (Z * Z) := (sd, PGSIZE) :: ((fun p => (p, PGSIZE)) <$> take i ps).

Record gathered (i : nat) (off : Z) (s' : kstate) : Prop := {
  ga_off : off = 32 * Z.of_nat i;
  ga_alloc : alloc_state Quiet (32 - i + 2 + n) s' (drop i ps ++ pf :: l);
  ga_pools : pools s' = (emptied <$> take i (pools s)) ++ drop i (pools s);
  ga_seed : holds (mem s') sd (seed i);
  ga_mem : frame_mem (mem s) (mem s') (used i);
  ga_frame : gather_frame s s';
}.

Lemma used_apart i p : p ∈ drop i ps ++ pf :: l -> apart p PGSIZE (used i).
Proof.
  intros Hp. pose proof (flist_pages _ _ _ (as_list _ _ _ _ Has)) as Hok.
  pose proof (as_nodup _ _ _ _ Has) as Hnd.
  assert (Hsplit : ps ++ pf :: l = take i ps ++ (drop i ps ++ pf :: l))
    by (rewrite app_assoc, take_drop; reflexivity).
  assert (Hpin : p ∈ ps ++ pf :: l) by (rewrite Hsplit; apply elem_of_app; auto).
  pose proof (proj1 (Forall_forall _ _) Hok p Hpin) as Hpok.
  unfold used. constructor.
  - simpl. assert (Hne : p <> sd) by (intros ->; contradiction).
    pose proof (pages_apart p sd Hpok Hsd Hne). lia.
  - apply Forall_forall. intros r (q & -> & Hq)%list_elem_of_fmap. simpl.
    rewrite Hsplit in Hnd. apply NoDup_app in Hnd as (_ & Hdis & _).
    assert (Hne : p <> q) by (intros ->; exact (Hdis q Hq Hp)).
    assert (Hqin : q ∈ ps ++ pf :: l) by (rewrite Hsplit; apply elem_of_app; auto).
    pose proof (proj1 (Forall_forall _ _) Hok q Hqin) as Hqok.
    pose proof (pages_apart p q Hpok Hqok Hne). lia.
Qed.

Lemma gathered_0 : gathered 0 0 s.
Proof.
  split; auto; [apply frame_refl|]. split; auto. apply cpu_same_refl.
Qed.

Lemma wp_gather_round i s' off (Q : Z -> kstate -> Prop) : (i < 32)%nat -> gathered i off s' ->
  (forall s2, gathered (S i) (32 * Z.of_nat (S i)) s2 -> Q (32 * Z.of_nat (S i)) s2) ->
  wp (gather_pool sd off (Z.of_nat i)) Q s'.
Proof.
  intros Hi [-> G2 G3 G4 G5 G6] HQ.
  destruct (lookup_lt_is_Some_2 ps i) as [p Hp]; [lia|].
  destruct (lookup_lt_is_Some_2 (pools s) i) as [q Hq]; [lia|].
  pose proof (Forall_lookup_1 _ _ _ _ Hhash Hq) as Hqh.
  assert (Hpin : p ∈ drop i ps ++ pf :: l) by (rewrite (drop_S _ _ _ Hp); left).
  pose proof (used_apart i p Hpin) as Hap.
  assert (Hpsd : p + PGSIZE <= sd \/ sd + PGSIZE <= p) by (inversion_clear Hap; assumption).
  rewrite (drop_S _ _ _ Hp) in G2. replace (32 - i + 2 + n)%nat with (S (32 - S i + 2 + n)) in G2 by lia.
  assert (Hle : length (emptied <$> take i (pools s)) = i) by (rewrite length_fmap, length_take; lia).
  assert (Hdl : length (digests i) = (32 * i)%nat) by (apply digests_length; lia).
  unfold seed in G4. replace (zeros (PGSIZE - 32 * Z.of_nat i)) with
    (zeros 32 ++ zeros (PGSIZE - 32 * Z.of_nat (S i))) in G4
    by (unfold zeros; rewrite <- replicate_add; f_equal; unfold PGSIZE; lia).
  apply holds_app in G4 as [G4 G4']. rewrite Hdl in G4'. apply holds_app in G4' as [G4' G4''].
  replace (sd + Z.of_nat (32 * i)) with (sd + 32 * Z.of_nat i) in * by lia.
  apply (wp_gather_pool (32 - S i + 2 + n) s' p (drop (S i) ps ++ pf :: l) sd _ _ q (zeros 32)); auto.
  - lia.
  - rewrite G3, Nat2Z.id, lookup_app_r, Hle, Nat.sub_diag by lia. rewrite lookup_drop, Nat.add_0_r. exact Hq.
  - intros Hin. apply Hsdn. rewrite <- (take_drop i ps), <- app_assoc. apply elem_of_app. right.
    rewrite (drop_S _ _ _ Hp). exact Hin.
  - lia.
  - unfold PGSIZE. lia.
  - apply G6.
  - intros s2 A1 A2 A3 A4 A5. replace (32 * Z.of_nat i + 32) with (32 * Z.of_nat (S i)) by lia. apply HQ. split; auto.
    + rewrite A2, G3, Nat2Z.id, (drop_S _ _ _ Hq), (take_S_r _ _ _ Hq), fmap_app, <- app_assoc.
      rewrite insert_app_r_alt, Hle, Nat.sub_diag by lia. reflexivity.
    + unfold seed. rewrite (digests_succ i p q Hp Hq), <- app_assoc.
      assert (Hpd : pool_digest s' p q = pool_digest s p q).
      { unfold pool_digest. rewrite (stale_frame s s' p (size q) (used i)); auto. apply Hqh. }
      apply holds_app. rewrite Hdl. replace (sd + Z.of_nat (32 * i)) with (sd + 32 * Z.of_nat i) by lia. split.
      { eapply frame_holds; [exact G4|exact A4|]. rewrite Hdl.
        repeat apply Forall_cons_2; try apply Forall_nil_2; simpl; unfold PGSIZE in *; lia. }
      apply holds_app. rewrite pool_digest_length. split; [rewrite <- Hpd; exact A3|].
      eapply frame_holds; [exact G4''|exact A4|]. unfold zeros. rewrite !length_replicate.
      repeat apply Forall_cons_2; try apply Forall_nil_2; cbn [fst snd]; unfold PGSIZE in *; lia.
    + intros x Hx. unfold used in Hx. rewrite (take_S_r _ _ _ Hp), fmap_app in Hx.
      unfold outside in Hx. rewrite Forall_cons, Forall_app in Hx. destruct Hx as (X1 & X2 & X3).
      rewrite A4, G5; [reflexivity| |].
      * constructor; assumption.
      * simpl in X3. rewrite Forall_cons in X3. destruct X3 as [X3 _]. simpl in X1, X3.
        repeat apply Forall_cons_2; try apply Forall_nil_2; simpl; unfold PGSIZE in *; lia.
    + destruct A5, G6. split; try congruence. eapply cpu_same_trans; eauto.
Qed.

Lemma wp_gather (Q : Z -> kstate -> Prop) :
  (forall s', gathered 32 1024 s' -> Q 1024 s') ->
  wp (foldM (seqZ 0 MAX_POOLS) (gather_pool sd) 0) Q s.
Proof.
  intros HQ. eapply wp_mono; [apply (wp_foldM _ _ (fun i off s' => gathered i off s')); [exact gathered_0|]|].
  - intros i x off s' Hx HI. apply lookup_seqZ in Hx as [-> Hi]. rewrite Z.add_0_l.
    apply (wp_gather_round i s' off); [unfold MAX_POOLS in Hi; lia|exact HI|auto].
  - intros off s' HI. change (length (seqZ 0 MAX_POOLS)) with 32%nat in HI.
    pose proof (ga_off _ _ _ HI) as ->. exact (HQ s' HI).
Qed.
End gather.

(** The 1024 bytes of seed. *)
Definition seed_bytes (s : kstate) (ps : list Z) : list Z := mjoin (zip_with (pool_digest s) ps (pools s)).

Definition new_key (s : kstate) (ps : list Z) (pf : Z) : list Z :=
  digest_bytes (sha_words (stale s pf 1024) (seed_bytes s ps) 1024).

Definition reseeded (g : generator) (kk : list Z) (t : Z) : generator :=
  Generator (incrctr_words (counter g)) kk (reseed_ctr g) t.

Lemma sha_words_length ws bs sz : length (sha_words ws bs sz) = 8%nat.
Proof.
  unfold sha_words, Fips180.digest. generalize (blocks (message ws bs (data_words sz)) (Z.to_nat (padded sz / 64))).
  intros bl. assert (Hl : length h_init = 8%nat) by reflexivity. revert Hl. generalize h_init.
  induction bl as [|x bl IH]; intros h0 Hl; simpl; [exact Hl|]. apply IH, compress_length, Hl.
Qed.

Opaque sha_words.

(** What a reseed leaves. *)
Record reseed_done (n : nat) (sd : Z) (l : list Z) (g : generator) (s s' : kstate) : Prop := {
  rd_alloc : alloc_state Quiet n s' (sd :: l);
  rd_pools : pools s' = emptied <$> pools s;
  rd_prng : prng s' = g;
  rd_me : me s' = me s;
  rd_cpu : cpu_same (k_cpu s) (k_cpu s');
  rd_clock : clock s' = clock s;
}.

Lemma wp_prngreseed n s sd pf l bs (Q : unit -> kstate -> Prop) :
  alloc_state Quiet (2 + n) s (pf :: l) -> page_ok sd -> sd ∉ pf :: l -> mapped (mem s) sd PGSIZE ->
  holds (mem s) sd bs -> length bs = 1024%nat -> length (key (prng s)) = 32%nat ->
  length (hash_w (sha s)) = 64%nat -> free_lock (tickslock (clock s)) ->
  (forall s', alloc_state Quiet n s' (sd :: l) -> pools s' = pools s ->
     prng s' = reseeded (prng s) (digest_bytes (sha_words (stale s pf 1024) bs 1024)) (ticks (clock s)) ->
     me s' = me s -> cpu_same (k_cpu s) (k_cpu s') -> clock s' = clock s -> Q tt s') ->
  wp (prngreseed sd 1024) Q s.
Proof.
  intros Has Hsd Hn Hm Hbs Hlen Hkey Hw Ht HQ.
  pose proof (as_list _ _ _ _ Has) as (_ & Hpf & _). pose proof Hn as Hn'. apply not_elem_of_cons in Hn' as [Hne Hnl].
  pose proof (pages_apart sd pf Hsd Hpf Hne) as Hap.
  unfold prngreseed. apply wp_bind.
  eapply (wp_sha256 Quiet (1 + n) s pf l (Addr sd) bs 1024 KeyArr (key (prng s)));
    [exact Has|lia|rewrite Hlen; reflexivity|exact Hbs| |discriminate|exact Hw| |exact Hkey|exact I|].
  { simpl. rewrite Hlen. unfold PGSIZE in *. lia. }
  { exists []. rewrite app_nil_r. reflexivity. }
  intros s1 Has1 [F1 F2 F3 (kk & F4 & _ & F5) F6 F7] Hmem (rest & Hkk) _. specialize (F6 eq_refl).
  set (dg := digest_bytes _) in *. unfold incrctr, set_counter. wp_steps.
  set (s2 := set_prng _ s1).
  assert (Has2 : alloc_state Quiet (1 + n) s2 l) by (eapply alloc_state_same; [exact Has1|reflexivity..]).
  eapply (wp_kfree Quiet n s2 l sd); [exact Has2|exact Hsd|exact Hnl| |].
  { intros i Hi. simpl. rewrite Hmem by (auto; lia). apply Hm, Hi. }
  intros s3 Has3 S3 _ [R1 R2 R3 R4 R5 R6 R7 R8 R9]. specialize (R9 eq_refl).
  apply wp_bind. eapply wp_acquire_; [reflexivity|rewrite R5; simpl; rewrite F3; exact Ht|].
  unfold set_last_reseed_ticks. wp_steps.
  eapply (wp_release_ _ (name (tickslock (clock s))) (k_cpu s3)).
  { simpl. rewrite R5. simpl. rewrite F3. reflexivity. }
  { apply (as_cpu _ _ _ _ Has3). }
  { apply cpu_same_refl. }
  intros c Hc. rewrite <- (free_lock_eta _ Ht). simpl.
  assert (Hdk : kk = dg).
  { rewrite F4 in Hkk. simpl in Hkk. apply (f_equal length) in Hkk as Hl. rewrite length_app, F5, Hkey in Hl.
    unfold dg in Hl. rewrite length_digest_bytes, sha_words_length in Hl.
    destruct rest; [rewrite app_nil_r in Hkk; exact Hkk|simpl in Hl; lia]. }
  apply HQ; simpl.
  - eapply alloc_state_cpu in Has3; [|exact Hc]. eapply alloc_state_same; [exact Has3|reflexivity..].
  - rewrite R9. exact F6.
  - rewrite R7, R5. simpl. rewrite F4, F3. simpl. unfold reseeded. rewrite Hdk. reflexivity.
  - rewrite R1. exact F1.
  - eapply cpu_same_trans; [exact F2|]. eapply cpu_same_trans; [exact R2|exact Hc].
  - rewrite R5. simpl. rewrite F3. destruct (clock s); reflexivity.
Qed.

Section reseed_all.
Context (n : nat) (s : kstate) (sd pf : Z) (ps l : list Z).
Hypothesis Has : alloc_state Quiet (35 + n) s (sd :: ps ++ pf :: l).
Hypothesis Hps : length ps = 32%nat.
Hypothesis Hpools : length (pools s) = 32%nat.
Hypothesis Hhash : Forall hashable (pools s).
Hypothesis Hw : length (hash_w (sha s)) = 64%nat.
Hypothesis Hkey : length (key (prng s)) = 32%nat.
Hypothesis Ht : free_lock (tickslock (clock s)).

(** The pages that become buffers are not touched before they are used. *)
Lemma digests_same s1 : pools s1 = pools s -> same_outside (mem s) (mem s1) sd PGSIZE ->
  digests s1 ps 32 = seed_bytes s ps /\ stale s1 pf 1024 = stale s pf 1024.
Proof.
  intros Hp Hs. pose proof (as_nodup _ _ _ _ Has) as Hnd. apply NoDup_cons in Hnd as [Hn _].
  pose proof (flist_pages _ _ _ (as_list _ _ _ _ Has)) as Hok. inversion_clear Hok as [|? ? Hsd Hok'].
  assert (Hap : forall p, p ∈ ps ++ pf :: l -> apart p PGSIZE [(sd, PGSIZE)]).
  { intros p Hin. pose proof (proj1 (Forall_forall _ _) Hok' p Hin) as Hpo.
    assert (Hne : p <> sd) by (intros ->; contradiction).
    pose proof (pages_apart p sd Hpo Hsd Hne). apply Forall_cons_2; [simpl; lia|apply Forall_nil_2]. }
  apply same_outside_frame in Hs. split.
  - unfold digests, seed_bytes. rewrite Hp, !take_ge by lia. f_equal.
    apply list_eq. intros i. rewrite !lookup_zip_with.
    destruct (ps !! i) as [p|] eqn:Ep; [|reflexivity]. simpl.
    destruct (pools s !! i) as [q|] eqn:Eq; [|reflexivity]. simpl. f_equal. unfold pool_digest.
    rewrite (stale_frame s s1 p (size q) _ (proj2 (proj2 (Forall_lookup_1 _ _ _ _ Hhash Eq))) Hs); [reflexivity|].
    apply Hap, elem_of_app. left. eapply list_elem_of_lookup_2, Ep.
  - apply (stale_frame s s1 pf 1024 _ ltac:(lia) Hs). apply Hap, elem_of_app. right. left.
Qed.

Lemma wp_reseed (Q : unit -> kstate -> Prop) :
  (forall s', reseed_done n sd l (reseeded (prng s) (new_key s ps pf) (ticks (clock s))) s s' -> Q tt s') ->
  wp reseed Q s.
Proof.
  intros HQ. pose proof (as_nodup _ _ _ _ Has) as Hnd. apply NoDup_cons in Hnd as [Hsdn _].
  pose proof (flist_pages _ _ _ (as_list _ _ _ _ Has)) as Hok. inversion_clear Hok as [|? ? Hsd _].
  unfold reseed. wp_steps. eapply wp_kalloc_zeroed; [exact Has|].
  intros s1 Has1 Z1 S1 [R1 R2 R3 R4 R5 R6 R7 R8 R9]. specialize (R9 eq_refl).
  destruct (digests_same s1 R9 S1) as [Ed Es]. wp_steps.
  apply (wp_gather n s1 sd pf ps l); auto; rewrite ?R9, ?R6; auto.
  intros s2 [_ G2 G3 G4 G5 [F1 F2 F3 F4 F5]].
  rewrite drop_ge in G2 by lia. simpl app in G2. unfold seed in G4. rewrite Ed in G4.
  pose proof (holds_mapped _ _ _ G4) as Hm.
  assert (Hlen : length (seed_bytes s ps) = 1024%nat).
  { rewrite <- Ed. apply (digests_length s1 ps); auto; rewrite ?R9, ?R6; auto. }
  assert (Hmap : mapped (mem s2) sd PGSIZE).
  { intros i Hi. apply Hm. rewrite length_app, Hlen. unfold zeros. rewrite length_replicate. unfold PGSIZE in *. lia. }
  apply holds_app in G4 as [G4 _].
  assert (Hst : stale s2 pf 1024 = stale s pf 1024).
  { rewrite <- Es. apply (stale_frame s1 s2 pf 1024 (used sd ps 32)); [lia|exact G5|].
    apply (used_apart n s1 sd pf ps l); auto; rewrite ?R9, ?R6; auto. rewrite drop_ge by lia. left. }
  apply (wp_prngreseed n s2 sd pf l (seed_bytes s ps)); auto; rewrite ?F4, ?F3, ?R7, ?R5; auto.
  - intros Hin. apply Hsdn, elem_of_app. right. exact Hin.
  - intros s3 A1 A2 A3 A4 A5 A6. apply HQ.
    split; [exact A1| | |rewrite A4, F1; exact R1| |rewrite A6; reflexivity].
    + rewrite A2, G3, take_ge, drop_ge, app_nil_r, R9 by (rewrite R9; lia). reflexivity.
    + rewrite A3, Hst. reflexivity.
    + eapply cpu_same_trans; [exact R2|]. eapply cpu_same_trans; [exact F2|exact A5].
Qed.
End reseed_all.

(** [prngrand]'s reseed: more than 64 bytes in pool 0 and more than ten
    ticks since the last one. *)
Lemma wp_reseed_due n s sd pf ps l q0 (Q : unit -> kstate -> Prop) :
  alloc_state Quiet (35 + n) s (sd :: ps ++ pf :: l) ->
  length ps = 32%nat -> length (pools s) = 32%nat -> Forall hashable (pools s) ->
  length (hash_w (sha s)) = 64%nat -> length (key (prng s)) = 32%nat -> free_lock (tickslock (clock s)) ->
  pools s !! 0%nat = Some q0 -> MIN_SIZE_POOL < size q0 ->
  10 < u32 (ticks (clock s) - last_reseed_ticks (prng s)) ->
  (forall s', reseed_done n sd l
     (Generator (incrctr_words (counter (prng s))) (new_key s ps pf)
                (s32 (reseed_ctr (prng s) + 1)) (ticks (clock s))) s s' -> Q tt s') ->
  wp maybe_reseed Q s.
Proof.
  intros Has Hps Hpl Hh Hw Hk Ht Hq Hsz Htk HQ.
  pose proof (Forall_lookup_1 _ _ _ _ Hh Hq) as (Hf & _). pose proof (as_cpu _ _ _ _ Has) as Hc.
  unfold maybe_reseed. apply wp_tick_read; auto. intros c1 H1.
  apply (wp_pool_lock _ _ _ 0 q0); auto; [lia|]. wp_steps. simpl size. simpl prng.
  replace ((MIN_SIZE_POOL <? size q0) && _) with true by lia.
  unfold set_reseed_ctr. wp_steps.
  eapply (wp_pool_unlock _ _ 0 (held_pool s q0) (name (pool_lock q0)) c1); [lia| |reflexivity| |apply cpu_same_refl|].
  { apply list_lookup_insert_eq. apply lookup_lt_Some in Hq. exact Hq. }
  { eapply cpu_same_ok; eauto. }
  intros c2 H2. simpl size. simpl entropy. rewrite pool_free_eta by exact Hf.
  set (s1 := upd _ _ _ _).
  assert (Es : s1 = set_prng (Generator (counter (prng s)) (key (prng s)) (s32 (reseed_ctr (prng s) + 1))
                                        (last_reseed_ticks (prng s))) (set_cpu c2 s)).
  { unfold s1, upd. simpl. rewrite list_insert_insert_eq, list_insert_id by exact Hq. reflexivity. }
  rewrite Es. clear s1 Es.
  assert (Hcc : cpu_same (k_cpu s) c2) by (eapply cpu_same_trans; eauto).
  apply (wp_reseed n _ sd pf ps l); auto.
  - eapply alloc_state_same; [exact (alloc_state_cpu _ _ _ _ _ Has Hcc)|reflexivity..].
  - intros s' [D1 D2 D3 D4 D5 D6]. apply HQ. split; auto. eapply cpu_same_trans; [exact Hcc|exact D5].
Qed.
End reseed.
End platform.
End PrngFacts.

Module PrngProps.
Import Kernel KernelFacts Entropy EntropyFacts Kalloc KallocFacts KallocProps Hash HashFacts HashProps Prng PrngFacts.

(** C25: a request for 1 to 4095 bytes from a seeded generator, with no reseed
    due and four free pages, returns; the output buffer receives the AES-256
    key stream of the counter, the key is replaced by the next two blocks of
    the stream, the counter moves past all of them, every page taken is given
    back and no other memory changes. *)
Theorem prngrand_delivers_keystream `{Platform} `{OverShift} n s d a b c rest output numbytes q0 :
  alloc_state Busy (12 + n) s (d :: a :: b :: c :: rest) ->
  free_lock (tickslock (clock s)) -> pools s !! 0%nat = Some q0 -> no_reseed_due s q0 ->
  reseed_ctr (prng s) <> 0 -> seeded numbytes (prng s) ->
  1 <= numbytes < 4096 -> output + numbytes <= KERNBASE -> mapped (mem s) output numbytes ->
  exists s', prngrand output numbytes s = Ok (tt, s') /\
    holds (mem s') output (random_bytes numbytes (prng s)) /\
    prng s' = after_request numbytes (prng s) /\
    alloc_state Busy n s' (d :: c :: a :: b :: rest) /\
    frame_mem (mem s) (mem s')
      [(d, PGSIZE); (a, PGSIZE); (b, PGSIZE); (c, PGSIZE); (output, numbytes)].
Proof.
  intros Has Ht Hq Hno Hrc Hseed Hn Hlow Hmap.
  pose proof (as_pools _ _ _ _ Has) as (sts & Hok & _).
  pose proof (Forall_lookup_1 _ _ _ _ (ok_locks _ _ Hok) Hq) as Hf.
  cut (wp (prngrand output numbytes) (fun _ s' =>
    holds (mem s') output (random_bytes numbytes (prng s)) /\ prng s' = after_request numbytes (prng s) /\
    alloc_state Busy n s' (d :: c :: a :: b :: rest) /\
    frame_mem (mem s) (mem s') [(d, PGSIZE); (a, PGSIZE); (b, PGSIZE); (c, PGSIZE); (output, numbytes)]) s).
  { intros ([] & s' & E & R). eauto. }
  unfold prngrand. apply wp_bind, (wp_no_reseed s q0); auto; [apply (as_cpu _ _ _ _ Has)|].
  intros c1 Hc1. apply (wp_serve Busy n _ d a b c output rest (alloc_state_cpu _ _ _ _ _ Has Hc1)); auto.
  intros s' A1 A2 A3 A4. pose proof (same_rest_set_prng _ _ _ _ A4). auto.
Qed.

(** Four free pages, a page of user memory at 0, a generator seeded once. *)
Definition rand_pages : list Z := [0x80112000; 0x80113000; 0x80114000; 0x80115000].
Definition rand_mem : pages := <[0 := replicate (Z.to_nat PGSIZE) 0]> (@chain rand_pages).
Definition rand_state : kstate :=
  KState 0 (Cpu 0 false true) rand_mem
    (Allocator (initlock "kmem") 1 0x80112000 1 0 0 0)
    (replicate (Z.to_nat MAX_POOLS) empty_pool)
    (Timer 5 (initlock "time")) (Hasher (replicate 8 0) (replicate 64 0))
    (Generator [1; 0; 0; 0] (replicate 32 7) 1 0) [].

Lemma rand_nodup : NoDup rand_pages.
Proof. apply (bool_decide_eq_true_1 _). reflexivity. Qed.

Lemma rand_alloc_state n : (n < 1000)%nat -> @alloc_state test_platform Busy n rand_state rand_pages.
Proof.
  intros Hn. split; [|exact rand_nodup|split; reflexivity|split; simpl; lia|].
  - eapply (@flist_low test_platform (chain rand_pages) _ _ _ 0 PGSIZE); [|apply (insert_page_same _ 0); reflexivity|discriminate].
    apply (@chain_flist test_platform rand_pages); [|exact rand_nodup].
    unfold rand_pages. repeat apply Forall_cons_2; try apply Forall_nil_2;
      (split; [reflexivity|split; [discriminate|reflexivity]]).
  - apply (pools_ready_pools _ test_state); [reflexivity|apply test_pools_ready, Hn].
Qed.

Lemma rand_mapped k : 0 <= k <= 4096 -> mapped rand_mem 0 k.
Proof.
  intros Hk i Hi. apply (mapped_page rand_mem 0 (replicate (Z.to_nat PGSIZE) 0)).
  - apply lookup_insert_eq.
  - rewrite length_replicate. reflexivity.
  - reflexivity.
  - unfold PGSIZE. lia.
Qed.

Lemma prngrand_delivers_keystream_witness :
  exists s', @prngrand test_platform x86_shift 0 20 rand_state = Ok (tt, s') /\
    holds (mem s') 0 (random_bytes 20 (prng rand_state)) /\
    prng s' = after_request 20 (prng rand_state) /\
    @alloc_state test_platform Busy 3 s' [0x80112000; 0x80115000; 0x80113000; 0x80114000] /\
    frame_mem (mem rand_state) (mem s')
      [(0x80112000, PGSIZE); (0x80113000, PGSIZE); (0x80114000, PGSIZE); (0x80115000, PGSIZE); (0, 20)].
Proof.
  apply (@prngrand_delivers_keystream test_platform x86_shift 3 rand_state
    0x80112000 0x80113000 0x80114000 0x80115000 [] 0 20 empty_pool).
  - apply rand_alloc_state. lia.
  - split; reflexivity.
  - reflexivity.
  - left. discriminate.
  - discriminate.
  - split; [reflexivity|]. split; discriminate.
  - lia.
  - discriminate.
  - apply rand_mapped. lia.
Defined.

(** a request for exactly 4096 bytes does not return: after the page has
    been copied the loop takes the null second entry and [kfree(0)] panics. *)
Theorem prngrand_full_page_panics `{Platform} `{OverShift} n s d a b c rest output q0 :
  alloc_state Busy (12 + n) s (d :: a :: b :: c :: rest) ->
  free_lock (tickslock (clock s)) -> pools s !! 0%nat = Some q0 -> no_reseed_due s q0 ->
  reseed_ctr (prng s) <> 0 -> seeded 4096 (prng s) ->
  output + 4096 <= KERNBASE -> mapped (mem s) output 4096 ->
  prngrand output 4096 s = Panic "kfree".
Proof.
  intros Has Ht Hq Hno Hrc Hseed Hlow Hmap.
  pose proof (as_pools _ _ _ _ Has) as (sts & Hok & _).
  pose proof (Forall_lookup_1 _ _ _ _ (ok_locks _ _ Hok) Hq) as Hf.
  unfold prngrand. apply bind_panic, (wp_no_reseed s q0); auto; [apply (as_cpu _ _ _ _ Has)|].
  intros c1 Hc1. apply (serve_page_panics Busy n _ d a b c output rest (alloc_state_cpu _ _ _ _ _ Has Hc1)); auto.
Qed.

Lemma prngrand_full_page_panics_witness :
  @prngrand test_platform x86_shift 0 4096 rand_state = Panic "kfree".
Proof.
  apply (@prngrand_full_page_panics test_platform x86_shift 3 rand_state
    0x80112000 0x80113000 0x80114000 0x80115000 [] 0 empty_pool).
  - apply rand_alloc_state. lia.
  - split; reflexivity.
  - reflexivity.
  - left. discriminate.
  - discriminate.
  - split; [reflexivity|]. split; [discriminate|].
    assert (E : ctr_iter 256 (ctr_iter 1 (replicate 4 0)) = ctr_of 257)
      by (rewrite ctr_iter_add; apply ctr_iter_of; discriminate).
    intros Hz. change (ctr_iter 256 (ctr_iter 1 (replicate 4 0)) !!! 0%nat = 0) in Hz.
    rewrite E in Hz. discriminate.
  - discriminate.
  - apply rand_mapped. lia.
Defined.

(** before the first reseed the generator refuses to deliver anything. *)
Theorem prngrand_unseeded_panics `{Platform} `{OverShift} s q0 output numbytes :
  cpu_ok (k_cpu s) -> free_lock (tickslock (clock s)) -> pools s !! 0%nat = Some q0 ->
  free_lock (pool_lock q0) -> no_reseed_due s q0 -> reseed_ctr (prng s) = 0 ->
  prngrand output numbytes s = Panic "prngrand: attempted to get random data without seeding.".
Proof.
  intros Hc Ht Hq Hf Hno Hrc. unfold prngrand. apply bind_panic, (wp_no_reseed s q0); auto.
  intros c1 Hc1. unfold serve. apply bind_panic, wp_gets.
  change (reseed_ctr (prng (set_cpu c1 s))) with (reseed_ctr (prng s)). rewrite Hrc. reflexivity.
Qed.

Lemma prngrand_unseeded_panics_witness :
  @prngrand test_platform x86_shift 0 16 hash_state =
  Panic "prngrand: attempted to get random data without seeding.".
Proof.
  apply (@prngrand_unseeded_panics test_platform x86_shift hash_state empty_pool); try reflexivity.
  - split; simpl; lia.
  - split; reflexivity.
  - split; reflexivity.
  - left. discriminate.
Defined.

(** A lock this CPU has already. *)
Lemma acquire_held_panics l nm s : get_lock l s = Some (Lock nm 1 (Some (me s))) -> acquire_ l s = Panic "acquire".
Proof.
  intros Hk. unfold acquire_, lock_op. apply bind_panic, wp_get. apply bind_panic. eapply wp_lift_opt; [exact Hk|]. apply bind_panic_l.
  unfold lift_res. rewrite acquire_eq. unfold holding. cbn [locked lk_cpu Z.eqb negb andb]. rewrite bool_decide_eq_true_2 by reflexivity. reflexivity.
Qed.

Section deadlock.
Context `{Platform}.

(** The event of the allocator on a pool whose lock this CPU has. *)
Lemma memory_event_panics fmp l s q nm : flist (mem s) (freelist (alloc s)) l -> NoDup l ->
  pools s !! Z.to_nat (fmp mod MAX_POOLS) = Some q -> pool_lock q = Lock nm 1 (Some (me s)) ->
  memory_event fmp s = Panic "acquire".
Proof.
  intros Hl Hn Hq Hk. pose proof (Z.mod_pos_bound fmp MAX_POOLS ltac:(reflexivity)) as Hi. pose proof (flist_bound l Hn (flist_pages _ _ _ Hl)) as Hb.
  assert (HN : NPAGES < 2 ^ 31) by reflexivity. unfold memory_event. apply bind_panic, wp_gets, bind_panic.
  apply (wp_count_free _ l); [exact Hl| |lia|lia|].
  { apply Nat2Z.inj_lt. rewrite Nat2Z.inj_succ, Z2Nat.id by (vm_compute; discriminate). lia. }
  unfold addRandomEvent. change ((FREE_MEMORY_SIZE <? 0) || (MAX_SOURCES <? FREE_MEMORY_SIZE)) with false. cbn match.
  rewrite (proj2 (Z.ltb_ge _ _)), (proj2 (Z.leb_gt _ _)) by lia. cbn [orb]. change ((4 <? 0) || (MAX_EDATA_SIZE <? 4)) with false. cbn match.
  apply bind_panic_l, (acquire_held_panics _ nm). cbn [get_lock]. rewrite (proj2 (Z.ltb_ge _ _)), Hq by lia. cbn. rewrite Hk. reflexivity.
Qed.

Lemma kalloc_panics s p l q nm : flist (mem s) (freelist (alloc s)) (p :: l) -> NoDup (p :: l) -> free_lock (km_lock (alloc s)) ->
  memory_operations (alloc s) = 500 -> kinit2_called (alloc s) = 1 ->
  pools s !! Z.to_nat (kalloc_pool (alloc s) mod MAX_POOLS) = Some q -> pool_lock q = Lock nm 1 (Some (me s)) ->
  kalloc s = Panic "acquire".
Proof.
  intros Hl Hn Hf Ho Hk2 Hq Hk. unfold kalloc, incr_memory_operations, set_memory_operations. apply bind_panic. wp_steps. rewrite Ho. change (s32 (500 + 1)) with 501.
  set (s0 := set_alloc _ s). apply bind_panic, wp_gets, bind_panic, wp_lock_kmem; [exact Hf|]. apply bind_panic, wp_gets.
  destruct (kmem_locked_frame s0) as (E1 & E2 & E3 & E4 & E5 & E6 & _). pose proof (kmem_locked_ops s0) as E7.
  assert (E8 : kalloc_pool (alloc (kmem_locked s0)) = kalloc_pool (alloc s)) by (unfold kmem_locked; case_match; reflexivity).
  apply bind_panic. destruct Hl as (Hp & Hpo & Hm & next & Hu & Hh & Hl). pose proof (page_ok_range p Hpo).
  rewrite E2. change (freelist (alloc s0)) with (freelist (alloc s)). rewrite Hp. replace (p =? 0) with false by (unfold KERNBASE in *; lia).
  apply wp_bind, wp_on_mem. rewrite E1. eapply wp_load32; [apply length_le_bytes|exact Hh|]. change (mem s0) with (mem s). rewrite le_word_u32 by assumption.
  apply wp_modify, bind_panic, wp_gets. unfold event_due. cbn [alloc kinit2_called memory_operations set_alloc set_mem].
  rewrite E4, E7. change (kinit2_called (alloc s0)) with (kinit2_called (alloc s)). rewrite Hk2. cbn [Z.eqb Pos.eqb andb]. change (500 <? memory_operations (alloc s0)) with true. cbn match.
  apply bind_panic_l, bind_panic, wp_gets, bind_panic_l. cbn [alloc kalloc_pool set_alloc set_mem]. rewrite E8. inversion_clear Hn.
  apply (memory_event_panics _ l _ q nm); [exact Hl|assumption| |]; cbn [pools me set_alloc set_mem]; [rewrite E5; exact Hq|rewrite E6; exact Hk].
Qed.
End deadlock.

(** A reseed can stop the kernel: when the 501st operation of the allocator since its last event is the allocation
    for the hash of pool [i], and the event goes to that pool, the lock that [prngrand] holds is acquired again. *)
Theorem gather_event_panics `{Platform} `{OverShift} s p l sd off i q :
  alloc_state Quiet 0 s (p :: l) -> memory_operations (alloc s) = 500 -> kinit2_called (alloc s) = 1 ->
  kalloc_pool (alloc s) mod MAX_POOLS = i -> reseed_ctr (prng s) <> 0 ->
  pools s !! Z.to_nat i = Some q -> free_lock (pool_lock q) ->
  gather_pool sd off i s = Panic "acquire".
Proof.
  intros [Hl Hn Hf Hc _] Ho Hk2 Hi Hrc Hq Hfree. pose proof (Z.mod_pos_bound (kalloc_pool (alloc s)) MAX_POOLS ltac:(reflexivity)) as Hb. rewrite Hi in Hb.
  unfold gather_pool. apply bind_panic, wp_gets. rewrite (proj2 (Z.eqb_neq _ _)) by (intros E; apply Z.lor_eq_0_iff in E as [E _]; contradiction). cbn [negb].
  apply bind_panic. eapply wp_acquire_; [apply get_lock_pool; [lia|exact Hq]|exact Hfree|].
  apply bind_panic. unfold put_lock. cbn [pools]. eapply wp_get_pool; [lia| |].
  { rewrite (list_alter_lookup _ _ _ _ Hq). apply list_lookup_insert_eq, lookup_lt_is_Some. eauto. }
  apply bind_panic_l. unfold sha256. apply bind_panic_l. eapply (kalloc_panics _ p l); cbn [alloc mem pools me set_cpu]; try eassumption.
  - cbn [set_pools set_cpu alloc pools]. rewrite Hi, (list_alter_lookup _ _ _ _ Hq). apply list_lookup_insert_eq, lookup_lt_is_Some. eauto.
  - reflexivity.
Qed.

(** C32: a reseed (more than 64 bytes in pool 0 and more than ten ticks since the last one), with 34 free pages,
    fewer than 3584 bytes in every pool and no event of the allocator due during its 35 calls, returns: it
    replaces the key by the hash of the 32 pool hashes, advances the counter, records the time, empties all 32
    pools and gives back only the page of the seed: the 33 buffer pages of the hashes are lost.  An event in between
    goes to one of the pools, which is then not left empty, or stops the kernel when that pool is the one being
    hashed (gather_event_panics). *)
Theorem reseed_from_pools `{Platform} `{OverShift} n s sd pf ps l q0 :
  alloc_state Quiet (35 + n) s (sd :: ps ++ pf :: l) ->
  length ps = 32%nat -> length (pools s) = 32%nat -> Forall hashable (pools s) ->
  length (hash_w (sha s)) = 64%nat -> length (key (prng s)) = 32%nat -> free_lock (tickslock (clock s)) ->
  pools s !! 0%nat = Some q0 -> MIN_SIZE_POOL < size q0 ->
  10 < u32 (ticks (clock s) - last_reseed_ticks (prng s)) ->
  exists s', maybe_reseed s = Ok (tt, s') /\
    prng s' = Generator (incrctr_words (counter (prng s))) (new_key s ps pf)
                        (s32 (reseed_ctr (prng s) + 1)) (ticks (clock s)) /\
    pools s' = emptied <$> pools s /\ alloc_state Quiet n s' (sd :: l).
Proof.
  intros Has Hps Hpl Hh Hw Hk Ht Hq Hsz Htk.
  cut (wp maybe_reseed (fun _ s' =>
    prng s' = Generator (incrctr_words (counter (prng s))) (new_key s ps pf)
                        (s32 (reseed_ctr (prng s) + 1)) (ticks (clock s)) /\
    pools s' = emptied <$> pools s /\ alloc_state Quiet n s' (sd :: l)) s).
  { intros ([] & s' & E & R). eauto. }
  eapply wp_reseed_due; eauto. intros s' []. auto.
Qed.

(** 34 free pages and 70 bytes in every pool. *)
Definition seed_pages : list Z := page_range 0x80112000 34.
Definition seed_state : kstate :=
  KState 0 (Cpu 0 false true) (chain seed_pages)
    (Allocator (initlock "kmem") 1 0x80112000 1 0 0 0)
    (replicate (Z.to_nat MAX_POOLS) (Pool 70 (replicate (Z.to_nat POOL_SIZE) 1) (initlock "pools")))
    (Timer 500 (initlock "time")) (Hasher (replicate 8 0) (replicate 64 0))
    (Generator (replicate 4 0) (replicate 32 0) 0 0) [].

Lemma seed_alloc_state : @alloc_state test_platform Quiet 35 seed_state seed_pages.
Proof.
  assert (Hnd : NoDup seed_pages) by (apply (bool_decide_eq_true_1 _); reflexivity).
  split; [|exact Hnd|split; reflexivity|split; simpl; lia|split; simpl; lia].
  apply (@chain_flist test_platform seed_pages); [|exact Hnd].
  apply (@page_range_ok test_platform); [reflexivity|discriminate|discriminate].
Qed.

Lemma reseed_from_pools_witness :
  exists s', @maybe_reseed test_platform x86_shift seed_state = Ok (tt, s') /\
    prng s' = Generator [1; 0; 0; 0]
      (@new_key x86_shift seed_state (page_range 0x80113000 32) 0x80133000) 1 500 /\
    pools s' = emptied <$> pools seed_state /\ @alloc_state test_platform Quiet 0 s' [0x80112000].
Proof.
  apply (@reseed_from_pools test_platform x86_shift 0 seed_state 0x80112000 0x80133000
    (page_range 0x80113000 32) [] (Pool 70 (replicate (Z.to_nat POOL_SIZE) 1) (initlock "pools")));
    try reflexivity.
  - exact seed_alloc_state.
  - apply Forall_replicate. split; [split; reflexivity|]. split; [reflexivity|]. simpl. lia.
  - split; reflexivity.
Defined.

(** The same state 500 operations later, in a reseed that has come to pool 0. *)
Lemma gather_event_panics_witness :
  @gather_pool x86_shift 0x80112000 0 0
    (set_prng (Generator (replicate 4 0) (replicate 32 0) 1 0)
      (set_alloc (Allocator (initlock "kmem") 1 0x80112000 1 500 0 0) seed_state)) = Panic "acquire".
Proof.
  apply (@gather_event_panics test_platform x86_shift _ 0x80112000 (tail seed_pages) 0x80112000 0 0
    (Pool 70 (replicate (Z.to_nat POOL_SIZE) 1) (initlock "pools"))); try reflexivity; try discriminate.
  - destruct seed_alloc_state as [A1 A2 A3 A4 _]. split; [exact A1|exact A2|exact A3|exact A4|split; simpl; lia].
  - split; reflexivity.
Defined.

(** the counter, counted from zero, takes 4 * (2^32 - 1) + 1 different
    values before it is zero again: each word runs up to all ones and stays
    there until all four have. *)
Theorem counter_cycle (i j : nat) :
  (Z.of_nat i <= ctr_max -> Z.of_nat j <= ctr_max ->
   ctr_iter i (replicate 4 0) = ctr_iter j (replicate 4 0) -> i = j) /\
  (Z.of_nat i = ctr_max -> ctr_iter (S i) (replicate 4 0) = replicate 4 0).
Proof.
  split.
  - intros Hi Hj E. rewrite !ctr_iter_of in E by assumption.
    apply ctr_of_inj in E; [lia|lia|lia].
  - intros Hi. rewrite ctr_iter_succ, ctr_iter_of, Hi by lia. apply incrctr_wraps.
Qed.

Lemma counter_cycle_witness :
  (Z.of_nat 3 <= ctr_max) /\ ctr_iter 3 (replicate 4 0) <> ctr_iter 5 (replicate 4 0).
Proof.
  split; [discriminate|]. intros E.
  assert (3%nat = 5%nat) by (apply (counter_cycle 3 5); [discriminate|discriminate|exact E]).
  discriminate.
Defined.
End PrngProps.
