(* ===== verification/Grep.v ===== *)
(** The text tools grep.c and wc.c.  A C string is the list of its characters
    up to the terminating NUL, so reading the character at a pointer is the head
    of the list, with NUL for the empty one.  The matcher is shown to decide the
    language a pattern denotes, and both tools are shown to compute a function
    of the whole input although they work through a buffer. *)

From S2P Require Import Prelude.

(** What [read(fd, buf, n)] gives a program: the bytes delivered, at most [n]
    of them and none at the end of the input, or the error -1; and the
    descriptor afterwards. *)
Class Reader (F : Type) := {
  read : F -> Z -> option (list Z) * F;
  (** The bytes the descriptor still has to deliver. *)
  pending : F -> list Z;
  read_prefix : forall f n bs f', read f n = (Some bs, f') ->
    pending f = bs ++ pending f' /\ Z.of_nat (length bs) <= Z.max 0 n;
  read_progress : forall f n f', read f n = (Some [], f') -> 0 < n -> pending f = [];
}.
(** A descriptor on which no read fails. *)
Class Reliable (F : Type) `{Reader F} := {
  read_ok : forall f n, is_Some (read f n).1;
}.

(** A regular file delivers as much as is asked for. *)
#[export] Program Instance file_reader : Reader (list Z) := {|
  read f n := (Some (take (Z.to_nat n) f), drop (Z.to_nat n) f);
  pending f := f;
|}.
Next Obligation.
  intros f n bs f' [= <- <-]. split; [symmetry; apply take_drop|]. rewrite length_take. lia.
Qed.
Next Obligation.
  intros f n f' [= E _] Hn. apply (f_equal length) in E. rewrite length_take in E. simpl in E.
  destruct f; [reflexivity|]. simpl in E. lia.
Qed.
#[export] Instance file_reliable : Reliable (list Z).
Proof. constructor. intros f n. eexists. reflexivity. Qed.

(** A pipe delivers what one write put there, however little that is. *)
Fixpoint chunk_read (f : list (list Z)) (n : nat) : list Z * list (list Z) :=
  match f with
  | [] => ([], [])
  | [] :: f' => chunk_read f' n
  | c :: f' => (take n c, drop n c :: f')
  end.
#[export] Program Instance chunk_reader : Reader (list (list Z)) := {|
  read f n := let '(bs, f') := chunk_read f (Z.to_nat n) in (Some bs, f');
  pending f := concat f;
|}.
Next Obligation.
  intros f n bs f'. induction f as [|[|x c] f IH]; simpl.
  - intros [= <- <-]. split; [reflexivity|simpl; lia].
  - exact IH.
  - intros [= <- <-]. cbn [concat]. split.
    + rewrite app_comm_cons, <- (take_drop (Z.to_nat n) (x :: c)) at 1. rewrite <- app_assoc. reflexivity.
    + rewrite length_take. lia.
Qed.
Next Obligation.
  intros f n f'. induction f as [|[|x c] f IH]; simpl; [reflexivity|exact IH|].
  destruct (Z.to_nat n) eqn:E; [lia|discriminate].
Qed.
#[export] Instance chunk_reliable : Reliable (list (list Z)).
Proof. constructor. intros f n. simpl. destruct (chunk_read f (Z.to_nat n)). eexists. reflexivity. Qed.

Module Grep.

Definition NL : Z := 10.
Definition CARET : Z := 94.
Definition DOLLAR : Z := 36.
Definition STAR : Z := 42.
Definition DOT : Z := 46.

(** [*s] for a string [s]. *)
Definition deref (s : list Z) : Z := match s with [] => 0 | c :: _ => c end.

(** The loop of [matchstar], given the test of the rest of the pattern. *)
Fixpoint star_loop (here : list Z -> bool) (c : Z) (text : list Z) : bool :=
  if here text then true
  else match text with
       | [] => false
       | t :: text' => if (t =? c) || (c =? DOT) then star_loop here c text' else false
       end.

Fixpoint matchhere (re text : list Z) : bool :=
  match re with
  | [] => true
  | c :: re1 =>
      let plain :=
        if (c =? DOLLAR) && (deref re1 =? 0) then deref text =? 0
        else match text with
             | [] => false
             | t :: text' => if (c =? DOT) || (c =? t) then matchhere re1 text' else false
             end in
      match re1 with
      | [] => plain
      | d :: re2 => if d =? STAR then star_loop (matchhere re2) c text else plain
      end
  end.

Definition matchstar (c : Z) (re text : list Z) : bool := star_loop (matchhere re) c text.

(** The [do] loop of [match]. *)
Fixpoint match_loop (re text : list Z) : bool :=
  if matchhere re text then true
  else match text with
       | [] => false
       | _ :: text' => match_loop re text'
       end.

Definition match_ (re text : list Z) : bool :=
  if deref re =? CARET then matchhere (tail re) text else match_loop re text.

(** The part of an array from index [p] up to its first NUL. *)
Fixpoint upto_nul (s : list Z) : list Z :=
  match s with
  | [] => []
  | c :: s' => if c =? 0 then [] else c :: upto_nul s'
  end.
Definition cstr (buf : list Z) (p : nat) : list Z := upto_nul (drop p buf).

(** ulib.c [strchr], as an index relative to the start of the string. *)
Fixpoint strchr (s : list Z) (c : Z) : option nat :=
  match s with
  | [] => None
  | x :: s' => if x =? 0 then None else if x =? c then Some O else S <$> strchr s' c
  end.

Definition BUFSIZE : nat := 1024.

(** The inner loop of [grep]: one round per line of the buffer.  It returns the
    buffer, what was written, and the final [p]. *)
Fixpoint scan_lines (fuel : nat) (pattern buf : list Z) (p : nat) : res (list Z * list Z * nat) :=
  match strchr (drop p buf) NL with
  | None => Ok (buf, [], p)
  | Some d =>
      match fuel with
      | O => Spin
      | S fuel =>
          let q := (p + d)%nat in
          let buf1 := <[q := 0]> buf in
          let hit := match_ pattern (cstr buf1 p) in
          let buf2 := if hit then <[q := NL]> buf1 else buf1 in
          let written := if hit then take (q + 1 - p) (drop p buf2) else [] in
          r ← scan_lines fuel pattern buf2 (q + 1);
          let '(b, out, p') := r in
          mret (b, written ++ out, p')
      end
  end.

Section grep.
Context {F : Type} `{Reader F}.

(** ulib.c [memmove] inside one array, downwards or in place. *)
Definition move (buf : list Z) (p m : nat) : list Z := take m (drop p buf) ++ drop m buf.

(** The outer loop of [grep]; [m] bytes of an unfinished line are at the start
    of [buf].  The result is what the program writes. *)
Fixpoint grep_loop (fuel : nat) (pattern buf : list Z) (m : nat) (fd : F) : res (list Z) :=
  match fuel with
  | O => Spin
  | S fuel =>
      let '(n, fd) := read fd (Z.of_nat BUFSIZE - Z.of_nat m - 1) in
      match n with
      | None | Some [] => Ok []
      | Some bs =>
          let buf := take m buf ++ bs ++ drop (m + length bs) buf in
          let m := (m + length bs)%nat in
          let buf := <[m := 0]> buf in
          r ← scan_lines BUFSIZE pattern buf 0;
          let '(buf, out, p) := r in
          let m := if (p =? 0)%nat then O else m in
          let '(m, buf) := if (0 <? m)%nat then ((m - p)%nat, move buf p (m - p)) else (m, buf) in
          rest ← grep_loop fuel pattern buf m fd;
          mret (out ++ rest)
      end
  end.
Definition grep (fuel : nat) (pattern buf : list Z) (fd : F) : res (list Z) :=
  grep_loop fuel pattern buf 0 fd.
End grep.
End Grep.

Module Wc.
Import Grep.

(** [" \r\t\n\v"] *)
Definition blanks : list Z := [32; 13; 9; 10; 11].

Record counts := Counts { l : Z; w : Z; c : Z; inword : bool }.

(** The body of the [for] loop. *)
Definition count (s : counts) (x : Z) : counts :=
  let c' := s32 (c s + 1) in
  let l' := if x =? NL then s32 (l s + 1) else l s in
  match strchr blanks x with
  | Some _ => Counts l' (w s) c' false
  | None => if inword s then Counts l' (w s) c' true else Counts l' (s32 (w s + 1)) c' true
  end.

Section wc.
Context {F : Type} `{Reader F}.

(** What [wc] prints. *)
Inductive report :=
  | ReadError
  | Total (l w c : Z) (name : string).

(** The [while] loop; [None] when a read fails. *)
Fixpoint wc_loop (fuel : nat) (s : counts) (fd : F) : res (option counts) :=
  match fuel with
  | O => Spin
  | S fuel =>
      let '(n, fd) := read fd 512 in
      match n with
      | None => Ok None
      | Some [] => Ok (Some s)
      | Some bs => wc_loop fuel (foldl count s bs) fd
      end
  end.
Definition wc (fuel : nat) (fd : F) (name : string) : res report :=
  r ← wc_loop fuel (Counts 0 0 0 false) fd;
  mret match r with
       | None => ReadError
       | Some s => Total (l s) (w s) (c s) name
       end.
End wc.
End Wc.

(** * What a pattern denotes *)
Module Pattern.
Import Grep.

(** One character, or any number of characters, each admitted by [c]. *)
Inductive item :=
  | One (c : Z)
  | Many (c : Z).

Definition admits (c t : Z) : Prop := c = DOT \/ t = c.

Inductive in_lang : list item -> list Z -> Prop :=
  | L_nil : in_lang [] []
  | L_one c t its s : admits c t -> in_lang its s -> in_lang (One c :: its) (t :: s)
  | L_many c ts its s : Forall (admits c) ts -> in_lang its s -> in_lang (Many c :: its) (ts ++ s).

(** The items of a pattern without its leading caret, and whether it ends in an
    anchor. *)
Fixpoint items (re : list Z) : list item * bool :=
  match re with
  | [] => ([], false)
  | c :: re1 =>
      match re1 with
      | [] => if c =? DOLLAR then ([], true) else ([One c], false)
      | d :: re2 =>
          if d =? STAR then let '(its, e) := items re2 in (Many c :: its, e)
          else let '(its, e) := items re1 in (One c :: its, e)
      end
  end.

(** The text contains a word of the language, at its start or end where the
    pattern is anchored. *)
Definition occurs (its : list item) (start fin : bool) (text : list Z) : Prop :=
  exists pre word post, text = pre ++ word ++ post /\ in_lang its word /\
    (start = true -> pre = []) /\ (fin = true -> post = []).

Definition denotes (re text : list Z) : Prop :=
  let start := deref re =? CARET in
  let '(its, fin) := items (if start then tail re else re) in
  occurs its start fin text.
End Pattern.

Module GrepFacts.
Import Grep Pattern.

(** ** The matcher *)

Definition here (its : list item) (fin : bool) (text : list Z) : Prop :=
  exists word post, text = word ++ post /\ in_lang its word /\ (fin = true -> post = []).

Lemma here_nil fin text : here [] fin text <-> (fin = true -> text = []).
Proof.
  split.
  - intros (word & post & -> & Hl & Hp) Hf. inversion Hl. simpl. auto.
  - intros H. exists [], text. repeat split; [constructor|exact H].
Qed.

Lemma here_one c its fin text :
  here (One c :: its) fin text <->
  exists t text', text = t :: text' /\ admits c t /\ here its fin text'.
Proof.
  split.
  - intros (word & post & -> & Hl & Hp). inversion Hl; subst.
    exists t, (s ++ post). repeat split; [assumption|]. exists s, post. auto.
  - intros (t & text' & -> & Ha & word & post & -> & Hl & Hp).
    exists (t :: word), post. repeat split; [constructor; assumption|exact Hp].
Qed.

(** A repetition matches nothing, or one more character. *)
Lemma here_many c its fin text :
  here (Many c :: its) fin text <->
  here its fin text \/
  exists t text', text = t :: text' /\ admits c t /\ here (Many c :: its) fin text'.
Proof.
  split.
  - intros (word & post & -> & Hl & Hp). inversion Hl; subst.
    destruct ts as [|t ts].
    + left. exists s, post. auto.
    + right. inversion H1; subst. exists t, (ts ++ s ++ post). simpl. rewrite <- app_assoc.
      repeat split; [assumption|]. exists (ts ++ s), post. rewrite <- app_assoc.
      repeat split; [constructor; assumption|exact Hp].
  - intros [(word & post & -> & Hl & Hp)|(t & text' & -> & Ha & word & post & -> & Hl & Hp)].
    + exists word, post. repeat split; [|exact Hp].
      change word with ([] ++ word). constructor; [constructor|exact Hl].
    + inversion Hl; subst. exists ((t :: ts) ++ s), post.
      repeat split; [constructor; [constructor|]; assumption|exact Hp].
Qed.

Lemma admits_bool c t : (c =? DOT) || (c =? t) = true <-> admits c t.
Proof. unfold admits. rewrite orb_true_iff, !Z.eqb_eq. split; intros [?|?]; auto. Qed.

(** [f] decides whether the items match at the start of a string. *)
Definition decides (f : list Z -> bool) (its : list item) (fin : bool) : Prop :=
  forall text, 0 ∉ text -> f text = true <-> here its fin text.

Lemma star_loop_spec f c its fin : decides f its fin -> decides (star_loop f c) (Many c :: its) fin.
Proof.
  intros Hf text. induction text as [|t text IH]; intros H0; simpl; rewrite here_many;
    specialize (Hf _ H0); destruct (f _) eqn:E.
  - split; [left; apply Hf; reflexivity|reflexivity].
  - split; [discriminate|]. intros [H|(t & text' & H & _)]; [|discriminate].
    rewrite <- Hf in H. exact H.
  - split; [left; apply Hf; reflexivity|reflexivity].
  - assert (Hn : ~ here its fin (t :: text)) by (rewrite <- Hf; discriminate).
    rewrite orb_comm, (Z.eqb_sym t c). destruct ((c =? DOT) || (c =? t)) eqn:Ea.
    + rewrite IH by (apply not_elem_of_cons in H0; apply H0). split.
      * intros H. right. exists t, text. rewrite <- admits_bool. auto.
      * intros [H|(t' & text' & [= <- <-] & _ & H)]; [contradiction|exact H].
    + split; [discriminate|]. intros [H|(t' & text' & [= <- <-] & H & _)]; [contradiction|].
      rewrite <- admits_bool, Ea in H. exact H.
Qed.

(** The branch of [matchhere] for an ordinary character. *)
Definition one_branch (c : Z) (f : list Z -> bool) (text : list Z) : bool :=
  match text with
  | [] => false
  | t :: text' => if (c =? DOT) || (c =? t) then f text' else false
  end.

Lemma one_step c f its fin : decides f its fin -> decides (one_branch c f) (One c :: its) fin.
Proof.
  intros Hf text H0. rewrite here_one. unfold one_branch. destruct text as [|t text].
  - split; [discriminate|]. intros (? & ? & ? & _). discriminate.
  - destruct ((c =? DOT) || (c =? t)) eqn:Ea.
    + rewrite (Hf text) by (apply not_elem_of_cons in H0; apply H0). split.
      * intros H. exists t, text. rewrite <- admits_bool. auto.
      * intros (? & ? & [= <- <-] & _ & H). exact H.
    + split; [discriminate|]. intros (? & ? & [= <- <-] & H & _).
      rewrite <- admits_bool, Ea in H. exact H.
Qed.

Lemma deref_zero s : 0 ∉ s -> (deref s =? 0) = true <-> s = [].
Proof.
  intros H. destruct s as [|x s]; [split; reflexivity|]. simpl. rewrite Z.eqb_eq.
  split; [|discriminate]. intros ->. exfalso. apply H. left.
Qed.

Lemma matchhere_spec re : 0 ∉ re -> decides (matchhere re) (items re).1 (items re).2.
Proof.
  induction re as [re IH] using (induction_ltof1 _ length). unfold ltof in IH.
  destruct re as [|c [|d re2]]; intros H0 text Ht; simpl.
  - rewrite here_nil. split; [discriminate|reflexivity].
  - rewrite andb_true_r. destruct (c =? DOLLAR); simpl.
    + rewrite here_nil, deref_zero by exact Ht. split; auto.
    + apply (one_step c (fun _ => true)); [|exact Ht].
      intros text' _. rewrite here_nil. split; [discriminate|reflexivity].
  - apply not_elem_of_cons in H0 as [_ H0]. pose proof H0 as H1.
    apply not_elem_of_cons in H1 as [Hd H1]. destruct (d =? STAR) eqn:Es.
    + destruct (items re2) as [its e] eqn:Ei. simpl.
      apply star_loop_spec; [|exact Ht]. specialize (IH re2). rewrite Ei in IH.
      apply IH; [simpl; lia|exact H1].
    + rewrite (proj2 (Z.eqb_neq d 0)), andb_false_r by congruence.
      specialize (IH (d :: re2)). cbn [items] in IH |- *.
      destruct (items (d :: re2)) as [its e] eqn:Ei. simpl in Ei. rewrite Ei in *. simpl.
      apply one_step; [|exact Ht]. apply IH; [simpl; lia|exact H0].
Qed.

Lemma match_loop_spec re its fin : decides (matchhere re) its fin ->
  forall text, 0 ∉ text -> match_loop re text = true <-> occurs its false fin text.
Proof.
  intros Hd text. induction text as [|t text IH]; intros H0; simpl;
    pose proof (Hd _ H0) as Hh; destruct (matchhere re _) eqn:E.
  - split; [|reflexivity]. intros _. destruct (proj1 Hh eq_refl) as (word & post & Ew & Hl & Hp).
    exists [], word, post. repeat split; auto; discriminate.
  - split; [discriminate|]. intros (pre & word & post & Ew & Hl & _ & Hp).
    destruct pre; [|discriminate]. apply Hh. exists word, post. auto.
  - split; [|reflexivity]. intros _. destruct (proj1 Hh eq_refl) as (word & post & Ew & Hl & Hp).
    exists [], word, post. repeat split; auto; discriminate.
  - rewrite IH by (apply not_elem_of_cons in H0; apply H0). split.
    + intros (pre & word & post & -> & Hl & _ & Hp).
      exists (t :: pre), word, post. repeat split; auto; discriminate.
    + intros ([|u pre] & word & post & Ew & Hl & _ & Hp).
      * exfalso. assert (F : false = true) by (apply Hh; exists word, post; auto). discriminate F.
      * injection Ew as <- ->. exists pre, word, post. repeat split; auto; discriminate.
Qed.

Lemma tail_notin (x : Z) (l : list Z) : x ∉ l -> x ∉ tail l.
Proof. destruct l; [auto|]. intros H. apply not_elem_of_cons in H. apply H. Qed.

(** ** Lines *)

(** The complete lines of a text and the unfinished rest. *)
Fixpoint lines (s : list Z) : list (list Z) * list Z :=
  match s with
  | [] => ([], [])
  | x :: s' =>
      let '(ls, r) := lines s' in
      if x =? NL then ([] :: ls, r)
      else match ls with
           | [] => ([], x :: r)
           | l :: ls' => ((x :: l) :: ls', r)
           end
  end.

(** The lines, each with its newline. *)
Definition unlines (ls : list (list Z)) : list Z := concat ((fun l => l ++ [NL]) <$> ls).

Lemma unlines_cons l ls : unlines (l :: ls) = l ++ NL :: unlines ls.
Proof. unfold unlines. rewrite fmap_cons. cbn [concat]. rewrite <- app_assoc. reflexivity. Qed.

Lemma lines_line l s : NL ∉ l -> lines (l ++ NL :: s) = (l :: (lines s).1, (lines s).2).
Proof.
  induction l as [|x l IH]; intros H; simpl.
  - destruct (lines s). reflexivity.
  - apply not_elem_of_cons in H as [Hx H]. rewrite IH by exact H.
    rewrite (proj2 (Z.eqb_neq x NL)) by congruence. reflexivity.
Qed.

Lemma lines_rest r : NL ∉ r -> lines r = ([], r).
Proof.
  induction r as [|x r IH]; intros H; [reflexivity|].
  apply not_elem_of_cons in H as [Hx H]. simpl. rewrite IH by exact H.
  rewrite (proj2 (Z.eqb_neq x NL)) by congruence. reflexivity.
Qed.

Lemma lines_unlines ls s : Forall (fun l => NL ∉ l) ls ->
  lines (unlines ls ++ s) = (ls ++ (lines s).1, (lines s).2).
Proof.
  induction 1 as [|l ls Hl _ IH].
  - simpl. destruct (lines s). reflexivity.
  - rewrite unlines_cons, <- app_assoc. simpl. rewrite lines_line, IH by exact Hl. reflexivity.
Qed.

(** Every text is its lines followed by the rest. *)
Lemma lines_spec s : exists ls r, s = unlines ls ++ r /\
  Forall (fun l => NL ∉ l) ls /\ (NL ∉ r) /\ lines s = (ls, r).
Proof.
  induction s as [|x s (ls & r & E & Hls & Hr & Hl)].
  - exists [], []. repeat split; [constructor|apply not_elem_of_nil].
  - simpl. rewrite Hl. destruct (x =? NL) eqn:Ex.
    + apply Z.eqb_eq in Ex as ->. exists ([] :: ls), r. rewrite E, unlines_cons. repeat split; [|exact Hr].
      constructor; [apply not_elem_of_nil|exact Hls].
    + apply Z.eqb_neq in Ex. destruct ls as [|l ls].
      * exists [], (x :: r). rewrite E. repeat split; [constructor|].
        apply not_elem_of_cons. auto.
      * inversion Hls; subst. exists ((x :: l) :: ls), r. rewrite !unlines_cons. repeat split; [|exact Hr].
        constructor; [apply not_elem_of_cons; auto|assumption].
Qed.

(** What [grep] is to write for a text. *)
Definition matching (pattern : list Z) (ls : list (list Z)) : list Z :=
  unlines (List.filter (match_ pattern) ls).

Lemma matching_app pattern ls ls' :
  matching pattern (ls ++ ls') = matching pattern ls ++ matching pattern ls'.
Proof.
  unfold matching. rewrite List.filter_app. unfold unlines. rewrite fmap_app, concat_app. reflexivity.
Qed.

(** ** One buffer *)

Lemma strchr_app s c z : 0 ∉ s -> c ∉ s -> c <> 0 -> strchr (s ++ c :: z) c = Some (length s).
Proof.
  intros H0 Hc Hn. induction s as [|x s IH]; simpl.
  - rewrite (proj2 (Z.eqb_neq c 0)), Z.eqb_refl by exact Hn. reflexivity.
  - apply not_elem_of_cons in H0 as [? ?]. apply not_elem_of_cons in Hc as [? ?].
    rewrite (proj2 (Z.eqb_neq x 0)), (proj2 (Z.eqb_neq x c)), IH by congruence. reflexivity.
Qed.

Lemma strchr_stop s c z : 0 ∉ s -> c ∉ s -> strchr (s ++ 0 :: z) c = None.
Proof.
  intros H0 Hc. induction s as [|x s IH]; simpl; [reflexivity|].
  apply not_elem_of_cons in H0 as [? ?]. apply not_elem_of_cons in Hc as [? ?].
  rewrite (proj2 (Z.eqb_neq x 0)), (proj2 (Z.eqb_neq x c)), IH by congruence. reflexivity.
Qed.

Lemma upto_nul_app s z : 0 ∉ s -> upto_nul (s ++ 0 :: z) = s.
Proof.
  induction s as [|x s IH]; intros H0; simpl; [reflexivity|].
  apply not_elem_of_cons in H0 as [? ?].
  rewrite (proj2 (Z.eqb_neq x 0)), IH by congruence. reflexivity.
Qed.

(** One round: the line at [p] is [l], [z] follows its newline. *)
Lemma scan_line buf p l z v : drop p buf = l ++ NL :: z ->
  drop p (<[(p + length l)%nat := v]> buf) = l ++ v :: z /\
  drop (p + length l + 1) (<[(p + length l)%nat := v]> buf) = z.
Proof.
  intros E. assert (Hp : length (take p buf) = p).
  { rewrite length_take. apply (f_equal length) in E. rewrite length_drop, length_app in E.
    simpl in E. lia. }
  assert (Hb : <[(p + length l)%nat := v]> buf = take p buf ++ l ++ v :: z).
  { rewrite <- (take_drop p buf) at 1. rewrite E, insert_app_r_alt, Hp by lia.
    rewrite insert_app_r_alt by lia. replace (p + length l - p - length l)%nat with O by lia.
    reflexivity. }
  rewrite Hb, <- Nat.add_assoc, <- drop_drop, !drop_app_length' by (symmetry; exact Hp).
  split; [reflexivity|]. rewrite drop_app_add. reflexivity.
Qed.

(** The inner loop prints the matching lines and stops at the unfinished one. *)
Lemma scan_lines_spec pattern ls fuel buf p r z :
  (length ls <= fuel)%nat -> Forall (fun l => (NL ∉ l) /\ (0 ∉ l)) ls -> NL ∉ r -> 0 ∉ r ->
  drop p buf = unlines ls ++ r ++ 0 :: z ->
  exists buf', scan_lines fuel pattern buf p =
      Ok (buf', matching pattern ls, (p + length (unlines ls))%nat) /\
    length buf' = length buf /\ drop (p + length (unlines ls)) buf' = r ++ 0 :: z.
Proof.
  revert fuel buf p. induction ls as [|l ls IH]; intros fuel buf p Hf Hls Hr Hr0 E.
  - exists buf. simpl. rewrite Nat.add_0_r. repeat split; [|exact E].
    destruct fuel; simpl; rewrite E; unfold unlines; simpl; rewrite strchr_stop by assumption; reflexivity.
  - destruct fuel as [|fuel]; [simpl in Hf; lia|]. inversion Hls as [|? ? [Hl Hl0] Hls']; subst.
    rewrite unlines_cons, <- app_assoc in E. simpl in E.
    cbn [scan_lines]. rewrite E, strchr_app by (assumption || discriminate).
    destruct (scan_line _ _ _ _ 0 E) as [H1 H1'].
    destruct (scan_line _ _ _ _ NL E) as [H2 H2'].
    unfold cstr. rewrite H1, upto_nul_app by exact Hl0.
    rewrite list_insert_insert_eq.
    set (buf2 := if match_ pattern l then <[_ := NL]> buf else _).
    assert (Hb : length buf2 = length buf /\ drop (p + length l + 1) buf2 = unlines ls ++ r ++ 0 :: z).
    { subst buf2. destruct (match_ pattern l); rewrite length_insert; auto. }
    destruct Hb as [Hb1 Hb2]. simpl in Hf.
    destruct (IH fuel buf2 (p + length l + 1)%nat ltac:(lia) Hls' Hr Hr0 Hb2) as (buf' & Es & Hn & Ed).
    exists buf'. rewrite Es. unfold mbind, res_bind, mret, res_ret. rewrite Hn, Hb1.
    assert (Hlen : (p + length l + 1 + length (unlines ls) = p + length (unlines (l :: ls)))%nat).
    { rewrite unlines_cons, length_app. simpl. lia. }
    rewrite <- Hlen. repeat split; [|exact Ed]. do 3 f_equal.
    unfold matching. cbn [List.filter]. destruct (match_ pattern l).
    + subst buf2. rewrite H2. replace (p + length l + 1 - p)%nat with (length l + 1)%nat by lia.
      rewrite take_app_add, unlines_cons, <- app_assoc. reflexivity.
    + reflexivity.
Qed.

(** ** The whole input *)

Lemma BUFSIZE_val : Z.of_nat BUFSIZE = 1024.
Proof. reflexivity. Qed.

(** The lines the tool can handle: without NUL, and with their newline within the
    part of the buffer that [read] may fill. *)
Definition short (l : list Z) : Prop := (0 ∉ l) /\ (length l + 1 < BUFSIZE)%nat.

Lemma length_unlines ls : (length ls <= length (unlines ls))%nat.
Proof. induction ls as [|l ls IH]; [simpl; lia|]. rewrite unlines_cons, length_app. simpl. lia. Qed.

(** A text of short lines that fills the buffer has a newline. *)
Lemma no_newline_short t d : NL ∉ t ->
  Forall short (lines (t ++ d)).1 -> short (lines (t ++ d)).2 -> (length t + 1 < BUFSIZE)%nat.
Proof.
  intros Ht. destruct (lines_spec d) as (ls & r & -> & Hls & Hr & _). intros Hl1 Hl2.
  assert (Hlen : forall l', short (t ++ l') -> (length t + 1 < BUFSIZE)%nat).
  { intros l' [_ Hb]. rewrite length_app in Hb. lia. }
  destruct ls as [|l ls].
  - unfold unlines in *. simpl in Hl1, Hl2. rewrite lines_rest in Hl2.
    + exact (Hlen r Hl2).
    + rewrite elem_of_app. intros [?|?]; contradiction.
  - inversion Hls; subst. rewrite unlines_cons, <- !app_assoc in Hl1. simpl in Hl1.
    rewrite app_assoc, lines_line in Hl1.
    + simpl in Hl1. inversion Hl1; subst. exact (Hlen l ltac:(assumption)).
    + rewrite elem_of_app. intros [?|?]; contradiction.
Qed.

Lemma notin_unlines ls r : 0 ∉ unlines ls ++ r -> Forall (fun l => NL ∉ l) ls ->
  Forall (fun l => (NL ∉ l) /\ (0 ∉ l)) ls /\ (0 ∉ r).
Proof.
  intros H0 Hls. induction Hls as [|l ls Hl Hls IH].
  - split; [constructor|exact H0].
  - rewrite unlines_cons, <- app_assoc in H0. apply not_elem_of_app in H0 as [H1 H0].
    apply not_elem_of_cons in H0 as [_ H0]. destruct (IH H0). repeat constructor; assumption.
Qed.

(** The buffer after [read] delivered [bs] behind the [m] bytes kept. *)
Lemma buffer_filled buf pre bs : length buf = BUFSIZE -> (length pre + length bs < BUFSIZE)%nat ->
  take (length pre) buf = pre ->
  exists z, <[(length pre + length bs)%nat := 0]>
      (take (length pre) buf ++ bs ++ drop (length pre + length bs) buf) = (pre ++ bs) ++ 0 :: z /\
    length ((pre ++ bs) ++ 0 :: z) = BUFSIZE.
Proof.
  intros Hb Hl Hp. rewrite Hp. destruct (drop (length pre + length bs) buf) as [|y z] eqn:E.
  { apply (f_equal length) in E. rewrite length_drop in E. simpl in E. lia. }
  exists z. apply (f_equal length) in E. rewrite length_drop in E. simpl in E. split.
  - rewrite app_assoc, insert_app_r_alt by (rewrite length_app; lia). rewrite length_app.
    replace (length pre + length bs - (length pre + length bs))%nat with O by lia. reflexivity.
  - rewrite !length_app. simpl. lia.
Qed.

Lemma take_move buf p r z : length buf = BUFSIZE -> drop p buf = r ++ 0 :: z ->
  length (move buf p (length r)) = BUFSIZE /\ take (length r) (move buf p (length r)) = r.
Proof.
  intros Hb E. unfold move. rewrite E, take_app_length.
  pose proof (f_equal length E) as El. rewrite length_drop, length_app in El. simpl in El.
  split; [|apply take_app_length]. rewrite length_app, length_drop. lia.
Qed.

Section file.
Context (pattern : list Z).

(** [pre] is the unfinished line kept in the buffer, [d] what is left of the file. *)
Lemma grep_loop_file fuel buf pre d :
  (length d < fuel)%nat -> length buf = BUFSIZE -> take (length pre) buf = pre ->
  0 ∉ pre ++ d -> NL ∉ pre -> Forall short (lines (pre ++ d)).1 -> short (lines (pre ++ d)).2 ->
  grep_loop fuel pattern buf (length pre) d = Ok (matching pattern (lines (pre ++ d)).1).
Proof.
  revert buf pre d. induction fuel as [|fuel IH]; intros buf pre d Hf Hb Hp H0 Hn Hs1 Hs2; [lia|].
  pose proof (no_newline_short _ _ Hn Hs1 Hs2) as Hpre. pose proof BUFSIZE_val as HB.
  cbn [grep_loop read file_reader]. set (n := Z.to_nat (Z.of_nat BUFSIZE - Z.of_nat (length pre) - 1)).
  assert (Hn1 : (n + length pre + 1 = BUFSIZE /\ 0 < n)%nat) by lia.
  destruct (take n d) as [|x bs] eqn:Et.
  { destruct d; [|destruct n; [lia|discriminate]]. rewrite app_nil_r, lines_rest by exact Hn.
    reflexivity. }
  assert (Hbs : length (x :: bs) = Nat.min n (length d)) by (rewrite <- Et, length_take; reflexivity).
  assert (Hx : (0 < length (x :: bs))%nat) by (simpl; lia).
  destruct (buffer_filled buf pre (x :: bs) Hb ltac:(lia) Hp) as (z & -> & Hlen).
  assert (Hsplit : pre ++ d = (pre ++ x :: bs) ++ drop n d)
    by (rewrite <- app_assoc, <- Et, take_drop; reflexivity).
  rewrite Hsplit in H0, Hs1, Hs2 |- *.
  destruct (lines_spec (pre ++ x :: bs)) as (ls & r & E & Hls & Hr & _). rewrite E in *.
  destruct (notin_unlines _ _ (proj1 (proj1 (not_elem_of_app _ _ _) H0)) Hls) as [Hls' Hr0].
  assert (HT : (length (unlines ls) + length r = length pre + length (x :: bs))%nat)
    by (rewrite <- !length_app, E; reflexivity).
  assert (HL : lines ((unlines ls ++ r) ++ drop n d) =
    (ls ++ (lines (r ++ drop n d)).1, (lines (r ++ drop n d)).2))
    by (rewrite <- app_assoc; apply lines_unlines, Hls).
  rewrite HL in *.
  simpl in Hs1, Hs2. apply Forall_app in Hs1 as [_ Hs1].
  destruct (scan_lines_spec pattern ls BUFSIZE ((unlines ls ++ r) ++ 0 :: z) 0 r z) as (b & -> & Hbl & Ed);
    [pose proof (length_unlines ls); lia|exact Hls'|exact Hr|exact Hr0|rewrite <- app_assoc; reflexivity|].
  unfold mbind at 1, res_bind at 1. rewrite Hlen in Hbl.
  replace (0 + length (unlines ls))%nat with (length (unlines ls)) in * by lia.
  assert (H0' : 0 ∉ r ++ drop n d) by (apply not_elem_of_app in H0 as [? ?]; apply not_elem_of_app; auto).
  assert (Hd : (length (drop n d) < fuel)%nat) by (rewrite length_drop; lia).
  destruct (length (unlines ls) =? 0)%nat eqn:Ez.
  - assert (ls = []) as -> by (apply Nat.eqb_eq in Ez; pose proof (length_unlines ls); destruct ls; [reflexivity|simpl in *; lia]).
    assert (Hdn : drop n d = []).
    { apply drop_ge. change (length (unlines [])) with O in HT. pose proof (no_newline_short _ _ Hr Hs1 Hs2). lia. }
    rewrite Hdn, (app_nil_r r), (lines_rest r Hr). rewrite Hdn in Hd.
    specialize (IH b [] []). change (length (@nil Z)) with O in IH.
    change (0 <? 0)%nat with false. cbv iota beta. rewrite IH; [reflexivity| | | | | | |]; auto.
    + apply not_elem_of_nil.
    + apply not_elem_of_nil.
    + split; [apply not_elem_of_nil|simpl; lia].
  - apply Nat.eqb_neq in Ez. rewrite (proj2 (Nat.ltb_lt 0 _)) by lia.
    replace (length pre + length (x :: bs) - length (unlines ls))%nat with (length r) by lia.
    destruct (take_move b _ r z Hbl Ed) as [Hm1 Hm2].
    rewrite (IH _ r (drop n d)) by assumption. unfold mbind, res_bind, mret, res_ret.
    f_equal. symmetry. apply matching_app.
Qed.
End file.
End GrepFacts.

Module GrepProps.
Import Grep Pattern GrepFacts.

(** C36: on C strings, [match] decides whether the text contains a word of the
    language the pattern denotes: characters, the dot for any character and
    starred characters in sequence, a leading caret tying the word to the
    start of the text and a final dollar sign to its end. *)
Theorem match_decides_pattern (re text : list Z) :
  0 ∉ re -> 0 ∉ text -> match_ re text = true <-> denotes re text.
Proof.
  intros Hr Ht. unfold match_, denotes. destruct (deref re =? CARET).
  - pose proof (matchhere_spec (tail re) (tail_notin _ _ Hr) text Ht) as Hm.
    destruct (items (tail re)) as [its fin]. simpl in Hm. rewrite Hm. split.
    + intros (word & post & -> & Hl & Hp). exists [], word, post. auto.
    + intros (pre & word & post & -> & Hl & Hs & Hp). rewrite (Hs eq_refl).
      exists word, post. auto.
  - pose proof (matchhere_spec re Hr) as Hm. destruct (items re) as [its fin].
    apply match_loop_spec; assumption.
Qed.

Lemma match_decides_pattern_witness : (0 ∉ [94; 97; 46; 42; 36]) /\ (0 ∉ [97; 98]) /\
  denotes [94; 97; 46; 42; 36] [97; 98].
Proof.
  assert (H1 : 0 ∉ [94; 97; 46; 42; 36]) by (apply (bool_decide_eq_true_1 _); reflexivity).
  assert (H2 : 0 ∉ [97; 98]) by (apply (bool_decide_eq_true_1 _); reflexivity).
  split; [exact H1|]. split; [exact H2|].
  apply (match_decides_pattern _ _ H1 H2). reflexivity.
Defined.

(** on a regular file of lines that have no NUL and fit, with their newline,
    into the 1023 bytes the buffer holds, [grep] returns after at most one read
    per byte and one more, and writes exactly the complete lines that match, in
    order and each with its newline, whatever the buffer held before. *)
Theorem grep_prints_matching_lines (pattern buf data : list Z) :
  length buf = BUFSIZE -> 0 ∉ data -> Forall short (lines data).1 -> short (lines data).2 ->
  grep (S (length data)) pattern buf data =
  Ok (concat ((fun l => l ++ [NL]) <$> List.filter (match_ pattern) (lines data).1)).
Proof.
  intros Hb H0 Hs1 Hs2. unfold grep.
  apply (grep_loop_file pattern _ buf [] data); auto using not_elem_of_nil.
Qed.

Lemma grep_prints_matching_lines_witness :
  grep 9 [98] (replicate BUFSIZE 7) [97; 10; 97; 98; 10; 99; 10; 98] = Ok [97; 98; 10].
Proof.
  apply (grep_prints_matching_lines [98] (replicate BUFSIZE 7) [97; 10; 97; 98; 10; 99; 10; 98]).
  - apply length_replicate.
  - apply (bool_decide_eq_true_1 _). reflexivity.
  - repeat constructor; try (apply (bool_decide_eq_true_1 _); reflexivity);
      unfold BUFSIZE; apply Nat.ltb_lt; reflexivity.
  - split; [apply (bool_decide_eq_true_1 _); reflexivity|apply Nat.ltb_lt; reflexivity].
Defined.
End GrepProps.

Module WcFacts.
Import Grep Wc.

Definition blank (x : Z) : bool := bool_decide (x ∈ blanks).

Lemma strchr_none s x : 0 ∉ s -> strchr s x = None <-> x ∉ s.
Proof.
  induction s as [|y s IH]; intros H0; simpl; [split; [intros _; apply not_elem_of_nil|reflexivity]|].
  apply not_elem_of_cons in H0 as [Hy H0]. rewrite (proj2 (Z.eqb_neq y 0)) by congruence.
  rewrite not_elem_of_cons, <- (IH H0). destruct (Z.eqb_spec y x) as [->|Hx].
  - split; [discriminate|]. intros [? _]. contradiction.
  - destruct (strchr s x).
    + split; [discriminate|intros [_ ?]; discriminate].
    + split; [intros _; split; congruence|reflexivity].
Qed.

Lemma strchr_blanks x : strchr blanks x = None <-> blank x = false.
Proof.
  unfold blank. rewrite bool_decide_eq_false. apply strchr_none.
  apply (bool_decide_eq_true_1 _). reflexivity.
Qed.

(** A text cut at its blanks. *)
Fixpoint fields (s : list Z) : list (list Z) :=
  match s with
  | [] => [[]]
  | x :: s' => if blank x then [] :: fields s'
               else match fields s' with
                    | [] => [[x]]
                    | y :: ys => (x :: y) :: ys
                    end
  end.
Definition nonempty (l : list Z) : bool := match l with [] => false | _ => true end.
(** The words are the nonempty fields. *)
Definition words (s : list Z) : list (list Z) := List.filter nonempty (fields s).

(** The words that start in [s] when the text before it did, or did not, end in
    a word. *)
Definition new_words (inside : bool) (s : list Z) : Z :=
  Z.of_nat (length (words s)) -
  (if inside then match fields s with y :: _ => if nonempty y then 1 else 0 | [] => 0 end else 0).

Lemma fields_cons s : exists y ys, fields s = y :: ys.
Proof.
  destruct s as [|x s]; simpl; [eauto|]. destruct (blank x); [eauto|].
  destruct (fields s); eauto.
Qed.

Lemma new_words_cons inside x s :
  new_words inside (x :: s) =
  if blank x then new_words false s
  else (if inside then 0 else 1) + new_words true s.
Proof.
  unfold new_words, words. simpl. destruct (fields_cons s) as (y & ys & ->).
  destruct (blank x); simpl; [destruct inside; lia|].
  destruct (nonempty y); destruct inside; simpl; lia.
Qed.

Definition newlines (s : list Z) : Z := Z.of_nat (length (List.filter (Z.eqb NL) s)).

Lemma newlines_cons x s : newlines (x :: s) = (if NL =? x then 1 else 0) + newlines s.
Proof. unfold newlines. cbn [List.filter]. destruct (NL =? x); cbn [length]; lia. Qed.

(** Counts that have not overflowed and will not within [n] more characters. *)
Definition in_range (st : counts) (n : Z) : Prop :=
  0 <= l st <= c st /\ 0 <= w st <= c st /\ c st + n < 2147483648.

Lemma count_step st x n : 0 <= n -> in_range st (1 + n) ->
  in_range (count st x) n /\
  l (count st x) = l st + (if NL =? x then 1 else 0) /\
  w (count st x) = w st + (if blank x then 0 else if inword st then 0 else 1) /\
  c (count st x) = c st + 1 /\ inword (count st x) = negb (blank x).
Proof.
  intros Hn (Hl & Hw & Hc). unfold count, in_range. pose proof (strchr_blanks x) as Hb.
  rewrite (s32_id (c st + 1)) by (unfold is_s32; lia).
  rewrite (s32_id (l st + 1)), (s32_id (w st + 1)) by (unfold is_s32; lia).
  rewrite (Z.eqb_sym NL x).
  destruct (strchr blanks x), (blank x), (x =? NL), (inword st); simpl;
    try (exfalso; intuition discriminate); repeat split; first [lia|reflexivity].
Qed.

Lemma foldl_count s : forall st, in_range st (Z.of_nat (length s)) ->
  l (foldl count st s) = l st + newlines s /\
  w (foldl count st s) = w st + new_words (inword st) s /\
  c (foldl count st s) = c st + Z.of_nat (length s) /\ in_range (foldl count st s) 0.
Proof.
  induction s as [|x s IH]; intros st H.
  - simpl. unfold newlines, new_words, words. simpl. destruct (inword st);
      repeat split; try lia; apply H.
  - destruct (count_step st x (Z.of_nat (length s))) as (H1 & E1 & E2 & E3 & E4); [lia| |].
    { unfold in_range in *. cbn [length] in H. lia. }
    cbn [foldl]. destruct (IH _ H1) as (I1 & I2 & I3 & I4).
    rewrite I1, I2, I3, E1, E2, E3, E4, newlines_cons, new_words_cons. cbn [length].
    repeat split; try lia; [|apply I4..]. destruct (blank x), (inword st); simpl; lia.
Qed.

Lemma wc_loop_ok {F} `{Reliable F} fuel st (fd : F) : (length (pending fd) < fuel)%nat ->
  wc_loop fuel st fd = Ok (Some (foldl count st (pending fd))).
Proof.
  revert st fd. induction fuel as [|fuel IH]; intros st fd Hf; [lia|]. simpl.
  destruct (read_ok fd 512) as [bs Hb]. destruct (read fd 512) as [r fd'] eqn:E.
  simpl in Hb. subst r. destruct bs as [|b bs].
  - rewrite (read_progress _ _ _ E) by lia. reflexivity.
  - destruct (read_prefix _ _ _ _ E) as [Hp _]. rewrite Hp, foldl_app. rewrite Hp in Hf.
    apply IH. rewrite length_app in Hf. simpl in Hf. lia.
Qed.
End WcFacts.

Module WcProps.
Import Grep Wc WcFacts.

(** on any descriptor whose reads succeed, however it cuts its data into
    pieces, [wc] returns and reports the number of newlines, of words (the
    nonempty pieces between blanks) and of bytes of the whole input, as long as
    the input has fewer than [2 ^ 31] bytes. *)
Theorem wc_counts {F} `{Reliable F} (fd : F) (name : string) (fuel : nat) :
  (length (pending fd) < fuel)%nat -> Z.of_nat (length (pending fd)) < 2147483648 ->
  wc fuel fd name =
  Ok (Total (newlines (pending fd)) (Z.of_nat (length (words (pending fd))))
            (Z.of_nat (length (pending fd))) name).
Proof.
  intros Hf Hb. unfold wc. rewrite wc_loop_ok by exact Hf.
  destruct (foldl_count (pending fd) (Counts 0 0 0 false)) as (E1 & E2 & E3 & _).
  { unfold in_range. simpl. lia. }
  unfold mbind, res_bind, mret, res_ret. rewrite E1, E2, E3.
  unfold new_words. cbn [l w c inword]. do 2 f_equal; lia.
Qed.

Lemma wc_counts_witness :
  wc 20 [[97; 98]; [99; 32]; []; [100; 10; 10; 101]] "f" = Ok (Total 2 3 8 "f").
Proof.
  etransitivity; [apply (wc_counts [[97; 98]; [99; 32]; []; [100; 10; 10; 101]] "f" 20)|].
  - apply Nat.ltb_lt. reflexivity.
  - reflexivity.
  - vm_compute. reflexivity.
Defined.
End WcProps.
