(* ===== verification/Sh.v ===== *)
(** The shell (sh.c): its lexer and recursive-descent parser, the pass that
    terminates the strings in place, and the execution of a parsed command as
    the system calls the shell process and its children make.

    The line is a C string in a buffer.  A pointer into it is represented by
    the characters from there to the end of the line, so [*s] is the head (NUL
    at the end), [s < es] says that the list is not empty and [s++] is the
    tail; the index of the pointer is recovered from the length.  Memory for the
    nodes is taken to be available. *)

From S2P Require Import Prelude.

Module Sh.

Definition MAXARGS : Z := 10.
Definition O_RDONLY : Z := 0x000.
Definition O_WRONLY : Z := 0x001.
Definition O_CREATE : Z := 0x200.

Abbreviation ptr := (list Z) (only parsing).
Definition deref (s : ptr) : Z := match s with [] => 0 | c :: _ => c end.

(** [strchr(set, c)] for a character of the line. *)
Definition among (set : list Z) (c : Z) : bool := existsb (Z.eqb c) set.
Arguments among : simpl never.

(** [" \t\r\n\v"] and ["<|>&;()"] *)
Definition whitespace : list Z := [32; 9; 13; 10; 11].
Definition symbols : list Z := [60; 124; 62; 38; 59; 40; 41].
Definition LT : Z := 60.
Definition BAR : Z := 124.
Definition GT : Z := 62.
Definition AMP : Z := 38.
Definition SEMI : Z := 59.
Definition LPAR : Z := 40.
Definition RPAR : Z := 41.
Definition PLUS : Z := 43.
Definition WORD : Z := 97.

(** A parsed command; an argument is its start and its end. *)
Inductive cmd :=
  | Exec (argv : list (ptr * ptr))
  | Redir (c : cmd) (file efile : ptr) (mode fd : Z)
  | Pipe (left right : cmd)
  | List (left right : cmd)
  | Back (c : cmd).

Fixpoint skip_while (p : Z -> bool) (s : ptr) : ptr :=
  match s with
  | [] => []
  | c :: s' => if p c then skip_while p s' else s
  end.
Definition skip_ws : ptr -> ptr := skip_while (among whitespace).
(** A character of a word: neither blank nor symbol. *)
Definition plain (c : Z) : bool := negb (among whitespace c) && negb (among symbols c).

(** The token, where it starts and ends, and where the next one starts. *)
Definition gettoken (ps : ptr) : Z * ptr * ptr * ptr :=
  let s := skip_ws ps in
  let q := s in
  let ret := deref s in
  let '(ret, s) :=
    if ret =? 0 then (ret, s)
    else if among [BAR; LPAR; RPAR; SEMI; AMP; LT] ret then (ret, tail s)
    else if ret =? GT then
      let s := tail s in
      if deref s =? GT then (PLUS, tail s) else (ret, s)
    else (WORD, skip_while plain s) in
  (ret, q, s, skip_ws s).

Definition peek (ps : ptr) (toks : list Z) : bool * ptr :=
  let s := skip_ws ps in
  (negb (deref s =? 0) && among toks (deref s), s).

(** [while(peek(ps, es, "<>")) ...] *)
Fixpoint redirs_loop (fuel : nat) (c : cmd) (ps : ptr) : res (cmd * ptr) :=
  match fuel with
  | O => Spin
  | S fuel =>
      let '(more, ps) := peek ps [LT; GT] in
      if negb more then Ok (c, ps)
      else
        let '(tok, _, _, ps) := gettoken ps in
        let '(word, q, eq, ps) := gettoken ps in
        if negb (word =? WORD) then Panic "missing file for redirection"
        else
          let c :=
            if tok =? LT then Redir c q eq O_RDONLY 0
            else if tok =? GT then Redir c q eq (Z.lor O_WRONLY O_CREATE) 1
            else if tok =? PLUS then Redir c q eq (Z.lor O_WRONLY O_CREATE) 1
            else c in
          redirs_loop fuel c ps
  end.
Definition parseredirs (c : cmd) (ps : ptr) : res (cmd * ptr) := redirs_loop (S (length ps)) c ps.

(** [cmd->argv[argc] = q; cmd->eargv[argc] = eq] on the [execcmd] node at the
    bottom of the redirections already wrapped around it. *)
Fixpoint add_arg (q eq : ptr) (ret : cmd) : cmd :=
  match ret with
  | Exec argv => Exec (argv ++ [(q, eq)])
  | Redir c file efile mode fd => Redir (add_arg q eq c) file efile mode fd
  | _ => ret
  end.

Fixpoint args_loop (fuel : nat) (ret : cmd) (argc : Z) (ps : ptr) : res (cmd * ptr) :=
  match fuel with
  | O => Spin
  | S fuel =>
      let '(stop, ps) := peek ps [BAR; RPAR; AMP; SEMI] in
      if stop then Ok (ret, ps)
      else
        let '(tok, q, eq, ps) := gettoken ps in
        if tok =? 0 then Ok (ret, ps)
        else if negb (tok =? WORD) then Panic "syntax"
        else
          let ret := add_arg q eq ret in
          let argc := argc + 1 in
          if MAXARGS <=? argc then Panic "too many args"
          else
            r ← parseredirs ret ps;
            let '(ret, ps) := r in
            args_loop fuel ret argc ps
  end.

(** [while(peek(ps, es, "&"))] *)
Fixpoint back_loop (fuel : nat) (c : cmd) (ps : ptr) : res (cmd * ptr) :=
  match fuel with
  | O => Spin
  | S fuel =>
      let '(more, ps) := peek ps [AMP] in
      if negb more then Ok (c, ps)
      else let '(_, _, _, ps) := gettoken ps in back_loop fuel (Back c) ps
  end.

(** The mutually recursive part; [fuel] bounds the depth of the calls. *)
Fixpoint parseline (fuel : nat) (ps : ptr) : res (cmd * ptr) :=
  match fuel with
  | O => Spin
  | S fuel =>
      r ← parsepipe fuel ps;
      let '(c, ps) := r in
      r ← back_loop (S (length ps)) c ps;
      let '(c, ps) := r in
      let '(semi, ps) := peek ps [SEMI] in
      if semi then
        let '(_, _, _, ps) := gettoken ps in
        r ← parseline fuel ps;
        let '(c', ps) := r in
        mret (List c c', ps)
      else mret (c, ps)
  end
with parsepipe (fuel : nat) (ps : ptr) : res (cmd * ptr) :=
  match fuel with
  | O => Spin
  | S fuel =>
      r ← parseexec fuel ps;
      let '(c, ps) := r in
      let '(bar, ps) := peek ps [BAR] in
      if bar then
        let '(_, _, _, ps) := gettoken ps in
        r ← parsepipe fuel ps;
        let '(c', ps) := r in
        mret (Pipe c c', ps)
      else mret (c, ps)
  end
with parseexec (fuel : nat) (ps : ptr) : res (cmd * ptr) :=
  match fuel with
  | O => Spin
  | S fuel =>
      let '(block, ps) := peek ps [LPAR] in
      if block then parseblock fuel ps
      else
        r ← parseredirs (Exec []) ps;
        let '(ret, ps) := r in
        args_loop (S (length ps)) ret 0 ps
  end
with parseblock (fuel : nat) (ps : ptr) : res (cmd * ptr) :=
  match fuel with
  | O => Spin
  | S fuel =>
      let '(open, ps) := peek ps [LPAR] in
      if negb open then Panic "parseblock"
      else
        let '(_, _, _, ps) := gettoken ps in
        r ← parseline fuel ps;
        let '(c, ps) := r in
        let '(close, ps) := peek ps [RPAR] in
        if negb close then Panic "syntax - missing )"
        else
          let '(_, _, _, ps) := gettoken ps in
          parseredirs c ps
  end.

(** [*p = 0] in the buffer whose string has length [n]. *)
Definition poke (n : nat) (p : ptr) (buf : list Z) : list Z := <[(n - length p)%nat := 0]> buf.

Fixpoint nulterminate (n : nat) (c : cmd) (buf : list Z) : list Z :=
  match c with
  | Exec argv => foldl (fun buf a => poke n a.2 buf) buf argv
  | Redir c _ efile _ _ => poke n efile (nulterminate n c buf)
  | Pipe l r => nulterminate n r (nulterminate n l buf)
  | List l r => nulterminate n r (nulterminate n l buf)
  | Back c => nulterminate n c buf
  end.

(** [parsecmd] on the string [s], which the buffer holds with its NUL. *)
Definition parsecmd (s : list Z) : res (cmd * list Z) :=
  r ← parseline (4 * length s + 4) s;
  let '(c, ps) := r in
  let '(_, ps) := peek ps [] in
  if (length ps =? 0)%nat then Ok (c, nulterminate (length s) c (s ++ [0]))
  else Panic "syntax".

(** ** Reading the result *)

(** The same tree with the C strings its pointers point to in the buffer. *)
Inductive tree :=
  | TExec (argv : list (list Z))
  | TRedir (c : tree) (file : list Z) (mode fd : Z)
  | TPipe (left right : tree)
  | TList (left right : tree)
  | TBack (c : tree).

Fixpoint upto_nul (s : list Z) : list Z :=
  match s with
  | [] => []
  | c :: s' => if c =? 0 then [] else c :: upto_nul s'
  end.
Definition cstring (n : nat) (buf : list Z) (p : ptr) : list Z := upto_nul (drop (n - length p) buf).

Fixpoint strings (n : nat) (buf : list Z) (c : cmd) : tree :=
  match c with
  | Exec argv => TExec ((fun a => cstring n buf a.1) <$> argv)
  | Redir c file _ mode fd => TRedir (strings n buf c) (cstring n buf file) mode fd
  | Pipe l r => TPipe (strings n buf l) (strings n buf r)
  | List l r => TList (strings n buf l) (strings n buf r)
  | Back c => TBack (strings n buf c)
  end.
End Sh.

Module ShFacts.
Import Sh.

(** ** Progress of the lexer *)

Lemma skip_while_le p s : (length (skip_while p s) <= length s)%nat.
Proof. induction s as [|c s IH]; simpl; [lia|]. destruct (p c); simpl; lia. Qed.

Lemma skip_while_head p s c s' : skip_while p s = c :: s' -> p c = false.
Proof.
  induction s as [|x s IH]; simpl; [discriminate|]. destruct (p x) eqn:E; [exact IH|].
  intros [= -> ->]. exact E.
Qed.

Lemma among_cons x set c : among (x :: set) c = (c =? x) || among set c.
Proof. reflexivity. Qed.

(** A character that starts a word is part of it. *)
Lemma word_start s c s' : skip_ws s = c :: s' ->
  among [BAR; LPAR; RPAR; SEMI; AMP; LT] c = false -> (c =? GT) = false -> plain c = true.
Proof.
  intros Hs Ha Hg. unfold plain. rewrite (skip_while_head _ _ _ _ Hs). simpl.
  unfold symbols. unfold among in *. simpl in *. fold LT BAR GT AMP SEMI LPAR RPAR in *.
  change 60 with LT. change 124 with BAR. change 62 with GT. change 38 with AMP.
  change 59 with SEMI. change 40 with LPAR. change 41 with RPAR.
  destruct (c =? LT), (c =? BAR), (c =? GT), (c =? AMP), (c =? SEMI), (c =? LPAR), (c =? RPAR);
    simpl in *; congruence.
Qed.

(** Where the next token starts, and that a token has been consumed. *)
Lemma gettoken_le ps : (length (gettoken ps).2 <= length ps)%nat.
Proof.
  unfold gettoken. pose proof (skip_while_le (among whitespace) ps) as H. fold skip_ws in H.
  set (s := skip_ws ps) in *.
  assert (Hw : forall z, (length (skip_ws z) <= length z)%nat) by (intros z; apply skip_while_le).
  assert (Ht : forall z : ptr, (length (tail z) <= length z)%nat) by (intros [|? ?]; simpl; lia).
  destruct (deref s =? 0); [cbn [snd]; specialize (Hw s); lia|].
  destruct (among [BAR; LPAR; RPAR; SEMI; AMP; LT] (deref s)).
  { cbn [snd]. specialize (Hw (tail s)). specialize (Ht s). lia. }
  destruct (deref s =? GT); cbn [snd].
  - destruct (deref (tail s) =? GT); cbn [snd].
    + specialize (Hw (tail (tail s))). pose proof (Ht (tail s)). specialize (Ht s). lia.
    + specialize (Hw (tail s)). specialize (Ht s). lia.
  - specialize (Hw (skip_while plain s)). pose proof (skip_while_le plain s). lia.
Qed.

Lemma gettoken_lt ps : deref (skip_ws ps) <> 0 -> (length (gettoken ps).2 < length ps)%nat.
Proof.
  intros Hd. unfold gettoken. pose proof (skip_while_le (among whitespace) ps) as H. fold skip_ws in H.
  destruct (skip_ws ps) as [|c s] eqn:Es; [contradiction|]. cbn [deref] in *.
  rewrite (proj2 (Z.eqb_neq c 0)) by exact Hd. simpl in H.
  assert (Hw : forall z, (length (skip_ws z) <= length z)%nat) by (intros z; apply skip_while_le).
  destruct (among [BAR; LPAR; RPAR; SEMI; AMP; LT] c) eqn:Ea; cbn [tail snd]; [specialize (Hw s); lia|].
  destruct (c =? GT) eqn:Eg; cbn [tail snd].
  - destruct (deref s =? GT); cbn [snd]; [|specialize (Hw s); lia].
    specialize (Hw (tail s)). destruct s; simpl in *; lia.
  - cbn [skip_while]. rewrite (word_start _ _ _ Es Ea Eg).
    specialize (Hw (skip_while plain s)). pose proof (skip_while_le plain s). lia.
Qed.

Lemma gettoken_zero ps : deref (skip_ws ps) = 0 <-> (gettoken ps).1.1.1 = 0.
Proof.
  unfold gettoken. destruct (deref (skip_ws ps) =? 0) eqn:E.
  - apply Z.eqb_eq in E. rewrite E. simpl. tauto.
  - apply Z.eqb_neq in E. destruct (among _ (deref (skip_ws ps))); [simpl; tauto|].
    destruct (deref (skip_ws ps) =? GT); [destruct (deref (tail (skip_ws ps)) =? GT)|]; simpl;
      try tauto; split; congruence || discriminate.
Qed.

Lemma skip_ws_idem s : skip_ws (skip_ws s) = skip_ws s.
Proof.
  unfold skip_ws. destruct (skip_while (among whitespace) s) as [|c s'] eqn:E; [reflexivity|].
  cbn [skip_while]. rewrite (skip_while_head _ _ _ _ E). reflexivity.
Qed.

Lemma peek_true ps toks s : peek ps toks = (true, s) ->
  s = skip_ws ps /\ deref (skip_ws s) <> 0 /\ (length s <= length ps)%nat.
Proof.
  unfold peek. intros [= E <-]. apply andb_true_iff in E as [E _].
  rewrite skip_ws_idem. apply negb_true_iff, Z.eqb_neq in E.
  repeat split; [exact E|apply skip_while_le].
Qed.

Lemma peek_le ps toks b s : peek ps toks = (b, s) -> s = skip_ws ps /\ (length s <= length ps)%nat.
Proof. unfold peek. intros [= _ <-]. split; [reflexivity|apply skip_while_le]. Qed.

(** ** Termination *)

Definition messages : list string :=
  ["missing file for redirection"; "syntax"; "too many args"; "parseblock"; "syntax - missing )"]%string.

(** The parser stopped, with at most [n] characters left or a complaint. *)
Definition finishes (n : nat) (r : res (cmd * ptr)) : Prop :=
  match r with
  | Ok (_, ps) => (length ps <= n)%nat
  | Panic m => m ∈ messages
  | _ => False
  end.

Lemma finishes_bind n (m : res (cmd * ptr)) f : finishes n m ->
  (forall c ps, (length ps <= n)%nat -> finishes n (f (c, ps))) -> finishes n (m ≫= f).
Proof. destruct m as [[c ps]| | |]; simpl; auto. Qed.

Lemma finishes_le n m r : finishes n r -> (n <= m)%nat -> finishes m r.
Proof. destruct r as [[c ps]| | |]; simpl; auto. lia. Qed.

Ltac in_messages := apply (bool_decide_eq_true_1 _); reflexivity.

Lemma redirs_finish fuel c ps : (length ps < fuel)%nat -> finishes (length ps) (redirs_loop fuel c ps).
Proof.
  revert c ps. induction fuel as [|fuel IH]; intros c ps Hf; [lia|]. cbn [redirs_loop].
  destruct (peek ps [LT; GT]) as [[] s] eqn:Ep; cbn [negb].
  - apply peek_true in Ep as (_ & Hd & Hl). pose proof (gettoken_lt s Hd) as H1.
    destruct (gettoken s) as [[[tok q] eq] s1]. pose proof (gettoken_le s1) as H2.
    destruct (gettoken s1) as [[[word q'] eq'] s2]. cbn [snd] in *.
    destruct (word =? WORD); cbn [negb]; [|simpl; in_messages].
    eapply finishes_le; [apply IH; lia|lia].
  - apply peek_le in Ep as [_ Hl]. exact Hl.
Qed.

Lemma parseredirs_finish c ps : finishes (length ps) (parseredirs c ps).
Proof. apply redirs_finish. lia. Qed.

Lemma args_finish fuel ret argc ps : (length ps < fuel)%nat ->
  finishes (length ps) (args_loop fuel ret argc ps).
Proof.
  revert ret argc ps. induction fuel as [|fuel IH]; intros ret argc ps Hf; [lia|]. cbn [args_loop].
  destruct (peek ps [BAR; RPAR; AMP; SEMI]) as [stop s] eqn:Ep. apply peek_le in Ep as [_ Hl].
  destruct stop; [exact Hl|]. pose proof (gettoken_lt s) as H1. pose proof (gettoken_le s) as H2.
  pose proof (proj1 (gettoken_zero s)) as H3.
  destruct (gettoken s) as [[[tok q] eq] s1]. cbn [fst snd] in *.
  destruct (Z.eqb_spec tok 0) as [->|Ht]; [simpl; lia|].
  assert (length s1 < length s)%nat by auto.
  destruct (tok =? WORD); cbn [negb]; [|simpl; in_messages].
  destruct (MAXARGS <=? argc + 1); [simpl; in_messages|].
  eapply finishes_le; [|instantiate (1 := length s1); lia].
  apply finishes_bind; [apply parseredirs_finish|]. intros c' s2 Hs2. 
  eapply finishes_le; [apply IH; lia|exact Hs2].
Qed.

(** More fuel than characters does not change the result. *)
Lemma args_fuel fuel : forall fuel' ret argc ps, (length ps < fuel)%nat -> (length ps < fuel')%nat ->
  args_loop fuel ret argc ps = args_loop fuel' ret argc ps.
Proof.
  induction fuel as [|fuel IH]; intros [|fuel'] ret argc ps Hf Hf'; try lia. cbn [args_loop].
  destruct (peek ps [BAR; RPAR; AMP; SEMI]) as [stop s] eqn:Ep. apply peek_le in Ep as [_ Hl].
  destruct stop; [reflexivity|]. pose proof (gettoken_lt s) as H1.
  pose proof (proj1 (gettoken_zero s)) as H3.
  destruct (gettoken s) as [[[tok q] eq] s1]. cbn [fst snd] in *.
  destruct (Z.eqb_spec tok 0) as [->|Ht]; [reflexivity|].
  assert (length s1 < length s)%nat by auto.
  destruct (tok =? WORD); cbn [negb]; [|reflexivity].
  destruct (MAXARGS <=? argc + 1); [reflexivity|].
  pose proof (parseredirs_finish (add_arg q eq ret) s1) as Hfin.
  destruct (parseredirs (add_arg q eq ret) s1) as [[c ps1]| | |]; try reflexivity.
  simpl in Hfin |- *. apply IH; lia.
Qed.

Lemma back_finish fuel c ps : (length ps < fuel)%nat -> finishes (length ps) (back_loop fuel c ps).
Proof.
  revert c ps. induction fuel as [|fuel IH]; intros c ps Hf; [lia|]. cbn [back_loop].
  destruct (peek ps [AMP]) as [[] s] eqn:Ep; cbn [negb].
  - apply peek_true in Ep as (_ & Hd & Hl). pose proof (gettoken_lt s Hd) as H1.
    destruct (gettoken s) as [[[tok q] eq] s1]. cbn [snd] in *.
    eapply finishes_le; [apply IH; lia|lia].
  - apply peek_le in Ep as [_ Hl]. exact Hl.
Qed.

(** After a token that was seen, the rest of the line is shorter. *)
Lemma token_rest ps toks s : peek ps toks = (true, s) -> (length (gettoken s).2 < length ps)%nat.
Proof. intros H. apply peek_true in H as (_ & Hd & Hl). pose proof (gettoken_lt s Hd). lia. Qed.

Definition all_finish (fuel : nat) : Prop := forall ps,
  ((4 * length ps + 4 <= fuel)%nat -> finishes (length ps) (parseline fuel ps)) /\
  ((4 * length ps + 3 <= fuel)%nat -> finishes (length ps) (parsepipe fuel ps)) /\
  ((4 * length ps + 2 <= fuel)%nat -> finishes (length ps) (parseexec fuel ps)) /\
  ((4 * length ps + 1 <= fuel)%nat -> finishes (length ps) (parseblock fuel ps)).

Lemma parseline_finish fuel ps : all_finish fuel -> (4 * length ps + 4 <= S fuel)%nat ->
  finishes (length ps) (parseline (S fuel) ps).
Proof.
  intros IH Hf. cbn [parseline]. apply finishes_bind; [apply IH; lia|]. intros c s Hs.
  apply finishes_bind; [eapply finishes_le; [apply back_finish|exact Hs]; lia|]. intros c1 s1 Hs1.
  destruct (peek s1 [SEMI]) as [[] s2] eqn:Ep.
  - pose proof (token_rest _ _ _ Ep) as Hr. destruct (gettoken s2) as [[[? ?] ?] s3]. cbn [snd] in Hr.
    apply finishes_bind; [eapply finishes_le; [apply IH|]; lia|]. intros c2 s4 Hs4. exact Hs4.
  - apply peek_le in Ep as [_ Hl]. simpl. lia.
Qed.

Lemma parsepipe_finish fuel ps : all_finish fuel -> (4 * length ps + 3 <= S fuel)%nat ->
  finishes (length ps) (parsepipe (S fuel) ps).
Proof.
  intros IH Hf. cbn [parsepipe]. apply finishes_bind; [apply IH; lia|]. intros c s Hs.
  destruct (peek s [BAR]) as [[] s2] eqn:Ep.
  - pose proof (token_rest _ _ _ Ep) as Hr. destruct (gettoken s2) as [[[? ?] ?] s3]. cbn [snd] in Hr.
    apply finishes_bind; [eapply finishes_le; [apply IH|]; lia|]. intros c2 s4 Hs4. exact Hs4.
  - apply peek_le in Ep as [_ Hl]. simpl. lia.
Qed.

Lemma parseexec_finish fuel ps : all_finish fuel -> (4 * length ps + 2 <= S fuel)%nat ->
  finishes (length ps) (parseexec (S fuel) ps).
Proof.
  intros IH Hf. cbn [parseexec]. destruct (peek ps [LPAR]) as [b s] eqn:Ep.
  apply peek_le in Ep as [_ Hl]. destruct b.
  - eapply finishes_le; [apply IH|]; lia.
  - eapply finishes_le; [|exact Hl]. apply finishes_bind; [apply parseredirs_finish|].
    intros c s1 Hs1. eapply finishes_le; [apply args_finish|]; lia.
Qed.

Lemma parseblock_finish fuel ps : all_finish fuel -> (4 * length ps + 1 <= S fuel)%nat ->
  finishes (length ps) (parseblock (S fuel) ps).
Proof.
  intros IH Hf. cbn [parseblock]. destruct (peek ps [LPAR]) as [[] s] eqn:Ep; cbn [negb];
    [|simpl; in_messages].
  pose proof (token_rest _ _ _ Ep) as Hr. destruct (gettoken s) as [[[? ?] ?] s3]. cbn [snd] in Hr.
  apply finishes_bind; [eapply finishes_le; [apply IH|]; lia|]. intros c s4 Hs4.
  destruct (peek s4 [RPAR]) as [[] s5] eqn:Ep2; cbn [negb]; [|simpl; in_messages].
  pose proof (token_rest _ _ _ Ep2) as Hr2. destruct (gettoken s5) as [[[? ?] ?] s6]. cbn [snd] in Hr2.
  eapply finishes_le; [apply parseredirs_finish|lia].
Qed.

Lemma parse_finish fuel : all_finish fuel.
Proof.
  induction fuel as [|fuel IH]; intros ps.
  - repeat split; lia.
  - auto 6 using parseline_finish, parsepipe_finish, parseexec_finish, parseblock_finish.
Qed.
End ShFacts.

(** * Concrete syntax of a command tree *)
Module Syntax.
Import Sh.

Inductive token :=
  | TW (w : list Z)
  | TS (c : Z).
Definition token_text (t : token) : list Z := match t with TW w => w | TS c => [c] end.

(** Tokens are written with a blank after each. *)
Fixpoint text (ts : list token) : list Z :=
  match ts with
  | [] => []
  | t :: ts' => token_text t ++ 32 :: text ts'
  end.

Definition redir_token (mode : Z) : Z := if mode =? O_RDONLY then LT else GT.

(** Where a tree is written: as a whole line, as an operand of [&] or [;], of a
    pipe on its right, or as a simple command or block. *)
Inductive level := Line | Bg | Stage | Simple.

Definition block (ts : list token) : list token := TS LPAR :: ts ++ [TS RPAR].

Fixpoint tokens (lv : level) (t : tree) : list token :=
  match t with
  | TExec argv => TW <$> argv
  | TRedir c file mode _ => tokens Simple c ++ [TS (redir_token mode); TW file]
  | TPipe l r =>
      let ts := tokens Simple l ++ TS BAR :: tokens Stage r in
      match lv with Simple => block ts | _ => ts end
  | TBack c =>
      let ts := tokens Bg c ++ [TS AMP] in
      match lv with Line | Bg => ts | _ => block ts end
  | TList l r =>
      let ts := tokens Bg l ++ TS SEMI :: tokens Line r in
      match lv with Line => ts | _ => block ts end
  end.

Definition good_word (w : list Z) : Prop := w <> [] /\ Forall (fun c => plain c = true /\ c <> 0) w.

(** The trees the shell can build: fewer arguments than slots, nonempty words
    of plain characters, and the two kinds of redirection. *)
Fixpoint good_tree (t : tree) : Prop :=
  match t with
  | TExec argv => Z.of_nat (length argv) < MAXARGS /\ Forall good_word argv
  | TRedir c file mode fd =>
      good_tree c /\ good_word file /\
      ((mode = O_RDONLY /\ fd = 0) \/ (mode = Z.lor O_WRONLY O_CREATE /\ fd = 1))
  | TPipe l r => good_tree l /\ good_tree r
  | TList l r => good_tree l /\ good_tree r
  | TBack c => good_tree c
  end.
End Syntax.

Module SyntaxFacts.
Import Sh ShFacts Syntax.

(** ** Lexing of token texts *)

Definition good_token (t : token) : Prop :=
  match t with TW w => good_word w | TS c => among symbols c = true end.

Lemma plain_spec c : plain c = true <-> among whitespace c = false /\ among symbols c = false.
Proof. unfold plain. rewrite andb_true_iff, !negb_true_iff. reflexivity. Qed.

(** A symbol is not a blank. *)
Lemma symbol_cases c : among symbols c = true ->
  c = LT \/ c = BAR \/ c = GT \/ c = AMP \/ c = SEMI \/ c = LPAR \/ c = RPAR.
Proof.
  unfold among. intros H. apply existsb_exists in H as (x & Hx & E). apply Z.eqb_eq in E as <-.
  simpl in Hx. unfold LT, BAR, GT, AMP, SEMI, LPAR, RPAR. lia.
Qed.

Lemma skip_text ts : Forall good_token ts -> skip_ws (text ts) = text ts.
Proof.
  destruct 1 as [|[w|c] ts Ht _]; [reflexivity| |].
  - destruct Ht as [Hn Hw]. destruct w as [|c w]; [contradiction|].
    inversion Hw as [|? ? [Hc _] _]; subst. apply plain_spec in Hc as [Hc _].
    unfold skip_ws. simpl. rewrite Hc. reflexivity.
  - apply symbol_cases in Ht. unfold skip_ws. simpl.
    destruct Ht as [-> | [-> | [-> | [-> | [-> | [-> | ->]]]]]]; reflexivity.
Qed.

Lemma skip_blank ts : Forall good_token ts -> skip_ws (32 :: text ts) = text ts.
Proof. intros H. unfold skip_ws. simpl. apply skip_text, H. Qed.

Lemma skip_plain w z : Forall (fun c => plain c = true /\ c <> 0) w -> skip_while plain (w ++ 32 :: z) = 32 :: z.
Proof.
  induction 1 as [|c w [Hc _] _ IH]; [reflexivity|]. simpl. rewrite Hc. exact IH.
Qed.

Lemma gettoken_word w ts : good_word w -> Forall good_token ts ->
  gettoken (text (TW w :: ts)) = (WORD, text (TW w :: ts), 32 :: text ts, text ts).
Proof.
  intros Hw Hts. unfold gettoken. rewrite skip_text by (constructor; assumption).
  destruct Hw as [Hn Hw]. cbn [text token_text]. 
  destruct w as [|c w]; [contradiction|]. cbn [app deref].
  inversion Hw as [|? ? [Hc H0] _]; subst. rewrite (proj2 (Z.eqb_neq c 0)) by exact H0.
  assert (Hs : among symbols c = false) by (apply plain_spec in Hc; apply Hc).
  assert (Ha : among [BAR; LPAR; RPAR; SEMI; AMP; LT] c = false /\ (c =? GT) = false).
  { unfold symbols, among in *. simpl in *. unfold BAR, LPAR, RPAR, SEMI, AMP, LT, GT.
    repeat (apply orb_false_iff in Hs as [? Hs]). rewrite !orb_false_iff. auto 10. }
  destruct Ha as [-> ->]. change (c :: w ++ 32 :: text ts) with ((c :: w) ++ 32 :: text ts).
  rewrite skip_plain, skip_blank by assumption. reflexivity.
Qed.

Lemma gettoken_symbol c ts : among symbols c = true -> Forall good_token ts ->
  gettoken (text (TS c :: ts)) = (c, text (TS c :: ts), 32 :: text ts, text ts).
Proof.
  intros Hc Hts. unfold gettoken. rewrite skip_text by (constructor; assumption).
  cbn [text token_text app deref]. apply symbol_cases in Hc.
  destruct Hc as [-> | [-> | [-> | [-> | [-> | [-> | ->]]]]]]; unfold among; simpl;
    rewrite skip_blank by assumption; reflexivity.
Qed.

(** The first character of a text decides what [peek] sees. *)
Definition starts (set : list Z) (ts : list token) : bool :=
  match ts with TS c :: _ => among set c | _ => false end.

Lemma peek_text set ts : Forall good_token ts -> forallb (among symbols) set = true ->
  peek (text ts) set = (starts set ts, text ts).
Proof.
  intros H Hset. unfold peek. rewrite skip_text by exact H. f_equal.
  assert (Hin : forall c, among set c = true -> among symbols c = true).
  { intros c Hc. apply existsb_exists in Hc as (x & Hx & E). apply Z.eqb_eq in E as <-.
    rewrite forallb_forall in Hset. apply Hset, Hx. }
  destruct H as [|[w|c] ts Ht _]; [reflexivity| |]; cbn [starts text token_text].
  - destruct Ht as [Hn Hw]. destruct w as [|c w]; [contradiction|]. cbn [app deref].
    inversion Hw as [|? ? [Hc H0] _]; subst. apply plain_spec in Hc as [_ Hc].
    destruct (among set c) eqn:E; [rewrite (Hin _ E) in Hc; discriminate|apply andb_false_r].
  - cbn [app deref]. apply symbol_cases in Ht.
    destruct Ht as [-> | [-> | [-> | [-> | [-> | [-> | ->]]]]]]; reflexivity.
Qed.

Lemma tokens_good lv t : good_tree t -> Forall good_token (tokens lv t).
Proof.
  assert (Hb : forall ts, Forall good_token ts -> Forall good_token (block ts)).
  { intros ts H. constructor; [reflexivity|]. apply Forall_app. split; [exact H|].
    repeat constructor. }
  revert lv. induction t as [argv|c IH file mode fd|l IHl r IHr|l IHl r IHr|c IH]; intros lv; simpl.
  - intros [_ H]. apply Forall_fmap. exact H.
  - intros (Hc & Hf & _). apply Forall_app. split; [apply IH, Hc|].
    repeat constructor; try apply Hf. simpl. unfold redir_token. destruct (mode =? O_RDONLY); reflexivity.
  - intros [Hl Hr]. assert (Forall good_token (tokens Simple l ++ TS BAR :: tokens Stage r)).
    { apply Forall_app. split; [apply IHl, Hl|]. constructor; [reflexivity|apply IHr, Hr]. }
    destruct lv; auto.
  - intros [Hl Hr]. assert (Forall good_token (tokens Bg l ++ TS SEMI :: tokens Line r)).
    { apply Forall_app. split; [apply IHl, Hl|]. constructor; [reflexivity|apply IHr, Hr]. }
    destruct lv; auto.
  - intros Hc. assert (Forall good_token (tokens Bg c ++ [TS AMP])).
    { apply Forall_app. split; [apply IH, Hc|]. repeat constructor. }
    destruct lv; auto.
Qed.

Lemma text_app ts ts' : text (ts ++ ts') = text ts ++ text ts'.
Proof. induction ts as [|t ts IH]; simpl; [reflexivity|]. rewrite IH, <- app_assoc. reflexivity. Qed.

Lemma length_text_app ts ts' : length (text (ts ++ ts')) = (length (text ts) + length (text ts'))%nat.
Proof. rewrite text_app. apply length_app. Qed.

Lemma length_text_cons t ts : (length (text ts) < length (text (t :: ts)))%nat.
Proof. simpl. rewrite length_app. simpl. lia. Qed.

(** ** What the parser builds *)

Section parsing.
Context (s : list Z).

(** The line [s] ends with the text of [ts]. *)
Definition rest_is (ts : list token) : Prop := Forall good_token ts /\ exists pre, s = pre ++ text ts.

Lemma rest_is_app ts ts' : rest_is (ts ++ ts') -> rest_is ts'.
Proof.
  intros [Hg [pre E]]. apply Forall_app in Hg as [_ Hg]. split; [exact Hg|].
  exists (pre ++ text ts). rewrite E, text_app. apply app_assoc.
Qed.

Lemma rest_is_cons t ts : rest_is (t :: ts) -> rest_is ts.
Proof. apply (rest_is_app [t]). Qed.

(** The pointers [q] and [eq] delimit the word [w] in the line. *)
Definition word_at (q eq : ptr) (w : list Z) : Prop :=
  good_word w /\ q = w ++ eq /\ deref eq = 32 /\ exists pre, s = pre ++ q.

Fixpoint repr (c : cmd) (t : tree) : Prop :=
  match c, t with
  | Exec argv, TExec ws => Forall2 (fun a w => word_at a.1 a.2 w) argv ws
  | Redir c q eq mode fd, TRedir t file mode' fd' =>
      repr c t /\ word_at q eq file /\ mode = mode' /\ fd = fd'
  | Pipe l r, TPipe l' r' => repr l l' /\ repr r r'
  | List l r, TList l' r' => repr l l' /\ repr r r'
  | Back c, TBack t => repr c t
  | _, _ => False
  end.

Lemma rest_word w ts : rest_is (TW w :: ts) ->
  gettoken (text (TW w :: ts)) = (WORD, text (TW w :: ts), 32 :: text ts, text ts) /\
  word_at (text (TW w :: ts)) (32 :: text ts) w.
Proof.
  intros [Hg [pre E]]. inversion Hg as [|? ? Hw Hts]; subst.
  split; [apply gettoken_word; assumption|].
  split; [exact Hw|]. repeat split. exists pre. exact E.
Qed.

Lemma rest_symbol c ts : rest_is (TS c :: ts) ->
  gettoken (text (TS c :: ts)) = (c, text (TS c :: ts), 32 :: text ts, text ts).
Proof. intros [Hg _]. inversion Hg; subst. apply gettoken_symbol; assumption. Qed.

Lemma rest_peek set ts : rest_is ts -> forallb (among symbols) set = true ->
  peek (text ts) set = (starts set ts, text ts).
Proof. intros [Hg _]. apply peek_text, Hg. Qed.

(** ** Redirections *)

Definition redir := (list Z * Z * Z)%type.
Definition good_redir (r : redir) : Prop :=
  let '(file, mode, fd) := r in
  good_word file /\
  ((mode = O_RDONLY /\ fd = 0) \/ (mode = Z.lor O_WRONLY O_CREATE /\ fd = 1)).
Fixpoint redir_tokens (rs : list redir) : list token :=
  match rs with
  | [] => []
  | (file, mode, _) :: rs' => TS (redir_token mode) :: TW file :: redir_tokens rs'
  end.
Definition wrap (t : tree) (rs : list redir) : tree :=
  foldl (fun t '(file, mode, fd) => TRedir t file mode fd) t rs.

Lemma redirs_text rs : forall fuel c t rest,
  repr c t -> Forall good_redir rs -> rest_is (redir_tokens rs ++ rest) ->
  starts [LT; GT] rest = false -> (length (text (redir_tokens rs ++ rest)) < fuel)%nat ->
  exists c', redirs_loop fuel c (text (redir_tokens rs ++ rest)) = Ok (c', text rest) /\
    repr c' (wrap t rs).
Proof.
  induction rs as [|[[file mode] fd] rs IH]; intros fuel c t rest Hc Hrs Hat Hs Hf;
    (destruct fuel as [|fuel]; [lia|]); cbn [redirs_loop redir_tokens app] in *;
    rewrite rest_peek by (exact Hat || reflexivity).
  - rewrite Hs. exists c. auto.
  - inversion Hrs as [|? ? Hr Hrs']; subst. unfold good_redir in Hr. destruct Hr as [Hw Hm].
    assert (starts [LT; GT] (TS (redir_token mode) :: TW file :: redir_tokens rs ++ rest) = true) as ->.
    { simpl. unfold redir_token. destruct (mode =? O_RDONLY); reflexivity. }
    cbn [negb]. rewrite rest_symbol by exact Hat. apply rest_is_cons in Hat.
    pose proof (length_text_cons (TS (redir_token mode)) (TW file :: redir_tokens rs ++ rest)).
    pose proof (length_text_cons (TW file) (redir_tokens rs ++ rest)).
    destruct (rest_word _ _ Hat) as [-> Hwa]. apply rest_is_cons in Hat.
    change (WORD =? WORD) with true. cbn [negb].
    apply IH; [|assumption|assumption|assumption|lia].
    destruct Hm as [[-> ->]|[-> ->]]; (split; [exact Hc|]); (split; [exact Hwa|]); split; reflexivity.
Qed.

Lemma parseredirs_text rs c t rest :
  repr c t -> Forall good_redir rs -> rest_is (redir_tokens rs ++ rest) ->
  starts [LT; GT] rest = false ->
  exists c', parseredirs c (text (redir_tokens rs ++ rest)) = Ok (c', text rest) /\ repr c' (wrap t rs).
Proof. intros. apply redirs_text; auto. Qed.

(** ** Simple commands *)

(** What may follow a simple command. *)
Definition ends (set : list Z) (rest : list token) : Prop := rest = [] \/ starts set rest = true.

Lemma ends_starts set set' rest : ends set rest -> forallb (fun c => negb (among set' c)) set = true ->
  starts set' rest = false.
Proof.
  intros [->|H] Hd; [reflexivity|]. destruct rest as [|[w|c] rest]; try discriminate. simpl in *.
  apply existsb_exists in H as (x & Hx & E). apply Z.eqb_eq in E as <-.
  rewrite forallb_forall in Hd. apply negb_true_iff, Hd, Hx.
Qed.

Lemma ends_weaken set set' rest : ends set rest -> forallb (among set') set = true -> ends set' rest.
Proof.
  intros [->|H] Hd; [left; reflexivity|]. right. destruct rest as [|[w|c] rest]; try discriminate.
  simpl in *. apply existsb_exists in H as (x & Hx & E). apply Z.eqb_eq in E as <-.
  rewrite forallb_forall in Hd. apply Hd, Hx.
Qed.

(** The arguments, then the redirections: [ret] is the node built so far. *)
Lemma args_text ws : forall fuel argv ws0 rs argc rest,
  Forall2 (fun a w => word_at a.1 a.2 w) argv ws0 -> Forall good_redir rs ->
  argc = Z.of_nat (length ws0) -> Z.of_nat (length ws0 + length ws) < MAXARGS ->
  rest_is ((TW <$> ws) ++ redir_tokens rs ++ rest) -> ends [BAR; RPAR; AMP; SEMI] rest ->
  (length (text ((TW <$> ws) ++ redir_tokens rs ++ rest)) < fuel)%nat ->
  exists c, (r ← parseredirs (Exec argv) (text ((TW <$> ws) ++ redir_tokens rs ++ rest));
             let '(ret, ps) := r in args_loop fuel ret argc ps) = Ok (c, text rest) /\
    repr c (wrap (TExec (ws0 ++ ws)) rs).
Proof.
  induction ws as [|w ws IH]; intros fuel argv ws0 rs argc rest Ha Hrs Hn Hm Hat He Hf.
  - simpl in *. rewrite app_nil_r.
    destruct (parseredirs_text rs (Exec argv) (TExec ws0) rest) as (c & -> & Hc);
      [exact Ha|exact Hrs|exact Hat|eapply ends_starts; [exact He|reflexivity]|].
    exists c. split; [|exact Hc]. apply rest_is_app in Hat. destruct fuel as [|fuel]; [lia|].
    unfold mbind, res_bind. cbn [args_loop]. rewrite rest_peek by (exact Hat || reflexivity).
    destruct He as [->|He]; [reflexivity|]. rewrite He. reflexivity.
  - destruct (parseredirs_text [] (Exec argv) (TExec ws0) ((TW <$> w :: ws) ++ redir_tokens rs ++ rest))
      as (c & E & Hc); [exact Ha|constructor|exact Hat|reflexivity|].
    cbn [redir_tokens] in E. rewrite app_nil_l in E. rewrite E. simpl in Hc. unfold mbind at 1, res_bind at 1.
    assert (c = Exec argv) as ->.
    { unfold parseredirs in E. cbn [redirs_loop] in E.
      rewrite rest_peek in E by (exact Hat || reflexivity). simpl in E. congruence. }
    destruct fuel as [|fuel]; [lia|]. cbn [args_loop]. rewrite rest_peek by (exact Hat || reflexivity).
    rewrite fmap_cons in *. cbn [app starts] in *.
    destruct (rest_word _ _ Hat) as [-> Hwa]. change (WORD =? 0) with false. change (WORD =? WORD) with true.
    cbn [negb add_arg length] in *. rewrite (proj2 (Z.leb_gt MAXARGS (argc + 1))) by lia.
    pose proof (length_text_cons (TW w) ((TW <$> ws) ++ redir_tokens rs ++ rest)).
    replace (ws0 ++ w :: ws) with ((ws0 ++ [w]) ++ ws) by (rewrite <- app_assoc; reflexivity).
    apply IH; [|exact Hrs| | |apply rest_is_cons in Hat; exact Hat|exact He|lia].
    + apply Forall2_app; [exact Ha|]. constructor; [exact Hwa|constructor].
    + rewrite length_app. simpl. lia.
    + rewrite length_app. simpl. lia.
Qed.

(** ** The four levels *)

Definition simple_ok (t : tree) : Prop := forall rs fuel rest,
  Forall good_redir rs -> rest_is (tokens Simple t ++ redir_tokens rs ++ rest) ->
  ends [BAR; RPAR; AMP; SEMI] rest ->
  (4 * length (text (tokens Simple t ++ redir_tokens rs ++ rest)) + 2 <= fuel)%nat ->
  exists c, parseexec fuel (text (tokens Simple t ++ redir_tokens rs ++ rest)) = Ok (c, text rest) /\
    repr c (wrap t rs).

Definition stage_ok (t : tree) : Prop := forall fuel rest,
  rest_is (tokens Stage t ++ rest) -> ends [RPAR; AMP; SEMI] rest ->
  (4 * length (text (tokens Stage t ++ rest)) + 3 <= fuel)%nat ->
  exists c, parsepipe fuel (text (tokens Stage t ++ rest)) = Ok (c, text rest) /\ repr c t.

(** After the pipeline the loop over [&] arrives at the tree and the rest. *)
Definition bg_ok (t : tree) : Prop := forall fuel rest,
  rest_is (tokens Bg t ++ rest) -> ends [RPAR; AMP; SEMI] rest ->
  (4 * length (text (tokens Bg t ++ rest)) + 3 <= fuel)%nat ->
  exists c0 ps0 c, parsepipe fuel (text (tokens Bg t ++ rest)) = Ok (c0, ps0) /\ repr c t /\
    forall f, (length ps0 < f)%nat -> exists f', (length (text rest) < f')%nat /\
      back_loop f c0 ps0 = back_loop f' c (text rest).

Definition line_ok (t : tree) : Prop := forall fuel rest,
  rest_is (tokens Line t ++ rest) -> ends [RPAR] rest ->
  (4 * length (text (tokens Line t ++ rest)) + 4 <= fuel)%nat ->
  exists c, parseline fuel (text (tokens Line t ++ rest)) = Ok (c, text rest) /\ repr c t.

Lemma back_stop f c rest : rest_is rest -> starts [AMP] rest = false ->
  (0 < f)%nat -> back_loop f c (text rest) = Ok (c, text rest).
Proof.
  intros Hr Hs Hf. destruct f as [|f]; [lia|]. cbn [back_loop].
  rewrite rest_peek by (exact Hr || reflexivity). rewrite Hs. reflexivity.
Qed.

Lemma simple_exec argv : good_tree (TExec argv) -> simple_ok (TExec argv).
Proof.
  intros [Hn Hw] rs fuel rest Hrs Hat He Hf. cbn [tokens] in *.
  destruct fuel as [|fuel]; [lia|]. cbn [parseexec].
  rewrite rest_peek by (exact Hat || reflexivity).
  assert (starts [LPAR] ((TW <$> argv) ++ redir_tokens rs ++ rest) = false) as ->.
  { destruct argv; [|reflexivity]. destruct rs as [|[[file mode] fd] rs].
    - eapply ends_starts; [exact He|reflexivity].
    - simpl. unfold redir_token. destruct (mode =? O_RDONLY); reflexivity. }
  pose proof (parseredirs_finish (Exec []) (text ((TW <$> argv) ++ redir_tokens rs ++ rest))) as Hfin.
  set (T := text ((TW <$> argv) ++ redir_tokens rs ++ rest)) in *.
  destruct (args_text argv (S (length T)) [] [] rs 0 rest) as (c & E & Hc); auto.
  exists c. split; [|exact Hc]. rewrite <- E. fold T. unfold mbind, res_bind.
  destruct (parseredirs (Exec []) T) as [[c1 ps1]| | |] eqn:Ep; try reflexivity.
  simpl in Hfin. apply args_fuel; lia.
Qed.

Lemma simple_redir c file mode fd : good_tree (TRedir c file mode fd) ->
  simple_ok c -> simple_ok (TRedir c file mode fd).
Proof.
  intros (_ & Hg) Hc rs fuel rest Hrs. cbn [tokens].
  rewrite <- app_assoc. cbn [app]. apply (Hc ((file, mode, fd) :: rs)). constructor; assumption.
Qed.

(** A block is parsed by [parseblock], which parses its inside as a line. *)
Lemma simple_of_line t : tokens Simple t = block (tokens Line t) -> line_ok t -> simple_ok t.
Proof.
  intros Et Hl rs fuel rest Hrs Hat He Hf. rewrite Et in *. unfold block in *.
  cbn [app] in *. rewrite <- app_assoc in *. cbn [app] in *.
  set (ts := redir_tokens rs ++ rest) in *.
  destruct fuel as [|[|fuel]]; [lia|lia|]. cbn [parseexec].
  rewrite rest_peek by (exact Hat || reflexivity). cbn [starts]. change (among [LPAR] LPAR) with true.
  cbv iota. cbn [parseblock]. rewrite rest_peek by (exact Hat || reflexivity). cbn [starts].
  change (among [LPAR] LPAR) with true. cbn [negb]. rewrite rest_symbol by exact Hat.
  pose proof (length_text_cons (TS LPAR) (tokens Line t ++ TS RPAR :: ts)).
  apply rest_is_cons in Hat.
  destruct (Hl fuel (TS RPAR :: ts)) as (c & -> & Hc); [exact Hat|right; reflexivity|lia|].
  apply rest_is_app in Hat. unfold mbind, res_bind. cbv iota beta.
  rewrite rest_peek by (exact Hat || reflexivity). cbn [starts]. change (among [RPAR] RPAR) with true.
  cbn [negb]. rewrite rest_symbol by exact Hat. apply rest_is_cons in Hat.
  apply parseredirs_text; auto. eapply ends_starts; [exact He|reflexivity].
Qed.

Lemma stage_of_simple t : tokens Stage t = tokens Simple t -> simple_ok t -> stage_ok t.
Proof.
  intros Et Hs fuel rest Hat He Hf. rewrite Et in *. destruct fuel as [|fuel]; [lia|]. cbn [parsepipe].
  destruct (Hs [] fuel rest) as (c & E & Hc);
    [constructor|exact Hat|eapply ends_weaken; [exact He|reflexivity]|simpl; lia|].
  simpl in E. rewrite E. unfold mbind, res_bind. apply rest_is_app in Hat.
  rewrite rest_peek by (exact Hat || reflexivity).
  rewrite (ends_starts [RPAR; AMP; SEMI] [BAR] rest He eq_refl). exists c. auto.
Qed.

Lemma stage_pipe l r : simple_ok l -> stage_ok r -> stage_ok (TPipe l r).
Proof.
  intros Hl Hr fuel rest Hat He Hf. cbn [tokens] in *. rewrite <- app_assoc in *. cbn [app] in *.
  destruct fuel as [|fuel]; [lia|]. cbn [parsepipe].
  set (ts := TS BAR :: tokens Stage r ++ rest) in *.
  destruct (Hl [] fuel ts) as (cl & E & Hcl); [constructor|exact Hat|right; reflexivity|simpl; lia|].
  cbn [redir_tokens] in E. rewrite app_nil_l in E. rewrite E.
  unfold mbind at 1, res_bind at 1. pose proof (length_text_app (tokens Simple l) ts).
  apply rest_is_app in Hat. rewrite rest_peek by (exact Hat || reflexivity). subst ts. cbn [starts].
  change (among [BAR] BAR) with true. cbv iota. rewrite rest_symbol by exact Hat.
  pose proof (length_text_cons (TS BAR) (tokens Stage r ++ rest)). apply rest_is_cons in Hat.
  destruct (Hr fuel rest) as (cr & -> & Hcr); [exact Hat|exact He|lia|].
  exists (Pipe cl cr). split; [reflexivity|]. split; assumption.
Qed.

Lemma bg_of_stage t : tokens Bg t = tokens Stage t -> stage_ok t -> bg_ok t.
Proof.
  intros Et Hs fuel rest Hat He Hf. rewrite Et in *. destruct (Hs fuel rest Hat He Hf) as (c & -> & Hc).
  exists c, (text rest), c. split; [reflexivity|]. split; [exact Hc|]. intros f Hl. exists f. auto.
Qed.

Lemma bg_back t : bg_ok t -> bg_ok (TBack t).
Proof.
  intros Hb fuel rest Hat He Hf. cbn [tokens] in *. rewrite <- app_assoc in *. cbn [app] in *.
  destruct (Hb fuel (TS AMP :: rest)) as (c0 & ps0 & c & -> & Hc & Hloop); [exact Hat|right; reflexivity|lia|].
  exists c0, ps0, (Back c). split; [reflexivity|]. split; [exact Hc|]. intros f Hl.
  destruct (Hloop f Hl) as (f' & Hf' & ->). apply rest_is_app in Hat.
  destruct f' as [|f']; [lia|]. pose proof (length_text_cons (TS AMP) rest).
  exists f'. split; [lia|]. cbn [back_loop]. rewrite rest_peek by (exact Hat || reflexivity).
  cbn [starts]. change (among [AMP] AMP) with true. cbn [negb]. rewrite rest_symbol by exact Hat.
  reflexivity.
Qed.

(** The part of [parseline] before the semicolon. *)
Lemma line_head t fuel rest : bg_ok t -> rest_is (tokens Bg t ++ rest) -> ends [RPAR; SEMI] rest ->
  (4 * length (text (tokens Bg t ++ rest)) + 3 <= fuel)%nat ->
  exists c0 ps0 c, parsepipe fuel (text (tokens Bg t ++ rest)) = Ok (c0, ps0) /\ repr c t /\
    back_loop (S (length ps0)) c0 ps0 = Ok (c, text rest).
Proof.
  intros Hb Hat He Hf.
  destruct (Hb fuel rest) as (c0 & ps0 & c & E & Hc & Hloop);
    [exact Hat|eapply ends_weaken; [exact He|reflexivity]|exact Hf|].
  exists c0, ps0, c. split; [exact E|]. split; [exact Hc|].
  destruct (Hloop (S (length ps0))) as (f' & Hf' & ->); [lia|]. apply rest_is_app in Hat.
  apply back_stop; [exact Hat|eapply ends_starts; [exact He|reflexivity]|lia].
Qed.

Lemma line_of_bg t : tokens Line t = tokens Bg t -> bg_ok t -> line_ok t.
Proof.
  intros Et Hb fuel rest Hat He Hf. rewrite Et in *. destruct fuel as [|fuel]; [lia|]. cbn [parseline].
  destruct (line_head t fuel rest Hb Hat) as (c0 & ps0 & c & -> & Hc & El);
    [eapply ends_weaken; [exact He|reflexivity]|lia|].
  unfold mbind, res_bind. rewrite El. apply rest_is_app in Hat.
  rewrite rest_peek by (exact Hat || reflexivity).
  rewrite (ends_starts [RPAR] [SEMI] rest He eq_refl). exists c. auto.
Qed.

Lemma line_list l r : bg_ok l -> line_ok r -> line_ok (TList l r).
Proof.
  intros Hl Hr fuel rest Hat He Hf. cbn [tokens] in *. rewrite <- app_assoc in *. cbn [app] in *.
  destruct fuel as [|fuel]; [lia|]. cbn [parseline].
  set (ts := TS SEMI :: tokens Line r ++ rest) in *.
  destruct (line_head l fuel ts Hl Hat) as (c0 & ps0 & c & -> & Hc & El); [right; reflexivity|lia|].
  unfold mbind at 1, res_bind at 1. rewrite El. unfold mbind at 1, res_bind at 1.
  pose proof (length_text_app (tokens Bg l) ts). apply rest_is_app in Hat.
  rewrite rest_peek by (exact Hat || reflexivity). subst ts. cbn [starts].
  change (among [SEMI] SEMI) with true. cbv iota. rewrite rest_symbol by exact Hat.
  pose proof (length_text_cons (TS SEMI) (tokens Line r ++ rest)). apply rest_is_cons in Hat.
  destruct (Hr fuel rest) as (cr & -> & Hcr); [exact Hat|exact He|lia|].
  exists (List c cr). split; [reflexivity|]. split; assumption.
Qed.

Lemma all_levels t : good_tree t -> simple_ok t /\ stage_ok t /\ bg_ok t /\ line_ok t.
Proof.
  induction t as [argv|c IH file mode fd|l IHl r IHr|l IHl r IHr|c IH]; intros Hg.
  - pose proof (simple_exec argv Hg).
    auto 7 using stage_of_simple, bg_of_stage, line_of_bg.
  - assert (simple_ok (TRedir c file mode fd)) by (apply simple_redir; [|apply IH, Hg]; exact Hg).
    auto 7 using stage_of_simple, bg_of_stage, line_of_bg.
  - destruct Hg as [Hgl Hgr]. destruct (IHl Hgl) as (Hl & _). destruct (IHr Hgr) as (_ & Hr & _).
    assert (stage_ok (TPipe l r)) by (apply stage_pipe; assumption).
    auto 8 using simple_of_line, bg_of_stage, line_of_bg.
  - destruct Hg as [Hgl Hgr]. destruct (IHl Hgl) as (_ & _ & Hl & _). destruct (IHr Hgr) as (_ & _ & _ & Hr).
    assert (line_ok (TList l r)) by (apply line_list; assumption).
    auto 8 using simple_of_line, stage_of_simple, bg_of_stage.
  - destruct (IH Hg) as (_ & _ & Hb & _).
    assert (bg_ok (TBack c)) by (apply bg_back; assumption).
    auto 8 using simple_of_line, stage_of_simple, line_of_bg.
Qed.
End parsing.

(** ** Terminating the strings *)

Section terminate.
Context (s : list Z).

(** Every character of a word is still in the buffer. *)
Definition keeps (buf : list Z) : Prop :=
  length buf = S (length s) /\ forall i x, s !! i = Some x -> plain x = true -> buf !! i = Some x.

(** The end of the word has been overwritten. *)
Definition closed (buf : list Z) (eq : ptr) : Prop := buf !! (length s - length eq)%nat = Some 0.

Fixpoint all_closed (buf : list Z) (c : cmd) : Prop :=
  match c with
  | Exec argv => Forall (fun a => closed buf a.2) argv
  | Redir c _ efile _ _ => all_closed buf c /\ closed buf efile
  | Pipe l r => all_closed buf l /\ all_closed buf r
  | List l r => all_closed buf l /\ all_closed buf r
  | Back c => all_closed buf c
  end.

(** Zeros stay. *)
Definition zeros_stay (buf buf' : list Z) : Prop := forall i, buf !! i = Some 0 -> buf' !! i = Some 0.

Lemma closed_stay buf buf' eq : zeros_stay buf buf' -> closed buf eq -> closed buf' eq.
Proof. intros H. apply H. Qed.

Lemma all_closed_stay buf buf' c : zeros_stay buf buf' -> all_closed buf c -> all_closed buf' c.
Proof.
  intros H. induction c as [argv|c IH q eq m fd|l IHl r IHr|l IHl r IHr|c IH]; simpl;
    try (intros [? ?]; eauto using closed_stay).
  - intros Ha. eapply Forall_impl; [exact Ha|]. intros a. apply closed_stay, H.
  - exact IH.
Qed.

Lemma poke_word buf q eq w : word_at s q eq w -> keeps buf ->
  keeps (poke (length s) eq buf) /\ zeros_stay buf (poke (length s) eq buf) /\
  closed (poke (length s) eq buf) eq.
Proof.
  intros (Hw & -> & He & pre & Es) [Hl Hk]. unfold poke, closed.
  assert (Hs : s !! (length s - length eq)%nat = Some 32).
  { replace (length s - length eq)%nat with (length (pre ++ w)) by (rewrite Es, !length_app; lia).
    rewrite Es, app_assoc, lookup_app_r, Nat.sub_diag by lia.
    destruct eq as [|x eq]; [discriminate|]. simpl in He. subst x. reflexivity. }
  pose proof (lookup_lt_Some _ _ _ Hs) as Hlt. repeat split.
  - rewrite length_insert. exact Hl.
  - intros i x Hx Hp. rewrite list_lookup_insert_ne; [apply Hk; assumption|].
    intros E. rewrite E, Hx in Hs. injection Hs as ->. discriminate.
  - intros i Hi. destruct (decide (i = length s - length eq)%nat) as [->|Hn].
    + apply list_lookup_insert_eq. lia.
    + rewrite list_lookup_insert_ne by congruence. exact Hi.
  - apply list_lookup_insert_eq. lia.
Qed.

Definition terminated (buf buf' : list Z) (c : cmd) : Prop :=
  keeps buf' /\ zeros_stay buf buf' /\ all_closed buf' c.

Lemma nulterminate_args argv : forall ws buf,
  Forall2 (fun a w => word_at s a.1 a.2 w) argv ws -> keeps buf ->
  terminated buf (foldl (fun buf a => poke (length s) a.2 buf) buf argv) (Exec argv).
Proof.
  induction argv as [|[q eq] argv IH]; intros ws buf H Hk.
  - split; [exact Hk|]. split; [intros i Hi; exact Hi|constructor].
  - inversion H as [|? w ? ws' Hw H']; subst. cbn [foldl fst snd] in *.
    destruct (poke_word buf q eq w Hw Hk) as (H1 & H2 & H3).
    destruct (IH ws' _ H' H1) as (H4 & H5 & H6).
    split; [exact H4|]. split; [intros i Hi; apply H5, H2, Hi|]. constructor; [|exact H6].
    apply H5, H3.
Qed.

Lemma nulterminate_ok c : forall t buf, repr s c t -> keeps buf ->
  terminated buf (nulterminate (length s) c buf) c.
Proof.
  assert (Htwo : forall (l r : cmd) buf b1 b2, terminated buf b1 l -> terminated b1 b2 r ->
    keeps b2 /\ zeros_stay buf b2 /\ all_closed b2 l /\ all_closed b2 r).
  { intros l r buf b1 b2 (_ & H2 & H3) (H4 & H5 & H6). split; [exact H4|].
    split; [intros i Hi; apply H5, H2, Hi|]. split; [exact (all_closed_stay _ _ _ H5 H3)|exact H6]. }
  induction c as [argv|c IH q eq m fd|l IHl r IHr|l IHl r IHr|c IH];
    intros [ws|t file m' fd'|l' r'|l' r'|t] buf Hr Hk; try contradiction; cbn [nulterminate] in *.
  - apply (nulterminate_args argv ws); assumption.
  - destruct Hr as (Hc & Hw & _ & _). destruct (IH t buf Hc Hk) as (H1 & H2 & H3).
    destruct (poke_word _ q eq file Hw H1) as (H4 & H5 & H6).
    split; [exact H4|]. split; [intros i Hi; apply H5, H2, Hi|].
    split; [exact (all_closed_stay _ _ _ H5 H3)|exact H6].
  - destruct Hr as [Hl Hr]. pose proof (IHl l' buf Hl Hk) as H1.
    apply (Htwo _ _ _ _ _ H1). apply (IHr r'); [exact Hr|apply H1].
  - destruct Hr as [Hl Hr]. pose proof (IHl l' buf Hl Hk) as H1.
    apply (Htwo _ _ _ _ _ H1). apply (IHr r'); [exact Hr|apply H1].
  - apply (IH t); assumption.
Qed.

(** A word whose end is closed reads as a C string. *)
Lemma cstring_word buf q eq w : word_at s q eq w -> keeps buf -> closed buf eq ->
  cstring (length s) buf q = w.
Proof.
  intros ([_ Hw] & -> & He & pre & Es) [Hl Hk] Hc. unfold cstring, closed in *.
  assert (Hn : forall i, (i <= length w)%nat ->
    (length s - length (w ++ eq) + i = length pre + i)%nat) by (intros; rewrite Es, !length_app; lia).
  assert (Hd : take (length w + 1) (drop (length s - length (w ++ eq)) buf) = w ++ [0]).
  { apply list_eq. intros i. destruct (decide (i < length w)%nat) as [Hi|Hi].
    - rewrite lookup_take_lt, lookup_drop, Hn, lookup_app_l by lia.
      destruct (lookup_lt_is_Some_2 w i Hi) as [x Hx]. rewrite Hx. apply Hk.
      + rewrite Es, lookup_app_r by lia. replace (length pre + i - length pre)%nat with i by lia.
        rewrite lookup_app_l by exact Hi. exact Hx.
      + rewrite Forall_forall in Hw. apply Hw. eapply list_elem_of_lookup_2, Hx.
    - destruct (decide (i = length w)) as [->|Hi'].
      + rewrite lookup_take_lt, lookup_drop, Hn, lookup_app_r, Nat.sub_diag by lia. simpl.
        rewrite <- Hc. f_equal. rewrite Es, !length_app. lia.
      + rewrite lookup_take_ge, lookup_app_r by lia.
        destruct (i - length w)%nat as [|k] eqn:E; [lia|]. destruct k; reflexivity. }
  rewrite <- (take_drop (length w + 1) (drop (length s - length (w ++ eq)) buf)), Hd, <- app_assoc.
  generalize (drop (length w + 1) (drop (length s - length (w ++ eq)) buf)). intros z. clear - Hw.
  induction Hw as [|c w [_ Hc] _ IH]; [reflexivity|]. rewrite <- app_comm_cons. cbn [upto_nul].
  rewrite (proj2 (Z.eqb_neq c 0)), IH by exact Hc. reflexivity.
Qed.

Lemma strings_ok buf c : keeps buf -> forall t, repr s c t -> all_closed buf c ->
  strings (length s) buf c = t.
Proof.
  intros Hk. induction c as [argv|c IH q eq m fd|l IHl r IHr|l IHl r IHr|c IH];
    intros [ws|t file m' fd'|l' r'|l' r'|t] Hr Hc; try contradiction; simpl in *.
  - f_equal. revert ws Hr. induction argv as [|[q eq] argv IH]; intros ws Hr; inversion Hr; subst.
    + reflexivity.
    + inversion Hc; subst. rewrite fmap_cons. cbn [fst snd] in *. f_equal; [|apply IH; assumption].
      eapply cstring_word; eassumption.
  - destruct Hr as (H1 & H2 & -> & ->). destruct Hc as [H3 H4].
    rewrite (IH t H1 H3), (cstring_word _ _ _ _ H2 Hk H4). reflexivity.
  - destruct Hr, Hc. f_equal; auto.
  - destruct Hr, Hc. f_equal; auto.
  - f_equal; auto.
Qed.
End terminate.
End SyntaxFacts.

Module ShProps.
Import Sh ShFacts Syntax SyntaxFacts.

(** C24: every command tree can be written so that the shell reads it back.  For a
    tree with fewer than [MAXARGS] arguments per command, words of plain
    characters and the redirections the shell knows, [parsecmd] applied to its
    text builds, in the buffer it terminates in place, exactly that tree: the
    grouping of [;], [&], [|] and parentheses, every argument and every file. *)
Theorem parsecmd_print (t : tree) : good_tree t ->
  exists c buf, parsecmd (text (tokens Line t)) = Ok (c, buf) /\
    strings (length (text (tokens Line t))) buf c = t.
Proof.
  intros Hg. set (s := text (tokens Line t)).
  destruct (all_levels s t Hg) as (_ & _ & _ & Hl).
  destruct (Hl (4 * length s + 4)%nat []) as (c & E & Hc).
  - rewrite app_nil_r. split; [apply tokens_good, Hg|]. exists []. reflexivity.
  - left. reflexivity.
  - rewrite app_nil_r. fold s. lia.
  - rewrite app_nil_r in E. fold s in E.
    assert (Hk : keeps s (s ++ [0])).
    { split; [rewrite length_app; simpl; lia|]. intros i x Hx _. apply lookup_app_l_Some, Hx. }
    exists c, (nulterminate (length s) c (s ++ [0])). split.
    + unfold parsecmd. rewrite E. reflexivity.
    + destruct (nulterminate_ok s c t _ Hc Hk) as (H1 & _ & H3). apply strings_ok; assumption.
Qed.

(** [a b < f | (c ; d &) > g] *)
Definition sample : tree :=
  TPipe (TRedir (TExec [[97]; [98]]) [102] 0 0)
        (TRedir (TList (TExec [[99]]) (TBack (TExec [[100]]))) [103] 0x201 1).

Lemma parsecmd_print_witness : exists c buf,
  parsecmd [97; 32; 98; 32; 60; 32; 102; 32; 124; 32; 40; 32; 99; 32; 59; 32; 100; 32; 38; 32; 41; 32;
            62; 32; 103; 32] = Ok (c, buf) /\ strings 26 buf c = sample.
Proof.
  apply (parsecmd_print sample).
  assert (Hw : forall x, plain x = true -> x <> 0 -> good_word [x]).
  { intros x Hp H0. split; [discriminate|]. repeat constructor; assumption. }
  unfold sample. cbn [good_tree].
  repeat match goal with
  | |- _ < _ => reflexivity
  | |- good_word _ => apply Hw; [reflexivity|discriminate]
  | |- Forall good_word _ => constructor
  | |- _ \/ _ => first [left; split; reflexivity | right; split; reflexivity]
  | |- _ /\ _ => split
  end.
Defined.

(** C38: on every line whatsoever the parser stops, within a depth of calls that
    is linear in the length of the line: it returns a command or ends the
    shell process with one of its five complaints. *)
Theorem parsecmd_terminates (s : list Z) :
  (exists c buf, parsecmd s = Ok (c, buf)) \/ (exists m, parsecmd s = Panic m /\ m ∈ messages).
Proof.
  pose proof (proj1 (parse_finish (4 * length s + 4) s) ltac:(lia)) as H. unfold parsecmd.
  destruct (parseline (4 * length s + 4) s) as [[c ps]|m|why|]; simpl in H; try contradiction.
  - unfold mbind, res_bind. destruct (peek ps []) as [b s']. destruct (length s' =? 0)%nat; [left; eauto|].
    right. exists "syntax"%string. split; [reflexivity|in_messages].
  - right. exists m. split; [reflexivity|exact H].
Qed.
End ShProps.
