(* ===== verification/File.v ===== *)
(** The table of open files (file.c) and the descriptor tables of the processes
    (sysfile.c, and the loops over descriptors of fork and exit in proc.c).

    Files are shared by descriptors and counted; the model keeps the table of
    files and the descriptor table of every process slot, a pointer to a file
    being its index.  The sections under the lock of the file table are atomic
    steps.  What closing the last reference does to a pipe or an inode is
    recorded in order as a list of calls.  A count never exceeds the number of
    descriptors and temporary references of the kernel, far below the range of
    [int], so counts are plain integers. *)

From S2P Require Import Prelude.

Module File.

Definition NOFILE : Z := 16.
Definition NFILE : Z := 100.
Definition NPROC : Z := 64.
Definition O_WRONLY : Z := 0x001.
Definition O_RDWR : Z := 0x002.

Inductive ftype := FD_NONE | FD_PIPE | FD_INODE.
#[export] Instance ftype_eq_dec : EqDecision ftype.
Proof. solve_decision. Defined.

Record file := MkFile {
  f_type : ftype;
  ref : Z;
  readable : bool;
  writable : bool;
  pipe : Z;
  ip : Z;
  off : Z;
}.
Definition set_ref (n : Z) (f : file) : file :=
  MkFile (f_type f) n (readable f) (writable f) (pipe f) (ip f) (off f).

(** The calls [fileclose] makes for the last reference. *)
Inductive closing :=
  | CallPipeclose (p : Z) (writable : bool)
  | CallIput (ip : Z).

Record sys := Sys {
  ftable : list file;
  ofile : list (list (option nat));
  closings : list closing;
}.
Definition set_ftable (t : list file) (s : sys) : sys := Sys t (ofile s) (closings s).
Definition set_ofile (o : list (list (option nat))) (s : sys) : sys := Sys (ftable s) o (closings s).
Definition add_closing (c : closing) (s : sys) : sys := Sys (ftable s) (ofile s) (closings s ++ [c]).

Definition get_file (f : nat) : K sys file := fun s =>
  lift_opt "file pointer outside ftable" (ftable s !! f) s.
Definition put_file (f : nat) (v : file) : K sys unit :=
  modify (fun s => set_ftable (<[f := v]> (ftable s)) s).

(** ** file.c *)

Definition filealloc : K sys (option nat) :=
  t ← gets ftable;
  match list_find (fun f => ref f = 0) t with
  | Some (f, v) => put_file f (set_ref 1 v) ;; mret (Some f)
  | None => mret None
  end.

Definition filedup (f : nat) : K sys nat :=
  v ← get_file f;
  if ref v <? 1 then panic "filedup"
  else put_file f (set_ref (ref v + 1) v) ;; mret f.

Definition fileclose (f : nat) : K sys unit :=
  v ← get_file f;
  if ref v <? 1 then panic "fileclose"
  else if 0 <? ref v - 1 then put_file f (set_ref (ref v - 1) v)
  else
    let ff := v in
    put_file f (MkFile FD_NONE 0 (readable v) (writable v) (pipe v) (ip v) (off v)) ;;
    match f_type ff with
    | FD_PIPE => modify (add_closing (CallPipeclose (pipe ff) (writable ff)))
    | FD_INODE => modify (add_closing (CallIput (ip ff)))
    | FD_NONE => skip
    end.

(** ** Descriptors *)

Definition get_table (p : nat) : K sys (list (option nat)) := fun s =>
  lift_opt "process pointer outside ptable" (ofile s !! p) s.
Definition set_fd (p : nat) (fd : nat) (x : option nat) : K sys unit :=
  modify (fun s => set_ofile (alter (fun t => <[fd := x]> t) p (ofile s)) s).

(** [argfd], for the descriptor number that [argint] fetched. *)
Definition argfd (p : nat) (fd : Z) : K sys (option (nat * nat)) :=
  t ← get_table p;
  if (fd <? 0) || (NOFILE <=? fd) then mret None
  else mret match t !! Z.to_nat fd with Some (Some f) => Some (Z.to_nat fd, f) | _ => None end.

Definition fdalloc (p : nat) (f : nat) : K sys (option nat) :=
  t ← get_table p;
  match list_find (fun x => x = None) t with
  | Some (fd, _) => set_fd p fd (Some f) ;; mret (Some fd)
  | None => mret None
  end.

Definition sys_dup (p : nat) (n : Z) : K sys Z :=
  r ← argfd p n;
  match r with
  | None => mret (-1)
  | Some (_, f) =>
      r ← fdalloc p f;
      match r with
      | None => mret (-1)
      | Some fd => filedup f ;; mret (Z.of_nat fd)
      end
  end.

Definition sys_close (p : nat) (n : Z) : K sys Z :=
  r ← argfd p n;
  match r with
  | None => mret (-1)
  | Some (fd, f) => set_fd p fd None ;; fileclose f ;; mret 0
  end.

(** pipe.c [pipealloc]; [page] is what [kalloc] returns. *)
Definition pipealloc (page : option Z) : K sys (option (nat * nat)) :=
  f0 ← filealloc;
  match f0 with
  | None => mret None
  | Some f0 =>
      f1 ← filealloc;
      match f1 with
      | None => fileclose f0 ;; mret None
      | Some f1 =>
          match page with
          | None => fileclose f0 ;; fileclose f1 ;; mret None
          | Some p =>
              v0 ← get_file f0;
              put_file f0 (MkFile FD_PIPE (ref v0) true false p (ip v0) (off v0)) ;;
              v1 ← get_file f1;
              put_file f1 (MkFile FD_PIPE (ref v1) false true p (ip v1) (off v1)) ;;
              mret (Some (f0, f1))
          end
      end
  end.

(** [sys_pipe] once the user pointer has been checked; the two descriptors are
    what it stores through it. *)
Definition sys_pipe (p : nat) (page : option Z) : K sys (option (nat * nat)) :=
  r ← pipealloc page;
  match r with
  | None => mret None
  | Some (rf, wf) =>
      fd0 ← fdalloc p rf;
      match fd0 with
      | None => fileclose rf ;; fileclose wf ;; mret None
      | Some fd0 =>
          fd1 ← fdalloc p wf;
          match fd1 with
          | None => set_fd p fd0 None ;; fileclose rf ;; fileclose wf ;; mret None
          | Some fd1 => mret (Some (fd0, fd1))
          end
      end
  end.

(** The part of [sys_open] after the inode has been found or created. *)
Definition open_inode (p : nat) (inode omode : Z) : K sys Z :=
  f ← filealloc;
  match f with
  | None => mret (-1)
  | Some f =>
      r ← fdalloc p f;
      match r with
      | None => fileclose f ;; mret (-1)
      | Some fd =>
          v ← get_file f;
          put_file f (MkFile FD_INODE (ref v) (Z.land omode O_WRONLY =? 0)
            (negb (Z.land omode O_WRONLY =? 0) || negb (Z.land omode O_RDWR =? 0))
            (pipe v) inode 0) ;;
          mret (Z.of_nat fd)
      end
  end.

(** ** proc.c: the loops of [fork] and [exit] over the descriptors *)

Definition fork_files (proc np : nat) : K sys unit :=
  forM (seq 0 (Z.to_nat NOFILE)) (fun i =>
    t ← get_table proc;
    match t !! i with
    | Some (Some f) => g ← filedup f; set_fd np i (Some g)
    | _ => skip
    end).

Definition exit_files (proc : nat) : K sys unit :=
  forM (seq 0 (Z.to_nat NOFILE)) (fun fd =>
    t ← get_table proc;
    match t !! fd with
    | Some (Some f) => fileclose f ;; set_fd proc fd None
    | _ => skip
    end).
End File.

Module FileFacts.
Import File.

(** ** Counting descriptors *)

Definition one (x : option nat) (i : nat) : Z := if decide (x = Some i) then 1 else 0.
Fixpoint occ (i : nat) (l : list (option nat)) : Z :=
  match l with
  | [] => 0
  | x :: l' => one x i + occ i l'
  end.
(** The descriptors of all processes that name file [i]. *)
Definition descriptors (i : nat) (s : sys) : Z := occ i (concat (ofile s)).

Lemma one_nonneg x i : 0 <= one x i.
Proof. unfold one. destruct (decide _); lia. Qed.

Lemma occ_nonneg i l : 0 <= occ i l.
Proof. induction l as [|x l IH]; simpl; [lia|]. pose proof (one_nonneg x i). lia. Qed.

Lemma occ_app i l l' : occ i (l ++ l') = occ i l + occ i l'.
Proof. induction l as [|x l IH]; simpl; [lia|]. rewrite IH. lia. Qed.

Lemma occ_insert i l k x y : l !! k = Some y -> occ i (<[k := x]> l) = occ i l - one y i + one x i.
Proof.
  revert k. induction l as [|z l IH]; intros [|k] H; simpl in *; try discriminate.
  - injection H as ->. lia.
  - rewrite (IH k H). lia.
Qed.

Lemma occ_lookup i l k : l !! k = Some (Some i) -> 1 <= occ i l.
Proof.
  revert k. induction l as [|z l IH]; intros [|k] H; simpl in *; try discriminate.
  - injection H as ->. unfold one. rewrite decide_True by reflexivity. pose proof (occ_nonneg i l). lia.
  - pose proof (one_nonneg z i). specialize (IH k H). lia.
Qed.

Lemma occ_concat_alter i (ls : list (list (option nat))) p t t' : ls !! p = Some t ->
  occ i (concat (<[p := t']> ls)) = occ i (concat ls) - occ i t + occ i t'.
Proof.
  revert p. induction ls as [|u ls IH]; intros [|p] H; simpl in *; try discriminate.
  - injection H as ->. rewrite !occ_app. lia.
  - rewrite !occ_app, (IH p H). lia.
Qed.

Lemma occ_table i (ls : list (list (option nat))) p t : ls !! p = Some t -> occ i t <= occ i (concat ls).
Proof.
  revert p. induction ls as [|u ls IH]; intros [|p] H; simpl in *; try discriminate.
  - injection H as ->. rewrite occ_app. pose proof (occ_nonneg i (concat ls)). lia.
  - rewrite occ_app. pose proof (occ_nonneg i u). specialize (IH p H). lia.
Qed.

(** ** The invariant *)

(** [e i] is how far the count of file [i] is ahead of the descriptors: the
    references that the running system call holds itself. *)
Definition file_ok (e : nat -> Z) (s : sys) (i : nat) (v : file) : Prop :=
  ref v = descriptors i s + e i /\ 0 <= ref v /\ (ref v = 0 -> f_type v = FD_NONE).
Record inv (e : nat -> Z) (s : sys) : Prop := {
  inv_files : Z.of_nat (length (ftable s)) = NFILE;
  inv_procs : Z.of_nat (length (ofile s)) = NPROC;
  inv_tables : Forall (fun t => Z.of_nat (length t) = NOFILE) (ofile s);
  inv_range : forall p t fd i, ofile s !! p = Some t -> t !! fd = Some (Some i) -> (i < length (ftable s))%nat;
  inv_refs : forall i v, ftable s !! i = Some v -> file_ok e s i v;
}.
Definition balanced : sys -> Prop := inv (fun _ => 0).

Definition bump (i : nat) (d : Z) (e : nat -> Z) : nat -> Z := fun j => if decide (j = i) then e j + d else e j.

Lemma inv_ext e e' s : (forall i, e i = e' i) -> inv e s -> inv e' s.
Proof.
  intros He [H1 H2 H3 H4 H5]. split; try assumption. intros i v Hv. unfold file_ok in *.
  rewrite <- He. apply H5, Hv.
Qed.

Lemma bump_eq i d e : bump i d e i = e i + d.
Proof. unfold bump. rewrite decide_True by reflexivity. reflexivity. Qed.
Lemma bump_ne i d e j : j <> i -> bump i d e j = e j.
Proof. intros H. unfold bump. rewrite decide_False by exact H. reflexivity. Qed.
Lemma bump_bump i d d' e j : bump i d (bump i d' e) j = bump i (d + d') e j.
Proof. unfold bump. destruct (decide (j = i)); lia. Qed.
Lemma bump_comm i j d d' e k : bump i d (bump j d' e) k = bump j d' (bump i d e) k.
Proof. unfold bump. repeat destruct (decide _); lia. Qed.
Lemma bump_0 i e j : bump i 0 e j = e j.
Proof. unfold bump. destruct (decide _); lia. Qed.

(** Replacing the record of a file. *)
Lemma inv_put e s i v v' : inv e s -> ftable s !! i = Some v -> 0 <= ref v' ->
  (ref v' = 0 -> f_type v' = FD_NONE) ->
  inv (bump i (ref v' - ref v) e) (set_ftable (<[i := v']> (ftable s)) s).
Proof.
  intros [H1 H2 H3 H4 H5] Hi Hr Ht. split; cbn [ftable ofile set_ftable]; try assumption.
  - rewrite length_insert. exact H1.
  - intros p t fd j Hp Hfd. rewrite length_insert. eapply H4; eassumption.
  - intros j w Hj. unfold file_ok, descriptors in *. cbn [ftable ofile set_ftable] in *.
    destruct (decide (j = i)) as [->|Hne].
    + rewrite list_lookup_insert_eq in Hj by (eapply lookup_lt_Some, Hi). injection Hj as <-.
      rewrite bump_eq. destruct (H5 i v Hi) as (E & _). repeat split; auto; lia.
    + rewrite list_lookup_insert_ne in Hj by congruence. rewrite bump_ne by exact Hne. apply H5, Hj.
Qed.

(** Changing a descriptor. *)
Lemma inv_fd e s p t fd x y : inv e s -> ofile s !! p = Some t -> t !! fd = Some y ->
  (forall i, x = Some i -> (i < length (ftable s))%nat) ->
  inv (fun i => e i + one y i - one x i) (set_ofile (alter (fun t => <[fd := x]> t) p (ofile s)) s).
Proof.
  intros [H1 H2 H3 H4 H5] Hp Hy Hx. rewrite (list_alter_lookup _ _ _ _ Hp).
  split; cbn [ftable ofile set_ofile]; try assumption.
  - rewrite length_insert. exact H2.
  - apply Forall_insert; [exact H3|]. rewrite length_insert. eapply (Forall_lookup_1 _ _ _ _ H3), Hp.
  - intros q t' fd' i Hq Hfd. destruct (decide (q = p)) as [->|Hne].
    + rewrite list_lookup_insert_eq in Hq by (eapply lookup_lt_Some, Hp). injection Hq as <-.
      destruct (decide (fd' = fd)) as [->|Hf].
      * rewrite list_lookup_insert_eq in Hfd by (eapply lookup_lt_Some, Hy). injection Hfd as ->. auto.
      * rewrite list_lookup_insert_ne in Hfd by congruence. eapply H4; eassumption.
    + rewrite list_lookup_insert_ne in Hq by congruence. eapply H4; eassumption.
  - intros i v Hv. destruct (H5 i v Hv) as (E & Hr & Ht). unfold file_ok, descriptors in *.
    cbn [ftable ofile set_ofile]. rewrite (occ_concat_alter _ _ _ _ _ Hp), (occ_insert _ _ _ _ _ Hy).
    repeat split; auto; lia.
Qed.

(** A file that a descriptor names exists and has a reference. *)
Lemma named_file e s p t fd i : inv e s -> (forall i, 0 <= e i) ->
  ofile s !! p = Some t -> t !! fd = Some (Some i) ->
  exists v, ftable s !! i = Some v /\ 1 <= ref v.
Proof.
  intros Hi He Hp Ht. destruct (lookup_lt_is_Some_2 (ftable s) i) as [v Hv].
  { eapply (inv_range _ _ Hi); eassumption. }
  exists v. split; [exact Hv|]. destruct (inv_refs _ _ Hi i v Hv) as (E & _). rewrite E.
  pose proof (occ_lookup _ _ _ Ht). pose proof (occ_table i _ _ _ Hp). unfold descriptors.
  specialize (He i). lia.
Qed.

(** ** The operations on files *)

Lemma wp_get_file f v (Q : file -> sys -> Prop) s : ftable s !! f = Some v -> Q v s -> wp (get_file f) Q s.
Proof. intros E H. unfold wp, get_file, lift_opt. rewrite E. eauto. Qed.

Lemma wp_get_table p t (Q : list (option nat) -> sys -> Prop) s :
  ofile s !! p = Some t -> Q t s -> wp (get_table p) Q s.
Proof. intros E H. unfold wp, get_table, lift_opt. rewrite E. eauto. Qed.

Lemma put_same_length i v s : length (ftable (set_ftable (<[i := v]> (ftable s)) s)) = length (ftable s).
Proof. apply length_insert. Qed.

Definition fresh (f : nat) (s s' : sys) : Prop :=
  ofile s' = ofile s /\ closings s' = closings s /\ length (ftable s') = length (ftable s) /\
  (exists v, ftable s !! f = Some v /\ ref v = 0) /\
  (exists v, ftable s' !! f = Some v /\ ref v = 1 /\ f_type v = FD_NONE) /\
  (forall g, g <> f -> ftable s' !! g = ftable s !! g).

Lemma wp_filealloc e s (Q : option nat -> sys -> Prop) : inv e s ->
  (Forall (fun v => ref v <> 0) (ftable s) -> Q None s) -> (forall f s', inv (bump f 1 e) s' -> fresh f s s' -> Q (Some f) s') ->
  wp filealloc Q s.
Proof.
  intros Hi Hn Hs. unfold filealloc. wp_step. wp_step.
  destruct (list_find _ (ftable s)) as [[f v]|] eqn:E; [|wp_step; apply Hn; exact (proj1 (list_find_None _ _) E)].
  apply list_find_Some in E as (Hf & Hr & _). unfold put_file. wp_steps. apply Hs.
  - pose proof (inv_put e s f v (set_ref 1 v) Hi Hf) as H. simpl in H. rewrite Hr in H.
    apply H; lia.
  - repeat split; simpl.
    + apply length_insert.
    + eauto.
    + exists (set_ref 1 v). rewrite list_lookup_insert_eq by (eapply lookup_lt_Some, Hf).
      repeat split. simpl. apply (inv_refs _ _ Hi f v Hf), Hr.
    + intros g Hg. apply list_lookup_insert_ne. congruence.
Qed.

Lemma wp_filedup e s f v (Q : nat -> sys -> Prop) : inv e s -> ftable s !! f = Some v -> 1 <= ref v ->
  (forall s', inv (bump f 1 e) s' -> ofile s' = ofile s -> length (ftable s') = length (ftable s) -> Q f s') ->
  wp (filedup f) Q s.
Proof.
  intros Hi Hf Hr HQ. unfold filedup. apply wp_bind. apply (wp_get_file _ _ _ _ Hf).
  rewrite (proj2 (Z.ltb_ge (ref v) 1)) by exact Hr. unfold put_file. wp_steps. apply HQ.
  - pose proof (inv_put e s f v (set_ref (ref v + 1) v) Hi Hf) as H. simpl in H.
    replace (ref v + 1 - ref v) with 1 in H by lia. apply H; lia.
  - reflexivity.
  - apply length_insert.
Qed.

(** What is recorded when the last reference to [v] goes away. *)
Definition closing_of (v : file) : list closing :=
  match f_type v with
  | FD_PIPE => [CallPipeclose (pipe v) (writable v)]
  | FD_INODE => [CallIput (ip v)]
  | FD_NONE => []
  end.

Lemma wp_fileclose e s f v (Q : unit -> sys -> Prop) : inv e s -> ftable s !! f = Some v -> 1 <= ref v ->
  (forall s', inv (bump f (-1) e) s' -> ofile s' = ofile s -> length (ftable s') = length (ftable s) ->
     closings s' = closings s ++ (if ref v =? 1 then closing_of v else []) ->
     (forall g, g <> f -> ftable s' !! g = ftable s !! g) -> Q tt s') ->
  wp (fileclose f) Q s.
Proof.
  intros Hi Hf Hr HQ. unfold fileclose. apply wp_bind. apply (wp_get_file _ _ _ _ Hf).
  rewrite (proj2 (Z.ltb_ge (ref v) 1)) by exact Hr. unfold put_file.
  assert (Hne : forall w g, g <> f -> <[f := w]> (ftable s) !! g = ftable s !! g)
    by (intros w g Hg; apply list_lookup_insert_ne; congruence).
  destruct (0 <? ref v - 1) eqn:E; cbv zeta.
  - wp_steps. apply HQ.
    + pose proof (inv_put e s f v (set_ref (ref v - 1) v) Hi Hf) as H. simpl in H.
      replace (ref v - 1 - ref v) with (-1) in H by lia. apply H; lia.
    + reflexivity.
    + apply length_insert.
    + rewrite (proj2 (Z.eqb_neq (ref v) 1)) by lia. symmetry. apply app_nil_r.
    + apply Hne.
  - assert (Hv1 : ref v = 1) by lia.
    set (v' := MkFile FD_NONE 0 (readable v) (writable v) (pipe v) (ip v) (off v)).
    pose proof (inv_put e s f v v' Hi Hf) as H. simpl in H. rewrite Hv1 in H.
    specialize (H ltac:(lia) ltac:(reflexivity)). apply wp_bind. wp_step.
    unfold closing_of in HQ. rewrite Hv1 in HQ. change (1 =? 1) with true in HQ. cbv iota in HQ.
    destruct (f_type v); wp_steps; apply HQ; simpl; rewrite ?app_nil_r; auto using length_insert;
      destruct H as [G1 G2 G3 G4 G5]; split; auto.
Qed.

(** ** The operations on descriptors *)

Lemma fdalloc_spec e s p t f (Q : option nat -> sys -> Prop) : inv e s -> ofile s !! p = Some t ->
  (f < length (ftable s))%nat -> (Forall (fun x => x <> None) t -> Q None s) ->
  (forall fd, t !! fd = Some None ->
     inv (bump f (-1) e) (set_ofile (alter (fun t => <[fd := Some f]> t) p (ofile s)) s) ->
     Q (Some fd) (set_ofile (alter (fun t => <[fd := Some f]> t) p (ofile s)) s)) ->
  wp (fdalloc p f) Q s.
Proof.
  intros Hi Hp Hf Hn HQ. unfold fdalloc. apply wp_bind. apply (wp_get_table _ _ _ _ Hp).
  destruct (list_find _ t) as [[fd x]|] eqn:E; [|wp_step; apply Hn; exact (proj1 (list_find_None _ _) E)].
  apply list_find_Some in E as (Hfd & -> & _). unfold set_fd. wp_steps. apply HQ; [exact Hfd|].
  eapply inv_ext; [|apply (inv_fd e s p t fd (Some f) None Hi Hp Hfd)].
  - intros i. unfold bump, one. destruct (decide (i = f)), (decide (None = Some i)),
      (decide (Some f = Some i)); try congruence; lia.
  - intros i [= <-]. exact Hf.
Qed.

(** Taking a descriptor out of the table leaves its reference with the kernel. *)
Lemma inv_clear e s p t fd f : inv e s -> ofile s !! p = Some t -> t !! fd = Some (Some f) ->
  inv (bump f 1 e) (set_ofile (alter (fun t => <[fd := None]> t) p (ofile s)) s).
Proof.
  intros Hi Hp Hfd. eapply inv_ext; [|apply (inv_fd e s p t fd None (Some f) Hi Hp Hfd); discriminate].
  intros i. unfold bump, one. destruct (decide (i = f)), (decide (None = Some i)),
    (decide (Some f = Some i)); try congruence; lia.
Qed.

(** ** The system calls keep the balance *)

Lemma balanced_named s p t fd i : balanced s -> ofile s !! p = Some t -> t !! fd = Some (Some i) ->
  exists v, ftable s !! i = Some v /\ 1 <= ref v.
Proof. intros Hb. apply (named_file _ _ _ _ _ _ Hb). intros; lia. Qed.

Lemma wp_argfd s p t fd (Q : option (nat * nat) -> sys -> Prop) : ofile s !! p = Some t ->
  Q None s -> (forall f, 0 <= fd < NOFILE -> t !! Z.to_nat fd = Some (Some f) -> Q (Some (Z.to_nat fd, f)) s) ->
  wp (argfd p fd) Q s.
Proof.
  intros Hp Hn HQ. unfold argfd. apply wp_bind. apply (wp_get_table _ _ _ _ Hp).
  destruct ((fd <? 0) || (NOFILE <=? fd)) eqn:E; [wp_step; exact Hn|]. wp_step.
  destruct (t !! Z.to_nat fd) as [[f|]|] eqn:Et; auto. apply HQ; [lia|reflexivity].
Qed.

Lemma sys_dup_balanced s p t fd : balanced s -> ofile s !! p = Some t ->
  wp (sys_dup p fd) (fun _ => balanced) s.
Proof.
  intros Hb Hp. unfold sys_dup. apply wp_bind. apply (wp_argfd s p t fd _ Hp); [wp_step; exact Hb|].
  intros f _ Hf. destruct (balanced_named _ _ _ _ _ Hb Hp Hf) as (v & Hv & Hr).
  apply wp_bind. apply (fdalloc_spec _ s p t f _ Hb Hp); [eapply lookup_lt_Some, Hv|intros _; wp_step; exact Hb|].
  intros fd' _ Hi. apply wp_bind. eapply (wp_filedup _ _ f v); [exact Hi|exact Hv|exact Hr|].
  intros s' Hi' _ _. wp_step. eapply inv_ext; [|exact Hi']. intros i. rewrite bump_bump. apply bump_0.
Qed.

Lemma sys_close_balanced s p t fd : balanced s -> ofile s !! p = Some t ->
  wp (sys_close p fd) (fun _ => balanced) s.
Proof.
  intros Hb Hp. unfold sys_close. apply wp_bind. apply (wp_argfd s p t fd _ Hp); [wp_step; exact Hb|].
  intros f _ Hf. destruct (balanced_named _ _ _ _ _ Hb Hp Hf) as (v & Hv & Hr).
  apply wp_bind. unfold set_fd. wp_step. apply wp_bind.
  eapply (wp_fileclose _ _ f v); [apply (inv_clear _ _ _ _ _ _ Hb Hp Hf)|exact Hv|exact Hr|].
  intros s' Hi' _ _ _ _. wp_step. eapply inv_ext; [|exact Hi']. intros i. rewrite bump_bump. apply bump_0.
Qed.

(** Closing a file that the kernel allocated and gave no descriptor. *)
Lemma close_held e s f v (Q : unit -> sys -> Prop) : inv (bump f 1 e) s -> ftable s !! f = Some v -> 1 <= ref v ->
  (forall s', inv e s' -> ofile s' = ofile s -> (forall g, g <> f -> ftable s' !! g = ftable s !! g) -> Q tt s') ->
  wp (fileclose f) Q s.
Proof.
  intros Hi Hv Hr HQ. eapply (wp_fileclose _ _ f v); [exact Hi|exact Hv|exact Hr|].
  intros s' Hi' Ho _ _ Hg. apply HQ; auto. eapply inv_ext; [|exact Hi'].
  intros i. rewrite bump_bump. apply bump_0.
Qed.

(** Filling in the fields of a file keeps its count. *)
Lemma wp_fill e s f v (g : file -> file) (Q : unit -> sys -> Prop) : inv e s -> ftable s !! f = Some v ->
  1 <= ref v -> ref (g v) = ref v ->
  (inv e (set_ftable (<[f := g v]> (ftable s)) s) -> Q tt (set_ftable (<[f := g v]> (ftable s)) s)) ->
  wp (w ← get_file f; put_file f (g w)) Q s.
Proof.
  intros Hi Hv Hr Hg HQ. apply wp_bind. apply (wp_get_file _ _ _ _ Hv). unfold put_file. wp_step.
  apply HQ. eapply inv_ext; [|apply (inv_put e s f v (g v) Hi Hv); lia].
  intros i. rewrite Hg, Z.sub_diag. apply bump_0.
Qed.

Lemma wp_assoc {S A B C} (m : K S A) (f : A -> K S B) (g : B -> K S C) Q s :
  wp ((x ← m; f x) ≫= g) Q s -> wp (x ← m; f x ≫= g) Q s.
Proof.
  unfold wp, mbind, K_bind. destruct (m s) as [[a s']| | |]; auto.
Qed.

Lemma wp_pipealloc s page (Q : option (nat * nat) -> sys -> Prop) : balanced s ->
  (forall s', balanced s' -> ofile s' = ofile s -> Q None s') ->
  (forall f0 f1 v0 v1 s', inv (bump f1 1 (bump f0 1 (fun _ => 0))) s' -> ofile s' = ofile s -> f0 <> f1 ->
     ftable s' !! f0 = Some v0 -> ref v0 = 1 -> ftable s' !! f1 = Some v1 -> ref v1 = 1 ->
     Q (Some (f0, f1)) s') ->
  wp (pipealloc page) Q s.
Proof.
  intros Hb Hn HQ. unfold pipealloc. apply wp_bind. apply (wp_filealloc _ _ _ Hb); [intros _; wp_step; auto|].
  intros f0 s1 Hi1 (Ho1 & _ & _ & _ & (v0 & Hv0 & Hr0 & _) & _). apply wp_bind.
  apply (wp_filealloc _ _ _ Hi1).
  { intros _. apply wp_bind. eapply (close_held _ s1 f0 v0); [exact Hi1|exact Hv0|lia|].
    intros s' Hi' Ho' _. wp_step. apply Hn; [exact Hi'|congruence]. }
  intros f1 s2 Hi2 (Ho2 & _ & _ & (w & Hw & Hw0) & (v1 & Hv1 & Hr1 & _) & Hg).
  assert (Hne : f0 <> f1) by (intros ->; rewrite Hv0 in Hw; injection Hw as ->; lia).
  assert (Hv0' : ftable s2 !! f0 = Some v0) by (rewrite Hg; assumption).
  destruct page as [p|].
  - apply wp_assoc, wp_bind.
    apply (wp_fill _ s2 f0 v0 (fun v => MkFile FD_PIPE (ref v) true false p (ip v) (off v)) _ Hi2 Hv0');
      [lia|reflexivity|]. intros Hi3.
    assert (Hv1' : ftable (set_ftable (<[f0 := MkFile FD_PIPE (ref v0) true false p (ip v0) (off v0)]> (ftable s2)) s2)
      !! f1 = Some v1) by (simpl; rewrite list_lookup_insert_ne; assumption).
    apply wp_assoc, wp_bind.
    apply (wp_fill _ _ f1 v1 (fun v => MkFile FD_PIPE (ref v) false true p (ip v) (off v)) _ Hi3 Hv1');
      [lia|reflexivity|]. intros Hi4. wp_step.
    eapply HQ; [exact Hi4|simpl; congruence|exact Hne| | | |].
    + simpl. rewrite list_lookup_insert_ne by congruence. apply list_lookup_insert_eq.
      eapply lookup_lt_Some, Hv0'.
    + exact Hr0.
    + simpl. apply list_lookup_insert_eq. rewrite length_insert. eapply lookup_lt_Some, Hv1.
    + exact Hr1.
  - apply wp_bind. eapply (close_held (bump f1 1 (fun _ => 0)) s2 f0 v0); [|exact Hv0'|lia|].
    { eapply inv_ext; [|exact Hi2]. intros i. apply bump_comm. }
    intros s3 Hi3 Ho3 Hg3. apply wp_bind.
    eapply (close_held _ s3 f1 v1); [exact Hi3|rewrite Hg3; [exact Hv1|congruence]|lia|].
    intros s4 Hi4 Ho4 _. wp_step. apply Hn; [exact Hi4|congruence].
Qed.

(** Giving both ends of a pipe back. *)
Lemma close_both s f0 f1 v0 v1 : inv (bump f1 1 (bump f0 1 (fun _ => 0))) s -> f0 <> f1 ->
  ftable s !! f0 = Some v0 -> ref v0 = 1 -> ftable s !! f1 = Some v1 -> ref v1 = 1 ->
  wp (fileclose f0 ;; fileclose f1 ;; mret (@None (nat * nat))) (fun _ => balanced) s.
Proof.
  intros Hi Hne Hv0 Hr0 Hv1 Hr1. apply wp_bind.
  eapply (close_held (bump f1 1 (fun _ => 0)) s f0 v0); [|exact Hv0|lia|].
  { eapply inv_ext; [|exact Hi]. intros i. apply bump_comm. }
  intros s3 Hi3 Ho3 Hg3. apply wp_bind.
  eapply (close_held _ s3 f1 v1); [exact Hi3|rewrite Hg3; [exact Hv1|congruence]|lia|].
  intros s4 Hi4 Ho4 _. wp_step. exact Hi4.
Qed.

Lemma table_after s p t fd x : ofile s !! p = Some t ->
  ofile (set_ofile (alter (fun t => <[fd := x]> t) p (ofile s)) s) !! p = Some (<[fd := x]> t).
Proof.
  intros Hp. simpl. rewrite (list_alter_lookup _ _ _ _ Hp). apply list_lookup_insert_eq.
  eapply lookup_lt_Some, Hp.
Qed.

Lemma sys_pipe_balanced s p t page : balanced s -> ofile s !! p = Some t ->
  wp (sys_pipe p page) (fun _ => balanced) s.
Proof.
  intros Hb Hp. unfold sys_pipe. apply wp_bind. apply (wp_pipealloc s page _ Hb).
  { intros s' Hb' _. wp_step. exact Hb'. }
  intros f0 f1 v0 v1 s1 Hi Ho Hne Hv0 Hr0 Hv1 Hr1. apply wp_bind. rewrite <- Ho in Hp.
  apply (fdalloc_spec _ s1 p t f0 _ Hi Hp); [eapply lookup_lt_Some, Hv0|intros _; eapply close_both; eauto|].
  intros fd0 Hfd0 Hi2. apply wp_bind. pose proof (table_after s1 p t fd0 (Some f0) Hp) as Hp2.
  apply (fdalloc_spec _ _ p _ f1 _ Hi2 Hp2); [eapply lookup_lt_Some; simpl; exact Hv1| |].
  - intros _. apply wp_bind. unfold set_fd. wp_step.
    eapply close_both; try eassumption. eapply inv_ext; [|eapply (inv_clear _ _ p _ fd0 f0 Hi2 Hp2)].
    + intros i. rewrite bump_bump. apply bump_0.
    + apply list_lookup_insert_eq. eapply lookup_lt_Some, Hfd0.
  - intros fd1 Hfd1 Hi3. wp_step. eapply inv_ext; [|exact Hi3]. intros i.
    unfold bump. repeat destruct (decide _); lia.
Qed.

Lemma open_balanced s p t inode omode : balanced s -> ofile s !! p = Some t ->
  wp (open_inode p inode omode) (fun _ => balanced) s.
Proof.
  intros Hb Hp. unfold open_inode. apply wp_bind. apply (wp_filealloc _ _ _ Hb); [intros _; wp_step; exact Hb|].
  intros f s1 Hi1 (Ho & _ & _ & _ & (v & Hv & Hr & _) & _). rewrite <- Ho in Hp. apply wp_bind.
  apply (fdalloc_spec _ s1 p t f _ Hi1 Hp); [eapply lookup_lt_Some, Hv| |].
  - intros _. apply wp_bind. eapply (close_held _ s1 f v); [exact Hi1|exact Hv|lia|].
    intros s2 Hi2 _ _. wp_step. exact Hi2.
  - intros fd _ Hi2. apply wp_assoc, wp_bind.
    apply (wp_fill _ _ f v (fun v => MkFile FD_INODE (ref v) (Z.land omode O_WRONLY =? 0)
      (negb (Z.land omode O_WRONLY =? 0) || negb (Z.land omode O_RDWR =? 0)) (pipe v) inode 0) _ Hi2 Hv);
      [lia|reflexivity|]. intros Hi3. wp_step.
    eapply inv_ext; [|exact Hi3]. intros i. rewrite bump_bump. apply bump_0.
Qed.

Lemma table_length e s p t : inv e s -> ofile s !! p = Some t -> Z.of_nat (length t) = NOFILE.
Proof. intros Hi Hp. apply (Forall_lookup_1 _ _ _ _ (inv_tables _ _ Hi) Hp). Qed.

(** The descriptors of process [p] below [k] are closed, the others and those of
    the other processes are as in [s]. *)
Definition closed_below (s : sys) (p : nat) (k : nat) (s' : sys) : Prop :=
  balanced s' /\ exists t t', ofile s !! p = Some t /\ ofile s' = <[p := t']> (ofile s) /\
    length t' = length t /\ (forall i, (i < k)%nat -> (i < length t)%nat -> t' !! i = Some None) /\
    (forall i, (k <= i)%nat -> t' !! i = t !! i).

Lemma exit_files_spec s p t : balanced s -> ofile s !! p = Some t ->
  wp (exit_files p) (fun _ s' => balanced s' /\ ofile s' = <[p := replicate (length t) None]> (ofile s)) s.
Proof.
  intros Hb Hp. pose proof (table_length _ _ _ _ Hb Hp) as Hl.
  eapply wp_mono; [apply (wp_forM _ _ (closed_below s p))|].
  - split; [exact Hb|]. exists t, t. split; [exact Hp|]. split; [symmetry; apply list_insert_id, Hp|].
    repeat split; auto; lia.
  - intros k x s' Hx (Hb' & t0 & t' & Ht0 & Ho & Hlen & Hlow & Hhigh).
    rewrite Hp in Ht0. injection Ht0 as <-. apply lookup_seq in Hx as [-> Hk]. simpl.
    assert (Hp' : ofile s' !! p = Some t') by (rewrite Ho; apply list_lookup_insert_eq; eapply lookup_lt_Some, Hp).
    apply wp_bind. apply (wp_get_table _ _ _ _ Hp').
    destruct (t' !! k) as [[f|]|] eqn:Ef.
    + destruct (balanced_named _ _ _ _ _ Hb' Hp' Ef) as (v & Hv & Hr). apply wp_bind.
      eapply (wp_fileclose _ _ f v); [exact Hb'|exact Hv|exact Hr|].
      intros s2 Hi2 Ho2 _ _ _. unfold set_fd. wp_step. rewrite <- Ho2 in Hp'. split.
      * eapply inv_ext; [|apply (inv_clear _ _ _ _ _ _ Hi2 Hp' Ef)]. intros i. rewrite bump_bump. apply bump_0.
      * exists t, (<[k := None]> t'). split; [exact Hp|]. split.
        { simpl. rewrite (list_alter_lookup _ _ _ _ Hp'), Ho2, Ho. apply list_insert_insert_eq. }
        rewrite length_insert. split; [exact Hlen|]. split.
        { intros i Hi Hi'. destruct (decide (i = k)) as [->|]; [apply list_lookup_insert_eq; lia|].
          rewrite list_lookup_insert_ne by congruence. apply Hlow; lia. }
        { intros i Hi. rewrite list_lookup_insert_ne by lia. apply Hhigh. lia. }
    + wp_step. split; [exact Hb'|]. exists t, t'. split; [exact Hp|]. split; [exact Ho|]. split; [exact Hlen|].
      split; [|intros i Hi; apply Hhigh; lia]. intros i Hi Hi'.
      destruct (decide (i = k)) as [->|]; [exact Ef|]. apply Hlow; lia.
    + apply lookup_ge_None in Ef. unfold NOFILE in *. lia.
  - intros [] s' (Hb' & t0 & t' & Ht0 & Ho & Hlen & Hlow & _). rewrite Hp in Ht0. injection Ht0 as <-.
    split; [exact Hb'|]. rewrite Ho. f_equal. rewrite length_seq in Hlow. apply list_eq. intros i.
    destruct (decide (i < length t)%nat) as [Hi|Hi].
    + rewrite Hlow by (unfold NOFILE in *; lia). symmetry. apply lookup_replicate_2. exact Hi.
    + rewrite (lookup_ge_None_2 t' i), (lookup_ge_None_2 (replicate _ _) i); rewrite ?length_replicate; auto; lia.
Qed.

(** The first [k] descriptors of the parent have been given to the child. *)
Definition shared_below (s : sys) (proc np : nat) (t : list (option nat)) (k : nat) (s' : sys) : Prop :=
  balanced s' /\ exists u, ofile s' = <[np := u]> (ofile s) /\ length u = length t /\
    (forall i, (i < k)%nat -> u !! i = t !! i) /\
    (forall i, (k <= i)%nat -> (i < length t)%nat -> u !! i = Some None).

Lemma fork_files_spec s proc np t : balanced s -> proc <> np -> ofile s !! proc = Some t ->
  ofile s !! np = Some (replicate (length t) None) ->
  wp (fork_files proc np) (fun _ s' => balanced s' /\ ofile s' = <[np := t]> (ofile s)) s.
Proof.
  intros Hb Hne Hp Hn. pose proof (table_length _ _ _ _ Hb Hp) as Hl.
  eapply wp_mono; [apply (wp_forM _ _ (shared_below s proc np t))|].
  - split; [exact Hb|]. exists (replicate (length t) None). split; [symmetry; apply list_insert_id, Hn|].
    rewrite length_replicate. split; [reflexivity|]. split; [lia|]. intros i _ Hi.
    apply lookup_replicate_2. exact Hi.
  - intros k x s' Hx (Hb' & u & Ho & Hlen & Hlow & Hhigh). apply lookup_seq in Hx as [-> Hk]. simpl.
    assert (Hp' : ofile s' !! proc = Some t) by (rewrite Ho, list_lookup_insert_ne by congruence; exact Hp).
    assert (Hn' : ofile s' !! np = Some u) by (rewrite Ho; apply list_lookup_insert_eq; eapply lookup_lt_Some, Hn).
    assert (Hkt : (k < length t)%nat) by (unfold NOFILE in *; lia).
    apply wp_bind. apply (wp_get_table _ _ _ _ Hp').
    destruct (t !! k) as [[f|]|] eqn:Ef.
    + destruct (balanced_named _ _ _ _ _ Hb' Hp' Ef) as (v & Hv & Hr). apply wp_bind.
      eapply (wp_filedup _ _ f v); [exact Hb'|exact Hv|exact Hr|].
      intros s2 Hi2 Ho2 Hl2. unfold set_fd. wp_step. rewrite <- Ho2 in Hn'.
      assert (Huk : u !! k = Some None) by (apply Hhigh; lia). split.
      * eapply inv_ext; [|apply (inv_fd _ _ np u k (Some f) None Hi2 Hn' Huk)].
        -- intros i. unfold bump, one. destruct (decide (i = f)), (decide (None = Some i)),
             (decide (Some f = Some i)); try congruence; lia.
        -- intros i [= <-]. rewrite Hl2. eapply lookup_lt_Some, Hv.
      * exists (<[k := Some f]> u). split.
        { simpl. rewrite (list_alter_lookup _ _ _ _ Hn'), Ho2, Ho. apply list_insert_insert_eq. }
        rewrite length_insert. split; [exact Hlen|]. split.
        { intros i Hi. destruct (decide (i = k)) as [->|].
          - rewrite list_lookup_insert_eq by lia. symmetry. exact Ef.
          - rewrite list_lookup_insert_ne by congruence. apply Hlow. lia. }
        { intros i Hi Hi'. rewrite list_lookup_insert_ne by lia. apply Hhigh; lia. }
    + wp_step. split; [exact Hb'|]. exists u. split; [exact Ho|]. split; [exact Hlen|].
      split; [|intros i Hi Hi'; apply Hhigh; lia]. intros i Hi.
      destruct (decide (i = k)) as [->|]; [rewrite Ef; apply Hhigh; lia|]. apply Hlow. lia.
    + apply lookup_ge_None in Ef. lia.
  - intros [] s' (Hb' & u & Ho & Hlen & Hlow & _). split; [exact Hb'|]. rewrite Ho. f_equal.
    rewrite length_seq in Hlow. apply list_eq. intros i.
    destruct (decide (i < length t)%nat) as [Hi|Hi]; [apply Hlow; unfold NOFILE in *; lia|].
    rewrite !lookup_ge_None_2 by lia. reflexivity.
Qed.
End FileFacts.

Module FileProps.
Import File FileFacts.

(** The system calls that change the descriptors, with what the rest of the
    kernel decides: the page for a pipe, the inode found, the slots. *)
Inductive call :=
  | Dup (p : nat) (fd : Z)
  | Close (p : nat) (fd : Z)
  | PipeCall (p : nat) (page : option Z)
  | Open (p : nat) (inode omode : Z)
  | Fork (proc np : nat)
  | Exit (p : nat).

Definition ignore {A} (m : K sys A) : K sys unit := m ;; skip.
Definition exec (c : call) : K sys unit :=
  match c with
  | Dup p fd => ignore (sys_dup p fd)
  | Close p fd => ignore (sys_close p fd)
  | PipeCall p page => ignore (sys_pipe p page)
  | Open p inode omode => ignore (open_inode p inode omode)
  | Fork proc np => fork_files proc np
  | Exit p => exit_files p
  end.

(** A process slot of the table calls; a new process has no descriptors. *)
Definition legal (s : sys) (c : call) : Prop :=
  match c with
  | Dup p _ | Close p _ | PipeCall p _ | Open p _ _ | Exit p => Z.of_nat p < NPROC
  | Fork proc np => Z.of_nat proc < NPROC /\ proc <> np /\
      ofile s !! np = Some (replicate (Z.to_nat NOFILE) None)
  end.
Definition step (s s' : sys) : Prop := exists c, legal s c /\ exec c s = Ok (tt, s').

(** The tables after boot. *)
Definition boot : sys := Sys (replicate (Z.to_nat NFILE) (MkFile FD_NONE 0 false false 0 0 0))
  (replicate (Z.to_nat NPROC) (replicate (Z.to_nat NOFILE) None)) [].

Lemma boot_balanced : balanced boot.
Proof.
  split; try reflexivity.
  - apply Forall_replicate. reflexivity.
  - intros p t fd i Hp Ht. apply lookup_replicate in Hp as [-> _]. apply lookup_replicate in Ht as [Ht _].
    discriminate.
  - intros i v Hv. apply lookup_replicate in Hv as [-> _]. unfold file_ok.
    split; [|split; [simpl; lia|reflexivity]]. unfold descriptors. simpl ref. rewrite Z.add_0_r. symmetry.
    assert (H : forall n m, occ i (concat (replicate n (replicate m None))) = 0).
    { assert (H0 : forall m, occ i (replicate m None) = 0)
        by (induction m as [|m IH]; simpl; [reflexivity|]; unfold one; rewrite decide_False by discriminate; exact IH).
      induction n as [|n IH]; intros m; simpl; [reflexivity|]. rewrite occ_app, H0, IH. reflexivity. }
    apply H.
Qed.

Lemma exec_balanced s c : balanced s -> legal s c -> wp (exec c) (fun _ => balanced) s.
Proof.
  intros Hb. assert (Ht : forall p, Z.of_nat p < NPROC -> exists t, ofile s !! p = Some t).
  { intros p Hp. apply lookup_lt_is_Some_2. pose proof (inv_procs _ _ Hb). lia. }
  assert (Hig : forall A (m : K sys A), wp m (fun _ => balanced) s -> wp (ignore m) (fun _ => balanced) s).
  { intros A m H. apply wp_bind. eapply wp_mono; [exact H|]. intros a s' H'. wp_step. exact H'. }
  destruct c as [p fd|p fd|p page|p inode omode|proc np|p]; simpl.
  - intros Hp. destruct (Ht p Hp). eapply Hig, sys_dup_balanced; eauto.
  - intros Hp. destruct (Ht p Hp). eapply Hig, sys_close_balanced; eauto.
  - intros Hp. destruct (Ht p Hp). eapply Hig, sys_pipe_balanced; eauto.
  - intros Hp. destruct (Ht p Hp). eapply Hig, open_balanced; eauto.
  - intros (Hp & Hne & Hn). destruct (Ht proc Hp) as [t Htt]. pose proof (table_length _ _ _ _ Hb Htt).
    eapply wp_mono; [apply (fork_files_spec s proc np t Hb Hne Htt)|].
    + rewrite Hn. replace (length t) with (Z.to_nat NOFILE) by lia. reflexivity.
    + intros [] s' [H' _]. exact H'.
  - intros Hp. destruct (Ht p Hp) as [t Htt]. eapply wp_mono; [apply (exit_files_spec s p t Hb Htt)|].
    intros [] s' [H' _]. exact H'.
Qed.

(** C29: after any sequence of system calls from boot, the reference count of every
    file is exactly the number of descriptors, over all processes, that name
    it; the next call never panics and never leaves the tables. *)
Theorem file_refcounts_exact (s : sys) : rtc step boot s ->
  (forall i v, ftable s !! i = Some v -> ref v = descriptors i s) /\
  (forall c, legal s c -> exists s', exec c s = Ok (tt, s') /\ step s s').
Proof.
  intros Hs. assert (Hb : balanced s).
  { revert s Hs. apply rtc_ind_r; [exact boot_balanced|]. intros s1 s2 _ (c & Hl & E) H1. destruct (exec_balanced _ _ H1 Hl) as ([] & s' & E' & H').
    rewrite E in E'. injection E' as <-. exact H'. }
  split.
  - intros i v Hv. destruct (inv_refs _ _ Hb i v Hv) as (E & _). lia.
  - intros c Hl. destruct (exec_balanced _ _ Hb Hl) as ([] & s' & E & _).
    exists s'. split; [exact E|]. exists c. auto.
Qed.

Definition after (cs : list call) : sys :=
  match forM cs exec boot with Ok (_, s) => s | _ => boot end.

(** A process opens a pipe, forks, and the child closes the write end. *)
Definition used : sys := after [PipeCall 1 (Some 7); Dup 1 0; Fork 1 2; Close 2 1].

Lemma file_refcounts_exact_witness :
  (exists v0, ftable used !! 0%nat = Some v0 /\ ref v0 = 4 /\ descriptors 0 used = 4) /\
  (exists v1, ftable used !! 1%nat = Some v1 /\ ref v1 = 1).
Proof.
  assert (Hs : rtc step boot used).
  { apply (rtc_l _ _ (after [PipeCall 1 (Some 7)])); [exists (PipeCall 1 (Some 7)); split; reflexivity|].
    apply (rtc_l _ _ (after [PipeCall 1 (Some 7); Dup 1 0])); [exists (Dup 1 0); split; reflexivity|].
    apply (rtc_l _ _ (after [PipeCall 1 (Some 7); Dup 1 0; Fork 1 2]));
      [exists (Fork 1 2); split; [split; [reflexivity|split; [discriminate|reflexivity]]|reflexivity]|].
    apply (rtc_l _ _ used); [exists (Close 2 1); split; reflexivity|apply rtc_refl]. }
  destruct (file_refcounts_exact used Hs) as [H _].
  split; eexists; (split; [reflexivity|]); [split; [reflexivity|]|reflexivity].
  rewrite <- (H 0%nat _ eq_refl). reflexivity.
Defined.
End FileProps.

