(* ===== verification/ShRun.v ===== *)
(** How the shell executes a parsed command (runcmd and fork1 of sh.c): the
    system calls of the shell process and of the children it forks, as a tree
    that branches where a call may fail, and the effect of those calls on the
    descriptor table as the kernel defines it. *)

From S2P Require Import Prelude Sh File.

Module Run.
Import Sh File.

(** The calls of one process.  A process that forks continues as two. *)
Inductive proc :=
  | PExit
  | PPanic (msg : string)
  | PExec (path : list Z) (argv : list (list Z)) (fails : proc)
  | PPrintf (msg : string) (arg : list Z) (next : proc)
  | PClose (fd : Z) (next : proc)
  | PDup (fd : Z) (next : proc)
  | POpen (file : list Z) (mode : Z) (fails next : proc)
  | PPipe (fails : proc) (next : Z -> Z -> proc)
  | PFork (fails child parent : proc)
  | PWait (next : proc).

(** [if(fork1() == 0) child; parent] *)
Definition fork1 (child parent : proc) : proc := PFork (PPanic "fork") child parent.

Fixpoint runcmd (c : tree) : proc :=
  match c with
  | TExec [] => PExit
  | TExec (path :: args) => PExec path (path :: args) (PPrintf "exec %s failed" path PExit)
  | TRedir c file mode fd => PClose fd (POpen file mode (PPrintf "open %s failed" file PExit) (runcmd c))
  | TList l r => fork1 (runcmd l) (PWait (runcmd r))
  | TPipe l r =>
      PPipe (PPanic "pipe") (fun p0 p1 =>
        fork1 (PClose 1 (PDup p1 (PClose p0 (PClose p1 (runcmd l)))))
       (fork1 (PClose 0 (PDup p0 (PClose p0 (PClose p1 (runcmd r)))))
       (PClose p0 (PClose p1 (PWait (PWait PExit))))))
  | TBack c => fork1 (runcmd c) PExit
  end.

(** ** The calls on a descriptor table *)

(** What a descriptor refers to. *)
Inductive object :=
  | Inherited (i : nat)
  | Opened (file : list Z) (mode : Z)
  | ReadEnd (pipe : nat)
  | WriteEnd (pipe : nat).
Definition table := list (option object).

(** [fdalloc] on the table of the process. *)
Definition alloc (o : object) (t : table) : option (nat * table) :=
  match list_find (fun x => x = None) t with
  | Some (fd, _) => Some (fd, <[fd := Some o]> t)
  | None => None
  end.
Definition close (fd : Z) (t : table) : table :=
  if (fd <? 0) || (NOFILE <=? fd) then t else <[Z.to_nat fd := None]> t.
Definition dup (fd : Z) (t : table) : table :=
  if (fd <? 0) || (NOFILE <=? fd) then t
  else match t !! Z.to_nat fd with
       | Some (Some o) => match alloc o t with Some (_, t') => t' | None => t end
       | _ => t
       end.

(** A program that was started, with its descriptors. *)
Definition job := (list (list Z) * table)%type.

Section run.
(** Whether a file can be opened in a mode. *)
Context (openable : list Z -> Z -> bool).

(** All programs that the process and its children start, those of a child
    before those of its parent, when there is memory for processes and pipes and
    the programs exist; [n] numbers the pipes. *)
Fixpoint run (n : nat) (t : table) (p : proc) : list job * nat :=
  match p with
  | PExit | PPanic _ => ([], n)
  | PExec _ argv _ => ([(argv, t)], n)
  | PPrintf _ _ next => run n t next
  | PClose fd next => run n (close fd t) next
  | PDup fd next => run n (dup fd t) next
  | POpen file mode fails next =>
      if openable file mode
      then match alloc (Opened file mode) t with
           | Some (_, t') => run n t' next
           | None => run n t fails
           end
      else run n t fails
  | PPipe fails next =>
      match alloc (ReadEnd n) t with
      | Some (fd0, t0) =>
          match alloc (WriteEnd n) t0 with
          | Some (fd1, t1) => run (S n) t1 (next (Z.of_nat fd0) (Z.of_nat fd1))
          | None => run n t fails
          end
      | None => run n t fails
      end
  | PFork _ child parent =>
      let '(js, n) := run n t child in
      let '(js', n) := run n t parent in
      (js ++ js', n)
  | PWait next => run n t next
  end.

(** ** What the command means *)

(** The programs of a command started with standard input [i], output [o] and
    error [e]. *)
Fixpoint started (n : nat) (i o e : object) (c : tree) : list (list (list Z) * (object * object * object)) * nat :=
  match c with
  | TExec [] => ([], n)
  | TExec argv => ([(argv, (i, o, e))], n)
  | TRedir c file mode fd =>
      if openable file mode
      then if fd =? 0 then started n (Opened file mode) o e c else started n i (Opened file mode) e c
      else ([], n)
  | TPipe l r =>
      let '(js, m) := started (S n) i (WriteEnd n) e l in
      let '(js', m) := started m (ReadEnd n) o e r in
      (js ++ js', m)
  | TList l r =>
      let '(js, m) := started n i o e l in
      let '(js', m) := started m i o e r in
      (js ++ js', m)
  | TBack c => started n i o e c
  end.
End run.

(** A table with the three standard descriptors and nothing else. *)
Definition standard (i o e : object) : table := [Some i; Some o; Some e] ++ replicate 13 None.
Definition as_job (j : list (list Z) * (object * object * object)) : job :=
  let '(argv, (i, o, e)) := j in (argv, standard i o e).
End Run.

Module RunFacts.
Import Sh Run.

(** The redirections of the shell are those of standard input and output. *)
Fixpoint redirects_std (c : tree) : Prop :=
  match c with
  | TExec _ => True
  | TRedir c _ _ fd => redirects_std c /\ (fd = 0 \/ fd = 1)
  | TPipe l r | TList l r => redirects_std l /\ redirects_std r
  | TBack c => redirects_std c
  end.

Lemma run_jobs openable c : redirects_std c -> forall n i o e,
  run openable n (standard i o e) (runcmd c) =
  (as_job <$> (started openable n i o e c).1, (started openable n i o e c).2).
Proof.
  induction c as [[|path args]|c IH file mode fd|l IHl r IHr|l IHl r IHr|c IH]; intros Hc n i o e.
  - reflexivity.
  - reflexivity.
  - destruct Hc as [Hc [-> | ->]]; cbn [runcmd run started]; destruct (openable file mode); try reflexivity.
    + apply (IH Hc).
    + apply (IH Hc).
  - destruct Hc as [Hl Hr]. cbn [runcmd run started fork1].
    change (alloc (ReadEnd n) (standard i o e)) with
      (Some (3%nat, [Some i; Some o; Some e; Some (ReadEnd n)] ++ replicate 12 None)).
    cbv iota beta.
    change (alloc (WriteEnd n) ([Some i; Some o; Some e; Some (ReadEnd n)] ++ replicate 12 None)) with
      (Some (4%nat, [Some i; Some o; Some e; Some (ReadEnd n); Some (WriteEnd n)] ++ replicate 11 None)).
    cbv iota beta. set (t := [Some i; Some o; Some e; Some (ReadEnd n); Some (WriteEnd n)] ++ replicate 11 None).
    cbn [run].
    change (close (Z.of_nat 4) (close (Z.of_nat 3) (dup (Z.of_nat 4) (close 1 t))))
      with (standard i (WriteEnd n) e).
    change (close (Z.of_nat 4) (close (Z.of_nat 3) (dup (Z.of_nat 3) (close 0 t))))
      with (standard (ReadEnd n) o e).
    rewrite (IHl Hl). destruct (started openable (S n) i (WriteEnd n) e l) as [js m]. cbn [fst snd].
    rewrite (IHr Hr). destruct (started openable m (ReadEnd n) o e r) as [js' m']. cbn [fst snd].
    rewrite fmap_app, app_nil_r. reflexivity.
  - destruct Hc as [Hl Hr]. cbn [runcmd run started fork1].
    rewrite (IHl Hl). destruct (started openable n i o e l) as [js m]. cbn [fst snd].
    rewrite (IHr Hr). destruct (started openable m i o e r) as [js' m']. cbn [fst snd].
    rewrite fmap_app. reflexivity.
  - cbn [runcmd run started fork1]. rewrite (IH Hc).
    destruct (started openable n i o e c) as [js m]. cbn [fst snd]. rewrite app_nil_r. reflexivity.
Qed.
End RunFacts.

Module RunProps.
Import Sh Run RunFacts.

(** C31: a command run by a process that has only its three standard descriptors
    starts exactly the programs the command means, in order, each with exactly
    three descriptors: pipes join the standard output of the left side to the
    standard input of the right one, redirections replace one of the two, and no
    other descriptor, in particular no end of a pipe, is left open in any
    program.  A file that cannot be opened starts nothing. *)
Theorem runcmd_wires_descriptors (openable : list Z -> Z -> bool) (c : tree) (n : nat) (i o e : object) :
  redirects_std c ->
  run openable n (standard i o e) (runcmd c) =
  (as_job <$> (started openable n i o e c).1, (started openable n i o e c).2).
Proof. intros H. apply run_jobs, H. Qed.

(** [a | (b | c) > f] *)
Lemma runcmd_wires_descriptors_witness :
  run (fun _ _ => true) 0 (standard (Inherited 0) (Inherited 1) (Inherited 2))
    (runcmd (TPipe (TExec [[97]]) (TRedir (TPipe (TExec [[98]]) (TExec [[99]])) [102] 0x201 1))) =
  ([([[97]], standard (Inherited 0) (WriteEnd 0) (Inherited 2));
    ([[98]], standard (ReadEnd 0) (WriteEnd 1) (Inherited 2));
    ([[99]], standard (ReadEnd 1) (Opened [102] 0x201) (Inherited 2))], 2%nat).
Proof.
  apply (runcmd_wires_descriptors (fun _ _ => true)
    (TPipe (TExec [[97]]) (TRedir (TPipe (TExec [[98]]) (TExec [[99]])) [102] 0x201 1))).
  repeat split. right. reflexivity.
Defined.
End RunProps.
