(* ===== verification/Pipe.v ===== *)
(** Pipes (pipe.c) and the wait lists of select (select.c), with the part of
    sys_select in sysfile.c that registers and clears them.

    A pipe is a ring of 512 bytes with 32-bit counters.  The functions of pipe.c
    run under the lock of the pipe and give it up only where they sleep, so
    between two sleeps they are atomic: [pipewrite] and [piperead] are modelled
    as the section from where they hold the lock to the return or to the next
    sleep.  Processes are numbers; the state also has the processes asleep, each
    with the channel it sleeps on, and [wakeup] takes those of a channel out. *)

From S2P Require Import Prelude.

Module Select.

Definition NSELPROC : Z := 16.

(** A wait list; [sel[i]] is the address of [selid] in the process that waits and
    [lk[i]] its lock, both named by the process. *)
Record selproc := Selproc {
  sel : list (option nat);
  lk : list (option nat);
  selcount : Z;
}.

(** The locks are left as they are. *)
Definition initselproc (s : selproc) : selproc := Selproc ((fun _ => None) <$> sel s) (lk s) 0.

Definition clear_step (selid : nat) (s : selproc) (i : nat) : selproc :=
  if decide (sel s !! i = Some (Some selid))
  then Selproc (<[i := None]> (sel s)) (lk s) (s32 (selcount s - 1)) else s.
Definition clearselid (s : selproc) (selid : nat) : selproc :=
  foldl (clear_step selid) s (seq 0 (Z.to_nat NSELPROC)).

Definition addselid (s : selproc) (selid lock : nat) : selproc :=
  match list_find (fun x => x = None) (sel s) with
  | Some (i, _) => Selproc (<[i := Some selid]> (sel s)) (<[i := Some lock]> (lk s)) (s32 (selcount s + 1))
  | None => s
  end.
End Select.

Module Pipe.
Import Select.

Definition PIPESIZE : Z := 512.

Record pipe := MkPipe {
  data : list Z;
  nread : Z;
  nwrite : Z;
  readopen : bool;
  writeopen : bool;
  selprocread : selproc;
  selprocwrite : selproc;
}.

(** Channels: the two counters of the pipe, and [selid] of a process. *)
Inductive chan := NRead | NWrite | SelId (p : nat).
#[export] Instance chan_eq_dec : EqDecision chan.
Proof. solve_decision. Defined.

Record state := State {
  the_pipe : pipe;
  asleep : list (nat * chan);
}.

Definition wakeup (c : chan) (s : state) : state :=
  State (the_pipe s) (filter (fun x => x.2 <> c) (asleep s)).
Definition sleep (p : nat) (c : chan) (s : state) : state := State (the_pipe s) ((p, c) :: asleep s).

(** select.c [wakeupselect] *)
Definition wakeupselect (l : selproc) (s : state) : state :=
  foldl (fun s x => match x with Some p => wakeup (SelId p) s | None => s end) s (sel l).

Definition set_pipe (p : pipe) (s : state) : state := State p (asleep s).

(** The initialisation in [pipealloc], on the page [kalloc] returned. *)
Definition init (page : pipe) : pipe :=
  MkPipe (data page) 0 0 true true (initselproc (selprocread page)) (initselproc (selprocwrite page)).

(** [pipeclose]; whether the page is freed. *)
Definition pipeclose (writable : bool) (s : state) : bool * state :=
  let p := the_pipe s in
  let s :=
    if writable
    then wakeup NRead (wakeupselect (selprocread p)
           (set_pipe (MkPipe (data p) (nread p) (nwrite p) (readopen p) false (selprocread p) (selprocwrite p)) s))
    else wakeup NWrite (wakeupselect (selprocwrite p)
           (set_pipe (MkPipe (data p) (nread p) (nwrite p) false (writeopen p) (selprocread p) (selprocwrite p)) s)) in
  (negb (readopen (the_pipe s)) && negb (writeopen (the_pipe s)), s).

Definition is_full (p : pipe) : bool := nwrite p =? u32 (nread p + PIPESIZE).
Definition is_empty (p : pipe) : bool := nread p =? nwrite p.

(** [p->data[p->nwrite++ % PIPESIZE] = c] *)
Definition put (c : Z) (p : pipe) : pipe :=
  MkPipe (<[Z.to_nat (nwrite p mod PIPESIZE) := c]> (data p)) (nread p) (u32 (nwrite p + 1))
    (readopen p) (writeopen p) (selprocread p) (selprocwrite p).
(** [p->data[p->nread++ % PIPESIZE]] *)
Definition take1 (p : pipe) : Z * pipe :=
  (data p !!! Z.to_nat (nread p mod PIPESIZE),
   MkPipe (data p) (u32 (nread p + 1)) (nwrite p) (readopen p) (writeopen p) (selprocread p) (selprocwrite p)).

Inductive wresult :=
  | WDone                    (** all bytes written *)
  | WError (rest : list Z)   (** -1; [rest] was not written *)
  | WSleep (rest : list Z).  (** asleep before writing [rest] *)

(** A section of [pipewrite] by process [me], with the bytes still to write. *)
Fixpoint pipewrite (me : nat) (killed : bool) (bytes : list Z) (s : state) : wresult * state :=
  match bytes with
  | [] => (WDone, wakeup NRead (wakeupselect (selprocread (the_pipe s)) s))
  | c :: rest =>
      if is_full (the_pipe s) then
        if negb (readopen (the_pipe s)) || killed then (WError bytes, s)
        else (WSleep bytes,
              sleep me NWrite (wakeup NRead (wakeupselect (selprocread (the_pipe s)) s)))
      else pipewrite me killed rest (set_pipe (put c (the_pipe s)) s)
  end.

Inductive rresult :=
  | RBytes (bs : list Z)
  | RError
  | RSleep.

(** The copy loop of [piperead]. *)
Fixpoint read_loop (n : nat) (p : pipe) : list Z * pipe :=
  match n with
  | O => ([], p)
  | S n =>
      if is_empty p then ([], p)
      else let '(c, p) := take1 p in let '(bs, p) := read_loop n p in (c :: bs, p)
  end.

Definition piperead (me : nat) (killed : bool) (n : Z) (s : state) : rresult * state :=
  let p := the_pipe s in
  if is_empty p && writeopen p then
    if killed then (RError, s) else (RSleep, sleep me NRead s)
  else
    let '(bs, p') := read_loop (Z.to_nat n) p in
    (RBytes bs, wakeup NWrite (wakeupselect (selprocwrite p') (set_pipe p' s))).

Definition pipewriteable (killed : bool) (p : pipe) : Z :=
  if negb (readopen p) || killed then -1 else if is_full p then 0 else 1.
Definition pipereadable (killed : bool) (p : pipe) : Z :=
  if killed then -1 else if negb (is_empty p) || negb (writeopen p) then 1 else 0.

(** [pipeselect] and [pipeclrsel]; [selid] is the value of the cell. *)
Definition pipeselect (me : nat) (selid : Z) (p : pipe) : pipe :=
  if selid =? 5
  then if selcount (selprocread p) <? NSELPROC
       then MkPipe (data p) (nread p) (nwrite p) (readopen p) (writeopen p)
              (addselid (selprocread p) me me) (selprocwrite p) else p
  else if selcount (selprocwrite p) <? NSELPROC
       then MkPipe (data p) (nread p) (nwrite p) (readopen p) (writeopen p)
              (selprocread p) (addselid (selprocwrite p) me me) else p.
Definition pipeclrsel (me : nat) (selid : Z) (p : pipe) : pipe :=
  if selid =? 5
  then MkPipe (data p) (nread p) (nwrite p) (readopen p) (writeopen p)
         (clearselid (selprocread p) me) (selprocwrite p)
  else MkPipe (data p) (nread p) (nwrite p) (readopen p) (writeopen p)
         (selprocread p) (clearselid (selprocwrite p) me).
End Pipe.

(** ** sys_select *)
Module SysSelect.
Import Select.

(** What file.c does for select on one kind of file: [filereadable],
    [filewriteable], [fileselect] and [fileclrsel]. *)
Class Selectable (F : Type) := {
  filereadable : F -> Z;
  filewriteable : F -> Z;
  fileselect : nat -> Z -> F -> F;
  fileclrsel : nat -> Z -> F -> F;
}.

(** select.h *)
Definition FD_ISSET (fd set : Z) : bool := negb (Z.land set (u32 (Z.shiftl 1 fd)) =? 0).
Definition FD_SET (fd set : Z) : Z := Z.lor set (u32 (Z.shiftl 1 fd)).
Definition FD_CLR (fd set : Z) : Z := Z.land set (Z.lnot (u32 (Z.shiftl 1 fd))).

Section select.
Context {F : Type} `{Selectable F}.

(** The files of the process and its [selid]. *)
Record pstate := PState {
  ofile : list (option F);
  selid : Z;
}.

Definition get_ofile (x : Z) : K pstate (option F) := fun s =>
  lift_opt "descriptor outside ofile" (ofile s !! Z.to_nat x) s.

(** One round of the first loop: the two result sets and [found_something]. *)
Definition check_fd (readfds writefds : Z) (acc : Z * Z * bool) (x : Z) : K pstate (Z * Z * bool) :=
  let '(rr, rw, found) := acc in
  file ← get_ofile x;
  let ready (f : F -> Z) := match file with Some v => 0 <? f v | None => false end in
  let '(rr, found) :=
    if FD_ISSET x readfds && ready filereadable then (FD_SET x rr, true) else (rr, found) in
  mret (if FD_ISSET x writefds && ready filewriteable then (rr, FD_SET x rw, true) else (rr, rw, found)).
Definition check (nfds readfds writefds : Z) : K pstate (Z * Z * bool) :=
  foldM (seqZ 0 nfds) (check_fd readfds writefds) (0, 0, false).

(** [f(file, &proc->selid, ...)] on a descriptor; without an open file the code
    follows a null pointer. *)
Definition on_file (f : nat -> Z -> F -> F) (me : nat) (x : Z) : K pstate unit :=
  file ← get_ofile x;
  match file with
  | Some v => modify (fun s => PState (<[Z.to_nat x := Some (f me (selid s) v)]> (ofile s)) (selid s))
  | None => fault "null file pointer"
  end.
Definition set_selid (v : Z) : K pstate unit := modify (fun s => PState (ofile s) v).

Definition register_fd (me : nat) (readfds writefds : Z) (x : Z) : K pstate unit :=
  (if FD_ISSET x readfds then set_selid 5 ;; on_file fileselect me x else skip) ;;
  (if FD_ISSET x writefds then set_selid 6 ;; on_file fileselect me x else skip).
Definition register (me : nat) (nfds readfds writefds : Z) : K pstate unit :=
  forM (seqZ 0 nfds) (register_fd me readfds writefds).

(** The loop after waking up; [selid] still has the value set last. *)
Definition clear_fd (me : nat) (readfds writefds : Z) (x : Z) : K pstate unit :=
  (if FD_ISSET x readfds then on_file fileclrsel me x else skip) ;;
  (if FD_ISSET x writefds then on_file fileclrsel me x else skip).
Definition clear (me : nat) (nfds readfds writefds : Z) : K pstate unit :=
  forM (seqZ 0 nfds) (clear_fd me readfds writefds).

(** The process sleeps for ever. *)
Definition blocked : K pstate (Z * Z) := fun _ => Spin.

(** The body of the call: check, and if nothing is ready register, sleep and clear.
    [others] is what the other processes do to the files while this one sleeps;
    each of its elements is one time the process sleeps and is woken. *)
Fixpoint sys_select (me : nat) (nfds readfds writefds : Z) (others : list (list (option F) -> list (option F)))
    : K pstate (Z * Z) :=
  r ← check nfds readfds writefds;
  let '(rr, rw, found) := r in
  if (found : bool) then mret (rr, rw)
  else
    register me nfds readfds writefds ;;
    match others with
    | [] => blocked
    | o :: others =>
        modify (fun s => PState (o (ofile s)) (selid s)) ;;
        clear me nfds readfds writefds ;;
        sys_select me nfds readfds writefds others
    end.
End select.
Arguments pstate : clear implicits.

(** Pipes, for a process that has not been killed. *)
#[export] Instance pipe_selectable : Selectable Pipe.pipe := {|
  filereadable := Pipe.pipereadable false;
  filewriteable := Pipe.pipewriteable false;
  fileselect := Pipe.pipeselect;
  fileclrsel := Pipe.pipeclrsel;
|}.
End SysSelect.

Module PipeFacts.
Import Select Pipe.

(** ** The ring *)

Lemma u32_mod_size x : u32 x mod PIPESIZE = x mod PIPESIZE.
Proof.
  unfold u32, PIPESIZE. apply Z.mod_mod_divide. exists 8388608. reflexivity.
Qed.

(** The bytes in the pipe, oldest first. *)
Record contains (p : pipe) (bs : list Z) : Prop := {
  c_data : Z.of_nat (length (data p)) = PIPESIZE;
  c_nread : is_u32 (nread p);
  c_nwrite : nwrite p = u32 (nread p + Z.of_nat (length bs));
  c_size : Z.of_nat (length bs) <= PIPESIZE;
  c_bytes : forall k x, bs !! k = Some x ->
    data p !! Z.to_nat ((nread p + Z.of_nat k) mod PIPESIZE) = Some x;
}.

Lemma u32_inj_near a n m : 0 <= n <= PIPESIZE -> 0 <= m <= PIPESIZE -> u32 (a + n) = u32 (a + m) -> n = m.
Proof.
  unfold PIPESIZE, u32. intros Hn Hm E.
  assert (Hd : (n - m) mod 4294967296 = 0).
  { replace (n - m) with ((a + n) - (a + m)) by lia. rewrite Zminus_mod, E, Z.sub_diag. reflexivity. }
  apply Z.mod_divide in Hd as [k Hk]; [|lia]. nia.
Qed.

Lemma full_iff p bs : contains p bs -> is_full p = true <-> Z.of_nat (length bs) = PIPESIZE.
Proof.
  intros C. unfold is_full. rewrite Z.eqb_eq, (c_nwrite _ _ C). pose proof (c_size _ _ C). split.
  - apply u32_inj_near; unfold PIPESIZE in *; lia.
  - intros ->. reflexivity.
Qed.

Lemma empty_iff p bs : contains p bs -> is_empty p = true <-> bs = [].
Proof.
  intros C. unfold is_empty. rewrite Z.eqb_eq, (c_nwrite _ _ C). pose proof (c_size _ _ C). split.
  - intros E. rewrite <- (u32_id _ (c_nread _ _ C)) in E at 1.
    replace (nread p) with (nread p + 0) in E at 1 by lia.
    apply u32_inj_near in E; [|unfold PIPESIZE in *; lia..]. destruct bs; [reflexivity|discriminate].
  - intros ->. simpl. rewrite Z.add_0_r, u32_id; [reflexivity|apply C].
Qed.

Lemma put_contains p bs c : contains p bs -> Z.of_nat (length bs) < PIPESIZE -> contains (put c p) (bs ++ [c]).
Proof.
  intros C Hl. pose proof (c_data _ _ C) as Hd.
  assert (Hi : nwrite p mod PIPESIZE = (nread p + Z.of_nat (length bs)) mod PIPESIZE).
  { rewrite (c_nwrite _ _ C). apply u32_mod_size. }
  split; cbn [put data nread nwrite].
  - rewrite length_insert. exact Hd.
  - apply C.
  - rewrite length_app, (c_nwrite _ _ C). unfold u32. rewrite Zplus_mod_idemp_l. simpl. f_equal. lia.
  - rewrite length_app. simpl. lia.
  - intros k x Hx. rewrite Hi. destruct (decide (k < length bs)%nat) as [Hk|Hk].
    + rewrite lookup_app_l in Hx by exact Hk. rewrite list_lookup_insert_ne; [apply (c_bytes _ _ C), Hx|].
      intros E. apply Z2Nat.inj in E; [|apply Z.mod_pos_bound; unfold PIPESIZE; lia..].
      assert (Hm : (Z.of_nat (length bs) - Z.of_nat k) mod PIPESIZE = 0).
      { replace (Z.of_nat (length bs) - Z.of_nat k)
          with ((nread p + Z.of_nat (length bs)) - (nread p + Z.of_nat k)) by lia.
        rewrite Zminus_mod, E, Z.sub_diag. reflexivity. }
      rewrite Z.mod_small in Hm by lia. lia.
    + rewrite lookup_app_r in Hx by lia. apply list_lookup_singleton_Some in Hx as [Hk0 <-].
      replace (Z.of_nat k) with (Z.of_nat (length bs)) by lia. apply list_lookup_insert_eq.
      pose proof (Z.mod_pos_bound (nread p + Z.of_nat (length bs)) PIPESIZE). unfold PIPESIZE in *. lia.
Qed.

Lemma take_contains p b bs : contains p (b :: bs) -> exists p', take1 p = (b, p') /\ contains p' bs.
Proof.
  intros C. eexists. split.
  - unfold take1. f_equal. apply list_lookup_total_correct.
    pose proof (c_bytes _ _ C O b eq_refl) as Hb. rewrite Z.add_0_r in Hb. exact Hb.
  - pose proof (c_size _ _ C) as Hs. cbn [length] in Hs. split; cbn [data nread nwrite].
    + apply C.
    + apply u32_is_u32.
    + rewrite (c_nwrite _ _ C). unfold u32. rewrite Zplus_mod_idemp_l. cbn [length]. f_equal. lia.
    + lia.
    + intros k x Hx. rewrite <- (c_bytes _ _ C (S k) x Hx). do 2 f_equal.
      rewrite Zplus_mod, u32_mod_size, <- Zplus_mod. f_equal. lia.
Qed.

Lemma read_loop_contains n : forall p bs, contains p bs ->
  exists p', read_loop n p = (take n bs, p') /\ contains p' (drop n bs) /\
    readopen p' = readopen p /\ writeopen p' = writeopen p /\ selprocwrite p' = selprocwrite p.
Proof.
  induction n as [|n IH]; intros p bs C; [exists p; rewrite take_0, drop_0; auto|]. cbn [read_loop].
  destruct (is_empty p) eqn:E.
  - apply (empty_iff _ _ C) in E as ->. exists p. auto.
  - destruct bs as [|b bs]; [rewrite (proj2 (empty_iff _ _ C) eq_refl) in E; discriminate|].
    destruct (take_contains _ _ _ C) as (p1 & E1 & C1). rewrite E1.
    destruct (IH p1 bs C1) as (p2 & -> & C2 & H2). exists p2. split; [reflexivity|]. split; [exact C2|].
    unfold take1 in E1. injection E1 as _ <-. exact H2.
Qed.

(** ** Sections *)

Lemma wakeupselect_pipe l s : the_pipe (wakeupselect l s) = the_pipe s.
Proof.
  unfold wakeupselect. revert s. induction (sel l) as [|[q|] xs IH]; intros s; simpl; [reflexivity| |apply IH].
  rewrite IH. reflexivity.
Qed.

Lemma wakeupselect_asleep l s x : x ∈ asleep (wakeupselect l s) -> x ∈ asleep s.
Proof.
  unfold wakeupselect. revert s. induction (sel l) as [|[q|] xs IH]; intros s; simpl; [auto| |apply IH].
  intros H. apply IH in H. simpl in H. apply list_elem_of_filter in H. apply H.
Qed.

Definition same_ends (p p' : pipe) : Prop := readopen p' = readopen p /\ writeopen p' = writeopen p.

(** What a section of [pipewrite] leaves, by result. *)
Definition written (killed : bool) (bs bytes : list Z) (s : state) (r : wresult) (s' : state) : Prop :=
  exists done rest, bytes = done ++ rest /\ contains (the_pipe s') (bs ++ done) /\
    same_ends (the_pipe s) (the_pipe s') /\
    match r with
    | WDone => rest = []
    | WError r' => r' = rest /\ is_full (the_pipe s') = true /\ (readopen (the_pipe s) = false \/ killed = true)
    | WSleep r' => r' = rest /\ is_full (the_pipe s') = true /\ readopen (the_pipe s) = true
    end.

Lemma pipewrite_written me killed bytes : forall bs s r s', contains (the_pipe s) bs ->
  pipewrite me killed bytes s = (r, s') -> written killed bs bytes s r s'.
Proof.
  induction bytes as [|c bytes IH]; intros bs s r s' C E; cbn [pipewrite] in E.
  - injection E as <- <-. exists [], []. split; [reflexivity|]. rewrite (app_nil_r bs). simpl.
    rewrite wakeupselect_pipe. split; [exact C|]. repeat split.
  - destruct (is_full (the_pipe s)) eqn:Ef.
    + destruct (negb (readopen (the_pipe s)) || killed) eqn:Ek; injection E as <- <-;
        exists [], (c :: bytes); rewrite app_nil_r; simpl; rewrite ?wakeupselect_pipe;
        (split; [reflexivity|]); (split; [exact C|]); (split; [split; reflexivity|]);
        (split; [reflexivity|]); (split; [exact Ef|]).
      * destruct (readopen (the_pipe s)); simpl in Ek; auto.
      * destruct (readopen (the_pipe s)); [reflexivity|discriminate].
    + assert (Hl : Z.of_nat (length bs) < PIPESIZE).
      { pose proof (c_size _ _ C). pose proof (proj2 (full_iff _ _ C)) as Hf. rewrite Ef in Hf.
        destruct (decide (Z.of_nat (length bs) = PIPESIZE)) as [e|]; [discriminate (Hf e)|lia]. }
      pose proof (put_contains _ _ c C Hl) as C'. 
      apply (IH _ (set_pipe (put c (the_pipe s)) s) _ _ C') in E. destruct E as (done & rest & -> & C2 & Hs & Hr). exists (c :: done), rest.
      rewrite <- app_assoc in C2. auto.
Qed.

(** ** Streams *)

Inductive event :=
  | EWrite (me : nat) (killed : bool) (bytes : list Z)
  | ERead (me : nat) (killed : bool) (n : Z)
  | EClose (writable : bool).

(** The bytes a write section put into the pipe. *)
Definition accepted (bytes : list Z) (r : wresult) : list Z :=
  match r with
  | WDone => bytes
  | WError rest | WSleep rest => take (length bytes - length rest) bytes
  end.

(** An event: bytes accepted, bytes delivered, state. *)
Definition perform (e : event) (s : state) : list Z * list Z * state :=
  match e with
  | EWrite me killed bytes => let '(r, s') := pipewrite me killed bytes s in (accepted bytes r, [], s')
  | ERead me killed n =>
      let '(r, s') := piperead me killed n s in
      (([] : list Z), match r with RBytes bs => bs | _ => [] end, s')
  | EClose w => ([], [], (pipeclose w s).2)
  end.
Fixpoint trace (es : list event) (s : state) : list Z * list Z * state :=
  match es with
  | [] => ([], [], s)
  | e :: es =>
      let '(i, o, s) := perform e s in
      let '(ins, outs, s) := trace es s in
      (i ++ ins, o ++ outs, s)
  end.

Lemma perform_fifo e s bs i o s' : contains (the_pipe s) bs -> perform e s = (i, o, s') ->
  exists bs', contains (the_pipe s') bs' /\ bs ++ i = o ++ bs'.
Proof.
  intros C E. destruct e as [me killed bytes|me killed n|w]; cbn [perform] in E.
  - destruct (pipewrite me killed bytes s) as [r s1] eqn:Ew. injection E as <- <- <-.
    destruct (pipewrite_written _ _ _ _ _ _ _ C Ew) as (done & rest & -> & C1 & _ & Hr).
    exists (bs ++ done). split; [exact C1|]. simpl. f_equal.
    assert (Ht : take (length (done ++ rest) - length rest) (done ++ rest) = done).
    { rewrite length_app. replace (length done + length rest - length rest)%nat with (length done) by lia.
      apply take_app_length. }
    destruct r; simpl in *; [subst rest; apply app_nil_r|destruct Hr as [-> _]; exact Ht..].
  - unfold piperead in E. destruct (is_empty (the_pipe s) && writeopen (the_pipe s)).
    + destruct killed; injection E as <- <- <-; exists bs; rewrite app_nil_r; auto.
    + destruct (read_loop_contains (Z.to_nat n) _ _ C) as (p' & Er & C' & _). rewrite Er in E.
      injection E as <- <- <-. exists (drop (Z.to_nat n) bs). simpl. rewrite wakeupselect_pipe. simpl.
      split; [exact C'|]. rewrite app_nil_r, take_drop. reflexivity.
  - injection E as <- <- <-. exists bs. rewrite app_nil_r. split; [|reflexivity].
    unfold pipeclose. destruct w; simpl; rewrite wakeupselect_pipe; simpl;
      (split; [apply C|apply C|apply C|apply C|apply (c_bytes _ _ C)]).
Qed.

Lemma trace_fifo es : forall s bs ins outs s', contains (the_pipe s) bs -> trace es s = (ins, outs, s') ->
  exists bs', contains (the_pipe s') bs' /\ bs ++ ins = outs ++ bs'.
Proof.
  induction es as [|e es IH]; intros s bs ins outs s' C E; cbn [trace] in E.
  - injection E as <- <- <-. exists bs. rewrite app_nil_r. auto.
  - destruct (perform e s) as [[i o] s1] eqn:Ep. destruct (trace es s1) as [[is1 os1] s2] eqn:Et.
    injection E as <- <- <-. destruct (perform_fifo _ _ _ _ _ _ C Ep) as (b1 & C1 & E1).
    destruct (IH _ _ _ _ _ C1 Et) as (b2 & C2 & E2). exists b2. split; [exact C2|].
    rewrite app_assoc, E1, <- app_assoc, E2, app_assoc. reflexivity.
Qed.

Lemma init_contains page : Z.of_nat (length (data page)) = PIPESIZE -> contains (init page) [].
Proof.
  intros H. split; simpl; try (unfold is_u32, PIPESIZE; lia); [exact H|reflexivity|].
  intros k x Hx. discriminate.
Qed.

(** ** Sleepers *)

(** Nobody sleeps on a condition that holds. *)
Definition no_stuck (s : state) : Prop :=
  (forall q, (q, NRead) ∈ asleep s -> is_empty (the_pipe s) = true /\ writeopen (the_pipe s) = true /\
     readopen (the_pipe s) = true) /\
  (forall q, (q, NWrite) ∈ asleep s -> is_full (the_pipe s) = true /\ readopen (the_pipe s) = true /\
     writeopen (the_pipe s) = true).

(** A process uses an end that is open, and the last reference to an end is not
    given up while a process sleeps in a call on it. *)
Definition allowed (e : event) (s : state) : Prop :=
  match e with
  | EWrite _ killed _ => killed = false /\ writeopen (the_pipe s) = true
  | ERead _ killed _ => killed = false /\ readopen (the_pipe s) = true
  | EClose true => forall q, (q, NWrite) ∉ asleep s
  | EClose false => forall q, (q, NRead) ∉ asleep s
  end.

Inductive reach (s0 : state) : state -> Prop :=
  | R_start : reach s0 s0
  | R_event s e : reach s0 s -> allowed e s -> reach s0 (perform e s).2.

Lemma asleep_wakeup c s x : x ∈ asleep (wakeup c s) -> x ∈ asleep s /\ x.2 <> c.
Proof. simpl. intros H. apply list_elem_of_filter in H as [H1 H2]. auto. Qed.

(** The sleepers left by the wake-up calls of a section. *)
Lemma asleep_after c l s q c' : (q, c') ∈ asleep (wakeup c (wakeupselect l s)) -> c' <> c /\ (q, c') ∈ asleep s.
Proof. intros H. apply asleep_wakeup in H as [H1 H2]. split; [exact H2|]. eapply wakeupselect_asleep, H1. Qed.

Lemma pipewrite_sleepers me bytes : forall s r s', pipewrite me false bytes s = (r, s') ->
  readopen (the_pipe s) = true ->
  (forall q, (q, NRead) ∉ asleep s') /\
  (forall q, (q, NWrite) ∈ asleep s' -> (q, NWrite) ∈ asleep s \/ is_full (the_pipe s') = true).
Proof.
  induction bytes as [|c bytes IH]; intros s r s' E Hr; cbn [pipewrite] in E.
  - injection E as <- <-. split.
    + intros q H. apply asleep_after in H as [H _]. contradiction.
    + intros q H. apply asleep_after in H as [_ H]. auto.
  - destruct (is_full (the_pipe s)) eqn:Ef; [|apply (IH _ _ _ E Hr)].
    rewrite Hr in E. injection E as <- <-. split.
    + intros q H. apply elem_of_cons in H as [H|H]; [discriminate|].
      apply asleep_after in H as [H _]. contradiction.
    + intros q _. right. simpl. rewrite wakeupselect_pipe. exact Ef.
Qed.

(** With no reader left, a section of [pipewrite] leaves the readers' list alone. *)
Lemma pipewrite_asleep me bytes : forall s r s', pipewrite me false bytes s = (r, s') ->
  readopen (the_pipe s) = false -> forall x, x ∈ asleep s' -> x ∈ asleep s.
Proof.
  induction bytes as [|c bytes IH]; intros s r s' E Hr x Hx; cbn [pipewrite] in E.
  - injection E as <- <-. destruct x as [q c]. apply asleep_after in Hx. apply Hx.
  - destruct (is_full (the_pipe s)); [|apply (IH _ _ _ E Hr x Hx)].
    rewrite Hr in E. injection E as <- <-. exact Hx.
Qed.

Lemma write_no_stuck me bytes bs s : contains (the_pipe s) bs -> no_stuck s -> writeopen (the_pipe s) = true ->
  no_stuck (pipewrite me false bytes s).2.
Proof.
  intros C [Hr Hw] Ho. destruct (pipewrite me false bytes s) as [r s'] eqn:E. cbn [snd].
  destruct (pipewrite_written _ _ _ _ _ _ _ C E) as (done & rest & Eb & C' & [Hro Hwo] & Hres).
  destruct (readopen (the_pipe s)) eqn:Hopen.
  - destruct (pipewrite_sleepers _ _ _ _ _ E Hopen) as [H1 H2]. split.
    + intros q Hq. destruct (H1 q Hq).
    + intros q Hq. rewrite Hro, Hwo. split; [|auto]. destruct (H2 q Hq) as [Hq'|Hf]; [|exact Hf].
      apply Hw in Hq' as (Hf & _). apply (full_iff _ _ C) in Hf. apply (full_iff _ _ C').
      pose proof (c_size _ _ C') as Hs. rewrite length_app in *. lia.
  - pose proof (pipewrite_asleep _ _ _ _ _ E Hopen) as H1. split.
    + intros q Hq. apply H1, Hr in Hq as (_ & _ & H). congruence.
    + intros q Hq. apply H1, Hw in Hq as (_ & H & _). congruence.
Qed.

Lemma read_no_stuck me n bs s : contains (the_pipe s) bs -> no_stuck s -> readopen (the_pipe s) = true ->
  no_stuck (piperead me false n s).2.
Proof.
  intros C [Hr Hw] Ho. unfold piperead.
  destruct (is_empty (the_pipe s)) eqn:Ee; destruct (writeopen (the_pipe s)) eqn:Eo; cbn [andb].
  1: { unfold no_stuck. cbn [snd sleep the_pipe asleep]. rewrite Ee, Eo, Ho.
       split; intros q Hq; apply elem_of_cons in Hq as [Hq|Hq]; try discriminate; auto.
       apply Hw in Hq. tauto. }
  all: destruct (read_loop_contains (Z.to_nat n) _ _ C) as (p' & -> & C' & Hro & Hwo & _); cbn [snd];
    unfold no_stuck; cbn [the_pipe wakeup]; rewrite !wakeupselect_pipe; cbn [the_pipe set_pipe];
    (split; intros q Hq; apply asleep_after in Hq as [Hne Hq]; [|contradiction]);
    apply Hr in Hq as (H1 & H2 & _); congruence.
Qed.

Lemma close_no_stuck w s : no_stuck s -> allowed (EClose w) s -> no_stuck (pipeclose w s).2.
Proof.
  intros [Hr Hw] Ha. unfold pipeclose. destruct w; cbn [snd]; unfold no_stuck; cbn [the_pipe wakeup];
    rewrite !wakeupselect_pipe; cbn [the_pipe set_pipe readopen writeopen];
    split; intros q Hq; apply asleep_after in Hq as [Hne Hq]; cbn [asleep set_pipe] in Hq;
    try contradiction; destruct (Ha q Hq).
Qed.

Lemma perform_no_stuck e s bs : contains (the_pipe s) bs -> no_stuck s -> allowed e s ->
  no_stuck (perform e s).2.
Proof.
  intros C Hn Ha. destruct e as [me killed bytes|me killed n|w]; cbn [perform].
  - destruct Ha as [-> Ho]. pose proof (write_no_stuck me bytes bs s C Hn Ho) as H.
    destruct (pipewrite me false bytes s) as [r s']. exact H.
  - destruct Ha as [-> Ho]. pose proof (read_no_stuck me n bs s C Hn Ho) as H.
    destruct (piperead me false n s) as [r s']. exact H.
  - apply close_no_stuck; assumption.
Qed.
End PipeFacts.

Module PipeProps.
Import Select Pipe PipeFacts SysSelect.

(** a pipe is a first-in first-out queue of at most 512 bytes.  Whatever
    sections of [pipewrite], [piperead] and [pipeclose] run, in any order and by
    any processes, from the initialisation of a page, the bytes accepted so far are the bytes
    delivered so far followed by the bytes in the ring: none is lost, repeated
    or reordered, also when the 32-bit counters wrap around. *)
Theorem pipe_fifo (page : pipe) (sleepers : list (nat * chan)) (es : list event)
    (accepted delivered : list Z) (s : state) :
  Z.of_nat (length (data page)) = PIPESIZE ->
  trace es (State (init page) sleepers) = (accepted, delivered, s) ->
  exists ring, accepted = delivered ++ ring /\ contains (the_pipe s) ring /\
    Z.of_nat (length ring) <= PIPESIZE.
Proof.
  intros Hp E. destruct (trace_fifo es (State (init page) sleepers) [] _ _ _ (init_contains page Hp) E) as (ring & C & Er).
  exists ring. split; [exact Er|]. split; [exact C|apply C].
Qed.

Definition empty_list : selproc := Selproc (replicate 16 None) (replicate 16 None) 0.
Definition blank : pipe := MkPipe (replicate 512 0) 5 9 false false empty_list empty_list.

Lemma pipe_fifo_witness : exists s ring,
  trace [ERead 1 false 4; EWrite 2 false [10; 20; 30]; ERead 1 false 2; EWrite 3 false [40]]
    (State (init blank) []) = ([10; 20; 30; 40], [10; 20], s) /\
  [10; 20; 30; 40] = [10; 20] ++ ring /\ contains (the_pipe s) ring.
Proof.
  eexists.
  assert (E : forall s, trace [ERead 1 false 4; EWrite 2 false [10; 20; 30]; ERead 1 false 2; EWrite 3 false [40]]
    (State (init blank) []) = ([10; 20; 30; 40], [10; 20], s) -> exists ring,
    trace [ERead 1 false 4; EWrite 2 false [10; 20; 30]; ERead 1 false 2; EWrite 3 false [40]]
    (State (init blank) []) = ([10; 20; 30; 40], [10; 20], s) /\
    [10; 20; 30; 40] = [10; 20] ++ ring /\ contains (the_pipe s) ring).
  { intros s E. destruct (pipe_fifo blank [] _ _ _ s ltac:(reflexivity) E) as (ring & H1 & H2 & _). eauto. }
  apply E. vm_compute. reflexivity.
Defined.

(** C30: as long as no process that writes is being killed, no wake-up is lost.  In
    every state reachable by reads, writes and closings, a process asleep in
    [piperead] faces an empty pipe whose write end is open, and one asleep in
    [pipewrite] a full pipe whose read end is open. *)
Theorem pipe_no_lost_wakeup (page : pipe) (s : state) (q : nat) :
  Z.of_nat (length (data page)) = PIPESIZE -> reach (State (init page) []) s ->
  ((q, NRead) ∈ asleep s -> is_empty (the_pipe s) = true /\ writeopen (the_pipe s) = true) /\
  ((q, NWrite) ∈ asleep s -> is_full (the_pipe s) = true /\ readopen (the_pipe s) = true).
Proof.
  intros Hp Hs. assert (H : no_stuck s /\ exists bs, contains (the_pipe s) bs).
  { induction Hs as [|s e _ [Hn [bs C]] Ha].
    - split; [|exists []; apply init_contains, Hp]. split; intros r Hr; inversion Hr.
    - split; [eapply perform_no_stuck; eassumption|].
      destruct (perform e s) as [[i o] s'] eqn:E.
      destruct (perform_fifo _ _ _ _ _ _ C E) as (bs' & C' & _). eauto. }
  destruct H as [[H1 H2] _]. split; intros Hq; [apply H1 in Hq|apply H2 in Hq]; tauto.
Qed.

Lemma pipe_no_lost_wakeup_witness :
  let s := (perform (ERead 1 false 4) (State (init blank) [])).2 in
  (1%nat, NRead) ∈ asleep s /\ is_empty (the_pipe s) = true /\ writeopen (the_pipe s) = true.
Proof.
  assert (H : (1%nat, NRead) ∈ asleep (perform (ERead 1 false 4) (State (init blank) [])).2) by (left; reflexivity).
  split; [exact H|]. apply (pipe_no_lost_wakeup blank _ 1); [reflexivity| |exact H].
  apply R_event; [apply R_start|]. split; reflexivity.
Defined.

(** A killed process that fills the pipe returns without waking the reader. *)
Lemma killed_writer_loses_wakeup :
  let s := (trace [ERead 1 false 4; EWrite 2 true (replicate 513 7)] (State (init blank) [])).2 in
  (1%nat, NRead) ∈ asleep s /\ is_empty (the_pipe s) = false.
Proof. vm_compute. split; [left|reflexivity]. Qed.

(** [sys_select] on one pipe for reading and another for writing does not
    take back its registration for reading: the loop that clears goes by the
    last value of [selid], which says writing.  The wait list of the first pipe
    still names the process after the call has cleared, one entry per time the
    process slept. *)
Theorem select_leaves_registration (me : nat) (p0 p1 : pipe) (old : Z) :
  selcount (selprocread p0) < NSELPROC ->
  exists p0' p1' s,
    (register me 2 1 2 ;; clear me 2 1 2) (PState [Some p0; Some p1] old) = Ok (tt, s) /\
    ofile s = [Some p0'; Some p1'] /\ selprocread p0' = addselid (selprocread p0) me me.
Proof.
  intros Hc. eexists _, _, _. split; [reflexivity|]. split; [reflexivity|].
  unfold fileclrsel, fileselect, pipe_selectable, pipeclrsel, pipeselect. simpl.
  rewrite (proj2 (Z.ltb_lt _ _) Hc). reflexivity.
Qed.

Lemma select_leaves_registration_witness : exists p0' p1' s,
  (register 3 2 1 2 ;; clear 3 2 1 2) (PState [Some (init blank); Some (init blank)] 0) = Ok (tt, s) /\
  ofile s = [Some p0'; Some p1'] /\
  selprocread p0' = Selproc (Some 3%nat :: replicate 15 None) (Some 3%nat :: replicate 15 None) 1.
Proof.
  destruct (select_leaves_registration 3 (init blank) (init blank) 0) as (p0' & p1' & s & H1 & H2 & H3);
    [reflexivity|].
  exists p0', p1', s. split; [exact H1|]. split; [exact H2|]. rewrite H3. reflexivity.
Defined.
End PipeProps.
