(* ===== verification/Bio.v ===== *)
(** The buffer cache (bio.c) on top of the memory disk (memide.c), and the
    interface it offers to the layers above.

    A buffer is its flags, the block it caches and the data; a pointer to a
    buffer is its index.  The doubly linked list is kept as the order of the
    buffers, most recently used first.  Disk writes are also recorded in order,
    for the states a crash can leave.  A process that would sleep for a busy
    buffer does not return. *)

From S2P Require Import Prelude.

Module BufCache.

Definition NBUF : Z := 30.
Definition BSIZE : Z := 512.
Abbreviation block := (list Z) (only parsing).

Record buf := Buf {
  busy : bool;      (** B_BUSY *)
  valid : bool;     (** B_VALID *)
  dirty : bool;     (** B_DIRTY *)
  dev : Z;
  blockno : Z;
  data : block;
}.
Definition set_flags (bu va di : bool) (b : buf) : buf := Buf bu va di (dev b) (blockno b) (data b).
Definition set_busy (x : bool) (b : buf) : buf := set_flags x (valid b) (dirty b) b.
Definition set_dirty (x : bool) (b : buf) : buf := set_flags (busy b) (valid b) x b.
Definition set_data (d : block) (b : buf) : buf := Buf (busy b) (valid b) (dirty b) (dev b) (blockno b) d.

Record bcache := Bcache {
  bufs : list buf;
  mru : list nat;
  disk : list block;
  writes : list (Z * block);
}.
Definition set_bufs (l : list buf) (s : bcache) : bcache := Bcache l (mru s) (disk s) (writes s).

Definition get_buf (i : nat) : K bcache buf := fun s => lift_opt "buffer pointer" (bufs s !! i) s.
Definition put_buf (i : nat) (b : buf) : K bcache unit := modify (fun s => set_bufs (<[i := b]> (bufs s)) s).

(** memide.c *)
Definition iderw (i : nat) : K bcache unit :=
  b ← get_buf i;
  s ← get;
  if negb (busy b) then panic "iderw: buf not busy"
  else if valid b && negb (dirty b) then panic "iderw: nothing to do"
  else if negb (dev b =? 1) then panic "iderw: request not for disk 1"
  else if Z.of_nat (length (disk s)) <=? blockno b then panic "iderw: block out of range"
  else
    (if dirty b then
       modify (fun s => Bcache (bufs s) (mru s) (<[Z.to_nat (blockno b) := data b]> (disk s))
                               (writes s ++ [(blockno b, data b)])) ;;
       put_buf i (set_flags (busy b) true false b)
     else
       p ← lift_opt "outside the disk" (disk s !! Z.to_nat (blockno b));
       put_buf i (set_data p (set_flags (busy b) true (dirty b) b))).

(** Every buffer is put at the head in turn. *)
Definition binit (s : bcache) : bcache :=
  Bcache ((fun b => Buf (busy b) (valid b) (dirty b) (u32 (-1)) (blockno b) (data b)) <$> bufs s)
         (foldl (fun l i => i :: l) [] (seq 0 (Z.to_nat NBUF))) (disk s) (writes s).

(** The buffer at the first place of [order] that satisfies [p]. *)
Fixpoint find_buf (p : buf -> bool) (order : list nat) (l : list buf) : option nat :=
  match order with
  | [] => None
  | i :: order' =>
      match l !! i with
      | Some b => if p b then Some i else find_buf p order' l
      | None => find_buf p order' l
      end
  end.

Definition bget (d n : Z) : K bcache nat :=
  s ← get;
  match find_buf (fun b => (dev b =? d) && (blockno b =? n)) (mru s) (bufs s) with
  | Some i =>
      b ← get_buf i;
      if negb (busy b) then put_buf i (set_busy true b) ;; mret i
      else (fun _ => Spin)
  | None =>
      match find_buf (fun b => negb (busy b) && negb (dirty b)) (reverse (mru s)) (bufs s) with
      | Some i =>
          b ← get_buf i;
          put_buf i (Buf true false false d n (data b)) ;; mret i
      | None => panic "bget: no buffers"
      end
  end.

Definition bread (d n : Z) : K bcache nat :=
  i ← bget d n;
  b ← get_buf i;
  (if negb (valid b) then iderw i else skip) ;;
  mret i.

Definition bwrite (i : nat) : K bcache unit :=
  b ← get_buf i;
  if negb (busy b) then panic "bwrite"
  else put_buf i (set_dirty true b) ;; iderw i.

Definition brelse (i : nat) : K bcache unit :=
  b ← get_buf i;
  if negb (busy b) then panic "brelse"
  else
    modify (fun s => Bcache (bufs s) (i :: filter (fun j => j <> i) (mru s)) (disk s) (writes s)) ;;
    put_buf i (set_busy false b).
End BufCache.

(** * The interface *)

(** What the clients of the cache see: the contents of every block as the cache
    gives it, the contents on disk, the blocks pinned by the log, the buffers
    held with the block of each, and the disk writes so far. *)
Record view := View {
  v_now : Z -> list Z;
  v_disk : Z -> list Z;
  v_pinned : gset Z;
  v_held : list (nat * Z);
  v_writes : list (Z * list Z);
}.
Definition upd {A} (f : Z -> A) (k : Z) (x : A) : Z -> A := fun n => if decide (n = k) then x else f n.

Lemma upd_eq {A} (f : Z -> A) k x : upd f k x k = x.
Proof. unfold upd. rewrite decide_True by reflexivity. reflexivity. Qed.
Lemma upd_ne {A} (f : Z -> A) k x n : n <> k -> upd f k x n = f n.
Proof. intros H. unfold upd. rewrite decide_False by exact H. reflexivity. Qed.
Definition held_blocks (v : view) : gset Z := list_to_set (v_held v).*2.

Class BufferCache (S : Type) := {
  bread : Z -> K S nat;
  bdata : nat -> K S (list Z);
  bnum : nat -> K S Z;
  bmodify : nat -> (list Z -> list Z) -> K S unit;
  bpin : nat -> K S unit;
  bwrite : nat -> K S unit;
  brelse : nat -> K S unit;
  (** The state shows the view, on a disk of [nblocks] blocks. *)
  nblocks : Z;
  nbuf : nat;
  shows : S -> view -> Prop;
  (** The block writes the state has made, oldest first. *)
  trace : S -> list (Z * list Z);
  law_trace : forall s v, shows s v -> trace s = v_writes v;
  law_bread : forall s v n (Q : nat -> S -> Prop), shows s v -> 0 <= n < nblocks -> n ∉ held_blocks v ->
    (n ∈ v_pinned v \/ (size (v_pinned v ∪ held_blocks v) < nbuf)%nat) ->
    (forall i s', i ∉ (v_held v).*1 ->
       shows s' (View (v_now v) (v_disk v) (v_pinned v) ((i, n) :: v_held v) (v_writes v)) -> Q i s') ->
    wp (bread n) Q s;
  law_bdata : forall s v i n (Q : list Z -> S -> Prop), shows s v -> (i, n) ∈ v_held v ->
    Q (v_now v n) s -> wp (bdata i) Q s;
  law_bnum : forall s v i n (Q : Z -> S -> Prop), shows s v -> (i, n) ∈ v_held v -> Q n s -> wp (bnum i) Q s;
  law_bmodify : forall s v i n f (Q : unit -> S -> Prop), shows s v -> (i, n) ∈ v_held v ->
    (forall s', shows s' (View (upd (v_now v) n (f (v_now v n))) (v_disk v) (v_pinned v) (v_held v) (v_writes v)) -> Q tt s') ->
    wp (bmodify i f) Q s;
  law_bpin : forall s v i n (Q : unit -> S -> Prop), shows s v -> (i, n) ∈ v_held v ->
    (forall s', shows s' (View (v_now v) (v_disk v) ({[n]} ∪ v_pinned v) (v_held v) (v_writes v)) -> Q tt s') ->
    wp (bpin i) Q s;
  law_bwrite : forall s v i n (Q : unit -> S -> Prop), shows s v -> (i, n) ∈ v_held v ->
    (forall s', shows s' (View (v_now v) (upd (v_disk v) n (v_now v n)) (v_pinned v ∖ {[n]}) (v_held v)
                               (v_writes v ++ [(n, v_now v n)])) -> Q tt s') ->
    wp (bwrite i) Q s;
  (** A buffer is given back clean or pinned. *)
  law_brelse : forall s v i n h1 h2 (Q : unit -> S -> Prop), shows s v -> v_held v = h1 ++ (i, n) :: h2 ->
    (v_now v n = v_disk v n \/ n ∈ v_pinned v) ->
    (forall s', shows s' (View (v_now v) (v_disk v) (v_pinned v) (h1 ++ h2) (v_writes v)) -> Q tt s') ->
    wp (brelse i) Q s;
}.

Module BioFacts.
Import BufCache.

(** ** The invariant behind the interface *)

(** Buffer [i] with contents [b] agrees with the view. *)
Record cached (nb : Z) (v : view) (i : nat) (b : buf) : Prop := {
  ca_valid : valid b = true;
  ca_range : 0 <= blockno b < nb;
  ca_data : data b = v_now v (blockno b);
  ca_clean : busy b = false -> dirty b = false -> v_now v (blockno b) = v_disk v (blockno b);
  ca_dirty : dirty b = true <-> blockno b ∈ v_pinned v;
  ca_busy : busy b = true <-> (i, blockno b) ∈ v_held v;
}.

Record agrees (nb : Z) (s : bcache) (v : view) : Prop := {
  ag_len : Z.of_nat (length (bufs s)) = NBUF;
  ag_mru : mru s ≡ₚ seq 0 (Z.to_nat NBUF);
  ag_size : Z.of_nat (length (disk s)) = nb;
  ag_disk : forall n, 0 <= n < nb -> disk s !! Z.to_nat n = Some (v_disk v n);
  ag_buf : forall i b, bufs s !! i = Some b -> dev b = 1 -> cached nb v i b;
  ag_free : forall i b, bufs s !! i = Some b -> dev b <> 1 -> busy b = false /\ dirty b = false;
  ag_uniq : forall i j b c, bufs s !! i = Some b -> bufs s !! j = Some c -> dev b = 1 -> dev c = 1 ->
    blockno b = blockno c -> i = j;
  ag_uncached : forall n, 0 <= n < nb -> (forall i b, bufs s !! i = Some b -> dev b = 1 -> blockno b <> n) ->
    v_now v n = v_disk v n;
  ag_pinned : forall n, n ∈ v_pinned v -> exists i b, bufs s !! i = Some b /\ dev b = 1 /\ blockno b = n;
  ag_held : forall i n, (i, n) ∈ v_held v -> exists b, bufs s !! i = Some b /\ dev b = 1 /\ blockno b = n;
  ag_nodup : NoDup (v_held v).*1;
  ag_writes : writes s = v_writes v;
}.

Lemma find_buf_some p order l i : find_buf p order l = Some i ->
  i ∈ order /\ exists b, l !! i = Some b /\ p b = true.
Proof.
  induction order as [|j order IH]; simpl; [discriminate|].
  destruct (l !! j) as [b|] eqn:E; [destruct (p b) eqn:Ep|].
  - intros [= <-]. split; [left|eauto].
  - intros H. destruct (IH H). split; [right|]; assumption.
  - intros H. destruct (IH H). split; [right|]; assumption.
Qed.

Lemma find_buf_none p order l i b : find_buf p order l = None -> i ∈ order -> l !! i = Some b -> p b = false.
Proof.
  induction order as [|j order IH]; intros H Hi Hb; [inversion Hi|]. cbn [find_buf] in H.
  apply elem_of_cons in Hi as [->|Hi].
  - rewrite Hb in H. destruct (p b); [discriminate|reflexivity].
  - destruct (l !! j) as [c|]; [destruct (p c); [discriminate|]|]; auto.
Qed.

Section laws.
Context (nb : Z).

Lemma in_mru s v i b : agrees nb s v -> bufs s !! i = Some b -> i ∈ mru s.
Proof.
  intros A Hb. rewrite (ag_mru _ _ _ A), elem_of_seq. apply lookup_lt_Some in Hb.
  pose proof (ag_len _ _ _ A). lia.
Qed.

Lemma held_fst (i : nat) (n : Z) (l : list (nat * Z)) : (i, n) ∈ l -> i ∈ l.*1.
Proof. intros H. apply (list_elem_of_fmap_2 fst _ _ H). Qed.

Lemma held_snd (i : nat) (n : Z) (l : list (nat * Z)) : (i, n) ∈ l -> n ∈ (list_to_set l.*2 : gset Z).
Proof. intros H. apply elem_of_list_to_set, (list_elem_of_fmap_2 snd _ _ H). Qed.

Lemma fst_held (i : nat) (l : list (nat * Z)) : i ∈ l.*1 -> exists n, (i, n) ∈ l.
Proof. intros H. apply list_elem_of_fmap_1 in H as ([j n] & -> & H). exists n. exact H. Qed.

(** When fewer blocks are pinned or held than there are buffers, one is free. *)
Lemma free_buffer s v : agrees nb s v -> (size (v_pinned v ∪ held_blocks v) < Z.to_nat NBUF)%nat ->
  exists i b, bufs s !! i = Some b /\ busy b = false /\ dirty b = false.
Proof.
  intros A Hs. destruct (decide (Exists (fun b => busy b = false /\ dirty b = false) (bufs s))) as [H|H].
  { apply Exists_exists in H as (b & Hb & H1 & H2). apply list_elem_of_lookup_1 in Hb as [i Hi]. eauto. }
  exfalso. assert (Hall : forall i b, bufs s !! i = Some b -> dev b = 1 /\ blockno b ∈ v_pinned v ∪ held_blocks v).
  { intros i b Hb. assert (Hbd : ~ (busy b = false /\ dirty b = false)).
    { intros Hc. apply H, Exists_exists. exists b. split; [eapply list_elem_of_lookup_2, Hb|exact Hc]. }
    destruct (decide (dev b = 1)) as [Hd|Hd]; [|destruct Hbd; exact (ag_free _ _ _ A i b Hb Hd)].
    split; [exact Hd|]. pose proof (ag_buf _ _ _ A i b Hb Hd) as C. apply elem_of_union.
    destruct (dirty b) eqn:E1; [left; apply C, E1|]. destruct (busy b) eqn:E2; [|destruct Hbd; auto].
    right. apply (held_snd i), C, E2. }
  assert (Hnd : NoDup (blockno <$> bufs s)).
  { apply NoDup_alt. intros i j x Hi Hj. rewrite list_lookup_fmap in Hi, Hj.
    destruct (bufs s !! i) as [b|] eqn:Eb; [|discriminate]. destruct (bufs s !! j) as [c|] eqn:Ec; [|discriminate].
    injection Hi as Hi. injection Hj as Hj. destruct (Hall _ _ Eb), (Hall _ _ Ec).
    eapply (ag_uniq _ _ _ A); eauto. congruence. }
  assert (Hsub : (list_to_set (blockno <$> bufs s) : gset Z) ⊆ v_pinned v ∪ held_blocks v).
  { intros x Hx. apply elem_of_list_to_set, list_elem_of_fmap_1 in Hx as (b & -> & Hb).
    apply list_elem_of_lookup_1 in Hb as [i Hi]. apply (Hall i b Hi). }
  apply subseteq_size in Hsub. rewrite size_list_to_set in Hsub by exact Hnd.
  rewrite length_fmap in Hsub. pose proof (ag_len _ _ _ A). lia.
Qed.

Lemma wp_get_buf i b (Q : buf -> bcache -> Prop) s : bufs s !! i = Some b -> Q b s -> wp (get_buf i) Q s.
Proof. intros E H. unfold wp, get_buf, lift_opt. rewrite E. eauto. Qed.

(** A buffer changes, keeping its block: everything about other blocks must be kept
    by the new view. *)
Lemma agrees_put s v v' l' i b b' dk ws :
  agrees nb s v -> bufs s !! i = Some b -> dev b = 1 -> dev b' = 1 -> blockno b' = blockno b ->
  (forall m, m <> blockno b -> v_now v' m = v_now v m /\ v_disk v' m = v_disk v m /\ (m ∈ v_pinned v' <-> m ∈ v_pinned v)) ->
  (forall j m, m <> blockno b -> (j, m) ∈ v_held v' <-> (j, m) ∈ v_held v) ->
  (forall j, (j, blockno b) ∈ v_held v' -> j = i) -> NoDup (v_held v').*1 ->
  cached nb v' i b' -> l' ≡ₚ mru s ->
  Z.of_nat (length dk) = nb -> (forall n, 0 <= n < nb -> dk !! Z.to_nat n = Some (v_disk v' n)) ->
  ws = v_writes v' ->
  agrees nb (Bcache (<[i := b']> (bufs s)) l' dk ws) v'.
Proof.
  intros A Hb Hd Hd' Hn Hm Hh Hi Hnd C Hl Hdl Hdk Hw.
  assert (Hlt : (i < length (bufs s))%nat) by (eapply lookup_lt_Some, Hb).
  assert (Hother : forall j c, j <> i -> bufs s !! j = Some c -> dev c = 1 -> blockno c <> blockno b).
  { intros j c Hj Hc Hdc E. apply Hj. eapply (ag_uniq _ _ _ A); eauto. }
  assert (Hlook : forall j c, <[i := b']> (bufs s) !! j = Some c -> (j = i /\ c = b') \/ (j <> i /\ bufs s !! j = Some c)).
  { intros j c H. destruct (decide (j = i)) as [->|Hne].
    - rewrite list_lookup_insert_eq in H by exact Hlt. left. split; congruence.
    - rewrite list_lookup_insert_ne in H by congruence. auto. }
  split; cbn [bufs mru disk writes].
  - rewrite length_insert. apply A.
  - rewrite Hl. apply A.
  - exact Hdl.
  - exact Hdk.
  - intros j c Hc Hdc. apply Hlook in Hc as [[-> ->]|[Hne Hc]]; [exact C|].
    pose proof (Hother j c Hne Hc Hdc) as Hno. destruct (ag_buf _ _ _ A j c Hc Hdc) as [C1 C2 C3 C4 C5 C6].
    destruct (Hm _ Hno) as (M1 & M2 & M3). split; auto; try (rewrite ?M1, ?M2; assumption).
    + rewrite M3. exact C5.
    + rewrite Hh by exact Hno. exact C6.
  - intros j c Hc Hdc. apply Hlook in Hc as [[-> ->]|[Hne Hc]]; [contradiction|]. exact (ag_free _ _ _ A j c Hc Hdc).
  - intros j k c e Hc He Hdc Hde E. apply Hlook in Hc as [[-> ->]|[Hne Hc]]; apply Hlook in He as [[-> ->]|[Hne' He]].
    + reflexivity.
    + destruct (Hother k e Hne' He Hde). congruence.
    + destruct (Hother j c Hne Hc Hdc). congruence.
    + eapply (ag_uniq _ _ _ A); eauto.
  - intros n Hr Hno. assert (Hne : n <> blockno b).
    { intros ->. apply (Hno i b'); [apply list_lookup_insert_eq, Hlt|exact Hd'|exact Hn]. }
    destruct (Hm _ Hne) as (-> & -> & _). apply (ag_uncached _ _ _ A n Hr). intros j c Hc Hdc.
    destruct (decide (j = i)) as [->|Hji]; [congruence|]. apply (Hno j c); [|exact Hdc].
    rewrite list_lookup_insert_ne by congruence. exact Hc.
  - intros n Hp. destruct (decide (n = blockno b)) as [->|Hne].
    + exists i, b'. rewrite list_lookup_insert_eq by exact Hlt. auto.
    + apply (proj2 (proj2 (Hm _ Hne))) in Hp. destruct (ag_pinned _ _ _ A n Hp) as (j & c & Hc & Hdc & E).
      exists j, c. split; [|auto]. rewrite list_lookup_insert_ne; [exact Hc|]. intros ->. congruence.
  - intros j n Hj. destruct (decide (n = blockno b)) as [->|Hne].
    + rewrite (Hi j Hj). exists b'. rewrite list_lookup_insert_eq by exact Hlt. auto.
    + apply Hh in Hj; [|exact Hne]. destruct (ag_held _ _ _ A j n Hj) as (c & Hc & Hdc & E).
      exists c. split; [|auto]. rewrite list_lookup_insert_ne; [exact Hc|]. intros ->. congruence.
  - exact Hnd.
  - exact Hw.
Qed.

(** The buffer behind a held reference. *)
Lemma held_buffer s v i n : agrees nb s v -> (i, n) ∈ v_held v ->
  exists b, bufs s !! i = Some b /\ dev b = 1 /\ blockno b = n /\ cached nb v i b /\ busy b = true.
Proof.
  intros A Hh. destruct (ag_held _ _ _ A i n Hh) as (b & Hb & Hd & Hn).
  pose proof (ag_buf _ _ _ A i b Hb Hd) as C. exists b. repeat split; auto; try apply C. rewrite Hn. exact Hh.
Qed.

Lemma held_same s v i j n : agrees nb s v -> (i, n) ∈ v_held v -> (j, n) ∈ v_held v -> j = i.
Proof.
  intros A Hi Hj. destruct (ag_held _ _ _ A i n Hi) as (b & Hb & Hd & Hn).
  destruct (ag_held _ _ _ A j n Hj) as (c & Hc & Hdc & Hnc). eapply (ag_uniq _ _ _ A); eauto. congruence.
Qed.

Definition bdata (i : nat) : K bcache (list Z) := b ← get_buf i; mret (data b).
Definition bmodify (i : nat) (f : list Z -> list Z) : K bcache unit :=
  b ← get_buf i; put_buf i (set_data (f (data b)) b).
Definition bpin (i : nat) : K bcache unit := b ← get_buf i; put_buf i (set_dirty true b).

Lemma wp_bdata s v i n (Q : list Z -> bcache -> Prop) : agrees nb s v -> (i, n) ∈ v_held v ->
  Q (v_now v n) s -> wp (bdata i) Q s.
Proof.
  intros A Hh HQ. destruct (held_buffer s v i n A Hh) as (b & Hb & _ & <- & C & _).
  apply wp_bind, (wp_get_buf i b _ _ Hb). wp_step. rewrite (ca_data _ _ _ _ C). exact HQ.
Qed.

Definition bnum (i : nat) : K bcache Z := b ← get_buf i; mret (blockno b).

Lemma wp_bnum s v i n (Q : Z -> bcache -> Prop) : agrees nb s v -> (i, n) ∈ v_held v -> Q n s -> wp (bnum i) Q s.
Proof.
  intros A Hh HQ. destruct (held_buffer s v i n A Hh) as (b & Hb & _ & <- & _).
  apply wp_bind, (wp_get_buf i b _ _ Hb). wp_step. exact HQ.
Qed.

Lemma wp_bmodify s v i n f (Q : unit -> bcache -> Prop) : agrees nb s v -> (i, n) ∈ v_held v ->
  (forall s', agrees nb s' (View (upd (v_now v) n (f (v_now v n))) (v_disk v) (v_pinned v) (v_held v) (v_writes v)) -> Q tt s') ->
  wp (bmodify i f) Q s.
Proof.
  intros A Hh HQ. destruct (held_buffer s v i n A Hh) as (b & Hb & Hd & <- & C & Hbusy).
  apply wp_bind, (wp_get_buf i b _ _ Hb). unfold put_buf. wp_step. apply HQ.
  apply (agrees_put s v _ _ i b _ _ _ A Hb Hd); cbn [v_now v_disk v_pinned v_held v_writes].
  - exact Hd.
  - reflexivity.
  - intros m Hm. rewrite upd_ne by exact Hm. tauto.
  - intros j m _. reflexivity.
  - intros j Hj. eapply held_same; eauto.
  - apply A.
  - split; cbn [valid blockno data dirty busy set_data]; try apply C; cbn [v_now v_disk].
    + rewrite upd_eq, (ca_data _ _ _ _ C). reflexivity.
    + rewrite Hbusy. discriminate.
  - reflexivity.
  - apply A.
  - apply A.
  - apply A.
Qed.

Lemma wp_bpin s v i n (Q : unit -> bcache -> Prop) : agrees nb s v -> (i, n) ∈ v_held v ->
  (forall s', agrees nb s' (View (v_now v) (v_disk v) ({[n]} ∪ v_pinned v) (v_held v) (v_writes v)) -> Q tt s') ->
  wp (bpin i) Q s.
Proof.
  intros A Hh HQ. destruct (held_buffer s v i n A Hh) as (b & Hb & Hd & <- & C & Hbusy).
  apply wp_bind, (wp_get_buf i b _ _ Hb). unfold put_buf. wp_step. apply HQ.
  apply (agrees_put s v _ _ i b _ _ _ A Hb Hd); cbn [v_now v_disk v_pinned v_held v_writes].
  - exact Hd.
  - reflexivity.
  - intros m Hm. rewrite elem_of_union, elem_of_singleton. tauto.
  - intros j m _. reflexivity.
  - intros j Hj. eapply held_same; eauto.
  - apply A.
  - split; cbn [valid blockno data dirty busy set_dirty set_flags]; try apply C; cbn [v_pinned].
    + rewrite Hbusy. discriminate.
    + rewrite elem_of_union, elem_of_singleton. tauto.
  - reflexivity.
  - apply A.
  - apply A.
  - apply A.
Qed.

Lemma disk_insert s v n x : agrees nb s v -> 0 <= n < nb ->
  Z.of_nat (length (<[Z.to_nat n := x]> (disk s))) = nb /\
  forall m, 0 <= m < nb -> <[Z.to_nat n := x]> (disk s) !! Z.to_nat m = Some (upd (v_disk v) n x m).
Proof.
  intros A Hn. pose proof (ag_size _ _ _ A) as Hl. split; [rewrite length_insert; exact Hl|].
  intros m Hm. destruct (decide (m = n)) as [->|Hne].
  - rewrite upd_eq. apply list_lookup_insert_eq. lia.
  - rewrite upd_ne, list_lookup_insert_ne by lia. apply A, Hm.
Qed.

Lemma wp_bwrite s v i n (Q : unit -> bcache -> Prop) : agrees nb s v -> (i, n) ∈ v_held v ->
  (forall s', agrees nb s' (View (v_now v) (upd (v_disk v) n (v_now v n)) (v_pinned v ∖ {[n]}) (v_held v)
                                 (v_writes v ++ [(n, v_now v n)])) -> Q tt s') ->
  wp (BufCache.bwrite i) Q s.
Proof.
  intros A Hh HQ. destruct (held_buffer s v i n A Hh) as (b & Hb & Hd & <- & C & Hbusy).
  pose proof (ca_range _ _ _ _ C) as Hr. pose proof (ag_size _ _ _ A) as Hl.
  assert (Hlt : (i < length (bufs s))%nat) by (eapply lookup_lt_Some, Hb).
  unfold BufCache.bwrite. apply wp_bind, (wp_get_buf i b _ _ Hb). rewrite Hbusy. cbn [negb].
  apply wp_bind. unfold put_buf at 1. wp_step. unfold iderw. apply wp_bind.
  apply (wp_get_buf i (set_dirty true b)); [cbn; apply list_lookup_insert_eq, Hlt|].
  apply wp_bind. wp_step. cbn [busy valid dirty dev blockno set_dirty set_flags]. rewrite Hbusy, andb_false_r, Hd.
  cbn [negb]. change (1 =? 1) with true. cbn [negb].
  rewrite (proj2 (Z.leb_gt _ _)) by (cbn; lia). apply wp_bind. wp_step. unfold put_buf. wp_step.
  cbn [bufs mru disk writes set_bufs data]. rewrite list_insert_insert_eq. apply HQ.
  destruct (disk_insert s v (blockno b) (data b) A Hr) as [D1 D2].
  apply (agrees_put s v _ _ i b _ _ _ A Hb Hd); cbn [v_now v_disk v_pinned v_held v_writes].
  - exact Hd.
  - reflexivity.
  - intros m Hm. rewrite upd_ne by exact Hm. rewrite elem_of_difference, elem_of_singleton. tauto.
  - intros j m _. reflexivity.
  - intros j Hj. eapply held_same; eauto.
  - apply A.
  - split; cbn [valid blockno data dirty busy set_flags]; try apply C; cbn [v_now v_disk v_pinned v_held]; auto.
    + intros _ _. rewrite upd_eq. reflexivity.
    + rewrite elem_of_difference, elem_of_singleton. split; [discriminate|tauto].
    + split; [intros _; exact Hh|reflexivity].
  - reflexivity.
  - exact D1.
  - rewrite <- (ca_data _ _ _ _ C). exact D2.
  - rewrite <- (ca_data _ _ _ _ C), (ag_writes _ _ _ A). reflexivity.
Qed.

Lemma to_front (i : nat) (l : list nat) : NoDup l -> i ∈ l -> i :: filter (fun j => j <> i) l ≡ₚ l.
Proof.
  intros Hn Hi. apply NoDup_Permutation; [constructor|exact Hn|].
  - rewrite list_elem_of_filter. tauto.
  - apply NoDup_filter, Hn.
  - intros x. rewrite elem_of_cons, list_elem_of_filter. destruct (decide (x = i)) as [->|]; tauto.
Qed.

Lemma wp_brelse s v i n h1 h2 (Q : unit -> bcache -> Prop) : agrees nb s v -> v_held v = h1 ++ (i, n) :: h2 ->
  (v_now v n = v_disk v n \/ n ∈ v_pinned v) ->
  (forall s', agrees nb s' (View (v_now v) (v_disk v) (v_pinned v) (h1 ++ h2) (v_writes v)) -> Q tt s') ->
  wp (BufCache.brelse i) Q s.
Proof.
  intros A He Hc HQ. assert (Hh : (i, n) ∈ v_held v) by (rewrite He; apply elem_of_app; right; left).
  destruct (held_buffer s v i n A Hh) as (b & Hb & Hd & <- & C & Hbusy).
  pose proof (ag_nodup _ _ _ A) as Hnd. rewrite He, fmap_app, fmap_cons in Hnd. cbn [fst] in Hnd.
  apply NoDup_app in Hnd as (N1 & N2 & N3). apply NoDup_cons in N3 as [N3 N4].
  assert (Hni : forall m, (i, m) ∉ h1 ++ h2).
  { intros m Hm. apply elem_of_app in Hm as [Hm|Hm]; apply held_fst in Hm.
    - apply (N2 i Hm). left.
    - exact (N3 Hm). }
  unfold BufCache.brelse. apply wp_bind, (wp_get_buf i b _ _ Hb). rewrite Hbusy. cbn [negb]. apply wp_bind. wp_step.
  unfold put_buf. wp_step. cbn [bufs mru disk writes set_bufs]. apply HQ.
  apply (agrees_put s v _ _ i b _ _ _ A Hb Hd); cbn [v_now v_disk v_pinned v_held v_writes].
  - exact Hd.
  - reflexivity.
  - intros m _. tauto.
  - intros j m Hm. rewrite He, !elem_of_app, elem_of_cons. split; [tauto|]. intros [H|[H|H]]; [tauto| |tauto].
    injection H as -> ->. contradiction.
  - intros j Hj. eapply held_same; [exact A|exact Hh|]. rewrite He. apply elem_of_app in Hj.
    apply elem_of_app. rewrite elem_of_cons. tauto.
  - rewrite fmap_app. apply NoDup_app. split; [exact N1|]. split; [|exact N4].
    intros x Hx Hx'. apply (N2 x Hx). right. exact Hx'.
  - split; cbn [valid blockno data dirty busy set_busy set_flags]; try apply C; cbn [v_held].
    + intros _ Hdf. destruct Hc as [Hc|Hc]; [exact Hc|]. apply C in Hc. congruence.
    + split; [discriminate|]. intros H. destruct (Hni _ H).
  - apply to_front; [rewrite (ag_mru _ _ _ A); apply NoDup_seq|eapply in_mru; eauto].
  - apply A.
  - apply A.
  - apply A.
Qed.

(** A free buffer is given another block, which no buffer caches. *)
Lemma agrees_recycle s v i b n : agrees nb s v -> bufs s !! i = Some b -> busy b = false -> dirty b = false ->
  0 <= n < nb -> n ∉ held_blocks v -> (forall j c, bufs s !! j = Some c -> dev c = 1 -> blockno c <> n) ->
  agrees nb (set_bufs (<[i := Buf true true false 1 n (v_disk v n)]> (bufs s)) s)
    (View (v_now v) (v_disk v) (v_pinned v) ((i, n) :: v_held v) (v_writes v)).
Proof.
  intros A Hb Hbu Hdi Hn Hnh Hun. assert (Hlt : (i < length (bufs s))%nat) by (eapply lookup_lt_Some, Hb).
  assert (Hnow : v_now v n = v_disk v n) by (apply (ag_uncached _ _ _ A n Hn Hun)).
  assert (Hi : forall m, (i, m) ∉ v_held v).
  { intros m Hm. destruct (held_buffer s v i m A Hm) as (c & Hc & _ & _ & _ & Hbc). congruence. }
  assert (Hp : n ∉ v_pinned v).
  { intros Hp. destruct (ag_pinned _ _ _ A n Hp) as (j & c & Hc & Hdc & E). exact (Hun j c Hc Hdc E). }
  assert (Hold : dev b = 1 -> (blockno b ∉ v_pinned v) /\ v_now v (blockno b) = v_disk v (blockno b)).
  { intros Hd. pose proof (ag_buf _ _ _ A i b Hb Hd) as C. split; [|apply C; assumption].
    intros H. apply C in H. congruence. }
  set (b' := Buf true true false 1 n (v_disk v n)).
  assert (Hlook : forall j c, <[i := b']> (bufs s) !! j = Some c -> (j = i /\ c = b') \/ (j <> i /\ bufs s !! j = Some c)).
  { intros j c H. destruct (decide (j = i)) as [->|Hne].
    - rewrite list_lookup_insert_eq in H by exact Hlt. left. split; congruence.
    - rewrite list_lookup_insert_ne in H by congruence. auto. }
  assert (Hkeep : forall j c, j <> i -> bufs s !! j = Some c -> <[i := b']> (bufs s) !! j = Some c).
  { intros j c Hj Hc. rewrite list_lookup_insert_ne by congruence. exact Hc. }
  split; cbn [bufs mru disk writes set_bufs v_now v_disk v_pinned v_held v_writes]; try apply A.
  - rewrite length_insert. apply A.
  - intros j c Hc Hdc. apply Hlook in Hc as [[-> ->]|[Hne Hc]].
    + split; cbn [valid blockno data dirty busy v_now v_disk v_pinned v_held b'].
      * reflexivity.
      * exact Hn.
      * symmetry. exact Hnow.
      * discriminate.
      * split; [discriminate|]. intros H. destruct (Hp H).
      * split; [left|reflexivity].
    + destruct (ag_buf _ _ _ A j c Hc Hdc) as [C1 C2 C3 C4 C5 C6].
      split; auto. rewrite C6. cbn [v_held]. rewrite elem_of_cons. split; [auto|].
      intros [H|H]; [|exact H]. injection H as -> _. contradiction.
  - intros j c Hc Hdc. apply Hlook in Hc as [[-> ->]|[Hne Hc]]; [destruct (Hdc eq_refl)|].
    exact (ag_free _ _ _ A j c Hc Hdc).
  - intros j k c e Hc He Hdc Hde E. apply Hlook in Hc as [[-> ->]|[Hne Hc]]; apply Hlook in He as [[-> ->]|[Hne' He]].
    + reflexivity.
    + destruct (Hun k e He Hde). auto.
    + destruct (Hun j c Hc Hdc). auto.
    + eapply (ag_uniq _ _ _ A); eauto.
  - intros m Hm Hno. destruct (decide (dev b = 1 /\ blockno b = m)) as [[Hd <-]|Hbm]; [apply Hold, Hd|].
    apply (ag_uncached _ _ _ A m Hm). intros j c Hc Hdc E. destruct (decide (j = i)) as [->|Hji].
    + apply Hbm. rewrite Hb in Hc. injection Hc as ->. auto.
    + apply (Hno j c (Hkeep j c Hji Hc) Hdc E).
  - intros m Hm. destruct (ag_pinned _ _ _ A m Hm) as (j & c & Hc & Hdc & E). exists j, c. split; [|auto].
    apply Hkeep; [|exact Hc]. intros ->. rewrite Hb in Hc. injection Hc as ->. subst m. apply (Hold Hdc), Hm.
  - intros j m Hj. apply elem_of_cons in Hj as [Hj|Hj].
    + injection Hj as -> ->. exists b'. rewrite list_lookup_insert_eq by exact Hlt. auto.
    + destruct (ag_held _ _ _ A j m Hj) as (c & Hc & Hdc & E). exists c. split; [|auto].
      apply Hkeep; [|exact Hc]. intros ->. exact (Hi m Hj).
  - rewrite fmap_cons. constructor; [|apply A]. intros H. apply fst_held in H as [m Hm].
    exact (Hi m Hm).
Qed.

Lemma wp_bread_cached s v i b n (Q : nat -> bcache -> Prop) : agrees nb s v -> n ∉ held_blocks v ->
  bufs s !! i = Some b -> dev b = 1 -> blockno b = n ->
  find_buf (fun b => (dev b =? 1) && (blockno b =? n)) (mru s) (bufs s) = Some i ->
  (forall s', i ∉ (v_held v).*1 ->
     agrees nb s' (View (v_now v) (v_disk v) (v_pinned v) ((i, n) :: v_held v) (v_writes v)) -> Q i s') ->
  wp (BufCache.bread 1 n) Q s.
Proof.
  intros A Hnh Hb Hd <- Hf HQ. pose proof (ag_buf _ _ _ A i b Hb Hd) as C.
  assert (Hnb : busy b = false).
  { destruct (busy b) eqn:E; [|reflexivity]. destruct Hnh. apply (held_snd i), C, E. }
  assert (Hi : forall m, (i, m) ∉ v_held v).
  { intros m Hm. destruct (held_buffer s v i m A Hm) as (c & Hc & _ & _ & _ & Hbc). congruence. }
  assert (Hlt : (i < length (bufs s))%nat) by (eapply lookup_lt_Some, Hb).
  unfold BufCache.bread, bget. apply wp_bind, wp_bind. wp_step. rewrite Hf.
  apply wp_bind, (wp_get_buf i b _ _ Hb). rewrite Hnb. cbn [negb]. apply wp_bind. unfold put_buf. wp_step. wp_step.
  apply wp_bind, (wp_get_buf i (set_busy true b)); [cbn; apply list_lookup_insert_eq, Hlt|].
  cbn [valid set_busy set_flags]. rewrite (ca_valid _ _ _ _ C). cbn [negb]. apply wp_bind. wp_step. wp_step.
  apply HQ.
  - intros H. apply fst_held in H as [m Hm]. exact (Hi m Hm).
  - apply (agrees_put s v _ _ i b _ _ _ A Hb Hd); cbn [v_now v_disk v_pinned v_held v_writes].
    + exact Hd.
    + reflexivity.
    + tauto.
    + intros j m Hm. rewrite elem_of_cons. split; [|auto]. intros [H|H]; [|exact H]. congruence.
    + intros j Hj. apply elem_of_cons in Hj as [Hj|Hj]; [congruence|]. destruct Hnh. apply (held_snd j), Hj.
    + rewrite fmap_cons. constructor; [|apply A]. intros H. apply fst_held in H as [m Hm].
      exact (Hi m Hm).
    + split; cbn [valid blockno data dirty busy set_busy set_flags]; try apply C; cbn [v_held].
      * discriminate.
      * split; [left|reflexivity].
    + reflexivity.
    + apply A.
    + apply A.
    + apply A.
Qed.

Lemma wp_bread s v n (Q : nat -> bcache -> Prop) : agrees nb s v -> 0 <= n < nb -> n ∉ held_blocks v ->
  (n ∈ v_pinned v \/ (size (v_pinned v ∪ held_blocks v) < Z.to_nat NBUF)%nat) ->
  (forall i s', i ∉ (v_held v).*1 ->
     agrees nb s' (View (v_now v) (v_disk v) (v_pinned v) ((i, n) :: v_held v) (v_writes v)) -> Q i s') ->
  wp (BufCache.bread 1 n) Q s.
Proof.
  intros A Hn Hnh Hs HQ.
  destruct (find_buf (fun b => (dev b =? 1) && (blockno b =? n)) (mru s) (bufs s)) as [i|] eqn:Ef.
  - pose proof Ef as Ef'. apply find_buf_some in Ef' as (_ & b & Hb & Hp).
    apply andb_true_iff in Hp as [Hp1 Hp2]. apply Z.eqb_eq in Hp1. apply Z.eqb_eq in Hp2.
    eapply wp_bread_cached; eauto.
  - assert (Hun : forall j c, bufs s !! j = Some c -> dev c = 1 -> blockno c <> n).
    { intros j c Hc Hdc E. pose proof (find_buf_none _ _ _ j c Ef (in_mru s v j c A Hc) Hc) as H.
      cbv beta in H. rewrite Hdc, E, !Z.eqb_refl in H. discriminate. }
    unfold BufCache.bread, bget. apply wp_bind, wp_bind. wp_step. rewrite Ef.
    destruct (find_buf (fun b => negb (busy b) && negb (dirty b)) (reverse (mru s)) (bufs s)) as [i|] eqn:Er.
    + apply find_buf_some in Er as (_ & b & Hb & Hp). apply andb_true_iff in Hp as [Hp1 Hp2].
      apply negb_true_iff in Hp1. apply negb_true_iff in Hp2.
      assert (Hlt : (i < length (bufs s))%nat) by (eapply lookup_lt_Some, Hb).
      apply wp_bind, (wp_get_buf i b _ _ Hb). apply wp_bind. unfold put_buf at 1. wp_step. wp_step.
      set (b1 := Buf true false false 1 n (data b)).
      set (s1 := set_bufs (<[i := b1]> (bufs s)) s).
      assert (Hb1 : bufs s1 !! i = Some b1) by (apply list_lookup_insert_eq, Hlt).
      apply wp_bind, (wp_get_buf i b1 _ _ Hb1). cbn [valid negb b1]. apply wp_bind. unfold iderw.
      apply wp_bind, (wp_get_buf i b1 _ _ Hb1). apply wp_bind. wp_step. cbn [busy valid dirty dev blockno b1 negb andb].
      change (1 =? 1) with true. cbn [negb]. change (disk s1) with (disk s).
      rewrite (proj2 (Z.leb_gt _ _)) by (rewrite (ag_size _ _ _ A); lia).
      apply wp_bind. eapply wp_lift_opt; [apply (ag_disk _ _ _ A n Hn)|]. unfold put_buf. wp_step. wp_step.
      cbn [bufs set_bufs s1]. rewrite list_insert_insert_eq. apply HQ.
      * intros H. apply fst_held in H as [m Hm].
        destruct (held_buffer s v i m A Hm) as (c & Hc & _ & _ & _ & Hbc). congruence.
      * apply (agrees_recycle s v i b n); assumption.
    + destruct Hs as [Hs|Hs].
      { destruct (ag_pinned _ _ _ A n Hs) as (j & c & Hc & Hdc & E). destruct (Hun j c Hc Hdc E). }
      destruct (free_buffer s v A Hs) as (j & c & Hc & H1 & H2).
      pose proof (find_buf_none _ _ _ j c Er) as H. cbv beta in H. rewrite H1, H2 in H.
      assert (true = false) by (apply H; [apply elem_of_reverse; eapply in_mru; eauto|exact Hc]). discriminate.
Qed.
End laws.

(** The cache of bio.c over the memory disk implements the interface. *)
#[export] Instance bio_cache (nb : Z) : BufferCache bcache := {|
  Bio.bread := BufCache.bread 1;
  Bio.bdata := bdata;
  Bio.bnum := bnum;
  Bio.bmodify := bmodify;
  Bio.bpin := bpin;
  Bio.bwrite := BufCache.bwrite;
  Bio.brelse := BufCache.brelse;
  nblocks := nb;
  nbuf := Z.to_nat NBUF;
  shows := agrees nb;
  trace := writes;
  law_trace := ag_writes nb;
  law_bread := wp_bread nb;
  law_bdata := wp_bdata nb;
  law_bnum := wp_bnum nb;
  law_bmodify := wp_bmodify nb;
  law_bpin := wp_bpin nb;
  law_bwrite := wp_bwrite nb;
  law_brelse := wp_brelse nb;
|}.
End BioFacts.

Module BioProps.
Import BufCache BioFacts.

(** ** A cache after boot *)

Lemma binit_order : mru (binit (Bcache [] [] [] [])) ≡ₚ seq 0 (Z.to_nat NBUF).
Proof. simpl mru. symmetry. apply (Permutation_rev (seq 0 30)). Qed.

Definition at_rest (b : buf) : Prop := busy b = false /\ dirty b = false.

Lemma binit_agrees s : Z.of_nat (length (bufs s)) = NBUF -> Forall at_rest (bufs s) ->
  let D n := disk s !!! Z.to_nat n in
  agrees (Z.of_nat (length (disk s))) (binit s) (View D D ∅ [] (writes s)).
Proof.
  intros Hl Hr D.
  assert (Hb : forall i b, bufs (binit s) !! i = Some b -> dev b <> 1 /\ at_rest b).
  { intros i b H. simpl in H. rewrite list_lookup_fmap in H. destruct (bufs s !! i) as [c|] eqn:E; [|discriminate].
    injection H as <-. split; [discriminate|]. exact (Forall_lookup_1 _ _ _ _ Hr E). }
  split; simpl; auto.
  - rewrite length_fmap. exact Hl.
  - apply binit_order.
  - intros n Hn. apply list_lookup_lookup_total_lt. lia.
  - intros i b H Hd. destruct (Hb i b H). contradiction.
  - intros i b H _. apply (Hb i b H).
  - intros i j b c H _ Hd. destruct (Hb i b H). contradiction.
  - intros n H. apply not_elem_of_empty in H. contradiction.
  - intros i n H. inversion H.
  - constructor.
Qed.

(** ** Reading and writing blocks through the cache *)

Inductive op :=
  | ReadBlock (n : Z)
  | WriteBlock (n : Z) (d : list Z).

Section client.
Context {S : Type} `{BufferCache S}.

Definition exec (o : op) : K S (list (list Z)) :=
  match o with
  | ReadBlock n => i ← Bio.bread n; d ← Bio.bdata i; Bio.brelse i ;; mret [d]
  | WriteBlock n d => i ← Bio.bread n; Bio.bmodify i (fun _ => d) ;; Bio.bwrite i ;; Bio.brelse i ;; mret []
  end.
Fixpoint run (os : list op) : K S (list (list Z)) :=
  match os with
  | [] => mret []
  | o :: os => r ← exec o; rs ← run os; mret (r ++ rs)
  end.
End client.

(** The same operations on an array of blocks. *)
Definition spec_op (o : op) (a : list (list Z)) : list (list Z) * list (list Z) :=
  match o with
  | ReadBlock n => ([a !!! Z.to_nat n], a)
  | WriteBlock n d => ([], <[Z.to_nat n := d]> a)
  end.
Fixpoint spec (os : list op) (a : list (list Z)) : list (list Z) * list (list Z) :=
  match os with
  | [] => ([], a)
  | o :: os => let '(r, a) := spec_op o a in let '(rs, a) := spec os a in (r ++ rs, a)
  end.
Definition op_block (o : op) : Z := match o with ReadBlock n | WriteBlock n _ => n end.

Section transparent.
Context {S : Type} `{BufferCache S}.

(** Nothing held, nothing pinned, the cache in step with the disk [a]. *)
Definition in_step (a : list (list Z)) (s : S) : Prop :=
  Z.of_nat (length a) = nblocks /\
  exists v, shows s v /\ v_pinned v = ∅ /\ v_held v = [] /\
    (forall n, 0 <= n < nblocks -> v_now v n = a !!! Z.to_nat n /\ v_disk v n = a !!! Z.to_nat n).

Lemma exec_spec o a s : in_step a s -> 0 <= op_block o < nblocks -> (0 < nbuf)%nat ->
  wp (exec o) (fun r s' => r = (spec_op o a).1 /\ in_step (spec_op o a).2 s') s.
Proof.
  intros (Hl & v & Hs & Hp & Hh & Hv) Hn Hb. destruct v as [now dk P held ws]. simpl in *. subst P held.
  assert (Hsz : (size ((∅ : gset Z) ∪ held_blocks (View now dk ∅ [] ws)) < nbuf)%nat)
    by (change (held_blocks _) with (∅ : gset Z); rewrite (union_empty_l_L (∅ : gset Z)), size_empty; exact Hb).
  destruct o as [n|n d]; cbn [op_block exec spec_op fst snd] in *; apply wp_bind;
    (eapply law_bread; [exact Hs|exact Hn|apply not_elem_of_empty|right; exact Hsz|]);
    intros i s1 _ H1; cbn [v_now v_disk v_pinned v_held v_writes] in *.
  - apply wp_bind. eapply law_bdata; [exact H1|left|]. apply wp_bind.
    eapply (law_brelse _ _ i n [] []); [exact H1|reflexivity|left; cbn; destruct (Hv n Hn) as [-> ->]; reflexivity|].
    intros s2 H2. wp_step. split; [f_equal; apply Hv, Hn|]. split; [exact Hl|].
    eexists. split; [exact H2|]. auto.
  - apply wp_bind. eapply law_bmodify; [exact H1|left|]. intros s2 H2. apply wp_bind.
    eapply law_bwrite; [exact H2|left|]. intros s3 H3. apply wp_bind.
    eapply (law_brelse _ _ i n [] []); [exact H3|reflexivity|left; cbn; rewrite !upd_eq; reflexivity|].
    intros s4 H4. wp_step. split; [reflexivity|]. split; [rewrite length_insert; exact Hl|].
    eexists. split; [exact H4|]. cbn [v_now v_disk v_pinned v_held]. 
    split; [apply set_eq; intros x; rewrite elem_of_difference, elem_of_empty; tauto|].
    split; [reflexivity|]. intros m Hm. destruct (decide (m = n)) as [->|Hne].
    + rewrite !upd_eq, list_lookup_total_insert_eq by lia. auto.
    + rewrite !upd_ne, list_lookup_total_insert_ne by lia. apply Hv, Hm.
Qed.

Lemma run_spec os : forall a s, in_step a s -> Forall (fun o => 0 <= op_block o < nblocks) os -> (0 < nbuf)%nat ->
  wp (run os) (fun rs s' => rs = (spec os a).1 /\ in_step (spec os a).2 s') s.
Proof.
  induction os as [|o os IH]; intros a s Ha Hos Hb; cbn [run spec].
  - wp_step. auto.
  - inversion Hos as [|? ? Ho Hos']; subst. apply wp_bind. eapply wp_mono; [apply (exec_spec o a s Ha Ho Hb)|].
    intros r s1 [-> H1]. destruct (spec_op o a) as [r a1]. cbn [fst snd] in *.
    apply wp_bind. eapply wp_mono; [apply (IH a1 s1 H1 Hos' Hb)|].
    intros rs s2 [-> H2]. destruct (spec os a1) as [rs a2]. cbn [fst snd] in *. wp_step. auto.
Qed.
End transparent.

(** C19: the cache of 30 buffers is transparent.  After [binit] on buffers that are
    neither busy nor dirty, every sequence of block reads and block writes
    through [bread], [bwrite] and [brelse], on a disk of any size, returns what the
    same sequence returns on an array of blocks, whichever buffers are recycled
    on the way, never panics, and leaves the disk equal to the array. *)
Theorem cache_transparent (s : bcache) (os : list op) :
  Z.of_nat (length (bufs s)) = NBUF -> Forall at_rest (bufs s) ->
  Forall (fun o => 0 <= op_block o < Z.of_nat (length (disk s))) os ->
  exists rs s', @run _ (bio_cache (Z.of_nat (length (disk s)))) os (binit s) = Ok (rs, s') /\
    rs = (spec os (disk s)).1 /\ disk s' = (spec os (disk s)).2.
Proof.
  intros Hl Hr Hos.
  destruct (run_spec (H := bio_cache (Z.of_nat (length (disk s)))) os (disk s) (binit s))
    as (rs & s' & E & -> & Hlen & v & Hs & _ & _ & Hv).
  - split; [reflexivity|]. eexists. split; [apply (binit_agrees s Hl Hr)|]. auto.
  - exact Hos.
  - apply Nat.ltb_lt. reflexivity.
  - exists (spec os (disk s)).1, s'. split; [exact E|]. split; [reflexivity|].
    cbn [nblocks bio_cache shows] in *. pose proof (ag_size _ _ _ Hs) as Hsz. apply list_eq_same_length with (n := length (disk s'));
      [lia|reflexivity|].
    intros i x y Hi Hx Hy. pose proof (ag_disk _ _ _ Hs (Z.of_nat i) ltac:(lia)) as Hd.
    rewrite Nat2Z.id, Hx in Hd. injection Hd as ->. rewrite (proj2 (Hv (Z.of_nat i) ltac:(lia))), Nat2Z.id.
    apply list_lookup_total_correct, Hy.
Qed.

Definition zeroed : bcache :=
  Bcache (replicate 30 (Buf false false false 0 0 [])) [] [[1]; [2]; [3]] [].

Lemma cache_transparent_witness : exists s',
  @run _ (bio_cache 3) [WriteBlock 1 [7]; ReadBlock 2; ReadBlock 1] (binit zeroed) = Ok ([[3]; [7]], s') /\
  disk s' = [[1]; [7]; [3]].
Proof.
  destruct (cache_transparent zeroed [WriteBlock 1 [7]; ReadBlock 2; ReadBlock 1]) as (rs & s' & E & -> & Hd).
  - reflexivity.
  - apply Forall_replicate. split; reflexivity.
  - repeat constructor; discriminate.
  - exists s'. split; [exact E|exact Hd].
Defined.
End BioProps.
