(* ===== verification/Log.v ===== *)
(** The file-system log (log.c) over any buffer cache.

    The header block has the number of logged blocks and their numbers as 32-bit
    little-endian integers; the logged blocks follow it.  [begin_op] is the
    section that ends with the operation started or the process asleep. *)

From S2P Require Import Prelude Bio.

Module Log.

Definition MAXOPBLOCKS : Z := 10.
Definition LOGSIZE : Z := MAXOPBLOCKS * 3.
Definition BSIZE : Z := 512.

Record log := MkLog {
  start : Z;
  size : Z;
  outstanding : Z;
  committing : bool;
  lh_n : Z;
  lh_block : list Z;
}.

(** ** The header block *)

Definition word_at (d : list Z) (off : nat) : Z := s32 (le_word (window off 4 d)).
Definition set_word (off : nat) (w : Z) (d : list Z) : list Z := splice off (le_bytes 4 w) d.
(** [hb->n] and [hb->block[i]] *)
Definition n_off : nat := 0.
Definition block_off (i : nat) : nat := (4 + 4 * i)%nat.

Section log.
Context {S : Type} `{BufferCache S}.

Record state := State {
  the_log : log;
  cache : S;
}.
Definition on_cache {A} (m : K S A) : K state A := fun s =>
  match m (cache s) with
  | Ok (a, c) => Ok (a, State (the_log s) c)
  | Panic msg => Panic msg
  | Fault why => Fault why
  | Spin => Spin
  end.
Definition set_log (l : log) : K state unit := modify (fun s => State l (cache s)).
Definition set_n (n : Z) : K state unit := modify (fun s =>
  let l := the_log s in
  State (MkLog (start l) (size l) (outstanding l) (committing l) n (lh_block l)) (cache s)).

(** [memmove(to->data, from->data, BSIZE)] *)
Definition copy_block (to from : nat) : K S unit := d ← bdata from; bmodify to (fun _ => d).

Definition install_one (tail : nat) : K state unit :=
  l ← gets the_log;
  lbuf ← on_cache (bread (start l + Z.of_nat tail + 1));
  dbuf ← on_cache (bread (lh_block l !!! tail));
  on_cache (copy_block dbuf lbuf) ;;
  on_cache (bwrite dbuf) ;;
  on_cache (brelse lbuf) ;;
  on_cache (brelse dbuf).
Definition install_trans : K state unit :=
  l ← gets the_log;
  forM (seq 0 (Z.to_nat (lh_n l))) install_one.

Definition read_head : K state unit :=
  l ← gets the_log;
  buf ← on_cache (bread (start l));
  d ← on_cache (bdata buf);
  let n := word_at d n_off in
  if LOGSIZE <? n then fault "header with too many blocks" else
  let blocks := for_n (Z.to_nat n) (fun i b => <[i := word_at d (block_off i)]> b) (lh_block l) in
  set_log (MkLog (start l) (size l) (outstanding l) (committing l) n blocks) ;;
  on_cache (brelse buf).

Definition head_data (n : Z) (blocks : list Z) (d : list Z) : list Z :=
  for_n (Z.to_nat n) (fun i d => set_word (block_off i) (blocks !!! i) d) (set_word n_off n d).
Definition write_head : K state unit :=
  l ← gets the_log;
  buf ← on_cache (bread (start l));
  on_cache (bmodify buf (head_data (lh_n l) (lh_block l))) ;;
  on_cache (bwrite buf) ;;
  on_cache (brelse buf).

Definition recover_from_log : K state unit :=
  read_head ;; install_trans ;; set_n 0 ;; write_head.

(** Whether the operation has started; otherwise the process sleeps. *)
Definition begin_op : K state bool :=
  l ← gets the_log;
  if committing l then mret false
  else if LOGSIZE <? lh_n l + (outstanding l + 1) * MAXOPBLOCKS then mret false
  else set_log (MkLog (start l) (size l) (outstanding l + 1) (committing l) (lh_n l) (lh_block l)) ;; mret true.

Definition write_one (tail : nat) : K state unit :=
  l ← gets the_log;
  to ← on_cache (bread (start l + Z.of_nat tail + 1));
  from ← on_cache (bread (lh_block l !!! tail));
  on_cache (copy_block to from) ;;
  on_cache (bwrite to) ;;
  on_cache (brelse from) ;;
  on_cache (brelse to).
Definition write_log : K state unit :=
  l ← gets the_log;
  forM (seq 0 (Z.to_nat (lh_n l))) write_one.

Definition commit : K state unit :=
  l ← gets the_log;
  if 0 <? lh_n l then write_log ;; write_head ;; install_trans ;; set_n 0 ;; write_head else skip.

Definition end_op : K state unit :=
  l ← gets the_log;
  let out := outstanding l - 1 in
  if committing l then panic "log.committing"
  else
    let do_commit := out =? 0 in
    set_log (MkLog (start l) (size l) out do_commit (lh_n l) (lh_block l)) ;;
    if do_commit then
      commit ;;
      modify (fun s => let l := the_log s in
        State (MkLog (start l) (size l) (outstanding l) false (lh_n l) (lh_block l)) (cache s))
    else skip.

Definition log_write (b : nat) : K state unit :=
  l ← gets the_log;
  if (LOGSIZE <=? lh_n l) || (size l - 1 <=? lh_n l) then panic "too big a transaction"
  else if outstanding l <? 1 then panic "log_write outside of trans"
  else
    bno ← on_cache (bnum b);
    let n := Z.to_nat (lh_n l) in
    let i := match list_find (fun x => x = bno) (take n (lh_block l)) with Some (i, _) => i | None => n end in
    set_log (MkLog (start l) (size l) (outstanding l) (committing l)
      (if (i =? n)%nat then lh_n l + 1 else lh_n l) (<[i := bno]> (lh_block l))) ;;
    on_cache (bpin b).

(** [initlog], given the superblock's log area. *)
Definition initlog (logstart nlog : Z) : K state unit :=
  l ← gets the_log;
  if BSIZE <=? 4 + 4 * LOGSIZE then panic "initlog: too big logheader"
  else
    set_log (MkLog logstart nlog (outstanding l) (committing l) (lh_n l) (lh_block l)) ;;
    recover_from_log.
End log.
Arguments state : clear implicits.
End Log.

Module LogFacts.
Import Log.

(** ** The header block *)

Lemma length_set_word off w d : (off + 4 <= length d)%nat -> length (set_word off w d) = length d.
Proof. apply (length_splice off (le_bytes 4 w)). Qed.

Lemma word_at_same off w d : (off + 4 <= length d)%nat -> is_s32 w -> word_at (set_word off w d) off = w.
Proof.
  intros H Hw. unfold word_at, set_word. rewrite window_same, le_word_bytes by (try exact H; apply length_le_bytes).
  unfold s32, u32. change (256 ^ Z.of_nat 4) with 4294967296. rewrite Z.mod_mod by lia. apply s32_id, Hw.
Qed.

Lemma word_at_other off off' w d : (off + 4 <= length d)%nat -> (off' + 4 <= off \/ off + 4 <= off')%nat ->
  word_at (set_word off w d) off' = word_at d off'.
Proof. intros H Hd. unfold word_at, set_word. rewrite (window_other off off' 4 (le_bytes 4 w)) by assumption. reflexivity. Qed.

Lemma head_data_length n blocks d : 0 <= n <= LOGSIZE -> (124 <= length d)%nat ->
  length (head_data n blocks d) = length d.
Proof.
  intros Hn Hd. unfold head_data.
  apply (for_n_inv (Z.to_nat n) _ (fun _ d' => length d' = length d)).
  - apply length_set_word. unfold n_off. lia.
  - intros i d' Hi E. rewrite length_set_word; [exact E|]. unfold block_off, LOGSIZE, MAXOPBLOCKS in *. lia.
Qed.

(** What has been written can be read back. *)
Lemma head_data_words n blocks d : 0 <= n <= LOGSIZE -> (124 <= length d)%nat -> Forall is_s32 blocks ->
  (Z.to_nat n <= length blocks)%nat ->
  word_at (head_data n blocks d) n_off = n /\
  forall i, (i < Z.to_nat n)%nat -> word_at (head_data n blocks d) (block_off i) = blocks !!! i.
Proof.
  intros Hn Hd Hb Hl. unfold LOGSIZE, MAXOPBLOCKS in Hn.
  apply (for_n_inv (Z.to_nat n) (fun i d => set_word (block_off i) (blocks !!! i) d)
    (fun k d' => length d' = length d /\ word_at d' n_off = n /\
       forall i, (i < k)%nat -> word_at d' (block_off i) = blocks !!! i)).
  - split; [apply length_set_word; unfold n_off; lia|].
    split; [apply word_at_same; [unfold n_off; lia|unfold is_s32; lia]|lia].
  - intros k d' Hk (H1 & H2 & H3). unfold block_off, n_off in *.
    split; [rewrite length_set_word by lia; exact H1|]. split.
    + rewrite word_at_other by lia. exact H2.
    + intros i Hi. destruct (decide (i = k)) as [->|].
      * apply word_at_same; [lia|]. apply Forall_lookup_total; [exact Hb|lia].
      * rewrite word_at_other by lia. apply H3. lia.
Qed.

Lemma head_data_none blocks d : (124 <= length d)%nat -> word_at (head_data 0 blocks d) n_off = 0.
Proof. intros Hd. apply word_at_same; [unfold n_off; lia|unfold is_s32; lia]. Qed.

(** ** Writes *)

(** The contents after a sequence of block writes. *)
Definition applyw (f : Z -> list Z) (ws : list (Z * list Z)) : Z -> list Z :=
  foldl (fun f w => upd f w.1 w.2) f ws.

Lemma applyw_app f ws ws' : applyw f (ws ++ ws') = applyw (applyw f ws) ws'.
Proof. apply foldl_app. Qed.

Lemma applyw_one f n x : applyw f [(n, x)] = upd f n x.
Proof. reflexivity. Qed.

Lemma applyw_agree f g ws m : m ∈ ws.*1 \/ f m = g m -> applyw f ws m = applyw g ws m.
Proof.
  revert f g. induction ws as [|[n x] ws IH]; intros f g Hm.
  - destruct Hm as [Hm|Hm]; [inversion Hm|exact Hm].
  - unfold applyw in *. simpl. apply IH. destruct (decide (m = n)) as [->|Hne]; [right; rewrite !upd_eq; reflexivity|].
    rewrite !upd_ne by exact Hne. destruct Hm as [Hm|Hm]; [|auto].
    rewrite fmap_cons in Hm. apply elem_of_cons in Hm as [Hm|Hm]; [contradiction|auto].
Qed.

Lemma applyw_notin f ws m : m ∉ ws.*1 -> applyw f ws m = f m.
Proof.
  revert f. induction ws as [|[n x] ws IH]; intros f Hm; [reflexivity|].
  rewrite fmap_cons in Hm. apply not_elem_of_cons in Hm as [Hn Hm].
  unfold applyw in *. simpl. rewrite IH by exact Hm. apply upd_ne. exact Hn.
Qed.

Lemma applyw_in f ws m x : NoDup ws.*1 -> (m, x) ∈ ws -> applyw f ws m = x.
Proof.
  revert f. induction ws as [|[n y] ws IH]; intros f Hn Hx; [inversion Hx|].
  rewrite fmap_cons in Hn. apply NoDup_cons in Hn as [Hn1 Hn2]. unfold applyw in *. simpl.
  apply elem_of_cons in Hx as [Hx|Hx].
  - injection Hx as -> ->. fold (applyw (upd f n y) ws). rewrite applyw_notin by exact Hn1. apply upd_eq.
  - apply IH; assumption.
Qed.

Section steps.
Context {S : Type} `{BufferCache S}.

Lemma wp_on_cache {A} (m : K S A) (Q : A -> state S -> Prop) s :
  wp m (fun a c => Q a (State (the_log s) c)) (cache s) -> wp (on_cache m) Q s.
Proof.
  intros (a & c & E & HQ). exists a, (State (the_log s) c). unfold on_cache. rewrite E. auto.
Qed.

(** Nothing is held. *)
Definition quiet (now dk : Z -> list Z) (P : gset Z) (ws : list (Z * list Z)) : view := View now dk P [] ws.

Lemma held_one now dk P i n ws : held_blocks (View now dk P [(i, n)] ws) = {[n]}.
Proof. unfold held_blocks. simpl. apply union_empty_r_L. Qed.

Lemma minus_subset (P X : gset Z) : P ∖ X ⊆ P.
Proof. intros y. rewrite elem_of_difference. tauto. Qed.

Lemma minus_notin (P : gset Z) n : n ∉ P -> P ∖ {[n]} = P.
Proof.
  intros Hn. apply set_eq. intros y. rewrite elem_of_difference, elem_of_singleton.
  split; [tauto|]. intros Hy. split; [exact Hy|]. intros ->. contradiction.
Qed.

Lemma size_with (P : gset Z) n : (base.size (P ∪ {[n]}) <= 1 + base.size P)%nat.
Proof. rewrite union_comm_L, size_union_alt, size_singleton. apply Nat.add_le_mono_l, subseteq_size, minus_subset. Qed.

Lemma size_quiet now dk P ws : base.size (P ∪ held_blocks (quiet now dk P ws)) = base.size P.
Proof. unfold held_blocks. simpl. f_equal. apply union_empty_r_L. Qed.

(** Two blocks [a] and [b] are read, in that order, with room for both. *)
Lemma wp_two_reads {A} now dk P ws a b (k : nat -> nat -> K (state S) A) Q l c :
  shows c (quiet now dk P ws) -> 0 <= a < nblocks -> 0 <= b < nblocks -> a <> b ->
  (a ∈ P \/ (base.size P < nbuf)%nat) -> (b ∈ P \/ (1 + base.size P < nbuf)%nat) ->
  (forall i j c', i <> j -> shows c' (View now dk P [(j, b); (i, a)] ws) -> wp (k i j) Q (State l c')) ->
  wp (i ← on_cache (bread a); j ← on_cache (bread b); k i j) Q (State l c).
Proof.
  intros Hs Ha Hb Hab Hpa Hpb HQ. apply wp_bind, wp_on_cache. cbn [the_log cache].
  eapply law_bread; [exact Hs|exact Ha|apply not_elem_of_empty|rewrite size_quiet; exact Hpa|].
  intros i c1 _ H1. cbn [v_now v_disk v_pinned v_held v_writes quiet] in H1.
  apply wp_bind, wp_on_cache. cbn [the_log cache].
  eapply law_bread; [exact H1|exact Hb| | |].
  - rewrite held_one. apply not_elem_of_singleton. congruence.
  - rewrite held_one. cbn [v_pinned]. destruct Hpb as [?|Hpb]; [left; assumption|right].
    pose proof (size_with P a). lia.
  - intros j c2 Hj H2. cbn [v_now v_disk v_pinned v_held v_writes fmap list_fmap fst] in *.
    apply HQ; [|exact H2]. intros ->. apply Hj. left.
Qed.

(** One round of [write_log]: block [b] of the cache goes to block [a] of the log. *)
Lemma wp_write_round now dk P ws l c a b k :
  shows c (quiet now dk P ws) -> 0 <= a < nblocks -> 0 <= b < nblocks -> a <> b -> (a ∉ P) -> b ∈ P ->
  (base.size P < nbuf)%nat -> a = start l + Z.of_nat k + 1 -> b = lh_block l !!! k ->
  wp (write_one k) (fun _ s' => the_log s' = l /\
    shows (cache s') (quiet (upd now a (now b)) (upd dk a (now b)) P (ws ++ [(a, now b)]))) (State l c).
Proof.
  intros Hs Ha Hb Hab HaP HbP Hsz -> ->. unfold write_one. apply wp_bind. wp_step. cbn [the_log].
  eapply wp_two_reads; [exact Hs|exact Ha|exact Hb|exact Hab|right; exact Hsz|left; exact HbP|].
  intros i j c1 Hij H1. set (a := start l + Z.of_nat k + 1) in *. set (b := lh_block l !!! k) in *.
  apply wp_bind, wp_on_cache. cbn [the_log cache]. apply wp_bind.
  eapply law_bdata; [exact H1|left|]. eapply law_bmodify; [exact H1|right; left|]. intros c2 H2.
  apply wp_bind, wp_on_cache. cbn [the_log cache].
  eapply law_bwrite; [exact H2|right; left|]. intros c3 H3. cbn [v_now v_disk v_pinned v_held v_writes] in *.
  rewrite upd_eq, (minus_notin P a HaP) in H3.
  apply wp_bind, wp_on_cache. cbn [the_log cache].
  eapply (law_brelse _ _ j b [] [(i, a)]); [exact H3|reflexivity|right; exact HbP|]. intros c4 H4.
  apply wp_on_cache. cbn [the_log cache].
  eapply (law_brelse _ _ i a [] []); [exact H4|reflexivity|left; cbn; rewrite !upd_eq; reflexivity|].
  intros c5 H5. split; [reflexivity|]. exact H5.
Qed.

(** One round of [install_trans]: block [a] of the log goes to its home [b]. *)
Lemma wp_install_round now dk P ws l c a b k :
  shows c (quiet now dk P ws) -> 0 <= a < nblocks -> 0 <= b < nblocks -> a <> b -> now a = dk a ->
  (base.size P < nbuf)%nat -> (b ∈ P \/ (1 + base.size P < nbuf)%nat) ->
  a = start l + Z.of_nat k + 1 -> b = lh_block l !!! k ->
  wp (install_one k) (fun _ s' => the_log s' = l /\
    shows (cache s') (quiet (upd now b (now a)) (upd dk b (now a)) (P ∖ {[b]}) (ws ++ [(b, now a)]))) (State l c).
Proof.
  intros Hs Ha Hb Hab Hna Hsz Hsz2 -> ->. unfold install_one. apply wp_bind. wp_step. cbn [the_log].
  eapply wp_two_reads; [exact Hs|exact Ha|exact Hb|exact Hab|right; exact Hsz|exact Hsz2|].
  intros i j c1 Hij H1. set (a := start l + Z.of_nat k + 1) in *. set (b := lh_block l !!! k) in *.
  apply wp_bind, wp_on_cache. cbn [the_log cache]. apply wp_bind.
  eapply law_bdata; [exact H1|right; left|]. eapply law_bmodify; [exact H1|left|]. intros c2 H2.
  apply wp_bind, wp_on_cache. cbn [the_log cache].
  eapply law_bwrite; [exact H2|left|]. intros c3 H3. cbn [v_now v_disk v_pinned v_held v_writes] in *.
  rewrite upd_eq in H3. apply wp_bind, wp_on_cache. cbn [the_log cache].
  eapply (law_brelse _ _ i a [(j, b)] []); [exact H3|reflexivity|left; cbn; rewrite !upd_ne by congruence; exact Hna|].
  intros c4 H4. apply wp_on_cache. cbn [the_log cache].
  eapply (law_brelse _ _ j b [] []); [exact H4|reflexivity|left; cbn; rewrite !upd_eq; reflexivity|].
  intros c5 H5. split; [reflexivity|]. exact H5.
Qed.

Lemma wp_write_head now dk P ws l c :
  shows c (quiet now dk P ws) -> 0 <= start l < nblocks -> (start l ∉ P) -> (base.size P < nbuf)%nat ->
  let h := head_data (lh_n l) (lh_block l) (now (start l)) in
  wp write_head (fun _ s' => the_log s' = l /\
    shows (cache s') (quiet (upd now (start l) h) (upd dk (start l) h) P (ws ++ [(start l, h)]))) (State l c).
Proof.
  intros Hs Ha HaP Hsz h. unfold write_head. apply wp_bind. wp_step. cbn [the_log].
  apply wp_bind, wp_on_cache. cbn [the_log cache].
  eapply law_bread; [exact Hs|exact Ha|apply not_elem_of_empty|right; rewrite size_quiet; exact Hsz|].
  intros i c1 _ H1. apply wp_bind, wp_on_cache. cbn [the_log cache].
  eapply law_bmodify; [exact H1|left|]. intros c2 H2. apply wp_bind, wp_on_cache. cbn [the_log cache].
  eapply law_bwrite; [exact H2|left|]. intros c3 H3. cbn [v_now v_disk v_pinned v_held v_writes quiet] in *.
  fold h in H3. rewrite upd_eq, (minus_notin P _ HaP) in H3.
  apply wp_on_cache. cbn [the_log cache].
  eapply (law_brelse _ _ i (start l) [] []); [exact H3|reflexivity|left; cbn; rewrite !upd_eq; reflexivity|].
  intros c4 H4. split; [reflexivity|]. exact H4.
Qed.

(** ** The loops *)

(** The log has room for the [n] blocks [bl] and none of them lies in it. *)
Record layout (l : log) (bl : list Z) : Prop := {
  lay_n : lh_n l = Z.of_nat (length bl);
  lay_size : lh_n l <= LOGSIZE;
  lay_start : 0 <= start l;
  lay_end : start l + lh_n l < nblocks;
  lay_blocks : take (length bl) (lh_block l) = bl;
  lay_range : Forall (fun b => 0 <= b < nblocks /\ ~ (start l <= b <= start l + lh_n l)) bl;
  lay_nodup : NoDup bl;
}.

Definition home (bl : list Z) (k : nat) : Z := bl !!! k.
Definition slot (l : log) (k : nat) : Z := start l + Z.of_nat k + 1.
(** The writes of the first [k] rounds of [write_log] and of [install_trans]. *)
Definition logw (l : log) (bl : list Z) (now : Z -> list Z) (k : nat) : list (Z * list Z) :=
  (fun j => (slot l j, now (home bl j))) <$> seq 0 k.
Definition instw (l : log) (bl : list Z) (now : Z -> list Z) (k : nat) : list (Z * list Z) :=
  (fun j => (home bl j, now (slot l j))) <$> seq 0 k.

Lemma logw_S l bl now k : logw l bl now (1 + k) = logw l bl now k ++ [(slot l k, now (home bl k))].
Proof. unfold logw. rewrite (seq_S k 0 : seq 0 (1 + k) = _), fmap_app. reflexivity. Qed.

Lemma instw_S l bl now k : instw l bl now (1 + k) = instw l bl now k ++ [(home bl k, now (slot l k))].
Proof. unfold instw. rewrite (seq_S k 0 : seq 0 (1 + k) = _), fmap_app. reflexivity. Qed.

Lemma layout_home l bl k : layout l bl -> (k < length bl)%nat ->
  lh_block l !!! k = home bl k /\ 0 <= home bl k < nblocks /\ ~ (start l <= home bl k <= start l + lh_n l).
Proof.
  intros L Hk. destruct (lookup_lt_is_Some_2 bl k Hk) as [b Hb]. unfold home.
  rewrite (list_lookup_total_correct _ _ _ Hb). split; [|exact (Forall_lookup_1 _ _ _ _ (lay_range _ _ L) Hb)].
  apply list_lookup_total_correct. rewrite <- (lay_blocks _ _ L) in Hb.
  rewrite lookup_take_lt in Hb by exact Hk. exact Hb.
Qed.

Lemma layout_slot l bl k : layout l bl -> (k < length bl)%nat ->
  0 <= slot l k < nblocks /\ start l < slot l k <= start l + lh_n l.
Proof. intros L Hk. destruct L. unfold slot. lia. Qed.

Lemma logw_targets l bl now k m : m ∈ (logw l bl now k).*1 -> start l < m <= start l + Z.of_nat k.
Proof.
  unfold logw. rewrite <- list_fmap_compose. intros H0. apply list_elem_of_fmap_1 in H0 as (j & -> & Hj).
  apply elem_of_seq in Hj. unfold compose, slot. simpl. lia.
Qed.

Lemma instw_targets l bl now k m : layout l bl -> (k <= length bl)%nat -> m ∈ (instw l bl now k).*1 ->
  m ∈ bl /\ ~ (start l <= m <= start l + lh_n l).
Proof.
  intros L Hk. unfold instw. rewrite <- list_fmap_compose. intros H0. apply list_elem_of_fmap_1 in H0 as (j & -> & Hj).
  apply elem_of_seq in Hj. unfold compose. simpl. split; [|apply (layout_home l bl j L); lia].
  unfold home. destruct (lookup_lt_is_Some_2 bl j) as [b Hb]; [lia|].
  rewrite (list_lookup_total_correct _ _ _ Hb). eapply list_elem_of_lookup_2, Hb.
Qed.

Lemma wp_write_log now dk P ws l bl c : layout l bl -> shows c (quiet now dk P ws) ->
  P = list_to_set bl -> (length bl < nbuf)%nat ->
  wp write_log (fun _ s' => the_log s' = l /\
    shows (cache s') (quiet (applyw now (logw l bl now (length bl))) (applyw dk (logw l bl now (length bl))) P
                            (ws ++ logw l bl now (length bl)))) (State l c).
Proof.
  intros L Hs HP Hb. unfold write_log. apply wp_bind. wp_step. cbn [the_log].
  rewrite (lay_n _ _ L), Nat2Z.id.
  pose proof (wp_forM (seq 0 (length bl)) (@write_one S _) (fun k s' => the_log s' = l /\
    shows (cache s') (quiet (applyw now (logw l bl now k)) (applyw dk (logw l bl now k)) P
                            (ws ++ logw l bl now k))) (State l c)) as W.
  rewrite length_seq in W. apply W; clear W.
  - split; [reflexivity|]. simpl. rewrite app_nil_r. exact Hs.
  - intros k x [l' c'] Hx [E Hk]. cbn [the_log cache] in *. subst l'. apply lookup_seq in Hx as [-> Hlt]. rewrite Nat.add_0_l.
    destruct (layout_home l bl k L Hlt) as (Eh & Hr & Hd). destruct (layout_slot l bl k L Hlt) as [Hr' Hd'].
    eapply wp_mono; [eapply (wp_write_round _ _ _ _ l c' (slot l k) (home bl k) k Hk Hr' Hr)|].
    + lia.
    + rewrite HP, elem_of_list_to_set. intros Hin. pose proof (lay_range _ _ L) as F.
      rewrite Forall_forall in F. apply F in Hin. lia.
    + rewrite HP, elem_of_list_to_set. destruct (lookup_lt_is_Some_2 bl k Hlt) as [b Eb]. unfold home.
      rewrite (list_lookup_total_correct _ _ _ Eb). eapply list_elem_of_lookup_2, Eb.
    + rewrite HP, size_list_to_set by apply L. exact Hb.
    + reflexivity.
    + symmetry. exact Eh.
    + intros [] s' [E' H']. split; [exact E'|]. rewrite applyw_notin in H'
        by (intros Hin; apply logw_targets in Hin; pose proof (lay_n _ _ L); lia).
      change (Datatypes.S k) with (1 + k)%nat. rewrite logw_S, !applyw_app, app_assoc. exact H'.
Qed.

Lemma wp_install_trans now dk P ws l bl c : layout l bl -> shows c (quiet now dk P ws) ->
  (forall k, (k < length bl)%nat -> now (slot l k) = dk (slot l k)) -> (base.size P < nbuf)%nat ->
  (P = list_to_set bl \/ (P = ∅ /\ (1 < nbuf)%nat)) ->
  wp install_trans (fun _ s' => the_log s' = l /\
    shows (cache s') (quiet (applyw now (instw l bl now (length bl))) (applyw dk (instw l bl now (length bl))) ∅
                            (ws ++ instw l bl now (length bl)))) (State l c).
Proof.
  intros L Hs Heq Hb HP. unfold install_trans. apply wp_bind. wp_step. cbn [the_log].
  rewrite (lay_n _ _ L), Nat2Z.id.
  pose proof (wp_forM (seq 0 (length bl)) (@install_one S _) (fun k s' => the_log s' = l /\
    shows (cache s') (quiet (applyw now (instw l bl now k)) (applyw dk (instw l bl now k))
      (P ∖ list_to_set (take k bl)) (ws ++ instw l bl now k))) (State l c)) as W.
  rewrite length_seq in W. eapply wp_mono; [apply W; clear W|clear W].
  - split; [reflexivity|]. simpl. rewrite app_nil_r, difference_empty_L. exact Hs.
  - intros k x [l' c'] Hx [E Hk]. cbn [the_log cache] in *. subst l'. apply lookup_seq in Hx as [-> Hlt]. rewrite Nat.add_0_l.
    destruct (layout_home l bl k L Hlt) as (Eh & Hr & Hd). destruct (layout_slot l bl k L Hlt) as [Hr' Hd'].
    assert (Hsame : forall f : Z -> list Z, applyw f (instw l bl now k) (slot l k) = f (slot l k)).
    { intros f. apply applyw_notin. intros Hin. apply (instw_targets l bl now k _ L) in Hin; lia. }
    assert (Hhome : bl !! k = Some (home bl k)) by (apply list_lookup_lookup_total_lt; exact Hlt).
    eapply wp_mono; [eapply (wp_install_round _ _ _ _ l c' (slot l k) (home bl k) k Hk Hr' Hr)|].
    + lia.
    + rewrite !Hsame. apply Heq, Hlt.
    + eapply Nat.le_lt_trans; [apply subseteq_size, minus_subset|exact Hb].
    + destruct HP as [->|[-> Hn]].
      * left. rewrite elem_of_difference, !elem_of_list_to_set. split; [eapply list_elem_of_lookup_2, Hhome|].
        intros Hin. apply list_elem_of_lookup_1 in Hin as [i Hi]. apply lookup_take_Some in Hi as [Hi Hik].
        pose proof (NoDup_lookup _ _ _ _ (lay_nodup _ _ L) Hi Hhome). lia.
      * right. assert (base.size ((∅ : gset Z) ∖ list_to_set (take k bl)) <= 0)%nat; [|lia].
        rewrite <- (size_empty (C := gset Z)). apply subseteq_size, minus_subset.
    + reflexivity.
    + symmetry. exact Eh.
    + intros [] s' [E' H']. split; [exact E'|]. rewrite Hsame in H'.
      rewrite (take_S_r _ _ _ Hhome), list_to_set_app_L. cbn [list_to_set].
      rewrite union_empty_r_L, <- difference_difference_l_L.
      change (Datatypes.S k) with (1 + k)%nat. rewrite instw_S, !applyw_app, app_assoc. exact H'.
  - intros [] s' [E' H']. split; [exact E'|]. rewrite take_ge in H' by lia.
    replace (P ∖ list_to_set bl) with (∅ : gset Z) in H'; [exact H'|].
    apply set_eq. intros y. rewrite elem_of_empty, elem_of_difference. destruct HP as [->|[-> _]]; [tauto|].
    rewrite elem_of_empty. tauto.
Qed.

(** ** Commit *)

Definition home_writes (bl : list Z) (now : Z -> list Z) : list (Z * list Z) := (fun b => (b, now b)) <$> bl.
Definition commit_writes (l : log) (bl : list Z) (now : Z -> list Z) : list (Z * list Z) :=
  let h := head_data (lh_n l) (lh_block l) (now (start l)) in
  logw l bl now (length bl) ++ [(start l, h)] ++ home_writes bl now ++ [(start l, head_data 0 (lh_block l) h)].

Lemma home_writes_targets bl now : (home_writes bl now).*1 = bl.
Proof. unfold home_writes. rewrite <- list_fmap_compose. apply list_fmap_id. Qed.

Lemma instw_home l bl f now : (forall k, (k < length bl)%nat -> f (slot l k) = now (home bl k)) ->
  instw l bl f (length bl) = home_writes bl now.
Proof.
  intros Hf. unfold instw, home_writes. apply list_eq. intros i. rewrite !list_lookup_fmap.
  destruct (decide (i < length bl)%nat) as [Hi|Hi].
  - rewrite lookup_seq_lt by exact Hi. destruct (lookup_lt_is_Some_2 bl i Hi) as [b Hb].
    rewrite Hb. simpl. rewrite Hf by exact Hi. unfold home. rewrite (list_lookup_total_correct _ _ _ Hb). reflexivity.
  - rewrite lookup_seq_ge, (lookup_ge_None_2 bl) by lia. reflexivity.
Qed.

(** Slot [k] of the log has the new content of its home once [write_log] is through. *)
Lemma logged_slot l bl now (f : Z -> list Z) k : (k < length bl)%nat ->
  applyw f (logw l bl now (length bl)) (slot l k) = now (home bl k).
Proof.
  intros Hk. apply applyw_in.
  - unfold logw. rewrite <- list_fmap_compose. apply NoDup_fmap_2; [|apply NoDup_seq].
    intros x y E. unfold compose, slot in E. simpl in E. lia.
  - unfold logw. apply list_elem_of_fmap. exists k. split; [reflexivity|]. apply elem_of_seq. lia.
Qed.

Lemma start_not_logged l bl now (f : Z -> list Z) : applyw f (logw l bl now (length bl)) (start l) = f (start l).
Proof. apply applyw_notin. intros Hin. apply logw_targets in Hin. lia. Qed.

Lemma wp_set_n n (Q : unit -> state S -> Prop) l c :
  Q tt (State (MkLog (start l) (size l) (outstanding l) (committing l) n (lh_block l)) c) -> wp (set_n n) Q (State l c).
Proof. intros HQ. unfold set_n. wp_step. exact HQ. Qed.

Lemma start_not_home l bl : layout l bl -> (start l ∉ bl).
Proof.
  intros L Hin. pose proof (lay_range _ _ L) as F. rewrite Forall_forall in F. apply F in Hin.
  pose proof (lay_n _ _ L). lia.
Qed.

Lemma wp_commit now dk ws l bl c : layout l bl -> 0 < lh_n l -> shows c (quiet now dk (list_to_set bl) ws) ->
  (length bl < nbuf)%nat ->
  wp commit (fun _ s' =>
    the_log s' = MkLog (start l) (size l) (outstanding l) (committing l) 0 (lh_block l) /\
    shows (cache s') (quiet (applyw now (commit_writes l bl now)) (applyw dk (commit_writes l bl now)) ∅
                            (ws ++ commit_writes l bl now))) (State l c).
Proof.
  intros L Hn Hs Hb. assert (Hr : 0 <= start l < nblocks) by (destruct L; lia).
  unfold commit. apply wp_bind. wp_step. cbn [the_log]. rewrite (proj2 (Z.ltb_lt _ _) Hn).
  assert (Hsz : (base.size (list_to_set bl : gset Z) < nbuf)%nat) by (rewrite size_list_to_set by apply L; exact Hb).
  apply wp_bind. eapply wp_mono; [eapply (wp_write_log _ _ _ _ _ _ _ L Hs); [reflexivity|exact Hb]|].
  intros [] [l1 c1] [E1 H1]. cbn [the_log cache] in E1, H1. subst l1.
  apply wp_bind. eapply wp_mono; [eapply (wp_write_head _ _ _ _ _ _ H1 Hr); [|exact Hsz]|].
  { rewrite elem_of_list_to_set. apply start_not_home, L. }
  intros [] [l2 c2] [E2 H2]. cbn [the_log cache] in E2, H2. subst l2.
  rewrite start_not_logged in H2. set (h := head_data _ _ _) in *.
  assert (Hslot : forall (f : Z -> list Z) k, (k < length bl)%nat ->
    upd (applyw f (logw l bl now (length bl))) (start l) h (slot l k) = now (home bl k)).
  { intros f k Hk. rewrite upd_ne by (unfold slot; lia). apply logged_slot, Hk. }
  apply wp_bind. eapply wp_mono; [eapply (wp_install_trans _ _ _ _ _ _ _ L H2)|].
  { intros k Hk. rewrite !Hslot by exact Hk. reflexivity. }
  { exact Hsz. }
  { left. reflexivity. }
  intros [] [l3 c3] [E3 H3]. cbn [the_log cache] in E3, H3. subst l3.
  rewrite (instw_home l bl _ now) in H3 by (intros k Hk; apply Hslot, Hk).
  apply wp_bind, wp_set_n.
  eapply wp_mono; [eapply (wp_write_head _ _ _ _ _ _ H3); [exact Hr|apply not_elem_of_empty|rewrite size_empty; lia]|].
  cbn [start lh_n lh_block]. intros [] [l4 c4] [E4 H4]. cbn [the_log cache] in *. subst l4.
  split; [reflexivity|]. rewrite applyw_notin, upd_eq in H4
    by (rewrite home_writes_targets; apply start_not_home, L).
  unfold commit_writes. fold h. rewrite !applyw_app, !app_assoc. rewrite <- !app_assoc in H4 |- *. exact H4.
Qed.

Lemma length_commit l bl now : length (commit_writes l bl now) = (2 * length bl + 2)%nat.
Proof. unfold commit_writes, logw, home_writes. rewrite !length_app, !length_fmap, length_seq. cbn [length]. lia. Qed.

Lemma home_in_commit l bl now m : m ∈ bl -> m ∈ (commit_writes l bl now).*1.
Proof.
  intros Hm. unfold commit_writes. cbn zeta. rewrite !fmap_app, home_writes_targets, !elem_of_app. tauto.
Qed.

(** ** Recovery *)

(** The header block [d] names the blocks [bl]. *)
Definition names (d : list Z) (bl : list Z) : Prop :=
  (124 <= length d)%nat /\ word_at d n_off = Z.of_nat (length bl) /\
  forall i, (i < length bl)%nat -> word_at d (block_off i) = bl !!! i.

Lemma names_none d : (124 <= length d)%nat -> word_at d n_off = 0 -> names d [].
Proof. intros Hd E. split; [exact Hd|]. split; [exact E|]. simpl. lia. Qed.

Lemma read_blocks d bl old : names d bl -> (length bl <= length old)%nat ->
  take (length bl) (for_n (length bl) (fun i b => <[i := word_at d (block_off i)]> b) old) = bl.
Proof.
  intros (_ & _ & Hd) Hl.
  destruct (for_n_inv (length bl) (fun i b => <[i := word_at d (block_off i)]> b)
    (fun k b => length b = length old /\ take k b = take k bl) old) as [_ E].
  - split; reflexivity.
  - intros k b Hk [El Et]. rewrite length_insert. split; [exact El|].
    assert (Eb : bl !! k = Some (bl !!! k)) by (apply list_lookup_lookup_total_lt; exact Hk).
    rewrite (take_S_r bl k _ Eb), (take_S_r _ k (word_at d (block_off k)))
      by (apply list_lookup_insert_eq; lia).
    rewrite take_insert_ge, Et, (Hd k Hk) by lia. reflexivity.
  - rewrite E. apply take_ge. lia.
Qed.

(** The log of the recovering system: the same place on the disk, the rest of no account. *)
Definition same_log (l l2 : log) : Prop := start l2 = start l /\ length (lh_block l2) = Z.to_nat LOGSIZE.

(** What recovery keeps of the log in memory. *)
Record kept (l l' : log) : Prop := {
  kp_start : start l' = start l;
  kp_size : size l' = size l;
  kp_out : outstanding l' = outstanding l;
  kp_committing : committing l' = committing l;
  kp_length : length (lh_block l') = length (lh_block l);
  kp_ints : Forall is_s32 (lh_block l) -> Forall is_s32 (lh_block l');
}.

Lemma wp_read_head d ws l l2 bl c : layout l bl -> same_log l l2 -> shows c (quiet d d ∅ ws) ->
  names (d (start l)) bl -> (1 < nbuf)%nat ->
  wp read_head (fun _ s' => layout (the_log s') bl /\ kept l2 (the_log s') /\ shows (cache s') (quiet d d ∅ ws))
    (State l2 c).
Proof.
  intros L [Est Elen] Hs Hd Hb. pose proof (lay_n _ _ L) as Ln. pose proof (lay_size _ _ L) as Lz.
  unfold read_head. apply wp_bind. wp_step. cbn [the_log].
  rewrite Est. apply wp_bind, wp_on_cache. cbn [the_log cache].
  eapply law_bread; [exact Hs|destruct L; lia|apply not_elem_of_empty|rewrite size_quiet, size_empty; right; lia|].
  intros i c1 _ H1. cbn [v_now v_disk v_pinned v_held v_writes quiet] in H1.
  apply wp_bind, wp_on_cache. cbn [the_log cache]. eapply law_bdata; [exact H1|left|].
  cbn [v_now]. pose proof (proj1 (proj2 Hd)) as Hw. rewrite Hw.
  rewrite (proj2 (Z.ltb_ge _ _)) by lia. rewrite Nat2Z.id.
  apply wp_bind. unfold set_log. wp_step. cbn [cache]. apply wp_on_cache. cbn [the_log cache].
  eapply (law_brelse _ _ i _ [] []); [exact H1|reflexivity|left; reflexivity|]. intros c2 H2.
  split; [|split; [|exact H2]]; cbn [the_log cache].
  - constructor; cbn [start lh_n lh_block]; [reflexivity|lia|apply L|rewrite <- Ln; apply L| | |apply L].
    + apply read_blocks; [exact Hd|]. rewrite Elen. lia.
    + rewrite <- Ln. apply L.
  - constructor; cbn [start size outstanding committing lh_block]; try congruence.
    + apply (for_n_inv (length bl) _ (fun _ b => length b = length (lh_block l2))); [reflexivity|].
      intros k b _ E. rewrite length_insert. exact E.
    + intros F. apply (for_n_inv (length bl) _ (fun _ b => Forall is_s32 b)); [exact F|].
      intros k b _ E. apply Forall_insert; [exact E|apply s32_is_s32].
Qed.

(** Recovery of a disk whose header names [bl]. *)
Lemma wp_recover d l l2 bl c : layout l bl -> same_log l l2 -> shows c (quiet d d ∅ []) ->
  names (d (start l)) bl -> (1 < nbuf)%nat ->
  wp recover_from_log (fun _ s' => lh_n (the_log s') = 0 /\ kept l2 (the_log s') /\ exists ws,
    let d' := applyw d ws in
    shows (cache s') (quiet d' d' ∅ ws) /\ length ws = (1 + length bl)%nat /\ names (d' (start l)) [] /\
    forall m, m <> start l -> d' m = applyw d (instw l bl d (length bl)) m) (State l2 c).
Proof.
  intros L SL Hs Hd Hb. unfold recover_from_log.
  apply wp_bind. eapply wp_mono; [exact (wp_read_head _ _ _ _ _ _ L SL Hs Hd Hb)|].
  intros [] [l3 c3] (L3 & K3 & H3). pose proof (eq_trans (kp_start _ _ K3) (proj1 SL)) as S3. cbn [the_log cache] in *.
  apply wp_bind. eapply wp_mono; [eapply (wp_install_trans _ _ _ _ _ _ _ L3 H3)|].
  { reflexivity. }
  { rewrite size_empty. lia. }
  { right. split; [reflexivity|exact Hb]. }
  intros [] [l4 c4] [E4 H4]. cbn [the_log cache] in *. subst l4.
  assert (Ei : instw l3 bl d (length bl) = instw l bl d (length bl)).
  { unfold instw, slot. rewrite S3. reflexivity. }
  rewrite Ei in H4. apply wp_bind, wp_set_n.
  eapply wp_mono; [eapply (wp_write_head _ _ _ _ _ _ H4)|].
  { cbn [start]. rewrite S3. destruct L. lia. }
  { apply not_elem_of_empty. }
  { rewrite size_empty. lia. }
  intros [] [l5 c5] [E5 H5]. cbn [the_log cache start lh_n lh_block] in *. subst l5. split; [reflexivity|].
  split; [destruct K3; constructor; cbn; assumption|]. rewrite S3 in H5. cbn [app] in H5.
  set (h := head_data 0 _ _) in H5. exists (instw l bl d (length bl) ++ [(start l, h)]). cbn zeta. rewrite applyw_app, applyw_one.
  split; [exact H5|]. split; [unfold instw; rewrite length_app, length_fmap, length_seq; cbn [length]; lia|]. unfold h. split.
  - rewrite upd_eq, applyw_notin.
    + destruct Hd as [Hd _]. apply names_none; [|apply head_data_none, Hd].
      rewrite head_data_length; [exact Hd|unfold LOGSIZE, MAXOPBLOCKS; lia|exact Hd].
    + intros Hin. apply (instw_targets l bl d _ _ L) in Hin as [_ Hin]; [|lia].
      pose proof (lay_n _ _ L). lia.
  - intros m Hm. apply upd_ne, Hm.
Qed.

(** A crash point: the writes that have reached the disk. *)
Lemma commit_prefixes l bl now j : let n := length bl in
  let h := head_data (lh_n l) (lh_block l) (now (start l)) in
  (j <= n -> take j (commit_writes l bl now) = take j (logw l bl now n))%nat /\
  (n < j <= 2 * n + 1 -> take j (commit_writes l bl now) =
     logw l bl now n ++ [(start l, h)] ++ take (j - n - 1) (home_writes bl now))%nat /\
  (2 * n + 1 < j -> take j (commit_writes l bl now) = commit_writes l bl now)%nat.
Proof.
  cbn zeta. set (n := length bl). assert (E1 : length (logw l bl now n) = n)
    by (unfold logw; rewrite length_fmap, length_seq; reflexivity).
  assert (E2 : length (home_writes bl now) = n) by apply length_fmap.
  unfold commit_writes. fold n. set (h := head_data _ _ _). repeat split; intros Hj.
  - apply take_app_le. lia.
  - rewrite take_app_ge, E1 by lia. f_equal. rewrite take_app_ge by (simpl; lia). f_equal.
    cbn [length]. apply take_app_le. lia.
  - apply take_ge. rewrite !length_app, E1, E2. simpl. lia.
Qed.

(** What a data block holds after [k] of the home writes. *)
Lemma home_partial bl now f k m : NoDup bl -> f m = now m \/ m ∈ bl ->
  applyw (applyw f (take k (home_writes bl now))) (home_writes bl now) m = now m.
Proof.
  intros Hn Hm. destruct (decide (m ∈ bl)) as [Hin|Hin].
  - apply applyw_in; [rewrite home_writes_targets; exact Hn|].
    unfold home_writes. apply list_elem_of_fmap. exists m. auto.
  - destruct Hm as [Hm|Hm]; [|contradiction].
    rewrite !applyw_notin; [exact Hm| |rewrite home_writes_targets; exact Hin].
    rewrite fmap_take, home_writes_targets. intros Hin'. apply Hin.
    apply elem_of_take in Hin' as (i & Hi & _). eapply list_elem_of_lookup_2, Hi.
Qed.

(** A transaction of the blocks [bl] that can be committed: outside of it cache and
    disk agree, and the header on the disk is empty. *)
Record ready (l : log) (bl : list Z) (now dk : Z -> list Z) : Prop := {
  rd_layout : layout l bl;
  rd_some : 0 < lh_n l;
  rd_length : length (lh_block l) = Z.to_nat LOGSIZE;
  rd_ints : Forall is_s32 (lh_block l);
  rd_agree : forall m, 0 <= m < nblocks -> m ∉ bl -> now m = dk m;
  rd_header : names (dk (start l)) [];
}.
(** Outside the log area. *)
Definition data_block (l : log) (m : Z) : Prop := 0 <= m < nblocks /\ ~ (start l <= m <= start l + lh_n l).

Lemma ready_start l bl now dk : ready l bl now dk -> now (start l) = dk (start l).
Proof.
  intros R. pose proof (rd_layout _ _ _ _ R) as L. apply (rd_agree _ _ _ _ R); [|apply start_not_home, L].
  pose proof (rd_some _ _ _ _ R). destruct L. lia.
Qed.

Lemma names_head l bl now dk : ready l bl now dk ->
  names (head_data (lh_n l) (lh_block l) (now (start l))) bl.
Proof.
  intros R. pose proof (rd_layout _ _ _ _ R) as L. pose proof (lay_n _ _ L) as En.
  rewrite (ready_start _ _ _ _ R). destruct (rd_header _ _ _ _ R) as [Hl _].
  pose proof (lay_size _ _ L). assert (Hn : 0 <= lh_n l <= LOGSIZE) by lia.
  destruct (head_data_words (lh_n l) (lh_block l) _ Hn Hl (rd_ints _ _ _ _ R)) as [E1 E2];
    [rewrite (rd_length _ _ _ _ R); lia|].
  split; [rewrite head_data_length by assumption; exact Hl|]. split; [rewrite E1; exact En|].
  intros i Hi. rewrite E2 by lia. apply (layout_home l bl i L Hi).
Qed.

(** Before the header is written the log is ignored. *)
Lemma crash_before l bl now dk j : ready l bl now dk -> (j <= length bl)%nat ->
  let d := applyw dk (take j (commit_writes l bl now)) in
  names (d (start l)) [] /\ forall m, data_block l m -> d m = dk m.
Proof.
  intros R Hj. cbn zeta. rewrite (proj1 (commit_prefixes l bl now j) Hj).
  pose proof (rd_layout _ _ _ _ R) as L. pose proof (lay_n _ _ L).
  assert (Hout : forall m, ~ (start l < m <= start l + lh_n l) -> (m ∉ (take j (logw l bl now (length bl))).*1)).
  { intros m Hm Hin. rewrite fmap_take in Hin. apply elem_of_take in Hin as (i & Hi & _).
    apply list_elem_of_lookup_2, logw_targets in Hi. lia. }
  split; [rewrite applyw_notin by (apply Hout; lia); apply R|].
  intros m [_ Hm]. apply applyw_notin, Hout. lia.
Qed.

(** Once the header is on the disk the log has every new block. *)
Lemma crash_between l bl now dk j : ready l bl now dk -> (length bl < j <= 2 * length bl + 1)%nat ->
  let d := applyw dk (take j (commit_writes l bl now)) in
  names (d (start l)) bl /\ forall m, data_block l m -> applyw d (instw l bl d (length bl)) m = now m.
Proof.
  intros R Hj. cbn zeta. rewrite (proj1 (proj2 (commit_prefixes l bl now j)) Hj).
  pose proof (rd_layout _ _ _ _ R) as L. rewrite !applyw_app, applyw_one.
  set (k := (j - length bl - 1)%nat). set (h := head_data _ _ _). set (g := upd _ (start l) h).
  assert (Hout : forall m, (m ∉ bl) -> applyw g (take k (home_writes bl now)) m = g m).
  { intros m Hm. apply applyw_notin. rewrite fmap_take, home_writes_targets. intros Hin.
    apply Hm. apply elem_of_take in Hin as (i & Hi & _). eapply list_elem_of_lookup_2, Hi. }
  split.
  - rewrite Hout by (apply start_not_home, L). unfold g. rewrite upd_eq. eapply names_head, R.
  - intros m [Hr Hm]. rewrite (instw_home l bl _ now).
    + apply home_partial; [apply L|]. destruct (decide (m ∈ bl)) as [Hin|Hin]; [right; exact Hin|left].
      unfold g. rewrite upd_ne by (pose proof (rd_some _ _ _ _ R); lia).
      rewrite applyw_notin; [symmetry; apply R; assumption|].
      intros Hin'. apply logw_targets in Hin'. pose proof (lay_n _ _ L). lia.
    + intros i Hi. destruct (layout_slot l bl i L Hi) as [_ Hsl]. rewrite Hout.
      * unfold g. rewrite upd_ne by lia. apply logged_slot, Hi.
      * intros Hin. pose proof (lay_range _ _ L) as F. rewrite Forall_forall in F. apply F in Hin. lia.
Qed.

(** After the second header everything is in place. *)
Lemma crash_after l bl now dk : ready l bl now dk ->
  let d := applyw dk (commit_writes l bl now) in
  names (d (start l)) [] /\ forall m, data_block l m -> d m = now m.
Proof.
  intros R. cbn zeta. pose proof (rd_layout _ _ _ _ R) as L. unfold commit_writes. rewrite !applyw_app, !applyw_one.
  set (h := head_data (lh_n l) _ _). destruct (names_head _ _ _ _ R) as (Hh & _ & _). fold h in Hh.
  split.
  - rewrite upd_eq. apply names_none; [|apply head_data_none, Hh].
    rewrite head_data_length; [exact Hh|unfold LOGSIZE, MAXOPBLOCKS; lia|exact Hh].
  - intros m [Hr Hm]. pose proof (rd_some _ _ _ _ R). rewrite upd_ne by lia.
    apply (home_partial bl now (upd (applyw dk (logw l bl now (length bl))) (start l) h) 0 m (lay_nodup _ _ L)).
    destruct (decide (m ∈ bl)) as [Hin|Hin]; [right; exact Hin|left]. rewrite upd_ne by lia.
    rewrite applyw_notin; [symmetry; apply R; assumption|].
    intros Hin'. apply logw_targets in Hin'. pose proof (lay_n _ _ L). lia.
Qed.
End steps.
End LogFacts.

Module LogProps.
Import Log LogFacts.

Section crash.
Context {S : Type} `{BufferCache S}.

(** ** Transactions *)

(** What file-system calls do with the log: begin, end, and between the two read a
    block or change a block and log it. *)
Inductive op := OBegin | OEnd | ORead (b : Z) | OWrite (b : Z) (d : list Z).
Inductive answer := AStarted (yes : bool) | ADone | AData (d : list Z).

Definition run_op (o : op) : K (state S) answer :=
  match o with
  | OBegin => b ← begin_op; mret (AStarted b)
  | OEnd => end_op ;; mret ADone
  | ORead b => i ← on_cache (bread b); d ← on_cache (bdata i); on_cache (brelse i) ;; mret (AData d)
  | OWrite b d =>
      i ← on_cache (bread b);
      on_cache (bmodify i (fun _ => d)) ;;
      log_write i ;;
      on_cache (brelse i) ;;
      mret ADone
  end.

(** The promise: a memory of blocks, the state a crash goes back to, the blocks of the
    transaction and the number of calls in it. *)
Record spec := Spec {
  mem : Z -> list Z;
  durable : Z -> list Z;
  logged : list Z;
  running : Z;
}.

Variables (logstart nlog : Z).
Definition in_data (b : Z) : bool :=
  (0 <=? b) && (b <? nblocks) && negb ((logstart <=? b) && (b <? logstart + nlog)).

Definition spec_op (t : spec) (o : op) : option (answer * spec) :=
  match o with
  | OBegin =>
      if LOGSIZE <? Z.of_nat (length (logged t)) + (running t + 1) * MAXOPBLOCKS then Some (AStarted false, t)
      else Some (AStarted true, Spec (mem t) (durable t) (logged t) (running t + 1))
  | OEnd =>
      if running t <? 1 then None
      else if running t =? 1 then Some (ADone, Spec (mem t) (mem t) [] 0)
      else Some (ADone, Spec (mem t) (durable t) (logged t) (running t - 1))
  | ORead b => if in_data b then Some (AData (mem t b), t) else None
  | OWrite b d =>
      if in_data b && (0 <? running t) && (Z.of_nat (length (logged t)) <? nlog - 1)
      then Some (ADone, Spec (upd (mem t) b d) (durable t)
                  (if decide (b ∈ logged t) then logged t else logged t ++ [b]) (running t))
      else None
  end.

(** A state of the log and the cache that stands for [t], with the disk and the writes so far. *)
Record implements (t : spec) (dk : Z -> list Z) (ws : list (Z * list Z)) (s : state S) : Prop := {
  im_start : start (the_log s) = logstart;
  im_size : size (the_log s) = nlog;
  im_out : outstanding (the_log s) = running t;
  im_running : 0 <= running t;
  im_committing : committing (the_log s) = false;
  im_n : lh_n (the_log s) = Z.of_nat (length (logged t));
  im_room : Z.of_nat (length (logged t)) < nlog;
  im_blocks : take (length (logged t)) (lh_block (the_log s)) = logged t;
  im_length : length (lh_block (the_log s)) = Z.to_nat LOGSIZE;
  im_ints : Forall is_s32 (lh_block (the_log s));
  im_data : Forall (fun b => in_data b = true) (logged t);
  im_nodup : NoDup (logged t);
  im_header : names (dk logstart) [];
  im_durable : forall m, in_data m = true -> dk m = durable t m;
  im_cache : exists now, shows (cache s) (quiet now dk (list_to_set (logged t)) ws) /\
    (forall m, in_data m = true -> now m = mem t m) /\
    (forall m, 0 <= m < nblocks -> m ∉ logged t -> now m = dk m);
}.

Fixpoint run_ops (ops : list op) : K (state S) (list answer) :=
  match ops with
  | [] => mret []
  | o :: ops => a ← run_op o; l ← run_ops ops; mret (a :: l)
  end.
Fixpoint spec_ops (t : spec) (ops : list op) : option (list answer * spec) :=
  match ops with
  | [] => Some ([], t)
  | o :: ops => '(a, t1) ← spec_op t o; '(l, t2) ← spec_ops t1 ops; Some (a :: l, t2)
  end.

Record geometry : Prop := {
  ge_start : 0 <= logstart;
  ge_end : logstart + nlog <= nblocks;
  ge_log : 1 <= nlog <= LOGSIZE;
  ge_int : nblocks <= 2 ^ 31;
  ge_bufs : nlog <= Z.of_nat nbuf;
  ge_two : (1 < nbuf)%nat;
}.
Hypothesis G : geometry.

(** The static [log] before [initlog]. *)
Definition log0 : log := MkLog 0 0 0 false 0 (replicate (Z.to_nat LOGSIZE) 0).

(** A boot from the disk [d] recovers the data blocks [want]: it returns, with a store that starts from them. *)
Definition recovers (d want : Z -> list Z) : Prop := forall c2, shows c2 (quiet d d ∅ []) ->
  wp (initlog logstart nlog) (fun _ s2 => exists ws, implements (Spec want want [] 0) (applyw d ws) ws s2) (State log0 c2).

Lemma in_data_spec m : in_data m = true <-> 0 <= m < nblocks /\ ~ (logstart <= m < logstart + nlog).
Proof. unfold in_data. rewrite !andb_true_iff, negb_true_iff, andb_false_iff. lia. Qed.

Lemma recovers_ext d want want' : (forall m, in_data m = true -> want m = want' m) ->
  recovers d want -> recovers d want'.
Proof.
  intros Hw Hr c2 Hs. eapply wp_mono; [exact (Hr c2 Hs)|]. intros [] s2 (ws & I). exists ws.
  destruct I as [? ? ? ? ? ? ? ? ? ? ? ? ? Hd (now & Hc & Hm & Hn)]. constructor; try assumption.
  - intros m Hin. rewrite (Hd m Hin). exact (Hw m Hin).
  - exists now. split; [exact Hc|]. split; [|exact Hn]. intros m Hin. rewrite (Hm m Hin). exact (Hw m Hin).
Qed.

(** A boot from a disk whose header names [bl], the data blocks being those of [want] once the log is
    installed; it writes the blocks and the header. *)
Lemma boot_names l bl d want c2 : layout l bl -> start l = logstart -> names (d logstart) bl ->
  (forall m, in_data m = true -> applyw d (instw l bl d (length bl)) m = want m) -> shows c2 (quiet d d ∅ []) ->
  wp (initlog logstart nlog) (fun _ s2 => exists ws, length ws = (1 + length bl)%nat /\
    implements (Spec want want [] 0) (applyw d ws) ws s2) (State log0 c2).
Proof.
  intros L Hl Hd Hw Hs. unfold initlog, set_log. apply wp_bind. wp_step. cbn [the_log].
  change (BSIZE <=? 4 + 4 * LOGSIZE) with false. cbn iota. apply wp_bind. wp_step. cbn [cache].
  set (l2 := MkLog logstart nlog _ _ _ _). destruct G as [G1 G2 G3 G4 G5 G6]. rewrite <- Hl in Hd.
  assert (SL : same_log l l2) by (split; [symmetry; exact Hl|reflexivity]).
  eapply wp_mono; [apply (wp_recover d l l2 bl c2 L SL Hs Hd G6)|].
  intros [] s2 (E & [K1 K2 K3 K4 K5 K6] & ws & H1 & Hlen & H2 & H3). exists ws. split; [exact Hlen|]. rewrite Hl in H2, H3.
  assert (Hd' : forall m, in_data m = true -> applyw d ws m = want m).
  { intros m Hm. rewrite <- (Hw m Hm). apply in_data_spec in Hm. apply H3. lia. }
  constructor; cbn [mem durable logged running length]; try assumption; try lia; try reflexivity.
  - apply K6. cbn [l2 lh_block log0]. apply Forall_replicate. unfold is_s32. lia.
  - apply Forall_nil_2.
  - apply NoDup_nil_2.
  - exists (applyw d ws). split; [exact H1|]. split; [exact Hd'|reflexivity].
Qed.

Lemma recovers_names l bl d want : layout l bl -> start l = logstart -> names (d logstart) bl ->
  (forall m, in_data m = true -> applyw d (instw l bl d (length bl)) m = want m) -> recovers d want.
Proof.
  intros L Hl Hd Hw c2 Hs. eapply wp_mono; [exact (boot_names l bl d want c2 L Hl Hd Hw Hs)|]. intros [] s2 (ws & _ & I). eauto.
Qed.

(** The log of a disk with an empty header. *)
Definition no_log : log := MkLog logstart nlog 0 false 0 [].
Lemma no_layout : layout no_log [].
Proof.
  destruct G. constructor; cbn [no_log start lh_n lh_block length];
    [reflexivity|unfold LOGSIZE, MAXOPBLOCKS; lia|lia|lia|reflexivity|apply Forall_nil_2|apply NoDup_nil_2].
Qed.

Lemma recovers_none d want : names (d logstart) [] -> (forall m, in_data m = true -> d m = want m) -> recovers d want.
Proof. intros Hd Hw. exact (recovers_names no_log [] d want no_layout eq_refl Hd Hw). Qed.

Lemma recovers_clean t dk ws s : implements t dk ws s -> recovers dk (durable t).
Proof. intros I. apply recovers_none; apply I. Qed.

(** A commit that stops after [j] of its writes is undone or completed. *)
Lemma recovers_commit l bl now dk j : ready l bl now dk -> start l = logstart -> lh_n l < nlog ->
  recovers (applyw dk (take j (commit_writes l bl now))) (if decide (j <= length bl)%nat then dk else now).
Proof.
  intros R Hl Hn. pose proof (rd_layout _ _ _ _ R) as L. pose proof (rd_some _ _ _ _ R) as Hp.
  assert (Hin : forall m, in_data m = true -> data_block l m).
  { intros m Hm. apply in_data_spec in Hm. split; lia. }
  destruct (decide _) as [Hj|Hj].
  - destruct (crash_before _ _ _ _ j R Hj) as [Hd Hw]. rewrite Hl in Hd. apply recovers_none; auto.
  - destruct (decide (j <= 2 * length bl + 1)%nat) as [Hj'|Hj'].
    + destruct (crash_between _ _ _ _ j R ltac:(lia)) as [Hd Hw].
      rewrite Hl in Hd. apply (recovers_names l bl _ now L Hl Hd); auto.
    + rewrite (proj2 (proj2 (commit_prefixes l bl now j))) by lia.
      destruct (crash_after _ _ _ _ R) as [Hd Hw]. rewrite Hl in Hd. apply recovers_none; auto.
Qed.

(** The number of blocks an operation writes: the end of the last call commits the logged blocks,
    each to the log and to its home, with the header before and after the latter. *)
Definition writes_of (t : spec) (o : op) : nat :=
  match o with
  | OEnd => if (running t =? 1) && negb (bool_decide (logged t = [])) then 2 * length (logged t) + 2 else 0
  | _ => 0
  end.
(** Where a crash after [j] of these writes leads: the commit counts once its header is on the disk. *)
Definition crash_to (t t' : spec) (j : nat) : Z -> list Z := if (j <=? length (logged t))%nat then durable t else durable t'.

Definition step_ok (t : spec) (o : op) (dk : Z -> list Z) (ws : list (Z * list Z)) (a : answer) (t' : spec)
    (a' : answer) (s' : state S) : Prop :=
  a' = a /\ exists W, length W = writes_of t o /\ implements t' (applyw dk W) (ws ++ W) s' /\
    forall j, (j <= length W)%nat -> recovers (applyw dk (take j W)) (crash_to t t' j).

(** A step that writes nothing to the disk can crash only to where it was. *)
Lemma step_quiet t o dk ws a t' s s' : writes_of t o = 0%nat -> implements t dk ws s -> implements t' dk ws s' ->
  step_ok t o dk ws a t' a s'.
Proof.
  intros Hz I I'. split; [reflexivity|]. exists []. rewrite app_nil_r. split; [symmetry; exact Hz|]. split; [exact I'|].
  intros [|j] Hj; [|cbn in Hj; lia]. eapply recovers_clean, I.
Qed.

Lemma im_logged t dk ws s m : implements t dk ws s -> m ∈ logged t -> in_data m = true.
Proof. intros I Hm. pose proof (im_data _ _ _ _ I) as F. rewrite Forall_forall in F. apply F, Hm. Qed.

(** A read leaves room for the log's own buffer. *)
Lemma im_pinned t dk ws s : implements t dk ws s -> (base.size (list_to_set (logged t) : gset Z) < nbuf)%nat.
Proof.
  intros I. rewrite size_list_to_set by apply I. pose proof (im_room _ _ _ _ I). destruct G. lia.
Qed.

Lemma begin_step t dk ws a t' s : implements t dk ws s -> spec_op t OBegin = Some (a, t') ->
  wp (run_op OBegin) (step_ok t OBegin dk ws a t') s.
Proof.
  intros I E. cbn [run_op spec_op] in *. unfold begin_op, set_log.
  apply wp_bind, wp_bind. wp_step. rewrite (im_committing _ _ _ _ I), (im_n _ _ _ _ I), (im_out _ _ _ _ I).
  destruct (_ <? _); injection E as <- <-; wp_steps.
  - eapply step_quiet; [reflexivity|exact I|exact I].
  - eapply step_quiet; [reflexivity|exact I|]. destruct I. constructor; cbn in *; try assumption; lia.
Qed.

Lemma read_step t dk ws b a t' s : implements t dk ws s -> spec_op t (ORead b) = Some (a, t') ->
  wp (run_op (ORead b)) (step_ok t (ORead b) dk ws a t') s.
Proof.
  intros I E. cbn [run_op spec_op] in *. destruct (in_data b) eqn:Eb; [|discriminate]. injection E as <- <-.
  destruct (im_cache _ _ _ _ I) as (now & Hs & Hnow & Hdk).
  apply wp_bind, wp_on_cache. eapply law_bread; [exact Hs|apply in_data_spec, Eb|apply not_elem_of_empty| |].
  { right. rewrite size_quiet. eapply im_pinned, I. }
  intros i c1 _ H1. cbn [v_now v_disk v_pinned v_held v_writes quiet] in H1.
  apply wp_bind, wp_on_cache. cbn [the_log cache]. eapply law_bdata; [exact H1|left|]. cbn [v_now].
  apply wp_bind, wp_on_cache. cbn [the_log cache].
  eapply (law_brelse _ _ i b [] []); [exact H1|reflexivity| |].
  { cbn. destruct (decide (b ∈ logged t)) as [Hin|Hin].
    - right. apply elem_of_list_to_set, Hin.
    - left. apply Hdk; [apply in_data_spec, Eb|exact Hin]. }
  intros c2 H2. wp_step. rewrite (Hnow b Eb). eapply step_quiet; [reflexivity|exact I|].
  destruct I. constructor; cbn in *; try assumption. eauto.
Qed.

(** The block list of the header after a [log_write]. *)
Lemma logged_list (bl blocks : list Z) b n : take (length bl) blocks = bl -> n = length bl -> (length bl < length blocks)%nat ->
  let i := match list_find (fun x => x = b) (take n blocks) with Some (i, _) => i | None => n end in
  let bl' := if decide (b ∈ bl) then bl else bl ++ [b] in
  (if (i =? n)%nat then Z.of_nat n + 1 else Z.of_nat n) = Z.of_nat (length bl') /\
  take (length bl') (<[i := b]> blocks) = bl'.
Proof.
  intros Hbl -> Hl. cbn zeta. rewrite Hbl. destruct (list_find _ bl) as [[i x]|] eqn:Ef.
  - apply list_find_Some in Ef as (Hi & -> & _). pose proof (lookup_lt_Some _ _ _ Hi) as Hlt.
    rewrite decide_True by (eapply list_elem_of_lookup_2, Hi).
    rewrite (proj2 (Nat.eqb_neq _ _)) by lia. split; [reflexivity|].
    rewrite list_insert_id; [exact Hbl|]. rewrite <- Hbl in Hi. apply lookup_take_Some in Hi as [Hi _]. exact Hi.
  - apply list_find_None in Ef. rewrite decide_False.
    + rewrite Nat.eqb_refl, length_app. cbn [length]. split; [lia|]. rewrite Nat.add_1_r.
      rewrite (take_S_r _ _ b) by (apply list_lookup_insert_eq; exact Hl).
      rewrite take_insert_ge, Hbl by lia. reflexivity.
    + intros Hin. rewrite Forall_forall in Ef. apply (Ef b Hin). reflexivity.
Qed.

Lemma in_data_int b : in_data b = true -> is_s32 b.
Proof. rewrite in_data_spec. destruct G. unfold is_s32. lia. Qed.

Lemma pin_logged bl b : {[b]} ∪ list_to_set bl = (list_to_set (if decide (b ∈ bl) then bl else bl ++ [b]) : gset Z).
Proof.
  apply set_eq. intros x. rewrite elem_of_union, elem_of_singleton, !elem_of_list_to_set.
  destruct (decide (b ∈ bl)) as [Hb|Hb]; [split; [intros [->|?]; assumption|tauto]|].
  rewrite elem_of_app, list_elem_of_singleton. tauto.
Qed.

Lemma logged_data t dk ws s b : implements t dk ws s -> in_data b = true ->
  let bl' := if decide (b ∈ logged t) then logged t else logged t ++ [b] in
  Forall (fun b => in_data b = true) bl' /\ NoDup bl' /\ (length bl' <= 1 + length (logged t))%nat.
Proof.
  intros I Eb. pose proof (im_data _ _ _ _ I). pose proof (im_nodup _ _ _ _ I).
  cbn zeta. destruct (decide _) as [Hin|Hin]; [split; [assumption|split; [assumption|lia]]|].
  split; [apply Forall_app; split; [assumption|apply Forall_singleton, Eb]|].
  split; [|rewrite length_app; simpl; lia].
  apply NoDup_app. split; [assumption|]. split; [|apply NoDup_singleton].
  intros x Hx Hx'. apply list_elem_of_singleton in Hx' as ->. contradiction.
Qed.

Lemma write_step t dk ws b d a t' s : implements t dk ws s -> spec_op t (OWrite b d) = Some (a, t') ->
  wp (run_op (OWrite b d)) (step_ok t (OWrite b d) dk ws a t') s.
Proof.
  intros I E. cbn [run_op spec_op] in *. destruct (in_data b) eqn:Eb; [|discriminate].
  destruct (0 <? running t) eqn:Er; [|discriminate]. destruct (_ <? nlog - 1) eqn:En; [|discriminate].
  cbn in E. injection E as <- <-. apply Z.ltb_lt in Er, En. pose proof (ge_log G) as Gl.
  destruct (im_cache _ _ _ _ I) as (now & Hs & Hnow & Hdk).
  apply wp_bind, wp_on_cache. eapply law_bread; [exact Hs|apply in_data_spec, Eb|apply not_elem_of_empty| |].
  { right. rewrite size_quiet. eapply im_pinned, I. }
  intros i c1 _ H1. cbn [v_now v_disk v_pinned v_held v_writes quiet] in H1.
  apply wp_bind, wp_on_cache. cbn [the_log cache]. eapply law_bmodify; [exact H1|left|]. intros c2 H2.
  cbn [v_now v_disk v_pinned v_held v_writes quiet] in H2.
  apply wp_bind. unfold log_write, set_log. apply wp_bind. wp_step. cbn [the_log].
  rewrite (im_n _ _ _ _ I), (im_size _ _ _ _ I), (im_out _ _ _ _ I).
  rewrite (proj2 (Z.leb_gt _ _)), (proj2 (Z.leb_gt _ _)), (proj2 (Z.ltb_ge _ _)) by lia. cbn [orb].
  apply wp_bind, wp_on_cache. cbn [the_log cache]. eapply law_bnum; [exact H2|left|].
  apply wp_bind. wp_step. cbn [cache]. apply wp_on_cache. cbn [the_log cache].
  eapply law_bpin; [exact H2|left|]. intros c3 H3. cbn [v_now v_disk v_pinned v_held v_writes] in H3.
  rewrite pin_logged in H3. apply wp_bind, wp_on_cache. cbn [the_log cache].
  eapply (law_brelse _ _ i b [] []); [exact H3|reflexivity| |].
  { right. cbn. rewrite <- pin_logged, elem_of_union, elem_of_singleton. left. reflexivity. }
  intros c4 H4. wp_step. eapply step_quiet; [reflexivity|exact I|].
  assert (Hlt : (length (logged t) < length (lh_block (the_log s)))%nat) by (rewrite (im_length _ _ _ _ I); lia).
  destruct (logged_list (logged t) (lh_block (the_log s)) b _ (im_blocks _ _ _ _ I) (eq_refl _) Hlt) as [F1 F2].
  rewrite Nat2Z.id. set (pos := match list_find _ _ with Some _ => _ | None => _ end) in *.
  set (bl' := if decide (b ∈ logged t) then logged t else logged t ++ [b]) in *.
  destruct (logged_data _ _ _ _ _ I Eb) as (D1 & D2 & D3). fold bl' in D1, D2, D3.
  destruct I. constructor; cbn [the_log start size outstanding committing lh_n lh_block mem durable logged running cache];
    try assumption; try lia.
  - rewrite length_insert. assumption.
  - apply Forall_insert; [assumption|apply in_data_int, Eb].
  - exists (upd now b d). split; [exact H4|]. split.
    + intros m Hm. destruct (decide (m = b)) as [->|Hne]; [rewrite !upd_eq; reflexivity|].
      rewrite !upd_ne by exact Hne. apply Hnow, Hm.
    + intros m Hm Hni. assert (Hmb : m ∉ {[b]} ∪ (list_to_set (logged t) : gset Z)).
      { rewrite pin_logged, elem_of_list_to_set. exact Hni. }
      rewrite elem_of_union, elem_of_singleton, elem_of_list_to_set in Hmb.
      rewrite upd_ne by tauto. apply Hdk; tauto.
Qed.

(** The log as [end_op] leaves it before the commit. *)
Definition ending (l : log) (out : Z) (com : bool) : log := MkLog (start l) (size l) out com (lh_n l) (lh_block l).

Lemma ready_commit t dk ws s now : implements t dk ws s -> 0 < lh_n (the_log s) ->
  (forall m, 0 <= m < nblocks -> m ∉ logged t -> now m = dk m) ->
  ready (ending (the_log s) 0 true) (logged t) now dk.
Proof.
  intros I Hn Hdk. pose proof (ge_log G). pose proof (ge_end G). pose proof (ge_start G).
  pose proof (im_data _ _ _ _ I) as F. destruct I.
  constructor; cbn [ending start lh_n lh_block]; try assumption; [|rewrite im_start0; assumption].
  constructor; cbn [ending start lh_n lh_block]; try assumption; try lia.
  eapply Forall_impl; [exact F|]. intros b Hb. apply in_data_spec in Hb. lia.
Qed.

(** The last [end_op] with blocks in the log. *)
Lemma commit_step t dk ws s : implements t dk ws s -> 0 < lh_n (the_log s) ->
  wp commit (fun _ s1 => exists W, length W = (2 * length (logged t) + 2)%nat /\
    implements (Spec (mem t) (mem t) [] 0) (applyw dk W) (ws ++ W) 
      (State (ending (the_log s1) (outstanding (the_log s1)) false) (cache s1)) /\
    forall j, recovers (applyw dk (take j W)) (if (j <=? length (logged t))%nat then durable t else mem t))
    (State (ending (the_log s) 0 true) (cache s)).
Proof.
  intros I Hn. destruct (im_cache _ _ _ _ I) as (now & Hs & Hnow & Hdk).
  pose proof (ready_commit _ _ _ _ _ I Hn Hdk) as R. pose proof (rd_layout _ _ _ _ R) as L.
  set (l := ending (the_log s) 0 true) in *. pose proof (im_room _ _ _ _ I) as Hroom.
  assert (Hst : start l = logstart) by apply I. assert (Hl : lh_n l < nlog) by (cbn; rewrite (im_n _ _ _ _ I); lia).
  assert (Hout : forall m, in_data m = true -> data_block l m).
  { intros m Hm. apply in_data_spec in Hm. split; [apply Hm|]. lia. }
  eapply wp_mono; [apply (wp_commit now dk ws l (logged t) (cache s) L Hn Hs)|].
  { pose proof (ge_bufs G). lia. }
  intros [] [l1 c1] [E1 H1]. cbn [the_log cache] in *. subst l1.
  exists (commit_writes l (logged t) now). destruct (crash_after _ _ _ _ R) as [Hd Hw]. rewrite Hst in Hd.
  split; [apply length_commit|]. split.
  - destruct I. constructor; cbn [ending l the_log start size outstanding committing lh_n lh_block mem durable logged running cache length];
      try assumption; try lia; try reflexivity.
    + apply Forall_nil_2.
    + apply NoDup_nil_2.
    + intros m Hm. rewrite (Hw m (Hout m Hm)). apply Hnow, Hm.
    + eexists. split; [exact H1|]. split.
      * intros m Hm. rewrite <- (Hnow m Hm), <- (Hw m (Hout m Hm)). apply applyw_agree.
        destruct (decide (m ∈ logged t)) as [Hin|Hin]; [left|right; apply Hdk; [apply in_data_spec, Hm|exact Hin]].
        apply home_in_commit, Hin.
      * intros m Hm _. apply applyw_agree.
        destruct (decide (m ∈ logged t)) as [Hin|Hin]; [left; apply home_in_commit, Hin|right; apply Hdk; assumption].
  - intros j. pose proof (recovers_commit _ _ _ _ j R Hst Hl) as Hrec. destruct (decide _), (Nat.leb_spec j (length (logged t))); try lia.
    + eapply recovers_ext, Hrec. apply I.
    + eapply recovers_ext, Hrec. exact Hnow.
Qed.

(** The last [end_op] with none. *)
Lemma end_empty t dk ws s : implements t dk ws s -> logged t = [] ->
  implements (Spec (mem t) (mem t) [] 0) dk ws (State (ending (the_log s) 0 false) (cache s)).
Proof.
  intros I Hl. destruct I as [? ? ? ? ? ? ? ? ? ? ? ? ? ? (now & Hs & Hnow & Hdk)]. rewrite Hl in *.
  constructor; cbn [ending the_log start size outstanding committing lh_n lh_block mem durable logged running cache];
    try assumption; try lia; try reflexivity.
  - intros m Hm. rewrite <- (Hnow m Hm). symmetry. apply Hdk; [apply in_data_spec, Hm|apply not_elem_of_nil].
  - eauto.
Qed.

Lemma end_step t dk ws a t' s : implements t dk ws s -> spec_op t OEnd = Some (a, t') ->
  wp (run_op OEnd) (step_ok t OEnd dk ws a t') s.
Proof.
  intros I E. cbn [run_op spec_op] in *. destruct (running t <? 1) eqn:Er; [discriminate|]. apply Z.ltb_ge in Er.
  unfold end_op, set_log. apply wp_bind, wp_bind. wp_step. rewrite (im_committing _ _ _ _ I), (im_out _ _ _ _ I).
  apply wp_bind. wp_step. destruct (running t =? 1) eqn:E1; injection E as <- <-.
  - apply Z.eqb_eq in E1. rewrite E1. cbn [Z.sub Z.eqb]. change (1 - 1 =? 0) with true. change (1 - 1) with 0. cbn iota.
    destruct (decide (0 < lh_n (the_log s))) as [Hn|Hn].
    + apply wp_bind. eapply wp_mono; [exact (commit_step _ _ _ _ I Hn)|]. intros [] s1 (W & HW & H1 & H2).
      wp_steps. split; [reflexivity|]. exists W. cbn [writes_of]. rewrite E1. rewrite bool_decide_eq_false_2.
      { split; [exact HW|]. split; [exact H1|]. intros j _. exact (H2 j). }
      intros Hnil. rewrite (im_n _ _ _ _ I), Hnil in Hn. cbn in Hn. lia.
    + unfold commit. do 2 apply wp_bind. wp_step. cbn [the_log lh_n]. rewrite (proj2 (Z.ltb_ge _ _)) by lia. wp_steps.
      assert (Hnil : logged t = []) by (rewrite (im_n _ _ _ _ I) in Hn; apply nil_length_inv; lia).
      eapply step_quiet; [|exact I|exact (end_empty _ _ _ _ I Hnil)].
      cbn [writes_of]. rewrite bool_decide_eq_true_2, andb_false_r by exact Hnil. reflexivity.
  - assert (Hw : writes_of t OEnd = 0%nat) by (cbn [writes_of]; rewrite E1; reflexivity).
    apply Z.eqb_neq in E1. rewrite (proj2 (Z.eqb_neq _ _)) by lia. wp_steps.
    eapply step_quiet; [exact Hw|exact I|]. destruct I. constructor; cbn in *; try assumption; lia.
Qed.

Lemma op_step t dk ws o a t' s : implements t dk ws s -> spec_op t o = Some (a, t') ->
  wp (run_op o) (step_ok t o dk ws a t') s.
Proof. destruct o; [apply begin_step|apply end_step|apply read_step|apply write_step]. Qed.

(** What a crash after [j] of the block writes of [ops] restores: the memory as of the last group of calls whose
    header is among these writes. *)
Fixpoint durable_at (t : spec) (ops : list op) (j : nat) : Z -> list Z :=
  match ops with
  | [] => durable t
  | o :: ops =>
      match spec_op t o with
      | None => durable t
      | Some (_, t1) => if (j <? writes_of t o)%nat then crash_to t t1 j else durable_at t1 ops (j - writes_of t o)
      end
  end.
Fixpoint writes_along (t : spec) (ops : list op) : nat :=
  match ops with
  | [] => 0
  | o :: ops => match spec_op t o with None => 0 | Some (_, t1) => writes_of t o + writes_along t1 ops end
  end.

(** Once operations have returned, what they made durable stays. *)
Lemma durable_at_app ops : forall t l t1 ops' j, spec_ops t ops = Some (l, t1) ->
  durable_at t (ops ++ ops') (writes_along t ops + j) = durable_at t1 ops' j.
Proof.
  induction ops as [|o ops IH]; intros t l t1 ops' j E; cbn [spec_ops app durable_at writes_along] in *.
  - injection E as _ <-. reflexivity.
  - destruct (spec_op t o) as [[a t2]|]; [|discriminate]. cbn in E. destruct (spec_ops t2 ops) as [[l2 t3]|] eqn:E2; [|discriminate].
    injection E as _ <-. rewrite (proj2 (Nat.ltb_ge _ _)) by lia.
    replace (writes_of t o + writes_along t2 ops + j - writes_of t o)%nat with (writes_along t2 ops + j)%nat by lia. eapply IH, E2.
Qed.

(** Before the first write nothing is lost or gained. *)
Lemma durable_first ops : forall t, (logged t = [] -> mem t = durable t) -> durable_at t ops 0 = durable t.
Proof.
  induction ops as [|o ops IH]; intros t Ht; [reflexivity|]. cbn [durable_at].
  destruct (spec_op t o) as [[a t1]|] eqn:E; [|reflexivity].
  destruct (Nat.ltb_spec 0 (writes_of t o)) as [_|Hz]; [reflexivity|]. cbn [Nat.sub].
  destruct o as [| |b|b d]; cbn [spec_op writes_of] in *.
  - destruct (_ <? _); injection E as _ <-; (rewrite IH; [reflexivity|exact Ht]).
  - destruct (running t <? 1); [discriminate|]. destruct (running t =? 1); injection E as _ <-; [|rewrite IH; [reflexivity|exact Ht]].
    cbn [andb] in Hz. destruct (bool_decide (logged t = [])) eqn:El; cbn [negb] in Hz; [|lia].
    apply bool_decide_eq_true in El. rewrite IH by reflexivity. exact (Ht El).
  - destruct (in_data b); [|discriminate]. injection E as _ <-. apply IH, Ht.
  - destruct (_ && _); [|discriminate]. injection E as _ <-. rewrite IH; [reflexivity|]. cbn [logged].
    destruct (decide (b ∈ logged t)) as [Hin|_]; intros Hl; [rewrite Hl in Hin; inversion Hin|destruct (logged t); discriminate].
Qed.

Lemma log_run ops : forall t l t' dk ws s, implements t dk ws s -> spec_ops t ops = Some (l, t') ->
  wp (run_ops ops) (fun l' s' => l' = l /\ exists W, length W = writes_along t ops /\ implements t' (applyw dk W) (ws ++ W) s' /\
    forall j, (j <= length W)%nat -> recovers (applyw dk (take j W)) (durable_at t ops j)) s.
Proof.
  induction ops as [|o ops IH]; intros t l t' dk ws s I E; cbn [run_ops spec_ops writes_along durable_at] in *.
  - injection E as <- <-. wp_step. split; [reflexivity|]. exists []. rewrite app_nil_r. split; [reflexivity|]. split; [exact I|].
    intros j _. rewrite take_nil. eapply recovers_clean, I.
  - destruct (spec_op t o) as [[a t1]|] eqn:E1; [|discriminate]. cbn in E.
    destruct (spec_ops t1 ops) as [[l1 t2]|] eqn:E2; [|discriminate]. cbn in E. injection E as <- <-.
    apply wp_bind. eapply wp_mono; [exact (op_step _ _ _ _ _ _ _ I E1)|]. intros a' s1 (-> & W1 & L1 & I1 & C1).
    apply wp_bind. eapply wp_mono; [exact (IH _ _ _ _ _ _ I1 E2)|]. intros l' s2 (-> & W2 & L2 & I2 & C2).
    wp_step. split; [reflexivity|]. exists (W1 ++ W2). rewrite applyw_app, app_assoc, length_app. split; [lia|]. split; [exact I2|].
    intros j Hj. destruct (Nat.ltb_spec j (writes_of t o)) as [Hlt|Hge].
    + rewrite take_app_le by lia. apply C1. lia.
    + rewrite take_app_ge, applyw_app, <- L1 by lia. apply C2. lia.
Qed.

(** C1: The log and the cache together are a crash-safe block store.  After boot on a disk [d] with an empty
    log header, any sequence of begins, ends, reads and logged writes of concurrent file-system calls that stays
    below the log's capacity runs to completion and is answered as by a plain memory of blocks (a begin is
    refused exactly when the reservation does not fit).  The block writes that the machine has made are those
    of the boot, one header, and of the commits, and the disk is [d] after them.  If it stops after any number
    [j] of these writes, the next boot returns, and its store starts from the data blocks as of the last group of
    overlapping calls whose header is among the [j] writes ([durable_at]): no part of an unfinished group survives,
    and a group is durable from its header on, thus when its last call has returned. *)
Theorem log_crash_refinement d c ops l t' : names (d logstart) [] -> shows c (quiet d d ∅ []) ->
  spec_ops (Spec d d [] 0) ops = Some (l, t') ->
  wp (initlog logstart nlog ;; run_ops ops) (fun l' s' => l' = l /\ let ws := trace (cache s') in
    length ws = (1 + writes_along (Spec d d [] 0) ops)%nat /\ implements t' (applyw d ws) ws s' /\
    forall j, (j <= length ws)%nat -> recovers (applyw d (take j ws)) (durable_at (Spec d d [] 0) ops (j - 1))) (State log0 c).
Proof.
  intros Hd Hs E. apply wp_bind.
  eapply wp_mono; [exact (boot_names no_log [] d d c no_layout eq_refl Hd (fun _ _ => eq_refl) Hs)|].
  intros [] s (w0 & L0 & I). eapply wp_mono; [exact (log_run ops _ _ _ _ _ _ I E)|].
  intros l' s' (-> & W & LW & I' & C). split; [reflexivity|]. assert (Et : trace (cache s') = w0 ++ W).
  { destruct (im_cache _ _ _ _ I') as (now & Hc & _). exact (law_trace _ _ Hc). }
  cbn [length] in L0. rewrite Et. cbn zeta. split; [rewrite length_app; lia|]. split; [rewrite applyw_app; exact I'|].
  intros [|j] Hj; rewrite length_app in Hj.
  - change (0 - 1)%nat with 0%nat. rewrite (durable_first ops (Spec d d [] 0)) by reflexivity. exact (recovers_none d d Hd (fun _ _ => eq_refl)).
  - rewrite take_app_ge, applyw_app, L0 by lia. apply C. lia.
Qed.
End crash.

(** Three calls may run at once, each allowed ten blocks, but a log area of [LOGSIZE]
    blocks takes only 29: the thirtieth block panics. *)
Lemma reservation_exceeds_log {S} `{BufferCache S} (c : S) b l :
  lh_n l = 29 -> size l = LOGSIZE -> outstanding l = 3 ->
  begin_op (State (MkLog (start l) (size l) 2 false 0 (lh_block l)) c) =
    Ok (true, State (MkLog (start l) (size l) 3 false 0 (lh_block l)) c) /\
  log_write b (State l c) = Panic "too big a transaction".
Proof.
  intros Hn Hs Ho. split; [reflexivity|]. destruct l. cbn in Hn, Hs, Ho. subst. reflexivity.
Qed.

Definition cold : BufCache.bcache :=
  BufCache.Bcache (replicate 30 (BufCache.Buf false false false 0 0 [])) [] (replicate 40 (replicate 124 0)) [].
Definition cold_disk (n : Z) : list Z := replicate 40 (replicate 124 0) !!! Z.to_nat n.
Definition small_ops : list op := [OBegin; OWrite 35 [7]; ORead 35; OEnd].

Lemma cold_geometry : @geometry _ (BioFacts.bio_cache 40) 2 30.
Proof.
  assert (E : @nbuf _ (BioFacts.bio_cache 40) = 30%nat) by reflexivity.
  assert (E' : @nblocks _ (BioFacts.bio_cache 40) = 40) by reflexivity.
  constructor; rewrite ?E, ?E'; unfold LOGSIZE, MAXOPBLOCKS; lia.
Qed.

Lemma cold_shows : @shows _ (BioFacts.bio_cache 40) (BufCache.binit cold) (quiet cold_disk cold_disk ∅ []).
Proof.
  apply (BioProps.binit_agrees cold); [reflexivity|]. apply Forall_replicate. split; reflexivity.
Qed.

(** One block is logged and committed.  Before its header is written, the third write since boot, a crash loses it;
    from then on a crash keeps it. *)
Lemma log_crash_refinement_witness : exists s',
  (@initlog _ (BioFacts.bio_cache 40) 2 30 ;; @run_ops _ (BioFacts.bio_cache 40) small_ops)
    (State log0 (BufCache.binit cold)) = Ok ([AStarted true; ADone; AData [7]; ADone], s') /\
  let ws := BufCache.writes (cache s') in length ws = 5%nat /\
  @recovers _ (BioFacts.bio_cache 40) 2 30 (applyw cold_disk (take 2 ws)) cold_disk /\
  @recovers _ (BioFacts.bio_cache 40) 2 30 (applyw cold_disk (take 3 ws)) (upd cold_disk 35 [7]).
Proof.
  destruct (@log_crash_refinement _ (BioFacts.bio_cache 40) 2 30 cold_geometry cold_disk (BufCache.binit cold) small_ops
    [AStarted true; ADone; AData [7]; ADone] (Spec (upd cold_disk 35 [7]) (upd cold_disk 35 [7]) [] 0))
    as (l' & s' & E & -> & Hl & _ & C).
  - split; [cbv; lia|]. split; [reflexivity|]. simpl. lia.
  - exact cold_shows.
  - reflexivity.
  - exists s'. split; [exact E|]. cbn zeta. change (trace (cache s')) with (BufCache.writes (cache s')) in *.
    change (length (BufCache.writes (cache s')) = 5%nat) in Hl. split; [exact Hl|]. split; [apply (C 2%nat); lia|apply (C 3%nat); lia].
Defined.
End LogProps.
