(* ===== verification/Fs.v ===== *)
(** The file system (fs.c): blocks, inodes, directories and paths.

    The blocks are a memory, which is what the log and the buffer cache make of the
    disk ([LogProps.log_crash_refinement] in Log.v): [bread] looks a block up and
    [log_write] puts it back.  A pointer to an inode is its index in the inode cache.
    [ilock] of a busy inode sleeps, which is [Spin] here; the operations of devices
    ([devsw]) are parameters. *)

From S2P Require Import Prelude.

Module Fs.

Definition ROOTINO : Z := 1.
Definition ROOTDEV : Z := 1.
Definition BSIZE : Z := 512.
Definition NDIRECT : Z := 12.
Definition NINDIRECT : Z := BSIZE / 4.
Definition MAXFILE : Z := NDIRECT + NINDIRECT.
Definition IPB : Z := BSIZE / 64.
Definition BPB : Z := BSIZE * 8.
Definition DIRSIZ : Z := 14.
Definition DIRENT : Z := 16.
Definition NINODE : Z := 50.
Definition NDEV : Z := 10.
Definition T_DIR : Z := 1.
Definition T_DEV : Z := 3.

Record superblock := Superblock {
  size : Z;
  nblocks : Z;
  ninodes : Z;
  nlog : Z;
  logstart : Z;
  inodestart : Z;
  bmapstart : Z;
}.

Record inode := Inode {
  dev : Z;
  inum : Z;
  ref : Z;
  busy : bool;     (** I_BUSY *)
  valid : bool;    (** I_VALID *)
  itype : Z;
  major : Z;
  minor : Z;
  nlink : Z;
  isize : Z;
  addrs : list Z;
}.
Definition set_ref (n : Z) (v : inode) : inode :=
  Inode (dev v) (inum v) n (busy v) (valid v) (itype v) (major v) (minor v) (nlink v) (isize v) (addrs v).
Definition set_flags (b va : bool) (v : inode) : inode :=
  Inode (dev v) (inum v) (ref v) b va (itype v) (major v) (minor v) (nlink v) (isize v) (addrs v).
Definition set_type (t : Z) (v : inode) : inode :=
  Inode (dev v) (inum v) (ref v) (busy v) (valid v) t (major v) (minor v) (nlink v) (isize v) (addrs v).
Definition set_size (n : Z) (v : inode) : inode :=
  Inode (dev v) (inum v) (ref v) (busy v) (valid v) (itype v) (major v) (minor v) (nlink v) n (addrs v).
Definition set_addrs (a : list Z) (v : inode) : inode :=
  Inode (dev v) (inum v) (ref v) (busy v) (valid v) (itype v) (major v) (minor v) (nlink v) (isize v) a.

Record fs := MkFs {
  blocks : list (list Z);
  sb : superblock;
  icache : list inode;
}.

Definition get_inode (ip : nat) : K fs inode := fun s => lift_opt "inode pointer" (icache s !! ip) s.
Definition put_inode (ip : nat) (v : inode) : K fs unit :=
  modify (fun s => MkFs (blocks s) (sb s) (<[ip := v]> (icache s))).

(** ** Blocks *)

Definition bread (d b : Z) : K fs (list Z) := fun s =>
  if negb (d =? 1) then Panic "iderw: request not for disk 1"
  else match (if b <? 0 then None else blocks s !! Z.to_nat b) with
       | Some x => Ok (x, s)
       | None => Panic "iderw: block out of range"
       end.
Definition log_write (b : Z) (x : list Z) : K fs unit :=
  modify (fun s => MkFs (<[Z.to_nat b := x]> (blocks s)) (sb s) (icache s)).

Definition word (off : nat) (d : list Z) : Z := le_word (window off 4 d).
Definition put_word (off : nat) (w : Z) (d : list Z) : list Z := splice off (le_bytes 4 w) d.
Definition half (off : nat) (d : list Z) : Z := le_word (window off 2 d).
Definition put_half (off : nat) (w : Z) (d : list Z) : list Z := splice off (le_bytes 2 w) d.
(** A [short]. *)
Definition s16 (w : Z) : Z := let u := w mod 65536 in if u <? 32768 then u else u - 65536.

Definition decode_sb (d : list Z) : superblock :=
  Superblock (word 0 d) (word 4 d) (word 8 d) (word 12 d) (word 16 d) (word 20 d) (word 24 d).
Definition readsb (d : Z) : K fs unit :=
  x ← bread d 1;
  modify (fun s => MkFs (blocks s) (decode_sb x) (icache s)).

Definition bzero (d bno : Z) : K fs unit :=
  _ ← bread d bno;
  log_write bno (replicate (Z.to_nat BSIZE) 0).

Definition BBLOCK (b : Z) (sb : superblock) : Z := b / BPB + bmapstart sb.
Definition IBLOCK (i : Z) (sb : superblock) : Z := i / IPB + inodestart sb.

(** Bit [bi] of a block of the free map. *)
Definition bit (bi : Z) (d : list Z) : bool :=
  negb (Z.land (d !!! Z.to_nat (bi / 8)) (Z.shiftl 1 (bi mod 8)) =? 0).
Definition set_bit (bi : Z) (d : list Z) : list Z :=
  <[Z.to_nat (bi / 8) := u8 (Z.lor (d !!! Z.to_nat (bi / 8)) (Z.shiftl 1 (bi mod 8)))]> d.
Definition clear_bit (bi : Z) (d : list Z) : list Z :=
  <[Z.to_nat (bi / 8) := u8 (Z.land (d !!! Z.to_nat (bi / 8)) (Z.lnot (Z.shiftl 1 (bi mod 8))))]> d.

Fixpoint balloc_loop (d : Z) (bs : list Z) : K fs Z :=
  match bs with
  | [] => panic "balloc: out of blocks"
  | b :: bs' =>
      sb ← gets sb;
      x ← bread d (BBLOCK b sb);
      match list_find (fun bi => bit bi x = false) (seqZ 0 (Z.min BPB (size sb - b))) with
      | Some (_, bi) =>
          log_write (BBLOCK b sb) (set_bit bi x) ;;
          bzero d (b + bi) ;;
          mret (b + bi)
      | None => balloc_loop d bs'
      end
  end.
Definition balloc (d : Z) : K fs Z :=
  sb ← gets sb;
  balloc_loop d (steps (size sb) BPB).

Definition bfree (d b : Z) : K fs unit :=
  readsb d ;;
  sb ← gets sb;
  x ← bread d (BBLOCK b sb);
  let bi := b mod BPB in
  if negb (bit bi x) then panic "freeing free block"
  else log_write (BBLOCK b sb) (clear_bit bi x).

(** ** Inodes *)

(** The [inum % IPB]th of the 64-byte structs of a block. *)
Definition dinode_off (i : Z) : nat := Z.to_nat (64 * (i mod IPB)).
Definition encode_dinode (v : inode) : list Z :=
  le_bytes 2 (itype v) ++ le_bytes 2 (major v) ++ le_bytes 2 (minor v) ++ le_bytes 2 (nlink v) ++
  le_bytes 4 (isize v) ++ concat (le_bytes 4 <$> addrs v).
Definition decode_dinode (off : nat) (d : list Z) (v : inode) : inode :=
  Inode (dev v) (inum v) (ref v) (busy v) (valid v)
    (s16 (half off d)) (s16 (half (off + 2) d)) (s16 (half (off + 4) d)) (s16 (half (off + 6) d))
    (word (off + 8) d) ((fun k => word (off + 12 + 4 * k) d) <$> seq 0 13).

Definition iupdate (ip : nat) : K fs unit :=
  v ← get_inode ip;
  sb ← gets sb;
  x ← bread (dev v) (IBLOCK (inum v) sb);
  log_write (IBLOCK (inum v) sb) (splice (dinode_off (inum v)) (encode_dinode v) x).

Definition iget (d i : Z) : K fs nat :=
  l ← gets icache;
  match list_find (fun v => 0 < ref v /\ dev v = d /\ inum v = i) l with
  | Some (ip, v) => put_inode ip (set_ref (ref v + 1) v) ;; mret ip
  | None =>
      match list_find (fun v => ref v = 0) l with
      | None => panic "iget: no inodes"
      | Some (ip, v) =>
          put_inode ip (Inode d i 1 false false (itype v) (major v) (minor v) (nlink v) (isize v) (addrs v)) ;;
          mret ip
      end
  end.

Fixpoint ialloc_loop (d type : Z) (inums : list Z) : K fs nat :=
  match inums with
  | [] => panic "ialloc: no inodes"
  | i :: inums' =>
      sb ← gets sb;
      x ← bread d (IBLOCK i sb);
      if s16 (half (dinode_off i) x) =? 0 then
        log_write (IBLOCK i sb) (splice (dinode_off i) (le_bytes 2 type ++ replicate 62 0) x) ;;
        iget d i
      else ialloc_loop d type inums'
  end.
Definition ialloc (d type : Z) : K fs nat :=
  sb ← gets sb;
  ialloc_loop d type (seqZ 1 (ninodes sb - 1)).

Definition idup (ip : nat) : K fs nat :=
  v ← get_inode ip;
  put_inode ip (set_ref (ref v + 1) v) ;;
  mret ip.

Definition ilock (ip : nat) : K fs unit :=
  v ← get_inode ip;
  if ref v <? 1 then panic "ilock"
  else if busy v then (fun _ => Spin)
  else
    put_inode ip (set_flags true (valid v) v) ;;
    if valid v then skip
    else
      sb ← gets sb;
      x ← bread (dev v) (IBLOCK (inum v) sb);
      let w := decode_dinode (dinode_off (inum v)) x (set_flags true true v) in
      put_inode ip w ;;
      if itype w =? 0 then panic "ilock: no type" else skip.

Definition iunlock (ip : nat) : K fs unit :=
  v ← get_inode ip;
  if negb (busy v) || (ref v <? 1) then panic "iunlock"
  else put_inode ip (set_flags false (valid v) v).

(** ** Contents *)

Definition bmap (ip : nat) (bn : Z) : K fs Z :=
  v ← get_inode ip;
  if bn <? NDIRECT then
    let a := addrs v !!! Z.to_nat bn in
    if negb (a =? 0) then mret a
    else
      a ← balloc (dev v);
      put_inode ip (set_addrs (<[Z.to_nat bn := a]> (addrs v)) v) ;;
      mret a
  else
    let bn := bn - NDIRECT in
    if bn <? NINDIRECT then
      let a := addrs v !!! Z.to_nat NDIRECT in
      ind ← (if negb (a =? 0) then mret a
             else a ← balloc (dev v);
                  put_inode ip (set_addrs (<[Z.to_nat NDIRECT := a]> (addrs v)) v) ;;
                  mret a);
      x ← bread (dev v) ind;
      let a := word (Z.to_nat (4 * bn)) x in
      if negb (a =? 0) then mret a
      else
        a ← balloc (dev v);
        log_write ind (put_word (Z.to_nat (4 * bn)) a x) ;;
        mret a
    else panic "bmap: out of range".

Definition itrunc (ip : nat) : K fs unit :=
  forM (seq 0 (Z.to_nat NDIRECT)) (fun i =>
    v ← get_inode ip;
    let a := addrs v !!! i in
    if a =? 0 then skip
    else bfree (dev v) a ;; put_inode ip (set_addrs (<[i := 0]> (addrs v)) v)) ;;
  v ← get_inode ip;
  let a := addrs v !!! Z.to_nat NDIRECT in
  (if a =? 0 then skip
   else
     x ← bread (dev v) a;
     forM (seq 0 (Z.to_nat NINDIRECT)) (fun j =>
       let e := word (4 * j) x in
       if e =? 0 then skip else bfree (dev v) e) ;;
     bfree (dev v) a ;;
     put_inode ip (set_addrs (<[Z.to_nat NDIRECT := 0]> (addrs v)) v)) ;;
  v ← get_inode ip;
  put_inode ip (set_size 0 v) ;;
  iupdate ip.

Definition iput (ip : nat) : K fs unit :=
  v ← get_inode ip;
  (if (ref v =? 1) && valid v && (nlink v =? 0) then
     if busy v then panic "iput busy"
     else
       put_inode ip (set_flags true (valid v) v) ;;
       itrunc ip ;;
       v ← get_inode ip;
       put_inode ip (set_type 0 v) ;;
       iupdate ip ;;
       v ← get_inode ip;
       put_inode ip (set_flags false false v)
   else skip) ;;
  v ← get_inode ip;
  put_inode ip (set_ref (ref v - 1) v).

Definition iunlockput (ip : nat) : K fs unit := iunlock ip ;; iput ip.

Record stat := Stat { st_dev : Z; st_ino : Z; st_type : Z; st_nlink : Z; st_size : Z }.
Definition stati (ip : nat) : K fs stat :=
  v ← get_inode ip;
  mret (Stat (dev v) (inum v) (itype v) (nlink v) (isize v)).

(** [off] and the number of bytes still to be moved determine a round. *)
Definition chunk (off n : Z) : Z := Z.min n (BSIZE - off mod BSIZE).

Fixpoint read_loop (fuel : nat) (ip : nat) (off n : Z) : K fs (list Z) :=
  if n <=? 0 then mret []
  else
    match fuel with
    | O => fault "out of fuel"
    | Datatypes.S fuel' =>
        v ← get_inode ip;
        b ← bmap ip (off / BSIZE);
        x ← bread (dev v) b;
        let m := chunk off n in
        l ← read_loop fuel' ip (off + m) (n - m);
        mret (window (Z.to_nat (off mod BSIZE)) (Z.to_nat m) x ++ l)
    end.

Fixpoint write_loop (fuel : nat) (ip : nat) (src : list Z) (off : Z) : K fs Z :=
  let n := Z.of_nat (length src) in
  if n <=? 0 then mret off
  else
    match fuel with
    | O => fault "out of fuel"
    | Datatypes.S fuel' =>
        v ← get_inode ip;
        b ← bmap ip (off / BSIZE);
        x ← bread (dev v) b;
        let m := chunk off n in
        log_write b (splice (Z.to_nat (off mod BSIZE)) (take (Z.to_nat m) src) x) ;;
        write_loop fuel' ip (drop (Z.to_nat m) src) (off + m)
    end.

Section devices.
(** [devsw]: what the driver with a major number does. *)
Context (devread : Z -> option (nat -> Z -> K fs (option (list Z)))).
Context (devwrite : Z -> option (nat -> list Z -> K fs (option Z))).

(** [None] is the result -1. *)
Definition readi (ip : nat) (off n : Z) : K fs (option (list Z)) :=
  v ← get_inode ip;
  if itype v =? T_DEV then
    if (major v <? 0) || (NDEV <=? major v) then mret None
    else match devread (major v) with None => mret None | Some f => f ip n end
  else if (isize v <? off) || (u32 (off + n) <? off) then mret None
  else
    let n := if isize v <? u32 (off + n) then isize v - off else n in
    l ← read_loop (Z.to_nat n) ip off n;
    mret (Some l).

Definition writei (ip : nat) (src : list Z) (off : Z) : K fs (option Z) :=
  let n := Z.of_nat (length src) in
  v ← get_inode ip;
  if itype v =? T_DEV then
    if (major v <? 0) || (NDEV <=? major v) then mret None
    else match devwrite (major v) with None => mret None | Some f => f ip src end
  else if (isize v <? off) || (u32 (off + n) <? off) then mret None
  else if MAXFILE * BSIZE <? u32 (off + n) then mret None
  else
    off ← write_loop (length src) ip src off;
    v ← get_inode ip;
    (if (0 <? n) && (isize v <? off) then put_inode ip (set_size off v) ;; iupdate ip else skip) ;;
    mret (Some n).

(** ** Directories *)

(** Whether [strncmp(s, t, n)] is zero. *)
Fixpoint same_name (n : nat) (s t : list Z) : bool :=
  match n with
  | O => true
  | Datatypes.S n' =>
      let a := match s with [] => 0 | a :: _ => a end in
      let b := match t with [] => 0 | b :: _ => b end in
      if (a =? 0) || negb (a =? b) then a =? b else same_name n' (tail s) (tail t)
  end.
Definition namecmp (s t : list Z) : bool := same_name (Z.to_nat DIRSIZ) s t.

Fixpoint strncpy (n : nat) (t : list Z) : list Z :=
  match n with
  | O => []
  | Datatypes.S n' =>
      match t with
      | [] => replicate n 0
      | c :: t' => if c =? 0 then replicate n 0 else c :: strncpy n' t'
      end
  end.

Definition de_inum (de : list Z) : Z := half 0 de.
Definition de_name (de : list Z) : list Z := drop 2 de.
Definition dirent (i : Z) (name : list Z) : list Z := le_bytes 2 i ++ strncpy (Z.to_nat DIRSIZ) name.

Fixpoint dirlookup_loop (dp : nat) (name : list Z) (offs : list Z) : K fs (option (nat * Z)) :=
  match offs with
  | [] => mret None
  | off :: offs' =>
      r ← readi dp off DIRENT;
      match r with
      | Some de =>
          if negb (Z.of_nat (length de) =? DIRENT) then panic "dirlink read"
          else if de_inum de =? 0 then dirlookup_loop dp name offs'
          else if namecmp name (de_name de) then
            v ← get_inode dp;
            ip ← iget (dev v) (de_inum de);
            mret (Some (ip, off))
          else dirlookup_loop dp name offs'
      | None => panic "dirlink read"
      end
  end.
Definition dirlookup (dp : nat) (name : list Z) : K fs (option (nat * Z)) :=
  v ← get_inode dp;
  if negb (itype v =? T_DIR) then panic "dirlookup not DIR"
  else dirlookup_loop dp name (steps (isize v) DIRENT).

(** The offset of the first free entry, or the size. *)
Fixpoint find_free (dp : nat) (offs : list Z) (off : Z) : K fs Z :=
  match offs with
  | [] => mret off
  | o :: offs' =>
      r ← readi dp o DIRENT;
      match r with
      | Some de =>
          if negb (Z.of_nat (length de) =? DIRENT) then panic "dirlink read"
          else if de_inum de =? 0 then mret o
          else find_free dp offs' (o + DIRENT)
      | None => panic "dirlink read"
      end
  end.

(** Whether the entry has been written. *)
Definition dirlink (dp : nat) (name : list Z) (i : Z) : K fs bool :=
  r ← dirlookup dp name;
  match r with
  | Some (ip, _) => iput ip ;; mret false
  | None =>
      v ← get_inode dp;
      off ← find_free dp (steps (isize v) DIRENT) 0;
      r ← writei dp (dirent i name) off;
      if bool_decide (r = Some DIRENT) then mret true else panic "dirlink"
  end.

(** ** Paths *)

Definition SLASH : Z := 47.
Definition deref (s : list Z) : Z := match s with [] => 0 | c :: _ => c end.
Fixpoint skip_slashes (path : list Z) : list Z :=
  match path with
  | c :: path' => if c =? SLASH then skip_slashes path' else path
  | [] => []
  end.
(** The characters of the next element and what follows them. *)
Fixpoint element (path : list Z) : list Z * list Z :=
  match path with
  | c :: path' =>
      if (c =? SLASH) || (c =? 0) then ([], path) else let '(e, r) := element path' in (c :: e, r)
  | [] => ([], [])
  end.

(** The rest of the path and [name]; [None] is the null pointer. *)
Definition skipelem (path name : list Z) : option (list Z * list Z) :=
  let path := skip_slashes path in
  if deref path =? 0 then None
  else
    let '(e, path) := element path in
    let name := if DIRSIZ <=? Z.of_nat (length e) then splice 0 (take (Z.to_nat DIRSIZ) e) name
                else splice 0 (e ++ [0]) name in
    Some (skip_slashes path, name).

Fixpoint namex_loop (fuel : nat) (nameiparent : bool) (ip : nat) (path name : list Z) : K fs (option (nat * list Z)) :=
  match fuel with
  | O => fault "out of fuel"
  | Datatypes.S fuel' =>
      match skipelem path name with
      | None => if nameiparent then iput ip ;; mret None else mret (Some (ip, name))
      | Some (path, name) =>
          ilock ip ;;
          v ← get_inode ip;
          if negb (itype v =? T_DIR) then iunlockput ip ;; mret None
          else if nameiparent && (deref path =? 0) then iunlock ip ;; mret (Some (ip, name))
          else
            r ← dirlookup ip name;
            match r with
            | None => iunlockput ip ;; mret None
            | Some (next, _) => iunlockput ip ;; namex_loop fuel' nameiparent next path name
            end
      end
  end.
Definition namex (cwd : nat) (path : list Z) (nameiparent : bool) (name : list Z) : K fs (option (nat * list Z)) :=
  ip ← (if deref path =? SLASH then iget ROOTDEV ROOTINO else idup cwd);
  namex_loop (Datatypes.S (length path)) nameiparent ip path name.

Definition namei (cwd : nat) (path : list Z) : K fs (option nat) :=
  r ← namex cwd path false (replicate (Z.to_nat DIRSIZ) 0);
  mret (fst <$> r).
Definition nameiparent (cwd : nat) (path name : list Z) : K fs (option (nat * list Z)) :=
  namex cwd path true name.
End devices.

(** ** Select *)

(** A null entry of [devsw] is [None]. *)
Definition devcall (table : Z -> option (nat -> K fs Z)) (ip : nat) : K fs Z :=
  v ← get_inode ip;
  if itype v =? T_DEV then
    if (major v <? 0) || (NDEV <=? major v) then mret (-1)
    else match table (major v) with None => mret (-1) | Some f => f ip end
  else mret (-1).

Section select.
Context (devreadable devwriteable devselect devclrsel : Z -> option (nat -> K fs Z)).
Definition readablei (ip : nat) : K fs Z := devcall devreadable ip.
Definition writeablei (ip : nat) : K fs Z := devcall devwriteable ip.
Definition selecti (ip : nat) : K fs Z := devcall devselect ip.
(** The test is of the [select] entry. *)
Definition clrseli (ip : nat) : K fs Z :=
  devcall (fun m =>
    match devselect m with
    | None => None
    | Some _ => match devclrsel m with Some f => Some f | None => Some (fun _ => fault "null function") end
    end) ip.
End select.
End Fs.

Module FsFacts.
Import Fs.

(** ** Bits *)

Lemma bit_testbit bi d : 0 <= bi -> bit bi d = Z.testbit (d !!! Z.to_nat (bi / 8)) (bi mod 8).
Proof.
  intros Hbi. unfold bit. set (x := d !!! _). pose proof (Z.mod_pos_bound bi 8 ltac:(lia)) as Hk.
  set (k := bi mod 8) in *.
  assert (E : Z.land x (Z.shiftl 1 k) = if Z.testbit x k then 2 ^ k else 0).
  { rewrite Z.shiftl_1_l. apply Z.bits_inj'. intros i Hi. rewrite Z.land_spec.
    destruct (decide (i = k)) as [->|Hne].
    - rewrite Z.pow2_bits_true, andb_true_r by lia. destruct (Z.testbit x k) eqn:Ex; [|apply eq_sym, Z.bits_0].
      symmetry. apply Z.pow2_bits_true. lia.
    - rewrite Z.pow2_bits_false, andb_false_r by congruence.
      destruct (Z.testbit x k); [rewrite Z.pow2_bits_false by congruence; reflexivity|symmetry; apply Z.bits_0]. }
  rewrite E. destruct (Z.testbit x k); [|reflexivity].
  apply negb_true_iff, Z.eqb_neq. pose proof (Z.pow_pos_nonneg 2 k). lia.
Qed.

(** A block: 512 bytes. *)
Definition is_block (d : list Z) : Prop := length d = 512%nat /\ Forall is_byte d.

Lemma block_byte d i : is_block d -> (i < 512)%nat -> is_byte (d !!! i).
Proof. intros [Hl Hd] Hi. apply Forall_lookup_total; [exact Hd|lia]. Qed.

Lemma bit_index bi : 0 <= bi < BPB -> (Z.to_nat (bi / 8) < 512)%nat /\ 0 <= bi mod 8 < 8 /\ bi = 8 * (bi / 8) + bi mod 8.
Proof.
  unfold BPB, BSIZE. intros H. pose proof (Z.mod_pos_bound bi 8 ltac:(lia)).
  pose proof (Z.div_mod bi 8 ltac:(lia)). lia.
Qed.

Lemma shift_byte k : 0 <= k < 8 -> is_byte (Z.shiftl 1 k).
Proof.
  intros Hk. rewrite Z.shiftl_1_l. unfold is_byte. split; [apply Z.pow_nonneg; lia|].
  change 256 with (2 ^ 8). apply Z.pow_lt_mono_r; lia.
Qed.

Lemma set_bit_block bi d : is_block d -> 0 <= bi < BPB -> is_block (set_bit bi d).
Proof.
  intros [Hl Hd] Hb. split; [unfold set_bit; rewrite length_insert; exact Hl|].
  apply Forall_insert; [exact Hd|apply u8_byte].
Qed.

Lemma clear_bit_block bi d : is_block d -> 0 <= bi < BPB -> is_block (clear_bit bi d).
Proof.
  intros [Hl Hd] Hb. split; [unfold clear_bit; rewrite length_insert; exact Hl|].
  apply Forall_insert; [exact Hd|apply u8_byte].
Qed.

Lemma bit_update (f : Z -> Z) bi bj d : is_block d -> 0 <= bi < BPB -> 0 <= bj < BPB -> is_byte (f (d !!! Z.to_nat (bi / 8))) ->
  bit bj (<[Z.to_nat (bi / 8) := u8 (f (d !!! Z.to_nat (bi / 8)))]> d) =
  if decide (bj / 8 = bi / 8) then Z.testbit (f (d !!! Z.to_nat (bi / 8))) (bj mod 8) else bit bj d.
Proof.
  intros Hd Hi Hj Hf. destruct (bit_index bi Hi) as (Hi1 & Hi2 & Hi3). destruct (bit_index bj Hj) as (Hj1 & Hj2 & Hj3).
  rewrite !bit_testbit by lia. destruct (decide (bj / 8 = bi / 8)) as [E|E].
  - rewrite E, list_lookup_total_insert_eq, u8_id; [reflexivity|exact Hf|rewrite (proj1 Hd); exact Hi1].
  - rewrite list_lookup_total_insert_ne; [reflexivity|]. intros E'. apply E.
    apply Z2Nat.inj in E'; [lia| |]; apply Z.div_pos; lia.
Qed.

Lemma bit_set bi bj d : is_block d -> 0 <= bi < BPB -> 0 <= bj < BPB ->
  bit bj (set_bit bi d) = (bj =? bi) || bit bj d.
Proof.
  intros Hd Hi Hj. destruct (bit_index bi Hi) as (Hi1 & Hi2 & Hi3). destruct (bit_index bj Hj) as (Hj1 & Hj2 & Hj3).
  unfold set_bit. rewrite (bit_update (fun x => Z.lor x (Z.shiftl 1 (bi mod 8)))) by
    first [assumption|apply (lor_bounded 8); [lia|apply block_byte; assumption|apply shift_byte; exact Hi2]].
  destruct (decide _) as [E|E].
  - rewrite Z.lor_spec, Z.shiftl_1_l, (bit_testbit bj) by lia. rewrite <- E, orb_comm. f_equal.
    destruct (bj =? bi) eqn:Eb.
    + apply Z.eqb_eq in Eb. subst. apply Z.pow2_bits_true. lia.
    + apply Z.eqb_neq in Eb. apply Z.pow2_bits_false. lia.
  - rewrite (proj2 (Z.eqb_neq _ _)) by congruence. reflexivity.
Qed.

Lemma bit_clear bi bj d : is_block d -> 0 <= bi < BPB -> 0 <= bj < BPB ->
  bit bj (clear_bit bi d) = negb (bj =? bi) && bit bj d.
Proof.
  intros Hd Hi Hj. destruct (bit_index bi Hi) as (Hi1 & Hi2 & Hi3). destruct (bit_index bj Hj) as (Hj1 & Hj2 & Hj3).
  unfold clear_bit. rewrite (bit_update (fun x => Z.land x (Z.lnot (Z.shiftl 1 (bi mod 8))))) by
    first [assumption|rewrite Z.land_comm; apply (land_bounded 8); [lia|apply block_byte; assumption]].
  destruct (decide _) as [E|E].
  - rewrite Z.land_spec, Z.lnot_spec, Z.shiftl_1_l, (bit_testbit bj) by lia. rewrite <- E, andb_comm. f_equal. f_equal.
    destruct (bj =? bi) eqn:Eb.
    + apply Z.eqb_eq in Eb. subst. apply Z.pow2_bits_true. lia.
    + apply Z.eqb_neq in Eb. apply Z.pow2_bits_false. lia.
  - rewrite (proj2 (Z.eqb_neq _ _)) by congruence. reflexivity.
Qed.

(** ** A formatted disk *)

Definition blk (s : fs) (b : Z) : list Z := blocks s !!! Z.to_nat b.
Definition used (s : fs) (b : Z) : bool := bit (b mod BPB) (blk s (BBLOCK b (sb s))).
Definition wr (b : Z) (x : list Z) (s : fs) : fs := MkFs (<[Z.to_nat b := x]> (blocks s)) (sb s) (icache s).

(** Superblock, inodes, free map, and from [ds] on the data. *)
Record geometry (g : superblock) (ds : Z) : Prop := {
  g_data : ds <= size g;
  g_size : size g <= 2 ^ 31;
  g_start : 2 <= inodestart g;
  g_ninodes : 1 <= ninodes g;
  g_inodes : inodestart g + (ninodes g - 1) / IPB < bmapstart g;
  g_map : bmapstart g + (size g - 1) / BPB < ds;
  g_order : bmapstart g < ds;
}.

Record formatted (ds : Z) (s : fs) : Prop := {
  f_geometry : geometry (sb s) ds;
  f_length : Z.of_nat (length (blocks s)) = size (sb s);
  f_blocks : Forall is_block (blocks s);
  f_used : forall b, 0 <= b < ds -> used s b = true;
  f_sb : decode_sb (blk s 1) = sb s;
}.

Lemma blk_wr b x s c : 0 <= b < Z.of_nat (length (blocks s)) -> 0 <= c ->
  blk (wr b x s) c = if decide (c = b) then x else blk s c.
Proof.
  intros Hb Hc. unfold blk, wr. cbn [blocks]. destruct (decide (c = b)) as [->|Hne].
  - apply list_lookup_total_insert_eq. lia.
  - apply list_lookup_total_insert_ne. lia.
Qed.

Section formatted.
Context (ds : Z).

Lemma bblock_range s b : formatted ds s -> 0 <= b < size (sb s) ->
  bmapstart (sb s) <= BBLOCK b (sb s) < ds /\ 0 <= b mod BPB < BPB.
Proof.
  intros F Hb. destruct (f_geometry _ _ F). unfold BBLOCK.
  pose proof (Z.div_pos b BPB ltac:(lia) ltac:(reflexivity)).
  pose proof (Z.div_le_mono b (size (sb s) - 1) BPB ltac:(reflexivity) ltac:(lia)).
  pose proof (Z.mod_pos_bound b BPB ltac:(reflexivity)). lia.
Qed.

Lemma meta_bounds s : formatted ds s -> 2 <= inodestart (sb s) < bmapstart (sb s) /\ bmapstart (sb s) < ds <= size (sb s).
Proof.
  intros F. destruct (f_geometry _ _ F).
  pose proof (Z.div_pos (ninodes (sb s) - 1) IPB ltac:(lia) ltac:(reflexivity)). lia.
Qed.

Lemma blk_block s b : formatted ds s -> 0 <= b < size (sb s) -> is_block (blk s b).
Proof.
  intros F Hb. unfold blk. apply Forall_lookup_total; [apply F|]. pose proof (f_length _ _ F). lia.
Qed.

Lemma wp_fs_bread s b (Q : list Z -> fs -> Prop) : formatted ds s -> 0 <= b < size (sb s) -> Q (blk s b) s -> wp (bread 1 b) Q s.
Proof.
  intros F Hb HQ. pose proof (f_length _ _ F) as Hl. exists (blk s b), s. split; [|exact HQ].
  unfold bread. cbn [Z.eqb negb]. change (1 =? 1) with true. cbn [negb].
  rewrite (proj2 (Z.ltb_ge _ _)) by lia. unfold blk. rewrite list_lookup_lookup_total_lt by lia. reflexivity.
Qed.

Lemma wp_log_write s b x (Q : unit -> fs -> Prop) : Q tt (wr b x s) -> wp (log_write b x) Q s.
Proof. intros HQ. apply wp_modify, HQ. Qed.

(** Writing a block that is neither in the free map nor the superblock. *)
Lemma used_wr s b x c : formatted ds s -> 0 <= b < size (sb s) -> ~ (bmapstart (sb s) <= b < ds) -> 0 <= c < size (sb s) ->
  used (wr b x s) c = used s c.
Proof.
  intros F Hb Hm Hc. unfold used. cbn [wr sb]. destruct (bblock_range s c F Hc) as [Hr _]. pose proof (meta_bounds s F).
  rewrite blk_wr by (rewrite ?(f_length _ _ F); lia). rewrite decide_False by lia. reflexivity.
Qed.

Lemma formatted_wr s b x : formatted ds s -> 2 <= b < size (sb s) -> ~ (bmapstart (sb s) <= b < ds) -> is_block x ->
  formatted ds (wr b x s).
Proof.
  intros F Hb Hm Hx. pose proof (meta_bounds s F). pose proof (f_length _ _ F) as Hl. constructor; cbn [wr sb blocks].
  - apply F.
  - rewrite length_insert. apply F.
  - apply Forall_insert; [apply F|exact Hx].
  - intros c Hc. rewrite used_wr by (try exact F; lia). apply F, Hc.
  - fold (wr b x s). rewrite blk_wr by lia. rewrite decide_False by lia. apply F.
Qed.

(** Marking block [f] in the free map. *)
Definition mark (f : Z) (s : fs) : fs := wr (BBLOCK f (sb s)) (set_bit (f mod BPB) (blk s (BBLOCK f (sb s)))) s.
Definition unmark (f : Z) (s : fs) : fs := wr (BBLOCK f (sb s)) (clear_bit (f mod BPB) (blk s (BBLOCK f (sb s)))) s.

Lemma same_bit b f : b / BPB = f / BPB -> (b mod BPB =? f mod BPB) = (b =? f).
Proof.
  intros E. pose proof (Z.div_mod b BPB ltac:(discriminate)). pose proof (Z.div_mod f BPB ltac:(discriminate)).
  destruct (b =? f) eqn:Eb; [apply Z.eqb_eq in Eb; subst; apply Z.eqb_refl|].
  apply Z.eqb_neq in Eb. apply Z.eqb_neq. nia.
Qed.

Lemma used_mark s f c : formatted ds s -> 0 <= f < size (sb s) -> 0 <= c < size (sb s) ->
  used (mark f s) c = (c =? f) || used s c.
Proof.
  intros F Hf Hc. destruct (bblock_range s f F Hf) as [Hr Hm]. destruct (bblock_range s c F Hc) as [Hr' Hm'].
  pose proof (meta_bounds s F). unfold used, mark. cbn [wr sb]. fold (wr (BBLOCK f (sb s)) (set_bit (f mod BPB) (blk s (BBLOCK f (sb s)))) s).
  rewrite blk_wr by (rewrite ?(f_length _ _ F); lia). destruct (decide _) as [E|E].
  - assert (E' : c / BPB = f / BPB) by (unfold BBLOCK in E; lia).
    rewrite bit_set, same_bit, E; [reflexivity|exact E'|apply blk_block; [exact F|lia]|exact Hm|exact Hm'].
  - rewrite (proj2 (Z.eqb_neq _ _)); [reflexivity|]. intros ->. contradiction.
Qed.

Lemma used_unmark s f c : formatted ds s -> 0 <= f < size (sb s) -> 0 <= c < size (sb s) ->
  used (unmark f s) c = negb (c =? f) && used s c.
Proof.
  intros F Hf Hc. destruct (bblock_range s f F Hf) as [Hr Hm]. destruct (bblock_range s c F Hc) as [Hr' Hm'].
  pose proof (meta_bounds s F). unfold used, unmark. cbn [wr sb]. fold (wr (BBLOCK f (sb s)) (clear_bit (f mod BPB) (blk s (BBLOCK f (sb s)))) s).
  rewrite blk_wr by (rewrite ?(f_length _ _ F); lia). destruct (decide _) as [E|E].
  - assert (E' : c / BPB = f / BPB) by (unfold BBLOCK in E; lia).
    rewrite bit_clear, same_bit, E; [reflexivity|exact E'|apply blk_block; [exact F|lia]|exact Hm|exact Hm'].
  - rewrite (proj2 (Z.eqb_neq _ _)); [reflexivity|]. intros ->. contradiction.
Qed.

Lemma formatted_map s f x : formatted ds s -> 0 <= f < size (sb s) -> is_block x ->
  (forall b, 0 <= b < ds -> used (wr (BBLOCK f (sb s)) x s) b = true) -> formatted ds (wr (BBLOCK f (sb s)) x s).
Proof.
  intros F Hf Hx Hu. pose proof (meta_bounds s F). pose proof (f_length _ _ F) as Hl.
  destruct (bblock_range s f F Hf) as [Hr _]. constructor; [|cbn [wr blocks sb]..|].
  - apply F.
  - rewrite length_insert. apply F.
  - apply Forall_insert; [apply F|exact Hx].
  - exact Hu.
  - rewrite blk_wr by lia. rewrite decide_False by lia. apply F.
Qed.

Lemma formatted_mark s f : formatted ds s -> 0 <= f < size (sb s) -> formatted ds (mark f s).
Proof.
  intros F Hf. destruct (bblock_range s f F Hf) as [Hr Hm]. pose proof (meta_bounds s F).
  apply formatted_map; [exact F|exact Hf|apply set_bit_block; [apply blk_block; [exact F|lia]|exact Hm]|].
  intros b Hb. fold (mark f s). rewrite used_mark by (try exact F; lia). rewrite (f_used _ _ F b Hb). apply orb_true_r.
Qed.

Lemma formatted_unmark s f : formatted ds s -> ds <= f < size (sb s) -> formatted ds (unmark f s).
Proof.
  intros F Hf. pose proof (meta_bounds s F). destruct (bblock_range s f F ltac:(lia)) as [Hr Hm].
  apply formatted_map; [exact F|lia|apply clear_bit_block; [apply blk_block; [exact F|lia]|exact Hm]|].
  intros b Hb. fold (unmark f s). rewrite used_unmark by (try exact F; lia).
  rewrite (f_used _ _ F b Hb), (proj2 (Z.eqb_neq _ _)) by lia. reflexivity.
Qed.

(** ** Allocation *)

Definition nfree (s : fs) : nat := length (filter (fun b => used s b = false) (seqZ 0 (size (sb s)))).
Definition zeros : list Z := replicate (Z.to_nat BSIZE) 0.

Record allocated (s : fs) (b : Z) (s' : fs) : Prop := {
  al_range : ds <= b < size (sb s);
  al_free : used s b = false;
  al_formatted : formatted ds s';
  al_sb : sb s' = sb s;
  al_icache : icache s' = icache s;
  al_zero : blk s' b = zeros;
  al_same : forall c, 0 <= c < size (sb s) -> c <> b -> ~ (bmapstart (sb s) <= c < ds) -> blk s' c = blk s c;
  al_used : forall c, 0 <= c < size (sb s) -> used s' c = (c =? b) || used s c;
}.

Lemma zeros_block : is_block zeros.
Proof. split; [reflexivity|]. apply Forall_replicate. unfold is_byte. lia. Qed.

Lemma allocated_mark s b : formatted ds s -> 0 <= b < size (sb s) -> used s b = false ->
  allocated s b (wr b zeros (mark b s)).
Proof.
  intros F Hb Hu. pose proof (meta_bounds s F). pose proof (f_length _ _ F) as Hl.
  assert (Hd : ds <= b). { destruct (decide (ds <= b)); [assumption|]. rewrite (f_used _ _ F) in Hu by lia. discriminate. }
  pose proof (formatted_mark s b F Hb) as F1. destruct (bblock_range s b F Hb) as [Hr _].
  assert (Hl1 : Z.of_nat (length (blocks (mark b s))) = size (sb s)) by apply F1.
  constructor; try reflexivity.
  - lia.
  - exact Hu.
  - apply formatted_wr; [exact F1|cbn; lia|cbn; lia|apply zeros_block].
  - rewrite blk_wr by lia. apply decide_True. reflexivity.
  - intros c Hc Hne Hm. rewrite blk_wr by lia. rewrite decide_False by exact Hne.
    unfold mark. rewrite blk_wr by lia. rewrite decide_False by lia. reflexivity.
  - intros c Hc. rewrite used_wr by (try exact F1; cbn; lia). apply used_mark; assumption.
Qed.

Lemma filter_same {A} (p q : A -> Prop) `{forall x, Decision (p x)} `{forall x, Decision (q x)} l :
  (forall x, x ∈ l -> p x <-> q x) -> length (filter p l) = length (filter q l).
Proof.
  induction l as [|x l IH]; intros Hq; [reflexivity|].
  assert (Hx : p x <-> q x) by (apply Hq; left). assert (IH' : length (filter p l) = length (filter q l)) by (apply IH; intros y Hy; apply Hq; right; exact Hy).
  destruct (decide (p x)) as [Hp|Hp].
  - rewrite (filter_cons_True p), (filter_cons_True q) by tauto. cbn [length]. rewrite IH'. reflexivity.
  - rewrite (filter_cons_False p), (filter_cons_False q) by tauto. exact IH'.
Qed.

Lemma count_flip (p q : Z -> Prop) `{forall x, Decision (p x)} `{forall x, Decision (q x)} l b :
  NoDup l -> b ∈ l -> p b -> (forall x, x ∈ l -> q x <-> p x /\ x <> b) ->
  length (filter p l) = Datatypes.S (length (filter q l)).
Proof.
  intros Hn Hb Hp Hq. induction l as [|x l IH]; [inversion Hb|]. apply NoDup_cons in Hn as [Hx Hn].
  assert (Hq' : forall y, y ∈ l -> q y <-> p y /\ y <> b) by (intros y Hy; apply Hq; right; exact Hy).
  destruct (decide (x = b)) as [->|Hne].
  - rewrite (filter_cons_True p) by exact Hp. rewrite (filter_cons_False q) by (intros Hqb; apply (Hq b) in Hqb; [tauto|left]).
    cbn [length]. f_equal. apply filter_same. intros y Hy. rewrite (Hq' y Hy). split; [|tauto].
    intros Hpy. split; [exact Hpy|]. intros ->. contradiction.
  - apply elem_of_cons in Hb as [Hb|Hb]; [congruence|]. specialize (IH Hn Hb Hq').
    assert (q x <-> p x) as Hqx by (rewrite (Hq x) by left; tauto).
    destruct (decide (p x)) as [Hpx|Hpx].
    + rewrite (filter_cons_True p), (filter_cons_True q) by tauto. cbn [length]. rewrite IH. reflexivity.
    + rewrite (filter_cons_False p), (filter_cons_False q) by tauto. exact IH.
Qed.

Lemma allocated_nfree s b s' : allocated s b s' -> nfree s = Datatypes.S (nfree s').
Proof.
  intros A. unfold nfree. rewrite (al_sb _ _ _ A). pose proof (al_range _ _ _ A).
  apply (count_flip _ _ _ b); [apply NoDup_seqZ| |apply A|].
  - apply elem_of_seqZ. pose proof (meta_bounds s' (al_formatted _ _ _ A)) as Hm. lia.
  - intros c Hc. apply elem_of_seqZ in Hc. rewrite (al_used _ _ _ A) by lia.
    destruct (c =? b) eqn:E; [apply Z.eqb_eq in E|apply Z.eqb_neq in E]; cbn; intuition congruence.
Qed.

Lemma wp_bzero s b (Q : unit -> fs -> Prop) : formatted ds s -> 0 <= b < size (sb s) -> Q tt (wr b zeros s) -> wp (bzero 1 b) Q s.
Proof. intros F Hb HQ. unfold bzero. apply wp_bind, wp_fs_bread; [exact F|exact Hb|]. apply wp_log_write, HQ. Qed.

Lemma wp_balloc_loop bs : forall s, formatted ds s -> (forall b, b ∈ bs -> 0 <= b < size (sb s) /\ b mod BPB = 0) ->
  (exists c, used s c = false /\ BPB * (c / BPB) ∈ bs /\ 0 <= c < size (sb s)) ->
  wp (balloc_loop 1 bs) (fun b s' => allocated s b s') s.
Proof.
  induction bs as [|b bs IH]; intros s F Hbs (c & Hc & Hin & Hr); [inversion Hin|]. cbn [balloc_loop].
  destruct (Hbs b ltac:(left)) as [Hb Hb0]. destruct (bblock_range s b F Hb) as [Hbb _].
  pose proof (meta_bounds s F). apply wp_bind. wp_step. apply wp_bind, wp_fs_bread; [exact F|lia|].
  assert (Hpos : forall bi, 0 <= bi < Z.min BPB (size (sb s) - b) ->
    (b + bi) / BPB = b / BPB /\ (b + bi) mod BPB = bi /\ 0 <= b + bi < size (sb s)).
  { intros bi Hbi. pose proof (Z.div_mod b BPB ltac:(discriminate)) as E. rewrite Hb0 in E.
    split; [|split]; [|symmetry; apply (Z.mod_unique_pos _ _ (b / BPB)); lia|lia].
    symmetry. apply (Z.div_unique_pos _ _ _ bi); lia. }
  assert (Hbit : forall bi, 0 <= bi < Z.min BPB (size (sb s) - b) ->
    bit bi (blk s (BBLOCK b (sb s))) = used s (b + bi)).
  { intros bi Hbi. destruct (Hpos bi Hbi) as (E1 & E2 & _). unfold used, BBLOCK. rewrite E1, E2. reflexivity. }
  destruct (list_find _ _) as [[i bi]|] eqn:Ef.
  - apply list_find_Some in Ef as (Hi & Hf & _). apply lookup_seqZ in Hi as [-> Hi].
    set (bi := 0 + Z.of_nat i) in *. assert (Hbi : 0 <= bi < Z.min BPB (size (sb s) - b)) by lia.
    destruct (Hpos bi Hbi) as (E1 & E2 & Hr'). rewrite (Hbit bi Hbi) in Hf.
    assert (Em : wr (BBLOCK b (sb s)) (set_bit bi (blk s (BBLOCK b (sb s)))) s = mark (b + bi) s).
    { unfold mark, BBLOCK. rewrite E1, E2. reflexivity. }
    apply wp_bind, wp_log_write. rewrite Em. pose proof (formatted_mark s _ F Hr') as F1.
    apply wp_bind, wp_bzero; [exact F1|exact Hr'|]. wp_step. apply allocated_mark; assumption.
  - apply list_find_None in Ef. apply IH; [exact F|intros x Hx; apply Hbs; right; exact Hx|].
    exists c. split; [exact Hc|]. split; [|exact Hr].
    apply elem_of_cons in Hin as [Hin|Hin]; [|exact Hin]. exfalso.
    pose proof (Z.div_mod c BPB ltac:(discriminate)). pose proof (Z.mod_pos_bound c BPB ltac:(reflexivity)).
    rewrite Forall_forall in Ef. apply (Ef (c - b)).
    + apply elem_of_seqZ. lia.
    + rewrite Hbit by lia. rewrite <- Hc. f_equal. lia.
Qed.

Lemma wp_balloc s : formatted ds s -> (0 < nfree s)%nat -> wp (balloc 1) (fun b s' => allocated s b s') s.
Proof.
  intros F Hn. unfold balloc. apply wp_bind. wp_step. apply wp_balloc_loop; [exact F| |].
  - intros b Hb. apply list_elem_of_lookup in Hb as [k Hk]. apply lookup_steps in Hk as [-> Hk]; [|reflexivity].
    split; [unfold BPB, BSIZE in *; lia|]. rewrite Z.mul_comm. apply Z.mod_mul. discriminate.
  - unfold nfree in Hn. destruct (filter _ _) as [|c l] eqn:Ef; [cbn in Hn; lia|].
    assert (Hc : c ∈ filter (fun b => used s b = false) (seqZ 0 (size (sb s)))) by (rewrite Ef; left).
    apply list_elem_of_filter in Hc as [Hu Hc]. apply elem_of_seqZ in Hc.
    exists c. split; [exact Hu|]. split; [|lia]. unfold steps. apply list_elem_of_fmap. exists (c / BPB).
    split; [reflexivity|]. apply elem_of_seqZ. split; [apply Z.div_pos; [lia|reflexivity]|].
    apply Z.div_lt_upper_bound; [reflexivity|].
    pose proof (Z.mul_succ_div_gt (size (sb s) + BPB - 1) BPB ltac:(reflexivity)). unfold BPB, BSIZE in *. lia.
Qed.

(** ** Block pointers *)

Lemma word_same off w d : (off + 4 <= length d)%nat -> is_u32 w -> word off (put_word off w d) = w.
Proof.
  intros Hd Hw. unfold word, put_word. rewrite window_same by (try exact Hd; apply length_le_bytes). apply le_word_u32, Hw.
Qed.

Lemma word_other off off' w d : (off + 4 <= length d)%nat -> (off' + 4 <= off \/ off + 4 <= off')%nat ->
  word off' (put_word off w d) = word off' d.
Proof. intros Hd Ho. unfold word, put_word. rewrite (window_other off off' 4 (le_bytes 4 w)) by assumption. reflexivity. Qed.

Definition words (d : list Z) : list Z := (fun k => word (4 * k) d) <$> seq 0 (Z.to_nat NINDIRECT).

Lemma lookup_words d k : (k < 128)%nat -> words d !! k = Some (word (4 * k) d).
Proof. intros Hk. unfold words. rewrite list_lookup_fmap, lookup_seq_lt by exact Hk. reflexivity. Qed.

Lemma length_words d : length (words d) = 128%nat.
Proof. unfold words. rewrite length_fmap, length_seq. reflexivity. Qed.

Lemma words_put k w d : (k < 128)%nat -> length d = 512%nat -> is_u32 w ->
  words (put_word (4 * k) w d) = <[k := w]> (words d).
Proof.
  intros Hk Hd Hw. apply list_eq. intros i. destruct (decide (i < 128)%nat) as [Hi|Hi].
  - rewrite lookup_words by exact Hi. destruct (decide (i = k)) as [->|Hne].
    + rewrite list_lookup_insert_eq by (rewrite length_words; exact Hi). f_equal. apply word_same; [lia|exact Hw].
    + rewrite list_lookup_insert_ne by congruence. rewrite lookup_words by exact Hi. f_equal.
      apply word_other; lia.
  - rewrite !lookup_ge_None_2; [reflexivity| |]; rewrite ?length_insert, length_words; lia.
Qed.

Lemma words_zeros : words zeros = replicate (Z.to_nat NINDIRECT) 0.
Proof. reflexivity. Qed.

Definition ind (v : inode) : Z := addrs v !!! Z.to_nat NDIRECT.
(** The 140 blocks of a file. *)
Definition slots (s : fs) (v : inode) : list Z :=
  take (Z.to_nat NDIRECT) (addrs v) ++
  (if ind v =? 0 then replicate (Z.to_nat NINDIRECT) 0 else words (blk s (ind v))).
Definition pointers (s : fs) (v : inode) : list Z := ind v :: slots s v.

Definition distinct (l : list Z) : Prop := forall i j x, l !! i = Some x -> l !! j = Some x -> x <> 0 -> i = j.

Record owns (s : fs) (v : inode) : Prop := {
  ow_dev : dev v = 1;
  ow_length : length (addrs v) = 13%nat;
  ow_distinct : distinct (pointers s v);
  ow_used : forall b, b ∈ pointers s v -> b <> 0 -> ds <= b < size (sb s) /\ used s b = true;
}.

Lemma length_slots s v : owns s v -> length (slots s v) = 140%nat.
Proof.
  intros O. unfold slots. rewrite length_app, length_take, (ow_length _ _ O).
  destruct (ind v =? 0); [rewrite length_replicate|rewrite length_words]; reflexivity.
Qed.

Lemma distinct_insert l i b : distinct l -> (b ∉ l) -> distinct (<[i := b]> l).
Proof.
  intros Hd Hb j k x Hj Hk Hx.
  apply list_lookup_insert_Some in Hj as [(-> & -> & Hj)|[Hj1 Hj2]];
    apply list_lookup_insert_Some in Hk as [(Hk1 & Hk2 & Hk3)|[Hk1 Hk2]]; try congruence.
  - exfalso. apply Hb. eapply list_elem_of_lookup_2, Hk2.
  - exfalso. subst. apply Hb. eapply list_elem_of_lookup_2, Hj2.
  - exact (Hd _ _ _ Hj2 Hk2 Hx).
Qed.

Lemma elem_insert (l : list Z) i b x : x ∈ <[i := b]> l -> x = b \/ x ∈ l.
Proof.
  intros Hx. apply list_elem_of_lookup in Hx as [j Hj].
  apply list_lookup_insert_Some in Hj as [(_ & -> & _)|[_ Hj]]; [left; reflexivity|right].
  eapply list_elem_of_lookup_2, Hj.
Qed.

(** Ownership depends on the pointers only. *)
Lemma owns_update s s' v v' i b : owns s v -> dev v' = dev v -> length (addrs v') = 13%nat ->
  pointers s' v' = <[i := b]> (pointers s v) -> (b ∉ pointers s v) -> ds <= b < size (sb s') -> used s' b = true ->
  sb s' = sb s -> (forall c, 0 <= c < size (sb s) -> used s c = true -> used s' c = true) -> 0 <= ds -> owns s' v'.
Proof.
  intros O Hdev Hlen Hp Hb Hr Hu Hsb Hus Hds. constructor.
  - rewrite Hdev. apply O.
  - exact Hlen.
  - rewrite Hp. apply distinct_insert; [apply O|exact Hb].
  - rewrite Hp. intros c Hc Hc0. apply elem_insert in Hc as [->|Hc]; [auto|].
    destruct (ow_used _ _ O c Hc Hc0) as [Hrc Huc]. rewrite Hsb. split; [exact Hrc|]. apply Hus; [lia|exact Huc].
Qed.

(** A block taken by [balloc] is none of the file's. *)
Lemma fresh_pointer s v b s' : owns s v -> allocated s b s' -> b ∉ pointers s v.
Proof.
  intros O A Hb. assert (b <> 0) as Hb0.
  { pose proof (meta_bounds s' (al_formatted _ _ _ A)). pose proof (al_range _ _ _ A). lia. }
  destruct (ow_used _ _ O b Hb Hb0) as [_ Hu]. rewrite (al_free _ _ _ A) in Hu. discriminate.
Qed.

Lemma slots_ext s s' v : (ind v <> 0 -> blk s' (ind v) = blk s (ind v)) -> slots s' v = slots s v.
Proof.
  intros Hb. unfold slots. destruct (ind v =? 0) eqn:E; [reflexivity|]. apply Z.eqb_neq in E. rewrite Hb by exact E. reflexivity.
Qed.

Lemma slots_alloc s v b s' : formatted ds s -> owns s v -> allocated s b s' -> slots s' v = slots s v.
Proof.
  intros F O A. apply slots_ext. intros Hi. destruct (ow_used _ _ O (ind v) ltac:(left) Hi) as [Hr Hu].
  pose proof (meta_bounds s F). apply (al_same _ _ _ A); [lia| |lia]. intros E. rewrite E, (al_free _ _ _ A) in Hu. discriminate.
Qed.

(** ** Growing a file *)

(** From [s] with inode [v] to [s'] with [v'] at most [k] blocks have been added to the file;
    no other block in use has changed, apart from the indirect block. *)
Record grown (k : nat) (s : fs) (v : inode) (s' : fs) (v' : inode) : Prop := {
  gr_formatted : formatted ds s';
  gr_sb : sb s' = sb s;
  gr_inode : v' = set_addrs (addrs v') v;
  gr_owns : owns s' v';
  gr_same : forall c, 0 < c < size (sb s) -> used s c = true -> c <> ind v -> ~ (bmapstart (sb s) <= c < ds) ->
    blk s' c = blk s c;
  gr_used : forall c, 0 <= c < size (sb s) -> used s c = true -> used s' c = true;
  gr_new : forall c, c ∈ pointers s' v' -> c <> 0 -> c ∈ pointers s v \/ used s c = false;
  gr_ind : ind v' = ind v \/ used s (ind v') = false;
  gr_nfree : (nfree s <= k + nfree s')%nat;
}.

Lemma grown_refl s v : formatted ds s -> owns s v -> grown 0 s v s v.
Proof. intros F O. constructor; auto. destruct v. reflexivity. Qed.

Lemma grown_trans k1 k2 s v s1 v1 s2 v2 : grown k1 s v s1 v1 -> grown k2 s1 v1 s2 v2 -> grown (k1 + k2) s v s2 v2.
Proof.
  intros G1 G2. pose proof (gr_sb _ _ _ _ _ G1) as E1. pose proof (meta_bounds s1 (gr_formatted _ _ _ _ _ G1)) as Hm.
  constructor; try apply G2.
  - rewrite (gr_sb _ _ _ _ _ G2). exact E1.
  - rewrite (gr_inode _ _ _ _ _ G2), (gr_inode _ _ _ _ _ G1). reflexivity.
  - intros c Hc Hu Hi Hb. rewrite (gr_same _ _ _ _ _ G2).
    + apply (gr_same _ _ _ _ _ G1); assumption.
    + rewrite E1. exact Hc.
    + apply (gr_used _ _ _ _ _ G1); [lia|assumption].
    + destruct (gr_ind _ _ _ _ _ G1) as [->|Hf]; congruence.
    + rewrite E1. exact Hb.
  - intros c Hc Hu. apply (gr_used _ _ _ _ _ G2); [rewrite E1; exact Hc|]. apply (gr_used _ _ _ _ _ G1); assumption.
  - intros c Hc Hc0. destruct (gr_new _ _ _ _ _ G2 c Hc Hc0) as [Hin|Hf]; [apply (gr_new _ _ _ _ _ G1); assumption|].
    right. apply not_true_iff_false. intros Hu.
    destruct (ow_used _ _ (gr_owns _ _ _ _ _ G2) c Hc Hc0) as [Hr _]. rewrite (gr_sb _ _ _ _ _ G2), E1 in Hr.
    rewrite (gr_used _ _ _ _ _ G1) in Hf by (try exact Hu; lia). discriminate.
  - destruct (gr_ind _ _ _ _ _ G2) as [->|Hf]; [apply G1|].
    destruct (decide (ind v2 = 0)) as [E0|E0].
    + rewrite E0 in Hf. rewrite (f_used _ _ (gr_formatted _ _ _ _ _ G1)) in Hf by lia. discriminate.
    + right. apply not_true_iff_false. intros Hu.
      destruct (ow_used _ _ (gr_owns _ _ _ _ _ G2) (ind v2) ltac:(left) E0) as [Hr _]. rewrite (gr_sb _ _ _ _ _ G2), E1 in Hr.
      rewrite (gr_used _ _ _ _ _ G1) in Hf by (try exact Hu; lia). discriminate.
  - pose proof (gr_nfree _ _ _ _ _ G1). pose proof (gr_nfree _ _ _ _ _ G2). lia.
Qed.

(** An inode changes in the cache only. *)
Definition with_inode (ip : nat) (v : inode) (s : fs) : fs := MkFs (blocks s) (sb s) (<[ip := v]> (icache s)).

Lemma formatted_inode ip v s : formatted ds s -> formatted ds (with_inode ip v s).
Proof. intros F. destruct F. constructor; assumption. Qed.

Lemma owns_inode ip w s v : owns s v -> owns (with_inode ip w s) v.
Proof. intros O. destruct O. constructor; assumption. Qed.

Lemma grown_inode k ip w s v s' v' : grown k s v s' v' -> grown k s v (with_inode ip w s') v'.
Proof.
  intros G. destruct G. constructor; try assumption; [apply formatted_inode; assumption|apply owns_inode; assumption].
Qed.

(** [s'] is [s1] but for the indirect block of [v]. *)
Record but_ind (v : inode) (s1 s' : fs) : Prop := {
  bi_formatted : formatted ds s';
  bi_sb : sb s' = sb s1;
  bi_used : forall c, 0 <= c < size (sb s1) -> used s' c = used s1 c;
  bi_same : forall c, 0 <= c -> c <> ind v -> blk s' c = blk s1 c;
}.

Lemma but_ind_refl v s : formatted ds s -> but_ind v s s.
Proof. intros F. constructor; auto. Qed.

Lemma nfree_ext s s' : sb s' = sb s -> (forall c, 0 <= c < size (sb s) -> used s' c = used s c) -> nfree s' = nfree s.
Proof.
  intros E Hu. unfold nfree. rewrite E. apply filter_same. intros c Hc. apply elem_of_seqZ in Hc. rewrite Hu by lia. reflexivity.
Qed.

Lemma grown_alloc s v a s1 s' v' i : formatted ds s -> owns s v -> allocated s a s1 -> but_ind v s1 s' ->
  v' = set_addrs (addrs v') v -> length (addrs v') = 13%nat -> (ind v' = ind v \/ ind v' = a) ->
  pointers s' v' = <[i := a]> (pointers s v) -> grown 1 s v s' v'.
Proof.
  intros F O A B Hv Hlen Hind Hp. pose proof (meta_bounds s F) as Hm. pose proof (al_range _ _ _ A) as Hr.
  pose proof (al_sb _ _ _ A) as E1. pose proof (bi_sb _ _ _ B) as E2.
  assert (Hu' : forall c, 0 <= c < size (sb s) -> used s' c = (c =? a) || used s c).
  { intros c Hc. rewrite (bi_used _ _ _ B) by (rewrite E1; exact Hc). apply A, Hc. }
  assert (Hus : forall c, 0 <= c < size (sb s) -> used s c = true -> used s' c = true).
  { intros c Hc Hu. rewrite Hu', Hu by exact Hc. apply orb_true_r. }
  constructor.
  - apply B.
  - congruence.
  - exact Hv.
  - apply (owns_update s s' v v' i a O); [rewrite Hv; reflexivity|exact Hlen|exact Hp|eapply fresh_pointer; eassumption| | |congruence|exact Hus|lia].
    + rewrite E2, E1. exact Hr.
    + rewrite Hu' by lia. rewrite Z.eqb_refl. reflexivity.
  - intros c Hc Hu Hci Hb. rewrite (bi_same _ _ _ B) by (try exact Hci; lia).
    apply (al_same _ _ _ A); [lia| |exact Hb]. intros ->. rewrite (al_free _ _ _ A) in Hu. discriminate.
  - exact Hus.
  - intros c Hc Hc0. rewrite Hp in Hc. apply elem_insert in Hc as [->|Hc]; [right; apply A|left; exact Hc].
  - destruct Hind as [->| ->]; [left; reflexivity|right; apply A].
  - rewrite (allocated_nfree _ _ _ A), (nfree_ext s1 s'); [lia|exact E2|apply B].
Qed.

Lemma alloc_nonzero s a s' : allocated s a s' -> 0 < a /\ is_u32 a.
Proof.
  intros A. pose proof (meta_bounds s' (al_formatted _ _ _ A)). pose proof (al_range _ _ _ A).
  pose proof (g_size _ _ (f_geometry _ _ (al_formatted _ _ _ A))) as Hs. rewrite (al_sb _ _ _ A) in *.
  unfold is_u32. lia.
Qed.

Lemma grow_direct s v a s' bn : formatted ds s -> owns s v -> allocated s a s' -> (bn < 12)%nat ->
  let v' := set_addrs (<[bn := a]> (addrs v)) v in
  grown 1 s v s' v' /\ slots s' v' = <[bn := a]> (slots s v).
Proof.
  intros F O A Hbn v'. pose proof (ow_length _ _ O) as Hlen.
  assert (Hi : ind v' = ind v) by (apply list_lookup_total_insert_ne; change (Z.to_nat NDIRECT) with 12%nat; lia).
  assert (Hs : slots s' v' = <[bn := a]> (slots s v)).
  { pose proof (slots_alloc s v a s' F O A) as E. unfold slots in *. rewrite Hi. apply app_inv_head in E. rewrite E.
    cbn [addrs set_addrs v']. rewrite insert_app_l by (rewrite length_take, Hlen; change (Z.to_nat NDIRECT) with 12%nat; lia).
    f_equal. apply take_insert_lt. exact Hbn. }
  split; [|exact Hs]. apply (grown_alloc s v a s' s' v' (Datatypes.S bn) F O A); [apply but_ind_refl, A|reflexivity| |left; exact Hi|].
  - cbn. rewrite length_insert. exact Hlen.
  - unfold pointers. rewrite Hi, Hs. reflexivity.
Qed.

Lemma grow_ind s v a s' : formatted ds s -> owns s v -> allocated s a s' -> ind v = 0 ->
  let v' := set_addrs (<[Z.to_nat NDIRECT := a]> (addrs v)) v in
  grown 1 s v s' v' /\ slots s' v' = slots s v /\ ind v' = a.
Proof.
  intros F O A Hz v'. pose proof (ow_length _ _ O) as Hlen. destruct (alloc_nonzero _ _ _ A) as [Ha _].
  assert (Hi : ind v' = a) by (apply list_lookup_total_insert_eq; rewrite Hlen; change (Z.to_nat NDIRECT) with 12%nat; lia).
  assert (Hs : slots s' v' = slots s v).
  { unfold slots. rewrite Hi, Hz, (proj2 (Z.eqb_neq a 0)), (al_zero _ _ _ A), words_zeros by lia. cbn [Z.eqb].
    f_equal. cbn [addrs set_addrs v']. apply take_insert_ge. lia. }
  split; [|split; [exact Hs|exact Hi]].
  apply (grown_alloc s v a s' s' v' 0 F O A); [apply but_ind_refl, A|reflexivity| |right; exact Hi|].
  - cbn. rewrite length_insert. exact Hlen.
  - unfold pointers. rewrite Hi, Hs. reflexivity.
Qed.

Lemma put_word_block off w d : is_block d -> (off + 4 <= 512)%nat -> is_block (put_word off w d).
Proof.
  intros [Hl Hd] Ho. split; [unfold put_word; rewrite length_splice; [exact Hl|]; rewrite length_le_bytes; lia|].
  apply Forall_splice; [apply le_bytes_byte|exact Hd].
Qed.

Lemma grow_entry s v a s1 k : formatted ds s -> owns s v -> allocated s a s1 -> ind v <> 0 -> (k < 128)%nat ->
  let s' := wr (ind v) (put_word (4 * k) a (blk s (ind v))) s1 in
  grown 1 s v s' v /\ slots s' v = <[(12 + k)%nat := a]> (slots s v).
Proof.
  intros F O A Hi Hk s'. destruct (alloc_nonzero _ _ _ A) as [Ha Ha'].
  destruct (ow_used _ _ O (ind v) ltac:(left) Hi) as [Hr Hu]. pose proof (meta_bounds s F) as Hm.
  pose proof (al_formatted _ _ _ A) as F1. pose proof (al_sb _ _ _ A) as E1. pose proof (f_length _ _ F1) as Hl.
  assert (Hblk : is_block (put_word (4 * k) a (blk s (ind v)))).
  { apply put_word_block; [apply blk_block; [exact F|lia]|lia]. }
  assert (B : but_ind v s1 s').
  { constructor.
    - apply formatted_wr; [exact F1|rewrite E1; lia|rewrite E1; lia|exact Hblk].
    - reflexivity.
    - intros c Hc. apply used_wr; [exact F1|rewrite E1; lia|rewrite E1; lia|exact Hc].
    - intros c Hc Hne. unfold s'. rewrite blk_wr by (rewrite ?Hl, ?E1; lia). apply decide_False, Hne. }
  assert (Hs : slots s' v = <[(12 + k)%nat := a]> (slots s v)).
  { unfold slots. rewrite (proj2 (Z.eqb_neq _ _)) by exact Hi.
    rewrite insert_app_r_alt by (rewrite length_take, (ow_length _ _ O); change (Z.to_nat NDIRECT) with 12%nat; lia).
    f_equal. rewrite length_take, (ow_length _ _ O). change (Z.to_nat NDIRECT) with 12%nat.
    replace (12 + k - min 12 13)%nat with k by lia. unfold s'. rewrite blk_wr, decide_True by (rewrite ?Hl, ?E1; lia || reflexivity).
    apply words_put; [exact Hk|apply (blk_block s (ind v) F); lia|exact Ha']. }
  split; [|exact Hs].
  apply (grown_alloc s v a s1 s' v (Datatypes.S (12 + k)) F O A B); [destruct v; reflexivity|apply O|left; reflexivity|].
  unfold pointers. rewrite Hs. reflexivity.
Qed.

(** ** [bmap] *)

Lemma wp_get_inode s ip v (Q : inode -> fs -> Prop) : icache s !! ip = Some v -> Q v s -> wp (get_inode ip) Q s.
Proof. intros Hv HQ. exists v, s. unfold get_inode, lift_opt. rewrite Hv. auto. Qed.

Lemma wp_put_inode s ip v (Q : unit -> fs -> Prop) : Q tt (with_inode ip v s) -> wp (put_inode ip v) Q s.
Proof. intros HQ. apply wp_modify, HQ. Qed.

(** What [bmap] of block [bn] of the file does: nothing but return the block when there is one,
    otherwise the block is new and zero. *)
Record bmapped (ip : nat) (s : fs) (v : inode) (bn : nat) (b : Z) (s' : fs) (v' : inode) : Prop := {
  bm_grown : grown 2 s v s' v';
  bm_icache : icache s' = <[ip := v']> (icache s);
  bm_slots : slots s' v' = <[bn := b]> (slots s v);
  bm_block : ds <= b < size (sb s);
  bm_old : slots s v !!! bn <> 0 -> s' = s /\ v' = v /\ b = slots s v !!! bn;
  bm_new : slots s v !!! bn = 0 -> used s b = false /\ blk s' b = zeros;
}.

Lemma grown_weaken k k' s v s' v' : grown k s v s' v' -> (k <= k')%nat -> grown k' s v s' v'.
Proof. intros G Hk. destruct G. constructor; try assumption. lia. Qed.

Lemma bmapped_old ip s v bn : formatted ds s -> owns s v -> icache s !! ip = Some v -> (bn < 140)%nat ->
  slots s v !!! bn <> 0 -> bmapped ip s v bn (slots s v !!! bn) s v.
Proof.
  intros F O Hv Hbn Hz. pose proof (length_slots s v O) as Hlen.
  assert (Hl : slots s v !! bn = Some (slots s v !!! bn)) by (apply list_lookup_lookup_total_lt; lia).
  constructor.
  - apply (grown_weaken 0); [apply grown_refl; assumption|lia].
  - symmetry. apply list_insert_id, Hv.
  - symmetry. apply list_insert_id, Hl.
  - apply (ow_used _ _ O); [right; eapply list_elem_of_lookup_2, Hl|exact Hz].
  - auto.
  - contradiction.
Qed.

Lemma slots_direct s v bn : owns s v -> (bn < 12)%nat -> slots s v !!! bn = addrs v !!! bn.
Proof.
  intros O Hbn. unfold slots. rewrite list_lookup_total_alt, lookup_app_l, lookup_take_lt.
  - symmetry. apply list_lookup_total_alt.
  - exact Hbn.
  - rewrite length_take, (ow_length _ _ O). change (Z.to_nat NDIRECT) with 12%nat. lia.
Qed.

Lemma slots_indirect s v k : owns s v -> (k < 128)%nat ->
  slots s v !!! (12 + k)%nat = if ind v =? 0 then 0 else word (4 * k) (blk s (ind v)).
Proof.
  intros O Hk. unfold slots. rewrite list_lookup_total_alt, lookup_app_r;
    rewrite length_take, (ow_length _ _ O); change (Z.to_nat NDIRECT `min` 13)%nat with 12%nat; [|lia].
  replace (12 + k - 12)%nat with k by lia. destruct (ind v =? 0).
  - rewrite lookup_replicate_2 by exact Hk. reflexivity.
  - rewrite lookup_words by exact Hk. reflexivity.
Qed.

(** The part of [bmap] that follows once there is an indirect block. *)
Lemma wp_bmap_entry s ip v k : formatted ds s -> owns s v -> icache s !! ip = Some v -> (k < 128)%nat -> ind v <> 0 ->
  (slots s v !!! (12 + k)%nat <> 0 \/ (1 <= nfree s)%nat) ->
  wp (x ← bread 1 (ind v);
      let a := word (4 * k) x in
      if negb (a =? 0) then mret a
      else a ← balloc 1; log_write (ind v) (put_word (4 * k) a x) ;; mret a)
    (fun b s' => exists v', bmapped ip s v (12 + k) b s' v' /\ v' = v /\ grown 1 s v s' v') s.
Proof.
  intros F O Hv Hk Hi Hroom. destruct (ow_used _ _ O (ind v) ltac:(left) Hi) as [Hr _]. pose proof (meta_bounds s F) as Hm.
  pose proof (slots_indirect s v k O Hk) as Es. rewrite (proj2 (Z.eqb_neq _ _) Hi) in Es.
  apply wp_bind, wp_fs_bread; [exact F|lia|]. cbn zeta. rewrite <- Es.
  destruct (slots s v !!! (12 + k)%nat =? 0) eqn:Ez; cbn [negb].
  - apply Z.eqb_eq in Ez. destruct Hroom as [?|Hroom]; [contradiction|].
    apply wp_bind. eapply wp_mono; [apply (wp_balloc s F Hroom)|]. intros a s1 A.
    apply wp_bind, wp_log_write. wp_step.
    destruct (grow_entry s v a s1 k F O A Hi Hk) as [G Hs]. set (s' := wr _ _ s1) in *.
    pose proof (al_range _ _ _ A) as Hra. exists v. split; [|split; [reflexivity|exact G]]. constructor.
    + apply (grown_weaken 1); [exact G|lia].
    + cbn. rewrite (al_icache _ _ _ A). symmetry. apply list_insert_id, Hv.
    + exact Hs.
    + exact Hra.
    + intros Hne. congruence.
    + intros _. split; [apply A|]. unfold s'.
      rewrite blk_wr by (rewrite ?(f_length _ _ (al_formatted _ _ _ A)), ?(al_sb _ _ _ A); lia).
      rewrite decide_False; [apply A|]. intros ->. apply (fresh_pointer s v (ind v) s1 O A). left.
  - apply Z.eqb_neq in Ez. wp_step. exists v. split; [|split; [reflexivity|apply (grown_weaken 0); [apply grown_refl; assumption|lia]]].
    apply bmapped_old; try assumption. lia.
Qed.

Lemma wp_bmap s ip v bn : formatted ds s -> owns s v -> icache s !! ip = Some v -> 0 <= bn < 140 ->
  (slots s v !!! Z.to_nat bn <> 0 \/ (2 <= nfree s)%nat) ->
  wp (bmap ip bn) (fun b s' => exists v', bmapped ip s v (Z.to_nat bn) b s' v') s.
Proof.
  intros F O Hv Hbn Hroom. unfold bmap. apply wp_bind. eapply wp_get_inode; [exact Hv|]. rewrite (ow_dev _ _ O).
  destruct (bn <? NDIRECT) eqn:Ed.
  - apply Z.ltb_lt in Ed. unfold NDIRECT in Ed. assert (Hd : (Z.to_nat bn < 12)%nat) by lia.
    rewrite <- (slots_direct s v _ O Hd). destruct (_ =? 0) eqn:Ez; cbn [negb].
    + apply Z.eqb_eq in Ez. destruct Hroom as [?|Hroom]; [contradiction|].
      apply wp_bind. eapply wp_mono; [apply (wp_balloc s F); lia|]. intros a s1 A.
      apply wp_bind, wp_put_inode. wp_step. destruct (grow_direct s v a s1 _ F O A Hd) as [G Hs].
      eexists. constructor; [apply (grown_weaken 1); [apply grown_inode, G|lia]| |exact Hs|apply A|congruence|].
      * cbn. rewrite (al_icache _ _ _ A). reflexivity.
      * intros _. split; apply A.
    + apply Z.eqb_neq in Ez. wp_step. exists v. apply bmapped_old; try assumption. lia.
  - apply Z.ltb_ge in Ed. unfold NDIRECT in Ed. rewrite (proj2 (Z.ltb_lt _ _)) by (change (bn - 12 < 128); lia).
    set (k := Z.to_nat (bn - NDIRECT)). assert (Hk : (k < 128)%nat) by (unfold k, NDIRECT; lia).
    assert (Ebn : Z.to_nat bn = (12 + k)%nat) by (unfold k, NDIRECT; lia). rewrite Ebn in *.
    replace (Z.to_nat (4 * (bn - NDIRECT))) with (4 * k)%nat by (unfold k, NDIRECT; lia).
    fold (ind v). apply wp_bind. destruct (ind v =? 0) eqn:Ei; cbn [negb].
    + apply Z.eqb_eq in Ei. pose proof (slots_indirect s v k O Hk) as Es. rewrite Ei, Z.eqb_refl in Es.
      destruct Hroom as [?|Hroom]; [contradiction|].
      apply wp_bind. eapply wp_mono; [apply (wp_balloc s F); lia|]. intros a s1 A.
      apply wp_bind, wp_put_inode. wp_step. destruct (grow_ind s v a s1 F O A Ei) as (G & Hs & Hi).
      set (v1 := set_addrs _ v) in *. set (s1' := with_inode ip v1 s1) in *.
      pose proof (grown_inode 1 ip v1 _ _ _ _ G) as G1. fold s1' in G1. destruct (alloc_nonzero _ _ _ A) as [Ha _].
      pose proof (gr_nfree _ _ _ _ _ G1) as Hn. pose proof (lookup_lt_Some _ _ _ Hv) as Hlt.
      assert (Hv1 : icache s1' !! ip = Some v1) by (cbn; rewrite (al_icache _ _ _ A); apply list_lookup_insert_eq, Hlt).
      eapply wp_mono; [rewrite <- Hi; apply (wp_bmap_entry s1' ip v1 k (gr_formatted _ _ _ _ _ G1) (gr_owns _ _ _ _ _ G1) Hv1 Hk)|].
      * lia.
      * right. lia.
      * intros b s' (v' & Hb & -> & G2). exists v1. destruct Hb as [B1 B2 B3 B4 B5 B6]. rewrite (Hs : slots s1' v1 = _) in *. constructor.
        -- apply (grown_trans 1 1 s v s1' v1); assumption.
        -- rewrite B2. cbn. rewrite (al_icache _ _ _ A). apply list_insert_insert_eq.
        -- exact B3.
        -- cbn in B4. rewrite (al_sb _ _ _ A) in B4. exact B4.
        -- congruence.
        -- intros Hz. destruct (B6 Hz) as [Hf Hz']. split; [|exact Hz'].
           apply not_true_iff_false. intros Hu. cbn in B4. rewrite (al_sb _ _ _ A) in B4. pose proof (meta_bounds s F).
           rewrite (gr_used _ _ _ _ _ G1) in Hf by (try exact Hu; lia). discriminate.
    + apply Z.eqb_neq in Ei. wp_step. eapply wp_mono; [apply (wp_bmap_entry s ip v k F O Hv Hk Ei); destruct Hroom; [left; assumption|right; lia]|].
      intros b s' (v' & Hb & _). exists v'. exact Hb.
Qed.

(** ** The bytes of a file *)

Definition fbyte (s : fs) (v : inode) (o : Z) : Z :=
  blk s (slots s v !!! Z.to_nat (o / BSIZE)) !!! Z.to_nat (o mod BSIZE).
Definition has (s : fs) (v : inode) (o : Z) : Prop := slots s v !!! Z.to_nat (o / BSIZE) <> 0.

Lemma chunk_pos off n : 0 < n -> 1 <= chunk off n <= n /\ off mod BSIZE + chunk off n <= BSIZE.
Proof. intros Hn. unfold chunk. pose proof (Z.mod_pos_bound off BSIZE ltac:(reflexivity)). lia. Qed.

(** The bytes of one round lie in one block. *)
Lemma chunk_block off n i : 0 <= off -> 0 < n -> 0 <= i < chunk off n ->
  (off + i) / BSIZE = off / BSIZE /\ (off + i) mod BSIZE = off mod BSIZE + i.
Proof.
  intros Ho Hn Hi. pose proof (chunk_pos off n Hn) as [_ Hc]. pose proof (Z.mod_pos_bound off BSIZE ltac:(reflexivity)).
  pose proof (Z.div_mod off BSIZE ltac:(discriminate)). split.
  - symmetry. apply (Z.div_unique_pos _ _ _ (off mod BSIZE + i)); lia.
  - symmetry. apply (Z.mod_unique_pos _ _ (off / BSIZE)); lia.
Qed.

Lemma off_index off : 0 <= off -> (Z.to_nat (off mod BSIZE) < 512)%nat.
Proof. intros Ho. pose proof (Z.mod_pos_bound off BSIZE ltac:(reflexivity)). unfold BSIZE in *. lia. Qed.

Lemma window_bytes s v off n : formatted ds s -> owns s v -> 0 <= off -> 0 < n -> has s v off -> off / BSIZE < 140 ->
  window (Z.to_nat (off mod BSIZE)) (Z.to_nat (chunk off n)) (blk s (slots s v !!! Z.to_nat (off / BSIZE))) =
  fbyte s v <$> seqZ off (chunk off n).
Proof.
  intros F O Ho Hn Hh Hb. destruct (chunk_pos off n Hn) as [H1 H2].
  pose proof (Z.mod_pos_bound off BSIZE ltac:(reflexivity)) as Hm. pose proof (Z.div_pos off BSIZE Ho ltac:(reflexivity)).
  assert (Hin : slots s v !! Z.to_nat (off / BSIZE) = Some (slots s v !!! Z.to_nat (off / BSIZE)))
    by (apply list_lookup_lookup_total_lt; rewrite (length_slots s v O); lia).
  set (b := slots s v !!! _) in *. assert (Hblk : is_block (blk s b)).
  { destruct (ow_used _ _ O b) as [Hr _]; [right; eapply list_elem_of_lookup_2, Hin|exact Hh|].
    apply blk_block; [exact F|]. pose proof (meta_bounds s F). lia. }
  apply list_eq. intros i. destruct (decide (i < Z.to_nat (chunk off n))%nat) as [Hi|Hi].
  - rewrite lookup_window, list_lookup_fmap, (lookup_seqZ_lt off) by lia. cbn [fmap option_fmap option_map].
    unfold fbyte. destruct (chunk_block off n (Z.of_nat i) Ho Hn ltac:(lia)) as [-> ->]. fold b.
    rewrite list_lookup_lookup_total_lt by (rewrite (proj1 Hblk); unfold BSIZE in *; lia). do 2 f_equal. lia.
  - rewrite !lookup_ge_None_2; [reflexivity| |]; rewrite ?length_fmap, ?length_seqZ;
      [lia|rewrite length_window; [lia|rewrite (proj1 Hblk); unfold BSIZE in *; lia]].
Qed.

Lemma wp_read_loop fuel : forall s ip v off n, formatted ds s -> owns s v -> icache s !! ip = Some v ->
  0 <= off -> off + n <= MAXFILE * BSIZE -> (forall o, off <= o < off + n -> has s v o) -> n <= Z.of_nat fuel ->
  wp (read_loop fuel ip off n) (fun l s' => s' = s /\ l = fbyte s v <$> seqZ off n) s.
Proof.
  induction fuel as [|fuel IH]; intros s ip v off n F O Hv Ho Hmax Hh Hf; cbn [read_loop].
  - rewrite (proj2 (Z.leb_le _ _)) by lia. wp_step. split; [reflexivity|]. rewrite seqZ_nil by lia. reflexivity.
  - destruct (n <=? 0) eqn:En; [apply Z.leb_le in En; wp_step; split; [reflexivity|]; rewrite seqZ_nil by lia; reflexivity|].
    apply Z.leb_gt in En. destruct (chunk_pos off n En) as [H1 H2]. pose proof (Hh off ltac:(lia)) as Hoff.
    assert (Hbn : 0 <= off / BSIZE < 140).
    { split; [apply Z.div_pos; [lia|reflexivity]|]. apply Z.div_lt_upper_bound; [reflexivity|].
      change (MAXFILE * BSIZE) with (140 * BSIZE) in Hmax. lia. }
    apply wp_bind. eapply wp_get_inode; [exact Hv|]. rewrite (ow_dev _ _ O).
    apply wp_bind. eapply wp_mono; [apply (wp_bmap s ip v (off / BSIZE) F O Hv Hbn); left; exact Hoff|].
    intros b s' (v' & B). destruct (bm_old _ _ _ _ _ _ _ B Hoff) as (-> & -> & Eb). pose proof (bm_block _ _ _ _ _ _ _ B).
    pose proof (meta_bounds s F). apply wp_bind, wp_fs_bread; [exact F|lia|].
    apply wp_bind. eapply wp_mono; [apply (IH s ip v (off + chunk off n) (n - chunk off n) F O Hv)|].
    + lia.
    + lia.
    + intros o Hoo. apply Hh. lia.
    + lia.
    + intros l s' [-> ->]. wp_step. split; [reflexivity|]. rewrite Eb, window_bytes by (assumption || lia).
      rewrite <- fmap_app. f_equal. rewrite <- seqZ_app by lia. f_equal. lia.
Qed.

(** ** Writing *)

(** The file of [v] has changed to that of [v'] without losing a block; everything
    else in use is as it was. *)
Record evolved (s : fs) (v : inode) (s' : fs) (v' : inode) : Prop := {
  ev_formatted : formatted ds s';
  ev_sb : sb s' = sb s;
  ev_owns : owns s' v';
  ev_same : forall c, ds <= c < size (sb s) -> used s c = true -> (c ∉ pointers s v) -> blk s' c = blk s c;
  ev_used : forall c, 0 <= c < size (sb s) -> used s c = true -> used s' c = true;
  ev_new : forall c, c ∈ pointers s' v' -> c <> 0 -> c ∈ pointers s v \/ used s c = false;
  ev_slots : forall k, (k < 140)%nat -> slots s v !!! k <> 0 -> slots s' v' !!! k = slots s v !!! k;
}.

Lemma evolved_refl s v : formatted ds s -> owns s v -> evolved s v s v.
Proof. intros F O. constructor; auto. Qed.

Lemma evolved_trans s v s1 v1 s2 v2 : evolved s v s1 v1 -> evolved s1 v1 s2 v2 -> evolved s v s2 v2.
Proof.
  intros G1 G2. pose proof (ev_sb _ _ _ _ G1) as E1. pose proof (meta_bounds s1 (ev_formatted _ _ _ _ G1)) as Hm.
  constructor; try apply G2.
  - rewrite (ev_sb _ _ _ _ G2). exact E1.
  - intros c Hc Hu Hi. rewrite (ev_same _ _ _ _ G2).
    + apply (ev_same _ _ _ _ G1); assumption.
    + rewrite E1. exact Hc.
    + apply (ev_used _ _ _ _ G1); [lia|assumption].
    + intros Hin. destruct (ev_new _ _ _ _ G1 c Hin ltac:(lia)) as [?|Hf]; [contradiction|congruence].
  - intros c Hc Hu. apply (ev_used _ _ _ _ G2); [rewrite E1; exact Hc|]. apply (ev_used _ _ _ _ G1); assumption.
  - intros c Hc Hc0. destruct (ev_new _ _ _ _ G2 c Hc Hc0) as [Hin|Hf]; [apply (ev_new _ _ _ _ G1); assumption|].
    right. apply not_true_iff_false. intros Hu.
    destruct (ow_used _ _ (ev_owns _ _ _ _ G2) c Hc Hc0) as [Hr _]. rewrite (ev_sb _ _ _ _ G2), E1 in Hr.
    rewrite (ev_used _ _ _ _ G1) in Hf by (try exact Hu; lia). discriminate.
  - intros k Hlt Hk. pose proof (ev_slots _ _ _ _ G1 k Hlt Hk) as E.
    rewrite (ev_slots _ _ _ _ G2); [exact E|exact Hlt|]. rewrite E. exact Hk.
Qed.

Lemma evolved_bmap ip s v bn b s' v' : bmapped ip s v bn b s' v' -> evolved s v s' v'.
Proof.
  intros B. destruct (bm_grown _ _ _ _ _ _ _ B) as [G1 G2 G3 G4 G5 G6 G7 G8 G9]. constructor; try assumption.
  - intros c Hc Hu Hp. pose proof (meta_bounds s' G1) as Hm. rewrite G2 in Hm.
    apply G5; [lia|exact Hu| |lia]. intros ->. apply Hp. left.
  - intros k _ Hk. rewrite (bm_slots _ _ _ _ _ _ _ B). destruct (decide (k = bn)) as [->|Hne].
    + destruct (bm_old _ _ _ _ _ _ _ B Hk) as (_ & _ & ->). rewrite list_lookup_total_alt, list_insert_id'; [symmetry; apply list_lookup_total_alt|].
      intros Hl. apply list_lookup_lookup_total_lt, Hl.
    + apply list_lookup_total_insert_ne. congruence.
Qed.

Lemma slot_lookup s v k : owns s v -> (k < 140)%nat -> slots s v !! k = Some (slots s v !!! k).
Proof. intros O Hk. apply list_lookup_lookup_total_lt. rewrite (length_slots s v O). exact Hk. Qed.

(** A block of the file is not its indirect block, nor another of its blocks. *)
Lemma slot_not_ind s v k : owns s v -> (k < 140)%nat -> slots s v !!! k <> 0 -> slots s v !!! k <> ind v.
Proof.
  intros O Hlt Hk E. pose proof (slot_lookup s v k O Hlt) as Hl.
  assert (0%nat = Datatypes.S k); [|lia]. apply (ow_distinct _ _ O 0%nat (Datatypes.S k) (ind v)); [reflexivity| |congruence].
  change (slots s v !! k = Some (ind v)). congruence.
Qed.

Lemma slot_inj s v k k' : owns s v -> (k < 140)%nat -> (k' < 140)%nat -> slots s v !!! k <> 0 -> slots s v !!! k = slots s v !!! k' -> k = k'.
Proof.
  intros O Hlt Hlt' Hk E. pose proof (slot_lookup s v k O Hlt) as Hl. pose proof (slot_lookup s v k' O Hlt') as Hl'.
  assert (Datatypes.S k = Datatypes.S k'); [|lia].
  apply (ow_distinct _ _ O (Datatypes.S k) (Datatypes.S k') (slots s v !!! k)); [exact Hl| |exact Hk].
  change (slots s v !! k' = Some (slots s v !!! k)). congruence.
Qed.

Lemma slot_data s v k : owns s v -> (k < 140)%nat -> slots s v !!! k <> 0 ->
  ds <= slots s v !!! k < size (sb s) /\ used s (slots s v !!! k) = true /\ slots s v !!! k ∈ pointers s v.
Proof.
  intros O Hlt Hk. assert (Hin : slots s v !!! k ∈ pointers s v) by (right; exact (list_elem_of_lookup_2 _ _ _ (slot_lookup s v k O Hlt))).
  destruct (ow_used _ _ O _ Hin Hk). auto.
Qed.

(** A write to a block of the file. *)
Lemma evolved_write s v k x : formatted ds s -> owns s v -> (k < 140)%nat -> slots s v !!! k <> 0 -> is_block x ->
  let s' := wr (slots s v !!! k) x s in
  evolved s v s' v /\ slots s' v = slots s v /\ nfree s' = nfree s.
Proof.
  intros F O Hlt Hk Hx s'. destruct (slot_data s v k O Hlt Hk) as (Hr & Hu & Hp). pose proof (meta_bounds s F) as Hm.
  pose proof (f_length _ _ F) as Hl. set (b := slots s v !!! k) in *.
  assert (Hs : slots s' v = slots s v).
  { apply slots_ext. intros Hi. unfold s'. destruct (ow_used _ _ O (ind v) ltac:(left) Hi) as [Hri _]. rewrite blk_wr by lia.
    apply decide_False. intros E. apply (slot_not_ind s v k O Hlt Hk). symmetry. exact E. }
  assert (Hus : forall c, 0 <= c < size (sb s) -> used s' c = used s c) by (intros c Hc; apply used_wr; [exact F|lia|lia|exact Hc]).
  split; [|split; [exact Hs|apply nfree_ext; [reflexivity|exact Hus]]]. constructor.
  - apply formatted_wr; [exact F|lia|lia|exact Hx].
  - reflexivity.
  - destruct O as [O1 O2 O3 O4]. constructor; [exact O1|exact O2|unfold pointers; rewrite Hs; exact O3|].
    unfold pointers. rewrite Hs. intros c Hc Hc0. destruct (O4 c Hc Hc0). split; [assumption|]. rewrite Hus by lia. assumption.
  - intros c Hc _ Hnp. unfold s'. rewrite blk_wr by lia. apply decide_False. intros ->. contradiction.
  - intros c Hc Hu'. rewrite Hus by exact Hc. exact Hu'.
  - unfold pointers. rewrite Hs. auto.
  - intros j _ _. rewrite Hs. reflexivity.
Qed.

(** Boot block apart, nothing before the free map has changed. *)
Definition meta_same (s s' : fs) : Prop := forall c, 0 < c < bmapstart (sb s) -> blk s' c = blk s c.

Lemma meta_trans s s1 s2 : sb s1 = sb s -> meta_same s s1 -> meta_same s1 s2 -> meta_same s s2.
Proof. intros E H1 H2 c Hc. rewrite H2 by (rewrite E; exact Hc). apply H1, Hc. Qed.

Lemma meta_wr b x s : formatted ds s -> ds <= b < size (sb s) -> meta_same s (wr b x s).
Proof.
  intros F Hb c Hc. pose proof (meta_bounds s F). rewrite blk_wr by (rewrite ?(f_length _ _ F); lia). apply decide_False. lia.
Qed.

Lemma meta_grown k s v s' v' : formatted ds s -> owns s v -> grown k s v s' v' -> meta_same s s'.
Proof.
  intros F O G c Hc. pose proof (meta_bounds s F). apply (gr_same _ _ _ _ _ G); [lia|apply (f_used _ _ F); lia| |lia].
  intros E. destruct (ow_used _ _ O (ind v) ltac:(left)); lia.
Qed.

(** What a write of [src] at [off] does to the bytes. *)
Definition written (src : list Z) (off : Z) (s : fs) (v : inode) (s' : fs) (v' : inode) : Prop :=
  forall o, 0 <= o < MAXFILE * BSIZE -> has s v o \/ off <= o < off + Z.of_nat (length src) ->
    has s' v' o /\ fbyte s' v' o = if decide (off <= o < off + Z.of_nat (length src)) then src !!! Z.to_nat (o - off)
                                   else fbyte s v o.

Lemma block_index o : 0 <= o < MAXFILE * BSIZE -> (Z.to_nat (o / BSIZE) < 140)%nat /\ 0 <= o / BSIZE < 140.
Proof.
  intros Ho. assert (0 <= o / BSIZE < 140); [|lia].
  split; [apply Z.div_pos; [lia|reflexivity]|]. apply Z.div_lt_upper_bound; [reflexivity|exact (proj2 Ho)].
Qed.

(** The bytes of blocks that are not touched stay. *)
Lemma fbyte_same s v s' v' o : 0 <= o < MAXFILE * BSIZE -> slots s' v' !!! Z.to_nat (o / BSIZE) = slots s v !!! Z.to_nat (o / BSIZE) ->
  blk s' (slots s v !!! Z.to_nat (o / BSIZE)) = blk s (slots s v !!! Z.to_nat (o / BSIZE)) -> fbyte s' v' o = fbyte s v o.
Proof. intros Ho E1 E2. unfold fbyte. rewrite E1, E2. reflexivity. Qed.

Definition write_block (b off : Z) (bs : list Z) (s : fs) : fs :=
  wr b (splice (Z.to_nat (off mod BSIZE)) bs (blk s b)) s.

Lemma written_round s v bs off b s1 s2 v1 : let bn := Z.to_nat (off / BSIZE) in
  0 <= off < MAXFILE * BSIZE -> (bn < length (slots s v))%nat ->
  1 <= Z.of_nat (length bs) -> off mod BSIZE + Z.of_nat (length bs) <= BSIZE -> b <> 0 ->
  slots s2 v1 = <[bn := b]> (slots s v) -> (Z.to_nat (off mod BSIZE) + length bs <= length (blk s1 b))%nat ->
  blk s2 b = splice (Z.to_nat (off mod BSIZE)) bs (blk s1 b) ->
  (slots s v !!! bn <> 0 -> s1 = s /\ b = slots s v !!! bn) ->
  (forall k, (k < 140)%nat -> k <> bn -> slots s v !!! k <> 0 -> blk s2 (slots s v !!! k) = blk s (slots s v !!! k)) ->
  written bs off s v s2 v1.
Proof.
  intros bn Hoff Hbn Hlen Hfit Hb0 Hs2 Hroom Hb Hold Hother o Ho Hcase. destruct (block_index o Ho) as [Hk _].
  pose proof (Z.mod_pos_bound off BSIZE ltac:(reflexivity)) as Hmod. pose proof (Z.mod_pos_bound o BSIZE ltac:(reflexivity)) as Hmod'.
  pose proof (Z.div_mod off BSIZE ltac:(discriminate)) as D1. pose proof (Z.div_mod o BSIZE ltac:(discriminate)) as D2.
  pose proof (Z.div_pos off BSIZE ltac:(lia) ltac:(reflexivity)). pose proof (Z.div_pos o BSIZE ltac:(lia) ltac:(reflexivity)).
  destruct (decide (o / BSIZE = off / BSIZE)) as [E|E].
  - assert (Es : slots s2 v1 !!! Z.to_nat (o / BSIZE) = b) by (rewrite E; fold bn; rewrite Hs2; apply list_lookup_total_insert_eq, Hbn).
    split; [unfold has; rewrite Es; exact Hb0|]. unfold fbyte. rewrite Es, Hb. rewrite list_lookup_total_alt, lookup_splice by exact Hroom.
    destruct (decide (off <= o < off + _)) as [Hin|Hin].
    + rewrite decide_True by lia. rewrite list_lookup_total_alt. do 2 f_equal. lia.
    + rewrite decide_False by lia. destruct Hcase as [Hh|?]; [|contradiction]. unfold has in Hh. rewrite E in Hh |- *. fold bn in Hh |- *.
      destruct (Hold Hh) as [-> <-]. symmetry. apply list_lookup_total_alt.
  - assert (Hne : Z.to_nat (o / BSIZE) <> bn) by (unfold bn; lia).
    assert (Hout : ~ (off <= o < off + Z.of_nat (length bs))) by (intros Hin; apply E; unfold BSIZE in *; nia).
    destruct Hcase as [Hh|?]; [|contradiction]. rewrite decide_False by exact Hout.
    assert (Es : slots s2 v1 !!! Z.to_nat (o / BSIZE) = slots s v !!! Z.to_nat (o / BSIZE))
      by (rewrite Hs2; apply list_lookup_total_insert_ne; congruence).
    split; [unfold has; rewrite Es; exact Hh|]. apply fbyte_same; [exact Ho|exact Es|]. apply Hother; assumption.
Qed.

(** One round: [bmap] and the write of the bytes [bs] that go to the block. *)
Lemma write_round ip s v off bs b s1 v1 : formatted ds s -> owns s v -> 0 <= off < MAXFILE * BSIZE ->
  bmapped ip s v (Z.to_nat (off / BSIZE)) b s1 v1 -> Forall is_byte bs ->
  1 <= Z.of_nat (length bs) -> off mod BSIZE + Z.of_nat (length bs) <= BSIZE ->
  let s2 := write_block b off bs s1 in
  evolved s v s2 v1 /\ (v1 = set_addrs (addrs v1) v /\ meta_same s s2) /\ icache s2 = <[ip := v1]> (icache s) /\ slots s2 v1 = <[Z.to_nat (off / BSIZE) := b]> (slots s v) /\
  (nfree s <= (if decide (slots s v !!! Z.to_nat (off / BSIZE) = 0)%Z then 2 else 0) + nfree s2)%nat /\ written bs off s v s2 v1.
Proof.
  intros F O Hoff B Hby Hlen Hfit s2. destruct (block_index off Hoff) as [Hbn Hbn']. set (bn := Z.to_nat (off / BSIZE)) in *.
  pose proof (bm_grown _ _ _ _ _ _ _ B) as G. pose proof (gr_formatted _ _ _ _ _ G) as F1. pose proof (gr_owns _ _ _ _ _ G) as O1.
  pose proof (bm_slots _ _ _ _ _ _ _ B) as Hs1. pose proof (bm_block _ _ _ _ _ _ _ B) as Hb. pose proof (meta_bounds s F) as Hm.
  assert (Eb : slots s1 v1 !!! bn = b) by (rewrite Hs1; apply list_lookup_total_insert_eq; rewrite (length_slots s v O); exact Hbn).
  assert (Hblk : is_block (blk s1 b)) by (apply blk_block; [exact F1|rewrite (gr_sb _ _ _ _ _ G); lia]).
  pose proof (Z.mod_pos_bound off BSIZE ltac:(reflexivity)) as Hmod.
  set (x := splice (Z.to_nat (off mod BSIZE)) bs (blk s1 b)).
  assert (Hroom : (Z.to_nat (off mod BSIZE) + length bs <= length (blk s1 b))%nat) by (rewrite (proj1 Hblk); unfold BSIZE in *; lia).
  assert (Hx : is_block x) by (split; [unfold x; rewrite length_splice by exact Hroom; apply Hblk|apply Forall_splice; [exact Hby|apply Hblk]]).
  destruct (evolved_write s1 v1 bn x F1 O1 Hbn) as (W1 & W2 & W3); [rewrite Eb; lia|exact Hx|]. rewrite Eb in W1, W2, W3.
  change (wr b x s1) with s2 in W1, W2, W3.
  split; [eapply evolved_trans; [eapply evolved_bmap, B|exact W1]|].
  split; [split; [apply G|eapply meta_trans; [apply G|eapply meta_grown; eassumption|apply meta_wr; [exact F1|rewrite (gr_sb _ _ _ _ _ G); exact Hb]]]|].
  split; [apply B|]. split; [rewrite W2; exact Hs1|]. split.
  - rewrite W3. destruct (decide _) as [E|E]; [apply G|]. destruct (bm_old _ _ _ _ _ _ _ B E) as (-> & _). lia.
  - assert (Hb2 : blk s2 b = x).
    { unfold s2, write_block. rewrite blk_wr by (rewrite ?(f_length _ _ F1), ?(gr_sb _ _ _ _ _ G); lia). apply decide_True. reflexivity. }
    apply (written_round s v bs off b s1 s2 v1 Hoff); [rewrite (length_slots s v O); exact Hbn|exact Hlen|exact Hfit|lia|rewrite W2; exact Hs1|exact Hroom|exact Hb2| |].
    + intros Hz. destruct (bm_old _ _ _ _ _ _ _ B Hz) as (-> & _ & E). auto.
    + intros k Hk Hne Hz. change (k <> bn) in Hne. destruct (slot_data s v k O Hk Hz) as (Hr & Hu & _).
      assert (Hkb : slots s v !!! k <> b).
      { intros E. assert (Ek : slots s1 v1 !!! k = slots s v !!! k) by (rewrite Hs1; apply list_lookup_total_insert_ne; congruence).
        apply Hne, (slot_inj s1 v1 k bn O1 Hk Hbn); congruence. }
      unfold s2, write_block. rewrite blk_wr by (rewrite ?(f_length _ _ F1), ?(gr_sb _ _ _ _ _ G); lia).
      rewrite decide_False by exact Hkb. apply (gr_same _ _ _ _ _ G); [lia|exact Hu|apply slot_not_ind; assumption|lia].
Qed.

(** The blocks of the file that [n] bytes at [off] touch, and how many of them it lacks. *)
Definition touched (off n : Z) : list nat :=
  if n <=? 0 then [] else seq (Z.to_nat (off / BSIZE)) (Z.to_nat ((off + n - 1) / BSIZE - off / BSIZE + 1)).
Definition lacking (s : fs) (v : inode) (ks : list nat) : nat := length (filter (fun k => slots s v !!! k = 0) ks).

Lemma touched_step off n : 0 <= off -> 0 < n ->
  touched off n = Z.to_nat (off / BSIZE) :: touched (off + chunk off n) (n - chunk off n).
Proof.
  intros Ho Hn. destruct (chunk_pos off n Hn) as [H1 H2]. pose proof (Z.mod_pos_bound off BSIZE ltac:(reflexivity)) as Hm.
  pose proof (Z.div_mod off BSIZE ltac:(discriminate)) as D. pose proof (Z.div_pos off BSIZE Ho ltac:(reflexivity)) as Hq.
  unfold touched. rewrite (proj2 (Z.leb_gt n 0)) by lia. destruct (n - chunk off n <=? 0) eqn:E.
  - apply Z.leb_le in E. assert (Ed : (off + n - 1) / BSIZE = off / BSIZE).
    { symmetry. apply (Z.div_unique_pos _ _ _ (off mod BSIZE + n - 1)); lia. }
    rewrite Ed. replace (Z.to_nat (off / BSIZE - off / BSIZE + 1)) with 1%nat by lia. reflexivity.
  - apply Z.leb_gt in E. assert (Ec : chunk off n = BSIZE - off mod BSIZE) by (unfold chunk in *; lia).
    assert (Ed : (off + chunk off n) / BSIZE = off / BSIZE + 1).
    { symmetry. apply (Z.div_unique_pos _ _ _ 0); [unfold BSIZE; lia|lia]. }
    rewrite Ed. replace (off + chunk off n + (n - chunk off n) - 1) with (off + n - 1) by lia.
    pose proof (Z.div_le_mono (off + chunk off n) (off + n - 1) BSIZE ltac:(reflexivity) ltac:(lia)) as Hle. rewrite Ed in Hle.
    replace (Z.to_nat ((off + n - 1) / BSIZE - off / BSIZE + 1))
      with (Datatypes.S (Z.to_nat ((off + n - 1) / BSIZE - (off / BSIZE + 1) + 1))) by lia.
    cbn [seq]. do 2 f_equal. lia.
Qed.

Lemma touched_nodup off n : NoDup (touched off n).
Proof. unfold touched. destruct (n <=? 0); [apply NoDup_nil_2|apply NoDup_seq]. Qed.

Lemma lacking_ext s v s' v' ks : (forall k, k ∈ ks -> slots s' v' !!! k = slots s v !!! k) -> lacking s' v' ks = lacking s v ks.
Proof. intros Hk. apply filter_same. intros k Hin. rewrite Hk by exact Hin. reflexivity. Qed.

(** A block is added. *)
Lemma lacking_insert s v s' v' bn b ks : slots s' v' = <[bn := b]> (slots s v) -> (bn < length (slots s v))%nat -> b <> 0 ->
  slots s v !!! bn = 0 -> bn ∈ ks -> NoDup ks -> lacking s v ks = S (lacking s' v' ks).
Proof.
  intros Es Hlt Hb Hz Hin Hnd. apply list_elem_of_split in Hin as (l1 & l2 & ->). apply NoDup_app in Hnd as (_ & Hd1 & Hd2). apply NoDup_cons in Hd2 as [Hd2 _].
  assert (Hsame : forall l, bn ∉ l -> lacking s' v' l = lacking s v l).
  { intros l Hl. apply lacking_ext. intros k Hk. rewrite Es. apply list_lookup_total_insert_ne. intros <-. contradiction. }
  pose proof (Hsame l1 ltac:(intros Hi; apply (Hd1 bn Hi); left)) as E1. pose proof (Hsame l2 Hd2) as E2.
  unfold lacking in *. rewrite !filter_app, !filter_cons, !length_app, Es, list_lookup_total_insert_eq by exact Hlt.
  rewrite (decide_True (P := slots s v !!! bn = 0)) by exact Hz. rewrite (decide_False (P := b = 0)) by exact Hb. rewrite <- Es. cbn [length]. lia.
Qed.

(** Free blocks are only spent on blocks of the file among [touched off n]. *)
Definition room_kept (off n : Z) (s : fs) (v : inode) (s' : fs) (v' : inode) : Prop := forall ks, NoDup ks ->
  (forall k, k ∈ touched off n -> k ∈ ks) -> (2 * lacking s' v' ks + nfree s <= 2 * lacking s v ks + nfree s')%nat.

Lemma room_round s v s' v' bn b ks : slots s' v' = <[bn := b]> (slots s v) -> (bn < length (slots s v))%nat -> b <> 0 ->
  (slots s v !!! bn <> 0 -> b = slots s v !!! bn) -> NoDup ks -> bn ∈ ks ->
  (nfree s <= (if decide (slots s v !!! bn = 0)%Z then 2 else 0) + nfree s')%nat ->
  (2 * lacking s' v' ks + nfree s <= 2 * lacking s v ks + nfree s')%nat.
Proof.
  intros Es Hlt Hb Hold Hnd Hin Hn. destruct (decide _) as [Ez|Ez].
  - rewrite (lacking_insert s v s' v' bn b ks) by assumption. lia.
  - rewrite (lacking_ext s v s' v' ks); [lia|]. intros k _. rewrite Es, (Hold Ez). destruct (decide (k = bn)) as [->|Hne].
    + apply list_lookup_total_insert_eq, Hlt.
    + apply list_lookup_total_insert_ne. congruence.
Qed.

Lemma blocks_written_trans src1 src2 off s v s1 v1 s2 v2 : 0 <= off ->
  written src1 off s v s1 v1 -> written src2 (off + Z.of_nat (length src1)) s1 v1 s2 v2 ->
  written (src1 ++ src2) off s v s2 v2.
Proof.
  intros Ho W1 W2 o Hr Hcase. rewrite length_app, Nat2Z.inj_add in *.
  destruct (decide (off <= o < off + Z.of_nat (length src1))) as [H1|H1].
  - destruct (W1 o Hr (or_intror H1)) as [A1 B1]. destruct (W2 o Hr (or_introl A1)) as [A2 B2]. split; [exact A2|].
    rewrite B2, B1. rewrite decide_False, decide_True, decide_True by lia. symmetry. apply lookup_total_app_l. lia.
  - assert (Hc : has s1 v1 o \/ off + Z.of_nat (length src1) <= o < off + Z.of_nat (length src1) + Z.of_nat (length src2)).
    { destruct Hcase as [Hh|Hin]; [left; apply W1; auto|right; lia]. }
    destruct (W2 o Hr Hc) as [A2 B2]. split; [exact A2|]. rewrite B2.
    destruct (decide (off + Z.of_nat (length src1) <= o < _)) as [H2|H2].
    + rewrite decide_True by lia. rewrite lookup_total_app_r by lia. f_equal. lia.
    + rewrite decide_False by lia. destruct Hcase as [Hh|Hin]; [|lia]. destruct (W1 o Hr (or_introl Hh)) as [_ B1].
      rewrite B1, decide_False by lia. reflexivity.
Qed.

Lemma wp_write_loop fuel : forall s ip v src off, formatted ds s -> owns s v -> icache s !! ip = Some v ->
  0 <= off -> off + Z.of_nat (length src) <= MAXFILE * BSIZE -> Forall is_byte src ->
  (2 * lacking s v (touched off (Z.of_nat (length src))) <= nfree s)%nat -> (length src <= fuel)%nat ->
  wp (write_loop fuel ip src off) (fun off' s' => off' = off + Z.of_nat (length src) /\ exists v',
    icache s' = <[ip := v']> (icache s) /\ evolved s v s' v' /\ written src off s v s' v' /\
    (lacking s v (touched off (Z.of_nat (length src))) = 0%nat -> v' = v) /\
    v' = set_addrs (addrs v') v /\ meta_same s s' /\ room_kept off (Z.of_nat (length src)) s v s' v') s.
Proof.
  induction fuel as [|fuel IH]; intros s ip v src off F O Hv Ho Hmax Hby Hfree Hfuel; cbn [write_loop];
    set (n := Z.of_nat (length src)) in *.
  1: rewrite (proj2 (Z.leb_le _ _)) by lia. 2: destruct (n <=? 0) eqn:En.
  1,2: wp_step; assert (En' : n = 0) by (try apply Z.leb_le in En; lia); split; [lia|]; exists v;
    (split; [symmetry; apply list_insert_id, Hv|]); (split; [apply evolved_refl; assumption|]);
    (split; [|split; [reflexivity|split; [destruct v; reflexivity|split; [intros c Hc; reflexivity|intros ks _ _; lia]]]]); intros o Hr Hc; fold n in Hc |- *; rewrite decide_False by lia; destruct Hc as [Hc|Hc]; [auto|lia].
  apply Z.leb_gt in En. destruct (chunk_pos off n En) as [H1 H2]. set (m := chunk off n) in *.
  assert (Hoff : 0 <= off < MAXFILE * BSIZE) by lia. destruct (block_index off Hoff) as [Hbn Hbn'].
  rewrite touched_step in Hfree |- * by lia. fold m in Hfree |- *. unfold lacking in Hfree at 1. rewrite filter_cons in Hfree.
  apply wp_bind. eapply wp_get_inode; [exact Hv|]. rewrite (ow_dev _ _ O).
  apply wp_bind. eapply wp_mono; [apply (wp_bmap s ip v (off / BSIZE) F O Hv Hbn')|].
  { destruct (decide (slots s v !!! Z.to_nat (off / BSIZE) = 0)) as [Ez|Ez]; [right|left; exact Ez]. cbn [length] in Hfree. lia. }
  intros b s1 (v1 & B). pose proof (bm_grown _ _ _ _ _ _ _ B) as G. pose proof (bm_block _ _ _ _ _ _ _ B) as Hb.
  pose proof (meta_bounds s F) as Hm. apply wp_bind, wp_fs_bread; [apply G|rewrite (gr_sb _ _ _ _ _ G); lia|].
  apply wp_bind, wp_log_write.
  assert (Hlt : length (take (Z.to_nat m) src) = Z.to_nat m) by (rewrite length_take; lia).
  destruct (write_round ip s v off (take (Z.to_nat m) src) b s1 v1 F O Hoff B) as (E2 & [V2 M2] & I2 & S2 & N2 & W2);
    [apply Forall_take, Hby|lia|lia|]. set (s2 := write_block b off _ s1) in *. change (wr b _ s1) with s2.
  pose proof (lookup_lt_Some _ _ _ Hv) as Hip.
  assert (Hlack : lacking s2 v1 (touched (off + m) (n - m)) = lacking s v (touched (off + m) (n - m))).
  { apply lacking_ext. intros k Hk. rewrite S2. apply list_lookup_total_insert_ne. intros <-.
    pose proof (touched_nodup off n) as Hnd. rewrite touched_step in Hnd by lia. apply NoDup_cons in Hnd as [Hnd _]. contradiction. }
  eapply wp_mono; [apply (IH s2 ip v1 (drop (Z.to_nat m) src) (off + m) (ev_formatted _ _ _ _ E2) (ev_owns _ _ _ _ E2))|].
  - rewrite I2. apply list_lookup_insert_eq, Hip.
  - lia.
  - rewrite length_drop. lia.
  - apply Forall_drop, Hby.
  - rewrite length_drop. replace (Z.of_nat (length src - Z.to_nat m)) with (n - m) by lia.
    rewrite Hlack. unfold lacking. destruct (decide (slots s v !!! Z.to_nat (off / BSIZE) = 0)); cbn [length] in Hfree; lia.
  - rewrite length_drop. lia.
  - intros off' s' (-> & v' & I' & E' & W' & V' & V3 & M3 & K3). rewrite length_drop in *. split; [lia|]. exists v'.
    split; [rewrite I', I2; apply list_insert_insert_eq|]. split; [eapply evolved_trans; eassumption|].
    split; [|split; [|split; [rewrite V3, V2; reflexivity|split; [eapply meta_trans; [apply E2|exact M2|exact M3]|]]]].
    + rewrite <- (take_drop (Z.to_nat m) src). eapply blocks_written_trans; [exact Ho|exact W2|]. rewrite Hlt, Z2Nat.id by lia. exact W'.
    + intros Hz. unfold lacking in Hz. rewrite filter_cons in Hz. destruct (decide _) as [?|Hnz]; [discriminate|].
      destruct (bm_old _ _ _ _ _ _ _ B Hnz) as (_ & -> & _). apply V'.
      replace (Z.of_nat (length src - Z.to_nat m)) with (n - m) by lia. rewrite Hlack. exact Hz.
    + intros ks Hnd Hks. rewrite touched_step in Hks by lia. fold m in Hks.
      replace (Z.of_nat (length src - Z.to_nat m)) with (n - m) in K3 by lia.
      pose proof (K3 ks Hnd ltac:(intros k Hk; apply Hks; right; exact Hk)) as H3.
      pose proof (room_round s v s2 v1 _ b ks S2 ltac:(rewrite (length_slots s v O); exact Hbn) ltac:(lia)
        ltac:(intros Hz; apply (bm_old _ _ _ _ _ _ _ B Hz)) Hnd ltac:(apply Hks; left) N2). lia.
Qed.

(** ** Inodes on the disk *)

Definition dinode (s : fs) (i : Z) : list Z := window (dinode_off i) 64 (blk s (IBLOCK i (sb s))).

Lemma iblock_range s i : formatted ds s -> 0 <= i < ninodes (sb s) ->
  inodestart (sb s) <= IBLOCK i (sb s) < bmapstart (sb s) /\ (dinode_off i + 64 <= 512)%nat.
Proof.
  intros F Hi. destruct (f_geometry _ _ F). unfold IBLOCK, dinode_off.
  pose proof (Z.div_pos i IPB ltac:(lia) ltac:(reflexivity)).
  pose proof (Z.div_le_mono i (ninodes (sb s) - 1) IPB ltac:(reflexivity) ltac:(lia)).
  pose proof (Z.mod_pos_bound i IPB ltac:(reflexivity)) as Hm. change IPB with 8 in *. lia.
Qed.

Lemma length_concat_words (l : list Z) : length (concat (le_bytes 4 <$> l)) = (4 * length l)%nat.
Proof. induction l as [|x l IH]; [reflexivity|]. rewrite fmap_cons. cbn [concat length]. rewrite length_app, length_le_bytes, IH. lia. Qed.

Lemma encode_length v : length (addrs v) = 13%nat -> length (encode_dinode v) = 64%nat.
Proof. intros H. unfold encode_dinode. rewrite !length_app, !length_le_bytes, length_concat_words, H. reflexivity. Qed.

Lemma encode_bytes v : Forall is_byte (encode_dinode v).
Proof.
  unfold encode_dinode. rewrite !Forall_app. repeat (split; [apply le_bytes_byte|]).
  apply Forall_concat, Forall_fmap, Forall_true. intros x. apply le_bytes_byte.
Qed.

Lemma dinode_other s i j d : formatted ds s -> 0 <= i < ninodes (sb s) -> 0 <= j < ninodes (sb s) -> i <> j -> length d = 64%nat ->
  dinode (wr (IBLOCK i (sb s)) (splice (dinode_off i) d (blk s (IBLOCK i (sb s)))) s) j = dinode s j.
Proof.
  intros F Hi Hj Hne Hd. destruct (iblock_range s i F Hi) as [Hri Hoi]. destruct (iblock_range s j F Hj) as [Hrj Hoj].
  pose proof (meta_bounds s F). pose proof (f_length _ _ F) as Hl. unfold dinode. cbn [sb wr].
  rewrite blk_wr by lia. destruct (decide _) as [E|E]; [|reflexivity]. rewrite E.
  assert (Hb : is_block (blk s (IBLOCK i (sb s)))) by (apply blk_block; [exact F|lia]).
  apply window_other; [rewrite (proj1 Hb); lia|]. unfold dinode_off in *. unfold IBLOCK in E.
  pose proof (Z.div_mod i IPB ltac:(discriminate)). pose proof (Z.div_mod j IPB ltac:(discriminate)).
  pose proof (Z.mod_pos_bound i IPB ltac:(reflexivity)). pose proof (Z.mod_pos_bound j IPB ltac:(reflexivity)). rewrite Hd. nia.
Qed.

Lemma wp_iupdate s ip v (Q : unit -> fs -> Prop) : formatted ds s -> icache s !! ip = Some v -> dev v = 1 ->
  0 <= inum v < ninodes (sb s) -> length (addrs v) = 13%nat ->
  (forall s', formatted ds s' -> sb s' = sb s -> icache s' = icache s -> dinode s' (inum v) = encode_dinode v ->
     (forall j, 0 <= j < ninodes (sb s) -> j <> inum v -> dinode s' j = dinode s j) ->
     (forall c, ds <= c -> blk s' c = blk s c) -> (forall c, 0 <= c < size (sb s) -> used s' c = used s c) -> Q tt s') ->
  wp (iupdate ip) Q s.
Proof.
  intros F Hv Hdev Hi Hlen HQ. destruct (iblock_range s _ F Hi) as [Hr Ho]. pose proof (meta_bounds s F). pose proof (f_length _ _ F) as Hl.
  pose proof (encode_length v Hlen) as He. unfold iupdate. apply wp_bind. eapply wp_get_inode; [exact Hv|]. apply wp_bind. wp_step.
  rewrite Hdev. apply wp_bind, wp_fs_bread; [exact F|lia|]. apply wp_log_write.
  assert (Hb : is_block (blk s (IBLOCK (inum v) (sb s)))) by (apply blk_block; [exact F|lia]).
  apply HQ; try reflexivity.
  - apply formatted_wr; [exact F|lia|lia|]. split; [rewrite length_splice by (rewrite He, (proj1 Hb); lia); apply Hb|].
    apply Forall_splice; [apply encode_bytes|apply Hb].
  - unfold dinode. cbn [wr sb]. rewrite blk_wr by lia. rewrite decide_True by reflexivity.
    apply window_same; [exact He|rewrite (proj1 Hb); lia].
  - intros j Hj Hne. apply dinode_other; try assumption. congruence.
  - intros c Hc. rewrite blk_wr by lia. apply decide_False. lia.
  - intros c Hc. apply used_wr; [exact F|lia|lia|exact Hc].
Qed.

(** ** Files *)

Record regular (s : fs) (v : inode) : Prop := {
  rg_owns : owns s v;
  rg_size : 0 <= isize v <= MAXFILE * BSIZE;
  rg_has : forall o, 0 <= o < isize v -> has s v o;
  rg_type : itype v <> T_DEV;
  rg_inum : 0 <= inum v < ninodes (sb s);
}.
Definition content (s : fs) (v : inode) : list Z := fbyte s v <$> seqZ 0 (isize v).

Lemma length_content s v : 0 <= isize v -> Z.of_nat (length (content s v)) = isize v.
Proof. intros H. unfold content. rewrite length_fmap, length_seqZ. lia. Qed.

Lemma lookup_content s v i : (i < Z.to_nat (isize v))%nat -> content s v !! i = Some (fbyte s v (Z.of_nat i)).
Proof. intros Hi. unfold content. rewrite list_lookup_fmap, lookup_seqZ_lt by lia. reflexivity. Qed.

Lemma window_content s v off n : 0 <= off -> 0 <= n -> off + n <= isize v ->
  fbyte s v <$> seqZ off n = window (Z.to_nat off) (Z.to_nat n) (content s v).
Proof.
  intros Ho Hn Hs. apply list_eq. intros i. destruct (decide (i < Z.to_nat n)%nat) as [Hi|Hi].
  - rewrite lookup_window, list_lookup_fmap, lookup_seqZ_lt, lookup_content by lia. cbn. do 2 f_equal. lia.
  - rewrite !lookup_ge_None_2; [reflexivity| |].
    + rewrite length_window; [lia|]. pose proof (length_content s v). lia.
    + rewrite length_fmap, length_seqZ. lia.
Qed.

Lemma max_u32 : MAXFILE * BSIZE < 4294967296.
Proof. reflexivity. Qed.

Lemma wp_readi dr s ip v off n : formatted ds s -> icache s !! ip = Some v -> regular s v -> 0 <= off <= isize v -> 0 <= n ->
  off + n < 4294967296 ->
  wp (readi dr ip off n) (fun r s' => s' = s /\ r = Some (take (Z.to_nat n) (drop (Z.to_nat off) (content s v)))) s.
Proof.
  intros F Hv R Hoff Hn Hw. pose proof (rg_size _ _ R) as Hs. unfold readi. apply wp_bind. eapply wp_get_inode; [exact Hv|].
  rewrite (proj2 (Z.eqb_neq _ _) (rg_type _ _ R)). rewrite u32_id by (unfold is_u32; lia).
  rewrite (proj2 (Z.ltb_ge (isize v) off)), (proj2 (Z.ltb_ge (off + n) off)) by lia. cbn [orb].
  set (n' := if isize v <? off + n then isize v - off else n).
  assert (Hn' : 0 <= n' /\ off + n' <= isize v /\ n' = Z.min n (isize v - off)) by (unfold n'; destruct (isize v <? off + n) eqn:E; lia).
  apply wp_bind. eapply wp_mono; [apply (wp_read_loop (Z.to_nat n') s ip v off n' F (rg_owns _ _ R) Hv)|]; try lia.
  { intros o Ho. apply (rg_has _ _ R). lia. }
  intros l s' [-> ->]. wp_step. split; [reflexivity|]. f_equal. rewrite window_content by lia. unfold window.
  pose proof (length_content s v (proj1 Hs)) as Hl. destruct (decide (n <= isize v - off)) as [Hle|Hgt].
  - f_equal. lia.
  - rewrite !take_ge; [reflexivity| |]; rewrite length_drop; lia.
Qed.

Lemma content_written s v s' v' src off : 0 <= off <= isize v -> 0 <= isize v -> off + Z.of_nat (length src) <= MAXFILE * BSIZE ->
  isize v <= MAXFILE * BSIZE -> (forall o, 0 <= o < isize v -> has s v o) -> written src off s v s' v' ->
  isize v' = Z.max (isize v) (off + Z.of_nat (length src)) ->
  content s' v' = take (Z.to_nat off) (content s v) ++ src ++ drop (Z.to_nat off + length src) (content s v).
Proof.
  intros Hoff H0 Hmax Hs Hh W Hsz. pose proof (length_content s v H0) as Hl.
  apply list_eq. intros i. destruct (decide (i < Z.to_nat (isize v'))%nat) as [Hi|Hi].
  - rewrite lookup_content by exact Hi. destruct (W (Z.of_nat i)) as [_ E]; [lia| |].
    { destruct (decide (Z.of_nat i < isize v)); [left; apply Hh; lia|right; lia]. }
    rewrite E. destruct (decide (off <= Z.of_nat i < off + Z.of_nat (length src))) as [Hin|Hin].
    + rewrite lookup_app_r, length_take, lookup_app_l by (rewrite ?length_take; lia).
      rewrite list_lookup_lookup_total_lt by lia. do 2 f_equal. lia.
    + destruct (decide (Z.of_nat i < off)) as [Hlo|Hhi].
      * rewrite lookup_app_l, lookup_take_lt by (rewrite ?length_take; lia). symmetry. apply lookup_content. lia.
      * rewrite lookup_app_r, length_take, lookup_app_r, lookup_drop by (rewrite ?length_take; lia). symmetry.
        rewrite <- lookup_content with (s := s) by lia. f_equal. lia.
  - rewrite !lookup_ge_None_2; [reflexivity| |].
    + rewrite !length_app, length_take, length_drop. lia.
    + pose proof (length_content s' v'). lia.
Qed.

Lemma dinode_meta s s' j : formatted ds s -> sb s' = sb s -> meta_same s s' -> 0 <= j < ninodes (sb s) -> dinode s' j = dinode s j.
Proof.
  intros F E M Hj. unfold dinode. rewrite E. destruct (iblock_range s j F Hj). pose proof (meta_bounds s F).
  rewrite M by lia. reflexivity.
Qed.

(** A step that leaves the data blocks and the map alone and changes the inode's metadata only. *)
Lemma evolved_meta s v s' v' : owns s v -> formatted ds s' -> sb s' = sb s -> addrs v' = addrs v -> dev v' = dev v ->
  (forall c, ds <= c -> blk s' c = blk s c) -> (forall c, 0 <= c < size (sb s) -> used s' c = used s c) ->
  evolved s v s' v' /\ slots s' v' = slots s v /\ (forall o, fbyte s' v' o = fbyte s v o \/ slots s v !!! Z.to_nat (o / BSIZE) < ds).
Proof.
  intros O F E Ea Ed Hb Hu. assert (Hi : ind v' = ind v) by (unfold ind; rewrite Ea; reflexivity).
  pose proof (meta_bounds s' F) as Hm. rewrite E in Hm.
  assert (Hs : slots s' v' = slots s v).
  { unfold slots. rewrite Hi, Ea. destruct (ind v =? 0) eqn:E0; [reflexivity|]. apply Z.eqb_neq in E0.
    destruct (ow_used _ _ O (ind v) ltac:(left) E0). rewrite Hb by lia. reflexivity. }
  split; [|split; [exact Hs|]].
  - constructor; try assumption.
    + destruct O as [O1 O2 O3 O4]. constructor; [congruence|congruence|unfold pointers; rewrite Hs, Hi; exact O3|].
      unfold pointers. rewrite Hs, Hi, E. intros c Hc Hc0. destruct (O4 c Hc Hc0). rewrite Hu by lia. auto.
    + intros c Hc _ _. apply Hb. lia.
    + intros c Hc Hc'. rewrite Hu by exact Hc. exact Hc'.
    + unfold pointers. rewrite Hs, Hi. auto.
    + intros k _ _. rewrite Hs. reflexivity.
  - intros o. destruct (decide (slots s v !!! Z.to_nat (o / BSIZE) < ds)) as [Hlt|Hge]; [right; exact Hlt|left].
    unfold fbyte. rewrite Hs, Hb by lia. reflexivity.
Qed.

(** What [writei] promises: the inode and the state afterwards. *)
Record wrote (ip : nat) (src : list Z) (off : Z) (s : fs) (v : inode) (s' : fs) (v' : inode) : Prop := {
  wo_icache : icache s' = <[ip := v']> (icache s);
  wo_evolved : evolved s v s' v';
  wo_regular : regular s' v';
  wo_content : content s' v' = take (Z.to_nat off) (content s v) ++ src ++ drop (Z.to_nat off + length src) (content s v);
  wo_meta : v' = set_size (isize v') (set_addrs (addrs v') v);
  wo_others : forall j, 0 <= j < ninodes (sb s) -> j <> inum v -> dinode s' j = dinode s j;
  wo_disk : dinode s (inum v) = encode_dinode v -> dinode s' (inum v) = encode_dinode v';
  wo_room : room_kept off (Z.of_nat (length src)) s v s' v';
}.

Lemma lacking_zero s v off n : 0 <= off -> (forall o, off <= o < off + n -> has s v o) -> lacking s v (touched off n) = 0%nat.
Proof.
  intros Ho Hh. unfold lacking. destruct (filter _ _) as [|k l] eqn:E; [reflexivity|]. exfalso.
  assert (Hk : k ∈ filter (fun k => slots s v !!! k = 0) (touched off n)) by (rewrite E; left).
  apply list_elem_of_filter in Hk as [Hz Hk]. unfold touched in Hk. destruct (n <=? 0) eqn:En; [inversion Hk|].
  apply Z.leb_gt in En. apply elem_of_seq in Hk. pose proof (Z.div_pos off BSIZE Ho ltac:(reflexivity)) as Hq.
  pose proof (Z.div_le_mono off (off + n - 1) BSIZE ltac:(reflexivity) ltac:(lia)) as Hle.
  pose proof (Z.mul_div_le (off + n - 1) BSIZE ltac:(reflexivity)) as Hub.
  pose proof (Z.mul_succ_div_gt off BSIZE ltac:(reflexivity)) as Hlb.
  set (o := Z.max off (BSIZE * Z.of_nat k)). assert (Eo : o / BSIZE = Z.of_nat k).
  { destruct (decide (Z.of_nat k = off / BSIZE)) as [Ek|Hne].
    - unfold o. rewrite Ek. pose proof (Z.mul_div_le off BSIZE ltac:(reflexivity)). rewrite Z.max_l by lia. reflexivity.
    - unfold o. rewrite Z.max_r by (unfold BSIZE in *; nia). rewrite Z.mul_comm. apply Z.div_mul. discriminate. }
  apply (Hh o); [unfold o, BSIZE in *; nia|]. rewrite Eo, Nat2Z.id. exact Hz.
Qed.

Lemma wp_writei dw s ip v src off : formatted ds s -> icache s !! ip = Some v -> regular s v -> 0 <= off <= isize v ->
  off + Z.of_nat (length src) <= MAXFILE * BSIZE -> Forall is_byte src ->
  (2 * lacking s v (touched off (Z.of_nat (length src))) <= nfree s)%nat ->
  wp (writei dw ip src off) (fun r s' => r = Some (Z.of_nat (length src)) /\ exists v', wrote ip src off s v s' v') s.
Proof.
  intros F Hv R Hoff Hmax Hby Hfree. pose proof (rg_size _ _ R) as Hs. pose proof max_u32 as Hu.
  unfold writei. set (n := Z.of_nat (length src)) in *. apply wp_bind. eapply wp_get_inode; [exact Hv|].
  rewrite (proj2 (Z.eqb_neq _ _) (rg_type _ _ R)). rewrite u32_id by (unfold is_u32; lia).
  rewrite (proj2 (Z.ltb_ge (isize v) off)), (proj2 (Z.ltb_ge (off + n) off)), (proj2 (Z.ltb_ge _ (off + n))) by lia. cbn [orb].
  apply wp_bind. eapply wp_mono; [apply (wp_write_loop (length src) s ip v src off F (rg_owns _ _ R) Hv)|]; try (assumption || lia).
  intros off' s1 (-> & v1 & I1 & E1 & W1 & V1 & Vs & M1 & K1). fold n in V1, W1, K1 |- *.
  pose proof (lookup_lt_Some _ _ _ Hv) as Hip.
  assert (Hv1 : icache s1 !! ip = Some v1) by (rewrite I1; apply list_lookup_insert_eq, Hip).
  assert (Ed : dev v1 = dev v) by (rewrite Vs; reflexivity). assert (Ei : inum v1 = inum v) by (rewrite Vs; reflexivity).
  assert (Et : itype v1 = itype v) by (rewrite Vs; reflexivity). assert (Es : isize v1 = isize v) by (rewrite Vs; reflexivity).
  apply wp_bind. eapply wp_get_inode; [exact Hv1|]. rewrite Es.
  destruct ((0 <? n) && (isize v <? off + n)) eqn:Eg.
  - apply andb_true_iff in Eg as [En Eg]. apply Z.ltb_lt in En, Eg. set (v2 := set_size (off + n) v1).
    apply wp_bind, wp_bind, wp_put_inode. set (s2 := with_inode ip v2 s1).
    assert (Hv2 : icache s2 !! ip = Some v2) by (cbn; apply list_lookup_insert_eq; rewrite I1, length_insert; exact Hip).
    pose proof (formatted_inode ip v2 s1 (ev_formatted _ _ _ _ E1)) as F2. fold s2 in F2.
    eapply (wp_iupdate s2 ip v2 _ F2 Hv2); [exact (eq_trans Ed (ow_dev _ _ (rg_owns _ _ R)))|cbn; rewrite (ev_sb _ _ _ _ E1), Ei; apply R|apply (ev_owns _ _ _ _ E1)|].
    intros s3 F3 B3 I3 D3 O3 K3 U3. wp_step. split; [reflexivity|]. exists v2.
    destruct (evolved_meta s1 v1 s3 v2 (ev_owns _ _ _ _ E1) F3 B3 eq_refl eq_refl K3 U3) as (E3 & S3 & B3').
    assert (W3 : written src off s v s3 v2).
    { intros o Ho Hc. destruct (W1 o Ho Hc) as [A1 A2]. split; [unfold has; rewrite S3; exact A1|]. rewrite <- A2.
      destruct (B3' o) as [E|E]; [exact E|]. destruct (block_index o Ho) as [Hk _].
      destruct (slot_data s1 v1 _ (ev_owns _ _ _ _ E1) Hk A1) as [Hr _]. lia. }
    constructor.
    + rewrite I3. cbn. rewrite I1. apply list_insert_insert_eq.
    + eapply evolved_trans; eassumption.
    + constructor; [apply E3|cbn; lia| |cbn; rewrite Et; apply R|cbn; rewrite B3; cbn; rewrite (ev_sb _ _ _ _ E1), Ei; apply R].
      intros o Ho. cbn in Ho. apply W3; [lia|]. destruct (decide (o < isize v)); [left; apply R; lia|right; lia].
    + apply content_written; try assumption; try lia; [apply R|cbn; lia].
    + unfold v2. rewrite Vs. reflexivity.
    + intros j Hj Hne. rewrite O3; [|cbn; rewrite (ev_sb _ _ _ _ E1); exact Hj|cbn; rewrite Ei; exact Hne].
      apply (dinode_meta s s1 j F (ev_sb _ _ _ _ E1) M1 Hj).
    + intros _. replace (inum v) with (inum v2) by exact Ei. exact D3.
    + intros ks Hnd Hks. rewrite (nfree_ext s1 s3 B3 U3), (lacking_ext s1 v1 s3 v2) by (intros k _; rewrite S3; reflexivity). apply K1; assumption.
  - assert (Hle : off + n <= isize v \/ n = 0) by (apply andb_false_iff in Eg as [Eg|Eg]; apply Z.ltb_ge in Eg; lia).
    assert (off + n <= isize v) as Hle' by lia.
    assert (Ev : v1 = v) by (apply V1, lacking_zero; [lia|]; intros o Ho; apply R; lia). clear Vs V1. subst v1.
    apply wp_bind. wp_step. wp_step. split; [reflexivity|]. exists v. constructor.
    + exact I1.
    + exact E1.
    + constructor; try apply R; [apply E1| |rewrite (ev_sb _ _ _ _ E1); apply R].
      intros o Ho. apply W1; [lia|]. left. apply R, Ho.
    + apply content_written; try assumption; try lia. apply R.
    + destruct v; reflexivity.
    + intros j Hj _. apply (dinode_meta s s1 j F (ev_sb _ _ _ _ E1) M1 Hj).
    + intros D. rewrite <- D. apply (dinode_meta s s1 _ F (ev_sb _ _ _ _ E1) M1), R.
    + exact K1.
Qed.

(** Another file, none of whose blocks is one of [v]'s, keeps its blocks and its bytes. *)
Definition disjoint (s : fs) (v w : inode) : Prop := forall c, c <> 0 -> c ∈ pointers s v -> c ∉ pointers s w.

Lemma other_file s v s' v' w : evolved s v s' v' -> formatted ds s -> regular s w -> disjoint s v w ->
  regular s' w /\ content s' w = content s w /\ disjoint s' v' w.
Proof.
  intros E F R D. destruct (rg_owns _ _ R) as [O1 O2 O3 O4]. pose proof (meta_bounds s F) as Hm.
  assert (Hblk : forall c, c ∈ pointers s w -> c <> 0 -> blk s' c = blk s c).
  { intros c Hc Hc0. destruct (O4 c Hc Hc0) as [Hr Hu]. apply (ev_same _ _ _ _ E); [exact Hr|exact Hu|].
    intros Hin. exact (D c Hc0 Hin Hc). }
  assert (Hs : slots s' w = slots s w) by (apply slots_ext; intros Hi; apply Hblk; [left|exact Hi]).
  assert (Hfb : forall o, 0 <= o < isize w -> fbyte s' w o = fbyte s w o).
  { intros o Ho. pose proof (rg_size _ _ R). destruct (block_index o ltac:(lia)) as [Hk _]. pose proof (rg_has _ _ R o Ho) as Hh.
    apply fbyte_same; [lia|rewrite Hs; reflexivity|]. apply Hblk; [|exact Hh].
    right. exact (list_elem_of_lookup_2 _ _ _ (slot_lookup s w _ (rg_owns _ _ R) Hk)). }
  split; [|split].
  - constructor; try apply R.
    + constructor; [exact O1|exact O2|unfold pointers; rewrite Hs; exact O3|].
      unfold pointers. rewrite Hs, (ev_sb _ _ _ _ E). intros c Hc Hc0. destruct (O4 c Hc Hc0). split; [assumption|].
      apply (ev_used _ _ _ _ E); [lia|assumption].
    + intros o Ho. unfold has. rewrite Hs. apply R, Ho.
    + rewrite (ev_sb _ _ _ _ E). apply R.
  - unfold content. apply list_fmap_ext. intros i o Hi. apply lookup_seqZ in Hi. apply Hfb. lia.
  - intros c Hc0 Hin Hw. unfold pointers in Hw. rewrite Hs in Hw. destruct (ev_new _ _ _ _ E c Hin Hc0) as [Hv|Hf].
    + exact (D c Hc0 Hv Hw).
    + destruct (O4 c Hw Hc0) as [_ Hu]. congruence.
Qed.
End formatted.
End FsFacts.

Module FsProps.
Import Fs FsFacts.

(** C6: The contents of files.  On a formatted disk, [writei] of bytes that start within the
    file and end within the largest file size, with enough free blocks for the blocks the file
    lacks, returns the number of bytes; afterwards the file is the old one overwritten at that
    offset (and longer where the write goes past its end), every [readi] of it returns exactly the
    bytes of that content, the disk is still formatted, the inode on the disk is up to date when it
    was before, no other inode on the disk has changed, and every other file that shares no block
    with it has the content it had and still shares none. *)
Theorem file_write_read ds dr dw s ip v src off : formatted ds s -> icache s !! ip = Some v -> regular ds s v ->
  0 <= off <= isize v -> off + Z.of_nat (length src) <= MAXFILE * BSIZE -> Forall is_byte src ->
  (2 * lacking s v (touched off (Z.of_nat (length src))) <= nfree s)%nat ->
  let after := take (Z.to_nat off) (content s v) ++ src ++ drop (Z.to_nat off + length src) (content s v) in
  wp (writei dw ip src off) (fun r s' => r = Some (Z.of_nat (length src)) /\ exists v',
    icache s' = <[ip := v']> (icache s) /\ formatted ds s' /\ regular ds s' v' /\ content s' v' = after /\
    (forall off2 n2, 0 <= off2 <= isize v' -> 0 <= n2 -> off2 + n2 < 2 ^ 32 ->
       wp (readi dr ip off2 n2) (fun r2 s2 => s2 = s' /\ r2 = Some (take (Z.to_nat n2) (drop (Z.to_nat off2) after))) s') /\
    (dinode s (inum v) = encode_dinode v -> dinode s' (inum v) = encode_dinode v') /\
    (forall j, 0 <= j < ninodes (sb s) -> j <> inum v -> dinode s' j = dinode s j) /\
    (forall w, regular ds s w -> disjoint s v w -> regular ds s' w /\ content s' w = content s w /\ disjoint s' v' w)) s.
Proof.
  intros F Hv R Hoff Hmax Hby Hfree after.
  eapply wp_mono; [apply (wp_writei ds dw s ip v src off F Hv R Hoff Hmax Hby Hfree)|].
  intros r s' (-> & v' & [W1 W2 W3 W4 W5 W6 W7 _]). split; [reflexivity|]. exists v'.
  split; [exact W1|]. split; [apply W2|]. split; [exact W3|]. split; [exact W4|]. split; [|split; [exact W7|split; [exact W6|]]].
  - intros off2 n2 Ho Hn Hw. unfold after. rewrite <- W4. apply (wp_readi ds dr s' ip v'); try assumption; [apply W2|].
    rewrite W1. apply list_lookup_insert_eq, (lookup_lt_Some _ _ _ Hv).
  - intros w Rw D. apply (other_file ds s v s' v' w W2 F Rw D).
Qed.

(** A disk of twelve blocks with one file of three bytes. *)
Definition tiny_sb : superblock := Superblock 12 8 8 0 2 2 3.
Definition tiny_file : inode := Inode 1 1 1 true true 2 0 0 1 3 (4 :: replicate 12 0).
Definition tiny : fs :=
  MkFs [zeros; put_word 24 3 (put_word 20 2 (put_word 16 2 (put_word 8 8 (put_word 4 8 (put_word 0 12 zeros)))));
        zeros; <[0%nat := 31]> zeros; splice 0 [104; 105; 33] zeros; zeros; zeros; zeros; zeros; zeros; zeros; zeros]
       tiny_sb [tiny_file].

Lemma tiny_formatted : formatted 4 tiny.
Proof.
  pose proof zeros_block as Z0. constructor.
  - constructor; vm_compute; first [reflexivity|discriminate].
  - reflexivity.
  - cbn [tiny blocks]. repeat (apply Forall_cons; split); try apply Forall_nil_2; try exact Z0.
    + repeat (apply put_word_block; [|lia]). exact Z0.
    + split; [reflexivity|]. apply Forall_insert; [apply Z0|unfold is_byte; lia].
    + split; [reflexivity|]. apply Forall_splice; [|apply Z0]. repeat constructor; unfold is_byte; lia.
  - intros b Hb. assert (b = 0 \/ b = 1 \/ b = 2 \/ b = 3) as [->|[->|[->| ->]]] by lia; reflexivity.
  - reflexivity.
Qed.

Lemma tiny_regular : regular 4 tiny tiny_file.
Proof.
  constructor.
  - constructor; [reflexivity|reflexivity| |].
    + intros i j x Hi Hj Hx. change (pointers tiny tiny_file) with (0 :: 4 :: replicate 139 0) in Hi, Hj.
      destruct i as [|[|i]]; [cbn in Hi; congruence| |]; destruct j as [|[|j]]; [cbn in Hj; congruence|reflexivity| |cbn in Hj; congruence| |].
      * apply lookup_replicate in Hj as [-> _]. contradiction.
      * apply lookup_replicate in Hi as [-> _]. contradiction.
      * apply lookup_replicate in Hi as [-> _]. contradiction.
    + intros b Hb Hb0. change (pointers tiny tiny_file) with (0 :: 4 :: replicate 139 0) in Hb.
      apply elem_of_cons in Hb as [->|Hb]; [contradiction|]. apply elem_of_cons in Hb as [->|Hb].
      * split; [cbn; lia|reflexivity].
      * apply elem_of_replicate in Hb as [-> _]. contradiction.
  - split; vm_compute; discriminate.
  - intros o Ho. cbn in Ho. assert (o = 0 \/ o = 1 \/ o = 2) as [->|[->| ->]] by lia; discriminate.
  - discriminate.
  - cbn. lia.
Qed.

Lemma file_write_read_witness : exists s' v',
  writei (fun _ => None) 0 (replicate 600 7) 2 tiny = Ok (Some 600, s') /\ icache s' = [v'] /\
  content s' v' = [104; 105] ++ replicate 600 7.
Proof.
  destruct (file_write_read 4 (fun _ => None) (fun _ => None) tiny 0 tiny_file (replicate 600 7) 2) as (r & s' & E & -> & v' & H1 & _ & _ & H2 & _).
  - exact tiny_formatted.
  - reflexivity.
  - exact tiny_regular.
  - cbn. lia.
  - rewrite length_replicate. vm_compute. discriminate.
  - apply Forall_replicate. unfold is_byte. lia.
  - rewrite length_replicate. vm_compute. lia.
  - exists s', v'. split; [exact E|]. split; [exact H1|]. rewrite H2. reflexivity.
Defined.
End FsProps.
