(* ===== verification/Dir.v ===== *)
(** Directories and paths: what the operations of fs.c on directory entries and path
    names (modelled in Fs.v) do, as operations on finite maps from names and as splitting
    of strings. *)

From S2P Require Import Prelude Fs.

Module DirFacts.
Import Fs FsFacts.

(** ** Names *)

(** The name an array of [n] characters stands for. *)
Fixpoint canon (n : nat) (s : list Z) : list Z :=
  match n, s with
  | Datatypes.S n', c :: s' => if c =? 0 then [] else c :: canon n' s'
  | _, _ => []
  end.

Lemma same_name_canon n s t : same_name n s t = true <-> canon n s = canon n t.
Proof.
  revert s t. induction n as [|n IH]; intros s t; [split; reflexivity|].
  destruct s as [|a s], t as [|b t]; cbn [same_name canon tail].
  - split; reflexivity.
  - change (0 =? 0) with true. cbn [orb]. rewrite Z.eqb_sym. destruct (b =? 0) eqn:E; split; congruence.
  - destruct (a =? 0) eqn:E; cbn [orb negb]; split; congruence.
  - destruct (a =? 0) eqn:Ea; cbn [orb].
    + apply Z.eqb_eq in Ea. subst a. rewrite Z.eqb_sym. destruct (b =? 0); split; congruence.
    + destruct (a =? b) eqn:Eab; cbn [negb].
      * apply Z.eqb_eq in Eab. subst b. rewrite Ea, IH. split; [intros ->; reflexivity|congruence].
      * split; [discriminate|]. apply Z.eqb_neq in Eab. destruct (b =? 0); congruence.
Qed.

Lemma canon_strncpy n t : canon n (strncpy n t) = canon n t.
Proof.
  revert t. induction n as [|n IH]; intros t; [reflexivity|]. cbn [strncpy].
  destruct t as [|c t]; [reflexivity|]. destruct (c =? 0) eqn:E; cbn [canon]; rewrite E; [reflexivity|]. rewrite IH. reflexivity.
Qed.

Lemma length_strncpy n t : length (strncpy n t) = n.
Proof.
  revert t. induction n as [|n IH]; intros t; [reflexivity|]. cbn [strncpy].
  destruct t as [|c t]; [apply length_replicate|]. destruct (c =? 0); [apply length_replicate|]. cbn [length]. rewrite IH. reflexivity.
Qed.

Lemma strncpy_bytes n t : Forall is_byte t -> Forall is_byte (strncpy n t).
Proof.
  revert t. induction n as [|n IH]; intros t Ht; [apply Forall_nil_2|]. cbn [strncpy].
  assert (Hz : Forall is_byte (replicate (Datatypes.S n) 0)) by (apply Forall_replicate; unfold is_byte; lia).
  destruct t as [|c t]; [exact Hz|]. destruct (c =? 0); [exact Hz|]. apply Forall_cons in Ht as [Hc Ht].
  apply Forall_cons. split; [exact Hc|apply IH, Ht].
Qed.

Definition name_of (s : list Z) : list Z := canon (Z.to_nat DIRSIZ) s.

Lemma namecmp_name s t : namecmp s t = true <-> name_of s = name_of t.
Proof. apply same_name_canon. Qed.

Lemma length_dirent i name : length (dirent i name) = 16%nat.
Proof. unfold dirent. rewrite length_app, length_le_bytes, length_strncpy. reflexivity. Qed.

Lemma dirent_inum i name : 0 <= i < 65536 -> de_inum (dirent i name) = i.
Proof.
  intros Hi. unfold de_inum, half, window, dirent. rewrite drop_0, take_app_length' by apply eq_sym, length_le_bytes.
  rewrite le_word_bytes. apply Z.mod_small. exact Hi.
Qed.

Lemma dirent_name i name : name_of (de_name (dirent i name)) = name_of name.
Proof. unfold de_name, dirent. rewrite drop_app_length' by apply eq_sym, length_le_bytes. apply canon_strncpy. Qed.

(** ** Directories as maps *)

Definition entry (c : list Z) (off : Z) : list Z := window (Z.to_nat off) 16 c.
Definition offsets (c : list Z) : list Z := steps (Z.of_nat (length c)) DIRENT.
Definition matches (nm : list Z) (e : list Z) : Prop := de_inum e <> 0 /\ name_of (de_name e) = name_of nm.
#[export] Instance matches_dec nm e : Decision (matches nm e) := and_dec _ _.

(** The inode number a directory with content [c] has for a name. *)
Definition found (nm : list Z) (c : list Z) : option Z :=
  (fun p => de_inum (entry c p.2)) <$> list_find (fun off => matches nm (entry c off)) (offsets c).

(** The size of a directory is a number of whole entries. *)
Definition whole (c : list Z) : Prop := Z.of_nat (length c) mod DIRENT = 0.

Lemma offsets_entry c off : whole c -> off ∈ offsets c -> 0 <= off /\ off mod DIRENT = 0 /\ off + 16 <= Z.of_nat (length c).
Proof.
  intros Hw Hin. apply list_elem_of_lookup in Hin as [k Hk]. apply lookup_steps in Hk as [-> Hk]; [|reflexivity].
  unfold whole, DIRENT in *. pose proof (Z.div_mod (Z.of_nat (length c)) 16 ltac:(lia)).
  split; [lia|]. split; [rewrite Z.mul_comm; apply Z.mod_mul; lia|]. lia.
Qed.

Lemma offsets_nth c k o : offsets c !! k = Some o -> o = 16 * Z.of_nat k.
Proof. intros H. apply lookup_steps in H as [-> _]; [reflexivity|reflexivity]. Qed.

Lemma length_offsets c : whole c -> 16 * Z.of_nat (length (offsets c)) = Z.of_nat (length c).
Proof.
  intros Hw. unfold offsets. rewrite length_steps. unfold whole, DIRENT in *.
  pose proof (Z.div_mod (Z.of_nat (length c)) 16 ltac:(lia)) as D. rewrite Hw in D.
  rewrite <- (Z.div_unique_pos (Z.of_nat (length c) + 16 - 1) 16 (Z.of_nat (length c) / 16) 15) by lia. lia.
Qed.

(** Replacing an entry, or adding one at the end. *)
Definition put_entry (off : Z) (e c : list Z) : list Z := take (Z.to_nat off) c ++ e ++ drop (Z.to_nat off + length e) c.

Lemma entry_put off e c o : length e = 16%nat -> whole c -> 0 <= off <= Z.of_nat (length c) -> off mod DIRENT = 0 ->
  0 <= o -> o mod DIRENT = 0 -> entry (put_entry off e c) o = if decide (o = off) then e else entry c o.
Proof.
  intros He Hw Hoff Hm Ho Hm'. unfold entry, put_entry. rewrite He.
  assert (Hl : length (take (Z.to_nat off) c) = Z.to_nat off) by (rewrite length_take; lia).
  pose proof (Z.div_mod o DIRENT ltac:(discriminate)). pose proof (Z.div_mod off DIRENT ltac:(discriminate)).
  pose proof (Z.div_mod (Z.of_nat (length c)) DIRENT ltac:(discriminate)). unfold whole, DIRENT in *.
  destruct (decide (o = off)) as [->|Hne].
  - unfold window. rewrite drop_app_length' by lia. apply take_app_length'. lia.
  - apply list_eq. intros i. destruct (decide (i < 16)%nat) as [Hi|Hi]; [|unfold window; rewrite !lookup_take_ge by lia; reflexivity].
    rewrite !lookup_window by exact Hi. destruct (decide (o < off)) as [Hlo|Hhi].
    + rewrite lookup_app_l, lookup_take_lt by lia. reflexivity.
    + rewrite lookup_app_r, lookup_app_r, lookup_drop by lia. f_equal. lia.
Qed.

Lemma length_put off e c : length e = 16%nat -> whole c -> 0 <= off <= Z.of_nat (length c) -> off mod DIRENT = 0 ->
  Z.of_nat (length (put_entry off e c)) = Z.max (Z.of_nat (length c)) (off + 16) /\ whole (put_entry off e c).
Proof.
  intros He Hw Hoff Hm. unfold whole, put_entry, DIRENT in *. rewrite He.
  assert (El : Z.of_nat (length (take (Z.to_nat off) c ++ e ++ drop (Z.to_nat off + 16) c)) = Z.max (Z.of_nat (length c)) (off + 16)).
  { rewrite !length_app, length_take, length_drop, He.
    pose proof (Z.div_mod off 16 ltac:(lia)). pose proof (Z.div_mod (Z.of_nat (length c)) 16 ltac:(lia)). lia. }
  split; [exact El|]. rewrite El. destruct (Z.max_spec (Z.of_nat (length c)) (off + 16)) as [[_ ->]|[_ ->]]; [|exact Hw].
  rewrite <- Zplus_mod_idemp_l, Hm. reflexivity.
Qed.

Lemma offsets_put off e c : length e = 16%nat -> whole c -> 0 <= off <= Z.of_nat (length c) -> off mod DIRENT = 0 ->
  offsets (put_entry off e c) = if decide (off = Z.of_nat (length c)) then offsets c ++ [off] else offsets c.
Proof.
  intros He Hw Hoff Hm. destruct (length_put off e c He Hw Hoff Hm) as [El _]. unfold offsets. rewrite El.
  unfold whole, DIRENT in *. pose proof (Z.div_mod off 16 ltac:(lia)). pose proof (Z.div_mod (Z.of_nat (length c)) 16 ltac:(lia)) as D.
  rewrite Hw in D. set (n := Z.of_nat (length c)) in *. destruct (decide (off = n)) as [->|Hne].
  - rewrite Z.max_r by lia. unfold steps.
    assert (E1 : (n + 16 - 1) / 16 = n / 16) by (symmetry; apply (Z.div_unique_pos _ _ _ 15); lia).
    assert (E2 : (n + 16 + 16 - 1) / 16 = n / 16 + 1) by (symmetry; apply (Z.div_unique_pos _ _ _ 15); lia).
    rewrite E1, E2, seqZ_app by lia. rewrite fmap_app. f_equal.
    change (seqZ (0 + n / 16) 1) with [0 + (0 + n / 16)]. cbn [fmap list_fmap]. f_equal. lia.
  - rewrite Z.max_l by lia. reflexivity.
Qed.

Lemma find_ext {A} (P Q : A -> Prop) `{forall x, Decision (P x)} `{forall x, Decision (Q x)} l :
  (forall x, x ∈ l -> P x <-> Q x) -> list_find P l = list_find Q l.
Proof.
  induction l as [|x l IH]; intros Hpq; [reflexivity|]. cbn [list_find].
  assert (Hx : P x <-> Q x) by (apply Hpq; left). rewrite IH by (intros y Hy; apply Hpq; right; exact Hy).
  destruct (decide (P x)), (decide (Q x)); tauto.
Qed.

Lemma find_only {A} (P : A -> Prop) `{forall x, Decision (P x)} l x : x ∈ l -> P x -> (forall y, y ∈ l -> P y -> y = x) ->
  exists i, list_find P l = Some (i, x).
Proof.
  intros Hx HP Hu. destruct (list_find P l) as [[i y]|] eqn:E.
  - exists i. apply list_find_Some in E as (Hy & HPy & _). rewrite (Hu y); [reflexivity|eapply list_elem_of_lookup_2, Hy|exact HPy].
  - apply list_find_None in E. rewrite Forall_forall in E. exfalso. exact (E x Hx HP).
Qed.

Lemma find_snoc {A} (P : A -> Prop) `{forall x, Decision (P x)} l x : ~ P x -> list_find P (l ++ [x]) = list_find P l.
Proof.
  intros Hx. induction l as [|y l IH]; cbn [app list_find].
  - destruct (decide (P x)); [contradiction|reflexivity].
  - destruct (decide (P y)); [reflexivity|]. rewrite IH. reflexivity.
Qed.

(** Linking a new name in a free place adds it to the map and changes nothing else. *)
Lemma found_put c off i name nm : whole c -> 0 <= off <= Z.of_nat (length c) -> off mod DIRENT = 0 -> 0 < i < 65536 ->
  (off = Z.of_nat (length c) \/ de_inum (entry c off) = 0) -> found name c = None ->
  found nm (put_entry off (dirent i name) c) = if decide (name_of nm = name_of name) then Some i else found nm c.
Proof.
  intros Hw Hoff Hm Hi Hfree Hnone. set (e := dirent i name). pose proof (length_dirent i name : length e = _) as He.
  assert (Hent : forall o, o ∈ offsets c \/ o = off -> entry (put_entry off e c) o = if decide (o = off) then e else entry c o).
  { intros o Ho. apply entry_put; try assumption; destruct Ho as [Ho|Ho]; try (subst; lia || assumption);
      apply (offsets_entry c o Hw) in Ho; tauto. }
  assert (Hold : forall o, o ∈ offsets c -> ~ matches name (entry c o)).
  { unfold found in Hnone. destruct (list_find _ (offsets c)) eqn:E; [discriminate|]. apply list_find_None in E.
    rewrite Forall_forall in E. exact E. }
  unfold found. rewrite (offsets_put off e c He Hw Hoff Hm).
  set (offs := if decide _ then _ else _).
  assert (Hoffs : forall o, o ∈ offs <-> o ∈ offsets c \/ o = off).
  { unfold offs. intros o. destruct (decide (off = _)) as [E|E]; [rewrite elem_of_app, list_elem_of_singleton; reflexivity|].
    split; [tauto|]. intros [Ho| ->]; [exact Ho|]. unfold offsets, steps. apply list_elem_of_fmap. exists (off / 16).
    unfold DIRENT in *. pose proof (Z.div_mod off 16 ltac:(lia)). split; [lia|]. apply elem_of_seqZ.
    split; [apply Z.div_pos; lia|]. unfold whole in Hw. pose proof (Z.div_mod (Z.of_nat (length c)) 16 ltac:(lia)).
    rewrite <- (Z.div_unique_pos (Z.of_nat (length c) + 16 - 1) 16 (Z.of_nat (length c) / 16) 15) by (unfold DIRENT in Hw; lia).
    unfold DIRENT in Hw. lia. }
  destruct (decide (name_of nm = name_of name)) as [En|En].
  - destruct (find_only (fun o => matches nm (entry (put_entry off e c) o)) offs off) as [k ->].
    + apply Hoffs. tauto.
    + rewrite Hent, decide_True by tauto. split; [unfold e; rewrite dirent_inum by lia; lia|]. unfold e. rewrite dirent_name. congruence.
    + intros y Hy [Hy1 Hy2]. apply Hoffs in Hy as [Hy|Hy]; [|exact Hy]. rewrite Hent in Hy1, Hy2 by tauto.
      destruct (decide (y = off)) as [Ey|Ey]; [exact Ey|]. exfalso. apply (Hold y Hy). split; [exact Hy1|congruence].
    + cbn. rewrite Hent, decide_True by tauto. unfold e. rewrite dirent_inum by lia. reflexivity.
  - assert (Hne : ~ matches nm e) by (intros [_ Hx]; unfold e in Hx; rewrite dirent_name in Hx; congruence).
    assert (Hfind : list_find (fun o => matches nm (entry (put_entry off e c) o)) offs =
                    list_find (fun o => matches nm (entry c o)) (offsets c)).
    { transitivity (list_find (fun o => matches nm (entry (put_entry off e c) o)) (offsets c)).
      - unfold offs. destruct (decide (off = _)); [|reflexivity]. apply find_snoc. rewrite Hent, decide_True by tauto. exact Hne.
      - apply find_ext. intros o Ho. rewrite Hent by tauto. destruct (decide (o = off)) as [->|]; [|reflexivity].
        split; [intros; contradiction|]. intros [H1 _]. exfalso. destruct Hfree as [Hf|Hf]; [|contradiction].
        apply (offsets_entry c off Hw) in Ho. lia. }
    rewrite Hfind. destruct (list_find _ (offsets c)) as [[k o]|] eqn:E; [|reflexivity]. cbn. f_equal. f_equal.
    apply list_find_Some in E as (Ho & HP & _). apply list_elem_of_lookup_2 in Ho. rewrite Hent by tauto.
    destruct (decide (o = off)) as [->|]; [|reflexivity]. exfalso. destruct HP as [H1 _]. destruct Hfree as [Hf|Hf]; [|contradiction].
    apply (offsets_entry c off Hw) in Ho. lia.
Qed.

(** ** The operations *)

(** No entry of the cache is in use for inode [i]. *)
Definition absent (s : fs) (d i : Z) : Prop := forall k u, icache s !! k = Some u -> ~ (0 < ref u /\ dev u = d /\ inum u = i).

(** A reference to inode [i] has been taken: a cached inode counts one more, or, if there is none, a
    free entry of the cache stands for it now. *)
Record got (s : fs) (d i : Z) (ip : nat) (s' : fs) : Prop := {
  gt_blocks : blocks s' = blocks s;
  gt_sb : sb s' = sb s;
  gt_inode : exists w w', icache s !! ip = Some w /\ icache s' = <[ip := w']> (icache s) /\ dev w' = d /\ inum w' = i /\
    (0 < ref w /\ w' = set_ref (ref w + 1) w \/
     ref w = 0 /\ w' = Inode d i 1 false false (itype w) (major w) (minor w) (nlink w) (isize w) (addrs w) /\ absent s d i);
}.

Definition has_room (s : fs) : Prop := exists k w, icache s !! k = Some w /\ ref w = 0.

Lemma wp_iget s d i : has_room s -> wp (iget d i) (fun ip s' => got s d i ip s') s.
Proof.
  intros (k & w & Hk & Hr). unfold iget. apply wp_bind. wp_step.
  destruct (list_find _ (icache s)) as [[ip v]|] eqn:E1.
  - apply list_find_Some in E1 as (Hv & (H1 & H2 & H3) & _). apply wp_bind, wp_put_inode. wp_step.
    constructor; [reflexivity|reflexivity|]. exists v, (set_ref (ref v + 1) v).
    repeat (split; [assumption || reflexivity|]). left. split; [exact H1|reflexivity].
  - destruct (list_find (fun v => ref v = 0) (icache s)) as [[ip v]|] eqn:E2.
    + apply list_find_Some in E2 as (Hv & H1 & _). apply wp_bind, wp_put_inode. wp_step.
      constructor; [reflexivity|reflexivity|]. eexists v, _.
      split; [exact Hv|]. split; [reflexivity|]. repeat (split; [reflexivity|]). right. split; [exact H1|]. split; [reflexivity|].
      intros j u Hj Hu. apply list_find_None in E1. rewrite Forall_forall in E1. apply (E1 u); [eapply list_elem_of_lookup_2, Hj|exact Hu].
    + apply list_find_None in E2. rewrite Forall_forall in E2. exfalso. apply (E2 w); [eapply list_elem_of_lookup_2, Hk|exact Hr].
Qed.

Section directory.
Context (ds : Z) (dr : Z -> option (nat -> Z -> K fs (option (list Z)))) (dw : Z -> option (nat -> list Z -> K fs (option Z))).

(** A directory. *)
Record directory (s : fs) (dp : nat) (v : inode) : Prop := {
  dy_formatted : formatted ds s;
  dy_inode : icache s !! dp = Some v;
  dy_regular : regular ds s v;
  dy_type : itype v = T_DIR;
  dy_whole : whole (content s v);
}.

Lemma wp_read_entry s dp v off : directory s dp v -> off ∈ offsets (content s v) ->
  wp (readi dr dp off DIRENT) (fun r s' => s' = s /\ r = Some (entry (content s v) off) /\ length (entry (content s v) off) = 16%nat) s.
Proof.
  intros D Hin. apply (offsets_entry _ _ (dy_whole _ _ _ D)) in Hin as (H0 & Hm & Hl).
  pose proof (rg_size _ _ _ (dy_regular _ _ _ D)) as Hs. pose proof (length_content s v (proj1 Hs)) as Hc.
  pose proof max_u32. eapply wp_mono; [apply (wp_readi ds dr s dp v off DIRENT); try apply D; [lia|discriminate|unfold DIRENT; lia]|].
  intros r s' [-> ->]. split; [reflexivity|]. split; [reflexivity|]. apply length_window. lia.
Qed.

Lemma wp_dirlookup_loop s dp v nm offs : directory s dp v -> has_room s -> (forall o, o ∈ offs -> o ∈ offsets (content s v)) ->
  wp (dirlookup_loop dr dp nm offs) (fun r s' =>
    match list_find (fun off => matches nm (entry (content s v) off)) offs with
    | None => r = None /\ s' = s
    | Some (_, off) => exists ip, r = Some (ip, off) /\ got s (dev v) (de_inum (entry (content s v) off)) ip s'
    end) s.
Proof.
  intros D Hroom. induction offs as [|off offs IH]; intros Hin; cbn [dirlookup_loop list_find].
  - wp_step. auto.
  - apply wp_bind. eapply wp_mono; [apply (wp_read_entry s dp v off D), Hin; left|]. intros r s1 (-> & -> & Hl).
    rewrite Hl. change (negb (Z.of_nat 16 =? DIRENT)) with false. cbn iota.
    specialize (IH (fun o Ho => Hin o (list_elem_of_further _ _ _ Ho))).
    destruct (de_inum (entry (content s v) off) =? 0) eqn:E0.
    + apply Z.eqb_eq in E0. rewrite decide_False by (intros [H _]; contradiction).
      eapply wp_mono; [exact IH|]. intros r s'. destruct (list_find _ offs) as [[j o]|]; auto.
    + apply Z.eqb_neq in E0. destruct (namecmp nm (de_name (entry (content s v) off))) eqn:En.
      * apply namecmp_name in En. rewrite decide_True by (split; [exact E0|congruence]).
        apply wp_bind. eapply wp_get_inode; [apply D|]. apply wp_bind. eapply wp_mono; [apply (wp_iget s _ _ Hroom)|].
        intros ip s' G. wp_step. exists ip. auto.
      * rewrite decide_False. { eapply wp_mono; [exact IH|]. intros r s'. destruct (list_find _ offs) as [[j o]|]; auto. }
        intros [_ Hn]. apply not_true_iff_false in En. apply En, namecmp_name. congruence.
Qed.

Lemma wp_dirlookup s dp v nm : directory s dp v -> has_room s ->
  wp (dirlookup dr dp nm) (fun r s' =>
    match found nm (content s v) with
    | None => r = None /\ s' = s
    | Some i => exists ip off, r = Some (ip, off) /\ got s (dev v) i ip s'
    end) s.
Proof.
  intros D Hroom. unfold dirlookup. apply wp_bind. eapply wp_get_inode; [apply D|]. rewrite (dy_type _ _ _ D).
  change (negb (T_DIR =? T_DIR)) with false. cbn iota. pose proof (rg_size _ _ _ (dy_regular _ _ _ D)) as Hs.
  rewrite <- (length_content s v (proj1 Hs)). fold (offsets (content s v)).
  eapply wp_mono; [apply (wp_dirlookup_loop s dp v nm (offsets (content s v)) D Hroom); auto|].
  intros r s'. unfold found. destruct (list_find _ _) as [[j o]|]; [|auto]. cbn. intros (ip & H). exists ip, o. exact H.
Qed.

Lemma wp_find_free s dp v offs : directory s dp v -> forall off0,
  (forall k o, offs !! k = Some o -> o = off0 + 16 * Z.of_nat k /\ o ∈ offsets (content s v)) ->
  wp (find_free dr dp offs off0) (fun r s' => s' = s /\
    (r ∈ offsets (content s v) /\ de_inum (entry (content s v) r) = 0 \/ r = off0 + 16 * Z.of_nat (length offs))) s.
Proof.
  intros D. induction offs as [|o offs IH]; intros off0 Hoffs; cbn [find_free length].
  - wp_step. split; [reflexivity|]. right. lia.
  - destruct (Hoffs 0%nat o eq_refl) as [Eo Ho]. apply wp_bind. eapply wp_mono; [apply (wp_read_entry s dp v o D Ho)|].
    intros r s1 (-> & -> & Hl). rewrite Hl. change (negb (Z.of_nat 16 =? DIRENT)) with false. cbn iota.
    destruct (de_inum _ =? 0) eqn:E0.
    + wp_step. split; [reflexivity|]. left. split; [exact Ho|]. apply Z.eqb_eq, E0.
    + eapply wp_mono; [apply (IH (o + DIRENT))|].
      * intros k o' Hk. destruct (Hoffs (Datatypes.S k) o' Hk) as [E1 E2]. split; [|exact E2]. unfold DIRENT. lia.
      * intros r s' [-> [H|H]]; (split; [reflexivity|]); [left; exact H|right]. unfold DIRENT in H. lia.
Qed.

(** A reference just taken is given back without more ado. *)
Lemma wp_iput_got s d i ip s' : got s d i ip s' -> wp (iput ip) (fun _ s2 => blocks s2 = blocks s /\ sb s2 = sb s) s'.
Proof.
  intros [G1 G2 (w & w' & Hw & Hic & _ & _ & Hcase)]. unfold iput. apply wp_bind.
  assert (Hw' : icache s' !! ip = Some w') by (rewrite Hic; apply list_lookup_insert_eq, (lookup_lt_Some _ _ _ Hw)).
  eapply wp_get_inode; [exact Hw'|].
  assert (E : (ref w' =? 1) && valid w' && (nlink w' =? 0) = false).
  { destruct Hcase as [[Hr ->]|(_ & -> & _)]; [|reflexivity]. cbn.
    rewrite (proj2 (Z.eqb_neq _ _)) by lia. reflexivity. }
  rewrite E. apply wp_bind. wp_step. apply wp_bind. eapply wp_get_inode; [exact Hw'|]. apply wp_put_inode. auto.
Qed.

Lemma touched_entry off : 0 <= off -> off mod DIRENT = 0 -> length (touched off 16) = 1%nat.
Proof.
  intros Ho Hm. unfold touched. cbn [Z.leb]. change (16 <=? 0) with false. cbn iota. rewrite length_seq.
  replace ((off + 16 - 1) / BSIZE) with (off / BSIZE); [lia|].
  pose proof (Z.div_mod off BSIZE ltac:(discriminate)) as D1. pose proof (Z.mod_pos_bound off BSIZE ltac:(reflexivity)) as D2.
  assert (D3 : (off mod BSIZE) mod DIRENT = 0) by (rewrite Z.mod_mod_divide; [exact Hm|exists 32; reflexivity]).
  pose proof (Z.div_mod (off mod BSIZE) DIRENT ltac:(discriminate)) as D4. rewrite D3 in D4. unfold BSIZE, DIRENT in *.
  apply (Z.div_unique_pos _ _ _ (off mod 512 + 15)); lia.
Qed.

Lemma wp_dirlink_new s dp v name i : directory s dp v -> has_room s -> found name (content s v) = None ->
  0 < i < 65536 -> Forall is_byte name -> isize v + 16 <= MAXFILE * BSIZE -> (2 <= nfree s)%nat ->
  wp (dirlink dr dw dp name i) (fun r s' => r = true /\ exists v', directory s' dp v' /\ icache s' = <[dp := v']> (icache s) /\
    evolved ds s v s' v' /\
    forall nm, found nm (content s' v') = if decide (name_of nm = name_of name) then Some i else found nm (content s v)) s.
Proof.
  intros D Hroom Hnone Hi Hby Hmax Hfree. pose proof (rg_size _ _ _ (dy_regular _ _ _ D)) as Hs.
  pose proof (length_content s v (proj1 Hs)) as Hlen. pose proof (dy_whole _ _ _ D) as Hw.
  unfold dirlink. apply wp_bind. eapply wp_mono; [apply (wp_dirlookup s dp v name D Hroom)|]. intros r s1. rewrite Hnone. intros [-> ->].
  apply wp_bind. eapply wp_get_inode; [apply D|]. rewrite <- Hlen. fold (offsets (content s v)).
  apply wp_bind. eapply wp_mono; [apply (wp_find_free s dp v (offsets (content s v)) D 0)|].
  { intros k o Hk. split; [rewrite (offsets_nth _ _ _ Hk); lia|eapply list_elem_of_lookup_2, Hk]. }
  intros off s1 [-> Hoff]. rewrite length_offsets in Hoff by exact Hw.
  assert (Hrange : 0 <= off <= Z.of_nat (length (content s v)) /\ off mod DIRENT = 0 /\
    (off = Z.of_nat (length (content s v)) \/ de_inum (entry (content s v) off) = 0)).
  { destruct Hoff as [[Hin H0]| ->]; [apply (offsets_entry _ _ Hw) in Hin; split; [lia|tauto]|].
    split; [lia|]. split; [exact Hw|]. left. lia. }
  destruct Hrange as (Hr1 & Hr2 & Hr3). set (e := dirent i name). pose proof (length_dirent i name : length e = _) as He.
  apply wp_bind. eapply wp_mono; [apply (wp_writei ds dw s dp v e off); try apply D|].
  - lia.
  - rewrite He. lia.
  - unfold e, dirent. apply Forall_app. split; [apply le_bytes_byte|apply strncpy_bytes, Hby].
  - rewrite He. change (Z.of_nat 16) with 16. unfold lacking. pose proof (touched_entry off (proj1 Hr1) Hr2) as Ht.
    pose proof (length_filter (fun k => slots s v !!! k = 0) (touched off 16)). lia.
  - intros r s' (-> & v' & [W1 W2 W3 W4 W5 W6 W7]). rewrite He. rewrite bool_decide_eq_true_2 by reflexivity. wp_step.
    split; [reflexivity|]. exists v'. assert (Hc : content s' v' = put_entry off e (content s v)) by exact W4. split; [|split; [exact W1|split; [exact W2|]]].
    + constructor; [apply W2|rewrite W1; apply list_lookup_insert_eq, (lookup_lt_Some _ _ _ (dy_inode _ _ _ D))|exact W3| |].
      * rewrite W5. apply D.
      * rewrite Hc. apply length_put; assumption.
    + intros nm. rewrite Hc. apply found_put; assumption.
Qed.
End directory.

(** ** Paths *)

(** The parts of a string between slashes. *)
Fixpoint pieces (path : list Z) : list (list Z) :=
  match path with
  | [] => [[]]
  | c :: path' =>
      if c =? SLASH then [] :: pieces path'
      else match pieces path' with p :: ps => (c :: p) :: ps | [] => [[c]] end
  end.
Definition nonempty (p : list Z) : bool := match p with [] => false | _ => true end.
Definition elements (path : list Z) : list (list Z) := List.filter nonempty (pieces path).

(** What the caller of [skipelem] sees, element after element. *)
Fixpoint walk (fuel : nat) (path name : list Z) : option (list (list Z)) :=
  match fuel with
  | O => None
  | Datatypes.S fuel' =>
      match skipelem path name with
      | None => Some []
      | Some (path, name) => cons (name_of name) <$> walk fuel' path name
      end
  end.

Lemma pieces_cons path : exists p ps, pieces path = p :: ps.
Proof.
  induction path as [|c path IH]; [exists [], []; reflexivity|]. cbn [pieces].
  destruct (c =? SLASH); [eexists _, _; reflexivity|]. destruct IH as (p & ps & ->). eexists _, _; reflexivity.
Qed.

Lemma elements_slash path : elements (SLASH :: path) = elements path.
Proof. reflexivity. Qed.

Lemma elements_skip path : elements (skip_slashes path) = elements path.
Proof.
  induction path as [|c path IH]; [reflexivity|]. cbn [skip_slashes].
  destruct (c =? SLASH) eqn:E; [|reflexivity]. apply Z.eqb_eq in E. subst c. rewrite elements_slash. exact IH.
Qed.

Lemma element_spec path : Forall (fun c => c <> 0) path ->
  let '(e, r) := element path in
  path = e ++ r /\ Forall (fun c => c <> SLASH) e /\ (r = [] \/ exists r', r = SLASH :: r') /\
  pieces path = match pieces r with p :: ps => (e ++ p) :: ps | [] => [e] end.
Proof.
  induction path as [|c path IH]; intros Hz; cbn [element].
  - repeat split; [apply Forall_nil_2|left; reflexivity].
  - apply Forall_cons in Hz as [Hc Hz]. destruct (c =? SLASH) eqn:E; cbn [orb].
    + apply Z.eqb_eq in E. subst c. destruct (pieces_cons (SLASH :: path)) as (p & ps & Ep). rewrite Ep.
      split; [reflexivity|]. split; [apply Forall_nil_2|]. split; [right; eexists; reflexivity|reflexivity].
    + rewrite (proj2 (Z.eqb_neq c 0) Hc). specialize (IH Hz). destruct (element path) as [e r]. destruct IH as (H1 & H2 & H3 & H4).
      split; [cbn; f_equal; exact H1|]. split; [apply Forall_cons; split; [apply Z.eqb_neq, E|exact H2]|]. split; [exact H3|].
      cbn [pieces]. rewrite E, H4. destruct (pieces r); reflexivity.
Qed.

Lemma skip_slashes_length path : (length (skip_slashes path) <= length path)%nat.
Proof. induction path as [|c path IH]; [reflexivity|]. cbn [skip_slashes]. destruct (c =? SLASH); cbn [length]; lia. Qed.

Lemma skip_slashes_suffix path P : Forall P path -> Forall P (skip_slashes path).
Proof.
  induction path as [|c path IH]; intros HP; [exact HP|]. cbn [skip_slashes]. destruct (c =? SLASH); [|exact HP].
  apply IH. apply Forall_cons in HP. apply HP.
Qed.

Lemma skip_slashes_head path c r : skip_slashes path = c :: r -> c <> SLASH.
Proof.
  induction path as [|d path IH]; [discriminate|]. cbn [skip_slashes]. destruct (d =? SLASH) eqn:E; [exact IH|].
  intros [= -> _]. apply Z.eqb_neq, E.
Qed.

Lemma canon_short n e r : Forall (fun c => c <> 0) e -> (length e < n)%nat -> canon n (e ++ 0 :: r) = e.
Proof.
  revert n. induction e as [|c e IH]; intros n He Hn; destruct n as [|n]; try (cbn in Hn; lia); [reflexivity|].
  apply Forall_cons in He as [Hc He]. cbn [app canon]. rewrite (proj2 (Z.eqb_neq c 0) Hc), IH; [reflexivity|exact He|cbn in Hn; lia].
Qed.

Lemma canon_long n e r : Forall (fun c => c <> 0) e -> (n <= length e)%nat -> canon n (e ++ r) = take n e.
Proof.
  revert n. induction e as [|c e IH]; intros n He Hn; destruct n as [|n]; try reflexivity; [cbn in Hn; lia|].
  apply Forall_cons in He as [Hc He]. cbn [app canon take]. rewrite (proj2 (Z.eqb_neq c 0) Hc), IH; [reflexivity|exact He|cbn in Hn; lia].
Qed.

(** The name left in the 14-byte array. *)
Lemma name_buffer e name : Forall (fun c => c <> 0) e -> length name = 14%nat ->
  let name' := if DIRSIZ <=? Z.of_nat (length e) then splice 0 (take (Z.to_nat DIRSIZ) e) name else splice 0 (e ++ [0]) name in
  name_of name' = take 14 e /\ length name' = 14%nat.
Proof.
  intros He Hl. cbn zeta. unfold DIRSIZ. change (Z.to_nat 14) with 14%nat. destruct (14 <=? Z.of_nat (length e)) eqn:E.
  - apply Z.leb_le in E. assert (Ht : length (take 14 e) = 14%nat) by (rewrite length_take; lia).
    split; [|rewrite length_splice by (rewrite Ht; lia); exact Hl]. unfold splice, name_of. rewrite take_0. cbn [app].
    change (Z.to_nat DIRSIZ) with 14%nat. rewrite canon_long; [rewrite take_ge by lia; reflexivity|apply Forall_take, He|lia].
  - apply Z.leb_gt in E. split; [|rewrite length_splice by (rewrite length_app; cbn; lia); exact Hl].
    unfold splice, name_of. rewrite take_0. cbn [app]. change (Z.to_nat DIRSIZ) with 14%nat. rewrite <- app_assoc. cbn [app].
    rewrite canon_short; [rewrite take_ge by lia; reflexivity|exact He|lia].
Qed.

(** One call of [skipelem]. *)
Lemma skipelem_spec path name : Forall (fun c => c <> 0) path -> length name = 14%nat ->
  match skipelem path name with
  | None => elements path = []
  | Some (path', name') => exists e, elements path = e :: elements path' /\ name_of name' = take 14 e /\
      length name' = 14%nat /\ Forall (fun c => c <> 0) path' /\ (length path' < length path)%nat /\
      (deref path' = 0 <-> elements path' = [])
  end.
Proof.
  intros Hz Hl. unfold skipelem. pose proof (skip_slashes_suffix path _ Hz) as Hz1. pose proof (skip_slashes_length path) as Hlen.
  rewrite <- (elements_skip path). destruct (skip_slashes path) as [|c p] eqn:Ep; [reflexivity|].
  pose proof (skip_slashes_head _ _ _ Ep) as Hc. pose proof Hz1 as Hz1'. apply Forall_cons in Hz1' as [Hc0 _].
  cbn [deref]. rewrite (proj2 (Z.eqb_neq c 0) Hc0). pose proof (element_spec (c :: p) Hz1) as He.
  destruct (element (c :: p)) as [e r] eqn:Ee. destruct He as (H1 & H2 & H3 & H4).
  assert (Hne : exists e', e = c :: e').
  { cbn [element] in Ee. rewrite (proj2 (Z.eqb_neq _ _) Hc), (proj2 (Z.eqb_neq _ _) Hc0) in Ee. cbn in Ee.
    destruct (element p). injection Ee as <- _. eexists. reflexivity. }
  destruct Hne as [e' ->]. rewrite H1 in Hz1. apply Forall_app in Hz1 as [Hze Hzr].
  exists (c :: e'). destruct (name_buffer (c :: e') name Hze Hl) as [N1 N2]. pose proof (skip_slashes_length r) as Hlr.
  split; [|split; [exact N1|split; [exact N2|split; [apply skip_slashes_suffix, Hzr|split]]]].
  - rewrite elements_skip. unfold elements. rewrite H4. destruct H3 as [->|[r' ->]].
    + cbn. rewrite app_nil_r. reflexivity.
    + cbn [pieces]. rewrite Z.eqb_refl, app_nil_r. reflexivity.
  - assert (length (c :: p) = length (c :: e') + length r)%nat by (rewrite H1, length_app; reflexivity).
    cbn [length] in *. lia.
  - destruct (skip_slashes r) as [|d q] eqn:Er; [split; reflexivity|]. pose proof (skip_slashes_head _ _ _ Er) as Hd.
    pose proof (skip_slashes_suffix r _ Hzr) as Hq. rewrite Er in Hq. apply Forall_cons in Hq as [Hd0 _]. cbn [deref].
    split; [intros; contradiction|]. unfold elements. cbn [pieces]. rewrite (proj2 (Z.eqb_neq _ _) Hd).
    destruct (pieces q); discriminate.
Qed.
End DirFacts.

Module DirProps.
Import Fs FsFacts DirFacts.

(** C14: A directory is a map from names to inode numbers.  [dirlookup] of a name finds the
    inode number of its first entry and takes a reference to that inode, or returns null, without
    touching the disk.  [dirlink] of a name that is present fails and leaves the disk as it was;
    of a new name it succeeds, and from then on the name is found with its number while every other
    name is found as before (names being compared up to their first 14 characters). *)
Theorem directory_is_map ds dr dw s dp v name i : directory ds s dp v -> has_room s -> 0 < i < 65536 -> Forall is_byte name ->
  isize v + 16 <= MAXFILE * BSIZE -> (2 <= nfree s)%nat ->
  let before nm := found nm (content s v) in
  wp (dirlookup dr dp name) (fun r s' => blocks s' = blocks s /\
    match before name with
    | None => r = None
    | Some j => exists ip off, r = Some (ip, off) /\ got s (dev v) j ip s'
    end) s /\
  wp (dirlink dr dw dp name i) (fun r s' =>
    match before name with
    | Some _ => r = false /\ blocks s' = blocks s
    | None => r = true /\ exists v', directory ds s' dp v' /\ icache s' = <[dp := v']> (icache s) /\
        forall nm, found nm (content s' v') = if decide (name_of nm = name_of name) then Some i else before nm
    end) s.
Proof.
  intros D Hroom Hi Hby Hmax Hfree before. subst before. cbn beta. split.
  - eapply wp_mono; [apply (wp_dirlookup ds dr s dp v name D Hroom)|]. intros r s'. destruct (found name _) as [j|].
    + intros (ip & off & -> & G). split; [apply G|]. exists ip, off. auto.
    + intros [-> ->]. auto.
  - destruct (found name (content s v)) as [j|] eqn:Ef.
    + unfold dirlink. apply wp_bind. eapply wp_mono; [apply (wp_dirlookup ds dr s dp v name D Hroom)|]. intros r s1. rewrite Ef.
      intros (ip & off & -> & G). apply wp_bind. eapply wp_mono; [apply (wp_iput_got _ _ _ _ _ G)|]. intros [] s2 [H1 _].
      wp_step. auto.
    + eapply wp_mono; [apply (wp_dirlink_new ds dr dw s dp v name i D Hroom Ef Hi Hby Hmax Hfree)|].
      intros r s' (-> & v' & H1 & H2 & _ & H3). split; [reflexivity|]. exists v'. auto.
Qed.

(** A directory with an entry for itself and a free one. *)
Definition small_dir : inode := Inode 1 1 1 true true T_DIR 0 0 1 32 (4 :: replicate 12 0).
Definition small : fs :=
  MkFs (<[4%nat := splice 0 (dirent 1 [46]) zeros]> (blocks FsProps.tiny)) FsProps.tiny_sb
       [small_dir; Inode 0 0 0 false false 0 0 0 0 0 []].

Lemma small_directory : directory 4 small 0 small_dir.
Proof.
  destruct FsProps.tiny_formatted as [F1 F2 F3 F4 F5]. destruct FsProps.tiny_regular as [[O1 O2 O3 O4] _ _ _ _].
  assert (Hp : pointers small small_dir = pointers FsProps.tiny FsProps.tiny_file) by reflexivity.
  assert (Hu : forall b, 0 <= b < 12 -> used small b = used FsProps.tiny b).
  { intros b Hb. apply (used_wr 4 FsProps.tiny 4 (splice 0 (dirent 1 [46]) zeros) b FsProps.tiny_formatted); cbn; lia. }
  constructor; [| reflexivity | |reflexivity|reflexivity].
  - constructor; [exact F1|reflexivity| |intros b Hb; rewrite Hu by lia; apply F4, Hb|exact F5].
    apply Forall_insert; [exact F3|]. split; [reflexivity|]. apply Forall_splice; [|apply zeros_block].
    apply Forall_app. split; [apply le_bytes_byte|]. apply strncpy_bytes. repeat constructor; unfold is_byte; lia.
  - constructor.
    + constructor; [reflexivity|reflexivity|rewrite Hp; exact O3|]. rewrite Hp. intros b Hb Hb0.
      destruct (O4 b Hb Hb0) as [H1 H2]. split; [exact H1|]. cbn in H1. rewrite Hu by lia. exact H2.
    + split; vm_compute; discriminate.
    + intros o Ho. unfold has. replace (o / BSIZE) with 0 by (apply (Z.div_unique_pos _ _ _ o); cbn in Ho; unfold BSIZE; lia). discriminate.
    + discriminate.
    + cbn. lia.
Qed.

Lemma directory_is_map_witness : exists s' v', dirlink (fun _ => None) (fun _ => None) 0 [97] 5 small = Ok (true, s') /\
  found [97] (content s' v') = Some 5 /\ found [46] (content s' v') = Some 1.
Proof.
  destruct (directory_is_map 4 (fun _ => None) (fun _ => None) small 0 small_dir [97] 5) as [_ (r & s' & E & H)].
  - exact small_directory.
  - exists 1%nat. eexists. split; reflexivity.
  - lia.
  - repeat constructor; unfold is_byte; lia.
  - vm_compute. discriminate.
  - vm_compute. lia.
  - change (found [97] (content small small_dir)) with (@None Z) in H. destruct H as (-> & v' & _ & _ & Hf).
    exists s', v'. split; [exact E|]. rewrite !Hf. split; reflexivity.
Defined.

(** Path names.  The calls of [skipelem] that [namex] makes on a path, one after the other
    until it returns null, terminate and leave in [name] exactly the non-empty parts of the path
    between slashes, in order, each cut to 14 characters. *)
Theorem skipelem_splits path name : Forall (fun c => c <> 0) path -> length name = 14%nat ->
  walk (Datatypes.S (length path)) path name = Some (take 14 <$> elements path).
Proof.
  intros Hz Hl. assert (H : forall n path name, Forall (fun c => c <> 0) path -> length name = 14%nat -> (length path < n)%nat ->
    walk n path name = Some (take 14 <$> elements path)); [|apply H; [exact Hz|exact Hl|lia]].
  clear. induction n as [|n IH]; intros path name Hz Hl Hn; [lia|]. cbn [walk]. pose proof (skipelem_spec path name Hz Hl) as S.
  destruct (skipelem path name) as [[p' n']|]; [|rewrite S; reflexivity]. destruct S as (e & -> & E1 & E2 & E3 & E4 & _).
  rewrite IH by (assumption || lia). rewrite E1. reflexivity.
Qed.

Lemma skipelem_splits_witness : walk 14 [47; 47; 117; 115; 114; 47; 47; 120; 118; 54; 47; 102; 47] (replicate 14 0) =
  Some [[117; 115; 114]; [120; 118; 54]; [102]].
Proof.
  apply (skipelem_splits [47; 47; 117; 115; 114; 47; 47; 120; 118; 54; 47; 102; 47] (replicate 14 0)); [|reflexivity].
  repeat constructor; discriminate.
Defined.
End DirProps.
