(* ===== verification/Namei.v ===== *)
(** The inode cache and path lookup (fs.c, modelled in Fs.v): [ilock], [iunlock], [iget] and [iput]
    on a cache that agrees with the disk, and [namex] as a walk over the directories of the disk. *)

From S2P Require Import Prelude Fs Dir.

Module CacheFacts.
Import Fs FsFacts DirFacts.

(** ** Inodes on the disk *)

Definition disk_inode (s : fs) (i : Z) : inode :=
  decode_dinode (dinode_off i) (blk s (IBLOCK i (sb s))) (Inode 1 i 0 false true 0 0 0 0 0 []).

(** A cached inode without its flags and its count. *)
Definition plain (v : inode) : inode :=
  Inode (dev v) (inum v) 0 false true (itype v) (major v) (minor v) (nlink v) (isize v) (addrs v).

(** ** The cache *)

(** The references to inode [i], and the entries that are free. *)
Definition refs_of (l : list inode) (i : Z) : Z := foldr (fun v n => (if inum v =? i then ref v else 0) + n) 0 l.
Definition refs (s : fs) (i : Z) : Z := refs_of (icache s) i.
Definition frees_of (l : list inode) : nat := foldr (fun v n => Nat.add (if ref v =? 0 then 1%nat else 0%nat) n) O l.
Definition frees (s : fs) : nat := frees_of (icache s).

Lemma refs_insert l ip v w i : l !! ip = Some v ->
  refs_of (<[ip := w]> l) i = refs_of l i - (if inum v =? i then ref v else 0) + (if inum w =? i then ref w else 0).
Proof.
  revert ip. induction l as [|u l IH]; intros [|ip] Hl; try discriminate.
  - injection Hl as ->. change (<[O := w]> (v :: l)) with (w :: l). unfold refs_of. cbn [foldr]. lia.
  - change (<[S ip := w]> (u :: l)) with (u :: <[ip := w]> l). specialize (IH ip Hl). unfold refs_of in *. cbn [foldr]. lia.
Qed.

Lemma frees_insert l ip v w : l !! ip = Some v ->
  (frees_of (<[ip := w]> l) + (if (ref v =? 0)%Z then 1 else 0) = frees_of l + (if (ref w =? 0)%Z then 1 else 0))%nat.
Proof.
  revert ip. induction l as [|u l IH]; intros [|ip] Hl; try discriminate.
  - injection Hl as ->. change (<[O := w]> (v :: l)) with (w :: l). unfold frees_of. cbn [foldr]. lia.
  - change (<[S ip := w]> (u :: l)) with (u :: <[ip := w]> l). specialize (IH ip Hl). unfold frees_of in *. cbn [foldr]. lia.
Qed.

Lemma frees_room s : (0 < frees s)%nat -> has_room s.
Proof.
  unfold frees, has_room. induction (icache s) as [|v l IH]; cbn; [lia|]. destruct (Z.eqb_spec (ref v) 0) as [E|E].
  - intros _. exists O, v. auto.
  - intros Hl. destruct (IH Hl) as (k & w & Hk & Hw). exists (S k), w. auto.
Qed.

(** The cache agrees with the disk; the entries in [L] are locked. *)
Record sound (L : list nat) (s : fs) : Prop := {
  so_ref : forall ip v, icache s !! ip = Some v -> 0 <= ref v;
  so_dev : forall ip v, icache s !! ip = Some v -> 0 < ref v -> dev v = 1;
  so_busy : forall ip v, icache s !! ip = Some v -> 0 < ref v -> (busy v = true <-> ip ∈ L);
  so_valid : forall ip v, icache s !! ip = Some v -> 0 < ref v -> valid v = true -> plain v = disk_inode s (inum v);
  so_unique : forall ip jp v w, icache s !! ip = Some v -> icache s !! jp = Some w -> 0 < ref v -> 0 < ref w -> inum v = inum w -> ip = jp;
  so_locked : forall ip, ip ∈ L -> exists v, icache s !! ip = Some v /\ 0 < ref v;
}.

Lemma cache_insert_cases (l : list inode) i j (x y : inode) : <[i := x]> l !! j = Some y -> (j = i /\ y = x) \/ (j <> i /\ l !! j = Some y).
Proof.
  intros Hl. destruct (decide (i = j)) as [->|Hne].
  - left. pose proof (lookup_lt_Some _ _ _ Hl) as Hlt. rewrite length_insert in Hlt. rewrite list_lookup_insert_eq in Hl by exact Hlt. injection Hl as <-. auto.
  - right. rewrite list_lookup_insert_ne in Hl by exact Hne. auto.
Qed.

(** One entry changes, and stands for the same inode if it is in use. *)
Lemma sound_entry L L' s ip v w : sound L s -> icache s !! ip = Some v -> 0 < ref v -> inum w = inum v -> dev w = dev v -> 0 <= ref w ->
  (0 < ref w -> busy w = true <-> ip ∈ L') -> (forall jp, jp <> ip -> (jp ∈ L' <-> jp ∈ L)) -> (0 < ref w -> valid w = true -> plain w = disk_inode s (inum v)) ->
  (ip ∈ L' -> 0 < ref w) -> sound L' (with_inode ip w s).
Proof.
  intros [S1 S2 S3 S4 S5 S6] Hv Hr Ei Ed Hw Hb HL Hp Hl. constructor; cbn [with_inode icache].
  - intros jp u Hu. apply cache_insert_cases in Hu as [[-> ->]|[_ Hu]]; eauto.
  - intros jp u Hu Hru. apply cache_insert_cases in Hu as [[-> ->]|[_ Hu]]; [rewrite Ed|]; eauto.
  - intros jp u Hu Hru. apply cache_insert_cases in Hu as [[-> ->]|[Hne Hu]]; [auto|]. rewrite (S3 jp u Hu Hru). symmetry. apply HL, Hne.
  - intros jp u Hu Hru Hva. apply cache_insert_cases in Hu as [[-> ->]|[_ Hu]]; [rewrite Ei; exact (Hp Hru Hva)|exact (S4 jp u Hu Hru Hva)].
  - intros jp kp u x Hu Hx Hru Hrx E. apply cache_insert_cases in Hu as [[-> ->]|[Hne Hu]]; apply cache_insert_cases in Hx as [[-> ->]|[Hne' Hx]]; try reflexivity.
    + exact (S5 ip kp v x Hv Hx Hr Hrx ltac:(congruence)).
    + exact (S5 jp ip u v Hu Hv Hru Hr ltac:(congruence)).
    + exact (S5 jp kp u x Hu Hx Hru Hrx E).
  - intros jp Hjp. destruct (decide (jp = ip)) as [->|Hne]; [exists w; split; [apply list_lookup_insert_eq, (lookup_lt_Some _ _ _ Hv)|auto]|].
    rewrite list_lookup_insert_ne by congruence. apply S6, HL; assumption.
Qed.

(** A free entry is taken for an inode that has none. *)
Lemma sound_fresh L s ip v w : sound L s -> icache s !! ip = Some v -> ref v = 0 -> 0 < ref w -> dev w = 1 -> busy w = false -> valid w = false ->
  absent s 1 (inum w) -> sound L (with_inode ip w s).
Proof.
  intros [S1 S2 S3 S4 S5 S6] Hv Hr Hw Hd Hb Hva Ha. assert (HL : ip ∉ L) by (intros Hin; destruct (S6 ip Hin) as (u & Hu & Hru); rewrite Hv in Hu; injection Hu as <-; lia).
  assert (Hno : forall jp u, icache s !! jp = Some u -> 0 < ref u -> inum u <> inum w).
  { intros jp u Hu Hru E. apply (Ha jp u Hu). split; [exact Hru|]. split; [exact (S2 jp u Hu Hru)|exact E]. }
  constructor; cbn [with_inode icache].
  - intros jp u Hu. apply cache_insert_cases in Hu as [[-> ->]|[_ Hu]]; [lia|eauto].
  - intros jp u Hu Hru. apply cache_insert_cases in Hu as [[-> ->]|[_ Hu]]; eauto.
  - intros jp u Hu Hru. apply cache_insert_cases in Hu as [[-> ->]|[_ Hu]]; [rewrite Hb; split; [discriminate|contradiction]|eauto].
  - intros jp u Hu Hru Hvu. apply cache_insert_cases in Hu as [[-> ->]|[_ Hu]]; [congruence|exact (S4 jp u Hu Hru Hvu)].
  - intros jp kp u x Hu Hx Hru Hrx E. apply cache_insert_cases in Hu as [[-> ->]|[_ Hu]]; apply cache_insert_cases in Hx as [[-> ->]|[_ Hx]]; try reflexivity.
    + exfalso. exact (Hno kp x Hx Hrx (eq_sym E)).
    + exfalso. exact (Hno jp u Hu Hru E).
    + exact (S5 jp kp u x Hu Hx Hru Hrx E).
  - intros jp Hjp. rewrite list_lookup_insert_ne by congruence. apply S6, Hjp.
Qed.

Lemma refs_zero l i : (forall jp v, l !! jp = Some v -> inum v = i -> ref v = 0) -> refs_of l i = 0.
Proof.
  induction l as [|v l IH]; intros Hz; [reflexivity|]. specialize (IH (fun jp w => Hz (S jp) w)). unfold refs_of in *. cbn [foldr].
  destruct (Z.eqb_spec (inum v) i) as [E|]; [rewrite (Hz O v eq_refl E)|]; lia.
Qed.

Lemma refs_absent L s i : sound L s -> absent s 1 i -> refs s i = 0.
Proof.
  intros [S1 S2 _ _ _ _] Ha. apply refs_zero. intros jp v Hv E. destruct (decide (0 < ref v)) as [Hr|Hr]; [|pose proof (S1 jp v Hv); lia].
  exfalso. apply (Ha jp v Hv). pose proof (S2 jp v Hv Hr). auto.
Qed.

(** An entry in use counts all references to its inode. *)
Lemma refs_slot L s ip v : sound L s -> icache s !! ip = Some v -> 0 < ref v -> refs s (inum v) = ref v.
Proof.
  intros [S1 S2 _ _ S5 _] Hv Hr. pose proof (refs_insert (icache s) ip v (set_ref 0 v) (inum v) Hv) as E. cbn [set_ref inum ref] in E. rewrite Z.eqb_refl in E.
  rewrite refs_zero in E; [unfold refs; lia|]. intros jp w Hw Ei. apply cache_insert_cases in Hw as [[-> ->]|[Hne Hw]]; [reflexivity|].
  destruct (decide (0 < ref w)) as [Hrw|Hrw]; [|pose proof (S1 jp w Hw); lia]. exfalso. exact (Hne (S5 jp ip w v Hw Hv Hrw Hr Ei)).
Qed.

(** ** The operations on the cache *)

Lemma with_with ip v w s : with_inode ip w (with_inode ip v s) = with_inode ip w s.
Proof. unfold with_inode. cbn [blocks sb icache]. rewrite list_insert_insert_eq. reflexivity. Qed.

Lemma lookup_with ip v w s : icache s !! ip = Some v -> icache (with_inode ip w s) !! ip = Some w.
Proof. intros Hv. apply list_lookup_insert_eq, (lookup_lt_Some _ _ _ Hv). Qed.

Section cache.
Context (ds : Z).

Lemma wp_lock L s ip v : formatted ds s -> sound L s -> icache s !! ip = Some v -> 0 < ref v -> ip ∉ L -> 0 <= inum v < ninodes (sb s) ->
  itype (disk_inode s (inum v)) <> 0 ->
  wp (ilock ip) (fun _ s' => exists w, s' = with_inode ip w s /\ plain w = disk_inode s (inum v) /\ ref w = ref v /\ busy w = true /\ valid w = true /\ sound (ip :: L) s') s.
Proof.
  intros F Sd Hv Hr HL Hi Ht. assert (Hb : busy v = false) by (apply not_true_iff_false; intros E; apply HL, (so_busy _ _ Sd ip v Hv Hr), E).
  pose proof (so_dev _ _ Sd ip v Hv Hr) as Hd. unfold ilock. apply wp_bind. eapply wp_get_inode; [exact Hv|]. rewrite (proj2 (Z.ltb_ge _ _)) by lia. rewrite Hb.
  assert (Hsound : forall w, inum w = inum v -> dev w = dev v -> ref w = ref v -> busy w = true -> valid w = true -> plain w = disk_inode s (inum v) -> sound (ip :: L) (with_inode ip w s)).
  { intros w E1 E2 E3 E4 E5 E6. eapply sound_entry; [exact Sd|exact Hv|exact Hr|exact E1|exact E2|lia| | |auto|lia].
    - intros _. split; [intros _; left|auto].
    - intros jp Hne. rewrite elem_of_cons. tauto. }
  apply wp_bind, wp_put_inode. fold (with_inode ip (set_flags true (valid v) v) s). destruct (valid v) eqn:Eva.
  - wp_step. exists (set_flags true true v). assert (Hp : plain (set_flags true true v) = disk_inode s (inum v)) by exact (so_valid _ _ Sd ip v Hv Hr Eva).
    repeat (split; [first [reflexivity|exact Hp]|]). apply Hsound; first [reflexivity|exact Hp].
  - apply wp_bind. wp_step. apply wp_bind. destruct (iblock_range ds s (inum v) F Hi) as [Hib _]. cbn [with_inode sb].
    pose proof (meta_bounds ds s F) as Hm. pose proof (g_start _ _ (f_geometry _ _ F)). pose proof (g_data _ _ (f_geometry _ _ F)). pose proof (g_order _ _ (f_geometry _ _ F)).
    rewrite Hd. apply (wp_fs_bread ds); [apply formatted_inode, F|cbn [with_inode sb]; lia|].
    change (blk (with_inode ip (set_flags true false v) s)) with (blk s).
    set (w := decode_dinode _ _ _). apply wp_bind, wp_put_inode. fold (with_inode ip w (with_inode ip (set_flags true false v) s)). rewrite with_with.
    assert (Hp : plain w = disk_inode s (inum v)) by (unfold w, plain, disk_inode, decode_dinode; cbn; rewrite Hd; reflexivity).
    assert (Et : itype w = itype (disk_inode s (inum v))) by (rewrite <- Hp; reflexivity). rewrite Et, (proj2 (Z.eqb_neq _ _) Ht). wp_step. exists w.
    repeat (split; [first [reflexivity|exact Hp]|]). apply Hsound; first [reflexivity|exact Hp].
Qed.

Lemma wp_unlock L s ip v : sound (ip :: L) s -> icache s !! ip = Some v -> 0 < ref v -> ip ∉ L ->
  wp (iunlock ip) (fun _ s' => s' = with_inode ip (set_flags false (valid v) v) s /\ sound L s') s.
Proof.
  intros Sd Hv Hr HL. unfold iunlock. apply wp_bind. eapply wp_get_inode; [exact Hv|].
  rewrite (proj2 (so_busy _ _ Sd ip v Hv Hr) ltac:(left)), (proj2 (Z.ltb_ge _ _)) by lia. cbn [negb orb]. apply wp_put_inode. split; [reflexivity|].
  eapply sound_entry; [exact Sd|exact Hv|exact Hr|reflexivity|reflexivity|cbn; lia| | | |contradiction].
  - intros _. split; [discriminate|contradiction].
  - intros jp Hne. rewrite elem_of_cons. tauto.
  - intros _ Hva. exact (so_valid _ _ Sd ip v Hv Hr Hva).
Qed.

(** A reference is given back and the inode stays. *)
Lemma wp_put L s ip v : sound L s -> icache s !! ip = Some v -> 0 < ref v -> ip ∉ L -> nlink (disk_inode s (inum v)) <> 0 ->
  wp (iput ip) (fun _ s' => s' = with_inode ip (set_ref (ref v - 1) v) s /\ sound L s') s.
Proof.
  intros Sd Hv Hr HL Hn. unfold iput. apply wp_bind. eapply wp_get_inode; [exact Hv|].
  assert (E : (ref v =? 1) && valid v && (nlink v =? 0) = false).
  { destruct (valid v) eqn:Eva; [|rewrite andb_false_r; reflexivity]. pose proof (so_valid _ _ Sd ip v Hv Hr Eva) as Hp.
    assert (En : nlink v = nlink (disk_inode s (inum v))) by (rewrite <- Hp; reflexivity). rewrite En, (proj2 (Z.eqb_neq _ _) Hn). apply andb_false_r. }
  rewrite E. apply wp_bind. wp_step. apply wp_bind. eapply wp_get_inode; [exact Hv|]. apply wp_put_inode. split; [reflexivity|].
  eapply sound_entry; [exact Sd|exact Hv|exact Hr|reflexivity|reflexivity|cbn; lia| |reflexivity| |contradiction].
  - intros _. exact (so_busy _ _ Sd ip v Hv Hr).
  - intros _ Hva. exact (so_valid _ _ Sd ip v Hv Hr Hva).
Qed.

(** The count of references to each inode, and the free entries, when one is given back. *)
Lemma refs_drop s ip v w i : icache s !! ip = Some v -> inum w = inum v -> ref w = ref v - 1 ->
  refs (with_inode ip w s) i = refs s i - (if decide (i = inum v) then 1 else 0).
Proof.
  intros Hv Ei Er. unfold refs, with_inode. cbn [icache]. rewrite (refs_insert _ _ _ _ _ Hv), Ei, Er.
  destruct (Z.eqb_spec (inum v) i) as [<-|Hne]; [rewrite decide_True by reflexivity; lia|rewrite decide_False by congruence; lia].
Qed.

Lemma frees_drop L s ip v w : sound L s -> icache s !! ip = Some v -> 0 < ref v -> ref w = ref v - 1 ->
  frees (with_inode ip w s) = (frees s + if decide (refs s (inum v) = 1)%Z then 1 else 0)%nat.
Proof.
  intros Sd Hv Hr Er. pose proof (frees_insert _ _ _ w Hv) as E. rewrite Er in E. rewrite (refs_slot _ _ _ _ Sd Hv Hr).
  unfold frees, with_inode. cbn [icache]. rewrite (proj2 (Z.eqb_neq (ref v) 0)) in E by lia.
  destruct (decide (ref v = 1)) as [E1|Hne]; [rewrite E1 in E; change (1 - 1) with 0 in E; cbn [Z.eqb] in E; lia|].
  rewrite (proj2 (Z.eqb_neq (ref v - 1) 0)) in E by lia. lia.
Qed.

Lemma flags_same s ip v w : icache s !! ip = Some v -> inum w = inum v -> ref w = ref v -> (forall i, refs (with_inode ip w s) i = refs s i) /\ frees (with_inode ip w s) = frees s.
Proof.
  intros Hv Ei Er. split.
  - intros i. unfold refs, with_inode. cbn [icache]. rewrite (refs_insert _ _ _ _ _ Hv), Ei, Er. lia.
  - pose proof (frees_insert _ _ _ w Hv) as E. rewrite Er in E. unfold frees, with_inode. cbn [icache]. lia.
Qed.

(** [iget], seen the same way. *)
Record taken (L : list nat) (s : fs) (i : Z) (ip : nat) (s' : fs) : Prop := {
  tk_blocks : blocks s' = blocks s;
  tk_sb : sb s' = sb s;
  tk_sound : sound L s';
  tk_refs : forall j, refs s' j = refs s j + (if decide (j = i) then 1 else 0);
  tk_frees : (frees s' + (if decide (refs s i = 0)%Z then 1 else 0) = frees s)%nat;
  tk_slot : exists v, icache s' !! ip = Some v /\ 0 < ref v /\ inum v = i;
  tk_keeps : forall jp v, icache s !! jp = Some v -> 0 < ref v -> exists v', icache s' !! jp = Some v' /\ 0 < ref v' /\ inum v' = inum v;
}.

Lemma disk_inode_blocks s s' i : blocks s' = blocks s -> sb s' = sb s -> disk_inode s' i = disk_inode s i.
Proof. intros E1 E2. unfold disk_inode, blk. rewrite E1, E2. reflexivity. Qed.

Lemma sound_state L s s' : icache s' = icache s -> blocks s' = blocks s -> sb s' = sb s -> sound L s -> sound L s'.
Proof.
  intros E1 E2 E3 [S1 S2 S3 S4 S5 S6]. constructor; rewrite ?E1; try assumption. intros ip v Hv Hr Hva. rewrite (disk_inode_blocks s s') by assumption. exact (S4 ip v Hv Hr Hva).
Qed.

Lemma got_taken L s i ip s' : sound L s -> got s 1 i ip s' -> taken L s i ip s'.
Proof.
  intros Sd [G1 G2 (w & w' & Hw & Hic & Hd & Hi & Hcase)]. pose proof (lookup_lt_Some _ _ _ Hw) as Hlt.
  assert (Hslot : icache s' !! ip = Some w') by (rewrite Hic; apply list_lookup_insert_eq, Hlt).
  assert (Hsd : sound L (with_inode ip w' s) -> sound L s') by (apply sound_state; [exact Hic|exact G1|exact G2]).
  pose proof (frees_insert _ _ _ w' Hw) as EF. rewrite <- Hic in EF.
  assert (ER : forall j, refs s' j = refs s j - (if inum w =? j then ref w else 0) + (if inum w' =? j then ref w' else 0)) by (intros j; unfold refs; rewrite Hic; apply refs_insert, Hw).
  destruct Hcase as [[Hr Ew]|(Hr & Ew & Ha)].
  - assert (Ei : inum w = i) by (rewrite Ew in Hi; exact Hi). constructor; try assumption.
    + apply Hsd. eapply (sound_entry L L s ip w); [exact Sd|exact Hw|exact Hr|rewrite Ew; reflexivity|rewrite Ew; reflexivity|rewrite Ew; cbn; lia| |reflexivity| |rewrite Ew; cbn; lia].
      * intros _. rewrite Ew. exact (so_busy _ _ Sd ip w Hw Hr).
      * intros _ Hva. rewrite Ew in Hva |- *. exact (so_valid _ _ Sd ip w Hw Hr Hva).
    + intros j. rewrite ER, Ew. cbn [set_ref inum ref]. destruct (Z.eqb_spec (inum w) j) as [<-|Hne]; [rewrite decide_True by congruence; lia|rewrite decide_False by congruence; lia].
    + rewrite <- Ei, (refs_slot _ _ _ _ Sd Hw Hr), decide_False by lia. rewrite Ew in EF. cbn [set_ref ref] in EF. rewrite !(proj2 (Z.eqb_neq _ _)) in EF by lia. unfold frees. lia.
    + exists w'. split; [exact Hslot|]. rewrite Ew. cbn. split; [lia|exact Ei].
    + intros jp v Hv Hrv. rewrite Hic. destruct (decide (jp = ip)) as [->|Hne].
      * rewrite list_lookup_insert_eq by exact Hlt. exists w'. replace v with w by congruence. split; [reflexivity|]. rewrite Ew. cbn. split; [lia|reflexivity].
      * rewrite list_lookup_insert_ne by congruence. exists v. auto.
  - constructor; try assumption.
    + apply Hsd. eapply (sound_fresh L s ip w); [exact Sd|exact Hw|exact Hr|rewrite Ew; cbn; lia|exact Hd|rewrite Ew; reflexivity|rewrite Ew; reflexivity|rewrite Hi; exact Ha].
    + intros j. rewrite ER, Ew, Hr. cbn [inum ref]. destruct (Z.eqb_spec i j) as [<-|Hne]; [rewrite decide_True by congruence|rewrite decide_False by congruence]; destruct (inum w =? _); lia.
    + rewrite (refs_absent _ _ _ Sd Ha), decide_True by reflexivity. rewrite Ew, Hr in EF. cbn in EF. unfold frees. lia.
    + exists w'. split; [exact Hslot|]. rewrite Ew. cbn. split; [lia|reflexivity].
    + intros jp v Hv Hrv. rewrite Hic. destruct (decide (jp = ip)) as [->|Hne]; [exfalso; replace v with w in Hrv by congruence; lia|].
      rewrite list_lookup_insert_ne by congruence. exists v. auto.
Qed.

(** An entry in use is the same one, but for its count. *)
Lemma got_entry s d i ip s' jp v : got s d i ip s' -> icache s !! jp = Some v -> 0 < ref v -> exists n, icache s' !! jp = Some (set_ref n v) /\ ref v <= n.
Proof.
  intros [_ _ (w & w' & Hw & Hic & _ & _ & Hcase)] Hv Hr. rewrite Hic. pose proof (lookup_lt_Some _ _ _ Hw) as Hlt. destruct (decide (jp = ip)) as [->|Hne].
  - rewrite list_lookup_insert_eq by exact Hlt. replace w with v in Hcase by congruence. destruct Hcase as [[_ ->]|[E _]]; [|lia]. exists (ref v + 1). split; [reflexivity|lia].
  - rewrite list_lookup_insert_ne by congruence. exists (ref v). split; [rewrite Hv; destruct v; reflexivity|lia].
Qed.

(** [iunlock] and [iput]. *)
Lemma wp_unlockput L s ip v : sound (ip :: L) s -> icache s !! ip = Some v -> 0 < ref v -> ip ∉ L -> nlink (disk_inode s (inum v)) <> 0 ->
  wp (iunlockput ip) (fun _ s' => exists w, s' = with_inode ip w s /\ inum w = inum v /\ ref w = ref v - 1 /\ sound L s') s.
Proof.
  intros Sd Hv Hr HL Hn. unfold iunlockput. apply wp_bind. eapply wp_mono; [apply (wp_unlock L s ip v Sd Hv Hr HL)|]. intros [] s1 [-> Sd1].
  eapply wp_mono; [apply (wp_put L _ ip _ Sd1 (lookup_with _ _ _ _ Hv) Hr HL Hn)|]. intros [] s2 [-> Sd2]. rewrite with_with in Sd2 |- *.
  eexists. split; [reflexivity|]. split; [reflexivity|]. split; [reflexivity|exact Sd2].
Qed.
End cache.
End CacheFacts.

Module NameiFacts.
Import Fs FsFacts DirFacts CacheFacts.

(** ** Trees of directories *)

Definition is_dir (s : fs) (i : Z) : bool := itype (disk_inode s i) =? T_DIR.
(** The entries of directory [i]. *)
Definition entries (s : fs) (i : Z) (nm : list Z) : option Z := found nm (content s (disk_inode s i)).
(** The inode is in use and has a name. *)
Definition live (s : fs) (i : Z) : Prop := 0 <= i < ninodes (sb s) /\ itype (disk_inode s i) <> 0 /\ nlink (disk_inode s i) <> 0.

(** Where a path with elements [es] leads from inode [i]: the inode, or with [parent] the directory
    of the last element and that element. *)
Fixpoint walk_path (parent : bool) (s : fs) (i : Z) (es : list (list Z)) : option (Z * list Z) :=
  match es with
  | [] => if parent then None else Some (i, [])
  | e :: es' =>
      if negb (is_dir s i) then None
      else match parent, es' with
           | true, [] => Some (i, e)
           | _, _ => match entries s i e with Some j => walk_path parent s j es' | None => None end
           end
  end.

Lemma found_name nm nm' c : name_of nm = name_of nm' -> found nm c = found nm' c.
Proof.
  intros E. unfold found. f_equal. apply find_ext. intros o _. unfold matches. rewrite E. reflexivity.
Qed.

Lemma pieces_nonzero path : Forall (fun c => c <> 0) path -> Forall (Forall (fun c => c <> 0)) (pieces path).
Proof.
  induction 1 as [|c path Hc _ IH]; cbn [pieces]; [repeat constructor|]. destruct (c =? SLASH); [constructor; [constructor|exact IH]|].
  destruct (pieces path) as [|p ps]; [repeat constructor; exact Hc|]. apply Forall_cons in IH as [Hp Hps]. constructor; [constructor; assumption|exact Hps].
Qed.

Lemma element_name path e es : Forall (fun c => c <> 0) path -> elements path = e :: es -> name_of e = take 14 e.
Proof.
  intros Hz E. assert (He : Forall (fun c => c <> 0) e).
  { assert (Hin : In e (pieces path)) by (apply (filter_In nonempty); fold (elements path); rewrite E; left; reflexivity).
    apply pieces_nonzero in Hz. rewrite List.Forall_forall in Hz. exact (Hz e Hin). }
  unfold name_of. change (Z.to_nat DIRSIZ) with 14%nat. destruct (decide (14 <= length e)%nat) as [Hl|Hl].
  - rewrite <- (app_nil_r e) at 1. apply canon_long; [exact He|exact Hl].
  - rewrite take_ge by lia. clear -He Hl. assert (Hn : (length e <= 14)%nat) by lia. clear Hl. revert Hn. generalize 14%nat as n.
    induction He as [|c e Hc _ IH]; intros [|n] Hn; cbn in Hn |- *; try reflexivity; [lia|]. rewrite (proj2 (Z.eqb_neq _ _) Hc), IH by lia. reflexivity.
Qed.

(** What a file holds does not depend on the cache. *)
Lemma slots_cached s s' v w : blocks s' = blocks s -> addrs w = addrs v -> slots s' w = slots s v /\ ind w = ind v.
Proof. intros Eb Ea. unfold slots, ind, blk. rewrite Eb, Ea. auto. Qed.

Lemma content_cached s s' v w : blocks s' = blocks s -> plain w = plain v -> content s' w = content s v.
Proof.
  intros Eb Ep. injection Ep as Ed Ei Et Ema Emi En Es Ea. destruct (slots_cached s s' v w Eb Ea) as [Esl _].
  unfold content. rewrite Es. apply list_fmap_ext. intros k x _. unfold fbyte. rewrite Esl. unfold blk. rewrite Eb. reflexivity.
Qed.

Section namex.
Context (ds : Z) (dr : Z -> option (nat -> Z -> K fs (option (list Z)))).

Lemma regular_plain s s' v w : blocks s' = blocks s -> sb s' = sb s -> plain w = plain v -> regular ds s v -> regular ds s' w.
Proof.
  intros Eb Esb Ep [[O1 O2 O3 O4] R2 R3 R4 R5]. injection Ep as Ed Ei Et Ema Emi En Es Ea.
  destruct (slots_cached s s' v w Eb Ea) as [Esl Eind]. assert (Hp : pointers s' w = pointers s v) by (unfold pointers; rewrite Esl, Eind; reflexivity).
  assert (Hu : forall b, used s' b = used s b) by (intros b; unfold used, blk; rewrite Eb, Esb; reflexivity).
  constructor; rewrite ?Es, ?Et, ?Ei, ?Esb; try assumption.
  - constructor; rewrite ?Ed, ?Ea, ?Hp; try assumption. intros b Hb H0. rewrite Esb, Hu. exact (O4 b Hb H0).
  - intros o Ho. unfold has. rewrite Esl. exact (R3 o Ho).
Qed.

(** Every directory in use is well formed, and its entries lead to inodes in use. *)
Record tree (s : fs) : Prop := {
  tr_formatted : formatted ds s;
  tr_dir : forall i, live s i -> is_dir s i = true -> regular ds s (disk_inode s i) /\ whole (content s (disk_inode s i));
  tr_entries : forall i nm j, live s i -> is_dir s i = true -> entries s i nm = Some j -> live s j;
}.

(** References and free entries are as before. *)
Record returned (s s' : fs) : Prop := {
  re_blocks : blocks s' = blocks s;
  re_sb : sb s' = sb s;
  re_sound : sound [] s';
  re_refs : forall j, refs s' j = refs s j;
  re_frees : frees s' = frees s;
  re_keeps : forall jp v, icache s !! jp = Some v -> 0 < ref v -> exists v', icache s' !! jp = Some v' /\ 0 < ref v' /\ inum v' = inum v;
}.

Lemma refs_nonneg L s j : sound L s -> 0 <= refs s j.
Proof.
  intros Sd. pose proof (so_ref _ _ Sd) as Hr. unfold refs. induction (icache s) as [|v l IH]; [reflexivity|].
  specialize (IH (fun ip w => Hr (S ip) w)). pose proof (Hr O v eq_refl). unfold refs_of in *. cbn [foldr]. destruct (inum v =? j); lia.
Qed.

Lemma keeps_with (P : inode -> Prop) s ip v w jp u : icache s !! ip = Some v -> icache s !! jp = Some u -> (jp = ip -> P w) -> P u -> exists u', icache (with_inode ip w s) !! jp = Some u' /\ P u'.
Proof.
  intros Hv Hu Hw HP. destruct (decide (jp = ip)) as [->|Hne]; [exists w; split; [eapply lookup_with, Hv|auto]|].
  exists u. split; [|exact HP]. cbn. rewrite list_lookup_insert_ne by congruence. exact Hu.
Qed.

(** The entry that was taken is locked or unlocked. *)
Lemma taken_flags L L' s0 i ip s v w : taken L s0 i ip s -> icache s !! ip = Some v -> 0 < ref v -> inum w = inum v -> ref w = ref v ->
  sound L' (with_inode ip w s) -> taken L' s0 i ip (with_inode ip w s).
Proof.
  intros [T1 T2 T3 T4 T5 (v1 & Hv1 & Hr1 & Hi1) T7] Hv Hr Ei Er Sd. assert (v1 = v) by congruence. subst v1. destruct (flags_same s ip v w Hv Ei Er) as [F1 F2].
  constructor; try assumption.
  - intros j. rewrite F1. apply T4.
  - rewrite F2. exact T5.
  - exists w. split; [eapply lookup_with, Hv|]. split; [lia|congruence].
  - intros jp u Hu Hru. destruct (T7 jp u Hu Hru) as (u1 & Hu1 & Hru1 & Hi). apply (keeps_with (fun x => 0 < ref x /\ inum x = inum u) s ip v w jp u1 Hv Hu1); [|auto].
    intros ->. assert (u1 = v) by congruence. subst u1. split; [lia|congruence].
Qed.

(** What was taken is given back. *)
Lemma taken_dropped L s0 i ip s v w : sound [] s0 -> taken L s0 i ip s -> icache s !! ip = Some v -> inum w = inum v -> ref w = ref v - 1 ->
  sound [] (with_inode ip w s) -> returned s0 (with_inode ip w s).
Proof.
  intros S0 [T1 T2 T3 T4 T5 (v1 & Hv1 & Hr & Hi) T7] Hv Ei Er Sd. assert (v1 = v) by congruence. subst v1.
  pose proof (frees_drop L s ip v w T3 Hv Hr Er) as EF. pose proof (refs_nonneg _ _ i S0) as Hn. constructor; try assumption.
  - intros j. rewrite (refs_drop s ip v w j Hv Ei Er), T4, Hi. destruct (decide (j = i)); lia.
  - rewrite EF, Hi, T4, (decide_True (P := i = i)) by reflexivity. destruct (decide (refs s0 i + 1 = 1)), (decide (refs s0 i = 0)); lia.
  - intros jp u Hu Hru. destruct (T7 jp u Hu Hru) as (u1 & Hu1 & Hru1 & Hiu). apply (keeps_with (fun x => 0 < ref x /\ inum x = inum u) s ip v w jp u1 Hv Hu1); [|auto].
    intros ->. assert (u1 = v) by congruence. subst u1. split; [|congruence].
    pose proof (refs_slot _ _ _ _ S0 Hu Hru) as E0. pose proof (refs_slot _ _ _ _ T3 Hv Hr) as E1. rewrite Hi, T4, (decide_True (P := i = i)) in E1 by reflexivity. rewrite <- Hiu, Hi in E0. lia.
Qed.

(** The next inode is taken while this one is locked, and this one is given back. *)
Lemma taken_next s0 i ip s v j jp s2 n x : sound [] s0 -> taken [ip] s0 i ip s -> icache s !! ip = Some v -> 0 < ref v -> got s 1 j jp s2 ->
  icache s2 !! ip = Some (set_ref n v) -> ref v <= n -> inum x = inum v -> ref x = n - 1 -> sound [] (with_inode ip x s2) -> taken [] s0 j jp (with_inode ip x s2).
Proof.
  intros S0 T Hv Hr G Hn Hle Ei Er Sd. pose proof (got_taken [ip] s j jp s2 (tk_sound _ _ _ _ _ T) G) as G'.
  destruct T as [T1 T2 T3 T4 T5 (v1 & Hv1 & _ & Hi) T7]. assert (v1 = v) by congruence. subst v1. destruct G' as [U1 U2 U3 U4 U5 (w & Hw & Hrw & Hj) U7].
  assert (HnR : 0 < ref (set_ref n v)) by (cbn; lia).
  pose proof (frees_drop [ip] s2 ip _ x U3 Hn HnR Er) as EF. pose proof (fun y => refs_drop s2 ip _ x y Hn Ei Er) as ER. cbn [set_ref inum] in EF, ER. rewrite Hi in EF, ER.
  pose proof (refs_nonneg _ _ i S0) as N1. pose proof (refs_nonneg _ _ j S0) as N2. pose proof (refs_slot _ _ _ _ U3 Hn HnR) as En. cbn [set_ref inum ref] in En. rewrite Hi, U4, T4 in En.
  constructor; [cbn; congruence|cbn; congruence| | | | |].
  - exact Sd.
  - intros y. rewrite ER, U4, T4. destruct (decide (y = i)), (decide (y = j)); lia.
  - rewrite EF, U4, T4. rewrite T4 in U5. destruct (decide (i = j)) as [<-|Hne].
    + rewrite (decide_True (P := i = i)) in U5 |- * by reflexivity. destruct (decide (refs s0 i + 1 + 1 = 1)), (decide (refs s0 i + 1 = 0)), (decide (refs s0 i = 0)); lia.
    + rewrite (decide_False (P := j = i)) in U5 by congruence. rewrite (decide_True (P := i = i)) by reflexivity.
      destruct (decide (refs s0 i + 1 + 0 = 1)), (decide (refs s0 j + 0 = 0)), (decide (refs s0 i = 0)), (decide (refs s0 j = 0)); lia.
  - apply (keeps_with (fun y => 0 < ref y /\ inum y = j) s2 ip _ x jp w Hn Hw); [|auto]. intros ->. assert (w = set_ref n v) by congruence. subst w. cbn in Hj.
    split; [|congruence]. rewrite (decide_True (P := i = i)), (decide_True (P := i = j)) in En by congruence. lia.
  - intros kp u Hu Hru. destruct (T7 kp u Hu Hru) as (u1 & Hu1 & Hru1 & Hi1). destruct (U7 kp u1 Hu1 Hru1) as (u2 & Hu2 & Hru2 & Hi2).
    apply (keeps_with (fun y => 0 < ref y /\ inum y = inum u) s2 ip _ x kp u2 Hn Hu2); [|split; [exact Hru2|congruence]]. intros ->.
    assert (u2 = set_ref n v) by congruence. subst u2. cbn in Hi2. split; [|congruence]. assert (Eu : inum u = i) by congruence.
    pose proof (refs_slot _ _ _ _ S0 Hu Hru) as E0. rewrite Eu in E0. rewrite (decide_True (P := i = i)) in En by reflexivity. destruct (decide (i = j)); lia.
Qed.

Definition found_at (s0 : fs) (parent : bool) (w : option (Z * list Z)) (r : option (nat * list Z)) (s' : fs) : Prop :=
  match w with
  | Some (j, e) => exists jp nm, r = Some (jp, nm) /\ taken [] s0 j jp s' /\ live s0 j /\ (parent = true -> name_of nm = name_of e)
  | None => r = None /\ returned s0 s'
  end.

Lemma formatted_same s s' : blocks s' = blocks s -> sb s' = sb s -> formatted ds s -> formatted ds s'.
Proof. intros Eb Es [F1 F2 F3 F4 F5]. constructor; unfold used, blk in *; rewrite ?Eb, ?Es; assumption. Qed.

(** ** The inode that was taken: it is locked, unlocked and given back *)

Lemma taken_lock s0 i ip s : formatted ds s0 -> taken [] s0 i ip s -> live s0 i ->
  wp (ilock ip) (fun _ s' => taken [ip] s0 i ip s' /\ exists w, icache s' !! ip = Some w /\ plain w = disk_inode s0 i) s.
Proof.
  intros F Tk (Hrange & Htype & _). destruct (tk_slot _ _ _ _ _ Tk) as (v & Hv & Hr & Hi). pose proof (tk_blocks _ _ _ _ _ Tk) as Eb. pose proof (tk_sb _ _ _ _ _ Tk) as Es.
  pose proof (disk_inode_blocks s0 s i Eb Es) as Ed.
  eapply wp_mono; [apply (wp_lock ds [] s ip v (formatted_same _ _ Eb Es F) (tk_sound _ _ _ _ _ Tk) Hv Hr (not_elem_of_nil _)); rewrite Hi; [rewrite Es; exact Hrange|rewrite Ed; exact Htype]|].
  intros [] s1 (w & -> & Hp & Hrw & _ & _ & Sd). rewrite Hi, Ed in Hp. split; [|exists w; split; [eapply lookup_with, Hv|exact Hp]].
  eapply taken_flags; [exact Tk|exact Hv|exact Hr| |exact Hrw|exact Sd]. rewrite Hi. change (inum w) with (inum (plain w)). rewrite Hp. reflexivity.
Qed.

Lemma taken_unlock s0 i ip s : taken [ip] s0 i ip s -> wp (iunlock ip) (fun _ s' => taken [] s0 i ip s') s.
Proof.
  intros Tk. destruct (tk_slot _ _ _ _ _ Tk) as (v & Hv & Hr & Hi). eapply wp_mono; [apply (wp_unlock [] s ip v (tk_sound _ _ _ _ _ Tk) Hv Hr (not_elem_of_nil _))|].
  intros [] s1 [-> Sd]. eapply taken_flags; [exact Tk|exact Hv|exact Hr|reflexivity|reflexivity|exact Sd].
Qed.

Lemma taken_put s0 i ip s : sound [] s0 -> taken [] s0 i ip s -> live s0 i -> wp (iput ip) (fun _ s' => returned s0 s') s.
Proof.
  intros S0 Tk (_ & _ & Hl). destruct (tk_slot _ _ _ _ _ Tk) as (v & Hv & Hr & Hi).
  eapply wp_mono; [apply (wp_put [] s ip v (tk_sound _ _ _ _ _ Tk) Hv Hr (not_elem_of_nil _)); rewrite Hi, (disk_inode_blocks s0 s) by apply Tk; exact Hl|].
  intros [] s1 [-> Sd]. eapply taken_dropped; [exact S0|exact Tk|exact Hv|reflexivity|reflexivity|exact Sd].
Qed.

Lemma taken_unlockput s0 i ip s : sound [] s0 -> taken [ip] s0 i ip s -> live s0 i -> wp (iunlockput ip) (fun _ s' => returned s0 s') s.
Proof.
  intros S0 Tk Hl. unfold iunlockput. apply wp_bind. eapply wp_mono; [apply (taken_unlock _ _ _ _ Tk)|]. intros [] s1 Tk1. exact (taken_put s0 i ip s1 S0 Tk1 Hl).
Qed.

(** A directory that was taken and locked, as [dirlookup] needs it. *)
Lemma taken_directory L s0 i ip s w : tree s0 -> taken L s0 i ip s -> live s0 i -> is_dir s0 i = true -> icache s !! ip = Some w -> plain w = disk_inode s0 i ->
  directory ds s ip w /\ content s w = content s0 (disk_inode s0 i) /\ dev w = 1 /\ inum w = i.
Proof.
  intros T Tk Hl Hd Hw Hp. pose proof (tk_blocks _ _ _ _ _ Tk) as Eb. pose proof (tk_sb _ _ _ _ _ Tk) as Es. destruct (tr_dir _ T i Hl Hd) as [R W].
  assert (Hpp : plain w = plain (disk_inode s0 i)) by (rewrite Hp; reflexivity).
  assert (Hc : content s w = content s0 (disk_inode s0 i)) by (apply content_cached; [exact Eb|exact Hpp]).
  split; [|split; [exact Hc|split; [exact (f_equal dev Hp)|exact (f_equal inum Hp)]]]. constructor.
  - exact (formatted_same _ _ Eb Es (tr_formatted _ T)).
  - exact Hw.
  - eapply regular_plain; [exact Eb|exact Es|exact Hpp|exact R].
  - replace (itype w) with (itype (disk_inode s0 i)) by (rewrite <- Hp; reflexivity). apply Z.eqb_eq, Hd.
  - rewrite Hc. exact W.
Qed.

(** A step of the walk: the name is looked up in the locked directory, which is then given back. *)
Lemma taken_step s0 i ip s w nm e : tree s0 -> sound [] s0 -> (2 <= frees s0)%nat -> taken [ip] s0 i ip s -> live s0 i -> is_dir s0 i = true ->
  icache s !! ip = Some w -> plain w = disk_inode s0 i -> name_of nm = name_of e ->
  wp (dirlookup dr ip nm) (fun r s' => match entries s0 i e with
    | Some j => exists jp off, r = Some (jp, off) /\ wp (iunlockput ip) (fun _ s2 => taken [] s0 j jp s2) s' /\ live s0 j
    | None => r = None /\ s' = s
    end) s.
Proof.
  intros T S0 Hfree Tk Hl Hd Hw Hp Hn. destruct (taken_directory _ _ _ _ _ _ T Tk Hl Hd Hw Hp) as (D & Hc & Hdev & Hiw).
  assert (Hroom : has_room s) by (apply frees_room; pose proof (tk_frees _ _ _ _ _ Tk); destruct (decide (refs s0 i = 0)); lia).
  assert (Hr : 0 < ref w) by (destruct (tk_slot _ _ _ _ _ Tk) as (v & Hv & Hr & _); congruence).
  eapply wp_mono; [apply (wp_dirlookup ds dr _ ip w nm D Hroom)|]. rewrite Hc, (found_name _ e _ Hn), Hdev. fold (entries s0 i e).
  intros r s2. destruct (entries s0 i e) as [j|] eqn:Ej; [|auto].
  intros (jp & off & -> & G). destruct (got_entry _ _ _ _ _ ip w G Hw Hr) as (n & Hn2 & Hle). pose proof (got_taken [ip] _ j jp s2 (tk_sound _ _ _ _ _ Tk) G) as TG.
  exists jp, off. split; [reflexivity|]. split; [|exact (tr_entries _ T i e j Hl Hd Ej)].
  eapply wp_mono; [apply (wp_unlockput [] s2 ip _ (tk_sound _ _ _ _ _ TG) Hn2)|]; [cbn; lia|apply not_elem_of_nil| |].
  - rewrite (disk_inode_blocks s s2), (disk_inode_blocks s0 s) by (apply TG || apply Tk). cbn [set_ref inum]. rewrite Hiw. apply Hl.
  - intros [] s3 (x & -> & Ex & Erx & Sd3).
    eapply (taken_next s0 i ip s w j jp s2 n x); [exact S0|exact Tk|exact Hw|exact Hr|exact G|exact Hn2|exact Hle|exact Ex|exact Erx|exact Sd3].
Qed.

Lemma wp_namex_loop s0 parent : tree s0 -> sound [] s0 -> (2 <= frees s0)%nat -> forall fuel path nm i ip s, taken [] s0 i ip s -> live s0 i ->
  Forall (fun c => c <> 0) path -> length nm = 14%nat -> (length path < fuel)%nat ->
  wp (namex_loop dr fuel parent ip path nm) (found_at s0 parent (walk_path parent s0 i (elements path))) s.
Proof.
  intros T S0 Hfree. induction fuel as [|fuel IH]; intros path nm i ip s Tk Hl Hz Hn Hf; [lia|]. cbn [namex_loop].
  pose proof (skipelem_spec path nm Hz Hn) as Hsk. destruct (skipelem path nm) as [[path' nm']|].
  2: { rewrite Hsk. destruct parent; cbn [walk_path found_at]; [|wp_step; exists ip, nm; repeat (split; [auto|]); discriminate].
    apply wp_bind. eapply wp_mono; [apply (taken_put s0 i ip s S0 Tk Hl)|]. intros [] s1 R. wp_step. split; [reflexivity|exact R]. }
  destruct Hsk as (e & He & Hnm & Hn' & Hz' & Hlen & Hlast). assert (Hen : name_of nm' = name_of e) by (rewrite (element_name path e _ Hz He); exact Hnm).
  rewrite He. cbn [walk_path]. apply wp_bind. eapply wp_mono; [apply (taken_lock s0 i ip s (tr_formatted _ T) Tk Hl)|]. intros [] s1 (Tk1 & w & Hw & Hp).
  assert (Hback : wp (iunlockput ip ;; mret (None : option (nat * list Z))) (fun r s' => r = None /\ returned s0 s') s1)
    by (apply wp_bind; eapply wp_mono; [apply (taken_unlockput s0 i ip s1 S0 Tk1 Hl)|]; intros [] s2 R; wp_step; auto).
  apply wp_bind. eapply wp_get_inode; [exact Hw|]. assert (Et : (itype w =? T_DIR) = is_dir s0 i) by (unfold is_dir; rewrite <- Hp; reflexivity). rewrite Et.
  destruct (is_dir s0 i) eqn:Ed; cbn [negb]; [|exact Hback]. destruct (parent && (deref path' =? 0)) eqn:Epar.
  - apply andb_prop in Epar as [-> Ez]. apply Z.eqb_eq, Hlast in Ez. rewrite Ez. apply wp_bind. eapply wp_mono; [apply (taken_unlock _ _ _ _ Tk1)|].
    intros [] s2 Tk2. wp_step. exists ip, nm'. auto.
  - assert (Hsel : (match parent, elements path' with true, [] => Some (i, e) | _, _ => match entries s0 i e with Some j => walk_path parent s0 j (elements path') | None => None end end) =
      match entries s0 i e with Some j => walk_path parent s0 j (elements path') | None => None end).
    { destruct parent; [|reflexivity]. destruct (elements path') eqn:E'; [|reflexivity]. exfalso. apply andb_false_iff in Epar as [?|Epar]; [discriminate|].
      apply Z.eqb_neq in Epar. apply Epar, Hlast. reflexivity. }
    rewrite Hsel. clear Hsel. apply wp_bind. eapply wp_mono; [apply (taken_step s0 i ip s1 w nm' e T S0 Hfree Tk1 Hl Ed Hw Hp Hen)|].
    intros r s2. destruct (entries s0 i e) as [j|]; [|intros [-> ->]; exact Hback].
    intros (jp & off & -> & Hput & Hlj). apply wp_bind. eapply wp_mono; [exact Hput|]. intros [] s3 Tk3. apply IH; try assumption. lia.
Qed.

(** Where a walk starts. *)
Definition start (cwd : inode) (path : list Z) : Z := if deref path =? SLASH then ROOTINO else inum cwd.

Lemma wp_idup s ip v : icache s !! ip = Some v -> 0 < ref v -> dev v = 1 -> wp (idup ip) (fun r s' => r = ip /\ got s 1 (inum v) ip s') s.
Proof.
  intros Hv Hr Hd. unfold idup. apply wp_bind. eapply wp_get_inode; [exact Hv|]. apply wp_bind, wp_put_inode. wp_step. split; [reflexivity|].
  constructor; [reflexivity|reflexivity|]. exists v, (set_ref (ref v + 1) v). repeat (split; [assumption || reflexivity|]). left. auto.
Qed.

Lemma wp_namex s cwd c path parent nm : tree s -> sound [] s -> (2 <= frees s)%nat -> icache s !! cwd = Some c -> 0 < ref c -> live s (start c path) ->
  Forall (fun x => x <> 0) path -> length nm = 14%nat ->
  wp (namex dr cwd path parent nm) (found_at s parent (walk_path parent s (start c path) (elements path))) s.
Proof.
  intros T S0 Hfree Hc Hr Hl Hz Hn. unfold namex. apply wp_bind. unfold start in *.
  assert (Hg : wp (if deref path =? SLASH then iget ROOTDEV ROOTINO else idup cwd) (fun ip s' => got s 1 (if deref path =? SLASH then ROOTINO else inum c) ip s') s).
  { destruct (deref path =? SLASH).
    - apply wp_iget, frees_room. lia.
    - eapply wp_mono; [apply (wp_idup s cwd c Hc Hr (so_dev _ _ S0 _ _ Hc Hr))|]. intros ip s' [-> G]. exact G. }
  eapply wp_mono; [exact Hg|]. intros ip s1 G. apply (wp_namex_loop s parent T S0 Hfree); try assumption; [|lia]. apply got_taken; assumption.
Qed.
End namex.
End NameiFacts.

Module NameiProps.
Import Fs FsFacts DirFacts CacheFacts NameiFacts.

(** C13: Path names are resolved in the tree of directories.  On a disk whose directories are well
    formed and with two free entries in the inode cache, [namei] returns the inode that the elements
    of the path lead to from the root, or from the current directory for a path that does not start
    with a slash, with exactly one more reference to it and none to the inodes on the way; if an
    element is missing or an inode before it is not a directory it returns null and no reference is
    left.  [nameiparent] does the same for the directory of the last element and leaves that element
    in [name].  Both always return, leave the disk as it was and no inode locked. *)
Theorem namei_resolves ds dr s cwd c path nm : tree ds s -> sound [] s -> (2 <= frees s)%nat -> icache s !! cwd = Some c -> 0 < ref c ->
  live s (start c path) -> Forall (fun x => x <> 0) path -> length nm = 14%nat ->
  wp (namei dr cwd path) (fun r s' =>
    match walk_path false s (start c path) (elements path) with
    | Some (i, _) => exists ip, r = Some ip /\ taken [] s i ip s'
    | None => r = None /\ returned s s'
    end) s /\
  wp (nameiparent dr cwd path nm) (fun r s' =>
    match walk_path true s (start c path) (elements path) with
    | Some (i, e) => exists ip nm', r = Some (ip, nm') /\ taken [] s i ip s' /\ name_of nm' = name_of e
    | None => r = None /\ returned s s'
    end) s.
Proof.
  intros T S0 Hfree Hc Hr Hl Hz Hn. split.
  - unfold namei. apply wp_bind. eapply wp_mono; [apply (wp_namex ds dr s cwd c path false (replicate 14 0) T S0 Hfree Hc Hr Hl Hz eq_refl)|].
    intros r s' H. wp_step. unfold found_at in H. destruct (walk_path _ _ _ _) as [[i e]|]; [destruct H as (ip & nm' & -> & H & _); exists ip; auto|destruct H as [-> H]; auto].
  - eapply wp_mono; [apply (wp_namex ds dr s cwd c path true nm T S0 Hfree Hc Hr Hl Hz Hn)|].
    intros r s' H. unfold found_at in H. destruct (walk_path _ _ _ _) as [[i e]|]; [destruct H as (ip & nm' & -> & H & _ & He); exists ip, nm'; auto|exact H].
Qed.

(** A program of four bytes, loaded at 0: the ELF header, one program header and the bytes. *)
Definition program : list Z :=
  (le_bytes 4 0x464C457F ++ replicate 20 0 ++ le_bytes 4 2 ++ le_bytes 4 52 ++ replicate 12 0 ++ le_bytes 2 1 ++ replicate 6 0) ++
  concat (le_bytes 4 <$> [1; 84; 0; 0; 4; 8; 7; 4096]) ++ le_bytes 4 0x04030201.

(** A disk with the directory [/bin] and that program as [/bin/sh]; the process is in [/bin]. *)
Definition home_inodes : list Z :=
  splice 64 (encode_dinode (Inode 1 1 0 false true T_DIR 0 0 1 32 (4 :: replicate 12 0)))
    (splice 128 (encode_dinode (Inode 1 2 0 false true T_DIR 0 0 1 32 (5 :: replicate 12 0)))
      (splice 192 (encode_dinode (Inode 1 3 0 false true 2 0 0 1 88 (6 :: replicate 12 0))) zeros)).
Definition home_blocks : list (list Z) :=
  [zeros; blocks FsProps.tiny !!! 1%nat; home_inodes; <[0%nat := 127]> zeros;
   splice 0 (dirent 1 [46] ++ dirent 2 [98; 105; 110]) zeros; splice 0 (dirent 3 [115; 104] ++ dirent 1 [46; 46]) zeros;
   splice 0 program zeros; zeros; zeros; zeros; zeros; zeros].
Definition home_cwd : inode := Inode 1 2 1 false false 0 0 0 0 0 [].
Definition home : fs := MkFs home_blocks FsProps.tiny_sb (home_cwd :: replicate 2 (Inode 0 0 0 false false 0 0 0 0 0 [])).

Lemma dirent_bytes i nm : Forall is_byte nm -> Forall is_byte (dirent i nm).
Proof. intros H. apply Forall_app. split; [apply le_bytes_byte|apply strncpy_bytes, H]. Qed.

Lemma home_formatted : formatted 4 home.
Proof.
  pose proof zeros_block as Z0. destruct FsProps.tiny_formatted as [F1 F2 F3 F4 F5]. constructor; [exact F1|reflexivity| | |exact F5].
  - cbn [home blocks home_blocks]. repeat (apply Forall_cons; split); try apply Forall_nil_2; try exact Z0.
    + rewrite Forall_lookup in F3. apply (F3 1%nat). reflexivity.
    + split; [reflexivity|]. repeat (apply Forall_splice; [apply encode_bytes|]). apply Z0.
    + split; [reflexivity|]. apply Forall_insert; [apply Z0|unfold is_byte; lia].
    + split; [reflexivity|]. apply Forall_splice; [|apply Z0]. apply Forall_app. split; apply dirent_bytes; repeat constructor; unfold is_byte; lia.
    + split; [reflexivity|]. apply Forall_splice; [|apply Z0]. apply Forall_app. split; apply dirent_bytes; repeat constructor; unfold is_byte; lia.
    + split; [reflexivity|]. apply Forall_splice; [|apply Z0]. unfold program. cbn [fmap list_fmap concat]. rewrite app_nil_r, !Forall_app.
      repeat split; first [apply le_bytes_byte|apply Forall_replicate; unfold is_byte; lia].
  - intros b Hb. assert (b = 0 \/ b = 1 \/ b = 2 \/ b = 3) as [->|[->|[->| ->]]] by lia; reflexivity.
Qed.

(** A file of one block. *)
Lemma one_block_regular ds s v b : dev v = 1 -> addrs v = b :: replicate 12 0 -> 0 <= isize v <= BSIZE -> itype v <> T_DEV -> 0 <= inum v < ninodes (sb s) ->
  0 < b -> ds <= b < size (sb s) -> used s b = true -> regular ds s v.
Proof.
  intros Hd Ha Hs Ht Hi Hb Hr Hu. assert (Hp : pointers s v = 0 :: b :: replicate 139 0) by (unfold pointers, slots, ind; rewrite Ha; reflexivity).
  constructor; try assumption.
  - constructor; [exact Hd|rewrite Ha; reflexivity| |].
    + rewrite Hp. intros i j x Hi' Hj Hx. destruct i as [|[|i]]; [cbn in Hi'; congruence| |]; destruct j as [|[|j]]; try (cbn in Hj; congruence); try reflexivity.
      * apply lookup_replicate in Hj as [-> _]. contradiction.
      * apply lookup_replicate in Hi' as [-> _]. contradiction.
      * apply lookup_replicate in Hi' as [-> _]. contradiction.
    + rewrite Hp. intros c Hc Hc0. apply elem_of_cons in Hc as [->|Hc]; [contradiction|]. apply elem_of_cons in Hc as [->|Hc]; [auto|].
      apply elem_of_replicate in Hc as [-> _]. contradiction.
  - change (MAXFILE * BSIZE) with 71680. unfold BSIZE in Hs. lia.
  - intros o Ho. unfold has, slots, ind. rewrite Ha. replace (o / BSIZE) with 0 by (symmetry; apply Z.div_small; lia). change (b <> 0). lia.
Qed.

Lemma found_in nm c j : found nm c = Some j -> Exists (fun o => de_inum (entry c o) = j) (offsets c) /\ j <> 0.
Proof.
  unfold found. destruct (list_find _ _) as [[k o]|] eqn:E; [|discriminate]. cbn. intros [= <-]. apply list_find_Some in E as (Hk & [H0 _] & _).
  split; [|exact H0]. apply Exists_exists. exists o. split; [eapply list_elem_of_lookup_2, Hk|reflexivity].
Qed.

Lemma home_live i : live home i <-> i = 1 \/ i = 2 \/ i = 3.
Proof.
  split.
  - intros (Hi & Ht & _). change (0 <= i < 8) in Hi. assert (i = 0 \/ i = 1 \/ i = 2 \/ i = 3 \/ i = 4 \/ i = 5 \/ i = 6 \/ i = 7) as H by lia.
    destruct H as [->|[->|[->|[->|[->|[->|[->| ->]]]]]]]; auto; exfalso; apply Ht; reflexivity.
  - intros [->|[->| ->]]; (split; [vm_compute; split; congruence|split; vm_compute; discriminate]).
Qed.

Lemma home_root : content home (disk_inode home 1) = dirent 1 [46] ++ dirent 2 [98; 105; 110].
Proof. reflexivity. Qed.
Lemma home_bin : content home (disk_inode home 2) = dirent 3 [115; 104] ++ dirent 1 [46; 46].
Proof. reflexivity. Qed.

Lemma home_sh : regular 4 home (disk_inode home 3).
Proof. apply (one_block_regular _ _ _ 6); try reflexivity; try (vm_compute; split; congruence). discriminate. Qed.

Lemma home_tree : tree 4 home.
Proof.
  constructor; [exact home_formatted| |].
  - intros i Hi Hd. apply home_live in Hi as [->|[->| ->]]; [| |discriminate Hd].
    + split; [|reflexivity]. apply (one_block_regular _ _ _ 4); try reflexivity; try (vm_compute; split; congruence). discriminate.
    + split; [|reflexivity]. apply (one_block_regular _ _ _ 5); try reflexivity; try (vm_compute; split; congruence). discriminate.
  - intros i nm j Hi Hd Hf. apply home_live. unfold entries in Hf. apply home_live in Hi as [->|[->| ->]]; [rewrite home_root in Hf|rewrite home_bin in Hf|discriminate Hd];
      apply found_in in Hf as [He _]; repeat (apply Exists_cons in He as [<-|He]; [vm_compute; auto|]); inversion He.
Qed.

Lemma home_sound : sound [] home.
Proof.
  assert (H : forall ip v, icache home !! ip = Some v -> ip = O /\ v = home_cwd \/ ref v = 0 /\ busy v = false).
  { intros [|ip] v Hv; [injection Hv as <-; auto|]. right. cbn in Hv. apply (lookup_replicate 2) in Hv as [-> _]. auto. }
  constructor.
  - intros ip v Hv. destruct (H _ _ Hv) as [[_ ->]|[-> _]]; cbn; lia.
  - intros ip v Hv Hr. destruct (H _ _ Hv) as [[_ ->]|[E _]]; [reflexivity|lia].
  - intros ip v Hv Hr. destruct (H _ _ Hv) as [[_ ->]|[E _]]; [|lia]. split; [discriminate|intros []%not_elem_of_nil].
  - intros ip v Hv Hr. destruct (H _ _ Hv) as [[_ ->]|[E _]]; [discriminate|lia].
  - intros ip jp v w Hv Hw Hr Hr' _. destruct (H _ _ Hv) as [[-> _]|[E _]]; [|lia]. destruct (H _ _ Hw) as [[-> _]|[E _]]; [reflexivity|lia].
  - intros ip []%not_elem_of_nil.
Qed.

Lemma namei_resolves_witness : exists ip s', namei (fun _ => None) 0 [47; 98; 105; 110; 47; 47; 115; 104] home = Ok (Some ip, s') /\ refs s' 3 = 1 /\ refs s' 1 = 0.
Proof.
  destruct (namei_resolves 4 (fun _ => None) home 0 home_cwd [47; 98; 105; 110; 47; 47; 115; 104] (replicate 14 0)) as [(r & s' & E & H) _].
  - exact home_tree.
  - exact home_sound.
  - vm_compute. lia.
  - reflexivity.
  - reflexivity.
  - apply home_live. left. reflexivity.
  - repeat constructor; discriminate.
  - reflexivity.
  - change (walk_path false home _ _) with (Some (3, [] : list Z)) in H. destruct H as (ip & -> & T). exists ip, s'. split; [exact E|].
    rewrite !(tk_refs _ _ _ _ _ T). split; reflexivity.
Defined.
End NameiProps.
