(* ===== verification/Mkfs.v ===== *)
(** The file system builder (mkfs.c): the host program that makes the disk image the kernel runs on.

    The image is the list of its sectors.  [exit(1)] and a failed assertion are [Panic].  The host
    is little-endian.  A host file is what [read] delivers of it, buffer by buffer.  A
    [struct dinode] is an [inode] of Fs.v whose in-memory fields are those of an unlocked,
    unreferenced one. *)

From S2P Require Import Prelude Fs.

Module Mkfs.
Import Fs.

Definition FSSIZE : Z := 1000.
Definition LOGSIZE : Z := 30.
Definition NINODES : Z := 200.
Definition T_FILE : Z := 2.

Definition nbitmap : Z := FSSIZE / (BSIZE * 8) + 1.
Definition ninodeblocks : Z := NINODES / IPB + 1.
Definition nlog : Z := LOGSIZE.
Definition nmeta : Z := 2 + nlog + ninodeblocks + nbitmap.
Definition nblocks : Z := FSSIZE - nmeta.

(** What a little-endian machine reads back from the bytes that are stored. *)
Definition xshort (x : Z) : Z := le_word (le_bytes 2 x).
Definition xint (x : Z) : Z := le_word (le_bytes 4 x).

Definition sb : superblock :=
  Superblock (xint FSSIZE) (xint nblocks) (xint NINODES) (xint nlog) (xint 2) (xint (2 + nlog)) (xint (2 + nlog + ninodeblocks)).
(** The bytes of [sb], at the start of a zeroed buffer. *)
Definition sb_bytes : list Z :=
  concat (le_bytes 4 <$> [size sb; Fs.nblocks sb; ninodes sb; Fs.nlog sb; logstart sb; inodestart sb; bmapstart sb]).
Definition zeroes : list Z := replicate (Z.to_nat BSIZE) 0.

Record state := State {
  image : list (list Z);
  freeinode : Z;
  freeblock : Z;
}.
Definition set_image (l : list (list Z)) (s : state) : state := State l (freeinode s) (freeblock s).

(** A write after the end of the file leaves zeros before it. *)
Definition wsect (sec : Z) (buf : list Z) : K state unit := modify (fun s =>
  set_image (<[Z.to_nat sec := buf]> (image s ++ replicate (Z.to_nat sec + 1 - length (image s)) zeroes)) s).
Definition rsect (sec : Z) : K state (list Z) := fun s =>
  match image s !! Z.to_nat sec with
  | Some buf => Ok (buf, s)
  | None => Panic "read"
  end.

Definition winode (inum : Z) (ip : inode) : K state unit :=
  let bn := IBLOCK inum sb in
  buf ← rsect bn;
  wsect bn (splice (dinode_off inum) (encode_dinode ip) buf).
Definition rinode (inum : Z) : K state inode :=
  let bn := IBLOCK inum sb in
  buf ← rsect bn;
  mret (decode_dinode (dinode_off inum) buf (Inode 1 inum 0 false true 0 0 0 0 0 [])).

Definition ialloc (type : Z) : K state Z :=
  inum ← gets freeinode;
  modify (fun s => State (image s) (inum + 1) (freeblock s)) ;;
  winode inum (Inode 1 inum 0 false true (xshort type) 0 0 (xshort 1) (xint 0) (replicate 13 0)) ;;
  mret inum.

(** The free map with the first [used] blocks taken. *)
Definition bitmap (used : Z) : list Z := foldl (fun buf i => set_bit i buf) zeroes (seqZ 0 used).
Definition balloc (used : Z) : K state unit :=
  if negb (used <? BSIZE * 8) then panic "assert"
  else wsect (bmapstart sb) (bitmap used).

(** [xint(freeblock++)] *)
Definition next_block : K state Z :=
  b ← gets freeblock;
  modify (fun s => State (image s) (freeinode s) (b + 1)) ;;
  mret (xint b).

(** The block of the file that [fbn] is in, and the inode with it. *)
Definition block_of (din : inode) (fbn : Z) : K state (Z * inode) :=
  if fbn <? NDIRECT then
    let a := addrs din !!! Z.to_nat fbn in
    if xint a =? 0 then
      b ← next_block;
      mret (xint b, set_addrs (<[Z.to_nat fbn := b]> (addrs din)) din)
    else mret (xint a, din)
  else
    let a := addrs din !!! Z.to_nat NDIRECT in
    din ← (if xint a =? 0 then
             b ← next_block;
             mret (set_addrs (<[Z.to_nat NDIRECT := b]> (addrs din)) din)
           else mret din);
    let ind := xint (addrs din !!! Z.to_nat NDIRECT) in
    indirect ← rsect ind;
    let off := Z.to_nat (4 * (fbn - NDIRECT)) in
    let a := word off indirect in
    if a =? 0 then
      b ← next_block;
      wsect ind (put_word off b indirect) ;;
      mret (xint b, din)
    else mret (xint a, din).

Fixpoint iappend_loop (fuel : nat) (din : inode) (p : list Z) (off : Z) : K state (inode * Z) :=
  let n := Z.of_nat (length p) in
  if n <=? 0 then mret (din, off)
  else
    match fuel with
    | O => fault "out of fuel"
    | Datatypes.S fuel =>
        let fbn := off / BSIZE in
        if negb (fbn <? MAXFILE) then panic "assert"
        else
          '(x, din) ← block_of din fbn;
          let n1 := Z.min n ((fbn + 1) * BSIZE - off) in
          buf ← rsect x;
          wsect x (splice (Z.to_nat (off - fbn * BSIZE)) (take (Z.to_nat n1) p) buf) ;;
          iappend_loop fuel din (drop (Z.to_nat n1) p) (off + n1)
    end.
Definition iappend (inum : Z) (p : list Z) : K state unit :=
  din ← rinode inum;
  '(din, off) ← iappend_loop (length p) din p (xint (isize din));
  winode inum (set_size (xint off) din).

(** An argument: the name, and what [read] delivers, or nothing if the file cannot be opened. *)
Record source := Source { name : list Z; buffers : option (list (list Z)) }.
Definition UNDERSCORE : Z := 95.
Definition target (name : list Z) : list Z := match name with c :: name' => if c =? UNDERSCORE then name' else name | [] => [] end.

Definition add_file (rootino : Z) (f : source) : K state unit :=
  if bool_decide (SLASH ∈ name f) then panic "assert"
  else
    match buffers f with
    | None => panic "open"
    | Some bufs =>
        inum ← ialloc T_FILE;
        iappend rootino (dirent (xshort inum) (target (name f))) ;;
        forM bufs (iappend inum)
    end.

(** The size of the root directory becomes a number of whole blocks. *)
Definition round_root (rootino : Z) : K state unit :=
  din ← rinode rootino;
  let off := (xint (isize din) / BSIZE + 1) * BSIZE in
  winode rootino (set_size (xint off) din).

Definition main (files : list source) : K state unit :=
  modify (fun s => State (image s) (freeinode s) nmeta) ;;
  forM (seqZ 0 FSSIZE) (fun i => wsect i zeroes) ;;
  wsect 1 (splice 0 sb_bytes zeroes) ;;
  rootino ← ialloc T_DIR;
  if negb (rootino =? ROOTINO) then panic "assert"
  else
    iappend rootino (dirent (xshort rootino) [46]) ;;
    iappend rootino (dirent (xshort rootino) [46; 46]) ;;
    forM files (add_file rootino) ;;
    round_root rootino ;;
    used ← gets freeblock;
    balloc used.

(** An empty image file. *)
Definition start : state := State [] 1 0.
End Mkfs.
