(* ===== verification/MkfsProps.v ===== *)
(** What the builder does to its image (mkfs.c, modelled in Mkfs.v): appending to a file does what the
    kernel's [writei] does on the disk that the image is for the kernel, block by block. *)

From S2P Require Import Prelude Fs Dir Namei Mkfs.

Module MkfsFacts.
Import Mkfs Fs FsFacts DirFacts CacheFacts NameiFacts.

(** ** Equations for code that returns *)

Lemma bind_ok {S A B} (m : K S A) (f : A -> K S B) s a s' : m s = Ok (a, s') -> (m ≫= f) s = f a s'.
Proof. intros E. unfold mbind, K_bind. rewrite E. reflexivity. Qed.

Lemma xint_id x : is_u32 x -> xint x = x.
Proof. apply le_word_u32. Qed.

Lemma sb_value : Mkfs.sb = Superblock 1000 941 200 30 2 32 58.
Proof. reflexivity. Qed.

(** ** The free map *)

Lemma bitmap_succ n : 0 <= n -> bitmap (n + 1) = set_bit n (bitmap n).
Proof. intros Hn. unfold bitmap. rewrite seqZ_app by lia. rewrite foldl_app. reflexivity. Qed.

Lemma bitmap_ind (P : Z -> list Z -> Prop) : P 0 zeroes -> (forall n, 0 <= n -> P n (bitmap n) -> P (n + 1) (set_bit n (bitmap n))) -> forall n, 0 <= n -> P n (bitmap n).
Proof.
  intros H0 HS n Hn. pattern n. apply (Z.right_induction _ ltac:(intros ? ? ->; reflexivity) 0); [exact H0| |exact Hn].
  intros m Hm Hp. rewrite <- Z.add_1_r, bitmap_succ by exact Hm. apply HS; assumption.
Qed.

Lemma bitmap_bits n : 0 <= n -> n <= BPB -> is_block (bitmap n) /\ forall b, 0 <= b < BPB -> bit b (bitmap n) = (b <? n).
Proof.
  intros Hn. pattern n, (bitmap n). apply bitmap_ind; [| |exact Hn].
  - intros _. split; [apply zeros_block|]. intros b Hb. rewrite bit_testbit by lia. unfold zeroes. destruct (bit_index b Hb) as [Hi _].
    rewrite lookup_total_replicate_2 by (change (Z.to_nat BSIZE) with 512%nat; lia). rewrite Z.testbit_0_l. lia.
  - intros m Hm IH HB. destruct IH as [Hb Hbit]; [lia|]. split; [apply set_bit_block; [exact Hb|lia]|]. intros b Hr. rewrite bit_set by (assumption || lia). rewrite Hbit by exact Hr. lia.
Qed.

(** ** The image, and the disk it is for the kernel *)

(** The disk of the kernel once the free map is written, with one cached inode. *)
Definition disk (st : state) (v : inode) : fs := MkFs (<[58%nat := bitmap (freeblock st)]> (image st)) Mkfs.sb [v].

Record good (st : state) : Prop := {
  gd_length : Z.of_nat (length (image st)) = 1000;
  gd_blocks : Forall is_block (image st);
  gd_free : 59 <= freeblock st <= 1000;
  gd_zero : forall b, freeblock st <= b < 1000 -> image st !! Z.to_nat b = Some zeroes;
  gd_sb : decode_sb (image st !!! 1%nat) = Mkfs.sb;
}.

Lemma blk_disk st v b : good st -> 0 <= b < 1000 -> blk (disk st v) b = if decide (b = 58) then bitmap (freeblock st) else image st !!! Z.to_nat b.
Proof.
  intros G Hb. pose proof (gd_length _ G). unfold blk, disk. cbn [blocks]. destruct (decide (b = 58)) as [->|Hne].
  - apply list_lookup_total_insert_eq. lia.
  - apply list_lookup_total_insert_ne. lia.
Qed.

Lemma used_disk st v b : good st -> 0 <= b < 1000 -> used (disk st v) b = (b <? freeblock st).
Proof.
  intros G Hb. pose proof (gd_free _ G). assert (E : BBLOCK b (sb (disk st v)) = 58) by (unfold BBLOCK, BPB, BSIZE; cbn [disk sb]; rewrite sb_value, (Z.div_small b) by lia; reflexivity).
  unfold used. rewrite E, blk_disk by (assumption || lia). rewrite decide_True by reflexivity. rewrite (Z.mod_small b) by (unfold BPB, BSIZE; lia). apply bitmap_bits; unfold BPB, BSIZE; lia.
Qed.

Lemma formatted_disk st v : good st -> formatted 59 (disk st v).
Proof.
  intros G. pose proof (gd_free _ G). pose proof (gd_length _ G) as Hl. constructor.
  - cbn [disk sb]. rewrite sb_value. constructor; vm_compute; first [reflexivity|discriminate].
  - cbn [disk sb blocks]. rewrite length_insert. exact Hl.
  - cbn [disk blocks]. apply Forall_insert; [apply G|]. apply bitmap_bits; unfold BPB, BSIZE; lia.
  - intros b Hb. rewrite used_disk by (assumption || lia). lia.
  - cbn [disk sb]. rewrite blk_disk by (assumption || lia). rewrite decide_False by lia. apply G.
Qed.

(** ** Sectors *)

Definition put (b : Z) (x : list Z) (st : state) : state := set_image (<[Z.to_nat b := x]> (image st)) st.

Lemma rsect_at st b : good st -> 0 <= b < 1000 -> rsect b st = Ok (image st !!! Z.to_nat b, st).
Proof. intros G Hb. pose proof (gd_length _ G). unfold rsect. rewrite list_lookup_lookup_total_lt by lia. reflexivity. Qed.

Lemma wsect_at st b x : good st -> 0 <= b < 1000 -> wsect b x st = Ok (tt, put b x st).
Proof.
  intros G Hb. pose proof (gd_length _ G). unfold wsect, modify, put. replace (Z.to_nat b + 1 - length (image st))%nat with O by lia. cbn [replicate]. rewrite app_nil_r. reflexivity.
Qed.

Lemma bread_at st v b : good st -> 0 <= b < 1000 -> b <> 58 -> bread 1 b (disk st v) = Ok (image st !!! Z.to_nat b, disk st v).
Proof.
  intros G Hb Hne. pose proof (gd_length _ G). unfold bread, disk. cbn [blocks negb Z.eqb]. change (negb (1 =? 1)) with false. cbn match. rewrite (proj2 (Z.ltb_ge b 0)) by lia.
  rewrite list_lookup_insert_ne by lia. rewrite list_lookup_lookup_total_lt by lia. reflexivity.
Qed.

Lemma log_write_at st v b x : b <> 58 -> 0 <= b -> log_write b x (disk st v) = Ok (tt, disk (put b x st) v).
Proof.
  intros Hne Hb. unfold log_write, modify, disk, put, set_image. cbn [blocks sb icache image freeblock]. rewrite list_insert_insert_ne by lia. reflexivity.
Qed.

Lemma good_put st b x : good st -> 0 <= b < freeblock st -> b <> 1 -> is_block x -> good (put b x st).
Proof.
  intros [G1 G2 G3 G4 G5] Hb H1 Hx. constructor; unfold put, set_image; cbn [image freeblock].
  - rewrite length_insert. exact G1.
  - apply Forall_insert; assumption.
  - exact G3.
  - intros c Hc. rewrite list_lookup_insert_ne by lia. apply G4, Hc.
  - rewrite list_lookup_total_insert_ne by lia. exact G5.
Qed.

Lemma image_block st b : good st -> 0 <= b < 1000 -> is_block (image st !!! Z.to_nat b).
Proof. intros G Hb. pose proof (gd_length _ G). apply Forall_lookup_total; [apply G|lia]. Qed.

(** ** The next block *)

Definition bump (st : state) : state := State (image st) (freeinode st) (freeblock st + 1).

Lemma good_bump st : good st -> freeblock st < 1000 -> good (bump st).
Proof. intros [G1 G2 G3 G4 G5] Hf. constructor; cbn [bump image freeblock]; try assumption; [lia|]. intros b Hb. apply G4. lia. Qed.

Lemma next_block_at st : good st -> next_block st = Ok (freeblock st, bump st).
Proof. intros G. pose proof (gd_free _ G). unfold next_block. rewrite (bind_ok _ _ _ _ _ eq_refl), (bind_ok _ _ _ _ _ eq_refl). rewrite xint_id by (unfold is_u32; lia). reflexivity. Qed.

(** The kernel takes the same block. *)
Lemma balloc_at st v : good st -> freeblock st < 1000 -> balloc 1 (disk st v) = Ok (freeblock st, disk (bump st) v).
Proof.
  intros G Hf. pose proof (gd_free _ G) as Hr. pose proof (gd_length _ G) as Hl. destruct (bitmap_bits (freeblock st)) as [Hb Hbit]; [lia|unfold BPB, BSIZE; lia|].
  assert (Hread : bread 1 58 (disk st v) = Ok (bitmap (freeblock st), disk st v)).
  { unfold bread, disk. change (negb (1 =? 1)) with false. cbn match. cbn [blocks]. change (58 <? 0) with false. cbn match. rewrite list_lookup_insert_eq by lia. reflexivity. }
  assert (Hfind : list_find (fun bi => bit bi (bitmap (freeblock st)) = false) (seqZ 0 (Z.min BPB (1000 - 0))) = Some (Z.to_nat (freeblock st), freeblock st)).
  { apply list_find_Some. split; [apply lookup_seqZ; unfold BPB, BSIZE; lia|]. split; [rewrite Hbit by (unfold BPB, BSIZE; lia); lia|].
    intros j y Hj Hlt. apply lookup_seqZ in Hj as [-> Hj]. rewrite Hbit by (unfold BPB, BSIZE in *; lia). lia. }
  unfold balloc. rewrite (bind_ok _ _ _ _ _ eq_refl). change (steps (size (sb (disk st v))) BPB) with [0]. cbn [balloc_loop]. rewrite (bind_ok _ _ _ _ _ eq_refl).
  change (BBLOCK 0 (sb (disk st v))) with 58. change (size (sb (disk st v))) with 1000. rewrite (bind_ok _ _ _ _ _ Hread), Hfind, Z.add_0_l, (bind_ok _ _ _ _ _ eq_refl), <- bitmap_succ by lia.
  change (MkFs (<[58%nat := bitmap (freeblock st + 1)]> (<[58%nat := bitmap (freeblock st)]> (image st))) Mkfs.sb [v]) with (wr 58 (bitmap (freeblock st + 1)) (disk st v)).
  assert (E : wr 58 (bitmap (freeblock st + 1)) (disk st v) = disk (bump st) v) by (unfold wr, disk; cbn [blocks sb icache bump image freeblock]; change (Z.to_nat 58) with 58%nat; rewrite list_insert_insert_eq; reflexivity).
  change (MkFs _ _ _) with (wr 58 (bitmap (freeblock st + 1)) (disk st v)). rewrite E. pose proof (good_bump st G Hf) as G'.
  assert (Hz : bzero 1 (freeblock st) (disk (bump st) v) = Ok (tt, disk (bump st) v)).
  { unfold bzero. rewrite (bind_ok _ _ _ _ _ (bread_at (bump st) v (freeblock st) G' ltac:(lia) ltac:(lia))), log_write_at by lia. do 3 f_equal.
    unfold put, set_image. destruct st as [im fi fb]. cbn [bump image freeinode freeblock] in *.
    rewrite (list_insert_id im) by (apply (gd_zero _ G); cbn; lia). reflexivity. }
  rewrite (bind_ok _ _ _ _ _ Hz). reflexivity.
Qed.

(** ** The block of a file *)

Lemma get_inode_at st v : get_inode 0 (disk st v) = Ok (v, disk st v).
Proof. reflexivity. Qed.

Lemma put_inode_at st v w : put_inode 0 w (disk st v) = Ok (tt, disk st w).
Proof. reflexivity. Qed.

Lemma pointer_range st v a : owns 59 (disk st v) v -> a ∈ pointers (disk st v) v -> a = 0 \/ 59 <= a < 1000.
Proof. intros O Ha. destruct (decide (a = 0)) as [->|Hne]; [auto|]. right. apply (ow_used _ _ _ O a Ha Hne). Qed.

Lemma pointer_used st v a : good st -> owns 59 (disk st v) v -> a ∈ pointers (disk st v) v -> a <> 0 -> 59 <= a < freeblock st.
Proof. intros G O Ha Hne. destruct (ow_used _ _ _ O a Ha Hne) as [Hr Hu]. change (size (sb (disk st v))) with 1000 in Hr. rewrite used_disk in Hu by (assumption || lia). lia. Qed.

Lemma xint_pointer a : a = 0 \/ 59 <= a < 1000 -> xint a = a.
Proof. intros H. apply xint_id. unfold is_u32. lia. Qed.

(** How many blocks are taken for block [k] of a file. *)
Definition taken_for (st : state) (v : inode) (fbn : Z) : Z :=
  if negb (slots (disk st v) v !!! Z.to_nat fbn =? 0) then 0 else if fbn <? 12 then 1 else if ind v =? 0 then 2 else 1.

Record sim_block (st : state) (v : inode) (fbn b : Z) (st' : state) (v' : inode) : Prop := {
  sm_mkfs : block_of v fbn st = Ok ((b, v'), st');
  sm_kernel : bmap 0 fbn (disk st v) = Ok (b, disk st' v');
  sm_good : good st';
  sm_inode : freeinode st' = freeinode st;
  sm_free : freeblock st' = freeblock st + taken_for st v fbn;
  sm_ind : ind v' = if (12 <=? fbn) && (ind v =? 0) then freeblock st else ind v;
}.

Lemma block_direct st v fbn : good st -> owns 59 (disk st v) v -> 0 <= fbn < 12 -> (slots (disk st v) v !!! Z.to_nat fbn <> 0 \/ freeblock st < 1000) ->
  exists b st' v', sim_block st v fbn b st' v'.
Proof.
  intros G O Hf Hroom. pose proof (slots_direct 59 (disk st v) v (Z.to_nat fbn) O ltac:(lia)) as Es. pose proof (gd_free _ G) as Hfb.
  pose proof (slot_lookup 59 _ _ (Z.to_nat fbn) O ltac:(lia)) as Hl. assert (Hr : addrs v !!! Z.to_nat fbn = 0 \/ 59 <= addrs v !!! Z.to_nat fbn < 1000).
  { rewrite <- Es. apply (pointer_range st v _ O). right. exact (list_elem_of_lookup_2 _ _ _ Hl). }
  assert (Hd : (fbn <? NDIRECT) = true) by (apply Z.ltb_lt; unfold NDIRECT; lia). assert (H12 : (12 <=? fbn) = false) by lia. destruct (Z.eqb_spec (addrs v !!! Z.to_nat fbn) 0) as [E0|E0].
  - destruct Hroom as [Hroom|Hroom]; [congruence|]. exists (freeblock st), (bump st), (set_addrs (<[Z.to_nat fbn := freeblock st]> (addrs v)) v). constructor.
    + unfold block_of. rewrite Hd, E0. change (xint 0 =? 0) with true. cbn match. rewrite (bind_ok _ _ _ _ _ (next_block_at st G)), xint_id by (unfold is_u32; lia). reflexivity.
    + unfold bmap. rewrite (bind_ok _ _ _ _ _ (get_inode_at st v)), Hd, E0, (ow_dev _ _ _ O). cbn [negb Z.eqb]. rewrite (bind_ok _ _ _ _ _ (balloc_at st v G Hroom)), (bind_ok _ _ _ _ _ (put_inode_at _ _ _)). reflexivity.
    + apply good_bump; assumption.
    + reflexivity.
    + unfold taken_for. rewrite Es, E0. cbn [Z.eqb negb]. rewrite (proj2 (Z.ltb_lt fbn 12)) by lia. reflexivity.
    + rewrite H12. cbn [andb]. unfold ind. cbn [set_addrs addrs]. apply list_lookup_total_insert_ne. change (Z.to_nat NDIRECT) with 12%nat. lia.
  - exists (addrs v !!! Z.to_nat fbn), st, v. constructor; try assumption; try reflexivity.
    + unfold block_of. rewrite Hd, xint_pointer, (proj2 (Z.eqb_neq _ _) E0) by exact Hr. reflexivity.
    + unfold bmap. rewrite (bind_ok _ _ _ _ _ (get_inode_at st v)), Hd, (proj2 (Z.eqb_neq _ _) E0). reflexivity.
    + unfold taken_for. rewrite Es, (proj2 (Z.eqb_neq _ _) E0). cbn [negb]. lia.
    + rewrite H12. reflexivity.
Qed.

(** The part that follows once there is an indirect block, of both programs. *)
Definition mkfs_entry (din : inode) (i : Z) (off : nat) : K state (Z * inode) :=
  indirect ← rsect i;
  let a := word off indirect in
  if a =? 0 then b ← next_block; wsect i (put_word off b indirect) ;; mret (xint b, din) else mret (xint a, din).
Definition kernel_entry (i : Z) (off : nat) : K fs Z :=
  x ← bread 1 i;
  let a := word off x in
  if negb (a =? 0) then mret a else a ← balloc 1; log_write i (put_word off a x) ;; mret a.

Lemma entry_at st v i off : good st -> 59 <= i < freeblock st -> (off + 4 <= 512)%nat -> let a := word off (image st !!! Z.to_nat i) in
  a = 0 \/ 59 <= a < 1000 -> (a <> 0 \/ freeblock st < 1000) ->
  exists b st', mkfs_entry v i off st = Ok ((b, v), st') /\ kernel_entry i off (disk st v) = Ok (b, disk st' v) /\ good st' /\ freeinode st' = freeinode st /\
    freeblock st' = freeblock st + (if a =? 0 then 1 else 0).
Proof.
  intros G Hi Ho a Ha Hroom. pose proof (gd_free _ G) as Hfb. unfold mkfs_entry, kernel_entry. rewrite (bind_ok _ _ _ _ _ (rsect_at st i G ltac:(lia))), (bind_ok _ _ _ _ _ (bread_at st v i G ltac:(lia) ltac:(lia))). fold a.
  destruct (Z.eqb_spec a 0) as [E|E]; cbn [negb].
  - destruct Hroom as [Hroom|Hroom]; [congruence|]. pose proof (good_bump st G Hroom) as G'. exists (freeblock st), (put i (put_word off (freeblock st) (image st !!! Z.to_nat i)) (bump st)).
    rewrite (bind_ok _ _ _ _ _ (next_block_at st G)), (bind_ok _ _ _ _ _ (wsect_at (bump st) i _ G' ltac:(lia))), xint_id by (unfold is_u32; lia). split; [reflexivity|].
    rewrite (bind_ok _ _ _ _ _ (balloc_at st v G Hroom)), (bind_ok _ _ _ _ _ (log_write_at (bump st) v i _ ltac:(lia) ltac:(lia))). split; [reflexivity|].
    split; [|split; reflexivity]. apply good_put; [exact G'|cbn; lia|lia|]. apply put_word_block; [|exact Ho]. apply image_block; [exact G|lia].
  - exists a, st. rewrite xint_pointer by exact Ha. split; [reflexivity|]. split; [reflexivity|]. split; [exact G|]. split; [reflexivity|lia].
Qed.

Lemma word_zeroes k : (k < 128)%nat -> word (4 * k) zeroes = 0.
Proof. intros Hk. pose proof (lookup_words zeros k Hk) as E. rewrite words_zeros, lookup_replicate_2 in E by exact Hk. injection E as E. symmetry. exact E. Qed.

Lemma block_indirect st v fbn : good st -> owns 59 (disk st v) v -> 12 <= fbn < 140 -> (slots (disk st v) v !!! Z.to_nat fbn <> 0 \/ freeblock st + 2 <= 1000) ->
  exists b st' v', sim_block st v fbn b st' v'.
Proof.
  intros G O Hf Hroom. set (k := Z.to_nat (fbn - 12)). assert (Hk : (k < 128)%nat) by (unfold k; lia). assert (Ek : Z.to_nat fbn = (12 + k)%nat) by (unfold k; lia).
  pose proof (slots_indirect 59 (disk st v) v k O Hk) as Es. pose proof (gd_free _ G) as Hfb. pose proof (pointer_range st v (ind v) O ltac:(left)) as Hi.
  assert (Hslot : slots (disk st v) v !!! (12 + k)%nat = 0 \/ 59 <= slots (disk st v) v !!! (12 + k)%nat < 1000).
  { apply (pointer_range st v _ O). right. apply (list_elem_of_lookup_2 _ (12 + k)%nat). apply (slot_lookup 59); [exact O|lia]. }
  assert (Hd : (fbn <? NDIRECT) = false) by (apply Z.ltb_ge; unfold NDIRECT; lia). assert (Hd2 : (fbn - NDIRECT <? NINDIRECT) = true) by (apply Z.ltb_lt; change NINDIRECT with 128; unfold NDIRECT; lia).
  assert (Eoff : Z.to_nat (4 * (fbn - NDIRECT)) = (4 * k)%nat) by (unfold k, NDIRECT; lia). assert (H12 : (12 <=? fbn) = true) by lia. rewrite Ek in Hroom.
  destruct (Z.eqb_spec (ind v) 0) as [E0|E0].
  - destruct Hroom as [Hroom|Hroom]; [congruence|]. set (v1 := set_addrs (<[Z.to_nat NDIRECT := freeblock st]> (addrs v)) v). pose proof (good_bump st G ltac:(lia)) as G1.
    assert (Ei : addrs v1 !!! Z.to_nat NDIRECT = freeblock st) by (cbn; apply list_lookup_total_insert_eq; rewrite (ow_length _ _ _ O); lia).
    assert (Ew : word (4 * k) (image (bump st) !!! Z.to_nat (freeblock st)) = 0) by (cbn [bump image]; rewrite (list_lookup_total_correct _ _ _ (gd_zero _ G (freeblock st) ltac:(lia))); apply word_zeroes, Hk).
    destruct (entry_at (bump st) v1 (freeblock st) (4 * k) G1) as (b & st' & M1 & K1 & G' & I' & F'); [cbn; lia|lia|left; exact Ew|right; cbn; lia|]. rewrite Ew in F'. cbn [Z.eqb bump freeblock] in F'.
    exists b, st', v1. constructor; try assumption.
    + unfold block_of. rewrite Hd. fold (ind v). rewrite E0. change (xint 0 =? 0) with true. cbn match. assert (Hn : (b ← next_block; mret (set_addrs (<[Z.to_nat NDIRECT := b]> (addrs v)) v)) st = Ok (v1, bump st)) by (rewrite (bind_ok _ _ _ _ _ (next_block_at st G)); reflexivity).
      rewrite (bind_ok _ _ _ _ _ Hn), Ei, Eoff, xint_id by (unfold is_u32; lia). exact M1.
    + unfold bmap. rewrite (bind_ok _ _ _ _ _ (get_inode_at st v)), Hd, Hd2. fold (ind v). rewrite E0, (ow_dev _ _ _ O), Eoff. cbn [negb Z.eqb].
      assert (Hn : (a ← balloc 1; put_inode 0 (set_addrs (<[Z.to_nat NDIRECT := a]> (addrs v)) v) ;; mret a) (disk st v) = Ok (freeblock st, disk (bump st) v1)).
      { rewrite (bind_ok _ _ _ _ _ (balloc_at st v G ltac:(lia))), (bind_ok _ _ _ _ _ (put_inode_at _ _ _)). reflexivity. }
      rewrite (bind_ok _ _ _ _ _ Hn). exact K1.
    + unfold taken_for. rewrite Ek, Es, E0, (proj2 (Z.ltb_ge fbn 12)) by lia. cbn [Z.eqb negb]. lia.
    + rewrite H12, (proj2 (Z.eqb_eq _ _) E0). exact Ei.
  - assert (Hiu : 59 <= ind v < freeblock st) by (apply (pointer_used st v _ G O); [left|exact E0]). rewrite blk_disk, decide_False in Es by (assumption || lia).
    destruct (entry_at st v (ind v) (4 * k) G Hiu ltac:(lia)) as (b & st' & M1 & K1 & G' & I' & F'); [rewrite <- Es; exact Hslot|rewrite <- Es; destruct Hroom; [left; assumption|right; lia]|].
    exists b, st', v. constructor; try assumption.
    + unfold block_of. rewrite Hd. fold (ind v). rewrite xint_pointer, (proj2 (Z.eqb_neq _ _) E0) by exact Hi. rewrite (bind_ok (mret v) _ st v st eq_refl). fold (ind v). rewrite xint_pointer, Eoff by exact Hi. exact M1.
    + unfold bmap. rewrite (bind_ok _ _ _ _ _ (get_inode_at st v)), Hd, Hd2. fold (ind v). rewrite (proj2 (Z.eqb_neq _ _) E0), (ow_dev _ _ _ O), Eoff. cbn [negb]. rewrite (bind_ok (mret (ind v)) _ (disk st v) _ _ eq_refl). exact K1.
    + rewrite F'. unfold taken_for. rewrite Ek, Es, (proj2 (Z.eqb_neq (ind v) 0) E0), (proj2 (Z.ltb_ge fbn 12)) by lia. destruct (word _ _ =? 0); reflexivity.
    + rewrite H12, (proj2 (Z.eqb_neq (ind v) 0) E0). reflexivity.
Qed.

Lemma block_at st v fbn : good st -> owns 59 (disk st v) v -> 0 <= fbn < 140 -> (slots (disk st v) v !!! Z.to_nat fbn <> 0 \/ freeblock st + 2 <= 1000) ->
  exists b st' v', sim_block st v fbn b st' v'.
Proof.
  intros G O Hf Hroom. destruct (decide (fbn < 12)); [apply block_direct; try assumption; [lia|destruct Hroom; [auto|right; lia]]|apply block_indirect; try assumption; lia].
Qed.

(** ** Counting blocks *)

(** The blocks for [n] bytes, and with the indirect block. *)
Definition nblk (n : Z) : Z := (n + 511) / 512.
Definition cost (k : Z) : Z := k + (if 12 <? k then 1 else 0).

Lemma nblk_off off : 0 <= off -> nblk off = if off mod 512 =? 0 then off / 512 else off / 512 + 1.
Proof.
  intros Ho. pose proof (Z.div_mod off 512 ltac:(lia)). pose proof (Z.mod_pos_bound off 512 ltac:(lia)). unfold nblk. destruct (Z.eqb_spec (off mod 512) 0) as [E|E]; symmetry.
  - apply (Z.div_unique_pos _ _ _ 511); lia.
  - apply (Z.div_unique_pos _ _ _ (off mod 512 - 1)); lia.
Qed.

Lemma nblk_within off m : 0 <= off -> 0 < m -> off mod 512 + m <= 512 -> nblk (off + m) = off / 512 + 1.
Proof.
  intros Ho Hm Hr. pose proof (Z.div_mod off 512 ltac:(lia)). pose proof (Z.mod_pos_bound off 512 ltac:(lia)). unfold nblk. symmetry. apply (Z.div_unique_pos _ _ _ (off mod 512 + m - 1)); lia.
Qed.

Lemma nblk_mono a b : a <= b -> nblk a <= nblk b.
Proof. intros H. apply Z.div_le_mono; lia. Qed.

Lemma cost_mono a b : a <= b -> cost a <= cost b.
Proof. intros H. unfold cost. destruct (Z.ltb_spec 12 a), (Z.ltb_spec 12 b); lia. Qed.

(** The file has its first [k] blocks, and what is needed for them. *)
Definition dense (k : Z) (s : fs) (v : inode) : Prop := (forall j, (j < 140)%nat -> slots s v !!! j <> 0 <-> Z.of_nat j < k) /\ (ind v <> 0 <-> 12 < k).
(** What the file has after [off] is zero. *)
Definition zero_tail (off : Z) (s : fs) (v : inode) : Prop := forall o, off <= o < MAXFILE * BSIZE -> has s v o -> fbyte s v o = 0.

Lemma nfree_disk st v : good st -> freeblock st + 2 <= 1000 -> (2 <= nfree (disk st v))%nat.
Proof.
  intros G Hf. pose proof (gd_free _ G). unfold nfree. change (size (sb (disk st v))) with 1000. change 2%nat with (length [freeblock st; freeblock st + 1]). apply submseteq_length, NoDup_submseteq.
  - apply NoDup_cons. split; [|apply NoDup_singleton]. intros Hin%list_elem_of_singleton. lia.
  - intros x Hx. assert (x = freeblock st \/ x = freeblock st + 1) as Hx' by (apply elem_of_cons in Hx as [?|Hx]; [auto|apply list_elem_of_singleton in Hx; auto]).
    apply list_elem_of_filter. split; [rewrite used_disk by (assumption || lia); lia|]. apply elem_of_seqZ. lia.
Qed.

(** A block taken by both programs is as the kernel's invariants want it. *)
Lemma sim_bmapped st v fbn b st' v' : good st -> owns 59 (disk st v) v -> 0 <= fbn < 140 -> (slots (disk st v) v !!! Z.to_nat fbn <> 0 \/ freeblock st + 2 <= 1000) ->
  sim_block st v fbn b st' v' -> bmapped 59 0 (disk st v) v (Z.to_nat fbn) b (disk st' v') v'.
Proof.
  intros G O Hf Hroom S. destruct (wp_bmap 59 (disk st v) 0 v fbn (formatted_disk st v G) O eq_refl Hf) as (b' & s' & E & v'' & B); [destruct Hroom; [left; assumption|right; apply nfree_disk; assumption]|].
  rewrite (sm_kernel _ _ _ _ _ _ S) in E. injection E as <- <-. assert (v'' = v') as ->; [|exact B]. pose proof (bm_icache _ _ _ _ _ _ _ _ B) as Ei. injection Ei as ->. reflexivity.
Qed.

Lemma taken_cost st v off : dense (nblk off) (disk st v) v -> 0 <= off < 140 * 512 -> taken_for st v (off / 512) = cost (off / 512 + 1) - cost (nblk off).
Proof.
  intros [D1 D2] Ho. pose proof (Z.div_mod off 512 ltac:(lia)). pose proof (Z.mod_pos_bound off 512 ltac:(lia)). set (bn := off / 512) in *.
  specialize (D1 (Z.to_nat bn) ltac:(lia)). rewrite Z2Nat.id in D1 by lia. pose proof (nblk_off off ltac:(lia)) as En. fold bn in En. unfold taken_for, cost. rewrite En in *.
  destruct (Z.eqb_spec (off mod 512) 0) as [E|E], (Z.eqb_spec (slots (disk st v) v !!! Z.to_nat bn) 0) as [E1|E1], (Z.eqb_spec (ind v) 0) as [E2|E2]; cbn [negb]; destruct (Z.ltb_spec bn 12), (Z.ltb_spec 12 (bn + 1)), (Z.ltb_spec 12 bn); try lia; exfalso; tauto || lia.
Qed.

(** ** Appending *)

(** The file [v], with [off] bytes, has got the bytes [bs] at its end. *)
Record grew (st : state) (v : inode) (bs : list Z) (off : Z) (st' : state) (v' : inode) : Prop := {
  gw_good : good st';
  gw_inodes : freeinode st' = freeinode st;
  gw_free : freeblock st' = freeblock st + cost (nblk (off + Z.of_nat (length bs))) - cost (nblk off);
  gw_dense : dense (nblk (off + Z.of_nat (length bs))) (disk st' v') v';
  gw_tail : zero_tail (off + Z.of_nat (length bs)) (disk st' v') v';
  gw_evolved : evolved 59 (disk st v) v (disk st' v') v';
  gw_written : written bs off (disk st v) v (disk st' v') v';
  gw_addrs : v' = set_addrs (addrs v') v;
  gw_meta : meta_same (disk st v) (disk st' v');
}.

Record ready (st : state) (v : inode) (off : Z) : Prop := {
  rd_good : good st;
  rd_owns : owns 59 (disk st v) v;
  rd_dense : dense (nblk off) (disk st v) v;
  rd_tail : zero_tail off (disk st v) v;
  rd_off : 0 <= off;
}.

Lemma grew_ready st v bs off st' v' : ready st v off -> grew st v bs off st' v' -> ready st' v' (off + Z.of_nat (length bs)).
Proof. intros R G. constructor; [apply G|apply (gw_evolved _ _ _ _ _ _ G)|apply G|apply G|]. pose proof (rd_off _ _ _ R). lia. Qed.

Lemma grew_nil st v off : ready st v off -> grew st v [] off st v.
Proof.
  intros [R1 R2 R3 R4 R5]. constructor; cbn [length]; rewrite ?Z.add_0_r; try assumption; try reflexivity.
  - lia.
  - apply evolved_refl; [apply formatted_disk, R1|exact R2].
  - intros o Ho Hc. cbn [length] in *. rewrite decide_False by lia. destruct Hc as [Hc|Hc]; [auto|lia].
  - destruct v; reflexivity.
  - intros c _. reflexivity.
Qed.

Lemma grew_trans st v bs1 off st1 v1 bs2 st2 v2 : 0 <= off -> grew st v bs1 off st1 v1 -> grew st1 v1 bs2 (off + Z.of_nat (length bs1)) st2 v2 -> grew st v (bs1 ++ bs2) off st2 v2.
Proof.
  intros Ho A B. assert (E : off + Z.of_nat (length (bs1 ++ bs2)) = off + Z.of_nat (length bs1) + Z.of_nat (length bs2)) by (rewrite length_app; lia). constructor; rewrite ?E; try apply B.
  - rewrite (gw_inodes _ _ _ _ _ _ B). apply A.
  - rewrite (gw_free _ _ _ _ _ _ B), (gw_free _ _ _ _ _ _ A). lia.
  - eapply evolved_trans; [apply A|apply B].
  - eapply blocks_written_trans; [exact Ho|apply A|apply B].
  - rewrite (gw_addrs _ _ _ _ _ _ B), (gw_addrs _ _ _ _ _ _ A). reflexivity.
  - apply (meta_trans _ (disk st1 v1)); [reflexivity|apply A|apply B].
Qed.

Section round.
Context (st : state) (v : inode) (bs : list Z) (off : Z).
Hypothesis R : ready st v off.
Hypothesis Hbytes : Forall is_byte bs.
Hypothesis Hlen : 1 <= Z.of_nat (length bs).
Hypothesis Hfit : off mod BSIZE + Z.of_nat (length bs) <= BSIZE.
Hypothesis Hmax : off < MAXFILE * BSIZE.
Hypothesis Hroom : freeblock st + cost (off / BSIZE + 1) - cost (nblk off) + 1 <= 1000.

Lemma round_index : 0 <= off / BSIZE < 140 /\ off = 512 * (off / BSIZE) + off mod BSIZE /\ 0 <= off mod BSIZE < 512.
Proof using All.
  pose proof (rd_off _ _ _ R). unfold BSIZE. change (MAXFILE * BSIZE) with (140 * 512) in Hmax. pose proof (Z.div_mod off 512 ltac:(lia)). pose proof (Z.mod_pos_bound off 512 ltac:(lia)). lia.
Qed.

Lemma round_room : slots (disk st v) v !!! Z.to_nat (off / BSIZE) <> 0 \/ freeblock st + 2 <= 1000.
Proof using All.
  destruct round_index as (H1 & H2 & H3). destruct (rd_dense _ _ _ R) as [D1 _]. pose proof (nblk_off off (rd_off _ _ _ R)) as En. unfold BSIZE in *. destruct (Z.eqb_spec (off mod 512) 0) as [E|E]; [right|left; apply D1; lia].
  rewrite En in Hroom. unfold cost in Hroom. destruct (Z.ltb_spec 12 (off / 512 + 1)), (Z.ltb_spec 12 (off / 512)); lia.
Qed.

Lemma round_at : exists b st1 v', sim_block st v (off / BSIZE) b st1 v' /\ 59 <= b < freeblock st1 /\
  grew st v bs off (put b (splice (Z.to_nat (off mod BSIZE)) bs (image st1 !!! Z.to_nat b)) st1) v'.
Proof using All.
  destruct round_index as (H1 & H2 & H3). destruct R as [G O D T Ho]. destruct (block_at st v (off / BSIZE) G O H1 round_room) as (b & st1 & v' & S). pose proof (sim_bmapped _ _ _ _ _ _ G O H1 round_room S) as B.
  exists b, st1, v'. split; [exact S|]. pose proof (sm_good _ _ _ _ _ _ S) as G1. pose proof (gd_free _ G1) as Hf1.
  destruct (write_round 59 0 (disk st v) v off bs b _ v' (formatted_disk st v G) O ltac:(lia) B Hbytes Hlen Hfit) as (E2 & [V2 M2] & _ & S2 & _ & W2).
  assert (Hb : 59 <= b < freeblock st1).
  { pose proof (bm_block _ _ _ _ _ _ _ _ B) as Hb. change (size (sb (disk st v))) with 1000 in Hb. apply (pointer_used st1 v'); [exact G1|apply (gr_owns _ _ _ _ _ _ (bm_grown _ _ _ _ _ _ _ _ B))| |lia].
    right. apply (list_elem_of_lookup_2 _ (Z.to_nat (off / BSIZE))). rewrite (bm_slots _ _ _ _ _ _ _ _ B). apply list_lookup_insert_eq. rewrite (length_slots 59 _ _ O). lia. }
  split; [exact Hb|]. assert (Eb : blk (disk st1 v') b = image st1 !!! Z.to_nat b) by (rewrite blk_disk, decide_False by (assumption || lia); reflexivity).
  set (x := splice _ bs (image st1 !!! Z.to_nat b)). assert (Ed : write_block b off bs (disk st1 v') = disk (put b x st1) v').
  { unfold write_block. rewrite Eb. fold x. pose proof (log_write_at st1 v' b x ltac:(lia) ltac:(lia)) as El. unfold log_write, modify in El. injection El as El. unfold wr, disk, put, set_image in *. cbn [image freeblock blocks sb icache] in *. rewrite El. reflexivity. }
  rewrite Ed in *. pose proof (sm_free _ _ _ _ _ _ S) as Hfree. pose proof (nblk_within off (Z.of_nat (length bs)) Ho ltac:(lia) ltac:(unfold BSIZE in *; lia)) as En.
  assert (Hsl : forall j, (j < 140)%nat -> slots (disk (put b x st1) v') v' !!! j = if decide (j = Z.to_nat (off / BSIZE)) then b else slots (disk st v) v !!! j).
  { intros j Hj. rewrite S2. destruct (decide _) as [->|Hne]; [apply list_lookup_total_insert_eq; rewrite (length_slots 59 _ _ O); lia|apply list_lookup_total_insert_ne; congruence]. }
  assert (Gp : good (put b x st1)).
  { apply good_put; [exact G1|lia|lia|]. pose proof (image_block st1 b G1 ltac:(lia)) as [Hl Hby]. unfold x. split; [rewrite length_splice; [exact Hl|rewrite Hl; unfold BSIZE in *; lia]|apply Forall_splice; assumption]. }
  constructor.
  - exact Gp.
  - apply S.
  - cbn [put set_image freeblock]. pose proof (taken_cost st v off D ltac:(change (MAXFILE * BSIZE) with (140 * 512) in Hmax; lia)) as Et. change (off / 512) with (off / BSIZE) in *. rewrite Hfree, Et, En. lia.
  - destruct D as [D1 D2]. pose proof (nblk_off off Ho) as E0. rewrite En. unfold BSIZE in *. split.
    + intros j Hj. rewrite Hsl by exact Hj. destruct (decide _) as [->|Hne]; [lia|]. rewrite (D1 j Hj), E0. destruct (Z.eqb_spec (off mod 512) 0); lia.
    + rewrite (sm_ind _ _ _ _ _ _ S). rewrite E0 in D2. pose proof (gd_free _ G). revert D2. destruct (Z.leb_spec 12 (off / 512)), (Z.eqb_spec (ind v) 0), (Z.eqb_spec (off mod 512) 0); cbn [andb]; lia.
  - intros o Hoff Hhas. destruct (decide (slots (disk st v) v !!! Z.to_nat (o / BSIZE) = 0)) as [Ez|Ez].
    + unfold has in Hhas. destruct (block_index o ltac:(lia)) as [Hj Hj']. unfold fbyte. rewrite Hsl in Hhas |- * by exact Hj. destruct (decide _) as [Ej|Hne]; [|congruence].
      rewrite blk_disk by (exact Gp || lia).
      rewrite decide_False by lia. cbn [put set_image image]. rewrite list_lookup_total_insert_eq by (pose proof (gd_length _ G1); lia).
      rewrite Ej in Ez. destruct (bm_new _ _ _ _ _ _ _ _ B Ez) as [_ Hz]. rewrite Eb in Hz. unfold x. rewrite Hz. pose proof (Z.div_mod o 512 ltac:(lia)). pose proof (Z.mod_pos_bound o 512 ltac:(lia)).
      assert (o / BSIZE = off / BSIZE) by (apply Z2Nat.inj; unfold BSIZE in *; lia). unfold BSIZE in *. rewrite list_lookup_total_alt, lookup_splice by (unfold zeros; rewrite length_replicate; unfold BSIZE; lia).
      rewrite decide_False by lia. unfold zeros. rewrite lookup_replicate_2 by (unfold BSIZE; lia). reflexivity.
    + destruct (W2 o ltac:(lia) (or_introl Ez)) as [_ Ew]. rewrite Ew, decide_False by lia. apply T; [lia|exact Ez].
  - exact E2.
  - exact W2.
  - exact V2.
  - exact M2.
Qed.
End round.

(** The loops of both programs make the file grow. *)
Lemma loop_at fuel : forall st v src off, ready st v off -> Forall is_byte src -> off + Z.of_nat (length src) <= MAXFILE * BSIZE ->
  freeblock st + cost (nblk (off + Z.of_nat (length src))) - cost (nblk off) + 1 <= 1000 -> (length src <= fuel)%nat ->
  exists st' v', iappend_loop fuel v src off st = Ok ((v', off + Z.of_nat (length src)), st') /\
    write_loop fuel 0 src off (disk st v) = Ok (off + Z.of_nat (length src), disk st' v') /\ grew st v src off st' v'.
Proof.
  induction fuel as [|fuel IH]; intros st v src off R Hb Hmax Hroom Hfuel.
  { destruct src; [|cbn in Hfuel; lia]. exists st, v. cbn. rewrite Z.add_0_r. split; [reflexivity|split; [reflexivity|apply grew_nil, R]]. }
  destruct (decide (src = [])) as [->|Hne]; [exists st, v; cbn; rewrite Z.add_0_r; split; [reflexivity|split; [reflexivity|apply grew_nil, R]]|].
  assert (Hn : 0 < Z.of_nat (length src)) by (destruct src; [congruence|cbn; lia]). pose proof (rd_off _ _ _ R) as Ho. destruct (chunk_pos off _ Hn) as [Hm1 Hm2]. set (m := chunk off (Z.of_nat (length src))) in *.
  set (bs := take (Z.to_nat m) src). assert (Hlb : Z.of_nat (length bs) = m) by (unfold bs; rewrite length_take; lia).
  pose proof (nblk_within off m Ho ltac:(lia) ltac:(unfold BSIZE in *; lia)) as En. pose proof (cost_mono _ _ (nblk_mono (off + m) (off + Z.of_nat (length src)) ltac:(lia))) as Hc. rewrite En in Hc.
  destruct (round_at st v bs off R) as (b & st1 & v1 & S & Hb1 & G); [apply Forall_take, Hb|lia|lia|lia|unfold BSIZE; lia|]. set (x := splice _ bs _) in *. pose proof (sm_good _ _ _ _ _ _ S) as G1. pose proof (gd_free _ G1) as Hf1.
  destruct (IH (put b x st1) v1 (drop (Z.to_nat m) src) (off + m)) as (st' & v' & M & Kn & G').
  - rewrite <- Hlb. exact (grew_ready _ _ _ _ _ _ R G).
  - apply Forall_drop, Hb.
  - rewrite length_drop. lia.
  - pose proof (gw_free _ _ _ _ _ _ G) as Ef. rewrite Hlb, En in Ef. rewrite length_drop, Ef, En. replace (off + m + Z.of_nat (length src - Z.to_nat m)) with (off + Z.of_nat (length src)) by lia. lia.
  - rewrite length_drop. lia.
  - rewrite length_drop in M, Kn. replace (off + m + Z.of_nat (length src - Z.to_nat m)) with (off + Z.of_nat (length src)) in M, Kn by lia. exists st', v'. split; [|split].
    + cbn [iappend_loop]. rewrite (proj2 (Z.leb_gt _ 0)) by lia. assert (Hi : 0 <= off / BSIZE < 140) by (apply block_index; lia). rewrite (proj2 (Z.ltb_lt _ MAXFILE)) by (change MAXFILE with 140; lia). cbn [negb].
      rewrite (bind_ok _ _ _ _ _ (sm_mkfs _ _ _ _ _ _ S)). pose proof (Z.div_mod off BSIZE ltac:(discriminate)).
      replace (Z.min (Z.of_nat (length src)) ((off / BSIZE + 1) * BSIZE - off)) with m by (unfold m, chunk; f_equal; lia). replace (off - off / BSIZE * BSIZE) with (off mod BSIZE) by lia.
      rewrite (bind_ok _ _ _ _ _ (rsect_at st1 b G1 ltac:(lia))), (bind_ok _ _ _ _ _ (wsect_at st1 b _ G1 ltac:(lia))). exact M.
    + cbn [write_loop]. rewrite (proj2 (Z.leb_gt _ 0)), (bind_ok _ _ _ _ _ (get_inode_at st v)), (ow_dev _ _ _ (rd_owns _ _ _ R)), (bind_ok _ _ _ _ _ (sm_kernel _ _ _ _ _ _ S)) by lia.
      rewrite (bind_ok _ _ _ _ _ (bread_at st1 v1 b G1 ltac:(lia) ltac:(lia))). fold m bs x. rewrite (bind_ok _ _ _ _ _ (log_write_at st1 v1 b x ltac:(lia) ltac:(lia))). exact Kn.
    + rewrite <- (take_drop (Z.to_nat m) src). eapply grew_trans; [exact Ho|exact G|]. fold bs. rewrite Hlb. exact G'.
Qed.

(** ** Inodes on the image *)

Record encodable (v : inode) : Prop := {
  en_type : -32768 <= itype v < 32768;
  en_major : -32768 <= major v < 32768;
  en_minor : -32768 <= minor v < 32768;
  en_nlink : -32768 <= nlink v < 32768;
  en_size : is_u32 (isize v);
  en_addrs : length (addrs v) = 13%nat /\ Forall is_u32 (addrs v);
}.

Lemma window_splice off bs x k n : (off + length bs <= length x)%nat -> (k + n <= length bs)%nat -> window (off + k) n (splice off bs x) = window k n bs.
Proof.
  intros Hx Hk. apply list_eq. intros i. destruct (decide (i < n)%nat) as [Hi|Hi].
  - rewrite !lookup_window, lookup_splice, decide_True by lia. f_equal. lia.
  - rewrite !lookup_ge_None_2; [reflexivity| |]; rewrite length_window; rewrite ?length_splice; lia.
Qed.

Lemma s16_half x : -32768 <= x < 32768 -> s16 (le_word (le_bytes 2 x)) = x.
Proof.
  intros Hx. rewrite le_word_bytes. change (256 ^ Z.of_nat 2) with 65536. unfold s16. rewrite Z.mod_mod by lia. destruct (decide (0 <= x)).
  - rewrite Z.mod_small by lia. destruct (Z.ltb_spec x 32768); lia.
  - replace (x mod 65536) with (x + 65536) by (apply (Z.mod_unique_pos _ _ (-1)); lia). destruct (Z.ltb_spec (x + 65536) 32768); lia.
Qed.

Lemma decode_encode off x v w : encodable v -> (off + 64 <= length x)%nat ->
  decode_dinode off (splice off (encode_dinode v) x) w = Inode (dev w) (inum w) (ref w) (busy w) (valid w) (itype v) (major v) (minor v) (nlink v) (isize v) (addrs v).
Proof.
  intros [E1 E2 E3 E4 E5 [El Ea]] Hx. pose proof (encode_length v El) as Hl.
  assert (Hw : forall k n, (k + n <= 64)%nat -> window (off + k) n (splice off (encode_dinode v) x) = window k n (encode_dinode v)) by (intros k n Hk; apply window_splice; lia).
  unfold decode_dinode, half, word. replace (window off 2) with (window (off + 0) 2) by (f_equal; lia). rewrite !Hw by lia.
  assert (Ead : (fun k => le_word (window (off + 12 + 4 * k) 4 (splice off (encode_dinode v) x))) <$> seq 0 13 = addrs v).
  { apply list_eq. intros k. destruct (decide (k < 13)%nat) as [Hk|Hk]; [|rewrite !lookup_ge_None_2; [reflexivity|lia|rewrite length_fmap, length_seq; lia]].
    rewrite list_lookup_fmap, lookup_seq_lt by exact Hk. cbn [fmap option_fmap option_map Nat.add]. rewrite <- Nat.add_assoc, Hw by lia. destruct (lookup_lt_is_Some_2 (addrs v) k ltac:(lia)) as [a Ha]. rewrite Ha. f_equal.
    replace (window (12 + 4 * k) 4 (encode_dinode v)) with (le_bytes 4 a); [apply le_word_u32; rewrite Forall_lookup in Ea; exact (Ea k a Ha)|]. clear Hw Ea E5. unfold encode_dinode.
    destruct v as [d i r bu va t ma mi nl sz ad]. cbn [itype major minor nlink isize addrs] in *. do 13 (destruct ad as [|? ad]; [discriminate|]). destruct ad; [|discriminate].
    do 13 (destruct k as [|k]; [injection Ha as ->; reflexivity|]). lia. }
  rewrite Ead. f_equal; unfold encode_dinode; first [apply s16_half; assumption|apply le_word_u32; assumption].
Qed.

Definition blank (i : Z) : inode := Inode 1 i 0 false true 0 0 0 0 0 [].
Definition inode_at (st : state) (i : Z) : inode := decode_dinode (dinode_off i) (image st !!! Z.to_nat (IBLOCK i Mkfs.sb)) (blank i).
(** The image after [winode]. *)
Definition store_at (i : Z) (v : inode) (st : state) : state :=
  put (IBLOCK i Mkfs.sb) (splice (dinode_off i) (encode_dinode v) (image st !!! Z.to_nat (IBLOCK i Mkfs.sb))) st.

Lemma window_window off m k n d : (k + n <= m)%nat -> window (off + k) n d = window k n (window off m d).
Proof.
  intros Hk. unfold window. apply list_eq. intros i. destruct (decide (i < n)%nat) as [Hi|Hi].
  - rewrite !lookup_take_lt, !lookup_drop, lookup_take_lt, lookup_drop by lia. f_equal. lia.
  - rewrite !lookup_ge_None_2; [reflexivity| |]; rewrite length_take; lia.
Qed.

Lemma decode_window off d d' w : window off 64 d = window off 64 d' -> decode_dinode off d w = decode_dinode off d' w.
Proof.
  intros E. assert (Hw : forall k n, (k + n <= 64)%nat -> window (off + k) n d = window (off + k) n d') by (intros k n Hk; rewrite !(window_window off 64 k n) by exact Hk; rewrite E; reflexivity).
  unfold decode_dinode, half, word. replace (window off 2) with (window (off + 0) 2) by (f_equal; lia). rewrite !Hw by lia. f_equal.
  apply list_fmap_ext. intros k j Hj. apply lookup_seq in Hj as [-> Hj]. rewrite <- Nat.add_assoc, Hw by lia. reflexivity.
Qed.

Lemma iblock_at i : 0 <= i < 200 -> 32 <= IBLOCK i Mkfs.sb < 58 /\ (dinode_off i + 64 <= 512)%nat.
Proof.
  intros Hi. unfold IBLOCK, dinode_off. rewrite sb_value. cbn [inodestart]. change IPB with 8. pose proof (Z.div_mod i 8 ltac:(lia)). pose proof (Z.mod_pos_bound i 8 ltac:(lia)). lia.
Qed.

Lemma rinode_at st i : good st -> 0 <= i < 200 -> rinode i st = Ok (inode_at st i, st).
Proof. intros G Hi. destruct (iblock_at i Hi). unfold rinode. rewrite (bind_ok _ _ _ _ _ (rsect_at st (IBLOCK i Mkfs.sb) G ltac:(lia))). reflexivity. Qed.

Lemma winode_at st i v : good st -> 0 <= i < 200 -> winode i v st = Ok (tt, store_at i v st).
Proof. intros G Hi. destruct (iblock_at i Hi). unfold winode. rewrite (bind_ok _ _ _ _ _ (rsect_at st (IBLOCK i Mkfs.sb) G ltac:(lia))), wsect_at by (exact G || lia). reflexivity. Qed.

Lemma iupdate_at st i v : good st -> 0 <= i < 200 -> dev v = 1 -> inum v = i -> iupdate 0 (disk st v) = Ok (tt, disk (store_at i v st) v).
Proof.
  intros G Hi Hd En. destruct (iblock_at i Hi). unfold iupdate. rewrite (bind_ok _ _ _ _ _ (get_inode_at st v)), (bind_ok _ _ _ _ _ eq_refl), Hd, En. change (sb (disk st v)) with Mkfs.sb.
  rewrite (bind_ok _ _ _ _ _ (bread_at st v (IBLOCK i Mkfs.sb) G ltac:(lia) ltac:(lia))). apply log_write_at; lia.
Qed.

Lemma disk_inode_at st w i : good st -> 0 <= i < 200 -> disk_inode (disk st w) i = inode_at st i.
Proof. intros G Hi. destruct (iblock_at i Hi). unfold disk_inode, inode_at. change (sb (disk st w)) with Mkfs.sb. rewrite blk_disk, decide_False by (exact G || lia). reflexivity. Qed.

Section store.
Context (st : state) (i : Z) (v : inode).
Hypothesis G : good st.
Hypothesis Hi : 0 <= i < 200.
Hypothesis He : encodable v.

Lemma store_good : good (store_at i v st).
Proof using All.
  destruct (iblock_at i Hi) as [H1 H2]. pose proof (gd_free _ G). destruct (image_block st (IBLOCK i Mkfs.sb) G ltac:(lia)) as [Hl Hb]. apply good_put; [exact G|lia|lia|].
  split; [rewrite length_splice; [exact Hl|]|apply Forall_splice; [apply encode_bytes|exact Hb]]. rewrite encode_length, Hl by apply He. exact H2.
Qed.

Lemma store_image b : 58 <= b -> image (store_at i v st) !!! Z.to_nat b = image st !!! Z.to_nat b.
Proof using All. intros Hb. destruct (iblock_at i Hi). cbn [store_at put set_image image]. apply list_lookup_total_insert_ne. lia. Qed.

Lemma store_same : dev v = 1 -> inum v = i -> ref v = 0 -> busy v = false -> valid v = true -> inode_at (store_at i v st) i = v.
Proof using All.
  intros H1 H2 H3 H4 H5. destruct (iblock_at i Hi). pose proof (gd_length _ G). unfold inode_at, store_at. cbn [put set_image image]. rewrite list_lookup_total_insert_eq by lia.
  rewrite decode_encode; [|exact He|destruct (image_block st (IBLOCK i Mkfs.sb) G ltac:(lia)) as [-> _]; lia]. destruct v. cbn in *. subst. reflexivity.
Qed.

Lemma store_other j : 0 <= j < 200 -> j <> i -> inode_at (store_at i v st) j = inode_at st j.
Proof using All.
  intros Hj Hne. assert (E : dinode (disk (store_at i v st) v) j = dinode (disk st v) j).
  { destruct (iblock_at i Hi). rewrite <- (dinode_other 59 (disk st v) i j (encode_dinode v) (formatted_disk st v G) Hi Hj ltac:(congruence) (encode_length v (proj1 (en_addrs _ He)))).
    f_equal. change (sb (disk st v)) with Mkfs.sb. rewrite blk_disk, decide_False by (exact G || lia). pose proof (log_write_at st v (IBLOCK i Mkfs.sb) (splice (dinode_off i) (encode_dinode v) (image st !!! Z.to_nat (IBLOCK i Mkfs.sb))) ltac:(lia) ltac:(lia)) as El.
    unfold log_write, modify in El. injection El as El. unfold wr, store_at, disk, put, set_image in *. cbn [image freeblock blocks Fs.sb icache] in *. rewrite El. reflexivity. }
  rewrite <- !(disk_inode_at _ v) by (exact G || exact store_good || exact Hj). apply decode_window, E.
Qed.
End store.

Lemma store_evolved st i v w : good st -> 0 <= i < 200 -> encodable v -> owns 59 (disk st w) w -> addrs v = addrs w -> dev v = dev w -> let s' := disk (store_at i v st) v in
  evolved 59 (disk st w) w s' v /\ slots s' v = slots (disk st w) w /\ forall o, 0 <= o < MAXFILE * BSIZE -> has (disk st w) w o -> fbyte s' v o = fbyte (disk st w) w o.
Proof.
  intros G Hi He O Ea Ed s'. pose proof (store_good st i v G Hi He) as G'. destruct (evolved_meta 59 (disk st w) w s' v O (formatted_disk _ _ G') eq_refl Ea Ed) as (E & S & B).
  - intros c Hc. unfold blk, s', disk. cbn [blocks]. rewrite !list_lookup_total_insert_ne by lia. apply store_image; try assumption. lia.
  - intros c Hc. unfold s'. change (size (sb (disk st w))) with 1000 in Hc. rewrite !used_disk by assumption. reflexivity.
  - split; [exact E|]. split; [exact S|]. intros o Ho Hh. destruct (B o) as [Eb|Hlt]; [exact Eb|]. destruct (block_index o Ho) as [Hj _]. destruct (slot_data 59 _ _ _ O Hj Hh). lia.
Qed.

(** ** Files of the image *)

Record file (st : state) (i : Z) (v : inode) : Prop := {
  fi_inode : v = inode_at st i;
  fi_inum : 0 < i < 200;
  fi_encodable : encodable v;
  fi_ready : ready st v (isize v);
  fi_size : isize v <= MAXFILE * BSIZE;
  fi_type : itype v <> T_DEV;
}.

Lemma file_regular st i v : file st i v -> regular 59 (disk st v) v.
Proof.
  intros [F1 F2 F3 [R1 R2 [D1 D2] R4 R5] F5 F6]. constructor; [exact R2|lia| |exact F6|replace (inum v) with i by (rewrite F1; reflexivity); change (ninodes (sb (disk st v))) with 200; lia].
  intros o Ho. destruct (block_index o ltac:(lia)) as [Hj Hj']. apply D1; [exact Hj|]. rewrite Z2Nat.id by lia. pose proof (nblk_off (isize v) R5) as En. rewrite En. unfold BSIZE in *.
  pose proof (Z.div_mod (isize v) 512 ltac:(lia)). pose proof (Z.mod_pos_bound (isize v) 512 ltac:(lia)). pose proof (Z.div_mod o 512 ltac:(lia)). pose proof (Z.mod_pos_bound o 512 ltac:(lia)). destruct (Z.eqb_spec (isize v mod 512) 0); lia.
Qed.

Lemma owns_addrs st v : owns 59 (disk st v) v -> Forall is_u32 (addrs v).
Proof.
  intros O. apply Forall_lookup. intros k a Ha. pose proof (lookup_lt_Some _ _ _ Ha) as Hk. rewrite (ow_length _ _ _ O) in Hk. assert (a = 0 \/ 59 <= a < 1000); [|unfold is_u32; lia]. apply (pointer_range st v a O).
  destruct (decide (k = 12%nat)) as [->|Hne].
  - replace a with (ind v) by exact (list_lookup_total_correct _ _ _ Ha). left.
  - right. apply (list_elem_of_lookup_2 _ k). rewrite (slot_lookup 59 _ _ k O) by lia. rewrite (slots_direct 59 _ _ k O) by lia. f_equal. exact (list_lookup_total_correct _ _ _ Ha).
Qed.

(** The file has been extended by the bytes [p]. *)
Record extended (st : state) (i : Z) (v : inode) (p : list Z) (st' : state) (v' : inode) : Prop := {
  ex_file : file st' i v';
  ex_inodes : freeinode st' = freeinode st;
  ex_free : freeblock st' = freeblock st + cost (nblk (isize v + Z.of_nat (length p))) - cost (nblk (isize v));
  ex_evolved : evolved 59 (disk st v) v (disk st' v') v';
  ex_content : content (disk st' v') v' = content (disk st v) v ++ p;
  ex_meta : v' = set_size (isize v + Z.of_nat (length p)) (set_addrs (addrs v') v);
  ex_others : forall j, 0 <= j < 200 -> j <> i -> inode_at st' j = inode_at st j;
}.

Lemma meta_inode st v st' v' j : good st -> good st' -> meta_same (disk st v) (disk st' v') -> 0 <= j < 200 -> inode_at st' j = inode_at st j.
Proof.
  intros G G' M Hj. rewrite <- (disk_inode_at st v), <- (disk_inode_at st' v') by assumption. unfold disk_inode. rewrite M; [reflexivity|]. destruct (iblock_at j Hj). change (sb (disk st v)) with Mkfs.sb. rewrite sb_value. change (sb (disk st' v')) with Mkfs.sb. cbn [bmapstart]. lia.
Qed.

(** [iappend] is the kernel's [writei] at the end of the file. *)
Lemma iappend_at dw st i v p : file st i v -> Forall is_byte p -> p <> [] -> isize v + Z.of_nat (length p) <= MAXFILE * BSIZE ->
  freeblock st + cost (nblk (isize v + Z.of_nat (length p))) - cost (nblk (isize v)) + 1 <= 1000 ->
  exists st' v', iappend i p st = Ok (tt, st') /\ writei dw 0 p (isize v) (disk st v) = Ok (Some (Z.of_nat (length p)), disk st' v') /\ extended st i v p st' v'.
Proof.
  intros F Hb Hp Hmax Hroom. pose proof (file_regular st i v F) as Rg. destruct F as [F1 F2 F3 F4 F5 F6]. pose proof (rd_good _ _ _ F4) as G. pose proof (rd_off _ _ _ F4) as H0. pose proof max_u32 as Hu.
  assert (Hn : 0 < Z.of_nat (length p)) by (destruct p; [congruence|cbn; lia]). destruct (loop_at (length p) st v p (isize v) F4 Hb Hmax Hroom (Nat.le_refl _)) as (st1 & v1 & M & Kn & Gw).
  set (n := isize v + Z.of_nat (length p)) in *. pose proof (gw_good _ _ _ _ _ _ Gw) as G1. pose proof (gw_addrs _ _ _ _ _ _ Gw) as Ev. pose proof (ev_owns _ _ _ _ _ (gw_evolved _ _ _ _ _ _ Gw)) as O1.
  set (v2 := set_size n v1). assert (Hd : dev v1 = 1) by apply O1. assert (Hi : inum v1 = i) by (rewrite Ev, F1; reflexivity).
  assert (He : encodable v2).
  { destruct F3. unfold v2. rewrite Ev. constructor; cbn; try assumption; [unfold is_u32; lia|]. split; [apply O1|apply (owns_addrs st1), O1]. }
  exists (store_at i v2 st1), v2. split; [|split].
  - unfold iappend. rewrite (bind_ok _ _ _ _ _ (rinode_at st i G ltac:(lia))), <- F1, xint_id by apply F3. rewrite (bind_ok _ _ _ _ _ M), xint_id by (unfold is_u32; lia). apply winode_at; [exact G1|lia].
  - unfold writei. rewrite (bind_ok _ _ _ _ _ (get_inode_at st v)), (proj2 (Z.eqb_neq _ _) F6), u32_id by (unfold is_u32; lia). fold n. rewrite (proj2 (Z.ltb_ge (isize v) (isize v))), (proj2 (Z.ltb_ge n (isize v))), (proj2 (Z.ltb_ge _ n)) by lia. cbn [orb].
    rewrite (bind_ok _ _ _ _ _ Kn), (bind_ok _ _ _ _ _ (get_inode_at st1 v1)). replace (isize v1) with (isize v) by (rewrite Ev; reflexivity). rewrite (proj2 (Z.ltb_lt 0 _)), (proj2 (Z.ltb_lt (isize v) n)) by lia. cbn [andb].
    assert (Hup : (put_inode 0 (set_size n v1) ;; iupdate 0) (disk st1 v1) = Ok (tt, disk (store_at i v2 st1) v2)) by (rewrite (bind_ok _ _ _ _ _ (put_inode_at st1 v1 v2)); apply iupdate_at; [exact G1|lia|exact Hd|exact Hi]).
    rewrite (bind_ok _ _ _ _ _ Hup). reflexivity.
  - destruct (store_evolved st1 i v2 v1 G1 ltac:(lia) He O1 eq_refl eq_refl) as (E2 & S2 & B2). pose proof (store_good st1 i v2 G1 ltac:(lia) He) as G2.
    assert (W2 : written p (isize v) (disk st v) v (disk (store_at i v2 st1) v2) v2).
    { intros o Ho Hc. destruct (gw_written _ _ _ _ _ _ Gw o Ho Hc) as [A1 A2]. split; [unfold has; rewrite S2; exact A1|]. rewrite <- A2. apply B2; assumption. }
    constructor.
    + constructor; [symmetry; apply store_same; try assumption; try lia; unfold v2; rewrite Ev, F1; reflexivity|exact F2|exact He| |cbn; lia|unfold v2; rewrite Ev; exact F6].
      change (isize v2) with n. constructor; [exact G2|apply E2| | |lia].
      * destruct (gw_dense _ _ _ _ _ _ Gw) as [D1 D2]. split; [rewrite S2; exact D1|exact D2].
      * intros o Ho Hh. unfold has in Hh. rewrite S2 in Hh. rewrite B2 by (assumption || lia). apply (gw_tail _ _ _ _ _ _ Gw); assumption.
    + apply (gw_inodes _ _ _ _ _ _ Gw).
    + apply (gw_free _ _ _ _ _ _ Gw).
    + eapply evolved_trans; [apply Gw|exact E2].
    + rewrite (content_written (disk st v) v (disk (store_at i v2 st1) v2) v2 p (isize v)); try assumption; try lia; [|apply Rg|cbn; lia].
      pose proof (length_content (disk st v) v H0). rewrite take_ge, drop_ge, app_nil_r by lia. reflexivity.
    + unfold v2. rewrite Ev. reflexivity.
    + intros j Hj Hne. rewrite store_other by (assumption || lia). apply (meta_inode st v st1 v1); try assumption. apply Gw.
Qed.
End MkfsFacts.
