(* ===== verification/MkfsImage.v ===== *)
(** The finished image (mkfs.c, modelled in Mkfs.v): the files the builder has made so far and what
    each step adds, the root directory as a map, and the kernel's path lookup and reads on the image. *)

From S2P Require Import Prelude Fs Dir Namei Mkfs MkfsProps.

Module ImageFacts.
Import Mkfs Fs FsFacts DirFacts CacheFacts NameiFacts MkfsFacts.

(** ** The cache does not matter for what is on the disk *)

Lemma owns_view st u u' w : owns 59 (disk st u) w -> owns 59 (disk st u') w.
Proof. intros [O1 O2 O3 O4]. constructor; assumption. Qed.

Lemma regular_view st u u' w : regular 59 (disk st u) w -> regular 59 (disk st u') w.
Proof. intros [R1 R2 R3 R4 R5]. constructor; [apply (owns_view st u), R1|assumption..]. Qed.

(** ** A step on one file leaves the others *)

Section other.
Context (st : state) (v : inode) (st' : state) (v' w : inode).
Hypothesis E : evolved 59 (disk st v) v (disk st' v') v'.
Hypothesis O : owns 59 (disk st v) w.
Hypothesis D : disjoint (disk st v) v w.

Lemma other_blk c : c ∈ pointers (disk st v) w -> c <> 0 -> blk (disk st' v') c = blk (disk st v) c.
Proof using All. intros Hc Hc0. destruct (ow_used _ _ _ O c Hc Hc0) as [Hr Hu]. apply (ev_same _ _ _ _ _ E); [exact Hr|exact Hu|]. intros Hin. exact (D c Hc0 Hin Hc). Qed.

Lemma other_slots : slots (disk st' v') w = slots (disk st v) w.
Proof using All. apply slots_ext. intros Hi. apply other_blk; [left|exact Hi]. Qed.

Lemma other_bytes o : 0 <= o < MAXFILE * BSIZE -> has (disk st v) w o -> fbyte (disk st' v') w o = fbyte (disk st v) w o.
Proof using All. intros Ho Hh. destruct (block_index o Ho) as [Hk _]. apply fbyte_same; [exact Ho|rewrite other_slots; reflexivity|]. apply other_blk; [|exact Hh]. apply (slot_data 59 _ _ _ O Hk Hh). Qed.

Lemma other_owns : owns 59 (disk st' v') w.
Proof using All.
  destruct O as [O1 O2 O3 O4]. constructor; [exact O1|exact O2|unfold pointers; rewrite other_slots; exact O3|]. unfold pointers. rewrite other_slots. intros c Hc Hc0. destruct (O4 c Hc Hc0) as [H1 H2]. split; [exact H1|].
  apply (ev_used _ _ _ _ _ E); [lia|exact H2].
Qed.

Lemma other_disjoint : disjoint (disk st' v') v' w.
Proof using All.
  intros c Hc0 Hin Hw. unfold pointers in Hw. rewrite other_slots in Hw. destruct (ev_new _ _ _ _ _ E c Hin Hc0) as [Hv|Hf]; [exact (D c Hc0 Hv Hw)|]. destruct (ow_used _ _ _ O c Hw Hc0). congruence.
Qed.

Lemma other_ready : good st' -> ready st w (isize w) -> ready st' w (isize w).
Proof using All.
  intros G' [R1 R2 [R3 R4] R5 R6]. constructor; [exact G'|apply (owns_view st' v'), other_owns| | |exact R6].
  - split; [|exact R4]. change (slots (disk st' w) w) with (slots (disk st' v') w). rewrite other_slots. exact R3.
  - intros o Ho Hh. change (fbyte (disk st' v') w o = 0). unfold has in Hh. change (slots (disk st' w) w) with (slots (disk st' v') w) in Hh. rewrite other_slots in Hh. rewrite other_bytes by (exact Hh || lia). apply R5; [exact Ho|exact Hh].
Qed.

Lemma other_content : regular 59 (disk st v) w -> content (disk st' v') w = content (disk st v) w.
Proof using All. intros R. pose proof (rg_size _ _ _ R). unfold content. apply list_fmap_ext. intros i o Hi. apply lookup_seqZ in Hi. apply other_bytes; [lia|]. apply (rg_has _ _ _ R). lia. Qed.
End other.

(** ** The files of the image *)

(** The inode [i] of the image has type [t], one link and the content [c]. *)
Record holds (st : state) (i t : Z) (c : list Z) : Prop := {
  ho_file : file st i (inode_at st i);
  ho_type : itype (inode_at st i) = t;
  ho_links : nlink (inode_at st i) = 1;
  ho_content : content (disk st (inode_at st i)) (inode_at st i) = c;
}.
Definition pointers_at (st : state) (i : Z) : list Z := pointers (disk st (inode_at st i)) (inode_at st i).
Definition apart (st : state) (i j : Z) : Prop := forall c, c <> 0 -> c ∈ pointers_at st i -> c ∉ pointers_at st j.

Lemma holds_size st i t c : holds st i t c -> isize (inode_at st i) = Z.of_nat (length c).
Proof. intros H. rewrite <- (ho_content _ _ _ _ H), length_content; [reflexivity|]. apply (ho_file _ _ _ _ H). Qed.

Lemma holds_other st v st' v' j t c : evolved 59 (disk st v) v (disk st' v') v' -> good st' -> inode_at st' j = inode_at st j ->
  disjoint (disk st v) v (inode_at st j) -> holds st j t c ->
  holds st' j t c /\ pointers_at st' j = pointers_at st j /\ disjoint (disk st' v') v' (inode_at st' j).
Proof.
  intros E G' Ei D [F Ht Hn Hc]. set (w := inode_at st j) in *. pose proof (file_regular _ _ _ F) as R. pose proof (regular_view st w v w R) as Rv. pose proof (rg_owns _ _ _ Rv) as O. split; [|split].
  - constructor; rewrite Ei; try assumption.
    + destruct F as [F1 F2 F3 F4 F5 F6]. constructor; try assumption; [congruence|]. apply (other_ready st v st' v' w E O D G' F4).
    + rewrite <- Hc. exact (other_content st v st' v' w E O D Rv).
  - unfold pointers_at. rewrite Ei. exact (f_equal (cons (ind w)) (other_slots st v st' v' w E O D)).
  - rewrite Ei. exact (other_disjoint st v st' v' w E O D).
Qed.

Definition total (ns : list (Z * list Z)) : Z := foldr (fun n x => cost (nblk (Z.of_nat (length n.2))) + x) 0 ns.

(** The image with the files [ns]: the k-th is inode k + 1. *)
Record built (st : state) (ns : list (Z * list Z)) : Prop := {
  bu_good : good st;
  bu_next : freeinode st = Z.of_nat (length ns) + 1;
  bu_room : (length ns < 200)%nat;
  bu_holds : forall k t c, ns !! k = Some (t, c) -> holds st (Z.of_nat k + 1) t c;
  bu_apart : forall j k, (j < length ns)%nat -> (k < length ns)%nat -> j <> k -> apart st (Z.of_nat j + 1) (Z.of_nat k + 1);
  bu_blank : forall i, 0 <= i < 200 -> i = 0 \/ Z.of_nat (length ns) < i -> itype (inode_at st i) = 0;
  bu_blocks : freeblock st = 59 + total ns;
}.

Lemma total_app l1 l2 : total (l1 ++ l2) = total l1 + total l2.
Proof. induction l1 as [|n l1 IH]; cbn [app total foldr]; [reflexivity|]. fold (total (l1 ++ l2)) (total l1). lia. Qed.

Lemma total_replace ns k t c t' c' : ns !! k = Some (t, c) -> total (<[k := (t', c')]> ns) = total ns - cost (nblk (Z.of_nat (length c))) + cost (nblk (Z.of_nat (length c'))).
Proof.
  revert k. induction ns as [|n ns IH]; intros [|k] Hk; try discriminate.
  - injection Hk as ->. change (<[0%nat := (t', c')]> ((t, c) :: ns)) with ((t', c') :: ns). cbn [total foldr snd]. lia.
  - change (<[S k := (t', c')]> (n :: ns)) with (n :: <[k := (t', c')]> ns). cbn [total foldr]. fold (total (<[k := (t', c')]> ns)) (total ns). rewrite (IH k Hk). lia.
Qed.

(** What a step on the [k]-th file does to the image. *)
Lemma built_step st ns k t c st' c' : built st ns -> ns !! k = Some (t, c) -> let i := Z.of_nat k + 1 in
  evolved 59 (disk st (inode_at st i)) (inode_at st i) (disk st' (inode_at st' i)) (inode_at st' i) -> holds st' i t c' -> freeinode st' = freeinode st ->
  (forall j, 0 <= j < 200 -> j <> i -> inode_at st' j = inode_at st j) -> freeblock st' = freeblock st + cost (nblk (Z.of_nat (length c'))) - cost (nblk (Z.of_nat (length c))) ->
  built st' (<[k := (t, c')]> ns).
Proof.
  intros [B1 B2 B3 B4 B5 B6 B7] Hk i E H Hf Ho Hb. pose proof (lookup_lt_Some _ _ _ Hk) as Hlt. pose proof (rd_good _ _ _ (fi_ready _ _ _ (ho_file _ _ _ _ H))) as G'.
  assert (Hoth : forall j tj cj, j <> k -> ns !! j = Some (tj, cj) -> holds st' (Z.of_nat j + 1) tj cj /\ pointers_at st' (Z.of_nat j + 1) = pointers_at st (Z.of_nat j + 1) /\ disjoint (disk st' (inode_at st' i)) (inode_at st' i) (inode_at st' (Z.of_nat j + 1))).
  { intros j tj cj Hne Hj. pose proof (lookup_lt_Some _ _ _ Hj). apply (holds_other st (inode_at st i) st' (inode_at st' i)); [exact E|exact G'|apply Ho; lia| |apply B4, Hj]. exact (B5 k j Hlt ltac:(lia) ltac:(congruence)). }
  assert (Hpt : forall j, (j < length ns)%nat -> j <> k -> pointers_at st' (Z.of_nat j + 1) = pointers_at st (Z.of_nat j + 1) /\ disjoint (disk st' (inode_at st' i)) (inode_at st' i) (inode_at st' (Z.of_nat j + 1))).
  { intros j Hj Hne. destruct (lookup_lt_is_Some_2 ns j Hj) as [[tj cj] Hl]. apply (Hoth j tj cj Hne Hl). }
  constructor; rewrite ?length_insert; try assumption.
  - congruence.
  - intros j tj cj Hj. destruct (decide (j = k)) as [->|Hne]; [rewrite list_lookup_insert_eq in Hj by exact Hlt; injection Hj as <- <-; exact H|]. rewrite list_lookup_insert_ne in Hj by congruence. apply (Hoth j tj cj Hne Hj).
  - intros j l Hj Hl Hne c0 Hc0. destruct (decide (j = k)) as [->|Hjk]; [|destruct (decide (l = k)) as [->|Hlk]].
    + intros Hin. apply (proj2 (Hpt l Hl ltac:(congruence)) c0 Hc0 Hin).
    + intros Hin Hin'. exact (proj2 (Hpt j Hj Hjk) c0 Hc0 Hin' Hin).
    + rewrite (proj1 (Hpt j Hj Hjk)), (proj1 (Hpt l Hl Hlk)). apply (B5 j l Hj Hl Hne c0 Hc0).
  - intros j Hj Hc. rewrite Ho by lia. apply B6; assumption.
  - rewrite (total_replace _ _ _ _ _ _ Hk). lia.
Qed.

(** ** The steps of the builder *)

Lemma built_append st ns k t c p : built st ns -> ns !! k = Some (t, c) -> Forall is_byte p -> p <> [] -> Z.of_nat (length (c ++ p)) <= MAXFILE * BSIZE ->
  total (<[k := (t, c ++ p)]> ns) <= 940 -> wp (iappend (Z.of_nat k + 1) p) (fun _ st' => built st' (<[k := (t, c ++ p)]> ns)) st.
Proof.
  intros B Hk Hp Hne Hmax Hroom. pose proof (bu_holds _ _ B k t c Hk) as H. pose proof (holds_size _ _ _ _ H) as Hs. pose proof (bu_blocks _ _ B) as Hb. rewrite (total_replace _ _ _ _ _ _ Hk) in Hroom. rewrite length_app, Nat2Z.inj_add in *.
  destruct (iappend_at (fun _ => None) st (Z.of_nat k + 1) (inode_at st (Z.of_nat k + 1)) p (ho_file _ _ _ _ H) Hp Hne) as (st' & v' & E & _ & X); [rewrite Hs; lia..|]. exists tt, st'. split; [exact E|].
  pose proof (fi_inode _ _ _ (ex_file _ _ _ _ _ _ X)) as Ev. pose proof (ex_meta _ _ _ _ _ _ X) as Em. destruct X as [X1 X2 X3 X4 X5 _ X7]. rewrite Ev in X1, X4, X5.
  apply (built_step st ns k t c st'); try assumption.
  - constructor; [exact X1| | |rewrite X5, (ho_content _ _ _ _ H); reflexivity].
    + rewrite <- Ev, Em. apply (ho_type _ _ _ _ H).
    + rewrite <- Ev, Em. apply (ho_links _ _ _ _ H).
  - rewrite X3, Hs, length_app, Nat2Z.inj_add. reflexivity.
Qed.

(** A new inode has no blocks. *)
Definition fresh (i t : Z) : inode := Inode 1 i 0 false true t 0 0 1 0 (replicate 13 0).

Lemma fresh_pointers s i t c : c ∈ pointers s (fresh i t) -> c = 0.
Proof.
  intros Hc. apply elem_of_cons in Hc as [->|Hc]; [reflexivity|]. change (slots s (fresh i t)) with (replicate 12 0 ++ replicate (Z.to_nat NINDIRECT) 0) in Hc.
  apply elem_of_app in Hc as [Hc|Hc]; apply elem_of_replicate in Hc as [-> _]; reflexivity.
Qed.

Lemma fresh_slot s i t k : (k < 140)%nat -> slots s (fresh i t) !!! k = 0.
Proof. intros Hk. change (slots s (fresh i t)) with (replicate 12 0 ++ replicate 128 0). rewrite <- replicate_add. apply lookup_total_replicate_2. lia. Qed.

Lemma fresh_owns st i t : owns 59 (disk st (fresh i t)) (fresh i t).
Proof.
  constructor; [reflexivity|reflexivity| |].
  - intros a b x Ha _ Hx. exfalso. exact (Hx (fresh_pointers _ _ _ _ (list_elem_of_lookup_2 _ _ _ Ha))).
  - intros b Hb Hb0. exfalso. exact (Hb0 (fresh_pointers _ _ _ _ Hb)).
Qed.

Lemma fresh_encodable i t : -32768 <= t < 32768 -> encodable (fresh i t).
Proof. intros Ht. constructor; cbn; try lia; [unfold is_u32; lia|]. split; [reflexivity|]. apply Forall_forall. intros x Hx. apply (elem_of_replicate 13) in Hx as [-> _]. unfold is_u32. lia. Qed.

Lemma fresh_file st i t : good st -> 0 < i < 200 -> -32768 <= t < 32768 -> t <> T_DEV -> inode_at st i = fresh i t -> file st i (fresh i t).
Proof.
  intros G Hi Ht Hd E. constructor; [congruence|exact Hi|apply fresh_encodable, Ht| |cbn; unfold MAXFILE, BSIZE; vm_compute; discriminate|exact Hd].
  constructor; [exact G|apply fresh_owns| | |cbn; lia].
  - split; [|split; [intros Hz; exfalso; apply Hz; reflexivity|vm_compute; discriminate]]. intros k Hk. rewrite fresh_slot by exact Hk. change (nblk (isize (fresh i t))) with 0. lia.
  - intros o Ho Hh. exfalso. apply Hh. apply fresh_slot. cbn [isize fresh] in Ho. destruct (block_index o Ho) as [Hk _]. exact Hk.
Qed.

Lemma good_inode n st : good st -> good (State (image st) n (freeblock st)).
Proof. intros [G1 G2 G3 G4 G5]. constructor; assumption. Qed.

Lemma xshort_id x : 0 <= x < 65536 -> xshort x = x.
Proof. intros Hx. unfold xshort. rewrite le_word_bytes. apply Z.mod_small, Hx. Qed.

Lemma built_new st ns t : built st ns -> (length ns < 199)%nat -> 0 < t < 32768 -> t <> T_DEV ->
  wp (Mkfs.ialloc t) (fun r st' => r = Z.of_nat (length ns) + 1 /\ built st' (ns ++ [(t, [])])) st.
Proof.
  intros [B1 B2 B3 B4 B5 B6 B7] Hlt Ht Hd. set (i := Z.of_nat (length ns) + 1) in *. set (st1 := State (image st) (i + 1) (freeblock st)). pose proof (good_inode (i + 1) st B1 : good st1) as G1.
  pose proof (fresh_encodable i t ltac:(lia)) as He. assert (Hi : 0 <= i < 200) by lia. set (st' := store_at i (fresh i t) st1). pose proof (store_good st1 i (fresh i t) G1 Hi He : good st') as G'.
  assert (Es : inode_at st' i = fresh i t) by (apply store_same; reflexivity || assumption). exists i, st'. split; [|split; [reflexivity|]].
  { unfold Mkfs.ialloc. rewrite (bind_ok _ _ _ _ _ eq_refl), B2, (bind_ok _ _ _ _ _ eq_refl), xshort_id by lia. fold st1. change (Inode 1 i 0 false true t 0 0 (xshort 1) (xint 0) (replicate 13 0)) with (fresh i t). rewrite (bind_ok _ _ _ _ _ (winode_at st1 i (fresh i t) G1 Hi)). reflexivity. }
  destruct (store_evolved st1 i (fresh i t) (fresh i t) G1 Hi He (fresh_owns st1 i t) eq_refl eq_refl) as (E & _ & _). change (disk st1 (fresh i t)) with (disk st (fresh i t)) in E. fold st' in E.
  assert (Hother : forall j, 0 <= j < 200 -> j <> i -> inode_at st' j = inode_at st j) by (intros j Hj Hne; exact (store_other st1 i (fresh i t) G1 Hi He j Hj Hne)).
  assert (Hoth : forall j tj cj, ns !! j = Some (tj, cj) -> holds st' (Z.of_nat j + 1) tj cj /\ pointers_at st' (Z.of_nat j + 1) = pointers_at st (Z.of_nat j + 1) /\ disjoint (disk st' (fresh i t)) (fresh i t) (inode_at st' (Z.of_nat j + 1))).
  { intros j tj cj Hj. pose proof (lookup_lt_Some _ _ _ Hj). apply (holds_other st (fresh i t) st' (fresh i t)); [exact E|exact G'|apply Hother; lia| |apply B4, Hj]. intros c Hc Hin. exfalso. exact (Hc (fresh_pointers _ _ _ _ Hin)). }
  assert (Hnew : forall c, c <> 0 -> c ∉ pointers_at st' i) by (intros c Hc Hin; unfold pointers_at in Hin; rewrite Es in Hin; exact (Hc (fresh_pointers _ _ _ _ Hin))).
  constructor; rewrite ?length_app; cbn [length]; [exact G'|unfold st'; cbn; lia|lia| | | |].
  - intros j tj cj Hj. apply lookup_app_Some in Hj as [Hj|[Hge Hj]]; [apply (Hoth j tj cj Hj)|]. apply list_lookup_singleton_Some in Hj as [Hz [= <- <-]]. replace (Z.of_nat j + 1) with i by lia.
    constructor; rewrite Es; try reflexivity. apply fresh_file; try assumption; lia.
  - intros j l Hj Hl Hne c Hc Hin. destruct (decide (Z.of_nat l + 1 = i)) as [->|Hl']; [apply Hnew, Hc|]. destruct (decide (Z.of_nat j + 1 = i)) as [Ej|Hj']; [rewrite Ej in Hin; exfalso; exact (Hnew c Hc Hin)|].
    destruct (lookup_lt_is_Some_2 ns j ltac:(lia)) as [[tj cj] Lj], (lookup_lt_is_Some_2 ns l ltac:(lia)) as [[tl cl] Ll]. destruct (Hoth j tj cj Lj) as (_ & Ej & _), (Hoth l tl cl Ll) as (_ & El & _). rewrite Ej in Hin. rewrite El. apply (B5 j l ltac:(lia) ltac:(lia) Hne c Hc Hin).
  - intros j Hj Hc. rewrite Hother by lia. apply B6; [exact Hj|lia].
  - rewrite total_app. cbn [total foldr snd length]. change (cost (nblk (Z.of_nat 0))) with 0. change (freeblock st') with (freeblock st). lia.
Qed.

(** The root directory is extended to whole blocks: its last block is there and the rest of it is zero. *)
Definition pad (c : list Z) : nat := Z.to_nat (512 - Z.of_nat (length c) mod 512).

Lemma round_nblk n : 0 <= n -> n mod 512 <> 0 -> nblk ((n / 512 + 1) * 512) = nblk n /\ nblk n = n / 512 + 1.
Proof.
  intros Hn Hm. pose proof (Z.div_mod n 512 ltac:(lia)). pose proof (Z.mod_pos_bound n 512 ltac:(lia)). unfold nblk.
  assert (E : n / 512 + 1 = (n + 511) / 512) by (apply (Z.div_unique_pos _ _ _ (n mod 512 - 1)); lia). split; [|symmetry; exact E]. rewrite <- E. symmetry. apply (Z.div_unique_pos _ _ _ 511); lia.
Qed.

Section round_root.
Context (st : state) (ns : list (Z * list Z)) (t : Z) (c : list Z).
Hypothesis B : built st ns.
Hypothesis Hk : ns !! 0%nat = Some (t, c).
Hypothesis Hm : Z.of_nat (length c) mod 512 <> 0.
Hypothesis Hmax : (Z.of_nat (length c) / 512 + 1) * 512 <= MAXFILE * BSIZE.
Let v := inode_at st 1.
Let off := (Z.of_nat (length c) / 512 + 1) * 512.
Let v' := set_size off v.
Let st' := store_at 1 v' st.

Lemma pad_off : Z.of_nat (length c) + Z.of_nat (pad c) = off /\ 0 < Z.of_nat (pad c) <= 512 /\ is_u32 off.
Proof using All.
  clear Hk B. pose proof (Z.div_mod (Z.of_nat (length c)) 512 ltac:(lia)). pose proof (Z.mod_pos_bound (Z.of_nat (length c)) 512 ltac:(lia)). pose proof max_u32. unfold pad, off, is_u32. lia.
Qed.

Lemma round_here : round_root 1 st = Ok (tt, st') /\ encodable v'.
Proof using All.
  pose proof (bu_holds _ _ B 0 t c Hk) as H. pose proof (holds_size _ _ _ _ H) as Hs. change (Z.of_nat 0 + 1) with 1 in *. pose proof pad_off as (Hp & Hr & Hu). pose proof (fi_encodable _ _ _ (ho_file _ _ _ _ H)) as [E1 E2 E3 E4 E5 E6].
  split; [|constructor; try assumption; exact Hu]. unfold round_root. rewrite (bind_ok _ _ _ _ _ (rinode_at st 1 (bu_good _ _ B) ltac:(lia))), (xint_id (isize _)), Hs by exact E5. change (Z.of_nat (length c) / BSIZE + 1) with (Z.of_nat (length c) / 512 + 1). change (_ * BSIZE) with off. rewrite xint_id by exact Hu. apply winode_at; [apply B|lia].
Qed.

Lemma round_bytes : let s' := disk st' v' in evolved 59 (disk st v) v s' v' /\ slots s' v' = slots (disk st v) v /\ content s' v' = c ++ replicate (pad c) 0.
Proof using All.
  destruct round_here as [_ He]. pose proof (bu_holds _ _ B 0 t c Hk) as H. pose proof (holds_size _ _ _ _ H) as Hs. pose proof (ho_content _ _ _ _ H) as Hc. pose proof (ho_file _ _ _ _ H) as F. change (Z.of_nat 0 + 1) with 1 in *. fold v in Hs, Hc, F. pose proof (file_regular _ _ _ F) as R.
  destruct (fi_ready _ _ _ F) as [_ R2 [R3 _] R5 R6]. destruct (store_evolved st 1 v' v (bu_good _ _ B) ltac:(lia) He R2 eq_refl eq_refl) as (E & S & By). fold st' in E, S, By. split; [exact E|]. split; [exact S|].
  pose proof pad_off as (Hp & Hr & _). destruct (round_nblk (Z.of_nat (length c)) ltac:(lia) Hm) as [_ En]. pose proof (length_content (disk st' v') v' ltac:(cbn; lia)) as Hl. change (isize v') with off in Hl.
  assert (Hh : forall o, 0 <= o < off -> has (disk st v) v o).
  { intros o Ho. destruct (block_index o ltac:(lia)) as [Hj Hj']. apply R3; [exact Hj|]. rewrite Hs, En, Z2Nat.id by (apply Z.div_pos; [lia|reflexivity]). apply Z.div_lt_upper_bound; [reflexivity|]. unfold off in Ho. unfold BSIZE. lia. }
  apply list_eq. intros k. destruct (decide (Z.of_nat k < off)) as [Hlt|Hge]; [|rewrite !lookup_ge_None_2; [reflexivity|rewrite length_app, length_replicate; lia|lia]].
  rewrite lookup_content by (cbn; lia). rewrite By by first [lia|apply Hh; lia]. destruct (decide (k < length c)%nat) as [Hk'|Hk'].
  - rewrite lookup_app_l by exact Hk'. rewrite <- Hc. rewrite lookup_content by (rewrite Hs; lia). reflexivity.
  - rewrite lookup_app_r, lookup_replicate_2 by lia. f_equal. apply R5; [lia|]. apply Hh. lia.
Qed.

Lemma built_round : wp (round_root 1) (fun _ st' => built st' (<[0%nat := (t, c ++ replicate (pad c) 0)]> ns)) st.
Proof using All.
  destruct round_here as [Er He]. exists tt, st'. split; [exact Er|]. destruct round_bytes as (E & S & Ec). pose proof (bu_holds _ _ B 0 t c Hk) as H. pose proof (holds_size _ _ _ _ H) as Hs. pose proof (ho_file _ _ _ _ H) as F.
  change (Z.of_nat 0 + 1) with 1 in *. fold v in Hs, F. pose proof pad_off as (Hp & Hr & Hu). destruct (round_nblk (Z.of_nat (length c)) ltac:(lia) Hm) as [En _]. pose proof (bu_good _ _ B) as G. pose proof (store_good st 1 v' G ltac:(lia) He : good st') as G'.
  assert (Es : inode_at st' 1 = v') by (apply store_same; try assumption; try reflexivity; lia). destruct (fi_ready _ _ _ F) as [_ _ [R3 R4] R5 _].
  assert (F' : file st' 1 v').
  { constructor; [congruence|lia|exact He| |cbn; lia|exact (fi_type _ _ _ F)]. change (isize v') with off. constructor; [exact G'|apply E| | |lia].
    - fold off in En. rewrite En, <- Hs. split; [rewrite S; exact R3|exact R4].
    - intros o Ho Hh. unfold has in Hh. rewrite S in Hh. destruct R3 with (j := Z.to_nat (o / BSIZE)) as [R3' _]; [apply block_index; lia|]. specialize (R3' Hh). rewrite Hs, (proj2 (round_nblk _ (Nat2Z.is_nonneg _) Hm)), Z2Nat.id in R3' by (apply Z.div_pos; [lia|reflexivity]).
      exfalso. assert (Hd : off / BSIZE <= o / BSIZE) by (apply Z.div_le_mono; [reflexivity|lia]). unfold off, BSIZE in Hd, R3'. rewrite Z.div_mul in Hd by lia. lia. }
  apply (built_step st ns 0 t c st'); try assumption; change (Z.of_nat 0 + 1) with 1; fold v; rewrite ?Es; try assumption; try reflexivity.
  - constructor; rewrite Es; try assumption; [exact (ho_type _ _ _ _ H)|exact (ho_links _ _ _ _ H)].
  - intros j Hj Hne. apply (store_other st 1 v' G ltac:(lia) He j Hj Hne).
  - rewrite length_app, length_replicate, Nat2Z.inj_add, Hp. fold off in En. rewrite En. change (freeblock st') with (freeblock st). lia.
Qed.
End round_root.

(** ** The empty image *)

Lemma wsect_end n a f : wsect (Z.of_nat n) zeroes (State (replicate n zeroes) a f) = Ok (tt, State (replicate (S n) zeroes) a f).
Proof.
  unfold wsect, modify, set_image. cbn [image freeinode freeblock]. rewrite Nat2Z.id, length_replicate. replace (n + 1 - n)%nat with 1%nat by lia. do 3 f_equal.
  rewrite insert_app_r_alt, length_replicate, Nat.sub_diag by (rewrite length_replicate; lia). change (<[0%nat := zeroes]> (replicate 1 _)) with [zeroes]. rewrite replicate_S_end. reflexivity.
Qed.

Definition empty : state := put 1 (splice 0 sb_bytes zeroes) (State (replicate (Z.to_nat 1000) zeroes) 1 59).

Lemma empty_block b : 0 <= b < 1000 -> b <> 1 -> image empty !! Z.to_nat b = Some zeroes.
Proof. intros Hb H1. unfold empty, put, set_image. cbn [image]. rewrite list_lookup_insert_ne by lia. apply lookup_replicate_2. lia. Qed.

Lemma good_empty : good empty.
Proof.
  constructor; [| |cbn; lia| |].
  - unfold empty, put, set_image. cbn [image]. rewrite length_insert, length_replicate. lia.
  - apply Forall_insert; [|split; [reflexivity|apply Forall_splice; [|apply zeros_block]]].
    + apply Forall_forall. intros x Hx. apply elem_of_replicate in Hx as [-> _]. apply zeros_block.
    + apply Forall_concat, Forall_fmap, Forall_forall. intros x _. apply le_bytes_byte.
  - intros b Hb. apply empty_block; cbn in Hb; lia.
  - unfold empty, put, set_image. cbn [image]. rewrite list_lookup_total_insert_eq by (rewrite length_replicate; lia). vm_compute. reflexivity.
Qed.

Lemma built_empty : built empty [].
Proof.
  constructor; [apply good_empty|reflexivity|cbn; lia|intros k t c Hk; discriminate|intros j k Hj; cbn in Hj; lia| |reflexivity]. intros i Hi _. destruct (iblock_at i Hi) as [H1 H2].
  unfold inode_at. rewrite (list_lookup_total_correct _ _ _ (empty_block (IBLOCK i Mkfs.sb) ltac:(lia) ltac:(lia))). cbn [decode_dinode itype]. unfold half, window, zeroes. rewrite drop_replicate, take_replicate. change (Z.to_nat BSIZE) with 512%nat. replace (2 `min` (512 - dinode_off i))%nat with 2%nat by lia. reflexivity.
Qed.

Lemma wp_zero : wp (forM (seqZ 0 FSSIZE) (fun i => wsect i zeroes)) (fun _ st => st = State (replicate (Z.to_nat 1000) zeroes) 1 59) (State [] 1 59).
Proof.
  eapply wp_mono; [apply (wp_forM _ _ (fun k st => st = State (replicate k zeroes) 1 59))|].
  - reflexivity.
  - intros k x st Hk ->. apply lookup_seqZ in Hk as [-> Hk]. exists tt, (State (replicate (S k) zeroes) 1 59). split; [|reflexivity]. rewrite Z.add_0_l. apply wsect_end.
  - intros _ st ->. rewrite length_seqZ. reflexivity.
Qed.

(** ** The root directory *)

Definition inum_of (k : nat) : Z := Z.max 1 (Z.of_nat k).
(** A directory whose k-th name leads to [inum_of k]. *)
Definition root_of (nms : list (list Z)) : list Z := concat (imap (fun k nm => dirent (inum_of k) nm) nms).

Lemma root_snoc nms nm : root_of (nms ++ [nm]) = root_of nms ++ dirent (inum_of (length nms)) nm.
Proof. unfold root_of. rewrite imap_app, concat_app. cbn [imap concat]. rewrite app_nil_r, Nat.add_0_r. reflexivity. Qed.

Lemma length_root nms : length (root_of nms) = (16 * length nms)%nat.
Proof. induction nms as [|nm nms IH] using rev_ind; [reflexivity|]. rewrite root_snoc, !length_app, IH, length_dirent. cbn [length]. lia. Qed.

Lemma root_whole nms : whole (root_of nms).
Proof. unfold whole, DIRENT. rewrite length_root, Nat2Z.inj_mul, Z.mul_comm. apply Z.mod_mul. lia. Qed.

Lemma find_app {A} (P : A -> Prop) `{forall x, Decision (P x)} l x : list_find P (l ++ [x]) = match list_find P l with Some r => Some r | None => if decide (P x) then Some (length l, x) else None end.
Proof.
  induction l as [|y l IH]; cbn [app list_find length]; [reflexivity|]. destruct (decide (P y)); [reflexivity|]. rewrite IH. destruct (list_find P l) as [[i z]|]; [reflexivity|]. destruct (decide (P x)); reflexivity.
Qed.

Lemma put_end e c : put_entry (Z.of_nat (length c)) e c = c ++ e.
Proof. unfold put_entry. rewrite Nat2Z.id, firstn_all, drop_ge, app_nil_r by lia. reflexivity. Qed.

Lemma found_root nms nm : NoDup (name_of <$> nms) -> Z.of_nat (length nms) < 65536 -> found nm (root_of nms) = (fun p => inum_of p.1) <$> list_find (fun x => name_of x = name_of nm) nms.
Proof.
  revert nm. induction nms as [|x nms IH] using rev_ind; intros nm Hn Hl; [reflexivity|]. rewrite fmap_app in Hn. apply NoDup_app in Hn as (Hn & Hx & _). rewrite length_app in Hl. cbn [length] in Hl. specialize (IH) with (1 := Hn) (2 := ltac:(lia) : Z.of_nat (length nms) < 65536).
  assert (Hnone : list_find (fun y => name_of y = name_of x) nms = None).
  { apply list_find_None, Forall_forall. intros y Hy E. apply (Hx (name_of y)); [apply list_elem_of_fmap_2; exact Hy|]. rewrite E. apply list_elem_of_singleton. reflexivity. }
  rewrite root_snoc, <- put_end, found_put, find_app, IH; try (apply root_whole); try lia.
  - destruct (decide (name_of nm = name_of x)) as [E|E].
    + rewrite decide_True by congruence. replace (list_find (fun y => name_of y = name_of nm) nms) with (None (A := nat * list Z)); [reflexivity|]. rewrite <- Hnone. apply find_ext. intros y _. rewrite E. reflexivity.
    + rewrite decide_False by congruence. destruct (list_find (fun y => name_of y = name_of nm) nms) as [[]|]; reflexivity.
  - unfold inum_of. lia.
  - rewrite IH, Hnone. reflexivity.
Qed.

Lemma found_zeros nm c m : whole c -> found nm (c ++ replicate (16 * m) 0) = found nm c /\ whole (c ++ replicate (16 * m) 0).
Proof.
  intros Hw. revert c Hw. induction m as [|m IH]; intros c Hw; [rewrite app_nil_r; auto|]. replace (16 * S m)%nat with (16 + 16 * m)%nat by lia. rewrite replicate_add, app_assoc.
  set (e := replicate 16 0). assert (Hl : length e = 16%nat) by reflexivity. assert (Hm : Z.of_nat (length c) mod DIRENT = 0) by exact Hw.
  assert (Hw' : whole (c ++ e)) by (unfold whole, DIRENT in *; rewrite length_app, Nat2Z.inj_add, Hl, <- Z.add_mod_idemp_l, Hm by lia; reflexivity).
  destruct (IH (c ++ e) Hw') as [-> Hwe]. split; [|exact Hwe]. clear IH Hwe.
  assert (Hent : forall o, o ∈ offsets c \/ o = Z.of_nat (length c) -> entry (c ++ e) o = if decide (o = Z.of_nat (length c)) then e else entry c o).
  { intros o Ho. rewrite <- put_end. apply entry_put; try assumption; try lia; destruct Ho as [Ho|Ho]; try (subst; assumption || lia); apply (offsets_entry c o Hw) in Ho; tauto. }
  unfold found. pose proof (offsets_put (Z.of_nat (length c)) e c Hl Hw ltac:(lia) Hm) as Eo. rewrite put_end, decide_True in Eo by reflexivity. rewrite Eo, find_snoc by (rewrite Hent, decide_True by tauto; intros [Hz _]; apply Hz; reflexivity).
  assert (Hne : forall o, o ∈ offsets c -> entry (c ++ e) o = entry c o) by (intros o Ho; rewrite Hent by tauto; apply (offsets_entry c o Hw) in Ho; rewrite decide_False by lia; reflexivity).
  rewrite (find_ext (fun off => matches nm (entry (c ++ e) off)) (fun off => matches nm (entry c off))) by (intros o Ho; rewrite (Hne o Ho); reflexivity).
  destruct (list_find _ (offsets c)) as [[k o]|] eqn:Ef; [|reflexivity]. apply list_find_Some in Ef as (Ho & _). cbn [fmap option_fmap option_map snd]. do 2 f_equal. exact (Hne o (list_elem_of_lookup_2 _ _ _ Ho)).
Qed.

(** ** The files *)

Definition data (f : source) : list Z := concat (default [] (buffers f)).
Definition names (l : list source) : list (list Z) := [46] :: [46; 46] :: ((fun f => target (name f)) <$> l).
(** The files of the image before the root is rounded. *)
Definition nodes (l : list source) : list (Z * list Z) := (T_DIR, root_of (names l)) :: ((fun f => (T_FILE, data f)) <$> l).

(** The file can be opened and read, its name has no slash and it is not too large. *)
Record valid (f : source) : Prop := {
  va_slash : SLASH ∉ name f;
  va_name : Forall (fun c => is_byte c /\ c <> 0) (name f);
  va_open : exists bufs, buffers f = Some bufs /\ Forall (fun b => b <> [] /\ Forall is_byte b) bufs;
  va_size : Z.of_nat (length (data f)) <= MAXFILE * BSIZE;
}.

Lemma target_sub f x : x ∈ target (name f) -> x ∈ name f.
Proof. unfold target. destruct (name f) as [|c n]; [auto|]. destruct (c =? UNDERSCORE); [right; assumption|auto]. Qed.

Lemma target_bytes f : valid f -> Forall (fun c => is_byte c /\ c <> 0) (target (name f)).
Proof. intros V. apply Forall_forall. intros x Hx. pose proof (va_name _ V) as Hn. rewrite Forall_forall in Hn. apply Hn, target_sub, Hx. Qed.

Lemma length_names l : length (names l) = (length l + 2)%nat.
Proof. unfold names. cbn [length]. rewrite length_fmap. lia. Qed.

Lemma nodes_snoc l f : nodes (l ++ [f]) = (T_DIR, root_of (names l) ++ dirent (Z.of_nat (length l) + 2) (target (name f))) :: ((fun f => (T_FILE, data f)) <$> l) ++ [(T_FILE, data f)].
Proof.
  unfold nodes. rewrite fmap_app. cbn [fmap list_fmap]. do 2 f_equal. change (names (l ++ [f])) with ([46] :: [46; 46] :: ((fun f => target (name f)) <$> (l ++ [f]))). rewrite fmap_app.
  change ([46] :: [46; 46] :: ?a ++ ?b) with (([46] :: [46; 46] :: a) ++ b). fold (names l). cbn [fmap list_fmap]. rewrite root_snoc, length_names. do 2 f_equal. unfold inum_of. lia.
Qed.

Lemma cost_pos n : 0 <= cost n \/ n < 0.
Proof. unfold cost. destruct (Z.ltb_spec 12 n); lia. Qed.

Lemma size_cost (c : list Z) : 0 <= cost (nblk (Z.of_nat (length c))).
Proof. destruct (cost_pos (nblk (Z.of_nat (length c)))) as [H|H]; [exact H|]. pose proof (Z.div_pos (Z.of_nat (length c) + 511) 512 ltac:(lia) ltac:(lia)). unfold nblk in H. lia. Qed.

Lemma size_cost_mono (c c' : list Z) : (length c <= length c')%nat -> cost (nblk (Z.of_nat (length c))) <= cost (nblk (Z.of_nat (length c'))).
Proof. intros H. apply cost_mono, nblk_mono. lia. Qed.

Lemma total_pos ns : 0 <= total ns.
Proof. induction ns as [|n ns IH]; cbn [total foldr]; [lia|]. fold (total ns). pose proof (size_cost n.2). lia. Qed.

(** The bytes of one file, a buffer at a time. *)
Lemma built_bytes bufs : forall st ns k t c, built st ns -> ns !! k = Some (t, c) -> Forall (fun b => b <> [] /\ Forall is_byte b) bufs -> Z.of_nat (length (c ++ concat bufs)) <= MAXFILE * BSIZE ->
  total (<[k := (t, c ++ concat bufs)]> ns) <= 940 -> wp (forM bufs (iappend (Z.of_nat k + 1))) (fun _ st' => built st' (<[k := (t, c ++ concat bufs)]> ns)) st.
Proof.
  induction bufs as [|b bufs IH]; intros st ns k t c B Hk Hb Hmax Hroom; cbn [concat forM].
  - rewrite app_nil_r, list_insert_id by exact Hk. apply wp_skip, B.
  - apply Forall_cons in Hb as [[Hb0 Hb1] Hb]. pose proof (lookup_lt_Some _ _ _ Hk) as Hlt. cbn [concat] in Hmax, Hroom. rewrite app_assoc in *. pose proof (length_app (c ++ b) (concat bufs)). rewrite (total_replace _ _ _ _ _ _ Hk) in Hroom. pose proof (size_cost_mono (c ++ b) ((c ++ b) ++ concat bufs) ltac:(lia)).
    apply wp_bind. eapply wp_mono; [apply (built_append st ns k t c b B Hk Hb1 Hb0); [lia|rewrite (total_replace _ _ _ _ _ _ Hk); lia]|]. intros [] st1 B1.
    assert (Hk1 : <[k := (t, c ++ b)]> ns !! k = Some (t, c ++ b)) by (apply list_lookup_insert_eq, Hlt). rewrite <- (list_insert_insert_eq ns k _ (t, c ++ b)). apply (IH st1 _ k t (c ++ b) B1 Hk1 Hb Hmax). rewrite (total_replace _ _ _ _ _ _ Hk1), (total_replace _ _ _ _ _ _ Hk). lia.
Qed.

Lemma built_file st l f : built st (nodes l) -> valid f -> (length l < 198)%nat -> total (nodes (l ++ [f])) <= 940 -> wp (add_file 1 f) (fun _ st' => built st' (nodes (l ++ [f]))) st.
Proof.
  intros B V Hl Hroom. destruct (va_open _ V) as (bufs & Eb & Hb). assert (Ed : concat bufs = data f) by (unfold data; rewrite Eb; reflexivity). unfold add_file. rewrite bool_decide_false by apply V. rewrite Eb.
  set (fl := (fun f => (T_FILE, data f)) <$> l) in *. assert (Efl : length fl = length l) by apply length_fmap. rewrite nodes_snoc in *. fold fl in Hroom |- *. set (r := root_of (names l)) in *. set (e := dirent (Z.of_nat (length l) + 2) (target (name f))) in *.
  change (nodes l) with ((T_DIR, r) :: fl) in B. set (ns1 := ((T_DIR, r) :: fl) ++ [(T_FILE, [])]). assert (He : length e = 16%nat) by apply length_dirent. assert (Hr : length r = (16 * (length l + 2))%nat) by (unfold r; rewrite length_root, length_names; reflexivity).
  set (ns2 := (T_DIR, r ++ e) :: fl ++ [(T_FILE, [])]). assert (E2 : <[0%nat := (T_DIR, r ++ e)]> ns1 = ns2) by reflexivity. set (k := S (length l)). assert (Hk : ns2 !! k = Some (T_FILE, [])) by (cbn; rewrite <- Efl; apply list_lookup_middle; reflexivity).
  assert (E3 : <[k := (T_FILE, [] ++ concat bufs)]> ns2 = (T_DIR, r ++ e) :: fl ++ [(T_FILE, data f)]) by (unfold ns2, k; cbn [app]; change (<[S (length l) := ?x]> (?a :: ?b)) with (a :: <[length l := x]> b); rewrite <- Efl, insert_app_r_alt, Nat.sub_diag, Ed by lia; reflexivity).
  assert (T2 : total ns2 <= 940).
  { pose proof (total_replace _ _ _ _ T_FILE ([] ++ concat bufs) Hk) as Et. rewrite E3 in Et. pose proof (size_cost_mono [] ([] ++ concat bufs) ltac:(cbn; lia)). lia. }
  apply wp_bind. eapply wp_mono; [apply (built_new st _ T_FILE B); [cbn [length]; lia|reflexivity + (split; reflexivity)|discriminate]|].
  intros i st1 [-> B1]. cbn [length]. rewrite Efl, xshort_id by lia. replace (Z.of_nat (S (length l)) + 1) with (Z.of_nat (length l) + 2) at 1 by lia. fold e. fold ns1 in B1.
  apply wp_bind. eapply wp_mono; [apply (built_append st1 ns1 0 T_DIR r e B1 eq_refl)|].
  - apply NameiProps.dirent_bytes. eapply Forall_impl; [apply (target_bytes f V)|]. intros x [Hx _]. exact Hx.
  - intros E. rewrite E in He. discriminate.
  - rewrite length_app. change (MAXFILE * BSIZE) with 71680. lia.
  - rewrite E2. exact T2.
  - intros [] st2 B2. rewrite E2 in B2. rewrite <- E3. apply (built_bytes bufs st2 ns2 k T_FILE [] B2 Hk Hb); [rewrite app_nil_l, Ed; apply V|rewrite E3; exact Hroom].
Qed.

(** ** The whole run *)

Lemma total_prefix l l' : total (nodes l) <= total (nodes (l ++ l')).
Proof.
  unfold nodes. rewrite fmap_app. cbn [total foldr snd]. fold (total ((fun f => (T_FILE, data f)) <$> l)) (total (((fun f => (T_FILE, data f)) <$> l) ++ ((fun f => (T_FILE, data f)) <$> l'))). rewrite total_app.
  pose proof (total_pos ((fun f => (T_FILE, data f)) <$> l')). pose proof (size_cost_mono (root_of (names l)) (root_of (names (l ++ l'))) ltac:(rewrite !length_root, !length_names, length_app; lia)). lia.
Qed.

Lemma built_files files st : built st (nodes []) -> Forall valid files -> (length files <= 198)%nat -> total (nodes files) <= 940 -> wp (forM files (add_file 1)) (fun _ st' => built st' (nodes files)) st.
Proof.
  intros B V Hl Hroom. eapply wp_mono; [apply (wp_forM files (add_file 1) (fun k st => built st (nodes (take k files))))|].
  - exact B.
  - intros k f st1 Hk B1. pose proof (lookup_lt_Some _ _ _ Hk) as Hlt. rewrite (take_S_r _ _ _ Hk). apply built_file; [exact B1|rewrite Forall_lookup in V; exact (V k f Hk)|rewrite length_take; lia|].
    rewrite <- (take_S_r _ _ _ Hk). etransitivity; [apply (total_prefix _ (drop (S k) files))|]. rewrite take_drop. exact Hroom.
  - intros [] st1 B1. rewrite firstn_all in B1. exact B1.
Qed.

(** What the run must fit in: the inodes, the blocks, and a last block of the root that is not full. *)
Record fits (files : list source) : Prop := {
  ft_valid : Forall valid files;
  ft_inodes : (length files <= 198)%nat;
  ft_blocks : total (nodes files) <= 940;
  ft_root : (Z.of_nat (length files) + 2) mod 32 <> 0;
}.

(** The root directory in whole blocks, and the files of the image when [main] is done. *)
Definition padded (files : list source) : list Z := root_of (names files) ++ replicate (pad (root_of (names files))) 0.
Definition finished (files : list source) : list (Z * list Z) := (T_DIR, padded files) :: ((fun f => (T_FILE, data f)) <$> files).

Lemma root_mod files : fits files -> let n := Z.of_nat (length (root_of (names files))) in n mod 512 <> 0 /\ (n / 512 + 1) * 512 <= MAXFILE * BSIZE.
Proof.
  intros [_ H1 _ H2] n. assert (En : n = 16 * (Z.of_nat (length files) + 2)) by (unfold n; rewrite length_root, length_names; lia). split.
  - rewrite En. change 512 with (16 * 32). rewrite Z.mul_mod_distr_l by lia. lia.
  - change (MAXFILE * BSIZE) with 71680. pose proof (Z.div_mod n 512 ltac:(lia)). pose proof (Z.mod_pos_bound n 512 ltac:(lia)). lia.
Qed.

Lemma main_builds files : fits files -> wp (main files) (fun _ st' => exists st, built st (finished files) /\ st' = put 58 (bitmap (freeblock st)) st) Mkfs.start.
Proof.
  intros F. destruct (root_mod files F) as [Hm Hmax]. destruct F as [V Hl Hroom _]. unfold main. apply wp_bind. exists tt, (State [] 1 59). split; [reflexivity|]. apply wp_bind. eapply wp_mono; [apply wp_zero|]. intros [] st ->.
  apply wp_bind. exists tt, empty. split; [unfold wsect, modify, empty, put, set_image; cbn [image freeinode freeblock]; rewrite length_replicate; replace (Z.to_nat 1 + 1 - Z.to_nat 1000)%nat with O by lia; cbn [replicate]; rewrite app_nil_r; reflexivity|].
  apply wp_bind. eapply wp_mono; [apply (built_new empty [] T_DIR built_empty); [cbn; lia|split; reflexivity|discriminate]|]. intros r st0 [-> B0]. change (negb (_ =? ROOTINO)) with false. cbn match. change (xshort _) with 1. change (Z.of_nat (length []) + 1) with (Z.of_nat 0 + 1).
  assert (T0 : total (nodes []) <= 940) by (vm_compute; discriminate).
  apply wp_bind. eapply wp_mono; [apply (built_append st0 _ 0 T_DIR [] (dirent 1 [46]) B0 eq_refl); [apply NameiProps.dirent_bytes; repeat constructor; unfold is_byte; lia|discriminate|vm_compute; discriminate|vm_compute; discriminate]|]. intros [] st1 B1.
  apply wp_bind. eapply wp_mono; [apply (built_append st1 _ 0 T_DIR (dirent 1 [46]) (dirent 1 [46; 46]) B1 eq_refl); [apply NameiProps.dirent_bytes; repeat constructor; unfold is_byte; lia|discriminate|vm_compute; discriminate|vm_compute; discriminate]|]. intros [] st2 B2.
  apply wp_bind. change (Z.of_nat 0 + 1) with 1. eapply wp_mono; [apply (built_files files st2 B2 V Hl Hroom)|]. intros [] st3 B3.
  apply wp_bind. eapply wp_mono; [apply (built_round st3 _ T_DIR _ B3 eq_refl Hm Hmax)|]. intros [] st4 B4. change (built st4 (finished files)) in B4.
  apply wp_bind. exists (freeblock st4), st4. split; [reflexivity|]. pose proof (bu_good _ _ B4) as G. pose proof (gd_free _ G). exists tt, (put 58 (bitmap (freeblock st4)) st4). split; [|exists st4; auto].
  unfold Mkfs.balloc. change (BSIZE * 8) with 4096. rewrite (proj2 (Z.ltb_lt _ _)) by lia. apply wsect_at; [exact G|lia].
Qed.

(** ** The image as the kernel's disk *)

(** The file system the kernel has when it starts on the image, with the inode cache [ic]. *)
Definition boot (st : state) (ic : list inode) : fs := MkFs (image st) (decode_sb (image st !!! 1%nat)) ic.

Section boot.
Context (files : list source) (st : state) (ic : list inode).
Hypothesis B : built st (finished files).
Hypothesis Hroot : Z.of_nat (length (root_of (names files))) mod 512 <> 0.
Let s := boot (put 58 (bitmap (freeblock st)) st) ic.
Let w := blank 0.

Lemma boot_disk : blocks s = blocks (disk st w) /\ sb s = sb (disk st w).
Proof using All. clear Hroot. split; [reflexivity|]. unfold s, boot, put, set_image. cbn [image sb disk]. rewrite list_lookup_total_insert_ne by lia. apply (gd_sb _ (bu_good _ _ B)). Qed.

Lemma boot_inode i : 0 <= i < 200 -> disk_inode s i = inode_at st i.
Proof using All. intros Hi. destruct boot_disk as [E1 E2]. rewrite (disk_inode_blocks (disk st w) s) by assumption. apply disk_inode_at; [apply B|exact Hi]. Qed.

Lemma boot_holds k t c : finished files !! k = Some (t, c) -> let v := disk_inode s (Z.of_nat k + 1) in
  0 <= Z.of_nat k + 1 < 200 /\ itype v = t /\ nlink v = 1 /\ regular 59 s v /\ content s v = c.
Proof using All.
  intros Hk v. pose proof (lookup_lt_Some _ _ _ Hk). pose proof (bu_room _ _ B). pose proof (bu_holds _ _ B k t c Hk) as [H1 H2 H3 H4]. unfold v. rewrite boot_inode by lia. destruct boot_disk as [E1 E2]. set (u := inode_at st (Z.of_nat k + 1)) in *.
  split; [lia|]. split; [exact H2|]. split; [exact H3|]. split; [apply (regular_plain 59 (disk st u) s u u); [exact E1|exact E2|reflexivity|apply file_regular with (i := Z.of_nat k + 1), H1]|]. rewrite <- H4. apply content_cached; [exact E1|reflexivity].
Qed.

Lemma boot_live i : live s i -> exists k t c, i = Z.of_nat k + 1 /\ finished files !! k = Some (t, c).
Proof using All.
  intros (Hr & Ht & _). destruct boot_disk as [_ E2]. rewrite E2 in Hr. change (ninodes (sb (disk st w))) with 200 in Hr. rewrite boot_inode in Ht by exact Hr. destruct (decide (0 < i <= Z.of_nat (length (finished files)))) as [Hi|Hi].
  - destruct (lookup_lt_is_Some_2 (finished files) (Z.to_nat (i - 1)) ltac:(lia)) as [[t c] Hk]. exists (Z.to_nat (i - 1)), t, c. split; [lia|exact Hk].
  - exfalso. apply Ht, (bu_blank _ _ B); [exact Hr|lia].
Qed.

Lemma finished_live k t c : finished files !! k = Some (t, c) -> t <> 0 -> live s (Z.of_nat k + 1).
Proof using All. intros Hk Ht. destruct (boot_holds k t c Hk) as (H1 & H2 & H3 & _). destruct boot_disk as [_ E2]. split; [rewrite E2; exact H1|]. rewrite H2, H3. split; [exact Ht|discriminate]. Qed.

Lemma finished_type k t c : finished files !! k = Some (t, c) -> (k = O /\ t = T_DIR) \/ (exists k' f, k = S k' /\ files !! k' = Some f /\ t = T_FILE /\ c = data f).
Proof using All.
  destruct k as [|k]; [change (finished files !! 0%nat) with (Some (T_DIR, padded files)); intros E; apply Some_inj, pair_equal_spec in E as [<- _]; auto|]. change (finished files !! S k) with (((fun f => (T_FILE, data f)) <$> files) !! k). rewrite list_lookup_fmap. destruct (files !! k) as [f|] eqn:Hf; [|discriminate]. intros E. apply Some_inj, pair_equal_spec in E as [<- <-]. right. exists k, f. auto.
Qed.

Lemma padded_found nm : found nm (padded files) = found nm (root_of (names files)) /\ whole (padded files).
Proof using All.
  unfold padded. set (r := root_of (names files)). pose proof (root_whole (names files)) as Hw. fold r in Hw. pose proof Hw as Hd. unfold whole, DIRENT in Hd. pose proof (Z.mod_pos_bound (Z.of_nat (length r)) 512 ltac:(lia)).
  assert (Hp : 512 - Z.of_nat (length r) mod 512 = 16 * ((512 - Z.of_nat (length r) mod 512) / 16)).
  { apply Z_div_exact_full_2; [lia|]. rewrite Zminus_mod, Z.mod_mod_divide by (exists 32; reflexivity). rewrite Hd. reflexivity. }
  replace (pad r) with (16 * Z.to_nat ((512 - Z.of_nat (length r) mod 512) / 16))%nat by (unfold pad; lia). apply found_zeros, Hw.
Qed.

Lemma boot_root : is_dir s 1 = true /\ live s 1 /\ regular 59 s (disk_inode s 1) /\ content s (disk_inode s 1) = padded files.
Proof using All.
  destruct (boot_holds 0 T_DIR (padded files) eq_refl) as (H1 & H2 & H3 & H4 & H5). split; [|split; [exact (finished_live 0 T_DIR (padded files) eq_refl ltac:(discriminate))|auto]]. unfold is_dir. change (Z.of_nat 0 + 1) with 1 in *. rewrite H2. reflexivity.
Qed.

Hypothesis Hnames : NoDup (name_of <$> names files).
Hypothesis Hcount : (length files <= 198)%nat.

Lemma boot_entries nm : entries s 1 nm = (fun p => inum_of p.1) <$> list_find (fun x => name_of x = name_of nm) (names files).
Proof using All. destruct boot_root as (_ & _ & _ & E). unfold entries. rewrite E. destruct (padded_found nm) as [-> _]. apply found_root; [exact Hnames|rewrite length_names; lia]. Qed.

Lemma boot_dir i : live s i -> is_dir s i = true -> i = 1.
Proof using All.
  intros Hl Hd. destruct (boot_live i Hl) as (k & t & c & -> & Hk). destruct (boot_holds k t c Hk) as (_ & Ht & _). unfold is_dir in Hd. rewrite Ht in Hd. destruct (finished_type k t c Hk) as [[-> _]|(k' & f & _ & _ & -> & _)]; [reflexivity|discriminate].
Qed.

Lemma image_tree : tree 59 s.
Proof using All.
  destruct boot_disk as [E1 E2]. destruct boot_root as (R1 & R2 & R3 & R4). constructor.
  - apply (formatted_same 59 (disk st w)); [exact E1|exact E2|apply formatted_disk, B].
  - intros i Hl Hd. rewrite (boot_dir i Hl Hd). split; [exact R3|]. rewrite R4. apply (padded_found []).
  - intros i nm j Hl Hd. rewrite (boot_dir i Hl Hd), boot_entries. destruct (list_find _ (names files)) as [[k x]|] eqn:Ef; [|discriminate]. intros [= <-]. apply list_find_Some in Ef as (Hk & _). cbn [fst].
    apply lookup_lt_Some in Hk. rewrite length_names in Hk. unfold inum_of. destruct (lookup_lt_is_Some_2 (finished files) (Z.to_nat (Z.max 1 (Z.of_nat k) - 1))) as [[t c] Hx]; [unfold finished; cbn [length]; rewrite length_fmap; lia|].
    replace (Z.max 1 (Z.of_nat k)) with (Z.of_nat (Z.to_nat (Z.max 1 (Z.of_nat k) - 1)) + 1) by lia. apply (finished_live _ t c Hx). destruct (finished_type _ _ _ Hx) as [[_ ->]|(? & ? & _ & _ & -> & _)]; discriminate.
Qed.

Lemma boot_file k f : files !! k = Some f -> let i := Z.of_nat k + 2 in live s i /\ is_dir s i = false /\ regular 59 s (disk_inode s i) /\ content s (disk_inode s i) = data f /\ entries s 1 (target (name f)) = Some i.
Proof using All.
  intros Hk i. assert (Hf : finished files !! S k = Some (T_FILE, data f)) by (change (finished files !! S k) with (((fun f => (T_FILE, data f)) <$> files) !! k); rewrite list_lookup_fmap, Hk; reflexivity).
  destruct (boot_holds (S k) T_FILE (data f) Hf) as (H1 & H2 & H3 & H4 & H5). pose proof (finished_live (S k) T_FILE (data f) Hf ltac:(discriminate)) as Hl. replace (Z.of_nat (S k) + 1) with i in * by lia.
  split; [exact Hl|]. split; [unfold is_dir; rewrite H2; reflexivity|]. split; [exact H4|]. split; [exact H5|]. rewrite boot_entries.
  assert (Hn : names files !! S (S k) = Some (target (name f))) by (change (names files !! S (S k)) with (((fun f => target (name f)) <$> files) !! k); rewrite list_lookup_fmap, Hk; reflexivity).
  destruct (list_find (fun x => name_of x = name_of (target (name f))) (names files)) as [[j x]|] eqn:Ef.
  - apply list_find_Some in Ef as (Hj & Hx & _). cbn [fmap option_fmap option_map fst]. f_equal. assert (j = S (S k)) as ->; [|unfold inum_of; lia]. apply (NoDup_lookup _ _ _ (name_of x) Hnames); rewrite list_lookup_fmap; [rewrite Hj; reflexivity|rewrite Hn, Hx; reflexivity].
  - exfalso. apply list_find_None in Ef. rewrite Forall_lookup in Ef. exact (Ef _ _ Hn eq_refl).
Qed.

Lemma boot_used b : 0 <= b < 1000 -> used s b = (b <? 59 + total (nodes files)).
Proof using All.
  intros Hb. destruct boot_disk as [E1 E2]. transitivity (used (disk st w) b); [unfold used, blk; rewrite E1, E2; reflexivity|]. rewrite used_disk by (exact Hb || apply B). rewrite (bu_blocks _ _ B). do 2 f_equal.
  unfold finished, padded, nodes. cbn [total foldr snd]. f_equal. set (r := root_of (names files)) in *. rewrite length_app, length_replicate. destruct (round_nblk (Z.of_nat (length r)) ltac:(lia) Hroot) as [<- _]. do 2 f_equal. unfold pad.
  pose proof (Z.div_mod (Z.of_nat (length r)) 512 ltac:(lia)). pose proof (Z.mod_pos_bound (Z.of_nat (length r)) 512 ltac:(lia)). lia.
Qed.
End boot.
End ImageFacts.

Module ImageProps.
Import Mkfs Fs FsFacts DirFacts CacheFacts NameiFacts MkfsFacts ImageFacts.

(** C16: The builder's [iappend] is the kernel's [writei] at the end of the file.  On every image that
    [mkfs] has made so far, with the free map it will write at the end, [iappend] of a non-empty
    sequence of bytes to a file and [writei] of the same bytes at the file's size both succeed, as
    long as the file stays within the largest size and the blocks suffice, and they leave the same
    blocks, the same inode on the disk and the same free map.  The file is longer by these bytes, no
    other inode changes, and as many blocks are taken as the length of the file asks for, the
    indirect block counted. *)
Theorem iappend_is_writei dw st i v p : file st i v -> Forall is_byte p -> p <> [] -> isize v + Z.of_nat (length p) <= MAXFILE * BSIZE ->
  freeblock st + cost (nblk (isize v + Z.of_nat (length p))) - cost (nblk (isize v)) + 1 <= 1000 ->
  exists st' v', iappend i p st = Ok (tt, st') /\ writei dw 0 p (isize v) (disk st v) = Ok (Some (Z.of_nat (length p)), disk st' v') /\
    file st' i v' /\ content (disk st' v') v' = content (disk st v) v ++ p /\
    freeblock st' = freeblock st + cost (nblk (isize v + Z.of_nat (length p))) - cost (nblk (isize v)) /\
    (forall j, 0 <= j < 200 -> j <> i -> inode_at st' j = inode_at st j).
Proof.
  intros F Hb Hne Hmax Hroom. destruct (iappend_at dw st i v p F Hb Hne Hmax Hroom) as (st' & v' & E1 & E2 & [X1 _ X3 _ X5 _ X7]). exists st', v'. repeat (split; [assumption|]). exact X7.
Qed.

(** The first inode of an image with nothing in it yet. *)
Definition first : state := store_at 1 (fresh 1 T_DIR) (State (image empty) 2 59).

Lemma iappend_is_writei_witness : exists st' v', iappend 1 [104; 105] first = Ok (tt, st') /\
  writei (fun _ => None) 0 [104; 105] 0 (disk first (fresh 1 T_DIR)) = Ok (Some 2, disk st' v') /\ content (disk st' v') v' = [104; 105] /\ freeblock st' = 60.
Proof.
  pose proof (good_inode 2 empty good_empty : good (State (image empty) 2 59)) as G. pose proof (fresh_encodable 1 T_DIR ltac:(split; discriminate || reflexivity)) as He.
  assert (F : file first 1 (fresh 1 T_DIR)).
  { apply fresh_file; [apply store_good; try assumption; lia|lia|split; discriminate || reflexivity|discriminate|]. apply store_same; try assumption; try reflexivity. lia. }
  destruct (iappend_is_writei (fun _ => None) first 1 (fresh 1 T_DIR) [104; 105] F) as (st' & v' & E1 & E2 & _ & E3 & E4 & _).
  - repeat constructor; unfold is_byte; lia.
  - discriminate.
  - vm_compute. discriminate.
  - vm_compute. discriminate.
  - exists st', v'. split; [exact E1|]. split; [exact E2|]. split; [exact E3|exact E4].
Defined.

(** [mkfs] builds a file system.  For files that can be read, whose names have no slash, with
    the inodes and the blocks they need and with room left in the last block of the root, [main]
    returns, and what it has written is a disk for the kernel: the superblock is read back, the
    disk is formatted and its directories are well formed; the root maps exactly the dots and the
    names, without a leading underscore and cut to fourteen characters, each to its own inode; every
    file has the bytes that were read; no two files share a block; and a block is marked as used
    when it is one of the metadata blocks or of the blocks taken for the files, and only then. *)
Theorem mkfs_builds files : fits files -> NoDup (name_of <$> names files) -> exists st', main files Mkfs.start = Ok (tt, st') /\
  Z.of_nat (length (image st')) = FSSIZE /\ forall ic, let s := boot st' ic in
    sb s = Mkfs.sb /\ tree 59 s /\
    (forall nm, entries s ROOTINO nm = (fun p => inum_of p.1) <$> list_find (fun x => name_of x = name_of nm) (names files)) /\
    (forall k f, files !! k = Some f -> let i := Z.of_nat k + 2 in live s i /\ is_dir s i = false /\ regular 59 s (disk_inode s i) /\ content s (disk_inode s i) = data f) /\
    (forall i j, 1 <= i <= Z.of_nat (length files) + 1 -> 1 <= j <= Z.of_nat (length files) + 1 -> i <> j -> disjoint s (disk_inode s i) (disk_inode s j)) /\
    (forall b, 0 <= b < FSSIZE -> used s b = (b <? 59 + total (nodes files))).
Proof.
  intros F Hn. destruct (main_builds files F) as ([] & st' & E & st & B & ->). destruct (root_mod files F) as [Hm _]. pose proof (ft_inodes _ F) as Hc. eexists. split; [exact E|]. split; [unfold put, set_image; cbn [image]; rewrite length_insert; apply B|]. intros ic s.
  destruct (boot_disk files st ic B Hm) as [E1 E2]. split; [exact E2|]. split; [apply (image_tree files st ic B Hm Hn Hc)|]. split; [apply (boot_entries files st ic B Hm Hn Hc)|]. split; [|split].
  - intros k f Hk i. destruct (boot_file files st ic B Hm Hn Hc k f Hk) as (H1 & H2 & H3 & H4 & _). auto.
  - intros i j Hi Hj Hne. assert (Hl : length (finished files) = S (length files)) by (unfold finished; cbn [length]; rewrite length_fmap; reflexivity).
    pose proof (bu_apart _ _ B (Z.to_nat (i - 1)) (Z.to_nat (j - 1)) ltac:(lia) ltac:(lia) ltac:(lia)) as A. rewrite !Z2Nat.id, !Z.sub_add in A by lia. unfold s. rewrite !(boot_inode files st ic B Hm) by lia. exact A.
  - apply (boot_used files st ic B Hm Hn Hc).
Qed.

(** One file of two bytes, with an underscore in its name. *)
Definition hello : source := Source [95; 97] (Some [[104]; [105]]).

Lemma hello_fits : fits [hello].
Proof.
  constructor; [|cbn; lia|vm_compute; discriminate|discriminate]. apply Forall_singleton. constructor.
  - intros Hin. repeat (apply elem_of_cons in Hin as [Hin|Hin]; [discriminate|]). inversion Hin.
  - repeat constructor; unfold is_byte; (lia || discriminate).
  - exists [[104]; [105]]. split; [reflexivity|]. repeat constructor; unfold is_byte; (lia || discriminate).
  - vm_compute. discriminate.
Qed.

Lemma hello_names : NoDup (name_of <$> names [hello]).
Proof. apply (bool_decide_unpack _). vm_compute. exact I. Qed.

Lemma mkfs_builds_witness : exists st', main [hello] Mkfs.start = Ok (tt, st') /\ entries (boot st' []) 1 [97] = Some 2 /\ content (boot st' []) (disk_inode (boot st' []) 2) = [104; 105] /\ used (boot st' []) 60 = true /\ used (boot st' []) 61 = false.
Proof.
  destruct (mkfs_builds [hello] hello_fits hello_names) as (st' & E & _ & H). exists st'. destruct (H []) as (_ & _ & He & Hf & _ & Hu). split; [exact E|]. split; [exact (He [97])|]. split; [apply (Hf O hello eq_refl)|]. split; [rewrite Hu by (split; reflexivity || discriminate); reflexivity|rewrite Hu by (split; reflexivity || discriminate); reflexivity].
Defined.

(** [open] and [read] as the kernel does them for a path: look up, lock, read. *)
Definition fetch (dr : Z -> option (nat -> Z -> K fs (option (list Z)))) (cwd : nat) (path : list Z) (off n : Z) : K fs (option (list Z)) :=
  r ← namei dr cwd path;
  match r with
  | Some ip => ilock ip ;; readi dr ip off n
  | None => mret None
  end.

Lemma pieces_single t : (SLASH ∉ t) -> pieces t = [t].
Proof.
  induction t as [|c t IH]; intros H; cbn [pieces]; [reflexivity|]. apply not_elem_of_cons in H as [H1 H2]. rewrite (proj2 (Z.eqb_neq c SLASH)) by congruence. rewrite IH by exact H2. reflexivity.
Qed.

Lemma single_element t : t <> [] -> (SLASH ∉ t) -> elements (SLASH :: t) = [t].
Proof. intros H0 Hs. rewrite elements_slash. unfold elements. rewrite pieces_single by exact Hs. destruct t; [congruence|reflexivity]. Qed.

(** C7: The kernel reads from the image what the builder put there.  When the kernel has started on
    the image that [main] made for the files, with any sound inode cache that has two free entries,
    looking up a slash and the name of any of the files finds it, and reading [n] bytes at any
    offset within it returns exactly these bytes of the file that was given to [mkfs]. *)
Theorem kernel_reads_image files k f dr cwd c off n : fits files -> NoDup (name_of <$> names files) -> files !! k = Some f -> target (name f) <> [] ->
  0 <= off <= Z.of_nat (length (data f)) -> 0 <= n -> off + n < 4294967296 ->
  exists st', main files Mkfs.start = Ok (tt, st') /\ forall ic, let s := boot st' ic in
    sound [] s -> (2 <= frees s)%nat -> ic !! cwd = Some c -> 0 < ref c ->
    wp (fetch dr cwd (SLASH :: target (name f)) off n) (fun r s' => r = Some (take (Z.to_nat n) (drop (Z.to_nat off) (data f))) /\ blocks s' = blocks s) s.
Proof.
  intros F Hn Hk Ht Ho H0 Hw. destruct (main_builds files F) as ([] & st' & E & st & B & ->). destruct (root_mod files F) as [Hm _]. pose proof (ft_inodes _ F) as Hcn. eexists. split; [exact E|]. intros ic s S0 Hf Hc Hr.
  pose proof (image_tree files st ic B Hm Hn Hcn : tree 59 s) as T. destruct (boot_root files st ic B Hm) as (R1 & R2 & _ & _). destruct (boot_file files st ic B Hm Hn Hcn k f Hk) as (L1 & L2 & L3 & L4 & L5). fold s in R1, R2, L1, L2, L3, L4, L5. pose proof (ft_valid _ F) as V. rewrite Forall_lookup in V. specialize (V k f Hk).
  assert (Hz : Forall (fun x => x <> 0) (SLASH :: target (name f))) by (constructor; [discriminate|]; eapply Forall_impl; [apply (target_bytes f V)|]; intros x [_ Hx]; exact Hx).
  unfold fetch, namei. apply wp_bind, wp_bind. eapply wp_mono; [apply (wp_namex 59 dr s cwd c (SLASH :: target (name f)) false (replicate 14 0) T S0 Hf Hc Hr R2 Hz eq_refl)|].
  intros r s1 H. change (NameiFacts.start c (SLASH :: target (name f))) with 1 in H. rewrite single_element in H by (exact Ht || (intros Hin; apply (va_slash _ V), target_sub, Hin)). cbn [walk_path] in H. rewrite R1, L5 in H. cbn in H. destruct H as (ip & nm & -> & Tk & _). wp_step.
  apply wp_bind. eapply wp_mono; [apply (taken_lock 59 s _ ip s1 (tr_formatted _ _ T) Tk L1)|]. intros [] s2 (Tk2 & w & Hwp & Hp). pose proof (tk_blocks _ _ _ _ _ Tk2) as Eb. pose proof (tk_sb _ _ _ _ _ Tk2) as Es.
  assert (Hpl : plain w = plain (disk_inode s (Z.of_nat k + 2))) by (rewrite Hp; reflexivity). pose proof (regular_plain 59 s s2 _ w Eb Es Hpl L3) as Rw. pose proof (content_cached s s2 _ w Eb Hpl) as Ec. rewrite L4 in Ec.
  eapply wp_mono; [apply (wp_readi 59 dr s2 ip w off n (formatted_same 59 s s2 Eb Es (tr_formatted _ _ T)) Hwp Rw)|]; [|exact H0|exact Hw|].
  - rewrite <- (length_content s2 w), Ec by apply Rw. exact Ho.
  - intros r s3 [-> ->]. rewrite Ec. auto.
Qed.

(** The inode cache of a kernel whose first process has the root as its directory. *)
Definition root_cwd : inode := Inode 1 1 1 false false 0 0 0 0 0 [].
Definition first_cache : list inode := root_cwd :: replicate 49 (Inode 0 0 0 false false 0 0 0 0 0 []).

Lemma first_sound st : sound [] (boot st first_cache).
Proof.
  assert (H : forall ip v, icache (boot st first_cache) !! ip = Some v -> ip = O /\ v = root_cwd \/ ref v = 0 /\ busy v = false).
  { intros [|ip] v Hv; [injection Hv as <-; auto|]. right. cbn [boot icache] in Hv. change (first_cache !! S ip) with (replicate 49 (Inode 0 0 0 false false 0 0 0 0 0 []) !! ip) in Hv. apply lookup_replicate in Hv as [-> _]. auto. }
  constructor.
  - intros ip v Hv. destruct (H _ _ Hv) as [[_ ->]|[-> _]]; cbn; lia.
  - intros ip v Hv Hr. destruct (H _ _ Hv) as [[_ ->]|[E _]]; [reflexivity|lia].
  - intros ip v Hv Hr. destruct (H _ _ Hv) as [[_ ->]|[E _]]; [|lia]. split; [discriminate|intros []%not_elem_of_nil].
  - intros ip v Hv Hr. destruct (H _ _ Hv) as [[_ ->]|[E _]]; [discriminate|lia].
  - intros ip jp v w Hv Hw Hr Hr' _. destruct (H _ _ Hv) as [[-> _]|[E _]]; [|lia]. destruct (H _ _ Hw) as [[-> _]|[E _]]; [reflexivity|lia].
  - intros ip []%not_elem_of_nil.
Qed.

Lemma kernel_reads_image_witness : exists st' s', main [hello] Mkfs.start = Ok (tt, st') /\ fetch (fun _ => None) 0 [47; 97] 1 512 (boot st' first_cache) = Ok (Some [105], s').
Proof.
  destruct (kernel_reads_image [hello] 0 hello (fun _ => None) 0 root_cwd 1 512 hello_fits hello_names eq_refl) as (st' & E & H).
  - discriminate.
  - split; discriminate.
  - discriminate.
  - reflexivity.
  - destruct (H first_cache (first_sound st') ltac:(vm_compute; lia) eq_refl ltac:(reflexivity)) as (r & s' & E2 & -> & _). exists st', s'. split; [exact E|exact E2].
Defined.
End ImageProps.
