(* ===== verification/Ide.v ===== *)
(** The disk driver (ide.c): the queue of requests, the commands to the controller, the interrupt.

    The controller is not part of the sources: it is an argument, a state with the four port
    operations the driver uses and the laws of its registers, commands and sectors.  A queue of
    buffers is linked through [qnext]; a pointer to a link is the head or the link of a buffer.  A
    process in [iderw] holds [idelock] until it sleeps, so that [iderw] up to the sleep and the
    handler are steps that do not interleave; [asleep] has the buffers whose processes sleep. *)

From S2P Require Import Prelude Bio Mkfs.

Module Ide.
Import BufCache.

Definition SECTOR_SIZE : Z := 512.
Definition IDE_BSY : Z := 0x80.
Definition IDE_DRDY : Z := 0x40.
Definition IDE_DF : Z := 0x20.
Definition IDE_ERR : Z := 0x01.
Definition IDE_CMD_READ : Z := 0x20.
Definition IDE_CMD_WRITE : Z := 0x30.
Definition IDE_CMD_RDMUL : Z := 0xc4.
Definition IDE_CMD_WRMUL : Z := 0xc5.

(** ** The controller *)

(** The ports of the controller: reading and writing a byte, and strings of 32-bit words. *)
Class Ports (C : Type) := {
  inb : Z -> C -> Z * C;
  outb : Z -> Z -> C -> C;
  insl : Z -> nat -> C -> list Z * C;
  outsl : Z -> list Z -> C -> C;
  (** How often the status is read at most before the controller is ready. *)
  patience : nat;
}.

Section driver.
Context {C : Type} `{!Ports C}.

Record ide := MkIde {
  bufs : list buf;
  qnext : list (option nat);
  idequeue : option nat;
  havedisk1 : bool;
  asleep : list nat;
  ctl : C;
}.
Definition set_bufs (l : list buf) (s : ide) : ide := MkIde l (qnext s) (idequeue s) (havedisk1 s) (asleep s) (ctl s).
Definition set_qnext (l : list (option nat)) (s : ide) : ide := MkIde (bufs s) l (idequeue s) (havedisk1 s) (asleep s) (ctl s).
Definition set_queue (p : option nat) (s : ide) : ide := MkIde (bufs s) (qnext s) p (havedisk1 s) (asleep s) (ctl s).
Definition set_havedisk1 (b : bool) (s : ide) : ide := MkIde (bufs s) (qnext s) (idequeue s) b (asleep s) (ctl s).
Definition set_asleep (l : list nat) (s : ide) : ide := MkIde (bufs s) (qnext s) (idequeue s) (havedisk1 s) l (ctl s).
Definition set_ctl (c : C) (s : ide) : ide := MkIde (bufs s) (qnext s) (idequeue s) (havedisk1 s) (asleep s) c.

Definition get_buf (i : nat) : K ide buf := fun s => lift_opt "buffer pointer" (bufs s !! i) s.
Definition put_buf (i : nat) (b : buf) : K ide unit := modify (fun s => set_bufs (<[i := b]> (bufs s)) s).

Definition do_inb (p : Z) : K ide Z := fun s => let '(r, c) := inb p (ctl s) in Ok (r, set_ctl c s).
Definition do_outb (p v : Z) : K ide unit := modify (fun s => set_ctl (outb p (v mod 256) (ctl s)) s).
Definition do_insl (p : Z) (n : nat) : K ide (list Z) := fun s => let '(l, c) := insl p n (ctl s) in Ok (l, set_ctl c s).
Definition do_outsl (p : Z) (l : list Z) : K ide unit := modify (fun s => set_ctl (outsl p l (ctl s)) s).

(** ** The driver *)

Definition spin {A} : K ide A := fun _ => Spin.

Fixpoint idewait_loop (fuel : nat) : K ide Z :=
  r ← do_inb 0x1f7;
  if Z.land r (Z.lor IDE_BSY IDE_DRDY) =? IDE_DRDY then mret r
  else match fuel with O => spin | S fuel => idewait_loop fuel end.
Definition idewait (checkerr : bool) : K ide Z :=
  r ← idewait_loop patience;
  mret (if checkerr && negb (Z.land r (Z.lor IDE_DF IDE_ERR) =? 0) then -1 else 0).

Fixpoint probe (n : nat) : K ide unit :=
  match n with
  | O => skip
  | S n =>
      r ← do_inb 0x1f7;
      if negb (r =? 0) then modify (set_havedisk1 true) else probe n
  end.
Definition ideinit : K ide unit :=
  idewait false ;;
  do_outb 0x1f6 (Z.lor 0xe0 (Z.shiftl 1 4)) ;;
  probe (Z.to_nat 1000) ;;
  do_outb 0x1f6 (Z.lor 0xe0 (Z.shiftl 0 4)).

Definition idestart (p : option nat) : K ide unit :=
  match p with
  | None => panic "idestart"
  | Some i =>
      b ← get_buf i;
      if Mkfs.FSSIZE <=? blockno b then panic "incorrect blockno"
      else
        let sector_per_block := BSIZE / SECTOR_SIZE in
        let sector := blockno b * sector_per_block in
        let read_cmd := if sector_per_block =? 1 then IDE_CMD_READ else IDE_CMD_RDMUL in
        let write_cmd := if sector_per_block =? 1 then IDE_CMD_WRITE else IDE_CMD_WRMUL in
        if 7 <? sector_per_block then panic "idestart"
        else
          idewait false ;;
          do_outb 0x3f6 0 ;;
          do_outb 0x1f2 sector_per_block ;;
          do_outb 0x1f3 (Z.land sector 0xff) ;;
          do_outb 0x1f4 (Z.land (Z.shiftr sector 8) 0xff) ;;
          do_outb 0x1f5 (Z.land (Z.shiftr sector 16) 0xff) ;;
          do_outb 0x1f6 (Z.lor (Z.lor 0xe0 (Z.shiftl (Z.land (dev b) 1) 4)) (Z.land (Z.shiftr sector 24) 0x0f)) ;;
          if dirty b then
            do_outb 0x1f7 write_cmd ;;
            do_outsl 0x1f0 (data b)
          else do_outb 0x1f7 read_cmd
  end.

(** The processes that sleep for the buffer run again. *)
Definition wakeup (i : nat) : K ide unit := modify (fun s => set_asleep (filter (fun j => j <> i) (asleep s)) s).

Definition ideintr : K ide unit :=
  q ← gets idequeue;
  match q with
  | None => skip
  | Some i =>
      n ← (fun s => lift_opt "buffer pointer" (qnext s !! i) s);
      modify (set_queue n) ;;
      b ← get_buf i;
      (if negb (dirty b) then
         r ← idewait true;
         if 0 <=? r then
           d ← do_insl 0x1f0 (Z.to_nat (BSIZE / 4));
           put_buf i (set_data d b)
         else skip
       else skip) ;;
      b ← get_buf i;
      put_buf i (set_flags (busy b) true false b) ;;
      wakeup i ;;
      q ← gets idequeue;
      match q with
      | None => skip
      | Some _ => idestart q
      end
  end.

(** A link: [&idequeue], or [&b->qnext] of a buffer. *)
Inductive link := Head | Next (i : nat).
Definition load (pp : link) : K ide (option nat) :=
  match pp with
  | Head => gets idequeue
  | Next i => fun s => lift_opt "buffer pointer" (qnext s !! i) s
  end.
Definition store (pp : link) (p : option nat) : K ide unit :=
  match pp with
  | Head => modify (set_queue p)
  | Next i => modify (fun s => set_qnext (<[i := p]> (qnext s)) s)
  end.
Fixpoint find_end (fuel : nat) (pp : link) : K ide link :=
  p ← load pp;
  match p with
  | None => mret pp
  | Some i => match fuel with O => spin | S fuel => find_end fuel (Next i) end
  end.

(** [iderw] up to the loop at its end. *)
Definition submit (i : nat) : K ide unit :=
  b ← get_buf i;
  have ← gets havedisk1;
  if negb (busy b) then panic "iderw: buf not busy"
  else if valid b && negb (dirty b) then panic "iderw: nothing to do"
  else if negb (dev b =? 0) && negb have then panic "iderw: ide disk 1 not present"
  else
    store (Next i) None ;;
    n ← gets (fun s => length (bufs s));
    pp ← find_end n Head;
    store pp (Some i) ;;
    q ← gets idequeue;
    if bool_decide (q = Some i) then idestart (Some i) else skip.
(** The loop: whether the request is finished; if not, the process sleeps. *)
Definition await (i : nat) : K ide bool :=
  b ← get_buf i;
  if valid b && negb (dirty b) then mret true
  else modify (fun s => set_asleep (i :: asleep s) s) ;; mret false.
Definition iderw (i : nat) : K ide bool := submit i ;; await i.
End driver.
Arguments ide C : clear implicits.
End Ide.
