(* ===== verification/IdeProps.v ===== *)
(** The disk driver (ide.c, modelled in Ide.v) does what the memory disk (memide.c, modelled in Bio.v)
    does, in the order of the requests. *)

From S2P Require Import Prelude Bio Mkfs MkfsProps Ide.

Module IdeFacts.
Import BufCache Ide.

(** * What the driver relies on *)

(** The drive, and the sector on it, that the registers select. *)
Definition drive (reg : Z -> Z) : Z := Z.land (Z.shiftr (reg 0x1f6) 4) 1.
Definition lba (reg : Z -> Z) : Z := reg 0x1f3 + 256 * reg 0x1f4 + 65536 * reg 0x1f5 + 16777216 * Z.land (reg 0x1f6) 15.
Definition task_file (p : Z) : Prop := 0x1f2 <= p <= 0x1f6.

(** The controller as the driver sees it: registers, a number of reads of the status until it is
    ready, the sector a read command has fetched and whether that failed, and the sectors as later
    commands see them.  After a write command it takes the data at once. *)
Class Controller (C : Type) `{!Ports C} := {
  reg : C -> Z -> Z;
  delay : C -> nat;
  reading : C -> option (Z * Z);
  failed : C -> bool;
  sector : C -> Z -> Z -> list Z;
  law_delay : forall c, (delay c <= patience)%nat;
  law_status : forall c, let r := (inb 0x1f7 c).1 in let c' := (inb 0x1f7 c).2 in
    reg c' = reg c /\ reading c' = reading c /\ failed c' = failed c /\ sector c' = sector c /\
    match delay c with
    | O => Z.land r (Z.lor IDE_BSY IDE_DRDY) = IDE_DRDY /\ delay c' = O /\ (Z.land r (Z.lor IDE_DF IDE_ERR) = 0 <-> failed c = false)
    | S n => Z.land r (Z.lor IDE_BSY IDE_DRDY) <> IDE_DRDY /\ delay c' = n
    end;
  law_register : forall c p v, task_file p \/ p = 0x3f6 -> 0 <= v < 256 ->
    (forall q, task_file q -> reg (outb p v c) q = if q =? p then v else reg c q) /\ sector (outb p v c) = sector c;
  law_read : forall c, reg c 0x1f2 = 1 -> reading (outb 0x1f7 IDE_CMD_READ c) = Some (drive (reg c), lba (reg c)) /\ sector (outb 0x1f7 IDE_CMD_READ c) = sector c;
  law_data : forall c d n, delay c = O -> reading c = Some (d, n) -> failed c = false ->
    (insl 0x1f0 128 c).1 = sector c d n /\ sector (insl 0x1f0 128 c).2 = sector c;
  law_write : forall c l d n, reg c 0x1f2 = 1 -> length l = 512%nat ->
    sector (outsl 0x1f0 l (outb 0x1f7 IDE_CMD_WRITE c)) d n = if decide (d = drive (reg c) /\ n = lba (reg c)) then l else sector c d n;
}.

Section driver.
Context {C : Type} `{!Ports C, !Controller C}.
Implicit Types s : ide C.

(** ** Commands *)

Lemma wait_loop n : forall s, (delay (ctl s) <= n)%nat -> wp (idewait_loop n) (fun r s' => exists c', s' = set_ctl c' s /\ delay c' = O /\ reg c' = reg (ctl s) /\ reading c' = reading (ctl s) /\ failed c' = failed (ctl s) /\ sector c' = sector (ctl s) /\
  (Z.land r (Z.lor IDE_DF IDE_ERR) = 0 <-> failed (ctl s) = false)) s.
Proof.
  induction n as [|n IH]; intros s Hd; cbn [idewait_loop]; apply wp_bind; unfold do_inb; pose proof (law_status (ctl s)) as L; destruct (inb 0x1f7 (ctl s)) as [r c'] eqn:E; cbn [fst snd] in L;
    exists r, (set_ctl c' s); (split; [rewrite E; reflexivity|]); destruct L as (L1 & L2 & L3 & L4 & L5); destruct (delay (ctl s)) as [|d] eqn:Ed; try lia.
  - destruct L5 as (L5 & L6 & L7). rewrite L5, Z.eqb_refl. wp_step. exists c'. auto 8.
  - destruct L5 as (L5 & L6 & L7). rewrite L5, Z.eqb_refl. wp_step. exists c'. auto 8.
  - destruct L5 as (L5 & L6). rewrite (proj2 (Z.eqb_neq _ _) L5). eapply wp_mono; [apply IH; cbn [ctl set_ctl]; lia|]. cbn [ctl set_ctl]. intros r' s' (c2 & -> & H2). exists c2. split; [reflexivity|]. rewrite <- L1, <- L2, <- L3, <- L4. exact H2.
Qed.

Lemma wait_ready check s : wp (idewait check) (fun r s' => exists c', s' = set_ctl c' s /\ delay c' = O /\ reg c' = reg (ctl s) /\ reading c' = reading (ctl s) /\ failed c' = failed (ctl s) /\ sector c' = sector (ctl s) /\
  (0 <=? r) = negb (check && failed (ctl s))) s.
Proof.
  unfold idewait. apply wp_bind. eapply wp_mono; [apply wait_loop, law_delay|]. intros r s' (c' & -> & H1 & H2 & H3 & H4 & H5 & H6). wp_step. exists c'. repeat (split; [assumption || reflexivity|]).
  destruct check; [|reflexivity]. cbn [andb]. destruct (Z.eqb_spec (Z.land r (Z.lor IDE_DF IDE_ERR)) 0) as [E|E]; cbn [negb].
  - rewrite (proj1 H6 E). reflexivity.
  - destruct (failed (ctl s)); [reflexivity|]. exfalso. apply E, H6. reflexivity.
Qed.

(** The registers hold the values of the task file [f], and the sectors are those of [c0]. *)
Definition loaded (f : Z -> option Z) (c0 c : C) : Prop := (forall q v, task_file q -> f q = Some v -> reg c q = v) /\ sector c = sector c0.
Definition upd_reg (p v : Z) (f : Z -> option Z) : Z -> option Z := fun q => if q =? p then Some v else f q.

Lemma wp_register f c0 p v s (Q : unit -> ide C -> Prop) : loaded f c0 (ctl s) -> task_file p \/ p = 0x3f6 -> 0 <= v < 256 ->
  (forall c, loaded (upd_reg p v f) c0 c -> Q tt (set_ctl c s)) -> wp (do_outb p v) Q s.
Proof.
  intros [L1 L2] Hp Hv HQ. unfold do_outb. apply wp_modify. apply HQ. rewrite Z.mod_small by exact Hv. destruct (law_register (ctl s) p v Hp Hv) as [R1 R2]. split; [|congruence].
  intros q w Hq. unfold upd_reg. rewrite R1 by exact Hq. destruct (q =? p); [intros [= ->]; reflexivity|apply L1, Hq].
Qed.

(** A buffer with work for the driver. *)
Record request (b : buf) : Prop := {
  rq_busy : busy b = true;
  rq_work : valid b && negb (dirty b) = false;
  rq_dev : dev b = 1;
  rq_block : 0 <= blockno b < 1000;
  rq_data : length (data b) = 512%nat;
}.

(** The command for [b] has been given. *)
Definition started (b : buf) (c c' : C) : Prop :=
  if dirty b then forall d n, sector c' d n = if decide (d = 1 /\ n = blockno b) then data b else sector c d n
  else reading c' = Some (1, blockno b) /\ sector c' = sector c.

Lemma block_bytes n : 0 <= n < 1000 -> Z.land n 255 + 256 * Z.land (Z.shiftr n 8) 255 = n /\ 0 <= Z.land n 255 < 256 /\ 0 <= Z.land (Z.shiftr n 8) 255 < 256 /\ Z.land (Z.shiftr n 16) 255 = 0 /\ Z.land (Z.shiftr n 24) 15 = 0.
Proof.
  intros Hn. assert (E : forall x, Z.land x 255 = x mod 256) by (intros x; apply (Z.land_ones x 8); lia). rewrite !E, !Z.shiftr_div_pow2 by lia. change (2 ^ 8) with 256. change (2 ^ 16) with 65536. change (2 ^ 24) with 16777216.
  rewrite (Z.div_small n 65536), (Z.div_small n 16777216), (Z.mod_small (n / 256)) by (lia || (split; [apply Z.div_pos; lia|apply Z.div_lt_upper_bound; lia])). pose proof (Z.div_mod n 256 ltac:(lia)). pose proof (Z.mod_pos_bound n 256 ltac:(lia)).
  assert (0 <= n / 256 < 256) by (split; [apply Z.div_pos; lia|apply Z.div_lt_upper_bound; lia]). repeat split; try lia; reflexivity.
Qed.

Lemma wp_idestart s i b : bufs s !! i = Some b -> request b -> wp (idestart (Some i)) (fun _ s' => exists c', s' = set_ctl c' s /\ started b (ctl s) c') s.
Proof.
  intros Hb [_ _ Hdev Hn Hl]. unfold idestart. apply wp_bind. eapply wp_lift_opt; [exact Hb|]. change Mkfs.FSSIZE with 1000. rewrite (proj2 (Z.leb_gt 1000 (blockno b))) by lia. change (BSIZE / SECTOR_SIZE) with 1. cbn zeta. change (7 <? 1) with false. cbn match. rewrite Z.mul_1_r, Hdev.
  destruct (block_bytes (blockno b) Hn) as (E & R1 & R2 & E3 & E4). rewrite E3, E4. change (Z.lor (Z.lor 224 (Z.shiftl (Z.land 1 1) 4)) 0) with 240.
  apply wp_bind. eapply wp_mono; [apply (wait_ready false s)|]. intros r0 s1 (c1 & -> & _ & _ & _ & _ & S1 & _).
  assert (L0 : loaded (fun _ => None) (ctl s) (ctl (set_ctl c1 s))) by (split; [discriminate|exact S1]).
  do 6 (apply wp_bind; eapply wp_register; [eassumption|unfold task_file; lia|lia|]; clear L0; intros ? L0).
  match goal with |- wp _ _ (set_ctl ?c _) => set (ck := c) in * end. destruct L0 as [Rg Sc]. change (ctl (set_ctl ck _)) with ck.
  assert (G : reg ck 0x1f2 = 1 /\ drive (reg ck) = 1 /\ lba (reg ck) = blockno b).
  { unfold drive, lba. rewrite (Rg 0x1f2 1), (Rg 0x1f3 (Z.land (blockno b) 255)), (Rg 0x1f4 (Z.land (Z.shiftr (blockno b) 8) 255)), (Rg 0x1f5 0), (Rg 0x1f6 240) by (unfold task_file; lia || reflexivity). split; [reflexivity|]. split; [reflexivity|]. change (Z.land 240 15) with 0. lia. }
  destruct G as (G1 & G2 & G3). unfold started. change (1 =? 1) with true. cbn match. destruct (dirty b).
  - apply wp_bind. unfold do_outb, do_outsl. apply wp_modify, wp_modify. eexists. split; [reflexivity|]. intros d n. cbn [ctl set_ctl]. change (IDE_CMD_WRITE mod 256) with IDE_CMD_WRITE. rewrite law_write, G2, G3, Sc by assumption. reflexivity.
  - unfold do_outb. apply wp_modify. eexists. split; [reflexivity|]. cbn [ctl set_ctl]. change (IDE_CMD_READ mod 256) with IDE_CMD_READ. destruct (law_read ck G1) as [H1 H2]. rewrite H1, H2, G2, G3, Sc. auto.
Qed.

(** ** The queue *)

(** The links from [p] lead through the buffers [q] to the end. *)
Fixpoint chain (qn : list (option nat)) (p : option nat) (q : list nat) : Prop :=
  match q with
  | [] => p = None
  | i :: q' => p = Some i /\ exists n, qn !! i = Some n /\ chain qn n q'
  end.

Lemma chain_insert qn p q i x : (i ∉ q) -> chain qn p q -> chain (<[i := x]> qn) p q.
Proof.
  revert p. induction q as [|j q IH]; intros p Hi; cbn [chain]; [auto|]. apply not_elem_of_cons in Hi as [Hne Hi]. intros (-> & n & Hn & Hc). split; [reflexivity|]. exists n. rewrite list_lookup_insert_ne by congruence. auto.
Qed.

(** The link at the end of the queue. *)
Definition end_of (pp : link) (q : list nat) : link := match last q with Some j => Next j | None => pp end.

Lemma wp_find_end n : forall s q pp p, load pp s = Ok (p, s) -> chain (qnext s) p q -> (length q <= n)%nat -> wp (find_end n pp) (fun r s' => s' = s /\ r = end_of pp q) s.
Proof.
  induction n as [|n IH]; intros s q pp p Hl Hc Hn; destruct q as [|j q]; cbn [length] in Hn; try lia; cbn [chain] in Hc; cbn [find_end]; apply wp_bind; exists p, s; (split; [exact Hl|]).
  - subst. wp_step. auto.
  - subst. wp_step. auto.
  - destruct Hc as (-> & m & Hm & Hc). eapply wp_mono; [apply (IH s q (Next j) m); [cbn [load]; unfold lift_opt; rewrite Hm; reflexivity|exact Hc|lia]|]. intros r s' [-> ->]. split; [reflexivity|]. unfold end_of. rewrite last_cons. destruct (last q); reflexivity.
Qed.

(** Appending through that link. *)
Lemma chain_append qn p q i : NoDup q -> (i ∉ q) -> (i < length qn)%nat -> qn !! i = Some None -> chain qn p q ->
  match last q with
  | None => chain qn (Some i) [i]
  | Some j => chain (<[j := Some i]> qn) p (q ++ [i])
  end.
Proof.
  revert p. induction q as [|j q IH]; intros p Hd Hi Hl Hz Hc; [cbn; eauto|]. rewrite last_cons. apply NoDup_cons in Hd as [Hj Hd]. apply not_elem_of_cons in Hi as [Hne Hi]. destruct Hc as (-> & n & Hn & Hc). specialize (IH n Hd Hi Hl Hz Hc). destruct (last q) as [k|] eqn:El.
  - cbn [app chain]. split; [reflexivity|]. exists n. split; [|exact IH]. rewrite list_lookup_insert_ne; [exact Hn|]. intros ->. apply Hj. apply last_Some in El as [l' ->]. set_solver.
  - apply last_None in El as ->. cbn [app chain] in *. split; [reflexivity|]. exists (Some i). rewrite list_lookup_insert_eq by (eapply lookup_lt_Some, Hn). split; [reflexivity|]. split; [reflexivity|]. exists None. rewrite list_lookup_insert_ne by congruence. auto.
Qed.

Lemma NoDup_bound (q : list nat) n : NoDup q -> (forall i, i ∈ q -> (i < n)%nat) -> (length q <= n)%nat.
Proof. intros Hd Hb. rewrite <- (length_seq n 0). apply submseteq_length, NoDup_submseteq; [exact Hd|]. intros i Hi. apply elem_of_seq. specialize (Hb i Hi). lia. Qed.

(** ** The invariant *)

(** The block that the request at the head of the queue has written already. *)
Definition early (bs : list buf) (q : list nat) (n : Z) : option (list Z) :=
  match q with
  | i :: _ => match bs !! i with Some b => if dirty b && (blockno b =? n) then Some (data b) else None | None => None end
  | [] => None
  end.

(** The driver with the queue [q], and the state [a] of the memory disk once the requests before are done. *)
Record inv (s : ide C) (a : bcache) (q : list nat) : Prop := {
  iv_bufs : bufs s = BufCache.bufs a;
  iv_links : length (qnext s) = length (bufs s);
  iv_chain : chain (qnext s) (idequeue s) q;
  iv_nodup : NoDup q;
  iv_request : forall i, i ∈ q -> exists b, bufs s !! i = Some b /\ request b;
  iv_size : Z.of_nat (length (disk a)) = 1000;
  iv_blocks : Forall (fun x => length x = 512%nat) (disk a);
  iv_disk : forall n x, 0 <= n < 1000 -> disk a !! Z.to_nat n = Some x -> sector (ctl s) 1 n = default x (early (bufs s) q n);
  iv_started : forall i q' b, q = i :: q' -> bufs s !! i = Some b -> dirty b = false -> reading (ctl s) = Some (1, blockno b);
  iv_have : havedisk1 s = true;
}.
(** The processes of the requests in the queue sleep, and no other. *)
Definition waiting (s : ide C) (q : list nat) : Prop := forall i, i ∈ asleep s <-> i ∈ q.

Lemma inv_asleep s a q l : inv s a q -> inv (set_asleep l s) a q.
Proof. intros [I1 I2 I3 I4 I5 I6 I7 I8 I9 I10]. constructor; assumption. Qed.

(** The request at the head of the queue is started. *)
Lemma inv_start s a q i b : bufs s !! i = Some b -> request b -> bufs s = BufCache.bufs a -> length (qnext s) = length (bufs s) -> chain (qnext s) (idequeue s) (i :: q) -> NoDup (i :: q) ->
  (forall j, j ∈ i :: q -> exists b, bufs s !! j = Some b /\ request b) -> Z.of_nat (length (disk a)) = 1000 -> Forall (fun x => length x = 512%nat) (disk a) ->
  (forall n x, 0 <= n < 1000 -> disk a !! Z.to_nat n = Some x -> sector (ctl s) 1 n = x) -> havedisk1 s = true ->
  wp (idestart (Some i)) (fun _ s' => inv s' a (i :: q) /\ bufs s' = bufs s /\ asleep s' = asleep s) s.
Proof.
  intros Hb R I1 I2 I3 I4 I5 I6 I7 Hd I8. eapply wp_mono; [apply (wp_idestart s i b Hb R)|]. intros [] s' (c' & -> & St). split; [|auto]. constructor; cbn [bufs qnext idequeue havedisk1 set_ctl ctl]; try assumption.
  - intros n x Hn Hx. unfold early. rewrite Hb. unfold started in St. destruct (dirty b); cbn [andb].
    + rewrite St. destruct (Z.eqb_spec (blockno b) n) as [->|Hne]; [rewrite decide_True by auto; reflexivity|]. rewrite decide_False by (intros [_ ->]; congruence). apply Hd; assumption.
    + destruct St as [_ ->]. apply Hd; assumption.
  - intros j q' b' [= <- <-] Hb' Hdb. rewrite Hb in Hb'. injection Hb' as <-. unfold started in St. rewrite Hdb in St. apply St.
Qed.

Lemma wp_load_buf i b s (Q : buf -> ide C -> Prop) : bufs s !! i = Some b -> Q b s -> wp (get_buf i) Q s.
Proof. intros Hb HQ. exists b, s. unfold get_buf, lift_opt. rewrite Hb. auto. Qed.

(** ** A request joins the queue *)

Lemma wp_await s i b : bufs s !! i = Some b -> request b -> wp (await i) (fun r s' => r = false /\ s' = set_asleep (i :: asleep s) s) s.
Proof. intros Hb R. unfold await. apply wp_bind. eapply wp_load_buf; [exact Hb|]. rewrite (rq_work _ R). apply wp_bind, wp_modify. wp_step. auto. Qed.

(** The buffer is linked at the end, and started when it is the only one. *)
Lemma wp_enqueue s a q i b : inv s a q -> (i ∉ q) -> bufs s !! i = Some b -> request b -> wp (submit i) (fun _ s' => inv s' a (q ++ [i]) /\ bufs s' = bufs s /\ asleep s' = asleep s) s.
Proof.
  intros I Hi Hb R. pose proof I as [I1 I2 I3 I4 I5 I6 I7 I8 I9 I10]. pose proof (lookup_lt_Some _ _ _ Hb) as Hlt. unfold submit. apply wp_bind. eapply wp_load_buf; [exact Hb|]. apply wp_bind, wp_gets. rewrite (rq_busy _ R), (rq_work _ R), I10. cbn [negb]. rewrite andb_false_r.
  cbn [store]. apply wp_bind, wp_modify. set (s1 := set_qnext (<[i := None]> (qnext s)) s). apply wp_bind, wp_gets. apply wp_bind.
  assert (C1 : chain (qnext s1) (idequeue s1) q) by (apply chain_insert; assumption). assert (Hln : (length q <= length (bufs s1))%nat) by (apply NoDup_bound; [exact I4|]; intros j Hj; destruct (I5 j Hj) as (bj & Hbj & _); exact (lookup_lt_Some _ _ _ Hbj)).
  eapply wp_mono; [apply (wp_find_end _ s1 q Head (idequeue s1) eq_refl C1 Hln)|]. intros pp s' [-> ->].
  assert (Hz : qnext s1 !! i = Some None) by (apply list_lookup_insert_eq; lia). assert (Hl1 : (i < length (qnext s1))%nat) by (cbn; rewrite length_insert; lia). pose proof (chain_append (qnext s1) (idequeue s1) q i I4 Hi Hl1 Hz C1) as CA.
  assert (Hnd : NoDup (q ++ [i])) by (apply NoDup_app; split; [exact I4|]; split; [intros x Hx Hx'; apply list_elem_of_singleton in Hx'; congruence|apply NoDup_singleton]).
  assert (Hrq : forall j, j ∈ q ++ [i] -> exists b, bufs s !! j = Some b /\ request b) by (intros j Hj; apply elem_of_app in Hj as [Hj|Hj]; [apply I5, Hj|apply list_elem_of_singleton in Hj as ->; eauto]).
  unfold end_of. destruct q as [|h q'].
  - cbn [last store]. apply wp_bind, wp_modify. apply wp_bind, wp_gets. cbn [idequeue set_queue]. rewrite bool_decide_true by reflexivity. apply (inv_start (set_queue (Some i) s1) a [] i b); try assumption. cbn. rewrite length_insert. exact I2.
  - destruct (last (h :: q')) as [k|] eqn:El; [|apply last_None in El; discriminate]. cbn [store]. apply wp_bind, wp_modify. apply wp_bind, wp_gets. pose proof (proj1 I3) as Eq. cbn [idequeue set_qnext s1]. rewrite Eq, bool_decide_false by (intros [= ->]; apply Hi; left). apply wp_skip. split; [|auto].
    constructor; try assumption; [cbn; rewrite !length_insert; exact I2|]. intros j q2 b' [= <- _] Hb'. exact (I9 h q' b' eq_refl Hb').
Qed.

Lemma wp_submit s a q i b : inv s a q -> waiting s q -> (i ∉ q) -> bufs s !! i = Some b -> request b -> wp (iderw i) (fun r s' => r = false /\ inv s' a (q ++ [i]) /\ waiting s' (q ++ [i])) s.
Proof.
  intros I W Hi Hb R. unfold iderw. apply wp_bind. eapply wp_mono; [apply (wp_enqueue s a q i b I Hi Hb R)|]. intros [] s1 (I1 & Eb & Ea). eapply wp_mono; [apply (wp_await s1 i b); [rewrite Eb; exact Hb|exact R]|]. intros r s2 [-> ->]. split; [reflexivity|]. split; [apply inv_asleep, I1|].
  intros j. cbn [asleep set_asleep]. rewrite Ea, elem_of_cons, elem_of_app, list_elem_of_singleton, (W j). tauto.
Qed.

(** ** The request at the head is done *)

Lemma loaded_buf a i b : BufCache.bufs a !! i = Some b -> BufCache.get_buf i a = Ok (b, a).
Proof. intros Hb. unfold BufCache.get_buf, lift_opt. rewrite Hb. reflexivity. Qed.

Lemma served_read a i b x : BufCache.bufs a !! i = Some b -> request b -> dirty b = false -> disk a !! Z.to_nat (blockno b) = Some x -> Z.of_nat (length (disk a)) = 1000 ->
  BufCache.iderw i a = Ok (tt, BufCache.set_bufs (<[i := set_data x (set_flags (busy b) true false b)]> (BufCache.bufs a)) a).
Proof.
  intros Hb [R1 R2 R3 R4 R5] Hd Hx Hl. unfold BufCache.iderw. rewrite (MkfsFacts.bind_ok _ _ _ _ _ (loaded_buf a i b Hb)), (MkfsFacts.bind_ok _ _ _ _ _ eq_refl). rewrite R1, R2, R3, Hd. cbn [negb andb Z.eqb]. change (negb (1 =? 1)) with false. cbn match.
  rewrite (proj2 (Z.leb_gt _ _)) by lia. rewrite Hx. reflexivity.
Qed.

Lemma served_write a i b : BufCache.bufs a !! i = Some b -> request b -> dirty b = true -> Z.of_nat (length (disk a)) = 1000 ->
  BufCache.iderw i a = Ok (tt, Bcache (<[i := set_flags (busy b) true false b]> (BufCache.bufs a)) (mru a) (<[Z.to_nat (blockno b) := data b]> (disk a)) (writes a ++ [(blockno b, data b)])).
Proof.
  intros Hb [R1 R2 R3 R4 R5] Hd Hl. unfold BufCache.iderw. rewrite (MkfsFacts.bind_ok _ _ _ _ _ (loaded_buf a i b Hb)), (MkfsFacts.bind_ok _ _ _ _ _ eq_refl). rewrite R1, R2, R3, Hd. cbn [negb andb]. change (negb (1 =? 1)) with false. cbn match.
  rewrite (proj2 (Z.leb_gt _ _)) by lia. reflexivity.
Qed.

(** The rest of the queue once the buffer [i] is done. *)
Lemma wp_next s a' i q : NoDup (i :: q) -> chain (qnext s) (idequeue s) q -> bufs s = BufCache.bufs a' -> length (qnext s) = length (bufs s) -> (forall j, j ∈ q -> exists b, bufs s !! j = Some b /\ request b) ->
  Z.of_nat (length (disk a')) = 1000 -> Forall (fun x => length x = 512%nat) (disk a') -> (forall n x, 0 <= n < 1000 -> disk a' !! Z.to_nat n = Some x -> sector (ctl s) 1 n = x) -> havedisk1 s = true ->
  (forall j, j ∈ asleep s <-> j ∈ q) ->
  wp (p ← gets idequeue; match p with None => skip | Some _ => idestart p end) (fun _ s' => inv s' a' q /\ waiting s' q) s.
Proof.
  intros Hd Hc Eb El Hr Hs Hf Hdk Hh Hw. apply wp_bind, wp_gets. apply NoDup_cons in Hd as [_ Hd]. destruct q as [|h q'].
  - rewrite Hc. apply wp_skip. split; [|exact Hw]. constructor; try assumption. intros j q' b [=].
  - pose proof (proj1 Hc) as Eq. rewrite Eq. destruct (Hr h ltac:(left)) as (b & Hb & R). eapply wp_mono; [apply (inv_start s a' q' h b); assumption|]. intros [] s' (I & _ & Ea). split; [exact I|]. intros j. rewrite Ea. apply Hw.
Qed.

Lemma request_other (bs : list buf) (q : list nat) i b' : (i ∉ q) -> (forall j, j ∈ q -> exists b, bs !! j = Some b /\ request b) -> forall j, j ∈ q -> exists b, <[i := b']> bs !! j = Some b /\ request b.
Proof. intros Hi Hr j Hj. rewrite list_lookup_insert_ne by (intros ->; contradiction). apply Hr, Hj. Qed.

Lemma waiting_done (l q : list nat) i : (forall j, j ∈ l <-> j ∈ i :: q) -> (i ∉ q) -> forall j, j ∈ filter (fun j => j <> i) l <-> j ∈ q.
Proof. intros Hl Hi j. rewrite list_elem_of_filter, Hl, elem_of_cons. split; [tauto|]. intros Hj. split; [intros ->; contradiction|tauto]. Qed.

(** The end of the handler: the buffer is marked and its process woken. *)
Lemma wp_mark s a' i q b : bufs s !! i = Some b -> NoDup (i :: q) -> chain (qnext s) (idequeue s) q -> BufCache.bufs a' = <[i := set_flags (busy b) true false b]> (bufs s) -> length (qnext s) = length (bufs s) ->
  (forall j, j ∈ q -> exists b, bufs s !! j = Some b /\ request b) -> Z.of_nat (length (disk a')) = 1000 -> Forall (fun x => length x = 512%nat) (disk a') ->
  (forall n x, 0 <= n < 1000 -> disk a' !! Z.to_nat n = Some x -> sector (ctl s) 1 n = x) -> havedisk1 s = true -> waiting s (i :: q) ->
  wp (b ← get_buf i; put_buf i (set_flags (busy b) true false b) ;; wakeup i ;; p ← gets idequeue; match p with None => skip | Some _ => idestart p end) (fun _ s' => inv s' a' q /\ waiting s' q) s.
Proof.
  intros Hb Hd Hc Ea El Hr Hs Hf Hdk Hh Hw. pose proof (proj1 (NoDup_cons i q) Hd) as [Hi _]. apply wp_bind. eapply wp_load_buf; [exact Hb|]. apply wp_bind, wp_modify. apply wp_bind, wp_modify. apply (wp_next _ a' i q); try assumption.
  - symmetry. exact Ea.
  - cbn. rewrite length_insert. exact El.
  - apply request_other; assumption.
  - apply waiting_done; assumption.
Qed.

(** The handler serves the head of the queue, when the read has not failed. *)
Lemma wp_ideintr s a i q : inv s a (i :: q) -> waiting s (i :: q) -> failed (ctl s) = false -> wp ideintr (fun _ s' => exists a', BufCache.iderw i a = Ok (tt, a') /\ inv s' a' q /\ waiting s' q) s.
Proof.
  intros I W Hf. pose proof I as [I1 I2 I3 I4 I5 I6 I7 I8 I9 I10]. destruct I3 as (Eq & n & Hn & Hc). destruct (I5 i ltac:(left)) as (b & Hb & R). pose proof Hb as Hba. rewrite I1 in Hba. pose proof (lookup_lt_Some _ _ _ Hb) as Hlt. pose proof (rq_block _ R) as Hblk. pose proof (proj1 (NoDup_cons i q) I4) as [Hi Hnd].
  assert (Hr : forall j, j ∈ q -> exists b, bufs s !! j = Some b /\ request b) by (intros j Hj; apply I5; right; exact Hj). unfold ideintr. apply wp_bind, wp_gets. rewrite Eq. apply wp_bind. eapply wp_lift_opt; [exact Hn|]. apply wp_bind, wp_modify. apply wp_bind. eapply wp_load_buf; [exact Hb|]. apply wp_bind.
  destruct (lookup_lt_is_Some_2 (disk a) (Z.to_nat (blockno b)) ltac:(lia)) as [x Hx]. pose proof (I8 _ _ Hblk Hx) as Hsec. unfold early in Hsec. rewrite Hb, Z.eqb_refl, andb_true_r in Hsec. destruct (dirty b) eqn:Hd; cbn [negb].
  - apply wp_skip. eapply wp_mono; [apply (wp_mark _ (Bcache (<[i := set_flags (busy b) true false b]> (BufCache.bufs a)) (mru a) (<[Z.to_nat (blockno b) := data b]> (disk a)) (writes a ++ [(blockno b, data b)])) i q b); try assumption|].
    + cbn. rewrite I1. reflexivity.
    + cbn. rewrite length_insert. exact I6.
    + apply Forall_insert; [exact I7|apply R].
    + cbn [disk ctl set_queue]. intros m y Hm Hy. destruct (decide (m = blockno b)) as [->|Hne]; [rewrite list_lookup_insert_eq in Hy by lia; injection Hy as <-; exact Hsec|]. rewrite list_lookup_insert_ne in Hy by lia. rewrite (I8 m y Hm Hy). unfold early. rewrite Hb, (proj2 (Z.eqb_neq _ _)), andb_false_r by congruence. reflexivity.
    + intros [] s' [I' W']. eexists. split; [apply (served_write a i b); assumption|auto].
  - apply wp_bind. eapply wp_mono; [apply wait_ready|]. intros r s1 (c1 & -> & D1 & _ & E2 & E3 & E4 & Er). cbn [ctl set_queue] in *. rewrite Hf in Er, E3. rewrite Er. cbn [andb negb]. rewrite (I9 i q b eq_refl Hb Hd) in E2.
    destruct (law_data c1 1 (blockno b) D1 E2 E3) as [L1 L2]. rewrite E4 in L1, L2. cbn in Hsec. rewrite Hsec in L1. apply wp_bind. unfold do_insl. cbn [ctl set_ctl]. change (Z.to_nat (BSIZE / 4)) with 128%nat. destruct (insl 0x1f0 128 c1) as [d c2] eqn:El. cbn [fst snd] in L1, L2. subst d.
    exists x, (set_ctl c2 (set_queue n s)). split; [cbn [ctl set_ctl]; rewrite El; reflexivity|]. apply wp_modify. cbn [bufs set_ctl set_queue].
    eapply wp_mono; [apply (wp_mark _ (BufCache.set_bufs (<[i := set_data x (set_flags (busy b) true false b)]> (BufCache.bufs a)) a) i q (set_data x b)); try assumption|].
    + apply list_lookup_insert_eq. exact Hlt.
    + cbn [BufCache.bufs BufCache.set_bufs bufs set_bufs]. rewrite list_insert_insert_eq, I1. reflexivity.
    + cbn. rewrite length_insert. exact I2.
    + apply request_other; assumption.
    + cbn [disk BufCache.set_bufs ctl set_bufs set_ctl]. intros m y Hm Hy. rewrite L2, (I8 m y Hm Hy). unfold early. rewrite Hb, Hd. reflexivity.
    + intros [] s' [I' W']. eexists. split; [apply (served_read a i b x); assumption|auto].
Qed.

Lemma wp_spurious s a : inv s a [] -> wp ideintr (fun _ s' => s' = s) s.
Proof. intros I. unfold ideintr. apply wp_bind, wp_gets. rewrite (iv_chain _ _ _ I). apply wp_skip. reflexivity. Qed.

(** ** Runs *)

(** What happens to the driver: a process calls [iderw] for a buffer, the controller interrupts, and
    the holder of a buffer that is not in the queue changes it. *)
Inductive event := Request (i : nat) | Interrupt | Touch (i : nat) (b : buf).
Definition handle (e : event) : K (ide C) unit :=
  match e with
  | Request i => iderw i ;; skip
  | Interrupt => ideintr
  | Touch i b => put_buf i b
  end.

(** The specification: a queue in the order of the requests; the memory disk serves its head. *)
Inductive serve : event -> bcache * list nat -> bcache * list nat -> Prop :=
  | serve_request a q i b : BufCache.bufs a !! i = Some b -> request b -> (i ∉ q) -> serve (Request i) (a, q) (a, q ++ [i])
  | serve_head a q i a' : BufCache.iderw i a = Ok (tt, a') -> serve Interrupt (a, i :: q) (a', q)
  | serve_spurious a : serve Interrupt (a, []) (a, [])
  | serve_touch a q i b : (i ∉ q) -> serve (Touch i b) (a, q) (BufCache.set_bufs (<[i := b]> (BufCache.bufs a)) a, q).
Inductive serves : list event -> bcache * list nat -> bcache * list nat -> Prop :=
  | serves_nil x : serves [] x x
  | serves_cons e es x y z : serve e x y -> serves es y z -> serves (e :: es) x z.

Lemma inv_touch s a q i b : inv s a q -> (i ∉ q) -> inv (set_bufs (<[i := b]> (bufs s)) s) (BufCache.set_bufs (<[i := b]> (BufCache.bufs a)) a) q.
Proof.
  intros [I1 I2 I3 I4 I5 I6 I7 I8 I9 I10] Hi. constructor; cbn [bufs qnext idequeue havedisk1 ctl set_bufs BufCache.bufs BufCache.set_bufs disk]; try assumption.
  - rewrite I1. reflexivity.
  - rewrite length_insert. exact I2.
  - apply request_other; assumption.
  - intros n x Hn Hx. rewrite (I8 n x Hn Hx). f_equal. unfold early. destruct q as [|h q']; [reflexivity|]. rewrite list_lookup_insert_ne; [reflexivity|]. intros ->. apply Hi. left.
  - intros j q' b' -> Hb. rewrite list_lookup_insert_ne in Hb by (intros ->; apply Hi; left). apply (I9 j q' b' eq_refl Hb).
Qed.

Hypothesis reliable : forall c : C, failed c = false.

Lemma wp_handle s a q e a' q' : inv s a q -> waiting s q -> serve e (a, q) (a', q') -> wp (handle e) (fun _ s' => inv s' a' q' /\ waiting s' q') s.
Proof using All.
  intros I W H. inversion H as [? ? i b Hb R Hi|? ? i ? E|?|? ? i b Hi]; subst; cbn [handle].
  - apply wp_bind. eapply wp_mono; [apply (wp_submit s a' q i b I W Hi); [rewrite (iv_bufs _ _ _ I); exact Hb|exact R]|]. intros r s' (_ & I' & W'). apply wp_skip. auto.
  - eapply wp_mono; [apply (wp_ideintr s a i q' I W (reliable _))|]. intros [] s' (a2 & E2 & I' & W'). rewrite E in E2. injection E2 as <-. auto.
  - eapply wp_mono; [apply (wp_spurious s _ I)|]. intros [] s' ->. auto.
  - apply wp_modify. split; [apply inv_touch; assumption|exact W].
Qed.

Lemma wp_run_events es : forall s a q a' q', inv s a q -> waiting s q -> serves es (a, q) (a', q') -> wp (forM es handle) (fun _ s' => inv s' a' q' /\ waiting s' q') s.
Proof using All.
  induction es as [|e es IH]; intros s a q a' q' I W H; inversion H as [|? ? ? [a1 q1] ? H1 H2]; subst; cbn [forM].
  - apply wp_skip. auto.
  - apply wp_bind. eapply wp_mono; [apply (wp_handle s a q e a1 q1 I W H1)|]. intros [] s1 [I1 W1]. apply (IH s1 a1 q1 a' q' I1 W1 H2).
Qed.

Lemma iderw_marks a i b a' : BufCache.bufs a !! i = Some b -> request b -> Z.of_nat (length (disk a)) = 1000 -> BufCache.iderw i a = Ok (tt, a') -> exists b', BufCache.bufs a' !! i = Some b' /\ valid b' = true /\ dirty b' = false.
Proof using All.
  intros Hb R Hl E. pose proof (lookup_lt_Some _ _ _ Hb) as Hlt. pose proof (rq_block _ R). destruct (dirty b) eqn:Hd.
  - rewrite (served_write a i b Hb R Hd Hl) in E. injection E as <-. eexists. cbn. rewrite list_lookup_insert_eq by exact Hlt. split; [reflexivity|]. auto.
  - destruct (lookup_lt_is_Some_2 (disk a) (Z.to_nat (blockno b)) ltac:(lia)) as [x Hx]. rewrite (served_read a i b x Hb R Hd Hx Hl) in E. injection E as <-. eexists. cbn. rewrite list_lookup_insert_eq by exact Hlt. split; [reflexivity|]. auto.
Qed.

(** A request is done when the requests before it and the request itself have been served. *)
Lemma wp_nth_served k : forall s a q i, inv s a q -> waiting s q -> q !! k = Some i -> wp (forM (replicate (S k) Interrupt) handle) (fun _ s' => exists b a', bufs s' !! i = Some b /\ valid b = true /\ dirty b = false /\ (i ∉ asleep s') /\ inv s' a' (drop (S k) q)) s.
Proof using All.
  induction k as [|k IH]; intros s a q i I W Hk; destruct q as [|h q]; try discriminate; cbn [replicate forM handle]; apply wp_bind; (eapply wp_mono; [apply (wp_ideintr s a h q I W (reliable _))|]); intros [] s1 (a1 & E1 & I1 & W1).
  - injection Hk as ->. apply wp_skip. destruct (iv_request _ _ _ I i ltac:(left)) as (b & Hb & R). rewrite (iv_bufs _ _ _ I) in Hb. destruct (iderw_marks a i b a1 Hb R (iv_size _ _ _ I) E1) as (b' & Hb' & Hv & Hd). exists b', a1.
    rewrite (iv_bufs _ _ _ I1). pose proof (iv_nodup _ _ _ I) as Hn. apply NoDup_cons in Hn as [Hn _]. split; [exact Hb'|]. split; [exact Hv|]. split; [exact Hd|]. split; [rewrite (W1 i); exact Hn|exact I1].
  - apply (IH s1 a1 q i I1 W1 Hk).
Qed.
End driver.
End IdeFacts.

(** * A controller *)

(** A controller that is busy for two reads of the status after every command, and whose reads fail
    when it is [faulty]. *)
Module Model.
Import Ide IdeFacts.

Record controller := MkController {
  regs : Z -> Z;
  wait : nat;
  fetched : option (Z * Z);
  target : option (Z * Z);
  sectors : Z -> Z -> list Z;
}.
Definition command (v : Z) (c : controller) : controller :=
  let at_ := Some (drive (regs c), lba (regs c)) in
  if v =? IDE_CMD_READ then MkController (regs c) 2 at_ (target c) (sectors c)
  else if v =? IDE_CMD_WRITE then MkController (regs c) 2 (fetched c) at_ (sectors c)
  else c.
Definition device (faulty : bool) : Type := controller.
#[global] Instance ports faulty : Ports (device faulty) := {
  inb p c :=
    match Nat.min (wait c) 2 with
    | O => (if faulty then Z.lor IDE_DRDY IDE_ERR else IDE_DRDY, MkController (regs c) 0 (fetched c) (target c) (sectors c))
    | S n => (IDE_BSY, MkController (regs c) n (fetched c) (target c) (sectors c))
    end;
  outb p v c := if p =? 0x1f7 then command v c else MkController (fun q => if q =? p then v else regs c q) (wait c) (fetched c) (target c) (sectors c);
  insl p n c := match fetched c with Some (d, k) => (sectors c d k, c) | None => ([], c) end;
  outsl p l c :=
    match target c with
    | Some (d, k) => MkController (regs c) (wait c) (fetched c) None (fun d' k' => if decide (d' = d /\ k' = k) then l else sectors c d' k')
    | None => c
    end;
  patience := 2;
}.
#[global] Instance laws faulty : Controller (device faulty).
Proof.
  refine {| reg := regs; delay c := Nat.min (wait c) 2; reading := fetched; failed _ := faulty; sector := sectors |}.
  - intros c. cbn. lia.
  - intros c. cbn. destruct (Nat.min (wait c) 2) as [|n] eqn:E; cbn; [destruct faulty; cbn; repeat split; discriminate|]. repeat split; try discriminate. lia.
  - intros c p v Hp Hv. cbn. unfold task_file in Hp. rewrite (proj2 (Z.eqb_neq p 503)) by lia. split; [intros q _|]; reflexivity.
  - intros c Hc. split; reflexivity.
  - intros c d n _ Hr _. cbn in *. rewrite Hr. split; reflexivity.
  - intros c l d n _ _. reflexivity.
Defined.
End Model.

Module IdeProps.
Import BufCache Ide IdeFacts.

(** C8: The driver does what the memory disk does.  For every controller that keeps the laws and
    reads without error, and for every sequence of calls of [iderw] for buffers of disk 1 with work
    to do, of interrupts, also spurious ones, and of changes to buffers that are not in the queue:
    the driver returns from each step, no waiting for the controller lasts for ever, the buffers are
    those that the [iderw] of memide.c leaves when it serves the requests one by one in the order
    in which they were made, exactly the processes of the requests in the queue sleep, and when the
    queue is empty the sectors of the disk are the blocks of the memory disk. *)
Theorem ide_refines_memide {C} `{!Ports C, !Controller C} (s : ide C) a q es a' q' : (forall c : C, failed c = false) -> inv s a q -> waiting s q -> serves es (a, q) (a', q') ->
  exists s', forM es handle s = Ok (tt, s') /\ inv s' a' q' /\ bufs s' = BufCache.bufs a' /\ (forall i, i ∈ asleep s' <-> i ∈ q') /\
    (q' = [] -> forall n, 0 <= n < Mkfs.FSSIZE -> disk a' !! Z.to_nat n = Some (sector (ctl s') 1 n)).
Proof.
  intros Hr I W H. destruct (wp_run_events Hr es s a q a' q' I W H) as ([] & s' & E & I' & W'). exists s'. split; [exact E|]. split; [exact I'|]. split; [apply I'|]. split; [exact W'|]. intros -> n Hn. change Mkfs.FSSIZE with 1000 in Hn.
  pose proof (iv_size _ _ _ I'). destruct (lookup_lt_is_Some_2 (disk a') (Z.to_nat n) ltac:(lia)) as [x Hx]. rewrite Hx, (iv_disk _ _ _ I' n x Hn Hx). reflexivity.
Qed.

(** Every request is answered.  When a request is the k-th of the queue, k + 1 interrupts later
    its buffer is valid and clean, its process does not sleep any more and returns from [iderw]. *)
Theorem ide_request_finishes {C} `{!Ports C, !Controller C} (s : ide C) a q k i : (forall c : C, failed c = false) -> inv s a q -> waiting s q -> q !! k = Some i ->
  exists s' b, forM (replicate (S k) Interrupt) handle s = Ok (tt, s') /\ bufs s' !! i = Some b /\ valid b = true /\ dirty b = false /\ (i ∉ asleep s') /\ await i s' = Ok (true, s').
Proof.
  intros Hr I W Hk. destruct (wp_nth_served Hr k s a q i I W Hk) as ([] & s' & E & b & a' & Hb & Hv & Hd & Ha & _). exists s', b. repeat (split; [assumption|]). unfold await. rewrite (MkfsFacts.bind_ok _ _ s' b s'); [rewrite Hv, Hd; reflexivity|]. unfold get_buf, lift_opt. rewrite Hb. reflexivity.
Qed.

(** C39: A read that fails is taken for one that succeeded.  When the controller reports an error
    for the request at the head of the queue, the handler marks the buffer as valid and wakes the
    process, and the buffer keeps the bytes it had before. *)
Theorem ide_error_marks_valid {C} `{!Ports C, !Controller C} (s : ide C) a i b : inv s a [i] -> bufs s !! i = Some b -> dirty b = false -> failed (ctl s) = true ->
  exists s', ideintr s = Ok (tt, s') /\ bufs s' !! i = Some (set_flags (busy b) true false b) /\ idequeue s' = None /\ (i ∉ asleep s').
Proof.
  intros I Hb Hd Hf. destruct (iv_chain _ _ _ I) as (Eq & n & Hn & Hc). cbn in Hc. subst n. pose proof (lookup_lt_Some _ _ _ Hb) as Hlt. enough (H : wp ideintr (fun _ s' => bufs s' !! i = Some (set_flags (busy b) true false b) /\ idequeue s' = None /\ (i ∉ asleep s')) s) by (destruct H as ([] & s' & H); exists s'; exact H).
  unfold ideintr. apply wp_bind, wp_gets. rewrite Eq. apply wp_bind. eapply wp_lift_opt; [exact Hn|]. apply wp_bind, wp_modify. apply wp_bind. eapply wp_load_buf; [exact Hb|]. apply wp_bind. rewrite Hd. cbn [negb]. apply wp_bind. eapply wp_mono; [apply wait_ready|].
  intros r s1 (c1 & -> & _ & _ & _ & _ & _ & Er). cbn [ctl set_queue] in Er. rewrite Er, Hf. cbn [andb negb]. apply wp_skip. apply wp_bind. eapply wp_load_buf; [exact Hb|]. apply wp_bind, wp_modify. apply wp_bind, wp_modify. apply wp_bind, wp_gets. apply wp_skip. cbn. split; [apply list_lookup_insert_eq, Hlt|]. split; [reflexivity|].
  intros Hin. apply list_elem_of_filter in Hin as [Hne _]. congruence.
Qed.

(** Two buffers for block 5: one is written, the other read. *)
Definition fives : list Z := replicate 512 5.
Definition zeros : list Z := replicate 512 0.
Definition written : buf := Buf true true true 1 5 fives.
Definition to_read : buf := Buf true false false 1 5 zeros.
Definition blank_disk : list (list Z) := replicate (Z.to_nat 1000) zeros.
Definition two_bufs : bcache := Bcache [written; to_read] [] blank_disk [].
Definition two faulty : ide (Model.device faulty) := MkIde [written; to_read] [None; None] None true [] (Model.MkController (fun _ => 0) 1 None None (fun _ _ => zeros)).

Lemma two_inv faulty : inv (two faulty) two_bufs [].
Proof.
  constructor; [reflexivity|reflexivity|reflexivity| | | | | | |reflexivity].
  - apply NoDup_nil_2.
  - intros i []%not_elem_of_nil.
  - unfold two_bufs, blank_disk. cbn [disk]. rewrite length_replicate. lia.
  - apply Forall_replicate. reflexivity.
  - intros n x Hn Hx. apply lookup_replicate in Hx as [-> _]. reflexivity.
  - intros i q b [=].
Qed.

Lemma two_waiting faulty : waiting (two faulty) [].
Proof. intros i. split; intros []%not_elem_of_nil. Qed.

Lemma no_faults (c : Model.device false) : failed c = false.
Proof. reflexivity. Qed.

Lemma written_request : request written.
Proof. constructor; try reflexivity. cbn. lia. Qed.
Lemma read_request : request to_read.
Proof. constructor; try reflexivity. cbn. lia. Qed.

Definition after_write : bcache := Bcache [set_flags true true false written; to_read] [] (<[5%nat := fives]> blank_disk) [(5, fives)].
Definition after_read : bcache := Bcache [set_flags true true false written; Buf true true false 1 5 fives] [] (<[5%nat := fives]> blank_disk) [(5, fives)].

Lemma two_serves : serves [Request 0; Request 1; Interrupt; Interrupt; Interrupt] (two_bufs, []) (after_read, []).
Proof.
  assert (Hl : Z.of_nat (length blank_disk) = 1000) by (unfold blank_disk; rewrite length_replicate; lia).
  eapply serves_cons; [apply (serve_request two_bufs [] 0 written eq_refl written_request), not_elem_of_nil|]. eapply serves_cons; [apply (serve_request two_bufs [0%nat] 1 to_read eq_refl read_request); intros H%list_elem_of_singleton; discriminate|].
  eapply serves_cons; [apply (serve_head two_bufs [1%nat] 0 after_write); exact (served_write two_bufs 0 written eq_refl written_request eq_refl Hl)|].
  eapply serves_cons; [apply (serve_head after_write [] 1 after_read); apply (served_read after_write 1 to_read fives eq_refl read_request eq_refl); cbn [disk after_write]|eapply serves_cons; [apply serve_spurious|apply serves_nil]].
  - apply list_lookup_insert_eq. lia.
  - rewrite length_insert. exact Hl.
Qed.

Lemma ide_refines_memide_witness : exists s', forM [Request 0; Request 1; Interrupt; Interrupt; Interrupt] handle (two false) = Ok (tt, s') /\ bufs s' = [Buf true true false 1 5 fives; Buf true true false 1 5 fives] /\ sector (ctl s') 1 5 = fives.
Proof.
  destruct (ide_refines_memide (two false) two_bufs [] [Request 0; Request 1; Interrupt; Interrupt; Interrupt] after_read [] no_faults (two_inv false) (two_waiting false) two_serves) as (s' & E & _ & Eb & _ & Hs). exists s'. split; [exact E|]. split; [exact Eb|].
  specialize (Hs eq_refl 5 ltac:(split; reflexivity || discriminate)). cbn [disk after_read] in Hs. change (Z.to_nat 5) with 5%nat in Hs. rewrite list_lookup_insert_eq in Hs by (unfold blank_disk; rewrite length_replicate; lia). injection Hs as Hs. symmetry. exact Hs.
Defined.

(** The same with both requests in the queue. *)
Lemma queued : exists s, inv s two_bufs [0%nat; 1%nat] /\ waiting (C := Model.device false) s [0%nat; 1%nat].
Proof.
  destruct (wp_submit (two false) two_bufs [] 0 written (two_inv false) (two_waiting false) (not_elem_of_nil _) eq_refl written_request) as (r1 & s1 & _ & _ & I1 & W1).
  destruct (wp_submit s1 two_bufs [0%nat] 1 to_read I1 W1) as (r2 & s2 & _ & _ & I2 & W2); [intros H%list_elem_of_singleton; discriminate|rewrite (iv_bufs _ _ _ I1); reflexivity|exact read_request|]. exists s2. auto.
Qed.

Lemma ide_request_finishes_witness : exists (s s' : ide (Model.device false)) b, forM (replicate 2 Interrupt) handle s = Ok (tt, s') /\ bufs s' !! 1%nat = Some b /\ valid b = true.
Proof.
  destruct queued as (s & I & W). destruct (ide_request_finishes s two_bufs [0%nat; 1%nat] 1 1 no_faults I W eq_refl) as (s' & b & E & Hb & Hv & _). exists s, s', b. auto.
Defined.

Lemma ide_error_marks_valid_witness : exists s s' : ide (Model.device true), ideintr s = Ok (tt, s') /\ bufs s' !! 1%nat = Some (Buf true true false 1 5 zeros).
Proof.
  destruct (wp_submit (two true) two_bufs [] 1 to_read (two_inv true) (two_waiting true) (not_elem_of_nil _) eq_refl read_request) as (r1 & s & _ & _ & I & _).
  destruct (ide_error_marks_valid s two_bufs 1 to_read I) as (s' & E & Hb & _); [rewrite (iv_bufs _ _ _ I); reflexivity|reflexivity|reflexivity|]. exists s, s'. split; [exact E|exact Hb].
Defined.
End IdeProps.
