(* ===== verification/PipeNet.v ===== *)
(** The encrypted link between the console and a shell (pipenet.c): three processes and four pipes.
    What is typed is encrypted by [pipenet], decrypted by the second process and given to the shell;
    what the shell prints goes the other way.

    A pipe is the bytes in it; a read takes what is there, up to the size of the buffer, and the
    rounds of the two loops run one at a time, after [select] has found a descriptor to read from.
    [encrypt] and [decrypt] are the system calls, which do [ctr_encrypt] and [ctr_decrypt]. *)

From S2P Require Import Prelude Aes Ctr Grep.

Module PipeNet.

Definition BUF_SIZE : nat := 100.
Definition CTR_SIZE : nat := 112.
Definition PIPESIZE : nat := 512.
Definition KEY : list Z := [0x1E1E1E1E; 0x87654321; 0xDEADBEEF; 0xABCBACED; 0xF00DF00D; 0xA16B12C1; 0xCAFEBABE; 0xBEEFDEAD].
Definition AES_256_KEY_SIZE : nat := 8.

(** ** The descriptors *)

Inductive pipe := Tosh | Fromsh | Frome | Toe.
Inductive file := Console | ReadEnd (p : pipe) | WriteEnd (p : pipe).
Definition NOFILE : nat := 16.
Definition fds : Type := list (option file).

Fixpoint lowest (l : fds) : nat := match l with Some _ :: l' => S (lowest l') | _ => O end.
Definition fdalloc (f : file) (l : fds) : nat * fds := let i := lowest l in (i, <[i := Some f]> l).
(** [pipe(p)]: the read end, then the write end. *)
Definition open_pipe (p : pipe) (l : fds) : nat * nat * fds :=
  let '(r, l) := fdalloc (ReadEnd p) l in
  let '(w, l) := fdalloc (WriteEnd p) l in (r, w, l).
Definition close (i : nat) (l : fds) : fds := <[i := None]> l.
Definition dup (i : nat) (l : fds) : fds := match l !! i with Some (Some f) => (fdalloc f l).2 | _ => l end.

Record ends := Ends { toshfds : nat * nat; fromshfds : nat * nat; frome : nat * nat; toe : nat * nat }.
Definition open_pipes (l : fds) : ends * fds :=
  let '(r1, w1, l) := open_pipe Tosh l in
  let '(r2, w2, l) := open_pipe Fromsh l in
  let '(r3, w3, l) := open_pipe Frome l in
  let '(r4, w4, l) := open_pipe Toe l in
  (Ends (r1, w1) (r2, w2) (r3, w3) (r4, w4), l).
Definition sh_fds (e : ends) (l : fds) : fds :=
  let l := close (toe e).2 (close (toe e).1 l) in
  let l := close (frome e).2 (close (frome e).1 l) in
  let l := close (fromshfds e).1 (close (toshfds e).2 l) in
  let l := dup (toshfds e).1 (close 0 l) in
  let l := close 2 (close 1 l) in
  let l := dup (fromshfds e).2 (dup (fromshfds e).2 l) in
  close (fromshfds e).2 (close (toshfds e).1 l).
Definition e_fds (e : ends) (l : fds) : fds :=
  close (frome e).1 (close (toe e).2 (close (fromshfds e).2 (close (toshfds e).1 l))).
Definition net_fds (e : ends) (l : fds) : fds :=
  let l := close (toshfds e).2 (close (toshfds e).1 l) in
  let l := close (fromshfds e).2 (close (fromshfds e).1 l) in
  close (frome e).2 (close (toe e).1 l).

(** ** The loops *)

Section link.
(** The bytes that [random] put in [counter]. *)
Context (counter : list Z).

Definition encrypt (message ciphertext : list Z) (size : nat) : res (list Z) := Ctr.ctr_encrypt message ciphertext size counter KEY AES_256_KEY_SIZE.
Definition decrypt (ciphertext message : list Z) (size : nat) : res (list Z) := Ctr.ctr_decrypt ciphertext message size counter KEY AES_256_KEY_SIZE.

(** The two buffers of a process. *)
Record buffers := Buffers { buf : list Z; encryptedBuf : list Z }.
Definition cleared : buffers := Buffers (replicate BUF_SIZE 0) (replicate BUF_SIZE 0).

(** What a [%s] of [encryptedBuf] prints. *)
Definition shown (b : list Z) : res (list Z) := if bool_decide (0 ∈ b) then Ok (Grep.upto_nul b) else Fault "read outside an array".

(** One of the four bodies: read from [src], transform, print, write; the rest of [src], what was
    printed and what was written. *)
Definition forward (crypt : list Z -> list Z -> nat -> res (list Z)) (src : list Z) (b : buffers) : res (list Z * list Z * list Z) :=
  let r := Nat.min BUF_SIZE (length src) in
  let buf' := take r src ++ drop r (buf b) in
  out ← crypt buf' (encryptedBuf b) r;
  text ← shown out;
  Ok (drop r src, text, take r out).

(** What the console shows: the messages of the loops, and the bytes written to it. *)
Inductive line := Message (text : list Z) | Bytes (l : list Z).

Record state := State {
  typed : list (list Z);     (** what reads of the console will return *)
  toe_pipe : list Z;
  tosh_pipe : list Z;
  fromsh_pipe : list Z;
  frome_pipe : list Z;
  screen : list line;
  net_buffers : buffers;
  e_buffers : buffers;
}.

(** A write that has to wait for room does not return in this round. *)
Definition append (p bytes : list Z) : res (list Z) := if (length p + length bytes <=? PIPESIZE)%nat then Ok (p ++ bytes) else Spin.

(** From the console to the second process. *)
Definition console_to_e (s : state) : res state :=
  match typed s with
  | [] => Ok s
  | l :: rest =>
      '(unread, text, out) ← forward encrypt l (net_buffers s);
      toe ← append (toe_pipe s) out;
      Ok (State (match unread with [] => rest | _ => unread :: rest end) toe (tosh_pipe s) (fromsh_pipe s) (frome_pipe s) (screen s ++ [Message text]) cleared (e_buffers s))
  end.
(** From the second process to the console. *)
Definition e_to_console (s : state) : res state :=
  '(unread, text, out) ← forward decrypt (frome_pipe s) (net_buffers s);
  Ok (State (typed s) (toe_pipe s) (tosh_pipe s) (fromsh_pipe s) unread (screen s ++ [Message text; Bytes out]) cleared (e_buffers s)).
(** A round of [pipenet]: [select] has looked at both descriptors before the first body runs. *)
Definition net_round (s : state) : res state :=
  let console := negb (bool_decide (typed s = [])) in
  let frome := negb (bool_decide (frome_pipe s = [])) in
  if negb console && negb frome then Spin
  else
    s ← (if console then console_to_e s else Ok s);
    if frome then e_to_console s else Ok s.

(** From [pipenet] to the shell. *)
Definition e_to_sh (s : state) : res state :=
  '(unread, text, out) ← forward decrypt (toe_pipe s) (e_buffers s);
  tosh ← append (tosh_pipe s) out;
  Ok (State (typed s) unread tosh (fromsh_pipe s) (frome_pipe s) (screen s ++ [Message text]) (net_buffers s) cleared).
(** From the shell to [pipenet]. *)
Definition sh_to_e (s : state) : res state :=
  '(unread, text, out) ← forward encrypt (fromsh_pipe s) (e_buffers s);
  frome ← append (frome_pipe s) out;
  Ok (State (typed s) (toe_pipe s) (tosh_pipe s) unread frome (screen s ++ [Message text]) (net_buffers s) cleared).
Definition e_round (s : state) : res state :=
  let toe := negb (bool_decide (toe_pipe s = [])) in
  let fromsh := negb (bool_decide (fromsh_pipe s = [])) in
  if negb toe && negb fromsh then Spin
  else
    s ← (if toe then e_to_sh s else Ok s);
    if fromsh then sh_to_e s else Ok s.

(** The user types a line; the shell reads or prints. *)
Definition type_line (l : list Z) (s : state) : state := State (typed s ++ [l]) (toe_pipe s) (tosh_pipe s) (fromsh_pipe s) (frome_pipe s) (screen s) (net_buffers s) (e_buffers s).
Definition sh_read (n : nat) (s : state) : list Z * state :=
  (take n (tosh_pipe s), State (typed s) (toe_pipe s) (drop n (tosh_pipe s)) (fromsh_pipe s) (frome_pipe s) (screen s) (net_buffers s) (e_buffers s)).
Definition sh_write (l : list Z) (s : state) : res state :=
  p ← append (fromsh_pipe s) l;
  Ok (State (typed s) (toe_pipe s) (tosh_pipe s) p (frome_pipe s) (screen s) (net_buffers s) (e_buffers s)).
End link.
End PipeNet.

Module LinkFacts.
Import AesFacts CtrFacts PipeNet.

(** ** Short messages *)

(** The key stream: the first block of the counter, encrypted. *)
Definition round_keys : list Z := Aes.keyExpansion KEY (replicate (Aes.BLOCK_COLUMNS * (AES_256_KEY_SIZE + 6 + 1)) 0) AES_256_KEY_SIZE.
Definition stream (counter : list Z) : list Z := Aes.aes_encrypt (take 16 counter) round_keys AES_256_KEY_SIZE.

Lemma ctr_short (m out counter key : list Z) (k keySize : nat) : Forall is_byte counter -> (16 <= length counter)%nat -> (k <= 16)%nat -> (k <= length m)%nat -> (k <= length out)%nat ->
  Ctr.ctr m out counter k key keySize = Ok (pad k (Aes.aes_encrypt (take 16 counter) (Aes.keyExpansion key (replicate (Aes.BLOCK_COLUMNS * (keySize + 6 + 1)) 0) keySize) keySize) m ++ drop k out).
Proof.
  intros Hb Hl Hk Hm Ho. unfold Ctr.ctr. cbn zeta. set (rk := Aes.keyExpansion _ _ _). change (replicate Aes.BLOCK_LENGTH 0) with (replicate 16 0).
  rewrite (ctr_loop_short (fun b => Aes.aes_encrypt b rk keySize)); try assumption; [reflexivity|]. intros b Hv. exact (aes_encrypt_valid b rk keySize Hv).
Qed.

Section short.
Context (counter : list Z).
Hypothesis Hlen : length counter = CTR_SIZE.
Hypothesis Hbytes : Forall is_byte counter.

Lemma stream_block : length (stream counter) = 16%nat /\ Forall is_byte (stream counter).
Proof using All. apply (aes_encrypt_valid (take 16 counter) round_keys AES_256_KEY_SIZE). split; [rewrite length_take, Hlen; reflexivity|apply Forall_take, Hbytes]. Qed.

Lemma crypt_short m out k : (k <= 16)%nat -> (k <= length m)%nat -> (k <= length out)%nat ->
  encrypt counter m out k = Ok (pad k (stream counter) m ++ drop k out) /\ decrypt counter m out k = Ok (pad k (stream counter) m ++ drop k out).
Proof using All.
  intros Hk Hm Ho. pose proof (ctr_short m out counter KEY k AES_256_KEY_SIZE Hbytes ltac:(rewrite Hlen; unfold CTR_SIZE; lia) Hk Hm Ho) as E. split; exact E.
Qed.

Lemma pad_bytes k m : Forall is_byte (pad k (stream counter) m).
Proof using All. apply Forall_lookup. intros i x Hx. unfold pad in Hx. apply lookup_zip_with_Some in Hx as (e & y & -> & _). apply u8_byte. Qed.

Lemma pad_self m : (length m <= 16)%nat -> Forall is_byte m -> pad (length m) (stream counter) (pad (length m) (stream counter) m) = m.
Proof using All.
  intros Hm Hb. destruct stream_block as [Hs Hsb]. rewrite <- (app_nil_r (pad (length m) (stream counter) m)), pad_twice by (assumption || lia). apply firstn_all.
Qed.

(** A process with its buffers in order. *)
Definition ready (b : buffers) : Prop := length (buf b) = BUF_SIZE /\ length (encryptedBuf b) = BUF_SIZE /\ 0 ∈ drop 16 (encryptedBuf b).

Lemma cleared_ready : ready cleared.
Proof using. split; [reflexivity|]. split; [reflexivity|]. apply list_elem_of_lookup. exists O. reflexivity. Qed.

Lemma forward_short crypt src b : crypt = encrypt counter \/ crypt = decrypt counter -> (length src <= 16)%nat -> ready b ->
  exists text, forward crypt src b = Ok ([], text, pad (length src) (stream counter) src).
Proof using All.
  intros Hc Hs (R1 & R2 & R3). unfold BUF_SIZE in *. destruct stream_block as [Hst _]. unfold forward. rewrite Nat.min_r by (unfold BUF_SIZE; lia). rewrite firstn_all.
  assert (Hm : (length src <= length (src ++ drop (length src) (buf b)))%nat) by (rewrite length_app; lia). destruct (crypt_short (src ++ drop (length src) (buf b)) (encryptedBuf b) (length src) ltac:(lia) Hm ltac:(lia)) as [E1 E2].
  assert (E : crypt (src ++ drop (length src) (buf b)) (encryptedBuf b) (length src) = Ok (pad (length src) (stream counter) src ++ drop (length src) (encryptedBuf b))).
  { replace (pad (length src) (stream counter) src) with (pad (length src) (stream counter) (src ++ drop (length src) (buf b))) by (unfold pad; rewrite take_app_length, firstn_all; reflexivity). destruct Hc as [->| ->]; assumption. }
  rewrite E. cbn [mbind res_bind]. unfold shown. rewrite bool_decide_true.
  - eexists. cbn [mbind res_bind]. rewrite drop_ge by lia. rewrite take_app_length' by (rewrite length_pad; lia). reflexivity.
  - apply elem_of_app. right. apply list_elem_of_lookup in R3 as [j Hj]. rewrite lookup_drop in Hj. apply list_elem_of_lookup. exists (16 - length src + j)%nat. rewrite lookup_drop. rewrite <- Hj. f_equal. lia.
Qed.

#[local] Opaque stream.

(** ** Runs *)

Inductive event := TypeLine (l : list Z) | NetRound | ERound | ShRead (n : nat) | ShWrite (l : list Z).
(** What a step gives the shell to read, and the state after it. *)
Definition step (e : event) (s : state) : res (list Z * state) :=
  match e with
  | TypeLine l => Ok ([], type_line l s)
  | NetRound => s' ← net_round counter s; Ok ([], s')
  | ERound => s' ← e_round counter s; Ok ([], s')
  | ShRead n => Ok (sh_read n s)
  | ShWrite l => s' ← sh_write l s; Ok ([], s')
  end.

(** A step of a run in which messages are short and no two of them are in a pipe at once. *)
Definition prompt (s : state) (e : event) : Prop :=
  match e with
  | TypeLine l => (0 < length l <= 16)%nat /\ Forall is_byte l
  | NetRound => (typed s <> [] \/ frome_pipe s <> []) /\ (typed s <> [] -> toe_pipe s = [])
  | ERound => (toe_pipe s <> [] \/ fromsh_pipe s <> []) /\ (length (fromsh_pipe s) <= 16)%nat /\ (fromsh_pipe s <> [] -> frome_pipe s = []) /\ (length (tosh_pipe s) + 16 <= PIPESIZE)%nat
  | ShRead _ => True
  | ShWrite l => (length (fromsh_pipe s) + length l <= PIPESIZE)%nat /\ Forall is_byte l
  end.
Inductive run : list event -> state -> list Z -> state -> Prop :=
  | run_nil s : run [] s [] s
  | run_cons e es s got s1 got' s2 : prompt s e -> step e s = Ok (got, s1) -> run es s1 got' s2 -> run (e :: es) s (got ++ got') s2.

Definition typed_by (e : event) : list Z := match e with TypeLine l => l | _ => [] end.
Definition written_by (e : event) : list Z := match e with ShWrite l => l | _ => [] end.
(** The bytes of the shell that the console shows. *)
Definition relayed (l : list line) : list Z := concat ((fun x => match x with Bytes b => b | Message _ => [] end) <$> l).

(** The state with the messages [m1] and [m2] on their way. *)
Record flight (s : state) (m1 m2 : list Z) : Prop := {
  fl_toe : toe_pipe s = pad (length m1) (stream counter) m1;
  fl_frome : frome_pipe s = pad (length m2) (stream counter) m2;
  fl_m1 : (length m1 <= 16)%nat /\ Forall is_byte m1;
  fl_m2 : (length m2 <= 16)%nat /\ Forall is_byte m2;
  fl_typed : Forall (fun l => (0 < length l <= 16)%nat /\ Forall is_byte l) (typed s);
  fl_fromsh : Forall is_byte (fromsh_pipe s);
  fl_net : ready (net_buffers s);
  fl_e : ready (e_buffers s);
}.
(** Nothing is lost, doubled or changed: from the typed lines to the shell, and from the shell to the console. *)
Record carried (s : state) (m1 m2 ty wr got : list Z) (s' : state) (m1' m2' : list Z) : Prop := {
  cr_flight : flight s' m1' m2';
  cr_in : (tosh_pipe s ++ m1 ++ concat (typed s)) ++ ty = got ++ tosh_pipe s' ++ m1' ++ concat (typed s');
  cr_out : (relayed (screen s) ++ m2 ++ fromsh_pipe s) ++ wr = relayed (screen s') ++ m2' ++ fromsh_pipe s';
}.

Lemma length_sealed m : (length m <= 16)%nat -> length (pad (length m) (stream counter) m) = length m.
Proof using All. intros Hm. apply length_pad; [destruct stream_block as [-> _]; exact Hm|lia]. Qed.

Lemma message_empty m : (length m <= 16)%nat -> pad (length m) (stream counter) m = [] -> m = [].
Proof using All. intros Hm E. apply nil_length_inv. rewrite <- (length_sealed m Hm), E. reflexivity. Qed.

Lemma append_ok p l : (length p + length l <= PIPESIZE)%nat -> append p l = Ok (p ++ l).
Proof using. intros H. unfold append. rewrite (proj2 (Nat.leb_le _ _) H). reflexivity. Qed.

Lemma carried_trans s m1 m2 t1 w1 g1 s1 a1 a2 t2 w2 g2 s2 b1 b2 : carried s m1 m2 t1 w1 g1 s1 a1 a2 -> carried s1 a1 a2 t2 w2 g2 s2 b1 b2 -> carried s m1 m2 (t1 ++ t2) (w1 ++ w2) (g1 ++ g2) s2 b1 b2.
Proof using.
  intros [F1 I1 O1] [F2 I2 O2]. constructor; [exact F2| |].
  - rewrite (app_assoc _ t1 t2), I1, <- (app_assoc g1 _ t2), I2. rewrite <- !app_assoc. reflexivity.
  - rewrite (app_assoc _ w1 w2), O1, O2. reflexivity.
Qed.

Lemma carried_refl s m1 m2 : flight s m1 m2 -> carried s m1 m2 [] [] [] s m1 m2.
Proof using. intros F. constructor; [exact F|rewrite app_nil_r; reflexivity|rewrite app_nil_r; reflexivity]. Qed.

(** The four bodies. *)
Lemma console_carries s m2 : flight s [] m2 -> toe_pipe s = [] -> typed s <> [] -> exists s' m1', console_to_e counter s = Ok s' /\ carried s [] m2 [] [] [] s' m1' m2 /\ frome_pipe s' = frome_pipe s /\ net_buffers s' = cleared.
Proof using All.
  intros F E Ht. destruct (typed s) as [|l rest] eqn:Et; [congruence|]. pose proof (fl_typed _ _ _ F) as Hl. rewrite Et in Hl. apply Forall_cons in Hl as [[Hl Hb] Hr]. unfold console_to_e. rewrite Et.
  destruct (forward_short (encrypt counter) l (net_buffers s) (or_introl eq_refl) ltac:(lia) (fl_net _ _ _ F)) as [text ->]. cbn [mbind res_bind]. rewrite E, append_ok by (rewrite length_sealed by lia; cbn; unfold PIPESIZE; lia). cbn [mbind res_bind app].
  eexists _, l. split; [reflexivity|]. split; [|split; reflexivity]. destruct F. constructor; cbn.
  - constructor; cbn; try assumption; try reflexivity; [split; [lia|exact Hb]|apply cleared_ready].
  - rewrite Et, app_nil_r. reflexivity.
  - unfold relayed. rewrite fmap_app, concat_app, !app_nil_r. reflexivity.
Qed.

Lemma net_carries s m1 m2 : flight s m1 m2 -> exists s', e_to_console counter s = Ok s' /\ carried s m1 m2 [] [] [] s' m1 [].
Proof using All.
  intros F. destruct (fl_m2 _ _ _ F) as [Hm Hb]. unfold e_to_console. rewrite (fl_frome _ _ _ F).
  destruct (forward_short (decrypt counter) (pad (length m2) (stream counter) m2) (net_buffers s) (or_intror eq_refl) ltac:(rewrite length_sealed by exact Hm; exact Hm) (fl_net _ _ _ F)) as [text ->]. cbn [mbind res_bind]. rewrite length_sealed, pad_self by assumption.
  eexists. split; [reflexivity|]. destruct F. constructor; cbn.
  - constructor; cbn; try assumption; try reflexivity; [split; [lia|constructor]|apply cleared_ready].
  - rewrite app_nil_r. reflexivity.
  - unfold relayed. rewrite fmap_app, concat_app. cbn. rewrite !app_nil_r, <- !app_assoc. reflexivity.
Qed.

Lemma e_carries s m1 m2 : flight s m1 m2 -> (length (tosh_pipe s) + 16 <= PIPESIZE)%nat -> exists s', e_to_sh counter s = Ok s' /\ carried s m1 m2 [] [] [] s' [] m2 /\ fromsh_pipe s' = fromsh_pipe s /\ frome_pipe s' = frome_pipe s.
Proof using All.
  intros F Hroom. destruct (fl_m1 _ _ _ F) as [Hm Hb]. unfold e_to_sh. rewrite (fl_toe _ _ _ F).
  destruct (forward_short (decrypt counter) (pad (length m1) (stream counter) m1) (e_buffers s) (or_intror eq_refl) ltac:(rewrite length_sealed by exact Hm; exact Hm) (fl_e _ _ _ F)) as [text ->]. cbn [mbind res_bind]. rewrite length_sealed, pad_self by assumption.
  rewrite append_ok by lia. cbn [mbind res_bind]. eexists. split; [reflexivity|]. split; [|split; reflexivity]. destruct F. constructor; cbn.
  - constructor; cbn; try assumption; try reflexivity; [split; [lia|constructor]|apply cleared_ready].
  - rewrite app_nil_r, <- !app_assoc. reflexivity.
  - unfold relayed. rewrite fmap_app, concat_app. cbn. rewrite !app_nil_r. reflexivity.
Qed.

Lemma sh_carries s m1 : flight s m1 [] -> frome_pipe s = [] -> (length (fromsh_pipe s) <= 16)%nat -> exists s' m2', sh_to_e counter s = Ok s' /\ carried s m1 [] [] [] [] s' m1 m2'.
Proof using All.
  intros F E Hl. unfold sh_to_e. destruct (forward_short (encrypt counter) (fromsh_pipe s) (e_buffers s) (or_introl eq_refl) Hl (fl_e _ _ _ F)) as [text ->]. cbn [mbind res_bind]. rewrite E, append_ok by (rewrite length_sealed by lia; cbn; unfold PIPESIZE; lia). cbn [mbind res_bind app].
  eexists _, (fromsh_pipe s). split; [reflexivity|]. destruct F. constructor; cbn.
  - constructor; cbn; try assumption; try reflexivity; [split; [lia|assumption]|constructor|apply cleared_ready].
  - rewrite app_nil_r. reflexivity.
  - unfold relayed. rewrite fmap_app, concat_app. cbn. rewrite !app_nil_r. reflexivity.
Qed.

Lemma net_round_carries s m1 m2 : flight s m1 m2 -> prompt s NetRound -> exists s' m1' m2', net_round counter s = Ok s' /\ carried s m1 m2 [] [] [] s' m1' m2'.
Proof using All.
  intros F [H1 H2]. unfold net_round. destruct (bool_decide_reflect (typed s = [])) as [Et|Et]; cbn [negb].
  - destruct (bool_decide_reflect (frome_pipe s = [])) as [Ef|Ef]; [tauto|]. cbn [negb andb mbind res_bind]. destruct (net_carries s m1 m2 F) as (s' & E & Cr). exists s', m1, []. auto.
  - specialize (H2 Et). assert (m1 = []) as -> by (apply message_empty; [apply F|rewrite <- (fl_toe _ _ _ F); exact H2]). destruct (console_carries s m2 F H2 Et) as (s1 & m1' & E1 & C1 & _ & _). cbn [andb]. rewrite E1. cbn [mbind res_bind].
    destruct (bool_decide_reflect (frome_pipe s = [])) as [Ef|Ef]; cbn [negb]; [exists s1, m1', m2; auto|]. destruct (net_carries s1 m1' m2 (cr_flight _ _ _ _ _ _ _ _ _ C1)) as (s2 & E2 & C2). exists s2, m1', []. split; [exact E2|]. exact (carried_trans _ _ _ [] [] [] _ _ _ [] [] [] _ _ _ C1 C2).
Qed.

Lemma e_round_carries s m1 m2 : flight s m1 m2 -> prompt s ERound -> exists s' m1' m2', e_round counter s = Ok s' /\ carried s m1 m2 [] [] [] s' m1' m2'.
Proof using All.
  intros F (H1 & H2 & H3 & H4). unfold e_round.
  assert (Hsh : forall s1 m1', flight s1 m1' m2 -> frome_pipe s1 = frome_pipe s -> fromsh_pipe s1 = fromsh_pipe s -> fromsh_pipe s <> [] -> exists s' m2', sh_to_e counter s1 = Ok s' /\ carried s1 m1' m2 [] [] [] s' m1' m2').
  { intros s1 m1' F1 E1 E2 Hne. specialize (H3 Hne). assert (m2 = []) as -> by (apply message_empty; [apply F|rewrite <- (fl_frome _ _ _ F); exact H3]). apply sh_carries; [exact F1|congruence|rewrite E2; exact H2]. }
  destruct (bool_decide_reflect (toe_pipe s = [])) as [Et|Et]; cbn [negb].
  - destruct (bool_decide_reflect (fromsh_pipe s = [])) as [Ef|Ef]; [tauto|]. cbn [negb andb mbind res_bind]. destruct (Hsh s m1 F eq_refl eq_refl Ef) as (s' & m2' & E & Cr). exists s', m1, m2'. auto.
  - destruct (e_carries s m1 m2 F H4) as (s1 & E1 & C1 & Es & Ee). cbn [andb]. rewrite E1. cbn [mbind res_bind]. destruct (bool_decide_reflect (fromsh_pipe s = [])) as [Ef|Ef]; cbn [negb]; [exists s1, [], m2; auto|].
    destruct (Hsh s1 [] (cr_flight _ _ _ _ _ _ _ _ _ C1) Ee Es Ef) as (s2 & m2' & E2 & C2). exists s2, [], m2'. split; [exact E2|]. exact (carried_trans _ _ _ [] [] [] _ _ _ [] [] [] _ _ _ C1 C2).
Qed.

Lemma step_carries e s m1 m2 : flight s m1 m2 -> prompt s e -> exists got s' m1' m2', step e s = Ok (got, s') /\ carried s m1 m2 (typed_by e) (written_by e) got s' m1' m2'.
Proof using All.
  intros F P. destruct e as [l| | |n|l]; cbn [step typed_by written_by].
  - exists [], (type_line l s), m1, m2. split; [reflexivity|]. destruct F. constructor; cbn; [|rewrite concat_app; cbn; rewrite app_nil_r, <- !app_assoc; reflexivity|rewrite app_nil_r; reflexivity].
    constructor; try assumption. cbn. apply Forall_app. split; [assumption|]. apply Forall_singleton. exact P.
  - destruct (net_round_carries s m1 m2 F P) as (s' & m1' & m2' & E & Cr). exists [], s', m1', m2'. rewrite E. auto.
  - destruct (e_round_carries s m1 m2 F P) as (s' & m1' & m2' & E & Cr). exists [], s', m1', m2'. rewrite E. auto.
  - eexists _, _, m1, m2. split; [reflexivity|]. destruct F. constructor; cbn; [constructor; assumption| |rewrite app_nil_r; reflexivity]. rewrite app_nil_r, (app_assoc (take n _)), take_drop. reflexivity.
  - destruct P as [P1 P2]. unfold sh_write. rewrite append_ok by exact P1. cbn [mbind res_bind]. eexists [], _, m1, m2. split; [reflexivity|]. destruct F. constructor; cbn; [|rewrite app_nil_r; reflexivity|rewrite <- !app_assoc; reflexivity]. constructor; try assumption. cbn. apply Forall_app. auto.
Qed.

Lemma run_carries es s got s' m1 m2 : run es s got s' -> flight s m1 m2 -> exists m1' m2', carried s m1 m2 (concat (typed_by <$> es)) (concat (written_by <$> es)) got s' m1' m2'.
Proof using All.
  intros R. revert m1 m2. induction R as [s|e es s got s1 got' s2 P E R IH]; intros m1 m2 F; [exists m1, m2; apply carried_refl, F|].
  destruct (step_carries e s m1 m2 F P) as (g & s1' & a1 & a2 & E' & C1). rewrite E in E'. injection E' as <- <-. destruct (IH a1 a2 (cr_flight _ _ _ _ _ _ _ _ _ C1)) as (b1 & b2 & C2). exists b1, b2. exact (carried_trans _ _ _ _ _ _ _ _ _ _ _ _ _ _ _ C1 C2).
Qed.

(** Nothing is on its way. *)
Record idle (s : state) : Prop := {
  id_typed : typed s = [];
  id_pipes : toe_pipe s = [] /\ tosh_pipe s = [] /\ fromsh_pipe s = [] /\ frome_pipe s = [];
  id_screen : screen s = [];
  id_net : ready (net_buffers s);
  id_e : ready (e_buffers s);
}.

Lemma idle_flight s : idle s -> flight s [] [].
Proof using All. intros [I1 (I2 & I3 & I4 & I5) I6 I7 I8]. constructor; try assumption; try (split; [cbn; lia|constructor]); rewrite ?I1, ?I4; constructor. Qed.

(** The key stream does not start where the message starts. *)
Lemma pad_app a b st x y : length x = a -> (a <= length st)%nat -> pad (a + b) st (x ++ y) = pad a st x ++ pad b (drop a st) y.
Proof using.
  clear Hlen Hbytes. intros <- Hl. unfold pad. rewrite take_app_add, firstn_all. rewrite <- (take_drop (length x) st) at 1. rewrite take_app_add' by (rewrite length_take; lia). apply zip_with_app. rewrite length_take. lia.
Qed.

Lemma pad_inj k st x y : (k <= length st)%nat -> length x = k -> length y = k -> Forall is_byte st -> Forall is_byte x -> Forall is_byte y -> pad k st x = pad k st y -> x = y.
Proof using.
  clear Hlen Hbytes. intros Hk Hx Hy Bs Bx By E. rewrite <- (firstn_all x), <- (firstn_all y), Hx, Hy. rewrite <- (pad_twice k st x Bs Bx Hk ltac:(lia) []), <- (pad_twice k st y Bs By Hk ltac:(lia) []), E. reflexivity.
Qed.

(** Encrypting is an exclusive or, so that equal results need equal streams. *)
Lemma pad_streams k st st' x : (k <= length st)%nat -> (k <= length st')%nat -> length x = k -> Forall is_byte st -> Forall is_byte st' -> Forall is_byte x -> pad k st x = pad k st' x <-> take k st = take k st'.
Proof using.
  clear Hlen Hbytes. intros Hk Hk' Hx Bs Bs' Bx. split; intros E; [|unfold pad; rewrite E; reflexivity]. apply list_eq. intros i. destruct (decide (i < k)%nat) as [Hi|Hi]; [|rewrite !lookup_ge_None_2; [reflexivity|rewrite length_take; lia..]].
  destruct (lookup_lt_is_Some_2 (take k st) i ltac:(rewrite length_take; lia)) as [a Ha], (lookup_lt_is_Some_2 (take k st') i ltac:(rewrite length_take; lia)) as [b Hb], (lookup_lt_is_Some_2 (take k x) i ltac:(rewrite length_take; lia)) as [m Hm].
  assert (El : pad k st x !! i = pad k st' x !! i) by (rewrite E; reflexivity). unfold pad in El. rewrite !lookup_zip_with, Ha, Hb, Hm in El. cbn in El. injection El as El.
  pose proof (Forall_lookup_1 _ _ _ _ (Forall_take _ k _ Bs) Ha). pose proof (Forall_lookup_1 _ _ _ _ (Forall_take _ k _ Bs') Hb). pose proof (Forall_lookup_1 _ _ _ _ (Forall_take _ k _ Bx) Hm). rewrite !u8_id in El by (apply lxor_byte; assumption).
  rewrite Ha, Hb. f_equal. rewrite <- (Z.lxor_0_r a), <- (Z.lxor_nilpotent m), <- Z.lxor_assoc, El, Z.lxor_assoc, Z.lxor_nilpotent, Z.lxor_0_r. reflexivity.
Qed.

(** One round of [pipenet] with a line to read and nothing from the other side. *)
Lemma net_round_line s l rest : typed s = l :: rest -> (0 < length l <= 16)%nat -> frome_pipe s = [] -> (length (toe_pipe s) + 16 <= PIPESIZE)%nat -> ready (net_buffers s) ->
  exists sc, net_round counter s = Ok (State rest (toe_pipe s ++ pad (length l) (stream counter) l) (tosh_pipe s) (fromsh_pipe s) [] sc cleared (e_buffers s)).
Proof using All.
  intros Et Hl Ef Hr Rb. unfold net_round. rewrite Et, Ef. cbn [negb andb]. rewrite bool_decide_false by discriminate. rewrite bool_decide_true by reflexivity. cbn [negb andb]. unfold console_to_e. rewrite Et.
  destruct (forward_short (encrypt counter) l (net_buffers s) (or_introl eq_refl) ltac:(lia) Rb) as [text ->]. cbn [mbind res_bind]. rewrite append_ok by (rewrite length_sealed by lia; lia). cbn [mbind res_bind]. rewrite Ef. eexists. reflexivity.
Qed.

(** One round of the second process with [c] to read and nothing from the shell. *)
Lemma e_round_bytes s : toe_pipe s <> [] -> (length (toe_pipe s) <= 16)%nat -> fromsh_pipe s = [] -> (length (tosh_pipe s) + 16 <= PIPESIZE)%nat -> ready (e_buffers s) ->
  exists sc, e_round counter s = Ok (State (typed s) [] (tosh_pipe s ++ pad (length (toe_pipe s)) (stream counter) (toe_pipe s)) [] (frome_pipe s) sc (net_buffers s) cleared).
Proof using All.
  intros Et Hl Ef Hr Rb. unfold e_round. rewrite Ef, bool_decide_false by exact Et. rewrite bool_decide_true by reflexivity. cbn [negb andb]. unfold e_to_sh.
  destruct (forward_short (decrypt counter) (toe_pipe s) (e_buffers s) (or_intror eq_refl) Hl Rb) as [text ->]. cbn [mbind res_bind]. rewrite append_ok by (rewrite length_pad; [lia|destruct stream_block as [-> _]; exact Hl|lia]). cbn [mbind res_bind]. rewrite Ef. eexists. reflexivity.
Qed.
End short.
End LinkFacts.

Module LinkProps.
Import AesFacts CtrFacts PipeNet LinkFacts.
#[local] Opaque stream.

(** The processes and their ends of the pipes: the shell has the link as its console, the second
    process and [pipenet] have exactly the ends they use besides the console, and no process keeps
    an end that would hide the end of the input from a reader of the shell's pipes. *)
Lemma plumbing : let console := Some Console in let '(e, l) := open_pipes ([console; console; console] ++ replicate 13 None) in
  sh_fds e l = [Some (ReadEnd Tosh); Some (WriteEnd Fromsh); Some (WriteEnd Fromsh)] ++ replicate 13 None /\
  (forall p, Some (ReadEnd p) ∈ e_fds e l <-> p = Toe \/ p = Fromsh) /\ (forall p, Some (WriteEnd p) ∈ e_fds e l <-> p = Tosh \/ p = Frome) /\
  (forall p, Some (ReadEnd p) ∈ net_fds e l <-> p = Frome) /\ (forall p, Some (WriteEnd p) ∈ net_fds e l <-> p = Toe).
Proof. cbn zeta. split; [reflexivity|]. split_and!; intros p; unfold e_fds, net_fds; cbn; rewrite ?elem_of_cons, elem_of_nil; destruct p; split; intros H; intuition congruence. Qed.

(** C28: The link delivers what goes in.  From an idle link, along every run in which lines and the
    shell's output are read in pieces of one block at most, and a process writes a message only when
    the last one has been read: no process leaves its arrays and every further step returns; when
    nothing typed is on its way, the bytes the shell has read and the bytes it can read are the
    typed lines, in order and unchanged; and when nothing printed is on its way, the console shows
    the bytes the shell wrote. *)
Theorem link_delivers counter es s got s' : length counter = CTR_SIZE -> Forall is_byte counter -> idle s -> run counter es s got s' ->
  (forall e, prompt s' e -> exists r, step counter e s' = Ok r) /\
  (typed s' = [] -> toe_pipe s' = [] -> got ++ tosh_pipe s' = concat (typed_by <$> es)) /\
  (fromsh_pipe s' = [] -> frome_pipe s' = [] -> relayed (screen s') = concat (written_by <$> es)).
Proof.
  intros Hl Hb I R. pose proof (idle_flight counter Hl Hb s I) as F. destruct (run_carries counter Hl Hb es s got s' [] [] R F) as (m1 & m2 & [F' Ci Co]). destruct I as [I1 (I2 & I3 & I4 & I5) I6 _ _]. rewrite I1, I3 in Ci. rewrite I4, I6 in Co. cbn in Ci, Co. split; [|split].
  - intros e P. destruct (step_carries counter Hl Hb e s' m1 m2 F' P) as (g & s1 & a & b & E & _). eauto.
  - intros E1 E2. rewrite (message_empty counter Hl Hb m1 (proj1 (fl_m1 _ _ _ _ F'))), E1 in Ci by (rewrite <- (fl_toe _ _ _ _ F'); exact E2). cbn in Ci. rewrite app_nil_r in Ci. symmetry. exact Ci.
  - intros E1 E2. rewrite (message_empty counter Hl Hb m2 (proj1 (fl_m2 _ _ _ _ F'))), E1 in Co by (rewrite <- (fl_frome _ _ _ _ F'); exact E2). rewrite !app_nil_r in Co. symmetry. exact Co.
Qed.

(** Two messages in the pipe at once are garbled.  When two lines, together of one block at
    most, are written to the pipe before the second process reads, that process decrypts both with
    one key stream: the shell gets the first line and, in place of the second, that line combined
    with the stream at two places, which is the line only if the stream has the same bytes there. *)
Theorem link_garbles_merged counter s l1 l2 : length counter = CTR_SIZE -> Forall is_byte counter -> idle s -> (0 < length l1)%nat -> (0 < length l2)%nat -> (length l1 + length l2 <= 16)%nat -> Forall is_byte l1 -> Forall is_byte l2 ->
  exists s', (s1 ← net_round counter (type_line l2 (type_line l1 s)); s2 ← net_round counter s1; e_round counter s2) = Ok s' /\
    let second := pad (length l2) (drop (length l1) (stream counter)) (pad (length l2) (stream counter) l2) in
    tosh_pipe s' = l1 ++ second /\ (second = l2 <-> take (length l2) (stream counter) = take (length l2) (drop (length l1) (stream counter))).
Proof.
  intros Hl Hb [I1 (I2 & I3 & I4 & I5) _ I7 I8] H1 H2 H12 B1 B2. destruct (stream_block counter Hl Hb) as [Hs Bs]. set (s0 := type_line l2 (type_line l1 s)).
  destruct (net_round_line counter Hl Hb s0 l1 [l2]) as [sc1 ->]; [cbn; rewrite I1; reflexivity|lia|exact I5|cbn; rewrite I2; unfold PIPESIZE; cbn; lia|exact I7|]. cbn [mbind res_bind].
  match goal with |- context [net_round counter ?x] => destruct (net_round_line counter Hl Hb x l2 []) as [sc2 ->] end; [reflexivity|lia|reflexivity|cbn [toe_pipe s0 type_line]; rewrite I2; cbn [app]; rewrite length_sealed by (assumption || lia); unfold PIPESIZE; lia|exact cleared_ready|]. cbn [mbind res_bind toe_pipe tosh_pipe fromsh_pipe e_buffers s0 type_line]. rewrite I2. cbn [app].
  assert (Ht : length (pad (length l1) (stream counter) l1 ++ pad (length l2) (stream counter) l2) = (length l1 + length l2)%nat) by (rewrite length_app, !length_sealed by (assumption || lia); reflexivity).
  match goal with |- context [e_round counter ?x] => destruct (e_round_bytes counter Hl Hb x) as [sc3 ->] end; cbn [toe_pipe tosh_pipe fromsh_pipe e_buffers]; [intros E; rewrite E in Ht; cbn in Ht; lia|rewrite Ht; exact H12|exact I4|rewrite I3; unfold PIPESIZE; cbn; lia|exact I8|].
  eexists. split; [reflexivity|]. cbn [tosh_pipe]. rewrite I3, Ht, pad_app, pad_self by (rewrite ?length_sealed; assumption || lia). split; [reflexivity|]. set (y := pad (length l2) (stream counter) l2).
  assert (Hy : length y = length l2) by (apply length_sealed; assumption || lia). assert (By : Forall is_byte y) by (apply pad_bytes; assumption). pose proof (pad_self counter Hl Hb l2 ltac:(lia) B2) as Es. fold y in Es.
  rewrite <- (pad_streams (length l2) (stream counter) (drop (length l1) (stream counter)) y) by (rewrite ?length_drop; auto using Forall_drop || lia). rewrite Es. split; congruence.
Qed.

(** The key stream is used again.  Every message of the link is combined with the same bytes,
    so that the exclusive or of the encryptions of any two messages of one length, in either
    direction, is the exclusive or of the messages themselves. *)
Theorem link_reuses_stream counter m1 m2 out : length counter = CTR_SIZE -> Forall is_byte counter -> Forall is_byte m1 -> Forall is_byte m2 -> length m1 = length m2 -> (length m1 <= 16)%nat -> length out = BUF_SIZE ->
  exists c1 c2, encrypt counter m1 out (length m1) = Ok (c1 ++ drop (length m1) out) /\ encrypt counter m2 out (length m2) = Ok (c2 ++ drop (length m2) out) /\ zip_with Z.lxor c1 c2 = zip_with Z.lxor m1 m2.
Proof.
  intros Hl Hb B1 B2 E H16 Ho. unfold BUF_SIZE in Ho. destruct (stream_block counter Hl Hb) as [Hs Bs]. destruct (crypt_short counter Hl Hb m1 out (length m1)) as [E1 _]; [lia..|]. destruct (crypt_short counter Hl Hb m2 out (length m2)) as [E2 _]; [lia..|].
  do 2 eexists. split; [exact E1|]. split; [exact E2|]. rewrite <- E. unfold pad. rewrite !firstn_all2 with (l := m2), firstn_all by lia. apply list_eq. intros i. rewrite !lookup_zip_with.
  destruct (m1 !! i) as [a|] eqn:Ha; [|destruct (take (length m1) (stream counter) !! i); reflexivity]. pose proof (lookup_lt_Some _ _ _ Ha). destruct (lookup_lt_is_Some_2 m2 i ltac:(lia)) as [b Hb2]. rewrite Hb2. rewrite lookup_take_lt by lia. destruct (lookup_lt_is_Some_2 (stream counter) i ltac:(lia)) as [k Hk]. rewrite Hk. cbn.
  pose proof (Forall_lookup_1 _ _ _ _ B1 Ha). pose proof (Forall_lookup_1 _ _ _ _ B2 Hb2). pose proof (Forall_lookup_1 _ _ _ _ Bs Hk). rewrite !u8_id by (apply lxor_byte; assumption). f_equal.
  rewrite (Z.lxor_comm k a), Z.lxor_assoc, <- (Z.lxor_assoc k k b), Z.lxor_nilpotent, Z.lxor_0_l. reflexivity.
Qed.

(** A link with a counter of zeros. *)
Definition zero_counter : list Z := replicate CTR_SIZE 0.
Definition quiet : state := State [] [] [] [] [] [] cleared cleared.

Lemma zero_bytes : Forall is_byte zero_counter.
Proof. apply Forall_replicate. unfold is_byte. lia. Qed.

Lemma quiet_idle : idle quiet.
Proof. constructor; try reflexivity; [auto|exact cleared_ready|exact cleared_ready]. Qed.

Definition ls_line : list Z := [108; 115; 10].

Lemma ls_bytes : Forall is_byte ls_line.
Proof. repeat constructor; unfold is_byte; lia. Qed.

Lemma ls_run : exists s', run zero_counter [TypeLine ls_line; NetRound; ERound; ShRead 16] quiet ls_line s' /\ typed s' = [] /\ toe_pipe s' = [] /\ tosh_pipe s' = [].
Proof.
  destruct (net_round_line zero_counter eq_refl zero_bytes (type_line ls_line quiet) ls_line []) as [sc1 E1]; [reflexivity|cbn; lia|reflexivity|unfold PIPESIZE; cbn; lia|exact cleared_ready|]. cbn [toe_pipe type_line quiet app tosh_pipe fromsh_pipe e_buffers] in E1.
  set (c := pad (length ls_line) (stream zero_counter) ls_line) in *. assert (Hc : length c = 3%nat) by (apply (length_sealed zero_counter eq_refl zero_bytes); cbn; lia).
  pose proof (pad_self zero_counter eq_refl zero_bytes ls_line ltac:(cbn; lia) ls_bytes) as Es. fold c in Es. set (s1 := State [] c [] [] [] sc1 cleared cleared) in *.
  assert (Hne : toe_pipe s1 <> []) by (intros E; unfold s1 in E; cbn [toe_pipe] in E; rewrite E in Hc; discriminate).
  destruct (e_round_bytes zero_counter eq_refl zero_bytes s1 Hne) as [sc2 E2]; [cbn [toe_pipe s1]; lia|reflexivity|unfold PIPESIZE; cbn; lia|exact cleared_ready|]. cbn [toe_pipe tosh_pipe typed frome_pipe net_buffers s1 app] in E2. rewrite Hc in E2. change (length ls_line) with 3%nat in Es. rewrite Es in E2.
  eexists. split; [|repeat split]; [change ls_line with ([] ++ [] ++ [] ++ ls_line ++ []) at 2|..].
  - eapply run_cons; [split; [cbn; lia|exact ls_bytes]|reflexivity|]. eapply run_cons; [split; [left; discriminate|reflexivity]|cbn [step]; rewrite E1; reflexivity|].
    eapply run_cons; [repeat split; [left; exact Hne|cbn; lia|unfold PIPESIZE; cbn; lia]|cbn [step]; rewrite E2; reflexivity|]. eapply run_cons; [exact I|reflexivity|apply run_nil].
  - reflexivity.
  - reflexivity.
  - reflexivity.
Qed.

Lemma link_delivers_witness : exists s', run zero_counter [TypeLine ls_line; NetRound; ERound; ShRead 16] quiet ls_line s' /\ ls_line ++ tosh_pipe s' = ls_line.
Proof.
  destruct ls_run as (s' & R & E1 & E2 & _). exists s'. split; [exact R|]. apply (link_delivers zero_counter _ quiet ls_line s' eq_refl zero_bytes quiet_idle R); assumption.
Defined.

Lemma link_garbles_merged_witness : exists s', (s1 ← net_round zero_counter (type_line [105; 10] (type_line ls_line quiet)); s2 ← net_round zero_counter s1; e_round zero_counter s2) = Ok s' /\ take 3 (tosh_pipe s') = ls_line.
Proof.
  destruct (link_garbles_merged zero_counter quiet ls_line [105; 10] eq_refl zero_bytes quiet_idle) as (s' & E & Ht & _); [cbn; lia|cbn; lia|cbn; lia|exact ls_bytes|repeat constructor; unfold is_byte; lia|]. exists s'. split; [exact E|]. rewrite Ht. reflexivity.
Defined.

Lemma link_reuses_stream_witness : exists c1 c2, encrypt zero_counter [1; 2] (replicate 100 0) 2 = Ok (c1 ++ replicate 98 0) /\ encrypt zero_counter [4; 9] (replicate 100 0) 2 = Ok (c2 ++ replicate 98 0) /\ zip_with Z.lxor c1 c2 = [5; 11].
Proof.
  destruct (link_reuses_stream zero_counter [1; 2] [4; 9] (replicate 100 0) eq_refl zero_bytes) as (c1 & c2 & E1 & E2 & E3); [repeat constructor; unfold is_byte; lia|repeat constructor; unfold is_byte; lia|reflexivity|cbn; lia|reflexivity|]. exists c1, c2. split; [exact E1|]. split; [exact E2|exact E3].
Defined.
End LinkProps.
