(* ===== verification/FsFree.v ===== *)
(** Releasing storage: what [bfree], [itrunc] and the last [iput] of an unlinked inode
    (fs.c, modelled in Fs.v) do to the free map, to the inode and to other files. *)

From S2P Require Import Prelude Fs.

Module FreeFacts.
Import Fs FsFacts.

Section free.
Context (ds : Z).

(** The blocks [l] of [s] have been freed. *)
Record freed (s : fs) (l : list Z) (s' : fs) : Prop := {
  fr_formatted : formatted ds s';
  fr_sb : sb s' = sb s;
  fr_blk : forall c, 0 <= c -> ~ (bmapstart (sb s) <= c < ds) -> blk s' c = blk s c;
  fr_used : forall c, 0 <= c < size (sb s) -> used s' c = bool_decide (c ∉ l) && used s c;
}.

Lemma freed_nil s : formatted ds s -> freed s [] s.
Proof.
  intros F. constructor; [exact F|reflexivity|reflexivity|]. intros c _. rewrite bool_decide_eq_true_2 by apply not_elem_of_nil. reflexivity.
Qed.

Lemma freed_more s l s' b : formatted ds s -> freed s l s' -> ds <= b < size (sb s) -> freed s (l ++ [b]) (unmark b s').
Proof.
  intros F Fr Hb. pose proof (fr_sb _ _ _ Fr) as E. pose proof (fr_formatted _ _ _ Fr) as F'. pose proof (meta_bounds ds s F) as Hm.
  assert (Hb' : 0 <= b < size (sb s')) by (rewrite E; lia). destruct (bblock_range ds s' b F' Hb') as [Hr _]. rewrite E in Hr.
  pose proof (f_length _ _ F') as Hl. rewrite E in Hl. constructor.
  - apply formatted_unmark; [exact F'|rewrite E; lia].
  - exact E.
  - intros c Hc Hn. unfold unmark. rewrite blk_wr by (rewrite ?Hl, ?E; lia). rewrite E, decide_False by lia. apply Fr; assumption.
  - intros c Hc. rewrite (used_unmark ds) by (try exact F'; rewrite ?E; lia). rewrite (fr_used _ _ _ Fr c Hc), andb_assoc. f_equal.
    destruct (c =? b) eqn:Ec; cbn [negb andb].
    + apply Z.eqb_eq in Ec. subst. rewrite bool_decide_eq_false_2; [reflexivity|]. intros Hn. apply Hn, elem_of_app. right. left.
    + apply Z.eqb_neq in Ec. apply bool_decide_ext. rewrite not_elem_of_app, not_elem_of_cons. split; [|tauto].
      intros H. split; [exact H|]. split; [exact Ec|apply not_elem_of_nil].
Qed.

Lemma wp_bfree s b (Q : unit -> fs -> Prop) : formatted ds s -> ds <= b < size (sb s) -> used s b = true ->
  Q tt (unmark b s) -> wp (bfree 1 b) Q s.
Proof.
  intros F Hb Hu HQ. pose proof (meta_bounds ds s F) as Hm. destruct (bblock_range ds s b F ltac:(lia)) as [Hr _].
  unfold bfree, readsb. apply wp_bind, wp_bind, (wp_fs_bread ds); [exact F|lia|]. wp_step.
  rewrite (f_sb _ _ F). destruct s as [bl g ic]. cbn [blocks icache sb] in *. apply wp_bind. wp_step.
  apply wp_bind, (wp_fs_bread ds); [exact F|cbn; lia|]. cbn zeta. cbn [sb].
  change (bit (b mod BPB) (blk (MkFs bl g ic) (BBLOCK b g))) with (used (MkFs bl g ic) b). rewrite Hu. cbn [negb].
  apply wp_log_write. exact HQ.
Qed.

(** A file whose blocks are kept. *)
Lemma kept_file s s' w : formatted ds s -> sb s' = sb s -> (forall c, ds <= c -> blk s' c = blk s c) -> regular ds s w ->
  (forall c, c ∈ pointers s w -> c <> 0 -> used s' c = true) -> regular ds s' w /\ content s' w = content s w.
Proof.
  intros F E Hb R D. destruct (rg_owns _ _ _ R) as [O1 O2 O3 O4]. pose proof (meta_bounds ds s F) as Hm.
  assert (Hs : slots s' w = slots s w).
  { apply slots_ext. intros Hi. apply Hb. destruct (O4 (ind w) ltac:(left) Hi). lia. }
  assert (Hp : pointers s' w = pointers s w) by (unfold pointers; rewrite Hs; reflexivity).
  split.
  - constructor; [|apply R|intros o Ho; unfold has; rewrite Hs; apply R, Ho|apply R|rewrite E; apply R].
    constructor; [exact O1|exact O2|rewrite Hp; exact O3|]. rewrite Hp, E. intros c Hc Hc0.
    destruct (O4 c Hc Hc0) as [H1 H2]. split; [exact H1|]. apply D; assumption.
  - unfold content. apply list_fmap_ext. intros i o Hi. apply lookup_seqZ in Hi. pose proof (rg_size _ _ _ R).
    destruct (block_index o ltac:(lia)) as [Hk _]. pose proof (rg_has _ _ _ R o ltac:(lia)) as Hh.
    apply fbyte_same; [lia|rewrite Hs; reflexivity|]. apply Hb.
    destruct (slot_data ds s w _ (rg_owns _ _ _ R) Hk Hh). lia.
Qed.

(** ** [itrunc] *)

Definition nz (l : list Z) : list Z := filter (fun b => b <> 0) l.
(** The first [k] direct blocks are gone. *)
Definition cut (k : nat) (v : inode) : inode := set_addrs (replicate k 0 ++ drop k (addrs v)) v.

Lemma nz_snoc l b : nz (l ++ [b]) = if b =? 0 then nz l else nz l ++ [b].
Proof.
  unfold nz. rewrite filter_app. destruct (b =? 0) eqn:E.
  - apply Z.eqb_eq in E. rewrite filter_cons_False, filter_nil, app_nil_r by lia. reflexivity.
  - apply Z.eqb_neq in E. rewrite filter_cons_True, filter_nil by exact E. reflexivity.
Qed.

(** An entry of a list with distinct non-zero elements is not among those before it. *)
Lemma distinct_before (l : list Z) k b : distinct l -> l !! k = Some b -> b <> 0 -> b ∉ nz (take k l).
Proof.
  intros D Hk Hb Hin. apply list_elem_of_filter in Hin as [_ Hin]. apply elem_of_take in Hin as (j & Hj & Hlt).
  pose proof (D j k b Hj Hk Hb). lia.
Qed.

Lemma freed_inode s l s' ip v : freed s l s' -> freed s l (with_inode ip v s').
Proof. intros Fr. destruct Fr. constructor; try assumption. apply formatted_inode. assumption. Qed.

(** One block of the file is freed while the inode is at [ip]. *)
Lemma wp_free_one s l s' b (Q : unit -> fs -> Prop) : formatted ds s -> freed s l s' -> ds <= b < size (sb s) -> used s b = true ->
  (b ∉ l) -> (freed s (l ++ [b]) (unmark b s') -> Q tt (unmark b s')) -> wp (bfree 1 b) Q s'.
Proof.
  intros F Fr Hb Hu Hn HQ. pose proof (meta_bounds ds s F). apply wp_bfree.
  - apply Fr.
  - rewrite (fr_sb _ _ _ Fr). exact Hb.
  - rewrite (fr_used _ _ _ Fr) by lia. rewrite Hu, bool_decide_eq_true_2 by exact Hn. reflexivity.
  - apply HQ, freed_more; assumption.
Qed.

Lemma cut_S k v : length (addrs v) = 13%nat -> (k < 12)%nat -> set_addrs (<[k := 0]> (addrs (cut k v))) (cut k v) = cut (Datatypes.S k) v.
Proof.
  intros Hl Hk. unfold cut, set_addrs. cbn [dev inum ref busy valid itype major minor nlink isize addrs]. f_equal.
  destruct (lookup_lt_is_Some_2 (addrs v) k ltac:(lia)) as [b Hb]. rewrite (drop_S _ _ _ Hb).
  rewrite insert_app_r_alt, length_replicate, Nat.sub_diag by (rewrite length_replicate; lia). cbn [insert list_insert].
  replace (Datatypes.S k) with (k + 1)%nat by lia. rewrite replicate_add, <- app_assoc. cbn [replicate app].
  replace (k + 1)%nat with (Datatypes.S k) by lia. reflexivity.
Qed.

Lemma cut_zero k v : addrs v !! k = Some 0 -> cut (Datatypes.S k) v = cut k v.
Proof.
  intros Hk. unfold cut. f_equal. rewrite (drop_S _ _ _ Hk). replace (Datatypes.S k) with (k + 1)%nat by lia.
  rewrite replicate_add, <- app_assoc. reflexivity.
Qed.

Lemma cut_nth k v : length (addrs v) = 13%nat -> (k < 13)%nat -> addrs (cut k v) !!! k = addrs v !!! k.
Proof.
  intros Hl Hk. unfold cut. cbn [addrs set_addrs]. rewrite lookup_total_app_r by (rewrite length_replicate; lia).
  rewrite length_replicate, Nat.sub_diag, lookup_total_drop. f_equal. lia.
Qed.

Lemma wp_trunc_direct s ip v : formatted ds s -> owns ds s v -> icache s !! ip = Some v ->
  wp (forM (seq 0 (Z.to_nat NDIRECT)) (fun i =>
        v ← get_inode ip;
        let a := addrs v !!! i in
        if a =? 0 then skip else bfree (dev v) a ;; put_inode ip (set_addrs (<[i := 0]> (addrs v)) v)))
    (fun _ s' => freed s (nz (take 12 (addrs v))) s' /\ icache s' = <[ip := cut 12 v]> (icache s)) s.
Proof.
  intros F O Hv. pose proof (ow_length _ _ _ O) as Hlen. pose proof (lookup_lt_Some _ _ _ Hv) as Hip.
  pose proof (wp_forM (seq 0 (Z.to_nat NDIRECT)) (fun i =>
        v ← get_inode ip;
        let a := addrs v !!! i in
        if a =? 0 then skip else bfree (dev v) a ;; put_inode ip (set_addrs (<[i := 0]> (addrs v)) v))
    (fun k s' => freed s (nz (take k (addrs v))) s' /\ icache s' = <[ip := cut k v]> (icache s)) s) as W.
  rewrite length_seq in W. apply W; clear W.
  - split; [apply freed_nil, F|]. unfold cut. rewrite drop_0. cbn [replicate app]. symmetry. apply list_insert_id.
    rewrite Hv. destruct v; reflexivity.
  - intros k x s' Hx [Fr Ic]. apply lookup_seq in Hx as [-> Hk]. change (Z.to_nat NDIRECT) with 12%nat in Hk. rewrite Nat.add_0_l.
    apply wp_bind. eapply wp_get_inode; [rewrite Ic; apply list_lookup_insert_eq, Hip|]. cbn zeta.
    rewrite cut_nth by lia. set (a := addrs v !!! k). assert (Ha : addrs v !! k = Some a) by (apply list_lookup_lookup_total_lt; lia).
    rewrite (take_S_r _ _ _ Ha), nz_snoc. destruct (a =? 0) eqn:E0.
    + apply Z.eqb_eq in E0. wp_step. split; [exact Fr|]. rewrite Ic. f_equal. symmetry. apply cut_zero. rewrite Ha, E0. reflexivity.
    + apply Z.eqb_neq in E0. cbn [dev cut set_addrs]. rewrite (ow_dev _ _ _ O).
      assert (Hs : slots s v !! k = Some a).
      { unfold slots. rewrite lookup_app_l, lookup_take_lt by (rewrite ?length_take, ?Hlen; change (Z.to_nat NDIRECT) with 12%nat; lia). exact Ha. }
      assert (Hin : a ∈ pointers s v) by (right; eapply list_elem_of_lookup_2, Hs).
      destruct (ow_used _ _ _ O a Hin E0) as [Hr Hu]. apply wp_bind.
      apply (wp_free_one s (nz (take k (addrs v))) s' a _ F Fr Hr Hu).
      * intros Hb. apply list_elem_of_filter in Hb as [_ Hb]. apply elem_of_take in Hb as (j & Hj & Hlt).
        assert (Hsj : slots s v !! j = Some a).
        { unfold slots. rewrite lookup_app_l, lookup_take_lt by (rewrite ?length_take, ?Hlen; change (Z.to_nat NDIRECT) with 12%nat; lia). exact Hj. }
        pose proof (ow_distinct _ _ _ O (Datatypes.S j) (Datatypes.S k) a Hsj Hs E0). lia.
      * intros Fr'. apply wp_put_inode. split; [apply freed_inode, Fr'|]. cbn. rewrite Ic, list_insert_insert_eq. f_equal.
        apply cut_S; [exact Hlen|exact Hk].
Qed.

Lemma slots_take12 s v : owns ds s v -> take 12 (slots s v) = take 12 (addrs v).
Proof.
  intros O. unfold slots. change (Z.to_nat NDIRECT) with 12%nat. rewrite take_app_le, take_take by (rewrite length_take, (ow_length _ _ _ O); lia).
  reflexivity.
Qed.

Lemma slot_not_before s v k b : owns ds s v -> slots s v !! k = Some b -> b <> 0 -> b ∉ nz (take k (slots s v)).
Proof.
  intros O Hk Hb. apply distinct_before; [|exact Hk|exact Hb]. intros i j x Hi Hj Hx.
  pose proof (ow_distinct _ _ _ O (Datatypes.S i) (Datatypes.S j) x Hi Hj Hx). lia.
Qed.

Lemma wp_trunc_indirect s s1 v : formatted ds s -> owns ds s v -> ind v <> 0 -> freed s (nz (take 12 (slots s v))) s1 ->
  wp (forM (seq 0 (Z.to_nat NINDIRECT)) (fun j =>
        let e := word (4 * j) (blk s (ind v)) in if e =? 0 then skip else bfree 1 e))
    (fun _ s' => freed s (nz (slots s v)) s' /\ icache s' = icache s1) s1.
Proof.
  intros F O Hi Fr1. pose proof (length_slots ds s v O) as Hls.
  pose proof (wp_forM (seq 0 (Z.to_nat NINDIRECT)) (fun j =>
        let e := word (4 * j) (blk s (ind v)) in if e =? 0 then skip else bfree 1 e)
    (fun k s' => freed s (nz (take (12 + k) (slots s v))) s' /\ icache s' = icache s1) s1) as W.
  rewrite length_seq in W. eapply wp_mono; [apply W; clear W|].
  - split; [exact Fr1|reflexivity].
  - intros k x s' Hx [Fr Ic]. apply lookup_seq in Hx as [-> Hk]. change (Z.to_nat NINDIRECT) with 128%nat in Hk. rewrite Nat.add_0_l. cbn zeta.
    pose proof (slots_indirect ds s v k O Hk) as Es. rewrite (proj2 (Z.eqb_neq _ _) Hi) in Es. rewrite <- Es.
    assert (Ha : slots s v !! (12 + k)%nat = Some (slots s v !!! (12 + k)%nat)) by (apply list_lookup_lookup_total_lt; lia).
    set (a := slots s v !!! (12 + k)%nat) in *. replace (12 + Datatypes.S k)%nat with (Datatypes.S (12 + k)) by lia.
    rewrite (take_S_r _ _ _ Ha), nz_snoc. destruct (a =? 0) eqn:E0; [wp_step; split; assumption|]. apply Z.eqb_neq in E0.
    destruct (ow_used _ _ _ O a) as [Hr Hu]; [right; eapply list_elem_of_lookup_2, Ha|exact E0|].
    apply (wp_free_one s (nz (take (12 + k) (slots s v))) s' a _ F Fr Hr Hu); [exact (slot_not_before s v _ a O Ha E0)|].
    intros Fr'. split; [exact Fr'|exact Ic].
  - intros [] s'. change (12 + Z.to_nat NINDIRECT)%nat with 140%nat. rewrite take_ge by lia. auto.
Qed.

(** The inode of an empty file. *)
Definition emptied (v : inode) : inode := set_size 0 (set_addrs (replicate 13 0) v).

Lemma nz_ind s v : owns ds s v -> ind v = 0 -> nz (slots s v) = nz (take 12 (slots s v)).
Proof.
  intros O Hi. rewrite (slots_take12 s v O). unfold slots. rewrite Hi, Z.eqb_refl. unfold nz. rewrite filter_app.
  change (Z.to_nat NDIRECT) with 12%nat. rewrite <- (app_nil_r (filter _ (take 12 (addrs v)))) at 2. f_equal.
Qed.

Lemma cut_12 v : length (addrs v) = 13%nat -> addrs (cut 12 v) = replicate 12 0 ++ [ind v].
Proof.
  intros Hl. unfold cut, ind. cbn [addrs set_addrs]. f_equal. change (Z.to_nat NDIRECT) with 12%nat.
  rewrite (drop_S _ (addrs v !!! 12%nat)) by (apply list_lookup_lookup_total_lt; lia). rewrite drop_ge by lia. reflexivity.
Qed.

(** Everything [itrunc] does before it writes the inode back. *)
Lemma wp_itrunc s ip v (Q : unit -> fs -> Prop) : formatted ds s -> owns ds s v -> icache s !! ip = Some v -> 0 <= inum v < ninodes (sb s) ->
  (forall s', freed s (nz (pointers s v)) s' -> icache s' = <[ip := emptied v]> (icache s) ->
     wp (iupdate ip) Q s') -> wp (itrunc ip) Q s.
Proof.
  intros F O Hv Hin HQ. pose proof (ow_length _ _ _ O) as Hlen. pose proof (lookup_lt_Some _ _ _ Hv) as Hip.
  unfold itrunc. apply wp_bind. eapply wp_mono; [apply (wp_trunc_direct s ip v F O Hv)|]. intros [] s1 [Fr1 Ic1].
  rewrite <- (slots_take12 s v O) in Fr1. pose proof (meta_bounds ds s F) as Hm.
  apply wp_bind. eapply wp_get_inode; [rewrite Ic1; apply list_lookup_insert_eq, Hip|]. cbn zeta.
  assert (E12 : addrs (cut 12 v) !!! Z.to_nat NDIRECT = ind v) by (rewrite cut_12 by exact Hlen; reflexivity).
  rewrite E12. apply wp_bind. destruct (ind v =? 0) eqn:E0.
  - apply Z.eqb_eq in E0. wp_step. apply wp_bind. eapply wp_get_inode; [rewrite Ic1; apply list_lookup_insert_eq, Hip|].
    apply wp_bind, wp_put_inode, HQ.
    + apply freed_inode. unfold pointers, nz. rewrite E0, filter_cons_False by lia. fold (nz (slots s v)). rewrite nz_ind by assumption. exact Fr1.
    + cbn. rewrite Ic1, list_insert_insert_eq. f_equal. unfold emptied, set_size, set_addrs. f_equal.
      change (addrs (cut 12 v) = replicate 13 0). rewrite cut_12, E0 by exact Hlen. reflexivity.
  - apply Z.eqb_neq in E0. change (dev (cut 12 v)) with (dev v). rewrite (ow_dev _ _ _ O).
    destruct (ow_used _ _ _ O (ind v) ltac:(left) E0) as [Hr Hu].
    apply wp_bind, (wp_fs_bread ds); [apply Fr1|rewrite (fr_sb _ _ _ Fr1); lia|]. rewrite (fr_blk _ _ _ Fr1) by lia.
    apply wp_bind. eapply wp_mono; [apply (wp_trunc_indirect s s1 v F O E0 Fr1)|]. intros [] s2 [Fr2 Ic2].
    apply wp_bind. apply (wp_free_one s (nz (slots s v)) s2 (ind v) _ F Fr2 Hr Hu).
    + intros Hb. apply list_elem_of_filter in Hb as [_ Hb]. apply list_elem_of_lookup in Hb as [k Hk].
      pose proof (ow_distinct _ _ _ O 0%nat (Datatypes.S k) (ind v) eq_refl Hk E0). lia.
    + intros Fr3. apply wp_put_inode. apply wp_bind.
      eapply wp_get_inode; [cbn; apply list_lookup_insert_eq; rewrite Ic2, Ic1, length_insert; exact Hip|].
      apply wp_bind, wp_put_inode, HQ.
      * apply freed_inode, freed_inode. destruct Fr3 as [G1 G2 G3 G4]. constructor; try assumption. intros c Hc. rewrite (G4 c Hc). f_equal.
        apply bool_decide_ext. unfold pointers, nz. rewrite filter_cons_True by exact E0. rewrite not_elem_of_app, !not_elem_of_cons.
        pose proof (not_elem_of_nil c). tauto.
      * cbn. rewrite Ic2, Ic1, !list_insert_insert_eq. f_equal. unfold emptied, set_size, set_addrs. f_equal.
        change (<[Z.to_nat NDIRECT := 0]> (addrs (cut 12 v)) = replicate 13 0). rewrite cut_12 by exact Hlen. reflexivity.
Qed.
End free.
End FreeFacts.

Module FreeProps.
Import Fs FsFacts FreeFacts.

(** C15: Truncation.  [itrunc] of a file returns (no block is freed twice and none that is free);
    afterwards exactly the blocks of the file, its indirect block included, are free in the
    map in addition to those that were, the file is empty in memory and on the disk, no other inode
    on the disk has changed, and every other file that shares no block with it has the content it had. *)
Theorem itrunc_frees ds s ip v : formatted ds s -> owns ds s v -> icache s !! ip = Some v -> 0 <= inum v < ninodes (sb s) ->
  wp (itrunc ip) (fun _ s' => formatted ds s' /\ sb s' = sb s /\
    icache s' = <[ip := emptied v]> (icache s) /\ dinode s' (inum v) = encode_dinode (emptied v) /\
    (forall c, 0 <= c < size (sb s) -> used s' c = used s c && negb (bool_decide (c <> 0 /\ c ∈ pointers s v))) /\
    (forall j, 0 <= j < ninodes (sb s) -> j <> inum v -> dinode s' j = dinode s j) /\
    (forall w, regular ds s w -> disjoint s v w -> regular ds s' w /\ content s' w = content s w)) s.
Proof.
  intros F O Hv Hi. pose proof (lookup_lt_Some _ _ _ Hv) as Hip. apply (wp_itrunc ds s ip v _ F O Hv Hi). intros s1 Fr Ic.
  pose proof (meta_bounds ds s F) as Hm.
  apply (wp_iupdate ds s1 ip (emptied v)); [apply Fr|rewrite Ic; apply list_lookup_insert_eq, Hip|apply O|rewrite (fr_sb _ _ _ _ Fr); exact Hi|reflexivity|].
  intros s2 F2 B2 I2 D2 O2 K2 U2. rewrite (fr_sb _ _ _ _ Fr) in *.
  split; [exact F2|]. split; [exact B2|]. split; [rewrite I2; exact Ic|]. split; [exact D2|]. split; [|split].
  - intros c Hc. rewrite U2 by exact Hc. rewrite (fr_used _ _ _ _ Fr) by exact Hc. rewrite andb_comm. f_equal.
    rewrite <- bool_decide_not. apply bool_decide_ext. unfold nz. rewrite list_elem_of_filter. tauto.
  - intros j Hj Hne. rewrite O2 by (try exact Hj; exact Hne). unfold dinode. rewrite (fr_sb _ _ _ _ Fr).
    destruct (iblock_range ds s j F Hj) as [Hr _]. rewrite (fr_blk _ _ _ _ Fr) by lia. reflexivity.
  - intros w Rw D. apply (kept_file ds s s2 w F B2); [|exact Rw|].
    + intros c Hc. rewrite K2 by exact Hc. apply (fr_blk _ _ _ _ Fr); lia.
    + intros c Hc Hc0. destruct (ow_used _ _ _ (rg_owns _ _ _ Rw) c Hc Hc0) as [Hr Hu]. rewrite U2 by lia.
      rewrite (fr_used _ _ _ _ Fr) by lia. rewrite Hu, bool_decide_eq_true_2; [reflexivity|].
      intros Hin. apply list_elem_of_filter in Hin as [_ Hin]. exact (D c Hc0 Hin Hc).
Qed.

Lemma itrunc_frees_witness : exists s', itrunc 0 FsProps.tiny = Ok (tt, s') /\ used s' 4 = false /\ used s' 3 = true /\
  icache s' = [emptied FsProps.tiny_file].
Proof.
  destruct (itrunc_frees 4 FsProps.tiny 0 FsProps.tiny_file) as ([] & s' & E & _ & _ & H1 & _ & H2 & _).
  - exact FsProps.tiny_formatted.
  - exact (rg_owns _ _ _ FsProps.tiny_regular).
  - reflexivity.
  - cbn. lia.
  - exists s'. split; [exact E|]. rewrite !H2 by (cbn; lia). split; [|split; [|exact H1]].
    + rewrite bool_decide_eq_true_2; [apply andb_false_r|]. split; [lia|]. right. left.
    + rewrite bool_decide_eq_false_2; [reflexivity|]. intros [_ Hin].
      change (pointers FsProps.tiny FsProps.tiny_file) with (0 :: 4 :: replicate 139 0) in Hin.
      apply elem_of_cons in Hin as [Hin|Hin]; [lia|]. apply elem_of_cons in Hin as [Hin|Hin]; [lia|].
      apply elem_of_replicate in Hin as [Hin _]. lia.
Defined.
End FreeProps.
