(* ===== verification/FileIO.v ===== *)
(** Reading and writing open files: [filestat], [fileread] and [filewrite] of file.c with the
    system calls of sysfile.c that call them, over the file table (File.v), pipes (Pipe.v), the file
    system (Fs.v), the entropy pools (Entropy.v) and the brackets of the log (Log.v).

    Between [begin_op] and [end_op] the blocks are those of the buffer cache; when the last
    outstanding operation ends they become durable together (Log.v).  The state keeps the file
    systems that became durable so, in order; of each only the blocks and the superblock matter,
    the cached inodes are memory. *)

From stdpp Require Import gmap.
From S2P Require Import Prelude Spinlock Kernel Entropy File Pipe Fs FsFree Log.

Module FileIO.
Import Kernel Entropy Fs.

(** entropyacc.h *)
Definition READ_DATA : Z := 5.
Definition READ_TIMING : Z := 6.
Definition WRITE_DATA : Z := 7.
Definition WRITE_TIMING : Z := 8.

(** The two static counters of [fileread], and of [filewrite]. *)
Record collector := Collector { pool : Z; operations : Z }.

Record state := State {
  fsys : fs;
  files : File.sys;
  pipes : gmap Z Pipe.state;
  kern : kstate;
  reads : collector;
  writes : collector;
  outstanding : Z;
  commits : list fs;
}.
Definition set_fsys (x : fs) (s : state) : state :=
  State x (files s) (pipes s) (kern s) (reads s) (writes s) (outstanding s) (commits s).
Definition set_files (x : File.sys) (s : state) : state :=
  State (fsys s) x (pipes s) (kern s) (reads s) (writes s) (outstanding s) (commits s).
Definition set_pipes (x : gmap Z Pipe.state) (s : state) : state :=
  State (fsys s) (files s) x (kern s) (reads s) (writes s) (outstanding s) (commits s).
Definition set_kern (x : kstate) (s : state) : state :=
  State (fsys s) (files s) (pipes s) x (reads s) (writes s) (outstanding s) (commits s).
Definition set_reads (x : collector) (s : state) : state :=
  State (fsys s) (files s) (pipes s) (kern s) x (writes s) (outstanding s) (commits s).
Definition set_writes (x : collector) (s : state) : state :=
  State (fsys s) (files s) (pipes s) (kern s) (reads s) x (outstanding s) (commits s).

(** Code of a component, run inside the whole state. *)
Definition zoom {S A} (get : state -> S) (set : S -> state -> state) (m : K S A) : K state A := fun s =>
  '(a, x) ← m (get s);
  Ok (a, set x s).
Definition on_fs {A} (m : K fs A) : K state A := zoom fsys set_fsys m.
Definition on_files {A} (m : K File.sys A) : K state A := zoom files set_files m.
Definition on_kern {A} (m : K kstate A) : K state A := zoom kern set_kern m.
Definition on_pipe {A} (p : Z) (f : Pipe.state -> A * Pipe.state) : K state A :=
  ps ← gets pipes;
  x ← lift_opt "pipe pointer" (ps !! p);
  let '(a, x') := f x in
  modify (set_pipes (<[p := x']> ps)) ;; mret a.

(** ** The log's brackets *)

Definition begin_op : K state unit := modify (fun s =>
  State (fsys s) (files s) (pipes s) (kern s) (reads s) (writes s) (outstanding s + 1) (commits s)).
Definition end_op : K state unit := modify (fun s =>
  State (fsys s) (files s) (pipes s) (kern s) (reads s) (writes s) (outstanding s - 1)
    (if outstanding s - 1 =? 0 then commits s ++ [fsys s] else commits s)).

(** ** file.c *)

(** The collection of entropy at the start of [fileread] and [filewrite]; [buf] is what [addr]
    points to. *)
Definition sample (data timing p : Z) (buf : list Z) (n : Z) : K kstate unit :=
  acquire_ Ltick ;;
  addRandomEvent data p (Some buf) n ;;
  t ← gets (fun s => ticks (clock s));
  addRandomEvent timing p (Some (le_bytes 4 t)) 4 ;;
  release_ Ltick.
Definition collect (data timing : Z) (buf : list Z) (n : Z) (c : collector) : K kstate collector :=
  let ops := u32 (operations c + 1) in
  if 10 <? ops then sample data timing (pool c mod MAX_POOLS) buf n ;; mret (Collector (u32 (pool c + 1)) 0)
  else mret (Collector (pool c) ops).

(** [f->off += r] *)
Definition advance (r : Z) (f : File.file) : File.file :=
  File.MkFile (File.f_type f) (File.ref f) (File.readable f) (File.writable f) (File.pipe f) (File.ip f) (u32 (File.off f + r)).
Definition put_file (f : nat) (v : File.file) : K state unit := on_files (File.put_file f v).

Definition filestat (f : nat) : K state (option stat) :=
  v ← on_files (File.get_file f);
  match File.f_type v with
  | File.FD_INODE =>
      let ip := Z.to_nat (File.ip v) in
      on_fs (ilock ip) ;;
      st ← on_fs (stati ip);
      on_fs (iunlock ip) ;;
      mret (Some st)
  | _ => mret None
  end.

Section devices.
Context (devread : Z -> option (nat -> Z -> K fs (option (list Z)))).
Context (devwrite : Z -> option (nat -> list Z -> K fs (option Z))).

Definition fileread (me : nat) (killed : bool) (f : nat) (buf : list Z) (n : Z) : K state Pipe.rresult :=
  c ← gets reads;
  c ← on_kern (collect READ_DATA READ_TIMING buf n c);
  modify (set_reads c) ;;
  v ← on_files (File.get_file f);
  if negb (File.readable v) then mret Pipe.RError
  else match File.f_type v with
  | File.FD_PIPE => on_pipe (File.pipe v) (Pipe.piperead me killed n)
  | File.FD_INODE =>
      let ip := Z.to_nat (File.ip v) in
      on_fs (ilock ip) ;;
      r ← on_fs (readi devread ip (File.off v) (u32 n));
      match r with
      | Some ((_ :: _) as bs) => put_file f (advance (Z.of_nat (length bs)) v)
      | _ => skip
      end ;;
      on_fs (iunlock ip) ;;
      mret match r with Some bs => Pipe.RBytes bs | None => Pipe.RError end
  | File.FD_NONE => panic "fileread"
  end.

Definition max : Z := ((Log.LOGSIZE - 1 - 1 - 2) / 2) * 512.

(** One round: the operation that writes [src] at the offset of the file. *)
Definition write_op (f : nat) (src : list Z) : K state (option Z) :=
  begin_op ;;
  v ← on_files (File.get_file f);
  let ip := Z.to_nat (File.ip v) in
  on_fs (ilock ip) ;;
  r ← on_fs (writei devwrite ip src (File.off v));
  match r with
  | Some r => if 0 <? r then put_file f (advance r v) else skip
  | None => skip
  end ;;
  on_fs (iunlock ip) ;;
  end_op ;;
  mret r.

(** The loop; it returns [i]. *)
Fixpoint write_rounds (fuel : nat) (f : nat) (buf : list Z) (n i : Z) : K state Z :=
  if n <=? i then mret i
  else match fuel with
  | O => fault "out of fuel"
  | S fuel =>
      let n1 := if max <? n - i then max else n - i in
      if Z.of_nat (length buf) <? i + n1 then fault "read beyond the buffer"
      else
        r ← write_op f (window (Z.to_nat i) (Z.to_nat n1) buf);
        match r with
        | None => mret i
        | Some r => if negb (r =? n1) then panic "short filewrite" else write_rounds fuel f buf n (i + r)
        end
  end.

Definition filewrite (me : nat) (killed : bool) (f : nat) (buf : list Z) (n : Z) : K state Pipe.wresult :=
  c ← gets writes;
  c ← on_kern (collect WRITE_DATA WRITE_TIMING buf n c);
  modify (set_writes c) ;;
  v ← on_files (File.get_file f);
  if negb (File.writable v) then mret (Pipe.WError buf)
  else match File.f_type v with
  | File.FD_PIPE => on_pipe (File.pipe v) (Pipe.pipewrite me killed (take (Z.to_nat n) buf))
  | File.FD_INODE =>
      i ← write_rounds (Z.to_nat n) f buf n 0;
      mret (if i =? n then Pipe.WDone else Pipe.WError (drop (Z.to_nat i) buf))
  | File.FD_NONE => panic "filewrite"
  end.

(** ** sysfile.c *)

(** [fd] and [n] are what [argint] fetched, [buf] what the pointer that [argptr] accepted points
    to, if it accepted one. *)
Definition sys_read (me : nat) (killed : bool) (fd n : Z) (buf : option (list Z)) : K state Pipe.rresult :=
  r ← on_files (File.argfd me fd);
  match r, buf with
  | Some (_, f), Some buf => fileread me killed f buf n
  | _, _ => mret Pipe.RError
  end.

Definition sys_write (me : nat) (killed : bool) (fd n : Z) (buf : option (list Z)) : K state Pipe.wresult :=
  r ← on_files (File.argfd me fd);
  match r, buf with
  | Some (_, f), Some buf => filewrite me killed f buf n
  | _, _ => mret (Pipe.WError [])
  end.

Definition sys_fstat (me : nat) (fd : Z) (buf : option (list Z)) : K state (option stat) :=
  r ← on_files (File.argfd me fd);
  match r, buf with
  | Some (_, f), Some _ => filestat f
  | _, _ => mret None
  end.
End devices.

(** ** What select asks of a file *)

(** The dispatch on the kind of file that the four functions share. *)
Definition by_type (f : nat) (on_pipe_file : Z -> K state Z) (on_inode : nat -> K fs Z) : K state Z :=
  v ← on_files (File.get_file f);
  match File.f_type v with
  | File.FD_PIPE => on_pipe_file (File.pipe v)
  | File.FD_INODE => on_fs (on_inode (Z.to_nat (File.ip v)))
  | File.FD_NONE => mret (-1)
  end.

Section select.
Context (devreadable devwriteable devselect devclrsel : Z -> option (nat -> K fs Z)).

Definition filewriteable (killed : bool) (f : nat) : K state Z :=
  by_type f (fun p => on_pipe p (fun x => (Pipe.pipewriteable killed (Pipe.the_pipe x), x))) (writeablei devwriteable).
Definition filereadable (killed : bool) (f : nat) : K state Z :=
  by_type f (fun p => on_pipe p (fun x => (Pipe.pipereadable killed (Pipe.the_pipe x), x))) (readablei devreadable).
(** [me] is the process whose [selid] and [selectlock] the pointers are to. *)
Definition fileselect (me : nat) (selid : Z) (f : nat) : K state Z :=
  by_type f (fun p => on_pipe p (fun x => (0, Pipe.set_pipe (Pipe.pipeselect me selid (Pipe.the_pipe x)) x))) (selecti devselect).
Definition fileclrsel (me : nat) (selid : Z) (f : nat) : K state Z :=
  by_type f (fun p => on_pipe p (fun x => (0, Pipe.set_pipe (Pipe.pipeclrsel me selid (Pipe.the_pipe x)) x))) (clrseli devselect devclrsel).
End select.
End FileIO.

Module FileIOFacts.
Import Kernel KernelFacts Entropy EntropyFacts Fs FsFacts FileIO.

Lemma wp_zoom {S A} (get : state -> S) set (m : K S A) (Q : A -> state -> Prop) s :
  wp m (fun a x => Q a (set x s)) (get s) -> wp (zoom get set m) Q s.
Proof. intros (a & x & E & H). exists a, (set x s). unfold zoom. rewrite E. auto. Qed.

(** ** Select *)

Section select.
Context (dr dw ds dc : Z -> option (nat -> K fs Z)).
#[local] Existing Instance SysSelect.pipe_selectable.

Lemma wp_file_of f fl (Q : File.file -> File.sys -> Prop) t : File.ftable t !! f = Some fl -> Q fl t -> wp (File.get_file f) Q t.
Proof. intros Hf HQ. exists fl, t. split; [|exact HQ]. unfold File.get_file, lift_opt. rewrite Hf. reflexivity. Qed.

Lemma wp_pipe_file f fl x g h (Q : Z -> state -> Prop) st : File.ftable (files st) !! f = Some fl -> File.f_type fl = File.FD_PIPE ->
  pipes st !! File.pipe fl = Some x ->
  Q (fst (g x)) (set_pipes (<[File.pipe fl := snd (g x)]> (pipes st)) st) ->
  wp (by_type f (fun p => on_pipe p g) h) Q st.
Proof.
  intros Hf Ht Hx HQ. unfold by_type. apply wp_bind, wp_zoom. eapply wp_file_of; [exact Hf|]. rewrite Ht.
  unfold on_pipe. apply wp_bind, wp_gets, wp_bind. eapply wp_lift_opt; [destruct st; exact Hx|]. destruct st, (g x). apply wp_bind, wp_modify, wp_ret, HQ.
Qed.

(** On a file that is a pipe, the questions do not change it and their answers are those of pipe.c, which
    [sys_select] is verified with; asking for a wakeup and taking it back change only its wait lists. *)
Lemma pipe_file_select f fl x me selid st : File.ftable (files st) !! f = Some fl -> File.f_type fl = File.FD_PIPE ->
  pipes st !! File.pipe fl = Some x -> let p := Pipe.the_pipe x in
  filereadable dr false f st = Ok (SysSelect.filereadable p, st) /\ filewriteable dw false f st = Ok (SysSelect.filewriteable p, st) /\
  fileselect ds me selid f st = Ok (0, set_pipes (<[File.pipe fl := Pipe.set_pipe (SysSelect.fileselect me selid p) x]> (pipes st)) st) /\
  fileclrsel ds dc me selid f st = Ok (0, set_pipes (<[File.pipe fl := Pipe.set_pipe (SysSelect.fileclrsel me selid p) x]> (pipes st)) st).
Proof.
  intros Hf Ht Hx p.
  assert (W : forall g h r s', r = fst (g x) -> s' = set_pipes (<[File.pipe fl := snd (g x)]> (pipes st)) st -> by_type f (fun p => on_pipe p g) h st = Ok (r, s')).
  { intros g h r s' -> ->. destruct (wp_pipe_file f fl x g h (fun r s' => r = fst (g x) /\ s' = set_pipes (<[File.pipe fl := snd (g x)]> (pipes st)) st) st Hf Ht Hx) as (r & s' & E & -> & ->); auto. }
  assert (Est : st = set_pipes (<[File.pipe fl := x]> (pipes st)) st) by (rewrite insert_id by exact Hx; destruct st; reflexivity).
  split; [apply W; [reflexivity|exact Est]|]. split; [apply W; [reflexivity|exact Est]|]. split; apply W; reflexivity.
Qed.

(** A file that is neither a pipe nor a device has nothing to wait for: the answer is -1. *)
Lemma plain_file_select f fl v me selid st : File.ftable (files st) !! f = Some fl -> File.f_type fl = File.FD_INODE ->
  icache (fsys st) !! Z.to_nat (File.ip fl) = Some v -> itype v <> T_DEV ->
  filereadable dr false f st = Ok (-1, st) /\ filewriteable dw false f st = Ok (-1, st) /\
  fileselect ds me selid f st = Ok (-1, st) /\ fileclrsel ds dc me selid f st = Ok (-1, st).
Proof.
  intros Hf Ht Hv Hd.
  assert (W : forall g t, by_type f g (devcall t) st = Ok (-1, st)).
  { intros g t. destruct (wp_bind (on_files (File.get_file f)) (fun v => match File.f_type v with File.FD_PIPE => g (File.pipe v) | File.FD_INODE => on_fs (devcall t (Z.to_nat (File.ip v))) | File.FD_NONE => mret (-1) end) (fun r s' => r = -1 /\ s' = st) st) as (r & s' & E & -> & ->); [|exact E].
    apply wp_zoom. eapply wp_file_of; [exact Hf|]. rewrite Ht. apply wp_zoom. unfold devcall. apply wp_bind.
    exists v, (fsys st). split; [unfold get_inode, lift_opt; destruct st; cbn in Hv |- *; rewrite Hv; reflexivity|]. rewrite (proj2 (Z.eqb_neq _ _) Hd). apply wp_ret. destruct st; auto. }
  repeat split; apply W.
Qed.
End select.

(** ** Collecting entropy *)

(** The counters and the streams of the pools after a call. *)
Definition due (c : collector) : bool := 10 <? u32 (operations c + 1).
Definition counted (c : collector) : collector :=
  if due c then Collector (u32 (pool c + 1)) 0 else Collector (pool c) (u32 (operations c + 1)).
Definition collected (data timing t : Z) (buf : list Z) (n : Z) (c : collector) (sts : list (list Z)) : list (list Z) :=
  if due c then
    event timing (pool c mod MAX_POOLS) (Some (le_bytes 4 t)) 4 (event data (pool c mod MAX_POOLS) (Some buf) n sts)
  else sts.

(** The pools hold [sts], [k] more calls keep their sizes in range, and the tick lock is free. *)
Record collecting (k : nat) (s : kstate) (sts : list (list Z)) : Prop := {
  co_pools : pools_ok s sts;
  co_cpu : cpu_ok (k_cpu s);
  co_tick : free_lock (tickslock (clock s));
  co_room : Forall (fun st => Z.of_nat (length st) <= 2 ^ 31 - 1 - 68 * Z.of_nat k) sts;
}.

Lemma collected_room data timing t buf n c sts k :
  Forall (fun st => Z.of_nat (length st) <= 2 ^ 31 - 1 - 68 * Z.of_nat (S k)) sts ->
  Forall (fun st => Z.of_nat (length st) <= 2 ^ 31 - 1 - 68 * Z.of_nat k) (collected data timing t buf n c sts).
Proof.
  intros H. unfold collected. destruct (due c); [|eapply Forall_impl; [exact H|cbv beta; lia]].
  eapply Forall_impl; [eapply event_length, event_length, H|]. cbv beta. lia.
Qed.

Lemma wp_sample data timing p buf n k s sts (Q : unit -> kstate -> Prop) :
  collecting (S k) s sts -> n <= Z.of_nat (length buf) ->
  (forall s', pools_ok s' (event timing p (Some (le_bytes 4 (ticks (clock s)))) 4 (event data p (Some buf) n sts)) ->
     only_pools s s' -> Q tt s') ->
  wp (sample data timing p buf n) Q s.
Proof.
  intros [[P1 P2 P3] Hc Ht Hr] Hn HQ. apply wp_bind. eapply wp_acquire_; [reflexivity|exact Ht|].
  destruct (pushcli_ok _ Hc) as [Hc1 _]. apply wp_bind. apply (wp_addRandomEvent_ok _ _ _ _ _ sts); [split; assumption|exact Hc1| | |].
  { intros d [= <-]. exact Hn. }
  { eapply Forall_impl; [exact Hr|]. cbv beta. lia. }
  intros s1 Hp1 [Hs1 (c1 & ps1 & ->)]. cbn [k_cpu set_pools set_cpu] in Hs1. wp_steps.
  apply (wp_addRandomEvent_ok _ _ _ _ _ (event data p (Some buf) n sts)); [exact Hp1|exact (cpu_same_ok _ _ Hs1 Hc1)| | |].
  { intros d [= <-]. cbn. lia. }
  { eapply Forall_impl; [eapply event_length, Hr|]. cbv beta. lia. }
  intros s2 Hp2 [Hs2 (c2 & ps2 & ->)]. cbn [k_cpu set_pools set_cpu] in Hs2.
  eapply (wp_release_ _ (name (tickslock (clock s))) (k_cpu s)); [reflexivity|exact Hc|exact (cpu_same_trans _ _ _ Hs1 Hs2)|].
  intros c3 Hs3. rewrite <- (free_lock_eta _ Ht). apply HQ; [destruct Hp2 as [A1 A2 A3]; split; assumption|].
  split; [exact Hs3|]. exists c3, ps2. destruct s as [? ? ? ? ? []]; reflexivity.
Qed.

Lemma wp_collect data timing buf n c k s sts : collecting (S k) s sts -> n <= Z.of_nat (length buf) ->
  wp (collect data timing buf n c) (fun c' s' => c' = counted c /\
    collecting k s' (collected data timing (ticks (clock s)) buf n c sts) /\ only_pools s s') s.
Proof.
  intros C Hn. pose proof (collected_room data timing (ticks (clock s)) buf n c sts k (co_room _ _ _ C)) as Hr.
  unfold collect, counted. revert Hr. unfold collected. fold (due c). destruct (due c); intros Hr.
  - apply wp_bind, (wp_sample _ _ _ _ _ k s sts _ C Hn). intros s' Hp [Hs (c1 & ps & ->)]. wp_step.
    split; [reflexivity|]. split; [|split; [exact Hs|exists c1, ps; reflexivity]].
    split; [exact Hp|exact (cpu_same_ok _ _ Hs (co_cpu _ _ _ C))|exact (co_tick _ _ _ C)|exact Hr].
  - wp_step. split; [reflexivity|]. split; [split; [apply C|apply C|apply C|exact Hr]|].
    split; [apply cpu_same_refl|]. exists (k_cpu s), (pools s). destruct s; reflexivity.
Qed.

(** ** Blocks that a write touches *)

Lemma touched_mono off n off' n' k : 0 <= off -> off <= off' -> off' + n' <= off + n -> k ∈ touched off' n' -> k ∈ touched off n.
Proof.
  intros H0 Ho Hn. unfold touched. destruct (n' <=? 0) eqn:E'; [intros H; inversion H|]. apply Z.leb_gt in E'.
  rewrite (proj2 (Z.leb_gt n 0)) by lia. rewrite !elem_of_seq. pose proof (Z.div_le_mono off off' BSIZE ltac:(reflexivity) Ho).
  pose proof (Z.div_le_mono (off' + n' - 1) (off + n - 1) BSIZE ltac:(reflexivity) ltac:(lia)).
  pose proof (Z.div_pos off BSIZE H0 ltac:(reflexivity)). pose proof (Z.div_le_mono off' (off' + n' - 1) BSIZE ltac:(reflexivity) ltac:(lia)). lia.
Qed.

Lemma lacking_mono s v ks ks' : NoDup ks -> (forall k, k ∈ ks -> k ∈ ks') -> (lacking s v ks <= lacking s v ks')%nat.
Proof.
  intros Hn Hk. unfold lacking. apply submseteq_length, NoDup_submseteq; [apply NoDup_filter, Hn|].
  intros k. rewrite !list_elem_of_filter. intros [Hz Hin]. auto.
Qed.

(** ** Overwriting *)

Definition overwrite (off : Z) (src c : list Z) : list Z := take (Z.to_nat off) c ++ src ++ drop (Z.to_nat off + length src) c.

Lemma overwrite_nil off c : overwrite off [] c = c.
Proof. unfold overwrite. cbn [length app]. rewrite Nat.add_0_r. apply take_drop. Qed.

Lemma overwrite_app off a b c : 0 <= off <= Z.of_nat (length c) ->
  overwrite (off + Z.of_nat (length a)) b (overwrite off a c) = overwrite off (a ++ b) c.
Proof.
  intros Ho. unfold overwrite. rewrite Z2Nat.inj_add, Nat2Z.id by lia. set (o := Z.to_nat off).
  assert (Hl : length (take o c) = o) by (rewrite length_take; lia).
  rewrite take_app_ge, Hl by lia. replace (o + length a - o)%nat with (length a) by lia. rewrite take_app_length.
  rewrite <- !app_assoc. do 3 f_equal. rewrite drop_app_ge by lia. rewrite Hl, drop_app_ge, drop_drop by lia.
  rewrite length_app. f_equal. lia.
Qed.

Lemma length_overwrite off src c : 0 <= off <= Z.of_nat (length c) ->
  Z.of_nat (length (overwrite off src c)) = Z.max (Z.of_nat (length c)) (off + Z.of_nat (length src)).
Proof. intros Ho. unfold overwrite. rewrite !length_app, length_take, length_drop. lia. Qed.

(** ** An inode and its file *)

Section files.
Context (ds : Z).

(** States that differ in the cache of inodes, inodes that differ in their flags. *)
Lemma regular_cached s v ic b va : regular ds s v -> regular ds (MkFs (blocks s) (sb s) ic) (set_flags b va v).
Proof. intros [[O1 O2 O3 O4] R2 R3 R4 R5]. constructor; try assumption. constructor; assumption. Qed.

Lemma formatted_cached s ic : formatted ds s -> formatted ds (MkFs (blocks s) (sb s) ic).
Proof. intros F. destruct F. constructor; assumption. Qed.

(** What writing [src] at [off] does, as far as it does not depend on flags and caches. *)
Record updated (off : Z) (src : list Z) (s : fs) (v : inode) (s' : fs) (v' : inode) : Prop := {
  up_sb : sb s' = sb s;
  up_content : content s' v' = overwrite off src (content s v);
  up_inum : inum v' = inum v;
  up_disk : dinode s (inum v) = encode_dinode v -> dinode s' (inum v) = encode_dinode v';
  up_others : forall j, 0 <= j < ninodes (sb s) -> j <> inum v -> dinode s' j = dinode s j;
  up_files : forall w, regular ds s w -> disjoint s v w -> regular ds s' w /\ content s' w = content s w /\ disjoint s' v' w;
}.

Lemma updated_trans off a b s v s1 v1 s2 v2 : 0 <= off <= isize v ->
  updated off a s v s1 v1 -> updated (off + Z.of_nat (length a)) b s1 v1 s2 v2 -> updated off (a ++ b) s v s2 v2.
Proof.
  intros Ho [A1 A2 A3 A4 A5 A6] [B1 B2 B3 B4 B5 B6]. rewrite A3 in B4, B5. constructor; try congruence.
  - rewrite B2, A2. apply overwrite_app. rewrite length_content; lia.
  - auto.
  - intros j Hj Hne. rewrite B5; [auto|rewrite A1; exact Hj|exact Hne].
  - intros w Rw D. destruct (A6 w Rw D) as (R1 & C1 & D1). destruct (B6 w R1 D1) as (R2 & C2 & D2).
    split; [exact R2|]. split; [congruence|exact D2].
Qed.

Lemma updated_nil off s v : updated off [] s v s v.
Proof. constructor; try reflexivity; [symmetry; apply overwrite_nil|auto|auto]. Qed.

(** What [ilock], [writei] and [iunlock] leave. *)
Lemma wrote_updated ip src off s v s' v' ic0 ic1 b va b' va' : formatted ds s -> regular ds s v ->
  wrote ds ip src off (MkFs (blocks s) (sb s) ic0) (set_flags b va v) s' v' ->
  updated off src s v (MkFs (blocks s') (sb s') ic1) (set_flags b' va' v').
Proof.
  intros F R [W1 W2 W3 W4 W5 W6 W7 W8]. assert (Ei : inum v' = inum v) by (rewrite W5; reflexivity). constructor.
  - exact (ev_sb _ _ _ _ _ W2).
  - exact W4.
  - exact Ei.
  - exact W7.
  - exact W6.
  - intros w Rw D. pose proof (regular_cached s w ic0 (busy w) (valid w) Rw) as Rw'.
    assert (Ew : set_flags (busy w) (valid w) w = w) by (destruct w; reflexivity). rewrite Ew in Rw'.
    destruct (other_file ds _ _ s' v' w W2 (formatted_cached s ic0 F) Rw' D) as (R2 & C2 & D2).
    pose proof (regular_cached s' w ic1 (busy w) (valid w) R2) as R2'. rewrite Ew in R2'. split; [exact R2'|]. split; [exact C2|exact D2].
Qed.
(** ** Open files *)

(** [f] is an open file whose inode [v] nobody holds. *)
Record opened (st : state) (f : nat) (fl : File.file) (v : inode) : Prop := {
  op_file : File.ftable (files st) !! f = Some fl;
  op_type : File.f_type fl = File.FD_INODE;
  op_inode : icache (fsys st) !! Z.to_nat (File.ip fl) = Some v;
  op_idle : busy v = false;
  op_valid : valid v = true;
  op_ref : 1 <= ref v;
  op_formatted : formatted ds (fsys st);
  op_regular : regular ds (fsys st) v;
  op_off : 0 <= File.off fl <= isize v;
}.

Definition put_ftable (f : nat) (fl : File.file) (x : File.sys) : File.sys := File.set_ftable (<[f := fl]> (File.ftable x)) x.

Lemma wp_open_file st f fl (Q : File.file -> state -> Prop) : File.ftable (files st) !! f = Some fl -> Q fl st ->
  wp (on_files (File.get_file f)) Q st.
Proof. intros Hf HQ. apply wp_zoom. eapply wp_lift_opt; [exact Hf|]. destruct st. exact HQ. Qed.

Lemma wp_put_file st f fl (Q : unit -> state -> Prop) : Q tt (set_files (put_ftable f fl (files st)) st) -> wp (put_file f fl) Q st.
Proof. intros HQ. apply wp_zoom, wp_modify. exact HQ. Qed.

Lemma wp_ilock s ip v (Q : unit -> fs -> Prop) : icache s !! ip = Some v -> busy v = false -> valid v = true -> 1 <= ref v ->
  Q tt (with_inode ip (set_flags true true v) s) -> wp (ilock ip) Q s.
Proof.
  intros Hv Hb Hva Hr HQ. unfold ilock. apply wp_bind. eapply wp_get_inode; [exact Hv|].
  rewrite (proj2 (Z.ltb_ge _ _)) by lia. rewrite Hb, Hva. apply wp_bind, wp_put_inode. wp_step. exact HQ.
Qed.

Lemma wp_iunlock s ip v (Q : unit -> fs -> Prop) : icache s !! ip = Some v -> busy v = true -> valid v = true -> 1 <= ref v ->
  Q tt (with_inode ip (set_flags false true v) s) -> wp (iunlock ip) Q s.
Proof.
  intros Hv Hb Hva Hr HQ. unfold iunlock. apply wp_bind. eapply wp_get_inode; [exact Hv|].
  rewrite (proj2 (Z.ltb_ge _ _)) by lia. rewrite Hb, Hva. cbn [negb orb]. apply wp_put_inode. exact HQ.
Qed.

Lemma advance_advance a b fl : advance b (advance a fl) = advance (a + b) fl.
Proof. unfold advance. cbn. unfold u32. rewrite Zplus_mod_idemp_l, Z.add_assoc. reflexivity. Qed.

Lemma advance_off st f fl v r : opened st f fl v -> 0 <= r -> File.off fl + r <= MAXFILE * BSIZE -> File.off (advance r fl) = File.off fl + r.
Proof. intros O Hr Hm. pose proof max_u32. pose proof (op_off _ _ _ _ O). cbn. apply u32_id. unfold is_u32. lia. Qed.

Lemma advance_zero st f fl v : opened st f fl v -> advance 0 fl = fl.
Proof.
  intros O. pose proof (rg_size _ _ _ (op_regular _ _ _ _ O)). pose proof (op_off _ _ _ _ O). pose proof max_u32.
  unfold advance. rewrite Z.add_0_r, u32_id by (unfold is_u32; lia). destruct fl; reflexivity.
Qed.

(** [st'] is [st] with another file system, file [f] moved on, and [cs] committed. *)
Definition moved (st : state) (f : nat) (fl : File.file) (cs : list fs) (st' : state) : Prop :=
  st' = State (fsys st') (put_ftable f fl (files st)) (pipes st) (kern st) (reads st) (writes st) (outstanding st) (commits st ++ cs).

Lemma wp_write_op dw st f fl v src : let n := Z.of_nat (length src) in
  opened st f fl v -> outstanding st = 0 -> 0 < n -> File.off fl + n <= MAXFILE * BSIZE -> Forall is_byte src ->
  (2 * lacking (fsys st) v (touched (File.off fl) n) <= nfree (fsys st))%nat ->
  wp (write_op dw f src) (fun r st' => r = Some n /\ exists v', opened st' f (advance n fl) v' /\
    moved st f (advance n fl) [fsys st'] st' /\
    updated (File.off fl) src (fsys st) v (fsys st') v' /\ room_kept (File.off fl) n (fsys st) v (fsys st') v') st.
Proof.
  intros n O Hout Hn Hmax Hby Hroom. destruct O as [O1 O2 O3 O4 O5 O6 O7 O8 O9] eqn:EO. clear EO. set (ip := Z.to_nat (File.ip fl)) in *.
  pose proof (lookup_lt_Some _ _ _ O3) as Hip.
  unfold write_op. apply wp_bind, wp_modify, wp_bind. eapply wp_open_file; [exact O1|]. cbv zeta. fold ip.
  apply wp_bind, wp_zoom, (wp_ilock _ ip v); try assumption. apply wp_bind, wp_zoom. cbn [fsys set_fsys].
  set (s1 := with_inode ip (set_flags true true v) (fsys st)).
  assert (F1 : formatted ds s1) by (apply formatted_cached, O7).
  assert (R1 : regular ds s1 (set_flags true true v)) by (apply regular_cached, O8).
  assert (V1 : icache s1 !! ip = Some (set_flags true true v)) by (apply list_lookup_insert_eq, Hip).
  eapply wp_mono; [exact (wp_writei ds dw s1 ip _ src (File.off fl) F1 V1 R1 O9 Hmax Hby Hroom)|].
  intros r s2 (-> & v2 & W). fold n. cbv beta iota. rewrite (proj2 (Z.ltb_lt 0 n) Hn). apply wp_bind, wp_put_file. apply wp_bind, wp_zoom.
  pose proof (wo_meta _ _ _ _ _ _ _ _ W) as Hm.
  eapply (wp_iunlock _ ip v2); [|rewrite Hm; reflexivity|rewrite Hm; reflexivity|rewrite Hm; exact O6|].
  { cbn. rewrite (wo_icache _ _ _ _ _ _ _ _ W). apply list_lookup_insert_eq. cbn. rewrite length_insert. exact Hip. }
  apply wp_bind, wp_modify. wp_step. split; [reflexivity|]. exists (set_flags false true v2).
  pose proof (wrote_updated ip src (File.off fl) (fsys st) v s2 v2 _ (<[ip := set_flags false true v2]> (icache s2)) true true false true O7 O8 W) as U.
  split; [|split; [|split; [exact U|exact (wo_room _ _ _ _ _ _ _ _ W)]]].
  - constructor.
    + cbn. apply list_lookup_insert_eq, (lookup_lt_Some _ _ _ O1).
    + exact O2.
    + cbn. rewrite (wo_icache _ _ _ _ _ _ _ _ W). apply list_lookup_insert_eq. cbn. rewrite !length_insert. exact Hip.
    + reflexivity.
    + reflexivity.
    + cbn. rewrite Hm. exact O6.
    + apply formatted_cached, (wo_evolved _ _ _ _ _ _ _ _ W).
    + apply regular_cached, W.
    + rewrite (advance_off st f fl v); [|constructor; assumption|lia|exact Hmax]. cbn.
      pose proof (f_equal (fun l => Z.of_nat (length l)) (up_content _ _ _ _ _ _ U)) as HL. cbn beta in HL.
      pose proof (rg_size _ _ _ (wo_regular _ _ _ _ _ _ _ _ W)) as Hs2.
      rewrite length_overwrite in HL by (rewrite length_content; lia). rewrite !length_content in HL by (cbn; lia). cbn in HL. lia.
  - unfold moved. cbn. rewrite Hout. reflexivity.
Qed.
(** The states committed while [src] is written at [off]: one for each [max] bytes, each with the
    file overwritten by the bytes so far. *)
Record committed (off : Z) (src : list Z) (s : fs) (v : inode) (cs : list fs) : Prop := {
  cm_count : Z.of_nat (length cs) = (Z.of_nat (length src) + max - 1) / max;
  cm_state : forall k sk, cs !! k = Some sk -> exists vk, formatted ds sk /\ regular ds sk vk /\
    updated off (take (Z.to_nat max * (k + 1)) src) s v sk vk;
}.

Lemma committed_nil off s v : committed off [] s v [].
Proof. constructor; [reflexivity|]. intros k sk H. destruct k; discriminate. Qed.

Lemma committed_cons off a b s v s1 v1 cs : formatted ds s1 -> regular ds s1 v1 -> 0 <= off <= isize v ->
  a <> [] -> (length a <= Z.to_nat max)%nat -> (b <> [] -> length a = Z.to_nat max) ->
  updated off a s v s1 v1 -> committed (off + Z.of_nat (length a)) b s1 v1 cs -> committed off (a ++ b) s v (s1 :: cs).
Proof.
  intros F1 R1 Ho Hne Hla Hfull U [C1 C2].
  assert (Hmax : max = 6656) by reflexivity. assert (Hpos : (0 < length a)%nat) by (destruct a; [contradiction|cbn; lia]).
  constructor.
  - rewrite length_app. cbn [length]. rewrite Nat2Z.inj_succ, C1, Nat2Z.inj_add. destruct b as [|x b].
    + cbn [length]. replace ((Z.of_nat 0 + max - 1) / max) with 0 by reflexivity. rewrite Hmax in *.
      apply Z.div_unique with (r := Z.of_nat (length a) - 1); lia.
    + rewrite Hfull by discriminate. rewrite Hmax. change (Z.of_nat (Z.to_nat 6656)) with 6656.
      replace (6656 + Z.of_nat (length (x :: b)) + 6656 - 1) with (Z.of_nat (length (x :: b)) + 6656 - 1 + 1 * 6656) by lia.
      rewrite Z.div_add by lia. lia.
  - intros [|k] sk Hk.
    + injection Hk as <-. exists v1. split; [exact F1|]. split; [exact R1|]. rewrite Nat.add_0_l, Nat.mul_1_r.
      destruct b as [|x b]; [rewrite app_nil_r, take_ge by lia; exact U|]. rewrite take_app_le, take_ge by (rewrite Hfull by discriminate; lia). exact U.
    + cbn in Hk. destruct (C2 k sk Hk) as (vk & Fk & Rk & Uk). exists vk. split; [exact Fk|]. split; [exact Rk|].
      pose proof (lookup_lt_Some _ _ _ Hk) as Hlt. destruct b as [|x b].
      { exfalso. rewrite Hmax in C1. cbn [length] in C1. change ((Z.of_nat 0 + 6656 - 1) / 6656) with 0 in C1. lia. }
      rewrite take_app_ge, Hfull by (rewrite ?Hfull by discriminate; nia || discriminate).
      replace (Z.to_nat max * (S k + 1) - Z.to_nat max)%nat with (Z.to_nat max * (k + 1))%nat by nia.
      eapply updated_trans; eassumption.
Qed.
Lemma moved_moved st f fl1 fl2 cs1 cs2 st1 st2 : moved st f fl1 cs1 st1 -> moved st1 f fl2 cs2 st2 -> moved st f fl2 (cs1 ++ cs2) st2.
Proof.
  intros M1 M2. unfold moved in *. rewrite M1 in M2. cbn in M2. rewrite M2. cbn. unfold put_ftable, File.set_ftable. cbn.
  rewrite list_insert_insert_eq, app_assoc. reflexivity.
Qed.

(** Room for the next rounds is left. *)
Lemma room_next s v s' v' off n m : 0 <= off -> 0 <= m <= n -> room_kept off m s v s' v' ->
  (2 * lacking s v (touched off n) <= nfree s)%nat -> (2 * lacking s' v' (touched (off + m) (n - m)) <= nfree s')%nat.
Proof.
  intros Ho Hm K Hroom.
  pose proof (K (touched off n) (touched_nodup _ _) ltac:(intros k; apply touched_mono; lia)) as H1.
  pose proof (lacking_mono s' v' (touched (off + m) (n - m)) (touched off n) (touched_nodup _ _) ltac:(intros k; apply touched_mono; lia)). lia.
Qed.

Lemma wp_write_rounds dw fuel : forall st f fl v buf i,
  let rest := drop (Z.to_nat i) buf in
  let n := Z.of_nat (length buf) in
  opened st f fl v -> outstanding st = 0 -> 0 <= i <= n -> File.off fl + (n - i) <= MAXFILE * BSIZE -> Forall is_byte buf ->
  (2 * lacking (fsys st) v (touched (File.off fl) (n - i)) <= nfree (fsys st))%nat -> n - i <= Z.of_nat fuel ->
  wp (write_rounds dw fuel f buf n i) (fun r st' => r = n /\ exists v' cs, opened st' f (advance (n - i) fl) v' /\
    moved st f (advance (n - i) fl) cs st' /\ updated (File.off fl) rest (fsys st) v (fsys st') v' /\
    committed (File.off fl) rest (fsys st) v cs) st.
Proof.
  induction fuel as [|fuel IH]; intros st f fl v buf i rest n O Hout Hi Hmax Hby Hroom Hfuel; cbn [write_rounds].
  1: rewrite (proj2 (Z.leb_le _ _)) by lia. 2: destruct (n <=? i) eqn:En.
  1,2: assert (Ei : i = n) by (try apply Z.leb_le in En; lia); wp_step; split; [exact Ei|]; exists v, [];
    unfold rest; rewrite drop_ge by lia; rewrite Ei, Z.sub_diag, (advance_zero _ _ _ _ O); split; [exact O|];
    (split; [|split; [apply updated_nil|apply committed_nil]]); unfold moved, put_ftable;
    rewrite list_insert_id by apply O; rewrite app_nil_r; destruct st as [? []]; reflexivity.
  apply Z.leb_gt in En. set (n1 := if max <? n - i then max else n - i).
  assert (Hn1 : 0 < n1 <= n - i /\ n1 <= max /\ (n1 < n - i -> n1 = max)) by (unfold n1; assert (max = 6656) by reflexivity; destruct (max <? n - i) eqn:E; lia).
  rewrite (proj2 (Z.ltb_ge _ _)) by lia. set (src := window (Z.to_nat i) (Z.to_nat n1) buf).
  assert (Hls : length src = Z.to_nat n1) by (unfold src, window; rewrite length_take, length_drop; lia).
  assert (Er : rest = src ++ drop (Z.to_nat (i + n1)) buf).
  { unfold rest, src, window. rewrite Z2Nat.inj_add, <- drop_drop by lia. symmetry. apply take_drop. }
  pose proof (op_off _ _ _ _ O) as Hoff. apply wp_bind.
  eapply wp_mono; [apply (wp_write_op dw st f fl v src O Hout)|]; rewrite ?Hls, ?Z2Nat.id by lia; try lia.
  { apply Forall_take, Forall_drop, Hby. }
  { etransitivity; [|exact Hroom]. apply Nat.mul_le_mono_l, lacking_mono; [apply touched_nodup|]. intros k. apply touched_mono; lia. }
  intros r st1 (-> & v1 & O1 & M1 & U1 & K1). rewrite Z.eqb_refl. cbn [negb].
  pose proof (advance_off st f fl v n1 O ltac:(lia) ltac:(lia)) as Eo.
  eapply wp_mono; [apply (IH st1 f (advance n1 fl) v1 buf (i + n1) O1)|]; fold n; rewrite ?Eo; try lia; try assumption.
  { rewrite M1. exact Hout. }
  { replace (n - (i + n1)) with (n - i - n1) by lia. apply (room_next (fsys st) v); [lia|lia|exact K1|exact Hroom]. }
  intros r st2 (-> & v2 & cs & O2 & M2 & U2 & C2). split; [reflexivity|]. exists v2, (fsys st1 :: cs).
  rewrite advance_advance in O2, M2. replace (n1 + (n - (i + n1))) with (n - i) in O2, M2 by lia.
  split; [exact O2|]. split; [exact (moved_moved _ _ _ _ [fsys st1] cs _ _ M1 M2)|].
  rewrite Er. replace (File.off fl + n1) with (File.off fl + Z.of_nat (length src)) in U2, C2 by lia.
  split; [eapply updated_trans; eassumption|].
  apply (committed_cons _ _ _ _ _ _ v1); try assumption; try apply O1; try lia.
  - intros E. rewrite E in Hls. cbn in Hls. lia.
  - intros Hne. rewrite Hls. f_equal. apply Hn1. destruct (decide (i + n1 = n)) as [E|]; [|lia].
    exfalso. apply Hne. apply drop_ge. lia.
Qed.
Lemma opened_ext st st' f fl fl' v : opened st f fl v -> fsys st' = fsys st -> File.ftable (files st') !! f = Some fl' ->
  File.f_type fl' = File.f_type fl -> File.ip fl' = File.ip fl -> 0 <= File.off fl' <= isize v -> opened st' f fl' v.
Proof. intros [O1 O2 O3 O4 O5 O6 O7 O8 O9] E1 E2 E3 E4 E5. constructor; rewrite ?E1, ?E3, ?E4; assumption. Qed.

(** [ilock] and [iunlock] around what leaves the file system alone. *)
Lemma lock_unlock st f fl v : opened st f fl v -> let ip := Z.to_nat (File.ip fl) in
  with_inode ip (set_flags false true (set_flags true true v)) (with_inode ip (set_flags true true v) (fsys st)) = fsys st.
Proof.
  intros [O1 O2 O3 O4 O5 O6 O7 O8 O9] ip. unfold with_inode. cbn [icache blocks sb]. rewrite list_insert_insert_eq.
  replace (set_flags false true (set_flags true true v)) with v by (clear -O4 O5; destruct v; cbn in O4, O5; subst; reflexivity).
  rewrite list_insert_id by exact O3. destruct (fsys st); reflexivity.
Qed.

(** The bytes of the next read, and what it leaves. *)
Definition slice (s : fs) (v : inode) (off n : Z) : list Z := take (Z.to_nat n) (drop (Z.to_nat off) (content s v)).

Lemma slice_length s v off n : 0 <= off <= isize v -> 0 <= n -> off + Z.of_nat (length (slice s v off n)) <= isize v.
Proof. intros Ho Hn. unfold slice. pose proof (length_content s v ltac:(lia)). rewrite length_take, length_drop. lia. Qed.

Record has_read (k : nat) (buf : list Z) (st : state) (f : nat) (fl : File.file) (v : inode) (sts : list (list Z)) (bs : list Z) (st' : state) : Prop := {
  hr_opened : opened st' f (advance (Z.of_nat (length bs)) fl) v;
  hr_state : st' = State (fsys st) (put_ftable f (advance (Z.of_nat (length bs)) fl) (files st)) (pipes st) (kern st')
    (counted (reads st)) (writes st) (outstanding st) (commits st);
  hr_events : collecting k (kern st') (collected READ_DATA READ_TIMING (ticks (clock (kern st))) buf (Z.of_nat (length buf)) (reads st) sts);
  hr_kern : only_pools (kern st) (kern st');
}.

Lemma wp_fileread dr me killed st f fl v buf k sts : let n := Z.of_nat (length buf) in
  opened st f fl v -> File.readable fl = true -> collecting (S k) (kern st) sts -> n < 2 ^ 31 ->
  wp (fileread dr me killed f buf n) (fun r st' => let bs := slice (fsys st) v (File.off fl) n in
    r = Pipe.RBytes bs /\ has_read k buf st f fl v sts bs st') st.
Proof.
  intros n O Hr C Hn. set (bs := slice (fsys st) v (File.off fl) n). set (ip := Z.to_nat (File.ip fl)).
  pose proof (op_off _ _ _ _ O) as Hoff. pose proof (rg_size _ _ _ (op_regular _ _ _ _ O)) as Hs. pose proof max_u32 as Hu.
  assert (Hmx : MAXFILE * BSIZE = 71680) by reflexivity.
  pose proof (slice_length (fsys st) v (File.off fl) n Hoff ltac:(lia)) as Hlen. fold bs in Hlen.
  unfold fileread. apply wp_bind. wp_step. apply wp_bind, wp_zoom. eapply wp_mono; [apply (wp_collect _ _ buf n (reads st) k (kern st) sts C); lia|].
  intros c kn (-> & Hk & Ho). apply wp_bind, wp_modify, wp_bind. eapply wp_open_file; [apply O|]. rewrite Hr, (op_type _ _ _ _ O). cbn [negb]. cbv zeta. fold ip.
  apply wp_bind, wp_zoom, (wp_ilock _ ip v); try apply O. apply wp_bind, wp_zoom. rewrite u32_id by (unfold is_u32; lia).
  set (s1 := with_inode ip (set_flags true true v) (fsys st)).
  assert (V1 : icache s1 !! ip = Some (set_flags true true v)) by (apply list_lookup_insert_eq, (lookup_lt_Some _ _ _ (op_inode _ _ _ _ O))).
  eapply wp_mono; [apply (wp_readi ds dr s1 ip (set_flags true true v) (File.off fl) n); try assumption; try lia|].
  { apply formatted_cached, O. }
  { apply regular_cached, O. }
  intros r s2 [-> ->]. change (take (Z.to_nat n) (drop (Z.to_nat (File.off fl)) (content s1 (set_flags true true v)))) with bs.
  set (fl' := advance (Z.of_nat (length bs)) fl).
  apply wp_bind. apply wp_mono with (Q := fun _ st1 => st1 = State s1 (put_ftable f fl' (files st)) (pipes st) kn (counted (reads st)) (writes st) (outstanding st) (commits st)).
  { unfold fl'. destruct bs as [|b bs'] eqn:Eb; [|apply wp_put_file; reflexivity]. wp_step.
    replace (advance (Z.of_nat (length (@nil Z))) fl) with fl by (symmetry; exact (advance_zero _ _ _ _ O)).
    unfold put_ftable. rewrite list_insert_id by apply O. destruct st as [? []]; reflexivity. }
  intros [] st1 ->. apply wp_bind, wp_zoom. cbn [fsys]. eapply (wp_iunlock _ ip _ _ V1); [reflexivity|reflexivity|apply O|].
  wp_step. split; [reflexivity|]. unfold set_fsys. cbn [files pipes kern reads writes outstanding commits].
  pose proof (lock_unlock _ _ _ _ O) as L. cbv zeta in L. fold ip s1 in L. rewrite L. constructor; [|reflexivity|exact Hk|exact Ho].
  eapply opened_ext; [exact O|reflexivity|apply list_lookup_insert_eq, (lookup_lt_Some _ _ _ (op_file _ _ _ _ O))|reflexivity|reflexivity|].
  unfold fl'. rewrite (advance_off _ _ _ _ _ O) by lia. lia.
Qed.
Lemma wp_filewrite dw me killed st f fl v src k sts : let n := Z.of_nat (length src) in
  opened st f fl v -> File.writable fl = true -> outstanding st = 0 -> collecting (S k) (kern st) sts ->
  File.off fl + n <= MAXFILE * BSIZE -> Forall is_byte src ->
  (2 * lacking (fsys st) v (touched (File.off fl) n) <= nfree (fsys st))%nat ->
  wp (filewrite dw me killed f src n) (fun r st' => r = Pipe.WDone /\ exists v' cs, opened st' f (advance n fl) v' /\
    st' = State (fsys st') (put_ftable f (advance n fl) (files st)) (pipes st) (kern st') (reads st) (counted (writes st)) 0 (commits st ++ cs) /\
    updated (File.off fl) src (fsys st) v (fsys st') v' /\ committed (File.off fl) src (fsys st) v cs /\
    collecting k (kern st') (collected WRITE_DATA WRITE_TIMING (ticks (clock (kern st))) src n (writes st) sts) /\ only_pools (kern st) (kern st')) st.
Proof.
  intros n O Hw Hout C Hmax Hby Hroom. unfold filewrite. apply wp_bind. wp_step. apply wp_bind, wp_zoom.
  eapply wp_mono; [apply (wp_collect _ _ src n (writes st) k (kern st) sts C); lia|].
  intros c kn (-> & Hk & Ho). apply wp_bind, wp_modify, wp_bind. eapply wp_open_file; [apply O|]. rewrite Hw, (op_type _ _ _ _ O). cbn [negb].
  set (st1 := set_writes (counted (writes st)) (set_kern kn st)).
  assert (O1 : opened st1 f fl v) by (eapply opened_ext; try exact O; try reflexivity; apply O).
  apply wp_bind. eapply wp_mono; [apply (wp_write_rounds dw (Z.to_nat n) st1 f fl v src 0 O1 Hout)|]; fold n; rewrite ?Z.sub_0_r; try assumption; try lia.
  intros r st2 (-> & v' & cs & O2 & M2 & U2 & C2). rewrite Z.eqb_refl. wp_step. split; [reflexivity|]. exists v', cs.
  assert (Ek : kern st2 = kn) by (rewrite M2; reflexivity).
  split; [exact O2|]. split; [|rewrite Ek; repeat (split; [assumption|]); exact Ho].
  rewrite Ek. unfold moved in M2. rewrite M2 at 1. cbn. rewrite Hout. reflexivity.
Qed.

Lemma wp_open_fd st me t fd f (Q : option (nat * nat) -> state -> Prop) : File.ofile (files st) !! me = Some t -> 0 <= fd < File.NOFILE ->
  t !! Z.to_nat fd = Some (Some f) -> Q (Some (Z.to_nat fd, f)) st -> wp (on_files (File.argfd me fd)) Q st.
Proof.
  intros Ht Hfd Hf HQ. apply wp_zoom. unfold File.argfd. apply wp_bind. eapply wp_lift_opt; [exact Ht|].
  replace (_ || _) with false by lia. rewrite Hf. wp_step. destruct st. exact HQ.
Qed.
End files.

(** A sequence of reads of one file, and what it returns. *)
Fixpoint read_all dr (me : nat) (killed : bool) (f : nat) (bufs : list (list Z)) : K state (list Pipe.rresult) :=
  match bufs with
  | [] => mret []
  | buf :: bufs =>
      r ← fileread dr me killed f buf (Z.of_nat (length buf));
      l ← read_all dr me killed f bufs;
      mret (r :: l)
  end.
Fixpoint slices (c : list Z) (ns : list nat) : list (list Z) :=
  match ns with
  | [] => []
  | n :: ns => take n c :: slices (drop n c) ns
  end.

(** The events that reads into [bufs] add. *)
Fixpoint read_events (t : Z) (bufs : list (list Z)) (c : collector) (sts : list (list Z)) : list (list Z) :=
  match bufs with
  | [] => sts
  | buf :: bufs => read_events t bufs (counted c) (collected READ_DATA READ_TIMING t buf (Z.of_nat (length buf)) c sts)
  end.

Lemma concat_slices (bufs : list (list Z)) : forall c, concat (slices c (length <$> bufs)) = take (length (concat bufs)) c.
Proof.
  induction bufs as [|buf bufs IH]; intros c; cbn [slices concat fmap list_fmap length]; [reflexivity|].
  rewrite IH, length_app. apply take_take_drop.
Qed.

Section sequences.
Context (ds : Z).

Lemma drop_content s v off n : 0 <= off -> 0 <= n ->
  drop (Z.to_nat (off + Z.of_nat (length (slice s v off n)))) (content s v) = drop (Z.to_nat n) (drop (Z.to_nat off) (content s v)).
Proof.
  intros Ho Hn. rewrite drop_drop, Z2Nat.inj_add, Nat2Z.id by lia. unfold slice. rewrite length_take, length_drop.
  destruct (decide (Z.to_nat off + Z.to_nat n <= length (content s v))%nat).
  - f_equal. lia.
  - rewrite !drop_ge by lia. reflexivity.
Qed.

Lemma wp_read_all dr me killed f v : forall bufs st fl sts,
  opened ds st f fl v -> File.readable fl = true -> collecting (length bufs) (kern st) sts ->
  Forall (fun buf => Z.of_nat (length buf) < 2 ^ 31) bufs ->
  wp (read_all dr me killed f bufs) (fun rs st' => let bss := slices (drop (Z.to_nat (File.off fl)) (content (fsys st) v)) (length <$> bufs) in
    rs = Pipe.RBytes <$> bss /\ opened ds st' f (advance (Z.of_nat (length (concat bss))) fl) v /\
    fsys st' = fsys st /\ commits st' = commits st /\
    pools_ok (kern st') (read_events (ticks (clock (kern st))) bufs (reads st) sts) /\ only_pools (kern st) (kern st')) st.
Proof.
  induction bufs as [|buf bufs IH]; intros st fl sts O Hr C Hb; cbn [read_all slices fmap list_fmap concat length].
  - wp_step. split; [reflexivity|]. change (Z.of_nat 0) with 0. rewrite (advance_zero _ _ _ _ _ O). split; [exact O|].
    split; [reflexivity|]. split; [reflexivity|]. split; [apply C|]. split; [apply cpu_same_refl|].
    exists (k_cpu (kern st)), (pools (kern st)). destruct (kern st); reflexivity.
  - apply Forall_cons in Hb as [Hb Hbs]. pose proof (op_off _ _ _ _ _ O) as Hoff. apply wp_bind.
    pose proof (rg_size _ _ _ (op_regular _ _ _ _ _ O)) as Hsz.
    pose proof (slice_length (fsys st) v (File.off fl) (Z.of_nat (length buf)) Hoff ltac:(lia)) as Hlen.
    eapply wp_mono; [exact (wp_fileread ds dr me killed st f fl v buf (length bufs) sts O Hr C Hb)|].
    intros r st1 [-> [H1 H2 H3 H4]]. set (bs := slice (fsys st) v (File.off fl) (Z.of_nat (length buf))) in *.
    pose proof (advance_off _ _ _ _ _ (Z.of_nat (length bs)) O ltac:(lia) ltac:(lia)) as Eo.
    assert (Ef : fsys st1 = fsys st) by (rewrite H2; reflexivity). assert (Er : reads st1 = counted (reads st)) by (rewrite H2; reflexivity).
    assert (Et : clock (kern st1) = clock (kern st)) by (destruct H4 as [_ (c & ps & ->)]; reflexivity).
    apply wp_bind. eapply wp_mono; [apply (IH st1 _ _ H1 Hr H3 Hbs)|].
    pose proof (drop_content (fsys st) v (File.off fl) (Z.of_nat (length buf)) ltac:(lia) ltac:(lia)) as D. fold bs in D. rewrite Nat2Z.id in D.
    intros rs st2 (-> & A1 & A2 & A3 & A4 & A5). wp_step. rewrite Eo, Ef in *. rewrite D in A1 |- *. rewrite Er, Et in A4.
    split; [f_equal; f_equal; unfold bs, slice; rewrite Nat2Z.id; reflexivity|]. split.
    + rewrite advance_advance in A1. rewrite length_app, Nat2Z.inj_add. unfold bs, slice in A1. rewrite Nat2Z.id in A1. exact A1.
    + split; [exact A2|]. split; [rewrite A3, H2; reflexivity|]. split; [exact A4|]. eapply only_pools_trans; eassumption.
Qed.
End sequences.
End FileIOFacts.

Module FileIOProps.
Import Kernel KernelFacts Entropy EntropyFacts Fs FsFacts FileIO FileIOFacts.


(** Descriptors that share a file.  When one descriptor of a process is open for writing and
    another for reading on the same inode, each with its own offset, [sys_write] through the first
    followed by [sys_read] through the second returns the bytes at the reader's offset of the file
    as the write left it, and moves the reader's offset by their number. *)
Theorem write_then_read_descriptors ds dr dw me killed st t wfd rfd f fl g gl v src buf k sts :
  let n := Z.of_nat (length src) in let m := Z.of_nat (length buf) in
  opened ds st f fl v -> opened ds st g gl v -> File.ip gl = File.ip fl -> f <> g ->
  File.writable fl = true -> File.readable gl = true ->
  File.ofile (files st) !! me = Some t -> 0 <= wfd < File.NOFILE -> 0 <= rfd < File.NOFILE ->
  t !! Z.to_nat wfd = Some (Some f) -> t !! Z.to_nat rfd = Some (Some g) ->
  outstanding st = 0 -> collecting (S (S k)) (kern st) sts ->
  File.off fl + n <= MAXFILE * BSIZE -> Forall is_byte src -> m < 2 ^ 31 ->
  (2 * lacking (fsys st) v (touched (File.off fl) n) <= nfree (fsys st))%nat ->
  wp (sys_write dw me killed wfd n (Some src) ;; sys_read dr me killed rfd m (Some buf)) (fun r st' =>
    let bs := take (Z.to_nat m) (drop (Z.to_nat (File.off gl)) (overwrite (File.off fl) src (content (fsys st) v))) in
    r = Pipe.RBytes bs /\ exists v', opened ds st' f (advance n fl) v' /\ opened ds st' g (advance (Z.of_nat (length bs)) gl) v') st.
Proof.
  intros n m O O2 Eip Hne Hw Hr Ht Hwfd Hrfd Hf Hg Hout C Hmax Hby Hm Hroom.
  apply wp_bind. unfold sys_write. apply wp_bind. eapply wp_open_fd; [exact Ht|exact Hwfd|exact Hf|]. cbv beta iota.
  eapply wp_mono; [apply (wp_filewrite ds dw me killed st f fl v src (S k) sts O Hw Hout C Hmax Hby Hroom)|].
  intros r st1 (-> & v1 & cs & O1 & S1 & U & _ & E & _).
  assert (Hlt : File.ftable (files st1) !! g = Some gl).
  { rewrite S1. cbn. rewrite list_lookup_insert_ne by exact Hne. apply O2. }
  pose proof (op_off _ _ _ _ _ O) as Ho. pose proof (op_off _ _ _ _ _ O2) as Hog.
  assert (Hs : isize v <= isize v1).
  { pose proof (f_equal (fun l => Z.of_nat (length l)) (up_content _ _ _ _ _ _ _ U)) as HL. cbn beta in HL.
    pose proof (rg_size _ _ _ (op_regular _ _ _ _ _ O1)). pose proof (rg_size _ _ _ (op_regular _ _ _ _ _ O)).
    rewrite length_overwrite in HL by (rewrite length_content; lia). rewrite !length_content in HL by lia. lia. }
  assert (Og : opened ds st1 g gl v1).
  { destruct O1, O2. constructor; try assumption; [|lia]. rewrite Eip. assumption. }
  unfold sys_read. apply wp_bind. eapply (wp_open_fd st1 me t); [rewrite S1; exact Ht|exact Hrfd|exact Hg|]. cbv beta iota.
  eapply wp_mono; [apply (wp_fileread ds dr me killed st1 g gl v1 buf k _ Og Hr E Hm)|].
  intros r st2 [-> [H1 H2 _ _]]. unfold slice in *. rewrite (up_content _ _ _ _ _ _ _ U) in *. split; [reflexivity|]. exists v1.
  split; [|exact H1]. eapply opened_ext; [exact O1|rewrite H2; reflexivity| |reflexivity|reflexivity|apply O1].
  rewrite H2. cbn. rewrite list_lookup_insert_ne by congruence. apply O1.
Qed.

(** Reading in sequence.  Calls of [fileread] on an open file return its bytes in order, from
    the offset on, each as many as asked for or as are left, and together a prefix of what was left;
    the file and the disk stay as they are, and the events of every eleventh call go to the pools. *)
Theorem reads_sequential ds dr me killed st f fl v bufs sts :
  opened ds st f fl v -> File.readable fl = true -> collecting (length bufs) (kern st) sts ->
  Forall (fun buf => Z.of_nat (length buf) < 2 ^ 31) bufs ->
  wp (read_all dr me killed f bufs) (fun rs st' => let left := drop (Z.to_nat (File.off fl)) (content (fsys st) v) in
    let bss := slices left (length <$> bufs) in
    rs = Pipe.RBytes <$> bss /\ concat bss = take (length (concat bufs)) left /\
    opened ds st' f (advance (Z.of_nat (length (concat bss))) fl) v /\ fsys st' = fsys st /\ commits st' = commits st /\
    pools_ok (kern st') (read_events (ticks (clock (kern st))) bufs (reads st) sts)) st.
Proof.
  intros O Hr C Hb. eapply wp_mono; [apply (wp_read_all ds dr me killed f v bufs st fl sts O Hr C Hb)|].
  intros rs st' (A1 & A2 & A3 & A4 & A5 & _). split; [exact A1|]. split; [apply concat_slices|]. auto.
Qed.
(** The disk of twelve blocks with its file on it, and two open files, one to write at its end and
    one to read from its start. *)
Definition demo_inode : inode := set_flags false true FsProps.tiny_file.
Definition demo_disk : fs := wr 2 (splice 64 (encode_dinode demo_inode) zeros) FsProps.tiny.
Definition demo_writer : File.file := File.MkFile File.FD_INODE 1 false true 0 0 3.
Definition demo_reader : File.file := File.MkFile File.FD_INODE 1 true false 0 0 0.
Definition demo_kernel : kstate := set_pools (replicate (Z.to_nat MAX_POOLS) empty_pool) EntropyProps.boot_state.
Definition demo : state :=
  State (MkFs (blocks demo_disk) (sb demo_disk) [demo_inode]) (File.Sys [demo_writer; demo_reader] [[Some 0%nat; Some 1%nat]] [])
    ∅ demo_kernel (Collector 0 10) (Collector 0 0) 0 [].

Lemma demo_formatted : formatted 4 demo_disk.
Proof.
  apply formatted_wr; [exact FsProps.tiny_formatted|cbn; lia|cbn; lia|]. split.
  - rewrite length_splice; [reflexivity|]. vm_compute. lia.
  - apply Forall_splice; [apply encode_bytes|apply zeros_block].
Qed.

Lemma demo_regular : regular 4 demo_disk FsProps.tiny_file.
Proof.
  apply (FreeFacts.kept_file 4 FsProps.tiny); [exact FsProps.tiny_formatted|reflexivity| |exact FsProps.tiny_regular|].
  - intros c Hc. unfold demo_disk. rewrite blk_wr by (cbn; lia). apply decide_False. lia.
  - intros c Hc Hc0. destruct (ow_used _ _ _ (rg_owns _ _ _ FsProps.tiny_regular) c Hc Hc0) as [Hr Hu]. cbn [FsProps.tiny sb] in Hr.
    unfold demo_disk. rewrite (used_wr 4); [exact Hu|exact FsProps.tiny_formatted|cbn; lia|cbn; lia|cbn in *; lia].
Qed.

Lemma demo_opened f fl : File.ftable (files demo) !! f = Some fl -> opened 4 demo f fl demo_inode.
Proof.
  intros Hf. assert (H : File.f_type fl = File.FD_INODE /\ File.ip fl = 0 /\ 0 <= File.off fl <= 3).
  { destruct f as [|[|f]]; cbn in Hf; [| |discriminate]; injection Hf as <-; cbn; repeat split; try reflexivity; lia. }
  destruct H as (H1 & H2 & H3). constructor; try assumption; try reflexivity.
  - rewrite H2. reflexivity.
  - apply formatted_cached, demo_formatted.
  - apply regular_cached, demo_regular.
Qed.

Lemma demo_collecting k : (k <= 2)%nat -> collecting k demo_kernel (replicate 32 []).
Proof.
  intros Hk. constructor; [apply init_pools_ok|split; cbn; lia|split; reflexivity|]. apply Forall_replicate. cbn [length]. lia.
Qed.


Lemma write_then_read_descriptors_witness : exists st',
  (sys_write (fun _ => None) 0 false 0 3 (Some [1; 2; 3]) ;; sys_read (fun _ => None) 0 false 1 5 (Some (replicate 5 0))) demo =
  Ok (Pipe.RBytes [104; 105; 33; 1; 2], st').
Proof.
  destruct (write_then_read_descriptors 4 (fun _ => None) (fun _ => None) 0 false demo [Some 0%nat; Some 1%nat] 0 1 0 demo_writer 1 demo_reader
    demo_inode [1; 2; 3] (replicate 5 0) 0 (replicate 32 [])) as (r & st' & E & Er & _).
  1,2: apply demo_opened; reflexivity.
  1,3,4,5,8,9,10: reflexivity.
  - discriminate.
  - unfold File.NOFILE. lia.
  - unfold File.NOFILE. lia.
  - apply demo_collecting. lia.
  - discriminate.
  - repeat constructor; unfold is_byte; lia.
  - reflexivity.
  - vm_compute. lia.
  - exists st'. refine (eq_trans E _). rewrite Er. reflexivity.
Defined.

Lemma reads_sequential_witness : exists st',
  read_all (fun _ => None) 0 false 1 [[0; 0]; [0; 0]] demo = Ok ([Pipe.RBytes [104; 105]; Pipe.RBytes [33]], st') /\ fsys st' = fsys demo.
Proof.
  destruct (reads_sequential 4 (fun _ => None) 0 false demo 1 demo_reader demo_inode [[0; 0]; [0; 0]] (replicate 32 []))
    as (rs & st' & E & Er & _ & _ & Hf & _).
  - apply demo_opened. reflexivity.
  - reflexivity.
  - apply demo_collecting. cbn. lia.
  - repeat constructor.
  - exists st'. split; [refine (eq_trans E _); rewrite Er; reflexivity|exact Hf].
Defined.
End FileIOProps.
