(* ===== verification/Path.v ===== *)
(** The system calls of sysfile.c that take paths: [link], [unlink], [open], [mkdir], [mknod] and
    [chdir], on the state of FileIO.v.

    The arguments are what [argstr] and [argint] fetched, [None] where that failed.  A path is
    its characters without the terminating zero.  [cwd] is the cached inode of the process's
    current directory.  The part of a call between [begin_op] and [end_op] that only works on the
    file system is a definition of its own. *)

From S2P Require Import Prelude Fs Dir File FileIO Namei.

Module Path.
Import Fs FileIO.

Definition O_RDONLY : Z := 0x000.
Definition O_CREATE : Z := 0x200.
Definition T_FILE : Z := 2.

Definition set_nlink (n : Z) (v : inode) : inode :=
  Inode (dev v) (inum v) (ref v) (busy v) (valid v) (itype v) (major v) (minor v) n (isize v) (addrs v).
Definition set_device (ma mi : Z) (v : inode) : inode :=
  Inode (dev v) (inum v) (ref v) (busy v) (valid v) (itype v) ma mi (nlink v) (isize v) (addrs v).

(** [ip->nlink += d; iupdate(ip);] *)
Definition add_nlink (ip : nat) (d : Z) : K fs unit :=
  v ← get_inode ip;
  put_inode ip (set_nlink (s16 (nlink v + d)) v) ;;
  iupdate ip.

Definition dot : list Z := [46].
Definition dotdot : list Z := [46; 46].

Section devices.
Context (devread : Z -> option (nat -> Z -> K fs (option (list Z)))).
Context (devwrite : Z -> option (nat -> list Z -> K fs (option Z))).
(** What the array [name] of a call holds before it is written. *)
Context (junk : list Z).

(** Whether the link has been made. *)
Definition link (cwd : nat) (old new : list Z) : K fs bool :=
  r ← namei devread cwd old;
  match r with
  | None => mret false
  | Some ip =>
      ilock ip ;;
      v ← get_inode ip;
      if itype v =? T_DIR then iunlockput ip ;; mret false
      else
        add_nlink ip 1 ;;
        iunlock ip ;;
        r ← nameiparent devread cwd new junk;
        ok ← match r with
             | None => mret false
             | Some (dp, name) =>
                 ilock dp ;;
                 d ← get_inode dp;
                 v ← get_inode ip;
                 ok ← (if negb (dev d =? dev v) then mret false else dirlink devread devwrite dp name (inum v));
                 iunlockput dp ;;
                 mret ok
             end;
        if ok : bool then iput ip ;; mret true
        else
          ilock ip ;;
          add_nlink ip (-1) ;;
          iunlockput ip ;;
          mret false
  end.
Definition sys_link (cwd : nat) (old new : option (list Z)) : K state Z :=
  match old, new with
  | Some old, Some new =>
      begin_op ;;
      ok ← on_fs (link cwd old new);
      end_op ;;
      mret (if ok : bool then 0 else -1)
  | _, _ => mret (-1)
  end.

Fixpoint isdirempty_loop (dp : nat) (offs : list Z) : K fs bool :=
  match offs with
  | [] => mret true
  | off :: offs' =>
      r ← readi devread dp off DIRENT;
      match r with
      | Some de =>
          if negb (Z.of_nat (length de) =? DIRENT) then panic "isdirempty: readi"
          else if negb (de_inum de =? 0) then mret false
          else isdirempty_loop dp offs'
      | None => panic "isdirempty: readi"
      end
  end.
Definition isdirempty (dp : nat) : K fs bool :=
  v ← get_inode dp;
  isdirempty_loop dp (drop 2 (steps (isize v) DIRENT)).

Definition unlink (cwd : nat) (path : list Z) : K fs bool :=
  r ← nameiparent devread cwd path junk;
  match r with
  | None => mret false
  | Some (dp, name) =>
      ilock dp ;;
      if namecmp name dot || namecmp name dotdot then iunlockput dp ;; mret false
      else
        r ← dirlookup devread dp name;
        match r with
        | None => iunlockput dp ;; mret false
        | Some (ip, off) =>
            ilock ip ;;
            v ← get_inode ip;
            if nlink v <? 1 then panic "unlink: nlink < 1"
            else
              full ← (if itype v =? T_DIR then b ← isdirempty ip; mret (negb b) else mret false);
              if full : bool then iunlockput ip ;; iunlockput dp ;; mret false
              else
                r ← writei devwrite dp (replicate 16 0) off;
                if negb (bool_decide (r = Some DIRENT)) then panic "unlink: writei"
                else
                  (if itype v =? T_DIR then add_nlink dp (-1) else skip) ;;
                  iunlockput dp ;;
                  add_nlink ip (-1) ;;
                  iunlockput ip ;;
                  mret true
        end
  end.
Definition sys_unlink (cwd : nat) (path : option (list Z)) : K state Z :=
  match path with
  | None => mret (-1)
  | Some path =>
      begin_op ;;
      ok ← on_fs (unlink cwd path);
      end_op ;;
      mret (if ok : bool then 0 else -1)
  end.

(** The new or old inode, locked. *)
Definition create (cwd : nat) (path : list Z) (type ma mi : Z) : K fs (option nat) :=
  r ← nameiparent devread cwd path junk;
  match r with
  | None => mret None
  | Some (dp, name) =>
      ilock dp ;;
      r ← dirlookup devread dp name;
      match r with
      | Some (ip, _) =>
          iunlockput dp ;;
          ilock ip ;;
          v ← get_inode ip;
          if (type =? T_FILE) && (itype v =? T_FILE) then mret (Some ip)
          else iunlockput ip ;; mret None
      | None =>
          d ← get_inode dp;
          ip ← ialloc (dev d) type;
          ilock ip ;;
          v ← get_inode ip;
          put_inode ip (set_nlink 1 (set_device ma mi v)) ;;
          iupdate ip ;;
          (if type =? T_DIR then
             add_nlink dp 1 ;;
             v ← get_inode ip;
             ok ← dirlink devread devwrite ip dot (inum v);
             if negb ok then panic "create dots"
             else
               d ← get_inode dp;
               ok ← dirlink devread devwrite ip dotdot (inum d);
               if negb ok then panic "create dots" else skip
           else skip) ;;
          v ← get_inode ip;
          ok ← dirlink devread devwrite dp name (inum v);
          if negb ok then panic "create: dirlink"
          else iunlockput dp ;; mret (Some ip)
      end
  end.

(** The inode that [open] opens, locked. *)
Definition open_path (cwd : nat) (path : list Z) (omode : Z) : K fs (option nat) :=
  if negb (Z.land omode O_CREATE =? 0) then create cwd path T_FILE 0 0
  else
    r ← namei devread cwd path;
    match r with
    | None => mret None
    | Some ip =>
        ilock ip ;;
        v ← get_inode ip;
        if (itype v =? T_DIR) && negb (omode =? O_RDONLY) then iunlockput ip ;; mret None
        else mret (Some ip)
    end.
Definition sys_open (me cwd : nat) (path : option (list Z)) (omode : option Z) : K state Z :=
  match path, omode with
  | Some path, Some omode =>
      begin_op ;;
      r ← on_fs (open_path cwd path omode);
      match r with
      | None => end_op ;; mret (-1)
      | Some ip =>
          f ← on_files File.filealloc;
          match f with
          | None => on_fs (iunlockput ip) ;; end_op ;; mret (-1)
          | Some f =>
              r ← on_files (File.fdalloc me f);
              match r with
              | None => on_files (File.fileclose f) ;; on_fs (iunlockput ip) ;; end_op ;; mret (-1)
              | Some fd =>
                  on_fs (iunlock ip) ;;
                  end_op ;;
                  v ← on_files (File.get_file f);
                  put_file f (File.MkFile File.FD_INODE (File.ref v) (Z.land omode File.O_WRONLY =? 0)
                    (negb (Z.land omode File.O_WRONLY =? 0) || negb (Z.land omode File.O_RDWR =? 0))
                    (File.pipe v) (Z.of_nat ip) 0) ;;
                  mret (Z.of_nat fd)
              end
          end
      end
  | _, _ => mret (-1)
  end.

Definition make (cwd : nat) (path : option (list Z)) (type ma mi : Z) : K state Z :=
  begin_op ;;
  r ← match path with None => mret None | Some path => on_fs (create cwd path type ma mi) end;
  match r with
  | None => end_op ;; mret (-1)
  | Some ip => on_fs (iunlockput ip) ;; end_op ;; mret 0
  end.
Definition sys_mkdir (cwd : nat) (path : option (list Z)) : K state Z := make cwd path T_DIR 0 0.
(** The parameters of [create] are of type [short]. *)
Definition sys_mknod (cwd : nat) (path : option (list Z)) (ma mi : option Z) : K state Z :=
  match ma, mi with
  | Some ma, Some mi => make cwd path T_DEV (s16 ma) (s16 mi)
  | _, _ => make cwd None T_DEV 0 0
  end.

(** The result and the current directory afterwards. *)
Definition sys_chdir (cwd : nat) (path : option (list Z)) : K state (Z * nat) :=
  begin_op ;;
  r ← match path with None => mret None | Some path => on_fs (namei devread cwd path) end;
  match r with
  | None => end_op ;; mret (-1, cwd)
  | Some ip =>
      on_fs (ilock ip) ;;
      v ← on_fs (get_inode ip);
      if negb (itype v =? T_DIR) then on_fs (iunlockput ip) ;; end_op ;; mret (-1, cwd)
      else
        on_fs (iunlock ip) ;;
        on_fs (iput cwd) ;;
        end_op ;;
        mret (0, ip)
  end.
End devices.
End Path.

Module PathFacts.
Import Fs FsFacts DirFacts CacheFacts NameiFacts FileIO FileIOFacts Path.

(** The whole state with other inodes and the log's bracket closed again. *)
Definition after (s : fs) (st : state) : state :=
  State s (files st) (pipes st) (kern st) (reads st) (writes st) (outstanding st) (if outstanding st =? 0 then commits st ++ [s] else commits st).

Definition begun (s : fs) (st : state) : state :=
  State s (files st) (pipes st) (kern st) (reads st) (writes st) (outstanding st + 1) (commits st).

Lemma wp_begin (Q : unit -> state -> Prop) st : Q tt (begun (fsys st) st) -> wp begin_op Q st.
Proof. intros HQ. apply wp_modify. exact HQ. Qed.

Lemma wp_end (Q : unit -> state -> Prop) s st : Q tt (after s st) -> wp end_op Q (begun s st).
Proof. intros HQ. apply wp_modify. unfold after in HQ. cbn [begun fsys files pipes kern reads writes outstanding commits]. replace (outstanding st + 1 - 1) with (outstanding st) by lia. exact HQ. Qed.

Lemma wp_inside {A} (m : K fs A) (Q : A -> state -> Prop) s st : wp m (fun a s' => Q a (begun s' st)) s -> wp (on_fs m) Q (begun s st).
Proof. intros Hm. apply wp_zoom. exact Hm. Qed.

Section calls.
Context (ds : Z) (dr : Z -> option (nat -> Z -> K fs (option (list Z)))).

(** The references that are held apart from one to inode [i], and the free entries there would be
    without that one. *)
Record holds (o : Z -> Z) (room : nat) (s : fs) (cwd : nat) (i : Z) : Prop := {
  ho_tree : tree ds s;
  ho_sound : sound [] s;
  ho_slot : exists v, icache s !! cwd = Some v /\ 0 < ref v /\ inum v = i;
  ho_live : live s i;
  ho_refs : forall j, refs s j = o j + if decide (j = i) then 1 else 0;
  ho_frees : (frees s + (if decide (o i = 0)%Z then 1 else 0) = room)%nat;
}.

(** What is on the disk does not depend on the cache. *)
Lemma tree_same s s' : blocks s' = blocks s -> sb s' = sb s -> tree ds s -> tree ds s'.
Proof.
  intros Eb Es [F D N]. assert (Hd : forall i, disk_inode s' i = disk_inode s i) by (intros i; apply disk_inode_blocks; assumption).
  assert (Hl : forall i, live s' i <-> live s i) by (intros i; unfold live; rewrite Hd, Es; reflexivity).
  assert (Hi : forall i, is_dir s' i = is_dir s i) by (intros i; unfold is_dir; rewrite Hd; reflexivity).
  assert (Hc : forall i, content s' (disk_inode s' i) = content s (disk_inode s i)) by (intros i; rewrite Hd; apply content_cached; [exact Eb|reflexivity]).
  constructor.
  - exact (formatted_same ds _ _ Eb Es F).
  - intros i L I. rewrite Hl in L. rewrite Hi in I. destruct (D i L I) as [R W]. rewrite Hc. split; [|exact W]. rewrite Hd.
    eapply regular_plain; [exact Eb|exact Es|reflexivity|exact R].
  - intros i nm j L I E. rewrite Hl in L |- *. rewrite Hi in I. unfold entries in E. rewrite Hc in E. exact (N i nm j L I E).
Qed.

Lemma live_same s s' i : blocks s' = blocks s -> sb s' = sb s -> live s i -> live s' i.
Proof. intros Eb Es. unfold live. rewrite Es, (disk_inode_blocks s s') by assumption. auto. Qed.

Lemma returned_holds o room s cwd i s' : holds o room s cwd i -> returned s s' -> holds o room s' cwd i.
Proof.
  intros [H1 H2 (v & Hv & Hr & Hi) H4 H5 H6] [R1 R2 R3 R4 R5 R6]. constructor; [exact (tree_same _ _ R1 R2 H1)|exact R3| |exact (live_same _ _ _ R1 R2 H4)| |rewrite R5; exact H6].
  - destruct (R6 cwd v Hv Hr) as (v' & Hv' & Hr' & Hi'). exists v'. split; [exact Hv'|]. split; [exact Hr'|congruence].
  - intros j. rewrite R4. apply H5.
Qed.

(** The reference to the old directory is given back after one to the new has been taken. *)
Lemma wp_swap o room s cwd i j ip s1 : holds o room s cwd i -> (forall k, 0 <= o k) -> taken [] s j ip s1 -> live s j ->
  wp (iput cwd) (fun _ s' => holds o room s' ip j /\ blocks s' = blocks s /\ sb s' = sb s) s1.
Proof.
  intros [H1 H2 (v & Hv & Hr & Hi) H4 H5 H6] Ho Tk Hl. destruct Tk as [T1 T2 T3 T4 T5 (w & Hw & Hrw & Hj) T7]. destruct (T7 cwd v Hv Hr) as (c & Hc & Hrc & Hic).
  assert (Eci : inum c = i) by congruence. eapply wp_mono; [apply (wp_put [] s1 cwd c T3 Hc Hrc (not_elem_of_nil _)); rewrite (disk_inode_blocks s s1), Eci by assumption; apply H4|].
  intros [] s' [-> Sd]. split; [|split; [exact T1|exact T2]]. set (x := set_ref (ref c - 1) c) in *.
  pose proof (fun k => refs_drop s1 cwd c x k Hc eq_refl eq_refl) as ER. pose proof (frees_drop [] s1 cwd c x T3 Hc Hrc eq_refl) as EF. rewrite Eci in ER, EF.
  rewrite T4, H5 in EF. pose proof (refs_slot _ _ _ _ T3 Hc Hrc) as Ec. rewrite Eci, T4, H5 in Ec. pose proof (Ho i) as Hoi. pose proof (Ho j) as Hoj. constructor.
  - apply (tree_same s); [exact T1|exact T2|exact H1].
  - exact Sd.
  - apply (keeps_with (fun y => 0 < ref y /\ inum y = j) s1 cwd c x ip w Hc Hw); [|auto]. intros ->. assert (w = c) by congruence. subst w.
    split; [|cbn; congruence]. cbn. rewrite <- Ec. rewrite (decide_True (P := i = i)), (decide_True (P := i = j)) by congruence. lia.
  - apply (live_same s); assumption.
  - intros k. rewrite ER, T4, H5. destruct (decide (k = i)), (decide (k = j)); lia.
  - rewrite EF. rewrite H5 in T5. destruct (decide (i = j)) as [<-|Hne].
    + rewrite (decide_True (P := i = i)) in T5 |- * by reflexivity. destruct (decide (o i + 1 + 1 = 1)), (decide (o i + 1 = 0)), (decide (o i = 0)); lia.
    + rewrite (decide_False (P := j = i)) in T5 by congruence. rewrite (decide_True (P := i = i)) by reflexivity.
      destruct (decide (o i + 1 + 0 = 1)), (decide (o j + 0 = 0)), (decide (o i = 0)), (decide (o j = 0)); lia.
Qed.

(** Where [chdir] goes from directory [i]. *)
Definition chdir_to (s : fs) (i : Z) (path : list Z) : option Z :=
  match walk_path false s (if deref path =? SLASH then ROOTINO else i) (elements path) with
  | Some (j, _) => if is_dir s j then Some j else None
  | None => None
  end.

Lemma wp_chdir o room st cwd i path : holds o room (fsys st) cwd i -> (forall k, 0 <= o k) -> (3 <= room)%nat -> live (fsys st) ROOTINO -> Forall (fun x => x <> 0) path ->
  wp (sys_chdir dr cwd (Some path)) (fun r st' => (exists s', st' = after s' st /\ blocks s' = blocks (fsys st) /\ sb s' = sb (fsys st)) /\
    match chdir_to (fsys st) i path with
    | Some j => exists ip, r = (0, ip) /\ holds o room (fsys st') ip j
    | None => r = (-1, cwd) /\ holds o room (fsys st') cwd i
    end) st.
Proof.
  intros H Ho Hroom Hroot Hz. pose proof H as [H1 H2 (v & Hv & Hr & Hi) H4 H5 H6]. unfold sys_chdir, chdir_to. apply wp_bind, wp_begin, wp_bind, wp_inside.
  assert (Hfree : (2 <= frees (fsys st))%nat) by (destruct (decide (o i = 0)); lia).
  assert (Hst : start v path = if deref path =? SLASH then ROOTINO else i) by (unfold start; rewrite Hi; reflexivity).
  assert (Hl : live (fsys st) (start v path)) by (rewrite Hst; destruct (deref path =? SLASH); assumption). rewrite <- Hst.
  unfold namei. apply wp_bind. eapply wp_mono; [apply (wp_namex ds dr _ cwd v path false (replicate 14 0) H1 H2 Hfree Hv Hr Hl Hz eq_refl)|].
  intros r s1 Hf. wp_step. unfold found_at in Hf. destruct (walk_path _ _ _ _) as [[j e]|].
  - destruct Hf as (ip & nm & -> & Tk & Hlj & _). cbn [fst fmap option_fmap option_map].
    apply wp_bind, wp_inside. eapply wp_mono; [apply (taken_lock ds _ _ _ _ (tr_formatted _ _ H1) Tk Hlj)|]. intros [] s2 (Tk2 & w & Hw & Hp).
    apply wp_bind, wp_inside. eapply wp_get_inode; [exact Hw|].
    assert (Et : (itype w =? T_DIR) = is_dir (fsys st) j) by (unfold is_dir; rewrite <- Hp; reflexivity). rewrite Et. destruct (is_dir (fsys st) j); cbn [negb].
    + apply wp_bind, wp_inside. eapply wp_mono; [apply (taken_unlock _ _ _ _ Tk2)|]. intros [] s3 Tk3.
      apply wp_bind, wp_inside. eapply wp_mono; [apply (wp_swap o room _ cwd i j ip s3 H Ho Tk3 Hlj)|]. intros [] s4 (Hh & Hb & Hs).
      apply wp_bind, wp_end. wp_step. split; [exists s4; auto|]. exists ip. auto.
    + apply wp_bind, wp_inside. eapply wp_mono; [apply (taken_unlockput _ _ _ _ H2 Tk2 Hlj)|]. intros [] s3 R.
      apply wp_bind, wp_end. wp_step. split; [exists s3; split; [reflexivity|split; apply R]|]. split; [reflexivity|exact (returned_holds _ _ _ _ _ _ H R)].
  - destruct Hf as [-> R]. apply wp_bind, wp_end. wp_step. split; [exists s1; split; [reflexivity|split; apply R]|]. split; [reflexivity|exact (returned_holds _ _ _ _ _ _ H R)].
Qed.

(** A process that changes its directory again and again, whatever the calls return. *)
Fixpoint chdirs (cwd : nat) (paths : list (list Z)) : K state (list Z * nat) :=
  match paths with
  | [] => mret ([], cwd)
  | path :: paths' =>
      '(r, cwd) ← sys_chdir dr cwd (Some path);
      '(rs, cwd) ← chdirs cwd paths';
      mret (r :: rs, cwd)
  end.

(** What the calls return, and where they lead. *)
Fixpoint chdirs_to (s : fs) (i : Z) (paths : list (list Z)) : list Z * Z :=
  match paths with
  | [] => ([], i)
  | path :: paths' =>
      let '(r, i) := match chdir_to s i path with Some j => (0, j) | None => (-1, i) end in
      let '(rs, i) := chdirs_to s i paths' in (r :: rs, i)
  end.

Lemma chdir_to_same s s' i path : blocks s' = blocks s -> sb s' = sb s -> chdir_to s' i path = chdir_to s i path.
Proof.
  intros Eb Es. assert (Hi : forall i, is_dir s' i = is_dir s i) by (intros k; unfold is_dir; rewrite (disk_inode_blocks s s') by assumption; reflexivity).
  assert (He : forall i nm, entries s' i nm = entries s i nm).
  { intros k nm. unfold entries. f_equal. rewrite (disk_inode_blocks s s') by assumption. apply content_cached; [exact Eb|reflexivity]. }
  assert (Hw : forall es k, walk_path false s' k es = walk_path false s k es).
  { induction es as [|e es IH]; intros k; [reflexivity|]. cbn [walk_path]. rewrite Hi, He. destruct (entries s k e); [rewrite IH|]; reflexivity. }
  unfold chdir_to. rewrite Hw. destruct (walk_path _ _ _ _) as [[j e]|]; [rewrite Hi|]; reflexivity.
Qed.

Lemma wp_chdirs o room s0 : (forall k, 0 <= o k) -> (3 <= room)%nat -> live s0 ROOTINO -> forall paths st cwd i, Forall (Forall (fun x => x <> 0)) paths ->
  holds o room (fsys st) cwd i -> blocks (fsys st) = blocks s0 -> sb (fsys st) = sb s0 ->
  wp (chdirs cwd paths) (fun r st' => let '(rs, j) := chdirs_to s0 i paths in exists ip, r = (rs, ip) /\ holds o room (fsys st') ip j /\
    blocks (fsys st') = blocks s0 /\ files st' = files st /\ outstanding st' = outstanding st) st.
Proof.
  intros Ho Hroom Hroot. induction paths as [|path paths IH]; intros st cwd i Hz H Eb Es; cbn [chdirs chdirs_to].
  - wp_step. exists cwd. auto.
  - apply Forall_cons in Hz as [Hz Hzs]. apply wp_bind. eapply wp_mono; [apply (wp_chdir o room st cwd i path H Ho Hroom (live_same _ _ _ Eb Es Hroot) Hz)|].
    intros [r c] st1 [(s1 & -> & Eb1 & Es1) Hr]. rewrite (chdir_to_same s0) in Hr by assumption. cbn [after fsys] in Hr.
    assert (Hnext : exists k ic, (match chdir_to s0 i path with Some j => (0, j) | None => (-1, i) end) = (r, k) /\ c = ic /\ holds o room s1 ic k).
    { destruct (chdir_to s0 i path) as [j|]; [destruct Hr as (ip & [= -> ->] & Hh); eauto|destruct Hr as [[= -> ->] Hh]; eauto]. }
    destruct Hnext as (k & ic & -> & -> & Hh). apply wp_bind.
    eapply wp_mono; [apply (IH (after s1 st) ic k Hzs Hh); cbn [after fsys]; congruence|].
    intros [rs c'] st2. destruct (chdirs_to s0 k paths) as [rs' j]. intros (ip & [= -> ->] & A1 & A2 & A3 & A4). wp_step. exists ip. auto.
Qed.

(** ** Opening a file that exists *)

Context (dw : Z -> option (nat -> list Z -> K fs (option Z))) (junk : list Z).

(** The inode that [open] finds, unless it is a directory that would be written. *)
Definition opens (s : fs) (c : inode) (path : list Z) (omode : Z) : option Z :=
  match walk_path false s (start c path) (elements path) with
  | Some (i, _) => if is_dir s i && negb (omode =? O_RDONLY) then None else Some i
  | None => None
  end.

Lemma wp_open_path s cwd c path omode : tree ds s -> sound [] s -> (2 <= frees s)%nat -> icache s !! cwd = Some c -> 0 < ref c -> live s (start c path) ->
  Forall (fun x => x <> 0) path -> Z.land omode O_CREATE = 0 ->
  wp (open_path dr dw junk cwd path omode) (fun r s' =>
    match opens s c path omode with
    | Some i => exists ip, r = Some ip /\ taken [ip] s i ip s' /\ live s i
    | None => r = None /\ returned s s'
    end) s.
Proof.
  intros T S0 Hfree Hc Hr Hl Hz Hom. unfold open_path, opens. rewrite Hom. cbn [Z.eqb negb]. unfold namei. apply wp_bind, wp_bind.
  eapply wp_mono; [apply (wp_namex ds dr s cwd c path false (replicate 14 0) T S0 Hfree Hc Hr Hl Hz eq_refl)|].
  intros r s1 Hf. wp_step. unfold found_at in Hf. destruct (walk_path _ _ _ _) as [[i e]|]; [|destruct Hf as [-> R]; apply wp_ret; auto].
  destruct Hf as (ip & nm & -> & Tk & Hli & _). cbn [fst fmap option_fmap option_map].
  apply wp_bind. eapply wp_mono; [apply (taken_lock ds _ _ _ _ (tr_formatted _ _ T) Tk Hli)|]. intros [] s2 (Tk2 & w & Hw & Hp).
  apply wp_bind. eapply wp_get_inode; [exact Hw|]. assert (Et : (itype w =? T_DIR) = is_dir s i) by (unfold is_dir; rewrite <- Hp; reflexivity). rewrite Et.
  destruct (is_dir s i && negb (omode =? O_RDONLY)); [|wp_step; exists ip; auto].
  apply wp_bind. eapply wp_mono; [apply (taken_unlockput _ _ _ _ S0 Tk2 Hli)|]. intros [] s3 R. wp_step. auto.
Qed.

(** The fields that [open] gives a file. *)
Definition opened_file (ip : nat) (omode : Z) (fl : File.file) : Prop :=
  File.f_type fl = File.FD_INODE /\ File.ref fl = 1 /\ File.ip fl = Z.of_nat ip /\ File.off fl = 0 /\
  File.readable fl = (Z.land omode File.O_WRONLY =? 0) /\ File.writable fl = negb (Z.land omode File.O_WRONLY =? 0) || negb (Z.land omode File.O_RDWR =? 0).

(** A file and a descriptor for it have been given out. *)
Record given (me : nat) (t : list (option nat)) (ip : nat) (omode : Z) (x : File.sys) (fd : nat) (x' : File.sys) : Prop := {
  gv_balanced : FileFacts.balanced x';
  gv_fd : t !! fd = Some None;
  gv_file : exists f fl, File.ofile x' = <[me := <[fd := Some f]> t]> (File.ofile x) /\ File.ftable x' !! f = Some fl /\ opened_file ip omode fl /\
    (forall g, g <> f -> File.ftable x' !! g = File.ftable x !! g) /\ (exists w, File.ftable x !! f = Some w /\ File.ref w = 0);
  gv_closings : File.closings x' = File.closings x;
}.

Definition with_files (x : File.sys) (st : state) : state :=
  State (fsys st) x (pipes st) (kern st) (reads st) (writes st) (outstanding st) (commits st).

Lemma wp_open_files {A} (m : K File.sys A) (Q : A -> state -> Prop) s x st :
  wp m (fun a x' => Q a (begun s (with_files x' st))) x -> wp (on_files m) Q (begun s (with_files x st)).
Proof. intros Hm. apply wp_zoom. exact Hm. Qed.

(** The call fails and nothing is left of it. *)
Record refused (s : fs) (x : File.sys) (r : Z) (s' : fs) (x' : File.sys) : Prop := {
  rf_result : r = -1;
  rf_returned : returned s s';
  rf_balanced : FileFacts.balanced x';
  rf_tables : File.ofile x' = File.ofile x;
  rf_closings : File.closings x' = File.closings x;
}.

Lemma wp_refuse st s i ip s1 x' : sound [] s -> taken [ip] s i ip s1 -> live s i -> FileFacts.balanced x' -> File.ofile x' = File.ofile (files st) ->
  File.closings x' = File.closings (files st) ->
  wp (on_fs (iunlockput ip) ;; end_op ;; mret (-1)) (fun r st' => exists s', st' = after s' (with_files x' st) /\ refused s (files st) r s' x') (begun s1 (with_files x' st)).
Proof.
  intros S0 Tk Hli B1 B2 B3. apply wp_bind, wp_inside. eapply wp_mono; [apply (taken_unlockput _ _ _ _ S0 Tk Hli)|]. intros [] s2 R.
  apply wp_bind, wp_end. wp_step. exists s2. split; [reflexivity|]. constructor; auto.
Qed.

Lemma wp_sys_open st me t cwd c path omode : let s := fsys st in
  tree ds s -> sound [] s -> (2 <= frees s)%nat -> icache s !! cwd = Some c -> 0 < ref c -> live s (start c path) ->
  Forall (fun x => x <> 0) path -> Z.land omode O_CREATE = 0 -> FileFacts.balanced (files st) -> File.ofile (files st) !! me = Some t ->
  wp (sys_open dr dw junk me cwd (Some path) (Some omode)) (fun r st' => exists s' x', st' = after s' (with_files x' st) /\
    ((exists i ip fd, r = Z.of_nat fd /\ opens s c path omode = Some i /\ taken [] s i ip s' /\ given me t ip omode (files st) fd x') \/
     (refused s (files st) r s' x' /\
      (opens s c path omode = None \/ Forall (fun v => File.ref v <> 0) (File.ftable (files st)) \/ Forall (fun x => x <> None) t)))) st.
Proof.
  intros s T S0 Hfree Hc Hr Hl Hz Hom Hb Ht. unfold sys_open. apply wp_bind, wp_begin, wp_bind, wp_inside. fold s.
  eapply wp_mono; [apply (wp_open_path s cwd c path omode T S0 Hfree Hc Hr Hl Hz Hom)|]. intros r s1 Ho.
  assert (Hst : forall x, begun x st = begun x (with_files (files st) st)) by (intros x; destruct st; reflexivity).
  destruct (opens s c path omode) as [i|] eqn:Eo.
  2: { destruct Ho as [-> R]. apply wp_bind, wp_end. wp_step. exists s1, (files st). split; [destruct st; reflexivity|]. right. split; [constructor; auto|auto]. }
  destruct Ho as (ip & -> & Tk & Hli). rewrite Hst. apply wp_bind, wp_open_files. apply (FileFacts.wp_filealloc _ _ _ Hb).
  { intros Hfull. eapply wp_mono; [apply (wp_refuse st s i ip s1 (files st) S0 Tk Hli Hb eq_refl eq_refl)|]. intros r st' (s' & -> & H). exists s', (files st). split; [reflexivity|]. right. split; [exact H|]. right. left. exact Hfull. }
  intros f x1 Hi1 (Ho1 & Hc1 & Hlen & (w0 & Hw0 & Hr0) & (v & Hv & Hrv & Htv) & Hg). rewrite <- Ho1 in Ht.
  apply wp_bind, wp_open_files. apply (FileFacts.fdalloc_spec _ x1 me t f _ Hi1 Ht); [eapply lookup_lt_Some, Hv| |].
  - intros Hfull. apply wp_bind, wp_open_files. eapply (FileFacts.wp_fileclose _ x1 f v); [exact Hi1|exact Hv|lia|]. intros x2 Hi2 Ho2 _ Hc2 _.
    rewrite Hrv in Hc2. unfold FileFacts.closing_of in Hc2. rewrite Htv, app_nil_r in Hc2.
    assert (B2 : FileFacts.balanced x2) by (eapply FileFacts.inv_ext; [|exact Hi2]; intros k; rewrite FileFacts.bump_bump; apply FileFacts.bump_0).
    eapply wp_mono; [apply (wp_refuse st s i ip s1 x2 S0 Tk Hli B2); congruence|]. intros r st' (s' & -> & H). exists s', x2. split; [reflexivity|]. right. split; [exact H|]. right. right. exact Hfull.
  - intros fd Hfd Hi2. set (x2 := File.set_ofile _ _) in *. apply wp_bind, wp_inside. eapply wp_mono; [apply (taken_unlock _ _ _ _ Tk)|]. intros [] s2 Tk2.
    apply wp_bind, wp_end, wp_bind, wp_zoom. eapply FileFacts.wp_get_file; [exact Hv|]. apply wp_bind, wp_put_file. wp_step.
    set (fl := File.MkFile _ _ _ _ _ _ _). exists s2, (File.set_ftable (<[f := fl]> (File.ftable x2)) x2). split; [reflexivity|]. left. exists i, ip, fd.
    split; [reflexivity|]. split; [reflexivity|]. split; [exact Tk2|]. constructor.
    + pose proof (FileFacts.inv_put _ x2 f v fl Hi2 Hv) as H. cbn [fl File.ref] in H. rewrite Hrv in H. specialize (H ltac:(lia) ltac:(lia)).
      eapply FileFacts.inv_ext; [|exact H]. intros k. rewrite !FileFacts.bump_bump. apply FileFacts.bump_0.
    + exact Hfd.
    + exists f, fl. split; [|split; [apply list_lookup_insert_eq; eapply lookup_lt_Some, Hv|split; [repeat split; exact Hrv|split; [|eauto]]]].
      * cbn. rewrite <- Ho1. apply list_eq. intros k. destruct (decide (k = me)) as [->|Hne].
        -- rewrite list_lookup_alter_eq, Ht, list_lookup_insert_eq by (eapply lookup_lt_Some, Ht). reflexivity.
        -- rewrite list_lookup_alter_ne, list_lookup_insert_ne by congruence. reflexivity.
      * intros g Hne. cbn. rewrite list_lookup_insert_ne by congruence. apply Hg, Hne.
    + exact Hc1.
Qed.
End calls.
End PathFacts.

Module PathProps.
Import Fs FsFacts DirFacts CacheFacts NameiFacts FileIO FileIOFacts Path PathFacts.

(** The current directory of a process.  Over any sequence of calls of [chdir], whichever of
    them fail, each call returns 0 exactly when its path leads to a directory from where the process
    then is, and the process ends in the directory that the successful ones lead to.  The process
    holds exactly one reference to its current directory throughout: all other references of the
    inode cache are as before, and the disk and the open files are not touched. *)
Theorem chdir_sequence ds dr o room st cwd i paths : holds ds o room (fsys st) cwd i -> (forall k, 0 <= o k) -> (3 <= room)%nat -> live (fsys st) ROOTINO ->
  Forall (Forall (fun x => x <> 0)) paths ->
  wp (chdirs dr cwd paths) (fun r st' => exists ip, r = ((chdirs_to (fsys st) i paths).1, ip) /\
    holds ds o room (fsys st') ip (chdirs_to (fsys st) i paths).2 /\ blocks (fsys st') = blocks (fsys st) /\ files st' = files st) st.
Proof.
  intros H Ho Hroom Hroot Hz. eapply wp_mono; [apply (wp_chdirs ds dr o room (fsys st) Ho Hroom Hroot paths st cwd i Hz H eq_refl eq_refl)|].
  intros r st'. destruct (chdirs_to (fsys st) i paths) as [rs j]. intros (ip & -> & H1 & H2 & H3 & _). exists ip. auto.
Qed.

(** C27: Opening a file that exists.  Without [O_CREATE], [open] returns a descriptor that was free
    and now names a file that was free and now stands for the inode the path leads to, at offset 0,
    with the access that the mode asks for and with the one reference to that inode that the call has taken;
    all other files and descriptors are as before and the counts of the files agree with the
    descriptors.  It returns -1 only if the path leads nowhere or to a directory that would be
    written, or if the files or the descriptors are all in use, and then every reference, to inodes
    and to files, has been given back.  Either way no inode is left locked and the log's operation has
    ended. *)
Theorem open_existing ds dr dw junk st me t cwd c path omode : let s := fsys st in
  tree ds s -> sound [] s -> (2 <= frees s)%nat -> icache s !! cwd = Some c -> 0 < ref c -> live s (start c path) ->
  Forall (fun x => x <> 0) path -> Z.land omode O_CREATE = 0 -> FileFacts.balanced (files st) -> File.ofile (files st) !! me = Some t ->
  wp (sys_open dr dw junk me cwd (Some path) (Some omode)) (fun r st' => outstanding st' = outstanding st /\
    ((exists i ip fd, r = Z.of_nat fd /\ opens s c path omode = Some i /\ taken [] s i ip (fsys st') /\ given me t ip omode (files st) fd (files st')) \/
     (refused s (files st) r (fsys st') (files st') /\
      (opens s c path omode = None \/ Forall (fun v => File.ref v <> 0) (File.ftable (files st)) \/ Forall (fun x => x <> None) t)))) st.
Proof.
  intros s T S0 Hfree Hc Hr Hl Hz Hom Hb Ht. eapply wp_mono; [apply (wp_sys_open ds dr dw junk st me t cwd c path omode T S0 Hfree Hc Hr Hl Hz Hom Hb Ht)|].
  intros r st' (s' & x' & -> & H). split; [reflexivity|exact H].
Qed.

(** The process in [/bin], with no file open. *)
Definition at_home : state := with_files FileProps.boot (set_fsys NameiProps.home FileIOProps.demo).

Lemma at_home_holds : holds 4 (fun _ => 0) 3 (fsys at_home) 0 2.
Proof.
  constructor.
  - exact NameiProps.home_tree.
  - exact NameiProps.home_sound.
  - exists NameiProps.home_cwd. repeat split.
  - apply NameiProps.home_live. auto.
  - intros j. destruct (decide (j = 2)) as [->|Hne]; [reflexivity|].
    apply refs_zero. intros [|jp] v Hv E; [injection Hv as <-; cbn in E; congruence|]. cbn in Hv. apply (lookup_replicate 2) in Hv as [-> _]. reflexivity.
  - reflexivity.
Qed.

Lemma chdir_sequence_witness : exists ip st', chdirs (fun _ => None) 0 [[46; 46]; [98; 105; 110; 47; 115; 104]; [47; 98; 105; 110]] at_home = Ok (([0; -1; 0], ip), st') /\
  refs (fsys st') 2 = 1 /\ refs (fsys st') 1 = 0.
Proof.
  destruct (chdir_sequence 4 (fun _ => None) (fun _ => 0) 3 at_home 0 2 [[46; 46]; [98; 105; 110; 47; 115; 104]; [47; 98; 105; 110]]) as (r & st' & E & ip & -> & H & _).
  - exact at_home_holds.
  - intros k. lia.
  - lia.
  - apply NameiProps.home_live. auto.
  - repeat constructor; discriminate.
  - change (chdirs_to _ _ _) with ([0; -1; 0], 2) in H, E. exists ip, st'. split; [exact E|]. cbn [snd] in H. rewrite !(ho_refs _ _ _ _ _ _ H). split; reflexivity.
Defined.

Lemma open_existing_witness : exists st' fd f fl, sys_open (fun _ => None) (fun _ => None) [] 0 0 (Some [115; 104]) (Some 2) at_home = Ok (Z.of_nat fd, st') /\
  File.ftable (files st') !! f = Some fl /\ File.writable fl = true /\ refs (fsys st') 3 = 1.
Proof.
  destruct (open_existing 4 (fun _ => None) (fun _ => None) [] at_home 0 (replicate 16 None) 0 NameiProps.home_cwd [115; 104] 2) as (r & st' & E & _ & H).
  - exact NameiProps.home_tree.
  - exact NameiProps.home_sound.
  - vm_compute. lia.
  - reflexivity.
  - reflexivity.
  - apply NameiProps.home_live. auto.
  - repeat constructor; discriminate.
  - reflexivity.
  - exact FileProps.boot_balanced.
  - reflexivity.
  - change (opens _ _ _ _) with (Some 3) in H. destruct H as [(i & ip & fd & -> & [= <-] & T & [_ _ (f & fl & _ & Hf & (_ & _ & _ & _ & _ & Hw) & _) _])|[_ [H|[H|H]]]].
    + exists st', fd, f, fl. rewrite (tk_refs _ _ _ _ _ T). split; [exact E|]. split; [exact Hf|]. split; [exact Hw|reflexivity].
    + discriminate.
    + exfalso. rewrite Forall_lookup in H. exact (H O _ eq_refl eq_refl).
    + exfalso. rewrite Forall_lookup in H. exact (H O _ eq_refl eq_refl).
Defined.
End PathProps.
