(* ===== verification/Print.v ===== *)
(** Output and text of user programs: printf.c, and the string functions, [gets] and
    [atoi] of ulib.c.

    A C string is the list of its characters without the terminating NUL; [char] is
    signed, but only characters below 128 are compared with constants here, so that
    characters are bytes.  What is printed is the list of the bytes written, one
    [write] each. *)

From S2P Require Import Prelude Grep.

Module Print.

Definition MINUS : Z := 45.
Definition PERCENT : Z := 37.
Definition ZERO : Z := 48.

(** ** printf.c *)

(** "0123456789ABCDEF" *)
Definition digit (k : Z) : Z := if k <? 10 then 48 + k else 55 + k.

(** The [do] loop; [room] is what is left of [buf]. *)
Fixpoint digits_loop (room : nat) (x base : Z) : res (list Z) :=
  match room with
  | O => Fault "buf"
  | S room' =>
      if x / base =? 0 then Ok [digit (x mod base)]
      else l ← digits_loop room' (x / base) base; Ok (digit (x mod base) :: l)
  end.

Definition printint (xx base : Z) (sgn : bool) : res (list Z) :=
  let neg := sgn && (xx <? 0) in
  let x := if neg then u32 (- xx) else u32 xx in
  buf ← digits_loop 16 x base;
  if neg then if (length buf <? 16)%nat then Ok (rev (buf ++ [MINUS])) else Fault "buf"
  else Ok (rev buf).

(** The variable arguments are words; [string_at] gives the string a pointer points to. *)
Section printf.
Context (string_at : Z -> list Z).

Definition null_text : list Z := [40; 110; 117; 108; 108; 41].

Fixpoint printf_loop (fmt : list Z) (percent : bool) (ap : list Z) : res (list Z) :=
  match fmt with
  | [] => Ok []
  | c :: fmt' =>
      if c =? 0 then Ok []
      else if negb percent then
        if c =? PERCENT then printf_loop fmt' true ap
        else l ← printf_loop fmt' false ap; Ok (c :: l)
      else
        let arg (print : Z -> res (list Z)) :=
          match ap with
          | [] => Fault "missing argument"
          | a :: ap' => o ← print a; l ← printf_loop fmt' false ap'; Ok (o ++ l)
          end in
        if c =? 100 then arg (fun a => printint (s32 a) 10 true)
        else if (c =? 120) || (c =? 112) then arg (fun a => printint (s32 a) 16 false)
        else if c =? 115 then arg (fun a => Ok (if a =? 0 then null_text else string_at a))
        else if c =? 99 then arg (fun a => Ok [u8 a])
        else if c =? PERCENT then l ← printf_loop fmt' false ap; Ok (c :: l)
        else l ← printf_loop fmt' false ap; Ok (PERCENT :: c :: l)
  end.
Definition printf (fmt : list Z) (ap : list Z) : res (list Z) := printf_loop fmt false ap.
End printf.

(** ** ulib.c *)

Definition strlen (s : list Z) : Z := Z.of_nat (length (Grep.upto_nul s)).
(** What is stored at the destination, NUL included. *)
Definition strcpy (t : list Z) : list Z := Grep.upto_nul t ++ [0].

Fixpoint strcmp (p q : list Z) : Z :=
  match p with
  | [] => 0 - u8 (Grep.deref q)
  | a :: p' =>
      if a =? 0 then u8 a - u8 (Grep.deref q)
      else match q with
           | [] => u8 a - 0
           | b :: q' => if a =? b then strcmp p' q' else u8 a - u8 b
           end
  end.

Fixpoint atoi_loop (s : list Z) (n : Z) : Z :=
  match s with
  | [] => n
  | c :: s' => if (48 <=? c) && (c <=? 57) then atoi_loop s' (s32 (s32 (s32 (n * 10) + c) - 48)) else n
  end.
Definition atoi (s : list Z) : Z := atoi_loop s 0.

Section gets.
Context {F : Type} `{Reader F}.

(** [i+1 < max] holds for [room] more characters. *)
Fixpoint gets_loop (room : nat) (fd : F) : list Z * F :=
  match room with
  | O => ([], fd)
  | S room' =>
      match read fd 1 with
      | (Some (c :: _), fd') =>
          if (c =? 10) || (c =? 13) then ([c], fd')
          else let '(l, fd') := gets_loop room' fd' in (c :: l, fd')
      | (_, fd') => ([], fd')
      end
  end.
Definition gets (max : Z) (fd : F) : list Z * F :=
  let '(l, fd) := gets_loop (Z.to_nat (max - 1)) fd in (l ++ [0], fd).
End gets.
End Print.

Module PrintFacts.
Import Print.

(** The value of a digit and of a sequence of digits, most significant first. *)
Definition undigit (c : Z) : Z := if c <? 58 then c - 48 else c - 55.
Definition value (base : Z) (l : list Z) : Z := foldl (fun n c => n * base + undigit c) 0 l.

Lemma undigit_digit k : 0 <= k < 16 -> undigit (digit k) = k.
Proof.
  intros Hk. unfold digit, undigit. destruct (k <? 10) eqn:E.
  - apply Z.ltb_lt in E. rewrite (proj2 (Z.ltb_lt _ _)) by lia. lia.
  - apply Z.ltb_ge in E. rewrite (proj2 (Z.ltb_ge _ _)) by lia. lia.
Qed.

Lemma value_snoc base l c : value base (l ++ [c]) = value base l * base + undigit c.
Proof. unfold value. rewrite foldl_app. reflexivity. Qed.

Definition is_digit (base c : Z) : Prop := exists k, 0 <= k < base /\ c = digit k.

(** The loop leaves the digits of [x], least significant first, without leading zeros. *)
Lemma digits_loop_spec base : 2 <= base <= 16 -> forall room x, 0 <= x < base ^ Z.of_nat room -> (0 < room)%nat ->
  exists l, digits_loop room x base = Ok l /\ value base (rev l) = x /\ (length l <= room)%nat /\
    Forall (is_digit base) l /\ (0 < x -> exists c, last l = Some c /\ c <> digit 0) /\ (x = 0 -> l = [digit 0]).
Proof.
  intros Hb. induction room as [|room IH]; intros x Hx Hr; [lia|]. cbn [digits_loop].
  pose proof (Z.mod_pos_bound x base ltac:(lia)) as Hm. pose proof (Z.div_mod x base ltac:(lia)) as Hd.
  pose proof (Z.div_pos x base ltac:(lia) ltac:(lia)) as Hq.
  assert (Hdig : is_digit base (digit (x mod base))) by (exists (x mod base); auto).
  destruct (x / base =? 0) eqn:E.
  - apply Z.eqb_eq in E. exists [digit (x mod base)]. split; [reflexivity|].
    assert (Ex : x = x mod base) by lia. split; [cbn; rewrite undigit_digit by lia; lia|].
    split; [cbn; lia|]. split; [apply Forall_singleton, Hdig|]. split.
    + intros Hp. eexists. split; [reflexivity|]. intros Ez. apply (f_equal undigit) in Ez.
      rewrite !undigit_digit in Ez by lia. lia.
    + intros ->. reflexivity.
  - apply Z.eqb_neq in E. destruct room as [|room'].
    { exfalso. change (base ^ Z.of_nat 1) with (base ^ 1) in Hx. rewrite Z.pow_1_r in Hx. apply E, Z.div_small. lia. }
    destruct (IH (x / base)) as (l & -> & Hv & Hl & Hall & Hlead & _); [|lia|].
    + split; [exact Hq|]. apply Z.div_lt_upper_bound; [lia|]. rewrite <- Z.pow_succ_r, <- Nat2Z.inj_succ by lia. apply Hx.
    + exists (digit (x mod base) :: l). split; [reflexivity|]. cbn [rev]. rewrite value_snoc, Hv, undigit_digit by lia.
      split; [lia|]. split; [cbn [length]; lia|]. split; [apply Forall_cons; auto|]. split; [|intros ->; exfalso; apply E; reflexivity].
      intros _. destruct (Hlead ltac:(lia)) as (c & Hc & Hc0). exists c. split; [|exact Hc0].
      rewrite last_cons, Hc. reflexivity.
Qed.

Lemma digits_loop_more room : forall x base l, digits_loop room x base = Ok l -> digits_loop (S room) x base = Ok l.
Proof.
  induction room as [|room IH]; intros x base l E; [discriminate|]. cbn [digits_loop] in E. remember (S room) as r. cbn [digits_loop]. subst r.
  destruct (x / base =? 0); [exact E|]. destruct (digits_loop room (x / base) base) as [l'|?|?|] eqn:E'; try discriminate.
  rewrite (IH _ _ _ E'). exact E.
Qed.

Lemma Forall_rev_list (P : Z -> Prop) l : Forall P l -> Forall P (rev l).
Proof. intros Hl. rewrite Forall_forall in *. intros c Hc. apply Hl. apply list_elem_of_In, in_rev, list_elem_of_In, Hc. Qed.

(** [atoi] of a number that fits. *)
Lemma atoi_value l n : Forall (is_digit 10) l -> 0 <= n ->
  foldl (fun n c => n * 10 + undigit c) n l < 2147483648 -> atoi_loop l n = foldl (fun n c => n * 10 + undigit c) n l.
Proof.
  intros Hl. revert n. induction Hl as [|c l (k & Hk & ->) Hl IH]; intros n Hn Hv; [reflexivity|].
  cbn [atoi_loop foldl] in *. rewrite undigit_digit in * by lia.
  assert (Ed : digit k = 48 + k) by (unfold digit; rewrite (proj2 (Z.ltb_lt _ _)) by lia; reflexivity).
  rewrite Ed, (proj2 (Z.leb_le _ _)), (proj2 (Z.leb_le _ _)) by lia. cbn [andb].
  assert (Hmono : n * 10 + k <= foldl (fun n c => n * 10 + undigit c) (n * 10 + k) l).
  { clear IH Hv. generalize (n * 10 + k) (ltac:(lia) : 0 <= n * 10 + k). induction Hl as [|c l (j & Hj & ->) Hl IH]; intros m Hm; cbn [foldl]; [lia|].
    rewrite undigit_digit by lia. pose proof (IH (m * 10 + j) ltac:(lia)). lia. }
  replace (s32 (s32 (s32 (n * 10) + (48 + k)) - 48)) with (n * 10 + k); [apply IH; lia|].
  rewrite (s32_id (n * 10)) by (unfold is_s32; lia).
  assert (Es : s32 (s32 (n * 10 + (48 + k)) - 48) = s32 (n * 10 + k)).
  { assert (Eu : u32 (s32 (n * 10 + (48 + k)) - 48) = u32 (n * 10 + k)).
    { unfold u32 at 1. rewrite Zminus_mod. fold (u32 (s32 (n * 10 + (48 + k)))). rewrite u32_s32. unfold u32.
      rewrite <- Zminus_mod. f_equal. lia. }
    unfold s32 at 1. rewrite Eu. reflexivity. }
  rewrite Es, s32_id by (unfold is_s32; lia). reflexivity.
Qed.

Lemma atoi_digits l : Forall (is_digit 10) l -> value 10 l < 2147483648 -> atoi l = value 10 l.
Proof. intros Hl Hv. apply atoi_value; [exact Hl|lia|exact Hv]. Qed.

(** ** [gets] *)

Lemma gets_prefix {F} `{Reader F} room : forall fd l fd', gets_loop room fd = (l, fd') ->
  (length l <= room)%nat /\ exists k, pending fd = l ++ k.
Proof.
  induction room as [|room IH]; intros fd l fd' E; cbn [gets_loop] in E.
  - injection E as <- <-. split; [cbn; lia|]. eexists. reflexivity.
  - destruct (read fd 1) as [[[|c cs]|] fd1] eqn:Er.
    1,3: injection E as <- <-; split; [cbn; lia|eexists; reflexivity].
    apply read_prefix in Er as [Ep El]. cbn [length] in El. assert (cs = []) as -> by (destruct cs; [reflexivity|cbn in El; lia]).
    destruct ((c =? 10) || (c =? 13)).
    + injection E as <- <-. split; [cbn; lia|]. eexists. exact Ep.
    + destruct (gets_loop room fd1) as [l1 fd2] eqn:E1. injection E as <- <-. destruct (IH _ _ _ E1) as [H1 [k H2]].
      split; [cbn [length]; lia|]. exists k. rewrite Ep, H2. reflexivity.
Qed.
End PrintFacts.

Module PrintProps.
Import Print PrintFacts.

(** Printed numbers.  [printint] of any [int] never overruns its buffer and prints a minus
    sign exactly for signed negative numbers, followed by digits of the base without leading
    zeros whose value is the number's magnitude ([unsigned] when not signed); and [atoi] reads
    a printed non-negative decimal number back. *)
Theorem printint_roundtrip xx base sgn : is_s32 xx -> base = 10 \/ base = 16 ->
  let x := if sgn && (xx <? 0) then - xx else u32 xx in
  exists ds, printint xx base sgn = Ok ((if sgn && (xx <? 0) then [MINUS] else []) ++ ds) /\
    value base ds = x /\ Forall (is_digit base) ds /\ (0 < x -> head ds <> Some ZERO) /\
    (base = 10 -> 0 <= xx -> atoi ds = xx).
Proof.
  intros Hx Hb. cbn zeta. unfold printint. set (neg := sgn && (xx <? 0)).
  set (x := if neg then - xx else u32 xx). pose proof (u32_is_u32 xx) as Hu. unfold is_s32, is_u32 in *.
  assert (Hneg : neg = true -> xx < 0) by (unfold neg; intros H; apply andb_true_iff in H as [_ H]; apply Z.ltb_lt, H).
  assert (Ex : (if neg then u32 (- xx) else u32 xx) = x).
  { unfold x. destruct neg; [|reflexivity]. apply u32_id. unfold is_u32. specialize (Hneg eq_refl). lia. }
  assert (Hr : 0 <= x < 4294967296) by (unfold x; destruct neg; [specialize (Hneg eq_refl); lia|exact Hu]).
  assert (Hpow : 4294967296 <= base ^ Z.of_nat 15) by (destruct Hb as [->| ->]; vm_compute; discriminate).
  destruct (digits_loop_spec base ltac:(lia) 15 x ltac:(lia) ltac:(lia)) as (l & El & Hv & Hl & Hall & Hlead & _).
  rewrite Ex, (digits_loop_more 15 x base l El). cbn [mbind res_bind]. exists (rev l). split; [|split; [exact Hv|split; [|split]]].
  - destruct neg; [|reflexivity]. rewrite (proj2 (Nat.ltb_lt _ _)) by lia. rewrite rev_app_distr. reflexivity.
  - apply Forall_rev_list, Hall.
  - intros Hp. destruct (Hlead Hp) as (c & Hc & Hc0). apply last_Some in Hc as [l' ->]. rewrite rev_app_distr. intros [= ->]. apply Hc0. reflexivity.
  - intros -> Hn. assert (Hx0 : x = xx).
    { unfold x. destruct neg; [specialize (Hneg eq_refl); lia|]. apply u32_id. unfold is_u32. lia. }
    rewrite atoi_digits; [congruence|apply Forall_rev_list, Hall|lia].
Qed.

Lemma printint_roundtrip_witness : printint (-2147483648) 10 true = Ok [45; 50; 49; 52; 55; 52; 56; 51; 54; 52; 56] /\
  exists ds, printint (-1) 16 false = Ok ds /\ value 16 ds = 4294967295.
Proof.
  split; [reflexivity|]. destruct (printint_roundtrip (-1) 16 false) as (ds & E & Hv & _); [unfold is_s32; lia|right; reflexivity|].
  exists ds. split; [exact E|exact Hv].
Defined.
End PrintProps.
