(* ===== verification/Printfmt.v ===== *)
(** Formatted output of libraries (printfmt.c): [vprintfmt] and what writes its characters to a buffer.

    What [vprintfmt] does is the sequence of the calls of [putch]; the format is a list of characters
    without the terminating NUL, with a position in it, because unknown sequences are printed by going
    back.  The variable arguments are values of the types they are read with.  The number of error
    codes and their texts come from a header that is not part of the sources. *)

From S2P Require Import Prelude Grep Print.

Module Printfmt.

(** A word of 32 bits, a [long long], or a string or null pointer. *)
Inductive arg := AWord (x : Z) | ALong (x : Z) | AStr (s : option (list Z)).

(** "0123456789abcdef" *)
Definition hex (k : Z) : Z := if k <? 10 then 48 + k else 87 + k.

(** A value of an [int], and one of a [long long]: going out of their range is undefined. *)
Definition int_of (x : Z) : res Z := if (-2147483648 <=? x) && (x <? 2147483648) then Ok x else Fault "signed overflow".
Definition llong_of (x : Z) : res Z :=
  if (-9223372036854775808 <=? x) && (x <? 9223372036854775808) then Ok x else Fault "signed overflow".

(** [while (--width > 0) putch(padc)] *)
Definition padding (width padc : Z) : res (list Z) := width ← int_of (width - 1); Ok (replicate (Z.to_nat width) padc).

(** A number has fewer digits than [fuel]. *)
Fixpoint printnum (fuel : nat) (num base width padc : Z) : res (list Z) :=
  match fuel with
  | O => Fault "out of fuel"
  | S fuel =>
      before ← (if base <=? num then width ← int_of (width - 1); printnum fuel (num / base) base width padc
                else padding width padc);
      Ok (before ++ [hex (num mod base)])
  end.

Definition pop {A} (f : arg -> option A) (ap : list arg) : res (A * list arg) :=
  match ap with
  | a :: ap => match f a with Some x => Ok (x, ap) | None => Fault "argument" end
  | [] => Fault "argument"
  end.
Definition word (ap : list arg) : res (Z * list arg) := pop (fun a => match a with AWord x => Some x | _ => None end) ap.
Definition long (ap : list arg) : res (Z * list arg) := pop (fun a => match a with ALong x => Some x | _ => None end) ap.
Definition str (ap : list arg) : res (option (list Z) * list arg) := pop (fun a => match a with AStr s => Some s | _ => None end) ap.

Definition u64 (x : Z) : Z := x mod 18446744073709551616.
Definition s64 (x : Z) : Z := let y := u64 x in if y <? 9223372036854775808 then y else y - 18446744073709551616.

Definition getuint (ap : list arg) (lflag : Z) : res (Z * list arg) :=
  if 2 <=? lflag then '(x, ap) ← long ap; Ok (u64 x, ap)
  else '(x, ap) ← word ap; Ok (u32 x, ap).
Definition getint (ap : list arg) (lflag : Z) : res (Z * list arg) :=
  if 2 <=? lflag then '(x, ap) ← long ap; Ok (s64 x, ap)
  else '(x, ap) ← word ap; Ok (s32 x, ap).

(** The state of an escape sequence. *)
Record spec := Spec { padc : Z; width : Z; precision : Z; lflag : Z; altflag : bool }.
Definition fresh : spec := Spec 32 (-1) (-1) 0 false.
Definition set_padc (c : Z) (s : spec) : spec := Spec c (width s) (precision s) (lflag s) (altflag s).
Definition process_precision (precision : Z) (s : spec) : spec :=
  if width s <? 0 then Spec (padc s) precision (-1) (lflag s) (altflag s) else Spec (padc s) (width s) precision (lflag s) (altflag s).

(** The character at a position; the one after the last is NUL. *)
Definition char_at (fmt : list Z) (pos : nat) : res Z :=
  if (pos <? length fmt)%nat then Ok (fmt !!! pos) else if (pos =? length fmt)%nat then Ok 0 else Fault "read outside the format".

(** The loop over the digits of a width: the number, and the position after it. *)
Fixpoint number (fuel : nat) (fmt : list Z) (precision ch : Z) (pos : nat) : res (Z * nat) :=
  match fuel with
  | O => Fault "out of fuel"
  | S fuel =>
      p ← int_of (precision * 10 + ch - 48);
      ch ← char_at fmt pos;
      if (ch <? 48) || (57 <? ch) then Ok (p, pos) else number fuel fmt p ch (S pos)
  end.

(** [reswitch] while it reads flags: the character that ends them and the position after it. *)
Fixpoint flags (fuel : nat) (fmt : list Z) (pos : nat) (s : spec) (ap : list arg) : res (Z * nat * spec * list arg) :=
  match fuel with
  | O => Fault "out of fuel"
  | S fuel =>
      ch ← char_at fmt pos;
      let pos := S pos in
      if ch =? 45 then flags fuel fmt pos (set_padc 45 s) ap
      else if ch =? 48 then flags fuel fmt pos (set_padc 48 s) ap
      else if (49 <=? ch) && (ch <=? 57) then
        '(p, pos) ← number (S (length fmt)) fmt 0 ch pos;
        flags fuel fmt pos (process_precision p s) ap
      else if ch =? 42 then
        '(p, ap) ← word ap;
        flags fuel fmt pos (process_precision (s32 p) s) ap
      else if ch =? 46 then flags fuel fmt pos (Spec (padc s) (if width s <? 0 then 0 else width s) (precision s) (lflag s) (altflag s)) ap
      else if ch =? 35 then flags fuel fmt pos (Spec (padc s) (width s) (precision s) (lflag s) true) ap
      else if ch =? 108 then
        l ← int_of (lflag s + 1);
        flags fuel fmt pos (Spec (padc s) (width s) (precision s) l (altflag s)) ap
      else Ok (ch, pos, s, ap)
  end.

(** [for (fmt--; fmt[-1] != '%'; fmt--)] *)
Fixpoint rewind (fmt : list Z) (pos : nat) : res nat :=
  match pos with
  | O => Fault "read outside the format"
  | S pos' => if fmt !!! pos' =? 37 then Ok pos else rewind fmt pos'
  end.

Definition strnlen (p : list Z) (n : Z) : Z := if n <? 0 then Z.of_nat (length p) else Z.min (Z.of_nat (length p)) n.
Definition null_text : list Z := [40; 110; 117; 108; 108; 41].
(** The characters of [%s] that are printed; [char] is signed. *)
Definition visible (alt : bool) (c : Z) : Z := let ch := s8 c in if alt && ((ch <? 32) || (126 <? ch)) then 63 else ch.
(** [width--] for each of them.  A string ends below the end of the user or of the kernel half of memory, so it has at most 2^31 - 1
    characters. *)
Definition count_down (width : Z) (n : nat) : res Z := int_of (width - Z.min (Z.of_nat n) 2147483647).
Definition print_str (p : list Z) (s : spec) : res (list Z) :=
  let before := (0 <? width s) && negb (padc s =? 45) in
  let width1 := if before then width s - strnlen p (precision s) else width s in
  let shown := if precision s <? 0 then p else take (Z.to_nat (precision s)) p in
  width2 ← count_down (if before then Z.min width1 0 else width1) (length shown);
  Ok ((if before then replicate (Z.to_nat width1) (padc s) else []) ++ (visible (altflag s) <$> shown) ++
      replicate (Z.to_nat width2) 32).

Section errors.
Context (MAXERROR : Z) (error_string : Z -> option (list Z)).

(** "error %d" and "%s" *)
Definition error_fmt : list Z := [101; 114; 114; 111; 114; 32; 37; 100].
Definition str_fmt : list Z := [37; 115].

(** What the character [ch] prints, and the position and the arguments after it. *)
Definition convert (printfmt : list Z -> list arg -> res (list Z)) (fmt : list Z) (ch : Z) (pos : nat) (s : spec) (ap : list arg) : res (list Z * nat * list arg) :=
  let num x base := l ← printnum 65 x base (width s) (padc s); Ok l in
  if ch =? 99 then '(c, ap) ← word ap; Ok ([s32 c], pos, ap)
  else if ch =? 101 then
    '(err, ap) ← word ap;
    err ← (if s32 err <? 0 then int_of (- s32 err) else Ok (s32 err));
    out ← match (if MAXERROR <=? err then None else error_string err) with
          | None => printfmt error_fmt [AWord err]
          | Some p => printfmt str_fmt [AStr (Some p)]
          end;
    Ok (out, pos, ap)
  else if ch =? 115 then
    '(p, ap) ← str ap;
    l ← print_str (default null_text p) s;
    Ok (l, pos, ap)
  else if ch =? 100 then
    '(x, ap) ← getint ap (lflag s);
    y ← (if x <? 0 then y ← llong_of (- x); Ok (u64 y) else Ok x);
    l ← num y 10;
    Ok ((if x <? 0 then [45] else []) ++ l, pos, ap)
  else if ch =? 117 then '(x, ap) ← getuint ap (lflag s); l ← num x 10; Ok (l, pos, ap)
  else if ch =? 111 then Ok ([88; 88; 88], pos, ap)
  else if ch =? 112 then '(x, ap) ← word ap; l ← num (u32 x) 16; Ok ([48; 120] ++ l, pos, ap)
  else if ch =? 120 then '(x, ap) ← getuint ap (lflag s); l ← num x 16; Ok (l, pos, ap)
  else if ch =? 37 then Ok ([37], pos, ap)
  else pos ← rewind fmt (pos - 1); Ok ([37], pos, ap).

Fixpoint vprintfmt (fuel : nat) (fmt : list Z) (pos : nat) (ap : list arg) : res (list Z) :=
  match fuel with
  | O => Fault "out of fuel"
  | S fuel =>
      ch ← char_at fmt pos;
      let pos := S pos in
      if ch =? 37 then
        '(ch, pos, s, ap) ← flags (S (length fmt)) fmt pos fresh ap;
        '(out, pos, ap) ← convert (fun f => vprintfmt fuel f 0) fmt ch pos s ap;
        l ← vprintfmt fuel fmt pos ap; Ok (out ++ l)
      else if ch =? 0 then Ok []
      else l ← vprintfmt fuel fmt pos ap; Ok (ch :: l)
  end.
(** Every round moves forward, and a nested format has eight characters at most. *)
Definition fuel_of (fmt : list Z) : nat := length fmt + 10.
Definition printfmt (fmt : list Z) (ap : list arg) : res (list Z) := vprintfmt (fuel_of fmt) fmt 0 ap.

(** ** Printing to a buffer *)

(** The buffer, with the place of the next character and of the last, and the count. *)
Record sprintbuf := Sprintbuf { mem : list Z; pos : nat; ebuf : nat; cnt : Z }.
Definition poke (m : list Z) (i : nat) (x : Z) : res (list Z) := if (i <? length m)%nat then Ok (<[i := x]> m) else Fault "write outside the buffer".
Definition sprintputch (ch : Z) (b : sprintbuf) : res sprintbuf :=
  c ← int_of (cnt b + 1);
  if (pos b <? ebuf b)%nat then m ← poke (mem b) (pos b) (u8 ch); Ok (Sprintbuf m (S (pos b)) (ebuf b) c)
  else Ok (Sprintbuf (mem b) (pos b) (ebuf b) c).
Fixpoint put_all (out : list Z) (b : sprintbuf) : res sprintbuf :=
  match out with
  | [] => Ok b
  | ch :: out => b ← sprintputch ch b; put_all out b
  end.
(** The result and what is left in the memory of the buffer. *)
Definition vsnprintf (E_INVAL : Z) (buf : option (list Z)) (n : Z) (fmt : list Z) (ap : list arg) : res (Z * option (list Z)) :=
  match buf with
  | None => Ok (- E_INVAL, None)
  | Some m =>
      if n <? 1 then Ok (- E_INVAL, Some m)
      else
        out ← printfmt fmt ap;
        b ← put_all out (Sprintbuf m 0 (Z.to_nat (n - 1)) 0);
        m ← poke (mem b) (pos b) 0;
        Ok (cnt b, Some m)
  end.
Definition snprintf := vsnprintf.
End errors.
End Printfmt.

Module PrintfmtFacts.
Import Printfmt PrintFacts.

(** ** Numbers *)

Definition lower (c : Z) : Z := if c <? 58 then c else c + 32.

Lemma hex_digit k : 0 <= k < 16 -> hex k = lower (Print.digit k).
Proof.
  intros Hk. unfold hex, lower, Print.digit. destruct (Z.ltb_spec k 10); [rewrite (proj2 (Z.ltb_lt _ _)) by lia; reflexivity|]. rewrite (proj2 (Z.ltb_ge (55 + k) 58)) by lia. lia.
Qed.

(** The width of a number with [n] digits does not overflow. *)
Definition fits (width : Z) (n : nat) : bool := (width - 1 <? 2147483648) && (-2147483648 <=? width - Z.of_nat n).

Lemma fits_not width n : 2147483648 <= width - 1 \/ width - Z.of_nat n < -2147483648 -> fits width n = false.
Proof. unfold fits. destruct (Z.ltb_spec (width - 1) 2147483648), (Z.leb_spec (-2147483648) (width - Z.of_nat n)); lia. Qed.

(** The digits are those of printf.c, in lower case, after the padding. *)
Lemma printnum_digits base padc : 2 <= base <= 16 -> forall fuel num width l, 0 <= num -> Print.digits_loop fuel num base = Ok l ->
  printnum fuel num base width padc =
  if fits width (length l) then Ok (replicate (Z.to_nat (width - Z.of_nat (length l))) padc ++ (lower <$> rev l)) else Fault "signed overflow".
Proof.
  intros Hb. induction fuel as [|fuel IH]; intros num width l Hn E; [discriminate|]. cbn [Print.digits_loop] in E. cbn [printnum]. pose proof (Z.mod_pos_bound num base ltac:(lia)) as Hm. pose proof (Z.div_mod num base ltac:(lia)).
  destruct (Z.eqb_spec (num / base) 0) as [E0|E0].
  - injection E as <-. assert (num < base) by nia. rewrite (proj2 (Z.leb_gt _ _)) by lia. unfold padding, int_of, fits. cbn [length]. rewrite andb_comm.
    change (Z.of_nat 1) with 1. destruct (_ && _); [|reflexivity]. cbn [mbind res_bind rev app fmap list_fmap]. rewrite hex_digit by lia. reflexivity.
  - pose proof (Z.div_pos num base ltac:(lia) ltac:(lia)). assert (base <= num) by nia. rewrite (proj2 (Z.leb_le _ _)) by lia. destruct (Print.digits_loop fuel (num / base) base) as [l'|?|?|] eqn:El; try discriminate. cbn [mbind res_bind] in E. injection E as <-.
    unfold int_of. destruct (Z.leb_spec (-2147483648) (width - 1)); destruct (Z.ltb_spec (width - 1) 2147483648); cbn [andb mbind res_bind].
    2-4: rewrite (fits_not width) by (cbn [length]; lia); reflexivity.
    rewrite (IH (num / base) (width - 1) l' ltac:(assumption) El). replace (fits (width - 1) (length l')) with (fits width (length (Print.digit (num mod base) :: l'))) by (unfold fits; cbn [length]; destruct (Z.ltb_spec (width - 1) 2147483648), (Z.ltb_spec (width - 1 - 1) 2147483648); try lia; cbn [andb]; f_equal; lia).
    destruct (fits _ _); [|reflexivity]. cbn [mbind res_bind rev length]. rewrite fmap_app, <- app_assoc. cbn [fmap list_fmap]. rewrite hex_digit by lia. do 3 f_equal. lia.
Qed.

Lemma digits_exist base x : base = 10 \/ base = 16 -> 0 <= x < 18446744073709551616 -> exists l, Print.digits_loop 65 x base = Ok l /\ value base (rev l) = x /\ Forall (is_digit base) (rev l) /\ (0 < x -> head (rev l) <> Some 48) /\ l <> [].
Proof.
  intros Hb Hx. assert (Hp : 18446744073709551616 <= base ^ Z.of_nat 65) by (destruct Hb as [->| ->]; vm_compute; discriminate).
  destruct (digits_loop_spec base ltac:(lia) 65 x ltac:(lia) ltac:(lia)) as (l & E & Hv & Hl & Ha & Hlead & Hz). exists l. split; [exact E|]. split; [exact Hv|]. split; [apply Forall_rev_list, Ha|]. split.
  - intros Hpos. destruct (Hlead Hpos) as (c & Hc & Hne). apply last_Some in Hc as [l' ->]. rewrite rev_app_distr. intros [= ->]. apply Hne. reflexivity.
  - intros ->. destruct (decide (x = 0)) as [->|Hne]; [discriminate (Hz eq_refl)|]. destruct (Hlead ltac:(lia)) as (c & Hc & _). discriminate.
Qed.

(** ** The format is read in order *)

(** The result is one of [P], or the arguments or a width were wrong. *)
Definition holds {A} (P : A -> Prop) (r : res A) : Prop :=
  match r with
  | Ok x => P x
  | Fault why => why = "argument" \/ why = "signed overflow"
  | _ => False
  end.

Lemma holds_bind {A B} (P : A -> Prop) (Q : B -> Prop) (r : res A) (f : A -> res B) : holds P r -> (forall x, P x -> holds Q (f x)) -> holds Q (r ≫= f).
Proof. destruct r; cbn; auto; contradiction. Qed.

Lemma holds_true {A} (P : A -> Prop) r : holds P r -> holds (fun _ => True) r.
Proof. destruct r; cbn; auto. Qed.

Lemma int_of_holds x : holds (fun y => y = x) (int_of x).
Proof. unfold int_of. destruct (_ && _); cbn; auto. Qed.

Lemma print_str_holds p s : holds (fun _ => True) (print_str p s).
Proof. eapply holds_bind; [apply int_of_holds|]. intros w _. exact I. Qed.

(** The value of a negative number of [%d]. *)
Lemma absolute_holds x : -9223372036854775808 <= x < 9223372036854775808 ->
  holds (fun y => 0 <= y < 18446744073709551616) (if x <? 0 then y ← llong_of (- x); Ok (u64 y) else Ok x).
Proof.
  intros Hx. destruct (Z.ltb_spec x 0); [|cbn; lia]. unfold llong_of. destruct (_ && _); cbn; [|auto]. apply Z.mod_pos_bound. lia.
Qed.

Lemma holds_pop {A} (f : arg -> option A) ap : holds (fun _ => True) (pop f ap).
Proof. destruct ap as [|a ap]; cbn; [auto|]. destruct (f a); cbn; auto. Qed.

Lemma char_at_ok fmt pos : (pos <= length fmt)%nat -> exists c, char_at fmt pos = Ok c /\ ((pos < length fmt)%nat /\ c = fmt !!! pos \/ pos = length fmt /\ c = 0).
Proof.
  intros Hp. unfold char_at. destruct (Nat.ltb_spec pos (length fmt)); [eauto|]. assert (pos = length fmt) as -> by lia. rewrite Nat.eqb_refl. eauto.
Qed.

Definition is_flag (c : Z) : Prop := c <> 37 /\ c <> 0.

Lemma number_holds fmt fuel : forall precision ch pos, (pos <= length fmt)%nat -> (length fmt - pos < fuel)%nat ->
  holds (fun r => (pos <= r.2 <= length fmt)%nat /\ forall i, (pos <= i < r.2)%nat -> is_flag (fmt !!! i)) (number fuel fmt precision ch pos).
Proof.
  induction fuel as [|fuel IH]; intros precision ch pos Hp Hf; [lia|]. cbn [number]. eapply holds_bind with (P := fun _ => True); [eapply holds_true, int_of_holds|]. intros p _. destruct (char_at_ok fmt pos Hp) as (c & -> & Hc). cbn [mbind res_bind].
  destruct (Z.ltb_spec c 48), (Z.ltb_spec 57 c); cbn [orb holds snd]; try (split; [lia|intros i Hi; lia]). destruct Hc as [[Hlt ->]|[-> ->]]; [|lia]. specialize (IH p (fmt !!! pos) (S pos) ltac:(lia) ltac:(lia)). destruct (number fuel fmt p (fmt !!! pos) (S pos)) as [[q pos']|?|?|]; cbn [holds snd] in *; try exact IH.
  destruct IH as [I1 I2]. split; [lia|]. intros i Hi. destruct (decide (i = pos)) as [->|Hne]; [unfold is_flag; lia|]. apply I2. lia.
Qed.

(** The flags end with the character before [pos'], and have no percent sign. *)
Definition flagged (fmt : list Z) (pos : nat) (r : Z * nat * spec * list arg) : Prop :=
  let '(ch, pos', _, _) := r in (pos < pos' <= S (length fmt))%nat /\ (forall i, (pos <= i < pos' - 1)%nat -> is_flag (fmt !!! i)) /\
    ((pos' <= length fmt)%nat /\ ch = fmt !!! (pos' - 1)%nat \/ pos' = S (length fmt) /\ ch = 0).

Lemma flagged_next fmt pos pos1 r : (pos < pos1)%nat -> (forall i, (pos <= i < pos1)%nat -> is_flag (fmt !!! i)) -> flagged fmt pos1 r -> flagged fmt pos r.
Proof.
  destruct r as [[[ch pos'] s] ap]. intros Hlt Hf (H1 & H2 & H3). split; [lia|]. split; [|exact H3]. intros i Hi. destruct (decide (i < pos1)%nat); [apply Hf; lia|apply H2; lia].
Qed.

Lemma flags_hold fmt fuel : forall pos s ap, (pos <= length fmt)%nat -> (length fmt - pos < fuel)%nat -> holds (flagged fmt pos) (flags fuel fmt pos s ap).
Proof.
  induction fuel as [|fuel IH]; intros pos s ap Hp Hf; [lia|]. cbn [flags]. destruct (char_at_ok fmt pos Hp) as (c & -> & Hc). cbn [mbind res_bind].
  assert (Hnext : forall pos1 s ap, is_flag c -> (pos < pos1 <= length fmt)%nat -> (forall i, (S pos <= i < pos1)%nat -> is_flag (fmt !!! i)) -> holds (flagged fmt pos) (flags fuel fmt pos1 s ap)).
  { intros pos1 s' ap' [Hc1 Hc2] H1 H2. destruct Hc as [[Hlt ->]|[-> ->]]; [|congruence]. specialize (IH pos1 s' ap' ltac:(lia) ltac:(lia)). destruct (flags fuel fmt pos1 s' ap') as [r|?|?|]; cbn [holds] in *; try exact IH. apply (flagged_next fmt pos pos1 r); [lia| |exact IH].
    intros i Hi. destruct (decide (i = pos)) as [->|Hne]; [split; assumption|apply H2; lia]. }
  assert (Hone : forall s ap, is_flag c -> holds (flagged fmt pos) (flags fuel fmt (S pos) s ap)).
  { intros s' ap' Hfl. assert (pos < length fmt)%nat by (destruct Hc as [[? _]|[_ ->]]; [assumption|destruct Hfl; congruence]). apply Hnext; [exact Hfl|lia|intros i Hi; lia]. }
  destruct (Z.eqb_spec c 45); [apply Hone; unfold is_flag; lia|]. destruct (Z.eqb_spec c 48); [apply Hone; unfold is_flag; lia|].
  destruct (Z.leb_spec 49 c), (Z.leb_spec c 57); cbn [andb];
    try (assert (Hfl : is_flag c) by (unfold is_flag; lia); assert (Hlt : (pos < length fmt)%nat) by (destruct Hc as [[? _]|[_ ->]]; [assumption|destruct Hfl; congruence]);
         eapply holds_bind; [apply (number_holds fmt (S (length fmt)) 0 c (S pos)); lia|]; intros [p pos1] [H1 H2]; cbn [snd] in *; apply Hnext; [exact Hfl|lia|exact H2]).
  all: destruct (Z.eqb_spec c 42); [eapply holds_bind; [apply holds_pop|]; intros [p ap'] _; apply Hone; unfold is_flag; lia|].
  all: destruct (Z.eqb_spec c 46); [apply Hone; unfold is_flag; lia|]; destruct (Z.eqb_spec c 35); [apply Hone; unfold is_flag; lia|]; destruct (Z.eqb_spec c 108); [eapply holds_bind; [apply int_of_holds|]; intros l _; apply Hone; unfold is_flag; lia|].
  all: cbn [holds flagged]; split; [lia|]; split; [intros i Hi; lia|]; replace (S pos - 1)%nat with pos by lia; destruct Hc as [[? ->]|[-> ->]]; [left|right]; split; (lia || reflexivity).
Qed.

Lemma rewind_back fmt pos : forall pos', (pos <= pos')%nat -> fmt !!! (pos - 1)%nat = 37 -> (0 < pos)%nat -> (forall i, (pos <= i < pos')%nat -> fmt !!! i <> 37) -> rewind fmt pos' = Ok pos.
Proof.
  induction pos' as [|p IH]; intros Hle Hp H0 Hn; [lia|]. cbn [rewind]. destruct (decide (pos = S p)) as [->|Hne].
  - replace (S p - 1)%nat with p in Hp by lia. rewrite Hp. reflexivity.
  - rewrite (proj2 (Z.eqb_neq _ _)) by (apply Hn; lia). apply IH; [lia|exact Hp|exact H0|]. intros i Hi. apply Hn. lia.
Qed.

Lemma u64_range x : 0 <= u64 x < 18446744073709551616.
Proof. apply Z.mod_pos_bound. lia. Qed.

Lemma s64_range x : -9223372036854775808 <= s64 x < 9223372036854775808.
Proof. unfold s64. pose proof (u64_range x). destruct (Z.ltb_spec (u64 x) 9223372036854775808); lia. Qed.

Lemma printnum_holds num base width padc : base = 10 \/ base = 16 -> 0 <= num < 18446744073709551616 -> holds (fun _ => True) (l ← printnum 65 num base width padc; Ok l).
Proof. intros Hb Hn. destruct (digits_exist base num Hb Hn) as (l & E & _). rewrite (printnum_digits base padc ltac:(lia) 65 num width l ltac:(lia) E). destruct (fits _ _); cbn; auto. Qed.

Lemma getint_holds ap l : holds (fun r => -9223372036854775808 <= r.1 < 9223372036854775808) (getint ap l).
Proof.
  unfold getint. destruct (2 <=? l); (eapply holds_bind; [apply holds_pop|]); intros [x ap'] _; cbn [holds fst]; [apply s64_range|]. pose proof (s32_is_s32 x) as H. unfold is_s32 in H. lia.
Qed.

Lemma getuint_holds ap l : holds (fun r => 0 <= r.1 < 18446744073709551616) (getuint ap l).
Proof.
  unfold getuint. destruct (2 <=? l); (eapply holds_bind; [apply holds_pop|]); intros [x ap'] _; cbn [holds fst]; [apply u64_range|]. pose proof (u32_is_u32 x) as H. unfold is_u32 in H. lia.
Qed.

Section errors.
Context (MAXERROR : Z) (error_string : Z -> option (list Z)).

Lemma convert_holds pf fmt start ch pos s ap : (forall x, holds (fun _ => True) (pf error_fmt [AWord x])) -> (forall x, holds (fun _ => True) (pf str_fmt [AStr (Some x)])) ->
  (0 < start)%nat -> fmt !!! (start - 1)%nat = 37 -> flagged fmt start (ch, pos, s, ap) -> holds (fun r => (start <= r.1.2 <= length fmt)%nat) (convert MAXERROR error_string pf fmt ch pos s ap).
Proof.
  intros He Hs H0 Hp (F1 & F2 & F3). unfold convert.
  assert (Hpos : ch <> 0 -> (start <= pos <= length fmt)%nat) by (intros Hc; destruct F3 as [[? _]|[_ ?]]; [lia|congruence]).
  assert (Hnum : forall x base (f : list Z -> list Z) ap', ch <> 0 -> base = 10 \/ base = 16 -> 0 <= x < 18446744073709551616 -> holds (fun r : list Z * nat * list arg => (start <= r.1.2 <= length fmt)%nat) (l ← (l ← printnum 65 x base (width s) (padc s); Ok l); Ok (f l, pos, ap'))).
  { intros x base f ap' Hc Hb Hx. eapply holds_bind; [apply printnum_holds; assumption|]. intros l _. cbn [holds fst snd]. auto. }
  destruct (Z.eqb_spec ch 99); [eapply holds_bind; [apply holds_pop|]; intros [c ap'] _; cbn [holds fst snd]; apply Hpos; lia|].
  destruct (Z.eqb_spec ch 101).
  { eapply holds_bind; [apply holds_pop|]. intros [c ap'] _. eapply holds_bind with (P := fun _ => True); [destruct (_ <? 0); [eapply holds_true, int_of_holds|exact I]|]. intros err _.
    eapply holds_bind with (P := fun _ => True); [|intros out _; cbn [holds fst snd]; apply Hpos; lia]. destruct (if _ <=? _ then None else _) as [x|]; [apply Hs|apply He]. }
  destruct (Z.eqb_spec ch 115).
  { eapply holds_bind; [apply holds_pop|]. intros [c ap'] _. eapply holds_bind; [apply print_str_holds|]. intros l _. cbn [holds fst snd]. apply Hpos. lia. }
  destruct (Z.eqb_spec ch 100).
  { eapply holds_bind; [apply getint_holds|]. intros [x ap'] Hx. cbn [fst] in Hx. eapply holds_bind; [apply absolute_holds, Hx|]. intros y Hy. apply (Hnum y 10 (fun l => (if x <? 0 then [45] else []) ++ l)); [lia|auto|exact Hy]. }
  destruct (Z.eqb_spec ch 117); [eapply holds_bind; [apply getuint_holds|]; intros [x ap'] Hx; apply (Hnum x 10 (fun l => l)); [lia|auto|exact Hx]|].
  destruct (Z.eqb_spec ch 111); [cbn [holds fst snd]; apply Hpos; lia|].
  destruct (Z.eqb_spec ch 112); [eapply holds_bind; [apply holds_pop|]; intros [x ap'] _; apply (Hnum (u32 x) 16 (fun l => [48; 120] ++ l)); [lia|auto|pose proof (u32_is_u32 x) as H; unfold is_u32 in H; lia]|].
  destruct (Z.eqb_spec ch 120); [eapply holds_bind; [apply getuint_holds|]; intros [x ap'] Hx; apply (Hnum x 16 (fun l => l)); [lia|auto|exact Hx]|].
  destruct (Z.eqb_spec ch 37); [cbn [holds fst snd]; apply Hpos; lia|]. rewrite (rewind_back fmt start (pos - 1)); [cbn [mbind res_bind holds fst snd]; lia|lia|exact Hp|exact H0|]. intros i Hi. apply F2. lia.
Qed.

(** One round at a time. *)
Lemma round_literal fuel fmt pos ap : (pos < length fmt)%nat -> is_flag (fmt !!! pos) ->
  vprintfmt MAXERROR error_string (S fuel) fmt pos ap = (l ← vprintfmt MAXERROR error_string fuel fmt (S pos) ap; Ok (fmt !!! pos :: l)).
Proof.
  intros Hp [H1 H2]. cbn [vprintfmt]. unfold char_at. rewrite (proj2 (Nat.ltb_lt _ _) Hp). cbn [mbind res_bind]. rewrite (proj2 (Z.eqb_neq _ _) H1), (proj2 (Z.eqb_neq _ _) H2). reflexivity.
Qed.

Lemma round_end fuel fmt ap : vprintfmt MAXERROR error_string (S fuel) fmt (length fmt) ap = Ok [].
Proof. cbn [vprintfmt]. unfold char_at. rewrite Nat.ltb_irrefl, Nat.eqb_refl. reflexivity. Qed.

(** A character that ends the flags. *)
Definition plain_conv (ch : Z) : bool := negb (existsb (Z.eqb ch) [45; 48; 42; 46; 35; 108] || ((49 <=? ch) && (ch <=? 57))).

Lemma round_convert fuel fmt pos ap : (S pos < length fmt)%nat -> fmt !!! pos = 37 -> plain_conv (fmt !!! S pos) = true ->
  vprintfmt MAXERROR error_string (S fuel) fmt pos ap =
  ('(out, pos', ap') ← convert MAXERROR error_string (fun f => vprintfmt MAXERROR error_string fuel f 0) fmt (fmt !!! S pos) (S (S pos)) fresh ap; l ← vprintfmt MAXERROR error_string fuel fmt pos' ap'; Ok (out ++ l)).
Proof.
  intros Hp H1 H2. cbn [vprintfmt]. unfold char_at at 1. rewrite (proj2 (Nat.ltb_lt pos (length fmt))) by lia. cbn [mbind res_bind]. rewrite H1. change (37 =? 37) with true. cbn match. cbn [flags]. unfold char_at. rewrite (proj2 (Nat.ltb_lt _ _) Hp). cbn [mbind res_bind]. set (c := fmt !!! S pos) in *.
  unfold plain_conv in H2. apply negb_true_iff, orb_false_iff in H2 as [H2 H3]. cbn [existsb] in H2. repeat (apply orb_false_iff in H2 as [? H2]). rewrite H, H0, H3, H4, H5, H6, H7. reflexivity.
Qed.

Lemma nested_error k x : holds (fun _ => True) (vprintfmt MAXERROR error_string (8 + k) error_fmt 0 [AWord x]).
Proof.
  cbn [Nat.add]. do 6 (rewrite round_literal by (cbn; unfold is_flag; lia); eapply holds_bind with (P := fun _ => True); [|intros l _; exact I]). rewrite round_convert by (cbn; lia || reflexivity).
  eapply holds_bind with (P := fun r => r.1.2 = 8%nat); [|intros [[out pos] ap] Hp; cbn in Hp; subst pos; change 8%nat with (length error_fmt); rewrite round_end; exact I]. change (error_fmt !!! 7%nat) with 100. unfold convert. change (getint [AWord x] (lflag fresh)) with (Ok (s32 x, @nil arg)). cbn [mbind res_bind].
  eapply holds_bind; [apply absolute_holds; pose proof (s32_is_s32 x) as H'; unfold is_s32 in H'; lia|]. intros y Hy.
  eapply holds_bind; [apply printnum_holds; [auto|exact Hy]|]. intros l _. reflexivity.
Qed.

Lemma nested_string k x : holds (fun _ => True) (vprintfmt MAXERROR error_string (2 + k) str_fmt 0 [AStr (Some x)]).
Proof.
  cbn [Nat.add]. rewrite round_convert by (cbn; lia || reflexivity). change (str_fmt !!! 1%nat) with 115.
  eapply holds_bind with (P := fun r => r.1.2 = length str_fmt).
  { eapply (holds_bind (fun _ => True)); [exact I|]. intros [y ap] _. eapply holds_bind; [apply print_str_holds|]. intros l _. reflexivity. }
  intros [[out pos] ap] Hp. cbn in Hp. subst pos. change 2%nat with (length str_fmt). rewrite round_end. exact I.
Qed.

(** With the fuel there is, [vprintfmt] ends, and it stays within the format. *)
Lemma vprintfmt_holds fmt fuel : forall pos ap, (pos <= length fmt)%nat -> (length fmt - pos + 9 <= fuel)%nat -> holds (fun _ => True) (vprintfmt MAXERROR error_string fuel fmt pos ap).
Proof.
  induction fuel as [|fuel IH]; intros pos ap Hp Hf; [lia|]. destruct (char_at_ok fmt pos Hp) as (c & Ec & Hc). cbn [vprintfmt]. rewrite Ec. cbn [mbind res_bind].
  destruct (Z.eqb_spec c 37) as [->|H37].
  - destruct Hc as [[Hlt Hc]|[_ [=]]]. eapply holds_bind; [apply (flags_hold fmt (S (length fmt)) (S pos)); lia|]. intros [[[ch pos1] s] ap1] Fl. eapply holds_bind; [eapply (convert_holds _ fmt (S pos)); [| |lia|replace (S pos - 1)%nat with pos by lia; congruence|exact Fl]|].
    + intros x. replace fuel with (8 + (fuel - 8))%nat by lia. apply nested_error.
    + intros x. replace fuel with (2 + (fuel - 2))%nat by lia. apply nested_string.
    + intros [[out pos2] ap2] Hpos. cbn [fst snd] in Hpos. eapply holds_bind; [apply IH; lia|]. intros l _. exact I.
  - destruct (Z.eqb_spec c 0) as [->|H0]; [exact I|]. destruct Hc as [[Hlt _]|[_ Hc]]; [|congruence]. eapply holds_bind; [apply IH; lia|]. intros l _. exact I.
Qed.

(** ** The formats that printf.c has too *)

(** A part of a format with its argument; a string is given by its address. *)
Inductive item := Lit (c : Z) | Dec (x : Z) | Chr (c : Z) | Text (p : Z) | Percent.
Definition fmt_of (i : item) : list Z := match i with Lit c => [c] | Dec _ => [37; 100] | Chr _ => [37; 99] | Text _ => [37; 115] | Percent => [37; 37] end.
Definition words_of (i : item) : list Z := match i with Dec x => [x] | Chr c => [c] | Text p => [p] | _ => [] end.
Context (string_at : Z -> list Z).
Definition args_of (i : item) : list arg :=
  match i with
  | Dec x => [AWord x]
  | Chr c => [AWord c]
  | Text p => [AStr (if p =? 0 then None else Some (string_at p))]
  | _ => []
  end.
Definition proper (i : item) : Prop :=
  match i with
  | Lit c => is_byte c /\ c <> 37 /\ c <> 0
  | Dec x => is_s32 x
  | Text p => Forall is_byte (string_at p)
  | _ => True
  end.

Lemma u8_s32 c : u8 (s32 c) = u8 c.
Proof.
  unfold s32. assert (E : u8 (u32 c) = u8 c) by (unfold u8, u32; apply Z.mod_mod_divide; exists 16777216; reflexivity). destruct (u32 c <? 2147483648); [exact E|]. rewrite <- E. unfold u8. replace (u32 c - 4294967296) with (u32 c + (-16777216) * 256) by lia. apply Z.mod_add. lia.
Qed.

Lemma plain_text p : Forall is_byte p -> exists l, print_str p fresh = Ok l /\ u8 <$> l = p.
Proof.
  intros Hp. unfold print_str. cbn [width padc precision altflag fresh]. change (0 <? -1) with false. cbn [andb]. change (-1 <? 0) with true. cbn match.
  unfold count_down, int_of. rewrite (proj2 (Z.leb_le _ _)), (proj2 (Z.ltb_lt _ _)) by lia. cbn [andb mbind res_bind]. eexists. split; [reflexivity|].
  rewrite app_nil_l, fmap_app. replace (Z.to_nat (-1 - _)) with O by lia. cbn [replicate]. rewrite app_nil_r, <- list_fmap_compose.
  rewrite <- (list_fmap_id p) at 2. apply Forall_fmap_ext_1. eapply Forall_impl; [exact Hp|]. intros c Hc. cbn. rewrite u8_s8. apply u8_id, Hc.
Qed.

Lemma absolute_small x : is_s32 x -> (if x <? 0 then y ← llong_of (- x); Ok (u64 y) else Ok x) = Ok (if x <? 0 then u64 (- x) else x).
Proof.
  intros Hx. unfold is_s32 in Hx. destruct (x <? 0); [|reflexivity]. unfold llong_of. rewrite (proj2 (Z.leb_le _ _)), (proj2 (Z.ltb_lt _ _)) by lia. reflexivity.
Qed.

(** A number without flags is printed as printf.c prints it. *)
Lemma decimal_same x : is_s32 x -> exists l, printnum 65 (if x <? 0 then u64 (- x) else x) 10 (-1) 32 = Ok l /\ Print.printint (s32 x) 10 true = Ok (u8 <$> (if x <? 0 then [45] else []) ++ l).
Proof.
  intros Hx. rewrite s32_id by exact Hx. unfold is_s32 in Hx. set (y := if x <? 0 then u64 (- x) else x). assert (Hy : 0 <= y < 4294967296) by (unfold y; destruct (Z.ltb_spec x 0); [unfold u64; rewrite Z.mod_small|]; lia).
  destruct (digits_loop_spec 10 ltac:(lia) 15 y ltac:(cbn; lia) ltac:(lia)) as (l & El & _ & Hl & Ha & _). assert (E65 : Print.digits_loop 65 y 10 = Ok l) by (change 65%nat with (50 + 15)%nat; generalize 50%nat; intros n; induction n as [|n IHn]; [exact El|apply digits_loop_more, IHn]).
  rewrite (printnum_digits 10 32 ltac:(lia) 65 y (-1) l ltac:(lia) E65). unfold fits. rewrite (proj2 (Z.leb_le _ _)) by lia. change (-1 - 1 <? 2147483648) with true. cbn [andb]. replace (Z.to_nat (-1 - Z.of_nat (length l))) with O by lia. cbn [replicate app]. eexists. split; [reflexivity|].
  assert (Hd : u8 <$> (lower <$> rev l) = rev l).
  { rewrite <- list_fmap_compose. rewrite <- (list_fmap_id (rev l)) at 2. apply Forall_fmap_ext_1. eapply Forall_impl; [apply Forall_rev_list, Ha|]. intros c (k & Hk & ->). cbn. unfold lower, Print.digit. rewrite (proj2 (Z.ltb_lt k 10)) by lia. rewrite (proj2 (Z.ltb_lt (48 + k) 58)) by lia. apply u8_id. unfold is_byte. lia. }
  unfold Print.printint. cbn [andb]. rewrite fmap_app, Hd. unfold y in *. destruct (Z.ltb_spec x 0) as [Hneg|Hpos].
  - replace (u32 (- x)) with (u64 (- x)) by (unfold u32, u64; rewrite !Z.mod_small by lia; reflexivity). rewrite (digits_loop_more 15 _ 10 l El). cbn [mbind res_bind]. rewrite (proj2 (Nat.ltb_lt _ _)) by lia. rewrite rev_app_distr. reflexivity.
  - rewrite u32_id by (unfold is_u32; lia). rewrite (digits_loop_more 15 _ 10 l El). reflexivity.
Qed.

(** What one item prints, by both. *)
Lemma item_converts pf fmt pos i ap ch : proper i -> fmt_of i = [37; ch] ->
  exists out, convert MAXERROR error_string pf fmt ch pos fresh (args_of i ++ ap) = Ok (out, pos, ap) /\
    forall fmt' ws l, Print.printf_loop string_at fmt' false ws = Ok l -> Print.printf_loop string_at (fmt_of i ++ fmt') false (words_of i ++ ws) = Ok ((u8 <$> out) ++ l).
Proof.
  intros Hp Hf. destruct i as [c|x|c|p|]; cbn in Hf; [discriminate|..]; injection Hf as <-; unfold convert.
  - cbn [args_of app]. change (getint (AWord x :: ap) (lflag fresh)) with (Ok (s32 x, ap)). cbn [proper] in Hp. rewrite (s32_id x Hp). destruct (decimal_same x Hp) as (l & E1 & E2). cbn [Z.eqb Pos.eqb mbind res_bind]. change (width fresh) with (-1). change (padc fresh) with 32. rewrite (absolute_small x Hp). cbn [mbind res_bind]. rewrite E1. cbn [mbind res_bind]. eexists. split; [reflexivity|].
    intros fmt' ws l' E. cbn [fmt_of words_of app Print.printf_loop]. cbn [Z.eqb Pos.eqb negb orb]. change (37 =? Print.PERCENT) with true. cbn match. rewrite E2. cbn [mbind res_bind]. rewrite E. reflexivity.
  - cbn [args_of app]. change (word (AWord c :: ap)) with (Ok (c, ap)). cbn [Z.eqb Pos.eqb mbind res_bind]. eexists. split; [reflexivity|]. intros fmt' ws l E. cbn. rewrite E. cbn. rewrite u8_s32. reflexivity.
  - cbn [args_of app]. change (str (AStr ?x :: ap)) with (Ok (x, ap)). cbn [Z.eqb Pos.eqb mbind res_bind].
    assert (Hs : exists l, print_str (default null_text (if p =? 0 then None else Some (string_at p))) fresh = Ok l /\ u8 <$> l = if p =? 0 then null_text else string_at p).
    { destruct (p =? 0); cbn [default]; [eexists; split; reflexivity|apply plain_text, Hp]. }
    destruct Hs as (l & -> & El). cbn [mbind res_bind]. eexists. split; [reflexivity|]. intros fmt' ws l' E. cbn. rewrite E. cbn [mbind res_bind]. rewrite El. destruct (p =? 0); reflexivity.
  - eexists. split; [reflexivity|]. intros fmt' ws l E. cbn. rewrite E. reflexivity.
Qed.

Lemma item_cases i : (exists c, i = Lit c) \/ exists ch, fmt_of i = [37; ch] /\ plain_conv ch = true.
Proof. destruct i as [c|x|c|p|]; [left; eauto|right; eexists; split; reflexivity..]. Qed.

Lemma items_same items : Forall proper items -> forall pre fuel, (length (items ≫= fmt_of) < fuel)%nat ->
  exists out, vprintfmt MAXERROR error_string fuel (pre ++ (items ≫= fmt_of)) (length pre) (items ≫= args_of) = Ok out /\ Print.printf_loop string_at (items ≫= fmt_of) false (items ≫= words_of) = Ok (u8 <$> out).
Proof.
  induction 1 as [|i items Hi _ IH]; intros pre fuel Hf; (destruct fuel as [|fuel]; [cbn in Hf; lia|]).
  - exists []. split; [|reflexivity]. rewrite app_nil_r. apply round_end.
  - cbn [mbind list_bind] in *. set (rest := items ≫= fmt_of) in *. rewrite length_app in Hf. specialize (IH (pre ++ fmt_of i)). rewrite length_app, <- app_assoc in IH. destruct (item_cases i) as [[c ->]|(ch & Ef & Hch)].
    + destruct Hi as (Hb & H37 & H0). cbn [fmt_of length words_of args_of app] in *. destruct (IH fuel ltac:(lia)) as (out & E1 & E2). assert (Hc : (pre ++ c :: rest) !!! length pre = c) by (apply list_lookup_total_correct, list_lookup_middle; reflexivity).
      exists (c :: out). rewrite round_literal; [|rewrite length_app; cbn; lia|rewrite Hc; split; assumption]. rewrite Hc. replace (S (length pre)) with (length pre + 1)%nat by lia. split; [setoid_rewrite E1; reflexivity|].
      cbn [Print.printf_loop]. rewrite (proj2 (Z.eqb_neq _ _) H0), (proj2 (Z.eqb_neq c Print.PERCENT) H37). cbn [negb]. setoid_rewrite E2. cbn. rewrite u8_id by exact Hb. reflexivity.
    + rewrite Ef in Hf, IH. cbn [length] in Hf, IH. destruct (IH fuel ltac:(lia)) as (out & E1 & E2). assert (Hc : (pre ++ fmt_of i ++ rest) !!! length pre = 37) by (rewrite Ef; apply list_lookup_total_correct, list_lookup_middle; reflexivity).
      assert (Hc1 : (pre ++ fmt_of i ++ rest) !!! S (length pre) = ch) by (rewrite Ef; apply list_lookup_total_correct; rewrite lookup_app_r by lia; replace (S (length pre) - length pre)%nat with 1%nat by lia; reflexivity).
      destruct (item_converts (fun f => vprintfmt MAXERROR error_string fuel f 0) (pre ++ fmt_of i ++ rest) (S (S (length pre))) i (items ≫= args_of) ch Hi Ef) as (o & Ec & Ep). exists (o ++ out). split.
      * setoid_rewrite round_convert; [|rewrite length_app, Ef; cbn; lia|exact Hc|rewrite Hc1; exact Hch]. rewrite Hc1. setoid_rewrite Ec. cbn [mbind res_bind]. replace (S (S (length pre))) with (length pre + 2)%nat by lia. rewrite Ef. setoid_rewrite E1. reflexivity.
      * rewrite fmap_app. apply Ep. exact E2.
Qed.

(** ** The buffer *)

Lemma put_all_eq out : forall m k e c, (k <= e)%nat -> (e <= length m)%nat -> 0 <= c < 2147483648 -> let j := (k + Nat.min (e - k) (length out))%nat in
  put_all out (Sprintbuf m k e c) =
  if c + Z.of_nat (length out) <? 2147483648 then Ok (Sprintbuf (take k m ++ take (e - k) (u8 <$> out) ++ drop j m) j e (c + Z.of_nat (length out)))
  else Fault "signed overflow".
Proof.
  induction out as [|ch out IH]; intros m k e c Hk He Hc; cbn [put_all length].
  - cbn [fmap list_fmap]. rewrite Nat.min_0_r, Nat.add_0_r, take_nil, app_nil_l, take_drop, Z.add_0_r, (proj2 (Z.ltb_lt _ _)) by lia. reflexivity.
  - unfold sprintputch, int_of. cbn [pos ebuf mem cnt]. rewrite (proj2 (Z.leb_le _ _)) by lia. cbn [andb]. replace (c + Z.of_nat (S (length out))) with (c + 1 + Z.of_nat (length out)) by lia.
    destruct (Z.ltb_spec (c + 1) 2147483648); [|rewrite (proj2 (Z.ltb_ge _ _)) by lia; reflexivity]. cbn [mbind res_bind]. destruct (Nat.ltb_spec k e) as [Hlt|Hge].
    + unfold poke. rewrite (proj2 (Nat.ltb_lt _ _)) by lia. cbn [mbind res_bind]. rewrite IH by (rewrite ?length_insert; lia). destruct (_ <? 2147483648); [|reflexivity]. replace (S k + (e - S k) `min` length out)%nat with (k + (e - k) `min` S (length out))%nat by lia. f_equal. f_equal.
      replace (e - k)%nat with (S (e - S k)) by lia. cbn [fmap list_fmap take app]. rewrite (take_S_r _ _ (u8 ch)) by (apply list_lookup_insert_eq; lia). rewrite take_insert_ge, <- app_assoc by lia. cbn [app]. f_equal. f_equal. f_equal. apply drop_insert_lt. lia.
    + replace (e - k)%nat with O in * by lia. cbn [mbind res_bind]. rewrite IH by lia. replace (e - k)%nat with O by lia. reflexivity.
Qed.

(** The buffer with the text and the NUL. *)
Definition filled (n : Z) (out m : list Z) : list Z :=
  take (Z.to_nat (n - 1)) (u8 <$> out) ++ [0] ++ drop (S (Nat.min (Z.to_nat (n - 1)) (length out))) m.

Lemma terminate n out m : 1 <= n <= Z.of_nat (length m) -> let j := Nat.min (Z.to_nat (n - 1)) (length out) in
  poke (take (Z.to_nat (n - 1)) (u8 <$> out) ++ drop j m) j 0 = Ok (filled n out m).
Proof.
  intros Hn j. assert (Ht : length (take (Z.to_nat (n - 1)) (u8 <$> out)) = j) by (rewrite length_take, length_fmap; reflexivity).
  assert (Hj : (j < length m)%nat) by lia. unfold poke. rewrite (proj2 (Nat.ltb_lt _ _)) by (rewrite length_app, Ht, length_drop; lia).
  f_equal. rewrite insert_app_r_alt by lia. rewrite Ht, Nat.sub_diag. destruct (lookup_lt_is_Some_2 m j Hj) as [x Hx]. rewrite (drop_S _ _ _ Hx). reflexivity.
Qed.
End errors.
End PrintfmtFacts.

Module PrintfmtProps.
Import Printfmt PrintFacts PrintfmtFacts.

(** C35: Printing to a buffer.  For every format and every list of arguments, [vsnprintf] with a
    buffer of at least [n] bytes, [n] positive, ends.  If the text of the format has fewer than 2^31
    characters, it returns their number and has written as many of them as fit before the last byte, a
    NUL after them, and nothing else: no byte past [n] is touched.  A longer text overflows the count.
    The format has a text unless an argument is missing or has the wrong type, or a signed number
    overflows: a width, the [long long] or the error code that is negated.  The format is not read past
    its end, not even when it ends in the middle of an escape sequence. *)
Theorem snprintf_bounded MAXERROR error_string E_INVAL m n fmt ap : 1 <= n <= Z.of_nat (length m) ->
  match printfmt MAXERROR error_string fmt ap with
  | Ok out => vsnprintf MAXERROR error_string E_INVAL (Some m) n fmt ap =
      (if Z.of_nat (length out) <? 2147483648 then
         Ok (Z.of_nat (length out), Some (take (Z.to_nat (n - 1)) (u8 <$> out) ++ [0] ++ drop (S (Nat.min (Z.to_nat (n - 1)) (length out))) m))
       else Fault "signed overflow")
  | Fault why => vsnprintf MAXERROR error_string E_INVAL (Some m) n fmt ap = Fault why /\ (why = "argument" \/ why = "signed overflow")
  | _ => False
  end.
Proof.
  intros Hn. unfold vsnprintf. rewrite (proj2 (Z.ltb_ge _ _)) by lia. pose proof (vprintfmt_holds MAXERROR error_string fmt (fuel_of fmt) 0 ap ltac:(lia) ltac:(unfold fuel_of; lia)) as H. fold (printfmt MAXERROR error_string fmt ap) in H.
  destruct (printfmt MAXERROR error_string fmt ap) as [out|?|?|]; cbn [holds] in H; try contradiction; [|auto]. cbn [mbind res_bind]. rewrite put_all_eq, Nat.sub_0_r, Nat.add_0_l, take_0, app_nil_l, Z.add_0_l by lia.
  destruct (_ <? 2147483648); [|reflexivity]. cbn [mbind res_bind mem pos cnt]. rewrite terminate by exact Hn. reflexivity.
Qed.

(** "x=%4" into a buffer of three bytes, and three formats that overflow: "%*d" with the smallest width,
    "%e" of the smallest error code, and "%lld" of the smallest number. *)
Lemma snprintf_bounded_witness :
  vsnprintf 0 (fun _ => None) 3 (Some (replicate 8 7)) 3 [120; 61; 37; 52] [] = Ok (4, Some [120; 61; 0; 7; 7; 7; 7; 7]) /\
  Forall (fun '(fmt, ap) => vsnprintf 6 (fun _ => None) 3 (Some (replicate 8 7)) 3 fmt ap = Fault "signed overflow")
    [([37; 42; 100], [AWord (-2147483648); AWord 1]); ([37; 101], [AWord (-2147483648)]); ([37; 108; 108; 100], [ALong (-9223372036854775808)])].
Proof.
  split.
  - pose proof (snprintf_bounded 0 (fun _ => None) 3 (replicate 8 7) 3 [120; 61; 37; 52] [] ltac:(cbn; lia)) as H.
    change (printfmt 0 (fun _ => None) [120; 61; 37; 52] []) with (Ok [120; 61; 37; 52]) in H. exact H.
  - repeat constructor; match goal with |- vsnprintf _ _ _ _ _ ?f ?a = _ => pose proof (snprintf_bounded 6 (fun _ => None) 3 (replicate 8 7) 3 f a ltac:(cbn; lia)) as H end;
      match type of H with match ?x with _ => _ end => let y := eval vm_compute in x in change x with y in H end; apply H.
Defined.

(** C34: printfmt.c and printf.c print the same.  For every format made of ordinary characters and
    of the conversions for decimal numbers, characters, strings and the percent sign, with arguments
    of these types, [printfmt] prints, byte for byte, what [printf] of the user library prints. *)
Theorem printfmt_agrees_printf MAXERROR error_string string_at items : Forall (proper string_at) items ->
  exists out, printfmt MAXERROR error_string (items ≫= fmt_of) (items ≫= args_of string_at) = Ok out /\ Print.printf string_at (items ≫= fmt_of) (items ≫= words_of) = Ok (u8 <$> out).
Proof. intros Hp. apply (items_same MAXERROR error_string string_at items Hp []). unfold fuel_of. lia. Qed.

Lemma printfmt_agrees_printf_witness : exists out, printfmt 0 (fun _ => None) [97; 37; 100; 37; 115; 37; 37] [AWord (-12); AStr None] = Ok out /\
  Print.printf (fun _ => []) [97; 37; 100; 37; 115; 37; 37] [-12; 0] = Ok (u8 <$> out).
Proof. apply (printfmt_agrees_printf 0 (fun _ => None) (fun _ => []) [Lit 97; Dec (-12); Text 0; Percent]). repeat constructor; unfold is_byte, is_s32; lia. Defined.

(** Numbers with a width: a conversion with the padding character [c] and the width [w] prints as
    many [c] as are missing before the digits, in base ten or sixteen, lower case and without
    leading zeros; counting the digits down from the width must not overflow. *)
Theorem number_padded c w base num : base = 10 \/ base = 16 -> 0 <= num < 18446744073709551616 ->
  exists ds, printnum 65 num base w c = (if fits w (length ds) then Ok (replicate (Z.to_nat (w - Z.of_nat (length ds))) c ++ (lower <$> ds)) else Fault "signed overflow") /\ value base ds = num /\ Forall (is_digit base) ds /\ (0 < num -> head ds <> Some 48).
Proof.
  intros Hb Hn. destruct (digits_exist base num Hb Hn) as (l & E & Hv & Ha & Hh & _). exists (rev l). rewrite (printnum_digits base c ltac:(lia) 65 num w l ltac:(lia) E). rewrite length_rev. auto.
Qed.

(** The flag that asks for padding on the right sets that character to the minus sign, and a sign is
    printed before the padding: "%-5d" of 42 and "%05d" of -42. *)
Lemma minus_padding : printfmt 0 (fun _ => None) [37; 45; 53; 100] [AWord 42] = Ok [45; 45; 45; 52; 50] /\ printfmt 0 (fun _ => None) [37; 53; 100] [AWord (-42)] = Ok [45; 32; 32; 32; 52; 50].
Proof. split; vm_compute; reflexivity. Qed.

(** A precision of zero is taken for a flag: "%.0s" prints the whole string. *)
Lemma zero_precision : printfmt 0 (fun _ => None) [37; 46; 48; 115] [AStr (Some [97; 98])] = Ok [97; 98].
Proof. vm_compute. reflexivity. Qed.
End PrintfmtProps.
