(* ===== verification/ConsoleOut.v ===== *)
(** Console output (console.c, uart.c): numbers and formats of the kernel, the serial port and the
    CGA screen.

    The screen is the memory at 0xb8000, 25 lines of 80 cells; the cursor is in registers of the
    display controller, which is an argument: a state with the two operations the code uses and what
    they do to the cursor.  Waiting for the serial port has no other effect than to take time. *)

From S2P Require Import Prelude Grep Print Printfmt.

Module ConsoleOut.

Definition BACKSPACE : Z := 0x100.
Definition CRTPORT : Z := 0x3d4.

(** ** printint and cprintf: what they give to consputc *)

Definition digits (k : Z) : Z := if k <? 10 then 48 + k else 87 + k.
Fixpoint digits_loop (room : nat) (x base : Z) : res (list Z) :=
  match room with
  | O => Fault "buf"
  | S room' =>
      if x / base =? 0 then Ok [digits (x mod base)]
      else l ← digits_loop room' (x / base) base; Ok (digits (x mod base) :: l)
  end.
Definition printint (xx base : Z) (sign : bool) : res (list Z) :=
  let sign := sign && (xx <? 0) in
  let x := if sign then u32 (- xx) else u32 xx in
  buf ← digits_loop 16 x base;
  if sign then if (length buf <? 16)%nat then Ok (rev (buf ++ [45])) else Fault "buf"
  else Ok (rev buf).

Section cprintf.
(** The string a pointer points to. *)
Context (string_at : Z -> list Z).

Definition null_text : list Z := [40; 110; 117; 108; 108; 41].
(** The arguments are the words after [fmt] on the stack. *)
Fixpoint cprintf_loop (fmt : list Z) (argp : list Z) : res (list Z) :=
  match fmt with
  | [] => Ok []
  | c :: fmt =>
      if negb (c =? 37) then l ← cprintf_loop fmt argp; Ok (c :: l)
      else
        match fmt with
        | [] => Ok []
        | c :: fmt =>
            let arg (print : Z -> res (list Z)) :=
              match argp with
              | [] => Fault "missing argument"
              | a :: argp => o ← print a; l ← cprintf_loop fmt argp; Ok (o ++ l)
              end in
            if c =? 100 then arg (fun a => printint (s32 a) 10 true)
            else if (c =? 120) || (c =? 112) then arg (fun a => printint (s32 a) 16 false)
            else if c =? 115 then arg (fun a => Ok (s8 <$> (if a =? 0 then null_text else string_at a)))
            else if c =? 37 then l ← cprintf_loop fmt argp; Ok (37 :: l)
            else l ← cprintf_loop fmt argp; Ok (37 :: c :: l)
        end
  end.
Definition cprintf (fmt : option (list Z)) (argp : list Z) : res (list Z) :=
  match fmt with
  | None => Panic "null fmt"
  | Some fmt => cprintf_loop fmt argp
  end.
End cprintf.

(** ** The devices *)

(** The display controller: reading and writing a byte at a port, and its cursor. *)
Class Display (D : Type) := {
  d_inb : Z -> D -> Z * D;
  d_outb : Z -> Z -> D -> D;
  cursor : D -> Z;
  cursor_range : forall d, 0 <= cursor d < 65536;
  (** Registers 14 and 15 are the halves of the cursor. *)
  cursor_read : forall d, let '(h, d1) := d_inb (CRTPORT + 1) (d_outb CRTPORT 14 d) in let '(l, d2) := d_inb (CRTPORT + 1) (d_outb CRTPORT 15 d1) in
    h = cursor d / 256 /\ l = cursor d mod 256 /\ cursor d2 = cursor d;
  cursor_write : forall d h l, 0 <= h < 256 -> 0 <= l < 256 -> cursor (d_outb (CRTPORT + 1) l (d_outb CRTPORT 15 (d_outb (CRTPORT + 1) h (d_outb CRTPORT 14 d)))) = 256 * h + l;
}.

Section output.
Context {D : Type} `{!Display D}.

Record out := Out {
  uart : bool;
  sent : list Z;         (** the bytes written to the serial port *)
  crt : list Z;
  display : D;
  panicked : bool;
}.
Definition set_sent (l : list Z) (s : out) : out := Out (uart s) l (crt s) (display s) (panicked s).
Definition set_crt (l : list Z) (s : out) : out := Out (uart s) (sent s) l (display s) (panicked s).
Definition set_display (d : D) (s : out) : out := Out (uart s) (sent s) (crt s) d (panicked s).

Definition uartputc (c : Z) : K out unit :=
  modify (fun s => if negb (uart s) then s else set_sent (sent s ++ [u8 c]) s).

Definition inb (p : Z) : K out Z := fun s => let '(x, d) := d_inb p (display s) in Ok (x, set_display d s).
Definition outb (p v : Z) : K out unit := modify (fun s => set_display (d_outb p (v mod 256) (display s)) s).
Definition poke (i x : Z) : K out unit := fun s =>
  if (0 <=? i) && (i <? Z.of_nat (length (crt s))) then Ok (tt, set_crt (<[Z.to_nat i := x]> (crt s)) s) else Fault "outside the screen memory".
(** [memmove(crt, crt+80, 2*n)] and [memset(crt+i, 0, 2*n)] *)
Definition move_up (n : nat) : K out unit := fun s =>
  if (80 + n <=? length (crt s))%nat then Ok (tt, set_crt (take n (drop 80 (crt s)) ++ drop n (crt s)) s) else Fault "outside the screen memory".
Definition clear (i n : Z) : K out unit := fun s =>
  if (0 <=? i) && (0 <=? n) && (i + n <=? Z.of_nat (length (crt s))) then Ok (tt, set_crt (take (Z.to_nat i) (crt s) ++ replicate (Z.to_nat n) 0 ++ drop (Z.to_nat (i + n)) (crt s)) s)
  else Fault "outside the screen memory".

(** The end of [cgaputc]: the check, the scrolling, the cursor. *)
Definition settle (pos : Z) : K out unit :=
  if (pos <? 0) || (25 * 80 <? pos) then panic "pos under/overflow"
  else
    pos ← (if 24 <=? pos / 80 then
             move_up (23 * 80) ;;
             let pos := pos - 80 in
             clear pos (24 * 80 - pos) ;;
             mret pos
           else mret pos);
    outb CRTPORT 14 ;;
    outb (CRTPORT + 1) (Z.shiftr pos 8) ;;
    outb CRTPORT 15 ;;
    outb (CRTPORT + 1) pos ;;
    poke pos (Z.lor 32 0x0700).
Definition putc_at (c pos : Z) : K out unit :=
  pos ← (if c =? 10 then mret (pos + (80 - pos mod 80))
         else if c =? BACKSPACE then mret (if 0 <? pos then pos - 1 else pos)
         else poke pos (Z.lor (Z.land c 0xff) 0x0700) ;; mret (pos + 1));
  settle pos.
Definition cgaputc (c : Z) : K out unit :=
  outb CRTPORT 14 ;;
  h ← inb (CRTPORT + 1);
  outb CRTPORT 15 ;;
  l ← inb (CRTPORT + 1);
  putc_at c (Z.lor (Z.shiftl h 8) l).

(** Another CPU has panicked: stop. *)
Definition freeze {A} : K out A := fun _ => Spin.
Definition consputc (c : Z) : K out unit :=
  p ← gets panicked;
  if (p : bool) then freeze
  else
    (if c =? BACKSPACE then uartputc 8 ;; uartputc 32 ;; uartputc 8 else uartputc c) ;;
    cgaputc c.
End output.
Arguments out D : clear implicits.
End ConsoleOut.

Module ConsoleOutFacts.
Import ConsoleOut.

(** ** A terminal *)

(** 24 lines of 80 cells, and the place of the next character. *)
Record term := Term { rows : list (list Z); row : nat; col : nat }.
Definition blank_row : list Z := replicate 80 0.
Definition put_cell (x : Z) (t : term) : term := Term (<[row t := <[col t := x]> (rows t !!! row t)]> (rows t)) (row t) (col t).
(** To the start of the next line; the lines move up when there is none. *)
Definition newline (t : term) : term := if decide (row t = 23%nat) then Term (drop 1 (rows t) ++ [blank_row]) 23 0 else Term (rows t) (S (row t)) 0.
Definition forward (t : term) : term := if decide (col t = 79%nat) then newline t else Term (rows t) (row t) (S (col t)).
Definition back (t : term) : term :=
  match col t, row t with
  | S c, _ => Term (rows t) (row t) c
  | O, S r => Term (rows t) r 79
  | O, O => t
  end.
Definition print (c : Z) (t : term) : term :=
  put_cell (Z.lor 32 0x0700)
    (if c =? 10 then newline t
     else if c =? BACKSPACE then back t
     else forward (put_cell (Z.lor (Z.land c 0xff) 0x0700) t)).

Record fits (t : term) : Prop := {
  ft_rows : length (rows t) = 24%nat;
  ft_cols : Forall (fun r => length r = 80%nat) (rows t);
  ft_row : (row t < 24)%nat;
  ft_col : (col t < 80)%nat;
}.

Lemma length_concat_rows (l : list (list Z)) : Forall (fun r => length r = 80%nat) l -> length (concat l) = (80 * length l)%nat.
Proof. induction 1 as [|r l Hr _ IH]; [reflexivity|]. cbn [concat length]. rewrite length_app, IH, Hr. lia. Qed.

Lemma insert_concat (l : list (list Z)) i j x : Forall (fun r => length r = 80%nat) l -> (i < length l)%nat -> (j < 80)%nat ->
  <[(80 * i + j)%nat := x]> (concat l) = concat (<[i := <[j := x]> (l !!! i)]> l).
Proof.
  intros Hl. revert i. induction Hl as [|r l Hr _ IH]; intros i Hi Hj; [cbn in Hi; lia|]. destruct i as [|i].
  - cbn [concat]. rewrite Nat.mul_0_r, Nat.add_0_l. rewrite insert_app_l by lia. reflexivity.
  - change ((r :: l) !!! S i) with (l !!! i). change (<[S i := ?y]> (r :: l)) with (r :: <[i := y]> l). cbn [concat length] in *. rewrite insert_app_r_alt by lia. rewrite Hr. replace (80 * S i + j - 80)%nat with (80 * i + j)%nat by lia. rewrite IH by lia. reflexivity.
Qed.

Lemma fits_put x t : fits t -> fits (put_cell x t).
Proof.
  intros [F1 F2 F3 F4]. constructor; cbn; [rewrite length_insert; exact F1| |exact F3|exact F4]. apply Forall_insert; [exact F2|]. rewrite length_insert. apply (Forall_lookup_1 _ _ _ _ F2 (list_lookup_lookup_total_lt (rows t) (row t) ltac:(lia))).
Qed.

Lemma fits_newline t : fits t -> fits (newline t).
Proof.
  intros [F1 F2 F3 F4]. unfold newline. destruct (decide (row t = 23%nat)); constructor; cbn; try lia; try assumption; [rewrite length_app, length_drop; cbn; lia|]. apply Forall_app. split; [apply Forall_drop, F2|]. apply Forall_singleton. reflexivity.
Qed.

Lemma fits_forward t : fits t -> fits (forward t).
Proof. intros F. unfold forward. destruct (decide (col t = 79%nat)); [apply fits_newline, F|]. destruct F. constructor; cbn; try assumption; lia. Qed.

Lemma fits_back t : fits t -> fits (back t).
Proof. intros [F1 F2 F3 F4]. unfold back. destruct (col t) as [|c] eqn:Ec; [destruct (row t) as [|r] eqn:Er|]; constructor; cbn; try assumption; lia. Qed.

Lemma fits_print c t : fits t -> fits (print c t).
Proof. intros F. unfold print. apply fits_put. destruct (c =? 10); [apply fits_newline, F|]. destruct (c =? BACKSPACE); [apply fits_back, F|apply fits_forward, fits_put, F]. Qed.

Section output.
Context {D : Type} `{!Display D}.

(** The screen shows the terminal. *)
Record shows (s : out D) (t : term) : Prop := {
  sh_fits : fits t;
  sh_crt : exists rest, crt s = concat (rows t) ++ rest /\ length rest = 80%nat;
  sh_cursor : cursor (display s) = 80 * Z.of_nat (row t) + Z.of_nat (col t);
}.
(** The same without the cursor, which is still in a variable. *)
Definition drawn (s : out D) (t : term) : Prop := fits t /\ exists rest, crt s = concat (rows t) ++ rest /\ length rest = 80%nat.
Definition place (t : term) : Z := 80 * Z.of_nat (row t) + Z.of_nat (col t).
Definition quiet (s s' : out D) : Prop := uart s' = uart s /\ sent s' = sent s /\ panicked s' = panicked s.

Lemma length_drawn s t : drawn s t -> length (crt s) = 2000%nat.
Proof. intros [F (rest & -> & Hr)]. rewrite length_app, length_concat_rows by apply F. rewrite (ft_rows _ F). lia. Qed.

Lemma wp_poke s t x (Q : unit -> out D -> Prop) : drawn s t -> (forall s', drawn s' (put_cell x t) -> quiet s s' -> display s' = display s -> Q tt s') -> wp (poke (place t) x) Q s.
Proof.
  intros Hd HQ. pose proof (length_drawn s t Hd) as Hl. destruct Hd as [F (rest & E & Hr)]. destruct F as [F1 F2 F3 F4] eqn:EF. exists tt, (set_crt (<[Z.to_nat (place t) := x]> (crt s)) s). unfold poke, place in *. split.
  - rewrite Hl, (proj2 (Z.leb_le _ _)), (proj2 (Z.ltb_lt _ _)) by lia. reflexivity.
  - apply HQ; [|repeat split|reflexivity]. split; [apply fits_put; constructor; assumption|]. exists rest. split; [|exact Hr]. cbn [crt set_crt put_cell rows]. rewrite E, insert_app_l by (rewrite length_concat_rows by exact F2; lia).
    rewrite <- insert_concat by (assumption || lia). f_equal. f_equal. lia.
Qed.

Lemma halves h l : 0 <= h -> 0 <= l < 256 -> Z.lor (Z.shiftl h 8) l = 256 * h + l.
Proof.
  intros Hh Hl. replace (256 * h) with (Z.shiftl h 8) by (rewrite Z.shiftl_mul_pow2 by lia; change (2 ^ 8) with 256; lia). rewrite <- Z.lxor_lor, <- Z.add_nocarry_lxor; [reflexivity| |]; apply Z.bits_inj'; intros n Hn; rewrite Z.land_spec, Z.testbit_0_l, Z.shiftl_spec by exact Hn;
    (destruct (Z.ltb_spec n 8); [rewrite (Z.testbit_neg_r h) by lia; reflexivity|]); rewrite <- (Z.mod_small l (2 ^ 8)) by (change (2 ^ 8) with 256; lia); rewrite Z.mod_pow2_bits_high by lia; apply andb_false_r.
Qed.

Lemma wp_inb p s x d (Q : Z -> out D -> Prop) : d_inb p (display s) = (x, d) -> Q x (set_display d s) -> wp (inb p) Q s.
Proof. intros E HQ. exists x, (set_display d s). unfold inb. rewrite E. auto. Qed.

(** Reading the cursor. *)
Lemma wp_cursor {A} s (f : Z -> K (out D) A) (Q : A -> out D -> Prop) : (forall s', crt s' = crt s -> quiet s s' -> cursor (display s') = cursor (display s) -> wp (f (cursor (display s))) Q s') ->
  wp (outb CRTPORT 14 ;; h ← inb (CRTPORT + 1); outb CRTPORT 15 ;; l ← inb (CRTPORT + 1); f (Z.lor (Z.shiftl h 8) l)) Q s.
Proof.
  intros HQ. pose proof (cursor_read (display s)) as C. pose proof (cursor_range (display s)) as R. destruct (d_inb (CRTPORT + 1) (d_outb CRTPORT 14 (display s))) as [h d1] eqn:E1. destruct (d_inb (CRTPORT + 1) (d_outb CRTPORT 15 d1)) as [l d2] eqn:E2. destruct C as (-> & -> & C).
  apply wp_bind, wp_modify. apply wp_bind. eapply wp_inb; [exact E1|]. apply wp_bind, wp_modify. apply wp_bind. eapply wp_inb; [exact E2|].
  set (p := cursor (display s)) in *. pose proof (Z.div_pos p 256 ltac:(lia) ltac:(lia)). pose proof (Z.mod_pos_bound p 256 ltac:(lia)). pose proof (Z.div_mod p 256 ltac:(lia)) as E. rewrite halves by lia. rewrite <- E. apply HQ; [reflexivity|repeat split|exact C].
Qed.

(** Writing it. *)
Lemma wp_set_cursor {A} s pos (m : K (out D) A) (Q : A -> out D -> Prop) : 0 <= pos < 65536 -> (forall s', crt s' = crt s -> quiet s s' -> cursor (display s') = pos -> wp m Q s') ->
  wp (outb CRTPORT 14 ;; outb (CRTPORT + 1) (Z.shiftr pos 8) ;; outb CRTPORT 15 ;; outb (CRTPORT + 1) pos ;; m) Q s.
Proof.
  intros Hp HQ. do 4 (apply wp_bind, wp_modify; cbn [display set_display]). rewrite Z.shiftr_div_pow2 by lia. change (2 ^ 8) with 256. change (14 mod 256) with 14. change (15 mod 256) with 15.
  assert (H1 : 0 <= pos / 256 < 256) by (split; [apply Z.div_pos; lia|apply Z.div_lt_upper_bound; lia]). rewrite (Z.mod_small (pos / 256)) by exact H1. pose proof (Z.mod_pos_bound pos 256 ltac:(lia)). apply HQ; [reflexivity|repeat split|]. cbn [display set_display].
  rewrite cursor_write by lia. symmetry. apply Z.div_mod. lia.
Qed.

Lemma drawn_same s s' t : crt s' = crt s -> drawn s t -> drawn s' t.
Proof. intros E [F H]. split; [exact F|]. rewrite E. exact H. Qed.

Lemma quiet_trans s s1 s2 : quiet s s1 -> quiet s1 s2 -> quiet s s2.
Proof. intros (A1 & A2 & A3) (B1 & B2 & B3). repeat split; congruence. Qed.

Lemma wp_move_up s n (Q : unit -> out D -> Prop) : (80 + n <= length (crt s))%nat -> Q tt (set_crt (take n (drop 80 (crt s)) ++ drop n (crt s)) s) -> wp (move_up n) Q s.
Proof. intros H HQ. eexists _, _. split; [|exact HQ]. unfold move_up. rewrite (proj2 (Nat.leb_le _ _) H). reflexivity. Qed.

Lemma wp_clear s i n (Q : unit -> out D -> Prop) : 0 <= i -> 0 <= n -> i + n <= Z.of_nat (length (crt s)) -> Q tt (set_crt (take (Z.to_nat i) (crt s) ++ replicate (Z.to_nat n) 0 ++ drop (Z.to_nat (i + n)) (crt s)) s) -> wp (clear i n) Q s.
Proof. intros H1 H2 H3 HQ. eexists _, _. split; [|exact HQ]. unfold clear. rewrite !(proj2 (Z.leb_le _ _)) by assumption. reflexivity. Qed.

(** The lines move up when the position has reached the end of the last one. *)
Definition scrolled (t : term) : term := Term (drop 1 (rows t) ++ [blank_row]) 23 0.

Lemma wp_scroll s t (Q : Z -> out D -> Prop) : drawn s t -> (forall s', drawn s' (scrolled t) -> quiet s s' -> display s' = display s -> Q 1840 s') ->
  wp (move_up (23 * 80) ;; clear (1920 - 80) (24 * 80 - (1920 - 80)) ;; mret (1920 - 80)) Q s.
Proof.
  intros Hd HQ. pose proof (length_drawn s t Hd) as Hl. destruct Hd as [F (rest & E & Hr)]. destruct F as [F1 F2 F3 F4]. destruct (rows t) as [|r0 rs] eqn:Et; [discriminate|]. apply Forall_cons in F2 as [Hr0 F2]. cbn beta in Hr0. cbn [length] in F1. pose proof (length_concat_rows rs F2) as Hc.
  assert (Em : take 1840 (drop 80 (crt s)) = concat rs) by (rewrite E; cbn [concat]; rewrite <- app_assoc, drop_app_length' by lia; rewrite take_app_length' by lia; reflexivity).
  apply wp_bind, wp_move_up; [lia|]. change (23 * 80)%nat with 1840%nat. change (1920 - 80) with 1840. change (24 * 80 - 1840) with 80. apply wp_bind, wp_clear; [lia|lia|cbn [crt set_crt]; rewrite length_app, length_take, !length_drop, Hl; lia|]. wp_step. apply HQ; [|repeat split|reflexivity]. split.
  - constructor; cbn [scrolled rows row col]; try lia; rewrite Et; [rewrite length_app, length_drop; cbn [length]; lia|]. apply Forall_app. split; [exact F2|]. apply Forall_singleton. reflexivity.
  - exists rest. split; [|exact Hr]. cbn [crt set_crt scrolled rows]. rewrite Et, Em. change (Z.to_nat 1840) with 1840%nat. change (Z.to_nat 80) with 80%nat. change (Z.to_nat (1840 + 80)) with 1920%nat. rewrite take_app_length' by lia. cbn [drop]. rewrite concat_app. cbn [concat]. rewrite app_nil_r, <- !app_assoc. f_equal. f_equal.
    rewrite drop_app_ge by lia. replace (1920 - length (concat rs))%nat with 80%nat by lia. rewrite drop_drop, E. replace (1840 + 80)%nat with (length (concat (r0 :: rs)))%nat by (cbn [concat]; rewrite length_app; lia). apply drop_app_length.
Qed.

(** Where the cursor goes: a place on the screen, or the end of the last line. *)
Definition goes (t : term) (pos : Z) (t1 : term) : Prop := pos = place t1 /\ rows t1 = rows t /\ fits t1 \/ pos = 1920 /\ t1 = scrolled t.

Lemma goes_newline t : fits t -> goes t (place t + (80 - place t mod 80)) (newline t).
Proof.
  intros F. pose proof (fits_newline t F) as Fn. destruct F as [F1 F2 F3 F4]. assert (Em : place t mod 80 = Z.of_nat (col t)) by (symmetry; apply (Z.mod_unique_pos _ _ (Z.of_nat (row t))); unfold place; lia). rewrite Em. unfold goes, newline, place in *. destruct (decide (row t = 23%nat)) as [E|E].
  - right. split; [lia|reflexivity].
  - left. split; [cbn; lia|auto].
Qed.

Lemma goes_forward t : fits t -> goes t (place t + 1) (forward t).
Proof.
  intros F. pose proof (fits_forward t F) as Fn. unfold forward in *. destruct (decide (col t = 79%nat)) as [E|E]; [|left; unfold place; cbn; split; [lia|auto]].
  pose proof (goes_newline t F) as G. replace (place t mod 80) with 79 in G by (apply (Z.mod_unique_pos _ _ (Z.of_nat (row t))); unfold place; lia). exact G.
Qed.

Lemma goes_back t : fits t -> goes t (if 0 <? place t then place t - 1 else place t) (back t).
Proof.
  intros F. pose proof (fits_back t F) as Fn. left. split; [|split; [unfold back; destruct (col t), (row t); reflexivity|exact Fn]]. unfold place, back in *. destruct (col t) as [|c] eqn:Ec; [destruct (row t) as [|r] eqn:Er|]; cbn [row col];
    [rewrite Ec, Er; reflexivity|..]; rewrite (proj2 (Z.ltb_lt _ _)) by lia; lia.
Qed.

Lemma wp_settle s t pos t1 (Q : unit -> out D -> Prop) : drawn s t -> goes t pos t1 -> (forall s', shows s' (put_cell (Z.lor 32 0x0700) t1) -> quiet s s' -> Q tt s') ->
  wp (settle pos) Q s.
Proof.
  intros Hd Hg HQ. unfold settle. change (25 * 80) with 2000. assert (Hlast : forall s1, drawn s1 t1 -> quiet s s1 -> wp (outb CRTPORT 14 ;; outb (CRTPORT + 1) (Z.shiftr (place t1) 8) ;; outb CRTPORT 15 ;; outb (CRTPORT + 1) (place t1) ;; poke (place t1) (Z.lor 32 0x0700)) Q s1).
  { intros s1 D1 Q1. pose proof (ft_row _ (proj1 D1)). pose proof (ft_col _ (proj1 D1)). apply wp_set_cursor; [unfold place; lia|]. intros s2 E2 Q2 C2. apply (wp_poke s2 t1); [exact (drawn_same s1 s2 t1 E2 D1)|]. intros s3 [F3 D3] Q3 C3. apply HQ; [|exact (quiet_trans _ _ _ (quiet_trans _ _ _ Q1 Q2) Q3)]. constructor; [exact F3|exact D3|rewrite C3, C2; reflexivity]. }
  destruct Hg as [(-> & Er & F)|(-> & ->)].
  - pose proof (ft_row _ F). pose proof (ft_col _ F). rewrite (proj2 (Z.ltb_ge _ _)), (proj2 (Z.ltb_ge _ _)) by (unfold place; lia). cbn [orb]. rewrite (proj2 (Z.leb_gt _ _)) by (apply Z.div_lt_upper_bound; unfold place; lia). apply wp_bind. wp_step. apply Hlast; [|repeat split]. destruct Hd as [_ (rest & E & Hr)]. split; [exact F|]. exists rest. rewrite Er. auto.
  - change ((1920 <? 0) || (2000 <? 1920)) with false. change (24 <=? 1920 / 80) with true. cbn match. apply wp_bind. apply (wp_scroll s t); [exact Hd|]. intros s1 D1 Q1 _. apply (Hlast s1 D1 Q1).
Qed.

Lemma wp_cgaputc s t c : shows s t -> wp (cgaputc c) (fun _ s' => shows s' (print c t) /\ quiet s s') s.
Proof.
  intros [F Hc Hp]. unfold cgaputc. apply (wp_cursor s (putc_at c)). intros s1 E1 Q1 C1. rewrite Hp. fold (place t). unfold putc_at. assert (D1 : drawn s1 t) by (split; [exact F|rewrite E1; exact Hc]).
  assert (Hfin : forall s2 t2 pos t1, drawn s2 t2 -> quiet s1 s2 -> goes t2 pos t1 -> put_cell (Z.lor 32 0x0700) t1 = print c t -> wp (settle pos) (fun _ s' => shows s' (print c t) /\ quiet s s') s2).
  { intros s2 t2 pos t1 D2 Q2 G Ep. apply (wp_settle s2 t2 pos t1); [exact D2|exact G|]. intros s3 S3 Q3. rewrite <- Ep. split; [exact S3|exact (quiet_trans _ _ _ (quiet_trans _ _ _ Q1 Q2) Q3)]. }
  apply wp_bind. unfold print in Hfin |- *. destruct (c =? 10); [wp_step; apply (Hfin s1 t _ (newline t) D1); [repeat split|apply goes_newline, F|reflexivity]|]. destruct (c =? BACKSPACE); [wp_step; apply (Hfin s1 t _ (back t) D1); [repeat split|apply goes_back, F|reflexivity]|].
  apply wp_bind. apply (wp_poke s1 t); [exact D1|]. intros s2 D2 Q2 _. wp_step. apply (Hfin s2 (put_cell (Z.lor (Z.land c 255) 1792) t) _ (forward (put_cell (Z.lor (Z.land c 255) 1792) t)) D2 Q2); [|reflexivity]. change (place t) with (place (put_cell (Z.lor (Z.land c 255) 1792) t)). apply goes_forward, fits_put, F.
Qed.

(** What the serial port gets for one call. *)
Definition echo (c : Z) : list Z := if c =? BACKSPACE then [8; 32; 8] else [u8 c].

Lemma wp_uartputc s c (Q : unit -> out D -> Prop) : Q tt (set_sent (if uart s then sent s ++ [u8 c] else sent s) s) -> wp (uartputc c) Q s.
Proof. intros HQ. apply wp_modify. destruct s as [u l m d p]. destruct u; exact HQ. Qed.

Lemma wp_consputc s t c : shows s t -> panicked s = false -> wp (consputc c) (fun _ s' => shows s' (print c t) /\ panicked s' = false /\ uart s' = uart s /\ sent s' = (if uart s then sent s ++ echo c else sent s)) s.
Proof.
  intros Sh Hp. unfold consputc. apply wp_bind, wp_gets. rewrite Hp. apply wp_bind.
  assert (Hfin : wp (cgaputc c) (fun _ s' => shows s' (print c t) /\ panicked s' = false /\ uart s' = uart s /\ sent s' = (if uart s then sent s ++ echo c else sent s)) (set_sent (if uart s then sent s ++ echo c else sent s) s)).
  { eapply wp_mono; [apply (wp_cgaputc _ t c); destruct Sh; constructor; assumption|]. intros [] s' [S' (Q1 & Q2 & Q3)]. cbn in *. repeat split; try assumption; [apply S'..|congruence]. }
  unfold echo in Hfin |- *. destruct (c =? BACKSPACE).
  - apply wp_bind, wp_uartputc. apply wp_bind, wp_uartputc. apply wp_uartputc. cbn [uart sent set_sent]. destruct (uart s); [rewrite <- !app_assoc; exact Hfin|exact Hfin].
  - apply wp_uartputc. exact Hfin.
Qed.

Lemma wp_console cs : forall s t, shows s t -> panicked s = false -> wp (forM cs consputc) (fun _ s' => shows s' (foldl (fun t c => print c t) t cs) /\ panicked s' = false /\ uart s' = uart s /\ sent s' = (if uart s then sent s ++ concat (echo <$> cs) else sent s)) s.
Proof.
  induction cs as [|c cs IH]; intros s t Sh Hp; cbn [forM foldl].
  - apply wp_skip. repeat split; try assumption; [apply Sh..|]. cbn. rewrite app_nil_r. destruct (uart s); reflexivity.
  - apply wp_bind. eapply wp_mono; [apply (wp_consputc s t c Sh Hp)|]. intros [] s1 (S1 & P1 & U1 & E1). eapply wp_mono; [apply (IH s1 _ S1 P1)|]. intros [] s2 (S2 & P2 & U2 & E2). split; [exact S2|]. split; [exact P2|]. split; [congruence|]. rewrite E2, U1, E1. cbn [fmap list_fmap concat]. destruct (uart s); [rewrite <- app_assoc; reflexivity|reflexivity].
Qed.
End output.

(** ** Formats *)

Import PrintFacts PrintfmtFacts.

Lemma console_digits base : 2 <= base <= 16 -> forall room x l, 0 <= x -> Print.digits_loop room x base = Ok l -> digits_loop room x base = Ok (lower <$> l).
Proof.
  intros Hb. induction room as [|room IH]; intros x l Hx E; [discriminate|]. cbn [Print.digits_loop digits_loop] in *. pose proof (Z.mod_pos_bound x base ltac:(lia)) as Hm. assert (Ed : digits (x mod base) = lower (Print.digit (x mod base))) by (apply hex_digit; lia). destruct (x / base =? 0).
  - injection E as <-. cbn. rewrite Ed. reflexivity.
  - destruct (Print.digits_loop room (x / base) base) as [l'|?|?|] eqn:El; try discriminate. injection E as <-. rewrite (IH (x / base) l' ltac:(apply Z.div_pos; lia) El). cbn. rewrite Ed. reflexivity.
Qed.

Lemma lower_decimal l : Forall (is_digit 10) l -> lower <$> l = l.
Proof.
  intros H. rewrite <- (list_fmap_id l) at 2. apply Forall_fmap_ext_1. eapply Forall_impl; [exact H|]. intros c (k & Hk & ->). cbn. unfold lower, Print.digit. rewrite (proj2 (Z.ltb_lt k 10)) by lia. rewrite (proj2 (Z.ltb_lt (48 + k) 58)) by lia. reflexivity.
Qed.

(** The kernel prints decimal numbers as printf.c does. *)
Lemma console_decimal x : is_s32 x -> exists l, printint x 10 true = Ok l /\ Print.printint x 10 true = Ok l /\ Forall is_byte l.
Proof.
  intros Hx. unfold is_s32 in Hx. unfold printint, Print.printint. cbn [andb]. set (y := if x <? 0 then u32 (- x) else u32 x). assert (Hy : 0 <= y < 4294967296) by (unfold y; destruct (x <? 0); apply u32_is_u32).
  assert (Hp : 0 <= y < 10 ^ Z.of_nat 15) by (change (10 ^ Z.of_nat 15) with 1000000000000000; lia). destruct (digits_loop_spec 10 ltac:(lia) 15 y Hp ltac:(lia)) as (l & El & _ & Hl & Ha & _). pose proof (digits_loop_more 15 y 10 l El) as E16. rewrite E16, (console_digits 10 ltac:(lia) 16 y l ltac:(lia) E16), (lower_decimal l Ha). cbn [mbind res_bind].
  assert (Hbytes : Forall is_byte (rev l)) by (eapply Forall_impl; [apply Forall_rev_list, Ha|]; intros c (k & Hk & ->); unfold Print.digit, is_byte; rewrite (proj2 (Z.ltb_lt k 10)) by lia; lia).
  destruct (x <? 0); [|eauto]. rewrite (proj2 (Nat.ltb_lt (length l) 16)) by lia. eexists. split; [reflexivity|]. split; [reflexivity|]. rewrite rev_app_distr. constructor; [unfold is_byte; lia|exact Hbytes].
Qed.

(** The items that the kernel's [cprintf] understands. *)
Definition understood (i : item) : Prop := match i with Chr _ => False | _ => True end.

Lemma cprintf_same string_at items : Forall (proper string_at) items -> Forall understood items ->
  exists out, cprintf_loop string_at (items ≫= fmt_of) (items ≫= words_of) = Ok out /\ Print.printf_loop string_at (items ≫= fmt_of) false (items ≫= words_of) = Ok (u8 <$> out).
Proof.
  induction 1 as [|i items Hi _ IH]; intros Hu; [exists []; split; reflexivity|]. apply Forall_cons in Hu as [Hui Hu]. destruct (IH Hu) as (out & E1 & E2). cbn [mbind list_bind]. destruct i as [c|x|c|p|]; [| |contradiction| |]; cbn [fmt_of words_of app].
  - destruct Hi as (Hb & H37 & H0). exists (c :: out). cbn [cprintf_loop Print.printf_loop]. rewrite (proj2 (Z.eqb_neq _ _) H37), (proj2 (Z.eqb_neq c Print.PERCENT) H37), (proj2 (Z.eqb_neq _ _) H0). cbn [negb]. setoid_rewrite E1. setoid_rewrite E2. split; [reflexivity|]. cbn. rewrite u8_id by exact Hb. reflexivity.
  - cbn [proper] in Hi. destruct (console_decimal x Hi) as (l & L1 & L2 & L3). exists (l ++ out). cbn [cprintf_loop Print.printf_loop Z.eqb Pos.eqb negb]. change (37 =? Print.PERCENT) with true. cbn match. rewrite (s32_id x Hi), L1, L2. cbn [mbind res_bind]. setoid_rewrite E1. setoid_rewrite E2. split; [reflexivity|]. cbn. rewrite fmap_app. do 2 f_equal.
    rewrite <- (list_fmap_id l) at 1. apply Forall_fmap_ext_1. eapply Forall_impl; [exact L3|]. intros c Hc. cbn. symmetry. apply u8_id, Hc.
  - set (t := if p =? 0 then null_text else string_at p). exists ((s8 <$> t) ++ out). assert (Ht : Forall is_byte t) by (unfold t; destruct (p =? 0); [repeat constructor; unfold is_byte; lia|exact Hi]). cbn [cprintf_loop Print.printf_loop Z.eqb Pos.eqb negb orb]. change (37 =? Print.PERCENT) with true. cbn match. cbn [mbind res_bind]. fold t. setoid_rewrite E1. setoid_rewrite E2. split; [reflexivity|].
    cbn [mbind res_bind]. rewrite fmap_app, <- list_fmap_compose. do 2 f_equal. change Print.null_text with null_text. fold t. rewrite <- (list_fmap_id t) at 1. apply Forall_fmap_ext_1. eapply Forall_impl; [exact Ht|]. intros c Hc. cbn. symmetry. rewrite u8_s8. apply u8_id, Hc.
  - exists (37 :: out). cbn [cprintf_loop Print.printf_loop Z.eqb Pos.eqb negb]. change (37 =? Print.PERCENT) with true. cbn match. setoid_rewrite E1. setoid_rewrite E2. split; reflexivity.
Qed.
End ConsoleOutFacts.

(** A display controller. *)
Module Crtc.
Import ConsoleOut.
Record crtc := MkCrtc { index : Z; high : Z; low : Z }.
#[global] Instance crtc_display : Display crtc.
Proof.
  refine {| d_inb p d := ((if index d =? 14 then u8 (high d) else u8 (low d)), d);
            d_outb p v d := if p =? CRTPORT then MkCrtc v (high d) (low d) else if index d =? 14 then MkCrtc 14 v (low d) else MkCrtc (index d) (high d) v;
            cursor d := 256 * u8 (high d) + u8 (low d) |}.
  - intros d. pose proof (u8_byte (high d)) as H1. pose proof (u8_byte (low d)) as H2. unfold is_byte in *. lia.
  - intros d. cbn. pose proof (u8_byte (high d)) as H1. pose proof (u8_byte (low d)) as H2. unfold is_byte in *. split; [apply (Z.div_unique_pos _ _ _ (u8 (low d))); lia|]. split; [apply (Z.mod_unique_pos _ _ (u8 (high d))); lia|reflexivity].
  - intros d h l Hh Hl. change (256 * u8 h + u8 l = 256 * h + l). rewrite (u8_id h Hh), (u8_id l Hl). reflexivity.
Defined.
End Crtc.

Module ConsoleOutProps.
Import ConsoleOut ConsoleOutFacts PrintfmtFacts.

(** C23: What the kernel prints is what a terminal shows.  For a format with decimal numbers,
    strings and percent signs and arguments of these types, the kernel's [cprintf] gives
    [consputc] the bytes that the user library prints for them; and whatever characters [consputc]
    is given, on a screen that shows a terminal of 24 lines of 80 cells it returns without leaving
    the screen memory, the screen shows the terminal after printing them, with lines that move up
    when the last one is full and a blank cell at the cursor, and the serial port has got the same
    characters, a backspace as a back, a blank and a back. *)
Theorem kernel_prints {D} `{!Display D} string_at items (s : out D) t : Forall (proper string_at) items -> Forall understood items -> shows s t -> panicked s = false ->
  exists l s', cprintf string_at (Some (items ≫= fmt_of)) (items ≫= words_of) = Ok l /\ Print.printf string_at (items ≫= fmt_of) (items ≫= words_of) = Ok (u8 <$> l) /\
    forM l consputc s = Ok (tt, s') /\ shows s' (foldl (fun t c => print c t) t l) /\ sent s' = (if uart s then sent s ++ concat (echo <$> l) else sent s).
Proof.
  intros Hp Hu Sh Hn. destruct (cprintf_same string_at items Hp Hu) as (l & E1 & E2). destruct (wp_console l s t Sh Hn) as ([] & s' & E & S' & _ & _ & Es). exists l, s'. repeat (split; [assumption|]). exact Es.
Qed.

(** An empty screen with the cursor in its first line. *)
Definition blank : out Crtc.crtc := Out true [] (replicate 2000 0) (Crtc.MkCrtc 0 0 0) false.
Definition blank_term : term := Term (replicate 24 blank_row) 0 0.

Lemma blank_shows : shows blank blank_term.
Proof.
  constructor; [constructor; cbn [blank_term rows row col]; [reflexivity|apply Forall_replicate; reflexivity|lia|lia]|exists blank_row; split; reflexivity|reflexivity].
Qed.

Lemma kernel_prints_witness : exists l s', cprintf (fun _ => []) (Some [99; 112; 117; 37; 100]) [7] = Ok l /\ forM l consputc blank = Ok (tt, s') /\ sent s' = [99; 112; 117; 55].
Proof.
  destruct (kernel_prints (fun _ => []) [Lit 99; Lit 112; Lit 117; Dec 7] blank blank_term) as (l & s' & E1 & E2 & E3 & _ & E5); [repeat constructor; unfold is_byte, is_s32; lia|repeat constructor|exact blank_shows|reflexivity|].
  exists l, s'. split; [exact E1|]. split; [exact E3|]. rewrite E5. change (cprintf _ _ _) with (Ok [99; 112; 117; 55]) in E1. injection E1 as <-. reflexivity.
Defined.
End ConsoleOutProps.
