(* ===== verification/Console.v ===== *)
(** Console input (console.c): the line discipline of [consoleintr] and [consoleread] on the
    circular buffer [input], and the select entry points.

    The sections under the lock of the console are atomic; a read is the section that ends
    with its result or with the process asleep.  What [consputc] prints and the
    events given to the entropy accumulator are recorded in order. *)

From S2P Require Import Prelude Kernel Pipe.

Module Console.

Definition INPUT_BUF : Z := 128.
Definition BACKSPACE : Z := 256.
(** [C(x)] *)
Definition C_ (x : Z) : Z := x - 64.
Definition CTRL_P : Z := C_ 80.
Definition CTRL_U : Z := C_ 85.
Definition CTRL_H : Z := C_ 72.
Definition CTRL_D : Z := C_ 68.
Definition DEL : Z := 127.
Definition NL : Z := 10.
Definition CR : Z := 13.

(** Channels: [&input.r], and [selid] of a process. *)
Inductive chan := InputR | SelId (p : nat).
#[export] Instance chan_eq_dec : EqDecision chan.
Proof. solve_decision. Defined.

Record cons := Cons {
  buf : list Z;
  r : Z;
  w : Z;
  e : Z;
  selprocread : Select.selproc;
  asleep : list (nat * chan);
  printed : list Z;              (** arguments of [consputc] *)
  events : list (Z * Z);         (** pool and character of [addRandomEvent(KEYBOARD_PRESS, ...)] *)
  keyboard_press_pool : Z;
}.
Definition set_input (b : list Z) (r w e : Z) (s : cons) : cons :=
  Cons b r w e (selprocread s) (asleep s) (printed s) (events s) (keyboard_press_pool s).
Definition set_asleep (l : list (nat * chan)) (s : cons) : cons :=
  Cons (buf s) (r s) (w s) (e s) (selprocread s) l (printed s) (events s) (keyboard_press_pool s).
Definition set_sel (l : Select.selproc) (s : cons) : cons :=
  Cons (buf s) (r s) (w s) (e s) l (asleep s) (printed s) (events s) (keyboard_press_pool s).
Definition consputc (c : Z) (s : cons) : cons :=
  Cons (buf s) (r s) (w s) (e s) (selprocread s) (asleep s) (printed s ++ [c]) (events s) (keyboard_press_pool s).

Definition wakeup (c : chan) (s : cons) : cons := set_asleep (filter (fun x => x.2 <> c) (asleep s)) s.
Definition wakeupselect (l : Select.selproc) (s : cons) : cons :=
  foldl (fun s x => match x with Some p => wakeup (SelId p) s | None => s end) s (Select.sel l).

(** [input.e--; consputc(BACKSPACE)] *)
Definition erase (s : cons) : cons := consputc BACKSPACE (set_input (buf s) (r s) (w s) (u32 (e s - 1)) s).

(** [C('U')]: the loop runs at most [e - w] times. *)
Fixpoint kill_line (fuel : nat) (s : cons) : cons :=
  match fuel with
  | O => s
  | S fuel' =>
      if (e s =? w s) || (buf s !!! Z.to_nat (u32 (e s - 1) mod INPUT_BUF) =? NL) then s
      else kill_line fuel' (erase s)
  end.

(** The [switch], with the character recorded afterwards. *)
Definition key (c : Z) (s : cons) : cons * Z :=
  if c =? CTRL_P then (s, c)
  else if c =? CTRL_U then (kill_line (Z.to_nat (u32 (e s - w s))) s, c)
  else if (c =? CTRL_H) || (c =? DEL) then (if negb (e s =? w s) then erase s else s, c)
  else if negb (c =? 0) && (u32 (e s - r s) <? INPUT_BUF) then
    let c := if c =? CR then NL else c in
    let s := consputc c (set_input (<[Z.to_nat (e s mod INPUT_BUF) := s8 c]> (buf s)) (r s) (w s) (u32 (e s + 1)) s) in
    (if (c =? NL) || (c =? CTRL_D) || (e s =? u32 (r s + INPUT_BUF)) then
       wakeupselect (selprocread s) (wakeup InputR (set_input (buf s) (r s) (e s) (e s) s))
     else s, c)
  else (s, c).

Definition record_key (c : Z) (s : cons) : cons :=
  Cons (buf s) (r s) (w s) (e s) (selprocread s) (asleep s) (printed s)
    (events s ++ [(keyboard_press_pool s mod Kernel.MAX_POOLS, c)]) (u32 (keyboard_press_pool s + 1)).

(** [cs] is what [getc] returns until it returns a negative number; also tells whether
    [procdump] runs at the end. *)
Definition consoleintr (cs : list Z) (s : cons) : cons * bool :=
  (foldl (fun s c => let '(s, c) := key c s in record_key c s) s cs, existsb (fun c => c =? CTRL_P) cs).

Inductive rresult :=
  | RDone (bs : list Z)
  | RKilled
  | RSleep (got : list Z).  (** asleep with [got] copied so far *)

(** A section of [consoleread], [n] characters still wanted after [got]. *)
Fixpoint consoleread (me : nat) (killed : bool) (n : nat) (got : list Z) (s : cons) : rresult * cons :=
  match n with
  | O => (RDone got, s)
  | S n' =>
      if r s =? w s then
        if killed then (RKilled, s) else (RSleep got, set_asleep ((me, InputR) :: asleep s) s)
      else
        let c := buf s !!! Z.to_nat (r s mod INPUT_BUF) in
        let s1 := set_input (buf s) (u32 (r s + 1)) (w s) (e s) s in
        if c =? CTRL_D then
          (RDone got, match got with [] => s1 | _ => set_input (buf s) (u32 (u32 (r s + 1) - 1)) (w s) (e s) s end)
        else if c =? NL then (RDone (got ++ [c]), s1)
        else consoleread me killed n' (got ++ [c]) s1
  end.

Definition consolewrite (cs : list Z) (s : cons) : cons * Z :=
  (foldl (fun s c => consputc (u8 c) s) s cs, Z.of_nat (length cs)).

Definition consolewriteable : Z := 1.
Definition consolereadable (killed : bool) (s : cons) : Z :=
  if killed then -1 else if r s =? w s then 0 else 1.
Definition consoleselect (me : nat) (s : cons) : cons := set_sel (Select.addselid (selprocread s) me me) s.
Definition consoleclrsel (me : nat) (s : cons) : cons := set_sel (Select.clearselid (selprocread s) me) s.
End Console.

Module ConsoleFacts.
Import Console.

(** ** The buffer *)

(** The buffer has the characters [com] of committed lines, then those of [line], which is being
    edited; no reader sleeps while there is something to read. *)
Record holds (s : cons) (com line : list Z) : Prop := {
  h_buf : Z.of_nat (length (buf s)) = INPUT_BUF;
  h_r : is_u32 (r s);
  h_w : w s = u32 (r s + Z.of_nat (length com));
  h_e : e s = u32 (r s + Z.of_nat (length com) + Z.of_nat (length line));
  h_size : Z.of_nat (length com) + Z.of_nat (length line) <= INPUT_BUF;
  h_bytes : forall k x, (com ++ line) !! k = Some x -> buf s !! Z.to_nat ((r s + Z.of_nat k) mod INPUT_BUF) = Some x;
  h_line : NL ∉ line;
  h_sleep : forall p, (p, InputR) ∈ asleep s -> com = [];
}.

Lemma u32_mod_buf x : u32 x mod INPUT_BUF = x mod INPUT_BUF.
Proof. unfold u32, INPUT_BUF. apply Z.mod_mod_divide. exists 33554432. reflexivity. Qed.

Lemma u32_add a b : u32 (u32 a + b) = u32 (a + b).
Proof. unfold u32. apply Zplus_mod_idemp_l. Qed.

Lemma u32_sub a b : u32 (u32 a - b) = u32 (a - b).
Proof. unfold u32. apply Zminus_mod_idemp_l. Qed.

Lemma u32_sub_r a b : u32 (a - u32 b) = u32 (a - b).
Proof. unfold u32. apply Zminus_mod_idemp_r. Qed.

Lemma distance a n m : u32 (u32 (a + n) - u32 (a + m)) = u32 (n - m).
Proof. rewrite u32_sub, u32_sub_r. f_equal. lia. Qed.

Lemma line_length s com line : holds s com line -> u32 (e s - w s) = Z.of_nat (length line).
Proof.
  intros H. rewrite (h_e _ _ _ H), (h_w _ _ _ H), <- Z.add_assoc, distance. pose proof (h_size _ _ _ H).
  replace (Z.of_nat (length com) + Z.of_nat (length line) - Z.of_nat (length com)) with (Z.of_nat (length line)) by lia.
  apply u32_id. unfold is_u32, INPUT_BUF in *. lia.
Qed.

Lemma total_length s com line : holds s com line -> u32 (e s - r s) = Z.of_nat (length com) + Z.of_nat (length line).
Proof.
  intros H. rewrite (h_e _ _ _ H), u32_sub. pose proof (h_size _ _ _ H).
  replace (r s + Z.of_nat (length com) + Z.of_nat (length line) - r s) with (Z.of_nat (length com) + Z.of_nat (length line)) by lia.
  apply u32_id. unfold is_u32, INPUT_BUF in *. lia.
Qed.

(** Differences of [u32] values decide the comparisons of the code. *)
Lemma eq_distance a b : is_u32 a -> is_u32 b -> (a =? b) = (u32 (a - b) =? 0).
Proof.
  intros Ha Hb. destruct (a =? b) eqn:E.
  - apply Z.eqb_eq in E. subst. rewrite Z.sub_diag. reflexivity.
  - apply Z.eqb_neq in E. symmetry. apply Z.eqb_neq. unfold is_u32, u32 in *. intros Hm.
    apply Z.mod_divide in Hm as [k Hk]; [|lia]. nia.
Qed.

Lemma edit_empty s com line : holds s com line -> (e s =? w s) = true <-> line = [].
Proof.
  intros H. rewrite eq_distance by (rewrite ?(h_e _ _ _ H), ?(h_w _ _ _ H); apply u32_is_u32).
  rewrite (line_length s com line H), Z.eqb_eq. destruct line; cbn [length]; split; intros; try reflexivity; try lia; discriminate.
Qed.

Lemma read_empty s com line : holds s com line -> (r s =? w s) = true <-> com = [].
Proof.
  intros H. rewrite Z.eqb_sym, eq_distance by (rewrite ?(h_w _ _ _ H); first [apply u32_is_u32|apply H]).
  rewrite (h_w _ _ _ H), u32_sub. pose proof (h_size _ _ _ H).
  replace (r s + Z.of_nat (length com) - r s) with (Z.of_nat (length com)) by lia.
  rewrite u32_id by (unfold is_u32, INPUT_BUF in *; lia). rewrite Z.eqb_eq. destruct com; cbn [length]; split; intros; try reflexivity; try lia; discriminate.
Qed.

(** Two positions less than [INPUT_BUF] apart are different places. *)
Lemma place_inj a i j : 0 <= i < INPUT_BUF -> 0 <= j < INPUT_BUF ->
  Z.to_nat ((a + i) mod INPUT_BUF) = Z.to_nat ((a + j) mod INPUT_BUF) -> i = j.
Proof.
  intros Hi Hj E. pose proof (Z.mod_pos_bound (a + i) INPUT_BUF ltac:(reflexivity)). pose proof (Z.mod_pos_bound (a + j) INPUT_BUF ltac:(reflexivity)).
  apply Z2Nat.inj in E; [|lia..]. assert (Hm : (i - j) mod INPUT_BUF = 0).
  { replace (i - j) with ((a + i) - (a + j)) by lia. rewrite Zminus_mod, E, Z.sub_diag. reflexivity. }
  apply Z.mod_divide in Hm as [k Hk]; [|discriminate]. unfold INPUT_BUF in *. nia.
Qed.

Lemma holds_erase s com line x : holds s com (line ++ [x]) -> holds (erase s) com line.
Proof.
  intros H. pose proof (h_size _ _ _ H) as Hs. rewrite length_app in Hs. cbn [length] in Hs. destruct H as [H1 H2 H3 H4 H5 H6 H7 H8].
  constructor; cbn [erase consputc set_input buf r w e asleep]; try assumption.
  - rewrite H4, u32_sub, length_app. f_equal. cbn [length]. lia.
  - lia.
  - intros k y Hk. apply H6. rewrite app_assoc, lookup_app_l by (apply lookup_lt_Some in Hk; exact Hk). exact Hk.
  - intros Hin. apply H7, elem_of_app. left. exact Hin.
Qed.

Lemma holds_kill line : forall s com, holds s com line ->
  let s' := kill_line (length line) s in holds s' com [] /\ printed s' = printed s ++ replicate (length line) BACKSPACE.
Proof.
  induction line as [|x line IH] using rev_ind; intros s com H.
  - cbn. rewrite app_nil_r. auto.
  - rewrite length_app. cbn [length]. rewrite Nat.add_1_r. cbn [kill_line].
    destruct (e s =? w s) eqn:Ew. { apply (edit_empty _ _ _ H) in Ew. destruct line; discriminate. }
    pose proof (h_size _ _ _ H) as Hs. rewrite length_app in Hs. cbn [length] in Hs.
    assert (Ex : buf s !! Z.to_nat (u32 (e s - 1) mod INPUT_BUF) = Some x).
    { rewrite u32_mod_buf, (h_e _ _ _ H). rewrite <- u32_mod_buf, u32_sub, u32_mod_buf, length_app. cbn [length].
      replace (r s + Z.of_nat (length com) + Z.of_nat (length line + 1) - 1) with (r s + Z.of_nat (length com + length line)) by lia.
      apply (h_bytes _ _ _ H). rewrite app_assoc, lookup_app_r, length_app, Nat.sub_diag by (rewrite length_app; lia). reflexivity. }
    rewrite (list_lookup_total_correct _ _ _ Ex). rewrite (proj2 (Z.eqb_neq x NL)).
    + cbn [orb]. destruct (IH _ _ (holds_erase _ _ _ _ H)) as [H1 H2]. split; [exact H1|]. rewrite H2. cbn.
      rewrite <- app_assoc. reflexivity.
    + intros ->. apply (h_line _ _ _ H), elem_of_app. right. left.
Qed.

(** Storing a character after those of the buffer. *)
Lemma put_bytes s com line c : holds s com line -> Z.of_nat (length com) + Z.of_nat (length line) < INPUT_BUF ->
  forall k x, (com ++ line ++ [c]) !! k = Some x ->
  <[Z.to_nat (e s mod INPUT_BUF) := c]> (buf s) !! Z.to_nat ((r s + Z.of_nat k) mod INPUT_BUF) = Some x.
Proof.
  intros H Hs k x Hk. rewrite (h_e _ _ _ H), u32_mod_buf, <- Z.add_assoc.
  pose proof (lookup_lt_Some _ _ _ Hk) as Hl. rewrite !length_app in Hl. cbn [length] in Hl.
  rewrite app_assoc in Hk. destruct (decide (k = length (com ++ line))) as [->|Hne].
  - rewrite lookup_app_r, Nat.sub_diag in Hk by lia. injection Hk as ->. rewrite length_app, Nat2Z.inj_add.
    apply list_lookup_insert_eq. pose proof (h_buf _ _ _ H). pose proof (Z.mod_pos_bound (r s + (Z.of_nat (length com) + Z.of_nat (length line))) INPUT_BUF ltac:(reflexivity)). lia.
  - rewrite length_app in Hne. rewrite list_lookup_insert_ne.
    + apply (h_bytes _ _ _ H). rewrite lookup_app_l in Hk by (rewrite length_app; lia). exact Hk.
    + intros E. apply place_inj in E; lia.
Qed.

Lemma holds_put s com line c : holds s com line -> c <> NL ->
  Z.of_nat (length com) + Z.of_nat (length line) < INPUT_BUF ->
  holds (set_input (<[Z.to_nat (e s mod INPUT_BUF) := c]> (buf s)) (r s) (w s) (u32 (e s + 1)) s) com (line ++ [c]).
Proof.
  intros H Hc Hs. pose proof (put_bytes s com line c H Hs) as Hb. destruct H as [H1 H2 H3 H4 H5 H6 H7 H8].
  constructor; cbn [set_input buf r w e asleep]; try assumption.
  - rewrite length_insert. exact H1.
  - rewrite H4, u32_add, length_app. f_equal. cbn [length]. lia.
  - rewrite length_app. cbn [length]. lia.
  - intros Hin. apply elem_of_app in Hin as [Hin|Hin]; [auto|]. apply list_elem_of_singleton in Hin. congruence.
Qed.

Lemma wakeupselect_input l s : let s' := wakeupselect l s in
  buf s' = buf s /\ r s' = r s /\ w s' = w s /\ e s' = e s /\ (forall x, x ∈ asleep s' -> x ∈ asleep s).
Proof.
  unfold wakeupselect. revert s. induction (Select.sel l) as [|[p|] ps IH]; intros s; cbn [foldl]; [repeat split; auto| |apply IH].
  destruct (IH (wakeup (SelId p) s)) as (H1 & H2 & H3 & H4 & H5). cbn in *. repeat split; try assumption.
  intros x Hx. apply H5, list_elem_of_filter in Hx. tauto.
Qed.

(** A character that ends the line: everything is committed and the sleeping readers wake up. *)
Lemma holds_commit s com line c : holds s com line -> Z.of_nat (length com) + Z.of_nat (length line) < INPUT_BUF ->
  forall k, let s1 := consputc k (set_input (<[Z.to_nat (e s mod INPUT_BUF) := c]> (buf s)) (r s) (w s) (u32 (e s + 1)) s) in
  holds (wakeupselect (selprocread s1) (wakeup InputR (set_input (buf s1) (r s1) (e s1) (e s1) s1))) (com ++ line ++ [c]) [].
Proof.
  intros H Hs k s1. pose proof (put_bytes s com line c H Hs) as Hb. destruct H as [H1 H2 H3 H4 H5 H6 H7 H8].
  destruct (wakeupselect_input (selprocread s1) (wakeup InputR (set_input (buf s1) (r s1) (e s1) (e s1) s1))) as (E1 & E2 & E3 & E4 & E5).
  cbn [s1 wakeup set_asleep consputc set_input buf r w e asleep] in *.
  assert (He : u32 (e s + 1) = u32 (r s + Z.of_nat (length (com ++ line ++ [c])))).
  { rewrite H4, u32_add, !length_app. f_equal. cbn [length]. lia. }
  constructor; rewrite ?E1, ?E2, ?E3, ?E4; try assumption.
  - rewrite length_insert. exact H1.
  - rewrite Z.add_0_r. exact He.
  - rewrite !length_app. cbn [length]. lia.
  - rewrite app_nil_r. exact Hb.
  - apply not_elem_of_nil.
  - intros p Hp. apply E5, list_elem_of_filter in Hp as [Hp _]. cbn in Hp. congruence.
Qed.

(** ** The discipline *)

(** What a key does to the committed characters and the edited line. *)
Definition type_key (c : Z) (x : list Z * list Z) : list Z * list Z :=
  let '(com, line) := x in
  if c =? CTRL_P then x
  else if c =? CTRL_U then (com, [])
  else if (c =? CTRL_H) || (c =? DEL) then (com, removelast line)
  else if negb (c =? 0) && (Z.of_nat (length com) + Z.of_nat (length line) <? INPUT_BUF) then
    let c := if c =? CR then NL else c in
    let line := line ++ [s8 c] in
    if (c =? NL) || (c =? CTRL_D) || (Z.of_nat (length com) + Z.of_nat (length line) =? INPUT_BUF)
    then (com ++ line, []) else (com, line)
  else x.

(** What a read of [n] more characters takes from the committed characters: up to a newline, which
    it takes too, or up to an end-of-file mark, which it takes only when it has nothing else. *)
Fixpoint take_line (killed : bool) (n : nat) (got com : list Z) : rresult * list Z :=
  match n, com with
  | O, _ => (RDone got, com)
  | S _, [] => (if killed then RKilled else RSleep got, [])
  | S n', c :: com' =>
      if c =? CTRL_D then (RDone got, match got with [] => com' | _ => com end)
      else if c =? NL then (RDone (got ++ [c]), com')
      else take_line killed n' (got ++ [c]) com'
  end.

Inductive op :=
  | Keys (cs : list Z)
  | Read (me : nat) (killed : bool) (n : nat) (got : list Z)
  | Write_ (cs : list Z)
  | Select_ (me : nat)
  | Clear (me : nat).

Definition run_op (o : op) (s : cons) : list rresult * cons :=
  match o with
  | Keys cs => ([], (consoleintr cs s).1)
  | Read me killed n got => let '(x, s) := consoleread me killed n got s in ([x], s)
  | Write_ cs => ([], (consolewrite cs s).1)
  | Select_ me => ([], consoleselect me s)
  | Clear me => ([], consoleclrsel me s)
  end.
Definition spec_op (o : op) (x : list Z * list Z) : list rresult * (list Z * list Z) :=
  match o with
  | Keys cs => ([], foldl (fun x c => type_key c x) x cs)
  | Read _ killed n got => let '(y, com) := take_line killed n got x.1 in ([y], (com, x.2))
  | _ => ([], x)
  end.
Fixpoint run {S : Type} (f : op -> S -> list rresult * S) (os : list op) (s : S) : list rresult * S :=
  match os with
  | [] => ([], s)
  | o :: os => let '(xs, s) := f o s in let '(ys, s) := run f os s in (xs ++ ys, s)
  end.

(** The characters a keyboard or a serial port delivers. *)
Definition typed (o : op) : Prop := match o with Keys cs => Forall (fun c => 0 <= c < 256) cs | _ => True end.

(** The relation does not depend on what is printed, recorded or registered. *)
Lemma holds_same s s' com line : holds s com line ->
  buf s' = buf s -> r s' = r s -> w s' = w s -> e s' = e s -> asleep s' = asleep s -> holds s' com line.
Proof. intros [H1 H2 H3 H4 H5 H6 H7 H8] E1 E2 E3 E4 E5. constructor; rewrite ?E1, ?E2, ?E3, ?E4, ?E5; assumption. Qed.

Lemma s8_NL c : 0 <= c < 256 -> s8 c = NL -> c = NL.
Proof. unfold s8, u8, NL. intros H. rewrite Z.mod_small by lia. destruct (c <? 128) eqn:E; lia. Qed.

Lemma holds_key s com line c : holds s com line -> 0 <= c < 256 ->
  holds (key c s).1 (type_key c (com, line)).1 (type_key c (com, line)).2.
Proof.
  intros H Hc. unfold key, type_key. destruct (c =? CTRL_P); [exact H|]. destruct (c =? CTRL_U).
  { cbn [fst snd]. rewrite (line_length _ _ _ H), Nat2Z.id. apply (holds_kill line s com H). }
  destruct ((c =? CTRL_H) || (c =? DEL)); cbn [fst snd].
  { destruct (e s =? w s) eqn:E; cbn [negb].
    - apply (edit_empty _ _ _ H) in E. subst. exact H.
    - destruct line as [|x line _] using rev_ind; [rewrite (proj2 (edit_empty _ _ _ H) eq_refl) in E; discriminate|].
      rewrite removelast_last. exact (holds_erase _ _ _ _ H). }
  rewrite (total_length _ _ _ H). destruct (negb (c =? 0)); cbn [andb]; [|exact H].
  destruct (Z.ltb_spec (Z.of_nat (length com) + Z.of_nat (length line)) INPUT_BUF) as [Hs|Hs]; [|exact H].
  set (c' := if c =? CR then NL else c). assert (Hc' : 0 <= c' < 256) by (subst c'; unfold NL; destruct (c =? CR); lia). clearbody c'.
  assert (E : (u32 (e s + 1) =? u32 (r s + INPUT_BUF)) = (Z.of_nat (length com) + Z.of_nat (length (line ++ [s8 c'])) =? INPUT_BUF)).
  { rewrite eq_distance, (h_e _ _ _ H), u32_add, length_app by apply u32_is_u32. rewrite <- !Z.add_assoc, distance. cbn [length].
    apply Bool.eq_iff_eq_true. rewrite !Z.eqb_eq. unfold INPUT_BUF, u32 in *. split; intros E; [|apply Z.mod_divide; [lia|]; exists 0; lia].
    destruct (Z.eq_dec (Z.of_nat (length com) + (Z.of_nat (length line) + 1)) 128) as [|N]; [lia|].
    apply Z.mod_divide in E as [j Hj]; [|lia]. nia. }
  cbn [consputc set_input e r]. rewrite E.
  destruct (c' =? NL) eqn:En; [|destruct (c' =? CTRL_D) eqn:Ed; [|destruct (_ =? INPUT_BUF) eqn:Ef]]; cbn [orb fst snd].
  1-3: exact (holds_commit s com line (s8 c') H Hs c').
  apply (holds_same _ _ _ _ (holds_put s com line (s8 c') H ltac:(intros E'; apply s8_NL in E'; [|exact Hc']; apply Z.eqb_neq in En; contradiction) Hs)); reflexivity.
Qed.

Lemma holds_keys cs : forall s com line, holds s com line -> Forall (fun c => 0 <= c < 256) cs ->
  let x := foldl (fun x c => type_key c x) (com, line) cs in holds (consoleintr cs s).1 x.1 x.2.
Proof.
  induction cs as [|c cs IH]; intros s com line H Hcs; [exact H|]. apply Forall_cons in Hcs as [Hc Hcs].
  cbn [foldl consoleintr fst] in *. pose proof (holds_key s com line c H Hc) as Hk.
  destruct (key c s) as [s1 c1], (type_key c (com, line)) as [com1 line1]. cbn [fst snd] in Hk. apply IH; [|exact Hcs].
  apply (holds_same _ _ _ _ Hk); reflexivity.
Qed.

(** The first character of the buffer, and what taking it leaves. *)
Lemma read_first s c com line : holds s (c :: com) line -> buf s !!! Z.to_nat (r s mod INPUT_BUF) = c.
Proof.
  intros H. apply list_lookup_total_correct. rewrite <- (Z.add_0_r (r s)). exact (h_bytes _ _ _ H 0%nat c eq_refl).
Qed.

Lemma holds_take s c com line : holds s (c :: com) line ->
  holds (set_input (buf s) (u32 (r s + 1)) (w s) (e s) s) com line.
Proof.
  intros H. pose proof (h_size _ _ _ H) as Hs. destruct H as [H1 H2 H3 H4 H5 H6 H7 H8]. cbn [length] in *.
  constructor; cbn [set_input buf r w e asleep]; try assumption.
  - apply u32_is_u32.
  - rewrite H3, u32_add. f_equal. lia.
  - rewrite H4, <- (Z.add_assoc (u32 _)), u32_add. f_equal. lia.
  - lia.
  - intros k x Hk. rewrite <- Z.add_mod_idemp_l, u32_mod_buf, Z.add_mod_idemp_l by discriminate.
    replace (r s + 1 + Z.of_nat k) with (r s + Z.of_nat (S k)) by lia. apply H6. exact Hk.
  - intros p Hp. apply H8 in Hp. discriminate.
Qed.

Lemma holds_read me killed n : forall got s com line, holds s com line ->
  (consoleread me killed n got s).1 = (take_line killed n got com).1 /\
  holds (consoleread me killed n got s).2 (take_line killed n got com).2 line.
Proof.
  induction n as [|n IH]; intros got s com line H; [destruct com; split; [reflexivity|exact H|reflexivity|exact H]|].
  cbn [consoleread take_line]. destruct com as [|c com].
  - rewrite (proj2 (read_empty _ _ _ H) eq_refl). destruct killed; [auto|]. split; [reflexivity|].
    destruct H as [H1 H2 H3 H4 H5 H6 H7 H8]. constructor; cbn [snd set_asleep buf r w e asleep]; auto.
  - destruct (r s =? w s) eqn:E; [apply (read_empty _ _ _ H) in E; discriminate|].
    rewrite (read_first _ _ _ _ H). pose proof (holds_take _ _ _ _ H) as Ht.
    destruct (c =? CTRL_D); [|destruct (c =? NL); [auto|apply IH, Ht]].
    destruct got; [auto|]. split; [reflexivity|]. apply (holds_same _ _ _ _ H); try reflexivity. cbn [snd set_input r].
    rewrite u32_sub, Z.add_simpl_r. apply u32_id, H.
Qed.

Lemma holds_write cs : forall s com line, holds s com line -> holds (consolewrite cs s).1 com line.
Proof.
  unfold consolewrite. cbn [fst]. induction cs as [|c cs IH]; intros s com line H; [exact H|]. cbn [foldl]. apply IH.
  apply (holds_same _ _ _ _ H); reflexivity.
Qed.

Lemma holds_op o s com line : holds s com line -> typed o ->
  (run_op o s).1 = (spec_op o (com, line)).1 /\
  holds (run_op o s).2 (spec_op o (com, line)).2.1 (spec_op o (com, line)).2.2.
Proof.
  intros H Ho. destruct o as [cs|me killed n got|cs|me|me]; cbn [run_op spec_op fst snd].
  - split; [reflexivity|]. exact (holds_keys cs s com line H Ho).
  - destruct (holds_read me killed n got s com line H) as [E Hr].
    destruct (consoleread me killed n got s), (take_line killed n got com). cbn [fst snd] in *. subst. auto.
  - split; [reflexivity|]. apply holds_write, H.
  - split; [reflexivity|]. apply (holds_same _ _ _ _ H); reflexivity.
  - split; [reflexivity|]. apply (holds_same _ _ _ _ H); reflexivity.
Qed.

(** The console before any key. *)
Definition boot : cons :=
  Cons (replicate 128 0) 0 0 0 (Select.Selproc (replicate 16 None) (replicate 16 None) 0) [] [] [] 0.

Lemma holds_boot : holds boot [] [].
Proof.
  constructor; try reflexivity; cbn.
  - unfold is_u32. lia.
  - unfold INPUT_BUF. lia.
  - intros k x Hk. discriminate.
  - apply not_elem_of_nil.
Qed.
End ConsoleFacts.

Module ConsoleProps.
Import Console ConsoleFacts.

(** C21: The console implements its line discipline through any sequence of interrupts that bring
    characters, reads, writes and select calls: with the circular buffer and its wrapping indices
    every read returns what the abstract discipline gives, in which [^U] drops the edited line,
    backspace its last character, and a line becomes readable as a whole at a newline, at [^D] or
    when the buffer is full; a read stops after a newline, and at [^D], which it leaves in place when it
    has characters to return; and no process sleeps in [consoleread] while there is something to read. *)
Theorem console_line_discipline os : forall s com line,
  holds s com line -> Forall typed os ->
  (run run_op os s).1 = (run spec_op os (com, line)).1 /\
  holds (run run_op os s).2 (run spec_op os (com, line)).2.1 (run spec_op os (com, line)).2.2.
Proof.
  induction os as [|o os IH]; intros s com line H Hos; [auto|]. apply Forall_cons in Hos as [Ho Hos]. cbn [run].
  destruct (holds_op o s com line H Ho) as [E H1]. destruct (run_op o s) as [xs s1], (spec_op o (com, line)) as [xs' [com1 line1]].
  cbn [fst snd] in *. subst xs'. destruct (IH s1 com1 line1 H1 Hos) as [E2 H2].
  destruct (run run_op os s1), (run spec_op os (com1, line1)). cbn [fst snd] in *. subst. auto.
Qed.

(** A reader sleeps, "ab", backspace, "c", return, then two reads of the line. *)
Lemma console_line_discipline_witness :
  let os := [Read 1 false 5 []; Keys [97; 98; 127; 99; 13]; Read 1 false 1 []; Read 1 false 5 []] in
  holds boot [] [] /\ Forall typed os /\ (run run_op os boot).1 = [RSleep []; RDone [97]; RDone [99; 10]] /\
  asleep (run run_op os boot).2 = [].
Proof.
  intros os. assert (Ht : Forall typed os) by (repeat constructor; lia).
  pose proof (console_line_discipline os boot [] [] holds_boot Ht) as [E _].
  split; [exact holds_boot|]. split; [exact Ht|]. split; [rewrite E; reflexivity|vm_compute; reflexivity].
Defined.
End ConsoleProps.
