(* ===== verification/Kbd.v ===== *)
(** The keyboard (kbd.c, kbd.h): scan codes become characters, and characters go to the console.

    The controller is the bytes it has for the driver, in order: its status says whether there is one,
    and reading the data port takes it. *)

From Stdlib Require Import Ascii String.
From S2P Require Import Prelude Console.

Module Kbd.

Definition NO : Z := 0.
Definition SHIFT : Z := Z.shiftl 1 0.
Definition CTL : Z := Z.shiftl 1 1.
Definition ALT : Z := Z.shiftl 1 2.
Definition CAPSLOCK : Z := Z.shiftl 1 3.
Definition NUMLOCK : Z := Z.shiftl 1 4.
Definition SCROLLLOCK : Z := Z.shiftl 1 5.
Definition E0ESC : Z := Z.shiftl 1 6.
Definition KEY_HOME : Z := 0xE0.
Definition KEY_END : Z := 0xE1.
Definition KEY_UP : Z := 0xE2.
Definition KEY_DN : Z := 0xE3.
Definition KEY_LF : Z := 0xE4.
Definition KEY_RT : Z := 0xE5.
Definition KEY_PGUP : Z := 0xE6.
Definition KEY_PGDN : Z := 0xE7.
Definition KEY_INS : Z := 0xE8.
Definition KEY_DEL : Z := 0xE9.
(** [C(x)], stored in a [uchar] *)
Definition C_ (x : Z) : Z := u8 (x - 64).

(** ** The tables *)

Definition chars (s : string) : list Z := (fun a => Z.of_N (N_of_ascii a)) <$> list_ascii_of_string s.
(** An array of 256 bytes: the first ones in order, others by their index. *)
Definition table (l : list Z) (at_ : list (Z * Z)) (i : Z) : Z :=
  match list_find (fun p => p.1 = i) at_ with
  | Some (_, p) => p.2
  | None => default 0 (l !! Z.to_nat i)
  end.

Definition shiftcode : Z -> Z := table [] [(0x1D, CTL); (0x2A, SHIFT); (0x36, SHIFT); (0x38, ALT); (0x9D, CTL); (0xB8, ALT)].
Definition togglecode : Z -> Z := table [] [(0x3A, CAPSLOCK); (0x45, NUMLOCK); (0x46, SCROLLLOCK)].
Definition keypad (enter div : Z) : list (Z * Z) :=
  [(0x9C, enter); (0xB5, div); (0xC8, KEY_UP); (0xD0, KEY_DN); (0xC9, KEY_PGUP); (0xD1, KEY_PGDN); (0xCB, KEY_LF); (0xCD, KEY_RT); (0x97, KEY_HOME); (0xCF, KEY_END); (0xD2, KEY_INS); (0xD3, KEY_DEL)].
Definition numbers : list Z := replicate 7 NO ++ chars "789-456+1230." ++ replicate 4 NO.
Definition normalmap : Z -> Z :=
  table ([NO; 0x1B] ++ chars "1234567890-=" ++ [8; 9] ++ chars "qwertyuiop[]" ++ [10; NO] ++ chars "as" ++ chars "dfghjkl;'`" ++ [NO] ++ chars "\zxcv" ++
         chars "bnm,./" ++ [NO] ++ chars "*" ++ [NO] ++ chars " " ++ replicate 6 NO ++ numbers) (keypad 10 47).
Definition shiftmap : Z -> Z :=
  table ([NO; 27] ++ chars "!@#$%^&*()_+" ++ [8; 9] ++ chars "QWERTYUIOP{}" ++ [10; NO] ++ chars "AS" ++ chars "DFGHJKL:" ++ [34] ++ chars "~" ++ [NO] ++ chars "|ZXCV" ++
         chars "BNM<>?" ++ [NO] ++ chars "*" ++ [NO] ++ chars " " ++ replicate 6 NO ++ numbers) (keypad 10 47).
Definition ctlmap : Z -> Z :=
  table (replicate 16 NO ++ (C_ <$> chars "QWERTYUIOP") ++ [NO; NO; 13; NO] ++ (C_ <$> chars "AS") ++ (C_ <$> chars "DFGHJKL") ++ [NO; NO; NO; NO] ++ (C_ <$> chars "\ZXCV") ++
         (C_ <$> chars "BNM") ++ [NO; NO; C_ 47; NO; NO]) (keypad 13 (C_ 47)).

(** ** kbdgetc *)

Record kbd := MkKbd { pending : list Z; shift : Z }.

(** [charcode[shift & (CTL | SHIFT)]] *)
Definition charcode (k : Z) : Z -> Z := if k =? 0 then normalmap else if k =? 1 then shiftmap else ctlmap.

Definition kbdgetc (s : kbd) : Z * kbd :=
  match pending s with
  | [] => (-1, s)
  | data :: rest =>
      if data =? 0xE0 then (0, MkKbd rest (Z.lor (shift s) E0ESC))
      else if negb (Z.land data 0x80 =? 0) then
        let data := if negb (Z.land (shift s) E0ESC =? 0) then data else Z.land data 0x7F in
        (0, MkKbd rest (Z.ldiff (shift s) (Z.lor (shiftcode data) E0ESC)))
      else
        let esc := negb (Z.land (shift s) E0ESC =? 0) in
        let data := if esc then Z.lor data 0x80 else data in
        let shift := if esc then Z.ldiff (shift s) E0ESC else shift s in
        let shift := Z.lor shift (shiftcode data) in
        let shift := Z.lxor shift (togglecode data) in
        let c := charcode (Z.land shift (Z.lor CTL SHIFT)) data in
        let c := if negb (Z.land shift CAPSLOCK =? 0) then
                   if (97 <=? c) && (c <=? 122) then c + (65 - 97)
                   else if (65 <=? c) && (c <=? 90) then c + (97 - 65)
                   else c
                 else c in
        (c, MkKbd rest shift)
  end.

(** What [consoleintr] gets from [kbdgetc] until it returns a negative number; every call takes a byte. *)
Fixpoint drain (fuel : nat) (s : kbd) : list Z * kbd :=
  match fuel with
  | O => ([], s)
  | S fuel =>
      let '(c, s) := kbdgetc s in
      if c <? 0 then ([], s) else let '(cs, s) := drain fuel s in (c :: cs, s)
  end.
Definition kbdintr (s : kbd) (con : Console.cons) : kbd * (Console.cons * bool) :=
  let '(cs, s) := drain (S (length (pending s))) s in (s, Console.consoleintr cs con).
End Kbd.

Module KbdFacts.
Import Kbd.

(** ** A keyboard by its keys *)

(** What is held or locked. *)
Record mods := Mods { m_shift : bool; m_ctl : bool; m_alt : bool; m_caps : bool; m_num : bool; m_scroll : bool }.
Definition pack (m : mods) : Z :=
  Z.b2z (m_shift m) + 2 * Z.b2z (m_ctl m) + 4 * Z.b2z (m_alt m) + 8 * Z.b2z (m_caps m) +
  16 * Z.b2z (m_num m) + 32 * Z.b2z (m_scroll m).

(** A key is its code, with [true] for one of the second set, which the controller escapes. *)
Definition keycode : Type := bool * Z.
Inductive event := Press (k : keycode) | Release (k : keycode).
Definition id (k : keycode) : Z := if k.1 then k.2 + 0x80 else k.2.
Definition escape (k : keycode) : list Z := if k.1 then [0xE0] else [].
Definition encode (v : event) : list Z :=
  match v with Press k => escape k ++ [k.2] | Release k => escape k ++ [k.2 + 0x80] end.
(** The release of code [0x60] would be the escape byte. *)
Definition good (v : event) : Prop :=
  match v with Press k => 0 <= k.2 < 0x80 | Release k => 0 <= k.2 < 0x80 /\ k.2 <> 0x60 end.

Definition is_shift (d : Z) : bool := (d =? 0x2A) || (d =? 0x36).
Definition is_ctl (d : Z) : bool := (d =? 0x1D) || (d =? 0x9D).
Definition is_alt (d : Z) : bool := (d =? 0x38) || (d =? 0xB8).
Definition press (d : Z) (m : mods) : mods :=
  Mods (m_shift m || is_shift d) (m_ctl m || is_ctl d) (m_alt m || is_alt d)
    (xorb (m_caps m) (d =? 0x3A)) (xorb (m_num m) (d =? 0x45)) (xorb (m_scroll m) (d =? 0x46)).
Definition release (d : Z) (m : mods) : mods :=
  Mods (m_shift m && negb (is_shift d)) (m_ctl m && negb (is_ctl d)) (m_alt m && negb (is_alt d))
    (m_caps m) (m_num m) (m_scroll m).

Definition swap_case (c : Z) : Z :=
  if (97 <=? c) && (c <=? 122) then c - 32 else if (65 <=? c) && (c <=? 90) then c + 32 else c.
Definition legend (m : mods) (d : Z) : Z :=
  let c := if m_ctl m then ctlmap d else if m_shift m then shiftmap d else normalmap d in
  if m_caps m then swap_case c else c.

(** The locks and held keys after an event, and the character it types, if it is one. *)
Definition react (v : event) (m : mods) : mods * list Z :=
  match v with
  | Press k => let m := press (id k) m in (m, filter (fun c => c <> 0) [legend m (id k)])
  | Release k => (release (id k) m, [])
  end.
Fixpoint reacts (vs : list event) (m : mods) : mods * list Z :=
  match vs with
  | [] => (m, [])
  | v :: vs => let '(m, c) := react v m in let '(m, cs) := reacts vs m in (m, c ++ cs)
  end.

(** ** The tables *)

Lemma table_range l at_ i : Forall (fun c => 0 <= c < 256) l -> Forall (fun p => 0 <= p.2 < 256) at_ ->
  0 <= table l at_ i < 256.
Proof.
  intros Hl Ha. unfold table. destruct (list_find _ at_) as [[j p]|] eqn:E.
  - apply list_find_Some in E as (E & _ & _). exact (proj1 (Forall_lookup _ _) Ha _ _ E).
  - destruct (l !! Z.to_nat i) as [c|] eqn:E'; [exact (proj1 (Forall_lookup _ _) Hl _ _ E')|cbn; lia].
Qed.

Definition byteb (c : Z) : bool := (0 <=? c) && (c <? 256).
Lemma bytes_range l : forallb byteb l = true -> Forall (fun c => 0 <= c < 256) l.
Proof. rewrite forallb_forall, Forall_forall. intros H c Hc. apply list_elem_of_In, H in Hc. unfold byteb in Hc. lia. Qed.
Lemma pairs_range l : forallb (fun p : Z * Z => byteb p.2) l = true -> Forall (fun p => 0 <= p.2 < 256) l.
Proof. rewrite forallb_forall, Forall_forall. intros H c Hc. apply list_elem_of_In, H in Hc. unfold byteb in Hc. lia. Qed.

Lemma charcode_range k d : 0 <= charcode k d < 256.
Proof.
  unfold charcode. destruct (k =? 0); [|destruct (k =? 1)]; apply table_range;
    first [apply bytes_range; vm_compute; reflexivity|apply pairs_range; vm_compute; reflexivity].
Qed.

Lemma shiftcode_mods d : shiftcode d = pack (Mods (is_shift d) (is_ctl d) (is_alt d) false false false).
Proof.
  unfold shiftcode, table, is_shift, is_ctl, is_alt. cbn [list_find fst].
  repeat (case_decide; [subst d; reflexivity|]; cbn [fmap option_fmap option_map prod_map]).
  rewrite !(proj2 (Z.eqb_neq _ _)) by congruence. reflexivity.
Qed.
Lemma togglecode_mods d : togglecode d = pack (Mods false false false (d =? 0x3A) (d =? 0x45) (d =? 0x46)).
Proof.
  unfold togglecode, table. cbn [list_find fst].
  repeat (case_decide; [subst d; reflexivity|]; cbn [fmap option_fmap option_map prod_map]).
  rewrite !(proj2 (Z.eqb_neq _ _)) by congruence. reflexivity.
Qed.

(** ** The bits of [shift] *)

Ltac bits := repeat match goal with b : bool |- _ => destruct b end; reflexivity.

Lemma lor_pack a b c d e f a' b' c' :
  Z.lor (pack (Mods a b c d e f)) (pack (Mods a' b' c' false false false)) = pack (Mods (a || a') (b || b') (c || c') d e f).
Proof. bits. Qed.
Lemma lxor_pack a b c d e f d' e' f' :
  Z.lxor (pack (Mods a b c d e f)) (pack (Mods false false false d' e' f')) = pack (Mods a b c (xorb d d') (xorb e e') (xorb f f')).
Proof. bits. Qed.
(** The escape bit, set or not, is cleared. *)
Lemma ldiff_pack a b c d e f a' b' c' (x : bool) :
  Z.ldiff (pack (Mods a b c d e f) + (if x then E0ESC else 0)) (Z.lor (pack (Mods a' b' c' false false false)) E0ESC) =
  pack (Mods (a && negb a') (b && negb b') (c && negb c') d e f).
Proof. bits. Qed.

Lemma pack_press m d : Z.lxor (Z.lor (pack m) (shiftcode d)) (togglecode d) = pack (press d m).
Proof. rewrite shiftcode_mods, togglecode_mods. destruct m. rewrite lor_pack, lxor_pack. reflexivity. Qed.
Lemma pack_release m d x : Z.ldiff (pack m + (if x : bool then E0ESC else 0)) (Z.lor (shiftcode d) E0ESC) = pack (release d m).
Proof. rewrite shiftcode_mods. destruct m. apply ldiff_pack. Qed.

Lemma pack_escape m : Z.lor (pack m) E0ESC = pack m + E0ESC.
Proof. destruct m. bits. Qed.
Lemma pack_escaped m : Z.land (pack m + E0ESC) E0ESC = E0ESC.
Proof. destruct m. bits. Qed.
Lemma pack_plain m : Z.land (pack m) E0ESC = 0.
Proof. destruct m. bits. Qed.
Lemma pack_unescape m : Z.ldiff (pack m + E0ESC) E0ESC = pack m.
Proof. destruct m. bits. Qed.
Lemma pack_select m : Z.land (pack m) (Z.lor CTL SHIFT) = Z.b2z (m_shift m) + 2 * Z.b2z (m_ctl m).
Proof. destruct m. bits. Qed.
Lemma pack_caps m : negb (Z.land (pack m) CAPSLOCK =? 0) = m_caps m.
Proof. destruct m. bits. Qed.

Lemma land_128 d : 0 <= d < 0x80 -> Z.land d 0x80 = 0.
Proof.
  intros H. change 0x80 with (2 ^ 7). apply Z.bits_inj'. intros n Hn. rewrite Z.land_spec, Z.bits_0, Z.pow2_bits_eqb by lia.
  destruct (Z.eqb_spec 7 n) as [<-|]; [|apply andb_false_r]. rewrite andb_true_r, Z.testbit_false by lia.
  rewrite Z.div_small by (cbn; lia). reflexivity.
Qed.
Lemma lor_128 d : 0 <= d < 0x80 -> Z.lor d 0x80 = d + 0x80.
Proof. intros H. symmetry. apply Z.add_nocarry_lor, land_128, H. Qed.
Lemma land_released d : 0 <= d < 0x80 -> Z.land (d + 0x80) 0x80 = 0x80.
Proof. intros H. rewrite <- lor_128, Z.land_lor_distr_l, land_128 by exact H. reflexivity. Qed.
Lemma land_code d : 0 <= d < 0x80 -> Z.land (d + 0x80) 0x7F = d.
Proof.
  intros H. change 0x7F with (Z.ones 7). rewrite Z.land_ones by lia. change (2 ^ 7) with 0x80.
  rewrite <- (Z.mul_1_l 0x80) at 1. rewrite Z.mod_add by lia. apply Z.mod_small, H.
Qed.

(** ** kbdgetc, byte by byte *)

Lemma getc_escape m rest : kbdgetc (MkKbd (0xE0 :: rest) (pack m)) = (0, MkKbd rest (pack m + E0ESC)).
Proof. cbn [kbdgetc pending shift]. rewrite pack_escape. reflexivity. Qed.

Lemma getc_press m x d rest : 0 <= d < 0x80 ->
  kbdgetc (MkKbd (d :: rest) (pack m + (if x : bool then E0ESC else 0))) =
  (legend (press (id (x, d)) m) (id (x, d)), MkKbd rest (pack (press (id (x, d)) m))).
Proof.
  intros H. unfold kbdgetc. cbn [pending shift]. rewrite (proj2 (Z.eqb_neq d 0xE0)), land_128 by lia. cbn [Z.eqb negb].
  assert (E : (if negb (Z.land (pack m + (if x then E0ESC else 0)) E0ESC =? 0) then Z.lor d 0x80 else d) = id (x, d) /\
              (if negb (Z.land (pack m + (if x then E0ESC else 0)) E0ESC =? 0)
               then Z.ldiff (pack m + (if x then E0ESC else 0)) E0ESC else pack m + (if x then E0ESC else 0)) = pack m).
  { destruct x; rewrite ?Z.add_0_r, ?pack_escaped, ?pack_plain; cbn [Z.eqb negb E0ESC Z.shiftl id fst snd].
    - split; [apply lor_128, H|apply pack_unescape].
    - split; reflexivity. }
  destruct E as [-> ->]. rewrite pack_press. generalize (press (id (x, d)) m). intros m'.
  rewrite pack_select, pack_caps. unfold legend. f_equal. unfold charcode, swap_case. destruct (m_ctl m'), (m_shift m'); reflexivity.
Qed.

Lemma getc_release m x d rest : 0 <= d < 0x80 -> d <> 0x60 ->
  kbdgetc (MkKbd (d + 0x80 :: rest) (pack m + (if x : bool then E0ESC else 0))) =
  (0, MkKbd rest (pack (release (id (x, d)) m))).
Proof.
  intros H N. unfold kbdgetc. cbn [pending shift]. rewrite (proj2 (Z.eqb_neq (d + 0x80) 0xE0)), land_released by lia. cbn [Z.eqb negb].
  rewrite pack_release. destruct x; rewrite ?Z.add_0_r, ?pack_escaped, ?pack_plain; cbn [Z.eqb negb E0ESC Z.shiftl id fst snd];
    rewrite ?land_code by exact H; reflexivity.
Qed.

Lemma swap_case_range c : 0 <= c < 256 -> 0 <= swap_case c < 256.
Proof.
  unfold swap_case. intros H. destruct (Z.leb_spec 97 c), (Z.leb_spec c 122), (Z.leb_spec 65 c), (Z.leb_spec c 90); cbn [andb]; lia.
Qed.
Lemma legend_range m d : 0 <= legend m d < 256.
Proof.
  unfold legend. assert (H : 0 <= (if m_ctl m then ctlmap d else if m_shift m then shiftmap d else normalmap d) < 256).
  { destruct (m_ctl m); [exact (charcode_range 2 d)|]. destruct (m_shift m); [exact (charcode_range 1 d)|exact (charcode_range 0 d)]. }
  destruct (m_caps m); [apply swap_case_range|]; exact H.
Qed.

(** ** drain *)

Lemma drain_step fuel s c s' : kbdgetc s = (c, s') -> 0 <= c ->
  drain (S fuel) s = (c :: (drain fuel s').1, (drain fuel s').2).
Proof. intros E H. cbn [drain]. rewrite E. destruct (Z.ltb_spec c 0); [lia|]. destruct (drain fuel s'). reflexivity. Qed.

(** Characters without the zeros, which the console drops. *)
Notation typed := (filter (fun c : Z => c <> 0)).

Lemma drain_event v m rest fuel : good v -> let l := length (encode v) in
  exists cs, typed cs = (react v m).2 /\ Forall (fun c => 0 <= c < 256) cs /\
    drain (l + fuel) (MkKbd (encode v ++ rest) (pack m)) =
    (cs ++ (drain fuel (MkKbd rest (pack (react v m).1))).1, (drain fuel (MkKbd rest (pack (react v m).1))).2).
Proof.
  intros Hv. destruct v as [[x d]|[x d]]; cbn [good fst snd] in Hv; cbn [encode react fst snd].
  - pose proof (getc_press m x d rest Hv) as E. pose proof (legend_range (press (id (x, d)) m) (id (x, d))) as Hr.
    set (c := legend _ _) in *. destruct x; cbn [escape fst app length Nat.add].
    + exists [0; c]. split; [reflexivity|]. split; [repeat constructor; lia|].
      rewrite (drain_step _ _ _ _ (getc_escape m _)), (drain_step _ _ _ _ E) by lia. reflexivity.
    + exists [c]. split; [reflexivity|]. split; [repeat constructor; lia|].
      rewrite Z.add_0_r in E. rewrite (drain_step _ _ _ _ E) by lia. reflexivity.
  - destruct Hv as [Hd N]. pose proof (getc_release m x d rest Hd N) as E. destruct x; cbn [escape fst app length Nat.add].
    + exists [0; 0]. split; [reflexivity|]. split; [repeat constructor; lia|].
      rewrite (drain_step _ _ _ _ (getc_escape m _)), (drain_step _ _ _ _ E) by lia. reflexivity.
    + exists [0]. split; [reflexivity|]. split; [repeat constructor; lia|].
      rewrite Z.add_0_r in E. rewrite (drain_step _ _ _ _ E) by lia. reflexivity.
Qed.

Lemma drain_events vs : forall m, Forall good vs ->
  exists cs, typed cs = (reacts vs m).2 /\ Forall (fun c => 0 <= c < 256) cs /\
    drain (S (length (vs ≫= encode))) (MkKbd (vs ≫= encode) (pack m)) = (cs, MkKbd [] (pack (reacts vs m).1)).
Proof.
  induction vs as [|v vs IH]; intros m H; [exists []; auto|]. apply Forall_cons in H as [Hv H].
  change ((v :: vs) ≫= encode) with (encode v ++ (vs ≫= encode)).
  destruct (drain_event v m (vs ≫= encode) (S (length (vs ≫= encode))) Hv) as (c & Ec & Hc & E).
  destruct (IH (react v m).1 H) as (cs & Ecs & Hcs & E'). exists (c ++ cs). cbn [reacts].
  rewrite length_app, <- Nat.add_succ_r, E, E'. destruct (react v m) as [m1 c1]. cbn [fst snd] in *.
  destruct (reacts vs m1) as [m2 c2]. cbn [fst snd] in *. rewrite filter_app, Ec, Ecs. split_and!; [reflexivity|by apply Forall_app|reflexivity].
Qed.

Lemma type_zeros cs : forall x, foldl (fun x c => ConsoleFacts.type_key c x) x cs =
  foldl (fun x c => ConsoleFacts.type_key c x) x (typed cs).
Proof.
  induction cs as [|c cs IH]; intros x; [reflexivity|]. cbn [foldl]. destruct (decide (c = 0)) as [->|N].
  - rewrite filter_cons_False by congruence. rewrite <- IH. destruct x. reflexivity.
  - rewrite filter_cons_True by exact N. cbn [foldl]. apply IH.
Qed.
End KbdFacts.

Module KbdProps.
Import Kbd KbdFacts.

(** C22: Keys reach the reader.  For any sequence of presses and releases of keys of both sets, with any
    keys held or locked before, one keyboard interrupt takes every byte of the controller, leaves in [shift]
    the modifiers of a keyboard described key by key with booleans (shift, control and alt while held, the
    locks toggled by a press), and edits the console's line exactly as the characters printed on the
    keys do under those modifiers; a later read returns what the line discipline gives for them. *)
Theorem keyboard_reaches_reader vs m s com line me killed n :
  ConsoleFacts.holds s com line -> Forall good vs ->
  let '(k, (s', _)) := kbdintr (MkKbd (vs ≫= encode) (pack m)) s in
  let x := foldl (fun x c => ConsoleFacts.type_key c x) (com, line) (reacts vs m).2 in
  k = MkKbd [] (pack (reacts vs m).1) /\ ConsoleFacts.holds s' x.1 x.2 /\
  (Console.consoleread me killed n [] s').1 = (ConsoleFacts.take_line killed n [] x.1).1.
Proof.
  intros H Hvs. unfold kbdintr. cbn [pending]. destruct (drain_events vs m Hvs) as (cs & Ec & Hc & E). rewrite E.
  pose proof (ConsoleFacts.holds_keys cs s com line H Hc) as Hk. cbn zeta in Hk. rewrite type_zeros, Ec in Hk.
  destruct (Console.consoleintr cs s) as [s' b]. split_and!; [reflexivity|exact Hk|exact (proj1 (ConsoleFacts.holds_read _ _ _ _ _ _ _ Hk))].
Qed.

(** "Hi" typed with a held shift key, then the keypad's Enter. *)
Lemma keyboard_reaches_reader_witness :
  let vs := [Press (false, 0x2A); Press (false, 0x23); Release (false, 0x23); Release (false, 0x2A);
             Press (false, 0x17); Release (false, 0x17); Press (true, 0x1C); Release (true, 0x1C)] in
  let m := Mods false false false false false false in
  ConsoleFacts.holds ConsoleFacts.boot [] [] /\ Forall good vs /\
  (Console.consoleread 1 false 10 [] (kbdintr (MkKbd (vs ≫= encode) (pack m)) ConsoleFacts.boot).2.1).1 = Console.RDone [72; 105; 10].
Proof.
  intros vs m. assert (G : Forall good vs) by (repeat constructor; cbn; lia).
  split; [exact ConsoleFacts.holds_boot|]. split; [exact G|].
  pose proof (keyboard_reaches_reader vs m ConsoleFacts.boot [] [] 1 false 10 ConsoleFacts.holds_boot G) as H.
  destruct (kbdintr _ _) as [k [s' b]]. destruct H as (_ & _ & H). cbn [fst snd]. rewrite H. vm_compute. reflexivity.
Defined.

(** A letter comes out in upper case exactly when one of shift and caps lock is on, not both. *)
Lemma letter_case m d : m_ctl m = false ->
  In d [0x10;0x11;0x12;0x13;0x14;0x15;0x16;0x17;0x18;0x19;0x1E;0x1F;0x20;0x21;0x22;0x23;0x24;0x25;0x26;0x2C;0x2D;0x2E;0x2F;0x30;0x31;0x32] ->
  legend m d = if xorb (m_shift m) (m_caps m) then normalmap d - 32 else normalmap d.
Proof.
  intros Hc Hd. unfold legend. rewrite Hc. cbn [In] in Hd.
  repeat (destruct Hd as [<-|Hd]; [destruct (m_shift m), (m_caps m); reflexivity|]). contradiction.
Qed.
End KbdProps.

(** ** The serial port (uart.c): its receiver, by the bytes it holds. *)

Module Uart.
Record port := Port { uart : bool; received : list Z }.
Definition uartgetc (s : port) : Z * port :=
  if negb (uart s) then (-1, s)
  else match received s with [] => (-1, s) | c :: l => (c, Port (uart s) l) end.
Fixpoint uart_drain (fuel : nat) (s : port) : list Z * port :=
  match fuel with
  | O => ([], s)
  | S fuel =>
      let '(c, s) := uartgetc s in
      if c <? 0 then ([], s) else let '(cs, s) := uart_drain fuel s in (c :: cs, s)
  end.
Definition uartintr (s : port) (con : Console.cons) : port * (Console.cons * bool) :=
  let '(cs, s) := uart_drain (S (length (received s))) s in (s, Console.consoleintr cs con).

Lemma drain_all l : Forall (fun c => 0 <= c < 256) l -> uart_drain (S (length l)) (Port true l) = (l, Port true []).
Proof.
  induction 1 as [|c l Hc Hl IH]; [reflexivity|]. change (length (c :: l)) with (S (length l)). remember (S (length l)) as n.
  cbn [uart_drain uartgetc uart received negb]. destruct (Z.ltb_spec c 0); [lia|]. rewrite IH. reflexivity.
Qed.

(** One interrupt gives the console every received byte, in order, and none when there is no port. *)
Lemma uart_reaches_console b l s com line : Forall (fun c => 0 <= c < 256) l -> ConsoleFacts.holds s com line ->
  let x := foldl (fun x c => ConsoleFacts.type_key c x) (com, line) (if b : bool then l else []) in
  let '(p, (s', _)) := uartintr (Port b l) s in
  received p = (if b then [] else l) /\ ConsoleFacts.holds s' x.1 x.2.
Proof.
  intros Hl H. unfold uartintr. cbn [received]. destruct b; [|exact (conj eq_refl H)]. rewrite drain_all by exact Hl.
  pose proof (ConsoleFacts.holds_keys l s com line H Hl) as Hk. destruct (Console.consoleintr l s). exact (conj eq_refl Hk).
Qed.
End Uart.
