(* ===== verification/Mp.v ===== *)
(** The multiprocessor tables (mp.c, mp.h): the search for the floating pointer structure, the checks
    of the configuration table and the walk over its entries.

    Physical memory is a function from addresses to bytes, and [P2V] the identity: the
    tables are taken to lie where the kernel maps them, so no pointer wraps.  Structures are read by the
    offsets of their fields. *)

From S2P Require Import Prelude.

Module Mp.

Definition NCPU : Z := 8.
Definition MPPROC : Z := 0x00.
Definition MPBUS : Z := 0x01.
Definition MPIOAPIC : Z := 0x02.
Definition MPIOINTR : Z := 0x03.
Definition MPLINTR : Z := 0x04.

(** [sizeof] of the structures *)
Definition mp_size : Z := 16.
Definition mpconf_size : Z := 44.
Definition mpproc_size : Z := 20.
Definition mpioapic_size : Z := 8.

Section Search.
Context (mem : Z -> Z).

Definition ushort_at (a : Z) : Z := mem a + 256 * mem (a + 1).
Definition uint_at (a : Z) : Z := mem a + 256 * mem (a + 1) + 65536 * mem (a + 2) + 16777216 * mem (a + 3).
Definition bytes_at (a : Z) (n : nat) : list Z := (fun i => mem (a + Z.of_nat i)) <$> seq 0 n.

Definition sum (addr : Z) (len : nat) : Z := u8 (foldl Z.add 0 (bytes_at addr len)).
(** [memcmp(p, s, 4) == 0] *)
Definition signed (p : Z) (s : list Z) : bool := bool_decide (bytes_at p 4 = s).
Definition MP_ : list Z := [95; 77; 80; 95].
Definition PCMP : list Z := [80; 67; 77; 80].

Definition is_mp (p : Z) : bool := signed p MP_ && (sum p (Z.to_nat mp_size) =? 0).
(** [n] more structures from [p] *)
Fixpoint mpsearch_loop (n : nat) (p : Z) : option Z :=
  match n with
  | O => None
  | S n => if is_mp p then Some p else mpsearch_loop n (p + mp_size)
  end.
Definition mpsearch1 (a len : Z) : option Z := mpsearch_loop (Z.to_nat ((len + mp_size - 1) / mp_size)) a.

Definition bda : Z := 0x400.
Definition mpsearch : option Z :=
  let p := Z.shiftl (Z.lor (Z.shiftl (mem (bda + 0x0F)) 8) (mem (bda + 0x0E))) 4 in
  match (if negb (p =? 0) then mpsearch1 p 1024
         else mpsearch1 (u32 (Z.lor (Z.shiftl (mem (bda + 0x14)) 8) (mem (bda + 0x13)) * 1024 - 1024)) 1024) with
  | Some mp => Some mp
  | None => mpsearch1 0xF0000 0x10000
  end.

(** The configuration table and the floating pointer structure. *)
Definition mpconfig : option (Z * Z) :=
  match mpsearch with
  | None => None
  | Some mp =>
      let conf := uint_at (mp + 4) in
      if conf =? 0 then None
      else if negb (signed conf PCMP) then None
      else if negb (mem (conf + 6) =? 1) && negb (mem (conf + 6) =? 4) then None
      else if negb (sum conf (Z.to_nat (ushort_at (conf + 4))) =? 0) then None
      else Some (conf, mp)
  end.

(** ** mpinit *)

(** [cpus[i].apicid] of the first [ncpu] entries, [ismp], [lapic], [ioapicid]; the outputs to the IMCR. *)
Record found := Found { apicids : list Z; ismp : bool; lapic : Z; ioapicid : Z }.
Definition ncpu (f : found) : Z := Z.of_nat (length (apicids f)).

(** The loop from [p] to [e]; [None] when it is still running after [fuel] turns.  The [break] of an
    unknown type leaves the [switch] with [p] where it was. *)
Fixpoint mpinit_loop (fuel : nat) (p e : Z) (f : found) : option found :=
  if e <=? p then Some f
  else match fuel with
  | O => None
  | S fuel =>
      let t := mem p in
      if t =? MPPROC then
        mpinit_loop fuel (p + mpproc_size) e
          (if ncpu f <? NCPU then Found (apicids f ++ [mem (p + 1)]) (ismp f) (lapic f) (ioapicid f) else f)
      else if t =? MPIOAPIC then
        mpinit_loop fuel (p + mpioapic_size) e (Found (apicids f) (ismp f) (lapic f) (mem (p + 1)))
      else if (t =? MPBUS) || (t =? MPIOINTR) || (t =? MPLINTR) then mpinit_loop fuel (p + 8) e f
      else mpinit_loop fuel p e (Found (apicids f) false (lapic f) (ioapicid f))
  end.

(** What [mpinit] leaves, from [f], and whether it masks the external interrupts at the IMCR.  In the fall
    back [cpus[0]] keeps what it has and [ncpu] is 1. *)
Definition mpinit (fuel : nat) (f : found) : option (found * bool) :=
  match mpconfig with
  | None => Some (f, false)
  | Some (conf, mp) =>
      match mpinit_loop fuel (conf + mpconf_size) (conf + ushort_at (conf + 4))
              (Found (apicids f) true (uint_at (conf + 36)) (ioapicid f)) with
      | None => None
      | Some f =>
          if negb (ismp f) then Some (Found [default 0 (head (apicids f))] false 0 0, false)
          else Some (f, negb (mem (mp + 12) =? 0))
      end
  end.
End Search.
End Mp.

Module MpFacts.
Import Mp.

(** ** Entries *)

Inductive entry :=
  | Processor (apicid : Z) (rest : list Z)
  | Ioapic (apicno : Z) (rest : list Z)
  | Other (type : Z) (rest : list Z).
Definition encode (x : entry) : list Z :=
  match x with Processor i l => MPPROC :: i :: l | Ioapic i l => MPIOAPIC :: i :: l | Other t l => t :: l end.
Definition proper (x : entry) : Prop :=
  match x with
  | Processor _ l => length l = 18%nat
  | Ioapic _ l => length l = 6%nat
  | Other t l => (t = MPBUS \/ t = MPIOINTR \/ t = MPLINTR) /\ length l = 7%nat
  end.
Definition processors (es : list entry) : list Z := es ≫= (fun x => match x with Processor i _ => [i] | _ => [] end).
Definition last_ioapic (i : Z) (es : list entry) : Z :=
  foldl (fun i x => match x with Ioapic j _ => j | _ => i end) i es.

(** Memory has the bytes [l] from [a] on. *)
Definition has (mem : Z -> Z) (a : Z) (l : list Z) : Prop := bytes_at mem a (length l) = l.

Lemma has_cons mem a x l : has mem a (x :: l) <-> mem a = x /\ has mem (a + 1) l.
Proof.
  unfold has, bytes_at. cbn [length seq fmap list_fmap]. rewrite Z.add_0_r, <- fmap_S_seq, <- list_fmap_compose.
  assert (E : (fun i => mem (a + Z.of_nat i)) ∘ S <$> seq 0 (length l) = (fun i => mem (a + 1 + Z.of_nat i)) <$> seq 0 (length l)).
  { apply list_fmap_ext. intros _ i _. unfold compose. f_equal. lia. }
  rewrite E. split; [intros [= -> ->]; auto|intros [-> ->]; reflexivity].
Qed.
Lemma has_app mem l l' : forall a, has mem a (l ++ l') <-> has mem a l /\ has mem (a + Z.of_nat (length l)) l'.
Proof.
  induction l as [|x l IH]; intros a; cbn [app length]; [rewrite Z.add_0_r; unfold has at 2; cbn; tauto|].
  rewrite !has_cons, IH, Nat2Z.inj_succ. replace (a + 1 + Z.of_nat (length l)) with (a + Z.succ (Z.of_nat (length l))) by lia. tauto.
Qed.

(** What an entry changes. *)
Definition enter (x : entry) (f : found) : found :=
  match x with
  | Processor i _ => if ncpu f <? NCPU then Found (apicids f ++ [i]) (ismp f) (lapic f) (ioapicid f) else f
  | Ioapic i _ => Found (apicids f) (ismp f) (lapic f) i
  | Other _ _ => f
  end.

Lemma loop_entry mem x p e f fuel : proper x -> has mem p (encode x) -> p < e ->
  mpinit_loop mem (S fuel) p e f = mpinit_loop mem fuel (p + Z.of_nat (length (encode x))) e (enter x f).
Proof.
  intros Hx H Hp. cbn [mpinit_loop]. rewrite (proj2 (Z.leb_gt e p)) by lia.
  destruct x as [i l|i l|t l]; cbn [encode proper length] in *.
  - rewrite !has_cons in H. destruct H as (-> & Hi & _). rewrite Hi, Hx. reflexivity.
  - rewrite !has_cons in H. destruct H as (-> & Hi & _). rewrite Hi, Hx. reflexivity.
  - rewrite has_cons in H. destruct H as [-> _]. destruct Hx as [[->|[->| ->]] ->]; reflexivity.
Qed.

Lemma encode_nonempty x : 0 < Z.of_nat (length (encode x)).
Proof. destruct x; cbn; lia. Qed.

Lemma loop_entries mem es : forall p e f fuel, Forall proper es -> has mem p (es ≫= encode) ->
  p + Z.of_nat (length (es ≫= encode)) <= e ->
  mpinit_loop mem (length es + fuel) p e f =
  mpinit_loop mem fuel (p + Z.of_nat (length (es ≫= encode))) e (foldl (fun f x => enter x f) f es).
Proof.
  induction es as [|x es IH]; intros p e f fuel Hes H He; [cbn [mbind list_bind length Nat.add foldl]; rewrite Z.add_0_r; reflexivity|].
  change ((x :: es) ≫= encode) with (encode x ++ (es ≫= encode)) in *. apply Forall_cons in Hes as [Hx Hes].
  rewrite has_app in H. destruct H as [H1 H2]. rewrite length_app, Nat2Z.inj_add in *. pose proof (encode_nonempty x).
  cbn [length Nat.add foldl]. rewrite (loop_entry mem x) by (assumption || lia). rewrite IH by (assumption || lia). f_equal. lia.
Qed.

(** The entries together. *)
Lemma enter_all es : forall f, ncpu f <= NCPU ->
  foldl (fun f x => enter x f) f es =
  Found (take (Z.to_nat NCPU) (apicids f ++ processors es)) (ismp f) (lapic f) (last_ioapic (ioapicid f) es).
Proof.
  unfold ncpu, NCPU. induction es as [|x es IH]; intros f Hf.
  - cbn [foldl processors mbind list_bind]. rewrite app_nil_r, take_ge by lia. destruct f. reflexivity.
  - change (processors (x :: es)) with ((match x with Processor i _ => [i] | _ => [] end) ++ processors es).
    cbn [foldl last_ioapic]. destruct x as [i l|i l|t l]; cbn [enter app].
    + unfold ncpu, NCPU. destruct (Z.ltb_spec (Z.of_nat (length (apicids f))) 8).
      * rewrite IH by (cbn [apicids]; rewrite length_app; cbn [length]; lia). cbn [apicids ismp lapic ioapicid]. rewrite <- app_assoc. reflexivity.
      * rewrite IH by lia. assert (E : Z.to_nat 8 = length (apicids f)) by lia. rewrite E, !take_app_length. reflexivity.
    + rewrite IH by exact Hf. reflexivity.
    + rewrite IH by exact Hf. reflexivity.
Qed.

(** An unknown type: the loop stays where it is. *)
Lemma loop_stuck mem p e : p < e -> 4 < mem p -> forall fuel f, mpinit_loop mem fuel p e f = None.
Proof.
  intros He Hm. induction fuel as [|fuel IH]; intros f; cbn [mpinit_loop]; rewrite (proj2 (Z.leb_gt e p)) by lia; [reflexivity|].
  unfold MPPROC, MPIOAPIC, MPBUS, MPIOINTR, MPLINTR. rewrite !(proj2 (Z.eqb_neq _ _)) by lia. apply IH.
Qed.
(** Less fuel does not help. *)
Lemma loop_mono mem fuel : forall k p e f, mpinit_loop mem (fuel + k) p e f = None -> mpinit_loop mem fuel p e f = None.
Proof.
  induction fuel as [|fuel IH]; intros k p e f; cbn [Nat.add mpinit_loop].
  - destruct (e <=? p) eqn:E; [|reflexivity]. destruct k; cbn [mpinit_loop]; rewrite E; discriminate.
  - destruct (e <=? p); [discriminate|]. destruct (_ =? MPPROC); [apply IH|]. destruct (_ =? MPIOAPIC); [apply IH|].
    destruct (_ || _); apply IH.
Qed.

(** ** The search *)

Lemma search_first mem n : forall a p, mpsearch_loop mem n a = Some p <->
  exists i, (i < n)%nat /\ p = a + mp_size * Z.of_nat i /\ is_mp mem p = true /\
    forall j, (j < i)%nat -> is_mp mem (a + mp_size * Z.of_nat j) = false.
Proof.
  induction n as [|n IH]; intros a p; cbn [mpsearch_loop]; [split; [discriminate|intros (i & Hi & _); lia]|].
  destruct (is_mp mem a) eqn:E.
  - split.
    + intros [= <-]. exists 0%nat. split_and!; [lia|lia|exact E|lia].
    + intros ([|i] & _ & -> & Hp & Hj); [f_equal; lia|]. specialize (Hj 0%nat ltac:(lia)).
      replace (a + mp_size * Z.of_nat 0) with a in Hj by lia. congruence.
  - rewrite IH. split; intros (i & Hi & -> & Hp & Hj).
    + exists (S i). split_and!; [lia|lia|exact Hp|]. intros [|j] Hjj.
      * replace (a + mp_size * Z.of_nat 0) with a by lia. exact E.
      * replace (a + mp_size * Z.of_nat (S j)) with (a + mp_size + mp_size * Z.of_nat j) by lia. apply Hj. lia.
    + destruct i as [|i]; [replace (a + mp_size * Z.of_nat 0) with a in Hp by lia; congruence|]. exists i.
      split_and!; [lia|lia|exact Hp|]. intros j Hjj. specialize (Hj (S j) ltac:(lia)).
      replace (a + mp_size + mp_size * Z.of_nat j) with (a + mp_size * Z.of_nat (S j)) by lia. exact Hj.
Qed.

(** A floating pointer structure at 16, its table at 64 with the bytes [l] after the header. *)
Definition sample (check : Z) (l : list Z) (a : Z) : Z :=
  if a =? 0x40E then 1
  else default 0 ((replicate 16 0 ++ MP_ ++ [64; 0; 0; 0; 1; 4; 96] ++ replicate 37 0 ++
    PCMP ++ [44 + Z.of_nat (length l); 0; 4; check] ++ replicate 28 0 ++ [0; 0; 224; 254] ++ replicate 4 0 ++ l) !! Z.to_nat a).
End MpFacts.

Module MpProps.
Import Mp MpFacts.

(** [mpinit] enumerates the processors.  When the search and the checks accept a table that holds well
    formed entries, the loop ends after one turn for each: the CPUs found are the identifiers of the processor
    entries in order, after those known before and up to [NCPU]; the I/O APIC is that of the last such entry;
    [lapic] is the address in the header; and the interrupts are masked exactly when the pointer structure says so. *)
Theorem mpinit_enumerates mem conf mp es f fuel :
  mpconfig mem = Some (conf, mp) -> Forall proper es -> has mem (conf + mpconf_size) (es ≫= encode) ->
  ushort_at mem (conf + 4) = mpconf_size + Z.of_nat (length (es ≫= encode)) -> ncpu f <= NCPU -> (length es <= fuel)%nat ->
  mpinit mem fuel f =
  Some (Found (take (Z.to_nat NCPU) (apicids f ++ processors es)) true (uint_at mem (conf + 36)) (last_ioapic (ioapicid f) es),
        negb (mem (mp + 12) =? 0)).
Proof.
  intros Hc Hes H Hl Hf Hn. unfold mpinit. rewrite Hc, Hl. replace fuel with (length es + (fuel - length es))%nat by lia.
  rewrite loop_entries by (assumption || lia). rewrite enter_all by exact Hf. cbn [apicids ismp lapic ioapicid].
  destruct (fuel - length es)%nat; cbn [mpinit_loop]; rewrite (proj2 (Z.leb_le _ _)) by lia; reflexivity.
Qed.

Lemma mpinit_enumerates_witness :
  let es := [Processor 3 (replicate 18 0); Other MPBUS (replicate 7 0); Ioapic 9 (replicate 6 0)] in
  let mem := sample 143 (es ≫= encode) in
  mpconfig mem = Some (64, 16) /\ mpinit mem 3 (Found [] false 0 0) = Some (Found [3] true 0xFEE00000 9, false).
Proof.
  intros es mem. assert (E : mpconfig mem = Some (64, 16)) by (vm_compute; reflexivity). split; [exact E|].
  rewrite (mpinit_enumerates mem 64 16 es (Found [] false 0 0) 3 E); [vm_compute; reflexivity| |vm_compute; reflexivity..| |].
  - repeat constructor. 
  - unfold ncpu, NCPU. cbn. lia.
  - cbn. lia.
Defined.

(** C40: [mpinit] hangs on an entry it does not know.  When an accepted table has, after well formed entries, one
    whose type is above [MPLINTR], the loop never ends, whatever number of turns it is given: the [break] leaves only
    the [switch], so [p] stays at that entry, and the fall back to one processor is not reached. *)
Theorem mpinit_hangs mem conf mp es f :
  mpconfig mem = Some (conf, mp) -> Forall proper es -> has mem (conf + mpconf_size) (es ≫= encode) ->
  let p := conf + mpconf_size + Z.of_nat (length (es ≫= encode)) in
  p < conf + ushort_at mem (conf + 4) -> MPLINTR < mem p ->
  forall fuel, mpinit mem fuel f = None.
Proof.
  intros Hc Hes H p Hp Ht fuel. unfold mpinit. rewrite Hc.
  rewrite (loop_mono mem fuel (length es)); [reflexivity|]. rewrite Nat.add_comm, loop_entries by (assumption || subst p; lia).
  apply loop_stuck; assumption.
Qed.

Lemma mpinit_hangs_witness :
  let es := [Processor 3 (replicate 18 0)] in
  let mem := sample 39 ((es ≫= encode) ++ [128; 0; 0; 0]) in
  mpconfig mem = Some (64, 16) /\ forall fuel, mpinit mem fuel (Found [] false 0 0) = None.
Proof.
  intros es mem. assert (E : mpconfig mem = Some (64, 16)) by (vm_compute; reflexivity). split; [exact E|].
  apply (mpinit_hangs mem 64 16 es (Found [] false 0 0) E); [repeat constructor|vm_compute; reflexivity..].
Defined.
End MpProps.
