(* ===== verification/Trap.v ===== *)
(** Traps (trap.c) and the clock calls of sysproc.c.

    [trap] runs over a state of which it owns the clock and the two pool counters; the handlers of the devices,
    of system calls and of the process table, which other files model, are the operations of a typeclass.  A stretch
    under [tickslock] is atomic.  [exit] does not come back, which the result of [trap] records, and neither does the
    system call of that name.  Any handler may also stop the kernel, by a panic for instance. *)

From S2P Require Import Prelude Kernel.

Module Trap.

Definition T_SYSCALL : Z := 64.
Definition T_IRQ0 : Z := 32.
Definition IRQ_TIMER : Z := 0.
Definition IRQ_KBD : Z := 1.
Definition IRQ_COM1 : Z := 4.
Definition IRQ_IDE : Z := 14.
Definition IRQ_SPURIOUS : Z := 31.
Definition DPL_USER : Z := 3.
Definition KEYBOARD_TIMING : Z := 1.
Definition INTERRUPT_TIMING : Z := 2.

Record trapframe := TF { trapno : Z; cs : Z; eip : Z; err : Z }.
(** What [trap] reads of the current process. *)
Record current := Current { killed : bool; running : bool }.

Record clock {E : Type} := Clock { ticks : Z; keyboard_timing_pool : Z; interrupt_timing_pool : Z; env : E }.
Arguments clock : clear implicits.
Arguments Clock {E}.

Inductive outcome := Returned | Gone.

Class Handlers (E : Type) := {
  cpunum : E -> Z;
  proc : E -> option current;
  addRandomEvent : Z -> Z -> Z -> K E unit;     (** source, pool, and the word recorded *)
  wakeup_ticks : K E unit;
  lapiceoi : K E unit;
  ideintr : K E unit;
  kbdintr : K E unit;
  uartintr : K E unit;
  cprintf_trap : trapframe -> K E unit;         (** the messages of [trap] *)
  set_killed : K E unit;                        (** [proc->killed = 1] *)
  exit : K E unit;
  syscall : trapframe -> K (clock E) outcome;   (** [proc->tf = tf; syscall()] *)
  yield : K (clock E) unit;
}.

Section model.
Context {E : Type} `{Handlers E}.

Definition on_env {A} (m : K E A) : K (clock E) A := fun s =>
  match m (env s) with
  | Ok (a, v) => Ok (a, Clock (ticks s) (keyboard_timing_pool s) (interrupt_timing_pool s) v)
  | Panic msg => Panic msg
  | Fault why => Fault why
  | Spin => Spin
  end.
Definition proc_of (s : clock E) : option current := proc (env s).
Definition is_killed (s : clock E) : bool := match proc_of s with Some p => killed p | None => false end.
Definition is_running (s : clock E) : bool := match proc_of s with Some p => running p | None => false end.
Definition from_user (tf : trapframe) : bool := Z.land (cs tf) 3 =? DPL_USER.

(** The event of every trap, and that of the serial port. *)
Definition interrupt_event : K (clock E) unit :=
  s ← get;
  on_env (addRandomEvent INTERRUPT_TIMING (interrupt_timing_pool s mod Kernel.MAX_POOLS) (ticks s)) ;;
  modify (fun s => Clock (ticks s) (keyboard_timing_pool s) (u32 (interrupt_timing_pool s + 1)) (env s)).
Definition keyboard_event : K (clock E) unit :=
  s ← get;
  on_env (addRandomEvent KEYBOARD_TIMING (keyboard_timing_pool s mod Kernel.MAX_POOLS) (ticks s)) ;;
  modify (fun s => Clock (ticks s) (u32 (keyboard_timing_pool s + 1)) (interrupt_timing_pool s) (env s)).

Definition tick : K (clock E) unit :=
  modify (fun s => Clock (u32 (ticks s + 1)) (keyboard_timing_pool s) (interrupt_timing_pool s) (env s)) ;;
  on_env wakeup_ticks.

(** The [switch] *)
Definition dispatch (tf : trapframe) : K (clock E) unit :=
  s ← get;
  if trapno tf =? T_IRQ0 + IRQ_TIMER then
    (if cpunum (env s) =? 0 then tick else skip) ;; on_env lapiceoi
  else if trapno tf =? T_IRQ0 + IRQ_IDE then on_env ideintr ;; on_env lapiceoi
  else if trapno tf =? T_IRQ0 + IRQ_IDE + 1 then skip
  else if trapno tf =? T_IRQ0 + IRQ_KBD then on_env kbdintr ;; on_env lapiceoi
  else if trapno tf =? T_IRQ0 + IRQ_COM1 then keyboard_event ;; on_env uartintr ;; on_env lapiceoi
  else if (trapno tf =? T_IRQ0 + 7) || (trapno tf =? T_IRQ0 + IRQ_SPURIOUS) then
    on_env (cprintf_trap tf) ;; on_env lapiceoi
  else if bool_decide (proc_of s = None) || (Z.land (cs tf) 3 =? 0) then
    on_env (cprintf_trap tf) ;; panic "trap"
  else on_env (cprintf_trap tf) ;; on_env set_killed.

(** [if (c) exit(); k] *)
Definition exit_if (c : clock E -> bool) (k : K (clock E) outcome) : K (clock E) outcome :=
  s ← get; if c s then on_env exit ;; mret Gone else k.

(** [if (proc->killed) exit(); k], which reads through [proc] *)
Definition exit_if_killed (k : K (clock E) outcome) : K (clock E) outcome :=
  s ← get; p ← lift_opt "proc is null" (proc_of s); if killed p then on_env exit ;; mret Gone else k.

Definition trap (tf : trapframe) : K (clock E) outcome :=
  interrupt_event ;;
  if trapno tf =? T_SYSCALL then
    exit_if_killed
      (o ← syscall tf;
       match o with
       | Returned => exit_if_killed (mret Returned)
       | Gone => mret Gone
       end)
  else
    dispatch tf ;;
    exit_if (fun s => is_killed s && from_user tf)
      (s ← get;
       (if is_running s && (trapno tf =? T_IRQ0 + IRQ_TIMER) then yield else skip) ;;
       exit_if (fun s => is_killed s && from_user tf) (mret Returned)).
End model.

(** ** sys_sleep and sys_uptime *)

Definition sys_uptime {E} (s : clock E) : Z := s32 (ticks s).

(** The condition of the loop of [sys_sleep], where [n] is converted to [uint]. *)
Definition waits (now ticks0 n : Z) : bool := u32 (now - ticks0) <? u32 n.

Inductive slept := Slept (ticks : nat) | Killed (ticks : nat) | Asleep.
(** A process in the loop, woken at every tick: [i] ticks have passed since [ticks0], [k] more are looked at; [dead i] is
    whether it is killed by then. *)
Fixpoint sys_sleep (k i : nat) (ticks0 n : Z) (dead : nat -> bool) : slept :=
  if waits (u32 (ticks0 + Z.of_nat i)) ticks0 n then
    if dead i then Killed i
    else match k with O => Asleep | S k => sys_sleep k (S i) ticks0 n dead end
  else Slept i.
End Trap.

Module TrapFacts.
Import Trap.

(** What [trap] relies on, of the handlers that return: those before the test of a process keep it, the
    mark of [set_killed] is seen, and a system call returns to a process.  The handlers of devices, [syscall] and
    [yield] may kill the process. *)
Class HandlerLaws (E : Type) `{Handlers E} := {
  event_keeps a b c v v' : addRandomEvent a b c v = Ok (tt, v') -> proc v' = proc v;
  message_keeps tf v v' : cprintf_trap tf v = Ok (tt, v') -> proc v' = proc v;
  mark_seen v p v' : proc v = Some p -> set_killed v = Ok (tt, v') -> proc v' = Some (Current true (running p));
  syscall_process tf s s' : is_Some (proc (env s)) -> syscall tf s = Ok (Returned, s') -> is_Some (proc (env s'));
}.

(** The calls [trap] makes, and how one of them can stop. *)
Inductive calls {E : Type} `{Handlers E} : K E unit -> Prop :=
  | calls_event a b c : calls (addRandomEvent a b c)
  | calls_wakeup : calls wakeup_ticks
  | calls_eoi : calls lapiceoi
  | calls_ide : calls ideintr
  | calls_kbd : calls kbdintr
  | calls_uart : calls uartintr
  | calls_message tf : calls (cprintf_trap tf)
  | calls_mark : calls set_killed
  | calls_exit : calls exit.
Definition handler_stops (E : Type) `{Handlers E} (w : stop) : Prop :=
  (exists m v, calls m /\ stop_of (m v) = Some w) \/ (exists tf s, stop_of (syscall tf s) = Some w) \/ exists s, stop_of (yield s) = Some w.

(** The traps [dispatch] has a case for. *)
Definition expected (n : Z) : bool :=
  bool_decide (n ∈ [T_SYSCALL; T_IRQ0 + IRQ_TIMER; T_IRQ0 + IRQ_IDE; T_IRQ0 + IRQ_IDE + 1; T_IRQ0 + IRQ_KBD;
                    T_IRQ0 + IRQ_COM1; T_IRQ0 + 7; T_IRQ0 + IRQ_SPURIOUS]).

Section facts.
Context {E : Type} `{Handlers E} {laws : HandlerLaws E}.
Implicit Types (s : clock E) (v : E).

#[local] Abbreviation wp := (Stops.wp (handler_stops E)).
Import Stops (wp_bind, wp_ret, wp_get, wp_modify, wp_skip, wp_mono, wp_lift_opt, wp_part).

Lemma wp_env (m : K E unit) (Q : unit -> clock E -> Prop) s : calls m ->
  (forall v', m (env s) = Ok (tt, v') -> Q tt (Clock (ticks s) (keyboard_timing_pool s) (interrupt_timing_pool s) v')) -> wp (on_env m) Q s.
Proof.
  intros Hm HQ. apply wp_part; unfold on_env.
  - intros [] s'. destruct (m (env s)) as [[[] v]|?|?|]; try discriminate. intros [= <-]. auto.
  - intros w Hw. left. exists m, (env s). split; [exact Hm|]. destruct (m (env s)) as [[[] v]|?|?|]; exact Hw.
Qed.

Lemma wp_interrupt_event (Q : unit -> clock E -> Prop) s :
  (forall s', proc_of s' = proc_of s -> Q tt s') -> wp interrupt_event Q s.
Proof.
  intros HQ. apply wp_bind, wp_get, wp_bind, wp_env; [constructor|].
  intros v' Hv. apply wp_modify, HQ. exact (event_keeps _ _ _ _ _ Hv).
Qed.

Lemma wp_exit_if c k (Q : outcome -> clock E -> Prop) s :
  (c s = true -> forall s', Q Gone s') -> (c s = false -> wp k Q s) -> wp (exit_if c k) Q s.
Proof.
  intros H1 H2. apply wp_bind, wp_get. destruct (c s); [|apply H2; reflexivity].
  apply wp_bind, wp_env; [constructor|]. intros v' _. apply wp_ret, H1. reflexivity.
Qed.
Lemma wp_exit_if_killed k (Q : outcome -> clock E -> Prop) s : is_Some (proc_of s) ->
  (forall s', Q Gone s') -> (is_killed s = false -> wp k Q s) -> wp (exit_if_killed k) Q s.
Proof.
  intros [p Hp] H1 H2. unfold is_killed in H2. rewrite Hp in H2. apply wp_bind, wp_get, wp_bind.
  apply (wp_lift_opt _ _ p); [exact Hp|]. destruct (killed p); [|apply H2; reflexivity].
  apply wp_bind, wp_env; [constructor|]. intros v' _. apply wp_ret, H1.
Qed.

Lemma expected_cases n : expected n = false ->
  n <> T_IRQ0 + IRQ_TIMER /\ n <> T_IRQ0 + IRQ_IDE /\ n <> T_IRQ0 + IRQ_IDE + 1 /\ n <> T_IRQ0 + IRQ_KBD /\
  n <> T_IRQ0 + IRQ_COM1 /\ n <> T_IRQ0 + 7 /\ n <> T_IRQ0 + IRQ_SPURIOUS /\ n <> T_SYSCALL.
Proof. unfold expected. rewrite bool_decide_eq_false, !not_elem_of_cons. tauto. Qed.

Lemma wp_keyboard_event (Q : unit -> clock E -> Prop) s : (forall s', Q tt s') -> wp keyboard_event Q s.
Proof. intros HQ. apply wp_bind, wp_get, wp_bind, wp_env; [constructor|]. intros v' _. apply wp_modify, HQ. Qed.
Lemma wp_message tf (Q : unit -> clock E -> Prop) s :
  (forall s', proc_of s' = proc_of s -> Q tt s') -> wp (on_env (cprintf_trap tf)) Q s.
Proof. intros HQ. apply wp_env; [constructor|]. intros v Hv. apply HQ. exact (message_keeps _ _ _ Hv). Qed.

Lemma wp_tick (Q : unit -> clock E -> Prop) s : (forall s', Q tt s') -> wp tick Q s.
Proof. intros HQ. apply wp_bind, wp_modify, wp_env; [constructor|]. auto. Qed.

(** The rest of the [switch]: a process that misbehaves in user space is marked. *)
Lemma wp_misbehaves tf (Q : unit -> clock E -> Prop) s : from_user tf = true -> is_Some (proc_of s) ->
  (forall s', is_killed s' = true -> Q tt s') ->
  wp (if bool_decide (proc_of s = None) || (Z.land (cs tf) 3 =? 0) then on_env (cprintf_trap tf) ;; panic "trap"
      else on_env (cprintf_trap tf) ;; on_env set_killed) Q s.
Proof.
  intros Hu [p Hp] HQ. unfold from_user in Hu. apply Z.eqb_eq in Hu. rewrite Hu, Hp. cbn [bool_decide decide_rel orb Z.eqb DPL_USER].
  apply wp_bind, wp_message. intros s' E'. rewrite Hp in E'. apply wp_env; [constructor|].
  intros v Hv. apply HQ. unfold is_killed, proc_of. cbn [env]. rewrite (mark_seen _ _ _ E' Hv). reflexivity.
Qed.

(** From user space the [switch] adds no panic, and the process is marked when the trap was not expected. *)
Lemma wp_dispatch tf s : from_user tf = true -> is_Some (proc_of s) ->
  wp (dispatch tf) (fun _ s' => expected (trapno tf) = false -> is_killed s' = true) s.
Proof.
  intros Hu Hp. unfold dispatch. apply wp_bind, wp_get. destruct (expected (trapno tf)) eqn:Ex.
  - assert (Q : forall s', true = false -> is_killed s' = true) by discriminate.
    assert (Qe : forall s', wp (on_env lapiceoi) (fun _ s => true = false -> is_killed s = true) s').
    { intros s'. apply wp_env; [constructor|]. intros v _. apply Q. }
    destruct (trapno tf =? T_IRQ0 + IRQ_TIMER). { apply wp_bind. destruct (_ =? 0); [apply wp_tick, Qe|apply wp_skip, Qe]. }
    destruct (trapno tf =? T_IRQ0 + IRQ_IDE). { apply wp_bind, wp_env; [constructor|]. intros v _. apply Qe. }
    destruct (trapno tf =? T_IRQ0 + IRQ_IDE + 1). { apply wp_skip, Q. }
    destruct (trapno tf =? T_IRQ0 + IRQ_KBD). { apply wp_bind, wp_env; [constructor|]. intros v _. apply Qe. }
    destruct (trapno tf =? T_IRQ0 + IRQ_COM1).
    { apply wp_bind, wp_keyboard_event. intros s'. apply wp_bind, wp_env; [constructor|]. intros v _. apply Qe. }
    destruct (_ || _). { apply wp_bind, wp_message. intros s' _. apply Qe. }
    apply wp_misbehaves; [exact Hu|exact Hp|intros s' _; exact (Q s')].
  - destruct (expected_cases _ Ex) as (? & ? & ? & ? & ? & ? & ? & _). rewrite !(proj2 (Z.eqb_neq _ _)) by assumption.
    cbn [orb]. apply wp_misbehaves; [exact Hu|exact Hp|auto].
Qed.

(** In the kernel the same trap does not return. *)
Lemma dispatch_panics tf s : Z.land (cs tf) 3 = 0 -> expected (trapno tf) = false ->
  exists w, stop_of (dispatch tf s) = Some w /\ (w = Panics "trap" \/ handler_stops E w).
Proof.
  intros Hk Ex. destruct (expected_cases _ Ex) as (? & ? & ? & ? & ? & ? & ? & _). unfold dispatch, get.
  unfold mbind at 1, K_bind at 1. rewrite !(proj2 (Z.eqb_neq _ _)) by assumption. rewrite Hk, orb_true_r. cbn [orb].
  unfold mbind, K_bind, on_env. destruct (cprintf_trap tf (env s)) as [[[] v]|?|?|] eqn:E1; eexists; (split; [reflexivity|]); [auto|right..];
    left; exists (cprintf_trap tf), (env s); (split; [constructor|rewrite E1; reflexivity]).
Qed.

Lemma wp_yield_if b (Q : unit -> clock E -> Prop) s : (forall s', Q tt s') -> wp (if b : bool then yield else skip) Q s.
Proof.
  intros HQ. destruct b; [|apply wp_skip, HQ]. apply wp_part; [intros [] s' _; apply HQ|]. intros w Hw. right. right. exists s. exact Hw.
Qed.

Lemma wp_syscall tf (Q : outcome -> clock E -> Prop) s : is_Some (proc_of s) ->
  (forall s', Q Gone s') -> (forall s', is_Some (proc_of s') -> Q Returned s') -> wp (syscall tf) Q s.
Proof.
  intros Hp HG HR. apply wp_part; [|intros w Hw; right; left; exists tf, s; exact Hw].
  intros [] s' E1; [|apply HG]. apply HR. exact (syscall_process tf s s' Hp E1).
Qed.
End facts.

(** ** The loop of sys_sleep *)

Lemma waits_after i ticks0 n : is_u32 ticks0 -> Z.of_nat i < 2 ^ 32 ->
  waits (u32 (ticks0 + Z.of_nat i)) ticks0 n = (Z.of_nat i <? u32 n).
Proof.
  intros H Hi. unfold waits. f_equal. unfold u32. rewrite Zminus_mod_idemp_l. replace (ticks0 + Z.of_nat i - ticks0) with (Z.of_nat i) by lia.
  apply Z.mod_small. lia.
Qed.

(** No kill among [m] ticks from [i], or the first one. *)
Fixpoint first_kill (m i : nat) (dead : nat -> bool) : option nat :=
  match m with O => None | S m => if dead i then Some i else first_kill m (S i) dead end.

Lemma sleep_from m : forall k i ticks0 n dead, is_u32 ticks0 -> u32 n = Z.of_nat (i + m) -> (m <= k)%nat ->
  sys_sleep k i ticks0 n dead = match first_kill m i dead with Some j => Killed j | None => Slept (i + m) end.
Proof.
  induction m as [|m IH]; intros k i ticks0 n dead H Hn Hk; pose proof (u32_is_u32 n) as Hr; unfold is_u32 in Hr.
  - rewrite Nat.add_0_r in *. destruct k; cbn [sys_sleep first_kill]; rewrite waits_after by (assumption || lia);
      rewrite (proj2 (Z.ltb_ge _ _)) by lia; reflexivity.
  - destruct k as [|k]; [lia|]. cbn [sys_sleep first_kill]. rewrite waits_after by (assumption || lia).
    rewrite (proj2 (Z.ltb_lt _ _)) by lia. destruct (dead i); [reflexivity|].
    rewrite IH by (assumption || lia). rewrite Nat.add_succ_comm. reflexivity.
Qed.
End TrapFacts.

Module TrapProps.
Import Trap TrapFacts.

(** C20: A killed process does not get back to user space.  Of a trap taken in user space by the current
    process: when it returns to user space, the process is not marked as killed, not by a system call,
    not by an interrupt handler, and not while it had yielded; and a trap for which there is no case ends the process.
    [trap] does not itself stop the kernel then: if it does not come to an end, one of the handlers it calls has
    stopped the same way, as a system call that panics does. *)
Theorem trap_protects_user {E : Type} `{HandlerLaws E} (tf : trapframe) (s : clock E) :
  from_user tf = true -> is_Some (proc_of s) ->
  match trap tf s with
  | Ok (Returned, s') => is_killed s' = false /\ expected (trapno tf) = true
  | Ok (Gone, _) => True
  | Panic msg => handler_stops E (Panics msg)
  | Fault why => handler_stops E (Faults why)
  | Spin => handler_stops E Spins
  end.
Proof.
  intros Hu Hp.
  assert (Stops.wp (handler_stops E) (trap tf) (fun o s' => o = Returned -> is_killed s' = false /\ expected (trapno tf) = true) s) as W;
    [|unfold Stops.wp in W; destruct (trap tf s) as [[[] ?]|?|?|]; auto].
  apply Stops.wp_bind, wp_interrupt_event. intros s1 E1. rewrite <- E1 in Hp. destruct (Z.eqb_spec (trapno tf) T_SYSCALL) as [Et|Et].
  - assert (Ex : expected (trapno tf) = true) by (rewrite Et; reflexivity).
    apply wp_exit_if_killed; [exact Hp|easy|]. intros _. apply Stops.wp_bind, wp_syscall; [exact Hp|intros s2; apply Stops.wp_ret; easy|].
    intros s2 Hp2. apply wp_exit_if_killed; [exact Hp2|easy|]. intros Hk. apply Stops.wp_ret. auto.
  - apply Stops.wp_bind. eapply Stops.wp_mono; [exact (wp_dispatch tf s1 Hu Hp)|]. intros [] s2 H2. cbn beta in H2.
    apply wp_exit_if; [easy|]. rewrite Hu. intros Hk. rewrite andb_true_r in Hk.
    assert (Ex : expected (trapno tf) = true) by (destruct (expected (trapno tf)); [reflexivity|rewrite H2 in Hk by reflexivity; discriminate]).
    apply Stops.wp_bind, Stops.wp_get, Stops.wp_bind, wp_yield_if. intros s3. apply wp_exit_if; [easy|].
    intros Hk3. rewrite andb_true_r in Hk3. apply Stops.wp_ret. auto.
Qed.

(** [sys_sleep] waits for exactly as many ticks as its argument says, as a [uint]: from any value of the clock, also when it
    wraps meanwhile, a process that looks at every tick returns 0 at tick [n] and -1 at the first tick before at which it is
    killed.  A negative argument is therefore a wait of more than 2^31 ticks. *)
Theorem sleep_waits_exactly (k : nat) (ticks0 n : Z) (dead : nat -> bool) :
  is_u32 ticks0 -> u32 n <= Z.of_nat k ->
  sys_sleep k 0 ticks0 n dead =
  match first_kill (Z.to_nat (u32 n)) 0 dead with Some j => Killed j | None => Slept (Z.to_nat (u32 n)) end.
Proof. intros H Hk. pose proof (u32_is_u32 n) as Hr. unfold is_u32 in Hr. apply sleep_from; [exact H|lia|lia]. Qed.

(** The clock wraps during the wait. *)
Lemma sleep_waits_exactly_witness :
  is_u32 4294967295 /\ sys_sleep 5 0 4294967295 3 (fun _ => false) = Slept 3.
Proof.
  assert (H : is_u32 4294967295) by (unfold is_u32; lia). split; [exact H|].
  rewrite (sleep_waits_exactly 5 4294967295 3 (fun _ => false) H); [reflexivity|vm_compute; discriminate].
Defined.

(** A kernel with one process, the number of the system call it makes, and the calls so far; the calls are
    [exit], [kill] of itself, one that panics, and others that just return. *)
Record machine := Machine { cur : current; call : Z; made : list Z }.
Definition on_cur (f : current -> current) : K machine unit := modify (fun v => Machine (f (cur v)) (call v) (made v)).
Definition do_call (v : machine) : res (outcome * machine) :=
  let v := Machine (cur v) (call v) (made v ++ [call v]) in
  if call v =? 2 then Ok (Gone, Machine (Current (killed (cur v)) false) (call v) (made v))
  else if call v =? 6 then Ok (Returned, Machine (Current true (running (cur v))) (call v) (made v))
  else if call v =? 23 then Panic "prngrand: unable to allocate memory."
  else Ok (Returned, v).
#[local] Instance plain : Handlers machine := {
  cpunum _ := 0; proc v := Some (cur v); addRandomEvent _ _ _ := skip; wakeup_ticks := skip; lapiceoi := skip; ideintr := skip;
  kbdintr := skip; uartintr := skip; cprintf_trap _ := skip; set_killed := on_cur (fun p => Current true (running p));
  exit := on_cur (fun p => Current (killed p) false); syscall _ := on_env do_call; yield := skip }.
#[local] Instance plain_laws : HandlerLaws machine.
Proof.
  constructor; cbn; [intros a b c v v' [= <-]|intros tf v v' [= <-]|intros v p v' [= <-] [= <-]|intros; eexists]; reflexivity.
Qed.

(** A page fault in user space ends the process, and so do [exit] and [kill] of itself; another call returns, and the panic is
    that of the call. *)
Lemma trap_protects_user_witness :
  let st n := Clock 7 0 0 (Machine (Current false true) n []) in
  (forall n, match trap (TF T_SYSCALL 0x23 0 0) (st n) with
             | Ok (Returned, s') => is_killed s' = false /\ expected T_SYSCALL = true
             | Ok (Gone, _) => True
             | Panic msg => handler_stops machine (Panics msg)
             | Fault why => handler_stops machine (Faults why)
             | Spin => handler_stops machine Spins
             end) /\
  (exists s', trap (TF 14 0x23 0 0) (st 0) = Ok (Gone, s')) /\
  (exists s', trap (TF T_SYSCALL 0x23 0 0) (st 2) = Ok (Gone, s')) /\ (exists s', trap (TF T_SYSCALL 0x23 0 0) (st 6) = Ok (Gone, s')) /\
  (exists s', trap (TF T_SYSCALL 0x23 0 0) (st 11) = Ok (Returned, s')) /\
  trap (TF T_SYSCALL 0x23 0 0) (st 23) = Panic "prngrand: unable to allocate memory.".
Proof.
  intros st. split; [intros n; apply (trap_protects_user (TF T_SYSCALL 0x23 0 0) (st n)); [reflexivity|eexists; reflexivity]|].
  repeat split; eexists; reflexivity.
Defined.
End TrapProps.
