(* ===== verification/Proc.v ===== *)
(** Processes (proc.c): the table of processes, fork, exit, wait, sleep, wakeup, kill and the
    scheduler of every CPU.

    The table is only changed with its lock held, and a CPU that gives up its process keeps
    the lock until the scheduler of that CPU has found another process, which releases it,
    or has come to the end of the table.  Such a stretch from [acquire] to
    [release] is one atomic operation of the model; [acquire], [release], the checks
    of [sched] and the saved [intena] are those of the code.  What the table takes
    from the rest of the kernel (pages, address spaces, open files, inodes) is a
    typeclass of operations. *)

From stdpp Require Import gmultiset.
From S2P Require Import Prelude Spinlock.

Module Proc.
Import Spinlock.

Definition NPROC : nat := 64.
Definition NOFILE : nat := 16.
Definition PGSIZE : Z := 4096.

Inductive procstate := UNUSED | EMBRYO | SLEEPING | RUNNABLE | RUNNING | ZOMBIE.
#[export] Instance procstate_eq_dec : EqDecision procstate.
Proof. solve_decision. Defined.

(** Channels: the address of a process, or another address. *)
Inductive chan_t := ChProc (i : nat) | ChAddr (a : Z).
#[export] Instance chan_eq_dec : EqDecision chan_t.
Proof. solve_decision. Defined.

(** Where a context continues: at [forkret], or after [sched] in [yield], in [sleep] with another
    lock, in [sleep] of [wait], or in [exit]. *)
Inductive ctx := AtForkret | InYield | InSleep | InWait | InExit.

Record trapframe := TF { eax : Z; cs : Z; ds : Z; es : Z; ss : Z; eflags : Z; esp : Z; eip : Z; others : list Z }.
Definition set_eax (v : Z) (f : trapframe) : trapframe :=
  TF v (cs f) (ds f) (es f) (ss f) (eflags f) (esp f) (eip f) (others f).

Record proc := MkProc {
  sz : Z;
  pgdir : Z;
  kstack : Z;
  state : procstate;
  pid : Z;
  parent : option nat;
  tf : trapframe;
  context : ctx;
  saved : bool;                 (** [intena] in the frame of [sched] *)
  chan : option chan_t;
  killed : bool;
  ofile : list (option nat);
  cwd : option nat;
  pname : list Z;
  selectlock : spinlock;
}.
Definition set_sz v p := MkProc v (pgdir p) (kstack p) (state p) (pid p) (parent p) (tf p) (context p) (saved p) (chan p) (killed p) (ofile p) (cwd p) (pname p) (selectlock p).
Definition set_pgdir v p := MkProc (sz p) v (kstack p) (state p) (pid p) (parent p) (tf p) (context p) (saved p) (chan p) (killed p) (ofile p) (cwd p) (pname p) (selectlock p).
Definition set_kstack v p := MkProc (sz p) (pgdir p) v (state p) (pid p) (parent p) (tf p) (context p) (saved p) (chan p) (killed p) (ofile p) (cwd p) (pname p) (selectlock p).
Definition set_state v p := MkProc (sz p) (pgdir p) (kstack p) v (pid p) (parent p) (tf p) (context p) (saved p) (chan p) (killed p) (ofile p) (cwd p) (pname p) (selectlock p).
Definition set_pid v p := MkProc (sz p) (pgdir p) (kstack p) (state p) v (parent p) (tf p) (context p) (saved p) (chan p) (killed p) (ofile p) (cwd p) (pname p) (selectlock p).
Definition set_parent v p := MkProc (sz p) (pgdir p) (kstack p) (state p) (pid p) v (tf p) (context p) (saved p) (chan p) (killed p) (ofile p) (cwd p) (pname p) (selectlock p).
Definition set_tf v p := MkProc (sz p) (pgdir p) (kstack p) (state p) (pid p) (parent p) v (context p) (saved p) (chan p) (killed p) (ofile p) (cwd p) (pname p) (selectlock p).
Definition set_context v w p := MkProc (sz p) (pgdir p) (kstack p) (state p) (pid p) (parent p) (tf p) v w (chan p) (killed p) (ofile p) (cwd p) (pname p) (selectlock p).
Definition set_chan v p := MkProc (sz p) (pgdir p) (kstack p) (state p) (pid p) (parent p) (tf p) (context p) (saved p) v (killed p) (ofile p) (cwd p) (pname p) (selectlock p).
Definition set_killed v p := MkProc (sz p) (pgdir p) (kstack p) (state p) (pid p) (parent p) (tf p) (context p) (saved p) (chan p) v (ofile p) (cwd p) (pname p) (selectlock p).
Definition set_ofile v p := MkProc (sz p) (pgdir p) (kstack p) (state p) (pid p) (parent p) (tf p) (context p) (saved p) (chan p) (killed p) v (cwd p) (pname p) (selectlock p).
Definition set_cwd v p := MkProc (sz p) (pgdir p) (kstack p) (state p) (pid p) (parent p) (tf p) (context p) (saved p) (chan p) (killed p) (ofile p) v (pname p) (selectlock p).
Definition set_name v p := MkProc (sz p) (pgdir p) (kstack p) (state p) (pid p) (parent p) (tf p) (context p) (saved p) (chan p) (killed p) (ofile p) (cwd p) v (selectlock p).
Definition set_selectlock v p := MkProc (sz p) (pgdir p) (kstack p) (state p) (pid p) (parent p) (tf p) (context p) (saved p) (chan p) (killed p) (ofile p) (cwd p) (pname p) v.

(** [struct cpu] as far as it is used here. *)
Record pcpu := PCpu { c_cpu : cpu; c_proc : option nat }.

(** What happened to processes, oldest first, by process identifiers; [Ran] by slot. *)
Inductive event :=
  | Forked (parent child : Z)
  | Exited (pid : Z)
  | Reaped (parent child : Z)
  | Ran (i : nat).
#[export] Instance event_eq_dec : EqDecision event.
Proof. solve_decision. Defined.

(** The operations of the rest of the kernel. *)
Class Services (E : Type) := {
  kalloc : K E Z;
  kfree : Z -> K E unit;
  setupkvm : K E Z;
  inituvm : Z -> K E unit;               (** with the code of the first process *)
  copyuvm : Z -> Z -> K E Z;
  freevm : Z -> K E unit;
  allocuvm : Z -> Z -> Z -> K E Z;
  deallocuvm : Z -> Z -> Z -> K E Z;
  filedup : nat -> K E nat;
  fileclose : nat -> K E unit;
  idup : nat -> K E nat;
  iput : nat -> K E unit;
  begin_op : K E unit;
  end_op : K E unit;
  namei_root : K E (option nat);         (** [namei("/")] *)
  fs_start : K E unit;                   (** [iinit(ROOTDEV); initlog(ROOTDEV)] *)
  scheduling_event : K E unit;           (** the call of [addRandomEvent] in [scheduler] *)
}.

Section model.
Context {E : Type} `{Services E}.

Record pstate := PState {
  table : list proc;
  nextpid : Z;
  initproc : option nat;
  first : bool;
  plock : spinlock;
  cpus : list pcpu;
  env : E;
  events : list event;
}.
Definition set_table t s := PState t (nextpid s) (initproc s) (first s) (plock s) (cpus s) (env s) (events s).
Definition set_nextpid n s := PState (table s) n (initproc s) (first s) (plock s) (cpus s) (env s) (events s).
Definition set_initproc i s := PState (table s) (nextpid s) i (first s) (plock s) (cpus s) (env s) (events s).
Definition set_first b s := PState (table s) (nextpid s) (initproc s) b (plock s) (cpus s) (env s) (events s).
Definition set_lock l s := PState (table s) (nextpid s) (initproc s) (first s) l (cpus s) (env s) (events s).
Definition set_cpus l s := PState (table s) (nextpid s) (initproc s) (first s) (plock s) l (env s) (events s).
Definition set_env e s := PState (table s) (nextpid s) (initproc s) (first s) (plock s) (cpus s) e (events s).
Definition add_event x s := PState (table s) (nextpid s) (initproc s) (first s) (plock s) (cpus s) (env s) (events s ++ [x]).

Definition on_env {A} (f : K E A) : K pstate A := fun s =>
  '(a, e) ← f (env s);
  Ok (a, set_env e s).

Definition get_proc (i : nat) : K pstate proc := fun s => lift_opt "pointer outside ptable" (table s !! i) s.
Definition upd (i : nat) (f : proc -> proc) : K pstate unit := modify (fun s => set_table (alter f i (table s)) s).

Definition get_cpu (c : nat) : K pstate pcpu := fun s => lift_opt "no such cpu" (cpus s !! c) s.
Definition put_cpu (c : nat) (k : cpu) : K pstate unit :=
  modify (fun s => set_cpus (alter (fun x => PCpu k (c_proc x)) c (cpus s)) s).
Definition put_proc (c : nat) (p : option nat) : K pstate unit :=
  modify (fun s => set_cpus (alter (fun x => PCpu (c_cpu x) p) c (cpus s)) s).
(** [proc] on CPU [c], where the code follows the pointer. *)
Definition current (c : nat) : K pstate nat :=
  k ← get_cpu c;
  lift_opt "null proc" (c_proc k).

Definition acquire_ptable (c : nat) : K pstate unit :=
  k ← get_cpu c;
  l ← gets plock;
  '(l, k) ← lift_res (acquire (Z.of_nat c) l (c_cpu k));
  modify (set_lock l) ;; put_cpu c k.
Definition release_ptable (c : nat) : K pstate unit :=
  k ← get_cpu c;
  l ← gets plock;
  '(l, k) ← lift_res (release (Z.of_nat c) l (c_cpu k));
  modify (set_lock l) ;; put_cpu c k.

Definition allocproc : K pstate (option nat) :=
  t ← gets table;
  match list_find (fun p => state p = UNUSED) t with
  | None => mret None
  | Some (i, _) =>
      n ← gets nextpid;
      upd i (fun p => set_pid n (set_state EMBRYO p)) ;;
      modify (set_nextpid (s32 (n + 1))) ;;
      upd i (set_selectlock (initlock "select")) ;;
      k ← on_env kalloc;
      upd i (set_kstack k) ;;
      if k =? 0 then upd i (set_state UNUSED) ;; mret None
      else upd i (set_context AtForkret false) ;; mret (Some i)
  end.

(** [(SEG_UCODE << 3) | DPL_USER], [(SEG_UDATA << 3) | DPL_USER] and [FL_IF]. *)
Definition user_tf : trapframe := TF 0 35 43 43 43 512 PGSIZE 0 (replicate 10 0).

Definition userinit (c : nat) : K pstate unit :=
  acquire_ptable c ;;
  r ← allocproc;
  modify (set_initproc r) ;;
  i ← lift_opt "null process" r;
  d ← on_env setupkvm;
  upd i (set_pgdir d) ;;
  if d =? 0 then panic "userinit: out of memory?"
  else
    on_env (inituvm d) ;;
    upd i (fun p => set_name [105; 110; 105; 116; 99; 111; 100; 101] (set_tf user_tf (set_sz PGSIZE p))) ;;
    ip ← on_env namei_root;
    upd i (set_cwd ip) ;;
    upd i (set_state RUNNABLE) ;;
    release_ptable c.

(** [pushcli], [popcli] around the segment registers; the page directory must exist. *)
Definition switchuvm (c : nat) (i : nat) : K pstate unit :=
  k ← get_cpu c;
  p ← get_proc i;
  if pgdir p =? 0 then panic "switchuvm: no pgdir"
  else k' ← lift_res (popcli (pushcli (c_cpu k))); put_cpu c k'.

Definition growproc (c : nat) (n : Z) : K pstate Z :=
  me ← current c;
  p ← get_proc me;
  let finish (x : Z) := upd me (set_sz x) ;; switchuvm c me ;; mret 0 in
  if 0 <? n then
    x ← on_env (allocuvm (pgdir p) (sz p) (u32 (sz p + n)));
    if x =? 0 then mret (-1) else finish x
  else if n <? 0 then
    x ← on_env (deallocuvm (pgdir p) (sz p) (u32 (sz p + n)));
    if x =? 0 then mret (-1) else finish x
  else finish (sz p).

Definition fork_file (me i fd : nat) : K pstate unit :=
  p ← get_proc me;
  match ofile p !! fd with
  | Some (Some f) => f' ← on_env (filedup f); upd i (fun q => set_ofile (<[fd := Some f']> (ofile q)) q)
  | _ => skip
  end.

Definition fork (c : nat) : K pstate Z :=
  me ← current c;
  acquire_ptable c ;;
  r ← allocproc;
  match r with
  | None => release_ptable c ;; mret (-1)
  | Some i =>
      p ← get_proc me;
      d ← on_env (copyuvm (pgdir p) (sz p));
      upd i (set_pgdir d) ;;
      if d =? 0 then
        q ← get_proc i;
        on_env (kfree (kstack q)) ;;
        upd i (fun q => set_state UNUSED (set_kstack 0 q)) ;;
        release_ptable c ;; mret (-1)
      else
        upd i (fun q => set_tf (set_eax 0 (tf p)) (set_parent (Some me) (set_sz (sz p) q))) ;;
        forM (seq 0 NOFILE) (fork_file me i) ;;
        ip ← lift_opt "idup of a null pointer" (cwd p);
        ip' ← on_env (idup ip);
        upd i (fun q => set_name (pname p) (set_cwd (Some ip') q)) ;;
        q ← get_proc i;
        upd i (set_state RUNNABLE) ;;
        modify (add_event (Forked (pid p) (pid q))) ;;
        release_ptable c ;; mret (pid q)
  end.

Definition wakeup1 (ch : option chan_t) : K pstate unit :=
  modify (fun s => set_table ((fun p => if decide (state p = SLEEPING /\ chan p = ch) then set_state RUNNABLE p else p) <$> table s) s).

(** A zombie child found by [wait]. *)
Definition reap (me i : nat) : K pstate Z :=
  p ← get_proc me;
  q ← get_proc i;
  on_env (kfree (kstack q)) ;;
  upd i (set_kstack 0) ;;
  on_env (freevm (pgdir q)) ;;
  upd i (fun q => set_state UNUSED (set_killed false (set_name [] (set_parent None (set_pid 0 q))))) ;;
  modify (add_event (Reaped (pid p) (pid q))) ;;
  mret (pid q).

Fixpoint wait_loop (me : nat) (l : list nat) (havekids : bool) : K pstate (option Z * bool) :=
  match l with
  | [] => mret (None, havekids)
  | i :: l' =>
      q ← get_proc i;
      if decide (parent q <> Some me) then wait_loop me l' havekids
      else if decide (state q = ZOMBIE) then x ← reap me i; mret (Some x, true)
      else wait_loop me l' true
  end.

(** One round of the loop of [wait]: the result, or [None] when the process goes to sleep. *)
Definition wait_round (me : nat) : K pstate (option Z) :=
  '(r, havekids) ← wait_loop me (seq 0 NPROC) false;
  match r with
  | Some x => mret (Some x)
  | None =>
      p ← get_proc me;
      if negb havekids || killed p then mret (Some (-1))
      else upd me (fun p => set_state SLEEPING (set_chan (Some (ChProc me)) p)) ;; mret None
  end.

(** Up to the [swtch] to the scheduler, which saves the context [k]. *)
Definition sched (c me : nat) (k : ctx) : K pstate unit :=
  x ← get_cpu c;
  l ← gets plock;
  p ← get_proc me;
  if negb (holding (Z.of_nat c) l) then panic "sched ptable.lock"
  else if negb (ncli (c_cpu x) =? 1) then panic "sched locks"
  else if decide (state p = RUNNING) then panic "sched running"
  else if fl_if (c_cpu x) then panic "sched interruptible"
  else upd me (set_context k (intena (c_cpu x))).

(** [cpu->intena = intena] after [swtch] came back. *)
Definition restore_intena (c i : nat) : K pstate unit :=
  x ← get_cpu c;
  p ← get_proc i;
  put_cpu c (Cpu (ncli (c_cpu x)) (saved p) (fl_if (c_cpu x))).

(** A process that was switched to, until it releases the lock of the table; [false] when
    it goes back to sleep in [wait] instead. *)
Definition resume (c i : nat) : K pstate bool :=
  p ← get_proc i;
  match context p with
  | AtForkret =>
      release_ptable c ;;
      b ← gets first;
      (if (b : bool) then modify (set_first false) ;; on_env fs_start else skip) ;;
      mret true
  | InYield => restore_intena c i ;; release_ptable c ;; mret true
  | InSleep => restore_intena c i ;; upd i (set_chan None) ;; release_ptable c ;; mret true
  | InWait =>
      restore_intena c i ;;
      upd i (set_chan None) ;;
      r ← wait_round i;
      match r with
      | Some _ => release_ptable c ;; mret true
      | None => sched c i InWait ;; mret false
      end
  | InExit => restore_intena c i ;; panic "zombie exit"
  end.

(** The loop over the table with [n] slots to go, the lock being held. *)
Fixpoint scheduler_loop (c n : nat) : K pstate unit :=
  match n with
  | O => release_ptable c
  | S n' =>
      let i := (NPROC - n)%nat in
      p ← get_proc i;
      if decide (state p <> RUNNABLE) then scheduler_loop c n'
      else
        put_proc c (Some i) ;;
        switchuvm c i ;;
        upd i (set_state RUNNING) ;;
        on_env scheduling_event ;;
        modify (add_event (Ran i)) ;;
        b ← resume c i;
        if (b : bool) then skip else put_proc c None ;; scheduler_loop c n'
  end.

(** Back in the scheduler after process [me] gave up the CPU. *)
Definition back (c me : nat) : K pstate unit :=
  put_proc c None ;;
  scheduler_loop c (NPROC - S me).

(** A pass of the scheduler on a CPU without a process; [sti] first. *)
Definition scheduler (c : nat) : K pstate unit :=
  x ← get_cpu c;
  put_cpu c (Cpu (ncli (c_cpu x)) (intena (c_cpu x)) true) ;;
  acquire_ptable c ;;
  scheduler_loop c NPROC.

Definition yield (c : nat) : K pstate unit :=
  me ← current c;
  acquire_ptable c ;;
  upd me (set_state RUNNABLE) ;;
  sched c me InYield ;;
  back c me.

(** [sleep] with a lock [lk] other than that of the table; gives the released lock. *)
Definition sleep (c : nat) (ch : chan_t) (lk : spinlock) : K pstate spinlock :=
  x ← get_cpu c;
  match c_proc x with
  | None => panic "sleep"
  | Some me =>
      acquire_ptable c ;;
      x ← get_cpu c;
      '(lk, k) ← lift_res (release (Z.of_nat c) lk (c_cpu x));
      put_cpu c k ;;
      upd me (fun p => set_state SLEEPING (set_chan (Some ch) p)) ;;
      sched c me InSleep ;;
      back c me ;;
      mret lk
  end.

Definition wait (c : nat) : K pstate unit :=
  me ← current c;
  acquire_ptable c ;;
  r ← wait_round me;
  match r with
  | Some _ => release_ptable c
  | None => sched c me InWait ;; back c me
  end.

Definition wakeup (c : nat) (ch : option chan_t) : K pstate unit :=
  acquire_ptable c ;; wakeup1 ch ;; release_ptable c.

Definition kill (c : nat) (n : Z) : K pstate Z :=
  acquire_ptable c ;;
  t ← gets table;
  match list_find (fun p => pid p = n) t with
  | Some (i, _) =>
      upd i (set_killed true) ;;
      p ← get_proc i;
      (if decide (state p = SLEEPING) then upd i (set_state RUNNABLE) else skip) ;;
      release_ptable c ;; mret 0
  | None => release_ptable c ;; mret (-1)
  end.

(** [exit] before it takes the lock. *)
Definition exit_file (me fd : nat) : K pstate unit :=
  p ← get_proc me;
  match ofile p !! fd with
  | Some (Some f) => on_env (fileclose f) ;; upd me (fun p => set_ofile (<[fd := None]> (ofile p)) p)
  | _ => skip
  end.
Definition exit_close (c : nat) : K pstate unit :=
  me ← current c;
  i ← gets initproc;
  if decide (i = Some me) then panic "init exiting"
  else
    forM (seq 0 NOFILE) (exit_file me) ;;
    on_env begin_op ;;
    p ← get_proc me;
    ip ← lift_opt "iput of a null pointer" (cwd p);
    on_env (iput ip) ;;
    on_env end_op ;;
    upd me (set_cwd None).

(** A child passed to the first process. *)
Definition abandon (me i : nat) : K pstate unit :=
  q ← get_proc i;
  if decide (parent q = Some me) then
    x ← gets initproc;
    upd i (set_parent x) ;;
    if decide (state q = ZOMBIE) then wakeup1 (ChProc <$> x) else skip
  else skip.
Definition exit_zombie (c : nat) : K pstate unit :=
  me ← current c;
  acquire_ptable c ;;
  p ← get_proc me;
  wakeup1 (ChProc <$> parent p) ;;
  forM (seq 0 NPROC) (abandon me) ;;
  upd me (set_state ZOMBIE) ;;
  modify (add_event (Exited (pid p))) ;;
  sched c me InExit ;;
  back c me.

Definition exit (c : nat) : K pstate unit := exit_close c ;; exit_zombie c.
End model.
End Proc.
