(* ===== verification/ProcInv.v ===== *)
(** What the process table (proc.c) relies on of the rest of the kernel, its invariant, and how exit, wait and fork
    change it. *)

From stdpp Require Import gmultiset.
From S2P Require Import Prelude Spinlock Proc.

Module ProcFacts.
Import Spinlock Proc.

(** ** What the table relies on *)

(** What the table holds: kernel stacks, address spaces, references to files and to inodes. *)
Record held := Held {
  h_stacks : gmultiset Z;
  h_dirs : gmultiset Z;
  h_files : gmultiset nat;
  h_inodes : gmultiset nat;
}.
Definition add_stack a h := Held (h_stacks h ⊎ {[+ a +]}) (h_dirs h) (h_files h) (h_inodes h).
Definition del_stack a h := Held (h_stacks h ∖ {[+ a +]}) (h_dirs h) (h_files h) (h_inodes h).
Definition add_dir a h := Held (h_stacks h) (h_dirs h ⊎ {[+ a +]}) (h_files h) (h_inodes h).
Definition del_dir a h := Held (h_stacks h) (h_dirs h ∖ {[+ a +]}) (h_files h) (h_inodes h).
Definition add_file a h := Held (h_stacks h) (h_dirs h) (h_files h ⊎ {[+ a +]}) (h_inodes h).
Definition del_file a h := Held (h_stacks h) (h_dirs h) (h_files h ∖ {[+ a +]}) (h_inodes h).
Definition add_inode a h := Held (h_stacks h) (h_dirs h) (h_files h) (h_inodes h ⊎ {[+ a +]}).
Definition del_inode a h := Held (h_stacks h) (h_dirs h) (h_files h) (h_inodes h ∖ {[+ a +]}).

(** The contracts of the operations, for the calls that return: an allocation gives something new or fails with 0,
    what is given back must be held, and a reference is duplicated only while one is held.  Any of them may stop the kernel:
    [copyuvm] panics when the size it is given is not that of the directory, [allocuvm] on pages that are mapped already,
    [kfree] on an address outside memory, and [addRandomEvent] runs into a lock that is held. *)
Definition returns {E A} (m : K E A) (Q : A -> E -> Prop) (e : E) : Prop := forall a e', m e = Ok (a, e') -> Q a e'.

Class ServicesSpec (E : Type) `{Services E} := {
  rep : E -> held -> Prop;
  rep_stacks : forall e h a, rep e h -> (multiplicity a (h_stacks h) <= 1)%nat;
  rep_dirs : forall e h a, rep e h -> (multiplicity a (h_dirs h) <= 1)%nat;
  kalloc_law : forall e h, rep e h ->
    returns kalloc (fun a e' => a = 0 /\ rep e' h \/ a <> 0 /\ rep e' (add_stack a h)) e;
  kfree_law : forall e h a, rep e h -> a ∈ h_stacks h -> returns (kfree a) (fun _ e' => rep e' (del_stack a h)) e;
  copyuvm_law : forall e h d n, rep e h -> d ∈ h_dirs h ->
    returns (copyuvm d n) (fun a e' => a = 0 /\ rep e' h \/ a <> 0 /\ rep e' (add_dir a h)) e;
  freevm_law : forall e h d, rep e h -> d ∈ h_dirs h -> returns (freevm d) (fun _ e' => rep e' (del_dir d h)) e;
  allocuvm_law : forall e h d a b, rep e h -> d ∈ h_dirs h -> returns (allocuvm d a b) (fun _ e' => rep e' h) e;
  deallocuvm_law : forall e h d a b, rep e h -> d ∈ h_dirs h -> returns (deallocuvm d a b) (fun _ e' => rep e' h) e;
  filedup_law : forall e h f, rep e h -> f ∈ h_files h -> returns (filedup f) (fun f' e' => f' = f /\ rep e' (add_file f h)) e;
  fileclose_law : forall e h f, rep e h -> f ∈ h_files h -> returns (fileclose f) (fun _ e' => rep e' (del_file f h)) e;
  idup_law : forall e h i, rep e h -> i ∈ h_inodes h -> returns (idup i) (fun i' e' => i' = i /\ rep e' (add_inode i h)) e;
  iput_law : forall e h i, rep e h -> i ∈ h_inodes h -> returns (iput i) (fun _ e' => rep e' (del_inode i h)) e;
  begin_op_law : forall e h, rep e h -> returns begin_op (fun _ e' => rep e' h) e;
  end_op_law : forall e h, rep e h -> returns end_op (fun _ e' => rep e' h) e;
  fs_start_law : forall e h, rep e h -> returns fs_start (fun _ e' => rep e' h) e;
  scheduling_event_law : forall e h, rep e h -> returns scheduling_event (fun _ e' => rep e' h) e;
}.

(** The calls the table makes, with what it holds, and the ways in which one of them can stop. *)
Inductive service {E : Type} `{ServicesSpec E} (h : held) : (E -> option stop) -> Prop :=
  | sv_kalloc : service h (fun e => stop_of (kalloc e))
  | sv_kfree a : a ∈ h_stacks h -> service h (fun e => stop_of (kfree a e))
  | sv_copyuvm d n : d ∈ h_dirs h -> service h (fun e => stop_of (copyuvm d n e))
  | sv_freevm d : d ∈ h_dirs h -> service h (fun e => stop_of (freevm d e))
  | sv_allocuvm d a b : d ∈ h_dirs h -> service h (fun e => stop_of (allocuvm d a b e))
  | sv_deallocuvm d a b : d ∈ h_dirs h -> service h (fun e => stop_of (deallocuvm d a b e))
  | sv_filedup f : f ∈ h_files h -> service h (fun e => stop_of (filedup f e))
  | sv_fileclose f : f ∈ h_files h -> service h (fun e => stop_of (fileclose f e))
  | sv_idup i : i ∈ h_inodes h -> service h (fun e => stop_of (idup i e))
  | sv_iput i : i ∈ h_inodes h -> service h (fun e => stop_of (iput i e))
  | sv_begin_op : service h (fun e => stop_of (begin_op e))
  | sv_end_op : service h (fun e => stop_of (end_op e))
  | sv_fs_start : service h (fun e => stop_of (fs_start e))
  | sv_event : service h (fun e => stop_of (scheduling_event e)).
Definition service_stops {E : Type} `{ServicesSpec E} (w : stop) : Prop :=
  exists e h f, rep e h /\ service h f /\ f e = Some w.

(** What the operations of the table are shown to do: they return in a state that satisfies a condition, or a call of theirs
    has stopped. *)
Export Stops.
Abbreviation wp := (Stops.wp service_stops).

Section contracts.
Context {E : Type} `{ServicesSpec E}.
Implicit Types (e : E) (h : held).

Lemma wp_service {A} (m : K E A) h e (Q : A -> E -> Prop) : rep e h -> service h (fun e => stop_of (m e)) -> returns m Q e -> wp m Q e.
Proof. intros Hr Hs HQ. apply wp_part; [exact HQ|]. intros w Hw. exists e, h, (fun e => stop_of (m e)). auto. Qed.

Lemma kalloc_spec e h : rep e h -> wp kalloc (fun a e' => a = 0 /\ rep e' h \/ a <> 0 /\ rep e' (add_stack a h)) e.
Proof. intros Hr. eapply wp_service; [exact Hr|constructor|apply kalloc_law, Hr]. Qed.
Lemma kfree_spec e h a : rep e h -> a ∈ h_stacks h -> wp (kfree a) (fun _ e' => rep e' (del_stack a h)) e.
Proof. intros Hr Ha. eapply wp_service; [exact Hr|constructor; exact Ha|apply kfree_law; assumption]. Qed.
Lemma copyuvm_spec e h d n : rep e h -> d ∈ h_dirs h -> wp (copyuvm d n) (fun a e' => a = 0 /\ rep e' h \/ a <> 0 /\ rep e' (add_dir a h)) e.
Proof. intros Hr Hd. eapply wp_service; [exact Hr|constructor; exact Hd|apply copyuvm_law; assumption]. Qed.
Lemma freevm_spec e h d : rep e h -> d ∈ h_dirs h -> wp (freevm d) (fun _ e' => rep e' (del_dir d h)) e.
Proof. intros Hr Hd. eapply wp_service; [exact Hr|constructor; exact Hd|apply freevm_law; assumption]. Qed.
Lemma allocuvm_spec e h d a b : rep e h -> d ∈ h_dirs h -> wp (allocuvm d a b) (fun _ e' => rep e' h) e.
Proof. intros Hr Hd. eapply wp_service; [exact Hr|constructor; exact Hd|apply allocuvm_law; assumption]. Qed.
Lemma deallocuvm_spec e h d a b : rep e h -> d ∈ h_dirs h -> wp (deallocuvm d a b) (fun _ e' => rep e' h) e.
Proof. intros Hr Hd. eapply wp_service; [exact Hr|constructor; exact Hd|apply deallocuvm_law; assumption]. Qed.
Lemma filedup_spec e h f : rep e h -> f ∈ h_files h -> wp (filedup f) (fun f' e' => f' = f /\ rep e' (add_file f h)) e.
Proof. intros Hr Hf. eapply wp_service; [exact Hr|constructor; exact Hf|apply filedup_law; assumption]. Qed.
Lemma fileclose_spec e h f : rep e h -> f ∈ h_files h -> wp (fileclose f) (fun _ e' => rep e' (del_file f h)) e.
Proof. intros Hr Hf. eapply wp_service; [exact Hr|constructor; exact Hf|apply fileclose_law; assumption]. Qed.
Lemma idup_spec e h i : rep e h -> i ∈ h_inodes h -> wp (idup i) (fun i' e' => i' = i /\ rep e' (add_inode i h)) e.
Proof. intros Hr Hi. eapply wp_service; [exact Hr|constructor; exact Hi|apply idup_law; assumption]. Qed.
Lemma iput_spec e h i : rep e h -> i ∈ h_inodes h -> wp (iput i) (fun _ e' => rep e' (del_inode i h)) e.
Proof. intros Hr Hi. eapply wp_service; [exact Hr|constructor; exact Hi|apply iput_law; assumption]. Qed.
Lemma begin_op_spec e h : rep e h -> wp begin_op (fun _ e' => rep e' h) e.
Proof. intros Hr. eapply wp_service; [exact Hr|constructor|apply begin_op_law, Hr]. Qed.
Lemma end_op_spec e h : rep e h -> wp end_op (fun _ e' => rep e' h) e.
Proof. intros Hr. eapply wp_service; [exact Hr|constructor|apply end_op_law, Hr]. Qed.
Lemma fs_start_spec e h : rep e h -> wp fs_start (fun _ e' => rep e' h) e.
Proof. intros Hr. eapply wp_service; [exact Hr|constructor|apply fs_start_law, Hr]. Qed.
Lemma scheduling_event_spec e h : rep e h -> wp scheduling_event (fun _ e' => rep e' h) e.
Proof. intros Hr. eapply wp_service; [exact Hr|constructor|apply scheduling_event_law, Hr]. Qed.
End contracts.

(** ** Sums over the table *)

Section total.
Context {A : Type} `{Countable A} (f : proc -> gmultiset A).

Definition total (t : list proc) : gmultiset A := foldr (fun p m => f p ⊎ m) ∅ t.

Lemma total_cons p t : total (p :: t) = f p ⊎ total t.
Proof. reflexivity. Qed.

Lemma total_insert t i p q : t !! i = Some p -> total (<[i := q]> t) ⊎ f p = total t ⊎ f q.
Proof.
  revert i. induction t as [|x t IH]; intros [|i] Hi; try discriminate.
  - injection Hi as ->. change (<[O := q]> (p :: t)) with (q :: t). rewrite !total_cons. multiset_solver.
  - specialize (IH i Hi). change (<[S i := q]> (x :: t)) with (x :: <[i := q]> t). rewrite !total_cons. multiset_solver.
Qed.

Lemma total_same t t' : Forall2 (fun p q => f p = f q) t t' -> total t = total t'.
Proof. induction 1; [reflexivity|]. rewrite !total_cons. congruence. Qed.

Lemma total_elem t i p x : t !! i = Some p -> x ∈ f p -> x ∈ total t.
Proof.
  revert i. induction t as [|y t IH]; intros [|i] Hi Hx; try discriminate; rewrite total_cons.
  - injection Hi as ->. multiset_solver.
  - specialize (IH i Hi Hx). multiset_solver.
Qed.

Lemma total_add t i p q : t !! i = Some p -> f p = ∅ -> total (<[i := q]> t) = total t ⊎ f q.
Proof. intros Hi E. pose proof (total_insert t i p q Hi) as T. rewrite E in T. multiset_solver. Qed.

Lemma total_del t i p q : t !! i = Some p -> f q = ∅ -> total (<[i := q]> t) = total t ∖ f p.
Proof. intros Hi E. pose proof (total_insert t i p q Hi) as T. rewrite E in T. multiset_solver. Qed.

Lemma total_keep t i p q : t !! i = Some p -> f q = f p -> total (<[i := q]> t) = total t.
Proof. intros Hi E. pose proof (total_insert t i p q Hi) as T. rewrite E in T. multiset_solver. Qed.
End total.

(** ** The invariant *)

Definition alive (p : proc) : Prop := state p = SLEEPING \/ state p = RUNNABLE \/ state p = RUNNING.
Definition used (p : proc) : Prop := state p <> UNUSED.
Definition empty_handed (p : proc) : Prop := Forall (fun f => f = None) (ofile p) /\ cwd p = None.

Definition pstack (p : proc) : gmultiset Z := if decide (state p = UNUSED) then ∅ else {[+ kstack p +]}.
Definition pdir (p : proc) : gmultiset Z := if decide (state p = UNUSED) then ∅ else {[+ pgdir p +]}.
Definition pfiles (p : proc) : gmultiset nat := list_to_set_disj (omap id (ofile p)).
Definition pinode (p : proc) : gmultiset nat := match cwd p with Some i => {[+ i +]} | None => ∅ end.
Definition pzombie (p : proc) : gmultiset Z := if decide (state p = ZOMBIE) then {[+ pid p +]} else ∅.
Definition holdings (t : list proc) : held := Held (total pstack t) (total pdir t) (total pfiles t) (total pinode t).

Definition exited (ev : list event) : list Z := omap (fun x => match x with Exited n => Some n | _ => None end) ev.
Definition reaped (ev : list event) : list Z := omap (fun x => match x with Reaped _ n => Some n | _ => None end) ev.

(** [i] is the first process, or a child of a process that is alive, which forked it or is the
    first process. *)
Definition parent_ok (t : list proc) (init : option nat) (ev : list event) (i : nat) (p : proc) : Prop :=
  match parent p with
  | None => init = Some i
  | Some j => init <> Some i /\ j <> i /\
      exists q, t !! j = Some q /\ alive q /\ (Forked (pid q) (pid p) ∈ ev \/ init = Some j)
  end.

Record slot_ok (t : list proc) (np : Z) (init : option nat) (ev : list event) (i : nat) (p : proc) : Prop := {
  s_embryo : state p <> EMBRYO;
  s_ofile : length (ofile p) = NOFILE;
  s_pid : used p -> 0 < pid p < np;
  s_stack : used p -> kstack p <> 0;
  s_dir : used p -> pgdir p <> 0;
  s_parent : used p -> parent_ok t init ev i p;
  s_unused : state p = UNUSED -> parent p = None;
  s_empty : ~ alive p -> empty_handed p;
  s_exited : alive p -> pid p ∉ exited ev;
}.

(** The processes: identifiers are unique, the parents are there, and a process that exited has been
    waited for once or is a zombie. *)
Record tree (t : list proc) (np : Z) (init : option nat) (ev : list event) : Prop := {
  t_len : length t = NPROC;
  t_np : 0 < np;
  t_slot : forall i p, t !! i = Some p -> slot_ok t np init ev i p;
  t_uniq : forall i j p q, t !! i = Some p -> t !! j = Some q -> used p -> used q -> pid p = pid q -> i = j;
  t_init : exists i p, init = Some i /\ t !! i = Some p /\ alive p;
  t_zombies : list_to_set_disj (exited ev) = list_to_set_disj (reaped ev) ⊎ total pzombie t;
  t_once : NoDup (exited ev);
  t_past : Forall (fun n => n < np) (exited ev);
  t_reaped : forall w n, Reaped w n ∈ ev -> Forked w n ∈ ev \/ (exists i p, init = Some i /\ t !! i = Some p /\ pid p = w);
}.

(** A process asleep in [wait] has a child, none that it could collect, and is not killed. *)
Definition wait_ok (t : list proc) (i : nat) (p : proc) : Prop :=
  chan p = Some (ChProc i) /\ killed p = false /\
  (exists j q, t !! j = Some q /\ parent q = Some i) /\
  (forall j q, t !! j = Some q -> parent q = Some i -> state q <> ZOMBIE).
Definition waits (t : list proc) : Prop := forall i p, t !! i = Some p -> state p = SLEEPING -> context p = InWait -> wait_ok t i p.

(** The processes that run are those of the CPUs. *)
Record runs (t : list proc) (l : list (option nat)) : Prop := {
  r_on : forall i p, t !! i = Some p -> state p = RUNNING <-> (exists c, l !! c = Some (Some i));
  r_in : forall c i, l !! c = Some (Some i) -> is_Some (t !! i);
  r_inj : forall c d i, l !! c = Some (Some i) -> l !! d = Some (Some i) -> c = d;
}.

(** A process that exits is not scheduled again. *)
Definition contexts (t : list proc) : Prop := forall i p, t !! i = Some p -> alive p -> context p <> InExit.

(** ** Changes that keep the processes *)

(** The same process, as far as the others are concerned. *)
Definition akin (p q : proc) : Prop :=
  (state q = state p \/ alive p /\ alive q) /\ pid q = pid p /\ parent q = parent p /\
  kstack q = kstack p /\ pgdir q = pgdir p /\ length (ofile q) = length (ofile p) /\ (alive p \/ ofile q = ofile p /\ cwd q = cwd p).
(** And with the same references. *)
Definition similar (p q : proc) : Prop := akin p q /\ ofile q = ofile p /\ cwd q = cwd p.

Lemma akin_alive p q : akin p q -> alive q <-> alive p.
Proof. intros ([E|[H1 H2]] & _); [unfold alive; rewrite E; tauto|tauto]. Qed.

Lemma akin_state p q x : akin p q -> x = UNUSED \/ x = ZOMBIE \/ x = EMBRYO -> state q = x <-> state p = x.
Proof.
  intros ([E|[H1 H2]] & _) Hx; [rewrite E; tauto|]. unfold alive in *.
  split; intros E; exfalso; rewrite E in *; destruct Hx as [-> | [-> | ->]]; intuition discriminate.
Qed.

Lemma akin_used p q : akin p q -> used q <-> used p.
Proof. intros H. unfold used. rewrite (akin_state p q UNUSED H) by auto. tauto. Qed.

Lemma similar_intro p q : (state q = state p \/ alive p /\ alive q) -> pid q = pid p -> parent q = parent p ->
  kstack q = kstack p -> pgdir q = pgdir p -> ofile q = ofile p -> cwd q = cwd p -> similar p q.
Proof. intros H1 H2 H3 H4 H5 H6 H7. split; [|auto]. repeat split; auto. rewrite H6. reflexivity. Qed.

Lemma similar_refl p : similar p p.
Proof. apply similar_intro; auto. Qed.

Lemma similar_akin t t' : Forall2 similar t t' -> Forall2 akin t t'.
Proof. intros HF. eapply Forall2_impl; [exact HF|]. intros p q [Hs _]. exact Hs. Qed.

Lemma decide_iff {A} (P Q : Prop) `{Decision P} `{Decision Q} (x y : A) : (P <-> Q) ->
  (if decide P then x else y) = (if decide Q then x else y).
Proof. intros HPQ. repeat case_decide; tauto. Qed.

Lemma akin_zombies t t' : Forall2 akin t t' -> total pzombie t' = total pzombie t.
Proof.
  intros HF. symmetry. apply total_same. eapply Forall2_impl; [exact HF|]. intros p q Hs. pose proof Hs as (_ & E1 & _).
  unfold pzombie. rewrite E1. apply decide_iff. symmetry. apply akin_state; auto.
Qed.

Lemma similar_holdings t t' : Forall2 similar t t' -> holdings t' = holdings t.
Proof.
  intros HF. unfold holdings. f_equal; symmetry; apply total_same; (eapply Forall2_impl; [exact HF|]);
    cbv beta; intros p q (Hs & E5 & E6); pose proof Hs as (_ & E1 & E2 & E3 & E4 & _).
  - unfold pstack. rewrite E3. apply decide_iff. symmetry. apply akin_state; auto.
  - unfold pdir. rewrite E4. apply decide_iff. symmetry. apply akin_state; auto.
  - unfold pfiles. rewrite E5. reflexivity.
  - unfold pinode. rewrite E6. reflexivity.
Qed.

Lemma parent_ok_akin t t' init ev i p q : Forall2 akin t t' -> akin p q ->
  parent_ok t init ev i p -> parent_ok t' init ev i q.
Proof.
  intros HF (_ & E1 & E2 & _). unfold parent_ok. rewrite E1, E2. destruct (parent p) as [j|]; [|auto].
  intros (Hi & Hne & r & Hj & Ha & Hr). split; [exact Hi|]. split; [exact Hne|]. destruct (Forall2_lookup_l _ _ _ _ _ HF Hj) as (r' & Hj' & Hs).
  exists r'. rewrite (akin_alive _ _ Hs). destruct Hs as (_ & -> & _). auto.
Qed.

Lemma slot_ok_akin t t' np init ev i p q : Forall2 akin t t' -> akin p q -> slot_ok t np init ev i p -> slot_ok t' np init ev i q.
Proof.
  intros HF Hs [S1 S2 S3 S4 S5 S6 S7 S8 S9]. pose proof Hs as (_ & E1 & E2 & E3 & E4 & E5 & E6).
  constructor; rewrite ?(akin_used _ _ Hs), ?(akin_alive _ _ Hs), ?E1, ?E2, ?E3, ?E4, ?E5; auto.
  - rewrite (akin_state _ _ EMBRYO Hs); auto.
  - intros Hu. eapply parent_ok_akin; eauto.
  - rewrite (akin_state _ _ UNUSED Hs); auto.
  - intros Hna. destruct E6 as [Ha|[E6 E7]]; [contradiction|]. unfold empty_handed. rewrite E6, E7. exact (S8 Hna).
Qed.

Lemma tree_akin t t' np init ev : Forall2 akin t t' -> tree t np init ev -> tree t' np init ev.
Proof.
  intros HF [T1 T2 T3 T4 T5 T6 T7 T8 T9]. pose proof (akin_zombies t t' HF) as Ez.
  assert (HL : forall i q, t' !! i = Some q -> exists p, t !! i = Some p /\ akin p q) by (intros i q Hq; exact (Forall2_lookup_r _ _ _ _ _ HF Hq)).
  assert (HR : forall i p, t !! i = Some p -> exists q, t' !! i = Some q /\ akin p q) by (intros i p Hp; exact (Forall2_lookup_l _ _ _ _ _ HF Hp)).
  constructor; try assumption.
  - rewrite <- (Forall2_length _ _ _ HF). exact T1.
  - intros i q Hq. destruct (HL i q Hq) as (p & Hp & Hs). eapply slot_ok_akin; eauto.
  - intros i j q q' Hi Hj. destruct (HL i q Hi) as (p & Hp & Hs), (HL j q' Hj) as (p' & Hp' & Hs').
    rewrite (akin_used _ _ Hs), (akin_used _ _ Hs'). destruct Hs as (_ & -> & _), Hs' as (_ & -> & _). eauto.
  - destruct T5 as (i & p & Ei & Hi & Ha). destruct (HR i p Hi) as (q & Hq & Hs). exists i, q. rewrite (akin_alive _ _ Hs). auto.
  - rewrite Ez. exact T6.
  - intros w n Hr. destruct (T9 w n Hr) as [|(i & p & Ei & Hi & Ew)]; [auto|]. right.
    destruct (HR i p Hi) as (q & Hq & Hs). exists i, q. destruct Hs as (_ & -> & _). auto.
Qed.

Lemma akin_insert t i p q : t !! i = Some p -> akin p q -> Forall2 akin t (<[i := q]> t).
Proof.
  intros Hi Hs. apply Forall2_same_length_lookup. split; [rewrite length_insert; reflexivity|].
  intros j x y Hx Hy. destruct (decide (i = j)) as [<-|Hne].
  - rewrite list_lookup_insert_eq in Hy by (apply lookup_lt_Some in Hi; exact Hi). simplify_eq. exact Hs.
  - rewrite list_lookup_insert_ne in Hy by exact Hne. simplify_eq. apply similar_refl.
Qed.

Lemma similar_insert t i p q : t !! i = Some p -> similar p q -> Forall2 similar t (<[i := q]> t).
Proof.
  intros Hi Hs. apply Forall2_same_length_lookup. split; [rewrite length_insert; reflexivity|].
  intros j x y Hx Hy. destruct (decide (i = j)) as [<-|Hne].
  - rewrite list_lookup_insert_eq in Hy by (apply lookup_lt_Some in Hi; exact Hi). simplify_eq. exact Hs.
  - rewrite list_lookup_insert_ne in Hy by exact Hne. simplify_eq. apply similar_refl.
Qed.

Lemma wait_ok_akin t t' i p : Forall2 akin t t' -> wait_ok t i p -> wait_ok t' i p.
Proof.
  intros HF (H1 & H2 & (j & q & Hj & Hq) & H4). split; [exact H1|]. split; [exact H2|]. split.
  - destruct (Forall2_lookup_l _ _ _ _ _ HF Hj) as (q' & Hj' & (_ & _ & E & _)). exists j, q'. rewrite E. auto.
  - intros k r' Hk Hr. destruct (Forall2_lookup_r _ _ _ _ _ HF Hk) as (r & Hk' & Hs).
    rewrite (akin_state _ _ ZOMBIE Hs) by auto. destruct Hs as (_ & _ & E & _). rewrite E in Hr. eauto.
Qed.

Lemma waits_akin t t' : Forall2 akin t t' -> waits t ->
  (forall i q, t' !! i = Some q -> state q = SLEEPING -> context q = InWait -> t !! i = Some q \/ wait_ok t i q) -> waits t'.
Proof.
  intros HF Hw HN i q Hq Hs Hc. apply (wait_ok_akin t _ _ _ HF). destruct (HN i q Hq Hs Hc) as [Hi|Hi]; [|exact Hi].
  exact (Hw i q Hi Hs Hc).
Qed.

Lemma runs_keep t t' l : length t' = length t -> runs t l ->
  (forall i p q, t !! i = Some p -> t' !! i = Some q -> state q = RUNNING <-> state p = RUNNING) -> runs t' l.
Proof.
  intros El [R1 R2 R3] HR. constructor; [| |exact R3].
  - intros i q Hq. destruct (lookup_lt_is_Some_2 t i) as [p Hp]; [apply lookup_lt_Some in Hq; lia|].
    rewrite (HR i p q Hp Hq). exact (R1 i p Hp).
  - intros c i Hc. apply lookup_lt_is_Some. rewrite El. apply lookup_lt_is_Some. eauto.
Qed.

Lemma lookup_insert_cases {A} (l : list A) i j x y : <[i := x]> l !! j = Some y -> j = i /\ y = x \/ j <> i /\ l !! j = Some y.
Proof.
  intros Hj. destruct (decide (i = j)) as [<-|Hne].
  - left. rewrite list_lookup_insert_eq in Hj by (apply lookup_lt_Some in Hj; rewrite length_insert in Hj; exact Hj). split; congruence.
  - rewrite list_lookup_insert_ne in Hj by exact Hne. auto.
Qed.

(** A process leaves its CPU. *)
Lemma runs_off t l c me q : runs t l -> l !! c = Some (Some me) -> state q <> RUNNING -> runs (<[me := q]> t) (<[c := None]> l).
Proof.
  intros [R1 R2 R3] Hc Hq. constructor.
  - intros i p Hp. apply lookup_insert_cases in Hp as [[-> ->]|[Hne Hp]].
    + split; [contradiction|]. intros (d & Hd). apply lookup_insert_cases in Hd as [[_ Hd]|[Hd Hd']]; [discriminate|].
      exfalso. exact (Hd (R3 _ _ _ Hd' Hc)).
    + rewrite (R1 i p Hp). split; intros (d & Hd).
      * exists d. rewrite list_lookup_insert_ne by (intros ->; congruence). exact Hd.
      * apply lookup_insert_cases in Hd as [[_ Hd]|[_ Hd]]; [discriminate|eauto].
  - intros d i Hd. apply lookup_insert_cases in Hd as [[_ Hd]|[_ Hd]]; [discriminate|].
    rewrite lookup_lt_is_Some, length_insert, <- lookup_lt_is_Some. eauto.
  - intros d d' i Hd Hd'. apply lookup_insert_cases in Hd as [[_ Hd]|[_ Hd]]; [discriminate|].
    apply lookup_insert_cases in Hd' as [[_ Hd']|[_ Hd']]; [discriminate|eauto].
Qed.

(** A process gets a CPU. *)
Lemma runs_on t l c i p q : runs t l -> l !! c = Some None -> t !! i = Some p -> state p <> RUNNING -> state q = RUNNING ->
  runs (<[i := q]> t) (<[c := Some i]> l).
Proof.
  intros [R1 R2 R3] Hc Hi Hp Hq. pose proof (lookup_lt_Some _ _ _ Hc) as Hl. pose proof (lookup_lt_Some _ _ _ Hi) as Hl'.
  assert (Hno : forall d, l !! d <> Some (Some i)) by (intros d Hd; apply Hp, (R1 i p Hi); eauto).
  constructor.
  - intros j r Hj. apply lookup_insert_cases in Hj as [[-> ->]|[Hne Hj]].
    + split; [|auto]. intros _. exists c. apply list_lookup_insert_eq, Hl.
    + rewrite (R1 j r Hj). split; intros (d & Hd).
      * exists d. rewrite list_lookup_insert_ne by (intros ->; congruence). exact Hd.
      * apply lookup_insert_cases in Hd as [[_ Hd]|[_ Hd]]; [congruence|eauto].
  - intros d j Hd. rewrite lookup_lt_is_Some, length_insert. apply lookup_insert_cases in Hd as [[_ Hd]|[_ Hd]]; [injection Hd as ->; exact Hl'|].
    apply lookup_lt_is_Some. eauto.
  - intros d d' j Hd Hd'. apply lookup_insert_cases in Hd as [[-> Hd]|[_ Hd]]; apply lookup_insert_cases in Hd' as [[-> Hd']|[_ Hd']];
      simplify_eq; first [reflexivity | exfalso; eapply Hno; eassumption | eauto].
Qed.

(** ** Events *)

Lemma exited_app ev ev' : exited (ev ++ ev') = exited ev ++ exited ev'.
Proof. apply omap_app. Qed.
Lemma reaped_app ev ev' : reaped (ev ++ ev') = reaped ev ++ reaped ev'.
Proof. apply omap_app. Qed.

Lemma parent_ok_events t init ev ev' i p : parent_ok t init ev i p -> parent_ok t init (ev ++ ev') i p.
Proof.
  unfold parent_ok. destruct (parent p); [|auto]. intros (Hi & Hne & q & Hq & Ha & Hf). split; [exact Hi|]. split; [exact Hne|].
  exists q. rewrite elem_of_app. tauto.
Qed.

Lemma tree_ran t np init ev i : tree t np init ev -> tree t np init (ev ++ [Ran i]).
Proof.
  intros [T1 T2 T3 T4 T5 T6 T7 T8 T9]. constructor; rewrite ?exited_app, ?reaped_app, ?app_nil_r; try assumption.
  - intros j p Hj. destruct (T3 j p Hj) as [S1 S2 S3 S4 S5 S6 S7 S8 S9]. constructor; rewrite ?exited_app, ?app_nil_r; auto.
    intros Hu. apply parent_ok_events. auto.
  - intros w n Hin. apply elem_of_app in Hin as [Hin|Hin]; [|apply list_elem_of_singleton in Hin; discriminate].
    destruct (T9 w n Hin) as [Hf|Hf]; [left; apply elem_of_app; auto|auto].
Qed.

(** ** A new process *)

(** What [allocproc] and [fork] may make of an unused slot. *)
Inductive filled (t : list proc) (np : Z) (ev : list event) (u : proc) : proc -> list event -> Prop :=
  | filled_none v : state v = UNUSED -> parent v = None -> ofile v = ofile u -> cwd v = cwd u -> filled t np ev u v ev
  | filled_child v me p : state v = RUNNABLE -> pid v = np -> kstack v <> 0 -> pgdir v <> 0 -> length (ofile v) = NOFILE ->
      parent v = Some me -> t !! me = Some p -> alive p -> context v = AtForkret ->
      filled t np ev u v (ev ++ [Forked (pid p) np]).

Lemma filled_events t np ev u v ev' : filled t np ev u v ev' ->
  exited ev' = exited ev /\ reaped ev' = reaped ev /\ (forall x, x ∈ ev -> x ∈ ev') /\ (forall w n, Reaped w n ∈ ev' -> Reaped w n ∈ ev).
Proof.
  intros [v'|v' me p]; [auto|]. rewrite exited_app, reaped_app, !app_nil_r. repeat split; auto.
  - intros x Hx. apply elem_of_app. auto.
  - intros w n Hx. apply elem_of_app in Hx as [Hx|Hx]; [exact Hx|]. apply list_elem_of_singleton in Hx. discriminate.
Qed.

Lemma not_alive_unused p : state p = UNUSED -> ~ alive p.
Proof. unfold alive. intros -> [?|[?|?]]; discriminate. Qed.

Lemma alive_used p : alive p -> used p.
Proof. intros Ha E. exact (not_alive_unused p E Ha). Qed.

Lemma dead_slot (t : list proc) i u q : t !! i = Some u -> state u = UNUSED -> t !! i = Some q -> alive q -> False.
Proof. intros H1 H2 H3 Ha. rewrite H1 in H3. injection H3 as ->. exact (not_alive_unused q H2 Ha). Qed.

Lemma filled_parent t np init ev i u v ev' j p : t !! i = Some u -> state u = UNUSED -> filled t np ev u v ev' ->
  parent_ok t init ev j p -> parent_ok (<[i := v]> t) init ev' j p.
Proof.
  intros Hi Hu Hf. destruct (filled_events _ _ _ _ _ _ Hf) as (_ & _ & Hin & _). unfold parent_ok.
  destruct (parent p) as [k|]; [|auto]. intros (H1 & H2 & q & Hq & Ha & Hk). split; [exact H1|]. split; [exact H2|].
  exists q. rewrite list_lookup_insert_ne by (intros <-; exact (dead_slot _ _ _ _ Hi Hu Hq Ha)).
  split; [exact Hq|]. split; [exact Ha|]. destruct Hk; auto.
Qed.

Lemma filled_slot t np init ev i u v ev' : tree t np init ev -> t !! i = Some u -> state u = UNUSED -> filled t np ev u v ev' ->
  slot_ok (<[i := v]> t) (np + 1) init ev' i v.
Proof.
  intros T Hi Hu Hf. pose proof (t_slot _ _ _ _ T i u Hi) as [S1 S2 S3 S4 S5 S6 S7 S8 S9]. pose proof (t_np _ _ _ _ T).
  destruct (filled_events _ _ _ _ _ _ Hf) as (Ee & _ & _ & _). pose proof (lookup_lt_Some _ _ _ Hi) as Hl.
  destruct Hf as [v E1 E2 E3 E4|v me p E1 E2 E3 E4 E5 E6 E7 E8].
  - assert (Hna : ~ alive v) by (apply not_alive_unused, E1). constructor; unfold used; rewrite ?E1, ?E3; auto; try congruence.
    intros _. unfold empty_handed. rewrite E3, E4. apply S8, not_alive_unused, Hu.
  - assert (Hne : me <> i) by (intros ->; exact (dead_slot _ _ _ _ Hi Hu E7 E8)).
    constructor; unfold used; rewrite ?E1, ?E2; auto; try congruence.
    + lia.
    + intros _. unfold parent_ok. rewrite E6. split.
      { intros Ei. destruct (t_init _ _ _ _ T) as (i' & q & Ei' & Hq & Ha). rewrite Ei in Ei'. injection Ei' as <-. exact (dead_slot _ _ _ _ Hi Hu Hq Ha). }
      split; [exact Hne|]. exists p. rewrite list_lookup_insert_ne by congruence. split; [exact E7|]. split; [exact E8|].
      left. apply elem_of_app. right. rewrite E2. left.
    + intros Hna. exfalso. apply Hna. unfold alive. auto.
    + intros _ Hin. rewrite Ee in Hin. pose proof (proj1 (Forall_forall _ _) (t_past _ _ _ _ T) _ Hin). cbn in *. lia.
Qed.

Lemma tree_fill t np init ev i u v ev' : tree t np init ev -> t !! i = Some u -> state u = UNUSED -> filled t np ev u v ev' ->
  tree (<[i := v]> t) (np + 1) init ev'.
Proof.
  intros T Hi Hu Hf. pose proof (filled_slot _ _ _ _ _ _ _ _ T Hi Hu Hf) as Hslot.
  destruct (filled_events _ _ _ _ _ _ Hf) as (Ee & Er & Hin & Hrp). destruct T as [T1 T2 T3 T4 T5 T6 T7 T8 T9].
  assert (Hpid : used v -> pid v = np) by (destruct Hf; unfold used; congruence).
  constructor; rewrite ?Ee, ?Er; try assumption.
  - rewrite length_insert. exact T1.
  - lia.
  - intros j p Hj. apply lookup_insert_cases in Hj as [[-> ->]|[Hne Hj]]; [exact Hslot|].
    destruct (T3 j p Hj) as [S1 S2 S3 S4 S5 S6 S7 S8 S9]. constructor; rewrite ?Ee; auto.
    + intros Hup. specialize (S3 Hup). lia.
    + intros Hup. eapply filled_parent; eauto.
  - intros j k p q Hj Hk Hup Huq Epq.
    apply lookup_insert_cases in Hj as [[-> ->]|[Hne Hj]]; apply lookup_insert_cases in Hk as [[-> ->]|[Hne' Hk]]; eauto; exfalso.
    + pose proof (s_pid _ _ _ _ _ _ (T3 _ _ Hk) Huq). specialize (Hpid Hup). lia.
    + pose proof (s_pid _ _ _ _ _ _ (T3 _ _ Hj) Hup). specialize (Hpid Huq). lia.
  - destruct T5 as (j & p & E1 & E2 & E3). exists j, p. split; [exact E1|]. rewrite list_lookup_insert_ne; [auto|].
    intros <-. exact (dead_slot _ _ _ _ Hi Hu E2 E3).
  - rewrite (total_add pzombie t i u v Hi) by (unfold pzombie; rewrite Hu; reflexivity).
    replace (pzombie v) with (∅ : gmultiset Z); [rewrite T6; multiset_solver|].
    unfold pzombie. destruct Hf as [v E1|v me p E1]; rewrite E1; reflexivity.
  - eapply Forall_impl; [exact T8|]. cbv beta. lia.
  - intros w n Hr. destruct (T9 w n (Hrp w n Hr)) as [Hw|(j & p & E1 & E2 & E3)]; [auto|]. right. exists j, p.
    split; [exact E1|]. rewrite list_lookup_insert_ne; [auto|]. intros <-.
    destruct T5 as (j' & p' & E1' & E2' & E3'). rewrite E1 in E1'. injection E1' as <-. exact (dead_slot _ _ _ _ Hi Hu E2' E3').
Qed.

(** ** A zombie is collected *)

Lemma not_alive_zombie p : state p = ZOMBIE -> ~ alive p.
Proof. unfold alive. intros -> [?|[?|?]]; discriminate. Qed.

Lemma tree_reap t np init ev me p i q r : tree t np init ev -> t !! me = Some p -> alive p ->
  t !! i = Some q -> state q = ZOMBIE -> parent q = Some me ->
  state r = UNUSED -> parent r = None -> ofile r = ofile q -> cwd r = cwd q ->
  tree (<[i := r]> t) np init (ev ++ [Reaped (pid p) (pid q)]).
Proof.
  intros [T1 T2 T3 T4 T5 T6 T7 T8 T9] Hme Hp Hi Hq Hpar Hr Hrp Ho Hc.
  assert (Hdead : forall x, t !! i = Some x -> ~ alive x) by (intros x Hx; rewrite Hi in Hx; injection Hx as <-; apply not_alive_zombie, Hq).
  assert (Hune : forall k x, t !! k = Some x -> alive x -> i <> k) by (intros k x Hx Ha ->; exact (Hdead x Hx Ha)).
  constructor; rewrite ?exited_app, ?reaped_app, ?app_nil_r; try assumption.
  - rewrite length_insert. exact T1.
  - intros j x Hj. apply lookup_insert_cases in Hj as [[-> ->]|[Hne Hj]].
    + destruct (T3 i q Hi) as [S1 S2 S3 S4 S5 S6 S7 S8 S9].
      assert (Hnu : ~ used r) by (unfold used; auto). constructor; unfold empty_handed; rewrite ?Ho, ?Hc; try contradiction; auto; try congruence.
      * intros _. apply S8, not_alive_zombie, Hq.
      * intros Ha. destruct (not_alive_unused r Hr Ha).
    + destruct (T3 j x Hj) as [S1 S2 S3 S4 S5 S6 S7 S8 S9]. constructor; rewrite ?exited_app, ?app_nil_r; auto.
      intros Hu. apply parent_ok_events. specialize (S6 Hu). unfold parent_ok in *. destruct (parent x) as [k|]; [|auto].
      destruct S6 as (A1 & A2 & y & Hy & Ha & Hf). split; [exact A1|]. split; [exact A2|]. exists y.
      rewrite list_lookup_insert_ne by (eapply Hune; eauto). auto.
  - intros j k x y Hj Hk Hx Hy. apply lookup_insert_cases in Hj as [[-> ->]|[Hne Hj]]; [contradiction|].
    apply lookup_insert_cases in Hk as [[-> ->]|[Hne' Hk]]; [contradiction|]. eauto.
  - destruct T5 as (j & x & E1 & E2 & E3). exists j, x. rewrite list_lookup_insert_ne by (eapply Hune; eauto). auto.
  - rewrite (total_del pzombie t i q r Hi) by (unfold pzombie; rewrite Hr; reflexivity).
    assert (Hz : pid q ∈ total pzombie t). { eapply total_elem; [exact Hi|]. unfold pzombie. rewrite Hq. cbn. multiset_solver. }
    replace (pzombie q) with ({[+ pid q +]} : gmultiset Z) by (unfold pzombie; rewrite Hq; reflexivity).
    rewrite T6, list_to_set_disj_app. cbn [reaped omap list_omap list_to_set_disj]. multiset_solver.
  - intros w n Hin. apply elem_of_app in Hin as [Hin|Hin].
    + destruct (T9 w n Hin) as [Hf|(j & x & E1 & E2 & E3)]; [left; apply elem_of_app; auto|]. right. exists j, x.
      destruct T5 as (j' & x' & E1' & E2' & E3'). rewrite E1 in E1'. injection E1' as <-.
      rewrite list_lookup_insert_ne by (exact (Hune _ _ E2' E3')). auto.
    + apply list_elem_of_singleton in Hin. injection Hin as -> ->.
      assert (Hu : used q) by (unfold used; congruence). pose proof (s_parent _ _ _ _ _ _ (T3 i q Hi) Hu) as Hp'.
      unfold parent_ok in Hp'. rewrite Hpar in Hp'. destruct Hp' as (_ & _ & y & Hy & _ & [Hf|Ei]); simplify_eq.
      * left. apply elem_of_app. auto.
      * right. exists me, p. rewrite list_lookup_insert_ne by (eapply Hune; eauto). auto.
Qed.

(** ** A process exits *)

(** What [exit] does to the other processes: children of [me] go to the first process, and some
    sleeping processes are woken. *)
Definition handed (me : nat) (init : option nat) (n : nat) (i : nat) (p q : proc) : Prop :=
  (state q = state p \/ state p = SLEEPING /\ state q = RUNNABLE) /\ pid q = pid p /\
  parent q = (if decide (parent p = Some me /\ (i < n)%nat) then init else parent p) /\
  kstack q = kstack p /\ pgdir q = pgdir p /\ ofile q = ofile p /\ cwd q = cwd p /\
  context q = context p /\ chan q = chan p /\ killed q = killed p.

Lemma handed_alive me init n i p q : handed me init n i p q -> alive q <-> alive p.
Proof. intros ([E|[E1 E2]] & _); unfold alive; [rewrite E; tauto|rewrite E1, E2; split; auto]. Qed.

Lemma handed_state me init n i p q x : handed me init n i p q -> x <> SLEEPING -> x <> RUNNABLE -> state q = x <-> state p = x.
Proof. intros ([E|[E1 E2]] & _) H1 H2; [rewrite E; tauto|rewrite E1, E2; split; congruence]. Qed.

Section exit.
Context (t t2 : list proc) (np : Z) (init : option nat) (ev : list event) (me : nat) (p q z : proc).
Context (T : tree t np init ev).
Context (Hlen : length t2 = length t).
Context (HH : forall i x y, t !! i = Some x -> t2 !! i = Some y -> handed me init NPROC i x y).
Context (Hme : t !! me = Some p) (Hq : t2 !! me = Some q) (Hp : alive p) (Hninit : init <> Some me) (Hempty : empty_handed p).
Context (Hz : state z = ZOMBIE) (Ez1 : pid z = pid q) (Ez2 : parent z = parent q) (Ez3 : kstack z = kstack q)
  (Ez4 : pgdir z = pgdir q) (Ez5 : ofile z = ofile q) (Ez6 : cwd z = cwd q).

Lemma exit_lookup i y : t2 !! i = Some y -> exists x, t !! i = Some x /\ handed me init NPROC i x y.
Proof.
  intros Hy. destruct (lookup_lt_is_Some_2 t i) as [x Hx]; [apply lookup_lt_Some in Hy; lia|]. eauto.
Qed.

Lemma exit_lookup_l i x : t !! i = Some x -> i <> me -> exists y, <[me := z]> t2 !! i = Some y /\ handed me init NPROC i x y.
Proof.
  intros Hx Hne. destruct (lookup_lt_is_Some_2 t2 i) as [y Hy]; [apply lookup_lt_Some in Hx; lia|].
  exists y. rewrite list_lookup_insert_ne by congruence. eauto.
Qed.

Lemma exit_below i x : t !! i = Some x -> (i < NPROC)%nat.
Proof. intros Hx. rewrite <- (t_len _ _ _ _ T). exact (lookup_lt_Some _ _ _ Hx). Qed.

(** Parents are still there. *)
Lemma exit_parent_ok i x y : t !! i = Some x -> handed me init NPROC i x y -> used x ->
  parent_ok (<[me := z]> t2) init (ev ++ [Exited (pid p)]) i y.
Proof.
  intros Hx Hh Hu. pose proof (s_parent _ _ _ _ _ _ (t_slot _ _ _ _ T i x Hx) Hu) as Hpo. unfold parent_ok in *.
  pose proof (exit_below _ _ Hx) as Hi. pose proof Hh as (_ & Epid & Epar & _). rewrite Epar, Epid. case_decide as Hd.
  - destruct Hd as [Ep _]. rewrite Ep in Hpo. destruct Hpo as (A1 & A2 & _).
    destruct (t_init _ _ _ _ T) as (j & w & Ei & Hj & Ha).
    destruct (exit_lookup_l j w Hj ltac:(congruence)) as (w' & Hw' & Hh').
    rewrite Ei. split; [congruence|]. split; [congruence|]. exists w'. rewrite (handed_alive _ _ _ _ _ _ Hh'). auto.
  - destruct (parent x) as [k|]; [|exact Hpo]. destruct Hpo as (A1 & A2 & w & Hw & Ha & Hf). split; [exact A1|]. split; [exact A2|].
    destruct (exit_lookup_l k w Hw ltac:(intros ->; apply Hd; auto)) as (w' & Hw' & Hh'). exists w'.
    rewrite (handed_alive _ _ _ _ _ _ Hh'). split; [exact Hw'|]. split; [exact Ha|]. destruct Hh' as (_ & -> & _).
    destruct Hf as [Hf|Hf]; [left; apply elem_of_app; auto|auto].
Qed.

Lemma handed_slot i x y : t !! i = Some x -> handed me init NPROC i x y -> i <> me ->
  slot_ok (<[me := z]> t2) np init (ev ++ [Exited (pid p)]) i y.
Proof.
  intros Hx Hh Hne. destruct (t_slot _ _ _ _ T i x Hx) as [S1 S2 S3 S4 S5 S6 S7 S8 S9].
  pose proof Hh as (_ & E1 & E2 & E3 & E4 & E5 & E6 & _).
  assert (Hus : used y <-> used x) by (unfold used; rewrite (handed_state _ _ _ _ _ _ UNUSED Hh) by discriminate; tauto).
  constructor; rewrite ?Hus, ?(handed_alive _ _ _ _ _ _ Hh), ?E1, ?E3, ?E4, ?E5; auto.
  - rewrite (handed_state _ _ _ _ _ _ EMBRYO Hh) by discriminate. exact S1.
  - intros Hu. eapply exit_parent_ok; eauto.
  - rewrite (handed_state _ _ _ _ _ _ UNUSED Hh) by discriminate. intros Hs. rewrite E2, (S7 Hs). rewrite decide_False by (intros [? _]; discriminate). reflexivity.
  - unfold empty_handed. rewrite E5, E6. exact S8.
  - intros Ha. rewrite exited_app. intros Hin. apply elem_of_app in Hin as [Hin|Hin]; [exact (S9 Ha Hin)|].
    apply list_elem_of_singleton in Hin. apply Hne. exact (t_uniq _ _ _ _ T _ _ _ _ Hx Hme (alive_used _ Ha) (alive_used _ Hp) Hin).
Qed.

Lemma zombie_slot : slot_ok (<[me := z]> t2) np init (ev ++ [Exited (pid p)]) me z.
Proof.
  pose proof (HH me p q Hme Hq) as Hh. pose proof Hh as (_ & E1 & E2 & E3 & E4 & E5 & E6 & _).
  destruct (t_slot _ _ _ _ T me p Hme) as [S1 S2 S3 S4 S5 S6 S7 S8 S9]. pose proof (alive_used _ Hp) as Hu.
  constructor; rewrite ?Hz, ?Ez1, ?Ez3, ?Ez4, ?Ez5, ?E1, ?E3, ?E4, ?E5; auto; try discriminate.
  - intros _. pose proof (exit_parent_ok me p q Hme Hh Hu) as Hpo. unfold parent_ok in *. rewrite Ez1, Ez2. exact Hpo.
  - intros _. unfold empty_handed in *. rewrite Ez5, Ez6, E5, E6. exact Hempty.
  - intros Ha. destruct (not_alive_zombie z Hz Ha).
Qed.

Lemma exit_zombies : total pzombie (<[me := z]> t2) = total pzombie t ⊎ {[+ pid p +]}.
Proof.
  pose proof (HH me p q Hme Hq) as Hh. rewrite (total_add pzombie t2 me q z Hq).
  - f_equal.
    + symmetry. apply total_same, Forall2_same_length_lookup. split; [congruence|]. intros i x y Hx Hy.
      pose proof (HH i x y Hx Hy) as Hh'. pose proof Hh' as (_ & Ey & _). unfold pzombie. rewrite Ey. apply decide_iff. symmetry.
      apply (handed_state _ _ _ _ _ _ ZOMBIE Hh'); discriminate.
    + unfold pzombie. rewrite Hz, Ez1. destruct Hh as (_ & -> & _). reflexivity.
  - unfold pzombie. rewrite decide_False; [reflexivity|]. rewrite (handed_state _ _ _ _ _ _ ZOMBIE Hh) by discriminate.
    intros E'. exact (not_alive_zombie p E' Hp).
Qed.

Lemma tree_exit : tree (<[me := z]> t2) np init (ev ++ [Exited (pid p)]).
Proof.
  pose proof zombie_slot as Hzs. pose proof exit_zombies as Hzz. pose proof (HH me p q Hme Hq) as (_ & Epq & _).
  assert (Hpid : forall i y, <[me := z]> t2 !! i = Some y -> exists x, t !! i = Some x /\ pid y = pid x /\ (used y -> used x)).
  { intros i y Hy. apply lookup_insert_cases in Hy as [[-> ->]|[Hne Hy]].
    - exists p. split; [exact Hme|]. split; [congruence|]. intros _. exact (alive_used _ Hp).
    - destruct (exit_lookup i y Hy) as (x & Hx & Hh). exists x. split; [exact Hx|]. split; [apply Hh|].
      unfold used. rewrite (handed_state _ _ _ _ _ _ UNUSED Hh) by discriminate. auto. }
  pose proof T as [T1 T2 T3 T4 T5 T6 T7 T8 T9]. constructor; rewrite ?exited_app, ?reaped_app, ?app_nil_r; try assumption.
  - rewrite length_insert, Hlen. exact T1.
  - intros i y Hy. apply lookup_insert_cases in Hy as [[-> ->]|[Hne Hy]]; [exact Hzs|].
    destruct (exit_lookup i y Hy) as (x & Hx & Hh). eapply handed_slot; eauto.
  - intros i j x y Hi Hj Hx Hy Exy. destruct (Hpid i x Hi) as (x' & Hi' & Ex & Hux), (Hpid j y Hj) as (y' & Hj' & Ey & Huy).
    apply (T4 i j x' y' Hi' Hj' (Hux Hx) (Huy Hy)). congruence.
  - destruct T5 as (i & x & E1 & E2 & E3). destruct (exit_lookup_l i x E2 ltac:(congruence)) as (y & Hy & Hh).
    exists i, y. rewrite (handed_alive _ _ _ _ _ _ Hh). auto.
  - rewrite Hzz, list_to_set_disj_app, T6. cbn [exited omap list_omap list_to_set_disj]. multiset_solver.
  - apply NoDup_app. split; [exact T7|]. split; [|apply NoDup_singleton]. intros n Hn Hn'.
    apply list_elem_of_singleton in Hn'. subst n. exact (s_exited _ _ _ _ _ _ (T3 me p Hme) Hp Hn).
  - apply Forall_app. split; [exact T8|]. constructor; [|constructor]. apply (s_pid _ _ _ _ _ _ (T3 me p Hme)), alive_used, Hp.
  - intros w n Hin. apply elem_of_app in Hin as [Hin|Hin]; [|apply list_elem_of_singleton in Hin; discriminate].
    destruct (T9 w n Hin) as [Hf|(i & x & E1 & E2 & E3)]; [left; apply elem_of_app; auto|]. right.
    destruct (exit_lookup_l i x E2 ltac:(congruence)) as (y & Hy & (_ & Ey & _)). exists i, y. rewrite Ey. auto.
Qed.
End exit.
End ProcFacts.
