(* ===== verification/ProcSteps.v ===== *)
(** The steps that the operations of proc.c are made of, and what they do to the invariant of the process table. *)

From stdpp Require Import gmultiset.
From S2P Require Import Prelude Spinlock Proc ProcInv.

Module ProcSteps.
Import Spinlock Proc ProcFacts.

Section steps.
Context {E : Type} `{ServicesSpec E}.

(** ** The whole invariant, and how it changes *)

Record core (t : list proc) (np : Z) (init : option nat) (ev : list event) (e : E) (l : list (option nat)) : Prop := {
  k_tree : tree t np init ev;
  k_rep : rep e (holdings t);
  k_waits : waits t;
  k_contexts : contexts t;
  k_runs : runs t l;
}.

Lemma core_env t np init ev e e' l : core t np init ev e l -> rep e' (holdings t) -> core t np init ev e' l.
Proof. intros [C1 C2 C3 C4 C5] Hr. constructor; assumption. Qed.

Lemma core_ran t np init ev e l i : core t np init ev e l -> core t np init (ev ++ [Ran i]) e l.
Proof. intros [C1 C2 C3 C4 C5]. constructor; try assumption. apply tree_ran, C1. Qed.

Lemma core_akin t t' np init ev e e' l l' : core t np init ev e l -> Forall2 akin t t' -> rep e' (holdings t') ->
  (forall i q, t' !! i = Some q -> state q = SLEEPING -> context q = InWait -> t !! i = Some q \/ wait_ok t i q) ->
  contexts t' -> runs t' l' -> core t' np init ev e' l'.
Proof.
  intros [C1 C2 C3 C4 C5] HF Hr' Hw Hc Hr. constructor; try assumption.
  - exact (tree_akin _ _ _ _ _ HF C1).
  - exact (waits_akin _ _ HF C3 Hw).
Qed.

Lemma core_similar t t' np init ev e l l' : core t np init ev e l -> Forall2 similar t t' ->
  (forall i q, t' !! i = Some q -> state q = SLEEPING -> context q = InWait -> t !! i = Some q \/ wait_ok t i q) ->
  contexts t' -> runs t' l' -> core t' np init ev e l'.
Proof.
  intros C HF. apply (core_akin t _ _ _ _ e _ l); [exact C|exact (similar_akin _ _ HF)|]. rewrite (similar_holdings _ _ HF). apply C.
Qed.

Lemma contexts_insert t i p q : contexts t -> t !! i = Some p -> (context q = InExit -> alive q -> False) -> contexts (<[i := q]> t).
Proof. intros Hc Hi Hq j x Hj Ha Ex. apply lookup_insert_cases in Hj as [[-> ->]|[_ Hj]]; [eauto|exact (Hc j x Hj Ha Ex)]. Qed.

(** The references of a process change. *)
Lemma core_files t np init ev e e' l i p q : core t np init ev e l -> t !! i = Some p -> akin p q -> state q = state p ->
  state p <> SLEEPING -> context q = context p -> rep e' (holdings (<[i := q]> t)) -> core (<[i := q]> t) np init ev e' l.
Proof.
  intros C Hi Hs Hst Hns Hx Hr. apply (core_akin t _ _ _ _ e _ l _ C); [exact (akin_insert _ _ _ _ Hi Hs)|exact Hr|..].
  - intros j x Hj Hsj Hcj. apply lookup_insert_cases in Hj as [[-> ->]|[_ Hj]]; [congruence|auto].
  - apply (contexts_insert t i p); [apply C|exact Hi|]. rewrite Hx. intros Ex Ha. rewrite (akin_alive _ _ Hs) in Ha.
    exact (k_contexts _ _ _ _ _ _ C i p Hi Ha Ex).
  - apply (runs_keep t); [apply length_insert|apply C|]. intros j x y Hj Hy.
    apply lookup_insert_cases in Hy as [[-> ->]|[_ Hy]]; [rewrite Hi in Hj; injection Hj as <-; rewrite Hst; tauto|]. rewrite Hy in Hj. injection Hj as <-. tauto.
Qed.

(** One process changes and keeps its place. *)
Lemma core_slot t np init ev e l i p q : core t np init ev e l -> t !! i = Some p -> similar p q ->
  (state q = RUNNING <-> state p = RUNNING) ->
  (state q = SLEEPING -> context q = InWait -> wait_ok t i q) -> (alive q -> context q <> InExit) ->
  core (<[i := q]> t) np init ev e l.
Proof.
  intros C Hi Hs Hr Hw Hx. apply (core_similar t _ _ _ _ _ l _ C).
  - exact (similar_insert _ _ _ _ Hi Hs).
  - intros j x Hj Hsj Hcj. apply lookup_insert_cases in Hj as [[-> ->]|[_ Hj]]; auto.
  - apply (contexts_insert t i p); [apply C|exact Hi|]. intros Ex Ha. exact (Hx Ha Ex).
  - apply (runs_keep t); [apply length_insert|apply C|]. intros j x y Hj Hy.
    apply lookup_insert_cases in Hy as [[-> ->]|[_ Hy]]; [rewrite Hi in Hj; injection Hj as <-; exact Hr|]. rewrite Hy in Hj. injection Hj as <-. tauto.
Qed.

Lemma core_off t np init ev e l c me p q : core t np init ev e l -> l !! c = Some (Some me) -> t !! me = Some p -> similar p q ->
  state q <> RUNNING -> (state q = SLEEPING -> context q = InWait -> wait_ok t me q) -> context q <> InExit ->
  core (<[me := q]> t) np init ev e (<[c := None]> l).
Proof.
  intros C Hc Hi Hs Hr Hw Hx. apply (core_similar t _ _ _ _ _ l _ C).
  - exact (similar_insert _ _ _ _ Hi Hs).
  - intros j x Hj Hsj Hcj. apply lookup_insert_cases in Hj as [[-> ->]|[_ Hj]]; auto.
  - apply (contexts_insert t me p); [apply C|exact Hi|contradiction].
  - apply runs_off; [apply C|exact Hc|exact Hr].
Qed.

Lemma core_on t np init ev e l c i p : core t np init ev e l -> l !! c = Some None -> t !! i = Some p -> state p = RUNNABLE ->
  core (<[i := set_state RUNNING p]> t) np init ev e (<[c := Some i]> l).
Proof.
  intros C Hc Hi Hs. assert (Ha : alive p) by (unfold alive; auto). apply (core_similar t _ _ _ _ _ l _ C).
  - apply (similar_insert _ _ _ _ Hi). apply similar_intro; try reflexivity. right. split; [exact Ha|unfold alive; cbn; auto].
  - intros j x Hj Hsj Hcj. apply lookup_insert_cases in Hj as [[-> ->]|[_ Hj]]; [discriminate|auto].
  - apply (contexts_insert t i p); [apply C|exact Hi|]. cbn. intros Ex _. exact (k_contexts _ _ _ _ _ _ C i p Hi Ha Ex).
  - apply (runs_on t l c i p); [apply C|exact Hc|exact Hi|congruence|reflexivity].
Qed.

Definition wake (ch : option chan_t) (p : proc) : proc := if decide (state p = SLEEPING /\ chan p = ch) then set_state RUNNABLE p else p.

Lemma wake_similar ch p : similar p (wake ch p).
Proof.
  unfold wake. case_decide as Hd; [|apply similar_refl]. apply similar_intro; try reflexivity. right. unfold alive. cbn. tauto.
Qed.

Lemma core_wake t np init ev e l ch : core t np init ev e l -> core (wake ch <$> t) np init ev e l.
Proof.
  intros C. apply (core_similar t _ _ _ _ _ l _ C).
  - apply Forall2_fmap_r, Forall2_same_length_lookup. split; [reflexivity|]. intros i x y Hx Hy. rewrite Hx in Hy. injection Hy as <-. apply wake_similar.
  - intros i q Hq Hs _. left. rewrite list_lookup_fmap in Hq. destruct (t !! i) as [p|]; [|discriminate]. injection Hq as <-.
    unfold wake in *. case_decide; [discriminate|reflexivity].
  - intros i q Hq Ha. rewrite list_lookup_fmap in Hq. destruct (t !! i) as [p|] eqn:Hp; [|discriminate]. injection Hq as <-.
    rewrite (akin_alive _ _ (proj1 (wake_similar ch p))) in Ha. pose proof (k_contexts _ _ _ _ _ _ C i p Hp Ha). unfold wake. case_decide; assumption.
  - apply (runs_keep t); [apply length_fmap|apply C|]. intros i p q Hp Hq. rewrite list_lookup_fmap, Hp in Hq. injection Hq as <-.
    unfold wake. case_decide as Hd; [|tauto]. destruct Hd as [Hd _]. cbn. split; congruence.
Qed.

Lemma waits_fill t i u v np ev ev' : waits t -> t !! i = Some u -> state u = UNUSED -> parent u = None -> filled t np ev u v ev' ->
  (forall me p, parent v = Some me -> t !! me = Some p -> state p = RUNNING) -> waits (<[i := v]> t).
Proof.
  intros Hw Hi Hu Hpu Hf Hme j q Hj Hs Hc. apply lookup_insert_cases in Hj as [[-> ->]|[Hne Hj]].
  { destruct Hf as [v E1|v me p E1]; rewrite E1 in Hs; discriminate. }
  destruct (Hw j q Hj Hs Hc) as (A1 & A2 & (k & x & Hk & Hx) & A4). split; [exact A1|]. split; [exact A2|]. split.
  - exists k, x. rewrite list_lookup_insert_ne; [auto|]. intros <-. rewrite Hi in Hk. injection Hk as ->. congruence.
  - intros k' y Hk' Hy. apply lookup_insert_cases in Hk' as [[-> ->]|[_ Hk']]; [|eauto].
    specialize (Hme _ _ Hy Hj). congruence.
Qed.

(** A slot is filled, or its allocation is given up. *)
Lemma core_fill t np init ev e e' l i u v ev' : core t np init ev e l -> t !! i = Some u -> state u = UNUSED -> filled t np ev u v ev' ->
  (forall me p, parent v = Some me -> t !! me = Some p -> state p = RUNNING) -> rep e' (holdings (<[i := v]> t)) ->
  core (<[i := v]> t) (np + 1) init ev' e' l.
Proof.
  intros [C1 C2 C3 C4 C5] Hi Hu Hf Hme Hr. constructor; try assumption.
  - exact (tree_fill _ _ _ _ _ _ _ _ C1 Hi Hu Hf).
  - eapply waits_fill; eauto. apply (t_slot _ _ _ _ C1 i u Hi). exact Hu.
  - apply (contexts_insert t i u); [exact C4|exact Hi|]. destruct Hf as [v E1|v me p E1 E2 E3 E4 E5 E6 E7 E8 E9]; [|congruence].
    intros _ Ha. exact (not_alive_unused _ E1 Ha).
  - apply (runs_keep t); [apply length_insert|exact C5|]. intros j x y Hj Hy. apply lookup_insert_cases in Hy as [[-> ->]|[_ Hy]].
    + rewrite Hi in Hj. injection Hj as <-. rewrite Hu. destruct Hf as [v E1|v me p E1]; rewrite E1; split; discriminate.
    + rewrite Hy in Hj. injection Hj as <-. tauto.
Qed.

Lemma core_reap t np init ev e e' l me p i q r : core t np init ev e l -> t !! me = Some p -> state p = RUNNING ->
  t !! i = Some q -> state q = ZOMBIE -> parent q = Some me ->
  state r = UNUSED -> parent r = None -> ofile r = ofile q -> cwd r = cwd q -> rep e' (holdings (<[i := r]> t)) ->
  core (<[i := r]> t) np init (ev ++ [Reaped (pid p) (pid q)]) e' l.
Proof.
  intros [C1 C2 C3 C4 C5] Hme Hp Hi Hq Hpar Hr Hrp Ho Hc Hrep. constructor; try assumption.
  - eapply tree_reap; eauto. unfold alive. auto.
  - intros j x Hj Hs Hx. apply lookup_insert_cases in Hj as [[-> ->]|[Hne Hj]]; [congruence|].
    destruct (C3 j x Hj Hs Hx) as (A1 & A2 & (k & y & Hk & Hy) & A4). split; [exact A1|]. split; [exact A2|]. split.
    + exists k, y. rewrite list_lookup_insert_ne; [auto|]. intros <-. rewrite Hi in Hk. injection Hk as <-. congruence.
    + intros k' y' Hk' Hy'. apply lookup_insert_cases in Hk' as [[-> ->]|[_ Hk']]; [congruence|eauto].
  - apply (contexts_insert t i q); [exact C4|exact Hi|]. intros _ Ha. exact (not_alive_unused _ Hr Ha).
  - apply (runs_keep t); [apply length_insert|exact C5|]. intros j x y Hj Hy. apply lookup_insert_cases in Hy as [[-> ->]|[_ Hy]].
    + rewrite Hi in Hj. injection Hj as <-. rewrite Hr, Hq. split; discriminate.
    + rewrite Hy in Hj. injection Hj as <-. tauto.
Qed.

Lemma exit_holdings t t2 init me p q z : length t2 = length t ->
  (forall i x y, t !! i = Some x -> t2 !! i = Some y -> handed me init NPROC i x y) ->
  t !! me = Some p -> t2 !! me = Some q -> alive p -> state z = ZOMBIE ->
  kstack z = kstack q -> pgdir z = pgdir q -> ofile z = ofile q -> cwd z = cwd q ->
  holdings (<[me := z]> t2) = holdings t.
Proof.
  intros Hlen HH Hme Hq Hp Hz E1 E2 E3 E4. pose proof (HH me p q Hme Hq) as Hh.
  assert (Huq : state q <> UNUSED) by (rewrite (handed_state _ _ _ _ _ _ UNUSED Hh) by discriminate; exact (alive_used _ Hp)).
  assert (HF : forall {A} `{Countable A} (f : proc -> gmultiset A), f z = f q ->
    (forall i x y, handed me init NPROC i x y -> f x = f y) -> total f (<[me := z]> t2) = total f t).
  { intros A EqA CA f Ef Hf. rewrite (total_keep f t2 me q z Hq Ef). symmetry. apply total_same, Forall2_same_length_lookup.
    split; [congruence|]. intros i x y Hx Hy. exact (Hf i x y (HH i x y Hx Hy)). }
  unfold holdings. f_equal; apply HF; unfold pstack, pdir, pfiles, pinode.
  - rewrite Hz, E1, !decide_False by congruence. reflexivity.
  - intros i x y Hxy. pose proof Hxy as (_ & _ & _ & -> & _). apply decide_iff. symmetry. apply (handed_state _ _ _ _ _ _ UNUSED Hxy); discriminate.
  - rewrite Hz, E2, !decide_False by congruence. reflexivity.
  - intros i x y Hxy. pose proof Hxy as (_ & _ & _ & _ & -> & _). apply decide_iff. symmetry. apply (handed_state _ _ _ _ _ _ UNUSED Hxy); discriminate.
  - rewrite E3. reflexivity.
  - intros i x y (_ & _ & _ & _ & _ & -> & _). reflexivity.
  - rewrite E4. reflexivity.
  - intros i x y (_ & _ & _ & _ & _ & _ & -> & _). reflexivity.
Qed.

(** A sleeping parent, and the first process when it gets a zombie, have been woken. *)
Definition woken (init : option nat) (me : nat) (p : proc) (t t2 : list proc) (n : nat) : Prop :=
  (forall i y, t2 !! i = Some y -> state y = SLEEPING -> chan y <> ChProc <$> parent p) /\
  (forall j x, t !! j = Some x -> (j < n)%nat -> parent x = Some me -> state x = ZOMBIE ->
    forall i y, t2 !! i = Some y -> state y = SLEEPING -> chan y <> ChProc <$> init).

Lemma exit_waits t t2 init me p z : length t2 = length t -> length t = NPROC ->
  (forall i x y, t !! i = Some x -> t2 !! i = Some y -> handed me init NPROC i x y) ->
  waits t -> t !! me = Some p -> parent p <> Some me -> state p = RUNNING -> woken init me p t t2 NPROC ->
  state z = ZOMBIE -> parent z = parent p -> waits (<[me := z]> t2).
Proof.
  intros Hlen Hlt HH Hw Hme Hnp Hrun [W1 W2] Hz Hpz i y Hy Hs Hc.
  apply lookup_insert_cases in Hy as [[-> ->]|[Hne Hy]]; [congruence|].
  destruct (lookup_lt_is_Some_2 t i) as [x Hx]; [apply lookup_lt_Some in Hy; lia|].
  destruct (HH i x y Hx Hy) as (Hst & _ & _ & _ & _ & _ & _ & Ec & Ech & Ek).
  assert (Hsx : state x = SLEEPING) by (destruct Hst as [E1|[_ E2]]; congruence).
  destruct (Hw i x Hx Hsx ltac:(congruence)) as (A1 & A2 & (k & w & Hk & Hwp) & A4).
  split; [congruence|]. split; [congruence|]. split.
  - destruct (decide (k = me)) as [->|Hkm].
    + exists me, z. rewrite Hk in Hme. injection Hme as ->. rewrite Hpz. rewrite list_lookup_insert_eq by (apply lookup_lt_Some in Hk; lia). auto.
    + destruct (lookup_lt_is_Some_2 t2 k) as [w' Hw']; [apply lookup_lt_Some in Hk; lia|].
      exists k, w'. rewrite list_lookup_insert_ne by congruence. split; [exact Hw'|]. destruct (HH k w w' Hk Hw') as (_ & _ & -> & _).
      rewrite decide_False; [exact Hwp|]. intros [E' _]. rewrite Hwp in E'. injection E' as ->. congruence.
  - intros j w' Hj Hpw Hzw. apply lookup_insert_cases in Hj as [[-> ->]|[Hjm Hj]].
    { apply (W1 i y Hy Hs). rewrite <- Hpz, Hpw. cbn. congruence. }
    destruct (lookup_lt_is_Some_2 t j) as [v Hv]; [apply lookup_lt_Some in Hj; lia|]. pose proof (HH j v w' Hv Hj) as Hh.
    assert (Hzv : state v = ZOMBIE) by (apply (handed_state _ _ _ _ _ _ ZOMBIE Hh); [discriminate..|exact Hzw]).
    destruct Hh as (_ & _ & Epar & _). rewrite Epar in Hpw. case_decide as Hd; [|exact (A4 j v Hv Hpw Hzv)].
    apply (W2 j v Hv (proj2 Hd) (proj1 Hd) Hzv i y Hy Hs). rewrite Hpw. cbn. congruence.
Qed.

Lemma core_exit t t2 np init ev e l c me p q z : core t np init ev e l -> length t2 = length t ->
  (forall i x y, t !! i = Some x -> t2 !! i = Some y -> handed me init NPROC i x y) ->
  l !! c = Some (Some me) -> t !! me = Some p -> t2 !! me = Some q -> init <> Some me -> empty_handed p ->
  woken init me p t t2 NPROC ->
  state z = ZOMBIE -> pid z = pid q -> parent z = parent q -> kstack z = kstack q -> pgdir z = pgdir q -> ofile z = ofile q -> cwd z = cwd q ->
  core (<[me := z]> t2) np init (ev ++ [Exited (pid p)]) e (<[c := None]> l).
Proof.
  intros [C1 C2 C3 C4 C5] Hlen HH Hc Hme Hq Hni Hem Hwk Hz E1 E2 E3 E4 E5 E6.
  assert (Hrun : state p = RUNNING) by (apply (r_on _ _ C5 me p Hme); eauto). assert (Ha : alive p) by (unfold alive; auto).
  assert (Hnp : parent p <> Some me).
  { intros Ep. pose proof (s_parent _ _ _ _ _ _ (t_slot _ _ _ _ C1 me p Hme) (alive_used _ Ha)) as Hpo. unfold parent_ok in Hpo. rewrite Ep in Hpo. tauto. }
  assert (Hpz : parent z = parent p).
  { rewrite E2. destruct (HH me p q Hme Hq) as (_ & _ & -> & _). rewrite decide_False; [reflexivity|tauto]. }
  constructor.
  - apply (tree_exit t t2 np init ev me p q z); assumption.
  - rewrite (exit_holdings t t2 init me p q z); assumption.
  - apply (exit_waits t t2 init me p z); auto. apply C1.
  - apply (contexts_insert t2 me q); [|exact Hq|intros _ Hz'; exact (not_alive_zombie _ Hz Hz')].
    intros i y Hy Hay. destruct (lookup_lt_is_Some_2 t i) as [x Hx]; [apply lookup_lt_Some in Hy; lia|].
    pose proof (HH i x y Hx Hy) as Hh. rewrite (handed_alive _ _ _ _ _ _ Hh) in Hay. destruct Hh as (_ & _ & _ & _ & _ & _ & _ & -> & _). eauto.
  - apply runs_off; [|exact Hc|congruence]. apply (runs_keep t); [exact Hlen|exact C5|]. intros i x y Hx Hy.
    apply (handed_state _ _ _ _ _ _ RUNNING (HH i x y Hx Hy)); discriminate.
Qed.
End steps.
End ProcSteps.
