(* ===== verification/ProcRun.v ===== *)
(** Sleeping, waking, switching and the scheduler of proc.c: they return and keep the invariant, unless a call to another
    part of the kernel stops. *)

From stdpp Require Import gmultiset.
From S2P Require Import Prelude Spinlock Proc ProcInv ProcSteps.

Module ProcRun.
Import Spinlock Proc ProcFacts ProcSteps.

Section run.
Context {E : Type} `{ServicesSpec E}.
Abbreviation pstate := (@pstate E).

Definition procs (s : pstate) : list (option nat) := c_proc <$> cpus s.

Definition inv (s : pstate) : Prop := core (table s) (nextpid s) (initproc s) (events s) (env s) (procs s).
(** The invariant, CPU [c] being in its scheduler. *)
Definition off (c : nat) (s : pstate) : Prop :=
  core (table s) (nextpid s) (initproc s) (events s) (env s) (<[c := None]> (procs s)).

Definition unlocked (s : pstate) : Prop := locked (plock s) = 0 /\ Forall (fun k => ncli (c_cpu k) = 0) (cpus s).
Definition locked_by (c : nat) (s : pstate) : Prop := holding (Z.of_nat c) (plock s) = true /\
  exists k, cpus s !! c = Some k /\ ncli (c_cpu k) = 1 /\ fl_if (c_cpu k) = false /\
  forall d k', d <> c -> cpus s !! d = Some k' -> ncli (c_cpu k') = 0.

(** ** Steps of the programs *)

Record same (s s' : pstate) : Prop := {
  same_table : table s' = table s;
  same_nextpid : nextpid s' = nextpid s;
  same_initproc : initproc s' = initproc s;
  same_events : events s' = events s;
  same_env : env s' = env s;
  same_procs : procs s' = procs s;
}.

Lemma inv_same s s' : same s s' -> inv s -> inv s'.
Proof. intros [E1 E2 E3 E4 E5 E6] Hi; unfold inv; rewrite ?E1, ?E2, ?E3, ?E4, ?E5, ?E6; exact Hi. Qed.

Lemma wp_on_env {A} (f : K E A) Q (s : pstate) : wp f (fun a e => Q a (set_env e s)) (env s) -> wp (on_env f) Q s.
Proof. unfold wp, on_env. destruct (f (env s)) as [[a e]|?|?|]; auto. Qed.

Lemma wp_get_proc i p Q (s : pstate) : table s !! i = Some p -> Q p s -> wp (get_proc i) Q s.
Proof. intros Hi HQ. exact (wp_lift_opt _ _ _ _ _ Hi HQ). Qed.

Lemma wp_upd i f p (Q : unit -> pstate -> Prop) s : table s !! i = Some p -> Q tt (set_table (<[i := f p]> (table s)) s) -> wp (upd i f) Q s.
Proof. intros Hi HQ. apply wp_modify. rewrite (list_alter_lookup _ _ _ _ Hi). exact HQ. Qed.

Lemma wp_get_cpu c k Q (s : pstate) : cpus s !! c = Some k -> Q k s -> wp (get_cpu c) Q s.
Proof. intros Hc HQ. exact (wp_lift_opt _ _ _ _ _ Hc HQ). Qed.

Lemma lookup_procs s c x : procs s !! c = Some x -> exists k, cpus s !! c = Some k /\ c_proc k = x.
Proof. unfold procs. rewrite list_lookup_fmap. destruct (cpus s !! c) as [k|]; [|discriminate]. intros [= <-]. eauto. Qed.

Lemma wp_current c me Q s : procs s !! c = Some (Some me) -> Q me s -> wp (current c) Q s.
Proof.
  intros Hc HQ. destruct (lookup_procs _ _ _ Hc) as (k & Hk & Ek). apply wp_bind, (wp_get_cpu _ _ _ _ Hk).
  rewrite Ek. exact HQ.
Qed.

Lemma fmap_alter_keep {A B} (f : A -> B) (g : A -> A) c (l : list A) : (forall x, f (g x) = f x) -> f <$> alter g c l = f <$> l.
Proof.
  intros Hg. revert c. induction l as [|x l IH]; intros [|c]; [reflexivity..| |]; cbn; f_equal; auto.
Qed.

Lemma procs_put_cpu c k s : procs (set_cpus (alter (fun x => PCpu k (c_proc x)) c (cpus s)) s) = procs s.
Proof. unfold procs. cbn [cpus set_cpus]. apply fmap_alter_keep. reflexivity. Qed.

Lemma lookup_put_cpu c k x d (s : pstate) : cpus s !! c = Some x ->
  alter (fun x => PCpu k (c_proc x)) c (cpus s) !! d = if decide (d = c) then Some (PCpu k (c_proc x)) else cpus s !! d.
Proof.
  intros Hc. rewrite (list_alter_lookup _ _ _ _ Hc). destruct (decide (d = c)) as [->|Hne].
  - apply list_lookup_insert_eq. exact (lookup_lt_Some _ _ _ Hc).
  - apply list_lookup_insert_ne. congruence.
Qed.

Lemma holding_self c nm : holding c (Lock nm 1 (Some c)) = true.
Proof. unfold holding. cbn. rewrite bool_decide_eq_true_2; reflexivity. Qed.

Lemma wp_acquire c (Q : unit -> pstate -> Prop) s : unlocked s -> is_Some (cpus s !! c) ->
  (forall s', same s s' -> locked_by c s' -> Q tt s') -> wp (acquire_ptable c) Q s.
Proof.
  intros [Hl Hn] [k Hk] HQ. unfold acquire_ptable. apply wp_bind, (wp_get_cpu _ _ _ _ Hk). cbv beta iota; do 2 wp_step.
  apply wp_bind. eapply wp_lift_res; [apply acquire_free, Hl|]. cbv beta iota; do 2 wp_step. apply wp_modify, HQ.
  - constructor; try reflexivity. etransitivity; [apply procs_put_cpu|reflexivity].
  - split; [apply holding_self|]. exists (PCpu (pushcli (c_cpu k)) (c_proc k)). cbn [cpus set_cpus].
    change (cpus (set_lock _ s)) with (cpus s). rewrite (lookup_put_cpu _ _ _ _ _ Hk), decide_True by reflexivity.
    pose proof (Forall_lookup_1 _ _ _ _ Hn Hk) as Hk0. cbn in Hk0 |- *. rewrite Hk0. repeat split.
    intros d k' Hd. rewrite (lookup_put_cpu _ _ _ _ _ Hk), decide_False by exact Hd. intros Hk'. exact (Forall_lookup_1 _ _ _ _ Hn Hk').
Qed.

Lemma wp_release c (Q : unit -> pstate -> Prop) s : locked_by c s ->
  (forall s', same s s' -> unlocked s' -> Q tt s') -> wp (release_ptable c) Q s.
Proof.
  intros (Hh & k & Hk & Hn & Hf & Ho) HQ. unfold release_ptable. apply wp_bind, (wp_get_cpu _ _ _ _ Hk). cbv beta iota; do 2 wp_step. apply wp_bind.
  eapply wp_lift_res. { rewrite release_eq. unfold popcli. rewrite Hh, Hf, Hn. reflexivity. }
  cbv beta iota; do 2 wp_step. apply wp_modify, HQ.
  - constructor; try reflexivity. etransitivity; [apply procs_put_cpu|reflexivity].
  - split; [reflexivity|]. apply Forall_lookup. intros d k'. cbn [cpus set_cpus]. change (cpus (set_lock _ s)) with (cpus s).
    rewrite (lookup_put_cpu _ _ _ _ _ Hk). case_decide; [intros [= <-]; reflexivity|eauto].
Qed.

(** The interrupt state of CPU [c] changes under the lock. *)
Lemma locked_put c k x (s : pstate) : locked_by c s -> cpus s !! c = Some x -> ncli k = 1 -> fl_if k = false ->
  locked_by c (set_cpus (alter (fun x => PCpu k (c_proc x)) c (cpus s)) s).
Proof.
  intros (Hh & k0 & Hk & Hn & Hf & Ho) Hx En Ef. split; [exact Hh|]. exists (PCpu k (c_proc x)). cbn [cpus set_cpus].
  rewrite (lookup_put_cpu _ _ _ _ _ Hx), decide_True by reflexivity. repeat split; auto.
  intros d k' Hd. rewrite (lookup_put_cpu _ _ _ _ _ Hx), decide_False by exact Hd. eauto.
Qed.

Lemma same_put c k (s : pstate) : same s (set_cpus (alter (fun x => PCpu k (c_proc x)) c (cpus s)) s).
Proof. constructor; try reflexivity. apply procs_put_cpu. Qed.

Lemma wp_switchuvm c i p (Q : unit -> pstate -> Prop) s : locked_by c s -> table s !! i = Some p -> pgdir p <> 0 ->
  (forall s', same s s' -> locked_by c s' -> Q tt s') -> wp (switchuvm c i) Q s.
Proof.
  intros Hl Hi Hd HQ. pose proof Hl as (Hh & k & Hk & Hn & Hf & Ho). unfold switchuvm. apply wp_bind, (wp_get_cpu _ _ _ _ Hk).
  apply wp_bind, (wp_get_proc _ _ _ _ Hi). rewrite (proj2 (Z.eqb_neq _ _) Hd). apply wp_bind. eapply wp_lift_res.
  { unfold popcli, pushcli. rewrite Hn. reflexivity. }
  apply wp_modify, HQ; [apply same_put|]. apply (locked_put c _ k s Hl Hk); reflexivity.
Qed.

Lemma wp_restore c i p (Q : unit -> pstate -> Prop) s : locked_by c s -> table s !! i = Some p ->
  (forall s', same s s' -> locked_by c s' -> Q tt s') -> wp (restore_intena c i) Q s.
Proof.
  intros Hl Hi HQ. pose proof Hl as (Hh & k & Hk & Hn & Hf & Ho). unfold restore_intena. apply wp_bind, (wp_get_cpu _ _ _ _ Hk).
  apply wp_bind, (wp_get_proc _ _ _ _ Hi). apply wp_modify, HQ; [apply same_put|]. apply (locked_put c _ k s Hl Hk); assumption.
Qed.

(** None of the checks of [sched] panics. *)
Lemma wp_sched c me k q (Q : unit -> pstate -> Prop) s : locked_by c s -> table s !! me = Some q -> state q <> RUNNING ->
  (forall b, Q tt (set_table (<[me := set_context k b q]> (table s)) s)) -> wp (sched c me k) Q s.
Proof.
  intros (Hh & x & Hx & Hn & Hf & Ho) Hq Hr HQ. unfold sched. apply wp_bind, (wp_get_cpu _ _ _ _ Hx). cbv beta iota; do 2 wp_step.
  apply wp_bind, (wp_get_proc _ _ _ _ Hq). rewrite Hh, Hn, Hf. cbn [negb Z.eqb Pos.eqb]. rewrite decide_False by exact Hr.
  apply (wp_upd _ _ _ _ _ Hq), HQ.
Qed.

Lemma procs_put_proc c x s : procs (set_cpus (alter (fun k => PCpu (c_cpu k) x) c (cpus s)) s) = <[c := x]> (procs s).
Proof.
  unfold procs. cbn [cpus set_cpus]. generalize (cpus s). intros l. revert c. induction l as [|k l IH]; intros [|c]; [reflexivity..|].
  cbn. f_equal. apply IH.
Qed.

Lemma locked_put_proc c x (s : pstate) : locked_by c s -> locked_by c (set_cpus (alter (fun k => PCpu (c_cpu k) x) c (cpus s)) s).
Proof.
  intros (Hh & k & Hk & Hn & Hf & Ho). split; [exact Hh|]. exists (PCpu (c_cpu k) x). cbn [cpus set_cpus].
  rewrite (list_alter_lookup _ _ _ _ Hk), list_lookup_insert_eq by exact (lookup_lt_Some _ _ _ Hk). repeat split; auto.
  intros d k' Hd. rewrite list_lookup_insert_ne by congruence. eauto.
Qed.

Lemma locked_table c t (s : pstate) : locked_by c s -> locked_by c (set_table t s).
Proof. intros Hl. exact Hl. Qed.
Lemma locked_env c e (s : pstate) : locked_by c s -> locked_by c (set_env e s).
Proof. intros Hl. exact Hl. Qed.
Lemma locked_event c x (s : pstate) : locked_by c s -> locked_by c (add_event x s).
Proof. intros Hl. exact Hl. Qed.

(** ** What an operation of CPU [c] leaves alone *)

Definition runnable (s : pstate) (j : nat) : Prop := exists p, table s !! j = Some p /\ state p = RUNNABLE.
Definition ran_since (j : nat) (s s' : pstate) : Prop := exists evs, events s' = events s ++ evs /\ Ran j ∈ evs.

(** The other CPUs keep their processes, at most [n] identifiers are used, and a runnable process
    stays so until it runs. *)
Record keeps (c : nat) (n : Z) (s s' : pstate) : Prop := {
  kp_next : nextpid s <= nextpid s' <= nextpid s + n;
  kp_cpus : forall d, d <> c -> procs s' !! d = procs s !! d;
  kp_len : length (procs s') = length (procs s);
  kp_events : exists evs, events s' = events s ++ evs;
  kp_runnable : forall j, runnable s j -> ran_since j s s' \/ runnable s' j;
}.

Lemma ran_since_l j s1 s2 s3 : ran_since j s1 s2 -> (exists evs, events s3 = events s2 ++ evs) -> ran_since j s1 s3.
Proof.
  intros (evs & E1 & Hr) (evs' & E2). exists (evs ++ evs'). rewrite E2, E1, <- app_assoc. split; [reflexivity|]. apply elem_of_app. auto.
Qed.

Lemma ran_since_r j s1 s2 s3 : (exists evs, events s2 = events s1 ++ evs) -> ran_since j s2 s3 -> ran_since j s1 s3.
Proof.
  intros (evs' & E2) (evs & E1 & Hr). exists (evs' ++ evs). rewrite E1, E2, <- app_assoc. split; [reflexivity|]. apply elem_of_app. auto.
Qed.

Lemma keeps_trans c n m s1 s2 s3 : keeps c n s1 s2 -> keeps c m s2 s3 -> keeps c (n + m) s1 s3.
Proof.
  intros [A1 A2 A3 A4 A5] [B1 B2 B3 B4 B5]. constructor.
  - lia.
  - intros d Hd. rewrite B2, A2 by exact Hd. reflexivity.
  - congruence.
  - destruct A4 as (e1 & E1), B4 as (e2 & E2). exists (e1 ++ e2). rewrite E2, E1, app_assoc. reflexivity.
  - intros j Hj. destruct (A5 j Hj) as [Hr|Hr]; [left; exact (ran_since_l _ _ _ _ Hr B4)|].
    destruct (B5 j Hr) as [Hr'|Hr']; [left; exact (ran_since_r _ _ _ _ A4 Hr')|auto].
Qed.

(** [keeps] from what is visible of the state. *)
Lemma keeps_intro c s s' evs : nextpid s' = nextpid s -> procs s' = procs s -> events s' = events s ++ evs ->
  (forall j, runnable s j -> runnable s' j) -> keeps c 0 s s'.
Proof. intros E1 E2 E3 Hr. constructor; rewrite ?E1, ?E2; [lia|auto|reflexivity|eauto|auto]. Qed.

Lemma keeps_same c s s' : same s s' -> keeps c 0 s s'.
Proof.
  intros [E1 E2 E3 E4 E5 E6]. apply (keeps_intro c s s' []); [assumption..|rewrite app_nil_r; assumption|].
  unfold runnable. rewrite E1. auto.
Qed.

Lemma keeps_same_l c n s1 s2 s3 : same s1 s2 -> keeps c n s2 s3 -> keeps c n s1 s3.
Proof. intros Hs Hk. exact (keeps_trans c 0 n _ _ _ (keeps_same c _ _ Hs) Hk). Qed.

Lemma keeps_same_r c n s1 s2 s3 : keeps c n s1 s2 -> same s2 s3 -> keeps c n s1 s3.
Proof. intros Hk Hs. rewrite <- (Z.add_0_r n). exact (keeps_trans c n 0 _ _ _ Hk (keeps_same c _ _ Hs)). Qed.

(** The slot that changes was not runnable, or still is. *)
Lemma runnable_insert (s : pstate) i p q j : table s !! i = Some p -> (state p = RUNNABLE -> state q = RUNNABLE) -> runnable s j ->
  exists x, <[i := q]> (table s) !! j = Some x /\ state x = RUNNABLE.
Proof.
  intros Hi Hpq (x & Hx & Hs). destruct (decide (i = j)) as [<-|Hne].
  - exists q. rewrite list_lookup_insert_eq by exact (lookup_lt_Some _ _ _ Hi). split; [reflexivity|]. apply Hpq. congruence.
  - exists x. rewrite list_lookup_insert_ne by exact Hne. auto.
Qed.

(** ** wait *)

Lemma reap_holdings t i q r : t !! i = Some q -> state q = ZOMBIE -> state r = UNUSED -> ofile r = ofile q -> cwd r = cwd q ->
  holdings (<[i := r]> t) = del_dir (pgdir q) (del_stack (kstack q) (holdings t)).
Proof.
  intros Hi Hq Hr Ho Hc. unfold holdings, del_dir, del_stack. cbn [h_stacks h_dirs h_files h_inodes]. f_equal.
  - rewrite (total_del pstack t i q r Hi) by (unfold pstack; rewrite Hr; reflexivity). f_equal. unfold pstack. rewrite Hq. reflexivity.
  - rewrite (total_del pdir t i q r Hi) by (unfold pdir; rewrite Hr; reflexivity). f_equal. unfold pdir. rewrite Hq. reflexivity.
  - apply (total_keep pfiles t i q r Hi). unfold pfiles. rewrite Ho. reflexivity.
  - apply (total_keep pinode t i q r Hi). unfold pinode. rewrite Hc. reflexivity.
Qed.

Lemma held_stack t i q : t !! i = Some q -> state q <> UNUSED -> kstack q ∈ h_stacks (holdings t).
Proof.
  intros Hi Hu. apply (total_elem pstack t i q); [exact Hi|]. unfold pstack. rewrite decide_False by exact Hu. multiset_solver.
Qed.
Lemma held_dir t i q : t !! i = Some q -> state q <> UNUSED -> pgdir q ∈ h_dirs (holdings t).
Proof.
  intros Hi Hu. apply (total_elem pdir t i q); [exact Hi|]. unfold pdir. rewrite decide_False by exact Hu. multiset_solver.
Qed.

Lemma wp_reap me p i q s (Q : Z -> pstate -> Prop) c : inv s -> table s !! me = Some p -> state p = RUNNING ->
  table s !! i = Some q -> state q = ZOMBIE -> parent q = Some me -> locked_by c s ->
  (forall s', inv s' -> procs s' = procs s -> table s' !! me = Some p -> keeps c 0 s s' -> locked_by c s' -> Q (pid q) s') -> wp (reap me i) Q s.
Proof.
  intros Hinv Hme Hp Hi Hq Hpar Hl HQ. assert (Hu : state q <> UNUSED) by congruence. assert (Hne : i <> me) by congruence.
  unfold reap. apply wp_bind, (wp_get_proc _ _ _ _ Hme). apply wp_bind, (wp_get_proc _ _ _ _ Hi).
  apply wp_bind, wp_on_env. eapply wp_mono; [apply (kfree_spec _ _ _ (k_rep _ _ _ _ _ _ Hinv)), (held_stack _ _ _ Hi Hu)|].
  intros [] e1 He1. apply wp_bind, (wp_upd _ _ _ _ _ (Hi : table (set_env e1 s) !! i = Some q)).
  apply wp_bind, wp_on_env. cbn [env set_env set_table table]. eapply wp_mono; [apply (freevm_spec _ _ _ He1), (held_dir _ _ _ Hi Hu)|].
  intros [] e2 He2. pose proof (lookup_lt_Some _ _ _ Hi) as Hlt. apply wp_bind. eapply wp_upd.
  { cbn [set_env set_table table]. apply list_lookup_insert_eq, Hlt. }
  cbn [set_env set_table table]. rewrite list_insert_insert_eq. do 2 wp_step. apply wp_ret.
  set (r := set_state UNUSED _). apply HQ; try exact Hl.
  - apply (core_reap (table s) _ _ _ (env s) _ _ me p i q r); try assumption; try reflexivity.
    cbn [env set_env set_table add_event]. rewrite (reap_holdings _ i q r Hi Hq) by reflexivity. exact He2.
  - reflexivity.
  - cbn [table set_env set_table add_event]. rewrite list_lookup_insert_ne by exact Hne. exact Hme.
  - apply (keeps_intro c _ _ [Reaped (pid p) (pid q)]); try reflexivity. intros j Hj. apply (runnable_insert s i q r j Hi); [congruence|exact Hj].
Qed.

Lemma wp_wait_loop c me p s : inv s -> table s !! me = Some p -> state p = RUNNING -> locked_by c s ->
  forall l havekids, Forall (fun i => (i < NPROC)%nat) l ->
  wp (wait_loop me l havekids) (fun r s' =>
    match r.1 with
    | None => s' = s /\ (forall i q, i ∈ l -> table s !! i = Some q -> parent q = Some me -> state q <> ZOMBIE) /\
        (r.2 = true -> havekids = true \/ exists i q, table s !! i = Some q /\ parent q = Some me)
    | Some _ => inv s' /\ procs s' = procs s /\ table s' !! me = Some p /\ keeps c 0 s s' /\ locked_by c s'
    end) s.
Proof.
  intros Hinv Hme Hp Hl. induction l as [|i l IH]; intros hk Hall; cbn [wait_loop].
  - apply wp_ret. cbn [fst snd]. split; [reflexivity|]. split; [intros i q Hin; apply not_elem_of_nil in Hin; contradiction|auto].
  - apply Forall_cons in Hall as [Hi Hall]. destruct (lookup_lt_is_Some_2 (table s) i) as [q Hq].
    { rewrite (t_len _ _ _ _ (k_tree _ _ _ _ _ _ Hinv)). exact Hi. }
    apply wp_bind, (wp_get_proc _ _ _ _ Hq). destruct (decide (parent q <> Some me)) as [Hne|Hpar]; [|destruct (decide (state q = ZOMBIE)) as [Hz|Hz]].
    + eapply wp_mono; [apply IH, Hall|]. cbv beta. intros [[x|] hk'] s'; cbn [fst snd]; [auto|]. intros (-> & A1 & A2). split; [reflexivity|].
      split; [|exact A2]. intros j y Hj Hy Hpy. apply elem_of_cons in Hj as [->|Hj]; [congruence|eauto].
    + apply wp_bind. eapply wp_reap; eauto; [destruct (decide (parent q = Some me)); [assumption|contradiction]|]. intros s' A1 A2 A3 A4 A5. apply wp_ret. cbn [fst]. auto.
    + eapply wp_mono; [apply IH, Hall|]. cbv beta. intros [[x|] hk'] s'; cbn [fst snd]; [auto|]. intros (-> & A1 & A2). split; [reflexivity|]. split.
      * intros j y Hj Hy Hpy. apply elem_of_cons in Hj as [->|Hj]; [congruence|eauto].
      * intros _. right. exists i, q. split; [exact Hq|]. destruct (decide (parent q = Some me)); [assumption|contradiction].
Qed.

Lemma wp_wait_round c me p s : inv s -> table s !! me = Some p -> state p = RUNNING -> locked_by c s ->
  wp (wait_round me) (fun r s' =>
    match r with
    | Some _ => inv s' /\ procs s' = procs s /\ keeps c 0 s s' /\ locked_by c s'
    | None => let q := set_state SLEEPING (set_chan (Some (ChProc me)) p) in
        s' = set_table (<[me := q]> (table s)) s /\ forall k b, wait_ok (table s) me (set_context k b q)
    end) s.
Proof.
  intros Hinv Hme Hp Hl. unfold wait_round. apply wp_bind. eapply wp_mono.
  { apply (wp_wait_loop c me p s Hinv Hme Hp Hl (seq 0 NPROC) false). apply Forall_forall. intros i Hi. apply elem_of_seq in Hi. lia. }
  cbv beta. intros [[x|] hk] s'; cbn [fst snd].
  - intros (A1 & A2 & A3 & A4 & A5). apply wp_ret. auto.
  - intros (-> & A1 & A2). apply wp_bind, (wp_get_proc _ _ _ _ Hme). destruct (negb hk || killed p) eqn:Ek.
    + apply wp_ret. split; [exact Hinv|]. split; [reflexivity|]. split; [|exact Hl]. apply keeps_same. constructor; reflexivity.
    + apply Bool.orb_false_iff in Ek as [Eh Ek]. apply negb_false_iff in Eh. apply wp_bind, (wp_upd _ _ _ _ _ Hme), wp_ret.
      split; [reflexivity|]. intros k b. split; [reflexivity|]. split; [exact Ek|]. split.
      * destruct (A2 Eh) as [?|(i & q & Hq & Hpq)]; [discriminate|eauto].
      * intros i q Hq. apply (A1 i q); [|exact Hq]. apply elem_of_seq. pose proof (lookup_lt_Some _ _ _ Hq).
        rewrite (t_len _ _ _ _ (k_tree _ _ _ _ _ _ Hinv)) in *. lia.
Qed.

(** ** The scheduler *)

Lemma running s c me : inv s -> procs s !! c = Some (Some me) -> exists p, table s !! me = Some p /\ state p = RUNNING /\ context p <> InExit.
Proof.
  intros Hinv Hc. destruct (r_in _ _ (k_runs _ _ _ _ _ _ Hinv) c me Hc) as [p Hp].
  assert (Hr : state p = RUNNING) by (apply (r_on _ _ (k_runs _ _ _ _ _ _ Hinv) me p Hp); eauto).
  exists p. split; [exact Hp|]. split; [exact Hr|]. apply (k_contexts _ _ _ _ _ _ Hinv me p Hp). unfold alive. auto.
Qed.

(** Changes of a running process that do not concern the others. *)
Lemma inv_running (s : pstate) c me p q : inv s -> procs s !! c = Some (Some me) -> table s !! me = Some p -> state p = RUNNING ->
  similar p q -> state q = RUNNING -> context q <> InExit -> inv (set_table (<[me := q]> (table s)) s).
Proof.
  intros Hinv Hc Hp Hr Hs Hq Hx. apply (core_slot _ _ _ _ _ _ _ p q Hinv Hp Hs); [rewrite Hr, Hq; tauto|congruence|auto].
Qed.

Lemma keeps_table c (s : pstate) i p q : table s !! i = Some p -> (state p = RUNNABLE -> state q = RUNNABLE) ->
  keeps c 0 s (set_table (<[i := q]> (table s)) s).
Proof.
  intros Hi Hpq. apply (keeps_intro c _ _ []); try reflexivity; [symmetry; apply app_nil_r|]. intros j Hj. exact (runnable_insert s i p q j Hi Hpq Hj).
Qed.

(** A process gives up its CPU through [sched]. *)
Lemma wp_give_up c me k p q (Q : unit -> pstate -> Prop) s0 : inv s0 -> procs s0 !! c = Some (Some me) -> table s0 !! me = Some p ->
  state p = RUNNING -> similar p q -> state q <> RUNNING -> k <> InExit ->
  (state q = SLEEPING -> k = InWait -> forall b, wait_ok (table s0) me (set_context k b q)) -> locked_by c s0 ->
  (forall s', off c s' -> procs s' = procs s0 -> locked_by c s' -> keeps c 0 s0 s' -> Q tt s') ->
  wp (sched c me k) Q (set_table (<[me := q]> (table s0)) s0).
Proof.
  intros Hinv Hc Hme Hp Hs Hq Hk Hw Hl HQ. pose proof (lookup_lt_Some _ _ _ Hme) as Hlt.
  eapply wp_sched; [exact Hl|cbn [table set_table]; apply list_lookup_insert_eq, Hlt|exact Hq|].
  intros b. cbn [table set_table]. rewrite list_insert_insert_eq. apply HQ; [|reflexivity|exact Hl|].
  - apply (core_off (table s0) _ _ _ _ _ c me p (set_context k b q) Hinv Hc Hme); try assumption.
    intros Hsq Hkq. exact (Hw Hsq Hkq b).
  - apply (keeps_table c s0 me p (set_context k b q) Hme). congruence.
Qed.

Lemma wp_resume c i s : inv s -> procs s !! c = Some (Some i) -> locked_by c s ->
  wp (resume c i) (fun b s' => keeps c 0 s s' /\ procs s' = procs s /\
    if (b : bool) then inv s' /\ unlocked s' else off c s' /\ locked_by c s') s.
Proof.
  intros Hinv Hc Hl. destruct (running s c i Hinv Hc) as (p & Hp & Hr & Hx). unfold resume. apply wp_bind, (wp_get_proc _ _ _ _ Hp).
  destruct (context p) eqn:Ec; [| | | |contradiction].
  - apply wp_bind, (wp_release c _ _ Hl). intros s1 Hs1 Hu1. do 2 wp_step. pose proof (inv_same _ _ Hs1 Hinv) as Hi1.
    apply wp_bind. destruct (first s1).
    + apply wp_bind, wp_modify, wp_on_env. eapply wp_mono; [apply (fs_start_spec _ _ (k_rep _ _ _ _ _ _ Hi1))|]. intros [] e He. apply wp_ret.
      split; [|split; [exact (same_procs _ _ Hs1)|split; [exact (core_env _ _ _ _ _ _ _ Hi1 He)|exact Hu1]]].
      eapply keeps_same_l; [exact Hs1|]. apply (keeps_intro c _ _ []); try reflexivity; [symmetry; apply app_nil_r|auto].
    + apply wp_skip, wp_ret. split; [exact (keeps_same _ _ _ Hs1)|]. split; [apply Hs1|auto].
  - apply wp_bind, (wp_restore c i p _ _ Hl Hp). intros s1 Hs1 Hl1. apply wp_bind, (wp_release c _ _ Hl1). intros s2 Hs2 Hu2. apply wp_ret.
    split; [exact (keeps_same_l _ _ _ _ _ Hs1 (keeps_same _ _ _ Hs2))|]. split; [rewrite (same_procs _ _ Hs2); apply Hs1|].
    split; [exact (inv_same _ _ Hs2 (inv_same _ _ Hs1 Hinv))|exact Hu2].
  - apply wp_bind, (wp_restore c i p _ _ Hl Hp). intros s1 Hs1 Hl1. pose proof (inv_same _ _ Hs1 Hinv) as Hi1.
    rewrite <- (same_table _ _ Hs1) in Hp. rewrite <- (same_procs _ _ Hs1) in Hc. apply wp_bind, (wp_upd _ _ _ _ _ Hp).
    apply wp_bind. eapply wp_release; [exact Hl1|]. intros s2 Hs2 Hu2. apply wp_ret.
    split; [|split; [rewrite (same_procs _ _ Hs2); apply Hs1|split; [|exact Hu2]]].
    + apply (keeps_same_l _ _ _ _ _ Hs1). eapply keeps_same_r; [|exact Hs2]. apply (keeps_table c s1 i p _ Hp). auto.
    + apply (inv_same _ _ Hs2). apply (inv_running s1 c i p); auto; [apply similar_intro; auto|cbn; congruence].
  - apply wp_bind, (wp_restore c i p _ _ Hl Hp). intros s1 Hs1 Hl1. pose proof (inv_same _ _ Hs1 Hinv) as Hi1.
    rewrite <- (same_table _ _ Hs1) in Hp. rewrite <- (same_procs _ _ Hs1) in Hc. apply wp_bind, (wp_upd _ _ _ _ _ Hp).
    set (p' := set_chan None p). set (s2 := set_table _ s1). pose proof (lookup_lt_Some _ _ _ Hp) as Hlt.
    assert (Hp' : table s2 !! i = Some p') by (apply list_lookup_insert_eq, Hlt).
    assert (Hi2 : inv s2) by (apply (inv_running s1 c i p p'); auto; [apply similar_intro; auto|cbn; congruence]).
    assert (Hk2 : keeps c 0 s s2) by (apply (keeps_same_l _ _ _ _ _ Hs1), (keeps_table c s1 i p p' Hp); auto).
    apply wp_bind. eapply wp_mono; [apply (wp_wait_round c i p' s2 Hi2 Hp' Hr Hl1)|]. cbv beta. intros [x|] s3.
    + intros (Hi3 & Hp3 & Hk3 & Hl3). apply wp_bind, (wp_release c _ _ Hl3). intros s4 Hs4 Hu4. apply wp_ret.
      split; [exact (keeps_same_r _ _ _ _ _ (keeps_trans _ 0 0 _ _ _ Hk2 Hk3) Hs4)|].
      split; [rewrite (same_procs _ _ Hs4), Hp3; apply Hs1|]. split; [exact (inv_same _ _ Hs4 Hi3)|exact Hu4].
    + intros (-> & Hw). apply wp_bind. eapply (wp_give_up c i InWait p'); eauto; try discriminate.
      { apply similar_intro; try reflexivity. right. unfold alive. cbn. auto. }
      intros s4 Ho4 Ep4 Hl4 Hk4. apply wp_ret. split; [exact (keeps_trans _ 0 0 _ _ _ Hk2 Hk4)|].
      split; [rewrite Ep4; apply Hs1|auto].
Qed.

(** Where the scheduler of CPU [c] got, having looked from slot [a] on: a runnable process from
    there on has run, or the CPU runs one before it. *)
Definition landed (c a : nat) (s s' : pstate) : Prop :=
  (procs s' !! c = Some None \/ exists i, procs s' !! c = Some (Some i) /\ (a <= i)%nat) /\
  forall j, runnable s j -> (a <= j)%nat -> ran_since j s s' \/ exists i, procs s' !! c = Some (Some i) /\ (i < j)%nat.

(** An operation that ends in the scheduler. *)
Definition switched (c a : nat) (s s' : pstate) : Prop := inv s' /\ unlocked s' /\ keeps c 0 s s' /\ landed c a s s'.

Lemma landed_l c a s1 s2 s3 : keeps c 0 s1 s2 -> keeps c 0 s2 s3 -> landed c a s2 s3 -> landed c a s1 s3.
Proof.
  intros K1 K2 [L1 L2]. split; [exact L1|]. intros j Hj Ha. destruct (kp_runnable _ _ _ _ K1 j Hj) as [Hr|Hr].
  - left. exact (ran_since_l _ _ _ _ Hr (kp_events _ _ _ _ K2)).
  - destruct (L2 j Hr Ha) as [Hr'|?]; [left; exact (ran_since_r _ _ _ _ (kp_events _ _ _ _ K1) Hr')|auto].
Qed.

Lemma switched_l c a s1 s2 s3 : keeps c 0 s1 s2 -> switched c a s2 s3 -> switched c a s1 s3.
Proof.
  intros K1 (Hi & Hu & K2 & Hl). split; [exact Hi|]. split; [exact Hu|]. split; [exact (keeps_trans _ 0 0 _ _ _ K1 K2)|]. eapply landed_l; eauto.
Qed.

(** Having looked from slot [i + 1] on, slot [i] being empty-handed or served. *)
Lemma switched_step c i s s' : switched c (S i) s s' -> (runnable s i -> ran_since i s s') -> switched c i s s'.
Proof.
  intros (A1 & A2 & A3 & B1 & B2) Hi. split; [exact A1|]. split; [exact A2|]. split; [exact A3|]. split.
  - destruct B1 as [B1|(k & Hk & Hle)]; [auto|]. right. exists k. split; [exact Hk|lia].
  - intros j Hj Ha. destruct (decide (j = i)) as [->|]; [auto|apply B2; [exact Hj|lia]].
Qed.

Lemma runnable_below s j : inv s -> runnable s j -> (j < NPROC)%nat.
Proof. intros Hinv (p & Hp & _). rewrite <- (t_len _ _ _ _ (k_tree _ _ _ _ _ _ Hinv)). exact (lookup_lt_Some _ _ _ Hp). Qed.

(** The process in slot [i] is switched to. *)
Definition switched_to (c i : nat) (p : proc) (s1 : pstate) (e : E) : pstate :=
  add_event (Ran i) (set_env e (set_table (<[i := set_state RUNNING p]> (table s1)) s1)).

Lemma switched_to_inv c i p s s1 e : inv s -> procs s !! c = Some None -> table s !! i = Some p -> state p = RUNNABLE ->
  same (set_cpus (alter (fun k => PCpu (c_cpu k) (Some i)) c (cpus s)) s) s1 -> rep e (holdings (<[i := set_state RUNNING p]> (table s))) ->
  let s2 := switched_to c i p s1 e in inv s2 /\ procs s2 !! c = Some (Some i) /\ keeps c 0 s s2 /\ ran_since i s s2.
Proof.
  intros Hinv Hc Hi Hp [E1 E2 E3 E4 E5 E6] He s2. rewrite procs_put_proc in E6. cbn [table nextpid initproc events env set_cpus] in *.
  assert (Hev : events s2 = events s ++ [Ran i]) by (unfold s2, switched_to; cbn; rewrite E4; reflexivity).
  assert (Hpr : procs s2 = <[c := Some i]> (procs s)) by exact E6.
  assert (Ht : table s2 = <[i := set_state RUNNING p]> (table s)) by (unfold s2, switched_to; cbn; rewrite E1; reflexivity).
  assert (Hran : ran_since i s s2) by (exists [Ran i]; split; [exact Hev|left]).
  split; [|split; [|split; [|exact Hran]]].
  - unfold inv. rewrite Hev, Hpr, Ht. unfold s2, switched_to. cbn [nextpid initproc env add_event set_env set_table].
    rewrite E2, E3. apply core_ran. apply (core_env _ _ _ _ (env s)); [|exact He]. exact (core_on _ _ _ _ _ _ c i p Hinv Hc Hi Hp).
  - rewrite Hpr. apply list_lookup_insert_eq. exact (lookup_lt_Some _ _ _ Hc).
  - constructor.
    + unfold s2, switched_to. cbn. rewrite E2. lia.
    + intros d Hd. rewrite Hpr. apply list_lookup_insert_ne. congruence.
    + rewrite Hpr. apply length_insert.
    + eauto.
    + intros j Hj. destruct (decide (j = i)) as [->|Hne]; [auto|]. right. destruct Hj as (x & Hx & Hs). exists x.
      rewrite Ht, list_lookup_insert_ne by congruence. auto.
Qed.

Lemma off_put_none c s : off c s -> inv (set_cpus (alter (fun k => PCpu (c_cpu k) None) c (cpus s)) s).
Proof. intros Ho. unfold inv. rewrite procs_put_proc. exact Ho. Qed.

Lemma keeps_put_none c s : keeps c 0 s (set_cpus (alter (fun k => PCpu (c_cpu k) None) c (cpus s)) s).
Proof.
  constructor; rewrite ?procs_put_proc.
  - cbn. lia.
  - intros d Hd. apply list_lookup_insert_ne. congruence.
  - apply length_insert.
  - exists []. symmetry. apply app_nil_r.
  - intros j Hj. right. exact Hj.
Qed.

Lemma wp_scheduler_loop c n : forall s, (n <= NPROC)%nat -> inv s -> procs s !! c = Some None -> locked_by c s ->
  wp (scheduler_loop c n) (fun _ s' => switched c (NPROC - n) s s') s.
Proof.
  induction n as [|n IH]; intros s Hn Hinv Hc Hl; cbn [scheduler_loop].
  - eapply wp_release; [exact Hl|]. intros s' Hs' Hu. split; [exact (inv_same _ _ Hs' Hinv)|]. split; [exact Hu|].
    split; [exact (keeps_same _ _ _ Hs')|]. split; [left; rewrite (same_procs _ _ Hs'); exact Hc|].
    intros j Hj Ha. apply (runnable_below s j Hinv) in Hj. lia.
  - set (i := (NPROC - S n)%nat). assert (En : (NPROC - n)%nat = S i) by (unfold i; lia). destruct (lookup_lt_is_Some_2 (table s) i) as [p Hp].
    { rewrite (t_len _ _ _ _ (k_tree _ _ _ _ _ _ Hinv)). unfold i. lia. }
    apply wp_bind, (wp_get_proc _ _ _ _ Hp). destruct (decide (state p <> RUNNABLE)) as [Hne|Hr].
    { eapply wp_mono; [apply (IH s ltac:(lia) Hinv Hc Hl)|]. cbv beta. intros [] s' Hsw. rewrite En in Hsw.
      apply (switched_step c i s s' Hsw). intros (x & Hx & Hs). rewrite Hp in Hx. injection Hx as <-. contradiction. }
    assert (Hrp : state p = RUNNABLE) by (destruct (decide (state p = RUNNABLE)); [assumption|contradiction]). clear Hr.
    apply wp_bind, wp_modify. apply wp_bind. eapply wp_switchuvm; [apply locked_put_proc, Hl|exact Hp| |].
    { apply (s_dir _ _ _ _ _ _ (t_slot _ _ _ _ (k_tree _ _ _ _ _ _ Hinv) i p Hp)). unfold used. congruence. }
    intros s1 Hs1 Hl1. assert (Hp1 : table s1 !! i = Some p) by (rewrite (same_table _ _ Hs1); exact Hp).
    apply wp_bind, (wp_upd _ _ _ _ _ Hp1). apply wp_bind, wp_on_env. cbn [env set_table]. rewrite (same_env _ _ Hs1). cbn [env set_cpus].
    pose proof (core_on _ _ _ _ _ _ c i p Hinv Hc Hp Hrp) as Hon.
    eapply wp_mono; [apply (scheduling_event_spec _ _ (k_rep _ _ _ _ _ _ Hon))|]. intros [] e He. apply wp_bind, wp_modify.
    destruct (switched_to_inv c i p s s1 e Hinv Hc Hp Hrp Hs1 He) as (Hi2 & Hc2 & Hk2 & Hran). fold (switched_to c i p s1 e).
    apply wp_bind. eapply wp_mono; [apply (wp_resume c i _ Hi2 Hc2 Hl1)|]. cbv beta. intros [|] s3 (Hk3 & Ep3 & Hb).
    + apply wp_skip. destruct Hb as [Hi3 Hu3]. split; [exact Hi3|]. split; [exact Hu3|]. split; [exact (keeps_trans _ 0 0 _ _ _ Hk2 Hk3)|].
      rewrite <- Ep3 in Hc2. split; [right; eauto|]. intros j Hj Ha. destruct (decide (j = i)) as [->|]; [left; exact (ran_since_l _ _ _ _ Hran (kp_events _ _ _ _ Hk3))|].
      right. exists i. split; [exact Hc2|lia].
    + destruct Hb as [Ho3 Hl3]. apply wp_bind, wp_modify. eapply wp_mono.
      { apply (IH _ ltac:(lia) (off_put_none c s3 Ho3)); [|apply locked_put_proc, Hl3].
        rewrite procs_put_proc, Ep3. apply list_lookup_insert_eq. exact (lookup_lt_Some _ _ _ Hc2). }
      cbv beta. intros [] s5 Hsw. assert (K : keeps c 0 s (set_cpus (alter (fun k => PCpu (c_cpu k) None) c (cpus s3)) s3)).
      { exact (keeps_trans _ 0 0 _ _ _ (keeps_trans _ 0 0 _ _ _ Hk2 Hk3) (keeps_put_none c s3)). }
      pose proof Hsw as (_ & _ & K5 & _). rewrite En in Hsw. apply (switched_step c i s s5 (switched_l _ _ _ _ _ K Hsw)). intros _.
      apply (ran_since_l i s _ s5 Hran). apply (kp_events c 0). exact (keeps_trans _ 0 0 _ _ _ (keeps_trans _ 0 0 _ _ _ Hk3 (keeps_put_none c s3)) K5).
Qed.

(** ** The operations *)

(** The process that ran before on CPU [c] is in slot [me]. *)
Lemma wp_back c me s0 s : off c s -> procs s !! c = Some (Some me) -> (me < NPROC)%nat -> locked_by c s -> keeps c 0 s0 s ->
  wp (back c me) (fun _ s' => switched c (S me) s0 s') s.
Proof.
  intros Ho Hc Hlt Hl Hk. unfold back. apply wp_bind, wp_modify. eapply wp_mono.
  { apply (wp_scheduler_loop c (NPROC - S me)); [lia|exact (off_put_none c s Ho)| |apply locked_put_proc, Hl].
    rewrite procs_put_proc. apply list_lookup_insert_eq. exact (lookup_lt_Some _ _ _ Hc). }
  cbv beta. intros [] s' Hsw. replace (NPROC - (NPROC - S me))%nat with (S me) in Hsw by lia.
  exact (switched_l _ _ _ _ _ (keeps_trans _ 0 0 _ _ _ Hk (keeps_put_none c s)) Hsw).
Qed.

Lemma slot_below s i p : inv s -> table s !! i = Some p -> (i < NPROC)%nat.
Proof. intros Hinv Hp. rewrite <- (t_len _ _ _ _ (k_tree _ _ _ _ _ _ Hinv)). exact (lookup_lt_Some _ _ _ Hp). Qed.

Lemma cpu_exists (s : pstate) c x : procs s !! c = Some x -> is_Some (cpus s !! c).
Proof. intros Hc. destruct (lookup_procs _ _ _ Hc) as (k & Hk & _). eauto. Qed.

Lemma wp_yield c me s : inv s -> unlocked s -> procs s !! c = Some (Some me) -> wp (yield c) (fun _ s' => switched c (S me) s s') s.
Proof.
  intros Hinv Hu Hc. unfold yield. apply wp_bind, (wp_current _ _ _ _ Hc). apply wp_bind, (wp_acquire c _ _ Hu (cpu_exists _ _ _ Hc)).
  intros s1 Hs1 Hl1. pose proof (inv_same _ _ Hs1 Hinv) as Hi1. rewrite <- (same_procs _ _ Hs1) in Hc.
  destruct (running s1 c me Hi1 Hc) as (p & Hp & Hr & Hx). apply wp_bind, (wp_upd _ _ _ _ _ Hp). apply wp_bind.
  eapply (wp_give_up c me InYield p); eauto; try discriminate.
  { apply similar_intro; try reflexivity. right. unfold alive. cbn. auto. }
  intros s2 Ho2 Ep2 Hl2 Hk2. apply wp_back; auto; [congruence|exact (slot_below _ _ _ Hi1 Hp)|exact (keeps_same_l _ _ _ _ _ Hs1 Hk2)].
Qed.

Lemma wp_wait c me s : inv s -> unlocked s -> procs s !! c = Some (Some me) ->
  wp (wait c) (fun _ s' => switched c (S me) s s' \/ inv s' /\ unlocked s' /\ keeps c 0 s s' /\ procs s' = procs s) s.
Proof.
  intros Hinv Hu Hc. unfold wait. apply wp_bind, (wp_current _ _ _ _ Hc). apply wp_bind, (wp_acquire c _ _ Hu (cpu_exists _ _ _ Hc)).
  intros s1 Hs1 Hl1. pose proof (inv_same _ _ Hs1 Hinv) as Hi1. rewrite <- (same_procs _ _ Hs1) in Hc.
  destruct (running s1 c me Hi1 Hc) as (p & Hp & Hr & Hx). apply wp_bind.
  eapply wp_mono; [apply (wp_wait_round c me p s1 Hi1 Hp Hr Hl1)|]. cbv beta. intros [x|] s2.
  - intros (Hi2 & Ep2 & Hk2 & Hl2). eapply wp_release; [exact Hl2|]. intros s3 Hs3 Hu3. right.
    split; [exact (inv_same _ _ Hs3 Hi2)|]. split; [exact Hu3|].
    split; [exact (keeps_same_r _ _ _ _ _ (keeps_same_l _ _ _ _ _ Hs1 Hk2) Hs3)|]. rewrite (same_procs _ _ Hs3), Ep2. apply Hs1.
  - intros (-> & Hw). apply wp_bind. eapply (wp_give_up c me InWait p); eauto; try discriminate.
    { apply similar_intro; try reflexivity. right. unfold alive. cbn. auto. }
    intros s3 Ho3 Ep3 Hl3 Hk3. eapply wp_mono.
    { apply (wp_back c me s s3); auto; [congruence|exact (slot_below _ _ _ Hi1 Hp)|exact (keeps_same_l _ _ _ _ _ Hs1 Hk3)]. }
    auto.
Qed.

Lemma wp_scheduler c s : inv s -> unlocked s -> procs s !! c = Some None -> wp (scheduler c) (fun _ s' => switched c 0 s s') s.
Proof.
  intros Hinv Hu Hc. unfold scheduler. destruct (cpu_exists _ _ _ Hc) as [k Hk]. apply wp_bind, (wp_get_cpu _ _ _ _ Hk).
  apply wp_bind, wp_modify. set (s1 := set_cpus _ s). assert (Hs1 : same s s1) by apply same_put.
  assert (Hu1 : unlocked s1).
  { destruct Hu as [Hu1 Hu2]. split; [exact Hu1|]. apply Forall_lookup. intros d k'. unfold s1. cbn [cpus set_cpus].
    rewrite (lookup_put_cpu _ _ _ _ _ Hk). pose proof (Forall_lookup_1 _ _ _ _ Hu2 Hk). case_decide; [intros [= <-]; assumption|].
    intros Hk'. exact (Forall_lookup_1 _ _ _ _ Hu2 Hk'). }
  apply wp_bind. eapply wp_acquire; [exact Hu1|apply (cpu_exists s1 c None); rewrite (same_procs _ _ Hs1); exact Hc|].
  intros s2 Hs2 Hl2. eapply wp_mono.
  { apply (wp_scheduler_loop c NPROC s2); auto; [exact (inv_same _ _ Hs2 (inv_same _ _ Hs1 Hinv))|].
    rewrite (same_procs _ _ Hs2), (same_procs _ _ Hs1). exact Hc. }
  cbv beta. intros [] s3 Hsw. rewrite Nat.sub_diag in Hsw. refine (switched_l _ _ _ _ _ _ Hsw).
  exact (keeps_same_l _ _ _ _ _ Hs1 (keeps_same _ _ _ Hs2)).
Qed.

(** [acquire(lk); sleep(chan, lk)] *)
Definition sleep_on (c : nat) (a : Z) : K pstate unit :=
  x ← get_cpu c;
  '(lk, k) ← lift_res (acquire (Z.of_nat c) (initlock "lk") (c_cpu x));
  put_cpu c k ;;
  _ ← sleep c (ChAddr a) lk;
  skip.

(** [acquire(&ptable.lock)] with another lock held, which is released next. *)
Lemma wp_nested c k (Q : unit -> pstate -> Prop) s : unlocked s -> cpus s !! c = Some k ->
  (forall s2 k2, same s s2 -> cpus s2 !! c = Some k2 -> popcli (c_cpu k2) = Ok (Cpu 1 (intena (c_cpu k2)) false) ->
    (forall s3, s3 = set_cpus (alter (fun x => PCpu (Cpu 1 (intena (c_cpu k2)) false) (c_proc x)) c (cpus s2)) s2 -> same s s3 /\ locked_by c s3) -> Q tt s2) ->
  wp (acquire_ptable c) Q (set_cpus (alter (fun x => PCpu (pushcli (c_cpu k)) (c_proc x)) c (cpus s)) s).
Proof.
  intros [Hl Hn] Hk HQ. unfold acquire_ptable. set (s1 := set_cpus _ s).
  assert (Hk1 : cpus s1 !! c = Some (PCpu (pushcli (c_cpu k)) (c_proc k))).
  { unfold s1. cbn [cpus set_cpus]. rewrite (lookup_put_cpu _ _ _ _ _ Hk), decide_True; reflexivity. }
  apply wp_bind, (wp_get_cpu _ _ _ _ Hk1). cbv beta iota; do 2 wp_step. apply wp_bind. eapply wp_lift_res; [apply acquire_free, Hl|].
  cbv beta iota; do 2 wp_step. apply wp_modify. set (k2 := PCpu (pushcli (pushcli (c_cpu k))) (c_proc k)). set (s2 := set_cpus _ _).
  assert (Hk2 : cpus s2 !! c = Some k2).
  { unfold s2. cbn [cpus set_cpus]. change (cpus (set_lock _ s1)) with (cpus s1). rewrite (lookup_put_cpu _ _ _ _ _ Hk1), decide_True; reflexivity. }
  assert (Hs2 : same s s2).
  { constructor; try reflexivity. etransitivity; [apply procs_put_cpu|]. etransitivity; [|apply procs_put_cpu]. reflexivity. }
  pose proof (Forall_lookup_1 _ _ _ _ Hn Hk) as Hk0. cbv beta in Hk0.
  apply (HQ s2 k2 Hs2 Hk2); [unfold popcli; cbn; rewrite Hk0; reflexivity|]. intros s3 ->. split.
  - destruct Hs2 as [E1 E2 E3 E4 E5 E6]. constructor; try assumption. rewrite procs_put_cpu. exact E6.
  - split; [apply holding_self|]. exists (PCpu (Cpu 1 (intena (c_cpu k2)) false) (c_proc k2)). cbn [cpus set_cpus].
    rewrite (lookup_put_cpu _ _ _ _ _ Hk2), decide_True by reflexivity. split; [reflexivity|]. split; [reflexivity|]. split; [reflexivity|].
    intros d k' Hd. rewrite (lookup_put_cpu _ _ _ _ _ Hk2), decide_False by exact Hd. unfold s2. cbn [cpus set_cpus].
    change (cpus (set_lock _ s1)) with (cpus s1). rewrite (lookup_put_cpu _ _ _ _ _ Hk1), decide_False by exact Hd. unfold s1. cbn [cpus set_cpus].
    rewrite (lookup_put_cpu _ _ _ _ _ Hk), decide_False by exact Hd. intros Hk'. exact (Forall_lookup_1 _ _ _ _ Hn Hk').
Qed.

Lemma wp_sleep_on c a me s : inv s -> unlocked s -> procs s !! c = Some (Some me) -> wp (sleep_on c a) (fun _ s' => switched c (S me) s s') s.
Proof.
  intros Hinv Hu Hc. unfold sleep_on. destruct (lookup_procs _ _ _ Hc) as (k & Hk & Ek). apply wp_bind, (wp_get_cpu _ _ _ _ Hk).
  apply wp_bind. eapply wp_lift_res; [apply acquire_free; reflexivity|]. cbv beta iota. apply wp_bind, wp_modify.
  apply wp_bind. unfold sleep. apply wp_bind. eapply wp_get_cpu; [cbn [cpus set_cpus]; rewrite (lookup_put_cpu _ _ _ _ _ Hk), decide_True by reflexivity; reflexivity|].
  cbn [c_proc]. rewrite Ek. apply wp_bind. eapply (wp_nested c k _ s Hu Hk). intros s2 k2 Hs2 Hk2 Hn2 Hrest. apply wp_bind, (wp_get_cpu _ _ _ _ Hk2).
  apply wp_bind. eapply wp_lift_res. { rewrite release_eq, holding_self. cbn [negb]. rewrite Hn2. reflexivity. }
  cbv beta iota. apply wp_bind, wp_modify. set (s3 := set_cpus _ s2). destruct (Hrest s3 eq_refl) as [Hs3 Hl3].
  pose proof (inv_same _ _ Hs3 Hinv) as Hi3. rewrite <- (same_procs _ _ Hs3) in Hc.
  destruct (running s3 c me Hi3 Hc) as (p & Hp & Hr & Hx). apply wp_bind, (wp_upd _ _ _ _ _ Hp). apply wp_bind.
  eapply (wp_give_up c me InSleep p); eauto; try discriminate.
  { apply similar_intro; try reflexivity. right. unfold alive. cbn. auto. }
  intros s4 Ho4 Ep4 Hl4 Hk4. apply wp_bind. eapply wp_mono.
  { apply (wp_back c me s s4); auto; [congruence|exact (slot_below _ _ _ Hi3 Hp)|exact (keeps_same_l _ _ _ _ _ Hs3 Hk4)]. }
  cbv beta. intros [] s5 Hsw. apply wp_ret, wp_skip. exact Hsw.
Qed.

End run.
End ProcRun.
