(* ===== verification/Syscall.v ===== *)
(** System calls (syscall.c): fetching arguments from user memory, and the dispatch by number.

    User memory is the memory of the current process from address 0 to its size [sz]; the
    arguments lie on the user stack at [esp].  A C result of -1 is [None]. *)

From S2P Require Import Prelude Mem.

Module Syscall.

Inductive sysno :=
  | SYS_fork | SYS_exit | SYS_wait | SYS_pipe | SYS_read | SYS_kill | SYS_exec | SYS_fstat | SYS_chdir
  | SYS_dup | SYS_getpid | SYS_sbrk | SYS_sleep | SYS_uptime | SYS_open | SYS_write | SYS_mknod | SYS_unlink
  | SYS_link | SYS_mkdir | SYS_close | SYS_select | SYS_random | SYS_encrypt | SYS_decrypt.

(** [syscalls]; entry 0 is empty. *)
Definition syscalls : list (option sysno) :=
  [None; Some SYS_fork; Some SYS_exit; Some SYS_wait; Some SYS_pipe; Some SYS_read; Some SYS_kill; Some SYS_exec;
   Some SYS_fstat; Some SYS_chdir; Some SYS_dup; Some SYS_getpid; Some SYS_sbrk; Some SYS_sleep; Some SYS_uptime;
   Some SYS_open; Some SYS_write; Some SYS_mknod; Some SYS_unlink; Some SYS_link; Some SYS_mkdir; Some SYS_close;
   Some SYS_select; Some SYS_random; Some SYS_encrypt; Some SYS_decrypt].

(** The new value of [eax]; [handler] runs a call, [unknown] is the message for another number. *)
Definition syscall {S : Type} (handler : sysno -> K S Z) (unknown : Z -> K S unit) (num : Z) : K S Z :=
  if (0 <? num) && (num <? Z.of_nat (length syscalls)) then
    match syscalls !! Z.to_nat num with
    | Some (Some f) => handler f
    | _ => unknown num ;; mret (-1)
    end
  else unknown num ;; mret (-1).

Section args.
Context {M : Type} `{Memory M}.
(** [proc->sz] and [proc->tf->esp] *)
Context (sz esp : Z).

Definition fetchint (addr : Z) : K M (option Z) :=
  if (sz <=? addr) || (sz <? u32 (addr + 4)) then mret None
  else x ← load32 addr; mret (Some (s32 x)).

(** The loop of [fetchstr], [n] bytes before the end of user memory. *)
Fixpoint fetchstr_loop (s : Z) (n : nat) (len : Z) : K M (option Z) :=
  match n with
  | O => mret None
  | S n' => c ← load s; if c =? 0 then mret (Some len) else fetchstr_loop (s + 1) n' (len + 1)
  end.
(** The pointer and the length of the string. *)
Definition fetchstr (addr : Z) : K M (option (Z * Z)) :=
  if sz <=? addr then mret None
  else
    r ← fetchstr_loop addr (Z.to_nat (sz - addr)) 0;
    mret ((fun len => (addr, len)) <$> r).

Definition argint (n : Z) : K M (option Z) := fetchint (u32 (esp + 4 + 4 * n)).

Definition argptr (n size : Z) : K M (option Z) :=
  i ← argint n;
  match i with
  | None => mret None
  | Some i =>
      if (sz <=? u32 i) || (sz <? u32 (u32 i + size)) then mret None else mret (Some (u32 i))
  end.

Definition argstr (n : Z) : K M (option (Z * Z)) :=
  addr ← argint n;
  match addr with
  | None => mret None
  | Some addr => fetchstr (u32 addr)
  end.

Definition BLOCK_LENGTH : Z := 16.
Definition AES_256_KEY_SIZE : Z := 8.

(** The arguments of [sys_encrypt] and [sys_decrypt]: input, output, size, sequence and key. *)
Definition crypt_args : K M (option (Z * Z * Z * Z * Z)) :=
  size ← argint 2;
  match size with
  | None => mret None
  | Some size =>
      input ← argptr 0 size;
      match input with
      | None => mret None
      | Some input =>
          output ← argptr 1 size;
          match output with
          | None => mret None
          | Some output =>
              sequence ← argptr 3 (s32 (u32 (u32 size + BLOCK_LENGTH - (u32 size mod BLOCK_LENGTH))));
              match sequence with
              | None => mret None
              | Some sequence =>
                  key ← argptr 4 AES_256_KEY_SIZE;
                  match key with
                  | None => mret None
                  | Some key => mret (Some (input, output, u32 size, sequence, key))
                  end
              end
          end
      end
  end.

Definition MAXARG : nat := 32.

(** The loop of [sys_exec], with [n] entries of [argv] left; the strings so far are [argv]. *)
Fixpoint exec_argv (n : nat) (uargv i : Z) (argv : list (Z * Z)) : K M (option (list (Z * Z))) :=
  match n with
  | O => mret None
  | S n =>
      uarg ← fetchint (u32 (uargv + 4 * i));
      match uarg with
      | None => mret None
      | Some uarg =>
          if u32 uarg =? 0 then mret (Some argv)
          else
            r ← fetchstr (u32 uarg);
            match r with
            | None => mret None
            | Some str => exec_argv n uargv (i + 1) (argv ++ [str])
            end
      end
  end.
(** The path and the arguments that [sys_exec] passes to [exec]; [None] is the result -1. *)
Definition exec_args : K M (option ((Z * Z) * list (Z * Z))) :=
  path ← argstr 0;
  match path with
  | None => mret None
  | Some path =>
      uargv ← argint 1;
      match uargv with
      | None => mret None
      | Some uargv =>
          argv ← exec_argv MAXARG (u32 uargv) 0 [];
          mret ((fun a => (path, a)) <$> argv)
      end
  end.
End args.
End Syscall.

Module SyscallFacts.
Import Syscall.

Section facts.
Context {M : Type} `{Memory M}.

(** User memory: below the kernel, and all of it there. *)
Record user_memory (m : M) (sz esp : Z) : Prop := {
  um_size : 0 <= sz < 0x80000000;
  um_esp : is_u32 esp;
  um_mapped : mapped m 0 sz;
}.

(** The word at [a]. *)
Definition word_at (m : M) (a w : Z) : Prop := exists bs, length bs = 4%nat /\ holds m a bs /\ w = s32 (le_word bs).

Lemma word_exists m a : mapped m a 4 -> exists w, word_at m a w.
Proof.
  intros Hm. destruct (Hm 0 ltac:(lia)) as [b0 E0], (Hm 1 ltac:(lia)) as [b1 E1], (Hm 2 ltac:(lia)) as [b2 E2], (Hm 3 ltac:(lia)) as [b3 E3].
  exists (s32 (le_word [b0; b1; b2; b3])), [b0; b1; b2; b3]. split; [reflexivity|]. split; [|reflexivity].
  intros [|[|[|[|i]]]] x Hx; cbn in Hx; try discriminate; injection Hx as <-; assumption.
Qed.

Lemma wp_fetchint m sz esp addr (Q : option Z -> M -> Prop) : user_memory m sz esp -> is_u32 addr ->
  (sz < addr + 4 -> Q None m) -> (forall w, addr + 4 <= sz -> word_at m addr w -> Q (Some w) m) -> wp (fetchint sz addr) Q m.
Proof.
  intros [U1 U2 U3] Ha HN HS. unfold fetchint, is_u32 in *. destruct (sz <=? addr) eqn:E1; cbn [orb].
  { apply wp_ret, HN. lia. }
  rewrite u32_id by (unfold is_u32; lia). destruct (sz <? addr + 4) eqn:E2; [apply wp_ret, HN; lia|].
  assert (Hm : mapped m addr 4) by (intros i Hi; apply (U3 (addr + i)); lia).
  destruct (word_exists m addr Hm) as (w & bs & Hl & Hh & Ew). apply wp_bind. eapply wp_load32; [exact Hl|exact Hh|]. apply wp_ret.
  rewrite <- Ew. apply HS; [lia|]. exists bs. auto.
Qed.

(** Argument [n] is in user memory. *)
Definition has_arg (sz esp n : Z) : Prop := u32 (esp + 4 + 4 * n) + 4 <= sz.

Lemma wp_argint m sz esp n (Q : option Z -> M -> Prop) : user_memory m sz esp ->
  (~ has_arg sz esp n -> Q None m) -> (forall w, has_arg sz esp n -> word_at m (u32 (esp + 4 + 4 * n)) w -> Q (Some w) m) -> wp (argint sz esp n) Q m.
Proof.
  intros U HN HS. apply (wp_fetchint m sz esp _ _ U); [apply u32_is_u32| |exact HS]. intros Hlt. apply HN. unfold has_arg. lia.
Qed.

Lemma wp_argptr m sz esp n size (Q : option Z -> M -> Prop) : user_memory m sz esp ->
  (~ has_arg sz esp n -> Q None m) ->
  (forall w, has_arg sz esp n -> word_at m (u32 (esp + 4 + 4 * n)) w ->
    (u32 w < sz /\ u32 (u32 w + size) <= sz -> Q (Some (u32 w)) m) /\ (~ (u32 w < sz /\ u32 (u32 w + size) <= sz) -> Q None m)) ->
  wp (argptr sz esp n size) Q m.
Proof.
  intros U HN HS. unfold argptr. apply wp_bind, (wp_argint m sz esp n _ U).
  - intros Hn. apply wp_ret, HN, Hn.
  - intros w Hn Hw. destruct (HS w Hn Hw) as [H1 H2]. destruct (sz <=? u32 w) eqn:E1; cbn [orb]; [apply wp_ret, H2; lia|].
    destruct (sz <? u32 (u32 w + size)) eqn:E2; apply wp_ret; [apply H2|apply H1]; lia.
Qed.

(** The string at [a] has [len] characters before its NUL and ends below [hi]. *)
Definition string_at (m : M) (a len hi : Z) : Prop := 0 <= len /\ a + len < hi /\ load8 m (a + len) = Some 0 /\
  forall i, 0 <= i < len -> exists c, load8 m (a + i) = Some c /\ c <> 0.

Lemma wp_fetchstr_loop m a0 n : forall s len, 0 <= len -> s = a0 + len -> mapped m s (Z.of_nat n) ->
  (forall i, 0 <= i < len -> exists c, load8 m (a0 + i) = Some c /\ c <> 0) ->
  wp (fetchstr_loop s n len) (fun r m' => m' = m /\
    match r with
    | Some l => string_at m a0 l (s + Z.of_nat n)
    | None => forall i, 0 <= i < len + Z.of_nat n -> exists c, load8 m (a0 + i) = Some c /\ c <> 0
    end) m.
Proof.
  induction n as [|n IH]; intros s len Hl Hs Hm Hb; cbn [fetchstr_loop].
  - apply wp_ret. split; [reflexivity|]. intros i Hi. apply Hb. lia.
  - destruct (Hm 0 ltac:(lia)) as [c Hc]. rewrite Z.add_0_r in Hc. apply wp_bind, (wp_load _ _ _ _ Hc). destruct (Z.eqb_spec c 0) as [->|Hne].
    + apply wp_ret. split; [reflexivity|]. split; [exact Hl|]. split; [lia|]. split; [rewrite <- Hs; exact Hc|exact Hb].
    + eapply wp_mono; [apply (IH (s + 1) (len + 1)); [lia|lia| |]|].
      * intros i Hi. replace (s + 1 + i) with (s + (1 + i)) by lia. apply Hm. lia.
      * intros i Hi. destruct (Z.eq_dec i len) as [->|]; [exists c; rewrite <- Hs; auto|apply Hb; lia].
      * cbv beta. intros [l|] m' [-> Hr]; (split; [reflexivity|]).
        -- replace (s + Z.of_nat (S n)) with (s + 1 + Z.of_nat n) by lia. exact Hr.
        -- intros i Hi. apply Hr. lia.
Qed.

Lemma string_unique m a l l' hi : string_at m a l hi -> string_at m a l' hi -> l = l'.
Proof.
  intros (H1 & H2 & H3 & H4) (H1' & H2' & H3' & H4'). destruct (Z.lt_trichotomy l l') as [Hl|[Hl|Hl]]; [|exact Hl|].
  - destruct (H4' l ltac:(lia)) as (c & Hc & Hne). congruence.
  - destruct (H4 l' ltac:(lia)) as (c & Hc & Hne). congruence.
Qed.

Lemma wp_fetchstr m sz esp a : user_memory m sz esp -> is_u32 a ->
  wp (fetchstr sz a) (fun r m' => m' = m /\ match r with Some (p, len) => p = a /\ string_at m p len sz | None => forall len, ~ string_at m a len sz end) m.
Proof.
  intros U Ha. unfold is_u32 in Ha. unfold fetchstr. destruct (Z.leb_spec sz a) as [E|E].
  - apply wp_ret. split; [reflexivity|]. intros len (H1 & H2 & _). lia.
  - apply wp_bind. eapply wp_mono; [apply (wp_fetchstr_loop m a (Z.to_nat (sz - a)) a 0); [lia|lia| |lia]|].
    { intros i Hi. apply (um_mapped _ _ _ U (a + i)). lia. }
    cbv beta. replace (a + Z.of_nat (Z.to_nat (sz - a))) with sz by lia. intros [len|] m' [-> Hr]; apply wp_ret; (split; [reflexivity|]); cbn.
    + auto.
    + intros len (H1 & H2 & H3 & _). destruct (Hr len ltac:(lia)) as (c & Hc & Hne). congruence.
Qed.

Lemma wp_argstr m sz esp n : user_memory m sz esp ->
  wp (argstr sz esp n) (fun r m' => m' = m /\
    match r with
    | Some (p, len) => has_arg sz esp n /\ (exists w, word_at m (u32 (esp + 4 + 4 * n)) w /\ p = u32 w) /\ string_at m p len sz
    | None => has_arg sz esp n -> exists w, word_at m (u32 (esp + 4 + 4 * n)) w /\ forall len, ~ string_at m (u32 w) len sz
    end) m.
Proof.
  intros U. unfold argstr. apply wp_bind, (wp_argint m sz esp n _ U).
  - intros Hn. apply wp_ret. split; [reflexivity|]. contradiction.
  - intros w Hn Hw. eapply wp_mono; [apply (wp_fetchstr m sz esp _ U (u32_is_u32 w))|]. intros [[p len]|] m' [-> Hr]; (split; [reflexivity|]).
    + destruct Hr as [-> Hr]. split; [exact Hn|]. split; [eauto|exact Hr].
    + intros _. exists w. auto.
Qed.

(** What [sys_exec] passes on are strings in the memory of the process, fewer than [MAXARG]. *)
Lemma wp_exec_argv m sz esp uargv n : user_memory m sz esp -> forall i argv, Forall (fun '(p, len) => string_at m p len sz) argv ->
  wp (exec_argv sz n uargv i argv) (fun r m' => m' = m /\ forall a, r = Some a -> Forall (fun '(p, len) => string_at m p len sz) a /\ (length a < length argv + n)%nat) m.
Proof.
  intros U. induction n as [|n IH]; intros i argv Hf; cbn [exec_argv]; [apply wp_ret; split; [reflexivity|discriminate]|].
  apply wp_bind, (wp_fetchint m sz esp _ _ U (u32_is_u32 _)); [intros _; apply wp_ret; split; [reflexivity|discriminate]|]. intros w _ _.
  destruct (u32 w =? 0); [apply wp_ret; split; [reflexivity|]; intros a [= <-]; split; [exact Hf|lia]|].
  apply wp_bind. eapply wp_mono; [apply (wp_fetchstr m sz esp _ U (u32_is_u32 _))|]. intros [[p len]|] m' [-> Hr]; [|apply wp_ret; split; [reflexivity|discriminate]].
  eapply wp_mono; [apply (IH (i + 1) (argv ++ [(p, len)]))|].
  - apply Forall_app. split; [exact Hf|]. apply Forall_singleton. exact (proj2 Hr).
  - intros r m' [-> Ha]. split; [reflexivity|]. intros a E. destruct (Ha a E) as [H1 H2]. split; [exact H1|]. rewrite length_app in H2. cbn [length] in H2. lia.
Qed.

Lemma wp_exec_args m sz esp : user_memory m sz esp ->
  wp (exec_args sz esp) (fun r m' => m' = m /\ forall path argv, r = Some (path, argv) ->
    string_at m (fst path) (snd path) sz /\ Forall (fun '(p, len) => string_at m p len sz) argv /\ (length argv < MAXARG)%nat) m.
Proof.
  intros U. unfold exec_args. apply wp_bind. eapply wp_mono; [apply (wp_argstr m sz esp 0 U)|]. intros [[p len]|] m' [-> Hp]; [|apply wp_ret; split; [reflexivity|discriminate]].
  apply wp_bind, (wp_argint m sz esp 1 _ U); [intros _; apply wp_ret; split; [reflexivity|discriminate]|]. intros w _ _.
  apply wp_bind. eapply wp_mono; [apply (wp_exec_argv m sz esp (u32 w) MAXARG U 0 []); constructor|]. intros r m' [-> Ha]. apply wp_ret. split; [reflexivity|].
  intros path argv E. destruct r as [a|]; [|discriminate]. injection E as <- <-. destruct (Ha a eq_refl) as [H1 H2]. split; [apply Hp|]. auto.
Qed.

Lemma u32_negative x : -4294967296 <= x < 0 -> u32 x = x + 4294967296.
Proof. intros Hx. unfold u32. symmetry. apply (Z.mod_unique_pos _ _ (-1)); lia. Qed.

Lemma word_unique m a w w' : word_at m a w -> word_at m a w' -> w = w'.
Proof.
  intros (bs & Hl & Hh & ->) (bs' & Hl' & Hh' & ->). do 2 f_equal. apply (list_eq_same_length _ _ 4); [lia|congruence|].
  intros i x y Hi Hx Hy. pose proof (Hh i x Hx) as E1. pose proof (Hh' i y Hy) as E2. congruence.
Qed.
End facts.
End SyscallFacts.

Module SyscallProps.
Import Paged Syscall SyscallFacts.

(** C37: Pointer and string arguments are checked exactly.  [argptr] accepts a pointer argument [p] for
    [size] bytes when both [p] and [p + size] lie in the memory of the process: for [size >= 0] the
    block is inside it, but a negative [size], which [read] and [write] pass on, is accepted too and the kernel takes it
    for a huge block.  [argstr] accepts a pointer exactly when a NUL-terminated string
    starts there and ends inside the memory of the process, and gives its length. *)
Theorem arguments_checked {M : Type} `{Memory M} (m : M) (sz esp n size : Z) :
  user_memory m sz esp -> is_s32 size ->
  wp (argptr sz esp n size) (fun r m' => m' = m /\ forall p, r = Some p <->
    has_arg sz esp n /\ exists w, word_at m (u32 (esp + 4 + 4 * n)) w /\ p = u32 w /\ p < sz /\ 0 <= p + size <= sz) m /\
  wp (argstr sz esp n) (fun r m' => m' = m /\ forall p len, r = Some (p, len) <->
    has_arg sz esp n /\ exists w, word_at m (u32 (esp + 4 + 4 * n)) w /\ p = u32 w /\ string_at m p len sz) m.
Proof.
  intros U Hsize. pose proof (um_size _ _ _ U) as Usz. split.
  - apply (wp_argptr m sz esp n size _ U).
    + intros Hn. split; [reflexivity|]. intros p. split; [discriminate|]. intros [Hn' _]. contradiction.
    + intros w Hn Hw. pose proof (u32_is_u32 w) as Hr. unfold is_u32, is_s32 in *.
      assert (Hiff : u32 w < sz -> (u32 (u32 w + size) <= sz <-> 0 <= u32 w + size <= sz)).
      { intros Hlt. destruct (Z.ltb_spec (u32 w + size) 0) as [Hneg|Hpos].
        - rewrite (u32_negative (u32 w + size)) by lia. lia.
        - rewrite (u32_id (u32 w + size)) by (unfold is_u32; lia). lia. }
      split; intros Hc; (split; [reflexivity|]); intros p; split.
      * intros [= <-]. split; [exact Hn|]. exists w. tauto.
      * intros (_ & w' & Hw' & -> & _). rewrite (word_unique _ _ _ _ Hw' Hw). reflexivity.
      * discriminate.
      * intros (_ & w' & Hw' & -> & H1 & H2). exfalso. apply Hc. rewrite (word_unique _ _ _ _ Hw' Hw) in *. tauto.
  - eapply wp_mono; [apply (wp_argstr m sz esp n U)|]. cbv beta. intros [[p0 len0]|] m' [-> Hr]; (split; [reflexivity|]); intros p len; split.
    + intros [= <- <-]. destruct Hr as (Hn & (w & Hw & ->) & Hs). split; [exact Hn|]. eauto.
    + intros (_ & w & Hw & -> & Hs). destruct Hr as (_ & (w0 & Hw0 & ->) & Hs0). rewrite (word_unique _ _ _ _ Hw Hw0) in *.
      rewrite (string_unique _ _ _ _ _ Hs Hs0). reflexivity.
    + discriminate.
    + intros (Hn & w & Hw & -> & Hs). destruct (Hr Hn) as (w0 & Hw0 & Hno). rewrite (word_unique _ _ _ _ Hw Hw0) in *. destruct (Hno _ Hs).
Qed.

(** One page of zeros with the word 100 as the first argument; a block of -1 bytes at 100 is accepted. *)
Definition small_memory : Paged.pages := {[ 0 := replicate 8 0 ++ [100; 0; 0; 0] ++ replicate 4084 0 ]}.

Lemma small_user : user_memory small_memory 4096 4.
Proof.
  constructor; [lia|unfold is_u32; lia|]. intros i Hi. change (load8 small_memory (0 + i)) with (Paged.page_load small_memory i).
  unfold Paged.page_load, Paged.PGSIZE. rewrite Z.div_small, Z.mod_small by lia. unfold small_memory. rewrite lookup_singleton_eq. cbn [mbind option_bind].
  apply lookup_lt_is_Some. rewrite !length_app, !length_replicate. cbn [length]. lia.
Qed.

Lemma arguments_checked_witness : user_memory small_memory 4096 4 /\ argptr 4096 4 0 (-1) small_memory = Ok (Some 100, small_memory) /\
  has_arg 4096 4 0 /\ exists w, word_at small_memory (u32 (4 + 4 + 4 * 0)) w /\ 100 = u32 w /\ 100 < 4096 /\ 0 <= 100 + -1 <= 4096.
Proof.
  assert (E0 : argptr 4096 4 0 (-1) small_memory = Ok (Some 100, small_memory)) by (vm_compute; reflexivity).
  split; [exact small_user|]. split; [exact E0|].
  destruct (arguments_checked small_memory 4096 4 0 (-1) small_user ltac:(unfold is_s32; lia)) as [(r & m' & E & -> & Hr) _].
  rewrite E0 in E. injection E as <-. exact (proj1 (Hr 100) eq_refl).
Defined.
End SyscallProps.
