(* ===== verification/PageMem.v ===== *)
(** Page memory: what the code of vm.c relies on of the allocator and of the kernel's mapping of
    memory, as an interface, and the kernel state (Kernel.v, Kalloc.v) that implements it.

    The view of a state has the stack of free pages and the pages that are allocated, each with its
    4096 bytes.  The index of [shows] bounds the calls of the allocator that can still be made: an
    entropy pool counts its bytes in an [int]. *)

From stdpp Require Import gmap.
From S2P Require Import Prelude Mem CString Spinlock Kernel Entropy Kalloc.

Record pview := PView { v_free : list Z; v_mem : gmap Z (list Z) }.

Class PageMemory (S : Type) := {
  kalloc : K S Z;
  kfree : Z -> K S unit;
  ld32 : Z -> K S Z;                     (** the word at an address *)
  st32 : Z -> Z -> K S unit;             (** stores a word *)
  fill : Z -> Z -> K S unit;             (** [memset(p, c, PGSIZE)] *)
  copy : Z -> Z -> K S unit;             (** [memmove(to, from, PGSIZE)] *)
  put : Z -> list Z -> K S unit;         (** [memmove(a, bs, length bs)] of an array *)
  say : string -> K S unit;              (** [cprintf] of a message *)
  shows : nat -> S -> pview -> Prop;
  law_weaken : forall n n' s v, shows n s v -> (n' <= n)%nat -> shows n' s v;
  law_page : forall n s v p bs, shows n s v -> v_mem v !! p = Some bs ->
    p mod 4096 = 0 /\ Kernel.KERNBASE < p < Kernel.KERNBASE + Kernel.PHYSTOP /\ Z.of_nat (length bs) = 4096;
  law_free : forall n s v p, shows n s v -> p ∈ v_free v ->
    p mod 4096 = 0 /\ Kernel.KERNBASE < p < Kernel.KERNBASE + Kernel.PHYSTOP /\ v_mem v !! p = None;
  law_nodup : forall n s v, shows n s v -> NoDup (v_free v);
  law_kalloc : forall n s v (Q : Z -> S -> Prop), shows (Datatypes.S n) s v ->
    (v_free v = [] -> forall s', shows n s' v -> Q 0 s') ->
    (forall p l bs s', v_free v = p :: l -> Z.of_nat (length bs) = 4096 -> shows n s' (PView l (<[p := bs]> (v_mem v))) -> Q p s') ->
    wp kalloc Q s;
  law_kfree : forall n s v p (Q : unit -> S -> Prop), shows (Datatypes.S n) s v -> is_Some (v_mem v !! p) ->
    (forall s', shows n s' (PView (p :: v_free v) (delete p (v_mem v))) -> Q tt s') -> wp (kfree p) Q s;
  law_ld32 : forall n s v p bs i (Q : Z -> S -> Prop), shows n s v -> v_mem v !! p = Some bs -> 0 <= i < 1024 ->
    Q (le_word (window (4 * Z.to_nat i) 4 bs)) s -> wp (ld32 (p + 4 * i)) Q s;
  law_st32 : forall n s v p bs i w (Q : unit -> S -> Prop), shows n s v -> v_mem v !! p = Some bs -> 0 <= i < 1024 ->
    (forall s', shows n s' (PView (v_free v) (<[p := splice (4 * Z.to_nat i) (le_bytes 4 w) bs]> (v_mem v))) -> Q tt s') ->
    wp (st32 (p + 4 * i) w) Q s;
  law_fill : forall n s v p c (Q : unit -> S -> Prop), shows n s v -> is_Some (v_mem v !! p) ->
    (forall s', shows n s' (PView (v_free v) (<[p := replicate (Z.to_nat 4096) (u8 c)]> (v_mem v))) -> Q tt s') -> wp (fill p c) Q s;
  law_copy : forall n s v p q bs (Q : unit -> S -> Prop), shows n s v -> is_Some (v_mem v !! p) -> v_mem v !! q = Some bs ->
    (forall s', shows n s' (PView (v_free v) (<[p := bs]> (v_mem v))) -> Q tt s') -> wp (copy p q) Q s;
  law_put : forall n s v p bs off new (Q : unit -> S -> Prop), shows n s v -> v_mem v !! p = Some bs ->
    0 <= off -> off + Z.of_nat (length new) <= 4096 ->
    (forall s', shows n s' (PView (v_free v) (<[p := splice (Z.to_nat off) new bs]> (v_mem v))) -> Q tt s') -> wp (put (p + off) new) Q s;
  law_say : forall n s v m (Q : unit -> S -> Prop), shows n s v -> (forall s', shows n s' v -> Q tt s') -> wp (say m) Q s;
}.

(** * The kernel state *)

Module KernelPages.
Import Kernel KernelFacts Kalloc KallocFacts CStringFacts.

Section platform.
Context `{Platform}.
(** The kernel is not empty. *)
Hypothesis kend_above : KERNBASE < kend.

Record agrees (n : nat) (s : kstate) (v : pview) : Prop := {
  ag_alloc : alloc_state Busy n s (v_free v);
  ag_page : forall p bs, v_mem v !! p = Some bs -> page_ok p /\ (p ∉ v_free v) /\ Z.of_nat (length bs) = 4096 /\ holds (mem s) p bs;
}.

(** A change of one allocated page. *)
Lemma agrees_write n s v m' p old bs : agrees n s v -> v_mem v !! p = Some old -> Z.of_nat (length bs) = 4096 ->
  same_outside (mem s) m' p PGSIZE -> holds m' p bs -> agrees n (set_mem m' s) (PView (v_free v) (<[p := bs]> (v_mem v))).
Proof.
  intros [A P] Hp Hl Hs Hh. destruct (P p old Hp) as (Hok & Hnf & _ & _). split.
  - eapply (alloc_state_write _ _ s _ _ p); [exact A|reflexivity|reflexivity|reflexivity|exact Hok|exact Hnf|exact Hs].
  - cbn [v_free v_mem]. intros q qs Hq. destruct (decide (q = p)) as [->|Hne].
    + rewrite lookup_insert_eq in Hq. injection Hq as <-. auto.
    + rewrite lookup_insert_ne in Hq by congruence. destruct (P q qs Hq) as (Hq1 & Hq2 & Hq3 & Hq4). repeat (split; [assumption|]).
      eapply holds_same_outside; [exact Hq4|exact Hs|]. rewrite Hq3. pose proof (pages_apart p q Hok Hq1 ltac:(congruence)).
      unfold PGSIZE in *. lia.
Qed.

Lemma agrees_mapped n s v p bs : agrees n s v -> v_mem v !! p = Some bs -> mapped (mem s) p PGSIZE.
Proof.
  intros [_ P] Hp. destruct (P p bs Hp) as (_ & _ & Hl & Hh). change PGSIZE with 4096. rewrite <- Hl. apply holds_mapped, Hh.
Qed.

Lemma agrees_range n s v p bs : agrees n s v -> v_mem v !! p = Some bs ->
  p mod 4096 = 0 /\ KERNBASE < p < KERNBASE + PHYSTOP /\ Z.of_nat (length bs) = 4096.
Proof. intros [_ P] Hp. destruct (P p bs Hp) as ((H1 & H2 & H3) & _ & Hl & _). split; [exact H1|]. split; [lia|exact Hl]. Qed.

Lemma agrees_free n s v p : agrees n s v -> p ∈ v_free v -> p mod 4096 = 0 /\ KERNBASE < p < KERNBASE + PHYSTOP /\ v_mem v !! p = None.
Proof.
  intros [A P] Hp. destruct (proj1 (Forall_forall _ _) (flist_pages _ _ _ (as_list _ _ _ _ A)) p Hp) as (H1 & H2 & H3).
  split; [exact H1|]. split; [lia|]. apply eq_None_not_Some. intros [bs Hbs]. destruct (P p bs Hbs) as (_ & Hn & _). contradiction.
Qed.

(** The bytes of a mapped page. *)
Lemma page_bytes (m : pages) p : mapped m p PGSIZE -> exists bs, Z.of_nat (length bs) = 4096 /\ holds m p bs.
Proof.
  intros Hm. exists ((fun i => default 0 (load8 m (p + i))) <$> seqZ 0 PGSIZE). split; [rewrite length_fmap, length_seqZ; apply Z2Nat.id; discriminate|].
  intros i x Hx. rewrite list_lookup_fmap in Hx. destruct (seqZ 0 PGSIZE !! i) as [j|] eqn:E; [|discriminate].
  injection Hx as <-. apply lookup_seqZ in E as [-> Hi]. destruct (Hm (Z.of_nat i) ltac:(lia)) as [y Hy]. rewrite Z.add_0_l. cbn in Hy |- *. rewrite Hy. reflexivity.
Qed.

(** The bytes [new] in the place of some of a page. *)
Lemma holds_splice (m m' : pages) p bs off new : holds m p bs -> 0 <= off -> off + Z.of_nat (length new) <= Z.of_nat (length bs) ->
  same_outside m m' (p + off) (Z.of_nat (length new)) -> holds m' (p + off) new -> holds m' p (splice (Z.to_nat off) new bs).
Proof.
  intros Hh Ho Hl Hs Hn i x Hx. rewrite lookup_splice in Hx by lia. destruct (decide _) as [Hi|Hi].
  - replace (p + Z.of_nat i) with (p + off + Z.of_nat (i - Z.to_nat off)) by lia. apply Hn, Hx.
  - rewrite Hs by lia. apply Hh, Hx.
Qed.

Lemma agrees_kalloc n s v (Q : Z -> kstate -> Prop) : agrees (S n) s v ->
  (v_free v = [] -> forall s', agrees n s' v -> Q 0 s') ->
  (forall p l bs s', v_free v = p :: l -> Z.of_nat (length bs) = 4096 -> agrees n s' (PView l (<[p := bs]> (v_mem v))) -> Q p s') ->
  wp Kalloc.kalloc Q s.
Proof.
  intros [A P] H0 H1. eapply wp_kalloc; [exact A|]. intros s' A' Hm _. destruct (v_free v) as [|p l] eqn:El; cbn [tail head default] in *.
  - apply H0; [reflexivity|]. split; rewrite ?El; [exact A'|]. intros q qs Hq. rewrite Hm. exact (P q qs Hq).
  - pose proof (as_list _ _ _ _ A) as (_ & Hok & Hmp & _). pose proof (as_nodup _ _ _ _ A) as Hnd. apply NoDup_cons in Hnd as [Hnp Hnd].
    destruct (page_bytes _ _ Hmp) as (bs & Hl & Hh). eapply H1; [reflexivity|exact Hl|]. split; cbn [v_free v_mem]; [exact A'|].
    intros q qs Hq. rewrite Hm. destruct (decide (q = p)) as [->|Hne].
    + rewrite lookup_insert_eq in Hq. injection Hq as <-. auto.
    + rewrite lookup_insert_ne in Hq by (apply not_eq_sym, Hne). destruct (P q qs Hq) as (Hq1 & Hq2 & Hq3). split; [exact Hq1|].
      split; [|exact Hq3]. intros Hin. apply Hq2. right. exact Hin.
Qed.

Lemma agrees_kfree n s v p (Q : unit -> kstate -> Prop) : agrees (S n) s v -> is_Some (v_mem v !! p) ->
  (forall s', agrees n s' (PView (p :: v_free v) (delete p (v_mem v))) -> Q tt s') -> wp (Kalloc.kfree p) Q s.
Proof.
  intros A [bs Hp] HQ. pose proof (agrees_mapped _ _ _ _ _ A Hp) as Hm. destruct A as [A P]. destruct (P p bs Hp) as (Hok & Hnf & _ & _).
  eapply wp_kfree; [exact A|exact Hok|exact Hnf|exact Hm|]. intros s' A' Hs _ _. apply HQ. split; cbn [v_free v_mem]; [exact A'|].
  intros q qs Hq. apply lookup_delete_Some in Hq as [Hne Hq]. destruct (P q qs Hq) as (Hq1 & Hq2 & Hq3 & Hq4). split; [exact Hq1|].
  split; [apply not_elem_of_cons; auto|]. split; [exact Hq3|]. eapply holds_same_outside; [exact Hq4|exact Hs|].
  rewrite Hq3. pose proof (pages_apart p q Hok Hq1 Hne). unfold PGSIZE in *. lia.
Qed.

Lemma agrees_ld32 n s v p bs i (Q : Z -> kstate -> Prop) : agrees n s v -> v_mem v !! p = Some bs -> 0 <= i < 1024 ->
  Q (le_word (window (4 * Z.to_nat i) 4 bs)) s -> wp (on_mem (load32 (p + 4 * i))) Q s.
Proof.
  intros [_ P] Hp Hi HQ. destruct (P p bs Hp) as (_ & _ & Hl & Hh). apply wp_on_mem.
  apply (wp_load32 _ (window (4 * Z.to_nat i) 4 bs)); [apply length_window; lia| |rewrite set_mem_same by reflexivity; exact HQ].
  intros j x Hx. pose proof (lookup_lt_Some _ _ _ Hx) as Hj. rewrite length_window in Hj by lia. rewrite lookup_window in Hx by lia.
  replace (p + 4 * i + Z.of_nat j) with (p + Z.of_nat (4 * Z.to_nat i + j)) by lia. apply Hh, Hx.
Qed.

(** A store of bytes into an allocated page. *)
Lemma agrees_store n s v p bs off new (f : K pages unit) (Q : unit -> kstate -> Prop) : agrees n s v -> v_mem v !! p = Some bs ->
  0 <= off -> off + Z.of_nat (length new) <= 4096 ->
  (forall m (R : unit -> pages -> Prop), mapped m (p + off) (Z.of_nat (length new)) ->
     (forall m', holds m' (p + off) new -> same_outside m m' (p + off) (Z.of_nat (length new)) -> R tt m') -> wp f R m) ->
  (forall s', agrees n s' (PView (v_free v) (<[p := splice (Z.to_nat off) new bs]> (v_mem v))) -> Q tt s') -> wp (on_mem f) Q s.
Proof.
  intros A Hp Ho Hl Hf HQ. pose proof (agrees_mapped _ _ _ _ _ A Hp) as Hm. destruct (ag_page _ _ _ A p bs Hp) as (_ & _ & Hlb & Hh).
  apply wp_on_mem, Hf.
  - intros j Hj. rewrite <- Z.add_assoc. apply Hm. unfold PGSIZE. lia.
  - intros m' Hh' Hs. apply HQ. apply (agrees_write n s v m' p bs); [exact A|exact Hp|rewrite length_splice; lia| |].
    + eapply same_outside_weaken; [exact Hs|lia|]. unfold PGSIZE. lia.
    + eapply holds_splice; [exact Hh|lia|lia|exact Hs|exact Hh'].
Qed.

Lemma splice_whole (bs new : list Z) : length new = length bs -> splice 0 new bs = new.
Proof. intros E. unfold splice. cbn [take app Nat.add]. rewrite E, drop_all. apply app_nil_r. Qed.

#[export] Instance kernel_pages : PageMemory kstate.
Proof.
  refine {|
    PageMem.kalloc := Kalloc.kalloc;
    PageMem.kfree := Kalloc.kfree;
    ld32 := fun a => on_mem (load32 a);
    st32 := fun a w => on_mem (store32 a w);
    fill := fun p c => on_mem (CString.memset p c PGSIZE ;; skip);
    copy := fun p q => on_mem (CString.memmove p q PGSIZE ;; skip);
    put := fun a bs => on_mem (store_bytes a bs);
    say := fun m => cprintf m [];
    shows := agrees;
  |}.
  - intros n n' s v [A P] Hle. split; [|exact P]. destruct A as [A1 A2 A3 A4 (sts & A5 & A6)]. split; try assumption.
    exists sts. split; [exact A5|]. eapply Forall_impl; [exact A6|]. cbv beta. lia.
  - exact agrees_range.
  - exact agrees_free.
  - intros n s v [A _]. apply A.
  - exact agrees_kalloc.
  - exact agrees_kfree.
  - exact agrees_ld32.
  - intros n s v p bs i w Q A Hp Hi HQ.
    apply (agrees_store n s v p bs (4 * i) (le_bytes 4 w) _ Q A Hp); rewrite ?length_le_bytes; try lia.
    + intros m R Hm HR. apply wp_store_bytes; rewrite length_le_bytes; assumption.
    + replace (Z.to_nat (4 * i)) with (4 * Z.to_nat i)%nat by lia. exact HQ.
  - intros n s v p c Q A [bs Hp] HQ. destruct (agrees_range _ _ _ _ _ A Hp) as (_ & _ & Hl).
    apply (agrees_store n s v p bs 0 (replicate (Z.to_nat 4096) (u8 c)) _ Q A Hp); rewrite ?length_replicate; try lia.
    + intros m R Hm HR. rewrite Z.add_0_r in *. apply wp_bind, wp_memset; [discriminate|exact Hm|]. intros m' H1 H2. wp_step. apply HR; assumption.
    + rewrite splice_whole by (rewrite length_replicate; lia). exact HQ.
  - intros n s v p q bs Q A [old Hp] Hq HQ. destruct (agrees_range _ _ _ _ _ A Hp) as (_ & _ & Hl).
    pose proof (agrees_mapped _ _ _ _ _ A Hp) as Hm. destruct (ag_page _ _ _ A q bs Hq) as (_ & _ & Hlb & Hh).
    apply wp_on_mem, wp_bind. apply (wp_memmove p q PGSIZE bs); [exact Hlb|exact Hh|exact Hm|].
    intros m' H1 H2. wp_step. apply HQ. apply (agrees_write n s v m' p old); assumption.
  - intros n s v p bs off new Q A Hp Ho Hl HQ. apply (agrees_store n s v p bs off new _ Q A Hp Ho Hl); [|exact HQ].
    intros m R Hm HR. apply wp_store_bytes; assumption.
  - intros n s v m Q [A P] HQ. apply wp_modify, HQ. split; [|exact P].
    eapply alloc_state_same; [exact A|reflexivity|reflexivity|reflexivity|reflexivity].
Defined.
End platform.
End KernelPages.
