(* ===== verification/Vm.v ===== *)
(** Page tables (vm.c) over any page memory.

    A page directory and a page table are pages of 1024 words; addresses are 32-bit.  Pointers to
    entries are addresses.  [0] stands for the null pointer where a function returns one; a pointer
    that is only tested is an [option].  The hardware side of vm.c, the segment descriptors
    and loading the page table register, is not modelled here; [switchuvm] is in Proc.v. *)

From S2P Require Import Prelude Kernel PageMem Fs.

Module Vm.
Import Kernel.

(** mmu.h *)
Definition PDXSHIFT : Z := 22.
Definition PTXSHIFT : Z := 12.
Definition NPDENTRIES : Z := 1024.
Definition NPTENTRIES : Z := 1024.
Definition PDX (va : Z) : Z := Z.land (Z.shiftr va PDXSHIFT) 0x3FF.
Definition PTX (va : Z) : Z := Z.land (Z.shiftr va PTXSHIFT) 0x3FF.
Definition PGROUNDDOWN (a : Z) : Z := Z.land a (Z.lnot (PGSIZE - 1)).
Definition PTE_P : Z := 0x001.
Definition PTE_W : Z := 0x002.
Definition PTE_U : Z := 0x004.
Definition PTE_ADDR (pte : Z) : Z := Z.land pte (Z.lnot 0xFFF).
Definition PTE_FLAGS (pte : Z) : Z := Z.land pte 0xFFF.

(** memlayout.h *)
Definition EXTMEM : Z := 0x100000.
Definition DEVSPACE : Z := 0xFE000000.
Definition KERNLINK : Z := KERNBASE + EXTMEM.
Definition P2V (a : Z) : Z := u32 (a + KERNBASE).

(** [x & flag] as a condition. *)
Definition test (x flag : Z) : bool := negb (Z.land x flag =? 0).

Section vm.
Context {S : Type} `{PageMemory S}.

Definition walkpgdir (pgdir va : Z) (alloc : bool) : K S (option Z) :=
  let pde := pgdir + 4 * PDX va in
  e ← ld32 pde;
  if test e PTE_P then mret (Some (P2V (PTE_ADDR e) + 4 * PTX va))
  else if negb alloc then mret None
  else
    pgtab ← kalloc;
    if pgtab =? 0 then mret None
    else
      fill pgtab 0 ;;
      st32 pde (Z.lor (Z.lor (Z.lor (V2P pgtab) PTE_P) PTE_W) PTE_U) ;;
      mret (Some (pgtab + 4 * PTX va)).

(** The loop makes one round for each page from [a] to [last]; [false] is the result -1. *)
Fixpoint mappages_loop (fuel : nat) (pgdir a last pa perm : Z) : K S bool :=
  match fuel with
  | O => fun _ => Spin
  | Datatypes.S fuel =>
      r ← walkpgdir pgdir a true;
      match r with
      | None => mret false
      | Some pte =>
          w ← ld32 pte;
          if test w PTE_P then panic "remap"
          else
            st32 pte (Z.lor (Z.lor pa perm) PTE_P) ;;
            if a =? last then mret true
            else mappages_loop fuel pgdir (u32 (a + PGSIZE)) last (u32 (pa + PGSIZE)) perm
      end
  end.
Definition mappages (pgdir va size pa perm : Z) : K S bool :=
  let a := PGROUNDDOWN va in
  let last := PGROUNDDOWN (u32 (u32 (va + size) - 1)) in
  mappages_loop (Datatypes.S (Z.to_nat (u32 (last - a) / PGSIZE))) pgdir a last pa perm.

Section image.
(** The address of the symbol [data] that the linker provides. *)
Context (data : Z).

Record kmap_entry := Kmap { virt : Z; phys_start : Z; phys_end : Z; perm : Z }.
Definition kmap : list kmap_entry :=
  [Kmap KERNBASE 0 EXTMEM PTE_W;
   Kmap KERNLINK (V2P KERNLINK) (V2P data) 0;
   Kmap data (V2P data) PHYSTOP PTE_W;
   Kmap DEVSPACE DEVSPACE 0 PTE_W].

Fixpoint map_entries (pgdir : Z) (ks : list kmap_entry) : K S bool :=
  match ks with
  | [] => mret true
  | k :: ks =>
      ok ← mappages pgdir (virt k) (u32 (phys_end k - phys_start k)) (phys_start k) (perm k);
      if ok : bool then map_entries pgdir ks else mret false
  end.
Definition setupkvm : K S Z :=
  pgdir ← kalloc;
  if pgdir =? 0 then mret 0
  else
    fill pgdir 0 ;;
    if DEVSPACE <? P2V PHYSTOP then panic "PHYSTOP too high"
    else
      ok ← map_entries pgdir kmap;
      mret (if ok : bool then pgdir else 0).
End image.

Definition inituvm (pgdir : Z) (init : list Z) (sz : Z) : K S unit :=
  if PGSIZE <=? sz then panic "inituvm: more than a page"
  else
    mem ← kalloc;
    fill mem 0 ;;
    mappages pgdir 0 PGSIZE (V2P mem) (Z.lor PTE_W PTE_U) ;;
    put mem (take (Z.to_nat sz) init).

(** [a] runs through the pages below [oldsz]; where there is no page table a round skips 4 MB. *)
Fixpoint deallocuvm_loop (fuel : nat) (pgdir a oldsz : Z) : K S unit :=
  if oldsz <=? a then skip
  else match fuel with
  | O => fun _ => Spin
  | Datatypes.S fuel =>
      r ← walkpgdir pgdir a false;
      match r with
      | None => deallocuvm_loop fuel pgdir (u32 (u32 (a + (NPTENTRIES - 1) * PGSIZE) + PGSIZE)) oldsz
      | Some pte =>
          w ← ld32 pte;
          (if test w PTE_P then
             let pa := PTE_ADDR w in
             if pa =? 0 then panic "kfree"
             else kfree (P2V pa) ;; st32 pte 0
           else skip) ;;
          deallocuvm_loop fuel pgdir (u32 (a + PGSIZE)) oldsz
      end
  end.
Definition deallocuvm (pgdir oldsz newsz : Z) : K S Z :=
  if oldsz <=? newsz then mret oldsz
  else
    deallocuvm_loop (Z.to_nat (oldsz / PGSIZE + 1)) pgdir (PGROUNDUP newsz) oldsz ;;
    mret newsz.

Fixpoint allocuvm_loop (fuel : nat) (pgdir oldsz newsz a : Z) : K S Z :=
  if newsz <=? a then mret newsz
  else match fuel with
  | O => fun _ => Spin
  | Datatypes.S fuel =>
      mem ← kalloc;
      if mem =? 0 then
        say "allocuvm out of memory" ;;
        deallocuvm pgdir newsz oldsz ;;
        mret 0
      else
        fill mem 0 ;;
        ok ← mappages pgdir a PGSIZE (V2P mem) (Z.lor PTE_W PTE_U);
        if negb ok then
          say "allocuvm out of memory (2)" ;;
          deallocuvm pgdir newsz oldsz ;;
          kfree mem ;;
          mret 0
        else allocuvm_loop fuel pgdir oldsz newsz (u32 (a + PGSIZE))
  end.
Definition allocuvm (pgdir oldsz newsz : Z) : K S Z :=
  if KERNBASE <=? newsz then mret 0
  else if newsz <? oldsz then mret oldsz
  else allocuvm_loop (Z.to_nat (newsz / PGSIZE + 1)) pgdir oldsz newsz (PGROUNDUP oldsz).

Definition freevm (pgdir : Z) : K S unit :=
  if pgdir =? 0 then panic "freevm: no pgdir"
  else
    deallocuvm pgdir KERNBASE 0 ;;
    forM (seqZ 0 NPDENTRIES) (fun i =>
      e ← ld32 (pgdir + 4 * i);
      if test e PTE_P then kfree (P2V (PTE_ADDR e)) else skip) ;;
    kfree pgdir.

Definition clearpteu (pgdir uva : Z) : K S unit :=
  r ← walkpgdir pgdir uva false;
  match r with
  | None => panic "clearpteu"
  | Some pte => w ← ld32 pte; st32 pte (Z.land w (Z.lnot PTE_U))
  end.

(** The loop of [copyuvm]; [false] is the jump to [bad]. *)
Fixpoint copyuvm_loop (fuel : nat) (pgdir d sz i : Z) : K S bool :=
  if sz <=? i then mret true
  else match fuel with
  | O => fun _ => Spin
  | Datatypes.S fuel =>
      r ← walkpgdir pgdir i false;
      match r with
      | None => panic "copyuvm: pte should exist"
      | Some pte =>
          w ← ld32 pte;
          if negb (test w PTE_P) then panic "copyuvm: page not present"
          else
            let pa := PTE_ADDR w in
            let flags := PTE_FLAGS w in
            mem ← kalloc;
            if mem =? 0 then mret false
            else
              copy mem (P2V pa) ;;
              ok ← mappages d i PGSIZE (V2P mem) flags;
              if negb ok then mret false
              else copyuvm_loop fuel pgdir d sz (u32 (i + PGSIZE))
      end
  end.
Definition copyuvm (data pgdir sz : Z) : K S Z :=
  d ← setupkvm data;
  if d =? 0 then mret 0
  else
    ok ← copyuvm_loop (Z.to_nat (sz / PGSIZE + 1)) pgdir d sz 0;
    if ok : bool then mret d else freevm d ;; mret 0.

Definition uva2ka (pgdir uva : Z) : K S Z :=
  r ← walkpgdir pgdir uva false;
  match r with
  | None => fault "null pointer"
  | Some pte =>
      w ← ld32 pte;
      mret (if negb (test w PTE_P) then 0 else if negb (test w PTE_U) then 0 else P2V (PTE_ADDR w))
  end.

(** [buf] holds the [len] bytes still to be copied. *)
Fixpoint copyout_loop (fuel : nat) (pgdir va : Z) (buf : list Z) : K S bool :=
  if Z.of_nat (length buf) <=? 0 then mret true
  else match fuel with
  | O => fun _ => Spin
  | Datatypes.S fuel =>
      let va0 := PGROUNDDOWN va in
      pa0 ← uva2ka pgdir va0;
      if pa0 =? 0 then mret false
      else
        let n := Z.min (PGSIZE - (va - va0)) (Z.of_nat (length buf)) in
        put (pa0 + (va - va0)) (take (Z.to_nat n) buf) ;;
        copyout_loop fuel pgdir (u32 (va0 + PGSIZE)) (drop (Z.to_nat n) buf)
  end.
Definition copyout (pgdir va : Z) (p : list Z) : K S bool := copyout_loop (length p) pgdir va p.

(** ** With the file system *)

Definition on_pages {A} (m : K S A) : K (S * Fs.fs) A := fun s =>
  '(a, x) ← m (fst s);
  Ok (a, (x, snd s)).
Definition on_disk {A} (m : K Fs.fs A) : K (S * Fs.fs) A := fun s =>
  '(a, x) ← m (snd s);
  Ok (a, (fst s, x)).

Section devices.
Context (devread : Z -> option (nat -> Z -> K Fs.fs (option (list Z)))).

Fixpoint loaduvm_loop (fuel : nat) (pgdir addr : Z) (ip : nat) (offset sz i : Z) : K (S * Fs.fs) bool :=
  if sz <=? i then mret true
  else match fuel with
  | O => fun _ => Spin
  | Datatypes.S fuel =>
      r ← on_pages (walkpgdir pgdir (u32 (addr + i)) false);
      match r with
      | None => panic "loaduvm: address should exist"
      | Some pte =>
          w ← on_pages (ld32 pte);
          let pa := PTE_ADDR w in
          let n := if sz - i <? PGSIZE then sz - i else PGSIZE in
          r ← on_disk (Fs.readi devread ip (u32 (offset + i)) n);
          match r with
          | None => mret false
          | Some bs =>
              on_pages (put (P2V pa) bs) ;;
              if negb (Z.of_nat (length bs) =? n) then mret false
              else loaduvm_loop fuel pgdir addr ip offset sz (u32 (i + PGSIZE))
          end
      end
  end.
Definition loaduvm (pgdir addr : Z) (ip : nat) (offset sz : Z) : K (S * Fs.fs) bool :=
  if negb (addr mod PGSIZE =? 0) then panic "loaduvm: addr must be page aligned"
  else loaduvm_loop (Z.to_nat (sz / PGSIZE + 1)) pgdir addr ip offset sz 0.
End devices.
End vm.
End Vm.
