(* ===== verification/VmFacts.v ===== *)
(** Page directories and page tables as maps (vm.c, modelled in Vm.v): what [walkpgdir] and
    [mappages] do to them. *)

From stdpp Require Import gmap.
From S2P Require Import Prelude Kernel PageMem Vm.

Module VmFacts.
Import Kernel Vm.

(** ** Entries *)

Lemma land_low x : Z.land x 0xFFF = x mod 4096.
Proof. exact (Z.land_ones x 12 ltac:(lia)). Qed.

Lemma land_high x : Z.land x (Z.lnot 0xFFF) = x - x mod 4096.
Proof.
  change 0xFFF with (Z.ones 12). rewrite <- Z.ldiff_land, Z.ldiff_ones_r, Z.shiftr_div_pow2, Z.shiftl_mul_pow2 by lia.
  change (2 ^ 12) with 4096. pose proof (Z.div_mod x 4096). lia.
Qed.

Lemma lor_aligned pa fl : pa mod 4096 = 0 -> 0 <= fl < 4096 -> Z.lor pa fl = pa + fl.
Proof.
  intros Hp Hf. assert (E : Z.land pa fl = 0).
  { rewrite <- (Z.mod_small fl 4096) by lia. rewrite <- land_low, (Z.land_comm fl), Z.land_assoc, land_low, Hp. apply Z.land_0_l. }
  rewrite <- Z.lxor_lor by exact E. symmetry. apply Z.add_nocarry_lxor, E.
Qed.

Lemma test_present x : test x PTE_P = Z.odd x.
Proof. unfold test, PTE_P. change 1 with (Z.ones 1). rewrite Z.land_ones by lia. change (2 ^ 1) with 2. rewrite Zmod_odd. destruct (Z.odd x); reflexivity. Qed.

(** The word for page [p] with flags [fl]. *)
Definition pte_of (p fl : Z) : Z := Z.lor (V2P p) fl.

Definition page_addr (p : Z) : Prop := p mod 4096 = 0 /\ KERNBASE < p < KERNBASE + PHYSTOP.

Lemma V2P_page p : page_addr p -> V2P p = p - KERNBASE /\ V2P p mod 4096 = 0 /\ 0 < V2P p < PHYSTOP.
Proof.
  intros [H1 H2]. unfold V2P, KERNBASE, PHYSTOP in *. rewrite u32_id by (unfold is_u32; lia). split; [reflexivity|]. split; [|lia].
  pose proof (Z.div_mod p 4096 ltac:(lia)). symmetry. apply (Z.mod_unique _ _ (p / 4096 - 524288)); lia.
Qed.

Lemma pte_of_add p fl : page_addr p -> 0 <= fl < 4096 -> pte_of p fl = p - KERNBASE + fl.
Proof. intros Hp Hf. destruct (V2P_page p Hp) as (E & Hm & _). unfold pte_of. rewrite lor_aligned, E by assumption. reflexivity. Qed.

Lemma pte_of_addr p fl : page_addr p -> 0 <= fl < 4096 -> PTE_ADDR (pte_of p fl) = V2P p.
Proof.
  intros Hp Hf. destruct (V2P_page p Hp) as (E & Hm & _). unfold PTE_ADDR, pte_of. rewrite lor_aligned, land_high by assumption.
  rewrite Zplus_mod, Hm, (Z.mod_small fl), Z.add_0_l, (Z.mod_small fl) by lia. lia.
Qed.

Lemma pte_of_flags p fl : page_addr p -> 0 <= fl < 4096 -> PTE_FLAGS (pte_of p fl) = fl.
Proof.
  intros Hp Hf. destruct (V2P_page p Hp) as (E & Hm & _). unfold PTE_FLAGS, pte_of. rewrite lor_aligned, land_low by assumption.
  rewrite Zplus_mod, Hm, (Z.mod_small fl), Z.add_0_l, (Z.mod_small fl) by lia. reflexivity.
Qed.

Lemma P2V_V2P p : page_addr p -> P2V (V2P p) = p.
Proof. intros Hp. destruct (V2P_page p Hp) as (E & _ & H). destruct Hp as [_ Hp]. unfold P2V. rewrite E, u32_id by (unfold is_u32, KERNBASE, PHYSTOP in *; lia). lia. Qed.

Lemma odd_aligned x fl : x mod 4096 = 0 -> Z.odd (x + fl) = Z.odd fl.
Proof.
  intros H. pose proof (Z.div_mod x 4096 ltac:(lia)) as E. rewrite H, Z.add_0_r in E. rewrite E, Z.odd_add, Z.odd_mul. apply xorb_false_l.
Qed.

Lemma pte_of_odd p fl : page_addr p -> 0 <= fl < 4096 -> Z.odd (pte_of p fl) = Z.odd fl.
Proof. intros Hp Hf. destruct (V2P_page p Hp) as (_ & Hm & _). unfold pte_of. rewrite lor_aligned by assumption. apply odd_aligned, Hm. Qed.

Lemma pte_of_u32 p fl : page_addr p -> 0 <= fl < 4096 -> is_u32 (pte_of p fl).
Proof. intros Hp Hf. rewrite pte_of_add by assumption. destruct Hp as [_ Hp]. unfold is_u32, KERNBASE, PHYSTOP in *. lia. Qed.

(** ** Addresses *)

Definition vpn (va : Z) : Z := va / 4096.

Lemma PDX_spec va : is_u32 va -> PDX va = vpn va / 1024 /\ 0 <= PDX va < 1024.
Proof.
  intros Hv. unfold PDX, vpn, PDXSHIFT. rewrite Z.shiftr_div_pow2 by lia. change 0x3FF with (Z.ones 10). rewrite Z.land_ones by lia.
  rewrite Z.div_div by lia. change (2 ^ 22) with (4096 * 1024). change (2 ^ 10) with 1024. unfold is_u32 in Hv.
  pose proof (Z.div_lt_upper_bound va (4096 * 1024) 1024 ltac:(lia) ltac:(lia)). pose proof (Z.div_pos va (4096 * 1024) ltac:(lia) ltac:(lia)).
  rewrite Z.mod_small by lia. split; [reflexivity|lia].
Qed.

Lemma PTX_spec va : PTX va = vpn va mod 1024 /\ 0 <= PTX va < 1024.
Proof.
  unfold PTX, vpn, PTXSHIFT. rewrite Z.shiftr_div_pow2 by lia. change 0x3FF with (Z.ones 10). rewrite Z.land_ones by lia.
  change (2 ^ 12) with 4096. change (2 ^ 10) with 1024. split; [reflexivity|]. apply Z.mod_pos_bound. lia.
Qed.

Lemma vpn_split va : is_u32 va -> vpn va = 1024 * PDX va + PTX va.
Proof. intros Hv. destruct (PDX_spec va Hv) as [-> _]. destruct (PTX_spec va) as [-> _]. apply Z.div_mod. lia. Qed.

Lemma vpn_next a : vpn (a + 4096) = vpn a + 1.
Proof. unfold vpn. replace (a + 4096) with (a + 1 * 4096) by lia. apply Z.div_add. lia. Qed.

Lemma PGROUNDDOWN_spec a : PGROUNDDOWN a = a - a mod 4096.
Proof. exact (land_high a). Qed.

Lemma PGROUNDDOWN_id a : a mod 4096 = 0 -> PGROUNDDOWN a = a.
Proof. intros H. rewrite PGROUNDDOWN_spec, H. lia. Qed.

(** ** Words of a page *)

Definition word (i : Z) (bs : list Z) : Z := le_word (window (4 * Z.to_nat i) 4 bs).
Definition set_word (i w : Z) (bs : list Z) : list Z := splice (4 * Z.to_nat i) (le_bytes 4 w) bs.
Definition zero_page : list Z := replicate (Z.to_nat 4096) 0.

Lemma word_set i j w bs : Z.of_nat (length bs) = 4096 -> 0 <= i < 1024 -> 0 <= j < 1024 -> is_u32 w ->
  word j (set_word i w bs) = if decide (j = i) then w else word j bs.
Proof.
  intros Hl Hi Hj Hw. unfold word, set_word. destruct (decide (j = i)) as [->|Hne].
  - rewrite window_same by (rewrite ?length_le_bytes; lia). apply le_word_u32, Hw.
  - rewrite window_other by (rewrite length_le_bytes; lia). reflexivity.
Qed.

Lemma word_zero i : 0 <= i < 1024 -> word i zero_page = 0.
Proof.
  intros Hi. unfold word, window, zero_page. rewrite drop_replicate, take_replicate.
  replace (4 `min` (Z.to_nat 4096 - 4 * Z.to_nat i))%nat with 4%nat by lia. reflexivity.
Qed.

(** ** Page tables *)

(** The directory, the page tables by index, and the entries present by page number. *)
Record aspace := Aspace { dir : Z; tables : gmap Z Z; ptes : gmap Z Z }.

Definition entry (t : option Z) : Z := match t with None => 0 | Some p => pte_of p 7 end.

Record tables_ok (sp : aspace) (m : gmap Z (list Z)) : Prop := {
  tb_dir : exists bs, m !! dir sp = Some bs /\ forall i, 0 <= i < 1024 -> word i bs = entry (tables sp !! i);
  tb_table : forall i t, tables sp !! i = Some t -> 0 <= i < 1024 /\ t <> dir sp /\
    exists bs, m !! t = Some bs /\ forall j, 0 <= j < 1024 -> word j bs = default 0 (ptes sp !! (1024 * i + j));
  tb_inj : forall i j t, tables sp !! i = Some t -> tables sp !! j = Some t -> i = j;
  tb_pte : forall k w, ptes sp !! k = Some w -> is_Some (tables sp !! (k / 1024)) /\ is_u32 w /\ Z.odd w = true;
}.

(** [m'] has the tables of [sp'], which has those of [sp] and new ones. *)
Record tgrow (sp : aspace) (m : gmap Z (list Z)) (sp' : aspace) (m' : gmap Z (list Z)) : Prop := {
  tg_dir : dir sp' = dir sp;
  tg_ok : tables_ok sp' m';
  tg_old : forall i t, tables sp !! i = Some t -> tables sp' !! i = Some t;
  tg_new : forall i t, tables sp' !! i = Some t -> tables sp !! i = Some t \/ (tables sp !! i = None /\ m !! t = None);
  tg_frame : forall p, p <> dir sp -> (forall i, tables sp' !! i <> Some p) -> m' !! p = m !! p;
}.

Lemma tgrow_refl sp m : tables_ok sp m -> tgrow sp m sp m.
Proof. intros T. constructor; auto. Qed.

Lemma tgrow_trans sp m sp1 m1 sp2 m2 : tgrow sp m sp1 m1 -> tgrow sp1 m1 sp2 m2 -> tgrow sp m sp2 m2.
Proof.
  intros A B. pose proof (tg_dir _ _ _ _ A) as Ed. constructor.
  - rewrite (tg_dir _ _ _ _ B). exact Ed.
  - apply B.
  - intros i t Hi. apply B, A, Hi.
  - intros i t Hi. destruct (tg_new _ _ _ _ B i t Hi) as [H1|[H1 H2]]; [exact (tg_new _ _ _ _ A i t H1)|]. right.
    destruct (tables sp !! i) as [t0|] eqn:E0; [rewrite (tg_old _ _ _ _ A i t0 E0) in H1; discriminate|]. split; [reflexivity|].
    rewrite <- (tg_frame _ _ _ _ A t); [exact H2| |].
    + intros ->. destruct (tb_dir _ _ (tg_ok _ _ _ _ A)) as (bs & Hbs & _). rewrite Ed in Hbs. congruence.
    + intros j Hj. destruct (tb_table _ _ (tg_ok _ _ _ _ A) j t Hj) as (_ & _ & bs & Hbs & _). congruence.
  - intros p Hp Hn. rewrite (tg_frame _ _ _ _ B p); [|rewrite Ed; exact Hp|exact Hn]. apply (tg_frame _ _ _ _ A p Hp).
    intros i Hi. apply (Hn i), B, Hi.
Qed.

Section vm.
Context {S : Type} `{PageMemory S}.

Lemma shows_addr n s v p : shows n s v -> is_Some (v_mem v !! p) -> page_addr p.
Proof. intros Hs [bs Hp]. destruct (law_page n s v p bs Hs Hp) as (H1 & H2 & _). split; assumption. Qed.

Lemma shows_length n s v p bs : shows n s v -> v_mem v !! p = Some bs -> Z.of_nat (length bs) = 4096.
Proof. intros Hs Hp. apply (law_page n s v p bs Hs Hp). Qed.

Lemma table_addr n s free sp m i t : shows n s (PView free m) -> tables_ok sp m -> tables sp !! i = Some t -> page_addr t.
Proof. intros Hs T Hi. destruct (tb_table _ _ T i t Hi) as (_ & _ & bs & Hbs & _). apply (shows_addr n s _ t Hs). exists bs. exact Hbs. Qed.

Lemma entry_odd n s free sp m i : shows n s (PView free m) -> tables_ok sp m -> 
  Z.odd (entry (tables sp !! i)) = bool_decide (is_Some (tables sp !! i)).
Proof.
  intros Hs T. destruct (tables sp !! i) as [t|] eqn:Ei; cbn [entry].
  - rewrite pte_of_odd by (try lia; exact (table_addr _ _ _ _ _ _ _ Hs T Ei)). reflexivity.
  - reflexivity.
Qed.

(** The entry of the directory. *)
Lemma wp_ld_dir n s free sp m i (Q : Z -> S -> Prop) : shows n s (PView free m) -> tables_ok sp m -> 0 <= i < 1024 ->
  Q (entry (tables sp !! i)) s -> wp (ld32 (dir sp + 4 * i)) Q s.
Proof.
  intros Hs T Hi HQ. destruct (tb_dir _ _ T) as (bs & Hbs & He). eapply law_ld32; [exact Hs|exact Hbs|exact Hi|].
  change (Q (word i bs) s). rewrite He by exact Hi. exact HQ.
Qed.

(** [walkpgdir] where the page table exists or is not wanted. *)
Lemma wp_walk n s free sp m va alloc (Q : option Z -> S -> Prop) : shows n s (PView free m) -> tables_ok sp m -> is_u32 va ->
  (alloc = false \/ is_Some (tables sp !! PDX va)) -> Q ((fun t => t + 4 * PTX va) <$> tables sp !! PDX va) s ->
  wp (walkpgdir (dir sp) va alloc) Q s.
Proof.
  intros Hs T Hva Ha HQ. destruct (PDX_spec va Hva) as [_ Hd]. unfold walkpgdir. apply wp_bind.
  eapply wp_ld_dir; [exact Hs|exact T|exact Hd|]. rewrite test_present, (entry_odd _ _ _ _ _ _ Hs T).
  destruct (tables sp !! PDX va) as [t|] eqn:Et; cbn [entry fmap option_fmap option_map] in *.
  - rewrite bool_decide_eq_true_2 by eauto. pose proof (table_addr _ _ _ _ _ _ _ Hs T Et) as Ht.
    rewrite pte_of_addr, P2V_V2P by (try exact Ht; lia). wp_step. exact HQ.
  - rewrite bool_decide_eq_false_2 by (intros [? ?]; discriminate). destruct Ha as [->|[? ?]]; [|discriminate]. cbn [negb]. wp_step. exact HQ.
Qed.

(** ** A new page table *)

Definition add_table (i p : Z) (sp : aspace) : aspace := Aspace (dir sp) (<[i := p]> (tables sp)) (ptes sp).

Lemma tables_add n s free sp m i p : shows n s (PView free m) -> page_addr p -> tables_ok sp m -> 0 <= i < 1024 -> tables sp !! i = None -> m !! p = None ->
  forall bs, m !! dir sp = Some bs -> tgrow sp m (add_table i p sp) (<[dir sp := set_word i (pte_of p 7) bs]> (<[p := zero_page]> m)).
Proof.
  intros Hs Hpa T Hi Hti Hp bs Hbs. pose proof (tb_dir _ _ T) as (bs' & Hbs' & He). assert (bs' = bs) by congruence. subst bs'.
  assert (Hpd : p <> dir sp) by congruence. pose proof (shows_length n s _ _ bs Hs Hbs) as Hl.
  assert (Hnt : forall j, tables sp !! j <> Some p).
  { intros j Hj. destruct (tb_table _ _ T j p Hj) as (_ & _ & bs' & Hb & _). congruence. }
  constructor; cbn [dir tables ptes add_table].
  - reflexivity.
  - constructor; cbn [dir tables ptes add_table].
    + eexists. split; [apply lookup_insert_eq|]. intros j Hj. rewrite word_set; [|exact Hl|exact Hi|exact Hj|apply pte_of_u32; [exact Hpa|lia]].
      destruct (decide (j = i)) as [->|Hne]; [rewrite lookup_insert_eq; reflexivity|]. rewrite lookup_insert_ne by congruence. apply He, Hj.
    + intros j t Hj. destruct (decide (j = i)) as [->|Hne].
      * rewrite lookup_insert_eq in Hj. injection Hj as <-. split; [exact Hi|]. split; [exact Hpd|]. exists zero_page.
        split; [rewrite lookup_insert_ne by congruence; apply lookup_insert_eq|]. intros k Hk. rewrite word_zero by exact Hk.
        destruct (ptes sp !! (1024 * i + k)) as [w|] eqn:Ew; [|reflexivity]. exfalso.
        destruct (tb_pte _ _ T _ _ Ew) as [[t Ht] _]. replace ((1024 * i + k) / 1024) with i in Ht; [congruence|].
        apply (Z.div_unique _ _ _ k); lia.
      * rewrite lookup_insert_ne in Hj by congruence. destruct (tb_table _ _ T j t Hj) as (Hj1 & Hj2 & bt & Hbt & Hw).
        split; [exact Hj1|]. split; [exact Hj2|]. exists bt. split; [|exact Hw].
        rewrite !lookup_insert_ne; [exact Hbt| |congruence]. intros <-. congruence.
    + intros j k t Hj Hk. destruct (decide (j = i)) as [->|Hji], (decide (k = i)) as [->|Hki];
        rewrite ?lookup_insert_eq, ?lookup_insert_ne in Hj by congruence; rewrite ?lookup_insert_eq, ?lookup_insert_ne in Hk by congruence;
        [reflexivity| | |exact (tb_inj _ _ T j k t Hj Hk)]; exfalso; [injection Hj as <-; exact (Hnt k Hk)|injection Hk as <-; exact (Hnt j Hj)].
    + intros k w Hk. destruct (tb_pte _ _ T k w Hk) as ([t Ht] & H2). split; [|exact H2]. exists t. rewrite lookup_insert_ne; [exact Ht|]. congruence.
  - intros j t Hj. rewrite lookup_insert_ne; [exact Hj|]. congruence.
  - intros j t Hj. destruct (decide (j = i)) as [->|Hne]; [rewrite lookup_insert_eq in Hj; injection Hj as <-; right; auto|].
    left. rewrite lookup_insert_ne in Hj by congruence. exact Hj.
  - intros q Hq Hn. rewrite !lookup_insert_ne; [reflexivity| |congruence]. intros <-. apply (Hn i), lookup_insert_eq.
Qed.

(** ** Changing an entry *)

(** [w] is [0] or present. *)
Definition set_pte (k w : Z) (sp : aspace) : aspace :=
  Aspace (dir sp) (tables sp) (if w =? 0 then delete k (ptes sp) else <[k := w]> (ptes sp)).

Lemma lookup_set_pte k w sp j : ptes (set_pte k w sp) !! j = if decide (j = k) then (if w =? 0 then None else Some w) else ptes sp !! j.
Proof.
  unfold set_pte. cbn [ptes]. destruct (w =? 0), (decide (j = k)) as [->|Hne]; rewrite ?lookup_delete_eq, ?lookup_insert_eq; try reflexivity;
    [apply lookup_delete_ne|apply lookup_insert_ne]; congruence.
Qed.

Lemma tables_set n s free sp m i j t bs w : shows n s (PView free m) -> tables_ok sp m -> tables sp !! i = Some t -> m !! t = Some bs -> 0 <= j < 1024 ->
  is_u32 w -> (w = 0 \/ Z.odd w = true) -> tgrow sp m (set_pte (1024 * i + j) w sp) (<[t := set_word j w bs]> m).
Proof.
  intros Hs T Hi Hbs Hj Hw Hodd. destruct (tb_table _ _ T i t Hi) as (Hir & Htd & bs' & Hb & Hwd). assert (bs' = bs) by congruence. subst bs'.
  pose proof (shows_length n s _ _ bs Hs Hbs) as Hl. constructor; cbn [dir tables set_pte].
  - reflexivity.
  - constructor; cbn [dir tables set_pte].
    + destruct (tb_dir _ _ T) as (bd & Hbd & He). exists bd. split; [rewrite lookup_insert_ne by congruence; exact Hbd|exact He].
    + intros k u Hk. destruct (tb_table _ _ T k u Hk) as (Hk1 & Hk2 & bu & Hbu & Hwu). split; [exact Hk1|]. split; [exact Hk2|].
      destruct (decide (k = i)) as [->|Hne].
      * assert (u = t) by congruence. subst u. exists (set_word j w bs). split; [apply lookup_insert_eq|]. intros l Hlr.
        rewrite word_set, lookup_set_pte by assumption. destruct (decide (l = j)) as [->|Hlj].
        -- rewrite decide_True by reflexivity. destruct (w =? 0) eqn:E; [apply Z.eqb_eq in E; exact E|reflexivity].
        -- rewrite decide_False by lia. apply Hwd, Hlr.
      * exists bu. split.
        { rewrite lookup_insert_ne; [exact Hbu|]. intros ->. apply Hne, (tb_inj _ _ T k i u Hk Hi). }
        intros l Hlr. rewrite lookup_set_pte, decide_False by lia. apply Hwu, Hlr.
    + exact (tb_inj _ _ T).
    + intros k v Hk. rewrite lookup_set_pte in Hk. destruct (decide (k = 1024 * i + j)) as [->|Hne]; [|exact (tb_pte _ _ T k v Hk)].
      destruct (w =? 0) eqn:E; [discriminate|]. injection Hk as <-. apply Z.eqb_neq in E.
      replace ((1024 * i + j) / 1024) with i by (apply (Z.div_unique _ _ _ j); lia). split; [eauto|]. split; [exact Hw|]. destruct Hodd; [contradiction|assumption].
  - auto.
  - auto.
  - intros p Hp Hn. apply lookup_insert_ne. intros <-. exact (Hn i Hi).
Qed.

(** ** [walkpgdir] that may allocate *)

Lemma size_add (t : gmap Z Z) i p : t !! i = None -> base.size (<[i := p]> t) = (1 + base.size t)%nat.
Proof. apply map_size_insert_None. Qed.

(** Tables are added at the indices [P] only, one for each page taken. *)
Record tables_added (P : Z -> Prop) (sp : aspace) (free : list Z) (sp' : aspace) (free' : list Z) : Prop := {
  ta_count : (length free' + base.size (tables sp') = length free + base.size (tables sp))%nat;
  ta_where : forall i, is_Some (tables sp' !! i) -> is_Some (tables sp !! i) \/ P i;
}.

Lemma tables_added_refl P sp free : tables_added P sp free sp free.
Proof. split; auto. Qed.

Lemma tables_added_trans (P P1 P2 : Z -> Prop) sp free sp1 free1 sp2 free2 : (forall i, P1 i -> P i) -> (forall i, P2 i -> P i) ->
  tables_added P1 sp free sp1 free1 -> tables_added P2 sp1 free1 sp2 free2 -> tables_added P sp free sp2 free2.
Proof.
  intros H1 H2 [A1 A2] [B1 B2]. split; [lia|]. intros i Hi. destruct (B2 i Hi) as [Hi1|Hp]; [|auto]. destruct (A2 i Hi1) as [Hi0|Hp]; auto.
Qed.

Lemma wp_walk_alloc n s free sp m va (Q : option Z -> S -> Prop) : shows (1 + n) s (PView free m) -> tables_ok sp m -> is_u32 va ->
  (forall s', tables sp !! PDX va = None -> free = [] -> shows n s' (PView free m) -> Q None s') ->
  (forall s' sp' free' m' t, tgrow sp m sp' m' -> shows n s' (PView free' m') -> tables sp' !! PDX va = Some t -> ptes sp' = ptes sp ->
     tables_added (fun i => i = PDX va) sp free sp' free' -> Q (Some (t + 4 * PTX va)) s') ->
  wp (walkpgdir (dir sp) va true) Q s.
Proof.
  intros Hs T Hva H0 H1. destruct (PDX_spec va Hva) as [_ Hd]. destruct (tables sp !! PDX va) as [t|] eqn:Et.
  - eapply wp_walk; [exact Hs|exact T|exact Hva|right; eauto|]. rewrite Et. cbn.
    apply (H1 s sp free m t); [apply tgrow_refl, T|eapply law_weaken; [exact Hs|lia]|exact Et|reflexivity|apply tables_added_refl].
  - unfold walkpgdir. apply wp_bind. eapply wp_ld_dir; [exact Hs|exact T|exact Hd|]. rewrite Et. cbn [entry]. change (test 0 PTE_P) with false. cbn [negb].
    apply wp_bind. eapply law_kalloc; [exact Hs| |]; cbn [v_free v_mem].
    + intros -> s' Hs'. cbn. wp_step. apply H0; auto.
    + intros p l bs0 s1 -> Hl0 Hs1. pose proof (law_free _ _ _ p Hs ltac:(left)) as (Hp1 & Hp2 & Hp3). cbn [v_mem] in Hp3.
      assert (Hpa : page_addr p) by (split; assumption). rewrite (proj2 (Z.eqb_neq p 0)) by (unfold KERNBASE in Hp2; lia).
      apply wp_bind. eapply law_fill; [exact Hs1|cbn [v_mem]; rewrite lookup_insert_eq; eauto|]. cbn [v_free v_mem]. intros s2 Hs2.
      rewrite insert_insert_eq in Hs2. destruct (tb_dir _ _ T) as (bs & Hbs & He). change (replicate (Z.to_nat 4096) (u8 0)) with zero_page in Hs2.
      assert (Hpd : p <> dir sp) by congruence.
      apply wp_bind. eapply (law_st32 _ _ _ _ bs); [exact Hs2|cbn [v_mem]; rewrite lookup_insert_ne by exact Hpd; exact Hbs|exact Hd|].
      cbn [v_free v_mem]. intros s3 Hs3. replace (Z.lor (Z.lor (Z.lor (V2P p) PTE_P) PTE_W) PTE_U) with (pte_of p 7) in Hs3 by (unfold pte_of; rewrite <- !Z.lor_assoc; reflexivity).
      wp_step. apply (H1 s3 (add_table (PDX va) p sp) l (<[dir sp := set_word (PDX va) (pte_of p 7) bs]> (<[p := zero_page]> m)) p).
      * eapply tables_add; eassumption.
      * exact Hs3.
      * apply lookup_insert_eq.
      * reflexivity.
      * split; cbn [tables add_table]; [rewrite size_add by exact Et; cbn [length]; lia|]. intros i Hi.
        destruct (decide (i = PDX va)) as [->|Hne]; [right; reflexivity|left]. rewrite lookup_insert_ne in Hi by congruence. exact Hi.
Qed.

(** The entry of an address. *)
Lemma wp_ld_pte n s free sp m va t (Q : Z -> S -> Prop) : shows n s (PView free m) -> tables_ok sp m -> is_u32 va ->
  tables sp !! PDX va = Some t -> Q (default 0 (ptes sp !! vpn va)) s -> wp (ld32 (t + 4 * PTX va)) Q s.
Proof.
  intros Hs T Hva Ht HQ. destruct (tb_table _ _ T _ _ Ht) as (_ & _ & bs & Hbs & Hw). destruct (PTX_spec va) as [_ Hx].
  eapply law_ld32; [exact Hs|exact Hbs|exact Hx|]. change (Q (word (PTX va) bs) s). rewrite Hw, <- vpn_split by assumption. exact HQ.
Qed.

Lemma wp_st_pte n s free sp m va t w (Q : unit -> S -> Prop) : shows n s (PView free m) -> tables_ok sp m -> is_u32 va ->
  tables sp !! PDX va = Some t -> is_u32 w -> (w = 0 \/ Z.odd w = true) ->
  (forall s' m', tgrow sp m (set_pte (vpn va) w sp) m' -> shows n s' (PView free m') -> Q tt s') -> wp (st32 (t + 4 * PTX va) w) Q s.
Proof.
  intros Hs T Hva Ht Hw Ho HQ. destruct (tb_table _ _ T _ _ Ht) as (_ & _ & bs & Hbs & _). destruct (PTX_spec va) as [_ Hx].
  eapply law_st32; [exact Hs|exact Hbs|exact Hx|]. cbn [v_free v_mem]. intros s' Hs'.
  eapply HQ; [|exact Hs']. rewrite vpn_split by exact Hva. eapply tables_set; eassumption.
Qed.

(** ** [mappages] *)

Definition leaf (pa perm : Z) : Z := Z.lor (Z.lor pa perm) PTE_P.

Lemma leaf_spec pa perm : pa mod 4096 = 0 -> 0 <= perm < 4096 -> leaf pa perm = pa + Z.lor perm 1 /\ 0 <= Z.lor perm 1 < 4096 /\ Z.odd (leaf pa perm) = true.
Proof.
  intros Hp Hf. assert (Hb : 0 <= Z.lor perm 1 < 4096) by (apply (lor_bounded 12); lia).
  unfold leaf, PTE_P. rewrite <- Z.lor_assoc, lor_aligned by assumption. split; [reflexivity|]. split; [exact Hb|].
  rewrite odd_aligned by exact Hp. rewrite <- Z.bit0_odd, Z.lor_spec. apply orb_true_r.
Qed.

(** The entries after [j] pages from page [x0] on have been mapped to [pa] and what follows it. *)
Definition mapped_to (x0 j pa perm : Z) (sp sp' : aspace) : Prop := forall x,
  ptes sp' !! x = if decide (x0 <= x < x0 + j) then Some (leaf (pa + 4096 * (x - x0)) perm) else ptes sp !! x.

Lemma mapped_to_none x0 pa perm sp : mapped_to x0 0 pa perm sp sp.
Proof. intros x. rewrite decide_False by lia. reflexivity. Qed.

Lemma mapped_to_next x0 j pa perm sp sp1 sp2 : 0 <= j -> ptes sp1 = ptes sp -> mapped_to (x0 + 1) j (pa + 4096) perm (set_pte x0 (leaf pa perm) sp1) sp2 ->
  leaf pa perm <> 0 -> mapped_to x0 (1 + j) pa perm sp sp2.
Proof.
  intros Hj E M Hl x. rewrite M, lookup_set_pte, E, (proj2 (Z.eqb_neq _ _) Hl). destruct (decide (x = x0)) as [->|Hne].
  - rewrite decide_False, decide_True by lia. f_equal. f_equal. lia.
  - destruct (decide (x0 + 1 <= x < x0 + 1 + j)).
    + rewrite decide_True by lia. f_equal. f_equal. lia.
    + rewrite decide_False by lia. reflexivity.
Qed.

Lemma mappages_loop_S fuel pgdir a last pa perm : mappages_loop (1 + fuel) pgdir a last pa perm =
  (r ← walkpgdir pgdir a true;
   match r with
   | None => mret false
   | Some pte =>
       w ← ld32 pte;
       if test w PTE_P then panic "remap"
       else
         st32 pte (leaf pa perm) ;;
         if a =? last then mret true else mappages_loop fuel pgdir (u32 (a + PGSIZE)) last (u32 (pa + PGSIZE)) perm
   end).
Proof. reflexivity. Qed.

Lemma wp_mappages_loop perm k : forall n s free sp m a pa, shows (1 + k + n) s (PView free m) -> tables_ok sp m ->
  a mod 4096 = 0 -> pa mod 4096 = 0 -> 0 <= perm < 4096 -> 0 <= a -> a + 4096 * (1 + Z.of_nat k) <= 2 ^ 32 -> 0 <= pa -> pa + 4096 * (1 + Z.of_nat k) <= 2 ^ 32 ->
  (forall x, vpn a <= x <= vpn a + Z.of_nat k -> ptes sp !! x = None) ->
  wp (mappages_loop (1 + k) (dir sp) a (a + 4096 * Z.of_nat k) pa perm) (fun ok s' => exists sp' free' m' j,
    tgrow sp m sp' m' /\ shows n s' (PView free' m') /\ mapped_to (vpn a) (Z.of_nat j) pa perm sp sp' /\
    tables_added (fun i => vpn a / 1024 <= i <= (vpn a + Z.of_nat (if ok : bool then j - 1 else j)) / 1024) sp free sp' free' /\
    if ok then j = (1 + k)%nat else (j <= k)%nat /\ free' = []) s.
Proof.
  induction k as [|k IH]; intros n s free sp m a pa Hs T Ha Hpa Hperm Ha0 Ha1 Hp0 Hp1 Hnone; rewrite mappages_loop_S.
  all: assert (Hau : is_u32 a) by (unfold is_u32; lia).
  all: destruct (PDX_spec a Hau) as [Epd _].
  all: apply wp_bind; match type of Hs with shows (1 + ?q + ?r) _ _ => eapply (wp_walk_alloc (q + r) _ _ _ _ a) end; [exact Hs|exact T|exact Hau| |].
  1,3: intros s' Ht Hf Hs'; wp_step; exists sp, free, m, O; split; [apply tgrow_refl, T|]; split; [eapply law_weaken; [exact Hs'|lia]|];
    split; [apply mapped_to_none|]; split; [apply tables_added_refl|]; split; [lia|exact Hf].
  all: intros s1 sp1 free1 m1 t G1 Hs1 Ht Ep A1; pose proof (tg_ok _ _ _ _ G1) as T1;
    apply wp_bind; eapply (wp_ld_pte _ s1 free1 sp1 m1 a t); [exact Hs1|exact T1|exact Hau|exact Ht|]; rewrite Ep, Hnone by lia; cbn [default];
    change (test 0 PTE_P) with false; cbv iota;
    destruct (leaf_spec pa perm Hpa Hperm) as (El & Hb & Ho); assert (Hlu : is_u32 (leaf pa perm)) by (unfold is_u32; rewrite El; pose proof (Z.div_mod pa 4096); lia);
    apply wp_bind; eapply (wp_st_pte _ s1 free1 sp1 m1 a t (leaf pa perm)); [exact Hs1|exact T1|exact Hau|exact Ht|exact Hlu|right; exact Ho|];
    intros s2 m2 G2 Hs2; pose proof (tgrow_trans _ _ _ _ _ _ G1 G2) as G; assert (Hl0 : leaf pa perm <> 0) by (intros E; rewrite E in Ho; discriminate).
  - rewrite (proj2 (Z.eqb_eq a (a + 4096 * Z.of_nat 0))) by lia. wp_step.
    exists (set_pte (vpn a) (leaf pa perm) sp1), free1, m2, 1%nat. split; [exact G|]. split; [exact Hs2|].
    split; [apply (mapped_to_next _ 0 _ _ _ sp1); [lia|exact Ep|apply mapped_to_none|exact Hl0]|]. split; [|reflexivity].
    destruct A1 as [A1 A2]. split; [exact A1|]. cbn [set_pte tables]. intros i Hi. destruct (A2 i Hi) as [Hold| ->]; [left; exact Hold|right].
    rewrite Epd. cbn. rewrite Z.add_0_r. lia.
  - rewrite (proj2 (Z.eqb_neq a (a + 4096 * Z.of_nat (Datatypes.S k)))) by lia. unfold PGSIZE. rewrite !u32_id by (unfold is_u32; lia).
    replace (a + 4096 * Z.of_nat (Datatypes.S k)) with (a + 4096 + 4096 * Z.of_nat k) by lia.
    set (sp2 := set_pte (vpn a) (leaf pa perm) sp1) in *. replace (dir sp) with (dir sp2) by (exact (tg_dir _ _ _ _ G)).
    eapply wp_mono; [apply (IH n s2 free1 sp2 m2 (a + 4096) (pa + 4096)); try lia; try assumption|].
    + apply G.
    + rewrite Zplus_mod, Ha. reflexivity.
    + rewrite Zplus_mod, Hpa. reflexivity.
    + intros x Hx. rewrite vpn_next in Hx. unfold sp2. rewrite lookup_set_pte, decide_False by lia. rewrite Ep. apply Hnone. lia.
    + intros ok s3 (sp3 & free3 & m3 & j & G3 & Hs3 & M3 & A3 & Hok). exists sp3, free3, m3, (1 + j)%nat.
      split; [exact (tgrow_trans _ _ _ _ _ _ G G3)|]. split; [exact Hs3|]. rewrite vpn_next in M3, A3. rewrite Nat2Z.inj_add.
      split; [apply (mapped_to_next _ _ _ _ _ sp1); [lia|exact Ep|exact M3|exact Hl0]|]. split; [|destruct ok; [lia|destruct Hok; split; [lia|assumption]]].
      assert (Hj : 0 <= Z.of_nat (if ok then j - 1 else j)) by lia. assert (Hj2 : ok = true -> (1 <= j)%nat) by (intros ->; lia).
      assert (A2 : tables_added (fun i => i = PDX a) sp free sp2 free1) by (destruct A1; split; assumption).
      eapply (tables_added_trans _ (fun i => i = PDX a)); [| |exact A2|exact A3].
      * intros i ->. rewrite Epd. split; [lia|]. apply Z.div_le_mono; lia.
      * cbv beta. intros i Hi. pose proof (Z.div_le_mono (vpn a) (vpn a + 1) 1024 ltac:(lia) ltac:(lia)). split; [lia|].
        etransitivity; [apply Hi|]. apply Z.div_le_mono; [lia|]. destruct ok; [specialize (Hj2 eq_refl)|]; lia.
Qed.

Lemma wp_mappages n s free sp m va pa perm k : shows (1 + k + n) s (PView free m) -> tables_ok sp m ->
  va mod 4096 = 0 -> pa mod 4096 = 0 -> 0 <= perm < 4096 -> 0 <= va -> va + 4096 * (1 + Z.of_nat k) <= 2 ^ 32 -> 0 <= pa -> pa + 4096 * (1 + Z.of_nat k) <= 2 ^ 32 ->
  (forall x, vpn va <= x <= vpn va + Z.of_nat k -> ptes sp !! x = None) ->
  wp (mappages (dir sp) va (4096 * (1 + Z.of_nat k)) pa perm) (fun ok s' => exists sp' free' m' j,
    tgrow sp m sp' m' /\ shows n s' (PView free' m') /\ mapped_to (vpn va) (Z.of_nat j) pa perm sp sp' /\
    tables_added (fun i => vpn va / 1024 <= i <= (vpn va + Z.of_nat (if ok : bool then j - 1 else j)) / 1024) sp free sp' free' /\
    if ok then j = (1 + k)%nat else (j <= k)%nat /\ free' = []) s.
Proof.
  intros Hs T Ha Hpa Hperm Ha0 Ha1 Hp0 Hp1 Hnone. unfold mappages. rewrite (PGROUNDDOWN_id va Ha).
  assert (El : PGROUNDDOWN (u32 (u32 (va + 4096 * (1 + Z.of_nat k)) - 1)) = va + 4096 * Z.of_nat k).
  { replace (u32 (u32 (va + 4096 * (1 + Z.of_nat k)) - 1)) with (va + 4096 * Z.of_nat k + 4095).
    - pose proof (Z.div_mod va 4096 ltac:(lia)). rewrite PGROUNDDOWN_spec, <- (Z.mod_unique _ 4096 (va / 4096 + Z.of_nat k) 4095); lia.
    - unfold u32. rewrite Zminus_mod_idemp_l, Z.mod_small; lia. }
  rewrite El. replace (va + 4096 * Z.of_nat k - va) with (Z.of_nat k * 4096) by lia. rewrite u32_id by (unfold is_u32; lia).
  unfold PGSIZE. rewrite Z.div_mul, Nat2Z.id by lia. apply wp_mappages_loop; assumption.
Qed.

(** ** The processor's view *)

Definition translate (m : gmap Z (list Z)) (d va : Z) : option Z :=
  bs ← m !! d;
  let e := word (PDX va) bs in
  if negb (Z.odd e) then None
  else
    pt ← m !! P2V (PTE_ADDR e);
    let w := word (PTX va) pt in
    if Z.odd w then Some w else None.

Lemma translate_spec n s free sp m va : shows n s (PView free m) -> tables_ok sp m -> is_u32 va ->
  translate m (dir sp) va = ptes sp !! vpn va.
Proof.
  intros Hs T Hva. destruct (PDX_spec va Hva) as [Ed Hd]. destruct (PTX_spec va) as [_ Hx]. unfold translate.
  destruct (tb_dir _ _ T) as (bs & Hbs & He). rewrite Hbs. cbn [mbind option_bind]. cbv zeta. rewrite He by exact Hd. rewrite (entry_odd _ _ _ _ _ _ Hs T).
  destruct (tables sp !! PDX va) as [t|] eqn:Et; cbn [entry].
  - rewrite bool_decide_eq_true_2 by eauto. cbn [negb]. pose proof (table_addr _ _ _ _ _ _ _ Hs T Et) as Ht. rewrite pte_of_addr, P2V_V2P by (try exact Ht; lia).
    destruct (tb_table _ _ T _ _ Et) as (_ & _ & bt & Hbt & Hw). rewrite Hbt. cbn [mbind option_bind]. rewrite Hw, <- vpn_split by assumption.
    destruct (ptes sp !! vpn va) as [w|] eqn:Ew; [|reflexivity]. change (default 0 (Some w)) with w. destruct (tb_pte _ _ T _ _ Ew) as (_ & _ & ->). reflexivity.
  - rewrite bool_decide_eq_false_2 by (intros [? ?]; discriminate). cbn [negb]. destruct (ptes sp !! vpn va) as [w|] eqn:Ew; [|reflexivity].
    destruct (tb_pte _ _ T _ _ Ew) as [[t Ht] _]. rewrite <- Ed in Ht. congruence.
Qed.

(** The tables only depend on their pages. *)
Lemma tables_ok_frame sp m m' : tables_ok sp m -> m' !! dir sp = m !! dir sp -> (forall i t, tables sp !! i = Some t -> m' !! t = m !! t) -> tables_ok sp m'.
Proof.
  intros [T1 T2 T3 T4] Hd Ht. constructor; [rewrite Hd; exact T1| |exact T3|exact T4].
  intros i t Hi. rewrite (Ht i t Hi). apply T2, Hi.
Qed.
End vm.
End VmFacts.
