(* ===== verification/VmUser.v ===== *)
(** Address spaces (vm.c, modelled in Vm.v): the pages of user memory that a page directory maps,
    and what [deallocuvm], [allocuvm], [freevm], [setupkvm], [copyuvm] and [copyout] do to them and
    to the pages of the machine. *)

From stdpp Require Import gmap.
From S2P Require Import Prelude Kernel Kalloc PageMem Vm VmFacts.

Module VmUser.
Import Kernel Vm VmFacts.

(** The number of pages below [KERNBASE]. *)
Definition KPN : Z := 524288.

Record upage := Upage { u_page : Z; u_flags : Z; u_bytes : list Z }.

(** [m] is the memory [R] and an address space: the directory, its page tables, and the user pages
    [us], by page number. *)
Record user_space (R : gmap Z (list Z)) (us : gmap Z upage) (sp : aspace) (m : gmap Z (list Z)) : Prop := {
  us_tables : tables_ok sp m;
  us_pte : forall k, 0 <= k < KPN -> ptes sp !! k = (fun u => pte_of (u_page u) (u_flags u)) <$> us !! k;
  us_range : forall k u, us !! k = Some u -> 0 <= k < KPN /\ 0 <= u_flags u < 4096 /\ Z.odd (u_flags u) = true;
  us_page : forall k u, us !! k = Some u -> m !! u_page u = Some (u_bytes u);
  us_apart : forall k u, us !! k = Some u -> u_page u <> dir sp /\ (forall i, tables sp !! i <> Some (u_page u));
  us_inj : forall k j u w, us !! k = Some u -> us !! j = Some w -> u_page u = u_page w -> k = j;
  us_frame : forall p, p <> dir sp -> (forall i, tables sp !! i <> Some p) -> (forall k u, us !! k = Some u -> u_page u <> p) -> m !! p = R !! p;
  us_fresh : R !! dir sp = None /\ (forall i t, tables sp !! i = Some t -> R !! t = None) /\ (forall k u, us !! k = Some u -> R !! u_page u = None);
}.

(** The kernel part of the entries. *)
Definition same_kernel (sp sp' : aspace) : Prop := forall k, ~ (0 <= k < KPN) -> ptes sp' !! k = ptes sp !! k.

Lemma same_kernel_trans sp sp1 sp2 : same_kernel sp sp1 -> same_kernel sp1 sp2 -> same_kernel sp sp2.
Proof. intros A B k Hk. rewrite (B k Hk). exact (A k Hk). Qed.

(** What the rest of the memory holds stays. *)
Lemma user_keeps R us sp m p bs : user_space R us sp m -> R !! p = Some bs -> m !! p = Some bs.
Proof.
  intros U Hp. destruct (us_fresh _ _ _ _ U) as (F1 & F2 & F3). rewrite (us_frame _ _ _ _ U p); [exact Hp|congruence| |].
  - intros i Hi. rewrite (F2 i p Hi) in Hp. discriminate.
  - intros k u Hk <-. rewrite (F3 k u Hk) in Hp. discriminate.
Qed.

(** A page that is not in memory belongs to nothing. *)
Lemma user_unused R us sp m p : user_space R us sp m -> m !! p = None ->
  p <> dir sp /\ (forall i, tables sp !! i <> Some p) /\ (forall k u, us !! k = Some u -> u_page u <> p) /\ R !! p = None.
Proof.
  intros U Hp. pose proof (us_tables _ _ _ _ U) as T.
  assert (H1 : p <> dir sp) by (intros ->; destruct (tb_dir _ _ T) as (? & ? & _); congruence).
  assert (H2 : forall i, tables sp !! i <> Some p).
  { intros i Hi. destruct (tb_table _ _ T i p Hi) as (_ & _ & ? & ? & _). congruence. }
  assert (H3 : forall k u, us !! k = Some u -> u_page u <> p).
  { intros k u Hk <-. rewrite (us_page _ _ _ _ U k u Hk) in Hp. discriminate. }
  repeat (split; [assumption|]). rewrite <- (us_frame _ _ _ _ U p); assumption.
Qed.

(** Page tables are added. *)
Lemma user_grow R us sp m sp' m' : user_space R us sp m -> tgrow sp m sp' m' -> (forall k, 0 <= k < KPN -> ptes sp' !! k = ptes sp !! k) ->
  user_space R us sp' m'.
Proof.
  intros U G Hp. pose proof (tg_dir _ _ _ _ G) as Ed.
  assert (Hn : forall i t, tables sp' !! i = Some t -> tables sp !! i = Some t \/ m !! t = None).
  { intros i t Hi. destruct (tg_new _ _ _ _ G i t Hi) as [?|[_ ?]]; auto. }
  assert (Ha : forall k u, us !! k = Some u -> forall i, tables sp' !! i <> Some (u_page u)).
  { intros k u Hk i Hi. destruct (Hn i _ Hi) as [Hi'|Hm]; [exact (proj2 (us_apart _ _ _ _ U k u Hk) i Hi')|].
    rewrite (us_page _ _ _ _ U k u Hk) in Hm. discriminate. }
  constructor.
  - apply G.
  - intros k Hk. rewrite Hp by exact Hk. apply (us_pte _ _ _ _ U k Hk).
  - apply U.
  - intros k u Hk. rewrite (tg_frame _ _ _ _ G); [apply (us_page _ _ _ _ U k u Hk)|apply (us_apart _ _ _ _ U k u Hk)|exact (Ha k u Hk)].
  - intros k u Hk. rewrite Ed. split; [apply (us_apart _ _ _ _ U k u Hk)|exact (Ha k u Hk)].
  - apply U.
  - intros p Hpd Hpt Hpu. rewrite Ed in Hpd. rewrite (tg_frame _ _ _ _ G p Hpd Hpt). apply (us_frame _ _ _ _ U p Hpd); [|exact Hpu].
    intros i Hi. exact (Hpt i (tg_old _ _ _ _ G i p Hi)).
  - destruct (us_fresh _ _ _ _ U) as (F1 & F2 & F3). rewrite Ed. split; [exact F1|]. split; [|exact F3].
    intros i t Hi. destruct (Hn i t Hi) as [Hi'|Hm]; [exact (F2 i t Hi')|]. apply (user_unused R us sp m t U Hm).
Qed.

(** A page outside the space is added or changed. *)
Lemma user_insert R us sp m q bs : user_space R us sp m -> m !! q = None \/ is_Some (R !! q) -> user_space (<[q := bs]> R) us sp (<[q := bs]> m).
Proof.
  intros U Hq.
  assert (Hn : q <> dir sp /\ (forall i, tables sp !! i <> Some q) /\ (forall k u, us !! k = Some u -> u_page u <> q)).
  { destruct Hq as [Hq|[b Hb]]; [destruct (user_unused _ _ _ _ _ U Hq) as (? & ? & ? & _); auto|].
    destruct (us_fresh _ _ _ _ U) as (F1 & F2 & F3). split; [congruence|]. split.
    - intros i Hi. rewrite (F2 i q Hi) in Hb. discriminate.
    - intros k u Hk <-. rewrite (F3 k u Hk) in Hb. discriminate. }
  destruct Hn as (N1 & N2 & N3). constructor.
  - eapply tables_ok_frame; [apply U|apply lookup_insert_ne; exact N1|]. intros i t Hi. apply lookup_insert_ne. intros ->. exact (N2 i Hi).
  - apply U.
  - apply U.
  - intros k u Hk. rewrite lookup_insert_ne by (intros E; exact (N3 k u Hk (eq_sym E))). apply (us_page _ _ _ _ U k u Hk).
  - apply U.
  - apply U.
  - intros p H1 H2 H3. destruct (decide (p = q)) as [->|Hne]; [rewrite !lookup_insert_eq; reflexivity|].
    rewrite !lookup_insert_ne by congruence. apply (us_frame _ _ _ _ U p H1 H2 H3).
  - destruct (us_fresh _ _ _ _ U) as (F1 & F2 & F3). split; [rewrite lookup_insert_ne by exact N1; exact F1|]. split.
    + intros i t Hi. rewrite lookup_insert_ne; [exact (F2 i t Hi)|]. intros ->. exact (N2 i Hi).
    + intros k u Hk. rewrite lookup_insert_ne; [exact (F3 k u Hk)|]. intros E. exact (N3 k u Hk (eq_sym E)).
Qed.

(** A page outside the space is freed. *)
Lemma user_delete R us sp m q : user_space R us sp m -> is_Some (R !! q) -> user_space (delete q R) us sp (delete q m).
Proof.
  intros U [b Hb]. destruct (us_fresh _ _ _ _ U) as (F1 & F2 & F3). assert (N1 : q <> dir sp) by congruence.
  assert (N2 : forall i, tables sp !! i <> Some q) by (intros i Hi; rewrite (F2 i q Hi) in Hb; discriminate).
  assert (N3 : forall k u, us !! k = Some u -> u_page u <> q) by (intros k u Hk <-; rewrite (F3 k u Hk) in Hb; discriminate). constructor.
  - eapply tables_ok_frame; [apply U|apply lookup_delete_ne; exact N1|]. intros i t Hi. apply lookup_delete_ne. intros ->. exact (N2 i Hi).
  - apply U.
  - apply U.
  - intros k u Hk. rewrite lookup_delete_ne by (intros E; exact (N3 k u Hk (eq_sym E))). apply (us_page _ _ _ _ U k u Hk).
  - apply U.
  - apply U.
  - intros p H1 H2 H3. destruct (decide (p = q)) as [->|Hne]; [rewrite !lookup_delete_eq; reflexivity|].
    rewrite !lookup_delete_ne by congruence. apply (us_frame _ _ _ _ U p H1 H2 H3).
  - split; [rewrite lookup_delete_ne by exact N1; exact F1|]. split.
    + intros i t Hi. rewrite lookup_delete_ne; [exact (F2 i t Hi)|]. intros ->. exact (N2 i Hi).
    + intros k u Hk. rewrite lookup_delete_ne; [exact (F3 k u Hk)|]. intros E. exact (N3 k u Hk (eq_sym E)).
Qed.

(** A page of the rest becomes a user page. *)
Lemma user_map R us sp m q bs k fl sp' m' : user_space (<[q := bs]> R) us sp m -> R !! q = None -> tgrow sp m sp' m' -> 0 <= k < KPN -> us !! k = None ->
  0 <= fl < 4096 -> Z.odd fl = true -> (forall j, 0 <= j < KPN -> ptes sp' !! j = if decide (j = k) then Some (pte_of q fl) else ptes sp !! j) ->
  user_space R (<[k := Upage q fl bs]> us) sp' m'.
Proof.
  intros U HR G Hk Huk Hfl Hodd Hp. pose proof (tg_dir _ _ _ _ G) as Ed.
  assert (Hqm : m !! q = Some bs) by (apply (user_keeps _ _ _ _ _ _ U), lookup_insert_eq).
  destruct (us_fresh _ _ _ _ U) as (F1 & F2 & F3).
  assert (N1 : q <> dir sp) by (intros ->; rewrite lookup_insert_eq in F1; discriminate).
  assert (N3 : forall j u, us !! j = Some u -> u_page u <> q).
  { intros j u Hj E. specialize (F3 j u Hj). rewrite E, lookup_insert_eq in F3. discriminate. }
  assert (Hn : forall i t, tables sp' !! i = Some t -> t <> q /\ R !! t = None).
  { intros i t Hi. destruct (tg_new _ _ _ _ G i t Hi) as [Hi'|[_ Hm]].
    - specialize (F2 i t Hi'). destruct (decide (t = q)) as [->|Hne]; [rewrite lookup_insert_eq in F2; discriminate|]. rewrite lookup_insert_ne in F2 by congruence. auto.
    - split; [congruence|]. destruct (user_unused _ _ _ _ _ U Hm) as (_ & _ & _ & Hr). destruct (decide (t = q)) as [->|Hne]; [exact HR|].
      rewrite lookup_insert_ne in Hr by congruence. exact Hr. }
  assert (Ha : forall j u, us !! j = Some u -> forall i, tables sp' !! i <> Some (u_page u)).
  { intros j u Hj i Hi. destruct (tg_new _ _ _ _ G i _ Hi) as [Hi'|[_ Hm]]; [exact (proj2 (us_apart _ _ _ _ U j u Hj) i Hi')|].
    rewrite (us_page _ _ _ _ U j u Hj) in Hm. discriminate. }
  assert (Hcase : forall j u, <[k := Upage q fl bs]> us !! j = Some u -> (j = k /\ u = Upage q fl bs) \/ (j <> k /\ us !! j = Some u)).
  { intros j u Hj. destruct (decide (j = k)) as [->|Hne]; [rewrite lookup_insert_eq in Hj; injection Hj as <-; auto|].
    rewrite lookup_insert_ne in Hj by congruence. auto. }
  constructor.
  - apply G.
  - intros j Hj. rewrite Hp by exact Hj. destruct (decide (j = k)) as [->|Hne]; [rewrite lookup_insert_eq; reflexivity|].
    rewrite lookup_insert_ne by congruence. apply (us_pte _ _ _ _ U j Hj).
  - intros j u Hj. destruct (Hcase j u Hj) as [[-> ->]|[_ Hj']]; [auto|exact (us_range _ _ _ _ U j u Hj')].
  - intros j u Hj. destruct (Hcase j u Hj) as [[-> ->]|[_ Hj']].
    + cbn. rewrite (tg_frame _ _ _ _ G); [exact Hqm|exact N1|]. intros i Hi. exact (proj1 (Hn i q Hi) eq_refl).
    + rewrite (tg_frame _ _ _ _ G); [apply (us_page _ _ _ _ U j u Hj')|apply (us_apart _ _ _ _ U j u Hj')|exact (Ha j u Hj')].
  - intros j u Hj. rewrite Ed. destruct (Hcase j u Hj) as [[-> ->]|[_ Hj']].
    + split; [exact N1|]. intros i Hi. exact (proj1 (Hn i q Hi) eq_refl).
    + split; [apply (us_apart _ _ _ _ U j u Hj')|exact (Ha j u Hj')].
  - intros j i u w Hj Hi E. destruct (Hcase j u Hj) as [[-> ->]|[_ Hj']], (Hcase i w Hi) as [[-> ->]|[_ Hi']]; cbn in E.
    + reflexivity.
    + exfalso. exact (N3 i w Hi' (eq_sym E)).
    + exfalso. exact (N3 j u Hj' E).
    + exact (us_inj _ _ _ _ U j i u w Hj' Hi' E).
  - intros p Hpd Hpt Hpu. rewrite Ed in Hpd. rewrite (tg_frame _ _ _ _ G p Hpd Hpt).
    assert (Hpq : q <> p) by (apply (Hpu k (Upage q fl bs)), lookup_insert_eq).
    rewrite (us_frame _ _ _ _ U p Hpd); [apply lookup_insert_ne, Hpq| |].
    + intros i Hi. exact (Hpt i (tg_old _ _ _ _ G i p Hi)).
    + intros j u Hj. apply (Hpu j). rewrite lookup_insert_ne; [exact Hj|]. congruence.
  - rewrite Ed. rewrite lookup_insert_ne in F1 by exact N1. split; [exact F1|]. split; [intros i t Hi; apply (Hn i t Hi)|].
    intros j u Hj. destruct (Hcase j u Hj) as [[-> ->]|[_ Hj']]; [exact HR|]. specialize (F3 j u Hj'). rewrite lookup_insert_ne in F3; [exact F3|].
    intros E. exact (N3 j u Hj' (eq_sym E)).
Qed.

(** A user page is freed and its entry cleared. *)
Lemma user_unmap R us sp m k u m' : user_space R us sp m -> us !! k = Some u -> tgrow sp (delete (u_page u) m) (set_pte k 0 sp) m' ->
  user_space R (delete k us) (set_pte k 0 sp) m'.
Proof.
  intros U Hk G. pose proof (us_range _ _ _ _ U k u Hk) as (Hkr & _). destruct (us_apart _ _ _ _ U k u Hk) as [A1 A2].
  assert (Hother : forall j w, delete k us !! j = Some w -> us !! j = Some w /\ u_page w <> u_page u).
  { intros j w Hj. apply lookup_delete_Some in Hj as [Hne Hj]. split; [exact Hj|]. intros E. apply Hne. exact (us_inj _ _ _ _ U k j u w Hk Hj (eq_sym E)). }
  constructor.
  - apply G.
  - intros j Hj. rewrite lookup_set_pte. cbn. destruct (decide (j = k)) as [->|Hne]; [rewrite lookup_delete_eq; reflexivity|].
    rewrite lookup_delete_ne by congruence. apply (us_pte _ _ _ _ U j Hj).
  - intros j w Hj. apply (us_range _ _ _ _ U j w), Hother, Hj.
  - intros j w Hj. destruct (Hother j w Hj) as [Hj' Hne]. rewrite (tg_frame _ _ _ _ G); [|apply (us_apart _ _ _ _ U j w Hj')|apply (us_apart _ _ _ _ U j w Hj')].
    rewrite lookup_delete_ne by congruence. apply (us_page _ _ _ _ U j w Hj').
  - intros j w Hj. apply (us_apart _ _ _ _ U j w), Hother, Hj.
  - intros i j w x Hi Hj E. apply Hother in Hi as [Hi _], Hj as [Hj _]. exact (us_inj _ _ _ _ U i j w x Hi Hj E).
  - intros p Hpd Hpt Hpu. cbn [set_pte dir tables] in Hpd, Hpt. rewrite (tg_frame _ _ _ _ G p Hpd Hpt).
    destruct (decide (p = u_page u)) as [->|Hne].
    + rewrite lookup_delete_eq. symmetry. apply (us_fresh _ _ _ _ U) in Hk. exact Hk.
    + rewrite lookup_delete_ne by congruence. apply (us_frame _ _ _ _ U p Hpd Hpt). intros j w Hj. destruct (decide (j = k)) as [->|Hjk]; [congruence|].
      apply (Hpu j). rewrite lookup_delete_ne; [exact Hj|]. congruence.
  - destruct (us_fresh _ _ _ _ U) as (F1 & F2 & F3). split; [exact F1|]. split; [exact F2|]. intros j w Hj. apply (F3 j), Hother, Hj.
Qed.

Section vm.
Context {S : Type} `{PageMemory S}.

(** ** [deallocuvm] *)

(** The page tables of user memory come without a gap. *)
Definition contig (sp : aspace) : Prop := forall i j, 0 <= i <= j -> j < 512 -> is_Some (tables sp !! j) -> is_Some (tables sp !! i).

Lemma user_addr n s free R us sp m k u : shows n s (PView free m) -> user_space R us sp m -> us !! k = Some u -> page_addr (u_page u).
Proof. intros Hs U Hk. apply (shows_addr n s _ _ Hs). exists (u_bytes u). exact (us_page _ _ _ _ U k u Hk). Qed.

(** A user page has a page table. *)
Lemma user_table R us sp m k u : user_space R us sp m -> us !! k = Some u -> is_Some (tables sp !! (k / 1024)).
Proof.
  intros U Hk. pose proof (us_range _ _ _ _ U k u Hk) as (Hr & _). pose proof (us_pte _ _ _ _ U k Hr) as E. rewrite Hk in E.
  apply (tb_pte _ _ (us_tables _ _ _ _ U) _ _ E).
Qed.

(** What is left when the pages from [a] to [oldsz] are gone. *)
Definition cut (a oldsz : Z) (us us' : gmap Z upage) : Prop :=
  forall k, us' !! k = if decide (vpn a <= k /\ 4096 * k < oldsz) then None else us !! k.

Record dealloc_post (R : gmap Z (list Z)) (n : nat) (sp : aspace) (us' : gmap Z upage) (s' : S) : Prop := {
  dp_state : exists sp' free' m', user_space R us' sp' m' /\ shows (base.size us' + n) s' (PView free' m') /\
    dir sp' = dir sp /\ tables sp' = tables sp /\ same_kernel sp sp';
}.

Lemma vpn_mono a b : a <= b -> vpn a <= vpn b.
Proof. intros Hab. apply Z.div_le_mono; lia. Qed.

Lemma vpn_page a : a mod 4096 = 0 -> 4096 * vpn a = a.
Proof. intros Ha. pose proof (Z.div_mod a 4096 ltac:(lia)). unfold vpn. lia. Qed.

Lemma wp_dealloc_loop R oldsz fuel : forall n s free us sp m a, shows (base.size us + n) s (PView free m) -> user_space R us sp m -> contig sp ->
  a mod 4096 = 0 -> 0 <= a -> oldsz <= KERNBASE -> oldsz <= a + 4096 * Z.of_nat fuel ->
  wp (deallocuvm_loop fuel (dir sp) a oldsz) (fun _ s' => exists us', cut a oldsz us us' /\ dealloc_post R n sp us' s') s.
Proof.
  induction fuel as [|fuel IH]; intros n s free us sp m a Hs U C Ha Ha0 Ho Hf; cbn [deallocuvm_loop].
  1: rewrite (proj2 (Z.leb_le _ _)) by lia. 2: destruct (oldsz <=? a) eqn:E.
  1,2: assert (oldsz <= a) by (try apply Z.leb_le in E; lia); wp_step; exists us; split;
    [intros k; rewrite decide_False; [reflexivity|pose proof (vpn_page a Ha); lia]|];
    constructor; exists sp, free, m; split; [exact U|]; split; [exact Hs|]; split; [reflexivity|]; split; [reflexivity|intros k _; reflexivity].
  apply Z.leb_gt in E. assert (Hau : is_u32 a) by (unfold is_u32, KERNBASE in *; lia). pose proof (us_tables _ _ _ _ U) as T.
  destruct (PDX_spec a Hau) as [Ed Hd]. pose proof (vpn_page a Ha) as Ev. assert (Hk : 0 <= vpn a < KPN) by (unfold KERNBASE, KPN in *; lia).
  apply wp_bind. eapply (wp_walk _ _ _ _ _ a false); [exact Hs|exact T|exact Hau|left; reflexivity|].
  destruct (tables sp !! PDX a) as [t|] eqn:Et; cbn [fmap option_fmap option_map].
  2: { unfold NPTENTRIES, PGSIZE. rewrite (u32_id (a + (1024 - 1) * 4096)), u32_id by (unfold is_u32, KERNBASE in *; lia).
    eapply wp_mono; [apply (IH n s free us sp m); try assumption; [rewrite <- Z.add_assoc, Zplus_mod, Ha; reflexivity|lia|lia]|].
    intros [] s' (us' & Hc & Hp). exists us'. split; [|exact Hp]. intros k. rewrite Hc. replace (vpn (a + (1024 - 1) * 4096 + 4096)) with (vpn a + 1024).
    - destruct (decide (vpn a <= k /\ 4096 * k < oldsz)) as [Hin|Hout]; [|rewrite decide_False by lia; reflexivity].
      destruct (decide _); [reflexivity|]. apply eq_None_not_Some. intros [u Hu].
      pose proof (us_range _ _ _ _ U k u Hu) as (Hkr & _). unfold KPN in Hkr. assert (Hx : PDX a <= k / 1024 < 512).
      { rewrite Ed. split; [apply Z.div_le_mono; lia|]. apply Z.div_lt_upper_bound; lia. }
      destruct (C (PDX a) (k / 1024) ltac:(lia) ltac:(lia) (user_table _ _ _ _ _ _ U Hu)) as [? ?]. congruence.
    - unfold vpn. replace (a + (1024 - 1) * 4096 + 4096) with (a + 1024 * 4096) by lia. rewrite Z.div_add by lia. reflexivity. }
  apply wp_bind. eapply (wp_ld_pte _ s free sp m a t); [exact Hs|exact T|exact Hau|exact Et|].
  rewrite (us_pte _ _ _ _ U _ Hk). unfold PGSIZE. rewrite u32_id by (unfold is_u32, KERNBASE in *; lia).
  assert (Hrest : forall s1 us1 sp1 free1 m1, user_space R us1 sp1 m1 -> shows (base.size us1 + n) s1 (PView free1 m1) -> dir sp1 = dir sp ->
    tables sp1 = tables sp -> same_kernel sp sp1 -> us1 = delete (vpn a) us ->
    wp (deallocuvm_loop fuel (dir sp) (a + 4096) oldsz) (fun _ s' => exists us', cut a oldsz us us' /\ dealloc_post R n sp us' s') s1).
  { intros s1 us1 sp1 free1 m1 U1 Hs1 Ed1 Et1 K1 E1. rewrite <- Ed1.
    eapply wp_mono; [apply (IH n s1 free1 us1 sp1 m1); try assumption; [unfold contig; rewrite Et1; exact C|rewrite Zplus_mod, Ha; reflexivity|lia|lia]|].
    intros [] s' (us' & Hc & [(sp' & f' & m' & P1 & P2 & P3 & P4 & P5)]). exists us'. split.
    - intros k. rewrite Hc, vpn_next, E1. destruct (decide (k = vpn a)) as [->|Hne].
      + rewrite (decide_False (P := vpn a + 1 <= vpn a /\ _)) by lia. rewrite lookup_delete_eq, decide_True by lia. reflexivity.
      + rewrite lookup_delete_ne by congruence. destruct (decide (vpn a + 1 <= k /\ 4096 * k < oldsz)); [rewrite decide_True by lia|rewrite decide_False by lia]; reflexivity.
    - constructor. exists sp', f', m'. split; [exact P1|]. split; [exact P2|]. split; [congruence|]. split; [congruence|]. eapply same_kernel_trans; eassumption. }
  destruct (us !! vpn a) as [u|] eqn:Eu; cbn [fmap option_fmap option_map default].
  - pose proof (user_addr _ _ _ _ _ _ _ _ _ Hs U Eu) as Hpa. pose proof (us_range _ _ _ _ U _ _ Eu) as (_ & Hfl & Hodd).
    unfold id. rewrite test_present, pte_of_odd, Hodd by assumption.
    rewrite pte_of_addr by assumption. destruct (V2P_page _ Hpa) as (_ & _ & Hv). rewrite (proj2 (Z.eqb_neq _ _)) by lia. rewrite P2V_V2P by exact Hpa.
    destruct (us_apart _ _ _ _ U _ _ Eu) as [A1 A2].
    assert (Esz : base.size us = (1 + base.size (delete (vpn a) us))%nat) by (rewrite map_size_delete_Some by eauto; pose proof (map_size_ne_0_lookup_2 us (vpn a) ltac:(eauto)); lia).
    apply wp_bind, wp_bind. eapply (law_kfree (base.size (delete (vpn a) us) + n)); [rewrite Esz in Hs; exact Hs|exists (u_bytes u); exact (us_page _ _ _ _ U _ _ Eu)|].
    cbn [v_free v_mem]. intros s1 Hs1.
    assert (T1 : tables_ok sp (delete (u_page u) m)).
    { eapply tables_ok_frame; [exact T|apply lookup_delete_ne; congruence|]. intros i t' Hi. apply lookup_delete_ne. intros E1. rewrite <- E1 in Hi. exact (A2 i Hi). }
    eapply (wp_st_pte _ s1 _ sp _ a t 0); [exact Hs1|exact T1|exact Hau|exact Et|unfold is_u32; lia|left; reflexivity|].
    intros s2 m2 G2 Hs2. eapply (Hrest s2 (delete (vpn a) us) (set_pte (vpn a) 0 sp)); [eapply user_unmap; eassumption|exact Hs2|reflexivity|reflexivity| |reflexivity].
    intros k Hk'. rewrite lookup_set_pte, decide_False; [reflexivity|]. intros ->. contradiction.
  - change (default 0 None) with 0. change (test 0 PTE_P) with false. cbv iota. apply wp_bind. wp_step.
    eapply (Hrest s us sp); [exact U|exact Hs|reflexivity|reflexivity|intros k _; reflexivity|symmetry; apply delete_id, Eu].
Qed.

Lemma roundup_pages sz : 0 <= sz -> sz + 4095 < 2 ^ 32 -> PGROUNDUP sz = 4096 * ((sz + 4095) / 4096).
Proof.
  intros H0 H1. unfold PGROUNDUP, PGSIZE. rewrite u32_id by (unfold is_u32; lia). change (Z.lnot (4096 - 1)) with (Z.lnot 0xFFF). rewrite land_high.
  replace (sz + 4096 - 1) with (sz + 4095) by lia. pose proof (Z.div_mod (sz + 4095) 4096). lia.
Qed.

(** The number of pages that [sz] bytes take. *)
Definition npages (sz : Z) : Z := (sz + 4095) / 4096.

Lemma npages_spec sz : 0 <= sz -> 4096 * (npages sz - 1) < sz <= 4096 * npages sz.
Proof. intros Hs. unfold npages. pose proof (Z.div_mod (sz + 4095) 4096 ltac:(lia)). pose proof (Z.mod_pos_bound (sz + 4095) 4096). lia. Qed.

Lemma wp_deallocuvm R n s free us sp m oldsz newsz : shows (base.size us + n) s (PView free m) -> user_space R us sp m -> contig sp ->
  0 <= newsz -> oldsz <= KERNBASE ->
  wp (deallocuvm (dir sp) oldsz newsz) (fun r s' => r = Z.min oldsz newsz /\ exists us',
    (forall k, us' !! k = if decide (npages newsz <= k < npages oldsz) then None else us !! k) /\ dealloc_post R n sp us' s') s.
Proof.
  intros Hs U C H0 Ho. unfold deallocuvm. destruct (oldsz <=? newsz) eqn:E.
  - apply Z.leb_le in E. wp_step. split; [lia|]. exists us. split.
    + intros k. rewrite decide_False; [reflexivity|]. unfold npages. pose proof (Z.div_le_mono (oldsz + 4095) (newsz + 4095) 4096). lia.
    + constructor. exists sp, free, m. split; [exact U|]. split; [exact Hs|]. split; [reflexivity|]. split; [reflexivity|intros k _; reflexivity].
  - apply Z.leb_gt in E. unfold KERNBASE in Ho. rewrite roundup_pages by lia. fold (npages newsz). pose proof (npages_spec newsz H0). pose proof (npages_spec oldsz ltac:(lia)).
    apply wp_bind. eapply wp_mono; [apply (wp_dealloc_loop R oldsz _ n s free us sp m); try assumption|].
    + rewrite Z.mul_comm. apply Z_mod_mult.
    + lia.
    + unfold PGSIZE. pose proof (Z.div_mod oldsz 4096 ltac:(lia)). pose proof (Z.mod_pos_bound oldsz 4096). pose proof (Z.div_pos oldsz 4096 ltac:(lia) ltac:(lia)). lia.
    + intros [] s' (us' & Hc & Hp). wp_step. split; [lia|]. exists us'. split; [|exact Hp]. intros k. rewrite Hc.
      replace (vpn (4096 * npages newsz)) with (npages newsz) by (unfold vpn; rewrite Z.mul_comm, Z.div_mul; lia).
      destruct (decide (npages newsz <= k < npages oldsz)); [rewrite decide_True by lia|rewrite decide_False by lia]; reflexivity.
Qed.

(** ** Mapping a page *)

Definition covers (us : gmap Z upage) (N : Z) : Prop := forall k, is_Some (us !! k) <-> 0 <= k < N.

Lemma covers_insert us N u : 0 <= N -> covers us N -> covers (<[N := u]> us) (N + 1).
Proof.
  intros HN C k. destruct (decide (k = N)) as [->|Hne]; [rewrite lookup_insert_eq; split; [lia|eauto]|].
  rewrite lookup_insert_ne by congruence. rewrite (C k). lia.
Qed.

(** A table is added for the next page. *)
Lemma contig_next R us sp m sp' free free' N (P : Z -> Prop) : user_space R us sp m -> contig sp -> covers us N -> 0 <= N < KPN ->
  (forall i t, tables sp !! i = Some t -> tables sp' !! i = Some t) -> (forall i, P i -> i = N / 1024) -> tables_added P sp free sp' free' -> contig sp'.
Proof.
  intros U C Cv HN Hold HP [_ A] i j Hij Hj Hs. assert (Hmono : forall x, is_Some (tables sp !! x) -> is_Some (tables sp' !! x)).
  { intros x [t Ht]. exists t. apply Hold, Ht. }
  destruct (A j Hs) as [Hj'|Hp]; [apply Hmono, (C i j Hij Hj Hj')|]. apply HP in Hp. subst j.
  destruct (decide (i = N / 1024)) as [->|Hne]; [exact Hs|]. apply Hmono.
  destruct (proj2 (Cv (1024 * i))) as [u Hu]; [pose proof (Z.div_mod N 1024 ltac:(lia)); pose proof (Z.mod_pos_bound N 1024); lia|].
  pose proof (user_table _ _ _ _ _ _ U Hu) as Ht. replace (1024 * i / 1024) with i in Ht; [exact Ht|]. rewrite Z.mul_comm, Z.div_mul; lia.
Qed.

(** What growing by a page keeps. *)
Record stays (sp sp' : aspace) : Prop := { st_dir : dir sp' = dir sp; st_contig : contig sp'; st_kernel : same_kernel sp sp' }.

Lemma stays_trans sp sp1 sp2 : stays sp sp1 -> stays sp1 sp2 -> stays sp sp2.
Proof. intros [A1 A2 A3] [B1 B2 B3]. split; [congruence|exact B2|eapply same_kernel_trans; eassumption]. Qed.

(** One table at most is added for a page. *)
Lemma tables_added_one P sp free sp' free' i : (forall j, P j -> j = i) -> tables_added P sp free sp' free' -> (length free <= 1 + length free')%nat.
Proof.
  intros HP [Hc Hw]. cut (base.size (tables sp') <= 1 + base.size (tables sp))%nat; [lia|]. rewrite <- !size_dom.
  transitivity (base.size ({[i]} ∪ dom (tables sp))).
  - apply subseteq_size. intros j Hj. apply elem_of_dom in Hj. destruct (Hw j Hj) as [Hj'|Hp]; [apply elem_of_dom in Hj'|rewrite (HP j Hp)]; set_solver.
  - rewrite size_union_alt, size_singleton. pose proof (subseteq_size (dom (tables sp) ∖ {[i]}) (dom (tables sp)) ltac:(set_solver)). lia.
Qed.

Lemma wp_map_user R n s free us sp m q bs N perm : shows (1 + n) s (PView free m) -> user_space (<[q := bs]> R) us sp m -> R !! q = None -> contig sp ->
  covers us N -> 0 <= N < KPN -> 0 <= perm < 4096 ->
  wp (mappages (dir sp) (4096 * N) PGSIZE (V2P q) perm) (fun ok s' => exists sp' free' m', shows n s' (PView free' m') /\ stays sp sp' /\ (length free <= 1 + length free')%nat /\
    if ok : bool then user_space R (<[N := Upage q (Z.lor perm 1) bs]> us) sp' m'
    else user_space (<[q := bs]> R) us sp' m' /\ free' = []) s.
Proof.
  intros Hs U HR C Cv HN Hperm. pose proof (us_tables _ _ _ _ U) as T.
  assert (Hq : m !! q = Some bs) by (apply (user_keeps _ _ _ _ _ _ U), lookup_insert_eq).
  assert (Hqa : page_addr q) by (apply (shows_addr _ _ _ q Hs); exists bs; exact Hq).
  destruct (V2P_page q Hqa) as (Ev & Hm & Hv). assert (EN : vpn (4096 * N) = N) by (unfold vpn; rewrite Z.mul_comm, Z.div_mul; lia).
  assert (HuN : us !! N = None) by (apply eq_None_not_Some; intros Hn; apply Cv in Hn; lia).
  change PGSIZE with (4096 * (1 + Z.of_nat 0)).
  eapply wp_mono; [apply (wp_mappages n s free sp m (4096 * N) (V2P q) perm 0); try assumption; try (rewrite Z.mul_comm; apply Z_mod_mult); unfold KPN, PHYSTOP in *; try lia|].
  { rewrite EN. intros x Hx. replace x with N by lia. rewrite (us_pte _ _ _ _ U) by (unfold KPN; lia). rewrite HuN. reflexivity. }
  intros ok s' (sp' & free' & m' & j & G & Hs' & M & A & Hok). exists sp', free', m'. split; [exact Hs'|]. rewrite EN in M, A.
  assert (HA : forall i, N / 1024 <= i <= (N + Z.of_nat (if ok then j - 1 else j)) / 1024 -> i = N / 1024).
  { intros i Hi. replace (N + Z.of_nat (if ok then j - 1 else j)) with N in Hi by (destruct ok; lia). lia. }
  split; [|split; [exact (tables_added_one _ _ _ _ _ _ HA A)|]].
  - constructor; [apply G| |].
    + eapply (contig_next _ us sp m sp' free free' N); [exact U|exact C|exact Cv|exact HN|apply G|exact HA|exact A].
    + intros k Hk. rewrite M, decide_False; [reflexivity|]. destruct ok; [lia|]. destruct Hok. lia.
  - destruct ok; subst.
    + eapply user_map; [exact U|exact HR|exact G|exact HN|exact HuN|apply (lor_bounded 12); lia| |].
      * rewrite <- Z.bit0_odd, Z.lor_spec. apply orb_true_r.
      * intros k Hk. rewrite M. destruct (decide (k = N)) as [->|Hne].
        -- rewrite decide_True by lia. rewrite Z.sub_diag, Z.mul_0_r, Z.add_0_r. unfold leaf, pte_of. rewrite <- Z.lor_assoc. reflexivity.
        -- rewrite decide_False by lia. reflexivity.
    + destruct Hok as [Hj Hf]. split; [|exact Hf]. eapply user_grow; [exact U|exact G|]. intros k Hk. rewrite M, decide_False by lia. reflexivity.
Qed.

(** ** [allocuvm] *)

(** A fresh page, outside the space. *)
Lemma user_fresh R us sp m q bs : user_space R us sp m -> m !! q = None -> user_space (<[q := bs]> R) us sp (<[q := bs]> m) /\ R !! q = None.
Proof. intros U Hq. split; [apply user_insert; auto|]. apply (user_unused _ _ _ _ _ U Hq). Qed.

(** [us'] is [us] grown to [N] pages by zero pages that user code may read and write. *)
Definition grown_to (N0 N : Z) (us us' : gmap Z upage) : Prop :=
  (forall k, k < N0 -> us' !! k = us !! k) /\ (forall k, N0 <= k < N -> exists q, us' !! k = Some (Upage q 7 zero_page)) /\ covers us' N.

Definition space_at (R : gmap Z (list Z)) (n : nat) (us : gmap Z upage) (sp : aspace) (s : S) : Prop :=
  exists free m, user_space R us sp m /\ shows (base.size us + n) s (PView free m).

(** The same with [f] free pages at least. *)
Definition space_free (R : gmap Z (list Z)) (n f : nat) (us : gmap Z upage) (sp : aspace) (s : S) : Prop :=
  exists free m, user_space R us sp m /\ shows (base.size us + n) s (PView free m) /\ (f <= length free)%nat.

Lemma space_free_at R n n' f us sp s : space_free R n f us sp s -> (n' <= n)%nat -> space_at R n' us sp s.
Proof. intros (free & m & U & Hs & _) Hn. exists free, m. split; [exact U|]. eapply law_weaken; [exact Hs|lia]. Qed.

Lemma space_free_weaken R n n' f f' us sp s : space_free R n f us sp s -> (n' <= n)%nat -> (f' <= f)%nat -> space_free R n' f' us sp s.
Proof. intros (free & m & U & Hs & Hf) Hn Hle. exists free, m. split; [exact U|]. split; [eapply law_weaken; [exact Hs|lia]|lia]. Qed.

Lemma wp_dealloc_back R n s us0 us sp newsz oldsz N : space_at R n us sp s -> contig sp -> covers us0 (npages oldsz) -> covers us N ->
  npages oldsz <= N <= npages newsz -> (forall k, k < npages oldsz -> us !! k = us0 !! k) -> 0 <= oldsz -> newsz <= KERNBASE ->
  wp (deallocuvm (dir sp) newsz oldsz) (fun _ s' => exists sp', stays sp sp' /\ space_at R n us0 sp' s') s.
Proof.
  intros (free & m & U & Hs) C C0 Cv HN Hsame H0 Hk. eapply wp_mono; [apply (wp_deallocuvm R n s free us sp m); assumption|].
  intros r s' (_ & us' & Hu & [(sp' & free' & m' & U' & Hs' & Ed & Et & K)]). exists sp'.
  split; [constructor; [exact Ed|unfold contig; rewrite Et; exact C|exact K]|].
  assert (E : us' = us0); [|subst us'; exists free', m'; auto]. apply map_eq. intros k. rewrite Hu. destruct (decide _) as [Hin|Hout].
  - symmetry. apply eq_None_not_Some. intros Hk'. apply C0 in Hk'. lia.
  - destruct (Z.lt_ge_cases k (npages oldsz)); [apply Hsame; lia|]. transitivity (@None upage).
    + apply eq_None_not_Some. intros Hk'. apply Cv in Hk'. lia.
    + symmetry. apply eq_None_not_Some. intros Hk'. apply C0 in Hk'. lia.
Qed.

Lemma space_shows R n k us sp s free m : user_space R us sp m -> shows k s (PView free m) -> (base.size us + n <= k)%nat -> space_at R n us sp s.
Proof. intros U Hs Hk. exists free, m. split; [exact U|]. eapply law_weaken; eassumption. Qed.

Lemma space_delete R q b n us sp s : R !! q = None -> space_at (<[q := b]> R) (1 + n) us sp s -> wp (kfree q) (fun _ s' => space_at R n us sp s') s.
Proof.
  intros HR (free & m & U & Hs). eapply (law_kfree (base.size us + n)); [eapply law_weaken; [exact Hs|lia]| |].
  - exists b. apply (user_keeps _ _ _ _ _ _ U), lookup_insert_eq.
  - cbn [v_free v_mem]. intros s' Hs'. pose proof (user_delete _ _ _ _ q U ltac:(rewrite lookup_insert_eq; eauto)) as U'.
    rewrite delete_insert_id in U' by exact HR. exists (q :: free), (delete q m). auto.
Qed.

(** [say] and [deallocuvm], when memory has run out. *)
Lemma wp_alloc_give_up {A} R n s us0 us sp newsz oldsz N msg (k : Z -> K S A) (Q : A -> S -> Prop) : space_at R n us sp s -> contig sp -> covers us0 (npages oldsz) -> covers us N ->
  npages oldsz <= N <= npages newsz -> (forall k, k < npages oldsz -> us !! k = us0 !! k) -> 0 <= oldsz -> newsz <= KERNBASE ->
  (forall r s' sp', stays sp sp' -> space_at R n us0 sp' s' -> wp (k r) Q s') ->
  wp (say msg ;; r ← deallocuvm (dir sp) newsz oldsz; k r) Q s.
Proof.
  intros (free & m & U & Hs) C C0 Cv HN Hsame H0 Hk HQ. apply wp_bind. eapply law_say; [exact Hs|]. intros s1 Hs1.
  apply wp_bind. eapply wp_mono; [apply (wp_dealloc_back R n s1 us0 us sp newsz oldsz N); try assumption; exists free, m; auto|].
  intros r s2 (sp' & St & Sp). exact (HQ r s2 sp' St Sp).
Qed.

Lemma size_insert_le (us : gmap Z upage) k u : (base.size (<[k := u]> us) <= 1 + base.size us)%nat.
Proof. rewrite map_size_insert. destruct (us !! k); cbn; lia. Qed.

Lemma wp_alloc_loop R us0 oldsz newsz fuel : 0 <= oldsz -> newsz < KERNBASE -> covers us0 (npages oldsz) -> forall r n f s us sp N,
  space_free R (3 * r + 2 + n) f us sp s -> contig sp -> npages oldsz <= N -> N + Z.of_nat r = npages newsz -> (r <= fuel)%nat -> grown_to (npages oldsz) N us0 us -> 0 <= newsz ->
  wp (allocuvm_loop fuel (dir sp) oldsz newsz (4096 * N)) (fun x s' => exists us' sp', stays sp sp' /\
    (x = newsz /\ grown_to (npages oldsz) (npages newsz) us0 us' /\ space_free R n (f - 2 * r) us' sp' s' \/
     x = 0 /\ us' = us0 /\ space_at R n us' sp' s' /\ (f <= 2 * r)%nat)) s.
Proof.
  intros H0 Hk C0. pose proof (npages_spec oldsz H0) as Hold. induction fuel as [|fuel IH]; intros r n f s us sp N Sp C HN Hr Hf Hg Hn0; cbn [allocuvm_loop];
    pose proof (npages_spec newsz Hn0) as Hnew.
  1: assert (r = O) by lia; subst r. 2: destruct r as [|r].
  1,2: rewrite (proj2 (Z.leb_le _ _)) by lia; wp_step; exists us, sp; (split; [constructor; [reflexivity|exact C|intros k _; reflexivity]|]);
    left; (split; [reflexivity|]); (split; [replace (npages newsz) with N by lia; exact Hg|]); eapply space_free_weaken; [exact Sp|lia|lia].
  rewrite (proj2 (Z.leb_gt _ _)) by lia. destruct Sp as (free & m & U & Hs & Hfree). destruct Hg as (G1 & G2 & G3).
  assert (HNk : 0 <= N < KPN) by (unfold KPN, KERNBASE in *; lia).
  apply wp_bind. eapply (law_kalloc (base.size us + (3 * r + 4 + n))); [eapply law_weaken; [exact Hs|lia]| |]; cbn [v_free v_mem].
  - intros Hfr s1 Hs1. cbn [Z.eqb]. eapply (wp_alloc_give_up R n s1 us0 us sp newsz oldsz N); try assumption; try lia.
    + eapply space_shows; [exact U|exact Hs1|lia].
    + intros x s2 sp2 St Sp2. wp_step. exists us0, sp2. split; [exact St|]. right. rewrite Hfr in Hfree. cbn in Hfree. repeat (split; [first [reflexivity|assumption]|]). lia.
  - intros q l bs s1 -> Hlb Hs1. pose proof (law_free _ _ _ q Hs ltac:(left)) as (_ & Hq2 & Hq3). cbn [v_mem] in Hq3.
    rewrite (proj2 (Z.eqb_neq q 0)) by (unfold KERNBASE in Hq2; lia).
    apply wp_bind. eapply law_fill; [exact Hs1|cbn [v_mem]; rewrite lookup_insert_eq; eauto|]. cbn [v_free v_mem]. intros s2 Hs2.
    rewrite insert_insert_eq in Hs2. change (replicate (Z.to_nat 4096) (u8 0)) with zero_page in Hs2.
    destruct (user_fresh R us sp m q zero_page U Hq3) as [U2 HR].
    assert (Hperm : 0 <= Z.lor PTE_W PTE_U < 4096) by (split; [discriminate|reflexivity]).
    apply wp_bind. eapply wp_mono; [apply (wp_map_user R (base.size us + (3 * r + 3 + n)) s2 l us sp (<[q := zero_page]> m) q zero_page N (Z.lor PTE_W PTE_U)); try assumption; eapply law_weaken; [exact Hs2|lia]|].
    intros ok s3 (sp3 & free3 & m3 & Hs3 & St & Hlen & Hok). cbn [length] in Hfree. destruct ok; cbn [negb].
    + change (Z.lor (Z.lor PTE_W PTE_U) 1) with 7 in Hok. set (us3 := <[N := Upage q 7 zero_page]> us) in *.
      unfold PGSIZE. rewrite u32_id by (unfold is_u32, KPN, KERNBASE in *; lia). replace (4096 * N + 4096) with (4096 * (N + 1)) by lia. rewrite <- (st_dir _ _ St).
      eapply wp_mono; [apply (IH r n (f - 2)%nat s3 us3 sp3 (N + 1)); try lia|].
      * exists free3, m3. split; [exact Hok|]. split; [eapply law_weaken; [exact Hs3|]; pose proof (size_insert_le us N (Upage q 7 zero_page)); unfold us3; lia|lia].
      * apply St.
      * unfold us3. split; [intros k Hkk; rewrite lookup_insert_ne by lia; apply G1, Hkk|]. split; [|apply covers_insert; [lia|exact G3]].
        intros k Hkk. destruct (decide (k = N)) as [->|Hne]; [rewrite lookup_insert_eq; eauto|]. rewrite lookup_insert_ne by congruence. apply G2. lia.
      * intros x s4 (us4 & sp4 & St4 & Hx). exists us4, sp4. split; [eapply stays_trans; eassumption|].
        destruct Hx as [(Hx & Hg4 & Sp4)|(Hx & Hu4 & Sp4 & Hf4)]; [left|right; repeat (split; [assumption|]); lia].
        repeat (split; [assumption|]). eapply space_free_weaken; [exact Sp4|lia|lia].
    + destruct Hok as [U3 Hf3]. rewrite <- (st_dir _ _ St). eapply (wp_alloc_give_up (<[q := zero_page]> R) (1 + n) s3 us0 us sp3 newsz oldsz N); try assumption; try lia.
      * eapply space_shows; [exact U3|exact Hs3|lia].
      * apply St.
      * intros x s4 sp4 St4 Sp4. apply wp_bind. eapply wp_mono; [apply (space_delete R q zero_page n us0 sp4 s4 HR Sp4)|].
        intros [] s5 Sp5. wp_step. exists us0, sp4. split; [eapply stays_trans; eassumption|]. right. rewrite Hf3 in Hlen. cbn in Hlen.
        repeat (split; [first [reflexivity|assumption]|]). lia.
Qed.

(** [allocuvm], with the pages that it takes counted. *)
Lemma wp_allocuvm_pages R n f s us sp oldsz newsz r : r = Z.to_nat (npages newsz - npages oldsz) -> 0 <= oldsz <= KERNBASE -> 0 <= newsz -> covers us (npages oldsz) -> contig sp -> space_free R (3 * r + 2 + n) f us sp s ->
  wp (allocuvm (dir sp) oldsz newsz) (fun x s' => exists us' sp', stays sp sp' /\ (oldsz <= newsz < KERNBASE /\ x = newsz /\ grown_to (npages oldsz) (npages newsz) us us' /\ space_free R n (f - 2 * r) us' sp' s' \/
     newsz < oldsz /\ newsz < KERNBASE /\ x = oldsz /\ us' = us /\ space_free R n f us' sp' s' \/
     x = 0 /\ us' = us /\ space_at R n us' sp' s' /\ (KERNBASE <= newsz \/ oldsz <= newsz /\ (f <= 2 * r)%nat))) s.
Proof.
  intros Er Ho Hn0 Cv C Sp. assert (Hsame : stays sp sp) by (constructor; [reflexivity|exact C|intros k _; reflexivity]).
  assert (Sp0 : space_free R n f us sp s) by (eapply space_free_weaken; [exact Sp|lia|lia]). assert (Sp1 : space_at R n us sp s) by (eapply space_free_at; [exact Sp0|lia]).
  unfold allocuvm. destruct (KERNBASE <=? newsz) eqn:E1; [apply Z.leb_le in E1; wp_step; exists us, sp; split; [exact Hsame|]; right; right; auto|].
  apply Z.leb_gt in E1.
  destruct (newsz <? oldsz) eqn:E2; [apply Z.ltb_lt in E2; wp_step; exists us, sp; split; [exact Hsame|]; right; left; repeat (split; [first [reflexivity|lia]|]); exact Sp0|].
  apply Z.ltb_ge in E2. pose proof (npages_spec oldsz ltac:(lia)). pose proof (npages_spec newsz Hn0).
  rewrite roundup_pages by (unfold KERNBASE in *; lia). fold (npages oldsz).
  assert (Hle : npages oldsz <= npages newsz) by (unfold npages; apply Z.div_le_mono; lia).
  eapply wp_mono; [apply (wp_alloc_loop R us oldsz newsz _ ltac:(lia) E1 Cv r n f s us sp (npages oldsz)); try assumption; try lia|].
  - unfold PGSIZE. pose proof (Z.div_mod newsz 4096 ltac:(lia)). pose proof (Z.mod_pos_bound newsz 4096). lia.
  - split; [reflexivity|]. split; [intros k Hk; lia|exact Cv].
  - intros x s' (us' & sp' & St & [(-> & Hg & Sp')|(-> & -> & Sp' & Hf)]); [exists us', sp'|exists us, sp'].
    + split; [exact St|]. left. split; [lia|]. split; [reflexivity|]. auto.
    + split; [exact St|]. right. right. split; [reflexivity|]. auto 6.
Qed.

Lemma wp_allocuvm R n f s us sp oldsz newsz : 0 <= oldsz <= KERNBASE -> 0 <= newsz -> covers us (npages oldsz) -> contig sp ->
  space_free R (3 * Z.to_nat (npages newsz) + 2 + n) f us sp s ->
  wp (allocuvm (dir sp) oldsz newsz) (fun x s' => exists us' sp', stays sp sp' /\ space_at R n us' sp' s' /\
    (oldsz <= newsz < KERNBASE /\ x = newsz /\ grown_to (npages oldsz) (npages newsz) us us' /\ space_free R n (f - 2 * Z.to_nat (npages newsz)) us' sp' s' \/
     newsz < oldsz /\ newsz < KERNBASE /\ x = oldsz /\ us' = us \/
     x = 0 /\ us' = us /\ (KERNBASE <= newsz \/ oldsz <= newsz /\ (f <= 2 * Z.to_nat (npages newsz - npages oldsz))%nat))) s.
Proof.
  intros Ho Hn0 Cv C Sp. pose proof (npages_spec oldsz ltac:(lia)).
  eapply wp_mono; [apply (wp_allocuvm_pages R n f s us sp oldsz newsz _ eq_refl Ho Hn0 Cv C); eapply space_free_weaken; [exact Sp|lia|lia]|].
  intros x s' (us' & sp' & St & [(Hx & -> & Hg & Sp')|[(Hx & Hk & -> & -> & Sp')|(-> & -> & Sp' & Hf)]]); eexists _, sp'; (split; [exact St|]).
  - split; [eapply space_free_at; [exact Sp'|lia]|]. left. split; [exact Hx|]. split; [reflexivity|]. split; [exact Hg|]. eapply space_free_weaken; [exact Sp'|lia|lia].
  - split; [eapply space_free_at; [exact Sp'|lia]|]. right. left. auto.
  - split; [exact Sp'|]. right. right. auto.
Qed.
End vm.
End VmUser.
