(* ===== verification/VmOps.v ===== *)
(** Whole address spaces (vm.c, modelled in Vm.v): [freevm], [setupkvm], [copyuvm], [copyout] and
    [loaduvm], on the state of VmUser.v. *)

From stdpp Require Import gmap.
From S2P Require Import Prelude Kernel Kalloc PageMem Vm VmFacts VmUser Fs.

Module VmOps.
Import Kernel Vm VmFacts VmUser.

Section vm.
Context {S : Type} `{PageMemory S}.

(** ** [freevm] *)

(** The tables with index below [j] have been freed. *)
Record freed_tables (sp : aspace) (m : gmap Z (list Z)) (j : Z) (m' : gmap Z (list Z)) : Prop := {
  ft_gone : forall i t, tables sp !! i = Some t -> i < j -> m' !! t = None;
  ft_kept : forall p, (forall i, i < j -> tables sp !! i <> Some p) -> m' !! p = m !! p;
}.

Lemma freed_next sp m j m' t : tables_ok sp m -> freed_tables sp m j m' -> tables sp !! j = Some t ->
  m' !! t = m !! t /\ freed_tables sp m (j + 1) (delete t m').
Proof.
  intros T [F1 F2] Hj. split.
  - apply F2. intros i Hi Ht. pose proof (tb_inj _ _ T i j t Ht Hj). lia.
  - constructor.
    + intros i u Hi Hlt. destruct (decide (u = t)) as [->|Hne]; [apply lookup_delete_eq|]. rewrite lookup_delete_ne by congruence.
      apply (F1 i u Hi). destruct (decide (i = j)) as [->|]; [congruence|lia].
    + intros p Hp. assert (Hpt : p <> t) by (intros ->; exact (Hp j ltac:(lia) Hj)). rewrite lookup_delete_ne by congruence. apply F2. intros i Hi. apply Hp. lia.
Qed.

Lemma freed_skip sp m j m' : freed_tables sp m j m' -> tables sp !! j = None -> freed_tables sp m (j + 1) m'.
Proof.
  intros [F1 F2] Hj. constructor.
  - intros i t Hi Hlt. apply (F1 i t Hi). destruct (decide (i = j)) as [->|]; [congruence|lia].
  - intros p Hp. apply F2. intros i Hi. apply Hp. lia.
Qed.

Lemma dir_kept sp m j m' : tables_ok sp m -> freed_tables sp m j m' -> m' !! dir sp = m !! dir sp.
Proof. intros T F. apply (ft_kept _ _ _ _ F). intros i _ Hi. destruct (tb_table _ _ T i _ Hi) as (_ & Hne & _). contradiction. Qed.

(** Nothing but the rest of the memory is left. *)
Lemma freed_all R sp m m' : user_space R ∅ sp m -> freed_tables sp m 1024 m' -> delete (dir sp) m' = R.
Proof.
  intros U F. pose proof (us_tables _ _ _ _ U) as T. destruct (us_fresh _ _ _ _ U) as (F1 & F2 & _). apply map_eq. intros p.
  destruct (decide (p = dir sp)) as [->|Hpd]; [rewrite lookup_delete_eq; auto|]. rewrite lookup_delete_ne by congruence.
  destruct (decide (m' !! p = m !! p)) as [E|Hne].
  - rewrite E. destruct (m !! p) as [bs|] eqn:Em.
    + destruct (R !! p) as [bs'|] eqn:ER; [rewrite (user_keeps _ _ _ _ _ _ U ER) in Em; congruence|].
      exfalso. assert (Hnt : forall i, tables sp !! i <> Some p).
      { intros i Hi. rewrite (ft_gone _ _ _ _ F i p Hi) in E; [discriminate|]. destruct (tb_table _ _ T i p Hi) as (? & _). lia. }
      rewrite (us_frame _ _ _ _ U p Hpd Hnt) in Em; [congruence|]. intros k u Hk. rewrite lookup_empty in Hk. discriminate.
    + destruct (R !! p) as [bs'|] eqn:ER; [rewrite (user_keeps _ _ _ _ _ _ U ER) in Em; discriminate|reflexivity].
  - destruct (R !! p) as [bs'|] eqn:ER.
    + exfalso. apply Hne, (ft_kept _ _ _ _ F). intros i _ Hi. rewrite (F2 i p Hi) in ER. discriminate.
    + destruct (m' !! p) as [x|] eqn:Ex; [|reflexivity]. exfalso. apply Hne. rewrite <- Ex. apply (ft_kept _ _ _ _ F).
      intros i Hlt Hi. rewrite (ft_gone _ _ _ _ F i p Hi Hlt) in Ex. discriminate.
Qed.

Lemma wp_free_tables n s free sp m : shows (1025 + n) s (PView free m) -> tables_ok sp m ->
  wp (forM (seqZ 0 NPDENTRIES) (fun i => e ← ld32 (dir sp + 4 * i); if test e PTE_P then kfree (P2V (PTE_ADDR e)) else skip))
    (fun _ s' => exists free' m', shows (1 + n) s' (PView free' m') /\ freed_tables sp m 1024 m') s.
Proof.
  intros Hs T. eapply wp_mono.
  { eapply (wp_forM _ _ (fun j s' => exists free' m', shows (1025 - j + n) s' (PView free' m') /\ freed_tables sp m (Z.of_nat j) m')).
    - exists free, m. split; [rewrite Nat.sub_0_r; exact Hs|]. constructor; [|reflexivity]. intros i t Hi Hlt. destruct (tb_table _ _ T i t Hi). lia.
    - intros j i s' Hj (free' & m' & Hs' & F). apply lookup_seqZ in Hj as [-> Hj]. unfold NPDENTRIES in Hj. rewrite Z.add_0_l.
      destruct (tb_dir _ _ T) as (bs & Hbs & He). apply wp_bind. eapply law_ld32; [exact Hs'|cbn [v_mem]; rewrite (dir_kept _ _ _ _ T F); exact Hbs|lia|].
      fold (word (Z.of_nat j) bs). rewrite He by lia. rewrite test_present, (entry_odd _ _ _ _ _ _ Hs T).
      replace (Z.of_nat (Datatypes.S j)) with (Z.of_nat j + 1) by lia. destruct (tables sp !! Z.of_nat j) as [t|] eqn:Et; cbn [entry].
      + rewrite bool_decide_eq_true_2 by eauto. pose proof (table_addr _ _ _ _ _ _ _ Hs T Et) as Ht. rewrite pte_of_addr, P2V_V2P by (try exact Ht; lia).
        destruct (freed_next _ _ _ _ _ T F Et) as [E F']. destruct (tb_table _ _ T _ _ Et) as (_ & _ & bt & Hbt & _).
        eapply (law_kfree (1025 - (1 + j) + n)); [eapply law_weaken; [exact Hs'|lia]|cbn [v_mem]; rewrite E; eauto|].
        cbn [v_free v_mem]. intros s2 Hs2. eexists _, _. split; [exact Hs2|exact F'].
      + rewrite bool_decide_eq_false_2 by (intros [? ?]; discriminate). wp_step. exists free', m'.
        split; [eapply law_weaken; [exact Hs'|lia]|apply freed_skip; assumption]. }
  intros [] s' (free' & m' & Hs' & F). rewrite length_seqZ in Hs', F. exists free', m'. split; [eapply law_weaken; [exact Hs'|unfold NPDENTRIES; lia]|exact F].
Qed.

Lemma dir_addr n s free sp m : shows n s (PView free m) -> tables_ok sp m -> page_addr (dir sp).
Proof. intros Hs T. destruct (tb_dir _ _ T) as (bs & Hbs & _). apply (shows_addr _ _ _ _ Hs). eauto. Qed.

Lemma page_nonzero p : page_addr p -> (p =? 0) = false.
Proof. intros [_ Hp]. apply Z.eqb_neq. unfold KERNBASE in Hp. lia. Qed.

Lemma wp_freevm R n us sp s : space_at R (1025 + n) us sp s -> contig sp -> wp (freevm (dir sp)) (fun _ s' => exists free', shows n s' (PView free' R)) s.
Proof.
  intros (free & m & U & Hs) C. pose proof (us_tables _ _ _ _ U) as T. unfold freevm. rewrite (page_nonzero _ (dir_addr _ _ _ _ _ Hs T)).
  apply wp_bind. eapply wp_mono; [apply (wp_deallocuvm R (1025 + n) s free us sp m KERNBASE 0 Hs U C); lia|].
  intros r s1 (_ & us1 & Hu & [(sp1 & free1 & m1 & U1 & Hs1 & Ed & Et & _)]).
  assert (E : us1 = ∅).
  { apply map_eq. intros k. rewrite Hu, lookup_empty. destruct (decide _) as [|Hout]; [reflexivity|]. apply eq_None_not_Some. intros [u Hu'].
    destruct (us_range _ _ _ _ U k u Hu') as [Hk _]. apply Hout. unfold KPN in Hk. change (npages KERNBASE) with 524288. change (npages 0) with 0. exact Hk. }
  subst us1. rewrite map_size_empty in Hs1. rewrite <- Ed. pose proof (us_tables _ _ _ _ U1) as T1.
  apply wp_bind. eapply wp_mono; [apply (wp_free_tables n s1 free1 sp1 m1 Hs1 T1)|].
  intros [] s2 (free2 & m2 & Hs2 & F). eapply (law_kfree n); [exact Hs2| |].
  - cbn [v_mem]. rewrite (dir_kept _ _ _ _ T1 F). destruct (tb_dir _ _ T1) as (bs & Hbs & _). eauto.
  - cbn [v_free v_mem]. intros s3 Hs3. rewrite (freed_all _ _ _ _ U1 F) in Hs3. eauto.
Qed.

(** ** [setupkvm] *)

(** The pages that an entry of [kmap] maps, and where. *)
Definition kpages (k : kmap_entry) : Z := u32 (phys_end k - phys_start k) / 4096.
Definition in_entry (x : Z) (k : kmap_entry) : Prop := vpn (virt k) <= x < vpn (virt k) + kpages k.
#[local] Instance in_entry_dec x k : Decision (in_entry x k) := _.
Fixpoint kmap_pte (ks : list kmap_entry) (x : Z) : option Z :=
  match ks with
  | [] => None
  | k :: ks => if decide (in_entry x k) then Some (leaf (phys_start k + 4096 * (x - vpn (virt k))) (perm k)) else kmap_pte ks x
  end.

(** Page tables of the kernel part. *)
Definition kernel_table (i : Z) : Prop := 512 <= i < 568 \/ 1016 <= i < 1024.

Record good_entry (k : kmap_entry) : Prop := {
  ge_virt : virt k mod 4096 = 0;
  ge_phys : phys_start k mod 4096 = 0 /\ 0 <= phys_start k;
  ge_pages : 0 < kpages k /\ u32 (phys_end k - phys_start k) = 4096 * kpages k;
  ge_high : KERNBASE <= virt k /\ virt k + 4096 * kpages k <= 2 ^ 32;
  ge_top : phys_start k + 4096 * kpages k <= 2 ^ 32;
  ge_perm : 0 <= perm k < 4096;
  ge_tables : forall i, vpn (virt k) / 1024 <= i <= (vpn (virt k) + kpages k - 1) / 1024 -> kernel_table i;
}.

(** No page is in two entries. *)
Fixpoint apart_entries (ks : list kmap_entry) : Prop :=
  match ks with
  | [] => True
  | k :: ks => (forall x, in_entry x k -> kmap_pte ks x = None) /\ apart_entries ks
  end.
Definition total_pages (ks : list kmap_entry) : nat := foldr (fun k n => Z.to_nat (kpages k) + n)%nat O ks.

Lemma kernel_vpn va : KERNBASE <= va -> KPN <= vpn va.
Proof. intros Hv. unfold KERNBASE in Hv. pose proof (Z.div_le_mono 2147483648 va 4096 ltac:(lia) ltac:(lia)) as Hd. exact Hd. Qed.

Lemma wp_map_entries R ks : Forall good_entry ks -> apart_entries ks -> forall n s free sp m,
  shows (total_pages ks + n) s (PView free m) -> user_space R ∅ sp m -> (forall x, is_Some (kmap_pte ks x) -> ptes sp !! x = None) ->
  wp (map_entries (dir sp) ks) (fun ok s' => exists sp' free' m', user_space R ∅ sp' m' /\ shows n s' (PView free' m') /\ dir sp' = dir sp /\
    tables_added kernel_table sp free sp' free' /\
    if ok : bool then forall x, ptes sp' !! x = match kmap_pte ks x with Some w => Some w | None => ptes sp !! x end else free' = []) s.
Proof.
  intros Hg. induction Hg as [|k ks G Hg IH]; intros Ha n s free sp m Hs U Hn; cbn [map_entries].
  - wp_step. exists sp, free, m. split; [exact U|]. split; [exact Hs|]. split; [reflexivity|]. split; [apply tables_added_refl|reflexivity].
  - destruct Ha as [Ha1 Ha2]. destruct G as [G1 [G2 G2'] [G3 G3'] [G4 G4'] G5 G6 G7]. set (c := Z.to_nat (kpages k - 1)).
    assert (Ec : kpages k = 1 + Z.of_nat c) by lia. pose proof (kernel_vpn _ G4) as Hkv.
    change (total_pages (k :: ks)) with (Z.to_nat (kpages k) + total_pages ks)%nat in Hs.
    apply (law_weaken _ (1 + c + (total_pages ks + n))) in Hs; [|lia].
    rewrite G3', Ec. unfold KERNBASE in G4.
    apply wp_bind. eapply wp_mono; [apply (wp_mappages (total_pages ks + n) s free sp m (virt k) (phys_start k) (perm k) c); try assumption; try lia; [apply U|]|].
    { intros x Hx. apply Hn. cbn [kmap_pte]. rewrite decide_True by (unfold in_entry; lia). eauto. }
    intros ok s1 (sp1 & free1 & m1 & j & G & Hs1 & M & A & Hok).
    assert (U1 : user_space R ∅ sp1 m1).
    { eapply user_grow; [exact U|exact G|]. intros x Hx. rewrite M, decide_False by lia. reflexivity. }
    assert (A1 : tables_added kernel_table sp free sp1 free1).
    { destruct A as [A1 A2]. split; [exact A1|]. intros i Hi. destruct (A2 i Hi) as [?|Hr]; [auto|right]. apply G7. split; [apply Hr|].
      etransitivity; [apply Hr|]. apply Z.div_le_mono; [lia|]. destruct ok; [subst j|destruct Hok]; lia. }
    destruct ok.
    + subst j. rewrite <- (tg_dir _ _ _ _ G). eapply wp_mono; [apply (IH Ha2 n s1 free1 sp1 m1 Hs1 U1)|].
      * intros x Hx. rewrite M. destruct (decide _) as [Hin|Hout]; [|apply Hn; cbn [kmap_pte]; destruct (decide _); eauto].
        rewrite (Ha1 x) in Hx by (unfold in_entry; lia). destruct Hx. discriminate.
      * intros ok s2 (sp2 & free2 & m2 & U2 & Hs2 & Ed & A2 & Hok). exists sp2, free2, m2. split; [exact U2|]. split; [exact Hs2|].
        split; [exact Ed|]. split; [eapply (tables_added_trans kernel_table kernel_table kernel_table); [auto|auto|exact A1|exact A2]|].
        destruct ok; [|exact Hok]. intros x. rewrite Hok, M. cbn [kmap_pte]. destruct (decide (in_entry x k)) as [Hin|Hout]; unfold in_entry in *.
        -- rewrite (Ha1 x Hin), decide_True by lia. reflexivity.
        -- destruct (kmap_pte ks x); [reflexivity|]. rewrite decide_False by lia. reflexivity.
    + wp_step. exists sp1, free1, m1. split; [exact U1|]. split; [eapply law_weaken; [exact Hs1|lia]|]. split; [apply G|]. split; [exact A1|apply Hok].
Qed.

(** The kernel part of every page directory. *)
Definition kernel_part (data : Z) (sp : aspace) : Prop := forall k, ~ (0 <= k < KPN) -> ptes sp !! k = kmap_pte (kmap data) k.

(** What the linker script makes of [data]. *)
Definition data_ok (data : Z) : Prop := data mod 4096 = 0 /\ KERNLINK < data < KERNBASE + PHYSTOP.

Lemma kmap_pte_none ks x : Forall (fun k => ~ in_entry x k) ks -> kmap_pte ks x = None.
Proof. induction 1 as [|k ks Hk _ IH]; [reflexivity|]. cbn [kmap_pte]. rewrite decide_False by exact Hk. exact IH. Qed.

Lemma good_intro k x n p : virt k = 4096 * x -> phys_start k = 4096 * p -> u32 (phys_end k - phys_start k) = 4096 * n -> 0 < n ->
  524288 <= x -> x + n <= 1048576 -> 0 <= p -> p + n <= 1048576 -> 0 <= perm k < 4096 -> x + n <= 581632 \/ 1040384 <= x ->
  good_entry k /\ kpages k = n /\ vpn (virt k) = x.
Proof.
  intros Ev Ep En Hn Hx Hxn Hp Hpn Hperm Ht. assert (Ek : kpages k = n) by (unfold kpages; rewrite En, Z.mul_comm, Z.div_mul; lia).
  assert (Evp : vpn (virt k) = x) by (unfold vpn; rewrite Ev, Z.mul_comm, Z.div_mul; lia). split; [|auto].
  constructor; rewrite ?Evp, ?Ek; try lia.
  - rewrite Ev, Z.mul_comm. apply Z_mod_mult.
  - split; [rewrite Ep, Z.mul_comm; apply Z_mod_mult|lia].
  - unfold KERNBASE. lia.
  - intros i Hi. unfold kernel_table. pose proof (Z.div_le_mono 524288 x 1024 ltac:(lia) Hx) as H1. change (524288 / 1024) with 512 in H1. destruct Ht as [Ht|Ht].
    + pose proof (Z.div_lt_upper_bound (x + n - 1) 1024 568 ltac:(lia) ltac:(lia)). lia.
    + pose proof (Z.div_le_mono 1040384 x 1024 ltac:(lia) Ht) as H2. change (1040384 / 1024) with 1016 in H2.
      pose proof (Z.div_lt_upper_bound (x + n - 1) 1024 1024 ltac:(lia) ltac:(lia)). lia.
Qed.

(** The four entries: their first pages and their lengths. *)
Lemma kmap_good data : data_ok data -> Forall good_entry (kmap data) /\ apart_entries (kmap data) /\ total_pages (kmap data) = Z.to_nat 65536.
Proof.
  intros [Hd Hr]. unfold KERNLINK, KERNBASE, PHYSTOP, EXTMEM in Hr. pose proof (Z.div_mod data 4096 ltac:(lia)) as Ed. rewrite Hd, Z.add_0_r in Ed.
  set (d := data / 4096) in *. assert (Hd' : 524544 < d < 581632) by lia.
  assert (Ev : V2P data = 4096 * (d - 524288)) by (unfold V2P, KERNBASE; rewrite u32_id by (unfold is_u32; lia); lia).
  destruct (good_intro (Kmap KERNBASE 0 EXTMEM PTE_W) 524288 256 0) as (G1 & E1 & V1); try reflexivity; try (unfold PTE_W; cbn [perm]; lia).
  destruct (good_intro (Kmap KERNLINK (V2P KERNLINK) (V2P data) 0) 524544 (d - 524544) 256) as (G2 & E2 & V2); cbn [virt phys_start phys_end perm]; try reflexivity; try lia.
  { rewrite Ev. change (V2P KERNLINK) with 1048576. rewrite u32_id by (unfold is_u32; lia). lia. }
  destruct (good_intro (Kmap data (V2P data) PHYSTOP PTE_W) d (581632 - d) (d - 524288)) as (G3 & E3 & V3); cbn [virt phys_start phys_end perm]; try assumption; try lia.
  { rewrite Ev. change PHYSTOP with 234881024. rewrite u32_id by (unfold is_u32; lia). lia. }
  { unfold PTE_W. lia. }
  destruct (good_intro (Kmap DEVSPACE DEVSPACE 0 PTE_W) 1040384 8192 1040384) as (G4 & E4 & V4); try reflexivity; try (unfold PTE_W; cbn [perm]; lia).
  split; [unfold kmap; rewrite !Forall_cons; repeat split; first [apply Forall_nil_2|apply G1|apply G2|apply G3|apply G4]|]. cbn [virt] in V1, V2, V3, V4. split.
  - unfold kmap. repeat split; intros x Hx; apply kmap_pte_none; rewrite ?Forall_cons; unfold in_entry in *;
      repeat split; first [apply Forall_nil_2|rewrite ?E1, ?E2, ?E3, ?E4 in *; cbn [virt] in *; rewrite ?V1, ?V2, ?V3, ?V4 in *; lia].
  - unfold total_pages, kmap. cbn [foldr]. rewrite E1, E2, E3, E4. lia.
Qed.

Lemma kernel_tables_few (t : gmap Z Z) : (forall i, is_Some (t !! i) -> kernel_table i) -> (base.size t <= 64)%nat.
Proof.
  intros Hk. rewrite <- length_map_to_list, <- (length_fmap fst). change 64%nat with (length (seqZ 512 56 ++ seqZ 1016 8)).
  apply submseteq_length, NoDup_submseteq; [apply NoDup_fst_map_to_list|]. intros i Hi. apply list_elem_of_fmap in Hi as ([j x] & -> & Hj).
  apply elem_of_map_to_list in Hj. apply elem_of_app. rewrite !elem_of_seqZ. destruct (Hk j ltac:(eauto)); [left|right]; cbn; lia.
Qed.

Lemma empty_space m p : m !! p = None -> user_space m ∅ (Aspace p ∅ ∅) (<[p := zero_page]> m).
Proof.
  intros Hp. constructor; cbn [dir tables ptes].
  - constructor; cbn [dir tables ptes].
    + exists zero_page. split; [apply lookup_insert_eq|]. intros i Hi. rewrite lookup_empty. apply word_zero, Hi.
    + intros i t Hi. rewrite lookup_empty in Hi. discriminate.
    + intros i j t Hi. rewrite lookup_empty in Hi. discriminate.
    + intros k w Hk. rewrite lookup_empty in Hk. discriminate.
  - intros k _. rewrite !lookup_empty. reflexivity.
  - intros k u Hk. rewrite lookup_empty in Hk. discriminate.
  - intros k u Hk. rewrite lookup_empty in Hk. discriminate.
  - intros k u Hk. rewrite lookup_empty in Hk. discriminate.
  - intros k j u w Hk. rewrite lookup_empty in Hk. discriminate.
  - intros q Hq _ _. apply lookup_insert_ne. congruence.
  - split; [exact Hp|]. split; [intros i t Hi|intros k u Hk]; [rewrite lookup_empty in Hi|rewrite lookup_empty in Hk]; discriminate.
Qed.

(** A new directory: the kernel part, and nothing below it. *)
Record new_dir (data : Z) (R : gmap Z (list Z)) (sp : aspace) (m : gmap Z (list Z)) : Prop := {
  nd_space : user_space R ∅ sp m;
  nd_kernel : kernel_part data sp;
  nd_tables : forall i, is_Some (tables sp !! i) -> kernel_table i;
}.

Lemma new_contig data R sp m : new_dir data R sp m -> contig sp.
Proof. intros [_ _ Ht] i j Hij Hj Hs. destruct (Ht j Hs); lia. Qed.

Definition SETUP : nat := Z.to_nat 65537.

Lemma wp_setupkvm data n s free m : data_ok data -> shows (SETUP + n) s (PView free m) ->
  wp (setupkvm data) (fun r s' =>
    (exists sp free' m', r = dir sp /\ r <> 0 /\ new_dir data m sp m' /\ shows n s' (PView free' m') /\ (length free <= 65 + length free')%nat) \/
    (r = 0 /\ (length free <= 65)%nat /\ exists m', shows n s' (PView [] m') /\ forall p bs, m !! p = Some bs -> m' !! p = Some bs)) s.
Proof.
  intros Hd Hs. destruct (kmap_good data Hd) as (Hg & Ha & Ht). unfold setupkvm. apply wp_bind.
  eapply (law_kalloc (Z.to_nat 65536 + n)); [eapply law_weaken; [exact Hs|unfold SETUP; lia]| |]; cbn [v_free v_mem].
  - intros -> s1 Hs1. cbn [Z.eqb]. wp_step. right. split; [reflexivity|]. split; [cbn; lia|]. exists m. split; [eapply law_weaken; [exact Hs1|lia]|auto].
  - intros q l b s1 -> Hb Hs1. pose proof (law_free _ _ _ q Hs ltac:(left)) as (Hq1 & Hq2 & Hq3). cbn [v_mem] in Hq3.
    rewrite (page_nonzero q ltac:(split; assumption)). apply wp_bind.
    eapply law_fill; [exact Hs1|cbn [v_mem]; rewrite lookup_insert_eq; eauto|]. cbn [v_free v_mem]. intros s2 Hs2.
    rewrite insert_insert_eq in Hs2. change (replicate (Z.to_nat 4096) (u8 0)) with zero_page in Hs2.
    change (DEVSPACE <? P2V PHYSTOP) with false. cbv iota. pose proof (empty_space m q Hq3) as U. set (sp := Aspace q ∅ ∅) in *. change q with (dir sp).
    apply wp_bind. eapply wp_mono; [apply (wp_map_entries m (kmap data) Hg Ha n s2 l sp _ ltac:(rewrite Ht; exact Hs2) U); intros x _; apply lookup_empty|].
    intros ok s3 (sp3 & free3 & m3 & U3 & Hs3 & Ed & A & Hok). wp_step. rewrite <- Ed.
    assert (Hk : forall i, is_Some (tables sp3 !! i) -> kernel_table i).
    { intros i Hi. destruct (ta_where _ _ _ _ _ A i Hi) as [Hi'|]; [|assumption]. cbn in Hi'. rewrite lookup_empty in Hi'. destruct Hi'. discriminate. }
    pose proof (ta_count _ _ _ _ _ A) as Hc. pose proof (kernel_tables_few _ Hk). cbn [sp tables] in Hc. rewrite map_size_empty in Hc. destruct ok.
    + left. exists sp3, free3, m3. split; [reflexivity|]. split; [rewrite Ed; cbn; unfold KERNBASE in Hq2; lia|].
      split; [|split; [exact Hs3|cbn [length]; lia]]. constructor; [exact U3| |exact Hk].
      intros k _. rewrite Hok. replace (ptes sp !! k) with (@None Z) by (symmetry; apply lookup_empty). destruct (kmap_pte (kmap data) k); reflexivity.
    + right. split; [reflexivity|]. subst free3. cbn [length] in Hc |- *. split; [lia|]. exists m3. split; [exact Hs3|]. intros p bs Hp. exact (user_keeps _ _ _ _ _ _ U3 Hp).
Qed.

(** ** [copyuvm] *)

(** The first [N] pages of the child are those of the parent, in pages of its own. *)
Definition copied (N : Z) (us us' : gmap Z upage) : Prop :=
  covers us' N /\ forall k, 0 <= k < N -> exists u q, us !! k = Some u /\ us' !! k = Some (Upage q (u_flags u) (u_bytes u)).

Lemma copied_next N us us' u q : 0 <= N -> copied N us us' -> us !! N = Some u -> copied (N + 1) us (<[N := Upage q (u_flags u) (u_bytes u)]> us').
Proof.
  intros HN [C1 C2] Hu. split; [apply covers_insert; assumption|]. intros k Hk. destruct (decide (k = N)) as [->|Hne]; [rewrite lookup_insert_eq; eauto|].
  rewrite lookup_insert_ne by congruence. apply C2. lia.
Qed.

(** The parent as the child sees it: in the rest of the memory. *)
Lemma parent_page R us sp m usc spc mc k u : user_space R us sp m -> user_space m usc spc mc -> us !! k = Some u -> mc !! u_page u = Some (u_bytes u).
Proof. intros U Uc Hk. apply (user_keeps _ _ _ _ _ _ Uc), (us_page _ _ _ _ U k u Hk). Qed.

Lemma parent_tables R us sp m usc spc mc : user_space R us sp m -> user_space m usc spc mc -> tables_ok sp mc.
Proof.
  intros U Uc. pose proof (us_tables _ _ _ _ U) as T. eapply tables_ok_frame; [exact T| |].
  - destruct (tb_dir _ _ T) as (bs & Hbs & _). rewrite Hbs. exact (user_keeps _ _ _ _ _ _ Uc Hbs).
  - intros i t Hi. destruct (tb_table _ _ T i t Hi) as (_ & _ & bs & Hbs & _). rewrite Hbs. exact (user_keeps _ _ _ _ _ _ Uc Hbs).
Qed.

(** The memory after a failed copy: as before, but for a page that may be lost. *)
Definition lost_page (m m' : gmap Z (list Z)) : Prop := m' = m \/ exists q bs, m !! q = None /\ m' = <[q := bs]> m.

Lemma stays_refl sp : contig sp -> stays sp sp.
Proof. intros C. constructor; [reflexivity|exact C|intros k _; reflexivity]. Qed.

Lemma lor_odd x : Z.odd x = true -> Z.lor x 1 = x.
Proof.
  intros Hx. apply Z.bits_inj'. intros i Hi. rewrite Z.lor_spec. destruct (decide (i = 0)) as [->|Hne].
  - rewrite Z.bit0_odd, Hx. reflexivity.
  - change 1 with (2 ^ 0). rewrite Z.pow2_bits_false by lia. apply orb_false_r.
Qed.

(** What a round of the copy leaves to the next, or to [freevm]. *)
Definition copy_post (m : gmap Z (list Z)) (us : gmap Z upage) (N : Z) (n f r : nat) (spc : aspace) (ok : bool) (s' : S) : Prop :=
  exists usc' spc', stays spc spc' /\
    if ok then space_free m n (f - 2 * r) usc' spc' s' /\ copied N us usc'
    else (f <= 2 * r)%nat /\ exists R', lost_page m R' /\ space_at R' n usc' spc' s'.

Lemma wp_copy_loop R us sp m sz fuel : user_space R us sp m -> 0 <= sz <= KERNBASE -> (forall k, 0 <= k < npages sz -> is_Some (us !! k)) ->
  forall r n f s usc spc N, space_free m (3 * r + n) f usc spc s -> contig spc -> copied N us usc -> 0 <= N -> N + Z.of_nat r = npages sz -> (r <= fuel)%nat ->
  wp (copyuvm_loop fuel (dir sp) (dir spc) sz (4096 * N)) (fun ok s' => copy_post m us (npages sz) n f r spc ok s') s.
Proof.
  intros U Hsz Hus. pose proof (npages_spec sz (proj1 Hsz)) as Hnp. induction fuel as [|fuel IH]; intros r n f s usc spc N Sp C Hc HN Hr Hf; cbn [copyuvm_loop].
  1: assert (r = O) by lia; subst r. 2: destruct r as [|r].
  1,2: rewrite (proj2 (Z.leb_le _ _)) by lia; wp_step; exists usc, spc; (split; [apply stays_refl, C|]); (split; [eapply space_free_weaken; [exact Sp|lia|lia]|]); replace (npages sz) with N by lia; exact Hc.
  rewrite (proj2 (Z.leb_gt _ _)) by lia. destruct Sp as (free & mc & Uc & Hs & Hfree). unfold KERNBASE in Hsz.
  assert (HNk : 0 <= N < KPN) by (unfold KPN; lia). assert (Hau : is_u32 (4096 * N)) by (unfold is_u32; lia).
  assert (EN : vpn (4096 * N) = N) by (unfold vpn; rewrite Z.mul_comm, Z.div_mul; lia).
  destruct (Hus N ltac:(lia)) as [u Hu]. pose proof (parent_tables _ _ _ _ _ _ _ U Uc) as T. pose proof (parent_page _ _ _ _ _ _ _ _ _ U Uc Hu) as Hpu.
  assert (Hpa : page_addr (u_page u)) by (apply (shows_addr _ _ _ _ Hs); eauto). destruct (us_range _ _ _ _ U N u Hu) as (_ & Hfl & Hodd).
  destruct (user_table _ _ _ _ _ _ U Hu) as [t Ht]. destruct (PDX_spec _ Hau) as [Ed _]. rewrite EN in Ed. rewrite <- Ed in Ht.
  apply wp_bind. eapply (wp_walk _ _ _ sp mc (4096 * N) false); [exact Hs|exact T|exact Hau|left; reflexivity|]. rewrite Ht. cbn [fmap option_fmap option_map].
  apply wp_bind. eapply (wp_ld_pte _ s free sp mc (4096 * N) t); [exact Hs|exact T|exact Hau|exact Ht|]. rewrite EN, (us_pte _ _ _ _ U N HNk), Hu.
  change (default 0 ((fun u => pte_of (u_page u) (u_flags u)) <$> Some u)) with (pte_of (u_page u) (u_flags u)). rewrite test_present, pte_of_odd, Hodd by assumption.
  cbn [negb]. rewrite pte_of_addr, pte_of_flags, P2V_V2P by assumption.
  apply wp_bind. eapply (law_kalloc (base.size usc + (3 * r + 2 + n))); [eapply law_weaken; [exact Hs|lia]| |]; cbn [v_free v_mem].
  - intros -> s1 Hs1. cbn [Z.eqb]. wp_step. exists usc, spc. split; [apply stays_refl, C|]. cbn in Hfree. split; [lia|].
    exists m. split; [left; reflexivity|]. eapply space_shows; [exact Uc|exact Hs1|lia].
  - intros q l b s1 -> Hb Hs1. pose proof (law_free _ _ _ q Hs ltac:(left)) as (Hq1 & Hq2 & Hq3). cbn [v_mem] in Hq3.
    rewrite (page_nonzero q ltac:(split; assumption)). apply wp_bind.
    eapply (law_copy _ s1 _ q (u_page u) (u_bytes u)); [exact Hs1|cbn [v_mem]; rewrite lookup_insert_eq; eauto|cbn [v_mem]; rewrite lookup_insert_ne by congruence; exact Hpu|].
    cbn [v_free v_mem]. intros s2 Hs2. rewrite insert_insert_eq in Hs2. destruct (user_fresh m usc spc mc q (u_bytes u) Uc Hq3) as [U2 HR].
    apply wp_bind. eapply wp_mono; [apply (wp_map_user m (base.size usc + (3 * r + 1 + n)) s2 l usc spc (<[q := u_bytes u]> mc) q (u_bytes u) N (u_flags u)); try assumption; [eapply law_weaken; [exact Hs2|lia]|apply Hc]|].
    intros ok s3 (sp3 & free3 & m3 & Hs3 & St & Hlen & Hok). cbn [length] in Hfree. destruct ok; cbn [negb].
    + replace (Z.lor (u_flags u) 1) with (u_flags u) in Hok by (symmetry; apply lor_odd; assumption).
      unfold PGSIZE. rewrite u32_id by (unfold is_u32; lia). replace (4096 * N + 4096) with (4096 * (N + 1)) by lia. rewrite <- (st_dir _ _ St).
      eapply wp_mono; [apply (IH r n (f - 2)%nat s3 (<[N := Upage q (u_flags u) (u_bytes u)]> usc) sp3 (N + 1)); try lia|].
      * exists free3, m3. split; [exact Hok|]. split; [eapply law_weaken; [exact Hs3|]; pose proof (size_insert_le usc N (Upage q (u_flags u) (u_bytes u))); lia|lia].
      * apply St.
      * apply copied_next; assumption.
      * intros ok s4 (us4 & sp4 & St4 & H4). exists us4, sp4. split; [eapply stays_trans; eassumption|]. destruct ok; [|split; [lia|apply H4]].
        split; [eapply space_free_weaken; [apply H4|lia|lia]|apply H4].
    + wp_step. exists usc, sp3. split; [exact St|]. destruct Hok as [U3 Hf3]. rewrite Hf3 in Hlen. cbn in Hlen. split; [lia|]. exists (<[q := u_bytes u]> m). split; [right; eauto|]. eapply space_shows; [exact U3|exact Hs3|lia].
Qed.

Lemma wp_copyuvm data R us sp m n s free sz : data_ok data -> user_space R us sp m -> 0 <= sz <= KERNBASE -> (forall k, 0 <= k < npages sz -> is_Some (us !! k)) ->
  shows (SETUP + (3 * Z.to_nat (npages sz) + (1025 + n))) s (PView free m) ->
  wp (copyuvm data (dir sp) sz) (fun d s' =>
    (exists usc spc mc freec, d = dir spc /\ d <> 0 /\ user_space m usc spc mc /\ copied (npages sz) us usc /\ kernel_part data spc /\ contig spc /\
       shows (base.size usc + n) s' (PView freec mc)) \/
    (d = 0 /\ (length free <= 65 + 2 * Z.to_nat (npages sz))%nat /\ exists m' free', shows n s' (PView free' m') /\ (lost_page m m' \/ free' = [] /\ (length free <= 65)%nat /\ forall p bs, m !! p = Some bs -> m' !! p = Some bs))) s.
Proof.
  intros Hd U Hsz Hus Hs. pose proof (npages_spec sz (proj1 Hsz)) as Hnp. unfold copyuvm. apply wp_bind.
  eapply wp_mono; [apply (wp_setupkvm data _ s free m Hd Hs)|]. intros d s1 [(spc & free1 & mc & -> & Hnz & N & Hs1 & Hlen)|(-> & Hl & m' & Hs1 & Hm)].
  - rewrite (proj2 (Z.eqb_neq _ _) Hnz). set (r := Z.to_nat (npages sz)) in *. assert (Hr : 0 + Z.of_nat r = npages sz) by (unfold r; lia).
    apply wp_bind. change 0 with (4096 * 0) at 1. eapply wp_mono; [apply (wp_copy_loop R us sp m sz _ U Hsz Hus r (1025 + n)%nat (length free1) s1 ∅ spc 0)|]; try lia.
    + exists free1, mc. split; [apply N|]. split; [eapply law_weaken; [exact Hs1|]; rewrite map_size_empty; lia|lia].
    + eapply new_contig, N.
    + split; [|lia]. intros k. rewrite lookup_empty. split; [intros [? ?]; discriminate|lia].
    + unfold PGSIZE, r. pose proof (Z.div_mod sz 4096 ltac:(lia)). pose proof (Z.mod_pos_bound sz 4096). lia.
    + intros ok s2 (usc & spc2 & St & H2). destruct ok.
      * destruct H2 as [(freec & mc2 & Uc & Hs2 & _) Hc]. wp_step. left. exists usc, spc2, mc2, freec. rewrite (st_dir _ _ St). repeat (split; [first [reflexivity|assumption]|]).
        split; [|split; [apply St|eapply law_weaken; [exact Hs2|lia]]]. intros k Hk. rewrite (st_kernel _ _ St k Hk). exact (nd_kernel _ _ _ _ N k Hk).
      * destruct H2 as (Hfew & R' & Hlost & Sp2). rewrite <- (st_dir _ _ St). apply wp_bind. eapply wp_mono; [apply (wp_freevm R' n usc spc2 s2 Sp2), St|].
        intros [] s3 (free3 & Hs3). wp_step. right. split; [reflexivity|]. split; [lia|]. exists R', free3. auto.
  - cbn [Z.eqb]. wp_step. right. split; [reflexivity|]. split; [lia|]. exists m', []. split; [eapply law_weaken; [exact Hs1|lia]|]. right. auto.
Qed.
End vm.
End VmOps.
