(* ===== verification/VmCopy.v ===== *)
(** Access to user memory through a page table (vm.c, modelled in Vm.v): [uva2ka], [copyout],
    [clearpteu], [inituvm] and [loaduvm], on the state of VmUser.v. *)

From stdpp Require Import gmap.
From S2P Require Import Prelude Kernel Kalloc PageMem Vm VmFacts VmUser VmOps Fs.

Module VmCopy.
Import Kernel Vm VmFacts VmUser VmOps.

(** ** Flags *)

Lemma test_bit x i : 0 <= i -> test x (2 ^ i) = Z.testbit x i.
Proof.
  intros Hi. unfold test. assert (E : Z.land x (2 ^ i) = if Z.testbit x i then 2 ^ i else 0).
  { apply Z.bits_inj'. intros j Hj. rewrite Z.land_spec, Z.pow2_bits_eqb by exact Hi. destruct (Z.eqb_spec i j) as [->|Hne].
    - destruct (Z.testbit x j); [rewrite Z.pow2_bits_eqb, Z.eqb_refl by exact Hi; reflexivity|rewrite Z.bits_0; reflexivity].
    - rewrite andb_false_r. destruct (Z.testbit x i); [rewrite Z.pow2_bits_false by exact Hne; reflexivity|rewrite Z.bits_0; reflexivity]. }
  rewrite E. destruct (Z.testbit x i); [|reflexivity]. rewrite (proj2 (Z.eqb_neq _ _)); [reflexivity|]. pose proof (Z.pow_pos_nonneg 2 i). lia.
Qed.

Lemma pte_of_bit p fl i : page_addr p -> 0 <= i < 12 -> Z.testbit (pte_of p fl) i = Z.testbit fl i.
Proof.
  intros Hp Hi. unfold pte_of. rewrite Z.lor_spec. destruct (V2P_page p Hp) as (_ & Hm & _).
  apply Z.mod_divide in Hm as [q ->]; [|lia]. change 4096 with (2 ^ 12). rewrite Z.mul_pow2_bits_low by lia. reflexivity.
Qed.

(** ** User bytes *)

(** The byte at a user address. *)
Definition ubyte (us : gmap Z upage) (a : Z) : option Z := us !! vpn a ≫= fun u => u_bytes u !! Z.to_nat (a mod 4096).

(** User code may use the page of address [a]. *)
Definition accessible (us : gmap Z upage) (a : Z) : bool :=
  match us !! vpn a with None => false | Some u => Z.testbit (u_flags u) 2 end.

(** The pages and their flags are the same. *)
Definition same_pages (us us' : gmap Z upage) : Prop :=
  forall k, (fun u => (u_page u, u_flags u)) <$> us' !! k = (fun u => (u_page u, u_flags u)) <$> us !! k.

Lemma same_accessible us us' a : same_pages us us' -> accessible us' a = accessible us a.
Proof. intros P. unfold accessible. specialize (P (vpn a)). destruct (us !! vpn a), (us' !! vpn a); cbn in P; congruence. Qed.

Definition set_bytes (k : Z) (u : upage) (bs : list Z) (us : gmap Z upage) : gmap Z upage := <[k := Upage (u_page u) (u_flags u) bs]> us.

Lemma set_bytes_pages k u bs us : us !! k = Some u -> same_pages us (set_bytes k u bs us).
Proof.
  intros Hk j. unfold set_bytes. destruct (decide (j = k)) as [->|Hne]; [rewrite lookup_insert_eq, Hk; reflexivity|].
  rewrite lookup_insert_ne by congruence. reflexivity.
Qed.

(** A change of the bytes of a user page. *)
Lemma user_write R us sp m k u bs : user_space R us sp m -> us !! k = Some u -> user_space R (set_bytes k u bs us) sp (<[u_page u := bs]> m).
Proof.
  intros U Hk. destruct (us_apart _ _ _ _ U k u Hk) as [A1 A2]. unfold set_bytes.
  assert (Hcase : forall j w, <[k := Upage (u_page u) (u_flags u) bs]> us !! j = Some w ->
    exists w0, us !! j = Some w0 /\ u_page w = u_page w0 /\ u_flags w = u_flags w0 /\ ((j = k /\ u_bytes w = bs) \/ (j <> k /\ w = w0))).
  { intros j w Hj. destruct (decide (j = k)) as [->|Hne]; [rewrite lookup_insert_eq in Hj; injection Hj as <-; exists u; cbn; auto 6|].
    rewrite lookup_insert_ne in Hj by congruence. exists w. auto 6. }
  constructor.
  - eapply tables_ok_frame; [apply U|apply lookup_insert_ne; exact A1|]. intros i t Hi. apply lookup_insert_ne. intros E. rewrite <- E in Hi. exact (A2 i Hi).
  - intros j Hj. rewrite (us_pte _ _ _ _ U j Hj). destruct (decide (j = k)) as [->|Hne]; [rewrite lookup_insert_eq, Hk; reflexivity|].
    rewrite lookup_insert_ne by congruence. reflexivity.
  - intros j w Hj. destruct (Hcase j w Hj) as (w0 & H0 & _ & -> & _). exact (us_range _ _ _ _ U j w0 H0).
  - intros j w Hj. destruct (Hcase j w Hj) as (w0 & H0 & Ep & _ & [[-> Eb]|[Hne ->]]).
    + rewrite Ep. replace w0 with u by congruence. rewrite lookup_insert_eq. congruence.
    + rewrite lookup_insert_ne; [exact (us_page _ _ _ _ U j w0 H0)|]. intros E. exact (Hne (us_inj _ _ _ _ U j k w0 u H0 Hk (eq_sym E))).
  - intros j w Hj. destruct (Hcase j w Hj) as (w0 & H0 & -> & _). exact (us_apart _ _ _ _ U j w0 H0).
  - intros j i w x Hj Hi E. destruct (Hcase j w Hj) as (w0 & H0 & Ew & _), (Hcase i x Hi) as (x0 & H1 & Ex & _).
    apply (us_inj _ _ _ _ U j i w0 x0 H0 H1). congruence.
  - intros p H1 H2 H3. rewrite lookup_insert_ne; [apply (us_frame _ _ _ _ U p H1 H2)|].
    + intros j w Hj. destruct (decide (j = k)) as [->|Hne].
      * replace w with u by congruence. apply (H3 k (Upage (u_page u) (u_flags u) bs)), lookup_insert_eq.
      * apply (H3 j). rewrite lookup_insert_ne by congruence. exact Hj.
    + apply (H3 k (Upage (u_page u) (u_flags u) bs)), lookup_insert_eq.
  - destruct (us_fresh _ _ _ _ U) as (F1 & F2 & F3). split; [exact F1|]. split; [exact F2|].
    intros j w Hj. destruct (Hcase j w Hj) as (w0 & H0 & -> & _). exact (F3 j w0 H0).
Qed.

(** The bytes from [va] on become [bs]; nothing else changes. *)
Definition overlay (va : Z) (bs : list Z) (us us' : gmap Z upage) : Prop := same_pages us us' /\
  forall a, ubyte us' a = if decide (va <= a < va + Z.of_nat (length bs)) then bs !! Z.to_nat (a - va) else ubyte us a.

Lemma overlay_nil va us : overlay va [] us us.
Proof. split; [intros j; reflexivity|]. intros a. rewrite decide_False by (cbn; lia). reflexivity. Qed.

Lemma overlay_app va bs bs' us us1 us2 : overlay va bs us us1 -> overlay (va + Z.of_nat (length bs)) bs' us1 us2 -> overlay va (bs ++ bs') us us2.
Proof.
  intros [P1 H1] [P2 H2]. split; [intros j; rewrite P2, P1; reflexivity|]. intros a. rewrite H2, H1, length_app.
  destruct (decide (va + Z.of_nat (length bs) <= a < va + Z.of_nat (length bs) + Z.of_nat (length bs'))).
  - rewrite decide_True by lia. rewrite lookup_app_r by lia. f_equal. lia.
  - destruct (decide (va <= a < va + Z.of_nat (length bs))); [rewrite decide_True by lia; rewrite lookup_app_l by lia; reflexivity|rewrite decide_False by lia; reflexivity].
Qed.

(** A write inside one page. *)
Lemma overlay_page us u va new : us !! vpn va = Some u -> Z.of_nat (length (u_bytes u)) = 4096 -> va mod 4096 + Z.of_nat (length new) <= 4096 ->
  overlay va new us (set_bytes (vpn va) u (splice (Z.to_nat (va mod 4096)) new (u_bytes u)) us).
Proof.
  intros Hk Hl Hn. split; [apply set_bytes_pages, Hk|]. intros a. unfold ubyte, set_bytes.
  pose proof (Z.div_mod va 4096 ltac:(lia)) as Ev. pose proof (Z.mod_pos_bound va 4096 ltac:(lia)) as Hv. fold (vpn va) in Ev.
  pose proof (Z.div_mod a 4096 ltac:(lia)) as Ed. pose proof (Z.mod_pos_bound a 4096 ltac:(lia)) as Hm. fold (vpn a) in Ed.
  destruct (decide (vpn a = vpn va)) as [E|Hne].
  - rewrite E, lookup_insert_eq. cbn [mbind option_bind u_bytes]. rewrite Hk. rewrite lookup_splice by lia. cbn [mbind option_bind].
    destruct (decide (va <= a < va + Z.of_nat (length new))); [rewrite decide_True by lia; f_equal; lia|rewrite decide_False by lia; reflexivity].
  - rewrite lookup_insert_ne by congruence. rewrite decide_False by lia. reflexivity.
Qed.

Section vm.
Context {S : Type} `{PageMemory S}.

Lemma wp_uva2ka n s free R us sp m va (Q : Z -> S -> Prop) : shows n s (PView free m) -> user_space R us sp m -> 0 <= va < KERNBASE ->
  is_Some (tables sp !! (vpn va / 1024)) ->
  Q (match us !! vpn va with None => 0 | Some u => if Z.testbit (u_flags u) 2 then u_page u else 0 end) s -> wp (uva2ka (dir sp) va) Q s.
Proof.
  intros Hs U Hva [t Ht] HQ. unfold KERNBASE in Hva. assert (Hau : is_u32 va) by (unfold is_u32; lia). pose proof (us_tables _ _ _ _ U) as T.
  destruct (PDX_spec va Hau) as [Ed _]. rewrite <- Ed in Ht.
  assert (Hk : 0 <= vpn va < KPN) by (unfold vpn, KPN; split; [apply Z.div_pos; lia|apply Z.div_lt_upper_bound; lia]).
  unfold uva2ka. apply wp_bind. eapply (wp_walk _ _ _ sp m va false); [exact Hs|exact T|exact Hau|left; reflexivity|]. rewrite Ht. cbn [fmap option_fmap option_map].
  apply wp_bind. eapply (wp_ld_pte _ s free sp m va t); [exact Hs|exact T|exact Hau|exact Ht|]. rewrite (us_pte _ _ _ _ U _ Hk).
  destruct (us !! vpn va) as [u|] eqn:Eu; [|wp_step; exact HQ]. pose proof (user_addr _ _ _ _ _ _ _ _ _ Hs U Eu) as Hpa. destruct (us_range _ _ _ _ U _ _ Eu) as (_ & Hfl & Hodd).
  change (default 0 _) with (pte_of (u_page u) (u_flags u)). wp_step. rewrite test_present, pte_of_odd, Hodd by assumption. cbn [negb].
  change PTE_U with (2 ^ 2). rewrite test_bit, pte_of_bit by (assumption || lia). destruct (Z.testbit (u_flags u) 2); [|exact HQ].
  cbn [negb]. rewrite pte_of_addr, P2V_V2P by assumption. exact HQ.
Qed.

(** [bs] has been written from [va] on. *)
Definition written (R : gmap Z (list Z)) (n : nat) (free : list Z) (us : gmap Z upage) (sp : aspace) (va : Z) (bs : list Z) (s' : S) : Prop :=
  exists us' m', user_space R us' sp m' /\ shows n s' (PView free m') /\ overlay va bs us us'.

Lemma written_nil R n us sp va s free m : user_space R us sp m -> shows n s (PView free m) -> written R n free us sp va [] s.
Proof. intros U Hs. exists us, m. split; [exact U|]. split; [exact Hs|apply overlay_nil]. Qed.

Lemma written_empty R n free us sp va va' s : written R n free us sp va [] s -> written R n free us sp va' [] s.
Proof.
  intros (us' & m' & U & Hs & [P B]). exists us', m'. split; [exact U|]. split; [exact Hs|]. split; [exact P|].
  intros a. rewrite B, !decide_False by (cbn [length]; lia). reflexivity.
Qed.

Lemma written_app R n free us sp va bs bs' us1 s' : overlay va bs us us1 -> written R n free us1 sp (va + Z.of_nat (length bs)) bs' s' -> written R n free us sp va (bs ++ bs') s'.
Proof. intros O (us' & m' & U & Hs & O'). exists us', m'. split; [exact U|]. split; [exact Hs|]. eapply overlay_app; eassumption. Qed.

(** A write inside one page, as an operation. *)
Lemma wp_put_page R n s free us sp m va u new (Q : unit -> S -> Prop) : shows n s (PView free m) -> user_space R us sp m -> us !! vpn va = Some u ->
  va mod 4096 + Z.of_nat (length new) <= 4096 ->
  (forall us' m' s', overlay va new us us' -> user_space R us' sp m' -> shows n s' (PView free m') -> Q tt s') -> wp (put (u_page u + va mod 4096) new) Q s.
Proof.
  intros Hs U Hu Hn HQ. pose proof (us_page _ _ _ _ U _ _ Hu) as Hpg. pose proof (shows_length _ _ _ _ _ Hs Hpg) as Hl. pose proof (Z.mod_pos_bound va 4096 ltac:(lia)).
  eapply (law_put _ s _ (u_page u) (u_bytes u)); [exact Hs|exact Hpg|lia|lia|]. cbn [v_free v_mem]. intros s1 Hs1.
  eapply HQ; [apply overlay_page; [exact Hu|exact Hl|exact Hn]|apply user_write; [exact U|exact Hu]|exact Hs1].
Qed.

(** [k] bytes have been copied to [va], and [k] is the whole length or the next page is not accessible. *)
Record copyout_post (R : gmap Z (list Z)) (n : nat) (free : list Z) (us : gmap Z upage) (sp : aspace) (va : Z) (buf : list Z) (ok : bool) (k : Z) (s' : S) : Prop := {
  co_bound : 0 <= k <= Z.of_nat (length buf);
  co_result : if ok then k = Z.of_nat (length buf) else k < Z.of_nat (length buf) /\ accessible us (va + k) = false;
  co_done : forall i, 0 <= i < k -> accessible us (va + i) = true;
  co_state : written R n free us sp va (take (Z.to_nat k) buf) s';
}.

Lemma copyout_next R n free us sp va buf c us1 ok k s' va1 : 0 < c <= Z.of_nat (length buf) -> va1 = va + c \/ c = Z.of_nat (length buf) ->
  (forall i, 0 <= i < c -> accessible us (va + i) = true) -> overlay va (take (Z.to_nat c) buf) us us1 ->
  copyout_post R n free us1 sp va1 (drop (Z.to_nat c) buf) ok k s' -> copyout_post R n free us sp va buf ok (c + k) s'.
Proof.
  intros Hc Hva Hacc O [B1 B2 B3 B4]. rewrite length_drop in B1, B2. destruct O as [P Hb]. constructor.
  - lia.
  - destruct ok; [lia|]. destruct B2 as [B2 B2']. split; [lia|]. rewrite <- (same_accessible _ _ _ P), <- B2'. f_equal. lia.
  - intros i Hi. destruct (decide (i < c)); [apply Hacc; lia|]. rewrite <- (same_accessible _ _ _ P). rewrite <- (B3 (i - c)) by lia. f_equal. lia.
  - replace (take (Z.to_nat (c + k)) buf) with (take (Z.to_nat c) buf ++ take (Z.to_nat k) (drop (Z.to_nat c) buf)) by (rewrite Z2Nat.inj_add by lia; apply take_take_drop).
    eapply written_app; [split; [exact P|exact Hb]|]. rewrite length_take, Nat.min_l by lia. rewrite Z2Nat.id by lia. destruct Hva as [->|Hall]; [exact B4|].
    replace k with 0 in * by lia. exact (written_empty _ _ _ _ _ _ _ _ B4).
Qed.

Lemma wp_copyout_loop R sp fuel : forall n s free us m va buf, shows n s (PView free m) -> user_space R us sp m -> 0 <= va -> va + Z.of_nat (length buf) <= KERNBASE ->
  (forall a, va <= a < va + Z.of_nat (length buf) -> is_Some (tables sp !! (vpn a / 1024))) -> (length buf <= fuel)%nat ->
  wp (copyout_loop fuel (dir sp) va buf) (fun ok s' => exists k, copyout_post R n free us sp va buf ok k s') s.
Proof.
  induction fuel as [|fuel IH]; intros n s free us m va buf Hs U Hva Hend Ht Hf; cbn [copyout_loop].
  1,2: destruct (Z.leb_spec (Z.of_nat (length buf)) 0) as [Hz|Hz]; try lia.
  1,2: wp_step; exists 0; constructor; [lia|lia|intros; lia|]; eapply written_nil; eassumption.
  rewrite PGROUNDDOWN_spec. unfold KERNBASE in Hend. pose proof (Z.mod_pos_bound va 4096 ltac:(lia)) as Hm. pose proof (Z.div_mod va 4096 ltac:(lia)) as Ed.
  fold (vpn va) in Ed. assert (E0 : vpn (va - va mod 4096) = vpn va) by (unfold vpn in *; rewrite Ed at 1 2; rewrite <- Z.add_sub_assoc; replace (va mod 4096 - _) with 0;
    [rewrite Z.add_0_r, Z.mul_comm, Z.div_mul; lia|]; rewrite <- Ed; lia).
  apply wp_bind. eapply wp_uva2ka; [exact Hs|exact U|unfold KERNBASE; lia|rewrite E0; apply Ht; lia|]. rewrite E0.
  assert (Hno : accessible us va = false -> wp (if 0 =? 0 then mret false else mret true) (fun ok s' => exists k, copyout_post R n free us sp va buf ok k s') s).
  { intros Ha. cbn [Z.eqb]. wp_step. exists 0. constructor; [lia|rewrite Z.add_0_r; auto|intros; lia|]. eapply written_nil; eassumption. }
  destruct (us !! vpn va) as [u|] eqn:Eu; [destruct (Z.testbit (u_flags u) 2) eqn:Eb|]; [|apply Hno; unfold accessible; rewrite Eu; auto ..].
  rewrite (page_nonzero _ (user_addr _ _ _ _ _ _ _ _ _ Hs U Eu)). replace (va - (va - va mod 4096)) with (va mod 4096) by lia. unfold PGSIZE.
  set (c := Z.min (4096 - va mod 4096) (Z.of_nat (length buf))). assert (Hc : 0 < c <= Z.of_nat (length buf) /\ c <= 4096 - va mod 4096) by lia.
  apply wp_bind. eapply wp_put_page; [exact Hs|exact U|exact Eu|rewrite length_take; lia|]. intros us1 m1 s1 O U1 Hs1.
  rewrite u32_id by (unfold is_u32; lia).
  assert (Hva1 : va - va mod 4096 + 4096 = va + c \/ c = Z.of_nat (length buf)) by lia.
  eapply wp_mono; [apply (IH n s1 free us1 m1); [exact Hs1|exact U1|lia| | |]|].
  - rewrite length_drop. unfold KERNBASE. destruct Hva1 as [->|?]; lia.
  - rewrite length_drop. intros a Ha. apply Ht. lia.
  - rewrite length_drop. lia.
  - intros ok s2 (k & Hp). exists (c + k). eapply copyout_next; [apply Hc|exact Hva1| |exact O|exact Hp].
    intros i Hi. unfold accessible. replace (vpn (va + i)) with (vpn va); [rewrite Eu; exact Eb|]. unfold vpn. apply Z.div_unique with (va mod 4096 + i); unfold vpn in Ed; lia.
Qed.

Lemma wp_copyout n s free R us sp m va buf : shows n s (PView free m) -> user_space R us sp m -> 0 <= va -> va + Z.of_nat (length buf) <= KERNBASE ->
  (forall a, va <= a < va + Z.of_nat (length buf) -> is_Some (tables sp !! (vpn a / 1024))) ->
  wp (copyout (dir sp) va buf) (fun ok s' => exists k, copyout_post R n free us sp va buf ok k s') s.
Proof. intros. eapply wp_copyout_loop; eauto. Qed.

(** ** [loaduvm] *)

Lemma wp_on_pages {A} (f : K S A) (Q : A -> S * Fs.fs -> Prop) s d : wp f (fun x s' => Q x (s', d)) s -> wp (on_pages f) Q (s, d).
Proof. intros (x & s' & E & HQ). exists x, (s', d). unfold on_pages. cbn [fst snd]. rewrite E. auto. Qed.

Lemma wp_on_disk {A} (f : K Fs.fs A) (Q : A -> S * Fs.fs -> Prop) s d : wp f (fun x d' => Q x (s, d')) d -> wp (on_disk f) Q (s, d).
Proof. intros (x & d' & E & HQ). exists x, (s, d'). unfold on_disk. cbn [fst snd]. rewrite E. auto. Qed.

Section file.
Context (ds : Z) (devread : Z -> option (nat -> Z -> K Fs.fs (option (list Z)))).
Context (d : Fs.fs) (ip : nat) (v : Fs.inode).
Hypothesis on_format : FsFacts.formatted ds d.
Hypothesis in_cache : Fs.icache d !! ip = Some v.
Hypothesis is_regular : FsFacts.regular ds d v.

(** The bytes of the file from [off] on, [n] at most. *)
Definition segment (off n : Z) : list Z := take (Z.to_nat n) (drop (Z.to_nat off) (FsFacts.content d v)).

Lemma length_segment off n : 0 <= off <= Fs.isize v -> 0 <= n -> Z.of_nat (length (segment off n)) = Z.min n (Fs.isize v - off).
Proof.
  intros Ho Hn. unfold segment. rewrite length_take, length_drop. pose proof (FsFacts.length_content d v ltac:(lia)). lia.
Qed.

Lemma segment_split off n k : 0 <= off -> 0 <= k <= n -> segment off n = segment off k ++ segment (off + k) (n - k).
Proof.
  intros Ho Hk. unfold segment. replace (Z.to_nat (off + k)) with (Z.to_nat off + Z.to_nat k)%nat by lia. rewrite <- drop_drop, take_take_drop. f_equal. lia.
Qed.

Lemma segment_short off n k : 0 <= off <= Fs.isize v -> Fs.isize v - off <= k -> Fs.isize v - off <= n -> segment off n = segment off k.
Proof.
  intros Ho Hk Hn. unfold segment. pose proof (FsFacts.length_content d v ltac:(lia)). rewrite !take_ge by (rewrite length_drop; lia). reflexivity.
Qed.

Lemma wp_load_loop R sp addr offset sz fuel : addr mod 4096 = 0 -> 0 <= addr -> addr + sz <= KERNBASE -> 0 <= offset -> offset + sz < 4294967296 ->
  forall n s free us m i, shows n s (PView free m) -> user_space R us sp m -> (forall a, addr <= a < addr + sz -> is_Some (us !! vpn a)) ->
  i mod 4096 = 0 -> 0 <= i -> offset + Z.min i sz <= Fs.isize v -> sz <= i + 4096 * Z.of_nat fuel ->
  wp (loaduvm_loop devread fuel (dir sp) addr ip offset sz i) (fun ok '(s', d') => d' = d /\ ok = (offset + sz <=? Fs.isize v) /\
    written R n free us sp (addr + i) (segment (offset + i) (sz - i)) s') (s, d).
Proof.
  intros Ha Ha0 Hend Ho Hw. induction fuel as [|fuel IH]; intros n s free us m i Hs U Hus Hi Hi0 Hsz Hf; cbn [loaduvm_loop].
  1,2: destruct (Z.leb_spec sz i) as [Hz|Hz]; try lia.
  1,2: wp_step; (split; [reflexivity|]); (split; [symmetry; apply Z.leb_le; lia|]); unfold segment; replace (Z.to_nat (sz - i)) with O by lia; rewrite take_0; eapply written_nil; eassumption.
  unfold KERNBASE in Hend. set (va := addr + i). assert (Hva : va mod 4096 = 0) by (unfold va; rewrite Zplus_mod, Ha, Hi; reflexivity).
  assert (Hau : is_u32 va) by (unfold is_u32; lia). rewrite (u32_id va Hau).
  assert (Hk : 0 <= vpn va < KPN) by (pose proof (vpn_page va Hva); unfold KPN; lia).
  destruct (Hus va ltac:(lia)) as [u Hu]. destruct (user_table _ _ _ _ _ _ U Hu) as [t Ht]. destruct (PDX_spec va Hau) as [Ed _]. rewrite <- Ed in Ht. pose proof (us_tables _ _ _ _ U) as T.
  pose proof (user_addr _ _ _ _ _ _ _ _ _ Hs U Hu) as Hpa. destruct (us_range _ _ _ _ U _ u Hu) as (_ & Hfl & _).
  apply wp_bind, wp_on_pages. eapply (wp_walk _ _ _ sp m va false); [exact Hs|exact T|exact Hau|left; reflexivity|]. rewrite Ht. cbn [fmap option_fmap option_map].
  apply wp_bind, wp_on_pages. eapply (wp_ld_pte _ s free sp m va t); [exact Hs|exact T|exact Hau|exact Ht|]. rewrite (us_pte _ _ _ _ U _ Hk), Hu.
  change (default 0 _) with (pte_of (u_page u) (u_flags u)). rewrite pte_of_addr, P2V_V2P by assumption. unfold PGSIZE.
  set (c := if sz - i <? 4096 then sz - i else 4096). assert (Hc : c = Z.min (sz - i) 4096) by (unfold c; destruct (Z.ltb_spec (sz - i) 4096); lia). clearbody c.
  rewrite (u32_id (offset + i)) by (unfold is_u32; lia). apply wp_bind, wp_on_disk.
  eapply wp_mono; [apply (FsFacts.wp_readi ds devread d ip v (offset + i) c on_format in_cache is_regular); lia|]. intros r d' [-> ->]. cbv beta iota. fold (segment (offset + i) c).
  pose proof (length_segment (offset + i) c ltac:(lia) ltac:(lia)) as Hl. set (bs := segment (offset + i) c) in *.
  apply wp_bind, wp_on_pages. replace (u_page u) with (u_page u + va mod 4096) by lia. eapply wp_put_page; [exact Hs|exact U|exact Hu|lia|].
  intros us1 m1 s1 O U1 Hs1. destruct (Z.eqb_spec (Z.of_nat (length bs)) c) as [E|E]; cbn [negb].
  - rewrite u32_id by (unfold is_u32; lia).
    eapply wp_mono; [apply (IH n s1 free us1 m1 (i + 4096)); [exact Hs1|exact U1| |rewrite Zplus_mod, Hi; reflexivity|lia|lia|lia]|].
    + intros a Hin. destruct (Hus a Hin) as [w Hwa]. destruct O as [P _]. specialize (P (vpn a)). rewrite Hwa in P. destruct (us1 !! vpn a); [eauto|discriminate].
    + intros ok [s2 d2] (-> & -> & W). split; [reflexivity|]. split; [reflexivity|]. rewrite (segment_split (offset + i) (sz - i) c) by lia. eapply written_app; [exact O|].
      fold bs. rewrite E. destruct (decide (c = 4096)) as [->|Hne].
      * replace (va + 4096) with (addr + (i + 4096)) by (unfold va; lia). replace (offset + i + 4096) with (offset + (i + 4096)) by lia. replace (sz - i - 4096) with (sz - (i + 4096)) by lia. exact W.
      * unfold segment in W |- *. replace (Z.to_nat (sz - i - c)) with 0%nat by lia. replace (Z.to_nat (sz - (i + 4096))) with 0%nat in W by lia.
        rewrite take_0 in W |- *. exact (written_empty _ _ _ _ _ _ _ _ W).
  - wp_step. split; [reflexivity|]. split; [symmetry; apply Z.leb_gt; lia|]. rewrite (segment_short (offset + i) (sz - i) c) by lia. fold bs. exists us1, m1. auto.
Qed.

Lemma wp_loaduvm R n s free us sp m addr offset sz : shows n s (PView free m) -> user_space R us sp m -> addr mod 4096 = 0 -> 0 <= addr -> 0 <= sz -> addr + sz <= KERNBASE ->
  0 <= offset <= Fs.isize v -> offset + sz < 4294967296 -> (forall a, addr <= a < addr + sz -> is_Some (us !! vpn a)) ->
  wp (loaduvm devread (dir sp) addr ip offset sz) (fun ok '(s', d') => d' = d /\ ok = (offset + sz <=? Fs.isize v) /\ written R n free us sp addr (segment offset sz) s') (s, d).
Proof.
  intros Hs U Ha Ha0 Hsz Hend Ho Hw Hus. unfold loaduvm. unfold PGSIZE. rewrite Ha. cbn [negb Z.eqb].
  eapply wp_mono; [apply (wp_load_loop R sp addr offset sz _ Ha Ha0 Hend (proj1 Ho) Hw n s free us m 0 Hs U Hus eq_refl); try lia|].
  - pose proof (Z.div_mod sz 4096 ltac:(lia)). pose proof (Z.mod_pos_bound sz 4096). pose proof (Z.div_pos sz 4096). lia.
  - intros ok [s' d']. rewrite !Z.add_0_r, Z.sub_0_r. auto.
Qed.
End file.

(** ** [clearpteu] *)

Lemma user_reflag R us sp m k u fl m' : user_space R us sp m -> us !! k = Some u -> 0 <= fl < 4096 -> Z.odd fl = true ->
  tgrow sp m (set_pte k (pte_of (u_page u) fl) sp) m' -> pte_of (u_page u) fl <> 0 ->
  user_space R (<[k := Upage (u_page u) fl (u_bytes u)]> us) (set_pte k (pte_of (u_page u) fl) sp) m'.
Proof.
  intros U Hk Hfl Hodd G Hnz.
  assert (Hcase : forall j w, <[k := Upage (u_page u) fl (u_bytes u)]> us !! j = Some w ->
    exists w0, us !! j = Some w0 /\ u_page w = u_page w0 /\ u_bytes w = u_bytes w0 /\ ((j = k /\ u_flags w = fl) \/ w = w0)).
  { intros j w Hj. destruct (decide (j = k)) as [->|Hne]; [rewrite lookup_insert_eq in Hj; injection Hj as <-; exists u; cbn; auto 6|].
    rewrite lookup_insert_ne in Hj by congruence. exists w. auto 6. }
  assert (Hback : forall j w, us !! j = Some w -> exists w1, <[k := Upage (u_page u) fl (u_bytes u)]> us !! j = Some w1 /\ u_page w1 = u_page w).
  { intros j w Hj. destruct (decide (j = k)) as [->|Hne]; [rewrite lookup_insert_eq; eexists; split; [reflexivity|cbn; congruence]|].
    rewrite lookup_insert_ne by congruence. eauto. }
  constructor; cbn [set_pte dir tables].
  - apply G.
  - intros j Hj. rewrite lookup_set_pte, (proj2 (Z.eqb_neq _ _) Hnz). destruct (decide (j = k)) as [->|Hne]; [rewrite lookup_insert_eq; reflexivity|].
    rewrite lookup_insert_ne by congruence. exact (us_pte _ _ _ _ U j Hj).
  - intros j w Hj. destruct (Hcase j w Hj) as (w0 & H0 & _ & _ & [[-> ->]| ->]); [|exact (us_range _ _ _ _ U j w0 H0)].
    split; [apply (us_range _ _ _ _ U _ _ H0)|auto].
  - intros j w Hj. destruct (Hcase j w Hj) as (w0 & H0 & -> & -> & _). destruct (us_apart _ _ _ _ U j w0 H0) as [A1 A2].
    rewrite (tg_frame _ _ _ _ G _ A1 A2). exact (us_page _ _ _ _ U j w0 H0).
  - intros j w Hj. destruct (Hcase j w Hj) as (w0 & H0 & -> & _). exact (us_apart _ _ _ _ U j w0 H0).
  - intros j i w x Hj Hi E. destruct (Hcase j w Hj) as (w0 & H0 & Ew & _), (Hcase i x Hi) as (x0 & H1 & Ex & _).
    apply (us_inj _ _ _ _ U j i w0 x0 H0 H1). congruence.
  - intros p H1 H2 H3. rewrite (tg_frame _ _ _ _ G p H1 H2). apply (us_frame _ _ _ _ U p H1 H2). intros j w Hj.
    destruct (Hback j w Hj) as (w1 & Hw1 & <-). exact (H3 j w1 Hw1).
  - destruct (us_fresh _ _ _ _ U) as (F1 & F2 & F3). split; [exact F1|]. split; [exact F2|].
    intros j w Hj. destruct (Hcase j w Hj) as (w0 & H0 & -> & _). exact (F3 j w0 H0).
Qed.

Lemma land_lnot4 x : 0 <= x < 4096 -> 0 <= Z.land x (Z.lnot 4) < 4096 /\ Z.odd (Z.land x (Z.lnot 4)) = Z.odd x.
Proof.
  intros Hx. split; [rewrite Z.land_comm; apply (land_bounded 12); lia|].
  rewrite <- !Z.bit0_odd, Z.land_spec. change (Z.testbit (Z.lnot 4) 0) with true. apply andb_true_r.
Qed.

Lemma pte_of_clear p fl : page_addr p -> Z.land (pte_of p fl) (Z.lnot PTE_U) = pte_of p (Z.land fl (Z.lnot 4)).
Proof.
  intros Hp. destruct (V2P_page p Hp) as (_ & Hm & _). apply Z.mod_divide in Hm as [q E]; [|lia]. unfold pte_of. rewrite Z.land_lor_distr_l. f_equal. rewrite E.
  apply Z.bits_inj'. intros i Hi. rewrite Z.land_spec, Z.lnot_spec by exact Hi. change PTE_U with (2 ^ 2). change 4096 with (2 ^ 12). destruct (decide (i = 2)) as [->|Hne].
  - rewrite Z.mul_pow2_bits_low by lia. reflexivity.
  - rewrite Z.pow2_bits_false by lia. apply andb_true_r.
Qed.

Lemma wp_clearpteu n s free R us sp m va u : shows n s (PView free m) -> user_space R us sp m -> 0 <= va < KERNBASE -> us !! vpn va = Some u ->
  wp (clearpteu (dir sp) va) (fun _ s' => exists sp' m', user_space R (<[vpn va := Upage (u_page u) (Z.land (u_flags u) (Z.lnot 4)) (u_bytes u)]> us) sp' m' /\
    shows n s' (PView free m') /\ dir sp' = dir sp /\ tables sp' = tables sp /\ same_kernel sp sp') s.
Proof.
  intros Hs U Hva Hu. unfold KERNBASE in Hva. assert (Hau : is_u32 va) by (unfold is_u32; lia). pose proof (us_tables _ _ _ _ U) as T.
  destruct (user_table _ _ _ _ _ _ U Hu) as [t Ht]. destruct (PDX_spec va Hau) as [Ed _]. rewrite <- Ed in Ht.
  pose proof (user_addr _ _ _ _ _ _ _ _ _ Hs U Hu) as Hpa. destruct (us_range _ _ _ _ U _ u Hu) as (Hk & Hfl & Hodd). destruct (land_lnot4 _ Hfl) as [Hf1 Hf2].
  unfold clearpteu. apply wp_bind. eapply (wp_walk _ _ _ sp m va false); [exact Hs|exact T|exact Hau|left; reflexivity|]. rewrite Ht. cbn [fmap option_fmap option_map].
  apply wp_bind. eapply (wp_ld_pte _ s free sp m va t); [exact Hs|exact T|exact Hau|exact Ht|]. rewrite (us_pte _ _ _ _ U _ Hk), Hu.
  change (default 0 _) with (pte_of (u_page u) (u_flags u)). rewrite pte_of_clear by exact Hpa.
  set (w := pte_of (u_page u) (Z.land (u_flags u) (Z.lnot 4))). assert (Ew : Z.odd w = true) by (unfold w; rewrite pte_of_odd, Hf2 by assumption; exact Hodd).
  eapply (wp_st_pte _ s free sp m va t w); [exact Hs|exact T|exact Hau|exact Ht|apply pte_of_u32; assumption|right; exact Ew|].
  intros s' m' G Hs'. exists (set_pte (vpn va) w sp), m'. split; [|split; [exact Hs'|split; [reflexivity|split; [reflexivity|]]]].
  - apply (user_reflag R us sp m); try assumption; [rewrite Hf2; exact Hodd|]. fold w. intros E0. rewrite E0 in Ew. discriminate.
  - intros k Hk'. rewrite lookup_set_pte, decide_False; [reflexivity|]. intros ->. contradiction.
Qed.

(** ** [inituvm] *)

Lemma wp_inituvm n s q l R sp m init sz : shows (2 + n) s (PView (q :: l) m) -> user_space R ∅ sp m -> contig sp -> 0 <= sz < 4096 -> sz <= Z.of_nat (length init) ->
  wp (inituvm (dir sp) init sz) (fun _ s' => exists sp' m' free', shows n s' (PView free' m') /\ stays sp sp' /\
    (user_space R {[0 := Upage q 7 (splice 0 (take (Z.to_nat sz) init) zero_page)]} sp' m' \/ (length l <= 1)%nat)) s.
Proof.
  intros Hs U C Hsz Hl. unfold inituvm. rewrite (proj2 (Z.leb_gt PGSIZE sz)) by (unfold PGSIZE; lia).
  pose proof (law_free _ _ _ q Hs ltac:(left)) as (_ & _ & Hqm). cbn [v_mem] in Hqm.
  apply wp_bind. eapply (law_kalloc (1 + n)); [exact Hs|discriminate|]. cbn [v_free v_mem]. intros ? ? b s1 [= <- <-] _ Hs1.
  apply wp_bind. eapply law_fill; [exact Hs1|cbn [v_mem]; rewrite lookup_insert_eq; eauto|]. cbn [v_free v_mem]. intros s2 Hs2. rewrite insert_insert_eq in Hs2.
  change (replicate (Z.to_nat 4096) (u8 0)) with zero_page in Hs2. destruct (user_fresh R ∅ sp m q zero_page U Hqm) as [U2 HR].
  apply wp_bind. change 0 with (4096 * 0) at 1. change (Z.lor PTE_W PTE_U) with 6.
  eapply wp_mono; [apply (wp_map_user R n s2 l ∅ sp (<[q := zero_page]> m) q zero_page 0 6); try assumption; unfold KPN; try lia|].
  { intros k. rewrite lookup_empty. split; [intros [? ?]; discriminate|lia]. }
  intros ok s3 (sp3 & free3 & m3 & Hs3 & St & Hlen & Hok). change (Z.lor 6 1) with 7 in Hok.
  assert (Hq : m3 !! q = Some zero_page).
  { destruct ok; [exact (us_page _ _ _ _ Hok 0 _ (lookup_insert_eq _ _ _))|]. eapply user_keeps; [apply Hok|apply lookup_insert_eq]. }
  replace q with (q + 0) at 1 by lia. eapply (law_put _ s3 _ q zero_page 0); [exact Hs3|exact Hq|lia|rewrite length_take; lia|].
  cbn [v_free v_mem]. change (Z.to_nat 0) with O. intros s4 Hs4. exists sp3, (<[q := splice 0 (take (Z.to_nat sz) init) zero_page]> m3), free3.
  split; [exact Hs4|]. split; [exact St|]. destruct ok; [left|right; destruct Hok as [_ ->]; exact Hlen].
  pose proof (user_write _ _ _ _ 0 _ (splice 0 (take (Z.to_nat sz) init) zero_page) Hok (lookup_insert_eq _ _ _)) as W. unfold set_bytes in W. rewrite insert_insert_eq in W. exact W.
Qed.
End vm.
End VmCopy.
