(* ===== verification/VmProps.v ===== *)
(** Properties of the address spaces (vm.c, modelled in Vm.v), proved against the interface of
    PageMem.v, with witnesses on the kernel state that implements it. *)

From stdpp Require Import gmap.
From S2P Require Import Prelude Spinlock Kernel Entropy Kalloc PageMem Vm VmFacts VmUser VmOps VmCopy Fs.

Module VmReach.
Import Kernel Vm VmFacts VmUser VmOps VmCopy.

(** The mapping that the comment before [kmap] describes: the page table entry of an address. *)
Definition layout (data va : Z) : option Z :=
  let page pa := pa - pa mod 4096 in
  if va <? KERNBASE then None
  else if va <? KERNLINK then Some (Z.lor (page (va - KERNBASE)) (Z.lor PTE_W PTE_P))
  else if va <? data then Some (Z.lor (page (va - KERNBASE)) PTE_P)
  else if va <? KERNBASE + PHYSTOP then Some (Z.lor (page (va - KERNBASE)) (Z.lor PTE_W PTE_P))
  else if va <? DEVSPACE then None
  else Some (Z.lor (page va) (Z.lor PTE_W PTE_P)).

Lemma page_of va b : 4096 * b <= va -> va - 4096 * b - (va - 4096 * b) mod 4096 = 4096 * (vpn va - b).
Proof.
  intros _. unfold vpn. replace (va - 4096 * b) with (va + (- b) * 4096) by lia. rewrite Z_mod_plus_full. pose proof (Z.div_mod va 4096 ltac:(lia)). lia.
Qed.

Lemma vpn_lt va b : va < 4096 * b <-> vpn va < b.
Proof. unfold vpn. pose proof (Z.div_mod va 4096 ltac:(lia)). pose proof (Z.mod_pos_bound va 4096). lia. Qed.

Lemma leaf_assoc a b : leaf a b = Z.lor a (Z.lor b PTE_P).
Proof. unfold leaf. symmetry. apply Z.lor_assoc. Qed.

Lemma kmap_layout data va : data_ok data -> is_u32 va -> kmap_pte (kmap data) (vpn va) = layout data va.
Proof.
  intros [Hd Hr] Hva. unfold KERNLINK, KERNBASE, PHYSTOP, EXTMEM, is_u32 in *. pose proof (Z.div_mod data 4096 ltac:(lia)) as Ed. rewrite Hd, Z.add_0_r in Ed.
  set (d := data / 4096) in *. assert (Hd' : 524544 < d < 581632) by lia.
  assert (Ev : V2P data = 4096 * (d - 524288)) by (unfold V2P, KERNBASE; rewrite u32_id by (unfold is_u32; lia); lia).
  assert (I1 : forall x, in_entry x (Kmap KERNBASE 0 EXTMEM PTE_W) <-> 524288 <= x < 524544) by reflexivity.
  assert (I2 : forall x, in_entry x (Kmap KERNLINK (V2P KERNLINK) (V2P data) 0) <-> 524544 <= x < d).
  { intros x. unfold in_entry, kpages. cbn [virt phys_start phys_end]. rewrite Ev. change (vpn KERNLINK) with 524544. change (V2P KERNLINK) with 1048576.
    rewrite u32_id by (unfold is_u32; lia). replace (4096 * (d - 524288) - 1048576) with ((d - 524544) * 4096) by lia. rewrite Z.div_mul by lia. lia. }
  assert (I3 : forall x, in_entry x (Kmap data (V2P data) PHYSTOP PTE_W) <-> d <= x < 581632).
  { intros x. unfold in_entry, kpages. cbn [virt phys_start phys_end]. rewrite Ev. change (vpn data) with d. change PHYSTOP with 234881024.
    rewrite u32_id by (unfold is_u32; lia). replace (234881024 - 4096 * (d - 524288)) with ((581632 - d) * 4096) by lia. rewrite Z.div_mul by lia. lia. }
  assert (I4 : forall x, in_entry x (Kmap DEVSPACE DEVSPACE 0 PTE_W) <-> 1040384 <= x < 1048576) by reflexivity.
  unfold layout, KERNLINK, EXTMEM, PHYSTOP, DEVSPACE. fold KERNBASE. pose proof (page_of va 524288) as P1. pose proof (page_of va 0) as P0.
  change (4096 * 524288) with KERNBASE in P1. change (4096 * 0) with 0 in P0. rewrite !Z.sub_0_r in P0. unfold KERNBASE in P1 |- *.
  pose proof (vpn_lt va 524288). pose proof (vpn_lt va 524544). pose proof (vpn_lt va d). pose proof (vpn_lt va 581632). pose proof (vpn_lt va 1040384). pose proof (vpn_lt va 1048576).
  unfold kmap. cbn [kmap_pte].
  assert (E : forall P (D : Decision P) (x y : option Z), (if decide P then x else y) = if bool_decide P then x else y) by (intros P [] x y; reflexivity).
  rewrite !E, !(bool_decide_ext _ _ (I1 _)), !(bool_decide_ext _ _ (I2 _)), !(bool_decide_ext _ _ (I3 _)), !(bool_decide_ext _ _ (I4 _)). cbn [virt phys_start perm]. rewrite Ev, !leaf_assoc.
  change (vpn data) with d. change (vpn KERNBASE) with 524288. change (vpn KERNLINK) with 524544. change (vpn DEVSPACE) with 1040384. change (V2P KERNLINK) with 1048576.
  destruct (Z.ltb_spec va 2147483648); [rewrite !bool_decide_eq_false_2 by lia; reflexivity|].
  destruct (Z.ltb_spec va (2147483648 + 1048576)); [rewrite bool_decide_eq_true_2 by lia; rewrite P1 by lia; reflexivity|]. rewrite bool_decide_eq_false_2 by lia.
  destruct (Z.ltb_spec va data); [rewrite bool_decide_eq_true_2 by lia; rewrite P1 by lia; do 2 f_equal; lia|]. rewrite bool_decide_eq_false_2 by lia.
  destruct (Z.ltb_spec va (2147483648 + 234881024)); [rewrite bool_decide_eq_true_2 by lia; rewrite P1 by lia; do 2 f_equal; lia|]. rewrite bool_decide_eq_false_2 by lia.
  destruct (Z.ltb_spec va 4261412864); [rewrite bool_decide_eq_false_2 by lia; reflexivity|]. rewrite bool_decide_eq_true_2 by lia. rewrite P0 by lia. unfold DEVSPACE. do 2 f_equal. lia.
Qed.

(** The byte that the processor reads at [va] with directory [d]. *)
Definition peek (m : gmap Z (list Z)) (d va : Z) : option Z :=
  w ← translate m d va;
  pg ← m !! P2V (PTE_ADDR w);
  pg !! Z.to_nat (va mod 4096).

Section vm.
Context {S : Type} `{PageMemory S}.

Lemma peek_user n s free R us sp m va : shows n s (PView free m) -> user_space R us sp m -> 0 <= va < KERNBASE -> peek m (dir sp) va = ubyte us va.
Proof.
  intros Hs U Hva. unfold KERNBASE in Hva. assert (Hau : is_u32 va) by (unfold is_u32; lia).
  assert (Hk : 0 <= vpn va < KPN) by (unfold vpn, KPN; split; [apply Z.div_pos; lia|apply Z.div_lt_upper_bound; lia]).
  unfold peek, ubyte. rewrite (translate_spec _ _ _ _ _ _ Hs (us_tables _ _ _ _ U) Hau), (us_pte _ _ _ _ U _ Hk).
  destruct (us !! vpn va) as [u|] eqn:Eu; [|reflexivity]. cbn [fmap option_fmap option_map mbind option_bind]. destruct (us_range _ _ _ _ U _ _ Eu) as (_ & Hfl & _).
  pose proof (user_addr _ _ _ _ _ _ _ _ _ Hs U Eu) as Hpa. rewrite pte_of_addr, P2V_V2P, (us_page _ _ _ _ U _ _ Eu) by assumption. reflexivity.
Qed.

(** ** Calls on one address space *)

Inductive vop :=
| Grow (n : Z)                     (** [allocuvm], as [growproc] and [exec] call it *)
| Shrink (n : Z)                   (** [deallocuvm] *)
| Poke (va : Z) (bs : list Z)      (** [copyout] *)
| Guard (va : Z).                  (** [clearpteu] *)

(** The call on a space of [sz] bytes; its result is the new size. *)
Definition vcall (d sz : Z) (o : vop) : K S Z :=
  match o with
  | Grow n => x ← allocuvm d sz n; mret (if x =? 0 then sz else x)
  | Shrink n => deallocuvm d sz n
  | Poke va bs => copyout d va bs ;; mret sz
  | Guard va => clearpteu d va ;; mret sz
  end.
Definition allowed (sz : Z) (o : vop) : Prop :=
  match o with
  | Grow n | Shrink n => 0 <= n
  | Poke va bs => 0 <= va /\ va + Z.of_nat (length bs) <= sz
  | Guard va => 0 <= va < sz
  end.
(** The calls of the allocator that it may make, freeing the pages it adds included. *)
Definition cost (o : vop) : nat := match o with Grow n => 3 * Z.to_nat (npages n) + 2 | _ => 0 end.

Inductive vreach (d : Z) : nat -> Z * S -> Z * S -> Prop :=
| vreach_refl x : vreach d 0 x x
| vreach_step o k sz s sz1 s1 y : allowed sz o -> vcall d sz o s = Ok (sz1, s1) -> vreach d k (sz1, s1) y -> vreach d (cost o + k) (sz, s) y.

Record vinv (data : Z) (m : gmap Z (list Z)) (n : nat) (d sz : Z) (us : gmap Z upage) (sp : aspace) (s : S) : Prop := {
  vi_size : 0 <= sz <= KERNBASE;
  vi_dir : dir sp = d;
  vi_covers : covers us (npages sz);
  vi_contig : contig sp;
  vi_kernel : kernel_part data sp;
  vi_space : space_at m n us sp s;
}.

Lemma kernel_stays data sp sp' : kernel_part data sp -> same_kernel sp sp' -> kernel_part data sp'.
Proof. intros K E k Hk. rewrite (E k Hk). exact (K k Hk). Qed.

Lemma same_pages_dom us us' : same_pages us us' -> dom us' = dom us.
Proof.
  intros P. apply set_eq. intros k. rewrite !elem_of_dom. specialize (P k). destruct (us !! k), (us' !! k); try discriminate; split; intros [? E]; eauto; discriminate.
Qed.

Lemma covers_dom us us' N : dom us' = dom us -> covers us N -> covers us' N.
Proof. intros E C k. rewrite <- elem_of_dom, E, elem_of_dom. apply C. Qed.

Lemma covers_vpn us sz a : covers us (npages sz) -> 0 <= a < sz -> is_Some (us !! vpn a).
Proof. intros C Ha. apply C. split; [apply Z.div_pos; lia|]. apply vpn_lt. pose proof (npages_spec sz ltac:(lia)). lia. Qed.

Lemma wp_vcall data m n d sz us sp s o : vinv data m (cost o + n) d sz us sp s -> allowed sz o ->
  wp (vcall d sz o) (fun sz' s' => exists us' sp', vinv data m n d sz' us' sp' s') s.
Proof.
  intros [V1 V2 V3 V4 V5 V6] Ho. subst d. destruct o as [x|x|va bs|va]; cbn [vcall allowed cost] in *.
  - apply wp_bind. destruct V6 as (free & m0 & U & Hs). eapply wp_mono; [apply (wp_allocuvm m n 0 s us sp sz x); try assumption; exists free, m0; repeat (split; [assumption|]); lia|].
    intros r s' (us' & sp' & St & Sp & Hr). wp_step. exists us', sp'. destruct Hr as [(Hx & -> & (_ & _ & Hc) & _)|[(Hx & _ & -> & ->)|(-> & -> & _)]].
    + assert (E : (if x =? 0 then sz else x) = x) by (destruct (Z.eqb_spec x 0); lia). rewrite E.
      constructor; [lia|apply St|exact Hc|apply St|eapply kernel_stays; [exact V5|apply St]|exact Sp].
    + assert (E : (if sz =? 0 then sz else sz) = sz) by (destruct (sz =? 0); reflexivity). rewrite E.
      constructor; [lia|apply St|exact V3|apply St|eapply kernel_stays; [exact V5|apply St]|exact Sp].
    + cbn [Z.eqb]. constructor; [lia|apply St|exact V3|apply St|eapply kernel_stays; [exact V5|apply St]|exact Sp].
  - destruct V6 as (free & m0 & U & Hs). eapply wp_mono; [apply (wp_deallocuvm m n s free us sp m0 sz x); try assumption; lia|].
    intros r s' (-> & us' & Hu & [(sp' & free' & m' & U' & Hs' & Ed & Et & K)]). exists us', sp'.
    constructor; [lia|exact Ed| |unfold contig; rewrite Et; exact V4|eapply kernel_stays; eassumption|exists free', m'; auto].
    assert (Hm : npages (Z.min sz x) = Z.min (npages sz) (npages x)) by (unfold npages; destruct (Z.le_ge_cases sz x); [rewrite !Z.min_l|rewrite !Z.min_r]; try lia; apply Z.div_le_mono; lia).
    intros k. rewrite Hu, Hm. destruct (decide _); [split; [intros [? ?]; discriminate|lia]|]. rewrite (V3 k). lia.
  - destruct V6 as (free & m0 & U & Hs). apply wp_bind. eapply wp_mono; [apply (wp_copyout _ s free m us sp m0 va bs Hs U); try lia|].
    + intros a Ha. destruct (covers_vpn us sz a V3 ltac:(lia)) as [u Hu]. exact (user_table _ _ _ _ _ _ U Hu).
    + intros ok s' (k & Hp). wp_step. destruct (co_state _ _ _ _ _ _ _ _ _ _ Hp) as (us' & m' & U' & Hs' & [P _]). pose proof (same_pages_dom _ _ P) as Hd.
      exists us', sp. constructor; [lia|reflexivity|exact (covers_dom _ _ _ Hd V3)|exact V4|exact V5|]. exists free, m'. split; [exact U'|]. rewrite <- size_dom, Hd, size_dom. exact Hs'.
  - destruct V6 as (free & m0 & U & Hs). destruct (covers_vpn us sz va V3 Ho) as [u Hu]. apply wp_bind.
    eapply wp_mono; [apply (wp_clearpteu _ s free m us sp m0 va u Hs U ltac:(lia) Hu)|]. intros [] s' (sp' & m' & U' & Hs' & Ed & Et & K). wp_step.
    assert (Hd : dom (<[vpn va := Upage (u_page u) (Z.land (u_flags u) (Z.lnot 4)) (u_bytes u)]> us) = dom us) by (apply dom_insert_lookup_L; eauto).
    eexists _, sp'. constructor; [lia|exact Ed|exact (covers_dom _ _ _ Hd V3)|unfold contig; rewrite Et; exact V4|eapply kernel_stays; eassumption|].
    exists free, m'. split; [exact U'|]. rewrite <- size_dom, Hd, size_dom. exact Hs'.
Qed.

Lemma wp_result {A} (f : K S A) (Q : A -> S -> Prop) s a s' : wp f Q s -> f s = Ok (a, s') -> Q a s'.
Proof. intros (b & s1 & E & HQ) E'. rewrite E in E'. injection E' as <- <-. exact HQ. Qed.

Lemma vreach_inv data m d k x y : vreach d k x y -> forall n us sp, vinv data m (k + n) d (fst x) us sp (snd x) -> exists us' sp', vinv data m n d (fst y) us' sp' (snd y).
Proof.
  induction 1 as [x|o k sz s sz1 s1 y Ho E Hr IH]; intros n us sp V; [exists us, sp; exact V|]. cbn [fst snd] in V, IH. rewrite <- Nat.add_assoc in V.
  destruct (wp_result _ _ _ _ _ (wp_vcall _ _ _ _ _ _ _ _ _ V Ho) E) as (us1 & sp1 & V1). exact (IH n us1 sp1 V1).
Qed.

Lemma setup_inv data m n s free d s0 : data_ok data -> shows (SETUP + n) s (PView free m) -> setupkvm data s = Ok (d, s0) -> d <> 0 ->
  exists sp, vinv data m n d 0 ∅ sp s0.
Proof.
  intros Hd Hs E Hnz. destruct (wp_result _ _ _ _ _ (wp_setupkvm data n s free m Hd Hs) E) as [(sp & free' & m' & -> & _ & N & Hs' & _)|[-> _]]; [|contradiction].
  exists sp. constructor; [unfold KERNBASE; lia|reflexivity| |eapply new_contig, N|apply N|].
  - intros k. rewrite lookup_empty. split; [intros [? ?]; discriminate|]. change (npages 0) with 0. lia.
  - exists free', m'. split; [apply N|]. rewrite map_size_empty. exact Hs'.
Qed.

Lemma user_vpn va : 0 <= va < KERNBASE -> 0 <= vpn va < KPN.
Proof. unfold KERNBASE. intros Hva. split; [apply Z.div_pos; lia|apply vpn_lt; unfold KPN; lia]. Qed.

Lemma kernel_translate n s free data R us sp m va : shows n s (PView free m) -> user_space R us sp m -> kernel_part data sp -> data_ok data -> KERNBASE <= va -> is_u32 va ->
  translate m (dir sp) va = layout data va.
Proof.
  intros Hs U K Hd Hge Hva. rewrite (translate_spec _ _ _ _ _ _ Hs (us_tables _ _ _ _ U) Hva), <- (kmap_layout data va Hd Hva). apply K. pose proof (kernel_vpn va Hge). lia.
Qed.

Lemma user_translate n s free R us sp m va : shows n s (PView free m) -> user_space R us sp m -> 0 <= va < KERNBASE ->
  translate m (dir sp) va = (fun u => pte_of (u_page u) (u_flags u)) <$> us !! vpn va.
Proof.
  intros Hs U Hva. rewrite (translate_spec _ _ _ _ _ _ Hs (us_tables _ _ _ _ U)) by (unfold is_u32, KERNBASE in *; lia). apply (us_pte _ _ _ _ U), user_vpn, Hva.
Qed.

(** A byte is there for every address of the pages. *)
Lemma peek_covered n s free R us sp m N va : shows n s (PView free m) -> user_space R us sp m -> covers us N -> 0 <= va < KERNBASE ->
  (is_Some (peek m (dir sp) va) <-> va < 4096 * N).
Proof.
  intros Hs U C Hva. rewrite (peek_user _ _ _ _ _ _ _ _ Hs U Hva), vpn_lt. unfold ubyte. pose proof (user_vpn va Hva). split.
  - intros [b Hb]. destruct (us !! vpn va) as [u|] eqn:Eu; [|discriminate]. apply (C (vpn va)). eauto.
  - intros Hlt. destruct (proj2 (C (vpn va)) ltac:(lia)) as [u Hu]. rewrite Hu. cbn [mbind option_bind].
    pose proof (shows_length _ _ _ _ _ Hs (us_page _ _ _ _ U _ _ Hu)). pose proof (Z.mod_pos_bound va 4096 ltac:(lia)). apply lookup_lt_is_Some. lia.
Qed.
End vm.
End VmReach.

Module VmProps.
Import Kernel Vm VmFacts VmUser VmOps VmCopy VmReach.

(** ** A kernel with free memory *)

Definition demo_platform : Platform := KallocProps.test_platform.
Lemma demo_kend : KERNBASE < @kend demo_platform.
Proof. reflexivity. Qed.
#[local] Instance demo_pages : PageMemory kstate := @KernelPages.kernel_pages demo_platform demo_kend.

Definition demo_free (k : nat) : list Z := KallocFacts.page_range 0x80200000 k.
Definition demo_state (k : nat) : kstate :=
  KState 0 (Spinlock.Cpu 0 false true) (KallocFacts.chain (demo_free k)) (Allocator (Spinlock.initlock "kmem") 1 (default 0 (head (demo_free k))) 1 0 0 0)
    (replicate (Z.to_nat MAX_POOLS) EntropyFacts.empty_pool) (Timer 0 (Spinlock.initlock "time")) (Hasher [] []) (Generator [] [] 0 0) [].

Lemma demo_shows n k : Z.of_nat n < 10000000 -> (k <= 500)%nat -> shows n (demo_state k) (PView (demo_free k) ∅).
Proof.
  intros Hn Hk. assert (Hok : Forall (@KallocFacts.page_ok demo_platform) (demo_free k)).
  { apply Forall_forall. intros p Hp. apply list_elem_of_fmap in Hp as (i & -> & Hi). apply elem_of_seqZ in Hi. unfold PGSIZE.
    split; [rewrite Z.mul_comm, Z_mod_plus_full; reflexivity|]. change (@kend demo_platform) with 0x80111a00. unfold KERNBASE, PHYSTOP. lia. }
  assert (Hnd : NoDup (demo_free k)).
  { apply NoDup_fmap; [intros i j E; unfold PGSIZE in E; lia|apply NoDup_seqZ]. }
  split; [|intros p bs Hp; cbn [v_mem] in Hp; rewrite lookup_empty in Hp; discriminate]. cbn [v_free]. split.
  - cbn [alloc mem demo_state freelist]. apply KallocFacts.chain_flist; assumption.
  - exact Hnd.
  - split; reflexivity.
  - split; cbn; lia.
  - exists (replicate (Z.to_nat MAX_POOLS) []). split; [apply (EntropyFacts.init_pools_ok (demo_state k))|]. apply Forall_replicate. cbn [length]. lia.
Qed.

(** The address of the symbol [data]. *)
Definition demo_data : Z := 0x80108000.
Lemma demo_data_ok : data_ok demo_data.
Proof. split; [reflexivity|split; reflexivity]. Qed.

Lemma demo_setup n k : Z.of_nat n < 9000000 -> (65 < k <= 500)%nat -> exists s0 sp free m, setupkvm demo_data (demo_state k) = Ok (dir sp, s0) /\ dir sp <> 0 /\
  new_dir demo_data ∅ sp m /\ shows n s0 (PView free m) /\ (k <= 65 + length free)%nat.
Proof.
  intros Hn Hk. assert (Hl : length (demo_free k) = k) by (unfold demo_free, KallocFacts.page_range; rewrite length_fmap, length_seqZ; lia).
  destruct (wp_setupkvm demo_data n (demo_state k) (demo_free k) ∅ demo_data_ok) as (d & s0 & E & [(sp & free & m & -> & Hnz & N & Hs & Hf)|(_ & Hf & _)]).
  - apply demo_shows; [unfold SETUP; lia|lia].
  - exists s0, sp, free, m. rewrite Hl in Hf. auto 6.
  - lia.
Qed.

(** A process of two pages. *)
Lemma demo_process n : Z.of_nat n < 5000000 -> exists us sp s free m, user_space ∅ us sp m /\ contig sp /\ covers us 2 /\ us !! 0 <> None /\ (forall k u, us !! k = Some u -> u_flags u = 7) /\
  kernel_part demo_data sp /\ shows (base.size us + n) s (PView free m) /\ (100 < length free)%nat.
Proof.
  intros Hn. destruct (demo_setup (8 + n) 200 ltac:(lia) ltac:(lia)) as (s0 & sp & free & m & _ & _ & N & Hs & Hf).
  destruct (wp_allocuvm ∅ n (length free) s0 ∅ sp 0 8192) as (x & s1 & _ & us & sp1 & St & _ & [(_ & _ & (_ & Hz & Hc) & Sp)|[(Hlt & _)|(_ & _ & [Hlt|[_ Hlt]])]]).
  - unfold KERNBASE. lia.
  - lia.
  - intros k. rewrite lookup_empty. split; [intros [? ?]; discriminate|]. change (npages 0) with 0. lia.
  - eapply new_contig, N.
  - exists free, m. split; [apply N|]. split; [rewrite map_size_empty; exact Hs|lia].
  - destruct Sp as (free1 & m1 & U1 & Hs1 & Hf1). exists us, sp1, s1, free1, m1. split; [exact U1|]. split; [apply St|]. split; [exact Hc|].
    split; [|split; [|split; [eapply kernel_stays; [apply N|apply St]|split; [exact Hs1|change (Z.to_nat (npages 8192)) with 2%nat in Hf1; lia]]]].
    + destruct (proj2 (Hc 0)) as [u ->]; [split; reflexivity || lia|discriminate].
    + intros k u Hk. destruct (proj1 (Hc k) ltac:(eauto)) as [Hk0 Hk1]. change (npages 0) with 0 in Hz. destruct (Hz k ltac:(lia)) as [q Hq]. rewrite Hk in Hq. injection Hq as ->. reflexivity.
  - lia.
  - exfalso. unfold KERNBASE in Hlt. lia.
  - change (Z.to_nat (npages 8192 - npages 0)) with 2%nat in Hlt. lia.
Qed.

(** ** The kernel's mapping *)

(** [setupkvm] gives a page directory under which every 32-bit address is translated exactly
    as the comment before [kmap] says: nothing below [KERNBASE], the low megabyte of I/O space, the
    read-only kernel text, the writable rest of physical memory and the devices.  It takes 65
    pages at most, changes no page that was in use, and fails only if there are no more than 65
    free pages. *)
Theorem setupkvm_maps_kernel {S : Type} `{PageMemory S} (data : Z) (n : nat) (s : S) (free : list Z) (m : gmap Z (list Z)) :
  data_ok data -> shows (SETUP + n) s (PView free m) ->
  exists d s', setupkvm data s = Ok (d, s') /\
    ((d <> 0 /\ exists free' m', shows n s' (PView free' m') /\ (length free <= 65 + length free')%nat /\
        (forall p bs, m !! p = Some bs -> m' !! p = Some bs) /\ forall va, is_u32 va -> translate m' d va = layout data va) \/
     (d = 0 /\ (length free <= 65)%nat)).
Proof.
  intros Hd Hs. destruct (wp_setupkvm data n s free m Hd Hs) as (d & s' & E & [(sp & free' & m' & -> & Hnz & N & Hs' & Hf)|(-> & Hf & _)]); [|exists 0, s'; auto].
  exists (dir sp), s'. split; [exact E|]. left. split; [exact Hnz|]. exists free', m'. split; [exact Hs'|]. split; [exact Hf|]. destruct N as [U K T]. split.
  - intros p bs Hp. exact (user_keeps _ _ _ _ _ _ U Hp).
  - intros va Hva. destruct (Z.lt_ge_cases va KERNBASE) as [Hlt|Hge]; [|eapply kernel_translate; eassumption].
    rewrite (user_translate _ _ _ _ _ _ _ _ Hs' U), lookup_empty by (unfold is_u32 in Hva; lia). unfold layout. rewrite (proj2 (Z.ltb_lt _ _) Hlt). reflexivity.
Qed.

Lemma setupkvm_maps_kernel_witness : exists d s', setupkvm demo_data (demo_state 80) = Ok (d, s') /\
  ((d <> 0 /\ exists free' m', shows 0 s' (PView free' m') /\ (length (demo_free 80) <= 65 + length free')%nat /\
      (forall p bs, (∅ : gmap Z (list Z)) !! p = Some bs -> m' !! p = Some bs) /\ forall va, is_u32 va -> translate m' d va = layout demo_data va) \/
   (d = 0 /\ (length (demo_free 80) <= 65)%nat)).
Proof.
  apply (setupkvm_maps_kernel demo_data 0 (demo_state 80) (demo_free 80) ∅ demo_data_ok).
  apply demo_shows; [unfold SETUP; lia|lia].
Defined.

(** ** Calls on an address space *)

(** A space is made, grown to two pages and written to. *)
Lemma demo_run : exists d s0 sz s1, setupkvm demo_data (demo_state 200) = Ok (d, s0) /\ d <> 0 /\ vreach d 8 (0, s0) (sz, s1).
Proof.
  destruct (demo_setup (8 + 0) 200 ltac:(lia) ltac:(lia)) as (s0 & sp & free & m & E & Hnz & N & Hs & Hf).
  assert (Sp : space_free ∅ 8 (length free) ∅ sp s0) by (exists free, m; split; [apply N|]; split; [rewrite map_size_empty; exact Hs|lia]).
  assert (Hc0 : covers ∅ (npages 0)) by (intros k; rewrite lookup_empty; split; [intros [? ?]; discriminate|change (npages 0) with 0; lia]).
  assert (V : vinv demo_data ∅ 8 (dir sp) 0 ∅ sp s0).
  { constructor; [unfold KERNBASE; lia|reflexivity|exact Hc0|eapply new_contig, N|apply N|eapply space_free_at; [exact Sp|lia]]. }
  assert (Ha : allowed 0 (Grow 8192)) by (cbn; lia). destruct (wp_vcall demo_data ∅ 0 (dir sp) 0 ∅ sp s0 (Grow 8192) V Ha) as (sz1 & s1 & E1 & us1 & sp1 & V1).
  assert (Esz : sz1 = 8192).
  { destruct (wp_allocuvm ∅ 0 (length free) s0 ∅ sp 0 8192 ltac:(unfold KERNBASE; lia) ltac:(lia) Hc0 (vi_contig _ _ _ _ _ _ _ _ V) Sp) as (x & s1' & E1' & us' & sp' & _ & _ & Hx).
    cbn [vcall] in E1. unfold mbind, K_bind in E1. rewrite E1' in E1. destruct Hx as [(_ & -> & _)|[(Hlt & _)|(_ & _ & [Hlt|[_ Hlt]])]].
    - injection E1 as <- _. reflexivity.
    - lia.
    - exfalso. unfold KERNBASE in Hlt. lia.
    - change (Z.to_nat (npages 8192 - npages 0)) with 2%nat in Hlt. lia. }
  subst sz1. assert (Hp : allowed 8192 (Poke 100 [1; 2; 3])) by (cbn; lia). destruct (wp_vcall demo_data ∅ 0 (dir sp) 8192 us1 sp1 s1 (Poke 100 [1; 2; 3]) V1 Hp) as (sz2 & s2 & E2 & _).
  exists (dir sp), s0, sz2, s2. split; [exact E|]. split; [exact Hnz|]. change 8%nat with (Nat.add (cost (Grow 8192)) (Nat.add (cost (Poke 100 [1; 2; 3])) 0)).
  eapply vreach_step; [exact Ha|exact E1|]. eapply vreach_step; [exact Hp|exact E2|constructor].
Qed.

(** C3: an address space that [setupkvm] made stays well formed under any sequence of calls of
    [allocuvm], [deallocuvm], [copyout] and [clearpteu]: the kernel part of the page table is never
    changed, the user part maps exactly the pages of the process size, each to a page of its own
    that no other part of the kernel uses, no page in use elsewhere is changed, and every further
    call returns - without a panic, a fault or an endless loop. *)
Theorem address_space_typed {S : Type} `{PageMemory S} (data : Z) (k n : nat) (s s0 s1 : S) (free : list Z) (m : gmap Z (list Z)) (d sz : Z) :
  data_ok data -> shows (SETUP + (k + n)) s (PView free m) -> setupkvm data s = Ok (d, s0) -> d <> 0 -> vreach d k (0, s0) (sz, s1) ->
  0 <= sz <= KERNBASE /\
  (exists free' m', shows n s1 (PView free' m') /\ (forall p bs, m !! p = Some bs -> m' !! p = Some bs) /\
    (forall va, is_u32 va -> KERNBASE <= va -> translate m' d va = layout data va) /\
    (forall va, 0 <= va < KERNBASE -> (is_Some (peek m' d va) <-> va < 4096 * npages sz)) /\
    (forall va w, 0 <= va < KERNBASE -> translate m' d va = Some w -> m !! P2V (PTE_ADDR w) = None) /\
    (forall va va' w w', 0 <= va < KERNBASE -> 0 <= va' < KERNBASE -> translate m' d va = Some w -> translate m' d va' = Some w' ->
       PTE_ADDR w = PTE_ADDR w' -> vpn va = vpn va')) /\
  (forall o, allowed sz o -> (cost o <= n)%nat -> exists sz' s2, vcall d sz o s1 = Ok (sz', s2)).
Proof.
  intros Hd Hs E Hnz Hr. destruct (setup_inv data m (k + n) s free d s0 Hd Hs E Hnz) as (sp0 & V0).
  destruct (vreach_inv _ _ _ _ _ _ Hr n ∅ sp0 V0) as (us & sp & V). cbn [fst snd] in V. pose proof V as V'. destruct V' as [V1 V2 V3 V4 V5 V6]. split; [exact V1|]. split.
  - destruct V6 as (free' & m' & U & Hs'). apply (law_weaken _ n) in Hs'; [|lia]. subst d. exists free', m'. split; [exact Hs'|]. split; [intros p bs Hp; exact (user_keeps _ _ _ _ _ _ U Hp)|].
    split; [intros va Hva Hge; eapply kernel_translate; eassumption|]. split; [intros va Hva; eapply peek_covered; eassumption|].
    assert (HT : forall va w, 0 <= va < KERNBASE -> translate m' (dir sp) va = Some w -> exists u, us !! vpn va = Some u /\ PTE_ADDR w = V2P (u_page u) /\ P2V (PTE_ADDR w) = u_page u).
    { intros va w Hva Hw. rewrite (user_translate _ _ _ _ _ _ _ _ Hs' U Hva) in Hw. destruct (us !! vpn va) as [u|] eqn:Eu; [|discriminate]. injection Hw as <-. exists u.
      destruct (us_range _ _ _ _ U _ _ Eu) as (_ & Hfl & _). pose proof (user_addr _ _ _ _ _ _ _ _ _ Hs' U Eu) as Hpa. rewrite pte_of_addr, P2V_V2P by assumption. auto. }
    split.
    + intros va w Hva Hw. destruct (HT va w Hva Hw) as (u & Hu & _ & ->). exact (proj2 (proj2 (us_fresh _ _ _ _ U)) _ _ Hu).
    + intros va va' w w' Hva Hva' Hw Hw' Eq. destruct (HT va w Hva Hw) as (u & Hu & _ & Eu), (HT va' w' Hva' Hw') as (u' & Hu' & _ & Eu').
      apply (us_inj _ _ _ _ U _ _ u u' Hu Hu'). rewrite <- Eu, <- Eu', Eq. reflexivity.
  - intros o Ho Hc. replace n with (cost o + (n - cost o))%nat in V by lia. destruct (wp_vcall _ _ _ _ _ _ _ _ _ V Ho) as (sz' & s2 & E2 & _). eauto.
Qed.

Lemma address_space_typed_witness : exists d sz s1, 0 <= sz <= KERNBASE /\
  (exists free' m', shows 8 s1 (PView free' m') /\ (forall p bs, (∅ : gmap Z (list Z)) !! p = Some bs -> m' !! p = Some bs) /\
    (forall va, is_u32 va -> KERNBASE <= va -> translate m' d va = layout demo_data va) /\
    (forall va, 0 <= va < KERNBASE -> (is_Some (peek m' d va) <-> va < 4096 * npages sz)) /\
    (forall va w, 0 <= va < KERNBASE -> translate m' d va = Some w -> (∅ : gmap Z (list Z)) !! P2V (PTE_ADDR w) = None) /\
    (forall va va' w w', 0 <= va < KERNBASE -> 0 <= va' < KERNBASE -> translate m' d va = Some w -> translate m' d va' = Some w' ->
       PTE_ADDR w = PTE_ADDR w' -> vpn va = vpn va')) /\
  (forall o, allowed sz o -> (cost o <= 8)%nat -> exists sz' s2, vcall d sz o s1 = Ok (sz', s2)).
Proof.
  destruct demo_run as (d & s0 & sz & s1 & E & Hnz & Hr). exists d, sz, s1.
  apply (address_space_typed demo_data 8 8 (demo_state 200) s0 s1 (demo_free 200) ∅ d sz demo_data_ok); [|exact E|exact Hnz|exact Hr].
  apply demo_shows; [unfold SETUP; lia|lia].
Defined.

(** C17: whatever calls of [allocuvm], [deallocuvm], [copyout] and [clearpteu] an address space has
    been through, [freevm] returns and gives back every page of it - the user pages, the page
    tables and the directory: the pages in use are exactly those, with the contents, from before
    [setupkvm] made it. *)
Theorem freevm_returns_everything {S : Type} `{PageMemory S} (data : Z) (k n : nat) (s s0 s1 : S) (free : list Z) (m : gmap Z (list Z)) (d sz : Z) :
  data_ok data -> shows (SETUP + (k + (1025 + n))) s (PView free m) -> setupkvm data s = Ok (d, s0) -> d <> 0 -> vreach d k (0, s0) (sz, s1) ->
  exists s2 free', freevm d s1 = Ok (tt, s2) /\ shows n s2 (PView free' m).
Proof.
  intros Hd Hs E Hnz Hr. destruct (setup_inv data m _ s free d s0 Hd Hs E Hnz) as (sp0 & V0).
  destruct (vreach_inv _ _ _ _ _ _ Hr _ ∅ sp0 V0) as (us & sp & [V1 V2 V3 V4 V5 V6]). subst d.
  destruct (wp_freevm m n us sp s1 V6 V4) as ([] & s2 & E2 & free' & H2). eauto.
Qed.

Lemma freevm_returns_everything_witness : exists d s1 s2 free', freevm d s1 = Ok (tt, s2) /\ shows 0 s2 (PView free' ∅).
Proof.
  destruct demo_run as (d & s0 & sz & s1 & E & Hnz & Hr). exists d, s1.
  apply (freevm_returns_everything demo_data 8 0 (demo_state 200) s0 s1 (demo_free 200) ∅ d sz demo_data_ok); [|exact E|exact Hnz|exact Hr].
  apply demo_shows; [unfold SETUP; lia|lia].
Defined.

Lemma peek_same_us {S : Type} `{PageMemory S} n n' (s s' : S) free free' R R' us sp sp' m m' va : shows n s (PView free m) -> user_space R us sp m -> shows n' s' (PView free' m') -> user_space R' us sp' m' ->
  0 <= va < KERNBASE -> peek m' (dir sp') va = peek m (dir sp) va.
Proof. intros Hs U Hs' U' Hva. rewrite (peek_user _ _ _ _ _ _ _ _ Hs U Hva), (peek_user _ _ _ _ _ _ _ _ Hs' U' Hva). reflexivity. Qed.

Lemma ubyte_zero us k q va : us !! vpn va = Some (Upage q k zero_page) -> ubyte us va = Some 0.
Proof.
  intros E. unfold ubyte. rewrite E. cbn [mbind option_bind u_bytes]. apply lookup_replicate_2. pose proof (Z.mod_pos_bound va 4096). lia.
Qed.

Lemma ubyte_none us N va : covers us N -> ~ vpn va < N \/ vpn va < 0 -> ubyte us va = None.
Proof. intros C Hn. unfold ubyte. destruct (us !! vpn va) as [u|] eqn:Eu; [|reflexivity]. destruct (proj1 (C (vpn va)) ltac:(eauto)); lia. Qed.

(** [allocuvm] grows a process completely or leaves it as it was: with enough free pages -
    two for each page of the new size at most - and a new size below [KERNBASE] it returns the new
    size, the old contents stay and the new pages read as zero; otherwise it returns 0 (or the old
    size, when asked to shrink) and the process reads as before.  The rest of memory is untouched
    in every case. *)
Theorem allocuvm_all_or_nothing {S : Type} `{PageMemory S} (R : gmap Z (list Z)) (n : nat) (s : S) (us : gmap Z upage) (sp : aspace) (free : list Z) (m : gmap Z (list Z)) (oldsz newsz : Z) :
  user_space R us sp m -> covers us (npages oldsz) -> contig sp -> 0 <= oldsz <= KERNBASE -> 0 <= newsz ->
  shows (base.size us + (3 * Z.to_nat (npages newsz) + 2 + n)) s (PView free m) ->
  exists x s' free' m', allocuvm (dir sp) oldsz newsz s = Ok (x, s') /\ shows n s' (PView free' m') /\ (forall p bs, R !! p = Some bs -> m' !! p = Some bs) /\
    ((oldsz <= newsz < KERNBASE /\ x = newsz /\ forall va, 0 <= va < KERNBASE -> peek m' (dir sp) va =
        if va <? 4096 * npages oldsz then peek m (dir sp) va else if va <? 4096 * npages newsz then Some 0 else None) \/
     ((x = oldsz /\ newsz < oldsz \/ x = 0 /\ (KERNBASE <= newsz \/ (length free <= 2 * Z.to_nat (npages newsz - npages oldsz))%nat)) /\
        forall va, 0 <= va < KERNBASE -> peek m' (dir sp) va = peek m (dir sp) va)).
Proof.
  intros U Cv C Ho Hn Hs. assert (Sp : space_free R (3 * Z.to_nat (npages newsz) + 2 + n) (length free) us sp s) by (exists free, m; auto).
  destruct (wp_allocuvm R n (length free) s us sp oldsz newsz Ho Hn Cv C Sp) as (x & s' & E & us' & sp' & St & (free' & m' & U' & Hs') & Hx).
  exists x, s', free', m'. split; [exact E|]. apply (law_weaken _ n) in Hs'; [|lia]. split; [exact Hs'|]. split; [intros p bs Hp; exact (user_keeps _ _ _ _ _ _ U' Hp)|].
  assert (Ed : forall va, peek m' (dir sp) va = peek m' (dir sp') va) by (intros va; rewrite (st_dir _ _ St); reflexivity). destruct Hx as [(Hx & -> & (G1 & G2 & G3) & _)|[(Hx & _ & -> & ->)|(-> & -> & Hx)]].
  - left. split; [exact Hx|]. split; [reflexivity|]. intros va Hva. rewrite Ed, (peek_user _ _ _ _ _ _ _ _ Hs' U' Hva).
    pose proof (user_vpn va Hva) as Hv. destruct (Z.ltb_spec va (4096 * npages oldsz)) as [Hlt|Hge]; [|destruct (Z.ltb_spec va (4096 * npages newsz)) as [Hlt|Hge']].
    + rewrite (peek_user _ _ _ _ _ _ _ _ Hs U Hva). unfold ubyte. rewrite G1 by (apply vpn_lt; lia). reflexivity.
    + destruct (G2 (vpn va)) as [q Hq]; [split; [|apply vpn_lt; lia]; pose proof (vpn_lt va (npages oldsz)); lia|]. exact (ubyte_zero _ _ _ _ Hq).
    + eapply ubyte_none; [exact G3|]. left. rewrite <- vpn_lt. lia.
  - right. split; [left; auto|]. intros va Hva. rewrite Ed. exact (peek_same_us _ _ _ _ _ _ _ _ _ _ _ _ _ _ Hs U Hs' U' Hva).
  - right. split; [right; split; [reflexivity|]; destruct Hx as [Hx|[_ Hx]]; auto|]. intros va Hva. rewrite Ed. exact (peek_same_us _ _ _ _ _ _ _ _ _ _ _ _ _ _ Hs U Hs' U' Hva).
Qed.

Lemma allocuvm_all_or_nothing_witness : exists sp s m x s' free' m', allocuvm (dir sp) 8192 20000 s = Ok (x, s') /\ shows 0 s' (PView free' m') /\
  (forall p bs, (∅ : gmap Z (list Z)) !! p = Some bs -> m' !! p = Some bs) /\
  ((8192 <= 20000 < KERNBASE /\ x = 20000 /\ forall va, 0 <= va < KERNBASE -> peek m' (dir sp) va =
      if va <? 4096 * npages 8192 then peek m (dir sp) va else if va <? 4096 * npages 20000 then Some 0 else None) \/
   ((x = 8192 /\ 20000 < 8192 \/ x = 0 /\ (KERNBASE <= 20000 \/ False)) /\ forall va, 0 <= va < KERNBASE -> peek m' (dir sp) va = peek m (dir sp) va)).
Proof.
  destruct (demo_process 17 ltac:(lia)) as (us & sp & s & free & m & U & C & Cv & _ & _ & _ & Hs & Hf). exists sp, s, m.
  destruct (allocuvm_all_or_nothing ∅ 0 s us sp free m 8192 20000 U Cv C) as (x & s' & free' & m' & E & Hs' & Hr & Hx).
  - unfold KERNBASE. lia.
  - lia.
  - exact Hs.
  - exists x, s', free', m'. split; [exact E|]. split; [exact Hs'|]. split; [exact Hr|]. destruct Hx as [Hx|[Hx Hp]]; [left; exact Hx|right]. split; [|exact Hp].
    destruct Hx as [Hx|[Hx [Hk|Hl]]]; [left; exact Hx|right; split; [exact Hx|left; exact Hk]|]. exfalso. change (Z.to_nat (npages 20000 - npages 8192)) with 3%nat in Hl. lia.
Defined.

(** ** The copy of an address space *)

(** The child's bytes, from the parent's. *)
Lemma copied_ubyte us usc N va : copied N us usc -> 0 <= vpn va -> ubyte usc va = if va <? 4096 * N then ubyte us va else None.
Proof.
  intros [C1 C2] Hv. destruct (Z.ltb_spec va (4096 * N)) as [Hlt|Hge].
  - apply vpn_lt in Hlt. destruct (C2 (vpn va) ltac:(lia)) as (u & q & Hu & Hc). unfold ubyte. rewrite Hu, Hc. reflexivity.
  - eapply ubyte_none; [exact C1|]. left. rewrite <- vpn_lt. lia.
Qed.

Lemma parent_peek {S : Type} `{PageMemory S} n n' (s s' : S) free free' R us sp m usc spc mc : shows n s (PView free m) -> user_space R us sp m -> shows n' s' (PView free' mc) -> user_space m usc spc mc ->
  (forall va, is_u32 va -> translate mc (dir sp) va = translate m (dir sp) va) /\ (forall va, 0 <= va < KERNBASE -> peek mc (dir sp) va = peek m (dir sp) va).
Proof.
  intros Hs U Hs' Uc. assert (HT : forall va, is_u32 va -> translate mc (dir sp) va = translate m (dir sp) va).
  { intros va Hva. rewrite (translate_spec _ _ _ _ _ _ Hs' (parent_tables _ _ _ _ _ _ _ U Uc) Hva). symmetry. exact (translate_spec _ _ _ _ _ _ Hs (us_tables _ _ _ _ U) Hva). }
  split; [exact HT|]. intros va Hva. unfold peek. rewrite HT, (user_translate _ _ _ _ _ _ _ _ Hs U Hva) by (unfold is_u32, KERNBASE in *; lia).
  destruct (us !! vpn va) as [u|] eqn:Eu; [|reflexivity]. cbn [fmap option_fmap option_map mbind option_bind]. destruct (us_range _ _ _ _ U _ _ Eu) as (_ & Hfl & _).
  pose proof (user_addr _ _ _ _ _ _ _ _ _ Hs U Eu) as Hpa. rewrite pte_of_addr, P2V_V2P by assumption.
  rewrite (parent_page _ _ _ _ _ _ _ _ _ U Uc Eu), (us_page _ _ _ _ U _ _ Eu). reflexivity.
Qed.

(** C4: with enough free pages [copyuvm], the copy that [fork] makes, gives a new page directory
    under which every address of the process reads as in the parent, with the same permissions,
    and the kernel is mapped as in every directory; and the two do not share memory: bytes
    written to the child afterwards ([copyout]) are read in the child and change nothing that the
    parent sees, neither its page table nor its bytes. *)
Theorem copyuvm_isolates {S : Type} `{PageMemory S} (data : Z) (R : gmap Z (list Z)) (us : gmap Z upage) (sp : aspace) (free : list Z) (m : gmap Z (list Z)) (n : nat) (s : S)
    (sz va : Z) (buf : list Z) :
  data_ok data -> user_space R us sp m -> covers us (npages sz) -> 0 <= sz <= KERNBASE -> (65 + 2 * Z.to_nat (npages sz) < length free)%nat ->
  shows (SETUP + (3 * Z.to_nat (npages sz) + (1025 + n))) s (PView free m) ->
  0 <= va -> va + Z.of_nat (length buf) <= sz -> (forall i, 0 <= i < Z.of_nat (length buf) -> accessible us (va + i) = true) ->
  exists d s1 s2 free2 m2, copyuvm data (dir sp) sz s = Ok (d, s1) /\ d <> 0 /\ copyout d va buf s1 = Ok (true, s2) /\ shows n s2 (PView free2 m2) /\
    (forall a, is_u32 a -> translate m2 (dir sp) a = translate m (dir sp) a) /\
    (forall a, 0 <= a < KERNBASE -> peek m2 (dir sp) a = peek m (dir sp) a) /\
    (forall a, 0 <= a < KERNBASE -> peek m2 d a =
       if decide (va <= a < va + Z.of_nat (length buf)) then buf !! Z.to_nat (a - va) else if a <? 4096 * npages sz then peek m (dir sp) a else None) /\
    (forall a, 0 <= a < 4096 * npages sz -> a < KERNBASE -> PTE_FLAGS <$> translate m2 d a = PTE_FLAGS <$> translate m (dir sp) a) /\
    (forall a, is_u32 a -> KERNBASE <= a -> translate m2 d a = layout data a).
Proof.
  intros Hd U Cv Hsz Hfree Hs Hva Hend Hacc. destruct (wp_copyuvm data R us sp m n s free sz Hd U Hsz) as (d & s1 & E & Hr); [intros k Hk; apply Cv, Hk|exact Hs|].
  destruct Hr as [(usc & spc & mc & freec & -> & Hnz & Uc & Hc & K & C & Hs1)|(-> & Hf & _)]; [|lia].
  destruct (wp_copyout _ s1 freec m usc spc mc va buf Hs1 Uc Hva ltac:(lia)) as (ok & s2 & E2 & k & Hp).
  { intros a Ha. destruct (covers_vpn usc sz a (proj1 Hc) ltac:(lia)) as [u Hu]. exact (user_table _ _ _ _ _ _ Uc Hu). }
  assert (Hacc' : forall i, 0 <= i < Z.of_nat (length buf) -> accessible usc (va + i) = true).
  { intros i Hi. rewrite <- (Hacc i Hi). unfold accessible. destruct (proj2 Hc (vpn (va + i))) as (u & q & -> & ->); [|reflexivity].
    apply (proj1 Hc), covers_vpn with sz; [exact (proj1 Hc)|lia]. }
  destruct Hp as [B1 B2 B3 (us2 & m2 & U2 & Hs2 & [P O])]. assert (Eok : ok = true /\ k = Z.of_nat (length buf)).
  { destruct ok; [auto|]. exfalso. destruct B2 as [B2 B2']. rewrite Hacc' in B2' by lia. discriminate. }
  destruct Eok as [-> ->]. rewrite Nat2Z.id, firstn_all in O. exists (dir spc), s1, s2, freec, m2. split; [exact E|]. split; [exact Hnz|]. split; [exact E2|].
  assert (Hs2n : shows n s2 (PView freec m2)) by (eapply law_weaken; [exact Hs2|lia]). split; [exact Hs2n|].
  destruct (parent_peek _ _ _ _ _ _ _ _ _ _ _ _ _ Hs U Hs2 U2) as [T1 T2]. split; [exact T1|]. split; [exact T2|]. split; [|split].
  - intros a Ha. rewrite (peek_user _ _ _ _ _ _ _ _ Hs2 U2 Ha), O, (copied_ubyte _ _ _ _ Hc) by apply (user_vpn a Ha). rewrite (peek_user _ _ _ _ _ _ _ _ Hs U Ha). reflexivity.
  - intros a Ha Hk. rewrite (user_translate _ _ _ _ _ _ _ _ Hs2 U2), (user_translate _ _ _ _ _ _ _ _ Hs U) by lia.
    destruct (proj2 Hc (vpn a)) as (u & q & Hu & Hcu); [split; [apply Z.div_pos; lia|apply vpn_lt; lia]|]. specialize (P (vpn a)). rewrite Hcu in P. rewrite Hu.
    destruct (us2 !! vpn a) as [u2|] eqn:E3; [|discriminate]. cbn in P |- *. injection P as Ep Ef. pose proof (user_addr _ _ _ _ _ _ _ _ _ Hs2 U2 E3) as A2. pose proof (user_addr _ _ _ _ _ _ _ _ _ Hs U Hu) as A.
    destruct (us_range _ _ _ _ U2 _ _ E3) as (_ & F2 & _). destruct (us_range _ _ _ _ U _ _ Hu) as (_ & F & _). rewrite !pte_of_flags by assumption. congruence.
  - intros a Ha Hk. eapply kernel_translate; eassumption.
Qed.

Lemma copyuvm_isolates_witness : exists sp s m d s1 s2 free2 m2, copyuvm demo_data (dir sp) 8192 s = Ok (d, s1) /\ d <> 0 /\ copyout d 4094 [7; 8; 9] s1 = Ok (true, s2) /\ shows 0 s2 (PView free2 m2) /\
    (forall a, is_u32 a -> translate m2 (dir sp) a = translate m (dir sp) a) /\
    (forall a, 0 <= a < KERNBASE -> peek m2 (dir sp) a = peek m (dir sp) a) /\
    (forall a, 0 <= a < KERNBASE -> peek m2 d a =
       if decide (4094 <= a < 4094 + Z.of_nat (length [7; 8; 9])) then [7; 8; 9] !! Z.to_nat (a - 4094) else if a <? 4096 * npages 8192 then peek m (dir sp) a else None) /\
    (forall a, 0 <= a < 4096 * npages 8192 -> a < KERNBASE -> PTE_FLAGS <$> translate m2 d a = PTE_FLAGS <$> translate m (dir sp) a) /\
    (forall a, is_u32 a -> KERNBASE <= a -> translate m2 d a = layout demo_data a).
Proof.
  destruct (demo_process (SETUP + (3 * 2 + (1025 + 0))) ltac:(unfold SETUP; lia)) as (us & sp & s & free & m & U & C & Cv & _ & Hfl & _ & Hs & Hf). exists sp, s, m.
  apply (copyuvm_isolates demo_data ∅ us sp free m 0 s 8192 4094 [7; 8; 9] demo_data_ok U Cv).
  - unfold KERNBASE. lia.
  - change (Z.to_nat (npages 8192)) with 2%nat. lia.
  - eapply law_weaken; [exact Hs|]. change (Z.to_nat (npages 8192)) with 2%nat. lia.
  - lia.
  - cbn [length]. lia.
  - intros i Hi. cbn [length] in Hi. unfold accessible. destruct (covers_vpn us 8192 (4094 + i) Cv ltac:(lia)) as [u Hu]. rewrite Hu, (Hfl _ _ Hu). reflexivity.
Defined.

(** [copyout] writes exactly the bytes up to the first page that user code may not use and
    returns 0 exactly when there is none: the buffer is then in user memory as a whole; otherwise
    a prefix of it is.  No other byte of the process and nothing outside of it changes. *)
Theorem copyout_writes_prefix {S : Type} `{PageMemory S} (R : gmap Z (list Z)) (us : gmap Z upage) (sp : aspace) (free : list Z) (m : gmap Z (list Z)) (n : nat) (s : S) (sz va : Z) (buf : list Z) :
  user_space R us sp m -> covers us (npages sz) -> shows n s (PView free m) -> 0 <= va -> va + Z.of_nat (length buf) <= sz -> sz <= KERNBASE ->
  exists ok s' free' m' k, copyout (dir sp) va buf s = Ok (ok, s') /\ shows n s' (PView free' m') /\
    0 <= k <= Z.of_nat (length buf) /\ (if ok : bool then k = Z.of_nat (length buf) else k < Z.of_nat (length buf) /\ accessible us (va + k) = false) /\
    (forall i, 0 <= i < k -> accessible us (va + i) = true) /\
    (forall a, 0 <= a < KERNBASE -> peek m' (dir sp) a = if decide (va <= a < va + k) then buf !! Z.to_nat (a - va) else peek m (dir sp) a) /\
    (forall p bs, R !! p = Some bs -> m' !! p = Some bs).
Proof.
  intros U Cv Hs Hva Hend Hsz. destruct (wp_copyout n s free R us sp m va buf Hs U Hva ltac:(lia)) as (ok & s' & E & k & [B1 B2 B3 (us' & m' & U' & Hs' & [P O])]).
  { intros a Ha. destruct (covers_vpn us sz a Cv ltac:(lia)) as [u Hu]. exact (user_table _ _ _ _ _ _ U Hu). }
  exists ok, s', free, m', k. split; [exact E|]. split; [exact Hs'|]. split; [exact B1|]. split; [exact B2|]. split; [exact B3|]. split.
  - intros a Ha. rewrite (peek_user _ _ _ _ _ _ _ _ Hs' U' Ha), O, (peek_user _ _ _ _ _ _ _ _ Hs U Ha).
    replace (Z.of_nat (length (take (Z.to_nat k) buf))) with k by (rewrite length_take; lia). destruct (decide _); [|reflexivity]. apply lookup_take_lt. lia.
  - intros p bs Hp. exact (user_keeps _ _ _ _ _ _ U' Hp).
Qed.

Lemma copyout_writes_prefix_witness : exists us sp m s ok s' free' m' k, copyout (dir sp) 4095 [1; 2] s = Ok (ok, s') /\ shows 0 s' (PView free' m') /\
    0 <= k <= Z.of_nat (length [1; 2]) /\ (if ok : bool then k = Z.of_nat (length [1; 2]) else k < Z.of_nat (length [1; 2]) /\ accessible us (4095 + k) = false) /\
    (forall i, 0 <= i < k -> accessible us (4095 + i) = true) /\
    (forall a, 0 <= a < KERNBASE -> peek m' (dir sp) a = if decide (4095 <= a < 4095 + k) then [1; 2] !! Z.to_nat (a - 4095) else peek m (dir sp) a) /\
    (forall p bs, (∅ : gmap Z (list Z)) !! p = Some bs -> m' !! p = Some bs).
Proof.
  destruct (demo_process 0 ltac:(lia)) as (us & sp & s & free & m & U & C & Cv & _ & _ & _ & Hs & _). exists us, sp, m, s.
  apply (copyout_writes_prefix ∅ us sp free m 0 s 8192 4095 [1; 2] U Cv).
  - eapply law_weaken; [exact Hs|lia].
  - lia.
  - cbn [length]. lia.
  - unfold KERNBASE. lia.
Defined.
End VmProps.
