(* ===== verification/Exec.v ===== *)
(** [exec] (exec.c): loading a program into a new address space.

    The state has a page memory (PageMem.v), the file system with the count of operations of the
    log, and of the process what [exec] uses.  The part that runs while the file is locked and the
    part that builds the stack are definitions of their own; [bad] is split over them: each
    gives back what exists where it fails. *)

From S2P Require Import Prelude Kernel PageMem Fs Vm.

Module Exec.
Import Kernel Vm.

(** elf.h *)
Definition ELF_MAGIC : Z := 0x464C457F.
Definition ELF_PROG_LOAD : Z := 1.
Record elfhdr := Elfhdr { magic : Z; entry : Z; phoff : Z; phnum : Z }.
Record proghdr := Proghdr { ph_type : Z; ph_off : Z; ph_vaddr : Z; ph_filesz : Z; ph_memsz : Z }.

(** The size of each structure and its fields, from its bytes. *)
Definition ELFHDR : Z := 52.
Definition PROGHDR : Z := 32.
Definition elfhdr_of (bs : list Z) : elfhdr := Elfhdr (Fs.word 0 bs) (Fs.word 24 bs) (Fs.word 28 bs) (Fs.half 44 bs).
Definition proghdr_of (bs : list Z) : proghdr := Proghdr (Fs.word 0 bs) (Fs.word 4 bs) (Fs.word 8 bs) (Fs.word 16 bs) (Fs.word 20 bs).

Definition MAXARG : Z := 32.

Record process := Process {
  name : list Z;
  cwd : nat;
  pgdir : Z;
  sz : Z;
  eip : Z;
  esp : Z;
}.

(** [safestrcpy(name, s, sizeof(name))] of a string [s]. *)
Definition safe_name (s old : list Z) : list Z := let t := take (length old - 1) s in t ++ [0] ++ drop (length t + 1) old.
(** What follows the last slash of a path. *)
Definition last_element (path : list Z) : list Z :=
  foldl (fun last i => if default 0 (path !! i) =? Fs.SLASH then drop (Datatypes.S i) path else last) path (seq 0 (length path)).

Section exec.
Context {S : Type} `{PageMemory S}.

Record state := State {
  pages : S;
  disk : Fs.fs;
  outstanding : Z;
  proc : process;
  cr3 : Z;
}.
Definition set_pages (x : S) (s : state) : state := State x (disk s) (outstanding s) (proc s) (cr3 s).
Definition set_disk (x : Fs.fs) (s : state) : state := State (pages s) x (outstanding s) (proc s) (cr3 s).
Definition set_outstanding (x : Z) (s : state) : state := State (pages s) (disk s) x (proc s) (cr3 s).
Definition set_proc (x : process) (s : state) : state := State (pages s) (disk s) (outstanding s) x (cr3 s).
Definition set_cr3 (x : Z) (s : state) : state := State (pages s) (disk s) (outstanding s) (proc s) x.

Definition in_pages {A} (m : K S A) : K state A := fun s =>
  '(a, x) ← m (pages s);
  Ok (a, set_pages x s).
Definition in_disk {A} (m : K Fs.fs A) : K state A := fun s =>
  '(a, x) ← m (disk s);
  Ok (a, set_disk x s).
Definition in_both {A} (m : K (S * Fs.fs) A) : K state A := fun s =>
  '(a, (x, y)) ← m (pages s, disk s);
  Ok (a, set_disk y (set_pages x s)).

Definition begin_op : K state unit := modify (fun s => set_outstanding (outstanding s + 1) s).
Definition end_op : K state unit := modify (fun s => set_outstanding (outstanding s - 1) s).

(** The page table register; the rest of [switchuvm] is in Proc.v. *)
Definition switchuvm : K state unit :=
  p ← gets proc;
  if pgdir p =? 0 then panic "switchuvm: no pgdir" else modify (set_cr3 (V2P (pgdir p))).

Section program.
Context (devread : Z -> option (nat -> Z -> K Fs.fs (option (list Z)))).
(** The linker's [data], and what [elf] holds before it is read. *)
Context (data : Z) (junk : list Z).

(** The body of the loop over the program headers; [None] is [goto bad]. *)
Definition load_segment (pgdir : Z) (ip : nat) (sz off : Z) : K state (option Z) :=
  r ← in_disk (Fs.readi devread ip (u32 off) PROGHDR);
  match r with
  | None => mret None
  | Some bs =>
      if negb (Z.of_nat (length bs) =? PROGHDR) then mret None
      else
        let ph := proghdr_of bs in
        if negb (ph_type ph =? ELF_PROG_LOAD) then mret (Some sz)
        else if ph_memsz ph <? ph_filesz ph then mret None
        else if u32 (ph_vaddr ph + ph_memsz ph) <? ph_vaddr ph then mret None
        else
          sz ← in_pages (allocuvm pgdir sz (u32 (ph_vaddr ph + ph_memsz ph)));
          if sz =? 0 then mret None
          else if negb (ph_vaddr ph mod PGSIZE =? 0) then mret None
          else
            ok ← in_both (loaduvm devread pgdir (ph_vaddr ph) ip (ph_off ph) (ph_filesz ph));
            mret (if ok : bool then Some sz else None)
  end.
Fixpoint load_segments (n : nat) (pgdir : Z) (ip : nat) (sz off : Z) : K state (option Z) :=
  match n with
  | O => mret (Some sz)
  | Datatypes.S n =>
      r ← load_segment pgdir ip sz off;
      match r with
      | None => mret None
      | Some sz => load_segments n pgdir ip sz (off + PROGHDR)
      end
  end.

(** The image of a file with the header [elf]: its directory, size and entry. *)
Definition load_elf (ip : nat) (elf : elfhdr) : K state (option (Z * Z * Z)) :=
  if negb (magic elf =? ELF_MAGIC) then mret None
  else
    pgdir ← in_pages (setupkvm data);
    if pgdir =? 0 then mret None
    else
      r ← load_segments (Z.to_nat (phnum elf)) pgdir ip 0 (phoff elf);
      match r with
      | None => in_pages (freevm pgdir) ;; mret None
      | Some sz => mret (Some (pgdir, sz, entry elf))
      end.
(** The result -1 of [readi] is compared as an unsigned number, so it counts as long enough. *)
Definition load_image (ip : nat) : K state (option (Z * Z * Z)) :=
  r ← in_disk (Fs.readi devread ip 0 ELFHDR);
  match r with
  | Some bs => if Z.of_nat (length bs) <? ELFHDR then mret None else load_elf ip (elfhdr_of bs)
  | None => load_elf ip (elfhdr_of junk)
  end.

(** The strings of the arguments; the result is [sp] and the words of [ustack] from the third on. *)
Fixpoint push_args (pgdir sp argc : Z) (argv : list (list Z)) (ustack : list Z) : K state (option (Z * list Z)) :=
  match argv with
  | [] => mret (Some (sp, ustack))
  | arg :: argv =>
      if MAXARG <=? argc then mret None
      else
        let sp := Z.land (u32 (sp - (Z.of_nat (length arg) + 1))) (Z.lnot 3) in
        ok ← in_pages (copyout pgdir sp (arg ++ [0]));
        if negb ok then mret None
        else push_args pgdir sp (argc + 1) argv (ustack ++ [sp])
  end.

(** The user stack above [sz0]; the result is the size and [sp]. *)
Definition build_stack (pgdir sz0 : Z) (argv : list (list Z)) : K state (option (Z * Z)) :=
  let sz0 := PGROUNDUP sz0 in
  sz ← in_pages (allocuvm pgdir sz0 (u32 (sz0 + 2 * PGSIZE)));
  if sz =? 0 then mret None
  else
    in_pages (clearpteu pgdir (u32 (sz - 2 * PGSIZE))) ;;
    r ← push_args pgdir sz 0 argv [];
    match r with
    | None => mret None
    | Some (sp, strings) =>
        let argc := Z.of_nat (length argv) in
        let ustack := [0xffffffff; argc; u32 (sp - (argc + 1) * 4)] ++ strings ++ [0] in
        let sp := u32 (sp - (3 + argc + 1) * 4) in
        ok ← in_pages (copyout pgdir sp (concat (le_bytes 4 <$> ustack)));
        mret (if ok : bool then Some (sz, sp) else None)
    end.

Definition exec (path : list Z) (argv : list (list Z)) : K state Z :=
  begin_op ;;
  p ← gets proc;
  r ← in_disk (Fs.namei devread (cwd p) path);
  match r with
  | None => end_op ;; mret (-1)
  | Some ip =>
      in_disk (Fs.ilock ip) ;;
      r ← load_image ip;
      match r with
      | None => in_disk (Fs.iunlockput ip) ;; end_op ;; mret (-1)
      | Some (dir, sz, entry) =>
          in_disk (Fs.iunlockput ip) ;;
          end_op ;;
          r ← build_stack dir sz argv;
          match r with
          | None => in_pages (freevm dir) ;; mret (-1)
          | Some (sz, sp) =>
              p ← gets proc;
              let oldpgdir := pgdir p in
              modify (set_proc (Process (safe_name (last_element path) (name p)) (cwd p) dir sz entry sp)) ;;
              switchuvm ;;
              in_pages (freevm oldpgdir) ;;
              mret 0
          end
      end
  end.
End program.
End exec.
End Exec.
