(* ===== verification/ExecProps.v ===== *)
(** What [exec] (Exec.v) does: the image that a file describes, and that the process gets it or
    keeps everything it had.  The files and the page tables are those of Fs.v, Namei.v, and of
    VmFacts.v, VmUser.v, VmOps.v and VmCopy.v. *)

From stdpp Require Import gmap.
From S2P Require Import Prelude Kernel PageMem Fs Dir Namei Path Vm VmFacts VmUser VmOps VmCopy VmProps Exec.

Module ExecImage.
Import Kernel Exec.

(** ** The image that a file describes *)

(** The program header at [off] of a file with content [c]. *)
Definition header (c : list Z) (off : Z) : option proghdr :=
  if Z.of_nat (length c) <? off + PROGHDR then None else Some (proghdr_of (take (Z.to_nat PROGHDR) (drop (Z.to_nat off) c))).

(** The size of the image and its bytes; what no segment fills is zero. *)
Record image := Image { i_size : Z; i_byte : Z -> Z }.

Definition overlay_bytes (va : Z) (bs : list Z) (g : Z -> Z) : Z -> Z :=
  fun a => if decide (va <= a < va + Z.of_nat (length bs)) then bs !!! Z.to_nat (a - va) else g a.

(** A segment is added to an image; [None] if the header asks for what cannot be. *)
Definition add_segment (c : list Z) (ph : proghdr) (x : image) : option image :=
  let top := ph_vaddr ph + ph_memsz ph in
  if negb (ph_type ph =? ELF_PROG_LOAD) then Some x
  else if ph_memsz ph <? ph_filesz ph then None
  else if KERNBASE <=? top then None
  else if Z.max (i_size x) top =? 0 then None
  else if negb (ph_vaddr ph mod 4096 =? 0) then None
  else if (0 <? ph_filesz ph) && (Z.of_nat (length c) <? ph_off ph + ph_filesz ph) then None
  else Some (Image (Z.max (i_size x) top)
    (overlay_bytes (ph_vaddr ph) (take (Z.to_nat (ph_filesz ph)) (drop (Z.to_nat (ph_off ph)) c)) (i_byte x))).
Fixpoint add_segments (c : list Z) (n : nat) (off : Z) (x : image) : option image :=
  match n with
  | O => Some x
  | S n => ph ← header c off; x ← add_segment c ph x; add_segments c n (off + PROGHDR) x
  end.

(** The image and the entry of the file. *)
Definition file_image (c : list Z) : option (image * Z) :=
  if Z.of_nat (length c) <? ELFHDR then None
  else
    let elf := elfhdr_of (take (Z.to_nat ELFHDR) c) in
    if negb (magic elf =? ELF_MAGIC) then None
    else x ← add_segments c (Z.to_nat (phnum elf)) (phoff elf) (Image 0 (fun _ => 0)); Some (x, entry elf).

(** ** The stack *)

(** The arguments one below the other from [sp] on, down to [floor]: the addresses of the strings
    and the bytes. *)
Definition below (sp : Z) (arg : list Z) : Z := let a := sp - (Z.of_nat (length arg) + 1) in a - a mod 4.
Fixpoint add_args (floor : Z) (argv : list (list Z)) (sp : Z) (ptrs : list Z) (g : Z -> Z) : option (Z * list Z * (Z -> Z)) :=
  match argv with
  | [] => Some (sp, ptrs, g)
  | arg :: argv =>
      let sp := below sp arg in
      if sp <? floor then None else add_args floor argv sp (ptrs ++ [sp]) (overlay_bytes sp (arg ++ [0]) g)
  end.

(** The words for [main] below the arguments, on a stack that ends at [top].  The result is the image
    and the stack pointer. *)
Definition add_main (top : Z) (g : Z -> Z) (argv : list (list Z)) : option (image * Z) :=
  let argc := Z.of_nat (length argv) in
  if MAXARG <? argc then None
  else
    '(sp, ptrs, g) ← add_args (top - 4096) argv top [] g;
    let words := [0xffffffff; argc; sp - 4 * (argc + 1)] ++ ptrs ++ [0] in
    let sp := sp - 4 * (argc + 4) in
    if sp <? top - 4096 then None
    else Some (Image top (overlay_bytes sp (concat (le_bytes 4 <$> words)) g), sp).

(** The image with its stack: two pages above the program, of which the first is a guard. *)
Definition add_stack (x : image) (argv : list (list Z)) : option (image * Z) :=
  let top := 4096 * VmUser.npages (i_size x) + 8192 in
  if KERNBASE <=? top then None else add_main top (i_byte x) argv.
End ExecImage.

Module ExecFacts.
Import Kernel Vm VmFacts VmUser VmOps VmCopy VmReach Exec ExecImage.

(** ** Bytes and words *)

Lemma lookup_byte bs i : Forall is_byte bs -> is_byte (bs !!! i).
Proof.
  intros Hb. rewrite list_lookup_total_alt. destruct (bs !! i) as [x|] eqn:E; [exact (Forall_lookup_1 _ _ _ _ Hb E)|]. unfold is_byte. cbn. lia.
Qed.

Lemma content_bytes ds s v : FsFacts.formatted ds s -> Forall is_byte (FsFacts.content s v).
Proof.
  intros F. apply Forall_fmap, Forall_true. intros o. apply lookup_byte. unfold FsFacts.blk. rewrite list_lookup_total_alt.
  destruct (Fs.blocks s !! _) as [b|] eqn:E; [|constructor]. destruct (Forall_lookup_1 _ _ _ _ (FsFacts.f_blocks _ _ F) E) as [_ Hb]. exact Hb.
Qed.

Lemma le_word_bound bs : Forall is_byte bs -> 0 <= le_word bs < 256 ^ Z.of_nat (length bs).
Proof.
  induction 1 as [|b bs Hb _ IH]; [cbn; lia|]. cbn [le_word length]. rewrite Nat2Z.inj_succ, Z.pow_succ_r by lia. unfold is_byte in Hb. lia.
Qed.

Lemma field_bound bs off n : Forall is_byte bs -> 0 <= le_word (window off n bs) < 256 ^ Z.of_nat n.
Proof.
  intros Hb. assert (Hw : Forall is_byte (window off n bs)) by (apply Forall_take, Forall_drop, Hb). pose proof (le_word_bound _ Hw) as H1.
  assert (Hl : Z.of_nat (length (window off n bs)) <= Z.of_nat n) by (unfold window; rewrite length_take; lia).
  pose proof (Z.pow_le_mono_r 256 _ _ ltac:(lia) Hl). lia.
Qed.

Definition header_ok (ph : proghdr) : Prop := is_u32 (ph_off ph) /\ is_u32 (ph_vaddr ph) /\ is_u32 (ph_filesz ph) /\ is_u32 (ph_memsz ph).
Lemma proghdr_ok bs : Forall is_byte bs -> header_ok (proghdr_of bs).
Proof. intros Hb. unfold header_ok, is_u32, proghdr_of, Fs.word. cbn [ph_off ph_vaddr ph_filesz ph_memsz]. repeat split; apply (field_bound bs _ 4 Hb). Qed.

(** ** Sizes *)

Lemma npages_mono a b : a <= b -> npages a <= npages b.
Proof. intros Hab. apply Z.div_le_mono; lia. Qed.
Lemma npages_below a : 0 <= a <= KERNBASE -> 0 <= npages a <= KPN.
Proof. intros Ha. unfold KPN, KERNBASE in *. split; [apply Z.div_pos; lia|]. change 524288 with (npages 2147483648). apply npages_mono. lia. Qed.

Lemma npages_stack k : npages (4096 * k + 8192) = k + 2.
Proof. unfold npages. replace (4096 * k + 8192 + 4095) with (4095 + (k + 2) * 4096) by lia. rewrite Z.div_add by lia. reflexivity. Qed.

Section space.
Context {S : Type} `{PageMemory S}.

(** An address space with the bytes of an image, all of it for the user. *)
Record image_at (R : gmap Z (list Z)) (n f : nat) (data : Z) (x : image) (us : gmap Z upage) (sp : aspace) (s : S) : Prop := {
  im_size : 0 <= i_size x < KERNBASE;
  im_covers : covers us (npages (i_size x));
  im_contig : contig sp;
  im_kernel : kernel_part data sp;
  im_space : space_free R n f us sp s;
  im_bytes : forall a, 0 <= a < 4096 * npages (i_size x) -> ubyte us a = Some (i_byte x a);
  im_zero : forall a, i_size x <= a -> i_byte x a = 0;
  im_flags : forall k u, us !! k = Some u -> u_flags u = 7;
}.

Lemma image_weaken R n n' f f' data x us sp s : image_at R n f data x us sp s -> (n' <= n)%nat -> (f' <= f)%nat -> image_at R n' f' data x us sp s.
Proof. intros [I1 I2 I3 I4 I5 I6 I7 I8] Hn Hf. constructor; try assumption. eapply space_free_weaken; eassumption. Qed.

(** Pages are added at the end. *)
Lemma image_grown R n f data x us sp s size n' f' us' sp' s' : image_at R n f data x us sp s -> i_size x <= size < KERNBASE -> stays sp sp' ->
  grown_to (npages (i_size x)) (npages size) us us' -> space_free R n' f' us' sp' s' -> image_at R n' f' data (Image size (i_byte x)) us' sp' s'.
Proof.
  intros [I1 I2 I3 I4 I5 I6 I7 I8] Hs St (G1 & G2 & G3) Sp. pose proof (npages_spec (i_size x) ltac:(lia)) as Hn.
  assert (Hold : forall k u, us' !! k = Some u -> (k < npages (i_size x) /\ us !! k = Some u) \/ (npages (i_size x) <= k /\ exists q, u = Upage q 7 zero_page)).
  { intros k u Hk. destruct (Z.lt_ge_cases k (npages (i_size x))) as [Hlt|Hge]; [left; rewrite <- G1 by exact Hlt; auto|right]. split; [exact Hge|].
    destruct (proj1 (G3 k) ltac:(eauto)) as [_ Hk2]. destruct (G2 k ltac:(lia)) as [q Hq]. exists q. congruence. }
  constructor; cbn [i_size i_byte]; [lia|exact G3|apply St|eapply kernel_stays; [exact I4|apply St]|exact Sp| |intros a Ha; apply I7; lia|].
  - intros a Ha. destruct (G3 (vpn a)) as [_ Hu]. destruct Hu as [u Hu]; [split; [apply Z.div_pos; lia|apply vpn_lt; lia]|].
    destruct (Hold _ _ Hu) as [[Hlt Ho]|[Hge [q ->]]].
    + rewrite <- I6 by (split; [lia|apply vpn_lt in Hlt; exact Hlt]). unfold ubyte. rewrite Hu, Ho. reflexivity.
    + rewrite I7; [eapply VmProps.ubyte_zero, Hu|]. pose proof (vpn_lt a (npages (i_size x))). lia.
  - intros k u Hk. destruct (Hold _ _ Hk) as [[_ Ho]|[_ [q ->]]]; [exact (I8 k u Ho)|reflexivity].
Qed.

(** Bytes are written. *)
Lemma image_written R n f data x us sp s va bs us' m' free s' : image_at R n f data x us sp s -> 0 <= va -> va + Z.of_nat (length bs) <= i_size x ->
  overlay va bs us us' -> user_space R us' sp m' -> shows (base.size us + n) s' (PView free m') -> (f <= length free)%nat ->
  image_at R n f data (Image (i_size x) (overlay_bytes va bs (i_byte x))) us' sp s'.
Proof.
  intros [I1 I2 I3 I4 I5 I6 I7 I8] Hva Hend [P O] U Hs Hf. pose proof (same_pages_dom _ _ P) as Hd.
  constructor; cbn [i_size i_byte]; [lia|exact (covers_dom _ _ _ Hd I2)|exact I3|exact I4| | | |].
  - exists free, m'. split; [exact U|]. split; [rewrite <- size_dom, Hd, size_dom; exact Hs|exact Hf].
  - intros a Ha. rewrite O. unfold overlay_bytes. destruct (decide _) as [Hin|_]; [|apply I6, Ha].
    destruct (lookup_lt_is_Some_2 bs (Z.to_nat (a - va)) ltac:(lia)) as [y Hy]. rewrite Hy. f_equal. symmetry. apply list_lookup_total_correct, Hy.
  - intros a Ha. unfold overlay_bytes. rewrite decide_False by lia. apply I7, Ha.
  - intros k u Hk. specialize (P k). rewrite Hk in P. destruct (us !! k) as [w|] eqn:Ew; [|discriminate]. cbn in P. injection P as _ ->. exact (I8 k w Ew).
Qed.

(** ** The state of [exec] *)

Lemma wp_in_pages {A} (m : K S A) (Q : A -> @state S -> Prop) st : wp m (fun a x => Q a (set_pages x st)) (pages st) -> wp (in_pages m) Q st.
Proof. intros (a & x & E & HQ). exists a, (set_pages x st). unfold in_pages. rewrite E. auto. Qed.
Lemma wp_in_disk {A} (m : K Fs.fs A) (Q : A -> @state S -> Prop) st : wp m (fun a x => Q a (set_disk x st)) (disk st) -> wp (in_disk m) Q st.
Proof. intros (a & x & E & HQ). exists a, (set_disk x st). unfold in_disk. rewrite E. auto. Qed.
Lemma wp_in_both {A} (m : K (S * Fs.fs) A) (Q : A -> @state S -> Prop) st : wp m (fun a '(x, y) => Q a (set_disk y (set_pages x st))) (pages st, disk st) -> wp (in_both m) Q st.
Proof. intros (a & [x y] & E & HQ). exists a, (set_disk y (set_pages x st)). unfold in_both. rewrite E. auto. Qed.

Lemma set_pages_pages x y (st : @state S) : set_pages x (set_pages y st) = set_pages x st.
Proof. reflexivity. Qed.

(** ** Loading the segments of a file *)

Section file.
Context (ds : Z) (devread : Z -> option (nat -> Z -> K Fs.fs (option (list Z)))).
Context (d : Fs.fs) (ip : nat) (v : Fs.inode) (R : gmap Z (list Z)) (data : Z).
Hypothesis on_format : FsFacts.formatted ds d.
Hypothesis in_cache : Fs.icache d !! ip = Some v.
Hypothesis is_regular : FsFacts.regular ds d v.
Let c : list Z := FsFacts.content d v.

Lemma file_length : Z.of_nat (length c) = Fs.isize v /\ 0 <= Fs.isize v <= 71680.
Proof. pose proof (FsFacts.rg_size _ _ _ is_regular) as Hs. split; [apply FsFacts.length_content; lia|exact Hs]. Qed.

(** Reading at any offset; beyond the end there is nothing to read. *)
Lemma wp_read off n (Q : option (list Z) -> Fs.fs -> Prop) : is_u32 off -> 0 <= n < 1000000 ->
  Q (if Fs.isize v <? off then None else Some (take (Z.to_nat n) (drop (Z.to_nat off) c))) d -> wp (Fs.readi devread ip off n) Q d.
Proof.
  intros Ho Hn HQ. destruct file_length as [_ Hs]. unfold is_u32 in Ho. destruct (Z.ltb_spec (Fs.isize v) off) as [Hlt|Hle].
  - unfold Fs.readi. apply wp_bind. eapply FsFacts.wp_get_inode; [exact in_cache|]. rewrite (proj2 (Z.eqb_neq _ _) (FsFacts.rg_type _ _ _ is_regular)).
    rewrite (proj2 (Z.ltb_lt _ _) Hlt). cbn [orb]. wp_step. exact HQ.
  - eapply wp_mono; [apply (FsFacts.wp_readi ds devread d ip v off n on_format in_cache is_regular); lia|]. intros r s' [-> ->]. exact HQ.
Qed.

Lemma wp_segment n s free us sp m addr offset sz : shows n s (PView free m) -> user_space R us sp m -> addr mod 4096 = 0 -> 0 <= addr -> 0 <= sz -> addr + sz <= KERNBASE ->
  is_u32 offset -> (forall a, addr <= a < addr + sz -> is_Some (us !! vpn a)) ->
  wp (loaduvm devread (dir sp) addr ip offset sz) (fun ok '(s', d') => d' = d /\ ok = (sz =? 0) || (offset + sz <=? Fs.isize v) /\
    exists bs, written R n free us sp addr bs s' /\ (ok = true -> bs = take (Z.to_nat sz) (drop (Z.to_nat offset) c))) (s, d).
Proof.
  intros Hs U Ha Ha0 Hsz Hend Ho Hus. destruct file_length as [_ Hl]. unfold is_u32 in Ho. unfold KERNBASE in Hend. destruct (Z.eqb_spec sz 0) as [->|Hne].
  - unfold loaduvm, PGSIZE. rewrite Ha. cbn [negb Z.eqb]. change (Z.to_nat (0 / 4096 + 1)) with 1%nat. cbn [loaduvm_loop]. rewrite Z.leb_refl. wp_step. split; [reflexivity|]. split; [reflexivity|]. exists []. split; [eapply written_nil; eassumption|intros _; rewrite take_0; reflexivity].
  - destruct (Z.le_gt_cases offset (Fs.isize v)) as [Hle|Hgt].
    + eapply wp_mono; [apply (wp_loaduvm ds devread d ip v on_format in_cache is_regular R n s free us sp m addr offset sz); try assumption; unfold KERNBASE; lia|].
      intros ok [s' d'] (-> & -> & W). split; [reflexivity|]. split; [reflexivity|]. exists (segment d v offset sz). split; [exact W|reflexivity].
    + unfold loaduvm, PGSIZE. rewrite Ha. cbn [negb Z.eqb]. pose proof (Z.div_pos sz 4096 ltac:(lia) ltac:(lia)) as Hq.
      destruct (Z.to_nat (sz / 4096 + 1)) as [|fuel] eqn:Ef; [lia|]. cbn [loaduvm_loop]. rewrite (proj2 (Z.leb_gt sz 0)) by lia. rewrite !Z.add_0_r, (u32_id addr) by (unfold is_u32; lia).
      destruct (Hus addr ltac:(lia)) as [u Hu]. destruct (user_table _ _ _ _ _ _ U Hu) as [t Ht]. assert (Hau : is_u32 addr) by (unfold is_u32; lia).
      destruct (PDX_spec addr Hau) as [Ed _]. rewrite <- Ed in Ht. pose proof (us_tables _ _ _ _ U) as T.
      apply wp_bind, wp_on_pages. eapply (wp_walk _ _ _ sp m addr false); [exact Hs|exact T|exact Hau|left; reflexivity|]. rewrite Ht. cbn [fmap option_fmap option_map].
      apply wp_bind, wp_on_pages. eapply (wp_ld_pte _ s free sp m addr t); [exact Hs|exact T|exact Hau|exact Ht|]. rewrite (u32_id offset) by exact Ho.
      apply wp_bind, wp_on_disk. apply wp_read; [exact Ho|unfold PGSIZE; destruct (sz - 0 <? 4096) eqn:E; lia|]. rewrite (proj2 (Z.ltb_lt _ _) Hgt). wp_step.
      split; [reflexivity|]. split; [symmetry; apply Z.leb_gt; lia|]. exists []. split; [eapply written_nil; eassumption|discriminate].
Qed.

(** Calls of the allocator that loading [h] segments above [sz] can make. *)
Definition calls (sz : Z) (h : nat) : nat := (Z.to_nat (3 * (KPN - npages sz)) + 2 * h)%nat.

(** The image is [w], or there was too little memory for it. *)
Definition loaded (n f h : nat) (x : image) (sp : aspace) (st : @state S) (w : option image) (r : option Z) (st' : @state S) : Prop :=
  exists s' us' sp', st' = set_pages s' st /\ dir sp' = dir sp /\
  match r with
  | Some sz => exists x' f', w = Some x' /\ sz = i_size x' /\ i_size x <= i_size x' /\ image_at R (calls sz h + n) f' data x' us' sp' s' /\
      (f <= f' + 2 * Z.to_nat (npages sz - npages (i_size x)))%nat
  | None => space_at R n us' sp' s' /\ contig sp' /\ forall x', w = Some x' -> (f <= 2 * Z.to_nat (npages (i_size x') - npages (i_size x)))%nat
  end.

Lemma not_loaded n f h x sp st us' sp' s' w : space_at R n us' sp' s' -> contig sp' -> dir sp' = dir sp -> w = None -> loaded n f h x sp st w None (set_pages s' st).
Proof. intros Sp C E ->. exists s', us', sp'. split; [reflexivity|]. split; [exact E|]. split; [exact Sp|]. split; [exact C|discriminate]. Qed.

Lemma image_space n n' f x us sp s : image_at R n f data x us sp s -> (n' <= n)%nat -> space_at R n' us sp s.
Proof. intros I Hn. eapply space_free_at; [apply (im_space _ _ _ _ _ _ _ _ I)|exact Hn]. Qed.

(** The part of the loop's body after the checks of the header. *)
Lemma wp_place n f h x us sp st ph : image_at R (calls (i_size x) (Datatypes.S h) + n) f data x us sp (pages st) -> disk st = d -> header_ok ph ->
  ph_filesz ph <= ph_memsz ph -> ph_vaddr ph + ph_memsz ph < 4294967296 ->
  wp (sz ← in_pages (allocuvm (dir sp) (i_size x) (ph_vaddr ph + ph_memsz ph));
      if sz =? 0 then mret None
      else if negb (ph_vaddr ph mod PGSIZE =? 0) then mret None
      else ok ← in_both (loaduvm devread (dir sp) (ph_vaddr ph) ip (ph_off ph) (ph_filesz ph)); mret (if ok : bool then Some sz else None))
    (loaded n f h x sp st
      (let top := ph_vaddr ph + ph_memsz ph in
       if KERNBASE <=? top then None
       else if Z.max (i_size x) top =? 0 then None
       else if negb (ph_vaddr ph mod 4096 =? 0) then None
       else if (0 <? ph_filesz ph) && (Z.of_nat (length c) <? ph_off ph + ph_filesz ph) then None
       else Some (Image (Z.max (i_size x) top) (overlay_bytes (ph_vaddr ph) (take (Z.to_nat (ph_filesz ph)) (drop (Z.to_nat (ph_off ph)) c)) (i_byte x))))) st.
Proof.
  intros I Hd (H1 & H2 & H3 & H4) Hfm Htop. unfold is_u32 in *. set (top := ph_vaddr ph + ph_memsz ph) in *. pose proof (im_size _ _ _ _ _ _ _ _ I) as Hx.
  cbv zeta. apply wp_bind, wp_in_pages. destruct (Z.leb_spec KERNBASE top) as [Hk|Hk].
  { unfold allocuvm. rewrite (proj2 (Z.leb_le _ _) Hk). wp_step. cbn [Z.eqb]. wp_step. eapply not_loaded; [eapply image_space; [exact I|lia]|apply I|reflexivity|reflexivity]. }
  set (size := Z.max (i_size x) top). set (r := Z.to_nat (npages top - npages (i_size x))). pose proof (npages_below (i_size x) ltac:(lia)) as Hnx.
  assert (Hnp : npages size = Z.max (npages (i_size x)) (npages top)) by (unfold size; destruct (Z.le_ge_cases (i_size x) top) as [Hl|Hl]; pose proof (npages_mono _ _ Hl); [rewrite !Z.max_r|rewrite !Z.max_l]; lia).
  pose proof (npages_below size ltac:(lia)) as Hns.
  eapply wp_mono; [apply (wp_allocuvm_pages R (calls size h + n) f (pages st) us sp (i_size x) top r eq_refl ltac:(lia) ltac:(lia)); [apply I|apply I|]|].
  { eapply space_free_weaken; [apply (im_space _ _ _ _ _ _ _ _ I)|unfold calls, r; rewrite Hnp in *; lia|lia]. }
  intros sz s1 (us1 & sp1 & St & Hcase).
  assert (Hstep : (sz = 0 /\ space_at R n us1 sp1 s1 /\ (f <= 2 * Z.to_nat (npages size - npages (i_size x)))%nat) \/
    (sz = size /\ exists f1, image_at R (calls size h + n) f1 data (Image size (i_byte x)) us1 sp1 s1 /\ (f <= f1 + 2 * Z.to_nat (npages size - npages (i_size x)))%nat)).
  { destruct Hcase as [(Hs & -> & Hg & Sp)|[(Hlt & _ & -> & -> & Sp)|(-> & -> & Sp & [?|[Hs Hf]])]]; [right|right|lia|left].
    - assert (E : size = top) by lia. split; [lia|]. exists (f - 2 * r)%nat. rewrite E in *. split; [|unfold r; lia]. eapply image_grown; [exact I|lia|exact St|exact Hg|exact Sp].
    - assert (E : size = i_size x) by lia. split; [lia|]. exists f. rewrite E in *. split; [|lia].
      destruct I as [I1 I2 I3 I4 I5 I6 I7 I8]. constructor; try assumption; [apply St|eapply kernel_stays; [exact I4|apply St]].
    - split; [reflexivity|]. split; [|rewrite Hnp; unfold r in Hf; lia]. destruct Sp as (free & m & U & Hs'). exists free, m. split; [exact U|]. eapply law_weaken; [exact Hs'|lia]. }
  clear Hcase. destruct Hstep as [(-> & Sp & Hf)|(-> & f1 & I1 & Hf)].
  - cbn [Z.eqb]. wp_step. exists s1, us1, sp1. split; [reflexivity|]. split; [apply St|]. split; [exact Sp|]. split; [apply St|].
    intros x' Hw. destruct (size =? 0); [discriminate|]. destruct (negb _); [discriminate|]. destruct (_ && _); [discriminate|]. injection Hw as <-. exact Hf.
  - assert (Hbad : forall w, w = None -> loaded n f h x sp st w None (set_pages s1 st))
      by (intros w Hw; eapply not_loaded; [eapply image_space; [exact I1|lia]|apply St|apply St|exact Hw]).
    destruct (Z.eqb_spec size 0) as [E0|E0]; [wp_step; apply Hbad; reflexivity|]. unfold PGSIZE.
    destruct (Z.eqb_spec (ph_vaddr ph mod 4096) 0) as [Ha|Ha]; cbn [negb]; [|wp_step; apply Hbad; reflexivity].
    rewrite <- (st_dir _ _ St). destruct (im_space _ _ _ _ _ _ _ _ I1) as (free & m & U & Hs & Hfree).
    apply wp_bind, wp_in_both. cbn [pages disk set_pages]. rewrite Hd. destruct file_length as [Hl _].
    eapply wp_mono; [apply (wp_segment _ s1 free us1 sp1 m (ph_vaddr ph) (ph_off ph) (ph_filesz ph) Hs U Ha ltac:(lia) ltac:(lia) ltac:(lia) H1)|].
    { intros a Hin. apply (covers_vpn us1 size); [apply (im_covers _ _ _ _ _ _ _ _ I1)|lia]. }
    intros ok [s2 d2] (-> & Eok & bs & (us2 & m2 & U2 & Hs2 & O) & Hbs). rewrite <- Hd. wp_step.
    assert (Ec : (0 <? ph_filesz ph) && (Z.of_nat (length c) <? ph_off ph + ph_filesz ph) = negb ok).
    { rewrite Eok, Hl. destruct (Z.eqb_spec (ph_filesz ph) 0), (Z.leb_spec (ph_off ph + ph_filesz ph) (Fs.isize v)), (Z.ltb_spec 0 (ph_filesz ph)), (Z.ltb_spec (Fs.isize v) (ph_off ph + ph_filesz ph)); try reflexivity; lia. }
    rewrite Ec. replace (set_disk (disk st) (set_pages s2 (set_pages s1 st))) with (set_pages s2 st) by (destruct st; reflexivity). destruct ok; cbn [negb].
    + specialize (Hbs eq_refl). subst bs. set (bs := take _ _) in *. assert (Hlb : Z.of_nat (length bs) <= ph_filesz ph) by (unfold bs; rewrite length_take; lia).
      exists s2, us2, sp1. split; [reflexivity|]. split; [apply St|]. exists (Image size (overlay_bytes (ph_vaddr ph) bs (i_byte x))), f1. split; [reflexivity|]. split; [reflexivity|]. split; [cbn; lia|].
      split; [|exact Hf]. apply (image_written R _ _ data (Image size (i_byte x)) us1 sp1 s1 (ph_vaddr ph) bs us2 m2 free s2 I1); try assumption; cbn [i_size]; lia.
    + eapply not_loaded; [exists free, m2; split; [exact U2|]|apply St|apply St|reflexivity]. eapply law_weaken; [exact Hs2|].
      rewrite <- (size_dom us2), (same_pages_dom _ _ (proj1 O)), size_dom. lia.
Qed.

Lemma header_bytes off : Forall is_byte (take (Z.to_nat PROGHDR) (drop (Z.to_nat off) c)).
Proof. apply Forall_take, Forall_drop. exact (content_bytes ds d v on_format). Qed.

Lemma wp_load_segment n f h x us sp st off : image_at R (calls (i_size x) (Datatypes.S h) + n) f data x us sp (pages st) -> disk st = d -> is_u32 off ->
  wp (load_segment devread (dir sp) ip (i_size x) off) (loaded n f h x sp st (ph ← header c off; add_segment c ph x)) st.
Proof.
  intros I Hd Ho. destruct file_length as [Hl Hs]. unfold is_u32 in Ho. unfold load_segment, header, PROGHDR. apply wp_bind, wp_in_disk. rewrite Hd, u32_id by exact Ho.
  apply wp_read; [exact Ho|lia|].
  assert (Hbad : wp (mret None) (loaded n f h x sp st None) st).
  { wp_step. assert (E : st = set_pages (pages st) st) by (destruct st; reflexivity). rewrite E at 2. eapply not_loaded; [eapply image_space; [exact I|lia]|apply I|reflexivity|reflexivity]. }
  replace (set_disk d st) with st by (rewrite <- Hd; destruct st; reflexivity). destruct (Z.ltb_spec (Fs.isize v) off) as [Hlt|Hle].
  { rewrite (proj2 (Z.ltb_lt _ _)) by lia. exact Hbad. }
  pose proof (header_bytes off) as Hby. unfold PROGHDR in Hby. set (bs := take (Z.to_nat 32) (drop (Z.to_nat off) c)) in *.
  assert (Hlen : Z.of_nat (length bs) = Z.min 32 (Fs.isize v - off)) by (unfold bs; rewrite length_take, length_drop; lia).
  destruct (Z.ltb_spec (Z.of_nat (length c)) (off + 32)) as [Hshort|Hlong]; [rewrite (proj2 (Z.eqb_neq _ _)) by lia; exact Hbad|].
  rewrite (proj2 (Z.eqb_eq _ _)) by lia. cbn [negb mbind option_bind]. pose proof (proghdr_ok bs Hby) as Hok. set (ph := proghdr_of bs) in *. clearbody ph.
  unfold add_segment. cbv zeta. destruct (ph_type ph =? ELF_PROG_LOAD); cbn [negb].
  2: { wp_step. exists (pages st), us, sp. split; [destruct st; reflexivity|]. split; [reflexivity|]. exists x, f. split; [reflexivity|]. split; [reflexivity|]. split; [lia|].
    split; [|lia]. eapply image_weaken; [exact I|unfold calls; lia|lia]. }
  destruct (Z.ltb_spec (ph_memsz ph) (ph_filesz ph)) as [|Hfm]; [exact Hbad|]. destruct Hok as (O1 & O2 & O3 & O4). unfold is_u32 in *.
  destruct (Z.lt_ge_cases (ph_vaddr ph + ph_memsz ph) 4294967296) as [Htop|Htop].
  - rewrite !u32_id by (unfold is_u32; lia). rewrite (proj2 (Z.ltb_ge _ _)) by lia. apply (wp_place n f h x us sp st ph I Hd); [repeat split; lia|lia|lia].
  - assert (E : u32 (ph_vaddr ph + ph_memsz ph) = ph_vaddr ph + ph_memsz ph - 4294967296) by (unfold u32; symmetry; apply (Z.mod_unique_pos _ _ 1); lia).
    rewrite E, (proj2 (Z.ltb_lt _ (ph_vaddr ph))) by lia. rewrite (proj2 (Z.leb_le KERNBASE _)) by (unfold KERNBASE; lia). exact Hbad.
Qed.

Lemma add_segment_mono ph x x' : add_segment c ph x = Some x' -> i_size x <= i_size x'.
Proof.
  unfold add_segment. cbv zeta. destruct (negb (ph_type ph =? _)); [intros [= ->]; lia|]. repeat (destruct (_ : bool); [discriminate|]). intros [= <-]. cbn. lia.
Qed.
Lemma add_segments_mono h : forall off x x', add_segments c h off x = Some x' -> i_size x <= i_size x'.
Proof.
  induction h as [|h IH]; intros off x x'; cbn [add_segments]; [intros [= ->]; lia|]. destruct (header c off) as [ph|]; cbn [mbind option_bind]; [|discriminate].
  destruct (add_segment c ph x) as [x1|] eqn:E; cbn [mbind option_bind]; [|discriminate]. intros E'. apply add_segment_mono in E. apply IH in E'. lia.
Qed.

Lemma wp_load_segments n h : forall f x us sp st off, image_at R (calls (i_size x) h + n) f data x us sp (pages st) -> disk st = d -> is_u32 off ->
  wp (load_segments devread h (dir sp) ip (i_size x) off) (loaded n f 0 x sp st (add_segments c h off x)) st.
Proof.
  induction h as [|h IH]; intros f x us sp st off I Hd Ho; cbn [load_segments add_segments].
  - wp_step. exists (pages st), us, sp. split; [destruct st; reflexivity|]. split; [reflexivity|]. exists x, f. repeat (split; [first [reflexivity|exact I|lia]|]). lia.
  - apply wp_bind. eapply wp_mono; [apply (wp_load_segment n f h x us sp st off I Hd Ho)|]. intros r st1 (s1 & us1 & sp1 & -> & Ed & Hr).
    destruct (header c off) as [ph|] eqn:Eh; cbn [mbind option_bind] in Hr |- *.
    2: { destruct r as [sz|]; [destruct Hr as (x' & f' & Hw & _); discriminate|]. wp_step. eapply not_loaded; [apply Hr|apply Hr|exact Ed|reflexivity]. }
    assert (Hoff : is_u32 (off + PROGHDR)).
    { unfold header in Eh. destruct (Z.ltb_spec (Z.of_nat (length c)) (off + PROGHDR)); [discriminate|]. destruct file_length. unfold is_u32, PROGHDR in *. lia. }
    destruct r as [sz|].
    + destruct Hr as (x1 & f1 & Hw & -> & Hm & I1 & Hf). rewrite Hw. cbn [mbind option_bind]. rewrite <- Ed.
      eapply wp_mono; [apply (IH f1 x1 us1 sp1 (set_pages s1 st) (off + PROGHDR)); [exact I1|exact Hd|exact Hoff]|].
      intros r st2 (s2 & us2 & sp2 & -> & Ed2 & Hr). exists s2, us2, sp2. split; [reflexivity|]. split; [congruence|]. pose proof (npages_mono _ _ Hm) as Hnm. destruct r as [sz|].
      * destruct Hr as (x2 & f2 & Hw2 & -> & Hm2 & I2 & Hf2). pose proof (npages_mono _ _ Hm2). exists x2, f2. split; [exact Hw2|]. split; [reflexivity|]. split; [lia|]. split; [exact I2|]. lia.
      * destruct Hr as (Sp & C & Hf2). split; [exact Sp|]. split; [exact C|]. intros x' Hx'. specialize (Hf2 x' Hx'). apply add_segments_mono in Hx'. pose proof (npages_mono _ _ Hx'). lia.
    + destruct Hr as (Sp & C & Hf). wp_step. exists s1, us1, sp1. split; [reflexivity|]. split; [exact Ed|]. split; [exact Sp|]. split; [exact C|]. intros x' Hx'.
      destruct (add_segment c ph x) as [x1|] eqn:E; cbn [mbind option_bind] in Hx'; [|discriminate]. specialize (Hf x1 eq_refl). apply add_segments_mono in Hx'. apply add_segment_mono in E.
      pose proof (npages_mono _ _ Hx'). pose proof (npages_mono _ _ E). lia.
Qed.

(** ** The header of the file *)

(** What is left of the memory [m] when loading fails, with [F] pages free before: all of it, and nothing
    else in use unless [F] was at most 65, too few for a new directory and its tables, of which [setupkvm]
    then keeps those it could get. *)
Definition given_back (n F : nat) (m : gmap Z (list Z)) (s' : S) : Prop :=
  exists free' m', shows n s' (PView free' m') /\ (m' = m \/ (F <= 65)%nat /\ forall p bs, m !! p = Some bs -> m' !! p = Some bs).

Definition BUDGET (n : nat) : nat := (SETUP + (calls 0 (Z.to_nat 65535) + (2 + (1025 + n))))%nat.

Definition imaged (n F : nat) (st : @state S) (w : option (image * Z)) (r : option (Z * Z * Z)) (st' : @state S) : Prop :=
  exists s', st' = set_pages s' st /\
  match r with
  | Some (dirp, sz, e) => exists x f' us sp, w = Some (x, e) /\ dirp = dir sp /\ sz = i_size x /\
      image_at R (calls sz 0 + (2 + (1025 + n))) f' data x us sp s' /\ (F <= 65 + f' + 2 * Z.to_nat (npages sz))%nat
  | None => given_back n F R s' /\ forall x e, w = Some (x, e) -> (F <= 65 + 2 * Z.to_nat (npages (i_size x)))%nat
  end.

Definition elf_image (elf : elfhdr) : option (image * Z) :=
  if negb (magic elf =? ELF_MAGIC) then None
  else x ← add_segments c (Z.to_nat (phnum elf)) (phoff elf) (Image 0 (fun _ => 0)); Some (x, entry elf).

Lemma first_image n free' sp m' s' : new_dir data R sp m' -> shows n s' (PView free' m') -> image_at R n (length free') data (Image 0 (fun _ => 0)) ∅ sp s'.
Proof.
  intros N Hs. constructor; cbn [i_size i_byte]; [unfold KERNBASE; lia| |eapply new_contig, N|apply N| | |reflexivity|].
  - intros k. rewrite lookup_empty. change (npages 0) with 0. split; [intros [? ?]; discriminate|lia].
  - exists free', m'. split; [apply N|]. split; [rewrite map_size_empty; exact Hs|lia].
  - intros a. change (npages 0) with 0. lia.
  - intros k u. rewrite lookup_empty. discriminate.
Qed.

Lemma wp_load_elf n free st elf : data_ok data -> shows (BUDGET n) (pages st) (PView free R) -> disk st = d -> is_u32 (phoff elf) -> 0 <= phnum elf < 65536 ->
  wp (load_elf devread data ip elf) (imaged n (length free) st (elf_image elf)) st.
Proof.
  intros Hdata Hs Hd Ho Hn. unfold load_elf, elf_image. assert (Hst : st = set_pages (pages st) st) by (destruct st; reflexivity).
  destruct (negb (magic elf =? ELF_MAGIC)).
  { wp_step. exists (pages st). split; [exact Hst|]. split; [|discriminate]. exists free, R. split; [eapply law_weaken; [exact Hs|unfold BUDGET; lia]|auto]. }
  unfold BUDGET in Hs. set (N := (calls 0 (Z.to_nat 65535) + (2 + (1025 + n)))%nat) in *.
  apply wp_bind, wp_in_pages. eapply wp_mono; [apply (wp_setupkvm data N _ free R Hdata Hs)|].
  intros r s1 [(sp & free1 & m1 & -> & Hnz & Nd & Hs1 & Hf1)|(-> & Hf & m1 & Hs1 & Hkeep)].
  2: { cbn [Z.eqb]. wp_step. exists s1. split; [reflexivity|]. split; [|intros; lia]. exists [], m1. split; [eapply law_weaken; [exact Hs1|unfold N; lia]|auto]. }
  rewrite (proj2 (Z.eqb_neq _ _) Hnz). apply wp_bind. pose proof (first_image _ _ _ _ _ Nd Hs1) as I0.
  eapply wp_mono; [apply (wp_load_segments (2 + (1025 + n)) (Z.to_nat (phnum elf)) (length free1) (Image 0 (fun _ => 0)) ∅ sp (set_pages s1 st) (phoff elf)); [|exact Hd|exact Ho]|].
  { eapply image_weaken; [exact I0|unfold N, calls; cbn [i_size]; lia|lia]. }
  intros r st2 (s2 & us2 & sp2 & -> & Ed & Hr). rewrite set_pages_pages. cbn [i_size] in Hr. change (npages 0) with 0 in Hr. destruct r as [sz|].
  - destruct Hr as (x & f' & Hw & -> & Hm & I2 & Hf). wp_step. exists s2. split; [reflexivity|]. exists x, f', us2, sp2. rewrite Hw. split; [reflexivity|].
    split; [symmetry; exact Ed|]. split; [reflexivity|]. split; [exact I2|]. rewrite Z.sub_0_r in Hf. lia.
  - destruct Hr as (Sp & C & Hf). rewrite <- Ed. apply wp_bind, wp_in_pages.
    assert (Sp' : space_at R (1025 + n) us2 sp2 s2) by (destruct Sp as (fr & mm & U & Hss); exists fr, mm; split; [exact U|eapply law_weaken; [exact Hss|lia]]).
    eapply wp_mono; [apply (wp_freevm R n us2 sp2 s2 Sp' C)|]. intros [] s3 (free3 & Hs3). wp_step. exists s3. split; [reflexivity|].
    split; [exists free3, R; auto|]. intros x e Hx. destruct (add_segments _ _ _ _) as [x'|]; cbn [mbind option_bind] in Hx; [|discriminate]. injection Hx as <- _.
    specialize (Hf x' eq_refl). rewrite Z.sub_0_r in Hf. lia.
Qed.

Lemma wp_load_image junk n free st : data_ok data -> shows (BUDGET n) (pages st) (PView free R) -> disk st = d ->
  wp (load_image devread data junk ip) (imaged n (length free) st (file_image c)) st.
Proof.
  intros Hdata Hs Hd. destruct file_length as [Hl Hsz]. unfold load_image, file_image, ELFHDR. apply wp_bind, wp_in_disk. rewrite Hd. apply wp_read; [split; lia|lia|].
  rewrite (proj2 (Z.ltb_ge (Fs.isize v) 0)) by lia. replace (set_disk d st) with st by (rewrite <- Hd; destruct st; reflexivity). change (Z.to_nat 0) with O. rewrite drop_0.
  assert (Hlen : Z.of_nat (length (take (Z.to_nat 52) c)) = Z.min 52 (Fs.isize v)) by (rewrite length_take; lia).
  destruct (Z.ltb_spec (Z.of_nat (length c)) 52) as [Hs1|Hs1].
  - rewrite (proj2 (Z.ltb_lt _ _)) by lia. wp_step. exists (pages st). split; [destruct st; reflexivity|]. split; [|discriminate]. exists free, R.
    split; [eapply law_weaken; [exact Hs|unfold BUDGET; lia]|auto].
  - rewrite (proj2 (Z.ltb_ge _ _)) by lia. assert (Hb : Forall is_byte (take (Z.to_nat 52) c)) by (apply Forall_take; exact (content_bytes ds d v on_format)).
    apply wp_load_elf; try assumption.
    + apply (field_bound _ 28 4 Hb).
    + apply (field_bound _ 44 2 Hb).
Qed.
End file.

(** ** The stack *)

(** The address space of a program with its stack: the page below that of the stack is not for the
    user. *)
Record stack_at (R : gmap Z (list Z)) (n : nat) (data : Z) (x : image) (us : gmap Z upage) (sp : aspace) (s : S) : Prop := {
  sk_size : 8192 <= i_size x < KERNBASE /\ i_size x mod 4096 = 0;
  sk_covers : covers us (npages (i_size x));
  sk_contig : contig sp;
  sk_kernel : kernel_part data sp;
  sk_space : space_at R n us sp s;
  sk_bytes : forall a, 0 <= a < i_size x -> ubyte us a = Some (i_byte x a);
  sk_access : forall a, 0 <= a < i_size x -> accessible us a = negb (bool_decide (i_size x - 8192 <= a < i_size x - 4096));
}.

Lemma stack_write R n data x us sp s va bs us' m' free s' : stack_at R n data x us sp s -> 0 <= va -> va + Z.of_nat (length bs) <= i_size x ->
  overlay va bs us us' -> user_space R us' sp m' -> shows (base.size us + n) s' (PView free m') ->
  stack_at R n data (Image (i_size x) (overlay_bytes va bs (i_byte x))) us' sp s'.
Proof.
  intros [I1 I2 I3 I4 I5 I6 I7] Hva Hend [P O] U Hs. pose proof (same_pages_dom _ _ P) as Hd.
  constructor; cbn [i_size i_byte]; [exact I1|exact (covers_dom _ _ _ Hd I2)|exact I3|exact I4| | |].
  - exists free, m'. split; [exact U|]. rewrite <- size_dom, Hd, size_dom. exact Hs.
  - intros a Ha. rewrite O. unfold overlay_bytes. destruct (decide _) as [Hin|_]; [|apply I6, Ha].
    destruct (lookup_lt_is_Some_2 bs (Z.to_nat (a - va)) ltac:(lia)) as [y Hy]. rewrite Hy. f_equal. symmetry. apply list_lookup_total_correct, Hy.
  - intros a Ha. rewrite (same_accessible _ _ _ P). apply I7, Ha.
Qed.

(** Copying to the stack: it works in the stack's page and not in the one below. *)
Lemma wp_push R n data x us sp s va bs : stack_at R n data x us sp s -> i_size x - 8192 <= va -> va + Z.of_nat (length bs) <= i_size x -> bs <> [] ->
  wp (copyout (dir sp) va bs) (fun ok s' => exists us', ok = (i_size x - 4096 <=? va) /\ space_at R n us' sp s' /\
    (ok = true -> stack_at R n data (Image (i_size x) (overlay_bytes va bs (i_byte x))) us' sp s')) s.
Proof.
  intros I Hva Hend Hne. destruct (sk_space _ _ _ _ _ _ _ I) as (free & m & U & Hs). destruct (sk_size _ _ _ _ _ _ _ I) as [Hx _]. unfold KERNBASE in Hx.
  eapply wp_mono; [apply (wp_copyout _ s free R us sp m va bs Hs U ltac:(lia) ltac:(unfold KERNBASE; lia))|].
  { intros a Ha. destruct (covers_vpn us (i_size x) a (sk_covers _ _ _ _ _ _ _ I) ltac:(lia)) as [u Hu]. exact (user_table _ _ _ _ _ _ U Hu). }
  intros ok s' (k & [B1 B2 B3 (us' & m' & U' & Hs' & O)]). assert (Hl : 0 < Z.of_nat (length bs)) by (destruct bs; [congruence|cbn; lia]).
  assert (Eok : ok = (i_size x - 4096 <=? va)).
  { destruct (Z.leb_spec (i_size x - 4096) va) as [Hin|Hout]; destruct ok; try reflexivity; exfalso.
    - destruct B2 as [B2 B2']. rewrite (sk_access _ _ _ _ _ _ _ I) in B2' by lia. rewrite bool_decide_eq_false_2 in B2' by lia. discriminate.
    - specialize (B3 0 ltac:(lia)). rewrite (sk_access _ _ _ _ _ _ _ I) in B3 by lia. rewrite bool_decide_eq_true_2 in B3 by lia. discriminate. }
  exists us'. split; [exact Eok|]. split.
  - exists free, m'. split; [exact U'|]. rewrite <- size_dom, (same_pages_dom _ _ (proj1 O)), size_dom. exact Hs'.
  - intros ->. rewrite B2, Nat2Z.id, firstn_all in O. eapply stack_write; [exact I|lia|exact Hend|exact O|exact U'|exact Hs'].
Qed.

Lemma land_align a : Z.land a (Z.lnot 3) = a - a mod 4.
Proof.
  change 3 with (Z.ones 2). rewrite <- Z.ldiff_land, Z.ldiff_ones_r, Z.shiftr_div_pow2, Z.shiftl_mul_pow2 by lia. change (2 ^ 2) with 4. pose proof (Z.div_mod a 4). lia.
Qed.

Lemma wp_push_args R n data top sp argv : forall g us (st : @state S) sv argc ptrs, stack_at R n data (Image top g) us sp (pages st) -> top - 4096 <= sv <= top ->
  Forall (fun a => Z.of_nat (length a) < 4096) argv ->
  wp (push_args (dir sp) sv argc argv ptrs) (fun r st' => exists s' us', st' = set_pages s' st /\ space_at R n us' sp s' /\
    match r with
    | Some (sv', ptrs') => (argv = [] \/ argc + Z.of_nat (length argv) <= MAXARG) /\ exists g', add_args (top - 4096) argv sv ptrs g = Some (sv', ptrs', g') /\
        top - 4096 <= sv' <= top /\ stack_at R n data (Image top g') us' sp s'
    | None => MAXARG < argc + Z.of_nat (length argv) \/ add_args (top - 4096) argv sv ptrs g = None
    end) st.
Proof.
  induction argv as [|arg argv IH]; intros g us st sv argc ptrs I Hsv Ha; cbn [push_args add_args].
  - wp_step. exists (pages st), us. split; [destruct st; reflexivity|]. split; [apply I|]. split; [auto|]. exists g. auto.
  - apply Forall_cons in Ha as [Ha Has]. cbn [length]. destruct (sk_size _ _ _ _ _ _ _ I) as [Htop Hmod]. cbn [i_size] in Htop, Hmod. unfold KERNBASE in Htop.
    destruct (Z.leb_spec MAXARG argc) as [Hmax|Hmax].
    { wp_step. exists (pages st), us. split; [destruct st; reflexivity|]. split; [apply I|]. left. lia. }
    rewrite u32_id by (unfold is_u32; lia). rewrite land_align. fold (below sv arg). set (a := sv - (Z.of_nat (length arg) + 1)) in *.
    assert (Hb : top - 8192 <= below sv arg <= a).
    { unfold below. fold a. pose proof (Z.mod_pos_bound a 4). pose proof (Z.div_mod a 4 ltac:(lia)). pose proof (Z.div_mod top 4096 ltac:(lia)). lia. }
    apply wp_bind, wp_in_pages. eapply wp_mono; [apply (wp_push R n data (Image top g) us sp (pages st) (below sv arg) (arg ++ [0]) I); cbn [i_size]|].
    + lia.
    + rewrite length_app. cbn [length]. lia.
    + destruct arg; discriminate.
    + intros ok s1 (us1 & -> & Sp & I1). cbn [i_size i_byte] in I1 |- *. destruct (Z.leb_spec (top - 4096) (below sv arg)) as [Hin|Hout]; cbn [negb].
      * rewrite (proj2 (Z.ltb_ge _ _)) by exact Hin. specialize (I1 eq_refl).
        eapply wp_mono; [apply (IH _ us1 (set_pages s1 st) (below sv arg) (argc + 1) (ptrs ++ [below sv arg]) I1 ltac:(lia) Has)|].
        intros r st2 (s2 & us2 & -> & Sp2 & Hr). exists s2, us2. split; [reflexivity|]. split; [exact Sp2|]. destruct r as [[sv' ptrs']|].
        -- destruct Hr as [Hc Hr]. split; [|exact Hr]. right. destruct Hc as [->|Hc]; cbn [length]; lia.
        -- destruct Hr as [Hr|Hr]; [left; lia|right; exact Hr].
      * rewrite (proj2 (Z.ltb_lt _ _)) by exact Hout. wp_step. exists s1, us1. auto.
Qed.

(** The page below that of the stack is taken from the user. *)
Lemma stack_guard R n f data np g us sp s us' sp' m' free s' u : image_at R n f data (Image (4096 * np + 8192) g) us sp s -> us !! np = Some u -> 0 <= np ->
  user_space R (<[np := Upage (u_page u) (Z.land (u_flags u) (Z.lnot 4)) (u_bytes u)]> us) sp' m' -> shows (base.size us + n) s' (PView free m') ->
  tables sp' = tables sp -> same_kernel sp sp' -> us' = <[np := Upage (u_page u) (Z.land (u_flags u) (Z.lnot 4)) (u_bytes u)]> us ->
  stack_at R n data (Image (4096 * np + 8192) g) us' sp' s'.
Proof.
  intros [I1 I2 I3 I4 I5 I6 I7 I8] Hu Hnp U Hs Et K ->. cbn [i_size i_byte] in *. rewrite (I8 _ _ Hu) in *. change (Z.land 7 (Z.lnot 4)) with 3 in *.
  assert (Hd : dom (<[np := Upage (u_page u) 3 (u_bytes u)]> us) = dom us) by (apply dom_insert_lookup_L; eauto).
  pose proof (npages_stack np) as Hn.
  constructor; cbn [i_size i_byte].
  - split; [lia|]. replace (4096 * np + 8192) with ((np + 2) * 4096) by lia. apply Z_mod_mult.
  - exact (covers_dom _ _ _ Hd I2).
  - unfold contig. rewrite Et. exact I3.
  - eapply kernel_stays; eassumption.
  - exists free, m'. split; [exact U|]. rewrite <- size_dom, Hd, size_dom. exact Hs.
  - intros a Ha. rewrite <- I6 by lia. unfold ubyte. destruct (decide (vpn a = np)) as [->|Hne]; [rewrite lookup_insert_eq, Hu; reflexivity|rewrite lookup_insert_ne by congruence; reflexivity].
  - intros a Ha. unfold accessible. pose proof (vpn_lt a np) as V1. pose proof (vpn_lt a (np + 1)) as V2. destruct (decide (vpn a = np)) as [E|Hne].
    + rewrite E, lookup_insert_eq, bool_decide_eq_true_2 by lia. reflexivity.
    + rewrite lookup_insert_ne by congruence. destruct (covers_vpn us _ a I2 Ha) as [w Hw]. rewrite Hw, (I8 _ _ Hw), bool_decide_eq_false_2 by lia. reflexivity.
Qed.

Lemma length_args floor argv : forall sv ptrs g sv' ptrs' g', add_args floor argv sv ptrs g = Some (sv', ptrs', g') -> (length ptrs' = length ptrs + length argv)%nat.
Proof.
  induction argv as [|a argv IH]; intros sv ptrs g sv' ptrs' g'; cbn [add_args]; [intros [= <- <- <-]; cbn; lia|]. destruct (_ <? _); [discriminate|].
  intros E. apply IH in E. rewrite length_app in E. cbn [length] in *. lia.
Qed.

Lemma length_word_bytes ws : length (concat (le_bytes 4 <$> ws)) = (4 * length ws)%nat.
Proof. induction ws as [|w ws IH]; [reflexivity|]. cbn [fmap list_fmap concat]. rewrite length_app, length_le_bytes, IH. cbn [length]. lia. Qed.

Lemma wp_main R n data top g us sp (st : @state S) argv : stack_at R n data (Image top g) us sp (pages st) -> Forall (fun a => Z.of_nat (length a) < 4096) argv ->
  wp (r ← push_args (dir sp) top 0 argv [];
      match r with
      | None => mret None
      | Some (sv, strings) =>
          let argc := Z.of_nat (length argv) in
          let ustack := [0xffffffff; argc; u32 (sv - (argc + 1) * 4)] ++ strings ++ [0] in
          let sv := u32 (sv - (3 + argc + 1) * 4) in
          ok ← in_pages (copyout (dir sp) sv (concat (le_bytes 4 <$> ustack)));
          mret (if ok : bool then Some (top, sv) else None)
      end)
    (fun r st' => exists s' us', st' = set_pages s' st /\ space_at R n us' sp s' /\
      match r with
      | Some (sz, sv) => exists x, add_main top g argv = Some (x, sv) /\ sz = i_size x /\ stack_at R n data x us' sp s'
      | None => add_main top g argv = None
      end) st.
Proof.
  intros I Ha. destruct (sk_size _ _ _ _ _ _ _ I) as [Htop Hmod]. cbn [i_size] in Htop, Hmod. unfold KERNBASE in Htop. apply wp_bind. unfold add_main, MAXARG.
  eapply wp_mono; [apply (wp_push_args R n data top sp argv g us st top 0 [] I ltac:(lia) Ha)|]. intros r st1 (s1 & us1 & -> & Sp & Hr). cbv zeta. set (argc := Z.of_nat (length argv)) in *.
  destruct r as [[sv ptrs]|].
  - destruct Hr as [Hc (g1 & Ea & Hsv & I1)]. assert (Hmax : argc <= 32) by (destruct Hc as [E|Hc]; [unfold argc; rewrite E; cbn; lia|unfold MAXARG in Hc; lia]). rewrite (proj2 (Z.ltb_ge _ _)) by lia.
    rewrite Ea. cbn [mbind option_bind]. pose proof (length_args _ _ _ _ _ _ _ _ Ea) as Hlp. cbn [length Nat.add] in Hlp.
    rewrite !u32_id by (unfold is_u32; lia). replace ((argc + 1) * 4) with (4 * (argc + 1)) by lia. replace ((3 + argc + 1) * 4) with (4 * (argc + 4)) by lia.
    set (words := [4294967295; argc; sv - 4 * (argc + 1)] ++ ptrs ++ [0]). assert (Hlw : Z.of_nat (length (concat (le_bytes 4 <$> words))) = 4 * (argc + 4)).
    { rewrite length_word_bytes. unfold words. rewrite !length_app, Hlp. cbn [length]. unfold argc. lia. }
    apply wp_bind, wp_in_pages. eapply wp_mono; [apply (wp_push R n data (Image top g1) us1 sp _ (sv - 4 * (argc + 4)) (concat (le_bytes 4 <$> words)) I1); cbn [i_size]; try lia|].
    + intros E. rewrite E in Hlw. cbn in Hlw. lia.
    + cbn [i_size i_byte]. intros ok s2 (us2 & -> & Sp2 & I2). wp_step. exists s2, us2. split; [reflexivity|]. split; [exact Sp2|].
      destruct (Z.leb_spec (top - 4096) (sv - 4 * (argc + 4))); destruct (Z.ltb_spec (sv - 4 * (argc + 4)) (top - 4096)); try lia; [|reflexivity].
      eexists. split; [reflexivity|]. split; [reflexivity|]. exact (I2 eq_refl).
  - wp_step. exists s1, us1. split; [reflexivity|]. split; [exact Sp|]. destruct Hr as [Hr|Hr]; [rewrite (proj2 (Z.ltb_lt _ _)) by (unfold MAXARG in Hr; lia); reflexivity|].
    destruct (32 <? argc); [reflexivity|]. rewrite Hr. reflexivity.
Qed.

(** The process gets the image with its stack, or there was too little memory for the stack. *)
Definition stacked (R : gmap Z (list Z)) (data : Z) (n f : nat) (sp : aspace) (st : @state S) (w : option (image * Z)) (r : option (Z * Z)) (st' : @state S) : Prop :=
  exists s' us' sp', st' = set_pages s' st /\ dir sp' = dir sp /\ contig sp' /\ space_at R n us' sp' s' /\
  match r with
  | Some (sz, sv) => exists x, w = Some (x, sv) /\ sz = i_size x /\ stack_at R n data x us' sp' s'
  | None => w = None \/ (f <= 4)%nat
  end.

Lemma wp_build_stack R data n f x us sp (st : @state S) argv : image_at R (calls (i_size x) 0 + (2 + n)) f data x us sp (pages st) ->
  Forall (fun a => Z.of_nat (length a) < 4096) argv ->
  wp (build_stack (dir sp) (i_size x) argv) (stacked R data n f sp st (add_stack x argv)) st.
Proof.
  intros I Ha. pose proof (im_size _ _ _ _ _ _ _ _ I) as Hx. pose proof (npages_below (i_size x) ltac:(lia)) as Hnp. unfold KERNBASE, KPN in Hx, Hnp.
  unfold build_stack, add_stack. rewrite roundup_pages by lia. fold (npages (i_size x)). set (np := npages (i_size x)) in *. unfold PGSIZE. change (2 * 4096) with 8192.
  rewrite u32_id by (unfold is_u32; lia). set (top := 4096 * np + 8192).
  assert (Hn1 : npages (4096 * np) = np) by (unfold npages; replace (4096 * np + 4095) with (4095 + np * 4096) by lia; rewrite Z.div_add by lia; reflexivity).
  pose proof (npages_stack np : npages top = np + 2) as Hn2.
  apply wp_bind, wp_in_pages. destruct (Z.leb_spec KERNBASE top) as [Hk|Hk].
  { unfold allocuvm. rewrite (proj2 (Z.leb_le _ _) Hk). wp_step. cbn [Z.eqb]. wp_step. exists (pages st), us, sp. split; [reflexivity|]. split; [reflexivity|]. split; [apply I|].
    split; [eapply image_space; [exact I|lia]|auto]. }
  eapply wp_mono; [apply (wp_allocuvm_pages R n f (pages st) us sp (4096 * np) top 2); unfold KERNBASE in *; rewrite ?Hn1, ?Hn2; try lia; try apply I|].
  { eapply space_free_weaken; [apply (im_space _ _ _ _ _ _ _ _ I)|unfold calls, KPN; fold np; lia|lia]. }
  intros sz s1 (us1 & sp1 & St & [(_ & -> & Hg & Sp)|[(Hlt & _)|(-> & -> & Sp & [?|[_ Hf]])]]); [|unfold top in *; lia|lia|].
  2: { cbn [Z.eqb]. wp_step. exists s1, us, sp1. split; [reflexivity|]. split; [apply St|]. split; [apply St|]. split; [exact Sp|right; exact Hf]. }
  rewrite (proj2 (Z.eqb_neq _ _)) by (unfold top; lia). rewrite Hn1 in Hg. rewrite (u32_id (top - 8192)) by (unfold is_u32; lia). replace (top - 8192) with (4096 * np) by (unfold top; lia).
  pose proof (npages_spec (i_size x) ltac:(lia)) as Hsp. fold np in Hsp.
  assert (I1 : image_at R n (f - 2 * 2) data (Image top (i_byte x)) us1 sp1 s1) by (eapply image_grown; [exact I|unfold top; lia|exact St|exact Hg|exact Sp]).
  destruct (proj2 (proj2 Hg) np) as [_ Hc]. destruct Hc as [u Hu]; [lia|]. assert (Evp : vpn (4096 * np) = np) by (unfold vpn; rewrite Z.mul_comm, Z.div_mul; lia).
  destruct (im_space _ _ _ _ _ _ _ _ I1) as (free1 & m1 & U1 & Hs1 & _). rewrite <- (st_dir _ _ St). apply wp_bind, wp_in_pages.
  eapply wp_mono; [apply (wp_clearpteu _ s1 free1 R us1 sp1 m1 (4096 * np) u Hs1 U1 ltac:(unfold top, KERNBASE in *; lia)); rewrite Evp; exact Hu|]. rewrite Evp.
  intros [] s2 (sp2 & m2 & U2 & Hs2 & Ed2 & Et2 & K2). pose proof (stack_guard R n _ data np (i_byte x) us1 sp1 s1 _ sp2 m2 free1 s2 u I1 Hu ltac:(lia) U2 Hs2 Et2 K2 eq_refl) as I2. fold top in I2.
  set (us2 := <[np := _]> us1) in *. clearbody us2. rewrite <- Ed2.
  eapply wp_mono; [apply (wp_main R n data top (i_byte x) us2 sp2 (set_pages s2 (set_pages s1 st)) argv I2 Ha)|].
  intros r st3 (s3 & us3 & -> & Sp3 & Hr). exists s3, us3, sp2. split; [reflexivity|]. split; [rewrite Ed2; apply St|].
  split; [unfold contig; rewrite Et2; apply St|]. split; [exact Sp3|]. destruct r as [[sz sv]|]; [exact Hr|left; exact Hr].
Qed.

(** ** Two address spaces *)

Definition own (us : gmap Z upage) (sp : aspace) : gset Z := {[dir sp]} ∪ map_img (tables sp) ∪ map_img (u_page <$> us).

Lemma elem_of_own us sp p : p ∈ own us sp <-> p = dir sp \/ (exists i, tables sp !! i = Some p) \/ exists k u, us !! k = Some u /\ u_page u = p.
Proof.
  unfold own. rewrite !elem_of_union, elem_of_singleton, !elem_of_map_img. setoid_rewrite lookup_fmap_Some. split.
  - intros [[H0|H0]|(k & u & E & Hu)]; [left; exact H0|right; left; exact H0|right; right; exists k, u; auto].
  - intros [H0|[H0|(k & u & Hu & E)]]; [left; left; exact H0|left; right; exact H0|right; exists k, u; auto].
Qed.

Lemma own_mem R us sp m p : user_space R us sp m -> p ∈ own us sp -> is_Some (m !! p) /\ R !! p = None.
Proof.
  intros U Hp. pose proof (us_tables _ _ _ _ U) as T. destruct (us_fresh _ _ _ _ U) as (F1 & F2 & F3). apply elem_of_own in Hp as [->|[[i Hi]|(k & u & Hu & <-)]].
  - destruct (tb_dir _ _ T) as (bs & Hbs & _). split; [eauto|exact F1].
  - destruct (tb_table _ _ T i p Hi) as (_ & _ & bs & Hbs & _). split; [eauto|exact (F2 i p Hi)].
  - split; [exists (u_bytes u); exact (us_page _ _ _ _ U k u Hu)|exact (F3 k u Hu)].
Qed.

(** A space made beside another one can be seen without it. *)
Lemma spaces_swap R uso spo m us sp m' : user_space R uso spo m -> user_space m us sp m' ->
  exists R1, user_space R1 uso spo m' /\ user_space R us sp R1.
Proof.
  intros U V. set (R1 := filter (fun e => e.1 ∉ own uso spo) m'). assert (Hin : forall p, p ∈ own uso spo -> R1 !! p = None).
  { intros p Hp. apply map_lookup_filter_None. right. intros bs _ Hn. exact (Hn Hp). }
  assert (Hout : forall p, p ∉ own uso spo -> R1 !! p = m' !! p).
  { intros p Hp. unfold R1. rewrite map_lookup_filter. destruct (m' !! p) as [bs|]; [|reflexivity]. cbn. rewrite option_guard_True by exact Hp. reflexivity. }
  assert (Hnew : forall p, p ∈ own us sp -> R1 !! p = m' !! p /\ R !! p = None).
  { intros p Hp. destruct (own_mem _ _ _ _ p V Hp) as [_ Hm]. split.
    - apply Hout. intros Ho. destruct (own_mem _ _ _ _ p U Ho) as [[bs Hbs] _]. congruence.
    - destruct (R !! p) as [bs|] eqn:E; [|reflexivity]. rewrite (user_keeps _ _ _ _ _ _ U E) in Hm. discriminate. }
  exists R1. split.
  - constructor; try apply U.
    + exact (parent_tables _ _ _ _ _ _ _ U V).
    + intros k u Hu. exact (parent_page _ _ _ _ _ _ _ _ _ U V Hu).
    + intros p H1 H2 H3. symmetry. apply Hout. rewrite elem_of_own. intros [->|[[i Hi]|(k & u & Hu & E)]]; [congruence|exact (H2 i Hi)|exact (H3 k u Hu E)].
    + split; [|split]; intros; apply Hin, elem_of_own; eauto 6.
  - constructor; try apply V.
    + eapply tables_ok_frame; [apply (us_tables _ _ _ _ V)| |].
      * apply (Hnew (dir sp)). apply elem_of_own. auto.
      * intros i t Hi. apply (Hnew t). apply elem_of_own. eauto.
    + intros k u Hu. rewrite (proj1 (Hnew (u_page u) ltac:(apply elem_of_own; eauto 6))). exact (us_page _ _ _ _ V k u Hu).
    + intros p H1 H2 H3. destruct (decide (p ∈ own uso spo)) as [Ho|Ho].
      * rewrite (Hin p Ho). symmetry. apply (own_mem _ _ _ _ p U Ho).
      * rewrite (Hout p Ho), (us_frame _ _ _ _ V p H1 H2 H3). rewrite elem_of_own in Ho. apply (us_frame _ _ _ _ U p).
        -- intros E. apply Ho. auto.
        -- intros i Hi. apply Ho. eauto.
        -- intros k u Hu E. apply Ho. eauto 6.
    + split; [|split]; intros; apply Hnew, elem_of_own; eauto 6.
Qed.

(** ** The whole call *)

(** The process [p] has the image [x] in an address space of its own beside the memory [R]. *)
Definition running (R : gmap Z (list Z)) (n : nat) (data : Z) (x : image) (p : process) (s : S) : Prop :=
  exists free m us sp, shows n s (PView free m) /\ user_space R us sp m /\ contig sp /\ kernel_part data sp /\ covers us (npages (i_size x)) /\
    pgdir p = dir sp /\ sz p = i_size x /\ (forall a, 0 <= a < i_size x -> peek m (pgdir p) a = Some (i_byte x a)) /\
    (forall a, 0 <= a < i_size x -> accessible us a = negb (bool_decide (i_size x - 8192 <= a < i_size x - 4096))).

(** The end of [exec]: the process changes to the new space and the old one is freed. *)
Lemma wp_replace R uso spo m n data x us sp (st : @state S) p' : user_space R uso spo m -> contig spo -> stack_at m (1025 + (base.size uso + n)) data x us sp (pages st) ->
  pgdir p' = dir sp -> sz p' = i_size x ->
  wp (modify (set_proc p') ;; switchuvm ;; in_pages (freevm (dir spo)) ;; mret 0)
    (fun r st' => r = 0 /\ exists s', st' = set_pages s' (set_cr3 (V2P (dir sp)) (set_proc p' st)) /\ running R n data x p' s') st.
Proof.
  intros U C [[I1 _] I2 I3 I4 (free & m' & V & Hs) I6 I7] Ed Es. apply wp_bind, wp_modify. unfold switchuvm. apply wp_bind, wp_bind. wp_step. cbn [proc set_proc]. rewrite Ed.
  rewrite (page_nonzero _ (dir_addr _ _ _ _ _ Hs (us_tables _ _ _ _ V))). apply wp_modify. apply wp_bind, wp_in_pages. cbn [pages set_cr3 set_proc].
  destruct (spaces_swap _ _ _ _ _ _ _ U V) as (R1 & U1 & V1).
  eapply wp_mono; [apply (wp_freevm R1 n uso spo (pages st)); [exists free, m'; split; [exact U1|eapply law_weaken; [exact Hs|lia]]|exact C]|].
  intros [] s' (free' & Hs'). wp_step. split; [reflexivity|]. exists s'. split; [reflexivity|]. exists free', R1, us, sp.
  repeat (split; [assumption|]). split; [|exact I7]. intros a Ha. rewrite Ed, (peek_user _ _ _ _ _ _ _ _ Hs' V1) by (unfold KERNBASE in *; lia). apply I6, Ha.
Qed.

Lemma add_stack_size x argv y sv : add_stack x argv = Some (y, sv) -> i_size y = 4096 * npages (i_size x) + 8192.
Proof.
  unfold add_stack, add_main. cbv zeta. destruct (_ <=? _); [discriminate|]. destruct (_ <? _); [discriminate|]. destruct (add_args _ _ _ _ _) as [[[sv' ptrs] g]|]; cbn [mbind option_bind]; [|discriminate].
  destruct (_ <? _); [discriminate|]. intros [= <- _]. reflexivity.
Qed.

Section call.
Context (ds : Z) (devread : Z -> option (nat -> Z -> K Fs.fs (option (list Z)))) (data : Z) (junk : list Z).
Import CacheFacts NameiFacts.

(** The image, entry and stack pointer that [path] and [argv] ask for. *)
Definition plan (d : Fs.fs) (cwd : Fs.inode) (path : list Z) (argv : list (list Z)) : option (image * Z * Z) :=
  '(i, _) ← walk_path false d (start cwd path) (DirFacts.elements path);
  '(x, e) ← file_image (FsFacts.content d (disk_inode d i));
  '(y, sv) ← add_stack x argv;
  Some (y, e, sv).

(** [exec] has failed: the process and the memory in use are as before. *)
Record refused (n F : nat) (m : gmap Z (list Z)) (st : @state S) (w : option (image * Z * Z)) (st' : @state S) : Prop := {
  xr_proc : proc st' = proc st;
  xr_cr3 : cr3 st' = cr3 st;
  xr_pages : given_back n F m (pages st');
  xr_reason : forall y e sv, w = Some (y, e, sv) -> (F <= 65 + 2 * Z.to_nat (npages (i_size y)))%nat;
}.
Record replaced (R : gmap Z (list Z)) (n : nat) (path : list Z) (st : @state S) (w : option (image * Z * Z)) (st' : @state S) : Prop := {
  xp_plan : exists y, w = Some (y, eip (proc st'), esp (proc st')) /\ running R n data y (proc st') (pages st');
  xp_name : name (proc st') = safe_name (last_element path) (name (proc st));
  xp_cwd : cwd (proc st') = cwd (proc st);
  xp_cr3 : cr3 st' = V2P (pgdir (proc st'));
}.

(** The part of [exec] after the file has been closed. *)
Lemma wp_finish R uso spo m n F f x e us sp (st : @state S) path argv w : user_space R uso spo m -> contig spo -> pgdir (proc st) = dir spo ->
  image_at m (calls (i_size x) 0 + (2 + (1025 + (base.size uso + n)))) f data x us sp (pages st) -> (F <= 65 + f + 2 * Z.to_nat (npages (i_size x)))%nat ->
  Forall (fun a => Z.of_nat (length a) < 4096) argv -> w = ('(y, sv) ← add_stack x argv; Some (y, e, sv)) ->
  wp (r ← build_stack (dir sp) (i_size x) argv;
      match r with
      | None => in_pages (freevm (dir sp)) ;; mret (-1)
      | Some (sz, sv) =>
          p ← gets proc;
          let oldpgdir := pgdir p in
          modify (set_proc (Process (safe_name (last_element path) (name p)) (cwd p) (dir sp) sz e sv)) ;;
          switchuvm ;;
          in_pages (freevm oldpgdir) ;;
          mret 0
      end)
    (fun r st' => disk st' = disk st /\ outstanding st' = outstanding st /\ (r = 0 /\ replaced R n path st w st' \/ r = -1 /\ refused n F m st w st')) st.
Proof.
  intros U C Hdir I HF Ha Hw. apply wp_bind. eapply wp_mono; [apply (wp_build_stack m data (1025 + (base.size uso + n)) f x us sp st argv I Ha)|].
  intros r st1 (s1 & us1 & sp1 & -> & Ed & C1 & Sp & Hr). destruct r as [[sz sv]|].
  - destruct Hr as (y & Ey & -> & Sk). rewrite Ey in Hw. cbn [mbind option_bind] in Hw. apply wp_bind. wp_step. cbv zeta. cbn [proc set_pages]. rewrite Hdir.
    eapply wp_mono; [eapply (wp_replace R uso spo m n data y us1 sp1 (set_pages s1 st)); [exact U|exact C|exact Sk|cbn; congruence|reflexivity]|].
    intros r st2 [-> (s2 & -> & Run)]. split; [reflexivity|]. split; [reflexivity|]. left. split; [reflexivity|]. constructor; try reflexivity.
    + exists y. split; [exact Hw|exact Run].
    + cbn. rewrite Ed. reflexivity.
  - rewrite <- Ed. apply wp_bind, wp_in_pages. eapply wp_mono; [apply (wp_freevm m (base.size uso + n) us1 sp1 s1 Sp C1)|]. intros [] s2 (free2 & Hs2). wp_step.
    split; [reflexivity|]. split; [reflexivity|]. right. split; [reflexivity|]. constructor; [reflexivity|reflexivity| |].
    + exists free2, m. split; [eapply law_weaken; [exact Hs2|lia]|auto].
    + intros y e' sv E. rewrite Hw in E. destruct Hr as [Hr|Hf]; [rewrite Hr in E; discriminate|].
      destruct (add_stack x argv) as [[y' sv']|] eqn:Ea; cbn [mbind option_bind] in E; [|discriminate]. injection E as <- _ _.
      pose proof (im_size _ _ _ _ _ _ _ _ I) as Hx. pose proof (npages_spec (i_size x) ltac:(lia)). apply add_stack_size in Ea. rewrite Ea, npages_stack. lia.
Qed.

Lemma wp_exec R uso spo m n free (st : @state S) c path argv : let d := disk st in
  tree ds d -> sound [] d -> (2 <= frees d)%nat -> Fs.icache d !! cwd (proc st) = Some c -> 0 < Fs.ref c -> live d (start c path) -> Forall (fun x => x <> 0) path ->
  (forall i e, walk_path false d (start c path) (DirFacts.elements path) = Some (i, e) -> FsFacts.regular ds d (disk_inode d i)) ->
  data_ok data -> user_space R uso spo m -> contig spo -> pgdir (proc st) = dir spo -> shows (BUDGET (base.size uso + n)) (pages st) (PView free m) ->
  Forall (fun a => Z.of_nat (length a) < 4096) argv ->
  wp (exec devread data junk path argv) (fun r st' => returned d (disk st') /\ outstanding st' = outstanding st /\
    (r = 0 /\ replaced R n path st (plan d c path argv) st' \/ r = -1 /\ refused n (length free) m st (plan d c path argv) st')) st.
Proof.
  intros d T S0 Hfree Hc Hr Hl Hz Hreg Hdata U C Hdir Hs Ha. unfold exec, plan. apply wp_bind, wp_modify. apply wp_bind. wp_step. apply wp_bind, wp_in_disk. cbn [disk set_outstanding proc]. fold d.
  unfold Fs.namei. apply wp_bind. eapply wp_mono; [apply (wp_namex ds devread d _ c path false (replicate 14 0) T S0 Hfree Hc Hr Hl Hz eq_refl)|].
  intros r d1 Hf. wp_step. unfold found_at in Hf.
  assert (Hkeep : forall s', shows (BUDGET (base.size uso + n)) s' (PView free m) -> given_back n (length free) m s') by (intros s' Hs'; exists free, m; split; [eapply law_weaken; [exact Hs'|unfold BUDGET; lia]|auto]).
  destruct (walk_path false d (start c path) (DirFacts.elements path)) as [[i e0]|] eqn:Ew.
  2: { destruct Hf as [-> Rt]. apply wp_bind, wp_modify, wp_ret. split; [exact Rt|]. split; [cbn; lia|]. right. split; [reflexivity|]. constructor; [reflexivity|reflexivity|apply Hkeep, Hs|discriminate]. }
  destruct Hf as (ip & nm & -> & Tk & Hli & _). cbn [fst fmap option_fmap option_map mbind option_bind].
  apply wp_bind, wp_in_disk. eapply wp_mono; [apply (taken_lock ds _ _ _ _ (tr_formatted _ _ T) Tk Hli)|]. intros [] d2 (Tk2 & w & Hw & Hp).
  cbn [disk set_disk]. set (st2 := set_disk d2 _). assert (Hpp : plain w = plain (disk_inode d i)) by (rewrite Hp; reflexivity).
  assert (F2 : FsFacts.formatted ds d2) by (eapply formatted_same; [apply Tk2|apply Tk2|apply T]).
  assert (R2 : FsFacts.regular ds d2 w) by (eapply regular_plain; [apply Tk2|apply Tk2|exact Hpp|exact (Hreg i e0 eq_refl)]).
  assert (Ec : FsFacts.content d2 w = FsFacts.content d (disk_inode d i)) by (apply content_cached; [apply Tk2|exact Hpp]).
  apply wp_bind. eapply wp_mono; [apply (wp_load_image ds devread d2 ip w m data F2 Hw R2 junk (base.size uso + n) free st2 Hdata Hs eq_refl)|].
  intros r st3 (s3 & -> & Him). rewrite Ec in Him. destruct r as [[[dirp sz0] ent]|].
  - destruct Him as (x & f' & us & sp & -> & -> & -> & I & HF). cbn [mbind option_bind]. apply wp_bind, wp_in_disk.
    eapply wp_mono; [apply (taken_unlockput _ _ _ _ S0 Tk2 Hli)|]. intros [] d3 Rt. apply wp_bind, wp_modify.
    eapply wp_mono; [eapply (wp_finish R uso spo m n (length free) f' x ent us sp); [exact U|exact C|exact Hdir|exact I|exact HF|exact Ha|reflexivity]|].
    intros r st4 (E1 & E2 & Hres). rewrite E1. split; [exact Rt|]. split; [rewrite E2; cbn; lia|].
    destruct Hres as [[-> [H1 H2 H3 H4]]|[-> [H1 H2 H3 H4]]]; [left|right]; (split; [reflexivity|]); constructor; assumption.
  - destruct Him as [Hg HF]. apply wp_bind, wp_in_disk. eapply wp_mono; [apply (taken_unlockput _ _ _ _ S0 Tk2 Hli)|]. intros [] d3 Rt. apply wp_bind, wp_modify. wp_step.
    split; [exact Rt|]. split; [cbn; lia|]. right. split; [reflexivity|]. constructor; [reflexivity|reflexivity| |].
    + destruct Hg as (fr & mm & Hss & Hm). exists fr, mm. split; [eapply law_weaken; [exact Hss|lia]|exact Hm].
    + intros y e sv E. destruct (file_image _) as [[x ent]|]; cbn [mbind option_bind] in E; [|discriminate]. specialize (HF x ent eq_refl).
      destruct (add_stack x argv) as [[y' sv']|] eqn:Ea; cbn [mbind option_bind] in E; [|discriminate]. injection E as <- _ _. apply add_stack_size in Ea.
      rewrite Ea, npages_stack. lia.
Qed.
End call.
End space.
End ExecFacts.

Module ExecProps.
Import Kernel Vm VmFacts VmUser VmOps VmCopy VmReach Exec ExecImage ExecFacts CacheFacts NameiFacts.

(** C5: [exec] replaces a process or leaves it alone.  Whatever bytes the file has, with arguments
    shorter than a page: the call returns.  If the path leads to a file whose ELF header and program
    headers describe an image below [KERNBASE], and the arguments fit the page of the stack, the process
    gets an address space in which every byte below its size is that of the image (segments over zeros,
    the arguments and the words for [main] on the stack), user code can use all of it but the page below
    the stack, the program counter is the entry and the stack pointer points to those words; the old
    address space has been freed and the rest of memory is as before.  Otherwise, or if there are too few
    free pages, the call returns -1 with the process and every page in use as before.  No page is lost then
    if more than 65 were free; with at most 65, [setupkvm] can run out of memory half-way and keep those
    it has taken.  In both cases the inode is unlocked, no reference to it is left and the log's operation
    has ended. *)
Theorem exec_replaces_or_refuses {S : Type} `{PageMemory S} (ds : Z) devread (data : Z) (junk : list Z) (R : gmap Z (list Z)) uso spo m (n : nat) free (st : @state S) c path argv :
  let d := disk st in
  tree ds d -> sound [] d -> (2 <= frees d)%nat -> Fs.icache d !! cwd (proc st) = Some c -> 0 < Fs.ref c -> live d (start c path) -> Forall (fun x => x <> 0) path ->
  (forall i e, walk_path false d (start c path) (DirFacts.elements path) = Some (i, e) -> FsFacts.regular ds d (disk_inode d i)) ->
  data_ok data -> user_space R uso spo m -> contig spo -> pgdir (proc st) = dir spo -> shows (BUDGET (base.size uso + n)) (pages st) (PView free m) ->
  Forall (fun a => Z.of_nat (length a) < 4096) argv ->
  wp (exec devread data junk path argv) (fun r st' => returned d (disk st') /\ outstanding st' = outstanding st /\
    (r = 0 /\ replaced data R n path st (plan d c path argv) st' \/ r = -1 /\ refused n (length free) m st (plan d c path argv) st')) st.
Proof. intros d. exact (wp_exec ds devread data junk R uso spo m n free st c path argv). Qed.

#[local] Existing Instance VmProps.demo_pages.

(** The process in [/bin] with two pages of memory runs [sh x]. *)
Lemma exec_replaces_or_refuses_witness : exists (st st' : @state kstate) m', exec (fun _ => None) VmProps.demo_data [] [115; 104] [[120]] st = Ok (0, st') /\
  eip (proc st') = 2 /\ esp (proc st') = 12264 /\ sz (proc st') = 12288 /\ peek m' (pgdir (proc st')) 3 = Some 4 /\ refs (disk st') 3 = 0.
Proof.
  destruct (VmProps.demo_process (BUDGET 0)) as (us & sp & s & free & m & U & C & Cv & _ & _ & K & Hs & Hf).
  { unfold BUDGET, SETUP, calls, KPN. change (npages 0) with 0. lia. }
  set (st := State s NameiProps.home 0 (Process (replicate 16 0) 0 (dir sp) 8192 0 0) 0). exists st.
  destruct (exec_replaces_or_refuses 4 (fun _ => None) VmProps.demo_data [] ∅ us sp m 0 free st NameiProps.home_cwd [115; 104] [[120]]) as (r & st' & E & Rt & _ & Hr).
  - exact NameiProps.home_tree.
  - exact NameiProps.home_sound.
  - vm_compute. lia.
  - reflexivity.
  - reflexivity.
  - apply NameiProps.home_live. auto.
  - repeat constructor; discriminate.
  - intros i e Hw. change (walk_path _ _ _ _) with (Some (3, [] : list Z)) in Hw. injection Hw as <- _. exact NameiProps.home_sh.
  - exact VmProps.demo_data_ok.
  - exact U.
  - exact C.
  - reflexivity.
  - eapply law_weaken; [exact Hs|unfold BUDGET; lia].
  - repeat constructor.
  - assert (EP : match plan (disk st) NameiProps.home_cwd [115; 104] [[120]] with Some (y, e, sv) => (i_size y, i_byte y 3, e, sv) | None => (0, 0, 0, 0) end = (12288, 4, 2, 12264)) by (vm_compute; reflexivity).
    destruct (plan _ _ _ _) as [[[y e] sv]|]; [|discriminate]. injection EP as Es Eb -> ->. destruct Hr as [[-> [(y' & Hp & (fr & m' & us' & sp' & _ & _ & _ & _ & _ & _ & Hz & Hk & _)) _ _ _]]|[_ [_ _ _ Hre]]].
    + injection Hp as <- H1 H2. exists st', m'. split; [exact E|]. split; [congruence|]. split; [congruence|]. split; [congruence|]. split; [rewrite Hk by lia; congruence|].
      rewrite (re_refs _ _ Rt). reflexivity.
    + exfalso. specialize (Hre y 2 12264 eq_refl). rewrite Es in Hre. change (npages 12288) with 3 in Hre. lia.
Defined.
End ExecProps.
