(* ===== verification/ProcVm.v ===== *)
(** The kernel under the process table: the calls of proc.c answered by the code of kalloc.c, vm.c, file.c, fs.c
    and log.c.

    The contracts of ProcInv.v are shown for them.  Of a call on an address space this needs that the size given is the
    size of the space, and that the entropy pools have room for the events of the allocator.  The environment keeps the
    size of every address space and the number of allocator calls left, and stops at a call for which this does not hold:
    what follows it is not described.  Several address spaces and kernel stacks share the memory; the pages of each are
    its footprint. *)

From stdpp Require Import gmap gmultiset.
From S2P Require Import Prelude Spinlock Kernel Entropy Kalloc PageMem Vm VmFacts VmUser VmOps VmProps File Fs Proc ProcInv.

Module ProcVm.
Import Spinlock Kernel VmFacts VmUser VmOps.
Import VmReach (wp_result).
Import ProcFacts (held, Held, h_stacks, h_dirs, h_files, h_inodes, add_stack, del_stack, add_dir, del_dir, add_file, del_file, add_inode, del_inode, returns).

(** ** Several address spaces in one memory *)

(** The memory outside a footprint. *)
Definition out (F : gset Z) (m : gmap Z (list Z)) : gmap Z (list Z) := filter (fun x => x.1 ∉ F) m.

Lemma lookup_out F m p : out F m !! p = if decide (p ∈ F) then None else m !! p.
Proof.
  unfold out. destruct (decide (p ∈ F)) as [Hp|Hp].
  - apply map_lookup_filter_None_2. right. intros bs _ Hn. exact (Hn Hp).
  - destruct (m !! p) as [bs|] eqn:E; [apply map_lookup_filter_Some_2; auto|]. apply map_lookup_filter_None_2. auto.
Qed.

(** The pages of [F] are an address space with the directory [d] and [N] bytes of user memory. *)
Definition space (F : gset Z) (N d : Z) (m : gmap Z (list Z)) : Prop :=
  F ⊆ dom m /\ exists us sp, user_space (out F m) us sp m /\ dir sp = d /\ contig sp /\ covers us (npages N).

Section space.
Implicit Types (m R : gmap Z (list Z)) (F : gset Z).

(** The pages of a space are in its footprint. *)
Lemma space_pages F us sp m p bs : user_space (out F m) us sp m -> out F m !! p = None -> m !! p = Some bs -> p ∈ F.
Proof. intros U Hn Hp. rewrite lookup_out in Hn. destruct (decide (p ∈ F)); [assumption|congruence]. Qed.

(** What happens outside the footprint does not matter. *)
Lemma user_elsewhere F us sp m m' : user_space (out F m) us sp m -> (forall p, p ∈ F -> m' !! p = m !! p) -> user_space (out F m') us sp m'.
Proof.
  intros U Hm. pose proof U as [T Hpte Hr Hp Ha Hi Hf (F1 & F2 & F3)].
  assert (Hdir : dir sp ∈ F) by (destruct (tb_dir _ _ T) as (bs & Hbs & _); exact (space_pages _ _ _ _ _ _ U F1 Hbs)).
  assert (Htab : forall i t, tables sp !! i = Some t -> t ∈ F).
  { intros i t Ht. destruct (tb_table _ _ T i t Ht) as (_ & _ & bs & Hbs & _). exact (space_pages _ _ _ _ _ _ U (F2 i t Ht) Hbs). }
  assert (Hpg : forall k u, us !! k = Some u -> u_page u ∈ F) by (intros k u Hk; exact (space_pages _ _ _ _ _ _ U (F3 k u Hk) (Hp k u Hk))).
  constructor; try assumption.
  - eapply tables_ok_frame; [exact T|apply Hm, Hdir|]. intros i t Ht. apply Hm, (Htab i t Ht).
  - intros k u Hk. rewrite Hm by exact (Hpg k u Hk). exact (Hp k u Hk).
  - intros p N1 N2 N3. rewrite lookup_out. destruct (decide (p ∈ F)) as [HpF|HpF]; [|reflexivity].
    rewrite Hm by exact HpF. rewrite Hf by assumption. rewrite lookup_out, decide_True by exact HpF. reflexivity.
  - rewrite !lookup_out, decide_True by exact Hdir. split; [reflexivity|]. split.
    + intros i t Ht. rewrite lookup_out, decide_True; [reflexivity|exact (Htab i t Ht)].
    + intros k u Hk. rewrite lookup_out, decide_True; [reflexivity|exact (Hpg k u Hk)].
Qed.

Lemma space_elsewhere F N d m m' : space F N d m -> (forall p, p ∈ F -> m' !! p = m !! p) -> space F N d m'.
Proof.
  intros (Hsub & us & sp & U & Hd & C & Cv) Hm. split.
  - intros p Hp. pose proof (Hsub p Hp) as Hq. rewrite elem_of_dom in Hq |- *. rewrite Hm by exact Hp. exact Hq.
  - exists us, sp. split; [exact (user_elsewhere _ _ _ _ _ U Hm)|auto].
Qed.

(** The footprint of a space in the rest [R]. *)
Lemma space_of R us sp m N : user_space R us sp m -> contig sp -> covers us (npages N) -> space (dom m ∖ dom R) N (dir sp) m.
Proof.
  intros U C Cv. split; [set_solver|]. exists us, sp. split; [|auto].
  replace (out (dom m ∖ dom R) m) with R; [exact U|]. apply map_eq. intros p. rewrite lookup_out. destruct (R !! p) as [bs|] eqn:E.
  - rewrite decide_False; [symmetry; exact (user_keeps _ _ _ _ _ _ U E)|]. intros Hp. apply elem_of_difference in Hp as [_ Hp]. apply Hp, elem_of_dom. eauto.
  - destruct (m !! p) as [bs|] eqn:Em; [|case_decide; reflexivity]. rewrite decide_True; [reflexivity|].
    apply elem_of_difference. rewrite !elem_of_dom, Em, E. split; [eauto|]. intros [? [=]].
Qed.

Lemma space_dir F N d m : space F N d m -> d ∈ F.
Proof.
  intros (_ & us & sp & U & <- & _ & _). destruct (us_fresh _ _ _ _ U) as [F1 _]. destruct (tb_dir _ _ (us_tables _ _ _ _ U)) as (bs & Hbs & _).
  exact (space_pages _ _ _ _ _ _ U F1 Hbs).
Qed.
End space.

(** The memory with all that the table holds; [sz] has the sizes of the spaces. *)
Record world (h : held) (sz : gmap Z Z) (m : gmap Z (list Z)) (F : Z -> gset Z) : Prop := {
  w_space : forall d, d ∈ h_dirs h -> exists N, sz !! d = Some N /\ 0 <= N <= KERNBASE /\ space (F d) N d m;
  w_apart : forall d e, d ∈ h_dirs h -> e ∈ h_dirs h -> d <> e -> F d ## F e;
  w_stack : forall a, a ∈ h_stacks h -> a ∈ dom m /\ forall d, d ∈ h_dirs h -> a ∉ F d;
  w_stacks : forall a, (multiplicity a (h_stacks h) <= 1)%nat;
  w_dirs : forall d, (multiplicity d (h_dirs h) <= 1)%nat;
}.

Section world.
Implicit Types (m R : gmap Z (list Z)) (F : Z -> gset Z) (h : held) (sz : gmap Z Z).

(** Nothing that is held changes. *)
Lemma world_elsewhere h sz m F m' : world h sz m F -> (forall p, p ∈ dom m -> m' !! p = m !! p) -> world h sz m' F.
Proof.
  intros [W1 W2 W3 W4 W5] Hm. constructor; try assumption.
  - intros d Hd. destruct (W1 d Hd) as (N & E & HN & Sp). exists N. split; [exact E|]. split; [exact HN|].
    apply (space_elsewhere _ _ _ m); [exact Sp|]. intros p Hp. apply Hm, (proj1 Sp), Hp.
  - intros a Ha. destruct (W3 a Ha) as [H1 H2]. split; [|exact H2]. pose proof H1 as H3. apply elem_of_dom in H1 as [bs Hbs]. apply elem_of_dom. rewrite Hm by exact H3. eauto.
Qed.

Lemma world_footprint h sz m F d : world h sz m F -> d ∈ h_dirs h -> F d ⊆ dom m.
Proof. intros W Hd. destruct (w_space _ _ _ _ W d Hd) as (N & _ & _ & Sp). apply Sp. Qed.

Lemma multiplicity_add (x y : Z) (X : gmultiset Z) : (forall a, (multiplicity a X <= 1)%nat) -> x ∉ X -> (multiplicity y (X ⊎ {[+ x +]}) <= 1)%nat.
Proof.
  intros HX Hx. rewrite multiplicity_disj_union, multiplicity_singleton. specialize (HX y). case_decide as E; [|lia]. subst y.
  apply not_elem_of_multiplicity in Hx. lia.
Qed.

Lemma multiplicity_del (x y : Z) (X : gmultiset Z) : (forall a, (multiplicity a X <= 1)%nat) -> (multiplicity y (X ∖ {[+ x +]}) <= 1)%nat.
Proof. intros HX. rewrite multiplicity_difference. specialize (HX y). lia. Qed.

(** What is left is something else. *)
Lemma elem_of_del (x y : Z) (X : gmultiset Z) : (forall a, (multiplicity a X <= 1)%nat) -> y ∈ X ∖ {[+ x +]} -> y ∈ X /\ y <> x.
Proof.
  intros HX Hy. rewrite elem_of_multiplicity, multiplicity_difference in Hy. specialize (HX y).
  split; [apply elem_of_multiplicity; lia|]. intros ->. rewrite multiplicity_singleton_eq in Hy. lia.
Qed.

Lemma world_add_stack h sz m F p bs : world h sz m F -> m !! p = None -> world (add_stack p h) sz (<[p := bs]> m) F.
Proof.
  intros W Hp. pose proof W as [_ _ W3 W4 _]. assert (Hd : p ∉ dom m) by (rewrite elem_of_dom, Hp; intros [? [=]]).
  pose proof (world_elsewhere h sz m F (<[p := bs]> m) W) as We. destruct We as [V1 V2 V3 V4 V5].
  { intros q Hq. apply lookup_insert_ne. intros ->. contradiction. }
  constructor; try assumption; cbn [add_stack h_stacks h_dirs].
  - intros a Ha. apply gmultiset_elem_of_disj_union in Ha as [Ha|Ha]; [apply V3, Ha|]. apply gmultiset_elem_of_singleton in Ha as ->.
    split; [apply elem_of_dom; rewrite lookup_insert_eq; eauto|]. intros d Hdd HpF. apply Hd. exact (world_footprint _ _ _ _ _ W Hdd p HpF).
  - intros a. apply multiplicity_add; [exact W4|]. intros Ha. apply Hd, W3, Ha.
Qed.

Lemma world_del_stack h sz m F a : world h sz m F -> a ∈ h_stacks h -> world (del_stack a h) sz (delete a m) F.
Proof.
  intros [W1 W2 W3 W4 W5] Ha. constructor; try assumption; cbn [del_stack h_stacks h_dirs].
  - intros d Hd. destruct (W1 d Hd) as (N & E & HN & Sp). exists N. split; [exact E|]. split; [exact HN|].
    apply (space_elsewhere _ _ _ m); [exact Sp|]. intros p Hp. apply lookup_delete_ne. intros <-. exact (proj2 (W3 a Ha) d Hd Hp).
  - intros b Hb. apply elem_of_del in Hb as [Hb Hne]; [|exact W4]. destruct (W3 b Hb) as [H1 H2]. split; [|exact H2]. rewrite dom_delete. set_solver.
  - intros b. apply multiplicity_del, W4.
Qed.

(** The footprints with that of [d] replaced. *)
Definition moved (d : Z) (X : gset Z) F : Z -> gset Z := fun e => if decide (e = d) then X else F e.

(** An operation on the space of [d]. *)
Lemma world_change h sz m F d us' sp' m' N : world h sz m F -> d ∈ h_dirs h -> user_space (out (F d) m) us' sp' m' -> dir sp' = d -> contig sp' ->
  covers us' (npages N) -> 0 <= N <= KERNBASE -> exists F', world h (<[d := N]> sz) m' F'.
Proof.
  intros W Hd U Ed C Cv HN. pose proof W as [W1 W2 W3 W4 W5]. set (R := out (F d) m) in *. exists (moved d (dom m' ∖ dom R) F).
  assert (HR : forall p, p ∈ dom m -> p ∉ F d -> p ∈ dom R /\ m' !! p = m !! p).
  { intros p Hp HpF. apply elem_of_dom in Hp as [bs Hbs]. assert (Er : R !! p = Some bs) by (unfold R; rewrite lookup_out, decide_False; assumption).
    split; [apply elem_of_dom; eauto|]. rewrite Hbs. exact (user_keeps _ _ _ _ _ _ U Er). }
  assert (Ho : forall e p, e ∈ h_dirs h -> e <> d -> p ∈ F e -> p ∈ dom m /\ p ∉ F d).
  { intros e p He Hne Hp. split; [exact (world_footprint _ _ _ _ _ W He p Hp)|]. intros Hp'. exact (W2 e d He Hd Hne p Hp Hp'). }
  constructor; try assumption; unfold moved.
  - intros e He. destruct (decide (e = d)) as [->|Hne].
    + exists N. rewrite lookup_insert_eq. split; [reflexivity|]. split; [exact HN|]. pose proof (space_of R us' sp' m' N U C Cv) as Sp. rewrite Ed in Sp. exact Sp.
    + destruct (W1 e He) as (N' & E & HN' & Sp). exists N'. rewrite lookup_insert_ne by congruence. split; [exact E|]. split; [exact HN'|].
      apply (space_elsewhere _ _ _ m); [exact Sp|]. intros p Hp. destruct (Ho e p He Hne Hp) as [H1 H2]. apply HR; assumption.
  - intros e e' He He' Hne. assert (Hx : forall x, x ∈ h_dirs h -> x <> d -> F x ## dom m' ∖ dom R).
    { intros x Hx Hxd p Hp Hp'. destruct (Ho x p Hx Hxd Hp) as [H1 H2]. destruct (HR p H1 H2) as [H3 _]. set_solver. }
    destruct (decide (e = d)) as [->|H1], (decide (e' = d)) as [->|H2]; [congruence|symmetry; apply Hx; auto|apply Hx; auto|apply W2; auto].
  - intros a Ha. destruct (W3 a Ha) as [H1 H2]. destruct (HR a H1 (H2 d Hd)) as [H3 H4]. split.
    + apply elem_of_dom in H1 as [bs Hbs]. apply elem_of_dom. rewrite H4. eauto.
    + intros e He. destruct (decide (e = d)) as [->|Hne]; [set_solver|apply H2, He].
Qed.

(** A new space. *)
Lemma world_add_dir h sz m F us sp m' N : world h sz m F -> user_space m us sp m' -> contig sp -> covers us (npages N) -> 0 <= N <= KERNBASE ->
  exists F', world (add_dir (dir sp) h) (<[dir sp := N]> sz) m' F'.
Proof.
  intros W U C Cv HN. pose proof W as [W1 W2 W3 W4 W5]. set (d := dir sp). exists (moved d (dom m' ∖ dom m) F).
  assert (Hdm : d ∉ dom m) by (rewrite elem_of_dom; unfold d; rewrite (proj1 (us_fresh _ _ _ _ U)); intros [? [=]]).
  assert (Hnew : d ∉ h_dirs h).
  { intros Hd. destruct (W1 d Hd) as (N' & _ & _ & Sp). apply Hdm, (proj1 Sp), (space_dir _ _ _ _ Sp). }
  assert (Hm : forall p, p ∈ dom m -> m' !! p = m !! p).
  { intros p Hp. apply elem_of_dom in Hp as [bs Hbs]. rewrite Hbs. exact (user_keeps _ _ _ _ _ _ U Hbs). }
  pose proof (world_elsewhere h sz m F m' W Hm) as [V1 V2 V3 V4 V5].
  assert (Hold : forall e, e ∈ h_dirs h -> e <> d /\ F e ## dom m' ∖ dom m).
  { intros e He. split; [congruence|]. pose proof (world_footprint _ _ _ _ _ W He). set_solver. }
  assert (Hcase : forall e, e ∈ h_dirs (add_dir d h) -> e ∈ h_dirs h \/ e = d).
  { intros e He. apply gmultiset_elem_of_disj_union in He as [He|He]; [auto|]. apply gmultiset_elem_of_singleton in He. auto. }
  constructor; try assumption; unfold moved.
  - intros e He. destruct (decide (e = d)) as [->|Hne].
    + exists N. rewrite lookup_insert_eq. split; [reflexivity|]. split; [exact HN|]. exact (space_of m us sp m' N U C Cv).
    + destruct (Hcase e He) as [He'| ->]; [|congruence]. destruct (V1 e He') as (N' & E & HN' & Sp). exists N'. rewrite lookup_insert_ne by congruence. auto.
  - intros e e' He He' Hne. destruct (decide (e = d)) as [->|H1], (decide (e' = d)) as [->|H2]; [congruence|..].
    + destruct (Hcase e' He') as [He''| ->]; [symmetry; apply (Hold e' He'')|congruence].
    + destruct (Hcase e He) as [He''| ->]; [apply (Hold e He'')|congruence].
    + destruct (Hcase e He) as [E1| ->], (Hcase e' He') as [E2| ->]; try congruence. apply V2; auto.
  - intros a Ha. destruct (V3 a Ha) as [H1 H2]. split; [exact H1|]. intros e He. destruct (decide (e = d)) as [->|Hne].
    + pose proof (proj1 (W3 a Ha)). set_solver.
    + destruct (Hcase e He) as [He'| ->]; [apply H2, He'|congruence].
  - intros e. apply multiplicity_add; assumption.
Qed.

(** A space is given back. *)
Lemma world_del_dir h sz m F d : world h sz m F -> d ∈ h_dirs h -> world (del_dir d h) (delete d sz) (out (F d) m) F.
Proof.
  intros W Hd. pose proof W as [W1 W2 W3 W4 W5].
  assert (Hcase : forall e, e ∈ h_dirs (del_dir d h) -> e ∈ h_dirs h /\ e <> d) by (intros e He; apply elem_of_del in He; assumption).
  constructor; try assumption.
  - intros e He. destruct (Hcase e He) as [He' Hne]. destruct (W1 e He') as (N & E & HN & Sp). exists N. rewrite lookup_delete_ne by congruence. split; [exact E|]. split; [exact HN|].
    apply (space_elsewhere _ _ _ m); [exact Sp|]. intros p Hp. rewrite lookup_out, decide_False; [reflexivity|]. intros Hp'. exact (W2 e d He' Hd Hne p Hp Hp').
  - intros e e' He He'. apply W2; apply Hcase; assumption.
  - intros a Ha. destruct (W3 a Ha) as [H1 H2]. split; [|intros e He; apply H2, Hcase, He]. apply elem_of_dom in H1. apply elem_of_dom.
    rewrite lookup_out, decide_False by exact (H2 d Hd). exact H1.
  - intros e. apply multiplicity_del, W5.
Qed.
End world.

(** ** References to files and inodes *)

(** Each file has at least the references that are held. *)
Definition files_held (t : File.sys) (X : gmultiset nat) : Prop :=
  forall f, f ∈ X -> exists v, File.ftable t !! f = Some v /\ Z.of_nat (multiplicity f X) <= File.ref v.
Definition inodes_held (d : Fs.fs) (X : gmultiset nat) : Prop :=
  forall i, i ∈ X -> exists v, Fs.icache d !! i = Some v /\ Z.of_nat (multiplicity i X) <= Fs.ref v.

Lemma filedup_held t X f : files_held t X -> f ∈ X -> returns (File.filedup f) (fun f' t' => f' = f /\ files_held t' (X ⊎ {[+ f +]})) t.
Proof.
  intros H Hf f' t'. destruct (H f Hf) as (v & Hv & Hn). unfold File.filedup, File.get_file, mbind, K_bind, lift_opt. rewrite Hv.
  destruct (File.ref v <? 1); [discriminate|]. intros [= <- <-]. split; [reflexivity|]. intros g Hg. cbn [File.ftable File.set_ftable].
  rewrite multiplicity_disj_union. destruct (decide (g = f)) as [->|Hne].
  - rewrite list_lookup_insert_eq by exact (lookup_lt_Some _ _ _ Hv). eexists. split; [reflexivity|]. rewrite multiplicity_singleton_eq. cbn [File.ref File.set_ref]. lia.
  - rewrite list_lookup_insert_ne, multiplicity_singleton_ne, Nat.add_0_r by congruence. apply H. multiset_solver.
Qed.

Lemma fileclose_held t X f : files_held t X -> f ∈ X -> returns (File.fileclose f) (fun _ t' => files_held t' (X ∖ {[+ f +]})) t.
Proof.
  intros H Hf [] t'. destruct (H f Hf) as (v & Hv & Hn). unfold File.fileclose, File.get_file, mbind, K_bind, lift_opt. rewrite Hv.
  destruct (File.ref v <? 1); [discriminate|].
  assert (Hput : forall v', File.ref v - 1 <= File.ref v' -> forall t1, File.ftable t1 = <[f := v']> (File.ftable t) -> files_held t1 (X ∖ {[+ f +]})).
  { intros v' Hr t1 E g Hg. rewrite E. rewrite elem_of_multiplicity in Hg. rewrite multiplicity_difference in Hg |- *. destruct (decide (g = f)) as [->|Hne].
    - rewrite list_lookup_insert_eq by exact (lookup_lt_Some _ _ _ Hv). exists v'. split; [reflexivity|]. rewrite multiplicity_singleton_eq in *. lia.
    - rewrite list_lookup_insert_ne by congruence. rewrite multiplicity_singleton_ne in * by congruence. destruct (H g) as (w & Hw & Hl); [apply elem_of_multiplicity; lia|].
      exists w. split; [exact Hw|]. lia. }
  destruct (Z.ltb_spec 0 (File.ref v - 1)); [intros [= <-]; eapply (Hput (File.set_ref (File.ref v - 1) v)); [cbn; lia|reflexivity]|].
  destruct (File.f_type v); intros [= <-]; (eapply (Hput (File.MkFile File.FD_NONE 0 (File.readable v) (File.writable v) (File.pipe v) (File.ip v) (File.off v))); [cbn; lia|reflexivity]).
Qed.

Lemma idup_held d X i : inodes_held d X -> i ∈ X -> returns (Fs.idup i) (fun i' d' => i' = i /\ inodes_held d' (X ⊎ {[+ i +]})) d.
Proof.
  intros H Hi i' d'. destruct (H i Hi) as (v & Hv & Hn). unfold Fs.idup, Fs.get_inode, mbind, K_bind, lift_opt. rewrite Hv.
  intros [= <- <-]. split; [reflexivity|]. intros g Hg. cbn [Fs.icache]. rewrite multiplicity_disj_union. destruct (decide (g = i)) as [->|Hne].
  - rewrite list_lookup_insert_eq by exact (lookup_lt_Some _ _ _ Hv). eexists. split; [reflexivity|]. rewrite multiplicity_singleton_eq. cbn [Fs.ref Fs.set_ref]. lia.
  - rewrite list_lookup_insert_ne, multiplicity_singleton_ne, Nat.add_0_r by congruence. apply H. multiset_solver.
Qed.

(** *** The references that [iput] leaves *)

Section iput.
Import Fs.
#[local] Abbreviation wp := (Stops.wp (fun _ => True)).
Import Stops (wp_bind, wp_ret, wp_mono, wp_modify, wp_skip, wp_gets, wp_forM).

(** The counts of references are as before. *)
Definition same_refs (s s' : fs) : Prop := forall i, ref <$> icache s' !! i = ref <$> icache s !! i.

Lemma same_refs_trans s1 s2 s3 : same_refs s1 s2 -> same_refs s2 s3 -> same_refs s1 s3.
Proof. intros A B i. rewrite B. apply A. Qed.

Lemma wp_inode ip (Q : inode -> fs -> Prop) s : (forall v, icache s !! ip = Some v -> Q v s) -> wp (get_inode ip) Q s.
Proof. intros HQ. unfold Stops.wp, get_inode, lift_opt. destruct (icache s !! ip); auto. Qed.

Lemma wp_same_blocks {A} (m : K fs A) (Q : A -> fs -> Prop) s : (forall a s', m s = Ok (a, s') -> icache s' = icache s) ->
  (forall a s', icache s' = icache s -> Q a s') -> wp m Q s.
Proof. intros Hm HQ. apply Stops.wp_part; [|auto]. intros a s' E. apply HQ, (Hm a), E. Qed.

Lemma bread_same d b s a s' : bread d b s = Ok (a, s') -> s' = s.
Proof. unfold bread. destruct (negb _); [discriminate|]. destruct (if _ <? _ then None else _); [|discriminate]. intros [= <- <-]. reflexivity. Qed.

Lemma bfree_same d b s a s' : bfree d b s = Ok (a, s') -> icache s' = icache s.
Proof.
  unfold bfree, readsb, mbind, K_bind. destruct (bread d 1 s) as [[x s1]|?|?|] eqn:E1; try discriminate. apply bread_same in E1 as ->. cbn [modify gets].
  destruct (bread d _ _) as [[y s2]|?|?|] eqn:E2; try discriminate. apply bread_same in E2 as ->. destruct (negb _); [discriminate|]. intros [= <- <-]. reflexivity.
Qed.

Lemma iupdate_same ip s a s' : iupdate ip s = Ok (a, s') -> icache s' = icache s.
Proof.
  unfold iupdate, get_inode, mbind, K_bind, lift_opt. destruct (icache s !! ip) as [v|]; [|discriminate]. cbn [gets].
  destruct (bread _ _ s) as [[x s1]|?|?|] eqn:E1; try discriminate. apply bread_same in E1 as ->. intros [= <- <-]. reflexivity.
Qed.

(** A store to an inode that keeps its count. *)
Lemma same_refs_put s s' ip v v' bl sbl : same_refs s s' -> icache s' !! ip = Some v -> ref v' = ref v -> same_refs s (MkFs bl sbl (<[ip := v']> (icache s'))).
Proof.
  intros Hs Hv Hr i. cbn [icache]. destruct (decide (i = ip)) as [->|Hne].
  - rewrite list_lookup_insert_eq by exact (lookup_lt_Some _ _ _ Hv). rewrite <- (Hs ip), Hv. cbn. rewrite Hr. reflexivity.
  - rewrite list_lookup_insert_ne by congruence. apply Hs.
Qed.

Lemma same_refs_icache s s1 s2 : same_refs s s1 -> icache s2 = icache s1 -> same_refs s s2.
Proof. intros Hs E i. rewrite E. apply Hs. Qed.

Lemma itrunc_refs ip s0 s : same_refs s0 s -> wp (itrunc ip) (fun _ s' => same_refs s0 s') s.
Proof.
  intros H0. unfold itrunc. apply wp_bind. eapply wp_mono; [apply (wp_forM _ _ (fun _ s' => same_refs s0 s')); [exact H0|]|].
  - intros i x s1 _ H1. apply wp_bind, wp_inode. intros v Hv. destruct (_ =? 0); [apply wp_skip, H1|].
    apply wp_bind, wp_same_blocks; [apply bfree_same|]. intros [] s2 E2. apply wp_modify. rewrite E2.
    eapply same_refs_put; [exact H1|exact Hv|reflexivity].
  - intros [] s1 H1. apply wp_bind, wp_inode. intros v Hv. apply wp_bind. eapply (wp_mono _ (fun _ s' => same_refs s0 s')).
    + destruct (_ =? 0); [apply wp_skip, H1|]. apply wp_bind, wp_same_blocks; [intros a s' E; apply bread_same in E as ->; reflexivity|]. intros x s2 E2.
      apply wp_bind. eapply wp_mono; [apply (wp_forM _ _ (fun _ s' => icache s' = icache s1)); [exact E2|]|].
      * intros j y s3 _ E3. destruct (_ =? 0); [apply wp_skip, E3|]. apply wp_same_blocks; [apply bfree_same|]. intros _ s4 E4. congruence.
      * intros [] s3 E3. apply wp_bind, wp_same_blocks; [apply bfree_same|]. intros _ s4 E4. apply wp_modify. rewrite E4, E3.
        eapply same_refs_put; [exact H1|exact Hv|reflexivity].
    + intros [] s2 H2. apply wp_bind, wp_inode. intros w Hw. apply wp_bind, wp_modify.
      assert (H3 : same_refs s0 (MkFs (blocks s2) (sb s2) (<[ip := set_size 0 w]> (icache s2)))) by (eapply same_refs_put; [exact H2|exact Hw|reflexivity]).
      apply wp_same_blocks; [apply iupdate_same|]. intros _ s4 E4. eapply same_refs_icache; [exact H3|exact E4].
Qed.

Lemma iput_held d X i : inodes_held d X -> i ∈ X -> returns (iput i) (fun _ d' => inodes_held d' (X ∖ {[+ i +]})) d.
Proof.
  intros H Hi. assert (W : wp (iput i) (fun _ d' => exists d1 v, same_refs d d1 /\ icache d1 !! i = Some v /\ icache d' = <[i := set_ref (ref v - 1) v]> (icache d1)) d).
  { unfold iput. apply wp_bind, wp_inode. intros v Hv. apply wp_bind. eapply (wp_mono _ (fun _ s' => same_refs d s')).
    - assert (Hrefl : same_refs d d) by (intros j; reflexivity). destruct (_ && _); [|apply wp_skip, Hrefl]. destruct (busy v); [exact I|].
      apply wp_bind, wp_modify, wp_bind. eapply wp_mono; [apply (itrunc_refs i d); eapply same_refs_put; [exact Hrefl|exact Hv|reflexivity]|].
      intros [] s1 H1. apply wp_bind, wp_inode. intros w Hw. apply wp_bind, wp_modify, wp_bind.
      assert (H2 : same_refs d (MkFs (blocks s1) (sb s1) (<[i := set_type 0 w]> (icache s1)))) by (eapply same_refs_put; [exact H1|exact Hw|reflexivity]).
      apply wp_same_blocks; [apply iupdate_same|]. intros _ s3 E3. pose proof (same_refs_icache _ _ _ H2 E3) as H3.
      apply wp_bind, wp_inode. intros x Hx. apply wp_modify. eapply same_refs_put; [exact H3|exact Hx|reflexivity].
    - intros [] s1 H1. apply wp_bind, wp_inode. intros w Hw. apply wp_modify. exists s1, w. auto. }
  intros [] d' E. destruct (Stops.wp_returns _ _ _ _ _ W E) as (d1 & v & Hs & Hv & Ed).
  assert (Hr : forall j, j ∈ X -> exists w, icache d1 !! j = Some w /\ Z.of_nat (multiplicity j X) <= ref w).
  { intros j Hj. destruct (H j Hj) as (w & Hw & Hl). pose proof (Hs j) as Ej. rewrite Hw in Ej. destruct (icache d1 !! j) as [w'|]; [|discriminate]. injection Ej as Ej. exists w'. split; [reflexivity|lia]. }
  intros j Hj. rewrite Ed. rewrite elem_of_multiplicity in Hj. rewrite multiplicity_difference in Hj |- *. destruct (decide (j = i)) as [->|Hne].
  - rewrite list_lookup_insert_eq by exact (lookup_lt_Some _ _ _ Hv). eexists. split; [reflexivity|]. destruct (Hr i Hi) as (w & Hw & Hl). rewrite Hv in Hw. injection Hw as <-.
    rewrite multiplicity_singleton_eq in *. cbn [ref set_ref]. lia.
  - rewrite list_lookup_insert_ne by congruence. rewrite multiplicity_singleton_ne in * by congruence. destruct (Hr j) as (w & Hw & Hl); [apply elem_of_multiplicity; lia|]. exists w. split; [exact Hw|lia].
Qed.
End iput.

(** ** The calls on memory *)

Section memory.
Context {S : Type} `{PageMemory S}.

(** [n] calls of the allocator can be made. *)
Definition mem_rep (n : nat) (s : S) (sz : gmap Z Z) (h : held) : Prop :=
  exists free m F, shows n s (PView free m) /\ world h sz m F.

Lemma mem_weaken n n' s sz h : mem_rep n s sz h -> (n' <= n)%nat -> mem_rep n' s sz h.
Proof. intros (free & m & F & Hs & W) Hn. exists free, m, F. split; [eapply law_weaken; eassumption|exact W]. Qed.

(** References to files and inodes are not in memory. *)
Lemma mem_refs n s sz h h' : h_stacks h' = h_stacks h -> h_dirs h' = h_dirs h -> mem_rep n s sz h -> mem_rep n s sz h'.
Proof. intros E1 E2 (free & m & F & Hs & [W1 W2 W3 W4 W5]). exists free, m, F. split; [exact Hs|]. constructor; rewrite ?E1, ?E2; assumption. Qed.

Lemma covers_size us N : 0 <= N -> covers us N -> base.size us = Z.to_nat N.
Proof.
  intros HN C. rewrite <- size_dom. replace (dom us) with (list_to_set (seqZ 0 N) : gset Z).
  - rewrite size_list_to_set by apply NoDup_seqZ. apply length_seqZ.
  - apply set_eq. intros k. rewrite elem_of_list_to_set, elem_of_seqZ, elem_of_dom, (C k). lia.
Qed.

Lemma mem_kalloc n s sz h a s' : mem_rep (1 + n) s sz h -> PageMem.kalloc s = Ok (a, s') ->
  a = 0 /\ mem_rep n s' sz h \/ a <> 0 /\ mem_rep n s' sz (add_stack a h).
Proof.
  intros (free & m & F & Hs & W).
  apply (wp_result _ (fun a s' => a = 0 /\ mem_rep n s' sz h \/ a <> 0 /\ mem_rep n s' sz (add_stack a h))). eapply law_kalloc; [exact Hs| |].
  - intros _ s1 Hs1. left. split; [reflexivity|]. exists free, m, F. auto.
  - cbn [v_free v_mem]. intros p l bs s1 -> _ Hs1. destruct (law_free _ _ _ p Hs ltac:(left)) as (_ & Hp & Hn). right.
    split; [unfold KERNBASE in Hp; lia|]. exists l, (<[p := bs]> m), F. split; [exact Hs1|]. apply world_add_stack; assumption.
Qed.

Lemma mem_kfree n s sz h a s' : mem_rep (1 + n) s sz h -> a ∈ h_stacks h -> PageMem.kfree a s = Ok (tt, s') -> mem_rep n s' sz (del_stack a h).
Proof.
  intros (free & m & F & Hs & W) Ha. apply (wp_result _ (fun _ s' => mem_rep n s' sz (del_stack a h))). eapply law_kfree; [exact Hs| |].
  - apply elem_of_dom, (w_stack _ _ _ _ W a Ha).
  - cbn [v_free v_mem]. intros s1 Hs1. exists (a :: free), (delete a m), F. split; [exact Hs1|apply world_del_stack; assumption].
Qed.

Definition copy_cost (N : Z) : nat := SETUP + (3 * Z.to_nat (npages N) + 1025).

Lemma mem_copyuvm data n s sz h d N a s' : data_ok data -> mem_rep (copy_cost N + n) s sz h -> d ∈ h_dirs h -> sz !! d = Some N -> Vm.copyuvm data d N s = Ok (a, s') ->
  a = 0 /\ mem_rep n s' sz h \/ a <> 0 /\ mem_rep n s' (<[a := N]> sz) (add_dir a h).
Proof.
  intros Hdata (free & m & F & Hs & W) Hd EN. destruct (w_space _ _ _ _ W d Hd) as (N' & E & HN & _ & us & sp & U & <- & C & Cv). rewrite EN in E. injection E as <-.
  apply (wp_result _ (fun a s' => a = 0 /\ mem_rep n s' sz h \/ a <> 0 /\ mem_rep n s' (<[a := N]> sz) (add_dir a h))).
  eapply wp_mono; [apply (wp_copyuvm data _ us sp m n s free N Hdata U HN)|].
  - intros k Hk. apply Cv, Hk.
  - eapply law_weaken; [exact Hs|unfold copy_cost; lia].
  - cbv beta. intros x s1 [(usc & spc & mc & freec & -> & Hnz & Uc & [Cc _] & _ & Cg & Hs1)|(-> & _ & m' & free' & Hs1 & Hm)].
    + right. split; [exact Hnz|]. destruct (world_add_dir h sz m F usc spc mc N W Uc Cg Cc HN) as (F' & W'). exists freec, mc, F'. split; [eapply law_weaken; [exact Hs1|lia]|exact W'].
    + left. split; [reflexivity|]. exists free', m', F. split; [exact Hs1|]. apply (world_elsewhere _ _ m); [exact W|]. intros p [bs Hp]%elem_of_dom. rewrite Hp.
      destruct Hm as [[->|(q & qs & Hq & ->)]|(_ & _ & Hm)]; [exact Hp|rewrite lookup_insert_ne; [exact Hp|congruence]|apply Hm, Hp].
Qed.

Definition free_cost (N : Z) : nat := Z.to_nat (npages N) + 1025.

Lemma npages_nonneg N : 0 <= N -> 0 <= npages N.
Proof. intros HN. apply Z.div_pos; lia. Qed.

Lemma mem_freevm n s sz h d N s' : mem_rep (free_cost N + n) s sz h -> d ∈ h_dirs h -> sz !! d = Some N -> Vm.freevm d s = Ok (tt, s') -> mem_rep n s' (delete d sz) (del_dir d h).
Proof.
  intros (free & m & F & Hs & W) Hd EN. destruct (w_space _ _ _ _ W d Hd) as (N' & E & HN & _ & us & sp & U & Ed & C & Cv). rewrite EN in E. injection E as <-.
  apply (wp_result _ (fun _ s' => mem_rep n s' (delete d sz) (del_dir d h))). rewrite <- Ed at 1. eapply wp_mono; [apply (wp_freevm (out (F d) m) n us sp s); [|exact C]|].
  - exists free, m. split; [exact U|]. eapply law_weaken; [exact Hs|]. rewrite (covers_size _ _ (npages_nonneg N (proj1 HN)) Cv). unfold free_cost. lia.
  - intros [] s1 (free' & Hs1). exists free', (out (F d) m), F. split; [exact Hs1|apply world_del_dir; assumption].
Qed.

Definition alloc_cost (a b : Z) : nat := if KERNBASE <=? b then 0 else Z.to_nat (npages a) + (3 * Z.to_nat (npages b) + 2).

Lemma mem_allocuvm n s sz h d a b x s' : mem_rep (alloc_cost a b + n) s sz h -> d ∈ h_dirs h -> sz !! d = Some a -> 0 <= b -> Vm.allocuvm d a b s = Ok (x, s') ->
  mem_rep n s' (if x =? 0 then sz else <[d := x]> sz) h.
Proof.
  intros (free & m & F & Hs & W) Hd Ea Hb. destruct (w_space _ _ _ _ W d Hd) as (N' & E & HN & _ & us & sp & U & Ed & C & Cv). rewrite Ea in E. injection E as <-.
  unfold alloc_cost in Hs. destruct (KERNBASE <=? b) eqn:Ek.
  - unfold Vm.allocuvm. rewrite Ek. intros [= <- <-]. exists free, m, F. split; [eapply law_weaken; [exact Hs|lia]|exact W].
  - apply (wp_result _ (fun x s' => mem_rep n s' (if x =? 0 then sz else <[d := x]> sz) h)). rewrite <- Ed at 1.
    eapply wp_mono; [apply (wp_allocuvm (out (F d) m) n 0 s us sp a b HN Hb Cv C)|].
    + exists free, m. split; [exact U|]. split; [|lia]. eapply law_weaken; [exact Hs|]. rewrite (covers_size _ _ (npages_nonneg a (proj1 HN)) Cv). lia.
    + intros y s1 (us' & sp' & St & (free' & m' & U' & Hs') & Hy). assert (Hs1 : shows n s1 (PView free' m')) by (eapply law_weaken; [exact Hs'|lia]).
      assert (Hsize : exists N, covers us' (npages N) /\ 0 <= N <= KERNBASE /\ <[d := N]> sz = if y =? 0 then sz else <[d := y]> sz).
      { destruct Hy as [(Hx & -> & (_ & _ & Hc) & _)|[(Hx & _ & -> & ->)|(-> & -> & _)]].
        - exists b. split; [exact Hc|]. split; [lia|]. destruct (Z.eqb_spec b 0) as [->|]; [|reflexivity]. apply insert_id. rewrite Ea. f_equal. lia.
        - exists a. split; [exact Cv|]. split; [exact HN|]. rewrite (proj2 (Z.eqb_neq a 0)) by lia. reflexivity.
        - exists a. split; [exact Cv|]. split; [exact HN|]. apply insert_id, Ea. }
      destruct Hsize as (N & Hc & HN' & <-). destruct (world_change h sz m F d us' sp' m' N W Hd U') as (F' & W'); try assumption; [rewrite (st_dir _ _ St); exact Ed|apply St|].
      exists free', m', F'. auto.
Qed.

Lemma mem_deallocuvm n s sz h d a b x s' : mem_rep (Z.to_nat (npages a) + n) s sz h -> d ∈ h_dirs h -> sz !! d = Some a -> 0 <= b -> Vm.deallocuvm d a b s = Ok (x, s') ->
  mem_rep n s' (<[d := x]> sz) h.
Proof.
  intros (free & m & F & Hs & W) Hd Ea Hb. destruct (w_space _ _ _ _ W d Hd) as (N' & E & HN & _ & us & sp & U & Ed & C & Cv). rewrite Ea in E. injection E as <-.
  apply (wp_result _ (fun x s' => mem_rep n s' (<[d := x]> sz) h)). rewrite <- Ed at 1.
  rewrite <- (covers_size _ _ (npages_nonneg a (proj1 HN)) Cv) in Hs.
  eapply wp_mono; [apply (wp_deallocuvm (out (F d) m) n s free us sp m a b Hs U C Hb (proj2 HN))|].
  intros y s1 (-> & us' & Hu & [(sp' & free' & m' & U' & Hs' & Ed' & Et & _)]).
  destruct (world_change h sz m F d us' sp' m' (Z.min a b) W Hd U') as (F' & W'); [congruence|unfold contig; rewrite Et; exact C| |lia|].
  - assert (Hm : npages (Z.min a b) = Z.min (npages a) (npages b)) by (unfold npages; destruct (Z.le_ge_cases a b); [rewrite !Z.min_l|rewrite !Z.min_r]; try lia; apply Z.div_le_mono; lia).
    intros k. rewrite Hu, Hm. destruct (decide _); [split; [intros [? ?]; discriminate|lia]|]. rewrite (Cv k). lia.
  - exists free', m', F'. split; [eapply law_weaken; [exact Hs'|lia]|exact W'].
Qed.
End memory.

(** ** The environment of the process table *)

(** [left] calls of the allocator can be made; [sizes] has the size of every address space. *)
Record kernel {S L : Type} := Kernel {
  pages : S;
  left : nat;
  sizes : gmap Z Z;
  files : File.sys;
  disk : Fs.fs;
  log : L;
  schedule_timing_pool : Z;
}.
Arguments kernel : clear implicits.

Section kernel.
Context {S L : Type} `{PageMemory S}.
Context (data : Z) (initcode : list Z) (devread : Z -> option (nat -> Z -> K Fs.fs (option (list Z)))).
Context (event : Z -> K S unit) (log_begin log_end log_start : K L unit).

Definition on_files {A} (m : K File.sys A) : K (kernel S L) A := fun k =>
  '(a, t) ← m (files k);
  Ok (a, Kernel _ _ (pages k) (left k) (sizes k) t (disk k) (log k) (schedule_timing_pool k)).
Definition on_disk {A} (m : K Fs.fs A) : K (kernel S L) A := fun k =>
  '(a, d) ← m (disk k);
  Ok (a, Kernel _ _ (pages k) (left k) (sizes k) (files k) d (log k) (schedule_timing_pool k)).
Definition on_log {A} (m : K L A) : K (kernel S L) A := fun k =>
  '(a, l) ← m (log k);
  Ok (a, Kernel _ _ (pages k) (left k) (sizes k) (files k) (disk k) l (schedule_timing_pool k)).

(** A call on memory that makes [c] calls of the allocator at most and for which [ok] holds; [resize] is what it does to
    the sizes. *)
Definition on_memory {A} (c : nat) (ok : bool) (m : K S A) (resize : A -> gmap Z Z -> gmap Z Z) : K (kernel S L) A := fun k =>
  if ok && (c <=? left k)%nat then
    '(a, s) ← m (pages k);
    Ok (a, Kernel _ _ s (left k - c) (resize a (sizes k)) (files k) (disk k) (log k) (schedule_timing_pool k))
  else Fault "the call is not described".

(** The size of the space of [d] is [n]. *)
Definition has_size (k : kernel S L) (d n : Z) : bool := bool_decide (sizes k !! d = Some n).

(** The event of the scheduler goes to the next pool each time. *)
Definition kernel_event : K (kernel S L) unit := fun k =>
  '(_, k') ← on_memory 1 true (event (schedule_timing_pool k mod MAX_POOLS)) (fun _ sz => sz) k;
  Ok (tt, Kernel _ _ (pages k') (left k') (sizes k') (files k') (disk k') (log k') (u32 (schedule_timing_pool k' + 1))).

#[local] Instance kernel_services : Proc.Services (kernel S L) := {|
  Proc.kalloc := on_memory 1 true PageMem.kalloc (fun _ sz => sz);
  Proc.kfree a := on_memory 1 true (PageMem.kfree a) (fun _ sz => sz);
  Proc.setupkvm := on_memory SETUP true (Vm.setupkvm data) (fun d sz => if d =? 0 then sz else <[d := 0]> sz);
  Proc.inituvm d := fun k => on_memory 2 (has_size k d 0) (Vm.inituvm d initcode (Z.of_nat (length initcode))) (fun _ sz => <[d := PGSIZE]> sz) k;
  Proc.copyuvm d n := fun k => on_memory (copy_cost n) (has_size k d n) (Vm.copyuvm data d n) (fun a sz => if a =? 0 then sz else <[a := n]> sz) k;
  Proc.freevm d := fun k => on_memory (free_cost (default 0 (sizes k !! d))) true (Vm.freevm d) (fun _ sz => delete d sz) k;
  Proc.allocuvm d a b := fun k => on_memory (alloc_cost a b) (has_size k d a && (0 <=? b)) (Vm.allocuvm d a b) (fun x sz => if x =? 0 then sz else <[d := x]> sz) k;
  Proc.deallocuvm d a b := fun k => on_memory (Z.to_nat (npages a)) (has_size k d a && (0 <=? b)) (Vm.deallocuvm d a b) (fun x sz => <[d := x]> sz) k;
  Proc.filedup f := on_files (File.filedup f);
  Proc.fileclose f := on_files (File.fileclose f);
  Proc.idup i := on_disk (Fs.idup i);
  Proc.iput i := on_disk (Fs.iput i);
  Proc.begin_op := on_log log_begin;
  Proc.end_op := on_log log_end;
  Proc.namei_root := on_disk (Fs.namei devread 0 [47]);
  Proc.fs_start := on_log log_start;
  Proc.scheduling_event := kernel_event;
|}.

(** *** The contracts *)

Definition kernel_rep (k : kernel S L) (h : held) : Prop :=
  mem_rep (left k) (pages k) (sizes k) h /\ files_held (files k) (h_files h) /\ inodes_held (disk k) (h_inodes h).

Lemma memory_returns {A} c ok (m : K S A) resize (Q : A -> kernel S L -> Prop) k :
  (forall n a s, ok = true -> left k = (c + n)%nat -> m (pages k) = Ok (a, s) -> Q a (Kernel _ _ s n (resize a (sizes k)) (files k) (disk k) (log k) (schedule_timing_pool k))) ->
  returns (on_memory c ok m resize) Q k.
Proof.
  intros HQ a k'. unfold on_memory. destruct ok; cbn [andb]; [|discriminate]. destruct (Nat.leb_spec c (left k)); [|discriminate].
  cbn [mbind res_bind]. destruct (m (pages k)) as [[x s]|?|?|] eqn:E; try discriminate. intros [= <- <-]. apply HQ; [reflexivity|lia|reflexivity].
Qed.

Lemma files_returns {A} (m : K File.sys A) (Q : A -> File.sys -> Prop) k : returns m Q (files k) ->
  returns (on_files m) (fun a k' => Q a (files k') /\ pages k' = pages k /\ left k' = left k /\ sizes k' = sizes k /\ disk k' = disk k) k.
Proof. intros Hm a k'. unfold on_files. destruct (m (files k)) as [[x t]|?|?|] eqn:E; try discriminate. intros [= <- <-]. split; [exact (Hm x t E)|auto]. Qed.

Lemma disk_returns {A} (m : K Fs.fs A) (Q : A -> Fs.fs -> Prop) k : returns m Q (disk k) ->
  returns (on_disk m) (fun a k' => Q a (disk k') /\ pages k' = pages k /\ left k' = left k /\ sizes k' = sizes k /\ files k' = files k) k.
Proof. intros Hm a k'. unfold on_disk. destruct (m (disk k)) as [[x t]|?|?|] eqn:E; try discriminate. intros [= <- <-]. split; [exact (Hm x t E)|auto]. Qed.

Lemma log_returns {A} (m : K L A) h k : kernel_rep k h -> returns (on_log m) (fun _ k' => kernel_rep k' h) k.
Proof. intros Hk a k'. unfold on_log. destruct (m (log k)) as [[x t]|?|?|]; try discriminate. intros [= <- <-]. exact Hk. Qed.

(** What [addRandomEvent] leaves alone. *)
Hypothesis event_shows : forall n p s s' v, shows (1 + n) s v -> event p s = Ok (tt, s') -> shows n s' v.
Hypothesis Hdata : data_ok data.

Lemma kernel_copyuvm k h d n : kernel_rep k h -> d ∈ h_dirs h ->
  returns (Proc.copyuvm d n) (fun a k' => a = 0 /\ kernel_rep k' h \/ a <> 0 /\ kernel_rep k' (add_dir a h)) k.
Proof.
  intros (Hm & Hf & Hi) Hd. apply (memory_returns _ (has_size k d n)). intros r a s Ho El E. apply bool_decide_eq_true in Ho. rewrite El in Hm.
  destruct (mem_copyuvm data r _ _ h d n a s Hdata Hm Hd Ho E) as [[-> H1]|[Hnz H1]]; [left|right]; (split; [assumption || reflexivity|]).
  - split; [exact H1|]. split; assumption.
  - split; [cbn [left pages sizes]; rewrite (proj2 (Z.eqb_neq a 0) Hnz); exact H1|]. split; assumption.
Qed.

Lemma kernel_freevm k h d : kernel_rep k h -> d ∈ h_dirs h -> returns (Proc.freevm d) (fun _ k' => kernel_rep k' (del_dir d h)) k.
Proof.
  intros (Hm & Hf & Hi) Hd. apply (memory_returns (free_cost (default 0 (sizes k !! d))) true). intros r [] s _ El E. rewrite El in Hm.
  destruct (sizes k !! d) as [N|] eqn:EN; [|destruct Hm as (free & m & F & _ & W); destruct (w_space _ _ _ _ W d Hd) as (N & E' & _); congruence].
  split; [exact (mem_freevm r _ _ h d N s Hm Hd EN E)|]. split; assumption.
Qed.

Lemma kernel_uvm k h d (a b : Z) c (f : K S Z) resize : kernel_rep k h ->
  (forall r x s, mem_rep (c + r) (pages k) (sizes k) h -> sizes k !! d = Some a -> 0 <= b -> f (pages k) = Ok (x, s) -> mem_rep r s (resize x (sizes k)) h) ->
  returns (fun k => on_memory c (has_size k d a && (0 <=? b)) f resize k) (fun _ k' => kernel_rep k' h) k.
Proof.
  intros (Hm & Hf & Hi) Hop. apply (memory_returns _ (has_size k d a && (0 <=? b))). intros r x s [Ho%bool_decide_eq_true Hb%Z.leb_le]%andb_prop El E. rewrite El in Hm.
  split; [exact (Hop r x s Hm Ho Hb E)|]. split; assumption.
Qed.

Lemma kernel_scheduling_event k h : kernel_rep k h -> returns Proc.scheduling_event (fun _ k' => kernel_rep k' h) k.
Proof.
  intros (Hm & Hf & Hi) a k'. change (Proc.scheduling_event k) with (kernel_event k). unfold kernel_event.
  assert (Hr : returns (on_memory 1 true (event (schedule_timing_pool k mod MAX_POOLS)) (fun _ sz => sz)) (fun _ k' => kernel_rep k' h) k).
  { apply memory_returns. intros r [] s _ El E. rewrite El in Hm. split; [|split; assumption]. destruct Hm as (free & m & F & Hs & W).
    exists free, m, F. split; [exact (event_shows _ _ _ _ _ Hs E)|exact W]. }
  destruct (on_memory _ _ _ _ k) as [[[] k1]|?|?|] eqn:E; try discriminate. intros [= <- <-]. exact (Hr tt k1 E).
Qed.

(** The code of kalloc.c, vm.c, file.c and fs.c satisfies the contracts. *)
#[local] Instance kernel_spec : ProcFacts.ServicesSpec (kernel S L).
Proof.
  refine {| ProcFacts.rep := kernel_rep |}.
  all: try (intros e h Hr; apply log_returns, Hr).
  - intros e h a ((free & m & F & _ & W) & _). apply W.
  - intros e h a ((free & m & F & _ & W) & _). apply W.
  - intros e h (Hm & Hf & Hi). apply memory_returns. intros n a s _ El E. rewrite El in Hm.
    destruct (mem_kalloc n _ _ h a s Hm E) as [[-> H1]|[Hnz H1]]; [left|right]; (split; [assumption || reflexivity|]; split; [exact H1|split; assumption]).
  - intros e h a (Hm & Hf & Hi) Ha. apply memory_returns. intros n [] s _ El E. rewrite El in Hm. split; [exact (mem_kfree n _ _ h a s Hm Ha E)|split; assumption].
  - apply kernel_copyuvm.
  - apply kernel_freevm.
  - intros e h d a b Hr Hd. apply kernel_uvm; [exact Hr|]. intros r x s Hm Ho Hb E. exact (mem_allocuvm r _ _ h d a b x s Hm Hd Ho Hb E).
  - intros e h d a b Hr Hd. apply kernel_uvm; [exact Hr|]. intros r x s Hm Ho Hb E. exact (mem_deallocuvm r _ _ h d a b x s Hm Hd Ho Hb E).
  - intros e h f (Hm & Hf & Hi) Hin a e' E. destruct (files_returns _ _ e (filedup_held _ _ _ Hf Hin) a e' E) as ([-> Hf'] & E1 & E2 & E3 & E4).
    split; [reflexivity|]. split; [rewrite E1, E2, E3; apply (mem_refs _ _ _ h); [reflexivity|reflexivity|exact Hm]|]. rewrite E4. auto.
  - intros e h f (Hm & Hf & Hi) Hin a e' E. destruct (files_returns _ _ e (fileclose_held _ _ _ Hf Hin) a e' E) as (Hf' & E1 & E2 & E3 & E4).
    split; [rewrite E1, E2, E3; apply (mem_refs _ _ _ h); [reflexivity|reflexivity|exact Hm]|]. rewrite E4. auto.
  - intros e h i (Hm & Hf & Hi) Hin a e' E. destruct (disk_returns _ _ e (idup_held _ _ _ Hi Hin) a e' E) as ([-> Hi'] & E1 & E2 & E3 & E4).
    split; [reflexivity|]. split; [rewrite E1, E2, E3; apply (mem_refs _ _ _ h); [reflexivity|reflexivity|exact Hm]|]. rewrite E4. auto.
  - intros e h i (Hm & Hf & Hi) Hin a e' E. destruct (disk_returns _ _ e (iput_held _ _ _ Hi Hin) a e' E) as (Hi' & E1 & E2 & E3 & E4).
    split; [rewrite E1, E2, E3; apply (mem_refs _ _ _ h); [reflexivity|reflexivity|exact Hm]|]. rewrite E4. auto.
  - apply kernel_scheduling_event.
Defined.
End kernel.

(** ** The event of the scheduler *)

Section platform.
Context `{Kalloc.Platform} (Hkend : KERNBASE < Kalloc.kend).
#[local] Instance platform_pages : PageMemory kstate := KernelPages.kernel_pages Hkend.

Definition SCHEDULING_TIMING : Z := 3.
Definition schedule_event (pool : Z) : K kstate unit :=
  acquire_ Ltick ;;
  t ← gets (fun s => ticks (clock s));
  Entropy.addRandomEvent SCHEDULING_TIMING pool (Some (le_bytes 4 t)) 4 ;;
  release_ Ltick.

Lemma schedule_event_held p s : locked (tickslock (clock s)) <> 0 -> stop_of (schedule_event p s) <> None.
Proof.
  intros Hl. unfold schedule_event, acquire_, lock_op, mbind, K_bind, get, lift_opt, lift_res. cbn [get_lock]. rewrite acquire_eq.
  rewrite (proj2 (Z.eqb_neq _ 0) Hl). destruct (holding _ _); discriminate.
Qed.

Lemma schedule_event_shows n p s s' v : shows (1 + n) s v -> schedule_event p s = Ok (tt, s') -> shows n s' v.
Proof.
  intros [[A1 A2 A3 A4 (sts & [P1 P2 P3] & A5)] Hp] E. destruct (decide (locked (tickslock (clock s)) = 0)) as [Hl|Hl].
  2: { exfalso. apply (schedule_event_held p s Hl). rewrite E. reflexivity. }
  revert E. apply (wp_result _ (fun _ s' => shows n s' v)). apply wp_bind. unfold acquire_, lock_op. wp_steps. eapply wp_lift_opt; [reflexivity|]. wp_steps.
  eapply wp_lift_res; [apply acquire_free, Hl|]. apply wp_modify. wp_steps. destruct (pushcli_ok _ A4) as [Hc1 _].
  apply (EntropyFacts.wp_addRandomEvent_ok _ _ _ _ _ sts); [split; assumption|exact Hc1|intros d [= <-]; cbn; lia|eapply Forall_impl; [exact A5|cbv beta; lia]|].
  intros s1 [R1 R2 R3] [Hs1 (c1 & ps1 & ->)]. cbn [k_cpu set_pools set_cpu] in Hs1.
  eapply (KernelFacts.wp_release_ _ (name (tickslock (clock s))) (k_cpu s)); [reflexivity|exact A4|exact Hs1|]. intros c2 Hs2.
  split; [|exact Hp]. split; [exact A1|exact A2|exact A3|exact (cpu_same_ok _ _ Hs2 A4)|].
  eexists. split; [split; [exact R1|exact R2|exact R3]|].
  eapply Forall_impl; [apply (EntropyFacts.event_length _ _ _ _ _ (2 ^ 31 - 34 * (Z.of_nat n + 2) - 1))|].
  - eapply Forall_impl; [exact A5|]. cbv beta. lia.
  - cbv beta. lia.
Qed.
End platform.

(** ** A kernel with one process *)

#[local] Existing Instance VmProps.demo_pages.
Definition demo_services : Proc.Services (kernel kstate unit) :=
  kernel_services VmProps.demo_data [0xeb; 0xfe] (fun _ => None) schedule_event skip skip skip.
Definition demo_spec : @ProcFacts.ServicesSpec (kernel kstate unit) demo_services :=
  kernel_spec VmProps.demo_data [0xeb; 0xfe] (fun _ => None) schedule_event skip skip skip (schedule_event_shows VmProps.demo_kend) VmProps.demo_data_ok.

Lemma demo_memory : exists s a d sz, a <> 0 /\ d <> 0 /\ sz !! d = Some 8192 /\ mem_rep (Z.to_nat 1000000) s sz (add_stack a (add_dir d (Held ∅ ∅ ∅ ∅))).
Proof.
  destruct (VmProps.demo_process (Z.to_nat 1000001)) as (us & sp & s & free & m & U & C & Cv & _ & _ & _ & Hs & Hf); [lia|].
  assert (W0 : world (Held ∅ ∅ ∅ ∅) ∅ ∅ (fun _ => ∅)).
  { constructor; cbn [h_dirs h_stacks]; try (intros ? Hin; apply gmultiset_elem_of_empty in Hin; contradiction); try (intros ?; rewrite multiplicity_empty; lia).
    intros d e Hd. apply gmultiset_elem_of_empty in Hd. contradiction. }
  destruct (world_add_dir _ _ _ _ us sp m 8192 W0 U C Cv ltac:(unfold KERNBASE; lia)) as (F & W).
  assert (Hnz : dir sp <> 0) by (pose proof (page_nonzero _ (dir_addr _ _ _ _ _ Hs (us_tables _ _ _ _ U))); lia).
  assert (Hm : mem_rep (1 + Z.to_nat 1000000) s (<[dir sp := 8192]> ∅) (add_dir (dir sp) (Held ∅ ∅ ∅ ∅))) by (exists free, m, F; split; [eapply law_weaken; [exact Hs|lia]|exact W]).
  destruct free as [|q free]; [cbn in Hf; lia|].
  assert (Ha : wp PageMem.kalloc (fun a _ => a <> 0) s).
  { eapply law_kalloc; [eapply (law_weaken _ 1); [exact Hs|lia]|discriminate|]. intros p l bs s1 [= <- <-] _ _. destruct (law_free _ _ _ q Hs ltac:(left)) as (_ & Hp & _). unfold KERNBASE in Hp. lia. }
  destruct Ha as (a & s1 & E & Ha). exists s1, a, (dir sp), (<[dir sp := 8192]> ∅). rewrite lookup_insert_eq. repeat (split; [assumption || reflexivity|]).
  destruct (mem_kalloc _ _ _ _ a s1 Hm E) as [[-> _]|[_ H1]]; [contradiction|exact H1].
Qed.

Definition root_inode : Fs.inode := Fs.Inode 1 1 1 false true Fs.T_DIR 0 0 1 512 (replicate 13 0).

Lemma demo_kernel : exists (k : kernel kstate unit) a d, a <> 0 /\ d <> 0 /\ @ProcFacts.rep _ _ demo_spec k (Held {[+ a +]} {[+ d +]} ∅ {[+ O +]}).
Proof.
  destruct demo_memory as (s & a & d & sz & Ha & Hd & _ & Hm).
  exists (Kernel _ _ s (Z.to_nat 1000000) sz (File.Sys [] [] []) (Fs.MkFs [] (Fs.Superblock 0 0 0 0 0 0 0) [root_inode]) tt 0), a, d. split; [exact Ha|]. split; [exact Hd|]. split; [|split].
  - eapply mem_refs; [| |exact Hm]; cbn [add_stack add_dir h_stacks h_dirs]; multiset_solver.
  - intros f Hf. apply gmultiset_elem_of_empty in Hf. contradiction.
  - intros i Hi. apply gmultiset_elem_of_singleton in Hi as ->. exists root_inode. split; [reflexivity|]. cbn [h_inodes]. rewrite multiplicity_singleton_eq. reflexivity.
Qed.
End ProcVm.
