(* ===== verification/ProcOps.v ===== *)
(** The operations of proc.c that create and end processes, and the properties of whole runs. *)

From stdpp Require Import gmultiset.
From S2P Require Import Prelude Spinlock Kernel Proc ProcInv ProcSteps ProcRun ProcVm.

Module ProcOps.
Import Spinlock Proc ProcFacts ProcSteps ProcRun.

Section ops.
Context {E : Type} `{ServicesSpec E}.
Abbreviation pstate := (@pstate E).

(** An operation of CPU [c] that returns to its process, after using at most [n] identifiers. *)
Definition returned (c : nat) (n : Z) (s s' : pstate) : Prop := inv s' /\ unlocked s' /\ keeps c n s s' /\ procs s' = procs s.

(** ** wakeup and kill *)

Lemma runnable_wake (s : pstate) ch j : runnable s j -> exists x, (wake ch <$> table s) !! j = Some x /\ state x = RUNNABLE.
Proof.
  intros (x & Hx & Hs). exists (wake ch x). rewrite list_lookup_fmap, Hx. split; [reflexivity|]. unfold wake. case_decide; [reflexivity|exact Hs].
Qed.

Lemma wp_wakeup c ch s : inv s -> unlocked s -> is_Some (cpus s !! c) -> wp (wakeup c ch) (fun _ s' => returned c 0 s s') s.
Proof.
  intros Hinv Hu Hc. unfold wakeup. apply wp_bind, (wp_acquire c _ _ Hu Hc). intros s1 Hs1 Hl1. apply wp_bind, wp_modify.
  eapply wp_release; [exact Hl1|]. intros s2 Hs2 Hu2. split; [|split; [exact Hu2|split]].
  - apply (inv_same _ _ Hs2). exact (core_wake _ _ _ _ _ _ ch (inv_same _ _ Hs1 Hinv)).
  - apply (keeps_same_l _ _ _ _ _ Hs1). eapply keeps_same_r; [|exact Hs2]. apply (keeps_intro c _ _ []); try reflexivity; [symmetry; apply app_nil_r|].
    intros j Hj. exact (runnable_wake s1 ch j Hj).
  - rewrite (same_procs _ _ Hs2). apply Hs1.
Qed.

(** The slot [i] is killed, and woken if it sleeps. *)
Definition killed_proc (p : proc) : proc := if decide (state p = SLEEPING) then set_state RUNNABLE (set_killed true p) else set_killed true p.

Lemma core_kill t np init ev (e : E) l i p : core t np init ev e l -> t !! i = Some p -> core (<[i := killed_proc p]> t) np init ev e l.
Proof.
  intros C Hi. assert (Hc : context (killed_proc p) = context p) by (unfold killed_proc; case_decide; reflexivity).
  assert (Hs : similar p (killed_proc p)).
  { unfold killed_proc. case_decide as Hd; [|apply similar_intro; auto]. apply similar_intro; try reflexivity. right. unfold alive. cbn. auto. }
  apply (core_slot _ _ _ _ _ _ i p _ C Hi Hs).
  - unfold killed_proc. case_decide as Hd; cbn; [rewrite Hd; split; discriminate|tauto].
  - unfold killed_proc. case_decide as Hd; cbn; [discriminate|contradiction].
  - rewrite Hc, (akin_alive _ _ (proj1 Hs)). exact (k_contexts _ _ _ _ _ _ C i p Hi).
Qed.

Lemma wp_kill c n s : inv s -> unlocked s -> is_Some (cpus s !! c) -> wp (kill c n) (fun _ s' => returned c 0 s s') s.
Proof.
  intros Hinv Hu Hc. unfold kill. apply wp_bind, (wp_acquire c _ _ Hu Hc). intros s1 Hs1 Hl1. do 2 wp_step.
  destruct (list_find _ (table s1)) as [[i p]|] eqn:Ef.
  - apply list_find_Some in Ef as (Hi & _). pose proof (lookup_lt_Some _ _ _ Hi) as Hlt. apply wp_bind, (wp_upd _ _ _ _ _ Hi).
    apply wp_bind. eapply wp_get_proc; [apply list_lookup_insert_eq, Hlt|]. cbv beta. apply wp_bind.
    assert (Hend : forall s2, s2 = set_table (<[i := killed_proc p]> (table s1)) s1 -> wp (release_ptable c ;; mret 0) (fun _ s' => returned c 0 s s') s2).
    { intros s2 ->. apply wp_bind. eapply wp_release; [exact Hl1|]. intros s3 Hs3 Hu3. apply wp_ret. split; [|split; [exact Hu3|split]].
      - apply (inv_same _ _ Hs3). exact (core_kill _ _ _ _ _ _ i p (inv_same _ _ Hs1 Hinv) Hi).
      - apply (keeps_same_l _ _ _ _ _ Hs1). eapply keeps_same_r; [|exact Hs3]. apply (keeps_table c s1 i p (killed_proc p) Hi).
        unfold killed_proc. intros Hr. rewrite decide_False by congruence. exact Hr.
      - rewrite (same_procs _ _ Hs3). apply Hs1. }
    change (state (set_killed true p)) with (state p). destruct (decide (state p = SLEEPING)) as [Hd|Hd].
    + eapply wp_upd; [apply list_lookup_insert_eq, Hlt|]. apply Hend. cbn [table set_table]. rewrite list_insert_insert_eq.
      unfold killed_proc. rewrite decide_True by exact Hd. reflexivity.
    + apply wp_skip, Hend. unfold killed_proc. rewrite decide_False by exact Hd. reflexivity.
  - apply wp_bind, (wp_release c _ _ Hl1). intros s2 Hs2 Hu2. apply wp_ret. split; [exact (inv_same _ _ Hs2 (inv_same _ _ Hs1 Hinv))|].
    split; [exact Hu2|]. split; [exact (keeps_same_l _ _ _ _ _ Hs1 (keeps_same _ _ _ Hs2))|]. rewrite (same_procs _ _ Hs2). apply Hs1.
Qed.

(** [kill] of a slot that does not sleep. *)
Lemma wp_kill_slot c n i p s : inv s -> unlocked s -> is_Some (cpus s !! c) -> list_find (fun q => pid q = n) (table s) = Some (i, p) -> state p <> SLEEPING ->
  wp (kill c n) (fun r s' => returned c 0 s s' /\ r = 0 /\ table s' = <[i := set_killed true p]> (table s) /\ nextpid s' = nextpid s) s.
Proof.
  intros Hinv Hu Hc Ef Hns. apply wp_and; [exact (wp_kill c n s Hinv Hu Hc)|].
  unfold kill. apply wp_bind, (wp_acquire c _ _ Hu Hc). intros s1 Hs1 Hl1. do 2 wp_step. rewrite (same_table _ _ Hs1), Ef.
    apply list_find_Some in Ef as (Hi & _). rewrite <- (same_table _ _ Hs1) in Hi |- *. pose proof (lookup_lt_Some _ _ _ Hi) as Hlt. apply wp_bind, (wp_upd _ _ _ _ _ Hi).
    apply wp_bind. eapply wp_get_proc; [apply list_lookup_insert_eq, Hlt|]. cbv beta. apply wp_bind.
    change (state (set_killed true p)) with (state p). rewrite decide_False by exact Hns. apply wp_skip. apply wp_bind. eapply wp_release; [exact Hl1|].
    intros s2 Hs2 _. apply wp_ret. split; [reflexivity|]. split; [exact (same_table _ _ Hs2)|]. rewrite (same_nextpid _ _ Hs2). exact (same_nextpid _ _ Hs1).
Qed.

(** ** exit *)

Lemma handed_wake me init n i p q ch : handed me init n i p q -> handed me init n i p (wake ch q).
Proof.
  intros Hh. unfold wake. case_decide as Hd; [|exact Hh]. destruct Hh as (H1 & H2). split; [|exact H2].
  right. cbn. split; [|reflexivity]. destruct H1 as [E1|[_ E1]]; [destruct Hd; congruence|destruct Hd; congruence].
Qed.

Definition all_handed (me : nat) (init : option nat) (n : nat) (t t2 : list proc) : Prop :=
  length t2 = length t /\ forall i x y, t !! i = Some x -> t2 !! i = Some y -> handed me init n i x y.

Lemma all_handed_wake me init n t t2 ch : all_handed me init n t t2 -> all_handed me init n t (wake ch <$> t2).
Proof.
  intros [Hl HH]. split; [rewrite length_fmap; exact Hl|]. intros i x y Hx Hy. rewrite list_lookup_fmap in Hy.
  destruct (t2 !! i) as [z|] eqn:Hz; [|discriminate]. injection Hy as <-. apply handed_wake. eauto.
Qed.

Lemma asleep_wake (t2 : list proc) ch i y : (wake ch <$> t2) !! i = Some y -> state y = SLEEPING ->
  chan y <> ch /\ t2 !! i = Some y.
Proof.
  rewrite list_lookup_fmap. destruct (t2 !! i) as [z|]; [|discriminate]. intros [= <-]. unfold wake. case_decide as Hd; [discriminate|].
  intros Hs. split; [|reflexivity]. intros Hc. auto.
Qed.

Lemma all_handed_step me init i t t2 x y q : all_handed me init i t t2 -> t !! i = Some x -> t2 !! i = Some y ->
  (parent x = Some me -> q = set_parent init y) -> (parent x <> Some me -> q = y) -> all_handed me init (S i) t (<[i := q]> t2).
Proof.
  intros [Hl HH] Hx Hy Hq1 Hq2. split; [rewrite length_insert; exact Hl|]. intros j u v Hu Hv.
  apply lookup_insert_cases in Hv as [[-> ->]|[Hne Hv]].
  - rewrite Hx in Hu. injection Hu as <-. destruct (HH i x y Hx Hy) as (A1 & A2 & A3 & A4). destruct (decide (parent x = Some me)) as [Hp|Hp].
    + rewrite (Hq1 Hp). split; [exact A1|]. split; [exact A2|]. split; [cbn; rewrite decide_True by (split; [exact Hp|lia]); reflexivity|exact A4].
    + rewrite (Hq2 Hp). split; [exact A1|]. split; [exact A2|]. split; [|exact A4]. rewrite A3, !decide_False by tauto. reflexivity.
  - destruct (HH j u v Hu Hv) as (A1 & A2 & A3 & A4). split; [exact A1|]. split; [exact A2|]. split; [|exact A4].
    rewrite A3. apply decide_iff. split; intros [B1 B2]; split; auto; lia.
Qed.

(** The state of [exit] after [n] slots. *)
Definition abandoned (me : nat) (p : proc) (s1 : pstate) (n : nat) (s' : pstate) : Prop :=
  (exists t2, s' = set_table t2 s1) /\ all_handed me (initproc s1) n (table s1) (table s') /\
  woken (initproc s1) me p (table s1) (table s') n.

Lemma wp_abandon me p i s1 s' : inv s1 -> (i < NPROC)%nat -> abandoned me p s1 i s' -> wp (abandon me i) (fun _ => abandoned me p s1 (S i)) s'.
Proof.
  intros Hinv Hi ((t2 & ->) & Hh & Hw). cbn [table set_table] in *. pose proof Hh as [Hl HH]. pose proof (t_len _ _ _ _ (k_tree _ _ _ _ _ _ Hinv)) as Ht.
  destruct (lookup_lt_is_Some_2 (table s1) i ltac:(lia)) as [x Hx]. destruct (lookup_lt_is_Some_2 t2 i ltac:(lia)) as [y Hy].
  pose proof (HH i x y Hx Hy) as Hxy. assert (Ep : parent y = parent x).
  { destruct Hxy as (_ & _ & -> & _). rewrite decide_False; [reflexivity|lia]. }
  assert (Ez : state y = ZOMBIE <-> state x = ZOMBIE) by (apply (handed_state _ _ _ _ _ _ ZOMBIE Hxy); discriminate).
  unfold abandon. apply wp_bind. eapply wp_get_proc; [exact Hy|]. cbv beta. rewrite Ep. destruct (decide (parent x = Some me)) as [Hp|Hp].
  - apply wp_bind, wp_gets. cbv beta. cbn [initproc set_table]. apply wp_bind. eapply wp_upd; [exact Hy|]. cbn [table set_table].
    set (t3 := <[i := set_parent (initproc s1) y]> t2).
    assert (Hh3 : all_handed me (initproc s1) (S i) (table s1) t3) by (eapply all_handed_step; eauto; contradiction).
    assert (Hw3 : forall ch j z, t3 !! j = Some z -> state z = SLEEPING -> (forall k v, t2 !! k = Some v -> state v = SLEEPING -> chan v <> ch) -> chan z <> ch).
    { intros ch j z Hz Hs Hch. apply lookup_insert_cases in Hz as [[-> ->]|[_ Hz]]; [exact (Hch i y Hy Hs)|exact (Hch j z Hz Hs)]. }
    destruct Hw as [W1 W2]. destruct (decide (state y = ZOMBIE)) as [Hz|Hz].
    + apply wp_modify. cbn [table set_table]. fold (wake (ChProc <$> initproc s1)). split; [exists (wake (ChProc <$> initproc s1) <$> t3); reflexivity|].
      split; [exact (all_handed_wake _ _ _ _ _ _ Hh3)|]. split.
      * intros j z Hj Hs. apply asleep_wake in Hj as [_ Hj]; [|exact Hs]. exact (Hw3 _ j z Hj Hs W1).
      * intros j u Hu Hlt Hpu Hzu k z Hk Hs. apply asleep_wake in Hk as [Hk _]; [exact Hk|exact Hs].
    + apply wp_skip. split; [exists t3; reflexivity|]. split; [exact Hh3|]. split.
      * intros j z Hj Hs. exact (Hw3 _ j z Hj Hs W1).
      * intros j u Hu Hlt Hpu Hzu k z Hk Hs. destruct (decide (j = i)) as [->|]; [rewrite Hx in Hu; injection Hu as <-; tauto|].
        exact (Hw3 _ k z Hk Hs (W2 j u Hu ltac:(lia) Hpu Hzu)).
  - apply wp_skip. split; [exists t2; reflexivity|]. cbn [table set_table]. split.
    + rewrite <- (list_insert_id t2 i y Hy). eapply all_handed_step; eauto; contradiction.
    + destruct Hw as [W1 W2]. split; [exact W1|]. intros j u Hu Hlt Hpu Hzu. destruct (decide (j = i)) as [->|]; [congruence|].
      exact (W2 j u Hu ltac:(lia) Hpu Hzu).
Qed.

(** The references of a list of descriptors. *)
Definition refs (l : list (option nat)) : gmultiset nat := list_to_set_disj (omap id l).

Lemma refs_some f l : refs (Some f :: l) = {[+ f +]} ⊎ refs l.
Proof. reflexivity. Qed.
Lemma refs_none l : refs (None :: l) = refs l.
Proof. reflexivity. Qed.
Lemma refs_snoc l x : refs (l ++ [x]) = refs l ⊎ match x with Some f => {[+ f +]} | None => ∅ end.
Proof. unfold refs. rewrite omap_app, list_to_set_disj_app. f_equal. destruct x as [f|]; [|reflexivity]. change (refs [Some f] = {[+ f +]}). rewrite refs_some. change (refs []) with (∅ : gmultiset nat). multiset_solver. Qed.

Lemma refs_close l fd f : l !! fd = Some (Some f) -> refs l = refs (<[fd := None]> l) ⊎ {[+ f +]}.
Proof.
  revert fd. induction l as [|x l IH]; intros [|fd] Hf; try discriminate.
  - injection Hf as ->. change (<[O := None]> (Some f :: l)) with (None :: l). rewrite refs_some, refs_none. multiset_solver.
  - specialize (IH fd Hf). change (<[S fd := None]> (x :: l)) with (x :: <[fd := None]> l). destruct x as [g|]; rewrite ?refs_some, ?refs_none; [multiset_solver|exact IH].
Qed.

Lemma abandoned_start me p (s1 : pstate) : table s1 !! me = Some p ->
  abandoned me p s1 0 (set_table (wake (ChProc <$> parent p) <$> table s1) s1).
Proof.
  intros Hp. split; [eauto|]. cbn [table set_table]. split.
  - apply all_handed_wake. split; [reflexivity|]. intros i x y Hx Hy. rewrite Hx in Hy. injection Hy as <-.
    split; [auto|]. split; [reflexivity|]. split; [rewrite decide_False by lia; reflexivity|repeat split].
  - split; [|lia]. intros i y Hy Hs. apply asleep_wake in Hy as [Hy _]; assumption.
Qed.

Lemma wp_exit_zombie c me p s : inv s -> unlocked s -> procs s !! c = Some (Some me) -> table s !! me = Some p ->
  initproc s <> Some me -> empty_handed p -> wp (exit_zombie c) (fun _ s' => switched c (S me) s s') s.
Proof.
  intros Hinv Hu Hc Hp Hni Hem. unfold exit_zombie. apply wp_bind, (wp_current _ _ _ _ Hc).
  apply wp_bind, (wp_acquire c _ _ Hu (cpu_exists _ _ _ Hc)). intros s1 Hs1 Hl1. pose proof (inv_same _ _ Hs1 Hinv) as Hi1.
  rewrite <- (same_procs _ _ Hs1) in Hc. rewrite <- (same_table _ _ Hs1) in Hp. rewrite <- (same_initproc _ _ Hs1) in Hni.
  apply wp_bind, (wp_get_proc _ _ _ _ Hp). apply wp_bind, wp_modify. apply wp_bind.
  eapply wp_mono.
  { apply (wp_forM (seq 0 NPROC) (abandon me) (abandoned me p s1)); [exact (abandoned_start me p s1 Hp)|].
    intros i x s' Hx Hab. apply lookup_seq in Hx as [-> Hlt]. apply (wp_abandon me p i s1 s' Hi1 Hlt Hab). }
  cbv beta. intros [] s2 ((t2 & ->) & [Hl2 Hh2] & Hw2). rewrite length_seq in *. cbn [table set_table] in *.
  pose proof (slot_below _ _ _ Hi1 Hp) as Hlt. pose proof (t_len _ _ _ _ (k_tree _ _ _ _ _ _ Hi1)) as Ht.
  destruct (lookup_lt_is_Some_2 t2 me ltac:(lia)) as [q Hq]. apply wp_bind. eapply wp_upd; [exact Hq|]. apply wp_bind, wp_modify. apply wp_bind.
  eapply wp_sched; [exact Hl1|cbn [table set_table add_event]; apply list_lookup_insert_eq; lia|discriminate|].
  intros b. cbn [table set_table add_event]. rewrite list_insert_insert_eq.
  set (z := set_context InExit b (set_state ZOMBIE q)). apply wp_back; [|exact Hc|exact Hlt|exact Hl1|].
  - apply (core_exit (table s1) t2 (nextpid s1) (initproc s1) (events s1) (env s1) (procs s1) c me p q z Hi1 Hl2 Hh2 Hc Hp Hq Hni Hem Hw2); reflexivity.
  - apply (keeps_same_l _ _ _ _ _ Hs1). apply (keeps_intro c _ _ [Exited (pid p)]); try reflexivity. intros j (x & Hx & Hs).
    assert (Hjm : j <> me) by (intros ->; destruct (running s1 c me Hi1 Hc) as (p' & Hp' & Hr & _); congruence).
    destruct (lookup_lt_is_Some_2 t2 j) as [y Hy]; [apply lookup_lt_Some in Hx; lia|]. exists y. cbn [table set_table add_event].
    rewrite list_lookup_insert_ne by congruence. split; [exact Hy|]. destruct (Hh2 j x y Hx Hy) as ([E1|[_ E1]] & _); congruence.
Qed.

(** Closing a descriptor. *)
Lemma wp_exit_file c me fd s' : inv s' -> procs s' !! c = Some (Some me) ->
  wp (exit_file me fd) (fun _ s2 => inv s2 /\ (plock s2 = plock s' /\ cpus s2 = cpus s') /\ keeps c 0 s' s2 /\ initproc s2 = initproc s' /\
    exists p q, table s' !! me = Some p /\ table s2 !! me = Some q /\ cwd q = cwd p /\ (ofile q = <[fd := None]> (ofile p))) s'.
Proof.
  intros Hinv Hc. destruct (running s' c me Hinv Hc) as (p & Hp & Hr & Hx). pose proof (lookup_lt_Some _ _ _ Hp) as Hlt.
  unfold exit_file. apply wp_bind, (wp_get_proc _ _ _ _ Hp). destruct (ofile p !! fd) as [[f|]|] eqn:Ef.
  - assert (Hf : f ∈ pfiles p).
    { unfold pfiles. apply elem_of_list_to_set_disj, list_elem_of_omap. exists (Some f). split; [exact (list_elem_of_lookup_2 _ _ _ Ef)|reflexivity]. }
    apply wp_bind, wp_on_env. eapply wp_mono; [apply (fileclose_spec _ _ f (k_rep _ _ _ _ _ _ Hinv)); exact (total_elem pfiles _ me p f Hp Hf)|].
    intros [] e He. eapply wp_upd; [exact Hp|]. set (q := set_ofile _ p). cbn [table set_env].
    assert (Hk : akin p q) by (split; [left; reflexivity|]; repeat split; [cbn; apply length_insert|left; unfold alive; auto]).
    assert (Hh : holdings (<[me := q]> (table s')) = del_file f (holdings (table s'))).
    { unfold holdings, del_file. cbn [h_stacks h_dirs h_files h_inodes]. f_equal; try (apply (total_keep _ _ me p q Hp); reflexivity).
      pose proof (total_insert pfiles (table s') me p q Hp) as T. pose proof (refs_close _ fd f Ef) as P. change (refs (ofile p)) with (pfiles p) in P. change (refs _) with (pfiles q) in P.
      pose proof (total_elem pfiles _ me p f Hp Hf). multiset_solver. }
    split; [|split; [auto|split; [|split; [reflexivity|]]]].
    + apply (core_files (table s') _ _ _ (env s') _ _ me p q Hinv Hp Hk); [reflexivity|congruence|reflexivity|]. cbn [env set_env set_table]. rewrite Hh. exact He.
    + apply (keeps_intro c _ _ []); try reflexivity; [symmetry; apply app_nil_r|]. intros j Hj. apply (runnable_insert s' me p q j Hp); [congruence|exact Hj].
    + exists p, q. split; [exact Hp|]. split; [apply list_lookup_insert_eq, Hlt|]. split; reflexivity.
  - apply wp_skip. split; [exact Hinv|]. split; [auto|]. split; [apply keeps_same; constructor; reflexivity|]. split; [reflexivity|].
    exists p, p. repeat split; auto. symmetry. apply list_insert_id, Ef.
  - apply wp_skip. split; [exact Hinv|]. split; [auto|]. split; [apply keeps_same; constructor; reflexivity|]. split; [reflexivity|].
    exists p, p. repeat split; auto. symmetry. apply list_insert_ge. apply lookup_ge_None, Ef.
Qed.

(** An operation of the rest of the kernel that keeps what is held. *)
Lemma wp_keep_env {A} (f : K E A) c (Q : A -> pstate -> Prop) s : inv s -> (forall e h, rep e h -> wp f (fun _ e' => rep e' h) e) ->
  (forall a e, inv (set_env e s) -> keeps c 0 s (set_env e s) -> Q a (set_env e s)) -> wp (on_env f) Q s.
Proof.
  intros Hinv Hf HQ. apply wp_on_env. eapply wp_mono; [apply (Hf _ _ (k_rep _ _ _ _ _ _ Hinv))|]. cbv beta. intros a e He. apply HQ.
  - exact (core_env _ _ _ _ _ _ _ Hinv He).
  - apply (keeps_intro c _ _ []); try reflexivity; [symmetry; apply app_nil_r|auto].
Qed.

Definition closing (c me : nat) (s : pstate) (p : proc) (n : nat) (s' : pstate) : Prop :=
  inv s' /\ (plock s' = plock s /\ cpus s' = cpus s) /\ keeps c 0 s s' /\ initproc s' = initproc s /\
  exists q, table s' !! me = Some q /\ cwd q = cwd p /\ forall j x, (j < n)%nat -> ofile q !! j = Some x -> x = None.

Lemma wp_exit_files c me s p : inv s -> procs s !! c = Some (Some me) -> table s !! me = Some p ->
  wp (forM (seq 0 NOFILE) (exit_file me)) (fun _ => closing c me s p NOFILE) s.
Proof.
  intros Hinv Hc Hp. replace NOFILE with (length (seq 0 NOFILE)) at 2 by reflexivity. apply wp_forM.
  - split; [exact Hinv|]. split; [auto|]. split; [apply keeps_same; constructor; reflexivity|]. split; [reflexivity|]. exists p. split; [exact Hp|]. split; [reflexivity|lia].
  - intros i x s' Hx (Hi' & [El Ec] & Hk & Ei & q & Hq & Ecwd & Hn). apply lookup_seq in Hx as [-> _]. rewrite Nat.add_0_l.
    assert (Hc' : procs s' !! c = Some (Some me)) by (unfold procs; rewrite Ec; exact Hc).
    eapply wp_mono; [apply (wp_exit_file c me i s' Hi' Hc')|]. cbv beta. intros [] s2 (Hi2 & [El2 Ec2] & Hk2 & Ei2 & q' & r & Hq' & Hr & Ecwd2 & Eo).
    rewrite Hq in Hq'. injection Hq' as <-. split; [exact Hi2|]. split; [split; congruence|]. split; [exact (keeps_trans _ 0 0 _ _ _ Hk Hk2)|].
    split; [congruence|]. exists r. split; [exact Hr|]. split; [congruence|]. intros j y Hj. rewrite Eo. intros Hy.
    apply lookup_insert_cases in Hy as [[_ ->]|[Hne Hy]]; [reflexivity|]. apply (Hn j y); [lia|exact Hy].
Qed.

Lemma wp_exit_close c me p s : inv s -> unlocked s -> procs s !! c = Some (Some me) -> table s !! me = Some p ->
  initproc s <> Some me -> is_Some (cwd p) ->
  wp (exit_close c) (fun _ s' => returned c 0 s s' /\ initproc s' = initproc s /\ exists q, table s' !! me = Some q /\ empty_handed q) s.
Proof.
  intros Hinv Hu Hc Hp Hni [ip Hip]. unfold exit_close. apply wp_bind, (wp_current _ _ _ _ Hc). apply wp_bind, wp_gets. cbv beta.
  rewrite decide_False by exact Hni. apply wp_bind. eapply wp_mono; [apply (wp_exit_files c me s p Hinv Hc Hp)|]. cbv beta.
  intros [] s1 (Hi1 & [El1 Ec1] & Hk1 & Ei1 & q & Hq & Ecwd & Hn). apply wp_bind. apply (wp_keep_env _ c _ s1 Hi1 begin_op_spec).
  intros [] e2 Hi2 Hk2. apply wp_bind. eapply wp_get_proc; [exact Hq|]. cbv beta. rewrite Ecwd, Hip. cbn [lift_opt]. apply wp_bind. eapply wp_lift_opt; [reflexivity|]. cbv beta.
  assert (Hci : ip ∈ pinode q) by (unfold pinode; rewrite Ecwd, Hip; multiset_solver).
  apply wp_bind, wp_on_env. eapply wp_mono; [apply (iput_spec _ _ ip (k_rep _ _ _ _ _ _ Hi2)); exact (total_elem pinode _ me q ip Hq Hci)|].
  intros [] e3 He3. apply wp_bind, wp_on_env. cbn [env set_env table] in *. eapply wp_mono; [apply (end_op_spec _ _ He3)|].
  intros [] e4 He4. eapply wp_upd; [exact Hq|]. set (r := set_cwd None q). cbn [table set_env].
  assert (Hc1 : procs s1 !! c = Some (Some me)) by (unfold procs; rewrite Ec1; exact Hc).
  destruct (running s1 c me Hi1 Hc1) as (q' & Hq' & Hr & Hx). rewrite Hq in Hq'. injection Hq' as <-. pose proof (lookup_lt_Some _ _ _ Hq) as Hlt.
  assert (Hh : holdings (<[me := r]> (table s1)) = del_inode ip (holdings (table s1))).
  { unfold holdings, del_inode. cbn [h_stacks h_dirs h_files h_inodes]. f_equal; try (apply (total_keep _ _ me q r Hq); reflexivity).
    rewrite (total_del pinode _ me q r Hq) by reflexivity. f_equal. unfold pinode. rewrite Ecwd, Hip. reflexivity. }
  split; [split; [|split; [|split]]|split; [exact Ei1|]].
  - apply (core_files (table s1) _ _ _ (env s1) _ _ me q r Hi1 Hq); [|reflexivity|congruence|reflexivity|cbn [env set_env set_table]; rewrite Hh; exact He4].
    split; [left; reflexivity|]. repeat split. left. unfold alive. auto.
  - unfold unlocked in *. cbn. rewrite El1, Ec1. exact Hu.
  - apply (keeps_trans c 0 0 _ _ _ Hk1). apply (keeps_intro c _ _ []); try reflexivity; [symmetry; apply app_nil_r|].
    intros j Hj. apply (runnable_insert s1 me q r j Hq); [congruence|exact Hj].
  - change (procs s1 = procs s). unfold procs. rewrite Ec1. reflexivity.
  - exists r. split; [apply list_lookup_insert_eq, Hlt|]. split; [|reflexivity]. apply Forall_lookup. intros j x Hj. apply (Hn j x); [|exact Hj].
    rewrite <- (s_ofile _ _ _ _ _ _ (t_slot _ _ _ _ (k_tree _ _ _ _ _ _ Hi1) me q Hq)). exact (lookup_lt_Some _ _ _ Hj).
Qed.

(** ** growproc *)

Lemma wp_switchuvm_unlocked c i p (Q : unit -> pstate -> Prop) s : unlocked s -> is_Some (cpus s !! c) -> table s !! i = Some p -> pgdir p <> 0 ->
  (forall s', same s s' -> unlocked s' -> Q tt s') -> wp (switchuvm c i) Q s.
Proof.
  intros [Hl Hn] [k Hk] Hi Hd HQ. unfold switchuvm. apply wp_bind, (wp_get_cpu _ _ _ _ Hk). apply wp_bind, (wp_get_proc _ _ _ _ Hi).
  rewrite (proj2 (Z.eqb_neq _ _) Hd). pose proof (Forall_lookup_1 _ _ _ _ Hn Hk) as Hk0. cbv beta in Hk0. apply wp_bind. eapply wp_lift_res.
  { unfold popcli, pushcli. rewrite Hk0. reflexivity. }
  apply wp_modify, HQ; [apply same_put|]. split; [exact Hl|]. apply Forall_lookup. intros d k'. cbn [cpus set_cpus]. rewrite (lookup_put_cpu _ _ _ _ _ Hk).
  case_decide; [intros [= <-]; reflexivity|intros Hk'; exact (Forall_lookup_1 _ _ _ _ Hn Hk')].
Qed.

Lemma wp_growproc c me n s : inv s -> unlocked s -> procs s !! c = Some (Some me) -> wp (growproc c n) (fun _ s' => returned c 0 s s') s.
Proof.
  intros Hinv Hu Hc. unfold growproc. apply wp_bind, (wp_current _ _ _ _ Hc). destruct (running s c me Hinv Hc) as (p & Hp & Hr & Hx).
  apply wp_bind, (wp_get_proc _ _ _ _ Hp). cbv zeta.
  assert (Hus : state p <> UNUSED) by congruence. assert (Hd : pgdir p ∈ h_dirs (holdings (table s))) by exact (held_dir _ _ _ Hp Hus).
  assert (Hfin : forall x e, rep e (holdings (table s)) ->
    wp (upd me (set_sz x) ;; switchuvm c me ;; mret 0) (fun _ s' => returned c 0 s s') (set_env e s)).
  { intros x e He. apply wp_bind. eapply wp_upd; [exact Hp|]. cbn [table set_env]. apply wp_bind. pose proof (lookup_lt_Some _ _ _ Hp) as Hlt.
    eapply wp_switchuvm_unlocked; [exact Hu|exact (cpu_exists _ _ _ Hc)|cbn; apply list_lookup_insert_eq, Hlt| |].
    { apply (s_dir _ _ _ _ _ _ (t_slot _ _ _ _ (k_tree _ _ _ _ _ _ Hinv) me p Hp)). exact Hus. }
    intros s' Hs' Hu'. apply wp_ret. split; [|split; [exact Hu'|split; [|exact (same_procs _ _ Hs')]]].
    - apply (inv_same _ _ Hs'). apply (inv_running (set_env e s) c me p); [exact (core_env _ _ _ _ _ _ _ Hinv He)|auto..]. apply similar_intro; auto.
    - eapply keeps_same_r; [|exact Hs']. apply (keeps_intro c _ _ []); try reflexivity; [symmetry; apply app_nil_r|].
      intros j Hj. apply (runnable_insert s me p (set_sz x p) j Hp); [auto|exact Hj]. }
  assert (Hfail : forall e, rep e (holdings (table s)) -> returned c 0 s (set_env e s)).
  { intros e He. split; [exact (core_env _ _ _ _ _ _ _ Hinv He)|]. split; [exact Hu|]. split; [|reflexivity].
    apply (keeps_intro c _ _ []); try reflexivity; [symmetry; apply app_nil_r|auto]. }
  destruct (0 <? n); [|destruct (n <? 0)].
  - apply wp_bind, wp_on_env. eapply wp_mono; [apply (allocuvm_spec _ _ _ _ _ (k_rep _ _ _ _ _ _ Hinv) Hd)|]. cbv beta. intros x e He.
    destruct (x =? 0); [apply wp_ret, Hfail, He|apply Hfin, He].
  - apply wp_bind, wp_on_env. eapply wp_mono; [apply (deallocuvm_spec _ _ _ _ _ (k_rep _ _ _ _ _ _ Hinv) Hd)|]. cbv beta. intros x e He.
    destruct (x =? 0); [apply wp_ret, Hfail, He|apply Hfin, He].
  - specialize (Hfin (sz p) (env s) (k_rep _ _ _ _ _ _ Hinv)). destruct s. exact Hfin.
Qed.

(** ** fork *)

(** The slot [allocproc] prepares. *)
Definition embryo (n k : Z) (u : proc) : proc :=
  set_context AtForkret false (set_kstack k (set_selectlock (initlock "select") (set_pid n (set_state EMBRYO u)))).

Lemma unused_holdings t i u v : t !! i = Some u -> state u = UNUSED -> state v = UNUSED -> ofile v = ofile u -> cwd v = cwd u ->
  holdings (<[i := v]> t) = holdings t.
Proof.
  intros Hi Hu Hv Ho Hc. unfold holdings. f_equal; apply (total_keep _ t i u v Hi); unfold pstack, pdir, pfiles, pinode; rewrite ?Hu, ?Hv, ?Ho, ?Hc; reflexivity.
Qed.

(** A slot that was prepared is given back. *)
Lemma inv_give_back c (s : pstate) i u v e s' : inv s -> table s !! i = Some u -> state u = UNUSED -> state v = UNUSED -> parent v = None ->
  ofile v = ofile u -> cwd v = cwd u -> rep e (holdings (table s)) ->
  table s' = <[i := v]> (table s) -> nextpid s' = nextpid s + 1 -> initproc s' = initproc s -> events s' = events s -> env s' = e -> procs s' = procs s ->
  inv s' /\ keeps c 1 s s'.
Proof.
  intros Hinv Hi Hu Hv Hpv Ho Hc He E1 E2 E3 E4 E5 E6. split.
  - unfold inv. rewrite E1, E2, E3, E4, E5, E6. apply (core_fill _ _ _ _ (env s) _ _ i u v _ Hinv Hi Hu).
    + apply filled_none; assumption.
    + intros me p Hp. congruence.
    + rewrite (unused_holdings _ i u v) by assumption. exact He.
  - constructor; rewrite ?E2, ?E6; [lia|auto|reflexivity|exists []; rewrite app_nil_r; exact E4|].
    intros j Hj. right. unfold runnable. rewrite E1. apply (runnable_insert s i u v j Hi); [congruence|exact Hj].
Qed.

Lemma wp_allocproc c s : inv s -> locked_by c s -> nextpid s < 2147483647 ->
  wp allocproc (fun r s' => locked_by c s' /\
    match r with
    | None => inv s' /\ keeps c 1 s s' /\ procs s' = procs s
    | Some i => exists u k e, list_find (fun q => state q = UNUSED) (table s) = Some (i, u) /\ k <> 0 /\ rep e (add_stack k (holdings (table s))) /\
        s' = set_env e (set_nextpid (nextpid s + 1) (set_table (<[i := embryo (nextpid s) k u]> (table s)) s))
    end) s.
Proof.
  intros Hinv Hl Hn. unfold allocproc. do 2 wp_step. destruct (list_find _ (table s)) as [[i u]|] eqn:Ef.
  - pose proof Ef as Ef'. apply list_find_Some in Ef as (Hi & Hu & _). pose proof (lookup_lt_Some _ _ _ Hi) as Hlt. do 2 wp_step.
    apply wp_bind, (wp_upd _ _ _ _ _ Hi). do 2 wp_step. pose proof (t_np _ _ _ _ (k_tree _ _ _ _ _ _ Hinv)).
    rewrite s32_id by (unfold is_s32; lia). cbn [table set_table set_nextpid].
    apply wp_bind. eapply wp_upd; [apply list_lookup_insert_eq, Hlt|]. cbn [table set_table set_nextpid]. rewrite list_insert_insert_eq.
    apply wp_bind, wp_on_env. cbn [env set_table set_nextpid]. eapply wp_mono; [apply (kalloc_spec _ _ (k_rep _ _ _ _ _ _ Hinv))|]. cbv beta.
    intros k e He. apply wp_bind. eapply wp_upd; [apply list_lookup_insert_eq, Hlt|]. cbn [table set_table set_nextpid set_env]. rewrite list_insert_insert_eq.
    destruct He as [[-> He]|[Hk He]].
    + cbn [Z.eqb]. apply wp_bind. eapply wp_upd; [apply list_lookup_insert_eq, Hlt|]. cbn [table set_table set_nextpid set_env]. rewrite list_insert_insert_eq. apply wp_ret.
      split; [exact Hl|]. match goal with |- ?A /\ ?B /\ _ => cut (A /\ B); [intros [? ?]; auto|] end.
      eapply (inv_give_back c s i u); [exact Hinv|exact Hi|exact Hu|..|reflexivity|reflexivity|reflexivity|reflexivity|reflexivity|reflexivity]; try reflexivity; [|exact He].
      exact (s_unused _ _ _ _ _ _ (t_slot _ _ _ _ (k_tree _ _ _ _ _ _ Hinv) i u Hi) Hu).
    + rewrite (proj2 (Z.eqb_neq _ _) Hk). apply wp_bind. eapply wp_upd; [apply list_lookup_insert_eq, Hlt|]. cbn [table set_table set_nextpid set_env].
      rewrite list_insert_insert_eq. apply wp_ret. split; [exact Hl|]. exists u, k, e. repeat split; auto.
  - apply wp_ret. split; [exact Hl|]. split; [exact Hinv|]. split; [|reflexivity]. constructor; auto; [lia|exists []; symmetry; apply app_nil_r].
Qed.

(** The descriptors are duplicated. *)
Definition copying (i me : nat) (s : pstate) (p q0 : proc) (h : held) (n : nat) (s' : pstate) : Prop :=
  exists e q, s' = set_env e (set_table (<[i := q]> (table s)) s) /\ q = set_ofile (take n (ofile p) ++ drop n (ofile q0)) q0 /\
  rep e (Held (h_stacks h) (h_dirs h) (h_files h ⊎ refs (take n (ofile p))) (h_inodes h)).

Lemma wp_fork_files i me s p q0 h : table s !! me = Some p -> table s !! i = Some q0 -> i <> me ->
  length (ofile p) = NOFILE -> length (ofile q0) = NOFILE -> Forall (fun f => f = None) (ofile q0) ->
  (forall f, f ∈ refs (ofile p) -> f ∈ h_files h) -> rep (env s) h ->
  wp (forM (seq 0 NOFILE) (fork_file me i)) (fun _ => copying i me s p q0 h NOFILE) s.
Proof.
  intros Hp Hi Hne Hlp Hlq Hnone Hf Hrep. replace NOFILE with (length (seq 0 NOFILE)) at 2 by reflexivity.
  pose proof (lookup_lt_Some _ _ _ Hi) as Hlt. apply wp_forM.
  - exists (env s), q0. rewrite take_0, drop_0. cbn [app]. split; [|split].
    + rewrite list_insert_id by exact Hi. destruct s. reflexivity.
    + destruct q0. reflexivity.
    + replace (h_files h ⊎ refs []) with (h_files h) by (change (refs []) with (∅ : gmultiset nat); multiset_solver). destruct h. exact Hrep.
  - intros fd x s' Hx (e & q & -> & Eq & He). apply lookup_seq in Hx as [-> Hfd]. rewrite Nat.add_0_l in *. unfold fork_file.
    apply wp_bind. eapply wp_get_proc; [cbn; rewrite list_lookup_insert_ne by exact Hne; exact Hp|]. cbv beta.
    destruct (lookup_lt_is_Some_2 (ofile p) fd ltac:(lia)) as [o Ho]. destruct (lookup_lt_is_Some_2 (ofile q0) fd ltac:(lia)) as [o' Ho'].
    pose proof (Forall_lookup_1 _ _ _ _ Hnone Ho') as Eo'. cbv beta in Eo'. subst o'. rewrite Ho.
    assert (Et : take (S fd) (ofile p) = take fd (ofile p) ++ [o]) by exact (take_S_r _ _ _ Ho).
    assert (Ed : drop fd (ofile q0) = None :: drop (S fd) (ofile q0)) by exact (drop_S _ _ _ Ho').
    assert (Elen : length (take fd (ofile p)) = fd) by (rewrite length_take; lia).
    destruct o as [f|].
    + assert (Hin : f ∈ refs (ofile p)) by (apply elem_of_list_to_set_disj, list_elem_of_omap; exists (Some f); split; [exact (list_elem_of_lookup_2 _ _ _ Ho)|reflexivity]).
      apply wp_bind, wp_on_env. cbn [env set_env]. eapply wp_mono; [apply (filedup_spec _ _ f He); cbn [h_files]; pose proof (Hf f Hin); multiset_solver|].
      cbv beta. intros f' e' [-> He']. eapply wp_upd; [apply list_lookup_insert_eq, Hlt|]. cbn [table set_table set_env]. rewrite list_insert_insert_eq.
      exists e'. eexists. split; [reflexivity|]. split.
      * rewrite Eq. cbn [set_ofile ofile sz pgdir kstack state pid parent tf context saved chan killed cwd pname selectlock].
        unfold set_ofile. cbn. f_equal. rewrite insert_app_r_alt, Elen, Nat.sub_diag, Ed, Et by lia. cbn. rewrite <- app_assoc. reflexivity.
      * rewrite Et, refs_snoc, (assoc_L (⊎)). exact He'.
    + apply wp_skip. exists e, q. split; [reflexivity|]. split.
      * rewrite Eq, Ed, Et, <- app_assoc. reflexivity.
      * rewrite Et, refs_snoc. replace (refs (take fd (ofile p)) ⊎ ∅) with (refs (take fd (ofile p))) by multiset_solver. exact He.
Qed.

Lemma stack_added k h : k ∈ h_stacks (add_stack k h).
Proof. cbn [h_stacks add_stack]. multiset_solver. Qed.
Lemma del_add_stack k h : del_stack k (add_stack k h) = h.
Proof. destruct h as [a b c d]. unfold del_stack, add_stack. cbn [h_stacks h_dirs h_files h_inodes]. f_equal. multiset_solver. Qed.
Lemma pinode_cwd p ip : cwd p = Some ip -> ip ∈ pinode p.
Proof. intros E1. unfold pinode. rewrite E1. multiset_solver. Qed.

(** The child of [p] in a slot that was [u]. *)
Definition child (me : nat) (p : proc) (n k d : Z) (u : proc) : proc :=
  set_tf (set_eax 0 (tf p)) (set_parent (Some me) (set_sz (sz p) (set_pgdir d (embryo n k u)))).
Definition full_child (me : nat) (p : proc) (n k d : Z) (ip : nat) (u : proc) : proc :=
  set_state RUNNABLE (set_name (pname p) (set_cwd (Some ip) (set_ofile (ofile p) (child me p n k d u)))).

Lemma child_holdings t i u me p n k d ip : t !! i = Some u -> state u = UNUSED -> empty_handed u ->
  holdings (<[i := full_child me p n k d ip u]> t) =
  add_inode ip (Held (h_stacks (holdings t) ⊎ {[+ k +]}) (h_dirs (holdings t) ⊎ {[+ d +]}) (h_files (holdings t) ⊎ refs (ofile p)) (h_inodes (holdings t))).
Proof.
  intros Hi Hu [Ho Hc]. unfold holdings, add_inode. cbn [h_stacks h_dirs h_files h_inodes]. f_equal.
  - rewrite (total_add pstack t i u _ Hi); [reflexivity|]. unfold pstack. rewrite Hu. reflexivity.
  - rewrite (total_add pdir t i u _ Hi); [reflexivity|]. unfold pdir. rewrite Hu. reflexivity.
  - rewrite (total_add pfiles t i u _ Hi); [reflexivity|]. unfold pfiles. clear -Ho. induction Ho as [|x l -> Ho IH]; [reflexivity|exact IH].
  - rewrite (total_add pinode t i u _ Hi); [reflexivity|]. unfold pinode. rewrite Hc. reflexivity.
Qed.

(** The result of [fork]: an error, or a child that is a copy of its parent. *)
Definition forked (me : nat) (p : proc) (r : Z) (s s' : pstate) : Prop :=
  r = -1 \/ exists i u k d ip, list_find (fun q => state q = UNUSED) (table s) = Some (i, u) /\ cwd p = Some ip /\ r = nextpid s /\
    table s' !! i = Some (full_child me p r k d ip u).

(** The second half of [fork], for a slot and an address space that were allocated. *)
Lemma wp_fork_child c me p i u k d e (s1 s2 : pstate) : inv s1 -> locked_by c s1 -> procs s1 !! c = Some (Some me) -> table s1 !! me = Some p ->
  is_Some (cwd p) -> list_find (fun q => state q = UNUSED) (table s1) = Some (i, u) -> k <> 0 -> d <> 0 -> rep e (add_dir d (add_stack k (holdings (table s1)))) ->
  s2 = set_env e (set_nextpid (nextpid s1 + 1) (set_table (<[i := child me p (nextpid s1) k d u]> (table s1)) s1)) ->
  wp (forM (seq 0 NOFILE) (fork_file me i) ;;
      ip ← lift_opt "idup of a null pointer" (cwd p);
      ip' ← on_env (idup ip);
      upd i (fun q => set_name (pname p) (set_cwd (Some ip') q)) ;;
      q ← get_proc i;
      upd i (set_state RUNNABLE) ;;
      modify (add_event (Forked (pid p) (pid q))) ;;
      release_ptable c ;; mret (pid q)) (fun r s' => returned c 1 s1 s' /\ forked me p r s1 s') s2.
Proof.
  intros Hinv Hl Hc Hp [ip Hip] Hfind Hk Hd He E2. pose proof Hfind as Hfind'. apply list_find_Some in Hfind' as (Hi & Hu & _). destruct (running s1 c me Hinv Hc) as (p' & Hp' & Hr & _). rewrite Hp in Hp'. injection Hp' as <-.
  assert (Hne : i <> me) by congruence. pose proof (lookup_lt_Some _ _ _ Hi) as Hlt.
  pose proof (t_slot _ _ _ _ (k_tree _ _ _ _ _ _ Hinv) i u Hi) as Su. pose proof (t_slot _ _ _ _ (k_tree _ _ _ _ _ _ Hinv) me p Hp) as Sp.
  pose proof (s_empty _ _ _ _ _ _ Su (not_alive_unused u Hu)) as Hem. set (q1 := child me p (nextpid s1) k d u) in *.
  apply wp_bind. eapply wp_mono.
  { apply (wp_fork_files i me s2 p q1 (add_dir d (add_stack k (holdings (table s1))))); rewrite ?E2; cbn [table set_env set_nextpid set_table]; auto.
    - rewrite list_lookup_insert_ne by exact Hne. exact Hp.
    - apply list_lookup_insert_eq, Hlt.
    - apply Sp.
    - exact (s_ofile _ _ _ _ _ _ Su).
    - apply Hem.
    - intros f Hf. exact (total_elem pfiles _ me p f Hp Hf). }
  cbv beta. intros [] s3 (e3 & q & -> & Eq & He3). rewrite take_ge in Eq, He3 by (rewrite (s_ofile _ _ _ _ _ _ Sp); lia).
  change (ofile q1) with (ofile u) in Eq. rewrite drop_ge, app_nil_r in Eq by (rewrite (s_ofile _ _ _ _ _ _ Su); lia).
  apply wp_bind. eapply wp_lift_opt; [exact Hip|]. cbv beta. apply wp_bind, wp_on_env. cbn [env set_env].
  assert (Hin : ip ∈ pinode p) by exact (pinode_cwd p ip Hip).
  eapply wp_mono; [apply (idup_spec _ _ ip He3); exact (total_elem pinode _ me p ip Hp Hin)|]. cbv beta. intros ip' e4 [-> He4].
  assert (E2t : table s2 = <[i := q1]> (table s1)) by (rewrite E2; reflexivity).
  apply wp_bind. eapply wp_upd; [cbn; rewrite E2t, list_insert_insert_eq; apply list_lookup_insert_eq, Hlt|]. cbn [table set_table set_env]. rewrite E2t, !list_insert_insert_eq.
  apply wp_bind. eapply wp_get_proc; [apply list_lookup_insert_eq, Hlt|]. cbv beta. apply wp_bind. eapply wp_upd; [apply list_lookup_insert_eq, Hlt|].
  cbn [table set_table set_env]. rewrite !list_insert_insert_eq. apply wp_bind, wp_modify. apply wp_bind.
  eapply wp_release; [rewrite E2; exact Hl|]. intros s5 Hs5 Hu5. apply wp_ret. rewrite Eq in *. cbn [pid set_name set_cwd set_ofile].
  change (pid q1) with (nextpid s1) in *. change (set_state RUNNABLE (set_name (pname p) (set_cwd (Some ip) (set_ofile (ofile p) q1)))) with (full_child me p (nextpid s1) k d ip u) in *.
  set (v := full_child me p (nextpid s1) k d ip u) in *. assert (Et : table s5 = <[i := v]> (table s1)) by exact (same_table _ _ Hs5).
  assert (Ev : events s5 = events s1 ++ [Forked (pid p) (nextpid s1)]) by (rewrite (same_events _ _ Hs5), E2; reflexivity).
  assert (En : nextpid s5 = nextpid s1 + 1) by (rewrite (same_nextpid _ _ Hs5), E2; reflexivity).
  assert (Ei : initproc s5 = initproc s1) by (rewrite (same_initproc _ _ Hs5), E2; reflexivity).
  assert (Ep : procs s5 = procs s1) by (rewrite (same_procs _ _ Hs5), E2; reflexivity).
  assert (Ee : env s5 = e4) by (rewrite (same_env _ _ Hs5); reflexivity).
  split; [split; [|split; [exact Hu5|split; [|exact Ep]]]|].
  - unfold inv. rewrite Et, Ev, En, Ei, Ep, Ee. apply (core_fill _ _ _ _ (env s1) _ _ i u v _ Hinv Hi Hu).
    + apply (filled_child _ _ _ _ _ me p); auto; [|unfold alive; auto]. exact (s_ofile _ _ _ _ _ _ Sp).
    + intros me' x [= <-] Hx. congruence.
    + unfold v. rewrite (child_holdings _ i u) by assumption. exact He4.
  - constructor; rewrite ?En, ?Ep; [lia|auto|reflexivity|eauto|].
    intros j Hj. right. unfold runnable. rewrite Et. apply (runnable_insert s1 i u v j Hi); [congruence|exact Hj].
  - right. exists i, u, k, d, ip. rewrite Et. repeat split; auto. apply list_lookup_insert_eq, Hlt.
Qed.

Lemma wp_fork c me p s : inv s -> unlocked s -> procs s !! c = Some (Some me) -> table s !! me = Some p -> is_Some (cwd p) -> nextpid s < 2147483647 ->
  wp (fork c) (fun r s' => returned c 1 s s' /\ forked me p r s s') s.
Proof.
  intros Hinv Hu Hc Hp Hcwd Hn. unfold fork. apply wp_bind, (wp_current _ _ _ _ Hc). apply wp_bind, (wp_acquire c _ _ Hu (cpu_exists _ _ _ Hc)).
  intros s1 Hs1 Hl1. pose proof (inv_same _ _ Hs1 Hinv) as Hi1. rewrite <- (same_procs _ _ Hs1) in Hc. rewrite <- (same_table _ _ Hs1) in Hp. rewrite <- (same_nextpid _ _ Hs1) in Hn.
  assert (Hret : forall r s', returned c 1 s1 s' /\ forked me p r s1 s' -> returned c 1 s s' /\ forked me p r s s').
  { intros r s' ((A1 & A2 & A3 & A4) & A5). split; [split; [exact A1|split; [exact A2|split; [exact (keeps_same_l _ _ _ _ _ Hs1 A3)|rewrite A4; apply Hs1]]]|].
    unfold forked in *. rewrite <- (same_table _ _ Hs1), <- (same_nextpid _ _ Hs1). exact A5. }
  destruct (running s1 c me Hi1 Hc) as (p' & Hp' & Hr & _). rewrite Hp in Hp'. injection Hp' as <-.
  apply wp_bind. eapply wp_mono; [apply (wp_allocproc c s1 Hi1 Hl1 Hn)|]. cbv beta. intros [i|] s2 [Hl2 Hpost].
  - destruct Hpost as (u & k & e & Hfind & Hk & He & ->). pose proof Hfind as Hfind'. apply list_find_Some in Hfind' as (Hi & Hui & _). assert (Hne : i <> me) by congruence. pose proof (lookup_lt_Some _ _ _ Hi) as Hlt.
    apply wp_bind. eapply wp_get_proc; [cbn; rewrite list_lookup_insert_ne by exact Hne; exact Hp|]. cbv beta.
    apply wp_bind, wp_on_env. cbn [env set_env]. assert (Hus : state p <> UNUSED) by congruence.
    eapply wp_mono; [apply (copyuvm_spec _ _ (pgdir p) (sz p) He); exact (held_dir _ _ _ Hp Hus)|]. cbv beta. intros d e2 He2.
    apply wp_bind. eapply wp_upd; [apply list_lookup_insert_eq, Hlt|]. cbn [table set_table set_env set_nextpid]. rewrite list_insert_insert_eq.
    destruct He2 as [[-> He2]|[Hd He2]].
    + cbn [Z.eqb]. apply wp_bind. eapply wp_get_proc; [apply list_lookup_insert_eq, Hlt|]. cbv beta. apply wp_bind, wp_on_env. cbn [env set_env set_table].
      eapply wp_mono; [apply (kfree_spec _ _ k He2), stack_added|]. cbv beta. intros [] e3 He3.
      apply wp_bind. eapply wp_upd; [apply list_lookup_insert_eq, Hlt|]. cbn [table set_table set_env set_nextpid]. rewrite list_insert_insert_eq.
      apply wp_bind. eapply wp_release; [exact Hl1|]. intros s5 Hs5 Hu5. apply wp_ret, Hret. split; [|left; reflexivity].
      rewrite del_add_stack in He3. match goal with |- context [returned c 1 s1 s5] => cut (inv s5 /\ keeps c 1 s1 s5); [intros [? ?]; split; [assumption|split; [exact Hu5|split; [assumption|exact (same_procs _ _ Hs5)]]]|] end.
      eapply (inv_give_back c s1 i u); [exact Hi1|exact Hi|exact Hui|..|exact (same_table _ _ Hs5)|exact (same_nextpid _ _ Hs5)|exact (same_initproc _ _ Hs5)|exact (same_events _ _ Hs5)|exact (same_env _ _ Hs5)|exact (same_procs _ _ Hs5)]; try reflexivity; [|exact He3].
      exact (s_unused _ _ _ _ _ _ (t_slot _ _ _ _ (k_tree _ _ _ _ _ _ Hi1) i u Hi) Hui).
    + rewrite (proj2 (Z.eqb_neq _ _) Hd). apply wp_bind. eapply wp_upd; [apply list_lookup_insert_eq, Hlt|]. cbn [table set_table set_env set_nextpid]. rewrite list_insert_insert_eq.
      eapply wp_mono; [|exact Hret].
      apply (wp_fork_child c me p i u k d e2 s1 _ Hi1 Hl1 Hc Hp Hcwd Hfind Hk Hd He2).
      unfold set_env, set_nextpid, set_table. cbn [table nextpid initproc first plock cpus env events]. reflexivity.
  - destruct Hpost as (Hi2 & Hk2 & Ep2). apply wp_bind, (wp_release c _ _ Hl2). intros s3 Hs3 Hu3. apply wp_ret, Hret. split; [|left; reflexivity].
    split; [exact (inv_same _ _ Hs3 Hi2)|]. split; [exact Hu3|]. split; [exact (keeps_same_r _ _ _ _ _ Hk2 Hs3)|]. rewrite (same_procs _ _ Hs3). exact Ep2.
Qed.

(** ** Runs *)

Inductive op :=
  | Fork (c : nat)
  | ExitClose (c : nat)
  | ExitZombie (c : nat)
  | Wait (c : nat)
  | Yield (c : nat)
  | Sleep (c : nat) (a : Z)
  | Wakeup (c : nat) (ch : option chan_t)
  | Kill (c : nat) (n : Z)
  | Grow (c : nat) (n : Z)
  | Pass (c : nat).

Definition op_cpu (o : op) : nat :=
  match o with
  | Fork c | ExitClose c | ExitZombie c | Wait c | Yield c | Sleep c _ | Wakeup c _ | Kill c _ | Grow c _ | Pass c => c
  end.
(** The operations in which the CPU looks for another process. *)
Definition schedules (o : op) : bool := match o with ExitZombie _ | Yield _ | Sleep _ _ | Pass _ => true | _ => false end.

Definition run_op (o : op) : K pstate unit :=
  match o with
  | Fork c => _ ← fork c; skip
  | ExitClose c => exit_close c
  | ExitZombie c => exit_zombie c
  | Wait c => wait c
  | Yield c => yield c
  | Sleep c a => sleep_on c a
  | Wakeup c ch => wakeup c ch
  | Kill c n => _ ← kill c n; skip
  | Grow c n => _ ← growproc c n; skip
  | Pass c => scheduler c
  end.

(** An operation is made by the process of a CPU; [exit] comes in its two parts, in which other CPUs may run in between. *)
Definition legal (o : op) (s : pstate) : Prop :=
  match o with
  | Pass c => procs s !! c = Some None
  | Wakeup c _ | Kill c _ => is_Some (cpus s !! c)
  | Wait c | Yield c | Sleep c _ | Grow c _ => exists me, procs s !! c = Some (Some me)
  | Fork c => exists me p, procs s !! c = Some (Some me) /\ table s !! me = Some p /\ is_Some (cwd p)
  | ExitClose c => exists me p, procs s !! c = Some (Some me) /\ table s !! me = Some p /\ is_Some (cwd p) /\ initproc s <> Some me
  | ExitZombie c => exists me p, procs s !! c = Some (Some me) /\ table s !! me = Some p /\ empty_handed p /\ initproc s <> Some me
  end.

Inductive runs_to : list op -> pstate -> pstate -> Prop :=
  | runs_nil s : runs_to [] s s
  | runs_cons o os s1 s2 s3 : legal o s1 -> run_op o s1 = Ok (tt, s2) -> runs_to os s2 s3 -> runs_to (o :: os) s1 s3.

(** Where the scheduler of CPU [c] looks next. *)
Definition position (s : pstate) (c : nat) : nat := match procs s !! c with Some (Some i) => S i | _ => O end.

Definition moved (o : op) (s s' : pstate) : Prop :=
  landed (op_cpu o) (position s (op_cpu o)) s s' \/ schedules o = false /\ procs s' = procs s.

Lemma keeps_weaken c (s s' : pstate) : keeps c 0 s s' -> keeps c 1 s s'.
Proof. intros [K1 K2 K3 K4 K5]. constructor; auto. lia. Qed.

Lemma wp_op o s : inv s -> unlocked s -> legal o s -> nextpid s < 2147483647 ->
  wp (run_op o) (fun _ s' => inv s' /\ unlocked s' /\ keeps (op_cpu o) 1 s s' /\ moved o s s') s.
Proof.
  intros Hinv Hu Hlegal Hn.
  assert (Hret : forall n s', 0 <= n <= 1 -> returned (op_cpu o) n s s' -> schedules o = false -> inv s' /\ unlocked s' /\ keeps (op_cpu o) 1 s s' /\ moved o s s').
  { intros n s' H01 (A1 & A2 & A3 & A4) Hs. split; [exact A1|]. split; [exact A2|]. split; [|right; auto]. destruct A3 as [K1 K2 K3 K4 K5]. constructor; auto. lia. }
  assert (Hsw : forall s', switched (op_cpu o) (position s (op_cpu o)) s s' -> inv s' /\ unlocked s' /\ keeps (op_cpu o) 1 s s' /\ moved o s s').
  { intros s' (A1 & A2 & A3 & A4). split; [exact A1|]. split; [exact A2|]. split; [exact (keeps_weaken _ _ _ A3)|left; exact A4]. }
  destruct o as [c|c|c|c|c|c a|c ch|c n|c n|c]; cbn [run_op legal op_cpu schedules] in *.
  - destruct Hlegal as (me & p & Hc & Hp & Hcwd). apply wp_bind. eapply wp_mono; [apply (wp_fork c me p s); auto|]. cbv beta. intros r s' [Hr _]. apply wp_skip, (Hret 1); auto. lia.
  - destruct Hlegal as (me & p & Hc & Hp & Hcwd & Hi). eapply wp_mono; [apply (wp_exit_close c me p s); auto|]. cbv beta. intros [] s' [Hr _]. apply (Hret 0); auto. lia.
  - destruct Hlegal as (me & p & Hc & Hp & Hem & Hi). eapply wp_mono; [apply (wp_exit_zombie c me p s); auto|]. cbv beta. intros [] s' Hr. apply Hsw. unfold position. rewrite Hc. exact Hr.
  - destruct Hlegal as (me & Hc). eapply wp_mono; [apply (wp_wait c me s); auto|]. cbv beta. intros [] s' [Hr|Hr]; [apply Hsw; unfold position; rewrite Hc; exact Hr|apply (Hret 0); auto; lia].
  - destruct Hlegal as (me & Hc). eapply wp_mono; [apply (wp_yield c me s); auto|]. cbv beta. intros [] s' Hr. apply Hsw. unfold position. rewrite Hc. exact Hr.
  - destruct Hlegal as (me & Hc). eapply wp_mono; [apply (wp_sleep_on c a me s); auto|]. cbv beta. intros [] s' Hr. apply Hsw. unfold position. rewrite Hc. exact Hr.
  - eapply wp_mono; [apply (wp_wakeup c ch s); auto|]. cbv beta. intros [] s' Hr. apply (Hret 0); auto. lia.
  - apply wp_bind. eapply wp_mono; [apply (wp_kill c n s); auto|]. cbv beta. intros r s' Hr. apply wp_skip, (Hret 0); auto. lia.
  - destruct Hlegal as (me & Hc). apply wp_bind. eapply wp_mono; [apply (wp_growproc c me n s); auto|]. cbv beta. intros r s' Hr. apply wp_skip, (Hret 0); auto. lia.
  - eapply wp_mono; [apply (wp_scheduler c s); auto|]. cbv beta. intros [] s' Hr. apply Hsw. unfold position. rewrite Hlegal. exact Hr.
Qed.

Lemma run_op_post o s s' : inv s -> unlocked s -> legal o s -> nextpid s < 2147483647 -> run_op o s = Ok (tt, s') ->
  inv s' /\ unlocked s' /\ keeps (op_cpu o) 1 s s' /\ moved o s s'.
Proof. intros Hi Hu Hl Hn Er. exact (wp_returns _ _ _ _ _ (wp_op o s Hi Hu Hl Hn) Er). Qed.

Lemma runs_to_inv os s s' : runs_to os s s' -> inv s -> unlocked s -> nextpid s + Z.of_nat (length os) < 2147483648 ->
  inv s' /\ unlocked s' /\ nextpid s <= nextpid s' <= nextpid s + Z.of_nat (length os).
Proof.
  induction 1 as [s|o os s1 s2 s3 Hl Hr _ IH]; intros Hi Hu Hn; cbn [length] in *; [split; [exact Hi|split; [exact Hu|lia]]|].
  destruct (run_op_post o s1 s2 Hi Hu Hl ltac:(lia) Hr) as (Hi2 & Hu2 & Hk & _). pose proof (kp_next _ _ _ _ Hk).
  destruct (IH Hi2 Hu2 ltac:(lia)) as (Hi3 & Hu3 & Hn3). split; [exact Hi3|]. split; [exact Hu3|lia].
Qed.

Lemma runs_to_events os s s' : runs_to os s s' -> inv s -> unlocked s -> nextpid s + Z.of_nat (length os) < 2147483648 ->
  exists evs, events s' = events s ++ evs.
Proof.
  induction 1 as [s|o os s1 s2 s3 Hl Hr _ IH]; intros Hi Hu Hn; [exists []; symmetry; apply app_nil_r|]. cbn [length] in *.
  destruct (run_op_post o s1 s2 Hi Hu Hl ltac:(lia) Hr) as (Hi2 & Hu2 & Hk & _). pose proof (kp_next _ _ _ _ Hk).
  destruct (IH Hi2 Hu2 ltac:(lia)) as (ev2 & E2). destruct (kp_events _ _ _ _ Hk) as (ev1 & E1). exists (ev1 ++ ev2). rewrite E2, E1, app_assoc. reflexivity.
Qed.

(** How many turns CPU [c] is away from slot [j]. *)
Definition gap (s : pstate) (c j : nat) : nat :=
  let a := position s c in if (a <=? j)%nat then (j - a)%nat else (NPROC - a + j + 1)%nat.

Lemma landed_gap c j s s' : inv s' -> runnable s j -> landed c (position s c) s s' -> ran_since j s s' \/ (gap s' c j < gap s c j)%nat.
Proof.
  intros Hi Hj [L1 L2]. unfold gap. destruct L1 as [L1|(i & L1 & Hle)].
  - assert (Ep : position s' c = O) by (unfold position; rewrite L1; reflexivity). rewrite Ep. destruct (Nat.leb_spec (position s c) j) as [Ha|Ha].
    + destruct (L2 j Hj Ha) as [Hr|(i & Hi' & _)]; [auto|congruence].
    + right. cbn [Nat.leb]. lia.
  - assert (Hb : (i < NPROC)%nat) by (destruct (r_in _ _ (k_runs _ _ _ _ _ _ Hi) c i L1) as [p Hp]; exact (slot_below _ _ _ Hi Hp)).
    assert (Ep : position s' c = S i) by (unfold position; rewrite L1; reflexivity). rewrite Ep. destruct (Nat.leb_spec (position s c) j) as [Ha|Ha].
    + destruct (L2 j Hj Ha) as [Hr|(i' & Hi' & Hlt)]; [auto|]. right. assert (i' = i) as -> by congruence. destruct (Nat.leb_spec (S i) j); lia.
    + right. destruct (Nat.leb_spec (S i) j); lia.
Qed.

Lemma op_gap o c j s s' : inv s' -> runnable s j -> keeps (op_cpu o) 1 s s' -> moved o s s' ->
  ran_since j s s' \/ runnable s' j /\ (gap s' c j + (if decide (op_cpu o = c) then if schedules o then 1 else 0 else 0) <= gap s c j)%nat.
Proof.
  intros Hi Hj Hk Hm. destruct (kp_runnable _ _ _ _ Hk j Hj) as [Hr|Hr]; [auto|].
  destruct (decide (op_cpu o = c)) as [Ec|Ec].
  - destruct Hm as [Hm|[Es Ep]].
    + rewrite Ec in Hm. destruct (landed_gap c j s s' Hi Hj Hm) as [?|Hlt]; [auto|]. right. split; [exact Hr|]. destruct (schedules o); lia.
    + right. split; [exact Hr|]. rewrite Es. unfold gap, position. rewrite Ep. lia.
  - right. split; [exact Hr|]. unfold gap, position. rewrite (kp_cpus _ _ _ _ Hk) by congruence. lia.
Qed.

Definition turns (c : nat) (os : list op) : nat := length (filter (fun o => op_cpu o = c /\ schedules o = true) os).

Lemma runs_to_gap c j os s s' : runs_to os s s' -> inv s -> unlocked s -> nextpid s + Z.of_nat (length os) < 2147483648 -> runnable s j ->
  ran_since j s s' \/ runnable s' j /\ (gap s' c j + turns c os <= gap s c j)%nat.
Proof.
  induction 1 as [s|o os s1 s2 s3 Hl Hr Hrest IH]; intros Hi Hu Hn Hj; cbn [length] in *; [right; unfold turns; cbn; split; [exact Hj|lia]|].
  destruct (run_op_post o s1 s2 Hi Hu Hl ltac:(lia) Hr) as (Hi2 & Hu2 & Hk & Hm). pose proof (kp_next _ _ _ _ Hk).
  pose proof (runs_to_events _ _ _ Hrest Hi2 Hu2 ltac:(lia)) as Hev.
  destruct (op_gap o c j s1 s2 Hi2 Hj Hk Hm) as [Hran|[Hj2 Hg]]; [left; exact (ran_since_l _ _ _ _ Hran Hev)|].
  destruct (IH Hi2 Hu2 ltac:(lia) Hj2) as [Hran|[Hj3 Hg3]]; [left; exact (ran_since_r _ _ _ _ (kp_events _ _ _ _ Hk) Hran)|].
  right. split; [exact Hj3|]. unfold turns in *. rewrite filter_cons. destruct (decide (op_cpu o = c)) as [E1|E1], (schedules o) eqn:E2;
    first [rewrite decide_True by auto; cbn [length]; lia | rewrite decide_False by (intros [? ?]; congruence); lia].
Qed.
End ops.

(** ** A small machine *)

(** Addresses are given out in order and not used again; files and inodes are not counted. *)
Definition small_alloc : K Z Z := fun n => Ok (n, n + 4096).
#[export] Instance small_services : Services Z := {|
  kalloc := small_alloc;
  kfree := fun _ => skip;
  setupkvm := small_alloc;
  inituvm := fun _ => skip;
  copyuvm := fun _ _ => small_alloc;
  freevm := fun _ => skip;
  allocuvm := fun _ _ b => mret b;
  deallocuvm := fun _ _ b => mret b;
  filedup := fun f => mret f;
  fileclose := fun _ => skip;
  idup := fun i => mret i;
  iput := fun _ => skip;
  begin_op := skip;
  end_op := skip;
  namei_root := mret (Some O);
  fs_start := skip;
  scheduling_event := skip;
|}.

Definition addresses_ok (n : Z) (m : gmultiset Z) : Prop :=
  (forall a, (multiplicity a m <= 1)%nat) /\ (forall a, a ∈ m -> a < n).
Definition small_rep (n : Z) (h : held) : Prop := 0 < n /\ addresses_ok n (h_stacks h) /\ addresses_ok n (h_dirs h).

Lemma addresses_add n m : addresses_ok n m -> addresses_ok (n + 4096) (m ⊎ {[+ n +]}).
Proof.
  intros [A1 A2]. split.
  - intros a. rewrite multiplicity_disj_union, multiplicity_singleton. specialize (A1 a). case_decide as Hd; [|lia]. subst a.
    destruct (decide (n ∈ m)) as [Hin|Hin]; [specialize (A2 n Hin); lia|]. apply not_elem_of_multiplicity in Hin. lia.
  - intros a Ha. apply gmultiset_elem_of_disj_union in Ha as [Ha|Ha]; [specialize (A2 a Ha); lia|]. apply gmultiset_elem_of_singleton in Ha. lia.
Qed.

Lemma addresses_del n m a : addresses_ok n m -> addresses_ok n (m ∖ {[+ a +]}).
Proof.
  intros [A1 A2]. split.
  - intros b. rewrite multiplicity_difference. specialize (A1 b). lia.
  - intros b Hb. apply A2. multiset_solver.
Qed.

Lemma addresses_up n m : addresses_ok n m -> addresses_ok (n + 4096) m.
Proof. intros [A1 A2]. split; [exact A1|]. intros a Ha. specialize (A2 a Ha). lia. Qed.

#[export] Instance small_spec : ServicesSpec Z.
Proof.
  refine {| rep := small_rep |}.
  all: try (intros e h a [= <-]; assumption).
  - intros e h a (_ & [A1 _] & _). apply A1.
  - intros e h a (_ & _ & [A1 _]). apply A1.
  - intros e h (H1 & H2 & H3) a e' [= <- <-]. right. split; [lia|].
    split; [lia|]. split; [exact (addresses_add _ _ H2)|exact (addresses_up _ _ H3)].
  - intros e h a (H1 & H2 & H3) _ [] e' [= <-]. split; [exact H1|]. split; [exact (addresses_del _ _ _ H2)|exact H3].
  - intros e h d n (H1 & H2 & H3) _ a e' [= <- <-]. right. split; [lia|].
    split; [lia|]. split; [exact (addresses_up _ _ H2)|exact (addresses_add _ _ H3)].
  - intros e h a (H1 & H2 & H3) _ [] e' [= <-]. split; [exact H1|]. split; [exact H2|exact (addresses_del _ _ _ H3)].
  - intros e h d a b Hr _ x e' [= <- <-]. exact Hr.
  - intros e h d a b Hr _ x e' [= <- <-]. exact Hr.
  - intros e h f Hr _ x e' [= <- <-]. split; [reflexivity|exact Hr].
  - intros e h f Hr _ [] e' [= <-]. exact Hr.
  - intros e h i Hr _ x e' [= <- <-]. split; [reflexivity|exact Hr].
  - intros e h i Hr _ [] e' [= <-]. exact Hr.
  - intros e h Hr [] e' [= <-]. exact Hr.
  - intros e h Hr [] e' [= <-]. exact Hr.
  - intros e h Hr [] e' [= <-]. exact Hr.
  - intros e h Hr [] e' [= <-]. exact Hr.
Defined.

(** None of these calls stops. *)
Lemma small_returns w : ~ service_stops w.
Proof. intros (e & h & f & _ & Hs & E). destruct Hs; discriminate E. Qed.

Definition zero_tf : trapframe := TF 0 0 0 0 0 0 0 0 [].
Definition unused_slot : proc := MkProc 0 0 0 UNUSED 0 None zero_tf AtForkret false None false (replicate NOFILE None) None [] (initlock "").
(** The first process, with the address space [d] and the kernel stack [k], runs on CPU 0; CPU 1 has none. *)
Definition first_at (n d k : Z) : proc :=
  MkProc n d k RUNNING 1 None user_tf AtForkret false None false (replicate NOFILE None) (Some O) [] (initlock "select").
Definition boot_at {E : Type} (n d k : Z) (e : E) : @pstate E :=
  PState (first_at n d k :: replicate 63 unused_slot) 2 (Some O) false (initlock "ptable")
    [PCpu (Cpu 0 true true) (Some O); PCpu (Cpu 0 true true) None] e [].

Section boot.
Context {E : Type} (n d k : Z) (e : E).
Hypotheses (Hd : d <> 0) (Hk : k <> 0).
Abbreviation boot := (boot_at n d k e).

Lemma boot_slot i p : table boot !! i = Some p -> i = O /\ p = first_at n d k \/ p = unused_slot.
Proof. destruct i as [|i]; cbn [table boot_at lookup list_lookup]; [intros [= <-]; auto|]. intros Hp. apply lookup_replicate in Hp as [-> _]. auto. Qed.

Lemma total_replicate {A} `{Countable A} (f : proc -> gmultiset A) p j : f p = ∅ -> total f (replicate j p) = ∅.
Proof. intros Hf. induction j as [|j IH]; [reflexivity|]. cbn [replicate]. rewrite total_cons, Hf, IH. multiset_solver. Qed.

Lemma boot_total {A} `{Countable A} (f : proc -> gmultiset A) : f unused_slot = ∅ -> total f (table boot) = f (first_at n d k).
Proof. intros Hf. unfold boot_at. cbn [table]. rewrite total_cons, total_replicate by exact Hf. multiset_solver. Qed.

Lemma boot_tree : tree (table boot) (nextpid boot) (initproc boot) (events boot).
Proof.
  assert (Hun : ~ alive unused_slot) by (intros [Ha|[Ha|Ha]]; discriminate). constructor.
  - reflexivity.
  - reflexivity.
  - intros i p Hp. destruct (boot_slot i p Hp) as [[-> ->] | ->].
    + constructor; cbn; try discriminate; try reflexivity; try lia; try assumption; intros; try assumption.
      * exfalso. match goal with Hn : ~ alive _ |- _ => apply Hn end. right. right. reflexivity.
      * apply not_elem_of_nil.
    + constructor; try contradiction; try reflexivity; try discriminate; try (intros Hu; destruct (Hu eq_refl)).
      intros _. split; [|reflexivity]. apply Forall_replicate. reflexivity.
  - intros i j p q Hi Hj Hp Hq _. destruct (boot_slot i p Hi) as [[-> _] | ->]; [|destruct (Hp eq_refl)]. destruct (boot_slot j q Hj) as [[-> _] | ->]; [reflexivity|destruct (Hq eq_refl)].
  - exists O, (first_at n d k). repeat split. right. right. reflexivity.
  - rewrite boot_total by reflexivity. reflexivity.
  - constructor.
  - constructor.
  - intros w j Hin. apply not_elem_of_nil in Hin. contradiction.
Qed.

Lemma boot_at_inv `{ServicesSpec E} : rep e (Held {[+ k +]} {[+ d +]} ∅ {[+ O +]}) -> inv boot /\ unlocked boot.
Proof.
  intros Hr. split; [|split; [reflexivity|repeat constructor]]. constructor.
  - exact boot_tree.
  - unfold holdings. rewrite !boot_total by reflexivity. exact Hr.
  - intros i p Hp Hs _. destruct (boot_slot i p Hp) as [[_ ->] | ->]; discriminate.
  - intros i p Hp _. destruct (boot_slot i p Hp) as [[_ ->] | ->]; discriminate.
  - constructor.
    + intros i p Hp. destruct (boot_slot i p Hp) as [[-> ->] | ->].
      * split; [|reflexivity]. intros _. exists O. reflexivity.
      * split; [discriminate|]. intros (c & Hc). destruct c as [|[|c]]; try discriminate Hc. injection Hc as <-. discriminate Hp.
    + intros c i Hc. destruct c as [|[|c]]; try discriminate Hc. injection Hc as <-. eexists. reflexivity.
    + intros c c' i Hc Hc'. destruct c as [|[|c]], c' as [|[|c']]; try discriminate Hc; try discriminate Hc'. reflexivity.
Qed.

Lemma boot_fork : legal (Fork 0) boot.
Proof. exists O, (first_at n d k). split; [reflexivity|]. split; [reflexivity|]. eexists. reflexivity. Qed.
End boot.

Definition first_process : proc := first_at PGSIZE 8192 4096.
Definition boot : @pstate Z := boot_at PGSIZE 8192 4096 12288.

Lemma boot_inv : inv boot /\ unlocked boot.
Proof.
  apply boot_at_inv; [discriminate|discriminate|]. split; [reflexivity|].
  assert (Hs : forall a, 0 < a < 12288 -> addresses_ok 12288 {[+ a +]}).
  { intros a Ha. split; [|intros b Hb; apply gmultiset_elem_of_singleton in Hb; lia].
    intros b. rewrite multiplicity_singleton. case_decide; lia. }
  split; apply Hs; cbn; lia.
Qed.

(** The first process makes a child and waits for it; the child runs on CPU 1 and exits. *)
Definition demo : list op := [Fork 0; Pass 1; Wait 0; ExitClose 1; ExitZombie 1; Pass 0].
Definition after (o : op) (s : @pstate Z) : @pstate Z := match run_op o s with Ok (_, s') => s' | _ => s end.
Definition demo_end : @pstate Z := foldl (fun s o => after o s) boot demo.

Lemma demo_runs : runs_to demo boot demo_end.
Proof.
  unfold demo, demo_end. cbn [foldl]. eapply runs_cons; [|vm_compute; reflexivity|].
  { exists O, first_process. split; [reflexivity|]. split; [reflexivity|]. eexists. reflexivity. }
  eapply runs_cons; [|vm_compute; reflexivity|]. { reflexivity. }
  eapply runs_cons; [|vm_compute; reflexivity|]. { eexists. reflexivity. }
  eapply runs_cons; [|vm_compute; reflexivity|].
  { eexists _, _. split; [reflexivity|]. split; [reflexivity|]. split; [eexists; reflexivity|discriminate]. }
  eapply runs_cons; [|vm_compute; reflexivity|].
  { eexists _, _. split; [reflexivity|]. split; [reflexivity|]. split; [|discriminate]. split; [|reflexivity]. repeat constructor. }
  eapply runs_cons; [|vm_compute; reflexivity|]. { reflexivity. }
  vm_compute. constructor.
Qed.

(** ** Lists as multisets *)

Lemma nodup_multiplicity (l : list Z) : NoDup l <-> forall x, (multiplicity x (list_to_set_disj l : gmultiset Z) <= 1)%nat.
Proof.
  induction l as [|y l IH].
  - split; [|constructor]. intros _ x. rewrite list_to_set_disj_nil, multiplicity_empty. lia.
  - rewrite NoDup_cons, IH. split.
    + intros [Hy Hl] x. rewrite list_to_set_disj_cons, multiplicity_disj_union, multiplicity_singleton. specialize (Hl x).
      case_decide as Hd; [|lia]. subst x. assert (Hm : multiplicity y (list_to_set_disj l : gmultiset Z) = O); [|lia].
      apply not_elem_of_multiplicity. rewrite elem_of_list_to_set_disj. exact Hy.
    + intros Hl. split.
      * intros Hin. specialize (Hl y). rewrite list_to_set_disj_cons, multiplicity_disj_union, multiplicity_singleton_eq in Hl.
        rewrite <- (elem_of_list_to_set_disj (A := Z)), elem_of_multiplicity in Hin. lia.
      * intros x. specialize (Hl x). rewrite list_to_set_disj_cons, multiplicity_disj_union in Hl. lia.
Qed.

(** CPU 0 can always give up its process or look for one. *)
Lemma turns_exist {E : Type} `{ServicesSpec E} (Hret : forall w, ~ service_stops w) (n : nat) : forall s : @pstate E, inv s -> unlocked s -> (0 < length (procs s))%nat ->
  nextpid s + Z.of_nat n < 2147483647 -> exists os s', length os = n /\ turns 0 os = n /\ runs_to os s s'.
Proof.
  induction n as [|n IH]; intros s Hi Hu Hl Hn; [exists [], s; repeat split; constructor|].
  assert (Ho : exists o, legal o s /\ op_cpu o = O /\ schedules o = true).
  { destruct (lookup_lt_is_Some_2 (procs s) 0 Hl) as [[me|] Hme]; [exists (Yield 0)|exists (Pass 0)]; split; try (split; reflexivity); [exists me|]; exact Hme. }
  destruct Ho as (o & Hlo & Eo & Es). destruct (proj1 (wp_cases _ _ _) (wp_op o s Hi Hu Hlo ltac:(lia))) as [([] & s1 & E1 & Hi1 & Hu1 & Hk & _)|(w & _ & Hw)]; [|destruct (Hret w Hw)].
  pose proof (kp_next _ _ _ _ Hk). destruct (IH s1 Hi1 Hu1) as (os & s' & El & Et & Hr); [rewrite (kp_len _ _ _ _ Hk); exact Hl|lia|].
  exists (o :: os), s'. split; [cbn; congruence|]. split; [|econstructor; eauto].
  unfold turns in *. rewrite filter_cons, decide_True by auto. cbn [length]. congruence.
Qed.

Lemma in_zombies t n : n ∈ total pzombie t -> exists i p, t !! i = Some p /\ state p = ZOMBIE /\ pid p = n.
Proof.
  induction t as [|p t IH]; intros Hn.
  - apply gmultiset_elem_of_empty in Hn. contradiction.
  - rewrite total_cons in Hn. apply gmultiset_elem_of_disj_union in Hn as [Hn|Hn].
    + exists O, p. unfold pzombie in Hn. case_decide as Hd; [|apply gmultiset_elem_of_empty in Hn; contradiction].
      apply gmultiset_elem_of_singleton in Hn. auto.
    + destruct (IH Hn) as (i & q & Hq & Hz & Ep). exists (S i), q. auto.
Qed.
End ProcOps.

Module ProcProps.
Import Spinlock Proc ProcFacts ProcSteps ProcRun ProcOps.

(** C2: The process table stays consistent on all CPUs, whatever sequence of [fork], [exit], [wait],
    [yield], [sleep], [wakeup], [kill], [growproc] and scheduler passes they make: a process runs on a CPU
    exactly when it is that CPU's [proc], identifiers are unique, every process but the first has a
    parent that is alive, the table holds exactly the kernel stacks, address spaces, files and
    inodes of its processes (none is lost, none is freed twice), the lock is free between
    operations; and from there every further operation returns, unless the allocator, vm.c, file.c, fs.c, log.c or
    [addRandomEvent] stops in a call that proc.c makes: no panic of proc.c is reached, and no wait for a lock of its.
    Of those calls only the effect on what the table holds is assumed, for the calls that return; ProcVm.v shows it for
    the code of kalloc.c, vm.c, file.c and fs.c.  Fewer than 2^31 - 1 identifiers are used. *)
Theorem process_table_invariant {E : Type} `{ServicesSpec E} (os : list op) (s s' : @pstate E) :
  inv s -> unlocked s -> nextpid s + Z.of_nat (length os) < 2147483647 -> runs_to os s s' ->
  inv s' /\ unlocked s' /\
  forall o, legal o s' -> (exists s'', run_op o s' = Ok (tt, s'')) \/ (exists w, stop_of (run_op o s') = Some w /\ service_stops w).
Proof.
  intros Hi Hu Hn Hr. destruct (runs_to_inv os s s' Hr Hi Hu ltac:(lia)) as (Hi' & Hu' & Hn'). split; [exact Hi'|]. split; [exact Hu'|].
  intros o Hl. destruct (proj1 (wp_cases _ _ _) (wp_op o s' Hi' Hu' Hl ltac:(lia))) as [([] & s'' & Es & _)|Hw]; eauto.
Qed.

(** A run with services that always return; and a process that forks on the allocator, page tables, files and inodes of
    the kernel. *)
Lemma process_table_invariant_witness :
  (inv boot /\ unlocked boot /\ runs_to demo boot demo_end /\ inv demo_end /\ exists s'', run_op (Fork 0) demo_end = Ok (tt, s'')) /\
  (exists s : @pstate (ProcVm.kernel Kernel.kstate unit), @inv _ _ ProcVm.demo_spec s /\ @legal _ (Fork 0) s /\
     ((exists s'', @run_op _ ProcVm.demo_services (Fork 0) s = Ok (tt, s'')) \/
      (exists w, stop_of (@run_op _ ProcVm.demo_services (Fork 0) s) = Some w /\ @service_stops _ _ ProcVm.demo_spec w))).
Proof.
  split.
  - destruct boot_inv as [Hi Hu]. destruct (process_table_invariant demo boot demo_end Hi Hu ltac:(cbn; lia) demo_runs) as (Hi' & Hu' & Ho).
    split; [exact Hi|]. split; [exact Hu|]. split; [exact demo_runs|]. split; [exact Hi'|].
    destruct (Ho (Fork 0)) as [Hok|(w & _ & Hw)]; [|exact Hok|destruct (small_returns w Hw)].
    eexists _, _. split; [vm_compute; reflexivity|]. split; [vm_compute; reflexivity|]. eexists. reflexivity.
  - destruct ProcVm.demo_kernel as (k & a & d & Ha & Hd & Hr). exists (boot_at 8192 d a k).
    destruct (@boot_at_inv _ 8192 d a k Hd Ha _ ProcVm.demo_spec Hr) as [Hi Hu]. split; [exact Hi|]. split; [exact (boot_fork 8192 d a k)|].
    apply (@process_table_invariant _ _ ProcVm.demo_spec [] _ (boot_at 8192 d a k) Hi Hu); [cbn; lia|constructor|exact (boot_fork 8192 d a k)].
Defined.

(** C11: Every process that exits is collected at most once, by the process that forked it or by the first
    process; until then it is a zombie whose parent is alive and does not sleep in [wait]. *)
Theorem exits_collected_once {E : Type} `{ServicesSpec E} (os : list op) (s s' : @pstate E) :
  inv s -> unlocked s -> nextpid s + Z.of_nat (length os) < 2147483647 -> runs_to os s s' ->
  NoDup (exited (events s')) /\ NoDup (reaped (events s')) /\
  (forall n, n ∈ reaped (events s') -> n ∈ exited (events s')) /\
  (forall n, n ∈ exited (events s') -> n ∈ reaped (events s') \/
    exists i p j q, table s' !! i = Some p /\ state p = ZOMBIE /\ pid p = n /\ parent p = Some j /\
      table s' !! j = Some q /\ alive q /\ ~ (state q = SLEEPING /\ context q = InWait)) /\
  (forall w n, Reaped w n ∈ events s' -> Forked w n ∈ events s' \/
    exists i p, initproc s' = Some i /\ table s' !! i = Some p /\ pid p = w).
Proof.
  intros Hi Hu Hn Hr. destruct (runs_to_inv os s s' Hr Hi Hu ltac:(lia)) as (Hi' & _). pose proof (k_tree _ _ _ _ _ _ Hi') as T.
  pose proof (t_zombies _ _ _ _ T) as Hz. pose proof (t_once _ _ _ _ T) as Hnd. split; [exact Hnd|]. split; [|split; [|split; [|exact (t_reaped _ _ _ _ T)]]].
  - apply nodup_multiplicity. intros x. rewrite nodup_multiplicity in Hnd. specialize (Hnd x). rewrite Hz, multiplicity_disj_union in Hnd. lia.
  - intros n Hin. rewrite <- (elem_of_list_to_set_disj (A := Z)) in Hin |- *. rewrite Hz. apply gmultiset_elem_of_disj_union. auto.
  - intros n Hin. rewrite <- (elem_of_list_to_set_disj (A := Z)), Hz, gmultiset_elem_of_disj_union, elem_of_list_to_set_disj in Hin.
    destruct Hin as [Hin|Hin]; [auto|]. right. destruct (in_zombies _ _ Hin) as (i & p & Hp & Hzp & Ep).
    assert (Hup : used p) by (unfold used; congruence). pose proof (s_parent _ _ _ _ _ _ (t_slot _ _ _ _ T i p Hp) Hup) as Hpar. unfold parent_ok in Hpar.
    destruct (parent p) as [j|] eqn:Ej.
    + destruct Hpar as (_ & _ & q & Hq & Ha & _). exists i, p, j, q. repeat split; auto. intros [Hs Hc].
      destruct (k_waits _ _ _ _ _ _ Hi' j q Hq Hs Hc) as (_ & _ & _ & Hno). exact (Hno i p Hp Ej Hzp).
    + destruct (t_init _ _ _ _ T) as (j & q & Ei & Hq & Ha). rewrite Hpar in Ei. injection Ei as <-. rewrite Hp in Hq. injection Hq as <-.
      destruct (not_alive_zombie p Hzp Ha).
Qed.

Lemma exits_collected_once_witness :
  runs_to demo boot demo_end /\ NoDup (reaped (events demo_end)) /\ events demo_end = [Forked 1 2; Ran 1; Exited 2; Ran 0; Reaped 1 2].
Proof.
  destruct boot_inv as [Hi Hu]. destruct (exits_collected_once demo boot demo_end Hi Hu ltac:(cbn; lia) demo_runs) as (_ & Hr & _).
  split; [exact demo_runs|]. split; [exact Hr|]. vm_compute. reflexivity.
Defined.

(** C18: The scheduler is fair: a process that is runnable runs before any CPU has looked for a process
    more than 64 times, whatever all the CPUs do. *)
Theorem scheduler_fair {E : Type} `{ServicesSpec E} (c j : nat) (os : list op) (s s' : @pstate E) :
  inv s -> unlocked s -> nextpid s + Z.of_nat (length os) < 2147483647 -> runs_to os s s' ->
  runnable s j -> (64 < turns c os)%nat -> ran_since j s s'.
Proof.
  intros Hi Hu Hn Hr Hj Ht. destruct (runs_to_gap c j os s s' Hr Hi Hu ltac:(lia) Hj) as [Hran|[_ Hg]]; [exact Hran|].
  pose proof (runnable_below s j Hi Hj) as Hb. assert (Hle : (gap s c j <= 64)%nat); [|lia].
  unfold gap, NPROC in *. destruct (Nat.leb_spec (position s c) j); lia.
Qed.

(** CPU 0 gives up its process 65 times; the child that was forked before runs. *)
Lemma scheduler_fair_witness : exists os s', inv (after (Fork 0) boot) /\ runnable (after (Fork 0) boot) 1 /\
  turns 0 os = 65%nat /\ runs_to os (after (Fork 0) boot) s' /\ ran_since 1 (after (Fork 0) boot) s'.
Proof.
  destruct boot_inv as [Hi Hu]. assert (Hf : runs_to [Fork 0] boot (after (Fork 0) boot)).
  { eapply runs_cons; [|vm_compute; reflexivity|vm_compute; constructor]. exists O, first_process. split; [reflexivity|]. split; [reflexivity|]. eexists. reflexivity. }
  destruct (runs_to_inv _ _ _ Hf Hi Hu ltac:(cbn; lia)) as (Hi1 & Hu1 & Hn1). change (nextpid boot) with 2 in Hn1. cbn [length] in Hn1.
  destruct (turns_exist small_returns 65 _ Hi1 Hu1) as (os & s' & El & Et & Hr); [vm_compute; lia|lia|]. exists os, s'.
  assert (Hj : runnable (after (Fork 0) boot) 1) by (eexists; split; [vm_compute; reflexivity|reflexivity]).
  split; [exact Hi1|]. split; [exact Hj|]. split; [exact Et|]. split; [exact Hr|].
  apply (scheduler_fair 0 1 os _ s' Hi1 Hu1); [lia|exact Hr|exact Hj|lia].
Defined.

(** [kill(0)] takes an unused slot for a process: it returns 0 and marks the slot, and the next
    process forked into it is killed at birth. *)
Theorem kill_zero_kills_next_child {E : Type} `{ServicesSpec E} (c me i : nat) (p u : proc) (s : @pstate E) :
  inv s -> unlocked s -> procs s !! c = Some (Some me) -> table s !! me = Some p -> is_Some (cwd p) -> nextpid s < 2147483647 ->
  list_find (fun q => state q = UNUSED) (table s) = Some (i, u) -> list_find (fun q => pid q = 0) (table s) = Some (i, u) ->
  wp (r ← kill c 0; n ← fork c; mret (r, n)) (fun x s' => x.1 = 0 /\
    (x.2 = -1 \/ exists q, table s' !! i = Some q /\ pid q = x.2 /\ parent q = Some me /\ state q = RUNNABLE /\ killed q = true)) s.
Proof.
  intros Hi Hu Hc Hp Hcwd Hn Hf0 Hk0. pose proof Hf0 as Hf. apply list_find_Some in Hf as (Hs & Hun & Hfirst). apply wp_bind.
  eapply wp_mono; [apply (wp_kill_slot c 0 i u s Hi Hu (cpu_exists _ _ _ Hc) Hk0); congruence|]. cbv beta. intros r s1 ((Hi1 & Hu1 & Hk & Ep1) & -> & Et & En).
  assert (Hne : i <> me) by (destruct (running s c me Hi Hc) as (p' & Hp' & Hr & _); congruence). rewrite <- Ep1 in Hc.
  apply wp_bind. eapply wp_mono; [apply (wp_fork c me p s1 Hi1 Hu1 Hc); [rewrite Et, list_lookup_insert_ne by exact Hne; exact Hp|exact Hcwd|lia]|].
  cbv beta. intros n s2 [_ Hfork]. apply wp_ret. cbn [fst snd]. split; [reflexivity|]. destruct Hfork as [->|(i' & u' & k & d & ip & Hf' & _ & -> & Hq)]; [auto|].
  right. rewrite Et in Hf'. apply list_find_Some in Hf' as (Hi' & Hun' & Hfirst'). assert (i' = i) as ->.
  { pose proof (lookup_lt_Some _ _ _ Hs) as Hlt. destruct (Nat.lt_trichotomy i i') as [Hlt'|[->|Hlt']]; [|reflexivity|].
    - exfalso. refine (Hfirst' i (set_killed true u) _ Hlt' Hun). apply list_lookup_insert_eq, Hlt.
    - exfalso. rewrite list_lookup_insert_ne in Hi' by lia. exact (Hfirst i' u' Hi' Hlt' Hun'). }
  rewrite list_lookup_insert_eq in Hi' by exact (lookup_lt_Some _ _ _ Hs). injection Hi' as <-. eexists. split; [exact Hq|]. repeat split.
Qed.

Lemma kill_zero_kills_next_child_witness :
  list_find (fun q => state q = UNUSED) (table boot) = Some (1%nat, unused_slot) /\
  wp (r ← kill 0 0; n ← fork 0; mret (r, n)) (fun x s' => x.1 = 0 /\
    (x.2 = -1 \/ exists q, table s' !! 1%nat = Some q /\ pid q = x.2 /\ parent q = Some O /\ state q = RUNNABLE /\ killed q = true)) boot.
Proof.
  destruct boot_inv as [Hi Hu]. split; [vm_compute; reflexivity|].
  apply (kill_zero_kills_next_child 0 0 1 first_process unused_slot boot Hi Hu); first [reflexivity | eexists; reflexivity | vm_compute; reflexivity].
Defined.
End ProcProps.
